(* ===== verification/_CoqProject ===== *)
-Q . S2P
Prelude.v
BTree.v
RunQueue.v
RunQueueInv.v
RunQueueOrder.v
RunQueueProps.v
Time.v
TimeProps.v
TimedEvents.v
TimedEventsInv.v
TimedEventsProps.v
SignalLists.v
SignalListsProps.v
NetworkTrace.v
NetworkEngine.v
NetworkSim.v
NetworkSafe.v
NetworkValid.v
NetworkProps.v
Fenwick.v
BubbleSort.v
Bubbles.v
BubblesInv.v
BubblesIter.v
BubblesProps.v
BubblesOrder.v
Schedule.v
Needleman.v
NeedlemanProps.v
ScheduleSearch.v
ScheduleSearchProps.v
Damerau.v
DamerauProps.v
Pedigree.v
PedigreeProps.v
Text.v
HappensBefore.v
HbCycle.v
HbNormalize.v
HbCount.v
HbGate.v
HbGateInv.v
HbGateProps.v
HbDsl.v
HbDslProps.v
HbLaunch.v
HbLaunchProps.v
HbExamples.v
Resource.v
WorkSpan.v
WorkSpanInv.v
WorkSpanLife.v
WorkSpanCommit.v
WorkSpanProps.v
WorkSpanOutside.v
ReplayCursor.v
Replayer.v
ReplayerInv.v
ReplayerSteps.v
ReplayerProps.v
ReplayerStops.v
FairContinuation.v
FairContinuationProps.v
Boundary.v
BoundaryReplay.v
BoundaryStream.v
BoundaryGuest.v
BoundarySystem.v
BoundaryProps.v
BoundaryController.v
BoundaryControllerProps.v
LseInsn.v
LseRewrite.v
LseArm.v
LseArmProps.v
LseSites.v
LseSeq.v
LseProps.v
LseElf.v
LseElfProps.v
