(* ===== verification/Prelude.v ===== *)
(** * Verification of Hermit's deterministic core

    Hermit runs a program deterministically: a tracer (Reverie) stops every
    guest thread at its system calls, and Detcore decides which thread runs
    next, what time it is and what the outside world said.  The parts modelled
    here are the pure state machines those decisions rest on.

    - The _scheduler_ keeps the runnable threads in a run queue
      (src/detcore/src/scheduler/runqueue.rs).  It pops a thread tentatively,
      lets it run for a turn, and commits or undoes the pop.
    - The _logical clocks_ (src/detcore-model/src/time.rs) count the work of
      each thread; the aggregate clock orders everything that happens.
    - The _timed events_ (src/detcore/src/scheduler/timed_waiters.rs) hold what
      is due at a given time: sleeping threads, alarms, POSIX timers, delayed
      child exits.  The scheduler pops them against the aggregate clock.
    - The _signal lists_ (src/detcore/src/scheduler/signal_lists.rs) keep the
      entries Linux would hold in each signal queue, where a timer's expiry
      queues behind an ordinary send.
    - _Network record and replay_ (src/detcore-model/src/network_engine.rs and
      network_trace.rs) records what the host network did, stamped with the
      aggregate clock, and feeds it back in a replay.
    - The _pedigree_ of a thread (src/detcore-model/src/pedigree.rs) is its path
      in the tree of forks, from which a process id can be computed.
    - _Schedule analysis_ ([hermit analyze]) takes a recorded schedule that
      passes and one that fails (src/detcore-model/src/schedule.rs) and searches
      for two that are one swap apart
      (src/hermit-cli/src/bin/hermit/schedule_search.rs).  It stands on the
      distances and midpoints of src/detcore/src/edit_distance: the bubble sort
      of one schedule into the other (bubbles.rs), the Needleman-Wunsch alignment
      (needleman_wunsch.rs) and the Damerau-Levenshtein distance
      (damerau_levenshtein.rs).
    - _Happens-before constraints_ order events of different threads.  A
      specification (src/detcore-model/src/happens_before.rs) is normalized into
      anchors and edges, resolved against debug information and checked for the
      run (src/hermit-cli/src/happens_before.rs); the guest counts its system
      calls against the anchors, and the scheduler holds a thread at an anchor
      until the sources of its hard edges have fired ([HbRuntime] and the [hb_]
      methods of src/detcore/src/scheduler.rs, with the checkpoints of
      src/detcore/src/lib.rs), parking it outside the run queue.
    - _Work and span accounting_ (src/detcore/src/scheduler/work_span.rs) follows
      every committed turn, request, spawn, exit and exec, and reports the total
      CPU time and two bounds of the critical path.
    - _Schedule replay_ (src/detcore/src/scheduler/replayer.rs over the cursor of
      src/detcore-model/src/collections/replay_cursor.rs) compares every event a
      run makes with its recording, tells the scheduler whom to run next, and
      recovers from, counts or stops at differences.  Past the end of the
      recording the _fair continuation_
      (src/detcore/src/scheduler/fair_continuation.rs) orders the run queue by
      the time each thread ran.
    - The _slice-boundary protocol_ records where timeslices end.  A guest counts
      its check-ins and closes a slice with the identity of the last one
      (src/detcore/src/slice_boundary.rs, slice_boundary/callbacks.rs); the
      scheduler's registry of thread incarnations
      (slice_boundary/lifecycle.rs) accepts it; the controller
      (src/detcore/src/scheduler/boundary_controller.rs) records it in the stream
      of src/detcore-model/src/schedule/boundary.rs or matches it against one
      with a strict cursor (scheduler/boundary_replayer.rs), whose lookahead
      reaches the guest as a budget (slice_boundary/grant.rs).
    - The _exclusive-loop rewriter_ for AArch64 (src/detcore/src/aarch64_lse)
      replaces load/store-exclusive retry loops, whose number of branches depends
      on interrupts, by single atomic instructions, in place: insn.rs decodes and
      encodes, rewrite.rs plans and applies the rewrite of a code range, elf.rs
      does so for the sections of an ELF image.

    ** Files

    - [Prelude]: panics and build profiles ([outcome], [result]), machine
      integers, doubles, hash-map iteration order, list lemmas.
    - [BTree]: Rust's ordered maps as sorted lists.
    - [RunQueue]: the run queue, one definition per method; [RunQueueInv] its
      invariant, the effect of every mutator and selection, [RunQueueOrder] the fair order and sequences of calls,
      [RunQueueProps] the theorems.
    - [Time]: [RcbTimeMultiplier], [LogicalTime], [DetTime] and [GlobalTime];
      [TimeProps] the theorems.
    - [TimedEvents]: the timed events; [TimedEventsInv] the invariant that the
      pending map and the timer tables agree, and popping; [TimedEventsProps] the
      theorems.
    - [SignalLists]: the pending signal lists and siginfo records;
      their invariant, [SignalListsProps] Linux's queues as the
      reference and the theorems.
    - [NetworkTrace]: trace, validation and file format; [NetworkEngine]: the
      record and replay engine.  [NetworkSim] relates a recording with its replay and has
      the format versions, [NetworkSafe] replay under any guest, [NetworkValid]
      the validity of recordings, [NetworkProps] the theorems.
    - [Fenwick] and [Bubbles]: the binary indexed tree and the iterator over the
      states of a bubble sort.  [BubbleSort] is the sort that makes its swaps one
      by one, the reference; [BubblesInv] and [BubblesIter] relate the two,
      the latter with the matching of two sequences, [BubblesProps] has the
      theorems, [BubblesOrder] the distances of a state to both ends.
    - [Schedule]: the events of a schedule.  [Needleman]: the alignment;
      [NeedlemanProps] its theorems.
    - [ScheduleSearch]: the search, a state monad over an arbitrary tester,
      with the alignment keys of a pair of schedules;
      [ScheduleSearchProps] the theorems.
    - [Damerau]: the edit distance and edit scripts, its
      specification; [DamerauProps] the theorem.
    - [Pedigree]: pedigrees; [PedigreeProps] the theorems.
    - [Text]: Rust strings, trimming, splitting, integer parsing and printing.
    - [HappensBefore]: specifications, normalization, the cycle search and the
      occurrence counters; [HbCycle], [HbNormalize] and [HbCount] their theorems.
    - [HbGate]: the gates over [RunQueue], and the guest side of a checkpoint;
      [HbGateInv] sequences of scheduler events and their invariant,
      [HbGateProps] the theorems.
    - [HbDsl]: the line format; [HbDslProps] its theorem.  [HbLaunch]: location
      resolution and the launch check; [HbLaunchProps] the theorems.
      [HbExamples]: a worked specification and run.
    - [Resource]: resource identities and requests.
    - [WorkSpan]: the accounting, one definition per operation; [WorkSpanInv] the
      invariant and arrivals, [WorkSpanLife] spawns, reaps, exits,
      retirement and exec, [WorkSpanCommit] the time of a commit
      and its recording, [WorkSpanProps] and [WorkSpanOutside] the
      theorems, the latter with a worked run.
    - [ReplayCursor] and [Replayer]: the cursor and the replayer, [observe_event]
      in its four parts.  [ReplayerInv] the invariant, [ReplayerSteps] the
      outcomes of an event and sequences of calls, [ReplayerProps] and
      [ReplayerStops] the theorems, the latter with a worked replay.
    - [FairContinuation]: the accounts and the pass that orders the run queue;
      [FairContinuationProps] the theorems.
    - [Boundary]: records, validation, wire form and cursor, and the registry
      of owners.  [BoundaryReplay]: budgets, mailbox and strict cursor.
      [BoundaryGuest]: observations, callbacks and installed budgets.
      [BoundaryController]: acceptance and consumption over [RunQueue].
      [BoundaryStream] shows that accepted streams validate, [BoundarySystem]
      puts guests and registry together, [BoundaryProps] and
      [BoundaryControllerProps] have the theorems, the latter with worked runs.
    - [LseInsn]: the decoder and the encoders; [LseRewrite]: the idioms, the
      planner and its application; [LseElf]: the plan of an image.  [LseArm] is
      the reference: the manual's encodings of the instructions involved and what
      they do to a thread's state.  [LseArmProps] relates decoder, encoders and
      the operands of the atomics to it, [LseSites] has the shape of what is
      patched, [LseSeq] the equivalence of loops and replacements and the
      simulation between the two machines, [LseProps] and [LseElfProps] the
      theorems.

    ** How the code is modelled

    A struct is a record with the source's field names, an enum an inductive
    type, a method a function that returns the new state.  A method that can
    panic returns [outcome]; one that returns a Rust [Result] returns [result],
    which keeps errors and panics apart.  Integers are [Z] with the width
    written at each operation: [arith_u] and [arith_i] panic or wrap as the
    build profile says, [checked_] and [sat_] functions are the source's.
    [debug_assert!] is compiled in or out by the profile too, so the theorems
    hold of release and of checked builds.  BTreeMap is a sorted association
    list, which fixes its iteration order; HashMap is a finite map whose
    iteration order is the parameter [HashOrder].  Third-party code is an
    interface with its documented laws: [Rng]/[RngSpec] the random generators,
    [Chrono] the epoch's date, [Codec]/[CodecSpec] the bincode payload codec,
    [BitVecOps]/[BitVecLaws] the words of a bit vector, [SysnoTable] the names of
    system calls.  What [object] and [gimli] read from a binary are the input
    lists of [HbLaunch]; what the accounting reads of the rest of the scheduler
    is the record [WorkSpan.View].  The slice reset [next_timeslice] of a guest
    thread is the operation of the class [SliceReset], with the law that it leaves
    the thread's identity and observations alone.  The tester of the
    schedule search, which replays a schedule, is a function of a state of its
    own.  Loops over a list are structural.  The others run on fuel, and the
    theorems show that it is enough: [next_free_turn] of the run queue on the
    length of the queue; the loops of the binary indexed tree on its length, each
    step moving to another node; [passes_loop] and [swap_loop] of the bubble sort
    on the lengths of what they index; the traceback of an alignment on the sum
    of the two lengths; [binary_search] of the schedule search on 34 rounds, which
    halve a 32-bit range; the trimming of a pedigree on its length; the cycle search
    on the number of anchors and edges, each turn consuming an edge or a node; the
    search for a fresh event name on the number of names seen; the eviction of
    zombies on their number.  The stripping
    loops of [damerau_lev] end within the longer length on different sequences
    and, as the theorem says, not at all on equal ones.

    ** What the theorems show

    - Run queue: calls within their contract never panic and keep the
      invariant, in any sequence and under every scheduling heuristic; a
      non-empty queue always yields a turn; the selected thread has the least
      eligible key; yield epochs and yields are honoured; poll upgrades, fair
      ordering, suspension and pushes do exactly what they say.
    - Clocks: the aggregate clock refines a saturating counter of the reported
      work, never moves back, and passes the code's own consistency check.
    - Timed events: any sequence of calls keeps the tables and the pending map
      consistent; a pop yields the least due event; a periodic timer has one
      outstanding expiry and stays on its grid.
    - Signal lists: they refine Linux's queues, keep the module's invariants,
      and exec flushes exactly what it should.
    - Network: a replay at the recorded times answers every guest operation as
      the recording did and uses the recording up; recordings validate; traces
      and version 1 files survive their file format; a replay under any guest
      never panics, never loses or reorders bytes, and never releases input
      early.  Two runs outside the assumptions of the first theorem, where
      record and replay part, are worked out at the end of [NetworkProps].
    - Bubble sort: whatever moves are made, the iterator shows the state that a
      sort which makes its swaps one by one reaches; its swap distance is the
      least number of exchanges of neighbours; matching pairs equal occurrences.
    - Alignment and edit distance: no alignment scores better than the one
      returned, no script is cheaper than the distance returned.
    - Schedule search: with a tester whose verdict depends on the schedule alone
      the search succeeds within logarithmically many passes; with any tester a
      trial's error ends it, and a refined pair has been replayed with both
      outcomes.
    - Pedigrees: ids are positive, a fork keeps the parent's, and at one length
      they determine the path; two paths that share an id are worked out in
      [PedigreeProps].
    - Happens-before: normalization accepts exactly the valid specifications, and
      the cycle search decides acyclicity; the line format denotes its lines; a
      location resolves to the address it denotes, and a launch accepts exactly
      what the run can enforce.  The guest's counters and checkpoints name exactly
      the anchors each system call reaches.  Under any sequence of scheduler
      events an anchor fires only after the sources of its hard edges, no wake-up
      is lost, a closed gate has a cause outside the program's own order, and the
      hold budget is charged and enforced.
    - Work and span: every commit's time is the latest of its predecessors in each
      span; CPU time is conserved through commits, retirements and execs, with no
      panic; the spans are ordered and bounded by the work; memory is bounded; and
      the requests of a thread whose call runs outside the schedule commute with
      everything other threads do.
    - Schedule replay: a run that repeats its recording is followed to the end
      without a desync; in any run no call panics and every recorded event and
      background start is accounted for; a replay stops exactly where its flags
      say, a strict one runs recorded operations in order, and a lenient one is
      never stuck.  A polling thread keeps its turn for exactly the retries
      allowed.
    - Fair continuation: run times stay within one slice of each other, no thread
      starves, and a pass orders the run queue by them.
    - Slice boundaries: what guests close, the registry accepts, through nested
      callbacks, signals and execs; what it accepts reads back and replays to the
      end; the strict cursor accepts exactly the stored records and stays at the
      first difference; accepting a boundary is all or nothing; the lookahead
      names the owner's next boundary and its budget reaches that image once.
    - Exclusive-loop rewriter: every run of a rewritten range, interleaved with
      other threads' writes, is a run of the original; a replacement cannot retry
      and keeps the pair's ordering bits; what is patched lies apart, is entered
      at its head only, and in an image is proven code nothing reads or relocates;
      a plan accounts for every store-exclusive, and a complete report leaves none
      behind.  Whether a store-exclusive succeeds is left open in the reference
      machine: a run of the original exists in which the loop's succeeds.

    ** What is not modelled

    The scheduler's main loop and the system call handlers are asynchronous
    code that drives a traced process; what they ask of the components above is
    stated as the components' contracts.  Of a guest thread's state only the
    fields the slice boundaries read are modelled: how the next deadlines are
    chosen ([next_timeslice]) depends on the configuration, the chaos PRNG and the
    recorded preemptions at once, and is left abstract.  The coalescing of timer
    signals and the discarding of ignored ones decide from masks, dispositions and
    thread trees that running guests publish, and are left out with them.  The JSON form of happens-before
    specifications and of the work and span report goes through serde, and
    refusal texts are kept as structured values.  The rewriter's ELF parsing and the
    evidence that tells code from data (aarch64_lse/mapping.rs) are inputs of the
    modelled planner, and the memory ordering of its atomics is compared bit for
    bit, not by a memory model.  Logging, serde and most Display
    implementations, command line handling and host I/O are left out. *)
From Stdlib Require Import ZArith Lia List Sorting.Sorted.
From Stdlib Require Import SpecFloat.
From stdpp Require Import base gmap list sorting strings.
Open Scope Z_scope.

(** * Identifiers

    [DetPid]/[DetTid] (detcore-model/src/pid.rs) wrap an [i32]; only equality
    and order are ever used on them. *)
Abbreviation DetPid := Z.
Abbreviation DetTid := Z.

(** * Panics and build profiles *)

(** Why a Rust computation panicked. *)
Inductive panic :=
  | PAssert     (* assert!, debug_assert! *)
  | PExpect     (* unwrap / expect on None, indexing a map by a missing key *)
  | POverflow   (* integer overflow under overflow-checks *)
  | PIndex      (* a slice indexed out of its range *)
  | PFuel       (* the bound a loop is modelled with was reached; the theorems
                   about such loops show when it is not *)
  | PExplicit.  (* panic!, and a library call's documented panic *)

(** How a Rust computation ends: with a value or by a panic. *)
Inductive outcome (A : Type) :=
  | Done (a : A)
  | Panic (p : panic).
Arguments Done {A} a.
Arguments Panic {A} p.

#[global] Instance outcome_ret : MRet outcome := @Done.
#[global] Instance outcome_bind : MBind outcome := fun A B f m =>
  match m with Done a => f a | Panic p => Panic p end.

(** [Result<A, E>] of code that can also panic. *)
Inductive result (E A : Type) :=
  | Ok (a : A)
  | Err (e : E)
  | Crash (p : panic).
Arguments Ok {E A} a.
Arguments Err {E A} e.
Arguments Crash {E A} p.

#[global] Instance result_ret {E} : MRet (result E) := fun A => @Ok E A.
#[global] Instance result_bind {E} : MBind (result E) := fun A B f m =>
  match m with Ok a => f a | Err e => Err e | Crash p => Crash p end.
Definition lift {E A} (m : outcome A) : result E A :=
  match m with Done a => Ok a | Panic p => Crash p end.
Definition map_err {E F A} (f : E -> F) (m : result E A) : result F A :=
  match m with Ok a => Ok a | Err e => Err (f e) | Crash p => Crash p end.
Definition ok_or {E A} (o : option A) (e : E) : result E A :=
  match o with Some a => Ok a | None => Err e end.
(** [if c { return Err(e) }] *)
Definition ensure {E} (b : bool) (e : E) : result E () := if b then Ok tt else Err e.

Lemma bind_Done {A B} (m : outcome A) (f : A -> outcome B) b :
  (x ← m; f x) = Done b -> exists a, m = Done a /\ f a = Done b.
Proof. destruct m; simpl; [eauto|done]. Qed.
Lemma bind_Ok {E A B} (m : result E A) (f : A -> result E B) b :
  (x ← m; f x) = Ok b -> exists a, m = Ok a /\ f a = Ok b.
Proof. destruct m; simpl; [eauto|done|done]. Qed.
Lemma ensure_Ok {E} b (e : E) u : ensure b e = Ok u -> b = true.
Proof. by destruct b. Qed.
Lemma ok_or_Ok {E A} (o : option A) (e : E) a : ok_or o e = Ok a <-> o = Some a.
Proof. destruct o; simpl; naive_solver. Qed.

(** A profile fixes whether [debug_assert!] is compiled in and whether integer
    overflow panics or wraps (Cargo.toml: release, dev and validate differ). *)
Record profile := Profile { debug_assertions : bool; overflow_checks : bool }.
Definition release : profile := Profile false false.
Definition validate : profile := Profile true true.

Definition assert_ (b : bool) : outcome () := if b then Done tt else Panic PAssert.
Definition debug_assert_ (bp : profile) (b : bool) : outcome () :=
  if debug_assertions bp then assert_ b else Done tt.
Definition expect {A} (o : option A) : outcome A :=
  match o with Some a => Done a | None => Panic PExpect end.

(** [v[i]] of a slice, and the assignment [v[i] = x]. *)
Definition get_at {A} (v : list A) (i : nat) : outcome A :=
  match v !! i with Some a => Done a | None => Panic PIndex end.
Definition set_at {A} (v : list A) (i : nat) (x : A) : outcome (list A) :=
  if decide (i < length v)%nat then Done (<[i := x]> v) else Panic PIndex.

Lemma get_at_Done {A} (v : list A) i a : v !! i = Some a -> get_at v i = Done a.
Proof. unfold get_at. by intros ->. Qed.
Lemma set_at_Done {A} (v : list A) i x : (i < length v)%nat -> set_at v i x = Done (<[i := x]> v).
Proof. intros H. unfold set_at. by rewrite decide_True. Qed.

(** * Machine integers: values of [Z] with their width written out *)

Definition u32_max : Z := 2 ^ 32 - 1.
Definition u64_max : Z := 2 ^ 64 - 1.
Definition u128_max : Z := 2 ^ 128 - 1.
Definition i64_min : Z := - 2 ^ 63.
Definition i64_max : Z := 2 ^ 63 - 1.

Definition is_u32 (x : Z) : Prop := 0 <= x <= u32_max.
Definition is_u64 (x : Z) : Prop := 0 <= x <= u64_max.
Definition is_i64 (x : Z) : Prop := i64_min <= x <= i64_max.

Definition wrap_u (w x : Z) : Z := x mod 2 ^ w.
Definition wrap_i (w x : Z) : Z := (x + 2 ^ (w - 1)) mod 2 ^ w - 2 ^ (w - 1).

(** A plain [+], [-] or [*] of a [w]-bit unsigned type: the exact result when
    it fits, a panic or the wrapped result otherwise. *)
Definition arith_u (bp : profile) (w x : Z) : outcome Z :=
  if (0 <=? x) && (x <? 2 ^ w) then Done x
  else if overflow_checks bp then Panic POverflow else Done (wrap_u w x).
Definition arith_i (bp : profile) (w x : Z) : outcome Z :=
  if (- 2 ^ (w - 1) <=? x) && (x <? 2 ^ (w - 1)) then Done x
  else if overflow_checks bp then Panic POverflow else Done (wrap_i w x).

Definition checked_u64 (x : Z) : option Z :=
  if (0 <=? x) && (x <=? u64_max) then Some x else None.
Definition sat_add_u64 (a b : Z) : Z := Z.min u64_max (a + b).
Definition sat_sub_u64 (a b : Z) : Z := Z.max 0 (a - b).
Definition sat_add_i64 (a b : Z) : Z := Z.max i64_min (Z.min i64_max (a + b)).
(** [1u64.checked_shl(k)]: [None] when the shift is not below the width. *)
Definition checked_shl1_u64 (k : Z) : option Z :=
  if k <? 64 then Some (Z.shiftl 1 k) else None.

Lemma arith_u_exact bp w x : 0 <= x < 2 ^ w -> arith_u bp w x = Done x.
Proof. intros H. unfold arith_u. by rewrite (proj2 (Z.leb_le 0 x)), (proj2 (Z.ltb_lt x _)) by lia. Qed.
Lemma arith_i_exact bp w x :
  - 2 ^ (w - 1) <= x < 2 ^ (w - 1) -> arith_i bp w x = Done x.
Proof.
  intros H. unfold arith_i.
  by rewrite (proj2 (Z.leb_le (- 2 ^ (w - 1)) x)), (proj2 (Z.ltb_lt x _)) by lia.
Qed.
Lemma checked_u64_Some x y : checked_u64 x = Some y <-> y = x /\ is_u64 x.
Proof.
  unfold checked_u64, is_u64.
  destruct (Z.leb_spec 0 x), (Z.leb_spec x u64_max); simpl; naive_solver lia.
Qed.

(** Lengths, indices and counts are kept in [nat]; where one can pass the width
    of [usize] the operation is written with these. *)
Definition usize_fits (n : nat) : bool := Z.of_nat n <? 2 ^ 64.
Definition usize_arith (bp : profile) (n : nat) : outcome nat :=
  if usize_fits n then Done n
  else if overflow_checks bp then Panic POverflow else Done (Z.to_nat (wrap_u 64 (Z.of_nat n))).
Definition usize_sub (a b : nat) : outcome nat :=
  if (b <=? a)%nat then Done (a - b)%nat else Panic POverflow.
Definition usize_sat_add (a b : nat) : nat :=
  if usize_fits (a + b)%nat then (a + b)%nat else Z.to_nat u64_max.

Lemma usize_arith_exact bp n : Z.of_nat n < 2 ^ 64 -> usize_arith bp n = Done n.
Proof. intros H. unfold usize_arith, usize_fits. by rewrite (proj2 (Z.ltb_lt _ _) H). Qed.
Lemma usize_sub_exact a b : (b <= a)%nat -> usize_sub a b = Done (a - b)%nat.
Proof. intros H. unfold usize_sub. by rewrite (proj2 (Nat.leb_le _ _) H). Qed.

(** * Bytes: [to_le_bytes] and [from_le_bytes] *)

Abbreviation u8 := Z.
Fixpoint to_le_bytes (n : nat) (x : Z) : list u8 :=
  match n with O => [] | S n' => x mod 256 :: to_le_bytes n' (x / 256) end.
Fixpoint from_le_bytes (l : list u8) : Z :=
  match l with [] => 0 | b :: l' => b + 256 * from_le_bytes l' end.

Lemma length_to_le_bytes n x : length (to_le_bytes n x) = n.
Proof. revert x. induction n as [|n IH]; intros x; simpl; [done|]. by rewrite IH. Qed.
Lemma from_to_le_bytes n x : 0 <= x < 256 ^ Z.of_nat n -> from_le_bytes (to_le_bytes n x) = x.
Proof.
  revert x. induction n as [|n IH]; intros x Hx; simpl; [change (256 ^ Z.of_nat 0) with 1 in Hx; lia|].
  rewrite Nat2Z.inj_succ, Z.pow_succ_r in Hx by lia. rewrite IH.
  - pose proof (Z.div_mod x 256). lia.
  - split; [apply Z.div_pos; lia|]. apply Z.div_lt_upper_bound; lia.
Qed.

(** * IEEE 754 doubles: [f64] as the specification floats of the library *)

Definition f64 := spec_float.
Definition f64_mul (a b : f64) : f64 := SFmul 53 1024 a b.
Definition f64_sub (a b : f64) : f64 := SFsub 53 1024 a b.
Definition f64_div (a b : f64) : f64 := SFdiv 53 1024 a b.
Definition f64_add (a b : f64) : f64 := SFadd 53 1024 a b.
Definition f64_leb (a b : f64) : bool := SFleb a b.
Definition f64_ltb (a b : f64) : bool := SFltb a b.
Definition f64_is_finite (x : f64) : bool :=
  match x with S754_infinity _ | S754_nan => false | _ => true end.
Definition f64_of_Z (x : Z) : f64 := binary_normalize 53 1024 x 0 false.
(** [x as u64]: truncation toward zero, saturating, with NaN sent to 0. *)
Definition f64_to_u64 (x : f64) : Z :=
  match x with
  | S754_zero _ | S754_nan => 0
  | S754_infinity s => if s then 0 else u64_max
  | S754_finite true _ _ => 0
  | S754_finite false m e =>
      Z.min u64_max (if 0 <=? e then Z.pos m * 2 ^ e else Z.pos m / 2 ^ (- e))
  end.

(** [f64::round] (half away from zero) and [f64::floor]; a float with a
    non-negative exponent is already integral. *)
Definition f64_of_sign (s : bool) (n : Z) : f64 :=
  if n =? 0 then S754_zero s else f64_of_Z (if s then - n else n).
Definition f64_round (x : f64) : f64 :=
  match x with
  | S754_finite s m e =>
      if 0 <=? e then x else f64_of_sign s ((2 * Z.pos m + 2 ^ (- e)) / 2 ^ (1 - e))
  | _ => x
  end.
Definition f64_floor (x : f64) : f64 :=
  match x with
  | S754_finite s m e =>
      if 0 <=? e then x
      else f64_of_sign s (if s then - (- Z.pos m / 2 ^ (- e)) else Z.pos m / 2 ^ (- e))
  | _ => x
  end.

#[global] Arguments f64_mul : simpl never.
#[global] Arguments f64_div : simpl never.
#[global] Arguments f64_add : simpl never.
#[global] Arguments f64_sub : simpl never.
#[global] Arguments f64_of_Z : simpl never.
#[global] Arguments f64_to_u64 : simpl never.

(** * [std::collections::HashMap]

    A [gmap]; the order in which its entries are visited is unspecified, so
    code that iterates is modelled for an arbitrary [hash_order]. *)
Class HashOrder := {
  hash_order {V : Type} : gmap Z V -> list (Z * V);
  hash_order_perm {V : Type} (m : gmap Z V) : hash_order m ≡ₚ map_to_list m;
}.

(** * Tactics *)

(** Split every [let '(_, _)], [if] and [match] of a hypothesis produced by a
    monadic definition. *)
Ltac simp_bind H :=
  repeat (unfold mbind, outcome_bind, mret, outcome_ret in H; simpl in H).

(** Pass the value of a computation that is [Done] to its continuation. *)
Ltac bind_done := cbn [mbind outcome_bind].

Ltac bool_prop :=
  repeat match goal with
  | H : _ && _ = true |- _ => apply andb_true_iff in H; destruct H
  | H : _ || _ = false |- _ => apply orb_false_iff in H; destruct H
  | H : negb _ = true |- _ => apply negb_true_iff in H
  | H : negb _ = false |- _ => apply negb_false_iff in H
  | H : (_ =? _) = true |- _ => apply Z.eqb_eq in H
  | H : (_ =? _) = false |- _ => apply Z.eqb_neq in H
  | H : (_ <=? _) = true |- _ => apply Z.leb_le in H
  | H : (_ <=? _) = false |- _ => apply Z.leb_gt in H
  | H : (_ <? _) = true |- _ => apply Z.ltb_lt in H
  | H : (_ <? _) = false |- _ => apply Z.ltb_ge in H
  | H : bool_decide _ = true |- _ => apply bool_decide_eq_true in H
  | H : bool_decide _ = false |- _ => apply bool_decide_eq_false in H
  end.

(** * Lists *)

Lemma filter_sublist {A} (f : A -> bool) (l : list A) : List.filter f l `sublist_of` l.
Proof. induction l as [|x l IH]; simpl; [done|]. destruct (f x); by constructor. Qed.
Lemma NoDup_List_filter {A} (f : A -> bool) (l : list A) : NoDup l -> NoDup (List.filter f l).
Proof. intros Hl. eapply sublist_NoDup; [exact Hl|apply filter_sublist]. Qed.

Section ListFacts.
Context {A B : Type}.
Implicit Types (l : list A) (f : A -> bool).

Lemma find_Some_elem f l x : List.find f l = Some x -> x ∈ l /\ f x = true.
Proof. intros H%List.find_some. rewrite list_elem_of_In. done. Qed.

Lemma find_None_all f l x : List.find f l = None -> x ∈ l -> f x = false.
Proof. intros H Hx. apply list_elem_of_In in Hx. by eapply List.find_none in H. Qed.

Lemma find_is_Some f l x : x ∈ l -> f x = true -> exists y, List.find f l = Some y.
Proof.
  intros Hx Hf. destruct (List.find f l) eqn:E; [eauto|].
  by rewrite (find_None_all f l x E Hx) in Hf.
Qed.

Lemma existsb_elem f l : existsb f l = true <-> exists x, x ∈ l /\ f x = true.
Proof. rewrite existsb_exists. by setoid_rewrite list_elem_of_In. Qed.

Lemma forallb_elem f l : forallb f l = true <-> forall x, x ∈ l -> f x = true.
Proof. rewrite forallb_forall. by setoid_rewrite list_elem_of_In. Qed.

Lemma NoDup_map_inj (g : A -> B) l x y :
  NoDup (g <$> l) -> x ∈ l -> y ∈ l -> g x = g y -> x = y.
Proof.
  induction l as [|a l IH]; cbn; [by inversion 2|].
  rewrite NoDup_cons. intros [Ha Hl] [->|Hx]%elem_of_cons [->|Hy]%elem_of_cons E; auto.
  - exfalso. apply Ha. rewrite E. by apply list_elem_of_fmap_2.
  - exfalso. apply Ha. rewrite <- E. by apply list_elem_of_fmap_2.
Qed.
End ListFacts.

(** * A stable sort by a key, as [slice::sort_by_key] *)

Section StableSort.
Context {A : Type} (leb : A -> A -> bool).

Fixpoint sort_insert (x : A) (l : list A) : list A :=
  match l with
  | [] => [x]
  | y :: l' => if leb x y then x :: l else y :: sort_insert x l'
  end.
Definition stable_sort (l : list A) : list A := foldr sort_insert [] l.

Lemma sort_insert_perm x l : sort_insert x l ≡ₚ x :: l.
Proof.
  induction l as [|y l IH]; simpl; [done|].
  destruct (leb x y); [done|]. rewrite IH. apply Permutation_swap.
Qed.
Lemma stable_sort_perm l : stable_sort l ≡ₚ l.
Proof. induction l as [|x l IH]; simpl; [done|]. by rewrite sort_insert_perm, IH. Qed.

Hypothesis leb_total : forall x y, leb x y = true \/ leb y x = true.
Hypothesis leb_trans : forall x y z, leb x y = true -> leb y z = true -> leb x z = true.

Lemma sort_insert_sorted x l :
  StronglySorted (fun a b => leb a b = true) l ->
  StronglySorted (fun a b => leb a b = true) (sort_insert x l).
Proof.
  induction 1 as [|y l Hs IH Hy]; simpl; [repeat constructor|].
  destruct (leb x y) eqn:E.
  - constructor; [by constructor|]. constructor; [done|].
    eapply Forall_impl; [done|]. simpl. eauto.
  - constructor; [done|]. rewrite sort_insert_perm. constructor; [|done].
    destruct (leb_total x y); congruence.
Qed.
Lemma stable_sort_sorted l : StronglySorted (fun a b => leb a b = true) (stable_sort l).
Proof. induction l; simpl; [constructor|]. by apply sort_insert_sorted. Qed.
End StableSort.
