(* ===== verification/BTree.v ===== *)
(** Ordered maps and sets: the part of [std::collections::BTreeMap] and
    [BTreeSet] the scheduler uses.  A map is the list of its entries in
    ascending key order, which is also its iteration order; [bt_ok] is the
    representation invariant and every operation keeps it. *)
From Stdlib Require Import ZArith Lia List Sorting.Sorted.
From stdpp Require Import base sets list sorting.
From S2P Require Import Prelude.

(** * Totally ordered keys: Rust's [Ord] *)

Class OrdKey (K : Type) := kcmp : K -> K -> comparison.
Class OrdKeyLaws (K : Type) `{OrdKey K} : Prop := {
  kcmp_eq : forall a b, kcmp a b = Eq <-> a = b;
  kcmp_antisym : forall a b, kcmp b a = CompOpp (kcmp a b);
  kcmp_trans : forall a b c, kcmp a b = Lt -> kcmp b c = Lt -> kcmp a c = Lt;
}.
Definition klt {K} `{OrdKey K} (a b : K) : Prop := kcmp a b = Lt.
Definition kle {K} `{OrdKey K} (a b : K) : Prop := kcmp a b <> Gt.

Section OrdFacts.
Context {K : Type} `{OrdKeyLaws K}.

Lemma kcmp_refl (a : K) : kcmp a a = Eq.
Proof. by apply kcmp_eq. Qed.
Lemma klt_irrefl (a : K) : ~ klt a a.
Proof. unfold klt. by rewrite kcmp_refl. Qed.
Lemma klt_ne (a b : K) : klt a b -> a <> b.
Proof. intros Hlt ->. by apply (klt_irrefl b). Qed.
Lemma klt_gt (a b : K) : kcmp a b = Gt <-> klt b a.
Proof. unfold klt. rewrite (kcmp_antisym a b). by destruct (kcmp a b). Qed.
Lemma kle_lt_eq (a b : K) : kle a b <-> klt a b \/ a = b.
Proof.
  unfold kle, klt. rewrite <- (kcmp_eq a b).
  destruct (kcmp a b); naive_solver.
Qed.
Lemma kle_refl (a : K) : kle a a.
Proof. apply kle_lt_eq. auto. Qed.
Lemma not_klt_kle (a b : K) : ~ klt b a -> kle a b.
Proof. unfold kle. rewrite klt_gt. auto. Qed.
#[global] Instance klt_transitive : Transitive (@klt K _).
Proof. intros a b c. apply kcmp_trans. Qed.
Lemma kle_trans (a b c : K) : kle a b -> kle b c -> kle a c.
Proof.
  rewrite !kle_lt_eq. intros [Hab| ->]; [|done]. intros [Hbc| ->]; [|auto].
  left. by transitivity b.
Qed.
End OrdFacts.

#[export] Instance Z_ord : OrdKey Z := Z.compare.
#[export] Instance Z_ord_laws : OrdKeyLaws Z.
Proof.
  split; unfold kcmp, Z_ord.
  - apply Z.compare_eq_iff.
  - intros. apply Z.compare_antisym.
  - intros a b c. rewrite !Z.compare_lt_iff. lia.
Qed.

(** Lexicographic comparison, as a derived [Ord] compares fields in order. *)
Definition lex (c d : comparison) : comparison := match c with Eq => d | _ => c end.

#[export] Instance pair_ord {A B} `{OrdKey A, OrdKey B} : OrdKey (A * B) :=
  fun p q => lex (kcmp p.1 q.1) (kcmp p.2 q.2).
#[export] Instance pair_ord_laws {A B} `{OrdKeyLaws A, OrdKeyLaws B} : OrdKeyLaws (A * B).
Proof.
  split; unfold kcmp, pair_ord, lex.
  - intros [a b] [a' b']; simpl. pose proof (kcmp_eq a a') as Ha.
    destruct (kcmp a a'); [rewrite kcmp_eq|..]; naive_solver.
  - intros [a b] [a' b']; simpl. rewrite (kcmp_antisym a a').
    destruct (kcmp a a'); simpl; [apply kcmp_antisym|done..].
  - intros [a1 b1] [a2 b2] [a3 b3]; simpl.
    destruct (kcmp a1 a2) eqn:E12; try done.
    + apply kcmp_eq in E12 as ->. destruct (kcmp a2 a3) eqn:E23; try done. apply kcmp_trans.
    + destruct (kcmp a2 a3) eqn:E23; try done.
      * apply kcmp_eq in E23 as ->. by rewrite E12.
      * by rewrite (kcmp_trans _ _ _ E12 E23).
Qed.

Lemma kle_Z (a b : Z) : kle a b <-> (a <= b)%Z.
Proof. unfold kle, kcmp, Z_ord. apply Z.compare_le_iff. Qed.
Lemma klt_Z (a b : Z) : klt a b <-> (a < b)%Z.
Proof. unfold klt, kcmp, Z_ord. apply Z.compare_lt_iff. Qed.
Lemma kle_fst {A B} `{OrdKeyLaws A, OrdKeyLaws B} (a a' : A) (b b' : B) :
  kle (a, b) (a', b') -> kle a a'.
Proof. unfold kle. unfold kcmp at 1, pair_ord, lex. simpl. by destruct (kcmp a a'). Qed.

(** A type ordered as its image under an injective encoding, such as an enum
    with a derived [Ord] under (variant, fields). *)
Lemma ord_by_laws {A B} `{OrdKeyLaws B} (f : A -> B) (o : OrdKey A) :
  (forall a b, f a = f b -> a = b) -> (forall a b, kcmp (K:=A) a b = kcmp (f a) (f b)) ->
  OrdKeyLaws A.
Proof.
  intros Hinj Hcmp. split; intros; rewrite ?Hcmp in *.
  - rewrite kcmp_eq. split; [apply Hinj|by intros ->].
  - apply kcmp_antisym.
  - by eapply kcmp_trans.
Qed.

(** * BTreeMap *)

Section Map.
Context {K V : Type} `{OrdKey K}.
Implicit Types (m : list (K * V)) (k : K) (v : V).

Fixpoint bt_get k m : option V :=
  match m with
  | [] => None
  | (k', v') :: m' =>
      match kcmp k k' with Lt => None | Eq => Some v' | Gt => bt_get k m' end
  end.
Definition bt_mem k m : bool := match bt_get k m with Some _ => true | None => false end.
Fixpoint bt_insert k v m : list (K * V) :=
  match m with
  | [] => [(k, v)]
  | (k', v') :: m' =>
      match kcmp k k' with
      | Lt => (k, v) :: m
      | Eq => (k, v) :: m'
      | Gt => (k', v') :: bt_insert k v m'
      end
  end.
Fixpoint bt_remove k m : list (K * V) :=
  match m with
  | [] => []
  | (k', v') :: m' =>
      match kcmp k k' with
      | Lt => m
      | Eq => m'
      | Gt => (k', v') :: bt_remove k m'
      end
  end.

Definition bt_ok m : Prop := StronglySorted klt (m.*1).
End Map.

Section MapFacts.
Context {K V : Type} `{OrdKeyLaws K}.
Implicit Types (m : list (K * V)) (k : K) (v : V).

Lemma bt_ok_nil : bt_ok (V:=V) [].
Proof. constructor. Qed.

Lemma bt_ok_cons k v m : bt_ok ((k, v) :: m) <-> bt_ok m /\ Forall (fun kv => klt k kv.1) m.
Proof.
  unfold bt_ok; simpl. split.
  - intros Hs. inversion_clear Hs as [|? ? Hm Hk]. by rewrite Forall_fmap in Hk.
  - intros [? ?]. constructor; [done|]. by rewrite Forall_fmap.
Qed.

Lemma bt_get_lt k m : Forall (fun kv => klt k kv.1) m -> bt_get k m = None.
Proof. destruct 1 as [|[k' v'] m Hk]; simpl in *; [done|]. unfold klt in Hk. by rewrite Hk. Qed.

Lemma bt_get_elem m k v : bt_ok m -> bt_get k m = Some v <-> (k, v) ∈ m.
Proof.
  induction m as [|[k' v'] m IH]; simpl; [set_solver|].
  intros [Hm Hk']%bt_ok_cons. rewrite elem_of_cons. rewrite Forall_forall in Hk'.
  destruct (kcmp k k') eqn:E.
  - apply kcmp_eq in E as ->. split; [naive_solver|].
    intros [?|Hin]; [naive_solver|]. by apply Hk', klt_irrefl in Hin.
  - split; [done|]. intros [[= -> ->]|Hin].
    + by rewrite kcmp_refl in E.
    + apply Hk' in Hin. simpl in Hin. destruct (klt_irrefl k). by transitivity k'.
  - rewrite (IH Hm). split; [auto|]. intros [[= -> ->]|]; [|done].
    by rewrite kcmp_refl in E.
Qed.

Lemma bt_get_None m k : bt_ok m -> bt_get k m = None <-> k ∉ m.*1.
Proof.
  intros Hm. split.
  - intros Hn Hin. apply list_elem_of_fmap_1 in Hin as [[k' v'] [-> Hin]].
    simpl in Hn. apply (bt_get_elem m k' v' Hm) in Hin. congruence.
  - intros Hn. destruct (bt_get k m) as [v|] eqn:E; [|done].
    exfalso. apply Hn. apply (bt_get_elem m k v Hm) in E.
    by apply (list_elem_of_fmap_2 fst) in E.
Qed.

Lemma bt_key_elem m k : k ∈ m.*1 <-> exists v, (k, v) ∈ m.
Proof.
  rewrite list_elem_of_fmap. split.
  - intros [[k' v'] [-> ?]]. eauto.
  - intros [v ?]. by exists (k, v).
Qed.

Lemma bt_mem_true m k : bt_ok m -> bt_mem k m = true <-> k ∈ m.*1.
Proof.
  intros Hm. rewrite bt_key_elem. setoid_rewrite <- (bt_get_elem m _ _ Hm). unfold bt_mem.
  destruct (bt_get k m); naive_solver.
Qed.

Lemma bt_mem_false m k : bt_ok m -> bt_mem k m = false <-> k ∉ m.*1.
Proof. intros Hm. rewrite <- (bt_mem_true m k Hm). by destruct (bt_mem k m). Qed.

(** Inserting under a new key adds exactly that entry. *)
Lemma bt_insert_perm m k v : bt_get k m = None -> bt_ok m -> bt_insert k v m ≡ₚ (k, v) :: m.
Proof.
  intros Hn Hm. revert Hn. induction m as [|[k' v'] m IH]; simpl; [done|].
  apply bt_ok_cons in Hm as [Hm Hk'].
  destruct (kcmp k k') eqn:E; [done|done|]. intros Hn.
  rewrite (IH Hm Hn). apply Permutation_swap.
Qed.

Lemma bt_insert_keys m k v x : x ∈ (bt_insert k v m).*1 -> x = k \/ x ∈ m.*1.
Proof.
  induction m as [|[k' v'] m IH]; simpl; [set_solver|].
  destruct (kcmp k k'); simpl; set_solver.
Qed.

Lemma bt_insert_ok m k v : bt_ok m -> bt_ok (bt_insert k v m).
Proof.
  induction m as [|[k' v'] m IH]; simpl.
  - intros _. apply bt_ok_cons. split; [apply bt_ok_nil|constructor].
  - intros [Hm Hk']%bt_ok_cons. destruct (kcmp k k') eqn:E.
    + apply kcmp_eq in E as ->. by apply bt_ok_cons.
    + apply bt_ok_cons. split; [by apply bt_ok_cons|]. constructor; [done|].
      eapply Forall_impl; [exact Hk'|]. intros [k2 v2] ?; simpl in *. by transitivity k'.
    + apply bt_ok_cons. split; [auto|].
      assert (HF : Forall (fun x => klt k' x) (bt_insert k v m).*1); [|by rewrite Forall_fmap in HF].
      apply Forall_forall. intros x [->|Hx]%bt_insert_keys; [by apply klt_gt|].
      apply list_elem_of_fmap_1 in Hx as [kv [-> Hx]].
      by apply (proj1 (Forall_forall _ _) Hk').
Qed.

Lemma bt_remove_sub m k : bt_remove k m `sublist_of` m.
Proof.
  induction m as [|[k' v'] m IH]; simpl; [done|].
  destruct (kcmp k k'); [by apply sublist_cons|done|by apply sublist_skip].
Qed.

Lemma bt_ok_sublist m1 m2 : m1 `sublist_of` m2 -> bt_ok m2 -> bt_ok m1.
Proof.
  induction 1 as [|[k v] m1 m2 Hs IH|[k v] m1 m2 Hs IH]; [done|..];
    intros [Hm Hk]%bt_ok_cons.
  - apply bt_ok_cons. split; [auto|]. eapply Forall_forall. intros x Hx.
    apply (proj1 (Forall_forall _ _) Hk). by eapply elem_of_sublist.
  - auto.
Qed.

Lemma bt_remove_ok m k : bt_ok m -> bt_ok (bt_remove k m).
Proof. apply bt_ok_sublist, bt_remove_sub. Qed.

Lemma bt_remove_perm m k v : bt_ok m -> bt_get k m = Some v -> m ≡ₚ (k, v) :: bt_remove k m.
Proof.
  induction m as [|[k' v'] m IH]; simpl; [done|].
  intros [Hm Hk']%bt_ok_cons. destruct (kcmp k k') eqn:E; [|done|].
  - apply kcmp_eq in E as ->. by intros [= ->].
  - intros Hg. rewrite (IH Hm Hg) at 1. apply Permutation_swap.
Qed.

Lemma bt_remove_None m k : bt_ok m -> bt_get k m = None -> bt_remove k m = m.
Proof.
  induction m as [|[k' v'] m IH]; simpl; [done|].
  intros [Hm Hk']%bt_ok_cons. destruct (kcmp k k'); [done|done|]. intros. by rewrite IH.
Qed.

Lemma bt_ok_NoDup m : bt_ok m -> NoDup (m.*1).
Proof.
  induction m as [|[k v] m IH]; [constructor|].
  intros [Hm Hk]%bt_ok_cons. simpl. constructor; [|auto].
  intros Hin. apply list_elem_of_fmap_1 in Hin as [kv [-> Hin]].
  by apply (proj1 (Forall_forall _ _) Hk), klt_irrefl in Hin.
Qed.

Lemma bt_get_insert_eq m k v : bt_ok m -> bt_get k (bt_insert k v m) = Some v.
Proof.
  intros Hm. apply bt_get_elem; [by apply bt_insert_ok|].
  clear Hm. induction m as [|[k' v'] m IH]; simpl; [set_solver|].
  destruct (kcmp k k'); set_solver.
Qed.

Lemma bt_get_insert_ne m k k2 v : k <> k2 -> bt_ok m -> bt_get k2 (bt_insert k v m) = bt_get k2 m.
Proof.
  intros Hne Hm. induction m as [|[k' v'] m IH]; simpl.
  - destruct (kcmp k2 k) eqn:E; [by apply kcmp_eq in E|done|done].
  - pose proof (proj1 (bt_ok_cons _ _ _) Hm) as [Hm' Hk'].
    destruct (kcmp k k') eqn:E; simpl.
    + apply kcmp_eq in E as <-. destruct (kcmp k2 k) eqn:E2; [by apply kcmp_eq in E2|done|done].
    + destruct (kcmp k2 k) eqn:E2; [by apply kcmp_eq in E2| |done].
      by rewrite (kcmp_trans _ _ _ E2 E).
    + by rewrite (IH Hm').
Qed.

Lemma bt_get_remove_eq m k : bt_ok m -> bt_get k (bt_remove k m) = None.
Proof.
  intros Hm. induction m as [|[k' v'] m IH]; simpl; [done|].
  pose proof (proj1 (bt_ok_cons _ _ _) Hm) as [Hm' Hk'].
  destruct (kcmp k k') eqn:E; simpl.
  - apply kcmp_eq in E as ->. by apply bt_get_lt.
  - by rewrite E.
  - rewrite E. auto.
Qed.

Lemma bt_get_remove_ne m k k2 : k <> k2 -> bt_ok m -> bt_get k2 (bt_remove k m) = bt_get k2 m.
Proof.
  intros Hne Hm. induction m as [|[k' v'] m IH]; simpl; [done|].
  pose proof (proj1 (bt_ok_cons _ _ _) Hm) as [Hm' Hk'].
  destruct (kcmp k k') eqn:E; simpl; [|done|by rewrite (IH Hm')].
  apply kcmp_eq in E as <-. destruct (kcmp k2 k) eqn:E2; [by apply kcmp_eq in E2| |done].
  apply bt_get_lt. eapply Forall_impl; [exact Hk'|]. intros ? ?. by transitivity k.
Qed.

(** Maps with the same lookups are the same map. *)
Lemma bt_ext m1 m2 :
  bt_ok m1 -> bt_ok m2 -> (forall k, bt_get k m1 = bt_get k m2) -> m1 = m2.
Proof.
  revert m2. induction m1 as [|[k1 v1] m1 IH]; intros [|[k2 v2] m2] Hm1 Hm2 E; [done|..].
  - specialize (E k2). simpl in E. by rewrite kcmp_refl in E.
  - specialize (E k1). simpl in E. by rewrite kcmp_refl in E.
  - pose proof (proj1 (bt_ok_cons _ _ _) Hm1) as [Hm1' Hk1].
    pose proof (proj1 (bt_ok_cons _ _ _) Hm2) as [Hm2' Hk2].
    assert (k1 = k2) as <-.
    { pose proof (E k1) as E1. pose proof (E k2) as E2. simpl in E1, E2.
      rewrite !kcmp_refl in E1, E2. rewrite (kcmp_antisym k1 k2) in E2.
      apply kcmp_eq. destruct (kcmp k1 k2); simpl in *; done. }
    pose proof (E k1) as E1. simpl in E1. rewrite !kcmp_refl in E1. injection E1 as <-.
    f_equal. apply IH; [done..|]. intros k.
    specialize (E k). simpl in E. destruct (kcmp k k1) eqn:Ek; [|..|done].
    + apply kcmp_eq in Ek as ->. by rewrite !bt_get_lt.
    + rewrite !bt_get_lt; [done|..]; (eapply Forall_impl; [eassumption|]);
        intros ? ?; by transitivity k1.
Qed.

(** The first entry has the least key. *)
Lemma bt_first_least m k v : bt_ok ((k, v) :: m) -> forall k' v', (k', v') ∈ (k, v) :: m -> kle k k'.
Proof.
  intros [_ Hk]%bt_ok_cons k' v' [[= -> ->]|Hin]%elem_of_cons; [apply kle_refl|].
  apply kle_lt_eq. left. exact (proj1 (Forall_forall _ _) Hk _ Hin).
Qed.
End MapFacts.

(** The order-respecting search of an iterator's [find]: the result has the
    least key among the entries that satisfy the test. *)
Lemma bt_get_head {K V} `{OrdKeyLaws K} (k : K) (v : V) m : bt_get k ((k, v) :: m) = Some v.
Proof. simpl. by rewrite kcmp_refl. Qed.
Lemma bt_remove_head {K V} `{OrdKeyLaws K} (k : K) (v : V) m : bt_remove k ((k, v) :: m) = m.
Proof. simpl. by rewrite kcmp_refl. Qed.
Lemma bt_insert_head {K V} `{OrdKeyLaws K} (k : K) (v v' : V) m :
  bt_insert k v' ((k, v) :: m) = (k, v') :: m.
Proof. simpl. by rewrite kcmp_refl. Qed.
Lemma bt_find_least {K V} `{OrdKeyLaws K} (f : K * V -> bool) (m : list (K * V)) k v :
  bt_ok m -> List.find f m = Some (k, v) ->
  forall k' v', (k', v') ∈ m -> f (k', v') = true -> kle k k'.
Proof.
  induction m as [|[k1 v1] m IH]; simpl; [done|].
  intros [Hm Hk]%bt_ok_cons. destruct (f (k1, v1)) eqn:E.
  - intros [= -> ->] k' v' Hin _. by eapply bt_first_least; [apply bt_ok_cons|].
  - intros Hf k' v' [[= -> ->]|Hin]%elem_of_cons Hf'; [congruence|by eapply IH].
Qed.

(** Changing the values of a map, key by key, keeps its keys. *)
Lemma bt_map_ok {K V W} `{OrdKey K} (g : K -> V -> W) (m : list (K * V)) :
  bt_ok m -> bt_ok ((fun kv => (kv.1, g kv.1 kv.2)) <$> m).
Proof. unfold bt_ok. rewrite <- list_fmap_compose. done. Qed.

Create HintDb bt.
#[export] Hint Extern 1 (bt_ok []) => apply bt_ok_nil : bt.
#[export] Hint Extern 1 (bt_ok (bt_insert _ _ _)) => apply bt_insert_ok : bt.
#[export] Hint Extern 1 (bt_ok (bt_remove _ _)) => apply bt_remove_ok : bt.

Lemma bt_insert_update {K V} `{OrdKeyLaws K} (m : list (K * V)) k v v' :
  bt_ok m -> bt_get k m = Some v -> bt_insert k v' m ≡ₚ (k, v') :: bt_remove k m.
Proof.
  induction m as [|[k1 v1] m IH]; simpl; [done|].
  intros [Hm Hk]%bt_ok_cons. destruct (kcmp k k1) eqn:E; [done|done|].
  intros Hg. rewrite (IH Hm Hg). apply Permutation_swap.
Qed.
