(* ===== verification/RunQueue.v ===== *)
(** The scheduler's run queue, detcore/src/scheduler/runqueue.rs.

    [RunQueue] is the struct of the same name; every method is a definition of
    the same name that takes the queue and returns its result with the new
    queue, inside [outcome] where the method can panic.  The generator
    [Pcg64Mcg] of the rand crates is the interface [Rng]; the only fact used
    about it is [RngSpec], that a draw from a non-empty range lies in it. *)
From Stdlib Require Import ZArith Lia List Sorting.Sorted.
From stdpp Require Import base gmap list sorting.
From S2P Require Import Prelude BTree.

(** * Constants and priorities *)

Abbreviation Priority := Z.
Abbreviation RoundRobinTurn := Z.

Definition EAGER_IO_REPOLL_PRIORITY : Priority := 0.
Definition FIRST_PRIORITY : Priority := EAGER_IO_REPOLL_PRIORITY + 1.
Definition LAST_PRIORITY : Priority := 10000.
Definition REPLAY_FOREGROUND_PRIORITY : Priority := FIRST_PRIORITY.
Definition REPLAY_DEFERRED_PRIORITY : Priority := LAST_PRIORITY - 1.
Definition DEFAULT_PRIORITY : Priority := 1000.
Definition PLAIN_YIELDS_BEFORE_EPOCH : Z := 1.
Definition RUN_TIME_TURNS : RoundRobinTurn := Z.shiftl 1 61.
Definition POLLING_UPGRADE_INTERVAL : Z := 200.

Definition is_ordinary_priority (prio : Priority) : bool :=
  (FIRST_PRIORITY <=? prio) && (prio <=? LAST_PRIORITY).

Definition entropy_to_priority (entropy : Z) : Priority :=
  let range := LAST_PRIORITY - FIRST_PRIORITY + 1 in
  let offset := entropy mod range in
  FIRST_PRIORITY + offset.

(** [SchedHeuristic] of detcore-model/src/config.rs. *)
Inductive SchedHeuristic := HNone | HConnectBind | HRandom | HStickyRandom.
Definition heuristic_is_priority_ordered (h : SchedHeuristic) : bool :=
  match h with HNone | HConnectBind => true | _ => false end.

(** * Keys and values *)

Record PrioritizedOrder := PO { priority : Priority; turn : RoundRobinTurn }.

#[export] Instance PrioritizedOrder_eqdec : EqDecision PrioritizedOrder.
Proof. solve_decision. Defined.
#[export] Instance PrioritizedOrder_ord : OrdKey PrioritizedOrder :=
  fun a b => lex (Z.compare (priority a) (priority b)) (Z.compare (turn a) (turn b)).

Inductive PollerRestore := Restored | NotBackedOff | NotQueued.

Record QueueValue := QV {
  tid : DetTid;
  poll_upgrade : option Priority;
  deadline_restored : bool;
  upgraded_in_place : bool;
}.

Definition is_non_polling (v : QueueValue) : bool :=
  negb (bool_decide (is_Some (poll_upgrade v))) && negb (deadline_restored v).
Definition is_fully_backed_off_poller (v : QueueValue) (p : Priority) : bool :=
  bool_decide (is_Some (poll_upgrade v)) && (LAST_PRIORITY <=? p).
Definition counts_as_poller (v : QueueValue) (p : Priority) : bool :=
  is_fully_backed_off_poller v p || deadline_restored v.

Definition clear_poll_upgrade (v : QueueValue) : QueueValue :=
  QV (tid v) None (deadline_restored v) (upgraded_in_place v).
Definition mark_upgraded_in_place (v : QueueValue) : QueueValue :=
  QV (tid v) (poll_upgrade v) (deadline_restored v) true.

Abbreviation entry := (PrioritizedOrder * QueueValue)%type.

Record SuspendedRunQueueEntry := SE {
  se_key : PrioritizedOrder;
  se_value : QueueValue;
  se_persistent_priority : Priority;
}.

(** * The random number generator, rand and rand_pcg *)

Class Rng (G : Type) := {
  seed_from_u64 : Z -> G;
  draw_usize : G -> Z -> Z -> Z * G;      (* random_range(start..end) on usize *)
  draw_f64 : G -> f64 -> f64 -> f64 * G;  (* random_range(start..end) on f64 *)
}.
Class RngSpec (G : Type) `{Rng G} : Prop := {
  draw_usize_in_range : forall g a b, a < b -> a <= (draw_usize g a b).1 < b;
}.

(** * The queue *)

Record RunQueue (G : Type) := RQ {
  queue : list entry;
  last_back_turn : RoundRobinTurn;
  last_front_turn : RoundRobinTurn;
  poll_upgrades : Z;
  tentative_selection : option DetTid;
  tentative_selection_is_exact : bool;
  yielded_skip : option DetTid;
  yield_epoch : option (gset DetTid);
  yield_streaks : gmap DetTid Z;
  queued_by_yield : gset DetTid;
  sched_strategy : SchedHeuristic;
  prng : G;
  sticky_random_param : f64;
  sticky_random_selection : option DetTid;
}.
Arguments RQ {G}.
Arguments queue {G}. Arguments last_back_turn {G}. Arguments last_front_turn {G}.
Arguments poll_upgrades {G}. Arguments tentative_selection {G}.
Arguments tentative_selection_is_exact {G}. Arguments yielded_skip {G}.
Arguments yield_epoch {G}. Arguments yield_streaks {G}. Arguments queued_by_yield {G}.
Arguments sched_strategy {G}. Arguments prng {G}. Arguments sticky_random_param {G}.
Arguments sticky_random_selection {G}.

(** Field assignments. *)
Section Setters.
Context {G : Type}.
Implicit Type q : RunQueue G.
Definition set_queue m q := RQ m (last_back_turn q) (last_front_turn q) (poll_upgrades q)
  (tentative_selection q) (tentative_selection_is_exact q) (yielded_skip q) (yield_epoch q)
  (yield_streaks q) (queued_by_yield q) (sched_strategy q) (prng q) (sticky_random_param q)
  (sticky_random_selection q).
Definition set_turns b f q := RQ (queue q) b f (poll_upgrades q)
  (tentative_selection q) (tentative_selection_is_exact q) (yielded_skip q) (yield_epoch q)
  (yield_streaks q) (queued_by_yield q) (sched_strategy q) (prng q) (sticky_random_param q)
  (sticky_random_selection q).
Definition set_poll_upgrades n q := RQ (queue q) (last_back_turn q) (last_front_turn q) n
  (tentative_selection q) (tentative_selection_is_exact q) (yielded_skip q) (yield_epoch q)
  (yield_streaks q) (queued_by_yield q) (sched_strategy q) (prng q) (sticky_random_param q)
  (sticky_random_selection q).
Definition set_tentative s e q := RQ (queue q) (last_back_turn q) (last_front_turn q)
  (poll_upgrades q) s e (yielded_skip q) (yield_epoch q)
  (yield_streaks q) (queued_by_yield q) (sched_strategy q) (prng q) (sticky_random_param q)
  (sticky_random_selection q).
Definition set_yielded_skip s q := RQ (queue q) (last_back_turn q) (last_front_turn q)
  (poll_upgrades q) (tentative_selection q) (tentative_selection_is_exact q) s (yield_epoch q)
  (yield_streaks q) (queued_by_yield q) (sched_strategy q) (prng q) (sticky_random_param q)
  (sticky_random_selection q).
Definition set_yield e s q := RQ (queue q) (last_back_turn q) (last_front_turn q)
  (poll_upgrades q) (tentative_selection q) (tentative_selection_is_exact q) (yielded_skip q)
  e s (queued_by_yield q) (sched_strategy q) (prng q) (sticky_random_param q)
  (sticky_random_selection q).
Definition set_queued_by_yield s q := RQ (queue q) (last_back_turn q) (last_front_turn q)
  (poll_upgrades q) (tentative_selection q) (tentative_selection_is_exact q) (yielded_skip q)
  (yield_epoch q) (yield_streaks q) s (sched_strategy q) (prng q) (sticky_random_param q)
  (sticky_random_selection q).
Definition set_random (g : G) s q := RQ (queue q) (last_back_turn q) (last_front_turn q)
  (poll_upgrades q) (tentative_selection q) (tentative_selection_is_exact q) (yielded_skip q)
  (yield_epoch q) (yield_streaks q) (queued_by_yield q) (sched_strategy q) g
  (sticky_random_param q) s.
End Setters.

(** An entry taken out of the queue to be ordered: its band, its sort key and
    its value. *)
Abbreviation moved_entry := (Priority * (Z * Z) * QueueValue)%type.

Section Operations.
Context (bp : profile) {G : Type} `{!Rng G}.
Implicit Type q : RunQueue G.

(** [RunQueue::new] *)
Definition new (ss : SchedHeuristic) (seed : Z) (srp : f64) : RunQueue G :=
  RQ [] 0 0 0 None false None None ∅ ∅ ss (seed_from_u64 seed) srp None.

(** ** Read-only queries *)

Definition is_empty q : bool := match queue q with [] => true | _ => false end.
Definition len q : nat := length (queue q).
Definition tids q : list DetTid := (fun kv => tid kv.2) <$> queue q.
Definition contains_tid q (t : DetTid) : bool := existsb (fun t' => t' =? t) (tids q).
Definition contains_non_polling_tid q (t : DetTid) : bool :=
  existsb (fun kv => (tid kv.2 =? t) && is_non_polling kv.2) (queue q).
Definition can_be_passed_over q (t : DetTid) : bool :=
  existsb (fun kv => (tid kv.2 =? t) && (is_non_polling kv.2 || upgraded_in_place kv.2)) (queue q).
Definition has_runnable_besides_unless q (exclude : DetTid) (passed_over : DetTid -> bool) : bool :=
  existsb (fun kv => negb (tid kv.2 =? exclude) && negb (counts_as_poller kv.2 (priority kv.1))
                     && negb (passed_over (tid kv.2))) (queue q).
Definition has_runnable_besides q (exclude : DetTid) : bool :=
  existsb (fun kv => negb (tid kv.2 =? exclude) && negb (counts_as_poller kv.2 (priority kv.1)))
    (queue q).
Definition runnable_besides q (exclude : DetTid) : gset DetTid :=
  list_to_set ((fun kv => tid kv.2) <$>
    List.filter (fun kv => negb (tid kv.2 =? exclude) && negb (counts_as_poller kv.2 (priority kv.1)))
      (queue q)).
Definition holds_work q (t : DetTid) : bool :=
  existsb (fun kv => (tid kv.2 =? t) && negb (counts_as_poller kv.2 (priority kv.1))) (queue q).
Definition only_pollers q : bool :=
  forallb (fun kv => counts_as_poller kv.2 (priority kv.1)) (queue q).
Definition only_pollers_or_yielders q : bool :=
  forallb (fun kv => counts_as_poller kv.2 (priority kv.1)
                     || bool_decide (tid kv.2 ∈ queued_by_yield q)) (queue q).
Definition tentative_pop_in_progress q : bool := bool_decide (is_Some (tentative_selection q)).
Definition is_priority_ordered q : bool := heuristic_is_priority_ordered (sched_strategy q).
Definition poll_upgrade_count q : Z := poll_upgrades q.

(** The guard [assert!(self.tentative_selection.is_none())] of the mutators. *)
Definition assert_unlocked q : outcome () :=
  assert_ (bool_decide (tentative_selection q = None)).

Definition push_safety_check q (t : DetTid) : outcome () :=
  if debug_assertions bp && contains_tid q t then Panic PExplicit else Done tt.

(** ** Poll upgrades *)

Fixpoint poll_upgrade_loop (ups : list (PrioritizedOrder * Priority)) (m : list entry)
    (restored : list DetTid) : outcome (list DetTid * list entry) :=
  match ups with
  | [] => Done (restored, m)
  | (key, upgrade_prio) :: ups' =>
      if LAST_PRIORITY <=? upgrade_prio then
        v ← expect (bt_get key m);
        poll_upgrade_loop ups' (bt_insert key (mark_upgraded_in_place v) m) restored
      else
        let new_key := PO upgrade_prio (turn key) in
        qval ← expect (bt_get key m);
        let m1 := bt_remove key m in
        _ ← assert_ (negb (bt_mem new_key m1));
        poll_upgrade_loop ups' (bt_insert new_key (clear_poll_upgrade qval) m1)
          (restored ++ [tid qval])
  end.

(** What the last loop of [do_poll_upgrade] does to each entry. *)
Definition settle_restored (key : PrioritizedOrder) (v : QueueValue) : QueueValue :=
  if priority key <? LAST_PRIORITY then QV (tid v) (poll_upgrade v) false (upgraded_in_place v)
  else if deadline_restored v then mark_upgraded_in_place v
  else v.

Definition pending_upgrades (m : list entry) : list (PrioritizedOrder * Priority) :=
  omap (fun kv => upgd ← poll_upgrade kv.2; Some (kv.1, upgd)) m.

Definition do_poll_upgrade q : outcome (list DetTid * RunQueue G) :=
  n ← arith_u bp 64 (poll_upgrades q + 1);
  '(restored, m) ← poll_upgrade_loop (pending_upgrades (queue q)) (queue q) [];
  let m' := (fun kv => (kv.1, settle_restored kv.1 kv.2)) <$> m in
  Done (restored, set_queue m' (set_poll_upgrades n q)).

Definition upgrade_pollers q : outcome (list DetTid * RunQueue G) :=
  _ ← assert_unlocked q; do_poll_upgrade q.

(** [last_back_turn as u64 + last_front_turn.unsigned_abs()] *)
Definition turn_counter q : outcome Z :=
  _ ← debug_assert_ bp (0 <=? last_back_turn q);
  _ ← debug_assert_ bp (last_front_turn q <=? 0);
  arith_u bp 64 (wrap_u 64 (last_back_turn q) + Z.abs (last_front_turn q)).

Definition check_poll_upgrade q : outcome (RunQueue G) :=
  n ← turn_counter q;
  if n mod POLLING_UPGRADE_INTERVAL =? 0
  then '(_, q') ← do_poll_upgrade q; Done q'
  else Done q.

(** ** Pushing *)

Definition push_inner q (t : DetTid) (prio : PrioritizedOrder) (up : option Priority)
    : outcome (PrioritizedOrder * RunQueue G) :=
  let qval := QV t up false false in
  _ ← assert_ (negb (bt_mem prio (queue q)));
  q' ← check_poll_upgrade (set_queue (bt_insert prio qval (queue q)) q);
  Done (prio, q').

Definition push_back_inner q (t : DetTid) (p : Priority) (up : option Priority)
    : outcome (PrioritizedOrder * RunQueue G) :=
  b ← arith_i bp 64 (last_back_turn q + 1);
  push_inner (set_turns b (last_front_turn q) q) t (PO p b) up.

Definition push_front_inner q (t : DetTid) (p : Priority) (up : option Priority)
    : outcome (PrioritizedOrder * RunQueue G) :=
  f ← arith_i bp 64 (last_front_turn q - 1);
  push_inner (set_turns (last_back_turn q) f q) t (PO p f) up.

Definition push_back q (t : DetTid) (p : Priority) : outcome (PrioritizedOrder * RunQueue G) :=
  _ ← assert_unlocked q;
  _ ← push_safety_check q t;
  if negb (is_ordinary_priority p) then Panic PExplicit
  else push_back_inner q t p None.

Definition push_front q (t : DetTid) (p : Priority) : outcome (PrioritizedOrder * RunQueue G) :=
  _ ← assert_unlocked q;
  _ ← push_safety_check q t;
  _ ← assert_ (is_ordinary_priority p);
  push_front_inner q t p None.

Definition push_eager_io_repoll q (t : DetTid) : outcome (PrioritizedOrder * RunQueue G) :=
  _ ← assert_unlocked q;
  _ ← push_safety_check q t;
  push_front_inner q t EAGER_IO_REPOLL_PRIORITY None.

(** The exponential backoff of [push_poller]. *)
Definition poller_priority (normal_priority : Priority) (poll_attempt : Z) : Priority :=
  Z.min (default u64_max (f ← checked_shl1_u64 poll_attempt; checked_u64 (f * normal_priority)))
        LAST_PRIORITY.

Definition push_poller q (t : DetTid) (normal_priority : Priority) (poll_attempt : Z)
    : outcome (PrioritizedOrder * RunQueue G) :=
  _ ← assert_unlocked q;
  _ ← push_safety_check q t;
  push_back_inner q t (poller_priority normal_priority poll_attempt) (Some normal_priority).

Definition push_yielded q (t : DetTid) (p : Priority) : outcome (PrioritizedOrder * RunQueue G) :=
  _ ← assert_ (bool_decide (yielded_skip q = None));
  push_back (set_queued_by_yield ({[t]} ∪ queued_by_yield q) (set_yielded_skip (Some t) q)) t p.

(** The streak and epoch bookkeeping of [push_yielded_into_epoch]. *)
Definition count_yield q (t : DetTid) : outcome (RunQueue G) :=
  if existsb (fun kv => negb (tid kv.2 =? t)) (queue q) then
    streak ← arith_u bp 32 (default 0 (yield_streaks q !! t) + 1);
    let epoch := if PLAIN_YIELDS_BEFORE_EPOCH <? streak
                 then Some ({[t]} ∪ default ∅ (yield_epoch q)) else yield_epoch q in
    Done (set_yield epoch (<[t := streak]> (yield_streaks q)) q)
  else Done q.

Definition push_yielded_into_epoch q (t : DetTid) (p : Priority)
    : outcome (PrioritizedOrder * RunQueue G) :=
  q1 ← count_yield q t;
  push_back (set_queued_by_yield ({[t]} ∪ queued_by_yield q1) q1) t p.

(** ** Suspending, restoring and removing entries *)

Definition find_tid (t : DetTid) (m : list entry) : option entry :=
  List.find (fun kv => tid kv.2 =? t) m.

Definition suspend q (t : DetTid) (persistent_priority : Priority)
    : outcome (option SuspendedRunQueueEntry * RunQueue G) :=
  _ ← assert_unlocked q;
  match find_tid t (queue q) with
  | None => Done (None, q)
  | Some (key, _) =>
      value ← expect (bt_get key (queue q));
      Done (Some (SE key value persistent_priority), set_queue (bt_remove key (queue q)) q)
  end.

(** [while self.queue.contains_key(&key) { key.turn += 1; }] *)
Fixpoint next_free_turn (fuel : nat) (m : list entry) (key : PrioritizedOrder)
    : outcome PrioritizedOrder :=
  if bt_mem key m then
    match fuel with
    | O => Done key
    | S fuel' =>
        t ← arith_i bp 64 (turn key + 1);
        next_free_turn fuel' m (PO (priority key) t)
    end
  else Done key.

Definition restore q (e : SuspendedRunQueueEntry) (current_priority : Priority)
    : outcome (RunQueue G) :=
  _ ← assert_unlocked q;
  _ ← assert_ (negb (contains_tid q (tid (se_value e))));
  let changed := negb (se_persistent_priority e =? current_priority) in
  let key := if changed then PO current_priority (turn (se_key e)) else se_key e in
  let value :=
    if changed && bool_decide (is_Some (poll_upgrade (se_value e)))
    then QV (tid (se_value e)) (Some current_priority)
            (deadline_restored (se_value e)) (upgraded_in_place (se_value e))
    else se_value e in
  key' ← (if RUN_TIME_TURNS <=? turn key
          then next_free_turn (length (queue q)) (queue q) key else Done key);
  _ ← assert_ (negb (bt_mem key' (queue q)));
  Done (set_queue (bt_insert key' value (queue q)) q).

Definition remove_tid q (t : DetTid) : outcome (bool * RunQueue G) :=
  _ ← assert_unlocked q;
  let kept := List.filter (fun kv => negb (tid kv.2 =? t)) (queue q) in
  let kept_all := forallb (fun kv => negb (tid kv.2 =? t)) (queue q) in
  let forget o := if bool_decide (o = Some t) then None else o in
  Done (negb kept_all,
    set_random (prng q) (forget (sticky_random_selection q))
      (set_queued_by_yield (queued_by_yield q ∖ {[t]})
        (set_yield ((fun e => e ∖ {[t]}) <$> yield_epoch q) (delete t (yield_streaks q))
          (set_yielded_skip (forget (yielded_skip q)) (set_queue kept q))))).

Definition restore_poller_priority q (t : DetTid) : outcome (PollerRestore * RunQueue G) :=
  _ ← assert_unlocked q;
  match find_tid t (queue q) with
  | None => Done (NotQueued, q)
  | Some (key, value) =>
      match poll_upgrade value with
      | None => Done (NotBackedOff, q)
      | Some normal_priority =>
          value' ← expect (bt_get key (queue q));
          let value'' := QV (tid value') None (LAST_PRIORITY <=? priority key)
                            (upgraded_in_place value') in
          b ← arith_i bp 64 (last_back_turn q + 1);
          let m1 := bt_remove key (queue q) in
          let restored := PO normal_priority b in
          _ ← assert_ (negb (bt_mem restored m1));
          q' ← check_poll_upgrade
                 (set_queue (bt_insert restored value'' m1) (set_turns b (last_front_turn q) q));
          Done (Restored, q')
      end
  end.

(** ** Ordering by run time *)

Definition in_round_robin_order (key : PrioritizedOrder) (value : QueueValue) : bool :=
  (0 <=? turn key) && negb (priority key =? EAGER_IO_REPOLL_PRIORITY)
  && negb (bool_decide (is_Some (poll_upgrade value))) && negb (deadline_restored value).

Definition round_robin_tids q : list DetTid :=
  stable_sort Z.leb
    ((fun kv => tid kv.2) <$> List.filter (fun kv => in_round_robin_order kv.1 kv.2) (queue q)).

Definition moved_leb (a b : moved_entry) : bool :=
  let '(p1, k1, v1) := a in
  let '(p2, k2, v2) := b in
  match kcmp (p1, k1, tid v1) (p2, k2, tid v2) with Gt => false | _ => true end.

(** Taking the entries to order out of the queue. *)
Fixpoint take_out (keys : list PrioritizedOrder) (wanted : gmap DetTid (Z * Z)) (m : list entry)
    : outcome (list moved_entry * list entry) :=
  match keys with
  | [] => Done ([], m)
  | key :: keys' =>
      value ← expect (bt_get key m);
      w ← expect (wanted !! tid value);
      '(rest, m') ← take_out keys' wanted (bt_remove key m);
      Done ((priority key, w, value) :: rest, m')
  end.

(** The turn a moved entry asks for. *)
Definition run_time_turn (run_time : Z) : RoundRobinTurn :=
  let offset := if run_time <=? i64_max then run_time else i64_max in
  sat_add_i64 RUN_TIME_TURNS (Z.min offset RUN_TIME_TURNS).

Fixpoint put_back (moved : list moved_entry) (last : option PrioritizedOrder) (m : list entry)
    : outcome (list entry) :=
  match moved with
  | [] => Done m
  | (prio, (run_time, _), value) :: moved' =>
      t ← match last with
          | Some previous =>
              if priority previous =? prio
              then t1 ← arith_i bp 64 (turn previous + 1); Done (Z.max (run_time_turn run_time) t1)
              else Done (run_time_turn run_time)
          | None => Done (run_time_turn run_time)
          end;
      key ← next_free_turn (length m) m (PO prio t);
      _ ← assert_ (negb (bt_mem key m));
      put_back moved' (Some key) (bt_insert key value m)
  end.

Definition order_by_run_time q (order : list (DetTid * (Z * Z))) : outcome (RunQueue G) :=
  _ ← assert_unlocked q;
  let wanted : gmap DetTid (Z * Z) := list_to_map (reverse order) in
  let keys := (fun kv => kv.1) <$>
    List.filter (fun kv => bool_decide (is_Some (wanted !! tid kv.2))
                           && in_round_robin_order kv.1 kv.2) (queue q) in
  '(moved, m) ← take_out keys wanted (queue q);
  m' ← put_back (stable_sort moved_leb moved) None m;
  Done (set_queue m' q).

(** ** Selection *)

(** [random_range] panics on an empty range. *)
Definition random_range q (start stop : Z) : outcome (Z * RunQueue G) :=
  if start <? stop then
    let '(r, g) := draw_usize (prng q) start stop in
    Done (r, set_random g (sticky_random_selection q) q)
  else Panic PExplicit.

Definition end_yield_epoch q : RunQueue G := set_yield None ∅ q.

Definition yield_epoch_is_over q : bool :=
  match yield_epoch q with
  | None => false
  | Some epoch =>
      forallb (fun kv => bool_decide (tid kv.2 ∈ epoch)
                         || is_fully_backed_off_poller kv.2 (priority kv.1)) (queue q)
  end.

(** The threads [tentative_pop_next] must not select. *)
Definition selection_skip q : option DetTid :=
  t ← yielded_skip q;
  if (1 <? len q)%nat && contains_tid q t then Some t else None.
Definition excluded_tids q (skip : option DetTid) : gset DetTid :=
  let excluded : gset DetTid := match skip with Some t => {[t]} | None => ∅ end in
  match yield_epoch q with
  | None => excluded
  | Some epoch =>
      let with_epoch := excluded ∪ epoch in
      if existsb (fun kv => negb (bool_decide (tid kv.2 ∈ with_epoch))) (queue q)
      then with_epoch else excluded
  end.
Definition is_excluded (excluded : gset DetTid) (kv : entry) : bool :=
  bool_decide (tid kv.2 ∈ excluded).
Definition eligible_tids q (excluded : gset DetTid) : list DetTid :=
  (fun kv => tid kv.2) <$> List.filter (fun kv => negb (is_excluded excluded kv)) (queue q).

(** A uniformly drawn eligible thread. *)
Definition draw_eligible q (excluded : gset DetTid) : outcome (option DetTid * RunQueue G) :=
  let excluded_count := length (List.filter (is_excluded excluded) (queue q)) in
  let eligible := (len q - excluded_count)%nat in
  '(random_idx, q') ← random_range q 0 (Z.of_nat eligible);
  Done (eligible_tids q excluded !! Z.to_nat random_idx, q').

Definition select_random q (excluded : gset DetTid) : outcome (option DetTid * RunQueue G) :=
  if is_empty q then Done (None, q)
  else
    '(sel, q') ← match tentative_selection q with
                 | Some t => Done (Some t, q)
                 | None => draw_eligible q excluded
                 end;
    Done (sel, set_tentative sel (tentative_selection_is_exact q') q').

Definition select_sticky q (excluded : gset DetTid) : outcome (option DetTid * RunQueue G) :=
  if is_empty q then Done (None, q)
  else
    let sticky := match sticky_random_selection q with
                  | Some t => if bool_decide (t ∈ excluded) then None else Some t
                  | None => None
                  end in
    let q0 := set_random (prng q) sticky q in
    '(sel, q') ← match sticky with
                 | Some t => if contains_tid q0 t then Done (Some t, q0)
                             else draw_eligible q0 excluded
                 | None => draw_eligible q0 excluded
                 end;
    Done (sel, set_tentative sel (tentative_selection_is_exact q') (set_random (prng q') sel q')).

Definition select_first q (excluded : gset DetTid) : outcome (option DetTid * RunQueue G) :=
  let sel := (fun kv => tid kv.2) <$> List.find (fun kv => negb (is_excluded excluded kv)) (queue q) in
  Done (sel, set_tentative sel (tentative_selection_is_exact q) q).

Definition tentative_pop_next q : outcome (option DetTid * RunQueue G) :=
  _ ← assert_ (negb (tentative_selection_is_exact q));
  let skip := selection_skip q in
  let q1 := if yield_epoch_is_over q then end_yield_epoch q else q in
  let excluded := excluded_tids q1 skip in
  match sched_strategy q1 with
  | HNone | HConnectBind => select_first q1 excluded
  | HRandom => select_random q1 excluded
  | HStickyRandom => select_sticky q1 excluded
  end.

Definition tentative_pop_tid q (t : DetTid) : outcome (option DetTid * RunQueue G) :=
  _ ← assert_unlocked q;
  if contains_tid q t then Done (Some t, set_tentative (Some t) true q)
  else Done (None, q).

(** Removing the entry of a selected thread. *)
Definition take_tid (t : DetTid) (m : list entry) : outcome (DetTid * list entry) :=
  '(key, _) ← expect (find_tid t m);
  value ← expect (bt_get key m);
  Done (tid value, bt_remove key m).

Definition f64_zero : f64 := f64_of_Z 0.
Definition f64_one : f64 := f64_of_Z 1.

Definition commit_selection q : outcome (DetTid * RunQueue G) :=
  sel ← expect (tentative_selection q);
  let exact := tentative_selection_is_exact q in
  let q0 := set_tentative None false q in
  '(ret, q1) ←
    (if exact then '(r, m) ← take_tid sel (queue q0); Done (r, set_queue m q0)
     else match sched_strategy q0 with
     | HNone | HConnectBind | HRandom =>
         '(r, m) ← take_tid sel (queue q0); Done (r, set_queue m q0)
     | HStickyRandom =>
         t ← expect (sticky_random_selection q0);
         let '(x, g) := draw_f64 (prng q0) f64_zero f64_one in
         let sticky := if f64_leb x (f64_sub f64_one (sticky_random_param q0))
                       then None else Some t in
         '(r, m) ← take_tid t (queue q0);
         Done (r, set_queue m (set_random g sticky q0))
     end);
  _ ← debug_assert_ bp (ret =? sel);
  Done (ret, set_queued_by_yield (queued_by_yield q1 ∖ {[ret]}) q1).

Definition consume_yield_exclusion q : RunQueue G := set_yielded_skip None q.

Definition commit_tentative_pop q : outcome (DetTid * RunQueue G) := commit_selection q.
Definition commit_tentative_pop_yield q : outcome (DetTid * RunQueue G) :=
  '(t, q1) ← commit_selection q; Done (t, consume_yield_exclusion q1).
Definition commit_tentative_pop_completed_turn q : outcome (DetTid * RunQueue G) :=
  '(t, q1) ← commit_tentative_pop q; Done (t, end_yield_epoch (consume_yield_exclusion q1)).
Definition undo_tentative_pop q : outcome (RunQueue G) :=
  _ ← assert_ (bool_decide (is_Some (tentative_selection q)));
  Done (set_tentative None false q).

End Operations.
