(* ===== verification/RunQueueInv.v ===== *)
(** The representation invariant of the run queue and what every mutator does
    to it: each operation, called as the scheduler calls it, does not panic,
    keeps the invariant, and has the stated effect on the queued entries. *)
From Stdlib Require Import ZArith Lia List Sorting.Sorted.
From stdpp Require Import base gmap list sorting.
From S2P Require Import Prelude BTree RunQueue.

#[export] Instance PrioritizedOrder_laws : OrdKeyLaws PrioritizedOrder.
Proof.
  assert (forall a b : PrioritizedOrder,
    kcmp a b = kcmp (priority a, turn a) (priority b, turn b)) as Hc by done.
  split.
  - intros [p t] [p' t']. rewrite Hc, kcmp_eq. simpl. naive_solver.
  - intros a b. rewrite !Hc. apply kcmp_antisym.
  - intros a b c. rewrite !Hc. apply kcmp_trans.
Qed.

(** A turn handed out by a push, as opposed to one assigned by
    [order_by_run_time]. *)
Definition ordinary_turn (t : RoundRobinTurn) : Prop := t < RUN_TIME_TURNS.

(** Arithmetic with the turn constants spelled out. *)
Ltac turn_lia :=
  unfold ordinary_turn in *; unfold RUN_TIME_TURNS, u64_max, i64_max, i64_min in *;
  change (Z.shiftl 1 61) with 2305843009213693952 in *; lia.

(** * Entries *)

Definition entry_ok (back front : RoundRobinTurn) (kv : entry) : Prop :=
  (front <= turn kv.1 <= back /\ back < RUN_TIME_TURNS)
  \/ (RUN_TIME_TURNS <= turn kv.1 <= i64_max /\ poll_upgrade kv.2 = None).

Definition ordinary_turns (E : list entry) : list RoundRobinTurn :=
  filter ordinary_turn ((fun kv => turn kv.1) <$> E).

Definition entries_ok (back front : RoundRobinTurn) (E : list entry) : Prop :=
  Forall (entry_ok back front) E /\ NoDup (ordinary_turns E).

#[export] Instance ordinary_turns_perm : Proper ((≡ₚ) ==> (≡ₚ)) ordinary_turns.
Proof. intros E E' HE. unfold ordinary_turns. by rewrite HE. Qed.
#[export] Instance entries_ok_perm b f : Proper ((≡ₚ) ==> iff) (entries_ok b f).
Proof. intros E E' HE. unfold entries_ok. by rewrite HE. Qed.

Lemma elem_ordinary_turns t E :
  t ∈ ordinary_turns E <-> ordinary_turn t /\ exists kv, kv ∈ E /\ turn kv.1 = t.
Proof.
  unfold ordinary_turns. rewrite list_elem_of_filter, list_elem_of_fmap. naive_solver.
Qed.

Lemma entries_ok_cons b f kv E :
  entries_ok b f (kv :: E) <->
  entry_ok b f kv /\ entries_ok b f E /\ (ordinary_turn (turn kv.1) -> turn kv.1 ∉ ordinary_turns E).
Proof.
  unfold entries_ok, ordinary_turns. rewrite Forall_cons. simpl.
  rewrite filter_cons. case_decide; [rewrite NoDup_cons|]; naive_solver.
Qed.

Lemma entry_ok_poller b f kv :
  entry_ok b f kv -> is_Some (poll_upgrade kv.2) -> ordinary_turn (turn kv.1).
Proof. intros [?|[? E]] [p Hp]; unfold ordinary_turn; [lia|congruence]. Qed.

(** No other entry holds an ordinary turn, at any priority. *)
Lemma entries_ok_turn_unique b f kv kv' E :
  entries_ok b f (kv :: E) -> ordinary_turn (turn kv.1) -> kv' ∈ E -> turn kv'.1 <> turn kv.1.
Proof.
  rewrite entries_ok_cons. intros (_ & _ & Hu) Ho Hin Heq.
  apply (Hu Ho). apply elem_ordinary_turns. eauto.
Qed.

Lemma entries_ok_swap b f kv kv' E :
  turn kv'.1 = turn kv.1 -> entry_ok b f kv' -> entries_ok b f (kv :: E) -> entries_ok b f (kv' :: E).
Proof. intros Ht Hok. rewrite !entries_ok_cons, Ht. naive_solver. Qed.

Lemma entry_ok_weaken b b' f f' kv :
  b <= b' -> f' <= f -> b' < RUN_TIME_TURNS -> entry_ok b f kv -> entry_ok b' f' kv.
Proof. unfold entry_ok. intros. naive_solver lia. Qed.

Lemma entries_ok_weaken b b' f f' E :
  b <= b' -> f' <= f -> b' < RUN_TIME_TURNS -> entries_ok b f E -> entries_ok b' f' E.
Proof.
  intros ? ? ? [HF HN]. split; [|done]. eapply Forall_impl; [exact HF|].
  eauto using entry_ok_weaken.
Qed.

Lemma entries_ok_key_fresh b f k v E :
  entries_ok b f ((k, v) :: E) -> ordinary_turn (turn k) -> forall p, PO p (turn k) ∉ E.*1.
Proof.
  intros Hok Ho p (v' & Hin)%bt_key_elem.
  exact (entries_ok_turn_unique b f (k, v) _ E Hok Ho Hin eq_refl).
Qed.

(** A turn just past the counters is unused. *)
Lemma fresh_turn_not_used b f E t :
  entries_ok b f E -> ordinary_turn t -> t < f \/ b < t -> t ∉ ordinary_turns E.
Proof.
  intros [HF _] Ho Hout (_ & kv & Hin & <-)%elem_ordinary_turns.
  apply (proj1 (Forall_forall _ _) HF) in Hin as [?|[? _]]; unfold ordinary_turn in *; lia.
Qed.

(** * Poll upgrades *)

(** What a poll upgrade does to one entry: a backed-off poller goes back to
    its normal priority with its turn, or is marked when it cannot move. *)
Definition upgrade_entry (kv : entry) : entry :=
  match poll_upgrade kv.2 with
  | None => kv
  | Some p =>
      if LAST_PRIORITY <=? p then (kv.1, mark_upgraded_in_place kv.2)
      else (PO p (turn kv.1), clear_poll_upgrade kv.2)
  end.
Definition settle_entry (kv : entry) : entry := (kv.1, settle_restored kv.1 kv.2).

Definition restored_tids (E : list entry) : list DetTid :=
  omap (fun kv => p ← poll_upgrade kv.2;
                  if LAST_PRIORITY <=? p then None else Some (tid kv.2)) E.

Lemma upgrade_entry_tid kv : tid (upgrade_entry kv).2 = tid kv.2.
Proof. unfold upgrade_entry. destruct (poll_upgrade kv.2); [case_match|]; done. Qed.
Lemma settle_entry_tid kv : tid (settle_entry kv).2 = tid kv.2.
Proof. unfold settle_entry, settle_restored. simpl. by repeat case_match. Qed.
Lemma upgrade_entry_turn kv : turn (upgrade_entry kv).1 = turn kv.1.
Proof. unfold upgrade_entry. destruct (poll_upgrade kv.2); [case_match|]; done. Qed.

Lemma upgrade_entry_ok b f kv : entry_ok b f kv -> entry_ok b f (upgrade_entry kv).
Proof.
  intros H. unfold upgrade_entry. destruct (poll_upgrade kv.2) as [p|] eqn:E; [|done].
  destruct H as [H|[_ ?]]; [|congruence]. case_match; left; done.
Qed.
Lemma settle_entry_ok b f kv : entry_ok b f kv -> entry_ok b f (settle_entry kv).
Proof.
  intros [H|[H E]]; unfold settle_entry, settle_restored; [by left|right].
  split; [done|]. simpl. by repeat case_match.
Qed.

Lemma ordinary_turns_map (g : entry -> entry) E :
  (forall kv, turn (g kv).1 = turn kv.1) -> ordinary_turns (g <$> E) = ordinary_turns E.
Proof.
  intros Hg. unfold ordinary_turns. rewrite <- list_fmap_compose. f_equal.
  apply list_fmap_ext. intros ? ? _. apply Hg.
Qed.

Lemma entries_ok_map b f (g : entry -> entry) E R :
  (forall kv, turn (g kv).1 = turn kv.1) -> (forall kv, entry_ok b f kv -> entry_ok b f (g kv)) ->
  entries_ok b f (E ++ R) -> entries_ok b f ((g <$> E) ++ R).
Proof.
  intros Ht Hg. unfold entries_ok. rewrite !Forall_app, Forall_fmap. intros [[HE HR] HN]. split.
  - split; [|done]. eapply Forall_impl; [exact HE|]. simpl. auto.
  - unfold ordinary_turns in *. rewrite fmap_app, filter_app in *.
    fold (ordinary_turns (g <$> E)). by rewrite (ordinary_turns_map g E Ht).
Qed.

Lemma poll_upgrade_loop_spec b f R todo done_ m acc :
  bt_ok m -> m ≡ₚ todo ++ done_ -> entries_ok b f (todo ++ done_ ++ R) ->
  exists m', poll_upgrade_loop (pending_upgrades todo) m acc = Done (acc ++ restored_tids todo, m')
    /\ bt_ok m' /\ m' ≡ₚ (upgrade_entry <$> todo) ++ done_.
Proof.
  revert done_ m acc. induction todo as [|[k v] todo IH]; intros done_ m acc Hm HP Hok.
  { exists m. simpl in *. by rewrite app_nil_r. }
  simpl in HP, Hok. unfold pending_upgrades, restored_tids in *. simpl.
  unfold upgrade_entry at 1; simpl. destruct (poll_upgrade v) as [p|] eqn:Ev; simpl.
  2:{ destruct (IH ((k, v) :: done_) m acc Hm) as (m' & E & Hm' & HP').
      - by rewrite HP, <- Permutation_middle.
      - by rewrite <- app_comm_cons, <- Permutation_middle.
      - exists m'. split_and!; [done|done|]. by rewrite HP', <- Permutation_middle. }
  assert (bt_get k m = Some v) as Hg by (apply bt_get_elem; [done|]; rewrite HP; left).
  pose proof (bt_remove_perm m k v Hm Hg) as HR.
  assert (bt_remove k m ≡ₚ todo ++ done_) as HP1
    by (apply (Permutation_cons_inv (a := (k, v))); by rewrite <- HR).
  assert (Ho : ordinary_turn (turn k)).
  { apply entries_ok_cons in Hok as [Hk _]. by apply (entry_ok_poller b f (k, v)); [|exists p]. }
  destruct (LAST_PRIORITY <=? p) eqn:Hlast; rewrite Hg; simpl.
  - destruct (IH ((k, mark_upgraded_in_place v) :: done_)
                (bt_insert k (mark_upgraded_in_place v) m) acc) as (m' & E & Hm' & HP').
    + auto with bt.
    + by rewrite (bt_insert_update m k v _ Hm Hg), HP1, Permutation_middle.
    + rewrite <- app_comm_cons, <- Permutation_middle.
      eapply entries_ok_swap; [| |exact Hok]; [done|].
      apply entries_ok_cons in Hok as [Hk _].
      destruct Hk as [?|[_ Hk]]; [by left|simpl in Hk; congruence].
    + exists m'. split_and!; [done|done|]. by rewrite HP', Permutation_middle.
  - assert (Hfresh : PO p (turn k) ∉ (bt_remove k m).*1).
    { rewrite HP1. intros Hin. eapply (entries_ok_key_fresh b f k v); [exact Hok|exact Ho|].
      rewrite app_assoc, fmap_app. apply elem_of_app. by left. }
    rewrite (proj2 (bt_mem_false _ _ (bt_remove_ok m k Hm)) Hfresh). simpl.
    destruct (IH ((PO p (turn k), clear_poll_upgrade v) :: done_)
                (bt_insert (PO p (turn k)) (clear_poll_upgrade v) (bt_remove k m))
                (acc ++ [tid v])) as (m' & E & Hm' & HP').
    + auto with bt.
    + rewrite bt_insert_perm; [by rewrite HP1, Permutation_middle|
        by apply bt_get_None; auto with bt|auto with bt].
    + rewrite <- app_comm_cons, <- Permutation_middle.
      eapply entries_ok_swap; [| |exact Hok]; [done|].
      apply entries_ok_cons in Hok as [Hk _].
      destruct Hk as [?|[_ Hk]]; [by left|simpl in Hk; congruence].
    + rewrite <- app_assoc in E. exists m'. split_and!; [exact E|done|]. by rewrite HP', Permutation_middle.
Qed.

(** * The invariant *)

Definition pool_entries (P : list SuspendedRunQueueEntry) : list entry :=
  (fun e => (se_key e, se_value e)) <$> P.

Section Invariant.
Context (bp : profile) {G : Type} `{!Rng G}.
Implicit Types (q : RunQueue G) (P : list SuspendedRunQueueEntry).

(** The queue is locked between a tentative pop and its commit or undo; the
    selection is then a queued thread. *)
Definition lock_ok q : Prop :=
  match tentative_selection q with
  | None => tentative_selection_is_exact q = false
  | Some t =>
      t ∈ tids q /\
      (tentative_selection_is_exact q = false -> sched_strategy q = HStickyRandom ->
       sticky_random_selection q = Some t)
  end.

(** The invariant of a queue whose suspended entries are [P]. *)
Record rq_ok P q : Prop := {
  ok_sorted : bt_ok (queue q);
  ok_tids : NoDup (tids q);
  ok_back : 0 <= last_back_turn q < RUN_TIME_TURNS;
  ok_front : - RUN_TIME_TURNS < last_front_turn q <= 0;
  ok_upgrades : 0 <= poll_upgrades q <= u64_max;
  ok_entries : entries_ok (last_back_turn q) (last_front_turn q) (queue q ++ pool_entries P);
  ok_lock : lock_ok q;
}.

(** Room for one more push and one more poll upgrade: fewer than 2^61 pushes
    on either side and 2^64 upgrades so far. *)
Definition has_room q : Prop :=
  last_back_turn q + 1 < RUN_TIME_TURNS /\ - RUN_TIME_TURNS < last_front_turn q - 1
  /\ poll_upgrades q < u64_max.

Definition unlocked q : Prop := tentative_selection q = None.

Lemma assert_unlocked_ok q : unlocked q -> assert_unlocked q = Done tt.
Proof. intros Hu. unfold assert_unlocked. by rewrite bool_decide_true. Qed.

Lemma contains_tid_true q t : contains_tid q t = true <-> t ∈ tids q.
Proof.
  unfold contains_tid. rewrite existsb_elem. split.
  - intros (x & Hx & ->%Z.eqb_eq). done.
  - intros Hx. exists t. by rewrite Z.eqb_refl.
Qed.
Lemma contains_tid_false q t : contains_tid q t = false <-> t ∉ tids q.
Proof. rewrite <- contains_tid_true. by destruct (contains_tid q t). Qed.

Lemma push_safety_check_ok q t : t ∉ tids q -> push_safety_check bp q t = Done tt.
Proof.
  intros Ht%contains_tid_false. unfold push_safety_check. rewrite Ht.
  by destruct (debug_assertions bp).
Qed.

Lemma do_poll_upgrade_spec P q :
  rq_ok P q -> poll_upgrades q < u64_max -> unlocked q ->
  exists m, do_poll_upgrade bp q
      = Done (restored_tids (queue q), set_queue m (set_poll_upgrades (poll_upgrades q + 1) q))
    /\ m ≡ₚ settle_entry <$> (upgrade_entry <$> queue q)
    /\ rq_ok P (set_queue m (set_poll_upgrades (poll_upgrades q + 1) q)).
Proof.
  intros Hq Hroom Hu. destruct Hq as [Hs Ht Hb Hf Hup He Hl].
  unfold do_poll_upgrade. rewrite arith_u_exact by (unfold u64_max in *; lia). simpl.
  destruct (poll_upgrade_loop_spec (last_back_turn q) (last_front_turn q) (pool_entries P)
              (queue q) [] (queue q) [] Hs) as (m & E & Hm & HP);
    [by rewrite app_nil_r|done|].
  rewrite app_nil_r in HP. rewrite E. simpl.
  exists (settle_entry <$> m). split_and!; [done|by rewrite HP|].
  assert (HT : (fun kv : entry => tid kv.2) <$> (settle_entry <$> m) ≡ₚ tids q).
  { unfold tids. rewrite HP, <- !list_fmap_compose. apply Permutation_refl'.
    apply list_fmap_ext. intros ? kv _. exact (eq_trans (settle_entry_tid _) (upgrade_entry_tid kv)). }
  split; simpl; [|by rewrite HT|done|done|lia| |].
  - apply (bt_map_ok settle_restored _ Hm).
  - apply entries_ok_map; [done|apply settle_entry_ok|]. rewrite HP.
    apply entries_ok_map; [apply upgrade_entry_turn|apply upgrade_entry_ok|done].
  - unfold lock_ok, unlocked in *. simpl. by rewrite Hu in *.
Qed.

Lemma turn_counter_ok P q :
  rq_ok P q -> turn_counter bp q = Done (last_back_turn q - last_front_turn q).
Proof.
  intros Hq. pose proof (ok_back P q Hq) as Hb. pose proof (ok_front P q Hq) as Hf.
  unfold turn_counter, debug_assert_, assert_.
  rewrite (proj2 (Z.leb_le 0 _)), (proj2 (Z.leb_le _ 0)) by lia.
  unfold RUN_TIME_TURNS in *. change (Z.shiftl 1 61) with 2305843009213693952 in *.
  unfold wrap_u. rewrite Z.mod_small, arith_u_exact by lia.
  assert (last_back_turn q + Z.abs (last_front_turn q) = last_back_turn q - last_front_turn q) as ->
    by lia.
  by destruct (debug_assertions bp).
Qed.

(** ** Pushes *)

(** Whether the queueing operation that leaves the counters at [b] and [f]
    runs a poll upgrade, and what it does to the entries. *)
Definition upgrade_due (b f : RoundRobinTurn) : bool := (b - f) mod POLLING_UPGRADE_INTERVAL =? 0.
Definition upgraded_if_due (b f : RoundRobinTurn) (E : list entry) : list entry :=
  if upgrade_due b f then settle_entry <$> (upgrade_entry <$> E) else E.

Lemma upgraded_if_due_tids b f E :
  (fun kv => tid kv.2) <$> upgraded_if_due b f E = (fun kv => tid kv.2) <$> E.
Proof.
  unfold upgraded_if_due. case_match; [|done]. rewrite <- !list_fmap_compose.
  apply list_fmap_ext. intros ? kv _. exact (eq_trans (settle_entry_tid _) (upgrade_entry_tid kv)).
Qed.

Lemma upgraded_if_due_perm b f E E' : E ≡ₚ E' -> upgraded_if_due b f E ≡ₚ upgraded_if_due b f E'.
Proof. intros HE. unfold upgraded_if_due. case_match; by rewrite HE. Qed.

(** [q'] is [q] after a queueing operation that leaves the turn counters at
    [b], [f] and the entries [E] before the poll upgrade, if one is due. *)
Definition queued P q b f E q' : Prop :=
  rq_ok P q' /\ queue q' ≡ₚ upgraded_if_due b f E /\
  q' = set_queue (queue q')
         (set_poll_upgrades (poll_upgrades q + (if upgrade_due b f then 1 else 0))
           (set_turns b f q)).

Lemma check_poll_upgrade_spec P q :
  rq_ok P q -> poll_upgrades q < u64_max -> unlocked q ->
  exists q', check_poll_upgrade bp q = Done q'
    /\ queued P q (last_back_turn q) (last_front_turn q) (queue q) q'.
Proof.
  intros Hq Hroom Hu. unfold check_poll_upgrade, queued, upgraded_if_due.
  rewrite (turn_counter_ok P q Hq). simpl. fold (upgrade_due (last_back_turn q) (last_front_turn q)).
  destruct (upgrade_due _ _).
  - destruct (do_poll_upgrade_spec P q Hq Hroom Hu) as (m & -> & HP & Hok). simpl.
    eexists. split_and!; [done|done|done|by destruct q].
  - exists q. split_and!; [done|done|done|]. rewrite Z.add_0_r. by destruct q.
Qed.

(** Entering an entry at a turn just past the counters. *)
Lemma enqueue_spec P q b f m kv :
  rq_ok P q -> unlocked q -> poll_upgrades q < u64_max ->
  bt_ok m -> NoDup (tid kv.2 :: ((fun kv => tid kv.2) <$> m)) ->
  entries_ok (last_back_turn q) (last_front_turn q) (m ++ pool_entries P) ->
  last_back_turn q <= b < RUN_TIME_TURNS -> - RUN_TIME_TURNS < f <= last_front_turn q ->
  (turn kv.1 = b /\ last_back_turn q < b \/ turn kv.1 = f /\ f < last_front_turn q) ->
  bt_mem kv.1 m = false /\
  exists q', check_poll_upgrade bp (set_queue (bt_insert kv.1 kv.2 m) (set_turns b f q)) = Done q'
    /\ queued P q b f (kv :: m) q'.
Proof.
  destruct kv as [k v]. simpl. intros Hq Hu Hroom Hm Ht He Hb Hf Hk.
  pose proof Hq as [Hs Ht' Hb' Hf' Hup He' Hl].
  assert (Ho : ordinary_turn (turn k)) by (unfold ordinary_turn; lia).
  assert (Hnew : turn k ∉ ordinary_turns (m ++ pool_entries P))
    by (eapply fresh_turn_not_used; [exact He|done|lia]).
  assert (Hnk : k ∉ m.*1).
  { intros (v' & Hin)%bt_key_elem. apply Hnew, elem_ordinary_turns. split; [done|].
    exists (k, v'). split; [|done]. apply elem_of_app. by left. }
  assert (Hg : bt_get k m = None) by by apply bt_get_None.
  split; [by apply bt_mem_false|].
  pose proof (bt_insert_perm m k v Hg Hm) as HP.
  destruct (check_poll_upgrade_spec P
    (set_queue (bt_insert k v m) (set_turns b f q))) as (q' & E & Hok & HQ & Hfr); simpl; [|done|done|].
  - split; simpl; [auto with bt| |lia|lia|done| |].
    + unfold tids. simpl. by rewrite HP.
    + rewrite HP. simpl. apply entries_ok_cons. split_and!; [left; simpl; lia| |done].
      eapply entries_ok_weaken; [..|exact He]; lia.
    + unfold lock_ok, unlocked in *. simpl. by rewrite Hu in *.
  - exists q'. split; [done|]. split_and!; [done| |].
    + simpl in HQ. rewrite HQ. by apply upgraded_if_due_perm.
    + rewrite Hfr at 1. done.
Qed.

(** The entry a push makes. *)
Definition pushed_entry (t : DetTid) (p : Priority) (tn : RoundRobinTurn) (up : option Priority)
    : entry := (PO p tn, QV t up false false).

Lemma push_back_inner_spec P q t p up :
  rq_ok P q -> unlocked q -> has_room q -> t ∉ tids q ->
  exists q', push_back_inner bp q t p up = Done (PO p (last_back_turn q + 1), q')
    /\ queued P q (last_back_turn q + 1) (last_front_turn q)
         (pushed_entry t p (last_back_turn q + 1) up :: queue q) q'.
Proof.
  intros Hq Hu (Hr1 & Hr2 & Hr3) Ht. pose proof Hq as [Hs Ht' Hb' Hf' Hup He' Hl].
  unfold push_back_inner, push_inner.
  rewrite arith_i_exact by turn_lia. simpl.
  destruct (enqueue_spec P q (last_back_turn q + 1) (last_front_turn q) (queue q)
    (pushed_entry t p (last_back_turn q + 1) up)) as [Hmem (q' & E & Hok)];
    simpl; try done; try lia.
  { by constructor. }
  simpl in Hmem, E. rewrite Hmem. simpl. rewrite E. simpl. eauto.
Qed.

Lemma push_front_inner_spec P q t p up :
  rq_ok P q -> unlocked q -> has_room q -> t ∉ tids q ->
  exists q', push_front_inner bp q t p up = Done (PO p (last_front_turn q - 1), q')
    /\ queued P q (last_back_turn q) (last_front_turn q - 1)
         (pushed_entry t p (last_front_turn q - 1) up :: queue q) q'.
Proof.
  intros Hq Hu (Hr1 & Hr2 & Hr3) Ht. pose proof Hq as [Hs Ht' Hb' Hf' Hup He' Hl].
  unfold push_front_inner, push_inner.
  rewrite arith_i_exact by turn_lia. simpl.
  destruct (enqueue_spec P q (last_back_turn q) (last_front_turn q - 1) (queue q)
    (pushed_entry t p (last_front_turn q - 1) up)) as [Hmem (q' & E & Hok)];
    simpl; try done; try lia.
  { by constructor. }
  simpl in Hmem, E. rewrite Hmem. simpl. rewrite E. simpl. eauto.
Qed.

Lemma push_back_spec P q t p :
  rq_ok P q -> unlocked q -> has_room q -> t ∉ tids q -> is_ordinary_priority p = true ->
  exists q', push_back bp q t p = Done (PO p (last_back_turn q + 1), q')
    /\ queued P q (last_back_turn q + 1) (last_front_turn q)
         (pushed_entry t p (last_back_turn q + 1) None :: queue q) q'.
Proof.
  intros Hq Hu Hr Ht Hp. unfold push_back.
  rewrite (assert_unlocked_ok q Hu). simpl. rewrite (push_safety_check_ok q t Ht), Hp. simpl.
  by apply push_back_inner_spec.
Qed.

Lemma push_front_spec P q t p :
  rq_ok P q -> unlocked q -> has_room q -> t ∉ tids q -> is_ordinary_priority p = true ->
  exists q', push_front bp q t p = Done (PO p (last_front_turn q - 1), q')
    /\ queued P q (last_back_turn q) (last_front_turn q - 1)
         (pushed_entry t p (last_front_turn q - 1) None :: queue q) q'.
Proof.
  intros Hq Hu Hr Ht Hp. unfold push_front.
  rewrite (assert_unlocked_ok q Hu). simpl. rewrite (push_safety_check_ok q t Ht), Hp. simpl.
  by apply push_front_inner_spec.
Qed.

Lemma push_eager_io_repoll_spec P q t :
  rq_ok P q -> unlocked q -> has_room q -> t ∉ tids q ->
  exists q', push_eager_io_repoll bp q t
      = Done (PO EAGER_IO_REPOLL_PRIORITY (last_front_turn q - 1), q')
    /\ queued P q (last_back_turn q) (last_front_turn q - 1)
         (pushed_entry t EAGER_IO_REPOLL_PRIORITY (last_front_turn q - 1) None :: queue q) q'.
Proof.
  intros Hq Hu Hr Ht. unfold push_eager_io_repoll.
  rewrite (assert_unlocked_ok q Hu). simpl. rewrite (push_safety_check_ok q t Ht). simpl.
  by apply push_front_inner_spec.
Qed.

Lemma push_poller_spec P q t np n :
  rq_ok P q -> unlocked q -> has_room q -> t ∉ tids q ->
  exists q', push_poller bp q t np n = Done (PO (poller_priority np n) (last_back_turn q + 1), q')
    /\ queued P q (last_back_turn q + 1) (last_front_turn q)
         (pushed_entry t (poller_priority np n) (last_back_turn q + 1) (Some np) :: queue q) q'.
Proof.
  intros Hq Hu Hr Ht. unfold push_poller.
  rewrite (assert_unlocked_ok q Hu). simpl. rewrite (push_safety_check_ok q t Ht). simpl.
  by apply push_back_inner_spec.
Qed.

(** The invariant does not mention the yield bookkeeping. *)
Lemma rq_ok_yield P q s e st qy :
  rq_ok P q -> rq_ok P (set_queued_by_yield qy (set_yield e st (set_yielded_skip s q))).
Proof. by destruct 1. Qed.

Lemma push_yielded_spec P q t p :
  rq_ok P q -> unlocked q -> has_room q -> t ∉ tids q -> is_ordinary_priority p = true ->
  yielded_skip q = None ->
  exists q', push_yielded bp q t p = Done (PO p (last_back_turn q + 1), q')
    /\ queued P (set_queued_by_yield ({[t]} ∪ queued_by_yield q) (set_yielded_skip (Some t) q))
         (last_back_turn q + 1) (last_front_turn q)
         (pushed_entry t p (last_back_turn q + 1) None :: queue q) q'.
Proof.
  intros Hq Hu Hr Ht Hp Hy. unfold push_yielded. rewrite bool_decide_true by done. simpl.
  apply (push_back_spec P (set_queued_by_yield _ (set_yielded_skip (Some t) q))); try done.
  apply (rq_ok_yield P q (Some t) (yield_epoch q) (yield_streaks q) _ Hq).
Qed.

Lemma count_yield_spec q t :
  default 0 (yield_streaks q !! t) < u32_max -> 0 <= default 0 (yield_streaks q !! t) ->
  exists e st, count_yield bp q t = Done (set_yield e st q).
Proof.
  intros Hs Hs'. unfold count_yield. case_match; [|exists (yield_epoch q), (yield_streaks q); by destruct q].
  rewrite arith_u_exact by (unfold u32_max in *; lia). simpl. eauto.
Qed.

Lemma push_yielded_into_epoch_spec P q t p :
  rq_ok P q -> unlocked q -> has_room q -> t ∉ tids q -> is_ordinary_priority p = true ->
  0 <= default 0 (yield_streaks q !! t) < u32_max ->
  exists e st q', count_yield bp q t = Done (set_yield e st q)
    /\ push_yielded_into_epoch bp q t p = Done (PO p (last_back_turn q + 1), q')
    /\ queued P (set_queued_by_yield ({[t]} ∪ queued_by_yield q) (set_yield e st q))
         (last_back_turn q + 1) (last_front_turn q)
         (pushed_entry t p (last_back_turn q + 1) None :: queue q) q'.
Proof.
  intros Hq Hu Hr Ht Hp Hs. unfold push_yielded_into_epoch.
  destruct (count_yield_spec q t) as (e & st & E); [lia..|]. rewrite E. simpl.
  destruct (push_back_spec P
    (set_queued_by_yield ({[t]} ∪ queued_by_yield q) (set_yield e st q)) t p) as (q' & E' & Hq');
    try done.
  { apply (rq_ok_yield P q (yielded_skip q) e st _ Hq). }
  exists e, st, q'. split_and!; done.
Qed.

(** ** Suspending and restoring *)

Lemma find_tid_Some m t k v :
  find_tid t m = Some (k, v) -> (k, v) ∈ m /\ tid v = t.
Proof. intros [? ?%Z.eqb_eq]%find_Some_elem. done. Qed.
Lemma find_tid_None m t : find_tid t m = None -> t ∉ ((fun kv : entry => tid kv.2) <$> m).
Proof.
  intros H Hin. apply list_elem_of_fmap_1 in Hin as [kv [-> Hin]].
  apply (find_None_all _ _ kv H) in Hin. by rewrite Z.eqb_refl in Hin.
Qed.
Lemma find_tid_elem m t : t ∈ ((fun kv : entry => tid kv.2) <$> m) ->
  exists k v, find_tid t m = Some (k, v).
Proof.
  intros Hin. destruct (find_tid t m) as [[k v]|] eqn:E; [eauto|].
  by destruct (find_tid_None m t E).
Qed.

Lemma queued_entry_get P q k v :
  rq_ok P q -> (k, v) ∈ queue q ->
  bt_get k (queue q) = Some v /\ queue q ≡ₚ (k, v) :: bt_remove k (queue q).
Proof.
  intros Hq Hin. assert (bt_get k (queue q) = Some v) as E by (apply bt_get_elem, Hin; apply Hq).
  split; [done|]. apply bt_remove_perm; [apply Hq|done].
Qed.

Lemma NoDup_tids_remove P q k v :
  rq_ok P q -> (k, v) ∈ queue q ->
  NoDup (tid v :: ((fun kv : entry => tid kv.2) <$> bt_remove k (queue q))).
Proof.
  intros Hq Hin. destruct (queued_entry_get P q k v Hq Hin) as [_ HP].
  pose proof (ok_tids P q Hq) as HN. unfold tids in HN. by rewrite HP in HN.
Qed.

Lemma suspend_spec P q t pp :
  rq_ok P q -> unlocked q ->
  (t ∉ tids q /\ suspend q t pp = Done (None, q)) \/
  (exists k v, (k, v) ∈ queue q /\ tid v = t /\
    suspend q t pp = Done (Some (SE k v pp), set_queue (bt_remove k (queue q)) q) /\
    queue q ≡ₚ (k, v) :: bt_remove k (queue q) /\
    rq_ok (SE k v pp :: P) (set_queue (bt_remove k (queue q)) q)).
Proof.
  intros Hq Hu. unfold suspend. rewrite (assert_unlocked_ok q Hu). simpl.
  destruct (find_tid t (queue q)) as [[k v]|] eqn:E.
  2:{ left. split; [by apply find_tid_None|done]. }
  right. exists k, v. apply find_tid_Some in E as [Hin Ht].
  destruct (queued_entry_get P q k v Hq Hin) as [Hg HP]. rewrite Hg. simpl.
  split_and!; [done|done|done|done|].
  pose proof (NoDup_tids_remove P q k v Hq Hin) as HN. destruct Hq as [Hs Ht' Hb Hf Hup He Hl].
  split; simpl; [auto with bt| |done|done|done| |].
  - by apply NoDup_cons in HN as [_ ?].
  - rewrite <- Permutation_middle, app_comm_cons. by rewrite <- HP.
  - unfold lock_ok, unlocked in *. simpl. by rewrite Hu in *.
Qed.

(** The loop that looks for a free turn ends within one round of the queue, at
    the first free key. *)
Lemma next_free_turn_gen fuel n m p t :
  bt_ok m -> (n + fuel = length m)%nat ->
  (forall i, (i < n)%nat -> PO p (t + Z.of_nat i) ∈ m.*1) ->
  i64_min <= t -> t + Z.of_nat (length m) <= i64_max ->
  exists j, (n <= j <= length m)%nat
    /\ next_free_turn bp fuel m (PO p (t + Z.of_nat n)) = Done (PO p (t + Z.of_nat j))
    /\ bt_mem (PO p (t + Z.of_nat j)) m = false
    /\ forall i, (i < j)%nat -> PO p (t + Z.of_nat i) ∈ m.*1.
Proof.
  revert n. induction fuel as [|fuel IH]; intros n Hm Hlen Hin Ht1 Ht2; simpl.
  all: destruct (bt_mem (PO p (t + Z.of_nat n)) m) eqn:E;
    [|exists n; split_and!; [lia|lia|done|done|done]].
  - exfalso. apply bt_mem_true in E; [|done].
    pose (l := (fun i => PO p (t + Z.of_nat i)) <$> seq 0 (S n)).
    assert (NoDup l) as Hl.
    { apply NoDup_fmap_2; [intros i j [= ?]; lia|apply NoDup_seq]. }
    assert (l ⊆+ m.*1) as Hsub.
    { apply NoDup_submseteq; [done|]. intros x Hx.
      apply list_elem_of_fmap_1 in Hx as (i & -> & Hi). apply elem_of_seq in Hi.
      destruct (decide (i = n)) as [->|]; [done|]. apply Hin. lia. }
    apply submseteq_length in Hsub. unfold l in Hsub.
    rewrite !length_fmap, length_seq in Hsub. lia.
  - apply bt_mem_true in E; [|done]. rewrite arith_i_exact by turn_lia. simpl.
    replace (t + Z.of_nat n + 1) with (t + Z.of_nat (S n)) by lia.
    destruct (IH (S n)) as (j & ? & ? & ? & ?); [done|lia| |done|done|].
    + intros i Hi. destruct (decide (i = n)) as [->|]; [done|]. apply Hin. lia.
    + exists j. split_and!; [lia|lia|done..].
Qed.

Lemma next_free_turn_spec m k :
  bt_ok m -> i64_min <= turn k -> turn k + Z.of_nat (length m) <= i64_max ->
  exists j, (j <= length m)%nat
    /\ next_free_turn bp (length m) m k = Done (PO (priority k) (turn k + Z.of_nat j))
    /\ bt_mem (PO (priority k) (turn k + Z.of_nat j)) m = false
    /\ forall i, (i < j)%nat -> PO (priority k) (turn k + Z.of_nat i) ∈ m.*1.
Proof.
  destruct k as [p t]. simpl. intros Hm H1 H2.
  destruct (next_free_turn_gen (length m) 0 m p t) as (j & Hj & E & ? & ?); [done|lia| |done|done|].
  { lia. }
  rewrite Z.add_0_r in E. exists j. split_and!; [lia|done..].
Qed.

(** What [restore] makes of a suspended entry before it looks for its turn. *)
Definition reprioritized (e : SuspendedRunQueueEntry) (cp : Priority) : entry :=
  if se_persistent_priority e =? cp then (se_key e, se_value e)
  else (PO cp (turn (se_key e)),
        match poll_upgrade (se_value e) with
        | None => se_value e
        | Some _ => QV (tid (se_value e)) (Some cp) (deadline_restored (se_value e))
                       (upgraded_in_place (se_value e))
        end).

Lemma reprioritized_tid e cp : tid (reprioritized e cp).2 = tid (se_value e).
Proof. unfold reprioritized. case_match; [done|]. simpl. by case_match. Qed.
Lemma reprioritized_turn e cp : turn (reprioritized e cp).1 = turn (se_key e).
Proof. unfold reprioritized. by case_match. Qed.
Lemma reprioritized_none e cp :
  poll_upgrade (se_value e) = None -> poll_upgrade (reprioritized e cp).2 = None.
Proof. intros E. unfold reprioritized. case_match; [done|]. simpl. by rewrite E. Qed.
Lemma restore_key e cp :
  (if negb (se_persistent_priority e =? cp) then PO cp (turn (se_key e)) else se_key e)
  = (reprioritized e cp).1.
Proof. unfold reprioritized. by destruct (_ =? _). Qed.
Lemma restore_value e cp :
  (if negb (se_persistent_priority e =? cp) && bool_decide (is_Some (poll_upgrade (se_value e)))
   then QV (tid (se_value e)) (Some cp) (deadline_restored (se_value e))
           (upgraded_in_place (se_value e))
   else se_value e) = (reprioritized e cp).2.
Proof.
  unfold reprioritized. destruct (_ =? _); [done|]. simpl.
  destruct (poll_upgrade (se_value e)); [|done]. by rewrite bool_decide_true.
Qed.

Lemma pool_entry_ok P P' q e :
  rq_ok P q -> P ≡ₚ e :: P' ->
  entries_ok (last_back_turn q) (last_front_turn q)
    ((se_key e, se_value e) :: queue q ++ pool_entries P').
Proof.
  intros Hq HP. pose proof (ok_entries P q Hq) as He. unfold pool_entries in *.
  rewrite HP in He. simpl in He. by rewrite <- Permutation_middle in He.
Qed.

Lemma restore_spec P P' q e cp :
  rq_ok P q -> P ≡ₚ e :: P' -> unlocked q -> tid (se_value e) ∉ tids q ->
  turn (se_key e) + Z.of_nat (length (queue q)) <= i64_max ->
  exists j m, (j <= length (queue q))%nat
    /\ (ordinary_turn (turn (se_key e)) -> j = 0%nat)
    /\ restore bp q e cp = Done (set_queue m q)
    /\ m ≡ₚ (PO (priority (reprioritized e cp).1) (turn (se_key e) + Z.of_nat j),
             (reprioritized e cp).2) :: queue q
    /\ rq_ok P' (set_queue m q).
Proof.
  intros Hq HP Hu Ht Hlen. unfold restore. rewrite (assert_unlocked_ok q Hu).
  apply contains_tid_false in Ht. rewrite Ht. simpl. apply contains_tid_false in Ht.
  rewrite restore_key, restore_value.
  pose proof (pool_entry_ok P P' q e Hq HP) as He. simpl in He.
  pose proof Hq as [Hs Ht' Hb Hf Hup _ Hl].
  destruct (reprioritized e cp) as [[p t] v] eqn:Er. simpl.
  assert (Hv : tid v = tid (se_value e)) by (by rewrite <- (reprioritized_tid e cp), Er).
  assert (Htn : t = turn (se_key e)) by (by rewrite <- (reprioritized_turn e cp), Er).
  assert (exists j, (j <= length (queue q))%nat
    /\ (ordinary_turn (turn (se_key e)) -> j = 0%nat)
    /\ (if RUN_TIME_TURNS <=? t then next_free_turn bp (length (queue q)) (queue q) (PO p t)
        else Done (PO p t)) = Done (PO p (t + Z.of_nat j))
    /\ bt_mem (PO p (t + Z.of_nat j)) (queue q) = false) as (j & Hj & Hj0 & Ekey & Hmem).
  { rewrite Htn. destruct (Z.leb_spec RUN_TIME_TURNS (turn (se_key e))) as [Hle|Hlt].
    - destruct (next_free_turn_spec (queue q) (PO p (turn (se_key e)))) as (j & ? & ? & ? & ?);
        simpl; [done|turn_lia|done|].
      exists j. split_and!; [done|intros ?; turn_lia|done|done].
    - exists 0%nat. rewrite Z.add_0_r. split_and!; [lia|done|done|]. apply bt_mem_false; [done|].
      intros Hin. eapply (entries_ok_key_fresh _ _ (se_key e) (se_value e)); [exact He|exact Hlt|].
      rewrite fmap_app, elem_of_app. left. exact Hin. }
  rewrite Ekey. simpl. rewrite Hmem. simpl.
  assert (Hg : bt_get (PO p (t + Z.of_nat j)) (queue q) = None)
    by (apply bt_get_None; [done|]; by apply bt_mem_false).
  pose proof (bt_insert_perm _ _ v Hg Hs) as HPm.
  exists j, (bt_insert (PO p (t + Z.of_nat j)) v (queue q)).
  rewrite <- Htn. split_and!; [done|by rewrite Htn|done|done|].
  split; simpl; [auto with bt| |done|done|done| |].
  - unfold tids. simpl. rewrite HPm. simpl. rewrite Hv. by constructor.
  - rewrite HPm. simpl. apply entries_ok_cons in He as (Hek & HeE & Hu').
    apply entries_ok_cons. split_and!; [|done|].
    + destruct Hek as [Hek|[Hek Hpu]]; simpl in *.
      * assert (ordinary_turn (turn (se_key e))) as Ho by turn_lia.
        left. simpl. rewrite (Hj0 Ho), Htn. lia.
      * right. simpl. split; [rewrite Htn; lia|].
        by apply (reprioritized_none e cp) in Hpu; rewrite Er in Hpu.
    + simpl. intros Ho. rewrite Htn in *. simpl in *.
      assert (ordinary_turn (turn (se_key e))) as Ho' by turn_lia.
      rewrite (Hj0 Ho'), Z.add_0_r in *. auto.
  - unfold lock_ok, unlocked in *. simpl. by rewrite Hu in *.
Qed.

(** ** Removing threads and restoring pollers *)

Lemma entries_ok_submseteq b f E E' : E' ⊆+ E -> entries_ok b f E -> entries_ok b f E'.
Proof.
  intros [k HP]%submseteq_Permutation. rewrite HP. unfold entries_ok, ordinary_turns.
  rewrite Forall_app, fmap_app, filter_app, NoDup_app. naive_solver.
Qed.

Lemma remove_tid_spec P q t :
  rq_ok P q -> unlocked q ->
  exists q', remove_tid q t = Done (contains_tid q t, q') /\ rq_ok P q' /\ unlocked q'
    /\ queue q' = List.filter (fun kv => negb (tid kv.2 =? t)) (queue q)
    /\ last_back_turn q' = last_back_turn q /\ last_front_turn q' = last_front_turn q
    /\ t ∉ tids q' /\ yielded_skip q' <> Some t /\ sticky_random_selection q' <> Some t
    /\ t ∉ queued_by_yield q' /\ t ∉ default ∅ (yield_epoch q') /\ yield_streaks q' !! t = None.
Proof.
  intros Hq Hu. unfold remove_tid. rewrite (assert_unlocked_ok q Hu). simpl.
  set (kept := List.filter _ _). eexists. split_and!.
  - f_equal. f_equal. unfold contains_tid, tids. induction (queue q) as [|kv l IH]; simpl; [done|].
    rewrite negb_andb, negb_involutive. by rewrite IH.
  - destruct Hq as [Hs Ht Hb Hf Hup He Hl]. split; simpl; [| |done|done|done| |].
    + eapply bt_ok_sublist; [apply filter_sublist|done].
    + eapply sublist_NoDup; [exact Ht|]. apply fmap_sublist, filter_sublist.
    + eapply entries_ok_submseteq; [|exact He]. apply submseteq_app; [|done].
      apply sublist_submseteq, filter_sublist.
    + unfold lock_ok, unlocked in *. simpl. by rewrite Hu in *.
  - done.
  - done.
  - done.
  - done.
  - intros Hin. apply list_elem_of_fmap_1 in Hin as [kv [-> Hin]]. simpl in Hin.
    apply list_elem_of_In, filter_In in Hin as [_ Hin]. by rewrite Z.eqb_refl in Hin.
  - simpl. by case_bool_decide.
  - simpl. by case_bool_decide.
  - simpl. set_solver.
  - simpl. destruct (yield_epoch q); simpl; set_solver.
  - simpl. apply lookup_delete_eq.
Qed.

Lemma restore_poller_priority_spec P q t :
  rq_ok P q -> unlocked q -> has_room q ->
  (t ∉ tids q /\ restore_poller_priority bp q t = Done (NotQueued, q)) \/
  (exists k v, (k, v) ∈ queue q /\ tid v = t /\
    match poll_upgrade v with
    | None => restore_poller_priority bp q t = Done (NotBackedOff, q)
    | Some np =>
        exists q', restore_poller_priority bp q t = Done (Restored, q')
          /\ queued P q (last_back_turn q + 1) (last_front_turn q)
               ((PO np (last_back_turn q + 1),
                 QV t None (LAST_PRIORITY <=? priority k) (upgraded_in_place v))
                :: bt_remove k (queue q)) q'
    end).
Proof.
  intros Hq Hu (Hr1 & Hr2 & Hr3). unfold restore_poller_priority.
  rewrite (assert_unlocked_ok q Hu). simpl.
  destruct (find_tid t (queue q)) as [[k v]|] eqn:E.
  2:{ left. split; [by apply find_tid_None|done]. }
  right. exists k, v. apply find_tid_Some in E as [Hin Ht]. split_and!; [done|done|].
  destruct (poll_upgrade v) as [np|] eqn:Ev; [|done].
  destruct (queued_entry_get P q k v Hq Hin) as [Hg HP]. rewrite Hg. simpl.
  pose proof Hq as [Hs Ht' Hb Hf Hup He Hl]. rewrite arith_i_exact by turn_lia. simpl.
  destruct (enqueue_spec P q (last_back_turn q + 1) (last_front_turn q) (bt_remove k (queue q))
    (PO np (last_back_turn q + 1), QV (tid v) None (LAST_PRIORITY <=? priority k) (upgraded_in_place v)))
    as [Hmem (q' & Eq' & Hok)]; simpl; try done; try lia.
  - auto with bt.
  - by apply NoDup_tids_remove with P.
  - eapply entries_ok_submseteq; [|exact He]. apply submseteq_app; [|done].
    apply sublist_submseteq, bt_remove_sub.
  - simpl in Hmem, Eq'. rewrite Hmem. simpl. rewrite Eq'. simpl.
    exists q'. split; [done|]. by rewrite <- Ht.
Qed.

(** ** Selection *)
Context `{!RngSpec G}.

Lemma eligible_tids_elem q ex t :
  t ∈ eligible_tids q ex <-> t ∈ tids q /\ t ∉ ex.
Proof.
  unfold eligible_tids, tids, is_excluded. rewrite !list_elem_of_fmap.
  setoid_rewrite list_elem_of_In. setoid_rewrite filter_In. split.
  - intros (kv & -> & Hin & Hf). bool_prop. eauto.
  - intros [(kv & -> & Hin) Hn]. exists kv. split_and!; [done|done|]. by rewrite bool_decide_false.
Qed.

(** The exclusions of a yield never cover the whole queue. *)
Lemma some_eligible P q :
  rq_ok P q -> queue q <> [] ->
  exists t, t ∈ eligible_tids q (excluded_tids q (selection_skip q)).
Proof.
  intros Hq Hne. setoid_rewrite eligible_tids_elem. pose proof (ok_tids P q Hq) as HN.
  assert (Hskip : exists t, t ∈ tids q /\
    t ∉ (match selection_skip q with Some t => {[t]} | None => ∅ end : gset DetTid)).
  { unfold selection_skip, tids, len in *. destruct (queue q) as [|[k v] [|[k2 v2] m]]; simpl in *; [done|..].
    - exists (tid v). destruct (yielded_skip q); simpl; set_solver.
    - destruct (yielded_skip q) as [s|]; simpl; [|exists (tid v); set_solver].
      destruct (contains_tid q s); [|exists (tid v); set_solver].
      apply NoDup_cons in HN as [HN _].
      destruct (decide (tid v = s)) as [<-|Hs]; [exists (tid v2)|exists (tid v)];
        rewrite !elem_of_cons, not_elem_of_singleton; [|auto].
      split; [auto|]. intros E. apply HN. rewrite E. left. }
  unfold excluded_tids. destruct (yield_epoch q) as [epoch|]; [|done].
  destruct (existsb _ _) eqn:E; [|done].
  apply existsb_elem in E as (kv & Hin & Hn). bool_prop.
  exists (tid kv.2). split; [|done]. by apply (list_elem_of_fmap_2 (fun kv : entry => tid kv.2)).
Qed.

Lemma eligible_count q ex :
  length (eligible_tids q ex) = (len q - length (List.filter (is_excluded ex) (queue q)))%nat.
Proof.
  unfold eligible_tids, len. rewrite length_fmap.
  induction (queue q) as [|kv l IH]; simpl; [done|].
  assert (length (List.filter (is_excluded ex) l) <= length l)%nat
    by (apply sublist_length, filter_sublist).
  destruct (is_excluded ex kv); simpl; lia.
Qed.

Lemma draw_eligible_spec q ex t0 :
  t0 ∈ eligible_tids q ex ->
  exists t g, draw_eligible q ex = Done (Some t, set_random g (sticky_random_selection q) q)
    /\ t ∈ eligible_tids q ex.
Proof.
  intros Hin. unfold draw_eligible, random_range. rewrite <- eligible_count.
  assert (0 < length (eligible_tids q ex))%nat as Hpos
    by (destruct (eligible_tids q ex); [by inversion Hin|simpl; lia]).
  rewrite (proj2 (Z.ltb_lt 0 _)) by lia.
  pose proof (draw_usize_in_range (prng q) 0 (Z.of_nat (length (eligible_tids q ex))) ltac:(lia)) as Hr.
  destruct (draw_usize _ _ _) as [r g]. simpl in *.
  destruct (lookup_lt_is_Some_2 (eligible_tids q ex) (Z.to_nat r)) as [t Ht]; [lia|].
  rewrite Ht. exists t, g. split; [done|]. by eapply list_elem_of_lookup_2.
Qed.
End Invariant.

(** Selection from the run queue: the tentative pop, its commit and its undo,
    for every heuristic. *)

Section Selection.
Context (bp : profile) {G : Type} `{!Rng G, !RngSpec G}.
Implicit Types (q : RunQueue G) (P : list SuspendedRunQueueEntry).

(** The queue [tentative_pop_next] selects from: with its yield epoch ended if
    it was over. *)
Definition settled q : RunQueue G := if yield_epoch_is_over q then end_yield_epoch q else q.
Definition selection_exclusions q : gset DetTid := excluded_tids (settled q) (selection_skip q).
Definition eligible q : list DetTid := eligible_tids q (selection_exclusions q).

Lemma settled_ok P q : rq_ok P q -> rq_ok P (settled q).
Proof. unfold settled. case_match; [|done]. by destruct 1. Qed.
Lemma settled_queue q : queue (settled q) = queue q.
Proof. unfold settled. by case_match. Qed.
Lemma settled_eligible q ex : eligible_tids (settled q) ex = eligible_tids q ex.
Proof. unfold eligible_tids. by rewrite settled_queue. Qed.
Lemma settled_skip q : selection_skip (settled q) = selection_skip q.
Proof. unfold settled. by case_match. Qed.

Lemma some_thread_eligible P q : rq_ok P q -> queue q <> [] -> exists t, t ∈ eligible q.
Proof.
  intros Hq Hne. destruct (some_eligible P (settled q)) as [t Ht].
  - by apply settled_ok.
  - by rewrite settled_queue.
  - exists t. by rewrite settled_skip, settled_eligible in Ht.
Qed.

(** What a selection leaves: the same entries, locked on the thread chosen. *)
Definition selected P q (sel : option DetTid) q' : Prop :=
  rq_ok P q' /\ queue q' = queue q /\ tentative_selection q' = sel
  /\ tentative_selection_is_exact q' = false
  /\ last_back_turn q' = last_back_turn q /\ last_front_turn q' = last_front_turn q
  /\ sched_strategy q' = sched_strategy q /\ yielded_skip q' = yielded_skip q
  /\ yield_epoch q' = yield_epoch q /\ queued_by_yield q' = queued_by_yield q.

Lemma lock_ok_empty P q : rq_ok P q -> queue q = [] -> unlocked q.
Proof.
  intros Hq E. pose proof (ok_lock P q Hq) as Hl. unfold lock_ok, unlocked, tids in *.
  rewrite E in Hl. destruct (tentative_selection q); [|done]. by destruct Hl as [?%elem_of_nil _].
Qed.

Lemma set_selection_ok P q t g s :
  rq_ok P q -> tentative_selection_is_exact q = false -> t ∈ tids q ->
  (sched_strategy q = HStickyRandom -> s = Some t) ->
  selected P q (Some t) (set_tentative (Some t) false (set_random g s q)).
Proof.
  intros Hq Hx Ht Hs. split_and!; try done. destruct Hq as [? ? ? ? ? ? Hl].
  by split.
Qed.

Lemma select_first_spec P q ex :
  rq_ok P q -> tentative_selection_is_exact q = false -> sched_strategy q <> HStickyRandom ->
  exists q', select_first q ex =
      Done ((fun kv => tid kv.2) <$> List.find (fun kv => negb (is_excluded ex kv)) (queue q), q')
    /\ selected P q ((fun kv => tid kv.2) <$>
         List.find (fun kv => negb (is_excluded ex kv)) (queue q)) q'.
Proof.
  intros Hq Hx Hs. unfold select_first. eexists. split; [done|]. rewrite Hx.
  destruct (List.find _ _) as [kv|] eqn:E; simpl.
  - apply find_Some_elem in E as [Hin _].
    replace (set_tentative _ _ q) with
      (set_tentative (Some (tid kv.2)) false (set_random (prng q) (sticky_random_selection q) q))
      by by destruct q.
    apply set_selection_ok; [done|done| |done].
    by apply (list_elem_of_fmap_2 (fun kv : entry => tid kv.2)).
  - split_and!; try done. destruct Hq; split; try done.
Qed.

Lemma select_random_spec P q ex :
  rq_ok P q -> tentative_selection_is_exact q = false -> sched_strategy q <> HStickyRandom ->
  queue q <> [] -> (exists t, t ∈ eligible_tids q ex) ->
  exists t q', select_random q ex = Done (Some t, q') /\ selected P q (Some t) q'
    /\ (unlocked q -> t ∈ eligible_tids q ex).
Proof.
  intros Hq Hx Hs Hne [t0 Ht0]. unfold select_random, is_empty.
  destruct (queue q) as [|kv0 m0] eqn:Eq0; [done|].
  destruct (tentative_selection q) as [t|] eqn:Es; simpl.
  - exists t. eexists. split; [done|]. split; [|unfold unlocked; congruence]. rewrite Hx.
    replace (set_tentative (Some t) false q) with
      (set_tentative (Some t) false (set_random (prng q) (sticky_random_selection q) q))
      by by destruct q.
    apply set_selection_ok; [done|done| |done].
    pose proof (ok_lock P q Hq) as Hl. unfold lock_ok in Hl. rewrite Es in Hl. apply Hl.
  - destruct (draw_eligible_spec q ex t0 Ht0) as (t & g & E & Ht). rewrite E. simpl. rewrite Hx.
    exists t. eexists. split; [done|]. split; [|done].
    apply set_selection_ok; [done|done| |done]. by apply eligible_tids_elem in Ht as [? _].
Qed.

Lemma select_sticky_spec P q ex :
  rq_ok P q -> tentative_selection_is_exact q = false ->
  queue q <> [] -> (exists t, t ∈ eligible_tids q ex) ->
  exists t q', select_sticky q ex = Done (Some t, q') /\ selected P q (Some t) q'
    /\ t ∈ eligible_tids q ex.
Proof.
  intros Hq Hx Hne [t0 Ht0]. unfold select_sticky, is_empty.
  destruct (queue q) as [|kv0 m0] eqn:Eq0; [done|].
  set (sticky := match sticky_random_selection q with Some _ => _ | None => _ end).
  assert (Hdraw : exists t q', ('(sel, q') ← draw_eligible (set_random (prng q) sticky q) ex;
     Done (sel, set_tentative sel (tentative_selection_is_exact q') (set_random (prng q') sel q')))
     = Done (Some t, q') /\ selected P q (Some t) q' /\ t ∈ eligible_tids q ex).
  { destruct (draw_eligible_spec (set_random (prng q) sticky q) ex t0 Ht0) as (t & g & E & Ht).
    rewrite E. simpl. rewrite Hx. exists t. eexists. split; [done|]. split; [|done].
    apply (set_selection_ok P q t g (Some t)); [done|done| |done].
    by apply eligible_tids_elem in Ht as [? _]. }
  destruct sticky as [t|] eqn:Est; [|exact Hdraw].
  destruct (contains_tid (set_random (prng q) (Some t) q) t) eqn:Ec; [|exact Hdraw].
  simpl. rewrite Hx. apply contains_tid_true in Ec.
  exists t. eexists. split; [done|]. split.
  - apply (set_selection_ok P q t (prng q) (Some t)); [done..|exact Ec|done].
  - apply eligible_tids_elem. split; [exact Ec|].
    unfold sticky in Est. destruct (sticky_random_selection q); [|done].
    case_bool_decide; naive_solver.
Qed.

(** The first entry that is not excluded, where a thread is eligible. *)
Lemma find_eligible q ex t0 : t0 ∈ eligible_tids q ex ->
  exists kv, List.find (fun kv => negb (is_excluded ex kv)) (queue q) = Some kv /\ tid kv.2 ∈ tids q /\
    tid kv.2 ∈ eligible_tids q ex.
Proof.
  intros [Ht0 Hn0]%eligible_tids_elem. unfold tids in Ht0.
  apply list_elem_of_fmap_1 in Ht0 as [kv0 [-> Hkv0]].
  destruct (find_is_Some (fun kv => negb (is_excluded ex kv)) (queue q) kv0 Hkv0) as [kv E];
    [by unfold is_excluded; rewrite bool_decide_false|].
  exists kv. split; [done|]. apply find_Some_elem in E as [Hkv Hn]. unfold is_excluded in Hn. bool_prop.
  assert (tid kv.2 ∈ tids q) by (by apply (list_elem_of_fmap_2 (fun kv : entry => tid kv.2))).
  split; [done|]. by apply eligible_tids_elem.
Qed.
Lemma settled_same q :
  tentative_selection_is_exact (settled q) = tentative_selection_is_exact q /\
  sched_strategy (settled q) = sched_strategy q /\ (unlocked q -> unlocked (settled q)).
Proof. unfold settled, unlocked. by case_match. Qed.

(** The heuristics' common contract. *)
Lemma tentative_pop_next_spec P q :
  rq_ok P q -> tentative_selection_is_exact q = false ->
  exists sel q', tentative_pop_next q = Done (sel, q')
    /\ selected P (settled q) sel q'
    /\ (queue q = [] -> sel = None)
    /\ (queue q <> [] -> exists t, sel = Some t /\ t ∈ tids q
          /\ (unlocked q -> t ∈ eligible q))
    /\ (is_priority_ordered q = true ->
          sel = (fun kv => tid kv.2) <$>
                  List.find (fun kv => negb (is_excluded (selection_exclusions q) kv)) (queue q)).
Proof.
  intros Hq Hx. unfold tentative_pop_next. rewrite Hx. simpl.
  fold (settled q). fold (selection_exclusions q).
  pose proof (settled_ok P q Hq) as Hq1. pose proof (settled_queue q) as EQ.
  destruct (settled_same q) as (Hx1 & Hst & Hun). rewrite Hx in Hx1.
  assert (Hel : queue q <> [] ->
    exists t, t ∈ eligible_tids (settled q) (selection_exclusions q)).
  { intros Hne. destruct (some_thread_eligible P q Hq Hne) as [t Ht]. exists t.
    by rewrite settled_eligible. }
  assert (Hin : forall t, t ∈ eligible_tids (settled q) (selection_exclusions q) ->
     t ∈ tids q /\ t ∈ eligible q).
  { intros t. rewrite settled_eligible. intros Ht. split; [|done].
    by apply eligible_tids_elem in Ht as [? _]. }
  unfold is_priority_ordered. rewrite Hst. destruct (decide (queue q = [])) as [He|Hne].
  - (* an empty queue *)
    assert (Hfind : forall f : entry -> bool, List.find f (queue (settled q)) = None)
      by (rewrite EQ, He; done).
    assert (Hsame : selected P (settled q) None (settled q)).
    { assert (Hl : unlocked (settled q)) by (apply (lock_ok_empty P); [done|by rewrite EQ]).
      split_and!; done. }
    destruct (sched_strategy q) eqn:Es.
    1,2: destruct (select_first_spec P (settled q) (selection_exclusions q) Hq1 Hx1)
           as (q' & -> & Hsel); [by rewrite Hst|];
         rewrite Hfind in *; exists None, q'; split_and!; [done|done|done|done|];
         by rewrite He.
    1,2: exists None, (settled q); unfold select_random, select_sticky, is_empty;
         rewrite EQ, He; split_and!; done.
  - destruct (Hel Hne) as [t0 Ht0].
    assert (Hne1 : queue (settled q) <> []) by by rewrite EQ.
    destruct (sched_strategy q) eqn:Es.
    1,2: destruct (select_first_spec P (settled q) (selection_exclusions q) Hq1 Hx1)
           as (q' & -> & Hsel); [by rewrite Hst|]; rewrite EQ in *;
         eexists _, q'; split_and!; [done|done|done| |done]; intros _;
         destruct (find_eligible _ _ _ Ht0) as (kv & E & _ & Hkv); rewrite EQ in E;
         apply Hin in Hkv as [? ?]; rewrite E; simpl; eexists; split_and!; done.
    + destruct (select_random_spec P (settled q) (selection_exclusions q)) as (t & q' & E & Hsel & Ht);
        [done|done|by rewrite Hst|done|eauto|].
      exists (Some t), q'. split_and!; [done|done|done| |done]. intros _. exists t. split; [done|].
      destruct Hsel as (Hok & Hqq & Hts & Hr). split.
      * pose proof (ok_lock P q' Hok) as Hl. unfold lock_ok in Hl. rewrite Hts in Hl.
        destruct Hl as [Hl _]. unfold tids in *. by rewrite Hqq, EQ in Hl.
      * intros Hu. by apply Hin, Ht, Hun.
    + destruct (select_sticky_spec P (settled q) (selection_exclusions q)) as (t & q' & E & Hsel & Ht);
        [done|done|done|eauto|].
      apply Hin in Ht as [Ht1 Ht2].
      exists (Some t), q'. split_and!; [done|done|done| |done]. intros _. by exists t.
Qed.

Lemma tentative_pop_tid_spec P q t :
  rq_ok P q -> unlocked q ->
  (t ∉ tids q /\ tentative_pop_tid q t = Done (None, q)) \/
  (t ∈ tids q /\ tentative_pop_tid q t = Done (Some t, set_tentative (Some t) true q)
   /\ rq_ok P (set_tentative (Some t) true q)).
Proof.
  intros Hq Hu. unfold tentative_pop_tid. rewrite (assert_unlocked_ok q Hu). simpl.
  destruct (contains_tid q t) eqn:E.
  - right. apply contains_tid_true in E. split_and!; [done|done|]. destruct Hq; by split.
  - left. by apply contains_tid_false in E.
Qed.

Lemma take_tid_spec P q t :
  rq_ok P q -> t ∈ tids q ->
  exists k v, (k, v) ∈ queue q /\ tid v = t /\ take_tid t (queue q) = Done (t, bt_remove k (queue q)).
Proof.
  intros Hq Ht. destruct (find_tid_elem (queue q) t Ht) as (k & v & E).
  unfold take_tid. rewrite E. simpl. apply find_tid_Some in E as [Hin Hv].
  destruct (queued_entry_get P q k v Hq Hin) as [Hg _]. rewrite Hg. simpl.
  exists k, v. by rewrite Hv.
Qed.

(** A queue without the entry at [k], unlocked. *)
Lemma rq_ok_taken P q k v :
  rq_ok P q -> (k, v) ∈ queue q ->
  rq_ok P (set_tentative None false (set_queue (bt_remove k (queue q)) q)).
Proof.
  intros Hq Hin. pose proof (NoDup_tids_remove P q k v Hq Hin) as [_ HN]%NoDup_cons.
  destruct Hq as [Hs Ht Hb Hf Hup He Hl]. split; simpl; try done; [auto with bt|].
  eapply entries_ok_submseteq; [|exact He]. apply submseteq_app; [|done].
  apply sublist_submseteq, bt_remove_sub.
Qed.

(** Committing a pop takes exactly the selected thread's entry. *)
Lemma commit_selection_spec P q t :
  rq_ok P q -> tentative_selection q = Some t ->
  exists k v g s, (k, v) ∈ queue q /\ tid v = t
    /\ commit_selection bp q = Done (t,
         set_queued_by_yield (queued_by_yield q ∖ {[t]})
           (set_random g s (set_tentative None false (set_queue (bt_remove k (queue q)) q))))
    /\ rq_ok P (set_queued_by_yield (queued_by_yield q ∖ {[t]})
           (set_random g s (set_tentative None false (set_queue (bt_remove k (queue q)) q)))).
Proof.
  intros Hq Hsel. pose proof (ok_lock P q Hq) as Hl. unfold lock_ok in Hl. rewrite Hsel in Hl.
  destruct Hl as [Ht Hst]. destruct (take_tid_spec P q t Hq Ht) as (k & v & Hin & Hv & E).
  assert (Hok : forall g s, rq_ok P (set_queued_by_yield (queued_by_yield q ∖ {[t]})
           (set_random g s (set_tentative None false (set_queue (bt_remove k (queue q)) q))))).
  { intros g s. destruct (rq_ok_taken P q k v Hq Hin). by split. }
  unfold commit_selection. rewrite Hsel. simpl.
  assert (Hd : debug_assert_ bp (t =? t) = Done tt)
    by (unfold debug_assert_; rewrite Z.eqb_refl; by destruct (debug_assertions bp)).
  destruct (tentative_selection_is_exact q) eqn:Ex; [|destruct (sched_strategy q) eqn:Es].
  1-4: rewrite E; simpl; rewrite Hd; simpl;
       exists k, v, (prng q), (sticky_random_selection q); split_and!; done.
  rewrite Hst by done. simpl. destruct (draw_f64 _ _ _) as [x g]. rewrite E. simpl. rewrite Hd. simpl.
  exists k, v, g, (if f64_leb x (f64_sub f64_one (sticky_random_param q)) then None else Some t).
  split_and!; done.
Qed.

Lemma undo_tentative_pop_spec P q t :
  rq_ok P q -> tentative_selection q = Some t ->
  undo_tentative_pop q = Done (set_tentative None false q) /\ rq_ok P (set_tentative None false q).
Proof.
  intros Hq Hsel. unfold undo_tentative_pop. rewrite Hsel, bool_decide_true by done. simpl.
  split; [done|]. destruct Hq; by split.
Qed.
End Selection.
