(* ===== verification/RunQueueOrder.v ===== *)
(** [RunQueue::order_by_run_time]: the fair order of the round-robin entries. *)
From Stdlib Require Import ZArith Lia List Sorting.Sorted.
From stdpp Require Import base gmap list sorting.
From S2P Require Import Prelude BTree RunQueue RunQueueInv.


Section Order.
Context (bp : profile) {G : Type} `{!Rng G}.
Implicit Types (q : RunQueue G) (P : list SuspendedRunQueueEntry).

(** The entries [order_by_run_time] orders. *)
Definition wanted_entry (wanted : gmap DetTid (Z * Z)) (kv : entry) : bool :=
  bool_decide (is_Some (wanted !! tid kv.2)) && in_round_robin_order kv.1 kv.2.
Definition moved_of (wanted : gmap DetTid (Z * Z)) (kv : entry) : moved_entry :=
  (priority kv.1, default (0, 0) (wanted !! tid kv.2), kv.2).

Lemma filter_split {A} (f : A -> bool) (l : list A) :
  l ≡ₚ List.filter f l ++ List.filter (fun x => negb (f x)) l.
Proof.
  induction l as [|x l IH]; simpl; [done|]. destruct (f x); simpl; [by rewrite <- IH|].
  by rewrite <- Permutation_middle, <- IH.
Qed.

Lemma take_out_spec wanted taken rest m :
  bt_ok m -> m ≡ₚ taken ++ rest -> Forall (fun kv => is_Some (wanted !! tid kv.2)) taken ->
  exists m', take_out (taken.*1) wanted m = Done (moved_of wanted <$> taken, m')
    /\ bt_ok m' /\ m' ≡ₚ rest.
Proof.
  revert m. induction taken as [|[k v] taken IH]; intros m Hm HP HF; [simpl in *; eauto|].
  change (((k, v) :: taken).*1) with (k :: taken.*1). cbn [take_out].
  apply Forall_cons in HF as [[w Hw] HF]. simpl in Hw.
  assert (bt_get k m = Some v) as Hg by (apply bt_get_elem; [done|]; rewrite HP; left).
  rewrite Hg. cbn [expect mbind outcome_bind]. rewrite Hw. cbn [expect mbind outcome_bind].
  destruct (IH (bt_remove k m)) as (m' & E & Hm' & HP'); [auto with bt| |done|].
  { apply (Permutation_cons_inv (a := (k, v))). by rewrite <- (bt_remove_perm m k v Hm Hg). }
  rewrite E. simpl. exists m'. unfold moved_of at 2. simpl. by rewrite Hw.
Qed.

(** What the loop makes of the moved entries: the same values in the same
    bands, at run-time turns, in strictly ascending keys. *)
Definition placed (mv : moved_entry) (kv : entry) : Prop :=
  let '(p, (rt, _), v) := mv in
  kv.2 = v /\ priority kv.1 = p /\ RUN_TIME_TURNS <= run_time_turn rt <= turn kv.1
  /\ turn kv.1 <= i64_max.

Definition moved_band (mv : moved_entry) : Priority := mv.1.1.

Lemma run_time_turn_bounds rt :
  0 <= rt -> RUN_TIME_TURNS <= run_time_turn rt <= 2 * RUN_TIME_TURNS.
Proof.
  intros H. unfold run_time_turn, sat_add_i64. case_match; bool_prop; turn_lia.
Qed.

Definition above (last : option PrioritizedOrder) (p : Priority) : Prop :=
  match last with None => True | Some prev => priority prev <= p end.

(** The turn a moved thread is first tried at. *)
Lemma put_back_turn last p rt c :
  run_time_turn rt <= c -> (forall prev, last = Some prev -> 0 <= turn prev <= c) -> c < i64_max ->
  exists t, match last with
      | Some previous => if priority previous =? p
          then t1 ← arith_i bp 64 (turn previous + 1); Done (Z.max (run_time_turn rt) t1)
          else Done (run_time_turn rt)
      | None => Done (run_time_turn rt) end = Done t
    /\ run_time_turn rt <= t <= c + 1
    /\ (forall prev, last = Some prev -> priority prev = p -> turn prev < t).
Proof.
  intros Hrt Hlast Hc. destruct last as [prev|]; [|exists (run_time_turn rt); split_and!; [done|lia|lia|done]].
  pose proof (Hlast prev eq_refl) as Hp. destruct (Z.eqb_spec (priority prev) p) as [Hpe|Hpe].
  - rewrite arith_i_exact by (unfold i64_max in Hc; lia). simpl.
    eexists. split_and!; [done|lia|lia|]. intros ? [= <-] _. lia.
  - exists (run_time_turn rt). split_and!; [done|lia|lia|]. naive_solver.
Qed.
Lemma klt_after prev p t k : priority prev <= p -> (priority prev = p -> turn prev < t) -> t <= k -> klt prev (PO p k).
Proof.
  intros Hp Ht Hk. unfold klt, kcmp, PrioritizedOrder_ord, lex. simpl.
  destruct (Z.compare_spec (priority prev) p); [|done|lia]. apply Z.compare_lt_iff. specialize (Ht ltac:(done)). lia.
Qed.

Lemma put_back_spec moved last m c :
  bt_ok m -> StronglySorted (fun a b => moved_band a <= moved_band b) moved ->
  Forall (fun mv => 0 <= mv.1.2.1) moved ->
  (forall mv, mv ∈ moved -> above last (moved_band mv)) ->
  2 * RUN_TIME_TURNS <= c -> (forall prev, last = Some prev -> 0 <= turn prev <= c) ->
  c + Z.of_nat (length moved) * Z.of_nat (length m + length moved + 1) <= i64_max ->
  exists new m', put_back bp moved last m = Done m' /\ bt_ok m' /\ m' ≡ₚ new ++ m
    /\ Forall2 placed moved new
    /\ StronglySorted klt (new.*1)
    /\ (forall prev kv, last = Some prev -> kv ∈ new -> klt prev kv.1).
Proof.
  revert last m c. induction moved as [|[[p [rt x]] v] moved IH];
    intros last m c Hm Hs Hrt Hab Hc Hlast Hbound; cbn [put_back].
  { exists [], m. split_and!; [done|done|done|constructor|constructor|set_solver]. }
  inversion_clear Hs as [|? ? Hs' Hsp]. apply Forall_cons in Hrt as [Hrt0 Hrt]. simpl in Hrt0.
  pose proof (run_time_turn_bounds rt Hrt0) as Hb.
  cbn [length] in Hbound.
  destruct (put_back_turn last p rt c) as (t & Et & Ht & Hprev); [lia|done|nia|].
  rewrite Et. simpl.
  destruct (next_free_turn_spec bp m (PO p t) Hm) as (j & Hj & Ej & Hmem & _); simpl;
    [turn_lia|nia|].
  simpl in Ej, Hmem. rewrite Ej. simpl. rewrite Hmem. simpl.
  set (key := PO p (t + Z.of_nat j)) in *.
  assert (Hg : bt_get key m = None) by (apply bt_get_None; [done|]; by apply bt_mem_false).
  pose proof (bt_insert_perm m key v Hg Hm) as HPm.
  assert (Hlen : length (bt_insert key v m) = S (length m)) by (by rewrite HPm).
  destruct (IH (Some key) (bt_insert key v m) (c + 1 + Z.of_nat (length m)))
    as (new & m' & E & Hm' & HP' & HF2 & Hsort & Hgt).
  - auto with bt.
  - done.
  - done.
  - intros mv Hmv. simpl. apply (proj1 (Forall_forall _ _) Hsp mv Hmv).
  - lia.
  - intros ? [= <-]. unfold key. simpl. turn_lia.
  - rewrite Hlen. nia.
  - exists ((key, v) :: new), m'. split_and!.
    + done.
    + done.
    + rewrite HP', HPm. simpl. by rewrite Permutation_middle.
    + constructor; [|done]. unfold placed, key. simpl. split_and!; try done; lia.
    + simpl. constructor; [done|]. apply Forall_fmap, Forall_forall. intros kv Hkv. by apply Hgt.
    + intros prev kv Hlp Hkv. subst last.
      assert (Hk : klt prev key).
      { specialize (Hab ((p, (rt, x)), v) ltac:(left)). apply (klt_after prev p t); [exact Hab|by apply Hprev|lia]. }
      apply elem_of_cons in Hkv as [->|Hkv]; [done|].
      transitivity key; [done|]. by apply Hgt.
Qed.

Lemma placed_entries moved new :
  Forall2 placed moved new ->
  new.*2 = moved.*2 /\ Forall (fun kv => RUN_TIME_TURNS <= turn kv.1 <= i64_max) new.
Proof.
  induction 1 as [|[[p [rt x]] v] kv moved new (Hv & _ & Ht & Ht') _ [IH1 IH2]]; [done|].
  split; [cbn; by f_equal|]. constructor; [lia|done].
Qed.

Lemma entries_ok_run_time b f new E :
  Forall (fun kv => RUN_TIME_TURNS <= turn kv.1 <= i64_max /\ poll_upgrade kv.2 = None) new ->
  entries_ok b f E -> entries_ok b f (new ++ E).
Proof.
  induction 1 as [|kv new [Ht Hp] _ IH]; [done|]. intros HE. simpl.
  apply entries_ok_cons. split_and!; [by right|auto|]. turn_lia.
Qed.

Lemma moved_leb_total a b : moved_leb a b = true \/ moved_leb b a = true.
Proof.
  destruct a as [[p1 k1] v1], b as [[p2 k2] v2]. unfold moved_leb.
  rewrite (kcmp_antisym (p1, k1, tid v1) (p2, k2, tid v2)).
  destruct (kcmp (p1, k1, tid v1) (p2, k2, tid v2)); simpl; auto.
Qed.

Lemma moved_leb_kle p1 k1 v1 p2 k2 v2 :
  moved_leb (p1, k1, v1) (p2, k2, v2) = true <-> kle (p1, k1, tid v1) (p2, k2, tid v2).
Proof. unfold moved_leb, kle. by destruct (kcmp _ _). Qed.

Lemma moved_leb_trans a b c :
  moved_leb a b = true -> moved_leb b c = true -> moved_leb a c = true.
Proof.
  destruct a as [[p1 k1] v1], b as [[p2 k2] v2], c as [[p3 k3] v3].
  rewrite !moved_leb_kle. apply kle_trans.
Qed.

Lemma moved_leb_band a b : moved_leb a b = true -> moved_band a <= moved_band b.
Proof.
  destruct a as [[p1 k1] v1], b as [[p2 k2] v2]. rewrite moved_leb_kle.
  intros H%kle_fst%kle_fst. by apply kle_Z.
Qed.

Definition wanted_map (order : list (DetTid * (Z * Z))) : gmap DetTid (Z * Z) :=
  list_to_map (reverse order).

Lemma wanted_run_time order kv :
  Forall (fun o => 0 <= o.2.1) order -> 0 <= (moved_of (wanted_map order) kv).1.2.1.
Proof.
  intros Hord. unfold moved_of. simpl. destruct (wanted_map order !! tid kv.2) as [w|] eqn:Ew; [|done].
  apply elem_of_list_to_map_2 in Ew. rewrite elem_of_reverse in Ew. exact (proj1 (Forall_forall _ _) Hord _ Ew).
Qed.
(** Moved entries keep their values, so the queue stays well formed. *)
Lemma reordered_ok P q wanted taken rest moved new m' :
  rq_ok P q -> unlocked q -> queue q ≡ₚ taken ++ rest -> (forall kv, kv ∈ taken -> in_round_robin_order kv.1 kv.2 = true) ->
  moved ≡ₚ moved_of wanted <$> taken -> Forall2 placed moved new -> bt_ok m' -> m' ≡ₚ new ++ rest ->
  rq_ok P (set_queue m' q).
Proof.
  intros [Hs Ht Hb Hf Hup He Hl] Hu Hsplit Htk HPm HF Hm' HPq. pose proof (placed_entries moved new HF) as [Hvals Hnew].
  split; simpl; try done.
  - unfold tids in *. simpl. rewrite HPq, fmap_app. rewrite Hsplit, fmap_app in Ht.
    change ((fun kv : entry => tid kv.2) <$> new) with (tid ∘ snd <$> new).
    rewrite list_fmap_compose, Hvals, HPm, <- !list_fmap_compose. exact Ht.
  - rewrite HPq, <- app_assoc. rewrite Hsplit, <- app_assoc in He.
    apply entries_ok_run_time.
    + apply Forall_forall. intros kv Hkv. split; [by apply (proj1 (Forall_forall _ _) Hnew)|].
      apply (list_elem_of_fmap_2 snd) in Hkv. rewrite Hvals, HPm, <- list_fmap_compose in Hkv.
      apply list_elem_of_fmap_1 in Hkv as (kv' & Ekv & Hkv'). rewrite Ekv. simpl.
      pose proof (Htk kv' Hkv') as Hrr. unfold in_round_robin_order in Hrr. bool_prop.
      by apply eq_None_not_Some.
    + eapply entries_ok_submseteq; [|exact He]. apply submseteq_inserts_l. done.
  - unfold lock_ok, unlocked in *. simpl. by rewrite Hu in *.
Qed.
Lemma order_by_run_time_spec P q order :
  rq_ok P q -> unlocked q -> Z.of_nat (length (queue q)) < 2 ^ 30 ->
  Forall (fun o => 0 <= o.2.1) order ->
  exists moved new m', order_by_run_time bp q order = Done (set_queue m' q)
    /\ rq_ok P (set_queue m' q)
    /\ moved ≡ₚ moved_of (wanted_map order) <$>
         List.filter (wanted_entry (wanted_map order)) (queue q)
    /\ StronglySorted (fun a b => moved_leb a b = true) moved
    /\ m' ≡ₚ new ++ List.filter (fun kv => negb (wanted_entry (wanted_map order) kv)) (queue q)
    /\ Forall2 placed moved new
    /\ StronglySorted klt (new.*1).
Proof.
  intros Hq Hu Hlen Hord. pose proof Hq as [Hs Ht Hb Hf Hup He Hl].
  unfold order_by_run_time. rewrite (assert_unlocked_ok q Hu). bind_done.
  fold (wanted_map order).
  set (taken := List.filter (wanted_entry (wanted_map order)) (queue q)).
  set (rest := List.filter (fun kv => negb (wanted_entry (wanted_map order) kv)) (queue q)).
  pose proof (filter_split (wanted_entry (wanted_map order)) (queue q)) as Hsplit.
  fold taken rest in Hsplit.
  assert (Htk : forall kv, kv ∈ taken -> is_Some (wanted_map order !! tid kv.2)
                                         /\ in_round_robin_order kv.1 kv.2 = true).
  { intros kv [_ Hw]%list_elem_of_In%filter_In. unfold wanted_entry in Hw. by bool_prop. }
  destruct (take_out_spec (wanted_map order) taken rest (queue q) Hs Hsplit) as (m & E & Hm & HP).
  { apply Forall_forall. intros kv Hkv. by apply Htk. }
  change ((fun kv : entry => kv.1) <$> List.filter _ (queue q)) with (taken.*1).
  rewrite E. bind_done.
  set (moved := stable_sort moved_leb (moved_of (wanted_map order) <$> taken)).
  assert (HPm : moved ≡ₚ moved_of (wanted_map order) <$> taken) by apply stable_sort_perm.
  assert (Hsort : StronglySorted (fun a b => moved_leb a b = true) moved)
    by (apply stable_sort_sorted; [apply moved_leb_total|apply moved_leb_trans]).
  assert (Hlen2 : (length moved + length m = length (queue q))%nat).
  { rewrite HPm, length_fmap, HP. rewrite Hsplit. by rewrite length_app. }
  destruct (put_back_spec moved None m (2 * RUN_TIME_TURNS)) as (new & m' & E' & Hm' & HP' & HF & Hk & _).
  - done.
  - clear -Hsort. induction Hsort as [|a l Hl IH Ha]; constructor; [done|].
    eapply Forall_impl; [exact Ha|]. simpl. intros. by apply moved_leb_band.
  - rewrite HPm. apply Forall_fmap, Forall_forall. intros kv Hkv. by apply wanted_run_time.
  - done.
  - done.
  - done.
  - unfold RUN_TIME_TURNS, i64_max. change (Z.shiftl 1 61) with 2305843009213693952. nia.
  - rewrite E'. bind_done. exists moved, new, m'.
    assert (HPq : m' ≡ₚ new ++ rest) by by rewrite HP', HP.
    split_and!; try done. apply (reordered_ok P q (wanted_map order) taken rest moved new); try done.
    intros kv Hkv. by apply Htk.
Qed.

Lemma same_band_order p w1 v1 w2 v2 :
  moved_leb (p, w2, v2) (p, w1, v1) = true -> ~ klt (w1, tid v1) (w2, tid v2).
Proof.
  unfold moved_leb, klt, kcmp, pair_ord, lex, kcmp, Z_ord. simpl. rewrite Z.compare_refl.
  rewrite (Z.compare_antisym w1.1), (Z.compare_antisym w1.2), (Z.compare_antisym (tid v1)).
  by destruct (w1.1 ?= w2.1), (w1.2 ?= w2.2), (tid v1 ?= tid v2).
Qed.

(** Where an ordered entry ends up. *)
Lemma placed_index order moved new m k v w :
  moved ≡ₚ moved_of (wanted_map order) <$> List.filter (wanted_entry (wanted_map order)) m ->
  Forall2 placed moved new -> (k, v) ∈ m ->
  in_round_robin_order k v = true -> wanted_map order !! tid v = Some w ->
  exists i k', moved !! i = Some (priority k, w, v) /\ new !! i = Some (k', v)
    /\ priority k' = priority k.
Proof.
  intros HP HF Hin Hr Hw.
  assert ((priority k, w, v) ∈ moved) as [i Hi]%list_elem_of_lookup_1.
  { rewrite HP. apply list_elem_of_fmap. exists (k, v). unfold moved_of. simpl. rewrite Hw.
    split; [done|]. apply list_elem_of_In, filter_In. split; [by apply list_elem_of_In|].
    unfold wanted_entry. simpl. rewrite Hw, Hr. by rewrite bool_decide_true by eauto. }
  destruct (Forall2_lookup_l _ _ _ _ _ HF Hi) as ([k' v'] & Hi' & Hpl).
  destruct w as [rt x]. destruct Hpl as (Hv & Hp & _). simpl in *. subst. eauto.
Qed.

Lemma placed_tids order moved new m' q :
  moved ≡ₚ moved_of (wanted_map order) <$> List.filter (wanted_entry (wanted_map order)) (queue q) ->
  m' ≡ₚ new ++ List.filter (fun kv => negb (wanted_entry (wanted_map order) kv)) (queue q) ->
  Forall2 placed moved new -> tids (set_queue m' q) ≡ₚ tids q.
Proof.
  intros HPm HPq HF. pose proof (placed_entries moved new HF) as [Hvals _].
  unfold tids. simpl. rewrite HPq, fmap_app.
  rewrite (filter_split (wanted_entry (wanted_map order)) (queue q)) at 2. rewrite fmap_app.
  apply Permutation_app; [|done].
  change ((fun kv : entry => tid kv.2) <$> new) with (tid ∘ snd <$> new).
  by rewrite list_fmap_compose, Hvals, HPm, <- !list_fmap_compose.
Qed.
End Order.

(** Sequences of run-queue calls.

    [rq_call] lists every mutating method of the run queue, [exec] runs one on
    a queue together with the entries suspended from it, and [call_ok] is the
    contract the scheduler keeps.  [exec_ok] is the refinement every theorem
    about call sequences rests on: a call within its contract never panics and
    keeps the invariant; [exec_keeps_ok] shows the asserts and the duplicate
    check alone keep it. *)

Inductive rq_call :=
  | CPushBack (t : DetTid) (p : Priority)
  | CPushFront (t : DetTid) (p : Priority)
  | CPushEager (t : DetTid)
  | CPushPoller (t : DetTid) (np : Priority) (attempt : Z)
  | CPushYielded (t : DetTid) (p : Priority)
  | CPushYieldedIntoEpoch (t : DetTid) (p : Priority)
  | CRestorePoller (t : DetTid)
  | CUpgradePollers
  | CSuspend (t : DetTid) (pp : Priority)
  | CRestore (i : nat) (cp : Priority)
  | CRemove (t : DetTid)
  | COrder (order : list (DetTid * (Z * Z)))
  | CPopNext
  | CPopTid (t : DetTid)
  | CCommit
  | CCommitYield
  | CCommitTurn
  | CUndo
  | CEndEpoch
  | CConsumeYield.

Section Calls.
Context (bp : profile) {G : Type} `{!Rng G}.
Implicit Types (q : RunQueue G) (P : list SuspendedRunQueueEntry).

Definition keep {A} P (r : outcome (A * RunQueue G))
    : outcome (RunQueue G * list SuspendedRunQueueEntry) :=
  '(_, q') ← r; Done (q', P).

Definition exec (c : rq_call) (s : RunQueue G * list SuspendedRunQueueEntry)
    : outcome (RunQueue G * list SuspendedRunQueueEntry) :=
  let '(q, P) := s in
  match c with
  | CPushBack t p => keep P (push_back bp q t p)
  | CPushFront t p => keep P (push_front bp q t p)
  | CPushEager t => keep P (push_eager_io_repoll bp q t)
  | CPushPoller t np n => keep P (push_poller bp q t np n)
  | CPushYielded t p => keep P (push_yielded bp q t p)
  | CPushYieldedIntoEpoch t p => keep P (push_yielded_into_epoch bp q t p)
  | CRestorePoller t => keep P (restore_poller_priority bp q t)
  | CUpgradePollers => keep P (upgrade_pollers bp q)
  | CSuspend t pp =>
      '(e, q') ← suspend q t pp;
      Done (q', match e with Some e => e :: P | None => P end)
  | CRestore i cp =>
      e ← expect (P !! i);
      q' ← restore bp q e cp;
      Done (q', delete i P)
  | CRemove t => keep P (remove_tid q t)
  | COrder order => q' ← order_by_run_time bp q order; Done (q', P)
  | CPopNext => keep P (tentative_pop_next q)
  | CPopTid t => keep P (tentative_pop_tid q t)
  | CCommit => keep P (commit_tentative_pop bp q)
  | CCommitYield => keep P (commit_tentative_pop_yield bp q)
  | CCommitTurn => keep P (commit_tentative_pop_completed_turn bp q)
  | CUndo => q' ← undo_tentative_pop q; Done (q', P)
  | CEndEpoch => Done (end_yield_epoch q, P)
  | CConsumeYield => Done (consume_yield_exclusion q, P)
  end.

Fixpoint run_calls (cs : list rq_call) (s : RunQueue G * list SuspendedRunQueueEntry)
    : outcome (RunQueue G * list SuspendedRunQueueEntry) :=
  match cs with
  | [] => Done s
  | c :: cs' => s' ← exec c s; run_calls cs' s'
  end.

(** The thread a call pushes. *)
Definition pushed_tid (c : rq_call) : option DetTid :=
  match c with
  | CPushBack t _ | CPushFront t _ | CPushEager t | CPushPoller t _ _
  | CPushYielded t _ | CPushYieldedIntoEpoch t _ => Some t
  | _ => None
  end.

(** The bounds a call assumes, which no run comes near: turn counters below
    2^61, poll upgrades below 2^64, a queue shorter than 2^30. *)
Definition call_fits (c : rq_call) (s : RunQueue G * list SuspendedRunQueueEntry) : Prop :=
  let '(q, P) := s in
  match c with
  | CPushBack _ _ | CPushFront _ _ | CPushEager _ | CPushPoller _ _ _ | CPushYielded _ _
  | CPushYieldedIntoEpoch _ _ | CRestorePoller _ => has_room q
  | CUpgradePollers => poll_upgrades q < u64_max
  | CRestore i _ => forall e, P !! i = Some e -> turn (se_key e) + Z.of_nat (len q) <= i64_max
  | COrder order => Z.of_nat (len q) < 2 ^ 30 /\ Forall (fun o => 0 <= o.2.1) order
  | _ => True
  end.

(** The protocol of the callers in detcore/src/scheduler.rs. *)
Definition call_ok (c : rq_call) (s : RunQueue G * list SuspendedRunQueueEntry) : Prop :=
  let '(q, P) := s in
  call_fits c s /\
  match c with
  | CPushBack t p | CPushFront t p =>
      unlocked q /\ t ∉ tids q /\ is_ordinary_priority p = true
  | CPushEager t | CPushPoller t _ _ => unlocked q /\ t ∉ tids q
  | CPushYielded t p =>
      unlocked q /\ t ∉ tids q /\ is_ordinary_priority p = true /\ yielded_skip q = None
  | CPushYieldedIntoEpoch t p =>
      unlocked q /\ t ∉ tids q /\ is_ordinary_priority p = true
      /\ 0 <= default 0 (yield_streaks q !! t) < u32_max
  | CRestore i _ =>
      unlocked q /\ exists e, P !! i = Some e /\ tid (se_value e) ∉ tids q
  | CRestorePoller _ | CUpgradePollers | CSuspend _ _ | CRemove _ | COrder _ | CPopTid _ => unlocked q
  | CPopNext => tentative_selection_is_exact q = false
  | CCommit | CCommitYield | CCommitTurn | CUndo => is_Some (tentative_selection q)
  | CEndEpoch | CConsumeYield => True
  end.

Context `{!RngSpec G}.

Lemma rq_ok_new ss seed srp : rq_ok [] (new ss seed srp : RunQueue G).
Proof.
  split; cbn [queue last_back_turn last_front_turn poll_upgrades new pool_entries];
    [apply bt_ok_nil|by apply NoDup_nil|turn_lia|turn_lia|turn_lia| |done].
  split; [apply Forall_nil|apply NoDup_nil]; done.
Qed.

Lemma queued_ok P q b f E q' : queued P q b f E q' -> rq_ok P q'.
Proof. by intros [? _]. Qed.

Lemma exec_ok c q P :
  rq_ok P q -> call_ok c (q, P) ->
  exists q' P', exec c (q, P) = Done (q', P') /\ rq_ok P' q'.
Proof.
  intros Hq [Hfit Hc]. destruct c; cbn [exec call_fits] in *; unfold keep.
  - destruct Hc as (? & ? & ?). destruct (push_back_spec bp P q t p) as (q' & -> & ?%queued_ok); [done..|]; simpl; eauto.
  - destruct Hc as (? & ? & ?). destruct (push_front_spec bp P q t p) as (q' & -> & ?%queued_ok); [done..|]; simpl; eauto.
  - destruct Hc. destruct (push_eager_io_repoll_spec bp P q t) as (q' & -> & ?%queued_ok); [done..|]; simpl; eauto.
  - destruct Hc. destruct (push_poller_spec bp P q t np attempt) as (q' & -> & ?%queued_ok); [done..|]; simpl; eauto.
  - destruct Hc as (? & ? & ? & ?). destruct (push_yielded_spec bp P q t p) as (q' & -> & ?%queued_ok); [done..|]; simpl; eauto.
  - destruct Hc as (? & ? & ? & ?).
    destruct (push_yielded_into_epoch_spec bp P q t p) as (e & st & q' & _ & -> & ?%queued_ok); [done..|]; simpl; eauto.
  - destruct (restore_poller_priority_spec bp P q t Hq Hc Hfit) as [[_ ->]|(k & v & _ & _ & Hv)]; [simpl; eauto|].
    destruct (poll_upgrade v); [destruct Hv as (q' & -> & ?%queued_ok)|rewrite Hv]; simpl; eauto.
  - unfold upgrade_pollers. rewrite (assert_unlocked_ok q Hc). simpl.
    destruct (do_poll_upgrade_spec bp P q Hq Hfit Hc) as (m & -> & _ & ?). simpl. eauto.
  - destruct (suspend_spec P q t pp Hq Hc) as [[_ ->]|(k & v & _ & _ & -> & _ & ?)]; simpl; eauto.
  - destruct Hc as [Hu (e & He & Ht)]. rewrite He. simpl.
    destruct (restore_spec bp P (delete i P) q e cp) as (j & m & _ & _ & -> & _ & ?);
      [done|by apply delete_Permutation|done|done|by apply Hfit|]. simpl. eauto.
  - destruct (remove_tid_spec P q t Hq Hc) as (q' & -> & ? & _). simpl. eauto.
  - destruct Hfit as [Hlen Hord].
    destruct (order_by_run_time_spec bp P q order Hq Hc Hlen Hord) as (? & ? & m' & -> & ? & _).
    simpl. eauto.
  - destruct (tentative_pop_next_spec P q Hq Hc) as (sel & q' & -> & [? _] & _). simpl. eauto.
  - destruct (tentative_pop_tid_spec P q t Hq Hc) as [[_ ->]|(_ & -> & ?)]; simpl; eauto.
  - destruct Hc as [t Ht]. unfold commit_tentative_pop.
    destruct (commit_selection_spec bp P q t Hq Ht) as (k & v & g & s & _ & _ & -> & ?). simpl. eauto.
  - destruct Hc as [t Ht]. unfold commit_tentative_pop_yield.
    destruct (commit_selection_spec bp P q t Hq Ht) as (k & v & g & s & _ & _ & -> & Hok). simpl.
    eexists _, _. split; [done|]. destruct Hok; by split.
  - destruct Hc as [t Ht]. unfold commit_tentative_pop_completed_turn, commit_tentative_pop.
    destruct (commit_selection_spec bp P q t Hq Ht) as (k & v & g & s & _ & _ & -> & Hok). simpl.
    eexists _, _. split; [done|]. destruct Hok; by split.
  - destruct Hc as [t Ht]. destruct (undo_tentative_pop_spec P q t Hq Ht) as [-> ?]. simpl. eauto.
  - eexists _, _. split; [done|]. destruct Hq; by split.
  - eexists _, _. split; [done|]. destruct Hq; by split.
Qed.

(** The asserts of the code, read backwards. *)
Lemma assert_Done b u : assert_ b = Done u -> b = true.
Proof. by destruct b. Qed.
Lemma assert_unlocked_Done q u : assert_unlocked q = Done u -> unlocked q.
Proof. intros H%assert_Done. by bool_prop. Qed.
Lemma push_safety_check_Done q t u :
  push_safety_check bp q t = Done u -> (debug_assertions bp = false -> t ∉ tids q) -> t ∉ tids q.
Proof.
  unfold push_safety_check. destruct (debug_assertions bp); [|auto]. simpl.
  destruct (contains_tid q t) eqn:E; [done|]. intros _ _. by apply contains_tid_false.
Qed.

(** A call that returned was within its contract, the duplicate check being
    the caller's where the build leaves it out. *)
Lemma exec_Done_ok c q P s' :
  rq_ok P q -> call_fits c (q, P) -> exec c (q, P) = Done s' ->
  (debug_assertions bp = false -> forall t, pushed_tid c = Some t -> t ∉ tids q) ->
  (forall t p, c <> CPushYieldedIntoEpoch t p) ->
  call_ok c (q, P).
Proof.
  intros Hq Hfit He Hdup Hn. split; [done|].
  destruct c; cbn [exec] in He; unfold keep in He;
    try (apply bind_Done in He as (r & He & He')); try done.
  - unfold push_back in He. apply bind_Done in He as (? & Hu%assert_unlocked_Done & He).
    apply bind_Done in He as (? & Ht%push_safety_check_Done & He); [|by intros; apply Hdup].
    destruct (is_ordinary_priority p); [done|by simpl in He].
  - unfold push_front in He. apply bind_Done in He as (? & Hu%assert_unlocked_Done & He).
    apply bind_Done in He as (? & Ht%push_safety_check_Done & He); [|by intros; apply Hdup].
    apply bind_Done in He as (? & Hp%assert_Done & _). done.
  - unfold push_eager_io_repoll in He. apply bind_Done in He as (? & Hu%assert_unlocked_Done & He).
    apply bind_Done in He as (? & Ht%push_safety_check_Done & He); [done|by intros; apply Hdup].
  - unfold push_poller in He. apply bind_Done in He as (? & Hu%assert_unlocked_Done & He).
    apply bind_Done in He as (? & Ht%push_safety_check_Done & He); [done|by intros; apply Hdup].
  - unfold push_yielded in He. apply bind_Done in He as (? & Hy%assert_Done & He). bool_prop.
    unfold push_back in He. apply bind_Done in He as (? & Hu%assert_unlocked_Done & He).
    apply bind_Done in He as (? & Ht%push_safety_check_Done & He); [|by intros; apply Hdup].
    destruct (is_ordinary_priority p); [done|by simpl in He].
  - by destruct (Hn t p).
  - unfold restore_poller_priority in He. by apply bind_Done in He as (? & Hu%assert_unlocked_Done & _).
  - unfold upgrade_pollers in He. by apply bind_Done in He as (? & Hu%assert_unlocked_Done & _).
  - unfold suspend in He. by apply bind_Done in He as (? & Hu%assert_unlocked_Done & _).
  - destruct (P !! i) as [e|] eqn:Ei; [|done]. injection He as <-.
    apply bind_Done in He' as (? & He & _). unfold restore in He.
    apply bind_Done in He as (? & Hu%assert_unlocked_Done & He).
    apply bind_Done in He as (? & Ht%assert_Done & _). bool_prop.
    split; [done|]. exists e. split; [done|]. by apply contains_tid_false.
  - unfold remove_tid in He. by apply bind_Done in He as (? & Hu%assert_unlocked_Done & _).
  - unfold order_by_run_time in He. by apply bind_Done in He as (? & Hu%assert_unlocked_Done & _).
  - unfold tentative_pop_next in He. apply bind_Done in He as (? & Hx%assert_Done & _). by bool_prop.
  - unfold tentative_pop_tid in He. by apply bind_Done in He as (? & Hu%assert_unlocked_Done & _).
  - unfold commit_tentative_pop, commit_selection in He.
    apply bind_Done in He as (? & He & _). destruct (tentative_selection q); [eauto|done].
  - unfold commit_tentative_pop_yield in He. apply bind_Done in He as (? & He & _).
    apply bind_Done in He as (? & He & _). destruct (tentative_selection q); [eauto|done].
  - unfold commit_tentative_pop_completed_turn, commit_tentative_pop in He.
    apply bind_Done in He as (? & He & _).
    apply bind_Done in He as (? & He & _). destruct (tentative_selection q); [eauto|done].
  - unfold undo_tentative_pop in He. apply bind_Done in He as (? & Hs%assert_Done & _). by bool_prop.
Qed.

Lemma exec_keeps_ok c q P q' P' :
  rq_ok P q -> call_fits c (q, P) -> exec c (q, P) = Done (q', P') ->
  (debug_assertions bp = false -> forall t, pushed_tid c = Some t -> t ∉ tids q) ->
  rq_ok P' q'.
Proof.
  intros Hq Hfit He Hdup.
  assert (Hgen : forall c q, rq_ok P q -> call_fits c (q, P) -> exec c (q, P) = Done (q', P') ->
    (debug_assertions bp = false -> forall t, pushed_tid c = Some t -> t ∉ tids q) ->
    (forall t p, c <> CPushYieldedIntoEpoch t p) -> rq_ok P' q').
  { clear c q Hq Hfit He Hdup. intros c q Hq Hfit He Hdup Hn.
    pose proof (exec_Done_ok c q P _ Hq Hfit He Hdup Hn) as Hc.
    destruct (exec_ok c q P Hq Hc) as (q1 & P1 & E & Hok). rewrite E in He. by injection He as <- <-. }
  destruct c; try (by eapply (Hgen _ q Hq Hfit He Hdup)).
  cbn [exec] in He. unfold keep, push_yielded_into_epoch in He.
  apply bind_Done in He as (r & He & Hr). apply bind_Done in He as (q1 & Hcount & He).
  assert (exists e st, q1 = set_yield e st q) as (e & st & ->).
  { unfold count_yield in Hcount. destruct (existsb _ _).
    - apply bind_Done in Hcount as (n & _ & [= <-]). eauto.
    - injection Hcount as <-. exists (yield_epoch q), (yield_streaks q). by destruct q. }
  apply (Hgen (CPushBack t p)
    (set_queued_by_yield ({[t]} ∪ queued_by_yield (set_yield e st q)) (set_yield e st q))).
  - apply (rq_ok_yield P q (yielded_skip q) e st _ Hq).
  - exact Hfit.
  - cbn [exec]. unfold keep. by rewrite He.
  - exact Hdup.
  - done.
Qed.
End Calls.
