(* ===== verification/RunQueueProps.v ===== *)
(** What the run queue promises the scheduler. *)
From Stdlib Require Import ZArith Lia List Sorting.Sorted.
From stdpp Require Import base gmap list sorting.
From S2P Require Import Prelude BTree RunQueue RunQueueInv RunQueueOrder.

(** A concrete generator for the examples: a counter that always answers the
    low end of the range. *)
Definition low_rng : Rng Z :=
  {| seed_from_u64 s := s; draw_usize g a _ := (a, g + 1); draw_f64 g a _ := (a, g + 1) |}.
Lemma low_rng_spec : @RngSpec Z low_rng.
Proof. split. intros g a b Hab. simpl. lia. Qed.

Section Props.
Context (bp : profile) {G : Type} `{!Rng G, !RngSpec G}.
Implicit Types (q : RunQueue G) (P : list SuspendedRunQueueEntry).

(** Call sequences whose every call is within its contract, respectively
    within the machine bounds (with no duplicate pushes where the build has no
    duplicate check). *)
Fixpoint calls_ok (cs : list rq_call) (s : RunQueue G * list SuspendedRunQueueEntry) : Prop :=
  match cs with
  | [] => True
  | c :: cs' => call_ok c s /\ forall s', exec bp c s = Done s' -> calls_ok cs' s'
  end.
Fixpoint calls_fit (cs : list rq_call) (s : RunQueue G * list SuspendedRunQueueEntry) : Prop :=
  match cs with
  | [] => True
  | c :: cs' =>
      call_fits c s
      /\ (debug_assertions bp = false -> forall t, pushed_tid c = Some t -> t ∉ tids s.1)
      /\ forall s', exec bp c s = Done s' -> calls_fit cs' s'
  end.

Lemma run_calls_ok cs q P :
  rq_ok P q -> calls_ok cs (q, P) ->
  exists q' P', run_calls bp cs (q, P) = Done (q', P') /\ rq_ok P' q'.
Proof.
  revert q P. induction cs as [|c cs IH]; intros q P Hq Hc; cbn [run_calls calls_ok] in *; [eauto|].
  destruct Hc as [Hc Hcs]. destruct (exec_ok bp c q P Hq Hc) as (q1 & P1 & E & Hok).
  rewrite E. simpl. apply IH; [done|]. by apply Hcs.
Qed.

Lemma run_calls_fit cs q P q' P' :
  rq_ok P q -> calls_fit cs (q, P) -> run_calls bp cs (q, P) = Done (q', P') -> rq_ok P' q'.
Proof.
  revert q P. induction cs as [|c cs IH]; intros q P Hq Hc He; cbn [run_calls calls_fit] in *.
  { by injection He as <- <-. }
  destruct Hc as (Hf & Hd & Hcs). apply bind_Done in He as ([q1 P1] & E & He).
  eapply IH; [|by apply Hcs|exact He]. by eapply exec_keeps_ok.
Qed.

(** ** Queueing positions *)

Lemma PO_lt p t p' t' : klt (PO p t) (PO p' t') <-> p < p' \/ p = p' /\ t < t'.
Proof.
  unfold klt, kcmp, PrioritizedOrder_ord, lex. simpl.
  destruct (Z.compare_spec p p'); [rewrite Z.compare_lt_iff|..]; naive_solver lia.
Qed.

Lemma queued_turn_bounds P q k v :
  rq_ok P q -> (k, v) ∈ queue q ->
  last_front_turn q <= turn k /\ (ordinary_turn (turn k) -> turn k <= last_back_turn q).
Proof.
  intros Hq Hin. destruct (ok_entries P q Hq) as [HF _].
  assert (entry_ok (last_back_turn q) (last_front_turn q) (k, v)) as Hk
    by (apply (proj1 (Forall_forall _ _) HF), elem_of_app; by left).
  pose proof (ok_front P q Hq). destruct Hk as [Hk|[Hk _]]; simpl in Hk; [lia|turn_lia].
Qed.

Lemma skip_excluded q t : t ∈ excluded_tids q (Some t).
Proof.
  unfold excluded_tids. destruct (yield_epoch q) as [epoch|]; [|by apply elem_of_singleton].
  destruct (existsb _ _); [apply elem_of_union_l|]; by apply elem_of_singleton.
Qed.

(** ** Poll upgrades counted over pushes *)

Lemma push_counters c t q P q' P' :
  rq_ok P q -> pushed_tid c = Some t -> call_ok c (q, P) -> exec bp c (q, P) = Done (q', P') ->
  last_back_turn q' - last_front_turn q' = last_back_turn q - last_front_turn q + 1
  /\ poll_upgrades q' = poll_upgrades q
       + (if upgrade_due (last_back_turn q') (last_front_turn q') then 1 else 0).
Proof.
  intros Hq Ht [Hfit Hc] He.
  assert (Hqd : forall q0 b f E, queued P q0 b f E q' ->
     poll_upgrades q0 = poll_upgrades q ->
     b - f = last_back_turn q - last_front_turn q + 1 ->
     last_back_turn q' - last_front_turn q' = last_back_turn q - last_front_turn q + 1
     /\ poll_upgrades q' = poll_upgrades q
       + (if upgrade_due (last_back_turn q') (last_front_turn q') then 1 else 0)).
  { intros q0 b f E (_ & _ & ->) Hu Hbf. simpl. by rewrite Hu. }
  destruct c; try done; cbn [exec call_fits] in *; unfold keep in He.
  - destruct Hc as (? & ? & ?). destruct (push_back_spec bp P q t0 p) as (q1 & E & Hqq); [done..|].
    rewrite E in He. simpl in He. injection He as -> ->. eapply Hqd; [exact Hqq|done|lia].
  - destruct Hc as (? & ? & ?). destruct (push_front_spec bp P q t0 p) as (q1 & E & Hqq); [done..|].
    rewrite E in He. simpl in He. injection He as -> ->. eapply Hqd; [exact Hqq|done|lia].
  - destruct Hc. destruct (push_eager_io_repoll_spec bp P q t0) as (q1 & E & Hqq); [done..|].
    rewrite E in He. simpl in He. injection He as -> ->. eapply Hqd; [exact Hqq|done|lia].
  - destruct Hc. destruct (push_poller_spec bp P q t0 np attempt) as (q1 & E & Hqq); [done..|].
    rewrite E in He. simpl in He. injection He as -> ->. eapply Hqd; [exact Hqq|done|lia].
  - destruct Hc as (? & ? & ? & ?). destruct (push_yielded_spec bp P q t0 p) as (q1 & E & Hqq); [done..|].
    rewrite E in He. simpl in He. injection He as -> ->. eapply Hqd; [exact Hqq|done|lia].
  - destruct Hc as (? & ? & ? & ?).
    destruct (push_yielded_into_epoch_spec bp P q t0 p) as (e & st & q1 & _ & E & Hqq); [done..|].
    rewrite E in He. simpl in He. injection He as -> ->. eapply Hqd; [exact Hqq|done|lia].
Qed.

Lemma run_pushes_upgrades cs q P :
  rq_ok P q -> calls_ok cs (q, P) -> Forall (fun c => is_Some (pushed_tid c)) cs ->
  exists q' P', run_calls bp cs (q, P) = Done (q', P') /\
    poll_upgrades q' - poll_upgrades q =
      (last_back_turn q - last_front_turn q + Z.of_nat (length cs)) / POLLING_UPGRADE_INTERVAL
      - (last_back_turn q - last_front_turn q) / POLLING_UPGRADE_INTERVAL.
Proof.
  revert q P. induction cs as [|c cs IH]; intros q P Hq Hc HF; cbn [run_calls calls_ok length] in *.
  { eexists _, _. split; [done|]. rewrite Z.add_0_r. lia. }
  apply Forall_cons in HF as [[t Ht] HF]. destruct Hc as [Hc Hcs].
  destruct (exec_ok bp c q P Hq Hc) as (q1 & P1 & E & Hok).
  destruct (push_counters c t q P q1 P1 Hq Ht Hc E) as [Hn Hu].
  destruct (IH q1 P1 Hok (Hcs _ E) HF) as (q' & P' & E' & Hup).
  rewrite E. simpl. exists q', P'. split; [done|].
  unfold upgrade_due in Hu. rewrite Hn in *. unfold POLLING_UPGRADE_INTERVAL in *.
  destruct (Z.eqb_spec ((last_back_turn q - last_front_turn q + 1) mod 200) 0) as [Hm|Hm];
    rewrite Nat2Z.inj_succ; Z.to_euclidean_division_equations; lia.
Qed.

(** ** Sorted lists by index *)

Lemma StronglySorted_lookup_lt {A} (R : A -> A -> Prop) (l : list A) i j x y :
  StronglySorted R l -> l !! i = Some x -> l !! j = Some y -> (i < j)%nat -> R x y.
Proof.
  intros Hs. revert i j. induction Hs as [|a l Hs IH Ha]; intros i j Hi Hj Hij; [done|].
  destruct j as [|j]; [lia|]. destruct i as [|i]; simpl in *.
  - injection Hi as ->. eapply Forall_forall; [exact Ha|]. by eapply list_elem_of_lookup_2.
  - eapply IH; [done|done|lia].
Qed.

(** * The properties *)

(** C1: every mutating call of the run queue, made within its contract, returns
    without a panic (no assert, unwrap, overflow or empty random range is ever
    hit) and leaves the representation invariant in place, in every build
    profile and for every heuristic. *)
Theorem run_queue_call_safe c q P :
  rq_ok P q -> call_ok c (q, P) ->
  exists q' P', exec bp c (q, P) = Done (q', P') /\ rq_ok P' q'.
Proof. intros. by apply exec_ok. Qed.

(** whatever sequence of calls a fresh queue has survived, it satisfies
    the invariant: keys sorted and unique, each thread queued once, no
    round-robin turn used twice, a locked queue locked on a queued thread. In
    a build with debug assertions nothing is assumed of the callers but the
    machine bounds. *)
Theorem run_queue_reachable_ok ss seed srp cs q P :
  calls_fit cs (new ss seed srp, []) ->
  run_calls bp cs (new ss seed srp, []) = Done (q, P) -> rq_ok P q.
Proof. intros. by eapply run_calls_fit; [apply rq_ok_new|..]. Qed.

(** under the priority-ordered heuristics the thread selected is an
    eligible one whose key (priority, then turn) is least among the eligible
    queued threads. *)
Theorem select_next_least q P t q' :
  rq_ok P q -> is_priority_ordered q = true -> tentative_selection_is_exact q = false ->
  tentative_pop_next q = Done (Some t, q') ->
  exists k v, (k, v) ∈ queue q /\ tid v = t /\ t ∈ eligible q
    /\ forall k' v', (k', v') ∈ queue q -> tid v' ∈ eligible q -> kle k k'.
Proof.
  intros Hq Hp Hx He.
  destruct (tentative_pop_next_spec P q Hq Hx) as (sel & q1 & E & _ & _ & _ & Hsel).
  rewrite E in He. injection He as -> ->. specialize (Hsel Hp).
  destruct (List.find _ (queue q)) as [[k v]|] eqn:Ef; [|done]. injection Hsel as ->.
  exists k, v. pose proof Ef as Ef'. apply find_Some_elem in Ef' as [Hin Hn].
  unfold is_excluded in Hn. bool_prop.
  assert (Hel : forall k' v', (k', v') ∈ queue q -> tid v' ∈ tids q)
    by (intros k' v' Hin'; by apply (list_elem_of_fmap_2 (fun kv : entry => tid kv.2)) in Hin').
  split_and!; [done|done|apply eligible_tids_elem; eauto|].
  intros k' v' Hin' [_ Hn']%eligible_tids_elem.
  eapply (bt_find_least _ (queue q) k v); [apply Hq|exact Ef|exact Hin'|].
  unfold is_excluded. simpl. by rewrite bool_decide_false.
Qed.

(** C5: a non-empty unlocked queue always yields a turn: the pop selects an
    eligible queued thread, and committing it as a completed turn returns that
    thread, takes exactly its entry out of the queue, unlocks the queue and
    ends both the one-turn yield exclusion and the yield epoch. *)
Theorem pop_then_commit q P :
  rq_ok P q -> unlocked q -> queue q <> [] ->
  exists t q1 q2 k v,
    tentative_pop_next q = Done (Some t, q1)
    /\ commit_tentative_pop_completed_turn bp q1 = Done (t, q2)
    /\ t ∈ eligible q /\ tid v = t /\ queue q ≡ₚ (k, v) :: queue q2
    /\ rq_ok P q2 /\ unlocked q2 /\ t ∉ tids q2
    /\ yield_epoch q2 = None /\ yielded_skip q2 = None.
Proof.
  intros Hq Hu Hne.
  assert (Hx : tentative_selection_is_exact q = false).
  { pose proof (ok_lock P q Hq) as Hl. unfold lock_ok in Hl. by rewrite Hu in Hl. }
  destruct (tentative_pop_next_spec P q Hq Hx) as (sel & q1 & E & Hsel & _ & Hsome & _).
  destruct (Hsome Hne) as (t & -> & Ht & Hel).
  destruct Hsel as (Hok1 & Hqq & Hts & _). rewrite settled_queue in Hqq.
  destruct (commit_selection_spec bp P q1 t Hok1 Hts) as (k & v & g & s & Hin & Hv & Ec & Hok2).
  eexists t, q1, _, k, v. unfold commit_tentative_pop_completed_turn, commit_tentative_pop.
  rewrite Ec. simpl. split_and!; try done.
  - by apply Hel.
  - rewrite <- Hqq. by apply (queued_entry_get P q1).
  - destruct Hok2; by split.
  - unfold tids. simpl. pose proof (NoDup_tids_remove P q1 k v Hok1 Hin) as [Hnin _]%NoDup_cons.
    by rewrite <- Hv.
Qed.

(** undoing a tentative pop leaves every entry and both turn counters as
    they were, and under the priority-ordered heuristics the next pop selects
    the same thread again. *)
Theorem undo_pop_again q P sel q1 q2 :
  rq_ok P q -> is_priority_ordered q = true -> unlocked q ->
  tentative_pop_next q = Done (sel, q1) -> undo_tentative_pop q1 = Done q2 ->
  queue q2 = queue q /\ last_back_turn q2 = last_back_turn q
  /\ last_front_turn q2 = last_front_turn q /\ unlocked q2
  /\ exists q3, tentative_pop_next q2 = Done (sel, q3).
Proof.
  intros Hq Hp Hu E Eu.
  assert (Hx : tentative_selection_is_exact q = false).
  { pose proof (ok_lock P q Hq) as Hl. unfold lock_ok in Hl. by rewrite Hu in Hl. }
  unfold undo_tentative_pop in Eu. apply bind_Done in Eu as (? & _ & [= <-]).
  unfold tentative_pop_next in E. rewrite Hx in E. simpl in E. fold (settled q) in E.
  assert (E1 : sel = (fun kv => tid kv.2) <$>
      List.find (fun kv => negb (is_excluded (excluded_tids (settled q) (selection_skip q)) kv)) (queue (settled q))
    /\ q1 = set_tentative sel (tentative_selection_is_exact (settled q)) (settled q)).
  { unfold is_priority_ordered in Hp.
    assert (sched_strategy (settled q) = sched_strategy q) as Es
      by (unfold settled; by destruct (yield_epoch_is_over q)).
    rewrite Es in E. unfold select_first in E. destruct (sched_strategy q); try done; by injection E as <- <-. }
  destruct E1 as [Esel ->].
  split_and!; try (unfold settled; by destruct (yield_epoch_is_over q)).
  set (q2 := set_tentative None false _).
  destruct (tentative_pop_next_spec P q2) as (sel' & q3 & E3 & _ & _ & _ & Hsel').
  { assert (Hok := settled_ok P q Hq). destruct Hok; by split. }
  { done. }
  assert (Hp2 : is_priority_ordered q2 = true)
    by (unfold q2, is_priority_ordered in *; simpl; unfold settled;
        by destruct (yield_epoch_is_over q)).
  exists q3. rewrite E3, (Hsel' Hp2), Esel. replace (selection_exclusions q2) with (excluded_tids (settled q) (selection_skip q)); [done|].
  assert (Hset : yield_epoch_is_over (settled q) = false)
    by (unfold settled; destruct (yield_epoch_is_over q) eqn:Eo; [done|exact Eo]).
  unfold selection_exclusions. unfold settled at 2. unfold q2.
  change (yield_epoch_is_over (set_tentative _ _ _)) with (yield_epoch_is_over (settled q)).
  rewrite Hset. rewrite <- settled_skip. done.
Qed.

(** a thread pushed to the back of a priority level runs after every
    thread already queued at that level in round-robin order; one pushed to
    the front runs before every thread of the level; an eager repoll goes
    ahead of the whole queue. *)
Theorem push_positions q P t p :
  rq_ok P q -> unlocked q -> has_room q -> t ∉ tids q -> is_ordinary_priority p = true ->
  exists kb qb kf qf ke qe,
    push_back bp q t p = Done (kb, qb) /\ push_front bp q t p = Done (kf, qf)
    /\ push_eager_io_repoll bp q t = Done (ke, qe)
    /\ forall k v, (k, v) ∈ queue q ->
         (priority k = p -> ordinary_turn (turn k) -> klt k kb)
         /\ (priority k = p -> klt kf k)
         /\ (0 <= priority k -> klt ke k).
Proof.
  intros Hq Hu Hr Ht Hp.
  destruct (push_back_spec bp P q t p) as (qb & Eb & _); [done..|].
  destruct (push_front_spec bp P q t p) as (qf & Ef & _); [done..|].
  destruct (push_eager_io_repoll_spec bp P q t) as (qe & Ee & _); [done..|].
  eexists _, _, _, _, _, _. split_and!; [done..|]. intros [pk tk] v Hin.
  pose proof (queued_turn_bounds P q _ _ Hq Hin) as [Hlo Hhi]. simpl in *.
  unfold EAGER_IO_REPOLL_PRIORITY. rewrite !PO_lt. split_and!; intros; [specialize (Hhi ltac:(done))|..]; lia.
Qed.

(** a thread requeued by an explicit yield is not the next one selected
    while any other thread is queued, under every heuristic; the next
    selection still finds a thread. *)
Theorem yielded_thread_skipped q P t p k q1 :
  rq_ok P q -> unlocked q -> has_room q -> t ∉ tids q -> queue q <> [] ->
  push_yielded bp q t p = Done (k, q1) ->
  exists t' q2, tentative_pop_next q1 = Done (Some t', q2) /\ t' <> t /\ t' ∈ tids q.
Proof.
  intros Hq Hu Hr Ht Hne E.
  assert (Hop : is_ordinary_priority p = true /\ yielded_skip q = None).
  { unfold push_yielded in E. apply bind_Done in E as (? & Hy%assert_Done & E). bool_prop.
    unfold push_back in E. apply bind_Done in E as (? & _ & E). apply bind_Done in E as (? & _ & E).
    split; [|done]. by destruct (is_ordinary_priority p). }
  destruct (push_yielded_spec bp P q t p) as (q1' & E' & Hok & HP & Hfr); [naive_solver..|].
  rewrite E in E'. injection E' as -> <-.
  assert (HT : tids q1 ≡ₚ t :: tids q).
  { unfold tids. rewrite HP, upgraded_if_due_tids. done. }
  assert (Hsk : yielded_skip q1 = Some t) by (by rewrite Hfr).
  assert (Hu1 : unlocked q1) by (unfold unlocked; by rewrite Hfr).
  assert (Hx1 : tentative_selection_is_exact q1 = false).
  { pose proof (ok_lock P q1 Hok) as Hl. unfold lock_ok in Hl. by rewrite Hu1 in Hl. }
  assert (Hlen : length (queue q1) = S (length (queue q))).
  { apply Permutation_length in HT. unfold tids in HT. simpl in HT. by rewrite !length_fmap in HT. }
  assert (Hss : selection_skip q1 = Some t).
  { unfold selection_skip, len. rewrite Hsk. simpl. rewrite Hlen.
    assert (contains_tid q1 t = true) as -> by (apply contains_tid_true; rewrite HT; left).
    destruct (queue q); [done|]. done. }
  destruct (tentative_pop_next_spec P q1 Hok Hx1) as (sel & q2 & E2 & _ & _ & Hsome & _).
  destruct Hsome as (t' & -> & Ht' & Hel); [destruct (queue q1); simpl in Hlen; done|].
  exists t', q2. split; [done|].
  apply Hel, eligible_tids_elem in Hu1 as [_ Hnex].
  assert (t' <> t) as Hd.
  { intros ->. apply Hnex. unfold selection_exclusions. rewrite Hss. apply skip_excluded. }
  split; [done|]. rewrite HT in Ht'. by apply elem_of_cons in Ht' as [?|?].
Qed.

(** while a yield epoch is open and some queued thread outside it is
    neither a fully backed-off poller nor the one-turn skip, no member of the
    epoch is selected, under every heuristic: spinning yielders cannot hold
    off a thread that has work. *)
Theorem epoch_members_skipped q P epoch k v t q' :
  rq_ok P q -> unlocked q -> yield_epoch q = Some epoch ->
  (k, v) ∈ queue q -> tid v ∉ epoch -> is_fully_backed_off_poller v (priority k) = false ->
  yielded_skip q <> Some (tid v) ->
  tentative_pop_next q = Done (Some t, q') -> t ∉ epoch.
Proof.
  intros Hq Hu He Hin Hv Hb Hy E Ht.
  assert (Hx : tentative_selection_is_exact q = false).
  { pose proof (ok_lock P q Hq) as Hl. unfold lock_ok in Hl. by rewrite Hu in Hl. }
  destruct (tentative_pop_next_spec P q Hq Hx) as (sel & q1 & E1 & _ & _ & Hsome & _).
  rewrite E in E1. injection E1 as <- <-.
  destruct Hsome as (t' & [= <-] & _ & Hel); [by intros Hn; rewrite Hn in Hin; inversion Hin|].
  apply Hel, eligible_tids_elem in Hu as [_ Hnex]. apply Hnex.
  assert (Hno : yield_epoch_is_over q = false).
  { unfold yield_epoch_is_over. rewrite He. apply not_true_iff_false.
    intros Hall. rewrite forallb_elem in Hall. specialize (Hall _ Hin). simpl in Hall.
    by rewrite Hb, bool_decide_false in Hall. }
  unfold selection_exclusions, settled. rewrite Hno. unfold excluded_tids. rewrite He.
  assert (existsb (fun kv : entry => negb (bool_decide (tid kv.2 ∈
     (match selection_skip q with Some t => {[t]} | None => ∅ end : gset DetTid) ∪ epoch))) (queue q) = true) as ->.
  { apply existsb_elem. exists (k, v). split; [done|]. simpl.
    rewrite bool_decide_false; [done|]. rewrite elem_of_union. intros [Hs|?]; [|done].
    unfold selection_skip in Hs. destruct (yielded_skip q) as [s|]; simpl in Hs; [|set_solver].
    destruct (_ && _) in Hs; [|set_solver]. apply elem_of_singleton in Hs. congruence. }
  by apply elem_of_union_r.
Qed.

(** a poll upgrade returns every backed-off poller whose normal priority
    is above the last band to that priority, keeping its turn, marks the ones
    it cannot move, and changes no other entry's place: the new queue is
    exactly the old entries, each upgraded. *)
Theorem poll_upgrade_exact q P :
  rq_ok P q -> unlocked q -> poll_upgrades q < u64_max ->
  exists q', upgrade_pollers bp q = Done (restored_tids (queue q), q')
    /\ rq_ok P q' /\ queue q' ≡ₚ settle_entry <$> (upgrade_entry <$> queue q)
    /\ poll_upgrade_count q' = poll_upgrade_count q + 1
    /\ forall k v, (k, v) ∈ queue q' -> forall p, poll_upgrade v = Some p -> LAST_PRIORITY <= p.
Proof.
  intros Hq Hu Hr. unfold upgrade_pollers. rewrite (assert_unlocked_ok q Hu). simpl.
  destruct (do_poll_upgrade_spec bp P q Hq Hr Hu) as (m & E & HP & Hok).
  eexists. split_and!; [exact E|done|exact HP|done|].
  intros k v Hin p Hp. simpl in Hin. rewrite HP, <- list_fmap_compose in Hin.
  apply list_elem_of_fmap_1 in Hin as ([k0 v0] & Ekv & _). unfold compose in Ekv.
  assert (Hpu : poll_upgrade v = poll_upgrade (upgrade_entry (k0, v0)).2).
  { unfold settle_entry, settle_restored in Ekv. injection Ekv as _ ->.
    by repeat case_match. }
  rewrite Hpu in Hp. unfold upgrade_entry in Hp. simpl in Hp.
  destruct (poll_upgrade v0) as [p0|] eqn:E0; [|simpl in Hp; congruence].
  destruct (Z.leb_spec LAST_PRIORITY p0); simpl in Hp; [|done]. congruence.
Qed.

(** out of any 200 consecutive queueing operations exactly one runs a poll
    upgrade, so a backed-off poller waits for at most 200 pushes. *)
Theorem poll_upgrade_every_interval q P cs :
  rq_ok P q -> calls_ok cs (q, P) -> Forall (fun c => is_Some (pushed_tid c)) cs ->
  length cs = Z.to_nat POLLING_UPGRADE_INTERVAL ->
  exists q' P', run_calls bp cs (q, P) = Done (q', P')
    /\ poll_upgrade_count q' = poll_upgrade_count q + 1.
Proof.
  intros Hq Hc HF Hlen. destruct (run_pushes_upgrades cs q P Hq Hc HF) as (q' & P' & E & Hup).
  exists q', P'. split; [done|]. unfold poll_upgrade_count. rewrite Hlen in Hup.
  unfold POLLING_UPGRADE_INTERVAL in *. simpl in Hup.
  Z.to_euclidean_division_equations; lia.
Qed.

(** suspending a queued thread and restoring it at an unchanged priority
    gives back the very same queue. *)
Theorem suspend_restore_roundtrip q P t pp e q1 :
  rq_ok P q -> unlocked q -> suspend q t pp = Done (Some e, q1) ->
  t ∉ tids q1 /\ exists q2, restore bp q1 e pp = Done q2 /\ queue q2 = queue q /\ rq_ok P q2.
Proof.
  intros Hq Hu E. destruct (suspend_spec P q t pp Hq Hu) as [[_ E1]|(k & v & Hin & Ht & E1 & HP & Hok)];
    rewrite E in E1; [done|]. injection E1 as -> ->.
  pose proof (NoDup_tids_remove P q k v Hq Hin) as [Hnin HN]%NoDup_cons.
  assert (Hfree : t ∉ tids (set_queue (bt_remove k (queue q)) q)) by (rewrite <- Ht; exact Hnin).
  split; [done|].
  unfold restore. rewrite (assert_unlocked_ok (set_queue _ q)) by done.
  apply contains_tid_false in Hfree. rewrite <- Ht in Hfree. cbn [mbind outcome_bind se_value].
  rewrite Hfree. rewrite restore_key, restore_value. unfold reprioritized.
  cbn [se_persistent_priority]. rewrite Z.eqb_refl.
  assert (Hg : bt_get k (bt_remove k (queue q)) = None) by (apply bt_get_remove_eq, Hq).
  assert (Hmem : bt_mem k (bt_remove k (queue q)) = false) by (unfold bt_mem; by rewrite Hg).
  assert (Hfix : (if RUN_TIME_TURNS <=? turn k
     then next_free_turn bp (length (bt_remove k (queue q))) (bt_remove k (queue q)) k
     else Done k) = Done k).
  { destruct (_ <=? _); [|done]. destruct (length _); simpl; by rewrite Hmem. }
  simpl. rewrite Hfix. simpl. rewrite Hmem. simpl. eexists. split; [done|].
  assert (Hback : bt_insert k v (bt_remove k (queue q)) = queue q).
  { apply bt_ext; [apply bt_insert_ok, bt_remove_ok, Hq|apply Hq|]. intros k'.
    destruct (decide (k = k')) as [<-|Hne].
    - rewrite bt_get_insert_eq by apply bt_remove_ok, Hq. symmetry.
      by apply (queued_entry_get P q).
    - rewrite bt_get_insert_ne, bt_get_remove_ne; try done; [apply Hq|apply bt_remove_ok, Hq]. }
  split; simpl; [done|]. rewrite Hback. by destruct q.
Qed.

(** ordering by run time keeps the invariant, every thread and every entry
    it was not asked to order; of two entries it does order in one priority
    band, the one with the smaller (run time, second key, thread id) gets the
    smaller key, so it runs first. *)
Theorem order_by_run_time_fair q P order :
  rq_ok P q -> unlocked q -> Z.of_nat (len q) < 2 ^ 30 -> Forall (fun o => 0 <= o.2.1) order ->
  exists q', order_by_run_time bp q order = Done q' /\ rq_ok P q' /\ tids q' ≡ₚ tids q
    /\ (forall kv, kv ∈ queue q -> wanted_entry (wanted_map order) kv = false -> kv ∈ queue q')
    /\ forall k1 v1 k2 v2 w1 w2,
         (k1, v1) ∈ queue q -> (k2, v2) ∈ queue q -> priority k1 = priority k2 ->
         in_round_robin_order k1 v1 = true -> in_round_robin_order k2 v2 = true ->
         wanted_map order !! tid v1 = Some w1 -> wanted_map order !! tid v2 = Some w2 ->
         klt (w1, tid v1) (w2, tid v2) ->
         exists k1' k2', (k1', v1) ∈ queue q' /\ (k2', v2) ∈ queue q'
           /\ priority k1' = priority k1 /\ priority k2' = priority k2 /\ klt k1' k2'.
Proof.
  intros Hq Hu Hlen Hord.
  destruct (order_by_run_time_spec bp P q order Hq Hu Hlen Hord)
    as (moved & new & m' & E & Hok & HPm & Hsort & HPq & HF & Hk).
  exists (set_queue m' q). split_and!; [done|done|by apply (placed_tids order moved new)|..].
  { intros kv Hin Hw. simpl. rewrite HPq. apply elem_of_app. right.
    apply list_elem_of_In, filter_In. rewrite Hw. by split; [apply list_elem_of_In|]. }
  intros k1 v1 k2 v2 w1 w2 H1 H2 Hp Hr1 Hr2 Hw1 Hw2 Hlt.
  destruct (placed_index order moved new (queue q) k1 v1 w1) as (i & k1' & Hi & Hi' & Hp1); [done..|].
  destruct (placed_index order moved new (queue q) k2 v2 w2) as (j & k2' & Hj & Hj' & Hp2); [done..|].
  exists k1', k2'. simpl. rewrite HPq, !elem_of_app.
  split_and!; [left; by eapply list_elem_of_lookup_2..|done|done|].
  assert (i < j)%nat as Hij.
  { destruct (Nat.lt_total i j) as [?|[->|Hji]]; [done|exfalso..].
    - rewrite Hi in Hj. injection Hj as _ -> ->. by apply (klt_irrefl (w2, tid v2)).
    - pose proof (StronglySorted_lookup_lt _ _ _ _ _ _ Hsort Hj Hi Hji) as Hle.
      simpl in Hle. rewrite Hp in Hle. by apply (same_band_order _ w1 v1 w2 v2 Hle). }
  apply (StronglySorted_lookup_lt klt (new.*1) i j); [done|by rewrite list_lookup_fmap, Hi'|by rewrite list_lookup_fmap, Hj'|done].
Qed.
End Props.

(** the priority of a polling thread is its normal priority doubled once
    per attempt and capped at the last band, for every attempt count: the
    checked shift and multiplication never produce anything else. *)
Theorem poller_backoff np n :
  1 <= np <= u64_max -> 0 <= n -> poller_priority np n = Z.min (np * 2 ^ n) LAST_PRIORITY.
Proof.
  intros Hnp Hn. unfold poller_priority, checked_shl1_u64, LAST_PRIORITY.
  destruct (Z.ltb_spec n 64) as [Hlt|Hge]; simpl.
  - rewrite Z.shiftl_1_l. unfold checked_u64.
    assert (0 < 2 ^ n) by (apply Z.pow_pos_nonneg; lia).
    rewrite (proj2 (Z.leb_le 0 _)) by nia. simpl. rewrite (Z.mul_comm (2 ^ n)).
    destruct (Z.leb_spec (np * 2 ^ n) u64_max); simpl; unfold u64_max in *; lia.
  - assert (2 ^ 64 <= 2 ^ n) by (apply Z.pow_le_mono_r; lia). unfold u64_max. nia.
Qed.

(** * Concrete runs

    The invariant as a test, to establish it for a queue given by its run. *)
Fixpoint sorted_keys (l : list PrioritizedOrder) : bool :=
  match l with
  | [] => true
  | k :: l' => forallb (fun k' => match kcmp k k' with Lt => true | _ => false end) l' && sorted_keys l'
  end.
Definition entry_check (b f : RoundRobinTurn) (kv : entry) : bool :=
  (f <=? turn kv.1) && (turn kv.1 <=? b) && (b <? RUN_TIME_TURNS)
  || (RUN_TIME_TURNS <=? turn kv.1) && (turn kv.1 <=? i64_max) && bool_decide (poll_upgrade kv.2 = None).
Definition rq_check (P : list SuspendedRunQueueEntry) (q : RunQueue Z) : bool :=
  sorted_keys ((queue q).*1) && bool_decide (NoDup (tids q))
  && (0 <=? last_back_turn q) && (last_back_turn q <? RUN_TIME_TURNS)
  && (- RUN_TIME_TURNS <? last_front_turn q) && (last_front_turn q <=? 0)
  && (0 <=? poll_upgrades q) && (poll_upgrades q <=? u64_max)
  && forallb (entry_check (last_back_turn q) (last_front_turn q)) (queue q ++ pool_entries P)
  && bool_decide (NoDup (ordinary_turns (queue q ++ pool_entries P)))
  && bool_decide (tentative_selection q = None) && negb (tentative_selection_is_exact q).

Lemma sorted_keys_ok l : sorted_keys l = true -> StronglySorted klt l.
Proof.
  induction l as [|k l IH]; simpl; [constructor|]. intros [Hk Hl]%andb_prop.
  constructor; [auto|]. apply Forall_forall. intros k' Hin. rewrite forallb_elem in Hk.
  specialize (Hk k' Hin). unfold klt. by destruct (kcmp k k').
Qed.
Lemma rq_check_ok P q : rq_check P q = true -> rq_ok P q.
Proof.
  unfold rq_check. intros H. repeat (apply andb_prop in H as [H ?]). bool_prop.
  split; [by apply sorted_keys_ok|done|lia|lia|lia| |].
  - split; [|done]. apply Forall_forall. intros kv Hkv.
    match goal with H : forallb _ _ = true |- _ => rewrite forallb_elem in H; specialize (H kv Hkv) end.
    unfold entry_check in *. unfold entry_ok.
    match goal with H : _ || _ = true |- _ => apply orb_true_iff in H as [H|H] end;
      bool_prop; [left|right]; split; first [lia|done].
  - unfold lock_ok. by case_match.
Qed.

#[local] Existing Instance low_rng.
#[local] Existing Instance low_rng_spec.

Definition run_from_new (h : SchedHeuristic) (cs : list rq_call) : RunQueue Z :=
  match run_calls validate cs (new h 7 f64_zero, []) with
  | Done (q, _) => q
  | Panic _ => new h 7 f64_zero
  end.

(** Two threads at the default priority, a poller backed off four times and
    one at the front. *)
Definition example_calls : list rq_call :=
  [CPushBack 3 1000; CPushBack 5 1000; CPushPoller 7 1000 4; CPushFront 9 1000].
Definition example_queue : RunQueue Z := run_from_new HNone example_calls.

Lemma example_ok : rq_ok [] example_queue.
Proof. apply rq_check_ok. by vm_compute. Qed.

Ltac not_queued := apply contains_tid_false; vm_compute; reflexivity.
Ltac room := unfold has_room; vm_compute; by split_and!.

Lemma run_queue_call_safe_witness :
  exists q' P', exec validate (CPushYielded 11 1000) (example_queue, []) = Done (q', P') /\ rq_ok P' q'.
Proof.
  apply (run_queue_call_safe validate); [apply example_ok|].
  split; [room|]. split_and!; [done|not_queued|done|done].
Defined.

Lemma run_queue_reachable_ok_witness : rq_ok [] example_queue.
Proof.
  apply (run_queue_reachable_ok validate HNone 7 f64_zero example_calls); [|by vm_compute].
  cbn [calls_fit example_calls].
  do 4 (split; [room|]; split; [done|]; intros [? ?] E; vm_compute in E; injection E as <- <-).
  done.
Defined.

Lemma select_next_least_witness :
  exists k v, (k, v) ∈ queue example_queue /\ tid v = 9 /\ 9 ∈ eligible example_queue
    /\ forall k' v', (k', v') ∈ queue example_queue -> tid v' ∈ eligible example_queue -> kle k k'.
Proof.
  eapply (select_next_least example_queue [] 9); [apply example_ok|by vm_compute..].
Defined.

Lemma pop_then_commit_witness :
  exists t q1 q2 k v,
    tentative_pop_next example_queue = Done (Some t, q1)
    /\ commit_tentative_pop_completed_turn validate q1 = Done (t, q2)
    /\ t ∈ eligible example_queue /\ tid v = t /\ queue example_queue ≡ₚ (k, v) :: queue q2
    /\ rq_ok [] q2 /\ unlocked q2 /\ t ∉ tids q2
    /\ yield_epoch q2 = None /\ yielded_skip q2 = None.
Proof. apply (pop_then_commit validate); [apply example_ok|done|by vm_compute]. Defined.

Definition popped {A} (r : outcome (A * RunQueue Z)) : RunQueue Z :=
  match r with Done (_, q) => q | Panic _ => example_queue end.

Lemma undo_pop_again_witness :
  exists q2, undo_tentative_pop (popped (tentative_pop_next example_queue)) = Done q2
    /\ exists q3, tentative_pop_next q2 = Done (Some 9, q3).
Proof.
  eexists. split; [by vm_compute|].
  refine (proj2 (proj2 (proj2 (proj2 (undo_pop_again example_queue [] (Some 9)
    (popped (tentative_pop_next example_queue)) _ example_ok _ _ _ _))))); by vm_compute.
Defined.

Lemma push_positions_witness :
  exists kb qb kf qf ke qe,
    push_back validate example_queue 11 1000 = Done (kb, qb)
    /\ push_front validate example_queue 11 1000 = Done (kf, qf)
    /\ push_eager_io_repoll validate example_queue 11 = Done (ke, qe)
    /\ forall k v, (k, v) ∈ queue example_queue ->
         (priority k = 1000 -> ordinary_turn (turn k) -> klt k kb)
         /\ (priority k = 1000 -> klt kf k)
         /\ (0 <= priority k -> klt ke k).
Proof. apply (push_positions validate _ []); [apply example_ok|done|room|not_queued|done]. Defined.

Lemma yielded_thread_skipped_witness :
  exists t' q2, tentative_pop_next (popped (push_yielded validate example_queue 11 1)) = Done (Some t', q2)
    /\ t' <> 11 /\ t' ∈ tids example_queue.
Proof.
  apply (yielded_thread_skipped validate example_queue [] 11 1 (PO 1 4));
    [apply example_ok|done|room|not_queued|by vm_compute|by vm_compute].
Defined.

(** Thread 3 yields twice while thread 5 has work. *)
Definition epoch_queue : RunQueue Z := run_from_new HNone
  [CPushBack 5 1000; CPushYieldedIntoEpoch 3 1; CPopTid 3; CCommit; CPushYieldedIntoEpoch 3 1].

Lemma epoch_members_skipped_witness :
  tentative_pop_next epoch_queue = Done (Some 5, popped (tentative_pop_next epoch_queue))
  /\ 5 ∉ ({[3]} : gset DetTid).
Proof.
  split; [by vm_compute|].
  eapply (epoch_members_skipped epoch_queue [] {[3]} (PO 1000 1) (QV 5 None false false));
    [apply rq_check_ok; by vm_compute|done|by vm_compute| |set_solver|done|done|by vm_compute].
  vm_compute. right. left.
Defined.

Lemma poll_upgrade_exact_witness :
  exists q', upgrade_pollers validate example_queue = Done (restored_tids (queue example_queue), q')
    /\ rq_ok [] q' /\ queue q' ≡ₚ settle_entry <$> (upgrade_entry <$> queue example_queue)
    /\ poll_upgrade_count q' = poll_upgrade_count example_queue + 1
    /\ forall k v, (k, v) ∈ queue q' -> forall p, poll_upgrade v = Some p -> LAST_PRIORITY <= p.
Proof. apply (poll_upgrade_exact validate); [apply example_ok|done|by vm_compute]. Defined.

Lemma suspend_restore_roundtrip_witness :
  exists e q2, suspend example_queue 5 1000 = Done (Some e, popped (suspend example_queue 5 1000))
    /\ restore validate (popped (suspend example_queue 5 1000)) e 1000 = Done q2
    /\ queue q2 = queue example_queue.
Proof.
  destruct (suspend_restore_roundtrip validate example_queue [] 5 1000 (SE (PO 1000 2) (QV 5 None false false) 1000)
    (popped (suspend example_queue 5 1000)) example_ok) as (_ & q2 & E & Hq & _); [done|by vm_compute|].
  exists (SE (PO 1000 2) (QV 5 None false false) 1000), q2. split_and!; [by vm_compute|done|done].
Defined.

Lemma order_by_run_time_fair_witness :
  exists q', order_by_run_time validate example_queue [(3, (90, 0)); (5, (40, 0))] = Done q'
    /\ tids q' ≡ₚ tids example_queue
    /\ exists k1 k2, (k1, QV 5 None false false) ∈ queue q' /\ (k2, QV 3 None false false) ∈ queue q'
         /\ klt k1 k2.
Proof.
  destruct (order_by_run_time_fair validate example_queue [] [(3, (90, 0)); (5, (40, 0))] example_ok)
    as (q' & E & _ & Ht & _ & Hord); [done|done|by repeat constructor|].
  exists q'. split_and!; [done|done|].
  destruct (Hord (PO 1000 2) (QV 5 None false false) (PO 1000 1) (QV 3 None false false) (40, 0) (90, 0))
    as (k1 & k2 & H1 & H2 & _ & _ & Hlt); try (by vm_compute); [vm_compute; right; right; left|vm_compute; right; left|].
  by exists k1, k2.
Defined.

Lemma poller_backoff_witness : poller_priority 1000 3 = 8000 /\ poller_priority 1000 70 = 10000.
Proof. split; [rewrite (poller_backoff 1000 3)|rewrite (poller_backoff 1000 70)]; unfold u64_max; by try lia. Defined.

(** The contract of a run of [push_back] calls, as a test. *)
Fixpoint pushes_check (ts : list DetTid) (s : RunQueue Z * list SuspendedRunQueueEntry) : bool :=
  match ts with
  | [] => true
  | t :: ts' =>
      (last_back_turn s.1 + 1 <? RUN_TIME_TURNS) && (- RUN_TIME_TURNS <? last_front_turn s.1 - 1)
      && (poll_upgrades s.1 <? u64_max) && bool_decide (tentative_selection s.1 = None)
      && negb (contains_tid s.1 t)
      && match exec validate (CPushBack t DEFAULT_PRIORITY) s with
         | Done s' => pushes_check ts' s'
         | Panic _ => true
         end
  end.
Lemma pushes_check_ok ts s :
  pushes_check ts s = true -> calls_ok validate ((fun t => CPushBack t DEFAULT_PRIORITY) <$> ts) s.
Proof.
  revert s. induction ts as [|t ts IH]; intros [q P] H; [done|].
  cbn [pushes_check fst] in H. rewrite fmap_cons. cbn [calls_ok].
  destruct (exec validate (CPushBack t DEFAULT_PRIORITY) (q, P)) as [s'|?]; bool_prop.
  - split; [|intros ? [= <-]; by apply IH].
    split; [done|]. split_and!; [done|by apply contains_tid_false|done].
  - split; [|done]. split; [done|]. split_and!; [done|by apply contains_tid_false|done].
Qed.

Lemma poll_upgrade_every_interval_witness :
  exists q' P', run_calls validate ((fun t => CPushBack t DEFAULT_PRIORITY) <$> (Z.of_nat <$> seq 20 200))
      (example_queue, []) = Done (q', P')
    /\ poll_upgrade_count q' = poll_upgrade_count example_queue + 1.
Proof.
  apply (poll_upgrade_every_interval validate); [apply example_ok|..|by vm_compute].
  - apply pushes_check_ok. by vm_compute.
  - apply Forall_fmap, Forall_forall. by eexists.
Defined.
