(* ===== verification/Time.v ===== *)
(** Logical time, detcore-model/src/time.rs.

    [LogicalTime] is a [u64] count of nanoseconds, [DetTime] the clock of one
    guest thread (syscalls, branches and instructions priced in floating
    point) and [GlobalTime] the aggregate the scheduler keeps.  The first part
    has the definitions, [GlobalTime]'s invariant and theorems follow. *)
From Stdlib Require Import ZArith Lia List.
From stdpp Require Import base gmap list.
From S2P Require Import Prelude.

Abbreviation LogicalDuration := Z.
(** [std::time::Duration], by its [as_nanos]. *)
Abbreviation Duration := Z.
Abbreviation Microseconds := Z.

Definition NANOS_PER_SEC : Z := 1000000000.
Definition NANOS_PER_MILLI : Z := 1000000.
Definition NANOS_PER_MICRO : Z := 1000.
Definition MILLIS_PER_SEC : Z := 1000.
Definition MICROS_PER_SEC : Z := 1000000.
Definition NANOS_PER_SYSCALL : f64 := f64_of_Z 10000.
Definition NANOS_PER_RCB : f64 := f64_of_Z 10.
Definition NANOS_PER_NONDET_INSTR : f64 := f64_of_Z 25.
Definition NANOS_PER_SCHED : f64 := f64_of_Z 500000.
Definition RCB_TIME_MULTIPLIER_SCALE : Z := Z.shiftl 1 32.
Definition MAX_SCHEDULER_TURN_COST : Z := 1000000000.

(** * The Q32 multiplier *)
Module RcbTimeMultiplier.
Definition ONE : Z := RCB_TIME_MULTIPLIER_SCALE.
Definition MAX : f64 := f64_div (f64_of_Z u64_max) (f64_of_Z RCB_TIME_MULTIPLIER_SCALE).
Definition from_f64 (value : f64) : outcome Z :=
  _ ← assert_ (f64_is_finite value && f64_ltb (f64_of_Z 0) value && f64_leb value MAX);
  let scaled := f64_to_u64 (f64_round (f64_mul value (f64_of_Z RCB_TIME_MULTIPLIER_SCALE))) in
  Done (Z.max scaled 1).
Definition as_f64 (units : Z) : f64 := f64_div (f64_of_Z units) (f64_of_Z RCB_TIME_MULTIPLIER_SCALE).
End RcbTimeMultiplier.

(** * Absolute times *)
Module LogicalTime.
Definition ZERO : Z := 0.
Definition MAX : Z := u64_max.
Definition INDEFINITE : Z := MAX.
Definition is_indefinite (t : Z) : bool := t =? INDEFINITE.
Definition as_micros (t : Z) : Z := t / NANOS_PER_MICRO.
Definition as_millis (t : Z) : Z := t / NANOS_PER_MILLI.
Definition as_nanos (t : Z) : Z := t.
Definition as_secs (t : Z) : Z := t / NANOS_PER_SEC.
Definition from_micros (bp : profile) (n : Z) : outcome Z := arith_u bp 64 (n * NANOS_PER_MICRO).
Definition from_millis (bp : profile) (n : Z) : outcome Z := arith_u bp 64 (n * NANOS_PER_MILLI).
Definition from_nanos (n : Z) : Z := n.
Definition from_big_nanos (n : Z) : Z := wrap_u 64 n.
Definition from_secs (bp : profile) (n : Z) : outcome Z := arith_u bp 64 (n * NANOS_PER_SEC).
Definition subsec_micros (t : Z) : Z := wrap_u 32 ((t / NANOS_PER_MICRO) mod MICROS_PER_SEC).
Definition subsec_millis (t : Z) : Z := wrap_u 32 ((t / NANOS_PER_MILLI) mod MILLIS_PER_SEC).
Definition subsec_nanos (t : Z) : Z := wrap_u 32 (t mod NANOS_PER_SEC).
Definition from_rcbs (n : Z) : Z := f64_to_u64 (f64_mul (f64_of_Z n) NANOS_PER_RCB).
Definition into_rcbs (t : Z) : Z := f64_to_u64 (f64_div (f64_of_Z t) NANOS_PER_RCB).
Definition into_rcbs_with_multiplier (bp : profile) (t : Z) (multiplier : f64) : outcome Z :=
  _ ← debug_assert_ bp (f64_ltb (f64_of_Z 0) multiplier);
  Done (f64_to_u64 (f64_floor (f64_div (f64_of_Z t) (f64_mul NANOS_PER_RCB multiplier)))).
Definition is_zero (t : Z) : bool := t =? 0.
Definition duration_since (t from : Z) : outcome Duration :=
  if t <? from then Panic PExplicit else Done (t - from).
(** [Add], [Add<Duration>], [Add<u128>] and [Sub]. *)
Definition add (a b : Z) : Z := sat_add_u64 a b.
Definition add_duration (a : Z) (d : Duration) : Z :=
  let nanos := if d <=? u64_max then d else u64_max in sat_add_u64 a nanos.
Definition add_u128 (a b : Z) : Z := sat_add_u64 a (Z.min b u64_max).
Definition sub (bp : profile) (a b : Z) : outcome Z := arith_u bp 64 (a - b).
(** [Timespec] and [Timeval] as their two fields. *)
Definition to_timespec (t : Z) : Z * Z := (wrap_i 64 (as_secs t), subsec_nanos t).
Definition to_timeval (t : Z) : Z * Z := (wrap_i 64 (as_secs t), subsec_micros t).
End LogicalTime.

(** * The configuration the clocks read, detcore-model/src/config.rs

    The epoch is what chrono's [timestamp] and [timestamp_subsec_micros]
    return for it. *)
Record ClockConfig := {
  epoch_timestamp : Z;
  epoch_subsec_micros : Z;
  sequentialize_threads : bool;
  max_timeslice : option Z;
  no_rcb_time : bool;
  clock_multiplier : option f64;
  scheduler_turn_cost : option Z;
}.
Definition use_rcb_time (cfg : ClockConfig) : bool :=
  bool_decide (is_Some (max_timeslice cfg)) && negb (no_rcb_time cfg).
Definition scheduler_turn_charge_cfg (cfg : ClockConfig) : option Z :=
  let multiplier := default (f64_of_Z 1) (clock_multiplier cfg) in
  match scheduler_turn_cost cfg with
  | None => Some (f64_to_u64 (f64_mul NANOS_PER_SCHED multiplier))
  | Some cost =>
      if MAX_SCHEDULER_TURN_COST <? cost then None
      else
        let charge := f64_mul (f64_of_Z cost) multiplier in
        if negb (f64_leb (f64_of_Z 1) charge && f64_leb charge (f64_of_Z MAX_SCHEDULER_TURN_COST))
        then None
        else Some (f64_to_u64 charge)
  end.
Definition micros_from_utc (bp : profile) (timestamp subsec_micros : Z) : outcome Microseconds :=
  a ← arith_u bp 64 (wrap_u 64 timestamp * 1000000);
  arith_u bp 64 (a + subsec_micros).

(** * The clock of one thread *)
Module DetTime.
Record DetTime := DT {
  syscalls : Z;
  syscall_nanos : option Z;
  rcbs : Z;
  weighted_rcbs : option Z;
  nondet_instrs : Z;
  extra_nanos : Z;
  starting_micros : Microseconds;
  multiplier : f64;
  inherited_nanos : LogicalDuration;
}.

Definition from_utc (micros : Microseconds) : DetTime :=
  DT 0 (Some 0) 0 None 0 0 micros (f64_of_Z 1) LogicalTime.ZERO.
Definition zero : DetTime := from_utc 0.
Definition default_ : DetTime := zero.
Definition with_multiplier (d : DetTime) (m : f64) : DetTime :=
  DT (syscalls d) (syscall_nanos d) (rcbs d) (weighted_rcbs d) (nondet_instrs d) (extra_nanos d)
     (starting_micros d) m (inherited_nanos d).
Definition set_extra (d : DetTime) (n : Z) : DetTime :=
  DT (syscalls d) (syscall_nanos d) (rcbs d) (weighted_rcbs d) (nondet_instrs d) n
     (starting_micros d) (multiplier d) (inherited_nanos d).
Definition set_rcbs (d : DetTime) (w : option Z) (n : Z) : DetTime :=
  DT (syscalls d) (syscall_nanos d) n w (nondet_instrs d) (extra_nanos d)
     (starting_micros d) (multiplier d) (inherited_nanos d).
Definition set_syscalls (d : DetTime) (n nanos : Z) : DetTime :=
  DT n (Some nanos) (rcbs d) (weighted_rcbs d) (nondet_instrs d) (extra_nanos d)
     (starting_micros d) (multiplier d) (inherited_nanos d).
Definition set_nondet (d : DetTime) (n : Z) : DetTime :=
  DT (syscalls d) (syscall_nanos d) (rcbs d) (weighted_rcbs d) n (extra_nanos d)
     (starting_micros d) (multiplier d) (inherited_nanos d).
Definition set_inherited (d : DetTime) (n : Z) : DetTime :=
  DT (syscalls d) (syscall_nanos d) (rcbs d) (weighted_rcbs d) (nondet_instrs d) (extra_nanos d)
     (starting_micros d) (multiplier d) n.

Section Ops.
Context (bp : profile).

Definition new (cfg : ClockConfig) : outcome DetTime :=
  let additional_multiplier :=
    if sequentialize_threads cfg && negb (use_rcb_time cfg) then f64_of_Z 500 else f64_of_Z 1 in
  micros ← micros_from_utc bp (epoch_timestamp cfg) (epoch_subsec_micros cfg);
  Done (match clock_multiplier cfg with
        | Some m => with_multiplier (from_utc micros) (f64_mul m additional_multiplier)
        | None => with_multiplier (from_utc micros) additional_multiplier
        end).

Definition uniform_syscall_nanos (d : DetTime) : Z :=
  f64_to_u64 (f64_mul (f64_of_Z (syscalls d)) NANOS_PER_SYSCALL).
Definition rcb_nanos (d : DetTime) : f64 :=
  match weighted_rcbs d with
  | None => f64_mul (f64_of_Z (rcbs d)) NANOS_PER_RCB
  | Some weighted =>
      f64_div (f64_mul (f64_of_Z weighted) NANOS_PER_RCB) (f64_of_Z RCB_TIME_MULTIPLIER_SCALE)
  end.

Definition as_nanos (d : DetTime) : outcome Z :=
  let sys := default (uniform_syscall_nanos d) (syscall_nanos d) in
  start ← arith_u bp 64 (starting_micros d * 1000);
  a ← arith_u bp 64 (start + extra_nanos d);
  b ← arith_u bp 64 (a + f64_to_u64 (f64_mul (f64_of_Z sys) (multiplier d)));
  c ← arith_u bp 64 (b + f64_to_u64 (f64_mul (rcb_nanos d) (multiplier d)));
  arith_u bp 64 (c + f64_to_u64
    (f64_mul (f64_mul (f64_of_Z (nondet_instrs d)) NANOS_PER_NONDET_INSTR) (multiplier d))).

Definition without_starting (d : DetTime) : outcome LogicalDuration :=
  t1 ← as_nanos d;
  start ← arith_u bp 64 (starting_micros d * 1000);
  arith_u bp 64 (t1 - start).
Definition as_duration (d : DetTime) : outcome Duration := without_starting d.

Definition clone_for_child (d : DetTime) : outcome DetTime :=
  inherited ← without_starting d; Done (set_inherited d inherited).

Definition add_syscall_with_cost (d : DetTime) (nanos : Z) : outcome DetTime :=
  let previous_uniform_nanos := uniform_syscall_nanos d in
  n ← arith_u bp 64 (syscalls d + 1);
  total ← match syscall_nanos d with
          | Some s => arith_u bp 64 (s + nanos)
          | None => arith_u bp 64 (previous_uniform_nanos + nanos)
          end;
  Done (set_syscalls d n total).
Definition add_syscall (d : DetTime) : outcome DetTime :=
  add_syscall_with_cost d (f64_to_u64 NANOS_PER_SYSCALL).

Definition add_rdtsc (d : DetTime) : outcome DetTime :=
  n ← arith_u bp 64 (nondet_instrs d + 1); Done (set_nondet d n).
Definition add_cpuid (d : DetTime) : outcome DetTime :=
  n ← arith_u bp 64 (nondet_instrs d + 1); Done (set_nondet d n).

Definition add_rcbs (d : DetTime) (count : Z) : outcome DetTime :=
  w ← match weighted_rcbs d with
      | Some w => w' ← arith_u bp 128 (w + count * RCB_TIME_MULTIPLIER_SCALE); Done (Some w')
      | None => Done None
      end;
  n ← arith_u bp 64 (rcbs d + count);
  Done (set_rcbs d w n).
Definition add_rcbs_with_multiplier (d : DetTime) (count factor : Z) : outcome DetTime :=
  let weighted := default (rcbs d * RCB_TIME_MULTIPLIER_SCALE) (weighted_rcbs d) in
  w ← arith_u bp 128 (weighted + count * factor);
  n ← arith_u bp 64 (rcbs d + count);
  Done (set_rcbs d (Some w) n).

Definition advance_to (d : DetTime) (deadline : Z) : outcome DetTime :=
  current ← as_nanos d;
  _ ← assert_ (current <=? deadline);
  diff ← LogicalTime.sub bp deadline current;
  n ← arith_u bp 64 (extra_nanos d + diff);
  Done (set_extra d n).

Definition user_cpu_time (d : DetTime) : LogicalDuration :=
  f64_to_u64 (f64_mul (f64_add (rcb_nanos d)
    (f64_mul (f64_of_Z (nondet_instrs d)) NANOS_PER_NONDET_INSTR)) (multiplier d)).
Definition system_cpu_time (d : DetTime) : LogicalDuration :=
  f64_to_u64 (f64_mul (f64_of_Z (default (uniform_syscall_nanos d) (syscall_nanos d))) (multiplier d)).
Definition as_micros (d : DetTime) : outcome Microseconds :=
  t ← as_nanos d; Done (t / 1000).
Definition cmp (a b : DetTime) : outcome comparison :=
  nanos ← as_nanos b; t ← as_nanos a; Done (Z.compare t nanos).
End Ops.
End DetTime.

(** * The aggregate clock *)
Module GlobalTime.
Record GlobalTime := GT {
  starting_nanos : Z;
  time_vector : gmap DetTid Z;
  inherited_time : gmap DetTid Z;
  extra_time : Z;
  total : Z;
  multiplier : f64;
  scheduler_turn_charge : option Z;
}.
Record ClockExhausted := { charge : Z; at_total : Z }.

Definition set_components (g : GlobalTime) (tv inh : gmap DetTid Z) : GlobalTime :=
  GT (starting_nanos g) tv inh (extra_time g) (total g) (multiplier g) (scheduler_turn_charge g).
Definition set_extra_time (g : GlobalTime) (x : Z) : GlobalTime :=
  GT (starting_nanos g) (time_vector g) (inherited_time g) x (total g) (multiplier g)
     (scheduler_turn_charge g).
Definition set_total (g : GlobalTime) (x : Z) : GlobalTime :=
  GT (starting_nanos g) (time_vector g) (inherited_time g) (extra_time g) x (multiplier g)
     (scheduler_turn_charge g).

Section Ops.
Context (bp : profile) {HO : HashOrder}.
Implicit Type g : GlobalTime.

Definition new (cfg : ClockConfig) : outcome GlobalTime :=
  base ← DetTime.new bp cfg;
  micros ← micros_from_utc bp (epoch_timestamp cfg) (epoch_subsec_micros cfg);
  start ← LogicalTime.from_micros bp micros;
  t ← DetTime.as_nanos bp base;
  c ← match scheduler_turn_cost cfg with
      | None => Done None
      | Some _ =>
          match scheduler_turn_charge_cfg cfg with
          | Some c => Done (Some c)
          | None => Panic PExplicit
          end
      end;
  Done (GT start ∅ ∅ 0 t (default (f64_of_Z 1) (clock_multiplier cfg)) c).

Definition inherited_duration g (t : DetTid) : LogicalDuration := default 0 (inherited_time g !! t).

Fixpoint sum_components g (l : list (DetTid * Z)) (sum : Z) : outcome Z :=
  match l with
  | [] => Done sum
  | (t, tm) :: l' =>
      own ← LogicalTime.sub bp tm (inherited_duration g t);
      sum_components g l' (LogicalTime.add sum own)
  end.
Definition sum_up g : outcome Z :=
  sum ← sum_components g (hash_order (time_vector g)) (starting_nanos g);
  Done (LogicalTime.add sum (extra_time g)).

Definition sanity g : outcome () :=
  if debug_assertions bp then s ← sum_up g; assert_ (s =? total g) else Done tt.
Definition bump_total g (delta : Duration) : outcome GlobalTime :=
  let g' := set_total g (LogicalTime.add_duration (total g) delta) in
  _ ← sanity g'; Done g'.

Definition update_global_time g (t : DetTid) (newtime : Z) (inherited : LogicalDuration)
    : outcome GlobalTime :=
  if newtime <? starting_nanos g then Panic PExplicit
  else
    newtime ← LogicalTime.sub bp newtime (starting_nanos g);
    match time_vector g !! t with
    | Some old =>
        if newtime <? old then Panic PExplicit
        else
          diff ← LogicalTime.sub bp newtime old;
          bump_total (set_components g (<[t := newtime]> (time_vector g)) (inherited_time g)) diff
    | None =>
        _ ← assert_ (inherited <=? newtime);
        let g' := set_components g (<[t := newtime]> (time_vector g))
                    (<[t := inherited]> (inherited_time g)) in
        own ← LogicalTime.sub bp newtime inherited;
        bump_total g' own
    end.

Definition as_nanos g : Z := total g.
Definition add_extra_time g (delta : Duration) : outcome (Z * GlobalTime) :=
  g' ← bump_total (set_extra_time g (LogicalTime.add_duration (extra_time g) delta)) delta;
  Done (as_nanos g', g').

Definition turn_charge g (cap : Z) : Z :=
  let full := default (f64_to_u64 (f64_mul NANOS_PER_SCHED (multiplier g))) (scheduler_turn_charge g) in
  Z.min full (Z.max cap 1).
Definition add_capped_scheduler_time g (cap : Z) : outcome ((Z + ClockExhausted) * GlobalTime) :=
  let c := turn_charge g cap in
  if bool_decide (is_Some (scheduler_turn_charge g))
     && negb (bool_decide (is_Some (checked_u64 (total g + c))))
  then Done (inr {| charge := c; at_total := total g |}, g)
  else '(t, g') ← add_extra_time g c; Done (inl t, g').
Definition add_scheduler_time g : outcome ((Z + ClockExhausted) * GlobalTime) :=
  add_capped_scheduler_time g u64_max.

Definition threads_duration g (t : DetTid) : outcome LogicalDuration := expect (time_vector g !! t).
Definition threads_time g (t : DetTid) : outcome Z :=
  d ← threads_duration g t; Done (LogicalTime.add (starting_nanos g) d).
Definition contains_thread g (t : DetTid) : bool := bool_decide (is_Some (time_vector g !! t)).
Definition threads_inherited_time g (t : DetTid) : Z :=
  LogicalTime.add (starting_nanos g) (inherited_duration g t).
Definition elapsed_nanos g : option LogicalDuration := checked_u64 (total g - starting_nanos g).

Definition retire_thread g (t : DetTid) : outcome GlobalTime :=
  let inherited := inherited_duration g t in
  let g1 := set_components g (time_vector g) (delete t (inherited_time g)) in
  g2 ← match time_vector g !! t with
       | Some time =>
           own ← LogicalTime.sub bp time inherited;
           Done (set_extra_time
                   (set_components g1 (delete t (time_vector g)) (inherited_time g1))
                   (LogicalTime.add (extra_time g) own))
       | None => Done g1
       end;
  _ ← sanity g2; Done g2.

Definition reassign_thread g (from to : DetTid) : outcome GlobalTime :=
  if from =? to then Done g
  else
    g1 ← retire_thread g to;
    survivor_time ← expect (time_vector g1 !! from);
    let survivor_inherited := inherited_duration g1 from in
    let g2 := set_components g1 (<[to := survivor_time]> (delete from (time_vector g1)))
                (<[to := survivor_inherited]> (delete from (inherited_time g1))) in
    _ ← sanity g2; Done g2.
End Ops.
End GlobalTime.
