(* ===== verification/TimeProps.v ===== *)
(** What the clocks promise: the aggregate clock is an exact counter of the
    work reported to it, saturated at the end of representable time. *)
From Stdlib Require Import ZArith Lia List.
From stdpp Require Import base gmap list.
From S2P Require Import Prelude Time.

(** * Arithmetic of the clocks *)

Lemma sub_exact bp a b : 0 <= b <= a -> a <= u64_max -> LogicalTime.sub bp a b = Done (a - b).
Proof. intros. apply arith_u_exact. unfold u64_max in *. lia. Qed.
Lemma add_duration_sat a d :
  0 <= a <= u64_max -> 0 <= d -> LogicalTime.add_duration a d = Z.min u64_max (a + d).
Proof.
  intros. unfold LogicalTime.add_duration, sat_add_u64.
  destruct (Z.leb_spec d u64_max); lia.
Qed.
Lemma f64_to_u64_range x : 0 <= f64_to_u64 x <= u64_max.
Proof.
  unfold f64_to_u64, u64_max. destruct x as [| [] | |[] m e]; try lia.
  destruct (Z.leb_spec 0 e); [assert (0 <= 2 ^ e) by (apply Z.pow_nonneg; lia); nia|].
  pose proof (Z.div_pos (Z.pos m) (2 ^ (- e)) ltac:(lia) ltac:(apply Z.pow_pos_nonneg; lia)). lia.
Qed.
Lemma arith_u_validate w x y : arith_u validate w x = Done y -> y = x /\ 0 <= x < 2 ^ w.
Proof.
  unfold arith_u. destruct (Z.leb_spec 0 x), (Z.ltb_spec x (2 ^ w)); simpl; intros; simplify_eq; lia.
Qed.

(** The exact reading of a thread clock. *)
Definition priced (x m : f64) : Z := f64_to_u64 (f64_mul x m).
Definition clock_sum (d : DetTime.DetTime) : Z :=
  DetTime.starting_micros d * 1000 + DetTime.extra_nanos d
  + priced (f64_of_Z (default (DetTime.uniform_syscall_nanos d) (DetTime.syscall_nanos d))) (DetTime.multiplier d)
  + priced (DetTime.rcb_nanos d) (DetTime.multiplier d)
  + priced (f64_mul (f64_of_Z (DetTime.nondet_instrs d)) NANOS_PER_NONDET_INSTR) (DetTime.multiplier d).

Lemma as_nanos_exact bp d :
  0 <= DetTime.starting_micros d -> 0 <= DetTime.extra_nanos d -> clock_sum d <= u64_max ->
  DetTime.as_nanos bp d = Done (clock_sum d).
Proof.
  intros Hs Hx Hfit. unfold DetTime.as_nanos. unfold clock_sum, priced, u64_max in *.
  repeat match goal with |- context [f64_to_u64 ?x] =>
    lazymatch goal with H : 0 <= f64_to_u64 x <= _ |- _ => fail | _ => pose proof (f64_to_u64_range x) end end.
  do 5 (rewrite arith_u_exact by lia; simpl). done.
Qed.
Lemma as_nanos_validate d n :
  DetTime.as_nanos validate d = Done n -> n = clock_sum d /\ 0 <= n <= u64_max.
Proof.
  unfold DetTime.as_nanos, clock_sum, priced, u64_max. intros Hn.
  do 4 (match type of Hn with (x ← arith_u _ _ ?e; _) = _ =>
    destruct (arith_u validate 64 e) as [?|] eqn:E; [|done];
    apply arith_u_validate in E as [-> _]; simpl in Hn end).
  apply arith_u_validate in Hn as [-> ?]. lia.
Qed.

(** The work of the listed components: each duration less its inherited part. *)
Fixpoint own_work (inh : gmap DetTid Z) (l : list (DetTid * Z)) : Z :=
  match l with
  | [] => 0
  | (t, tm) :: l' => (tm - default 0 (inh !! t)) + own_work inh l'
  end.
#[export] Instance own_work_perm inh : Proper ((≡ₚ) ==> eq) (own_work inh).
Proof.
  induction 1 as [|[t x] l l' _ IH|[t x] [t' y] l|l l' l'' _ IH _ IH']; simpl; [done|lia|lia|congruence].
Qed.
Lemma own_work_ext inh inh' l :
  (forall t, t ∈ l.*1 -> inh !! t = inh' !! t) -> own_work inh l = own_work inh' l.
Proof.
  induction l as [|[t x] l IH]; intros H; simpl; [done|].
  rewrite (H t) by (simpl; left). rewrite IH; [done|]. intros t' Ht'. apply H. simpl. by right.
Qed.

Definition work (tv inh : gmap DetTid Z) : Z := own_work inh (map_to_list tv).

Lemma elem_of_map_to_list_fst (m : gmap DetTid Z) t : t ∈ (map_to_list m).*1 -> is_Some (m !! t).
Proof. intros ([t' x] & -> & Hin)%list_elem_of_fmap. apply elem_of_map_to_list in Hin. eauto. Qed.

Lemma work_insert_fresh tv inh t x :
  tv !! t = None -> work (<[t := x]> tv) inh = (x - default 0 (inh !! t)) + work tv inh.
Proof. intros Ht. unfold work. by rewrite map_to_list_insert. Qed.
Lemma work_delete tv inh t x :
  tv !! t = Some x -> work tv inh = (x - default 0 (inh !! t)) + work (delete t tv) inh.
Proof.
  intros Ht. rewrite <- (insert_id tv t x Ht) at 1. rewrite <- insert_delete_eq.
  apply work_insert_fresh, lookup_delete_eq.
Qed.
Lemma work_ext tv inh inh' :
  (forall t, is_Some (tv !! t) -> inh !! t = inh' !! t) -> work tv inh = work tv inh'.
Proof. intros H. apply own_work_ext. intros t Ht. by apply H, elem_of_map_to_list_fst. Qed.
Lemma work_update tv inh t x y :
  tv !! t = Some x -> work (<[t := y]> tv) inh = work tv inh + (y - x).
Proof.
  intros Ht. rewrite (work_delete tv inh t x Ht), <- insert_delete_eq.
  rewrite work_insert_fresh by apply lookup_delete_eq. lia.
Qed.

Module ClockInv.
Import GlobalTime.
Section Inv.
Context (bp : profile) {HO : HashOrder}.
Implicit Type g : GlobalTime.

Definition components_ok (tv inh : gmap DetTid Z) : Prop :=
  forall t tm, tv !! t = Some tm -> 0 <= default 0 (inh !! t) <= tm /\ tm <= u64_max.

(** The cached total is the saturated sum the code checks it against. *)
Record gt_ok g : Prop := {
  ok_start : 0 <= starting_nanos g <= u64_max;
  ok_extra : 0 <= extra_time g <= u64_max;
  ok_components : components_ok (time_vector g) (inherited_time g);
  ok_total : total g = Z.min u64_max
    (starting_nanos g + work (time_vector g) (inherited_time g) + extra_time g);
  ok_charge : forall c, scheduler_turn_charge g = Some c -> 0 <= c <= u64_max;
}.

Lemma own_work_nonneg inh l :
  (forall t tm, (t, tm) ∈ l -> 0 <= default 0 (inh !! t) <= tm /\ tm <= u64_max) ->
  0 <= own_work inh l.
Proof.
  intros Hl. induction l as [|[t x] l IH]; simpl; [lia|].
  pose proof (Hl t x ltac:(left)). specialize (IH ltac:(intros; apply Hl; by right)). lia.
Qed.
Lemma work_nonneg tv inh : components_ok tv inh -> 0 <= work tv inh.
Proof. intros H. apply own_work_nonneg. intros t tm Hin. apply H. by apply elem_of_map_to_list. Qed.

Lemma sum_components_spec g l sum :
  (forall t tm, (t, tm) ∈ l -> 0 <= inherited_duration g t <= tm /\ tm <= u64_max) ->
  0 <= sum <= u64_max ->
  sum_components bp g l sum = Done (Z.min u64_max (sum + own_work (inherited_time g) l)).
Proof.
  revert sum. induction l as [|[t x] l IH]; intros sum H Hs; simpl; [f_equal; lia|].
  pose proof (H t x ltac:(left)) as Hx. rewrite sub_exact by lia. simpl.
  assert (Hl : forall t tm, (t, tm) ∈ l -> 0 <= inherited_duration g t <= tm /\ tm <= u64_max)
    by (intros; apply H; by right).
  pose proof (own_work_nonneg (inherited_time g) l Hl).
  unfold LogicalTime.add, sat_add_u64. rewrite IH; [|done|lia].
  f_equal. unfold inherited_duration in *. lia.
Qed.

Lemma sum_up_spec g :
  0 <= starting_nanos g <= u64_max -> 0 <= extra_time g ->
  components_ok (time_vector g) (inherited_time g) ->
  sum_up bp g = Done (Z.min u64_max
    (starting_nanos g + work (time_vector g) (inherited_time g) + extra_time g)).
Proof.
  intros Hs He Hc. unfold sum_up. rewrite sum_components_spec; [|..|done].
  - simpl. unfold LogicalTime.add, sat_add_u64. rewrite hash_order_perm.
    pose proof (work_nonneg _ _ Hc). unfold work in *. f_equal. lia.
  - intros t tm Hin. rewrite hash_order_perm in Hin. apply elem_of_map_to_list in Hin. by apply Hc.
Qed.

Lemma sanity_ok g : gt_ok g -> sanity bp g = Done tt.
Proof.
  intros []. unfold sanity. destruct (debug_assertions bp); [|done].
  rewrite sum_up_spec by (try done; lia). simpl. by rewrite ok_total0, Z.eqb_refl.
Qed.

(** The clock counts [w] nanoseconds of work, epoch included. *)
Definition counts g (w : Z) : Prop :=
  gt_ok g /\ starting_nanos g <= w /\ total g = Z.min u64_max w.

Lemma bump_total_spec g d :
  gt_ok (set_total g (LogicalTime.add_duration (total g) d)) ->
  bump_total bp g d = Done (set_total g (LogicalTime.add_duration (total g) d)).
Proof. intros H. unfold bump_total. by rewrite sanity_ok. Qed.

Lemma total_range g : gt_ok g -> starting_nanos g <= total g <= u64_max.
Proof.
  intros []. pose proof (work_nonneg _ _ ok_components0). lia.
Qed.

Lemma components_ok_insert tv inh t x :
  components_ok tv inh -> 0 <= default 0 (inh !! t) <= x -> x <= u64_max ->
  components_ok (<[t := x]> tv) inh.
Proof.
  intros Hc Hi Hx t' tm. rewrite lookup_insert. case_decide; [|apply Hc].
  intros [= <-]. subst. lia.
Qed.
Lemma components_ok_inherit tv inh t x :
  components_ok tv inh -> tv !! t = None -> components_ok tv (<[t := x]> inh).
Proof.
  intros Hc Ht t' tm Ht'. rewrite lookup_insert_ne by congruence. by apply Hc.
Qed.
Lemma components_ok_delete tv inh t :
  components_ok tv inh -> components_ok (delete t tv) (delete t inh).
Proof.
  intros Hc t' tm [Hne Ht']%lookup_delete_Some. rewrite lookup_delete_ne by done. by apply Hc.
Qed.

(** ** Each operation *)

Lemma update_known_spec g w t newtime inh old :
  counts g w -> time_vector g !! t = Some old ->
  starting_nanos g <= newtime <= u64_max -> old <= newtime - starting_nanos g ->
  exists g', update_global_time bp g t newtime inh = Done g'
    /\ counts g' (w + (newtime - starting_nanos g - old))
    /\ time_vector g' = <[t := newtime - starting_nanos g]> (time_vector g)
    /\ inherited_time g' = inherited_time g.
Proof.
  intros (Hg & Hw & Ht) Hold Hn Hle. pose proof Hg as [Hs He Hc Htot Hch].
  pose proof (total_range g Hg). pose proof (Hc _ _ Hold).
  unfold update_global_time. rewrite (proj2 (Z.ltb_ge newtime (starting_nanos g))) by lia.
  rewrite sub_exact by lia. simpl. rewrite Hold.
  rewrite (proj2 (Z.ltb_ge _ old)) by lia. rewrite sub_exact by lia. simpl.
  set (g1 := set_components _ _ _).
  assert (gt_ok (set_total g1 (LogicalTime.add_duration (total g1) (newtime - starting_nanos g - old)))).
  { split; simpl; try done.
    - apply components_ok_insert; [done|lia|lia].
    - rewrite (work_update _ _ t old) by done. rewrite add_duration_sat by lia. lia. }
  rewrite bump_total_spec by done. eexists. split_and!; [done| |done|done].
  split_and!; [done|simpl; lia|]. simpl. rewrite add_duration_sat by lia. lia.
Qed.

Lemma update_new_spec g w t newtime inh :
  counts g w -> time_vector g !! t = None ->
  starting_nanos g <= newtime <= u64_max -> 0 <= inh <= newtime - starting_nanos g ->
  exists g', update_global_time bp g t newtime inh = Done g'
    /\ counts g' (w + (newtime - starting_nanos g - inh))
    /\ time_vector g' = <[t := newtime - starting_nanos g]> (time_vector g)
    /\ inherited_time g' = <[t := inh]> (inherited_time g).
Proof.
  intros (Hg & Hw & Ht) Hnew Hn Hle. pose proof Hg as [Hs He Hc Htot Hch].
  pose proof (total_range g Hg).
  unfold update_global_time. rewrite (proj2 (Z.ltb_ge newtime (starting_nanos g))) by lia.
  rewrite sub_exact by lia. simpl. rewrite Hnew.
  rewrite (proj2 (Z.leb_le inh _)) by lia. simpl. rewrite sub_exact by lia. simpl.
  set (g1 := set_components _ _ _).
  assert (gt_ok (set_total g1 (LogicalTime.add_duration (total g1) (newtime - starting_nanos g - inh)))).
  { split; simpl; try done.
    - apply components_ok_insert; [by apply components_ok_inherit|rewrite lookup_insert_eq; simpl; lia|lia].
    - rewrite work_insert_fresh, lookup_insert_eq by done. simpl.
      rewrite (work_ext _ _ (inherited_time g)) by (intros t' Ht'; rewrite lookup_insert_ne; [done|];
        intros ->; rewrite Hnew in Ht'; by destruct Ht').
      rewrite add_duration_sat by lia. lia. }
  rewrite bump_total_spec by done. eexists. split_and!; [done| |done|done].
  split_and!; [done|simpl; lia|]. simpl. rewrite add_duration_sat by lia. lia.
Qed.

Lemma add_extra_time_spec g w d :
  counts g w -> 0 <= d ->
  exists g', add_extra_time bp g d = Done (as_nanos g', g') /\ counts g' (w + d)
    /\ time_vector g' = time_vector g /\ inherited_time g' = inherited_time g.
Proof.
  intros (Hg & Hw & Ht) Hd. pose proof Hg as [Hs He Hc Htot Hch].
  pose proof (total_range g Hg). pose proof (work_nonneg _ _ Hc).
  unfold add_extra_time. set (g1 := set_extra_time _ _).
  assert (gt_ok (set_total g1 (LogicalTime.add_duration (total g1) d))).
  { split; simpl; try done; rewrite ?add_duration_sat by lia; lia. }
  rewrite bump_total_spec by done. simpl.
  exists (set_total g1 (LogicalTime.add_duration (total g1) d)). split_and!; [done| |done|done].
  split_and!; [done|simpl; lia|]. simpl. rewrite add_duration_sat by lia. lia.
Qed.

Lemma retire_thread_spec g w t :
  counts g w ->
  exists g', retire_thread bp g t = Done g' /\ counts g' w /\ total g' = total g
    /\ time_vector g' = delete t (time_vector g)
    /\ inherited_time g' = delete t (inherited_time g).
Proof.
  intros (Hg & Hw & Ht). pose proof Hg as [Hs He Hc Htot Hch].
  pose proof (work_nonneg _ _ (components_ok_delete _ _ t Hc)).
  assert (Hext : work (delete t (time_vector g)) (delete t (inherited_time g))
                 = work (delete t (time_vector g)) (inherited_time g)).
  { apply work_ext. intros t' [x [Hne _]%lookup_delete_Some]. by rewrite lookup_delete_ne. }
  unfold retire_thread, inherited_duration. destruct (time_vector g !! t) as [tm|] eqn:Etm.
  - pose proof (Hc _ _ Etm). rewrite sub_exact by lia. simpl.
    set (g2 := set_extra_time _ _).
    assert (gt_ok g2).
    { split; simpl; try done.
      - unfold LogicalTime.add, sat_add_u64. lia.
      - by apply components_ok_delete.
      - rewrite Hext, Htot, (work_delete _ _ t tm) by done.
        unfold LogicalTime.add, sat_add_u64. rewrite Hext in *. lia. }
    rewrite sanity_ok by done. simpl. eexists. by split_and!.
  - simpl. rewrite (delete_id (time_vector g)) in * by done.
    set (g2 := set_components _ _ _).
    assert (gt_ok g2).
    { split; simpl; try done.
      - intros t' tm' Ht'. rewrite lookup_delete_ne by congruence. by apply Hc.
      - by rewrite Hext. }
    rewrite sanity_ok by done. simpl. eexists. by split_and!.
Qed.

Lemma reassign_thread_spec g w from to tm :
  counts g w -> from <> to -> time_vector g !! from = Some tm ->
  exists g', reassign_thread bp g from to = Done g' /\ counts g' w /\ total g' = total g
    /\ time_vector g' = <[to := tm]> (delete from (delete to (time_vector g))).
Proof.
  intros Hcnt Hne Hf. unfold reassign_thread. rewrite (proj2 (Z.eqb_neq from to)) by done.
  destruct (retire_thread_spec g w to Hcnt) as (g1 & -> & (Hg & Hw & Ht) & Htot1 & Htv & Hinh).
  simpl. rewrite Htv, lookup_delete_ne, Hf by done. simpl.
  pose proof Hg as [Hs He Hc Htot Hch].
  assert (Hf1 : time_vector g1 !! from = Some tm) by (by rewrite Htv, lookup_delete_ne).
  pose proof (Hc _ _ Hf1).
  set (g2 := set_components _ _ _).
  assert (Hok : gt_ok g2).
  { split; simpl; try done.
    - apply components_ok_insert; [|rewrite lookup_insert_eq; simpl; unfold inherited_duration; lia|lia].
      apply components_ok_inherit; [rewrite <- Htv; by apply components_ok_delete|].
      by rewrite lookup_delete_ne, lookup_delete_eq.
    - rewrite Htot. rewrite (work_delete _ _ from tm Hf1).
      rewrite work_insert_fresh by (by rewrite lookup_delete_ne, lookup_delete_eq).
      rewrite lookup_insert_eq. simpl. rewrite Htv. unfold inherited_duration.
      rewrite (work_ext _ (<[to := _]> _) (inherited_time g1)); [done|].
      intros t' [x [Hne1 [Hne2 _]%lookup_delete_Some]%lookup_delete_Some].
      by rewrite lookup_insert_ne, lookup_delete_ne. }
  rewrite sanity_ok by done. simpl. eexists. by split_and!.
Qed.

Lemma turn_charge_range g cap : gt_ok g -> 0 <= turn_charge g cap <= u64_max.
Proof.
  intros Hg. unfold turn_charge. pose proof (ok_charge g Hg) as Hch.
  destruct (scheduler_turn_charge g) as [c|]; simpl.
  - specialize (Hch c eq_refl). lia.
  - pose proof (f64_to_u64_range (f64_mul NANOS_PER_SCHED (multiplier g))). lia.
Qed.

Lemma scheduler_time_spec g w cap :
  counts g w ->
  match scheduler_turn_charge g with
  | Some _ => total g + turn_charge g cap <= u64_max
  | None => True
  end ->
  exists g', add_capped_scheduler_time bp g cap = Done (inl (as_nanos g'), g')
    /\ counts g' (w + turn_charge g cap).
Proof.
  intros Hcnt Hfit. pose proof (turn_charge_range g cap (proj1 Hcnt)) as Hc.
  destruct (add_extra_time_spec g w (turn_charge g cap) Hcnt (proj1 Hc)) as (g' & E & Hcnt' & _).
  unfold add_capped_scheduler_time. rewrite E.
  pose proof (total_range g (proj1 Hcnt)). pose proof (ok_start g (proj1 Hcnt)).
  destruct (scheduler_turn_charge g); simpl; [|eauto].
  rewrite (bool_decide_true (is_Some (checked_u64 _))); [simpl; eauto|].
  exists (total g + turn_charge g cap). apply checked_u64_Some. split; [done|].
  unfold is_u64. lia.
Qed.
End Inv.
End ClockInv.

(** * Sequences of clock calls *)
Import GlobalTime ClockInv.

Inductive clock_call :=
  | KUpdate (t : DetTid) (newtime inherited : Z)
  | KExtra (delta : Z)
  | KTurn (cap : Z)
  | KReassign (from to : DetTid)
  | KRetire (t : DetTid).

Section Calls.
Context (bp : profile) {HO : HashOrder}.
Implicit Type g : GlobalTime.

Definition clock_exec (c : clock_call) g : outcome GlobalTime :=
  match c with
  | KUpdate t newtime inherited => update_global_time bp g t newtime inherited
  | KExtra delta => '(_, g') ← add_extra_time bp g delta; Done g'
  | KTurn cap => '(_, g') ← add_capped_scheduler_time bp g cap; Done g'
  | KReassign from to => reassign_thread bp g from to
  | KRetire t => retire_thread bp g t
  end.
Fixpoint clock_run (cs : list clock_call) g : outcome GlobalTime :=
  match cs with [] => Done g | c :: cs' => g' ← clock_exec c g; clock_run cs' g' end.

(** The callers' contract: thread clocks never go back, a new thread has
    lived at least its inheritance, only a known thread is reassigned. *)
Definition clock_call_ok (c : clock_call) g : Prop :=
  match c with
  | KUpdate t newtime inherited =>
      starting_nanos g <= newtime <= u64_max
      /\ match time_vector g !! t with
         | Some old => old <= newtime - starting_nanos g
         | None => 0 <= inherited <= newtime - starting_nanos g
         end
  | KExtra delta => 0 <= delta
  | KTurn _ => True
  | KReassign from to => from = to \/ is_Some (time_vector g !! from)
  | KRetire _ => True
  end.

(** The work a call reports: a thread's progress since its last report, or
    since its birth; an explicit advance; a scheduler turn unless refused. *)
Definition turn_refused g (cap : Z) : bool :=
  bool_decide (is_Some (scheduler_turn_charge g)) && (u64_max <? total g + turn_charge g cap).
Definition charged (c : clock_call) g : Z :=
  match c with
  | KUpdate t newtime inherited =>
      newtime - starting_nanos g - default inherited (time_vector g !! t)
  | KExtra delta => delta
  | KTurn cap => if turn_refused g cap then 0 else turn_charge g cap
  | KReassign _ _ | KRetire _ => 0
  end.
Fixpoint charged_run (cs : list clock_call) g : Z :=
  match cs with
  | [] => 0
  | c :: cs' => charged c g + match clock_exec c g with Done g' => charged_run cs' g' | Panic _ => 0 end
  end.
Fixpoint clock_calls_ok (cs : list clock_call) g : Prop :=
  match cs with
  | [] => True
  | c :: cs' => clock_call_ok c g /\ forall g', clock_exec c g = Done g' -> clock_calls_ok cs' g'
  end.

Lemma turn_refused_spec g cap :
  gt_ok g -> turn_refused g cap = true ->
  add_capped_scheduler_time bp g cap
    = Done (inr {| charge := turn_charge g cap; at_total := total g |}, g).
Proof.
  intros Hg. unfold turn_refused, add_capped_scheduler_time. intros [Hs Ht]%andb_prop.
  apply Z.ltb_lt in Ht. rewrite Hs, bool_decide_false; [done|].
  intros [x [_ Hx]%checked_u64_Some]. unfold is_u64 in Hx. lia.
Qed.
Lemma turn_accepted_spec g w cap :
  counts g w -> turn_refused g cap = false ->
  exists g', add_capped_scheduler_time bp g cap = Done (inl (as_nanos g'), g')
    /\ counts g' (w + turn_charge g cap).
Proof.
  intros Hc Hr. apply scheduler_time_spec; [done|]. unfold turn_refused in Hr.
  destruct (scheduler_turn_charge g); [|done].
  rewrite bool_decide_true in Hr by eauto. simpl in Hr. by apply Z.ltb_ge in Hr.
Qed.

Lemma clock_exec_spec c g w :
  counts g w -> clock_call_ok c g ->
  exists g', clock_exec c g = Done g' /\ counts g' (w + charged c g) /\ 0 <= charged c g.
Proof.
  intros Hcnt Hc. destruct c as [t newtime inherited|delta|cap|from to|t]; simpl in *.
  - destruct Hc as [Hn Ht]. destruct (time_vector g !! t) as [old|] eqn:Eo; simpl.
    + destruct (update_known_spec bp g w t newtime inherited old) as (g' & E & Hcnt' & _); [done..|].
      exists g'. split_and!; [done|done|lia].
    + destruct (update_new_spec bp g w t newtime inherited) as (g' & E & Hcnt' & _); [done..|].
      exists g'. split_and!; [done|done|lia].
  - destruct (add_extra_time_spec bp g w delta Hcnt Hc) as (g' & -> & Hcnt' & _). simpl. eauto.
  - destruct (turn_refused g cap) eqn:Er.
    + rewrite (turn_refused_spec g cap (proj1 Hcnt) Er). simpl. rewrite Z.add_0_r. eauto with lia.
    + destruct (turn_accepted_spec g w cap Hcnt Er) as (g' & -> & Hcnt'). simpl.
      exists g'. split_and!; [done|done|]. by apply (turn_charge_range g cap (proj1 Hcnt)).
  - rewrite Z.add_0_r. destruct (decide (from = to)) as [->|Hne].
    + exists g. unfold reassign_thread. rewrite Z.eqb_refl. eauto with lia.
    + destruct Hc as [?|[tm Hf]]; [done|].
      destruct (reassign_thread_spec bp g w from to tm) as (g' & -> & ? & _); [done..|]. eauto with lia.
  - rewrite Z.add_0_r. destruct (retire_thread_spec bp g w t Hcnt) as (g' & -> & ? & _). eauto with lia.
Qed.

Lemma clock_run_spec cs g w :
  counts g w -> clock_calls_ok cs g ->
  exists g', clock_run cs g = Done g' /\ counts g' (w + charged_run cs g).
Proof.
  revert g w. induction cs as [|c cs IH]; intros g w Hcnt Hc; simpl in *.
  - rewrite Z.add_0_r. eauto.
  - destruct Hc as [Hc Hcs]. destruct (clock_exec_spec c g w Hcnt Hc) as (g1 & E & Hcnt1 & _).
    rewrite E. simpl. destruct (IH g1 _ Hcnt1 (Hcs _ E)) as (g' & -> & Hcnt').
    exists g'. split; [done|]. by replace (w + (charged c g + charged_run cs g1))
      with (w + charged c g + charged_run cs g1) by lia.
Qed.

(** A fresh clock reads the epoch. *)
Lemma f64_zero_times x m : x = f64_of_Z 0 -> f64_to_u64 (f64_mul x m) = 0.
Proof. intros ->. by destruct m as [[]|[]| |[] ? ?]. Qed.

Lemma new_counts cfg micros :
  micros_from_utc bp (epoch_timestamp cfg) (epoch_subsec_micros cfg) = Done micros ->
  0 <= micros -> micros * 1000 <= u64_max ->
  (scheduler_turn_cost cfg = None \/ is_Some (scheduler_turn_charge_cfg cfg)) ->
  exists g, new bp cfg = Done g /\ counts g (micros * 1000) /\ starting_nanos g = micros * 1000
    /\ time_vector g = ∅.
Proof.
  intros Hm Hm0 Hmax Hcost. unfold new, DetTime.new. rewrite Hm. simpl.
  assert (Hfits : forall x, x = micros * 1000 -> arith_u bp 64 x = Done (micros * 1000)).
  { intros ? ->. apply arith_u_exact. unfold u64_max in *. lia. }
  set (base := match clock_multiplier cfg with Some _ => _ | None => _ end).
  assert (Hb : DetTime.as_nanos bp base = Done (micros * 1000)).
  { unfold base, DetTime.as_nanos, DetTime.rcb_nanos.
    destruct (clock_multiplier cfg); simpl;
      do 5 (rewrite Hfits by (rewrite ?f64_zero_times by (by vm_compute); lia); simpl); done. }
  unfold LogicalTime.from_micros, NANOS_PER_MICRO. rewrite Hfits by done. simpl. rewrite Hb. simpl.
  assert (Hch : exists c, match scheduler_turn_cost cfg with
      | Some _ => match scheduler_turn_charge_cfg cfg with Some c => Done (Some c) | None => Panic PExplicit end
      | None => Done None end = Done c /\ forall x, c = Some x -> 0 <= x <= u64_max).
  { destruct (scheduler_turn_cost cfg) as [cost|] eqn:Ec; [|by exists None].
    destruct Hcost as [?|[c Hc]]; [done|]. rewrite Hc. exists (Some c). split; [done|].
    intros x [= <-]. revert Hc. unfold scheduler_turn_charge_cfg. rewrite Ec.
    cbn zeta. destruct (MAX_SCHEDULER_TURN_COST <? cost); [done|].
    destruct (f64_leb _ _ && f64_leb _ _); simpl; [|done].
    intros [= <-]. apply f64_to_u64_range. }
  destruct Hch as (c & -> & Hcr). simpl. eexists. split_and!; [done| |done|done].
  split_and!; simpl; [|lia|unfold u64_max in *; lia].
  split; simpl; [lia|unfold u64_max; lia|intros t tm; by rewrite lookup_empty| |done].
  unfold work. rewrite map_to_list_empty. simpl. lia.
Qed.

(** * The properties *)

(** C14: the aggregate clock refines a plain counter: from a fresh clock, any
    sequence of thread reports, advances, scheduler turns, reassignments and
    retirements within the callers' contract runs without a panic, whatever
    order the hash maps are visited in, and the clock then reads the epoch plus
    exactly the work reported, saturated at the end of representable time. *)
Theorem global_time_refines_counter cfg micros cs :
  micros_from_utc bp (epoch_timestamp cfg) (epoch_subsec_micros cfg) = Done micros ->
  0 <= micros -> micros * 1000 <= u64_max ->
  (scheduler_turn_cost cfg = None \/ is_Some (scheduler_turn_charge_cfg cfg)) ->
  exists g0, new bp cfg = Done g0 /\
    (clock_calls_ok cs g0 ->
     exists g, clock_run cs g0 = Done g
       /\ as_nanos g = Z.min u64_max (micros * 1000 + charged_run cs g0)).
Proof.
  intros. destruct (new_counts cfg micros) as (g0 & E & Hcnt & _); [done..|].
  exists g0. split; [done|]. intros Hc.
  destruct (clock_run_spec cs g0 _ Hcnt Hc) as (g & Er & _ & _ & Ht). eauto.
Qed.

(** on any clock in its invariant a call within its contract passes the
    code's own consistency check ([sanity]: cached total = recomputed sum, also
    after saturation), keeps the invariant and never moves the clock back. *)
Theorem global_time_call_monotone c g w :
  counts g w -> clock_call_ok c g ->
  exists g', clock_exec c g = Done g' /\ counts g' (w + charged c g)
    /\ sanity bp g' = Done tt /\ as_nanos g <= as_nanos g'.
Proof.
  intros Hcnt Hc. destruct (clock_exec_spec c g w Hcnt Hc) as (g' & E & Hcnt' & Hpos).
  exists g'. split_and!; [done|done|apply sanity_ok, Hcnt'|].
  destruct Hcnt as (_ & _ & Ht), Hcnt' as (_ & _ & Ht'). unfold as_nanos. lia.
Qed.

(** a configured scheduler turn that would pass the end of representable
    time is refused and changes nothing; every other turn advances the clock
    by exactly its charge, which the cap bounds. *)
Theorem scheduler_turn_charged g w cap :
  counts g w -> 0 <= cap ->
  if turn_refused g cap then
    add_capped_scheduler_time bp g cap
      = Done (inr {| charge := turn_charge g cap; at_total := as_nanos g |}, g)
  else
    exists g', add_capped_scheduler_time bp g cap = Done (inl (as_nanos g'), g')
      /\ as_nanos g' = Z.min u64_max (as_nanos g + turn_charge g cap)
      /\ turn_charge g cap <= Z.max cap 1
      /\ (is_Some (scheduler_turn_charge g) -> as_nanos g' = as_nanos g + turn_charge g cap).
Proof.
  intros Hcnt Hcap. destruct (turn_refused g cap) eqn:Er.
  { by apply turn_refused_spec; [apply Hcnt|]. }
  pose proof (turn_charge_range g cap (proj1 Hcnt)) as Hc.
  destruct (turn_accepted_spec g w cap Hcnt Er) as (g' & E & _ & _ & Ht').
  destruct Hcnt as (_ & _ & Ht). unfold as_nanos in *.
  exists g'. split_and!; [done|lia|unfold turn_charge; lia|].
  intros Hs. unfold turn_refused in Er. rewrite bool_decide_true in Er by done. simpl in Er.
  apply Z.ltb_ge in Er. lia.
Qed.

(** the first report of a forked thread adds nothing: its clock is a copy
    of its parent's and all of it is inherited, so publishing it leaves the
    aggregate where it was, whatever the parent has done. *)
Theorem forked_child_costs_nothing g w d n c t :
  counts g w -> DetTime.as_nanos validate d = Done n ->
  0 <= DetTime.extra_nanos d -> starting_nanos g = DetTime.starting_micros d * 1000 ->
  DetTime.clone_for_child validate d = Done c -> time_vector g !! t = None ->
  DetTime.as_nanos validate c = Done n
  /\ exists g', update_global_time bp g t n (DetTime.inherited_nanos c) = Done g'
    /\ as_nanos g' = as_nanos g /\ threads_time g' t = Done n
    /\ threads_inherited_time g' t = n.
Proof.
  intros Hcnt Hn Hx Hs Hc Ht.
  unfold DetTime.clone_for_child, DetTime.without_starting in Hc. rewrite Hn in Hc. simpl in Hc.
  destruct (arith_u validate 64 (DetTime.starting_micros d * 1000)) as [st|] eqn:Es; [|done].
  apply arith_u_validate in Es as [-> Es]. simpl in Hc.
  destruct (arith_u validate 64 (n - DetTime.starting_micros d * 1000)) as [inh|] eqn:Ei; [|done].
  apply arith_u_validate in Ei as [-> Ei]. injection Hc as <-.
  assert (Hn64 : 0 <= n < 2 ^ 64).
  { apply as_nanos_validate in Hn as [_ Hn]. unfold u64_max in Hn. lia. }
  split; [done|]. rewrite <- Hs in *. simpl.
  destruct (update_new_spec bp g w t n (n - starting_nanos g)) as (g' & E & Hcnt' & Htv & Hinh);
    [done|done|unfold u64_max; lia|lia|].
  exists g'. destruct Hcnt as (Hok & _ & Htot), Hcnt' as (Hok' & _ & Htot').
  assert (Hst : starting_nanos g' = starting_nanos g).
  { revert E. unfold update_global_time. rewrite Ht. rewrite (proj2 (Z.ltb_ge _ _)) by lia.
    rewrite sub_exact by (unfold u64_max; lia). simpl. destruct (assert_ _); [simpl|done].
    rewrite sub_exact by (unfold u64_max; lia). simpl. unfold bump_total.
    destruct (sanity _ _); [|done]. by intros [= <-]. }
  unfold as_nanos, threads_time, threads_duration, threads_inherited_time, inherited_duration.
  rewrite Htv, Hinh, !lookup_insert_eq, Hst. simpl. unfold LogicalTime.add, sat_add_u64.
  split_and!; [done|lia|f_equal|]; unfold u64_max; lia.
Qed.
End Calls.

(** Checked and wrapping sums of non-negative numbers compose. *)
Lemma arith_u_checked bp w x :
  overflow_checks bp = true -> 0 <= x ->
  arith_u bp w x = if x <? 2 ^ w then Done x else Panic POverflow.
Proof. intros Hc Hx. unfold arith_u. by rewrite (proj2 (Z.leb_le 0 x)), Hc by lia. Qed.
Lemma arith_u_wrapping bp w x :
  overflow_checks bp = false -> 0 <= w -> arith_u bp w x = Done (x mod 2 ^ w).
Proof.
  intros Hc Hw. unfold arith_u, wrap_u. rewrite Hc.
  destruct (Z.leb_spec 0 x), (Z.ltb_spec x (2 ^ w)); simpl; try done. by rewrite Z.mod_small by lia.
Qed.

(** branch progress priced by a per-thread multiplier does not depend on
    how the backend batches it: one report of [a + b] branches leaves the same
    clock as a report of [a] followed by one of [b], and it fails on overflow
    exactly when the two reports do. *)
Theorem weighted_rcbs_batching bp d a b factor :
  0 <= a -> 0 <= b -> 0 <= factor -> 0 <= DetTime.rcbs d ->
  (forall w, DetTime.weighted_rcbs d = Some w -> 0 <= w) ->
  (d1 ← DetTime.add_rcbs_with_multiplier bp d a factor; DetTime.add_rcbs_with_multiplier bp d1 b factor)
  = DetTime.add_rcbs_with_multiplier bp d (a + b) factor.
Proof.
  intros Ha Hb Hf Hr Hw. unfold DetTime.add_rcbs_with_multiplier.
  set (w0 := default (DetTime.rcbs d * RCB_TIME_MULTIPLIER_SCALE) (DetTime.weighted_rcbs d)).
  assert (Hw0 : 0 <= w0).
  { unfold w0. destruct (DetTime.weighted_rcbs d) as [w|]; simpl; [by apply Hw|].
    unfold RCB_TIME_MULTIPLIER_SCALE. change (Z.shiftl 1 32) with 4294967296. lia. }
  assert (0 <= a * factor /\ 0 <= b * factor) as [? ?] by nia.
  rewrite Z.mul_add_distr_r, !Z.add_assoc.
  destruct (overflow_checks bp) eqn:Hc.
  - rewrite !(arith_u_checked bp) by (done || lia).
    destruct (Z.ltb_spec (w0 + a * factor) (2 ^ 128)); simpl;
      [|by rewrite (proj2 (Z.ltb_ge (w0 + a * factor + b * factor) (2 ^ 128))) by lia].
    destruct (Z.ltb_spec (DetTime.rcbs d + a) (2 ^ 64)); simpl.
    + by rewrite !(arith_u_checked bp) by (done || lia).
    + rewrite (proj2 (Z.ltb_ge (DetTime.rcbs d + a + b) (2 ^ 64))) by lia. by case_match.
  - rewrite !(arith_u_wrapping bp) by (done || lia). simpl.
    rewrite !(arith_u_wrapping bp) by (done || lia). simpl.
    by rewrite !Zplus_mod_idemp_l.
Qed.

(** advancing a thread clock to a deadline makes it read exactly that
    deadline. *)
Theorem advance_to_exact bp d n deadline :
  DetTime.as_nanos validate d = Done n -> 0 <= DetTime.extra_nanos d ->
  0 <= DetTime.starting_micros d -> n <= deadline <= u64_max ->
  exists d', DetTime.advance_to bp d deadline = Done d' /\ DetTime.as_nanos bp d' = Done deadline.
Proof.
  intros Hn Hx Hst Hd. apply as_nanos_validate in Hn as [-> Hn].
  unfold DetTime.advance_to. rewrite as_nanos_exact by (done || lia). simpl.
  rewrite (proj2 (Z.leb_le (clock_sum d) deadline)) by lia. simpl. rewrite sub_exact by lia. simpl.
  assert (Hxs : DetTime.extra_nanos d <= clock_sum d).
  { unfold clock_sum, priced.
    repeat match goal with |- context [f64_to_u64 ?x] => pose proof (f64_to_u64_range x); generalize dependent (f64_to_u64 x); intros end.
    lia. }
  rewrite arith_u_exact by (unfold u64_max in *; lia). simpl. eexists. split; [done|].
  set (d' := DetTime.set_extra _ _).
  assert (Hs : clock_sum d' = deadline) by (unfold d', clock_sum, DetTime.rcb_nanos, DetTime.uniform_syscall_nanos; simpl; lia).
  rewrite as_nanos_exact; [by rewrite Hs|done|simpl; lia|lia].
Qed.

(** a time printed as seconds and nanoseconds, or as seconds and
    microseconds, loses nothing above the unit: the parts are in range and
    determine the time. *)
Theorem timespec_parts t :
  0 <= t <= u64_max ->
  let '(s, n) := LogicalTime.to_timespec t in
  let '(s', u) := LogicalTime.to_timeval t in
  t = s * NANOS_PER_SEC + n /\ 0 <= n < NANOS_PER_SEC
  /\ s' = s /\ 0 <= u < MICROS_PER_SEC /\ u = n / NANOS_PER_MICRO.
Proof.
  intros Ht. unfold LogicalTime.to_timespec, LogicalTime.to_timeval, LogicalTime.as_secs,
    LogicalTime.subsec_nanos, LogicalTime.subsec_micros, wrap_i, wrap_u,
    NANOS_PER_SEC, NANOS_PER_MICRO, MICROS_PER_SEC, u64_max in *.
  assert (0 <= t / 1000000000 < 2 ^ 35) by (split; [apply Z.div_pos|apply Z.div_lt_upper_bound]; lia).
  pose proof (Z.mod_pos_bound t 1000000000). pose proof (Z.mod_pos_bound (t / 1000) 1000000).
  pose proof (Z.div_mod t 1000000000).
  rewrite !(Z.mod_small _ (2 ^ 32)) by lia.
  rewrite (Z.mod_small _ (2 ^ 64)) by (change (2 ^ (64 - 1)) with (2 ^ 63); lia).
  split_and!; try lia. change 1000000000 with (1000 * 1000000).
  rewrite Z.rem_mul_r by lia. rewrite Z.add_comm, (Z.mul_comm 1000), Z.div_add_l by lia.
  rewrite (Z.div_small (t mod 1000)) by (apply Z.mod_pos_bound; lia). lia.
Qed.

(** * Concrete clocks *)

Definition visit_order : HashOrder.
Proof. refine {| hash_order := fun V m => map_to_list m |}. by intros. Defined.
#[local] Existing Instance visit_order.

(** The default configuration of the clocks: epoch 2022-01-01, a configured
    turn cost of ten microseconds. *)
Definition example_config : ClockConfig := {|
  epoch_timestamp := 1640995199; epoch_subsec_micros := 0;
  sequentialize_threads := true; max_timeslice := Some 200000000; no_rcb_time := false;
  clock_multiplier := None; scheduler_turn_cost := Some 10000 |}.
Definition example_start : Z := 1640995199000000000.
Definition example_clock : GlobalTime :=
  match new validate example_config with Done g => g | Panic _ => GT 0 ∅ ∅ 0 0 (f64_of_Z 1) None end.
Definition example_run : list clock_call :=
  [KUpdate 3 (example_start + 700) 0; KTurn u64_max; KUpdate 5 (example_start + 700) 700;
   KUpdate 5 (example_start + 900) 700; KRetire 3; KReassign 5 3].

Lemma example_counts : counts example_clock example_start.
Proof.
  destruct (new_counts validate example_config 1640995199000000) as (g & E & Hc & _);
    [by vm_compute|lia|unfold u64_max; lia|right; vm_compute; eauto|].
  unfold example_clock. by rewrite E.
Qed.

Lemma example_run_ok : clock_calls_ok validate example_run example_clock.
Proof.
  repeat (split; [vm_compute; first [done|by split|by split; split|by right; eexists|idtac]|];
    intros ? E; vm_compute in E; injection E as <-).
  done.
Qed.

Lemma global_time_refines_counter_witness :
  exists g, clock_run validate example_run example_clock = Done g
    /\ as_nanos g = example_start + 700 + 10000 + 200.
Proof.
  destruct (global_time_refines_counter validate example_config 1640995199000000 example_run)
    as (g0 & E & Hrun); [by vm_compute|lia|unfold u64_max; lia|right; vm_compute; eauto|].
  assert (g0 = example_clock) as -> by (unfold example_clock; by rewrite E).
  destruct (Hrun example_run_ok) as (g & Eg & Hg). exists g. split; [done|].
  rewrite Hg. by vm_compute.
Defined.

Lemma global_time_call_monotone_witness :
  exists g', clock_exec validate (KUpdate 3 (example_start + 700) 0) example_clock = Done g'
    /\ counts g' (example_start + 700) /\ sanity validate g' = Done tt
    /\ as_nanos example_clock <= as_nanos g'.
Proof.
  apply (global_time_call_monotone validate (KUpdate 3 (example_start + 700) 0) example_clock example_start);
    [apply example_counts|vm_compute; by split; split].
Defined.

(** A clock one microsecond before the end of representable time refuses the
    ten-microsecond turn and still accepts a capped one. *)
Definition late_clock : GlobalTime :=
  match add_extra_time validate example_clock (u64_max - 1000 - example_start) with
  | Done (_, g) => g | Panic _ => example_clock end.
Lemma late_counts : counts late_clock (u64_max - 1000).
Proof.
  destruct (add_extra_time_spec validate example_clock example_start (u64_max - 1000 - example_start))
    as (g & E & Hc & _); [apply example_counts|by vm_compute|].
  unfold late_clock. rewrite E.
  replace (u64_max - 1000) with (example_start + (u64_max - 1000 - example_start)) by lia. done.
Qed.

Lemma scheduler_turn_charged_witness :
  add_capped_scheduler_time validate late_clock u64_max
    = Done (inr {| charge := 10000; at_total := u64_max - 1000 |}, late_clock)
  /\ exists g', add_capped_scheduler_time validate late_clock 600 = Done (inl (as_nanos g'), g')
       /\ as_nanos g' = u64_max - 400.
Proof.
  assert (turn_refused late_clock u64_max = true /\ turn_refused late_clock 600 = false) as [H1 H2]
    by (by vm_compute).
  assert (turn_charge late_clock u64_max = 10000 /\ turn_charge late_clock 600 = 600
    /\ as_nanos late_clock = u64_max - 1000) as (H3 & H4 & H5)
    by (split_and!; vm_compute; reflexivity).
  pose proof (scheduler_turn_charged validate late_clock _ u64_max late_counts ltac:(by vm_compute)) as Hr.
  pose proof (scheduler_turn_charged validate late_clock _ 600 late_counts ltac:(lia)) as Ha.
  rewrite H1, H3, H5 in Hr. rewrite H2, H4, H5 in Ha. destruct Ha as (g' & E & Hg & _).
  split; [exact Hr|]. exists g'. split; [exact E|]. rewrite Hg. reflexivity.
Defined.

Definition example_thread : DetTime.DetTime :=
  DetTime.DT 3 (Some 30000) 250 None 2 0 1640995199000000 (f64_of_Z 1) 0.

Lemma forked_child_costs_nothing_witness :
  exists g', update_global_time validate example_clock 9 (example_start + 32550) 32550 = Done g'
    /\ as_nanos g' = as_nanos example_clock.
Proof.
  destruct (forked_child_costs_nothing validate example_clock example_start example_thread
    (example_start + 32550) (DetTime.set_inherited example_thread 32550) 9) as (_ & g' & E & Ht & _);
    [apply example_counts|by vm_compute|by vm_compute|by vm_compute|by vm_compute|by vm_compute|].
  cbn [DetTime.inherited_nanos DetTime.set_inherited] in E.
  exists g'. split; [exact E|exact Ht].
Defined.

Lemma weighted_rcbs_batching_witness :
  (d1 ← DetTime.add_rcbs_with_multiplier validate example_thread 4 10737418240;
   DetTime.add_rcbs_with_multiplier validate d1 6 10737418240)
  = DetTime.add_rcbs_with_multiplier validate example_thread (4 + 6) 10737418240.
Proof. apply (weighted_rcbs_batching validate example_thread 4 6 10737418240); done. Defined.

Lemma advance_to_exact_witness :
  exists d', DetTime.advance_to validate example_thread (example_start + 99999) = Done d'
    /\ DetTime.as_nanos validate d' = Done (example_start + 99999).
Proof.
  apply (advance_to_exact validate example_thread (example_start + 32550)); by vm_compute.
Defined.

Lemma timespec_parts_witness :
  let '(s, n) := LogicalTime.to_timespec 2345678901 in
  let '(s', u) := LogicalTime.to_timeval 2345678901 in
  2345678901 = s * NANOS_PER_SEC + n /\ 0 <= n < NANOS_PER_SEC
  /\ s' = s /\ 0 <= u < MICROS_PER_SEC /\ u = n / NANOS_PER_MICRO.
Proof. apply (timespec_parts 2345678901). by vm_compute. Defined.
