(* ===== verification/TimedEvents.v ===== *)
(** Timed waiters and signal timers, detcore/src/scheduler/timed_waiters.rs.

    [TimedEvents] keeps the pending events by deadline (a [BTreeMap] of
    [BTreeSet]s), the armed signal timers and the deadlines of controlled real
    timers.  A [BTreeSet] is a [BTreeMap] to the unit type.  [Signal] (nix) is
    its number, by which its derived order compares. *)
From Stdlib Require Import ZArith Lia List.
From stdpp Require Import base gmap list.
From S2P Require Import Prelude BTree Time.

(** * The grid of a periodic timer *)

(** [NonZeroU64] is a positive [u64]. *)
Definition checked_grid_after (last interval t : Z) : option Z :=
  k ← checked_u64 (sat_sub_u64 t last / interval + 1);
  step ← checked_u64 (k * interval);
  checked_u64 (last + step).
Definition grid_after (last interval t : Z) : Z :=
  let interval := if interval =? 0 then 1 else interval in
  default u64_max (checked_grid_after last interval t).

(** * Events *)

Abbreviation Signal := Z.
Definition SIGALRM : Signal := 14.
Definition SIGCHLD : Signal := 17.

Inductive SignalTimerId :=
  | Alarm (pid : DetPid)
  | Posix (pid : DetPid) (timer : Z)
  | ChildExit (child parent : DetPid).
Inductive AlarmPhase := Active | Inactive (copy : bool).
Inductive TimerSignal := Send (sig : Signal) | RefuseRealTime (signo : Z).
Inductive SignalTarget := Process (t : DetTid) | Thread (t : DetTid).
Inductive TimedEvent :=
  | SignalEvt (id : SignalTimerId) (target : SignalTarget) (sig : TimerSignal)
  | ThreadEvt (t : DetTid).

#[export] Instance SignalTimerId_eqdec : EqDecision SignalTimerId.
Proof. solve_decision. Defined.
#[export] Instance AlarmPhase_eqdec : EqDecision AlarmPhase.
Proof. solve_decision. Defined.
#[export] Instance TimerSignal_eqdec : EqDecision TimerSignal.
Proof. solve_decision. Defined.
#[export] Instance SignalTarget_eqdec : EqDecision SignalTarget.
Proof. solve_decision. Defined.
#[export] Instance TimedEvent_eqdec : EqDecision TimedEvent.
Proof. solve_decision. Defined.

Definition id_process (id : SignalTimerId) : DetPid :=
  match id with Alarm p | Posix p _ => p | ChildExit _ parent => parent end.
Definition target_tid (t : SignalTarget) : DetTid := match t with Process t | Thread t => t end.

(** The derived [Ord] of the enums: the variant, then its fields in order. *)
Definition id_key (id : SignalTimerId) : Z * (Z * Z) :=
  match id with
  | Alarm p => (0, (p, 0)) | Posix p i => (1, (p, i)) | ChildExit c p => (2, (c, p))
  end.
Definition target_key (t : SignalTarget) : Z * Z :=
  match t with Process t => (0, t) | Thread t => (1, t) end.
Definition sig_key (s : TimerSignal) : Z * Z :=
  match s with Send n => (0, n) | RefuseRealTime n => (1, n) end.
Definition event_key (e : TimedEvent) : Z * ((Z * (Z * Z)) * ((Z * Z) * (Z * Z))) :=
  match e with
  | SignalEvt id target sig => (0, (id_key id, (target_key target, sig_key sig)))
  | ThreadEvt t => (1, ((0, (t, 0)), ((0, 0), (0, 0))))
  end.
#[export] Instance SignalTimerId_ord : OrdKey SignalTimerId := fun a b => kcmp (id_key a) (id_key b).
#[export] Instance TimedEvent_ord : OrdKey TimedEvent := fun a b => kcmp (event_key a) (event_key b).

Lemma id_key_inj a b : id_key a = id_key b -> a = b.
Proof. destruct a, b; simpl; congruence. Qed.
Lemma event_key_inj a b : event_key a = event_key b -> a = b.
Proof.
  destruct a as [i1 t1 s1|t1], b as [i2 t2 s2|t2]; simpl; try congruence.
  intros [= Hi Ht Hs]. f_equal; [by apply id_key_inj|destruct t1, t2; simpl in *; congruence|
    destruct s1, s2; simpl in *; congruence].
Qed.
#[export] Instance SignalTimerId_laws : OrdKeyLaws SignalTimerId.
Proof. by eapply (ord_by_laws id_key); [apply id_key_inj|]. Qed.
#[export] Instance TimedEvent_laws : OrdKeyLaws TimedEvent.
Proof. by eapply (ord_by_laws event_key); [apply event_key_inj|]. Qed.

(** * The collection *)

Record SignalTimerState := STS {
  deadline : Z;
  interval : Z;
  phase : AlarmPhase;
  target : SignalTarget;
  sig : TimerSignal;
}.

Abbreviation event_set := (list (TimedEvent * ())).
Abbreviation event_map := (list (Z * event_set)).

Record TimedEvents := TE {
  map : event_map;
  signal_timers : list (SignalTimerId * SignalTimerState);
  controlled_real_timer_deadlines : list (DetPid * Z);
}.
Definition no_events : TimedEvents := TE [] [] [].
Definition set_map (m : event_map) (s : TimedEvents) : TimedEvents :=
  TE m (signal_timers s) (controlled_real_timer_deadlines s).
Definition set_signal_timers (ts : list (SignalTimerId * SignalTimerState)) (s : TimedEvents) : TimedEvents :=
  TE (map s) ts (controlled_real_timer_deadlines s).
Definition set_controlled (c : list (DetPid * Z)) (s : TimedEvents) : TimedEvents :=
  TE (map s) (signal_timers s) c.

(** [map.entry(ns).or_default().insert(evt)] *)
Definition entry_insert (ns : Z) (evt : TimedEvent) (m : event_map) : bool * event_map :=
  let set := default [] (bt_get ns m) in
  (negb (bt_mem evt set), bt_insert ns (bt_insert evt tt set) m).
Definition add_event (ns : Z) (evt : TimedEvent) (s : TimedEvents) : TimedEvents :=
  set_map (entry_insert ns evt (map s)).2 s.

(** The scan of [clear_old_signal_timer] for the event of a timer. *)
Definition is_event_of (id : SignalTimerId) (evt : TimedEvent) : bool :=
  match evt with SignalEvt evt_id _ _ => bool_decide (evt_id = id) | ThreadEvt _ => false end.
Fixpoint find_event_of (id : SignalTimerId) (evts : list TimedEvent) (to_remove : option TimedEvent)
    : outcome (option TimedEvent) :=
  match evts with
  | [] => Done to_remove
  | evt :: evts' =>
      if is_event_of id evt then
        _ ← assert_ (bool_decide (to_remove = None));
        find_event_of id evts' (Some evt)
      else find_event_of id evts' to_remove
  end.

Section Operations.
Implicit Type s : TimedEvents.

Definition insert s (ns : Z) (dt : DetTid) : outcome TimedEvents :=
  let '(fresh, m) := entry_insert ns (ThreadEvt dt) (map s) in
  if fresh then Done (set_map m s) else Panic PExplicit.

Definition clear_old_signal_timer s (id : SignalTimerId) (old : option SignalTimerState)
    : outcome TimedEvents :=
  match old with
  | Some state =>
      if bool_decide (phase state = Active) then
        match bt_get (deadline state) (map s) with
        | None => Done s
        | Some set =>
            to_remove ← find_event_of id (set.*1) None;
            set' ← match to_remove with
                   | Some evt => _ ← assert_ (bt_mem evt set); Done (bt_remove evt set)
                   | None => Done set
                   end;
            Done (match set' with
                  | [] => set_map (bt_remove (deadline state) (map s)) s
                  | _ => set_map (bt_insert (deadline state) set' (map s)) s
                  end)
        end
      else Done s
  | None => Done s
  end.

Definition insert_signal_timer s (id : SignalTimerId) (ns : Z) (tgt : SignalTarget)
    (sg : TimerSignal) (iv : Z) : outcome (option SignalTimerState * TimedEvents) :=
  let old := bt_get id (signal_timers s) in
  let s1 := set_signal_timers (bt_insert id (STS ns iv Active tgt sg) (signal_timers s)) s in
  s2 ← clear_old_signal_timer s1 id old;
  let '(fresh, m) := entry_insert ns (SignalEvt id tgt sg) (map s2) in
  if fresh then Done (old, set_map m s2) else Panic PExplicit.

Definition times_of (o : option SignalTimerState) : option (Z * Z) :=
  (fun st => (deadline st, interval st)) <$> o.

Definition insert_alarm s (ns : Z) (dp : DetPid) (dt : DetTid) (sg : Signal) (iv : Z)
    : outcome (option (Z * Z) * TimedEvents) :=
  '(old, s') ← insert_signal_timer s (Alarm dp) ns (Process dt) (Send sg) iv;
  Done (times_of old, s').

Definition remove_controlled_real_timer_deadline s (pid : DetPid) : outcome TimedEvents :=
  let old := (fun d => STS d 0 Active (Process pid) (Send SIGALRM)) <$>
               bt_get pid (controlled_real_timer_deadlines s) in
  clear_old_signal_timer
    (set_controlled (bt_remove pid (controlled_real_timer_deadlines s)) s) (Alarm pid) old.

Definition insert_controlled_real_timer_deadline s (dl : Z) (pid : DetPid) : outcome TimedEvents :=
  _ ← assert_ (negb (bt_mem (Alarm pid) (signal_timers s)));
  s1 ← remove_controlled_real_timer_deadline s pid;
  let s2 := set_controlled (bt_insert pid dl (controlled_real_timer_deadlines s1)) s1 in
  Done (add_event dl (SignalEvt (Alarm pid) (Process pid) (Send SIGALRM)) s2).

Definition alarm_state s (pid : DetPid) : option (Z * Z) :=
  times_of (bt_get (Alarm pid) (signal_timers s)).
Definition thread_deadline s (t : DetTid) : option Z :=
  fst <$> List.find (fun dl : Z * event_set => bt_mem (ThreadEvt t) dl.2) (map s).

Definition remove_signal_timer s (id : SignalTimerId) : outcome (option SignalTimerState * TimedEvents) :=
  let old := bt_get id (signal_timers s) in
  s' ← clear_old_signal_timer (set_signal_timers (bt_remove id (signal_timers s)) s) id old;
  Done (old, s').
Definition remove_alarm s (dp : DetPid) : outcome (option (Z * Z) * TimedEvents) :=
  '(old, s') ← remove_signal_timer s (Alarm dp); Done (times_of old, s').

Definition insert_child_exit s (ns : Z) (child parent : DetPid) (parent_tid : DetTid) : TimedEvents :=
  add_event ns (SignalEvt (ChildExit child parent) (Process parent_tid) (Send SIGCHLD)) s.

Definition insert_posix_timer s (ns : Z) (dp : DetPid) (tgt : SignalTarget) (timer_id : Z)
    (sg : TimerSignal) (iv : Z) : outcome TimedEvents :=
  '(_, s') ← insert_signal_timer s (Posix dp timer_id) ns tgt sg iv; Done s'.
Definition remove_posix_timer s (dp : DetPid) (timer_id : Z) : outcome TimedEvents :=
  '(_, s') ← remove_signal_timer s (Posix dp timer_id); Done s'.

(** [for id in ids { self.remove_signal_timer(id); }] *)
Fixpoint remove_signal_timers s (ids : list SignalTimerId) : outcome TimedEvents :=
  match ids with
  | [] => Done s
  | id :: ids' => '(_, s') ← remove_signal_timer s id; remove_signal_timers s' ids'
  end.
Definition is_posix_of (dp : DetPid) (id : SignalTimerId) : bool :=
  match id with Posix pid _ => pid =? dp | _ => false end.
Definition remove_posix_timers s (dp : DetPid) : outcome TimedEvents :=
  remove_signal_timers s (List.filter (is_posix_of dp) ((signal_timers s).*1)).

Definition alarm_time s (dp : DetPid) : option Z :=
  st ← bt_get (Alarm dp) (signal_timers s);
  if bool_decide (phase st = Active) then Some (deadline st) else None.
Definition alarm_phase s (dp : DetPid) : option AlarmPhase :=
  phase <$> bt_get (Alarm dp) (signal_timers s).

Definition signal_timer_after_fire s (id : SignalTimerId) (fired_at : Z)
    (inactive_with_copy : option bool) (now : Z) : outcome TimedEvents :=
  match bt_get id (signal_timers s) with
  | None => Done s
  | Some state =>
      if negb (bool_decide (phase state = Active)) || (interval state =? 0)
         || negb (deadline state =? LogicalTime.add fired_at (interval state))
      then Done s
      else
        s1 ← clear_old_signal_timer s id (Some state);
        entry ← expect (bt_get id (signal_timers s1));
        match inactive_with_copy with
        | Some copy =>
            Done (set_signal_timers (bt_insert id
              (STS fired_at (interval entry) (Inactive copy) (target entry) (sig entry))
              (signal_timers s1)) s1)
        | None =>
            let next := grid_after fired_at (interval state) now in
            let s2 := set_signal_timers (bt_insert id
              (STS next (interval entry) (phase entry) (target entry) (sig entry))
              (signal_timers s1)) s1 in
            Done (add_event next (SignalEvt id (target state) (sig state)) s2)
        end
  end.
Definition alarm_after_fire s (dp : DetPid) (fired_at : Z) (inactive_with_copy : option bool) (now : Z)
    : outcome TimedEvents :=
  signal_timer_after_fire s (Alarm dp) fired_at inactive_with_copy now.

Definition signal_timer_rearm_after s (id : SignalTimerId) (t : Z) : option Z * TimedEvents :=
  match bt_get id (signal_timers s) with
  | Some state =>
      match phase state with
      | Inactive _ =>
          let next := grid_after (deadline state) (interval state) t in
          (Some next,
           add_event next (SignalEvt id (target state) (sig state))
             (set_signal_timers (bt_insert id
               (STS next (interval state) Active (target state) (sig state)) (signal_timers s)) s))
      | Active => (None, s)
      end
  | None => (None, s)
  end.
Definition alarm_rearm_after s (dp : DetPid) (t : Z) : option Z * TimedEvents :=
  signal_timer_rearm_after s (Alarm dp) t.

Definition signal_timer_state s (id : SignalTimerId) : option (Z * Z * AlarmPhase) :=
  (fun st => (deadline st, interval st, phase st)) <$> bt_get id (signal_timers s).
Definition is_inactive (st : SignalTimerState) : bool :=
  match phase st with Inactive _ => true | Active => false end.
Definition inactive_posix_timers s (dp : DetPid) (sg : Signal) : list SignalTimerId :=
  fst <$> List.filter (fun it : SignalTimerId * SignalTimerState =>
            is_posix_of dp it.1 && is_inactive it.2 && bool_decide (sig it.2 = Send sg)) (signal_timers s).
Definition inactive_alarm_processes s : list DetPid :=
  omap (fun it : SignalTimerId * SignalTimerState =>
          match it.1, phase it.2 with Alarm pid, Inactive _ => Some pid | _, _ => None end)
       (signal_timers s).
Definition alarm_set_copy s (dp : DetPid) (copy : bool) : TimedEvents :=
  match bt_get (Alarm dp) (signal_timers s) with
  | Some st =>
      if is_inactive st
      then set_signal_timers (bt_insert (Alarm dp)
             (STS (deadline st) (interval st) (Inactive copy) (target st) (sig st)) (signal_timers s)) s
      else s
  | None => s
  end.

Definition is_timer_of (dp : DetPid) (id : SignalTimerId) : bool :=
  match id with Alarm pid | Posix pid _ => pid =? dp | ChildExit _ _ => false end.
Definition remove_process_timers s (dp : DetPid) : outcome TimedEvents :=
  s1 ← remove_controlled_real_timer_deadline s dp;
  remove_signal_timers s1 (List.filter (is_timer_of dp) ((signal_timers s1).*1)).

Definition len s : nat := length (map s).

(** The first half of [pop_if_before]: taking the event off the map. *)
Definition take_first (current_time : Z) (m : event_map) : outcome (option (Z * TimedEvent * event_map)) :=
  match m with
  | (time_ns, set) :: m' =>
      if time_ns <=? current_time then
        '(evt, _) ← expect (head set);
        Done (Some (time_ns, evt, match tail set with [] => m' | set' => (time_ns, set') :: m' end))
      else Done None
  | [] => Done None
  end.
Definition pop_if_before s (current_time : Z) : outcome (option (Z * TimedEvent) * TimedEvents) :=
  r ← take_first current_time (map s);
  match r with
  | None => Done (None, s)
  | Some (time_ns, evt, m) =>
      let s1 := set_map m s in
      let controlled :=
        match evt with
        | SignalEvt (Alarm pid) _ _ =>
            if bool_decide (bt_get pid (controlled_real_timer_deadlines s1) = Some time_ns)
            then Some pid else None
        | _ => None
        end in
      match controlled with
      | Some pid =>
          Done (Some (time_ns, evt),
                set_controlled (bt_remove pid (controlled_real_timer_deadlines s1)) s1)
      | None =>
          Done (Some (time_ns, evt),
            match evt with
            | SignalEvt id _ _ =>
                match bt_get id (signal_timers s1) with
                | Some state =>
                    if deadline state =? time_ns then
                      if interval state =? 0
                      then set_signal_timers (bt_remove id (signal_timers s1)) s1
                      else
                        let next_deadline := LogicalTime.add time_ns (interval state) in
                        add_event next_deadline evt
                          (set_signal_timers (bt_insert id
                             (STS next_deadline (interval state) (phase state) (target state) (sig state))
                             (signal_timers s1)) s1)
                    else s1
                | None => s1
                end
            | ThreadEvt _ => s1
            end)
      end
  end.
Definition pop s : outcome (option (Z * TimedEvent) * TimedEvents) := pop_if_before s LogicalTime.MAX.

Definition signal_timer_period s (id : SignalTimerId) : option Z :=
  st ← bt_get id (signal_timers s);
  if negb (interval st =? 0) then Some (interval st) else None.
Definition next_deadline s : option Z := fst <$> head (map s).
Definition is_empty s : bool := match map s with [] => true | _ => false end.
Definition holds_nothing s : bool :=
  is_empty s && match signal_timers s with [] => true | _ => false end
  && match controlled_real_timer_deadlines s with [] => true | _ => false end.

(** The pass of [remove] over the map: the sets without the thread, and the
    last time whose set is now empty. *)
Fixpoint remove_thread_scan (t : DetTid) (m : event_map) (already_removed : bool) (to_remove : option Z)
    : outcome (event_map * option Z) :=
  match m with
  | [] => Done ([], to_remove)
  | (time_key, set) :: m' =>
      let removed := bt_mem (ThreadEvt t) set in
      if removed && already_removed then Panic PExplicit
      else
        let set' := bt_remove (ThreadEvt t) set in
        '(m1, to_remove') ← remove_thread_scan t m' (already_removed || removed)
          (match set' with [] => Some time_key | _ => to_remove end);
        Done ((time_key, set') :: m1, to_remove')
  end.
Definition remove s (t : DetTid) : outcome TimedEvents :=
  '(m, to_remove) ← remove_thread_scan t (map s) false None;
  Done (set_map (match to_remove with Some time => bt_remove time m | None => m end) s).

Definition iter s : list (Z * TimedEvent) :=
  mjoin ((fun dl : Z * event_set => (fun e => (dl.1, e)) <$> dl.2.*1) <$> map s).
End Operations.
