(* ===== verification/TimedEventsInv.v ===== *)
(** The invariant of [TimedEvents]: what is pending in the map is exactly what
    the timer tables say, and every operation keeps it. *)
From Stdlib Require Import ZArith Lia List.
From stdpp Require Import base gmap list.
From S2P Require Import Prelude BTree Time TimedEvents.

(** * The map of sets *)

(** The event is pending at the deadline. *)
Definition pending (m : event_map) (d : Z) (e : TimedEvent) : Prop :=
  exists set, bt_get d m = Some set /\ bt_get e set = Some tt.
Record map_ok (m : event_map) : Prop := {
  mo_sorted : bt_ok m;
  mo_sets : forall d set, bt_get d m = Some set -> bt_ok set /\ set <> [];
}.

Lemma map_ok_nil : map_ok [].
Proof. split; [apply bt_ok_nil|done]. Qed.
Lemma pending_nil d e : ~ pending [] d e.
Proof. by intros (? & ? & _). Qed.

Lemma set_get_or_default m d : map_ok m -> bt_ok (default [] (bt_get d m)).
Proof.
  intros Hm. destruct (bt_get d m) as [set|] eqn:E; simpl; [by eapply mo_sets|apply bt_ok_nil].
Qed.
Lemma pending_default m d e : pending m d e <-> bt_get e (default [] (bt_get d m)) = Some tt.
Proof.
  unfold pending. destruct (bt_get d m) as [set|]; simpl; [|split; [naive_solver|done]].
  naive_solver.
Qed.

Lemma bt_insert_ne_nil {K V} `{OrdKeyLaws K} (k : K) (v : V) m : bt_insert k v m <> [].
Proof. destruct m as [|[k' v'] m]; simpl; [done|]. by destruct (kcmp k k'). Qed.

Lemma entry_insert_ok m d e : map_ok m -> map_ok (entry_insert d e m).2.
Proof.
  intros Hm. pose proof (set_get_or_default m d Hm) as Hs. destruct Hm as [Hb Hsets]. simpl. split.
  - auto with bt.
  - intros d' set'. destruct (decide (d = d')) as [<-|Hne].
    + rewrite bt_get_insert_eq by done. intros [= <-]. split; [auto with bt|apply bt_insert_ne_nil].
    + rewrite bt_get_insert_ne by done. apply Hsets.
Qed.
Lemma entry_insert_pending m d e d' e' :
  map_ok m -> pending (entry_insert d e m).2 d' e' <-> pending m d' e' \/ (d' = d /\ e' = e).
Proof.
  intros Hm. pose proof (set_get_or_default m d Hm) as Hs. destruct Hm as [Hb Hsets].
  rewrite !pending_default. simpl. destruct (decide (d = d')) as [<-|Hne].
  - rewrite bt_get_insert_eq by done. simpl. destruct (decide (e = e')) as [<-|Hne].
    + rewrite bt_get_insert_eq by done. naive_solver.
    + rewrite bt_get_insert_ne by done. naive_solver.
  - rewrite bt_get_insert_ne by done. naive_solver.
Qed.
Lemma entry_insert_fresh m d e : map_ok m -> ~ pending m d e -> (entry_insert d e m).1 = true.
Proof.
  intros Hm Hp. rewrite pending_default in Hp. simpl. unfold bt_mem.
  destruct (bt_get e _) as [[]|]; [done|done].
Qed.

(** Taking one event out, with the set when it was the last. *)
Definition erase (d : Z) (e : TimedEvent) (m : event_map) : event_map :=
  match bt_get d m with
  | None => m
  | Some set => match bt_remove e set with [] => bt_remove d m | set' => bt_insert d set' m end
  end.
Lemma erase_spec m d e :
  map_ok m -> map_ok (erase d e m)
  /\ forall d' e', pending (erase d e m) d' e' <-> pending m d' e' /\ ~ (d' = d /\ e' = e).
Proof.
  intros [Hb Hs]. unfold erase. destruct (bt_get d m) as [set|] eqn:Ed.
  2:{ split; [by split|]. intros d' e'. split; [|naive_solver]. intros (set & Hg & He).
      split; [by exists set|]. intros [-> ->]. congruence. }
  destruct (Hs d set Ed) as [Hset Hne].
  assert (Hrm : forall e', bt_get e' (bt_remove e set) = Some tt <-> bt_get e' set = Some tt /\ e' <> e).
  { intros e'. destruct (decide (e = e')) as [<-|Hn].
    - rewrite bt_get_remove_eq by done. naive_solver.
    - rewrite bt_get_remove_ne by done. naive_solver. }
  destruct (bt_remove e set) as [|x set'] eqn:Er.
  - split.
    + split; [auto with bt|]. intros d' set'. destruct (decide (d = d')) as [<-|Hn].
      * by rewrite bt_get_remove_eq.
      * rewrite bt_get_remove_ne by done. apply Hs.
    + intros d' e'. unfold pending. destruct (decide (d = d')) as [<-|Hn].
      * rewrite bt_get_remove_eq by done. split; [naive_solver|].
        intros [(set1 & Hg & He) Hnot]. rewrite Ed in Hg. injection Hg as <-.
        assert (bt_get e' [] = Some tt) by (apply Hrm; naive_solver). done.
      * rewrite bt_get_remove_ne by done. naive_solver.
  - assert (Hok' : bt_ok (x :: set')) by (rewrite <- Er; auto with bt). split.
    + split; [auto with bt|]. intros d' set1. destruct (decide (d = d')) as [<-|Hn].
      * rewrite bt_get_insert_eq by done. by intros [= <-].
      * rewrite bt_get_insert_ne by done. apply Hs.
    + intros d' e'. unfold pending. destruct (decide (d = d')) as [<-|Hn].
      * rewrite bt_get_insert_eq by done. setoid_rewrite Ed.
        split; [intros (? & [= <-] & He%Hrm); naive_solver|].
        intros [(set1 & [= <-] & He) Hnot]. exists (x :: set'). split; [done|]. apply Hrm. naive_solver.
      * rewrite bt_get_insert_ne by done. naive_solver.
Qed.

Lemma pending_set m d e set :
  map_ok m -> bt_get d m = Some set -> pending m d e <-> e ∈ set.*1.
Proof.
  intros Hm Hg. destruct (mo_sets m Hm d set Hg) as [Hset _]. unfold pending. rewrite Hg.
  rewrite bt_key_elem. split.
  - intros (? & [= <-] & He). exists tt. by apply bt_get_elem.
  - intros [[] He]. exists set. split; [done|]. by apply bt_get_elem.
Qed.

(** * The scan for the event of a timer *)

Lemma find_event_of_none id evts acc :
  (forall e, e ∈ evts -> is_event_of id e = false) -> find_event_of id evts acc = Done acc.
Proof.
  revert acc. induction evts as [|e evts IH]; intros acc H; simpl; [done|].
  rewrite H by left. apply IH. intros; apply H; by right.
Qed.
Lemma find_event_of_one id evts e :
  NoDup evts -> e ∈ evts -> is_event_of id e = true ->
  (forall e', e' ∈ evts -> is_event_of id e' = true -> e' = e) ->
  find_event_of id evts None = Done (Some e).
Proof.
  induction evts as [|x evts IH]; intros HN Hin He Huniq; [by inversion Hin|].
  apply NoDup_cons in HN as [Hx HN]. simpl. apply elem_of_cons in Hin as [<-|Hin].
  - rewrite He. simpl. apply find_event_of_none. intros e' He'.
    destruct (is_event_of id e') eqn:Ee; [|done].
    rewrite (Huniq e' ltac:(by right) Ee) in He'. done.
  - destruct (is_event_of id x) eqn:Ex.
    + rewrite (Huniq x ltac:(left) Ex) in Hx. done.
    + apply IH; [done..|]. intros; apply Huniq; [by right|done].
Qed.

(** At most one event of the timer is pending. *)
Definition single (m : event_map) (id : SignalTimerId) : Prop :=
  forall d1 e1 d2 e2, pending m d1 e1 -> pending m d2 e2 ->
    is_event_of id e1 = true -> is_event_of id e2 = true -> d1 = d2 /\ e1 = e2.

Lemma is_event_of_spec id e :
  is_event_of id e = true <-> exists tgt sg, e = SignalEvt id tgt sg.
Proof.
  destruct e as [i tgt sg|t]; simpl; [|split; [done|naive_solver]].
  rewrite bool_decide_eq_true. naive_solver.
Qed.

Lemma clear_old_spec s id st :
  map_ok (map s) -> single (map s) id -> phase st = Active ->
  (forall d e, pending (map s) d e -> is_event_of id e = true -> d = deadline st) ->
  exists m', clear_old_signal_timer s id (Some st) = Done (set_map m' s) /\ map_ok m'
    /\ forall d e, pending m' d e <-> pending (map s) d e /\ is_event_of id e = false.
Proof.
  intros Hm Hsg Hph Hd. unfold clear_old_signal_timer. rewrite bool_decide_true by done.
  assert (Hnone : (forall e, pending (map s) (deadline st) e -> is_event_of id e = false) ->
    forall d e, pending (map s) d e <-> pending (map s) d e /\ is_event_of id e = false).
  { intros Hn d e. split; [|by intros [? _]]. intros Hp. split; [done|].
    destruct (is_event_of id e) eqn:Ee; [|done].
    specialize (Hd d e Hp Ee). subst d. by rewrite <- Ee, Hn. }
  destruct (bt_get (deadline st) (map s)) as [set|] eqn:Eg.
  2:{ exists (map s). split_and!; [by destruct s|done|]. apply Hnone.
      intros e (? & ? & _). congruence. }
  pose proof (fun e => pending_set (map s) (deadline st) e set Hm Eg) as Hps.
  destruct (mo_sets _ Hm _ _ Eg) as [Hset Hne].
  destruct (List.find (is_event_of id) (set.*1)) as [e|] eqn:Ef.
  - apply find_Some_elem in Ef as [Hin He].
    rewrite (find_event_of_one id (set.*1) e); [|by apply bt_ok_NoDup|done|done|].
    2:{ intros e' Hin' He'. by apply (Hsg (deadline st) e' (deadline st) e); [apply Hps|apply Hps|..]. }
    bind_done. rewrite (proj2 (bt_mem_true set e Hset) Hin). simpl.
    destruct (erase_spec (map s) (deadline st) e Hm) as [Hok' Hp'].
    unfold erase in Hok', Hp'. rewrite Eg in Hok', Hp'.
    exists (match bt_remove e set with [] => bt_remove (deadline st) (map s)
            | set' => bt_insert (deadline st) set' (map s) end).
    split_and!; [by destruct (bt_remove e set)|done|].
    intros d' e'. rewrite Hp'. split; intros [Hp Hx]; (split; [done|]).
    + destruct (is_event_of id e') eqn:Ee; [|done]. exfalso. apply Hx.
      apply (Hsg d' e' (deadline st) e); [done|by apply Hps|done|done].
    + intros [-> ->]. congruence.
  - rewrite find_event_of_none.
    2:{ intros e Hin. by apply (find_None_all _ _ _ Ef). }
    simpl. exists (map s). destruct set as [|x set]; [done|].
    split_and!; [|done|apply Hnone; intros e Hp; by apply (find_None_all _ _ _ Ef), Hps].
    f_equal. f_equal. apply bt_ext; [apply bt_insert_ok, Hm|apply Hm|].
    intros k. destruct (decide (deadline st = k)) as [<-|Hn].
    + by rewrite bt_get_insert_eq by apply Hm.
    + by rewrite bt_get_insert_ne by (done || apply Hm).
Qed.

(** Nothing to clear: the timer has no event queued. *)
Lemma clear_old_noop s id o :
  map_ok (map s) -> (forall st, o = Some st -> phase st <> Active) ->
  clear_old_signal_timer s id o = Done s.
Proof.
  intros Hm Ho. unfold clear_old_signal_timer. destruct o as [st|]; [|done].
  by rewrite bool_decide_false by (by apply Ho).
Qed.

(** * The invariant *)

Definition is_child_exit (id : SignalTimerId) : bool :=
  match id with ChildExit _ _ => true | _ => false end.

(** The one event the tables say a timer has queued. *)
Definition controlled_of (s : TimedEvents) (id : SignalTimerId) : option (Z * TimedEvent) :=
  match id with
  | Alarm pid => (fun d => (d, SignalEvt id (Process pid) (Send SIGALRM))) <$>
                   bt_get pid (controlled_real_timer_deadlines s)
  | _ => None
  end.
Definition queued_event (s : TimedEvents) (id : SignalTimerId) : option (Z * TimedEvent) :=
  match bt_get id (signal_timers s) with
  | Some st => if bool_decide (phase st = Active)
               then Some (deadline st, SignalEvt id (target st) (sig st)) else None
  | None => controlled_of s id
  end.

Definition state_ok (st : SignalTimerState) : Prop := is_u64 (deadline st) /\ is_u64 (interval st).

Record te_ok (s : TimedEvents) : Prop := {
  te_map : map_ok (map s);
  te_timers : bt_ok (signal_timers s);
  te_controlled : bt_ok (controlled_real_timer_deadlines s);
  te_exclusive : forall pid, is_Some (bt_get pid (controlled_real_timer_deadlines s)) ->
    bt_get (Alarm pid) (signal_timers s) = None;
  te_no_child : forall c p, bt_get (ChildExit c p) (signal_timers s) = None;
  te_states : forall id st, bt_get id (signal_timers s) = Some st -> state_ok st;
  te_signals : forall id d e, is_child_exit id = false -> is_event_of id e = true ->
    pending (map s) d e <-> queued_event s id = Some (d, e);
  te_threads : forall t d d', pending (map s) d (ThreadEvt t) -> pending (map s) d' (ThreadEvt t) -> d = d';
  te_times : forall d e, pending (map s) d e -> is_u64 d;
}.

Lemma te_ok_new : te_ok no_events.
Proof.
  split; simpl; [apply map_ok_nil|apply bt_ok_nil|apply bt_ok_nil|done|done|done| |
    by intros ? ? ? ?%pending_nil|by intros ? ? ?%pending_nil].
  intros id d e Hc He. split; [by intros ?%pending_nil|]. unfold queued_event. simpl. by destruct id.
Qed.

Lemma te_single s id : te_ok s -> is_child_exit id = false -> single (map s) id.
Proof.
  intros Hs Hc d1 e1 d2 e2 H1 H2 He1 He2.
  apply (te_signals s Hs id d1 e1 Hc He1) in H1. apply (te_signals s Hs id d2 e2 Hc He2) in H2.
  rewrite H1 in H2. by injection H2.
Qed.

Lemma is_event_of_ne id id' e : is_event_of id e = true -> id <> id' -> is_event_of id' e = false.
Proof.
  destruct e as [i tgt sg|]; simpl; [|done]. rewrite bool_decide_eq_true, bool_decide_eq_false. congruence.
Qed.

(** Putting a timer in a new state, its old event having been cleared. *)
Definition queue_state (id : SignalTimerId) (o : option SignalTimerState) (m : event_map) : event_map :=
  match o with
  | Some st => if bool_decide (phase st = Active)
               then (entry_insert (deadline st) (SignalEvt id (target st) (sig st)) m).2 else m
  | None => m
  end.
Definition put_timer (id : SignalTimerId) (o : option SignalTimerState)
    (ts : list (SignalTimerId * SignalTimerState)) : list (SignalTimerId * SignalTimerState) :=
  match o with Some st => bt_insert id st ts | None => bt_remove id ts end.

Lemma queue_state_ok id o m : map_ok m -> map_ok (queue_state id o m).
Proof.
  intros Hm. unfold queue_state. destruct o as [st|]; [|done].
  case_bool_decide; [by apply entry_insert_ok|done].
Qed.
Lemma queue_state_pending id o m d e :
  map_ok m ->
  pending (queue_state id o m) d e <-> pending m d e
    \/ exists st, o = Some st /\ phase st = Active /\ d = deadline st
                  /\ e = SignalEvt id (target st) (sig st).
Proof.
  intros Hm. unfold queue_state. destruct o as [st|]; [|naive_solver].
  case_bool_decide; [rewrite entry_insert_pending by done|]; naive_solver.
Qed.
Lemma put_timer_ok id o ts : bt_ok ts -> bt_ok (put_timer id o ts).
Proof. intros. destruct o; simpl; auto with bt. Qed.
Lemma put_timer_eq id o ts : bt_ok ts -> bt_get id (put_timer id o ts) = o.
Proof. intros. destruct o; simpl; [by apply bt_get_insert_eq|by apply bt_get_remove_eq]. Qed.
Lemma put_timer_ne id id' o ts :
  bt_ok ts -> id <> id' -> bt_get id' (put_timer id o ts) = bt_get id' ts.
Proof. intros. destruct o; simpl; [by apply bt_get_insert_ne|by apply bt_get_remove_ne]. Qed.

Lemma te_ok_put s m id o :
  te_ok s -> map_ok m -> is_child_exit id = false ->
  (forall d e, pending m d e <-> pending (map s) d e /\ is_event_of id e = false) ->
  controlled_of s id = None -> (forall st, o = Some st -> state_ok st) ->
  te_ok (TE (queue_state id o m) (put_timer id o (signal_timers s)) (controlled_real_timer_deadlines s)).
Proof.
  intros [Hmo Hts Hct Hex Hch Hst Hsig Hth Htm] Hm Hc Hp Hnc Ho.
  set (s' := TE _ _ _).
  assert (Hother : forall id', id <> id' -> bt_get id' (signal_timers s') = bt_get id' (signal_timers s))
    by (intros; by apply put_timer_ne).
  split; simpl.
  - by apply queue_state_ok.
  - by apply put_timer_ok.
  - done.
  - intros pid Hpid. rewrite put_timer_ne; [by apply Hex|done|].
    intros ->. destruct Hpid as [d Hd]. simpl in Hnc. by rewrite Hd in Hnc.
  - intros c p. rewrite put_timer_ne; [by apply Hch|done|]. by intros ->.
  - intros id' st. destruct (decide (id = id')) as [<-|Hne].
    + rewrite put_timer_eq by done. apply Ho.
    + rewrite put_timer_ne by done. apply Hst.
  - intros id' d e Hc' He. rewrite queue_state_pending, Hp by done.
    destruct (decide (id = id')) as [<-|Hne].
    + unfold queued_event, s'. simpl. rewrite put_timer_eq by done. destruct o as [st|].
      * case_bool_decide as Ha.
        -- split; [by intros [[_ ?]|(st' & [= <-] & _ & -> & ->)]; [congruence|]|].
           intros [= <- <-]. right. by exists st.
        -- split; [intros [[_ ?]|(st' & [= <-] & ? & _)]; congruence|done].
      * split; [intros [[_ ?]|(st' & ? & _)]; congruence|].
        unfold controlled_of in Hnc |- *. simpl. by rewrite Hnc.
    + assert (Hq : queued_event s' id' = queued_event s id')
        by (unfold queued_event; by rewrite Hother).
      rewrite Hq, <- Hsig by done. split.
      * intros [[? _]|(st & -> & _ & _ & ->)]; [done|]. exfalso.
        simpl in He. apply bool_decide_eq_true in He. congruence.
      * intros Hpe. left. split; [done|]. apply (is_event_of_ne id'); congruence.
  - intros t d d'. rewrite !queue_state_pending, !Hp by done.
    intros [[? _]|(? & _ & _ & _ & ?)] [[? _]|(? & _ & _ & _ & ?)]; [by eapply Hth|done..].
  - intros d e. rewrite queue_state_pending, Hp by done.
    intros [[? _]|(st & -> & _ & -> & _)]; [by eapply Htm|]. by apply Ho.
Qed.

(** The same for a controlled deadline. *)
Definition queue_controlled (pid : DetPid) (o : option Z) (m : event_map) : event_map :=
  match o with
  | Some d => (entry_insert d (SignalEvt (Alarm pid) (Process pid) (Send SIGALRM)) m).2
  | None => m
  end.
Definition put_controlled (pid : DetPid) (o : option Z) (c : list (DetPid * Z)) : list (DetPid * Z) :=
  match o with Some d => bt_insert pid d c | None => bt_remove pid c end.

Lemma te_ok_put_controlled s m pid o :
  te_ok s -> map_ok m -> bt_get (Alarm pid) (signal_timers s) = None ->
  (forall d e, pending m d e <-> pending (map s) d e /\ is_event_of (Alarm pid) e = false) ->
  (forall d, o = Some d -> is_u64 d) ->
  te_ok (TE (queue_controlled pid o m) (signal_timers s)
            (put_controlled pid o (controlled_real_timer_deadlines s))).
Proof.
  intros [Hmo Hts Hct Hex Hch Hst Hsig Hth Htm] Hm Hna Hp Ho.
  assert (Hqp : forall d e, pending (queue_controlled pid o m) d e <-> pending m d e
    \/ o = Some d /\ e = SignalEvt (Alarm pid) (Process pid) (Send SIGALRM)).
  { intros d e. unfold queue_controlled. clear -Hm. destruct o as [d0|];
      [rewrite entry_insert_pending by done|]; naive_solver. }
  assert (Hget : bt_get pid (put_controlled pid o (controlled_real_timer_deadlines s)) = o).
  { destruct o; simpl; [by apply bt_get_insert_eq|by apply bt_get_remove_eq]. }
  assert (Hget' : forall pid', pid <> pid' ->
    bt_get pid' (put_controlled pid o (controlled_real_timer_deadlines s))
      = bt_get pid' (controlled_real_timer_deadlines s)).
  { intros. destruct o; simpl; [by apply bt_get_insert_ne|by apply bt_get_remove_ne]. }
  set (s' := TE _ _ _). split; simpl.
  - unfold queue_controlled. destruct o; [by apply entry_insert_ok|done].
  - done.
  - destruct o; simpl; auto with bt.
  - intros pid'. destruct (decide (pid = pid')) as [<-|Hne]; [done|]. rewrite Hget' by done. apply Hex.
  - done.
  - done.
  - intros id d e Hc He. rewrite Hqp, Hp. destruct (decide (id = Alarm pid)) as [->|Hne].
    + unfold queued_event, s'. simpl. rewrite Hna, Hget. destruct o as [d0|]; simpl.
      * split; [by intros [[_ ?]|[[= <-] ->]]; [congruence|]|]. intros [= <- <-]. by right.
      * split; [intros [[_ ?]|[? _]]; congruence|done].
    + assert (Hq : queued_event s' id = queued_event s id).
      { unfold queued_event, s', controlled_of. simpl. destruct id as [pid'| |]; try done.
        by rewrite Hget' by congruence. }
      rewrite Hq, <- Hsig by done. split.
      * intros [[? _]|[_ ->]]; [done|]. simpl in He. apply bool_decide_eq_true in He. congruence.
      * intros Hpe. left. split; [done|]. by apply (is_event_of_ne id).
  - intros t d d'. rewrite !Hqp, !Hp. intros [[? _]|[_ ?]] [[? _]|[_ ?]]; [by eapply Hth|done..].
  - intros d e. rewrite Hqp, Hp. intros [[? _]|[Hd _]]; [by eapply Htm|]. by apply Ho.
Qed.

(** Events that belong to no timer. *)
Lemma te_ok_frame s m :
  te_ok s -> map_ok m ->
  (forall id d e, is_child_exit id = false -> is_event_of id e = true ->
     pending m d e <-> pending (map s) d e) ->
  (forall t d d', pending m d (ThreadEvt t) -> pending m d' (ThreadEvt t) -> d = d') ->
  (forall d e, pending m d e -> is_u64 d) ->
  te_ok (set_map m s).
Proof.
  intros [Hmo Hts Hct Hex Hch Hst Hsig Hth Htm] Hm Hp Ht Hu. split; simpl; try done.
  intros id d e Hc He. rewrite Hp by done. by apply Hsig.
Qed.

(** * The operations *)

(** Timer [id] is now in state [o]: its old event is gone, its new one queued,
    and nothing else changed. *)
Record timer_set (s : TimedEvents) (id : SignalTimerId) (o : option SignalTimerState)
    (s' : TimedEvents) : Prop := {
  ts_ok : te_ok s';
  ts_controlled : controlled_real_timer_deadlines s' = controlled_real_timer_deadlines s;
  ts_timer : bt_get id (signal_timers s') = o;
  ts_others : forall id', id <> id' -> bt_get id' (signal_timers s') = bt_get id' (signal_timers s);
  ts_pending : forall d e, pending (map s') d e <->
    (pending (map s) d e /\ is_event_of id e = false)
    \/ exists st, o = Some st /\ phase st = Active /\ d = deadline st
                  /\ e = SignalEvt id (target st) (sig st);
}.

Lemma timer_set_intro s m id o :
  te_ok s -> map_ok m -> is_child_exit id = false ->
  (forall d e, pending m d e <-> pending (map s) d e /\ is_event_of id e = false) ->
  controlled_of s id = None -> (forall st, o = Some st -> state_ok st) ->
  timer_set s id o
    (TE (queue_state id o m) (put_timer id o (signal_timers s)) (controlled_real_timer_deadlines s)).
Proof.
  intros Hs Hm Hc Hp Hnc Ho. split; simpl.
  - by apply te_ok_put.
  - done.
  - apply put_timer_eq, Hs.
  - intros id' Hne. apply put_timer_ne; [apply Hs|done].
  - intros d e. by rewrite queue_state_pending, Hp.
Qed.

Lemma no_event_queued s id d e :
  te_ok s -> is_child_exit id = false -> queued_event s id = None ->
  pending (map s) d e -> is_event_of id e = false.
Proof.
  intros Hs Hc Hq Hp. destruct (is_event_of id e) eqn:He; [|done].
  apply (te_signals s Hs id d e Hc He) in Hp. congruence.
Qed.

(** Clearing the event of a timer, from any table state. *)
Lemma clear_timer_spec s s1 id :
  te_ok s -> is_child_exit id = false -> controlled_of s id = None -> map s1 = map s ->
  exists m', clear_old_signal_timer s1 id (bt_get id (signal_timers s)) = Done (set_map m' s1)
    /\ map_ok m' /\ forall d e, pending m' d e <-> pending (map s) d e /\ is_event_of id e = false.
Proof.
  intros Hs Hc Hnc Hm. pose proof (te_map s Hs) as Hmo.
  destruct (decide (queued_event s id = None)) as [Hq|Hq].
  - exists (map s). rewrite clear_old_noop.
    + split_and!; [rewrite <- Hm; by destruct s1|done|]. intros d e.
      split; [|by intros [? _]]. intros Hp. split; [done|]. by apply (no_event_queued s id d).
    + by rewrite Hm.
    + intros st Hst. unfold queued_event in Hq. rewrite Hst in Hq. by case_bool_decide.
  - unfold queued_event in Hq. destruct (bt_get id (signal_timers s)) as [st|] eqn:Est; [|done].
    case_bool_decide as Ha; [|done].
    destruct (clear_old_spec s1 id st) as (m' & E & Hm' & Hp'); rewrite ?Hm in *; try done.
    + by apply te_single.
    + intros d e Hp He. apply (te_signals s Hs id d e Hc He) in Hp. unfold queued_event in Hp.
      rewrite Est, bool_decide_true in Hp by done. by injection Hp as <- _.
    + by exists m'.
Qed.

Lemma insert_signal_timer_spec s id ns tgt sg iv :
  te_ok s -> is_child_exit id = false -> controlled_of s id = None -> is_u64 ns -> is_u64 iv ->
  exists s', insert_signal_timer s id ns tgt sg iv = Done (bt_get id (signal_timers s), s')
    /\ timer_set s id (Some (STS ns iv Active tgt sg)) s'.
Proof.
  intros Hs Hc Hnc Hns Hiv. unfold insert_signal_timer.
  destruct (clear_timer_spec s (set_signal_timers
    (bt_insert id (STS ns iv Active tgt sg) (signal_timers s)) s) id) as (m' & -> & Hm' & Hp'); try done.
  bind_done. destruct (entry_insert ns (SignalEvt id tgt sg) _) as [fresh m1] eqn:Ee.
  cbn [map set_map] in Ee.
  assert (Hf : fresh = true).
  { replace fresh with (entry_insert ns (SignalEvt id tgt sg) m').1 by (by rewrite Ee).
    apply entry_insert_fresh; [done|]. rewrite Hp'. simpl. rewrite bool_decide_true by done. by intros [_ ?]. }
  rewrite Hf. eexists. split; [done|].
  replace m1 with (queue_state id (Some (STS ns iv Active tgt sg)) m') by
    (unfold queue_state; simpl phase; rewrite bool_decide_true by done; cbn [deadline target sig]; by rewrite Ee).
  apply (timer_set_intro s m' id (Some (STS ns iv Active tgt sg))); try done.
  by intros st [= <-].
Qed.

Lemma remove_signal_timer_spec s id :
  te_ok s -> is_child_exit id = false ->
  exists s', remove_signal_timer s id = Done (bt_get id (signal_timers s), s')
    /\ match bt_get id (signal_timers s) with
       | Some _ => timer_set s id None s'
       | None => s' = s
       end.
Proof.
  intros Hs Hc. unfold remove_signal_timer.
  destruct (bt_get id (signal_timers s)) as [st|] eqn:Est.
  - assert (Hnc : controlled_of s id = None).
    { unfold controlled_of. destruct id as [pid| |]; try done.
      destruct (bt_get pid (controlled_real_timer_deadlines s)) eqn:Ec; [|done].
      rewrite (te_exclusive s Hs pid) in Est by eauto. done. }
    rewrite <- Est.
    destruct (clear_timer_spec s (set_signal_timers (bt_remove id (signal_timers s)) s) id)
      as (m' & -> & Hm' & Hp'); try done.
    simpl. eexists. split; [done|]. by apply (timer_set_intro s m' id None).
  - rewrite bt_remove_None by (apply Hs || done). simpl. eexists. split; [done|]. by destruct s.
Qed.

Lemma remove_signal_timers_spec ids s :
  te_ok s -> Forall (fun id => is_child_exit id = false) ids ->
  exists s', remove_signal_timers s ids = Done s' /\ te_ok s'
    /\ controlled_real_timer_deadlines s' = controlled_real_timer_deadlines s
    /\ (forall id, bt_get id (signal_timers s')
                   = if decide (id ∈ ids) then None else bt_get id (signal_timers s))
    /\ forall d e, pending (map s') d e <-> pending (map s) d e
         /\ forall id, id ∈ ids -> is_Some (bt_get id (signal_timers s)) -> is_event_of id e = false.
Proof.
  revert s. induction ids as [|id ids IH]; intros s Hs HF; simpl.
  { exists s. split_and!; [done|done|done|done|]. intros d e. split; [|by intros [? _]].
    intros Hp. split; [done|]. by intros id ?%elem_of_nil. }
  apply Forall_cons in HF as [Hc HF].
  destruct (remove_signal_timer_spec s id Hs Hc) as (s1 & -> & H1). simpl.
  assert (Hok1 : te_ok s1) by (destruct (bt_get id (signal_timers s)); [apply H1|by subst s1]).
  destruct (IH s1 Hok1 HF) as (s' & E & Hok' & Hct & Hget & Hp). exists s'.
  destruct (bt_get id (signal_timers s)) as [st|] eqn:Est.
  - destruct H1 as [_ Hct1 Ht1 Ho1 Hp1]. split_and!; [done|done|congruence|..].
    + intros id'. rewrite Hget. destruct (decide (id = id')) as [<-|Hne].
      * rewrite Ht1. rewrite (decide_True (P := id ∈ id :: ids)) by left. by case_decide.
      * rewrite Ho1 by done. do 2 case_decide; set_solver.
    + intros d e. rewrite Hp, Hp1. split.
      * intros [[[? He]|(? & ? & _)] Hall]; [|done]. split; [done|].
        intros id' Hin Hs'. apply elem_of_cons in Hin as [->|Hin]; [done|].
        destruct (decide (id = id')) as [<-|Hne]; [done|]. apply Hall; [done|]. by rewrite Ho1.
      * intros [Hpe Hall]. split.
        -- left. split; [done|]. apply (Hall id); [left|]. by rewrite Est.
        -- intros id' Hin Hs'. apply Hall; [by right|]. destruct (decide (id = id')) as [<-|Hne]; [by rewrite Est|].
           by rewrite <- Ho1.
  - subst s1. split_and!; [done|done|done|..].
    + intros id'. rewrite Hget. destruct (decide (id = id')) as [<-|Hne].
      * rewrite (decide_True (P := id ∈ id :: ids)) by left. by case_decide.
      * do 2 case_decide; set_solver.
    + intros d e. rewrite Hp. split; intros [Hpe Hall]; (split; [done|]); intros id' Hin Hs'.
      * apply elem_of_cons in Hin as [->|Hin]; [by rewrite Est in Hs'; destruct Hs'|by apply Hall].
      * apply Hall; [by right|done].
Qed.

(** ** Controlled real timers *)

(** The controlled deadline of [pid] is now [o]. *)
Record controlled_set (s : TimedEvents) (pid : DetPid) (o : option Z) (s' : TimedEvents) : Prop := {
  cs_ok : te_ok s';
  cs_timers : signal_timers s' = signal_timers s;
  cs_deadlines : controlled_real_timer_deadlines s'
                 = put_controlled pid o (controlled_real_timer_deadlines s);
  cs_pending : forall d e, pending (map s') d e <->
    (pending (map s) d e /\ is_event_of (Alarm pid) e = false)
    \/ o = Some d /\ e = SignalEvt (Alarm pid) (Process pid) (Send SIGALRM);
}.

Lemma controlled_set_intro s m pid o :
  te_ok s -> map_ok m -> bt_get (Alarm pid) (signal_timers s) = None ->
  (forall d e, pending m d e <-> pending (map s) d e /\ is_event_of (Alarm pid) e = false) ->
  (forall d, o = Some d -> is_u64 d) ->
  controlled_set s pid o (TE (queue_controlled pid o m) (signal_timers s)
                             (put_controlled pid o (controlled_real_timer_deadlines s))).
Proof.
  intros Hs Hm Hna Hp Ho. split; [by apply te_ok_put_controlled|done|done|].
  intros d e. simpl. rewrite <- Hp. unfold queue_controlled. clear -Hm.
  destruct o as [d0|]; [rewrite entry_insert_pending by done|]; naive_solver.
Qed.

Lemma remove_controlled_spec s pid :
  te_ok s ->
  exists m', remove_controlled_real_timer_deadline s pid
      = Done (TE m' (signal_timers s) (bt_remove pid (controlled_real_timer_deadlines s)))
    /\ map_ok m'
    /\ (forall d e, pending m' d e <-> pending (map s) d e
          /\ (is_Some (bt_get pid (controlled_real_timer_deadlines s)) -> is_event_of (Alarm pid) e = false))
    /\ te_ok (TE m' (signal_timers s) (bt_remove pid (controlled_real_timer_deadlines s))).
Proof.
  intros Hs. unfold remove_controlled_real_timer_deadline.
  destruct (bt_get pid (controlled_real_timer_deadlines s)) as [d|] eqn:Ed; simpl.
  - pose proof (te_exclusive s Hs pid ltac:(eauto)) as Hna.
    assert (Hq : queued_event s (Alarm pid) = Some (d, SignalEvt (Alarm pid) (Process pid) (Send SIGALRM))).
    { unfold queued_event. rewrite Hna. simpl. by rewrite Ed. }
    destruct (clear_old_spec (set_controlled (bt_remove pid (controlled_real_timer_deadlines s)) s)
      (Alarm pid) (STS d 0 Active (Process pid) (Send SIGALRM))) as (m' & E & Hm' & Hp'); simpl.
    + apply Hs.
    + by apply te_single.
    + done.
    + intros d' e Hp He. apply (te_signals s Hs (Alarm pid) d' e eq_refl He) in Hp. congruence.
    + exists m'. simpl in *. rewrite E. split_and!; [done|done|intros d' e; rewrite Hp'; naive_solver|].
      by apply (controlled_set_intro s m' pid None).
  - rewrite bt_remove_None by (apply Hs || done). exists (map s). destruct s; simpl in *.
    split_and!; [done|apply Hs| |done]. intros d e. split; [|by intros [? _]].
    intros Hp. split; [done|]. by intros [? ?].
Qed.

Lemma insert_controlled_spec s dl pid :
  te_ok s -> is_u64 dl -> bt_get (Alarm pid) (signal_timers s) = None ->
  exists s', insert_controlled_real_timer_deadline s dl pid = Done s'
    /\ te_ok s' /\ signal_timers s' = signal_timers s
    /\ bt_get pid (controlled_real_timer_deadlines s') = Some dl
    /\ forall d e, pending (map s') d e <-> (pending (map s) d e /\ is_event_of (Alarm pid) e = false)
         \/ d = dl /\ e = SignalEvt (Alarm pid) (Process pid) (Send SIGALRM).
Proof.
  intros Hs Hdl Hna. unfold insert_controlled_real_timer_deadline, bt_mem. rewrite Hna. simpl.
  destruct (remove_controlled_spec s pid Hs) as (m' & -> & Hm' & Hp' & Hok'). simpl.
  set (s1 := TE m' _ _) in *.
  assert (Hp1 : forall d e, pending m' d e <-> pending (map s1) d e /\ is_event_of (Alarm pid) e = false).
  { intros d e. simpl. split; [|by intros [? _]]. intros Hp. split; [done|].
    apply (no_event_queued s1 (Alarm pid) d); [done|done| |done]. unfold queued_event, controlled_of.
    simpl. by rewrite Hna, bt_get_remove_eq by apply Hs. }
  destruct (controlled_set_intro s1 m' pid (Some dl)) as [Hok Ht Hd Hpe]; try done.
  { by intros d [= <-]. }
  eexists. split; [done|]. split_and!; [exact Hok|done|simpl; by apply bt_get_insert_eq, Hok'|].
  intros d e. specialize (Hpe d e). cbn [map s1] in Hpe. rewrite Hp' in Hpe.
  etransitivity; [exact Hpe|]. split.
  - intros [[[? _] ?]|[[= <-] ->]]; [by left|by right].
  - intros [[? ?]|[-> ->]]; [left; by split_and!|by right].
Qed.

(** ** Periodic timers after an expiry *)

Lemma checked_u64_range x y : checked_u64 x = Some y -> is_u64 y.
Proof. by intros [-> ?]%checked_u64_Some. Qed.
Lemma grid_after_u64 last iv t : is_u64 (grid_after last iv t).
Proof.
  unfold grid_after, checked_grid_after.
  destruct (checked_u64 _) as [k|]; simpl; [|by vm_compute].
  destruct (checked_u64 (k * _)) as [st|]; simpl; [|by vm_compute].
  destruct (checked_u64 (last + st)) eqn:E; simpl; [by eapply checked_u64_range|by vm_compute].
Qed.

Lemma timer_not_controlled s id st :
  te_ok s -> bt_get id (signal_timers s) = Some st ->
  is_child_exit id = false /\ controlled_of s id = None.
Proof.
  intros Hs Hst. destruct id as [pid| |c p]; [|done|by rewrite (te_no_child s Hs) in Hst].
  split; [done|]. simpl. destruct (bt_get pid _) eqn:E; [|done].
  rewrite (te_exclusive s Hs pid) in Hst by eauto. done.
Qed.

Definition fired_state (st : SignalTimerState) (fired_at : Z) (copy : option bool) (now : Z)
    : SignalTimerState :=
  match copy with
  | Some c => STS fired_at (interval st) (Inactive c) (target st) (sig st)
  | None => STS (grid_after fired_at (interval st) now) (interval st) Active (target st) (sig st)
  end.

Lemma after_fire_spec s id fired_at copy now :
  te_ok s -> is_u64 fired_at ->
  exists s', signal_timer_after_fire s id fired_at copy now = Done s' /\ te_ok s'
    /\ match bt_get id (signal_timers s) with
       | Some st =>
           if bool_decide (phase st = Active) && negb (interval st =? 0)
              && (deadline st =? LogicalTime.add fired_at (interval st))
           then timer_set s id (Some (fired_state st fired_at copy now)) s'
           else s' = s
       | None => s' = s
       end.
Proof.
  intros Hs Hf. unfold signal_timer_after_fire.
  destruct (bt_get id (signal_timers s)) as [st|] eqn:Est; [|by exists s].
  destruct (bool_decide (phase st = Active)) eqn:Ea; [|by exists s].
  destruct (interval st =? 0) eqn:Ei; [by exists s|].
  destruct (deadline st =? LogicalTime.add fired_at (interval st)) eqn:Ed; [|by exists s].
  cbn [negb orb andb].
  destruct (timer_not_controlled s id st Hs Est) as [Hc Hnc]. apply bool_decide_eq_true in Ea.
  destruct (clear_timer_spec s s id) as (m' & E & Hm' & Hp'); try done.
  rewrite Est in E. rewrite E. cbn [mbind outcome_bind signal_timers set_map]. rewrite Est.
  cbn [mbind outcome_bind expect].
  assert (Hts : timer_set s id (Some (fired_state st fired_at copy now))
    (TE (queue_state id (Some (fired_state st fired_at copy now)) m')
        (put_timer id (Some (fired_state st fired_at copy now)) (signal_timers s))
        (controlled_real_timer_deadlines s))).
  { apply timer_set_intro; try done. intros ? [= <-]. destruct (te_states s Hs id st Est).
    destruct copy; split; simpl; try done. apply grid_after_u64. }
  destruct copy as [c|]; simpl in *.
  - eexists. split; [done|]. split; [apply Hts|exact Hts].
  - rewrite Ea. eexists. split; [done|]. split; [apply Hts|exact Hts].
Qed.

Lemma rearm_spec s id t :
  te_ok s ->
  exists r s', signal_timer_rearm_after s id t = (r, s') /\ te_ok s'
    /\ match bt_get id (signal_timers s) with
       | Some st =>
           if is_inactive st then
             r = Some (grid_after (deadline st) (interval st) t)
             /\ timer_set s id (Some (STS (grid_after (deadline st) (interval st) t) (interval st)
                                          Active (target st) (sig st))) s'
           else r = None /\ s' = s
       | None => r = None /\ s' = s
       end.
Proof.
  intros Hs. unfold signal_timer_rearm_after, is_inactive.
  destruct (bt_get id (signal_timers s)) as [st|] eqn:Est; [|by exists None, s].
  destruct (phase st) as [|c] eqn:Eph; [by exists None, s|].
  destruct (timer_not_controlled s id st Hs Est) as [Hc Hnc].
  eexists _, _. split; [done|].
  assert (Hts : forall o, timer_set s id (Some o) (TE (queue_state id (Some o) (map s))
      (put_timer id (Some o) (signal_timers s)) (controlled_real_timer_deadlines s)) \/ ~ state_ok o).
  { intros o. destruct (decide (is_u64 (deadline o) /\ is_u64 (interval o))) as [Ho|Ho]; [|by right].
    left. apply timer_set_intro; try done; [apply Hs| |by intros ? [= <-]].
    intros d e. split; [|by intros [? _]]. intros Hp. split; [done|].
    apply (no_event_queued s id d); try done. unfold queued_event. by rewrite Est, Eph. }
  destruct (Hts (STS (grid_after (deadline st) (interval st) t) (interval st) Active (target st) (sig st)))
    as [Ht|Hn].
  - split; [apply Ht|]. split; [done|]. exact Ht.
  - destruct Hn. destruct (te_states s Hs id st Est). split; [apply grid_after_u64|done].
Qed.

Lemma set_copy_spec s dp copy : te_ok s -> te_ok (alarm_set_copy s dp copy).
Proof.
  intros Hs. unfold alarm_set_copy, is_inactive.
  destruct (bt_get (Alarm dp) (signal_timers s)) as [st|] eqn:Est; [|done].
  destruct (phase st) as [|c] eqn:Eph; [done|].
  destruct (timer_not_controlled s _ st Hs Est) as [Hc Hnc].
  apply (timer_set_intro s (map s) (Alarm dp)
    (Some (STS (deadline st) (interval st) (Inactive copy) (target st) (sig st)))); try done; [apply Hs| |].
  - intros d e. split; [|by intros [? _]]. intros Hp. split; [done|].
    apply (no_event_queued s (Alarm dp) d); try done. unfold queued_event. by rewrite Est, Eph.
  - intros ? [= <-]. apply (te_states s Hs _ _ Est).
Qed.

(** Popping due events, thread waits and child exits of [TimedEvents]. *)

(** * Taking the first event *)

Definition event_le (t : Z) (e : TimedEvent) (t' : Z) (e' : TimedEvent) : Prop :=
  t < t' \/ (t = t' /\ kle e e').

Lemma take_first_spec now m :
  map_ok m ->
  (take_first now m = Done None /\ forall d e, pending m d e -> now < d)
  \/ exists t e, take_first now m = Done (Some (t, e, erase t e m)) /\ t <= now
       /\ pending m t e /\ forall d' e', pending m d' e' -> event_le t e d' e'.
Proof.
  intros Hm. destruct m as [|[t set] m]; [left; split; [done|]; by intros ? ? ?%pending_nil|].
  assert (Hg : bt_get t ((t, set) :: m) = Some set) by apply bt_get_head.
  destruct (mo_sets _ Hm t set Hg) as [Hset Hne].
  assert (Hlt : forall d e, pending ((t, set) :: m) d e -> t <= d).
  { intros d e (set' & Hd & _). apply bt_get_elem in Hd; [|apply Hm].
    pose proof (bt_first_least m t set (mo_sorted _ Hm) d set' Hd) as Hle. by apply kle_Z. }
  simpl. destruct (Z.leb_spec t now) as [Hle|Hgt]; [right|left; split; [done|]; intros d e Hp; specialize (Hlt d e Hp); lia].
  destruct set as [|[e []] set']; [done|]. exists t, e. simpl.
  split_and!; [|done|..].
  - unfold erase. rewrite bt_get_head, bt_remove_head, bt_remove_head.
    destruct set' as [|x set']; [done|]. by rewrite bt_insert_head.
  - exists ((e, ()) :: set'). split; [done|]. apply bt_get_head.
  - intros d' e' Hp. destruct (Z.eq_dec t d') as [<-|Hn]; [right; split; [done|]|left; specialize (Hlt d' e' Hp); lia].
    apply (pending_set _ _ e' _ Hm Hg) in Hp. apply bt_key_elem in Hp as [[] Hin].
    by apply (bt_first_least set' e tt Hset e' tt).
Qed.

(** The pending events without one. *)
Definition without (s : TimedEvents) (t : Z) (e : TimedEvent) (s' : TimedEvents) : Prop :=
  forall d' e', pending (map s') d' e' <-> pending (map s) d' e' /\ ~ (d' = t /\ e' = e).

(** What a pop of [e] at [t] leaves: a timer's table entry is dropped or moved
    one interval on, with its event queued again. *)
Definition popped (s : TimedEvents) (t : Z) (e : TimedEvent) (s' : TimedEvents) : Prop :=
  match e with
  | SignalEvt id _ _ =>
      match bt_get id (signal_timers s) with
      | Some st =>
          phase st = Active /\ deadline st = t /\ e = SignalEvt id (target st) (sig st) /\
          timer_set s id (if interval st =? 0 then None
            else Some (STS (LogicalTime.add t (interval st)) (interval st) Active (target st) (sig st))) s'
      | None => without s t e s' /\ signal_timers s' = signal_timers s
      end
  | ThreadEvt _ => without s t e s' /\ signal_timers s' = signal_timers s
  end.

Lemma erase_timer_event s id t e :
  te_ok s -> is_child_exit id = false -> is_event_of id e = true -> pending (map s) t e ->
  forall d' e', pending (erase t e (map s)) d' e' <-> pending (map s) d' e' /\ is_event_of id e' = false.
Proof.
  intros Hs Hc He Hp d' e'. destruct (erase_spec (map s) t e (te_map s Hs)) as [_ Her].
  rewrite Her. split; intros [Hp' Hx]; (split; [done|]).
  - destruct (is_event_of id e') eqn:Ee; [|done]. destruct Hx.
    by apply (te_single s id Hs Hc d' e' t e).
  - intros [-> ->]. congruence.
Qed.

Lemma add_range a b : 0 <= a -> 0 <= b -> is_u64 (LogicalTime.add a b).
Proof. intros. unfold is_u64, LogicalTime.add, sat_add_u64, u64_max. lia. Qed.

Lemma pop_timer_spec s t id tgt sg st :
  te_ok s -> pending (map s) t (SignalEvt id tgt sg) -> bt_get id (signal_timers s) = Some st ->
  phase st = Active /\ deadline st = t /\ tgt = target st /\ sg = sig st /\
  timer_set s id (if interval st =? 0 then None
      else Some (STS (LogicalTime.add t (interval st)) (interval st) Active (target st) (sig st)))
    (let s1 := set_map (erase t (SignalEvt id tgt sg) (map s)) s in
     if interval st =? 0 then set_signal_timers (bt_remove id (signal_timers s1)) s1
     else add_event (LogicalTime.add t (interval st)) (SignalEvt id tgt sg)
            (set_signal_timers (bt_insert id
               (STS (LogicalTime.add t (interval st)) (interval st) (phase st) (target st) (sig st))
               (signal_timers s1)) s1)).
Proof.
  intros Hs Hp Hst. destruct (timer_not_controlled s id st Hs Hst) as [Hc Hnc].
  assert (He : is_event_of id (SignalEvt id tgt sg) = true) by (simpl; by apply bool_decide_eq_true).
  pose proof Hp as Hq. apply (te_signals s Hs id t _ Hc He) in Hq. unfold queued_event in Hq.
  rewrite Hst in Hq. case_bool_decide as Ha; [|done]. injection Hq as Hd Ht Hg. subst tgt sg.
  split_and!; try done.
  pose proof (erase_timer_event s id t _ Hs Hc He Hp) as Her.
  destruct (erase_spec (map s) t (SignalEvt id (target st) (sig st)) (te_map s Hs)) as [Hmo _].
  destruct (te_states s Hs id st Hst) as [[? ?] [? ?]].
  set (o := if interval st =? 0 then None
    else Some (STS (LogicalTime.add t (interval st)) (interval st) Active (target st) (sig st))).
  assert (Hts := timer_set_intro s (erase t (SignalEvt id (target st) (sig st)) (map s)) id o Hs Hmo Hc Her Hnc).
  assert (Ho : forall st', o = Some st' -> state_ok st').
  { unfold o. intros st'. destruct (interval st =? 0); [done|]. intros [= <-].
    split; simpl; [apply add_range; lia|split; lia]. }
  specialize (Hts Ho). revert Hts. unfold o. clear o Ho. simpl. rewrite Ha.
  by destruct (interval st =? 0).
Qed.

Lemma popped_other_ok s t e :
  te_ok s -> (forall id, is_child_exit id = false -> is_event_of id e = false) -> 
  te_ok (set_map (erase t e (map s)) s) /\ without s t e (set_map (erase t e (map s)) s).
Proof.
  intros Hs He. destruct (erase_spec (map s) t e (te_map s Hs)) as [Hmo Her].
  split; [|exact Her]. apply te_ok_frame; [done|done|..].
  - intros id d' e' Hc He'. rewrite Her. split; [by intros [? _]|]. intros Hp. split; [done|].
    intros [-> ->]. by rewrite (He id Hc) in He'.
  - intros x d d' [H1 _]%Her [H2 _]%Her. by eapply te_threads.
  - intros d e' [H1 _]%Her. by eapply te_times.
Qed.

Lemma pop_spec s now :
  te_ok s ->
  (pop_if_before s now = Done (None, s) /\ forall d e, pending (map s) d e -> now < d)
  \/ exists t e s', pop_if_before s now = Done (Some (t, e), s') /\ t <= now /\ pending (map s) t e
       /\ (forall d' e', pending (map s) d' e' -> event_le t e d' e')
       /\ te_ok s' /\ popped s t e s'.
Proof.
  intros Hs. unfold pop_if_before.
  destruct (take_first_spec now (map s) (te_map s Hs)) as [[-> Hn]|(t & e & -> & Ht & Hp & Hmin)];
    [by left|right]. bind_done. exists t, e.
  destruct e as [id tgt sg|th].
  2:{ destruct (popped_other_ok s t (ThreadEvt th) Hs) as [Hok Hw]; [done|].
      eexists. split_and!; [done|done|done|done|exact Hok|by split]. }
  destruct (bt_get id (signal_timers s)) as [st|] eqn:Est.
  - destruct (pop_timer_spec s t id tgt sg st Hs Hp Est) as (Ha & Hd & Htg & Hsg & Hts).
    destruct (timer_not_controlled s id st Hs Est) as [Hc Hnc].
    assert (match id with Alarm pid => if bool_decide (bt_get pid (controlled_real_timer_deadlines s) = Some t)
              then Some pid else None | _ => None end = None) as Hno.
    { destruct id as [pid| |]; try done. simpl in Hnc.
      by destruct (bt_get pid (controlled_real_timer_deadlines s)). }
    cbn [controlled_real_timer_deadlines set_map signal_timers]. rewrite Hno, Est.
    rewrite (proj2 (Z.eqb_eq _ _)) by done.
    eexists. split_and!; [done|done|done|done|..].
    + cbn [signal_timers set_map] in Hts. destruct (interval st =? 0); exact (ts_ok _ _ _ _ Hts).
    + unfold popped. rewrite Est. split_and!; [done|done|by subst|].
      cbn [signal_timers set_map] in Hts. destruct (interval st =? 0); exact Hts.
  - destruct (is_child_exit id) eqn:Hc.
    + destruct id as [| |c p]; try done. cbn [signal_timers set_map]. rewrite Est.
      destruct (popped_other_ok s t (SignalEvt (ChildExit c p) tgt sg) Hs) as [Hok Hw].
      { intros id' Hc'. simpl. apply bool_decide_eq_false. by intros <-. }
      eexists. split_and!; [done|done|done|done|exact Hok|]. unfold popped. by rewrite Est.
    + assert (He : is_event_of id (SignalEvt id tgt sg) = true) by (simpl; by apply bool_decide_eq_true).
      pose proof Hp as Hq. apply (te_signals s Hs id t _ Hc He) in Hq. unfold queued_event in Hq.
      rewrite Est in Hq. destruct id as [pid| |]; try done. simpl in Hq.
      destruct (bt_get pid (controlled_real_timer_deadlines s)) as [d|] eqn:Ed; [|done].
      simpl in Hq. injection Hq as -> _ _.
      cbn [controlled_real_timer_deadlines set_map]. rewrite Ed, bool_decide_true by done.
      destruct (erase_spec (map s) t (SignalEvt (Alarm pid) tgt sg) (te_map s Hs)) as [Hmo Her].
      destruct (controlled_set_intro s (erase t (SignalEvt (Alarm pid) tgt sg) (map s)) pid None) as [Hok _ _ _];
        try done; [by apply erase_timer_event|].
      eexists. split_and!; [done|done|done|done|exact Hok|]. unfold popped. rewrite Est. by split.
Qed.

(** * Thread waits *)

Lemma insert_spec s ns t :
  te_ok s -> is_u64 ns -> (forall d, ~ pending (map s) d (ThreadEvt t)) ->
  exists s', insert s ns t = Done s' /\ te_ok s' /\ signal_timers s' = signal_timers s
    /\ forall d e, pending (map s') d e <-> pending (map s) d e \/ d = ns /\ e = ThreadEvt t.
Proof.
  intros Hs Hns Ht. pose proof (te_map s Hs) as Hm. unfold insert.
  pose proof (entry_insert_fresh (map s) ns (ThreadEvt t) Hm (Ht ns)) as Hf.
  pose proof (entry_insert_ok (map s) ns (ThreadEvt t) Hm) as Hok.
  pose proof (fun d e => entry_insert_pending (map s) ns (ThreadEvt t) d e Hm) as Hp.
  destruct (entry_insert ns (ThreadEvt t) (map s)) as [fresh m]. simpl in *. subst fresh.
  eexists. split_and!; [done| |done|exact Hp]. apply te_ok_frame; [done|done|..].
  - intros id d e Hc He. rewrite Hp. split; [|by left]. by intros [?|[-> ->]].
  - intros t' d d'. rewrite !Hp. intros [H1|[-> E1]] [H2|[-> E2]]; simplify_eq; try done.
    + by eapply te_threads.
    + by destruct (Ht d).
    + by destruct (Ht d').
  - intros d e. rewrite Hp. intros [?|[-> _]]; [by eapply te_times|done].
Qed.

Lemma child_exit_spec s ns c p pt :
  te_ok s -> is_u64 ns -> te_ok (insert_child_exit s ns c p pt).
Proof.
  intros Hs Hns. pose proof (te_map s Hs) as Hm. unfold insert_child_exit, add_event.
  set (ev := SignalEvt _ _ _).
  pose proof (fun d e => entry_insert_pending (map s) ns ev d e Hm) as Hp.
  apply te_ok_frame; [done|by apply entry_insert_ok|..].
  - intros id d e Hc He. rewrite Hp. split; [|by left]. intros [?|[-> ->]]; [done|].
    simpl in He. apply bool_decide_eq_true in He. by subst id.
  - intros t' d d'. rewrite !Hp. intros [H1|[_ ?]] [H2|[_ ?]]; try done. by eapply te_threads.
  - intros d e. rewrite Hp. intros [?|[-> _]]; [by eapply te_times|done].
Qed.

(** ** [remove] *)

Lemma scan_absent t m b r :
  (forall d set, (d, set) ∈ m -> bt_ok set /\ set <> [] /\ bt_mem (ThreadEvt t) set = false) ->
  remove_thread_scan t m b r = Done (m, r).
Proof.
  revert b r. induction m as [|[d set] m IH]; intros b r Hm; [done|]. cbn [remove_thread_scan].
  destruct (Hm d set ltac:(left)) as (Hok & Hne & Hb). rewrite Hb. simpl andb. cbv iota.
  rewrite bt_remove_None; [|done|unfold bt_mem in Hb; by destruct (bt_get _ _)].
  rewrite IH by (intros d' set' Hin; apply (Hm d'); by right). simpl. by destruct set.
Qed.

Lemma scan_present t m d0 set0 r :
  bt_ok m -> (forall d set, (d, set) ∈ m -> bt_ok set /\ set <> []) -> (d0, set0) ∈ m ->
  (forall d set, (d, set) ∈ m -> bt_mem (ThreadEvt t) set = true <-> d = d0) ->
  remove_thread_scan t m false r
  = Done (bt_insert d0 (bt_remove (ThreadEvt t) set0) m,
          match bt_remove (ThreadEvt t) set0 with [] => Some d0 | _ => r end).
Proof.
  revert r. induction m as [|[d set] m IH]; intros r Hb Hs Hin Huniq; [by inversion Hin|].
  apply bt_ok_cons in Hb as [Hb Hlt]. cbn [remove_thread_scan].
  destruct (decide (d = d0)) as [->|Hne].
  - assert (set = set0) as ->.
    { apply elem_of_cons in Hin as [[= ->]|Hin]; [done|].
      apply (proj1 (Forall_forall _ _) Hlt) in Hin. by apply klt_irrefl in Hin. }
    rewrite (proj2 (Huniq d0 set0 ltac:(left)) eq_refl). simpl andb. cbv iota.
    rewrite scan_absent; [|].
    + bind_done. by rewrite bt_insert_head.
    + intros d set Hd. destruct (Hs d set ltac:(by right)) as [? ?]. split_and!; [done..|].
      apply not_true_iff_false. intros Hm%(Huniq d set ltac:(by right)). subst d.
      apply (proj1 (Forall_forall _ _) Hlt) in Hd. by apply klt_irrefl in Hd.
  - apply elem_of_cons in Hin as [[= -> _]|Hin]; [done|].
    assert (Hm : bt_mem (ThreadEvt t) set = false).
    { apply not_true_iff_false. by intros ?%(Huniq d set ltac:(left)). }
    rewrite Hm. simpl andb. cbv iota.
    destruct (Hs d set ltac:(left)) as [Hok Hn].
    rewrite (bt_remove_None set); [|done|unfold bt_mem in Hm; by destruct (bt_get _ _)].
    simpl orb. replace (match set with [] => Some d | _ => r end) with r by (by destruct set).
    rewrite IH; [|done|intros d' set' ?; apply (Hs d'); by right|done|intros d' set' ?; apply (Huniq d'); by right].
    simpl. pose proof (proj1 (Forall_forall _ _) Hlt _ Hin) as Hk. simpl in Hk.
    by rewrite (proj2 (klt_gt d0 d) Hk).
Qed.

Lemma remove_spec s t :
  te_ok s ->
  exists s', remove s t = Done s' /\ te_ok s' /\ signal_timers s' = signal_timers s
    /\ forall d e, pending (map s') d e <-> pending (map s) d e /\ e <> ThreadEvt t.
Proof.
  intros Hs. pose proof (te_map s Hs) as Hm. unfold remove.
  assert (Hsets : forall d set, (d, set) ∈ map s -> bt_ok set /\ set <> []).
  { intros d set Hin. apply (mo_sets _ Hm d). by apply bt_get_elem; [apply Hm|]. }
  assert (Hmem : forall d set, (d, set) ∈ map s ->
    bt_mem (ThreadEvt t) set = true <-> pending (map s) d (ThreadEvt t)).
  { intros d set Hin. apply bt_get_elem in Hin; [|apply Hm].
    destruct (mo_sets _ Hm d set Hin) as [Hok _].
    rewrite (pending_set _ d (ThreadEvt t) set Hm Hin). by apply bt_mem_true. }
  destruct (thread_deadline s t) as [d0|] eqn:Ed; unfold thread_deadline in Ed.
  - destruct (List.find _ (map s)) as [[d set0]|] eqn:Ef; [|done]. injection Ed as ->.
    apply find_Some_elem in Ef as [Hin Hb]. simpl in Hb.
    pose proof (proj1 (Hmem _ _ Hin) Hb) as Hp0.
    rewrite (scan_present t (map s) d0 set0 None); [|apply Hm|done|done|].
    2:{ intros d set Hd. rewrite (Hmem d set Hd). split; [|by intros ->].
        intros Hp. by apply (te_threads s Hs t). }
    simpl. destruct (popped_other_ok s d0 (ThreadEvt t) Hs) as [Hok Hw]; [done|].
    assert (Hg : bt_get d0 (map s) = Some set0) by (apply bt_get_elem; [apply Hm|done]).
    eexists. split; [done|].
    match goal with |- te_ok (set_map ?m s) /\ _ => assert (m = erase d0 (ThreadEvt t) (map s)) as -> end.
    { unfold erase. rewrite Hg. destruct (bt_remove (ThreadEvt t) set0); [|done].
      apply bt_ext; [apply bt_remove_ok, bt_insert_ok, Hm|apply bt_remove_ok, Hm|].
      intros k. destruct (decide (d0 = k)) as [<-|Hn].
      - by rewrite !bt_get_remove_eq by (try apply bt_insert_ok; apply Hm).
      - rewrite !bt_get_remove_ne, bt_get_insert_ne by (try apply bt_insert_ok; apply Hm || done). done. }
    split_and!; [exact Hok|done|]. intros d e. rewrite (Hw d e). split; intros [Hp Hx]; (split; [done|]).
    + intros ->. apply Hx. split; [|done]. by apply (te_threads s Hs t).
    + by intros [_ ->].
  - destruct (List.find _ (map s)) as [?|] eqn:Ef; [done|].
    rewrite scan_absent.
    2:{ intros d set Hin. destruct (Hsets d set Hin). split_and!; [done..|].
        exact (find_None_all _ _ _ Ef Hin). }
    simpl. exists s. split_and!; [by destruct s|done|done|]. intros d e. split; [|by intros [? _]].
    intros Hp. split; [done|]. intros ->. destruct Hp as (set & Hg & Hp).
    assert (Hin : (d, set) ∈ map s) by (apply bt_get_elem; [apply Hm|done]).
    pose proof (find_None_all _ _ _ Ef Hin) as Hf. simpl in Hf. unfold bt_mem in Hf. by rewrite Hp in Hf.
Qed.
