(* ===== verification/TimedEventsProps.v ===== *)
(** What [TimedEvents] promises the scheduler. *)
From Stdlib Require Import ZArith Lia List.
From stdpp Require Import base gmap list.
From S2P Require Import Prelude BTree Time TimedEvents TimedEventsInv.

(** * Sequences of calls *)

Inductive te_call :=
  | TInsert (ns : Z) (t : DetTid)
  | TAlarm (ns : Z) (dp : DetPid) (dt : DetTid) (sg : Signal) (iv : Z)
  | TPosix (ns : Z) (dp : DetPid) (tgt : SignalTarget) (timer : Z) (sg : TimerSignal) (iv : Z)
  | TControlled (dl : Z) (pid : DetPid)
  | TChildExit (ns : Z) (c p : DetPid) (pt : DetTid)
  | TRemoveControlled (pid : DetPid)
  | TRemoveAlarm (dp : DetPid)
  | TRemovePosix (dp : DetPid) (timer : Z)
  | TRemovePosixAll (dp : DetPid)
  | TRemoveProcess (dp : DetPid)
  | TRemove (t : DetTid)
  | TAfterFire (id : SignalTimerId) (fired_at : Z) (copy : option bool) (now : Z)
  | TRearm (id : SignalTimerId) (t : Z)
  | TSetCopy (dp : DetPid) (copy : bool)
  | TPop (now : Z).

Definition te_exec (c : te_call) (s : TimedEvents) : outcome TimedEvents :=
  match c with
  | TInsert ns t => insert s ns t
  | TAlarm ns dp dt sg iv => '(_, s') ← insert_alarm s ns dp dt sg iv; Done s'
  | TPosix ns dp tgt timer sg iv => insert_posix_timer s ns dp tgt timer sg iv
  | TControlled dl pid => insert_controlled_real_timer_deadline s dl pid
  | TChildExit ns c p pt => Done (insert_child_exit s ns c p pt)
  | TRemoveControlled pid => remove_controlled_real_timer_deadline s pid
  | TRemoveAlarm dp => '(_, s') ← remove_alarm s dp; Done s'
  | TRemovePosix dp timer => remove_posix_timer s dp timer
  | TRemovePosixAll dp => remove_posix_timers s dp
  | TRemoveProcess dp => remove_process_timers s dp
  | TRemove t => remove s t
  | TAfterFire id fired_at copy now => signal_timer_after_fire s id fired_at copy now
  | TRearm id t => Done (signal_timer_rearm_after s id t).2
  | TSetCopy dp copy => Done (alarm_set_copy s dp copy)
  | TPop now => '(_, s') ← pop_if_before s now; Done s'
  end.
Fixpoint te_run (cs : list te_call) (s : TimedEvents) : outcome TimedEvents :=
  match cs with [] => Done s | c :: cs' => s' ← te_exec c s; te_run cs' s' end.

(** The callers' contract: a thread waits for one deadline at a time, and a
    process uses either the traced or the controlled form of its real timer. *)
Definition te_call_ok (c : te_call) (s : TimedEvents) : Prop :=
  match c with
  | TInsert ns t => is_u64 ns /\ thread_deadline s t = None
  | TAlarm ns dp _ _ iv =>
      is_u64 ns /\ is_u64 iv /\ bt_get dp (controlled_real_timer_deadlines s) = None
  | TPosix ns _ _ _ _ iv => is_u64 ns /\ is_u64 iv
  | TControlled dl pid => is_u64 dl /\ bt_get (Alarm pid) (signal_timers s) = None
  | TChildExit ns _ _ _ => is_u64 ns
  | TAfterFire _ fired_at _ _ => is_u64 fired_at
  | _ => True
  end.
Fixpoint te_calls_ok (cs : list te_call) (s : TimedEvents) : Prop :=
  match cs with
  | [] => True
  | c :: cs' => te_call_ok c s /\ forall s', te_exec c s = Done s' -> te_calls_ok cs' s'
  end.

Lemma thread_deadline_spec s t d :
  te_ok s -> thread_deadline s t = Some d <-> pending (map s) d (ThreadEvt t).
Proof.
  intros Hs. pose proof (te_map s Hs) as Hm.
  assert (Hp : forall d' set, (d', set) ∈ map s -> bt_mem (ThreadEvt t) set = true ->
    pending (map s) d' (ThreadEvt t)).
  { intros d' set Hin Hb. apply bt_get_elem in Hin; [|apply Hm]. exists set. split; [done|].
    unfold bt_mem in Hb. by destruct (bt_get (ThreadEvt t) set) as [[]|]. }
  unfold thread_deadline. destruct (List.find _ (map s)) as [[d' set]|] eqn:Ef; simpl.
  - apply find_Some_elem in Ef as [Hin Hb]. specialize (Hp _ _ Hin Hb).
    split; [by intros [= <-]|]. intros Hd. f_equal. by apply (te_threads s Hs t).
  - split; [done|]. intros (set & Hg & He). apply bt_get_elem in Hg; [|apply Hm].
    pose proof (find_None_all _ _ _ Ef Hg) as Hf. simpl in Hf. unfold bt_mem in Hf. by rewrite He in Hf.
Qed.
Lemma thread_deadline_None s t d :
  te_ok s -> thread_deadline s t = None -> ~ pending (map s) d (ThreadEvt t).
Proof. intros Hs Hn Hp%thread_deadline_spec; [congruence|done]. Qed.

Lemma ids_not_child s f :
  te_ok s -> Forall (fun id => is_child_exit id = false) (List.filter f ((signal_timers s).*1)).
Proof.
  intros Hs. apply Forall_forall. intros id [Hin _]%list_elem_of_In%filter_In.
  apply list_elem_of_In, bt_key_elem in Hin as [st Hin]. apply bt_get_elem in Hin; [|apply Hs].
  by apply (timer_not_controlled s id st).
Qed.

Lemma te_exec_spec c s :
  te_ok s -> te_call_ok c s -> exists s', te_exec c s = Done s' /\ te_ok s'.
Proof.
  intros Hs Hc. destruct c; cbn [te_exec te_call_ok] in *.
  - destruct Hc as [Hns Ht]. destruct (insert_spec s ns t) as (s' & E & Hok & _); [done|done| |eauto].
    intros d. by apply thread_deadline_None.
  - destruct Hc as (? & ? & Hn). unfold insert_alarm.
    destruct (insert_signal_timer_spec s (Alarm dp) ns (Process dt) (Send sg) iv) as (s' & -> & [Hok]);
      [done|done|simpl; by rewrite Hn|done|done|]. simpl. eauto.
  - destruct Hc as (? & ?). unfold insert_posix_timer.
    destruct (insert_signal_timer_spec s (Posix dp timer) ns tgt sg iv) as (s' & -> & [Hok]); [done..|].
    simpl. eauto.
  - destruct Hc. destruct (insert_controlled_spec s dl pid) as (s' & -> & ? & _); [done..|]. eauto.
  - eexists. split; [done|]. by apply child_exit_spec.
  - destruct (remove_controlled_spec s pid Hs) as (m' & -> & _ & _ & ?). eauto.
  - unfold remove_alarm. destruct (remove_signal_timer_spec s (Alarm dp) Hs eq_refl) as (s' & -> & Hr).
    simpl. eexists. split; [done|]. destruct (bt_get _ _); [apply Hr|by subst].
  - unfold remove_posix_timer.
    destruct (remove_signal_timer_spec s (Posix dp timer) Hs eq_refl) as (s' & -> & Hr).
    simpl. eexists. split; [done|]. destruct (bt_get _ _); [apply Hr|by subst].
  - unfold remove_posix_timers.
    destruct (remove_signal_timers_spec (List.filter (is_posix_of dp) ((signal_timers s).*1)) s)
      as (s' & -> & ? & _); [done|by apply ids_not_child|]. eauto.
  - unfold remove_process_timers.
    destruct (remove_controlled_spec s dp Hs) as (m' & -> & _ & _ & Hok). bind_done.
    destruct (remove_signal_timers_spec (List.filter (is_timer_of dp) ((signal_timers s).*1)) _ Hok)
      as (s' & E & ? & _); [by apply (ids_not_child s)|]. simpl in E. eauto.
  - destruct (remove_spec s t Hs) as (s' & -> & ? & _). eauto.
  - destruct (after_fire_spec s id fired_at copy now Hs Hc) as (s' & -> & ? & _). eauto.
  - destruct (rearm_spec s id t Hs) as (r & s' & -> & ? & _). simpl. eauto.
  - eexists. split; [done|]. by apply set_copy_spec.
  - destruct (pop_spec s now Hs) as [[-> _]|(t & e & s' & -> & _ & _ & _ & ? & _)]; simpl; eauto.
Qed.

Lemma te_run_spec cs s :
  te_ok s -> te_calls_ok cs s -> exists s', te_run cs s = Done s' /\ te_ok s'.
Proof.
  revert s. induction cs as [|c cs IH]; intros s Hs Hc; cbn [te_run te_calls_ok] in *; [eauto|].
  destruct Hc as [Hc Hcs]. destruct (te_exec_spec c s Hs Hc) as (s1 & E & Hok).
  rewrite E. bind_done. by apply IH; [|apply Hcs].
Qed.

(** * The properties *)


(** a pop yields an event exactly when one is due, and then the least due
    event: no pending event has an earlier deadline, nor a smaller event at
    the same deadline. With nothing due the collection is unchanged. *)
Theorem pop_least_due s now :
  te_ok s ->
  exists r s', pop_if_before s now = Done (r, s') /\ te_ok s' /\
    match r with
    | Some (t, e) => t <= now /\ pending (map s) t e
        /\ forall d' e', pending (map s) d' e' -> event_le t e d' e'
    | None => s' = s /\ forall d e, pending (map s) d e -> now < d
    end.
Proof.
  intros Hs. destruct (pop_spec s now Hs) as [[E Hn]|(t & e & s' & E & H1 & H2 & H3 & H4 & _)].
  - by exists None, s.
  - by exists (Some (t, e)), s'.
Qed.

(** popping a one-shot timer disarms it; popping a periodic timer queues
    it again exactly one interval later (saturating) with the same receiver
    and signal, as its only event; no other pending event changes. *)
Theorem pop_rearms_periodic s now t id tgt sg s' st :
  te_ok s -> pop_if_before s now = Done (Some (t, SignalEvt id tgt sg), s') ->
  bt_get id (signal_timers s) = Some st ->
  deadline st = t /\
  bt_get id (signal_timers s') =
    (if interval st =? 0 then None
     else Some (STS (Z.min u64_max (t + interval st)) (interval st) Active tgt sg)) /\
  forall d e, pending (map s') d e <->
    (pending (map s) d e /\ is_event_of id e = false)
    \/ (interval st <> 0 /\ d = Z.min u64_max (t + interval st) /\ e = SignalEvt id tgt sg).
Proof.
  intros Hs E Hst. destruct (pop_spec s now Hs) as [[E' _]|(t1 & e1 & s1 & E' & _ & _ & _ & _ & Hp)];
    rewrite E in E'; [done|]. injection E' as <- <- <-.
  unfold popped in Hp. rewrite Hst in Hp. destruct Hp as (Ha & Hd & [= -> ->] & [_ _ Ht _ Hpe]).
  split; [done|]. unfold LogicalTime.add, sat_add_u64 in *. rewrite Ht.
  destruct (Z.eqb_spec (interval st) 0) as [Hz|Hz].
  - split; [done|]. intros d e. rewrite Hpe. split.
    + intros [?|(? & ? & _)]; [by left|done].
    + intros [?|[? _]]; [by left|done].
  - split; [done|]. intros d e. rewrite Hpe. split.
    + intros [?|(st' & [= <-] & _ & -> & ->)]; [by left|]. right. done.
    + intros [?|(_ & -> & ->)]; [by left|]. right. eexists. split; [done|]. done.
Qed.

(** the grid point a periodic timer restarts at is the first point
    [last + k * interval] (k >= 1) strictly after [t]; when that point does not
    fit in 64 bits the deadline is the end of time. *)
Theorem grid_after_first_point last iv t :
  is_u64 last -> 0 < iv <= u64_max -> is_u64 t ->
  exists k, 1 <= k /\ t < last + k * iv /\ (k = 1 \/ last + (k - 1) * iv <= t)
    /\ grid_after last iv t = (if last + k * iv <=? u64_max then last + k * iv else u64_max).
Proof.
  intros [? ?] Hiv [? ?]. unfold grid_after, checked_grid_after, sat_sub_u64.
  rewrite (proj2 (Z.eqb_neq iv 0)) by lia.
  exists (Z.max 0 (t - last) / iv + 1).
  assert (0 <= Z.max 0 (t - last) / iv <= Z.max 0 (t - last))
    by (split; [apply Z.div_pos; lia|apply Z.div_le_upper_bound; nia]).
  pose proof (Z.div_mod (Z.max 0 (t - last)) iv ltac:(lia)).
  pose proof (Z.mod_pos_bound (Z.max 0 (t - last)) iv ltac:(lia)).
  set (k := Z.max 0 (t - last) / iv) in *.
  split_and!; [lia|nia| |].
  - destruct (decide (last <= t)) as [Hle|Hgt]; [right; nia|left].
    assert (Z.max 0 (t - last) = 0) as Hz by lia. unfold k. rewrite Hz, Z.div_0_l; lia.
  - unfold checked_u64.
    destruct (Z.leb_spec (last + (k + 1) * iv) u64_max) as [Hfit|Hbig].
    + rewrite (proj2 (Z.leb_le 0 (k + 1))), (proj2 (Z.leb_le (k + 1) u64_max)) by nia. simpl.
      rewrite (proj2 (Z.leb_le 0 ((k + 1) * iv))), (proj2 (Z.leb_le ((k + 1) * iv) u64_max)) by nia. simpl.
      rewrite (proj2 (Z.leb_le 0 (last + (k + 1) * iv))), (proj2 (Z.leb_le (last + (k + 1) * iv) u64_max)) by nia.
      done.
    + destruct ((0 <=? k + 1) && (k + 1 <=? u64_max)); simpl; [|done].
      destruct ((0 <=? (k + 1) * iv) && ((k + 1) * iv <=? u64_max)); simpl; [|done].
      rewrite (proj2 (Z.leb_gt (last + (k + 1) * iv) u64_max)) by lia. by rewrite andb_false_r.
Qed.

(** at most one expiry of a periodic timer is outstanding: after the pop
    at [fired_at] and the step to [Inactive], the timer has no event pending;
    the dequeue at [t] queues exactly one, on the timer's original grid, and
    a second dequeue changes nothing. *)
Theorem periodic_timer_waits_for_dequeue s now fired_at id tgt sg s1 st copy t :
  te_ok s -> pop_if_before s now = Done (Some (fired_at, SignalEvt id tgt sg), s1) ->
  bt_get id (signal_timers s) = Some st -> interval st <> 0 ->
  exists s2 s3, signal_timer_after_fire s1 id fired_at (Some copy) now = Done s2
    /\ (forall d e, pending (map s2) d e -> is_event_of id e = false)
    /\ signal_timer_rearm_after s2 id t = (Some (grid_after fired_at (interval st) t), s3)
    /\ (forall d e, pending (map s3) d e /\ is_event_of id e = true
          <-> d = grid_after fired_at (interval st) t /\ e = SignalEvt id tgt sg)
    /\ signal_timer_rearm_after s3 id t = (None, s3).
Proof.
  intros Hs E Hst Hiv.
  destruct (pop_spec s now Hs) as [[E' _]|(t1 & e1 & s' & E' & _ & Hpend & _ & Hok1 & Hp)];
    rewrite E in E'; [done|]. injection E' as <- <- <-.
  unfold popped in Hp. rewrite Hst in Hp. destruct Hp as (Ha & Hd & [= -> ->] & Hts).
  apply Z.eqb_neq in Hiv. rewrite Hiv in Hts. destruct Hts as [_ _ Ht1 _ _].
  destruct (after_fire_spec s1 id fired_at (Some copy) now Hok1) as (s2 & E2 & Hok2 & H2).
  { exact (te_times s Hs _ _ Hpend). }
  rewrite Ht1 in H2. simpl in H2. rewrite Hiv in H2. simpl in H2. rewrite Z.eqb_refl in H2.
  destruct H2 as [_ _ Ht2 _ Hp2].
  destruct (rearm_spec s2 id t Hok2) as (r & s3 & E3 & Hok3 & H3).
  rewrite Ht2 in H3. simpl in H3. destruct H3 as [-> [_ _ Ht3 _ Hp3]].
  assert (Hno : forall d e, pending (map s2) d e -> is_event_of id e = false).
  { intros d e [[_ ?]|(st' & [= <-] & ? & _)]%Hp2; done. }
  exists s2, s3. split_and!; [done|exact Hno|exact E3| |].
  - intros d e. rewrite Hp3. split.
    + intros [[[_ ?]|(st' & [= <-] & _ & -> & ->)] He]; [congruence|done].
    + intros [-> ->]. split; [|simpl; by apply bool_decide_eq_true]. right. eexists. split; [done|]. done.
  - unfold signal_timer_rearm_after. by rewrite Ht3.
Qed.

(** retiring a process cancels all its timers and nothing else: no alarm
    or POSIX-timer event of it stays pending, every other event does. *)
Theorem remove_process_timers_exact s dp :
  te_ok s ->
  exists s', remove_process_timers s dp = Done s' /\ te_ok s'
    /\ (forall id, is_timer_of dp id = true -> bt_get id (signal_timers s') = None)
    /\ bt_get dp (controlled_real_timer_deadlines s') = None
    /\ forall d e, pending (map s') d e <-> pending (map s) d e
         /\ forall id, is_timer_of dp id = true -> is_event_of id e = false.
Proof.
  intros Hs. unfold remove_process_timers.
  destruct (remove_controlled_spec s dp Hs) as (m' & -> & _ & Hp1 & Hok). bind_done.
  destruct (remove_signal_timers_spec (List.filter (is_timer_of dp) ((signal_timers s).*1)) _ Hok)
    as (s' & E & Hok' & Hct & Hget & Hp); [by apply (ids_not_child s)|]. simpl in *.
  assert (Hids : forall id, id ∈ List.filter (is_timer_of dp) ((signal_timers s).*1)
                 <-> is_timer_of dp id = true /\ is_Some (bt_get id (signal_timers s))).
  { intros id. rewrite list_elem_of_In, filter_In, <- list_elem_of_In, bt_key_elem.
    split; [intros [[st Hin] ?]|intros [? [st Hin]]]; (split; [|done || eauto]);
      try done; try exists st; by apply bt_get_elem; [apply Hs|]. }
  exists s'. split_and!; [done|done|..].
  - intros id Hid. rewrite Hget. case_decide as Hin; [done|].
    destruct (bt_get id (signal_timers s)) eqn:Eg; [|done]. destruct Hin. apply Hids. eauto.
  - rewrite Hct. apply bt_get_remove_eq, Hs.
  - intros d e. rewrite Hp, Hp1. split.
    + intros [[Hpe Hc] Hall]. split; [done|]. intros id Hid.
      destruct (bt_get id (signal_timers s)) as [st|] eqn:Eg; [by apply Hall; [apply Hids|]; eauto|].
      destruct (is_event_of id e) eqn:Ee; [|done].
      assert (Hch : is_child_exit id = false) by (by destruct id).
      apply (te_signals s Hs id d e Hch Ee) in Hpe. unfold queued_event in Hpe. rewrite Eg in Hpe.
      destruct id as [pid| |]; try done. simpl in Hid, Hpe. apply Z.eqb_eq in Hid. subst pid.
      destruct (bt_get dp (controlled_real_timer_deadlines s)); [|done].
      rewrite Hc in Ee by eauto. done.
    + intros [Hpe Hall]. split; [split; [done|]|].
      * intros _. apply Hall. simpl. apply Z.eqb_refl.
      * intros id [Hid _]%Hids _. by apply Hall.
Qed.

(** a thread that registers a deadline is found waiting for exactly that
    deadline, and removing the thread restores what was pending before. *)
Theorem thread_wait_roundtrip s ns t :
  te_ok s -> is_u64 ns -> thread_deadline s t = None ->
  exists s1 s2, insert s ns t = Done s1 /\ thread_deadline s1 t = Some ns
    /\ remove s1 t = Done s2 /\ thread_deadline s2 t = None
    /\ forall d e, pending (map s2) d e <-> pending (map s) d e.
Proof.
  intros Hs Hns Ht. destruct (insert_spec s ns t Hs Hns) as (s1 & E1 & Hok1 & _ & Hp1);
    [intros d; by apply thread_deadline_None|].
  destruct (remove_spec s1 t Hok1) as (s2 & E2 & Hok2 & _ & Hp2).
  exists s1, s2. split_and!; [done| |done| |].
  - apply thread_deadline_spec; [done|]. rewrite Hp1. by right.
  - destruct (thread_deadline s2 t) as [d|] eqn:Ed; [|done].
    apply thread_deadline_spec in Ed; [|done]. by apply Hp2 in Ed as [_ ?].
  - intros d e. rewrite Hp2, Hp1. split; [by intros [[?|[_ ->]] ?]|].
    intros Hp. split; [by left|]. intros ->. by apply (thread_deadline_None s t d Hs Ht).
Qed.

(** the earliest deadline the scheduler may fast-forward to is a lower
    bound of every pending deadline and is attained. *)
Theorem next_deadline_least s :
  te_ok s ->
  match next_deadline s with
  | Some d => (exists e, pending (map s) d e) /\ forall d' e', pending (map s) d' e' -> d <= d'
  | None => forall d e, ~ pending (map s) d e
  end.
Proof.
  intros Hs. destruct (take_first_spec u64_max (map s) (te_map s Hs)) as [[E Hn]|(t & e & E & _ & Hp & Hmin)];
    unfold next_deadline; destruct (map s) as [|[d set] m] eqn:Em; simpl in *; try done.
  - by intros ? ? ?%pending_nil.
  - exfalso. assert (Hg : bt_get d (map s) = Some set) by (rewrite Em; apply bt_get_head).
    destruct (mo_sets _ (te_map s Hs) d set Hg) as [Hok Hne]. destruct set as [|[e []] set]; [done|].
    assert (Hpd : pending (map s) d e) by (exists ((e, ()) :: set); split; [done|]; apply bt_get_head).
    pose proof (te_times s Hs d e Hpd) as [_ ?]. rewrite Em in Hpd. specialize (Hn d e Hpd). lia.
  - destruct (d <=? u64_max); [|done]. destruct set as [|[x []] set]; [done|]. simpl in E.
    injection E as -> -> _. split; [by exists e|]. intros d' e' [?|[-> _]]%Hmin; lia.
Qed.

(** * A concrete collection

    Process 7 has a periodic alarm and a one-shot POSIX timer, process 11 a
    controlled timer, thread 5 sleeps and child 12 exits. *)
Definition example_events_calls : list te_call :=
  [TAlarm 1000 7 8 SIGALRM 250; TPosix 1500 7 (Thread 9) 3 (Send 10) 0; TInsert 1200 5;
   TControlled 2000 11; TChildExit 1000 12 7 7].
Definition example_events : TimedEvents :=
  match te_run example_events_calls no_events with Done s => s | Panic _ => no_events end.
Definition alarm_event : TimedEvent := SignalEvt (Alarm 7) (Process 8) (Send SIGALRM).
Definition alarm_popped : TimedEvents :=
  match pop_if_before example_events 1100 with Done (_, s) => s | Panic _ => no_events end.

Ltac calls_ok :=
  repeat (split; [vm_compute; by split_and!|]; intros ? E; vm_compute in E; injection E as <-); exact I.

Lemma example_events_ok : te_ok example_events.
Proof.
  destruct (te_run_spec example_events_calls no_events te_ok_new) as (s & E & Hok); [calls_ok|].
  unfold example_events. by rewrite E.
Qed.


Lemma pop_least_due_witness :
  exists r s', pop_if_before example_events 1100 = Done (r, s') /\ te_ok s' /\
    match r with
    | Some (t, e) => t <= 1100 /\ pending (map example_events) t e
        /\ forall d' e', pending (map example_events) d' e' -> event_le t e d' e'
    | None => s' = example_events /\ forall d e, pending (map example_events) d e -> 1100 < d
    end.
Proof. apply (pop_least_due example_events 1100), example_events_ok. Defined.

Lemma pop_rearms_periodic_witness :
  bt_get (Alarm 7) (signal_timers alarm_popped)
  = Some (STS 1250 250 Active (Process 8) (Send SIGALRM)).
Proof.
  exact (proj1 (proj2 (pop_rearms_periodic example_events 1100 1000 (Alarm 7) (Process 8) (Send SIGALRM)
    alarm_popped (STS 1000 250 Active (Process 8) (Send SIGALRM)) example_events_ok
    ltac:(vm_compute; reflexivity) ltac:(vm_compute; reflexivity)))).
Defined.

Lemma grid_after_first_point_witness :
  exists k, 1 <= k /\ 2117 < 1000 + k * 250 /\ (k = 1 \/ 1000 + (k - 1) * 250 <= 2117)
    /\ grid_after 1000 250 2117 = (if 1000 + k * 250 <=? u64_max then 1000 + k * 250 else u64_max).
Proof. apply (grid_after_first_point 1000 250 2117); by vm_compute. Defined.

Lemma periodic_timer_waits_for_dequeue_witness :
  exists s2 s3, signal_timer_after_fire alarm_popped (Alarm 7) 1000 (Some true) 1100 = Done s2
    /\ (forall d e, pending (map s2) d e -> is_event_of (Alarm 7) e = false)
    /\ signal_timer_rearm_after s2 (Alarm 7) 1800 = (Some (grid_after 1000 250 1800), s3)
    /\ (forall d e, pending (map s3) d e /\ is_event_of (Alarm 7) e = true
          <-> d = grid_after 1000 250 1800 /\ e = alarm_event)
    /\ signal_timer_rearm_after s3 (Alarm 7) 1800 = (None, s3).
Proof.
  exact (periodic_timer_waits_for_dequeue example_events 1100 1000 (Alarm 7) (Process 8) (Send SIGALRM)
    alarm_popped (STS 1000 250 Active (Process 8) (Send SIGALRM)) true 1800 example_events_ok
    ltac:(vm_compute; reflexivity) ltac:(vm_compute; reflexivity) ltac:(done)).
Defined.

Lemma remove_process_timers_exact_witness :
  exists s', remove_process_timers example_events 7 = Done s' /\ te_ok s'
    /\ (forall id, is_timer_of 7 id = true -> bt_get id (signal_timers s') = None)
    /\ bt_get 7 (controlled_real_timer_deadlines s') = None
    /\ forall d e, pending (map s') d e <-> pending (map example_events) d e
         /\ forall id, is_timer_of 7 id = true -> is_event_of id e = false.
Proof. apply (remove_process_timers_exact example_events 7), example_events_ok. Defined.

Lemma thread_wait_roundtrip_witness :
  exists s1 s2, insert example_events 1000 6 = Done s1 /\ thread_deadline s1 6 = Some 1000
    /\ remove s1 6 = Done s2 /\ thread_deadline s2 6 = None
    /\ forall d e, pending (map s2) d e <-> pending (map example_events) d e.
Proof.
  apply (thread_wait_roundtrip example_events 1000 6 example_events_ok); by vm_compute.
Defined.

Lemma next_deadline_least_witness :
  next_deadline example_events = Some 1000
  /\ forall d' e', pending (map example_events) d' e' -> 1000 <= d'.
Proof.
  pose proof (next_deadline_least example_events example_events_ok) as H.
  split; [by vm_compute|]. apply H.
Defined.
