(* ===== verification/SignalLists.v ===== *)
(** The logical entries of each pending standard signal,
    detcore/src/scheduler/signal_lists.rs, and the siginfo records it builds.

    A [KernelSiginfo] is the list of its 48 bytes; the host is little-endian.
    The lists are an ordered map keyed by queue and signal, each a record of
    its entries and of the physical record that stands for its front. *)
From Stdlib Require Import ZArith Lia List.
From stdpp Require Import base gmap list.
From S2P Require Import Prelude BTree.


(** * Queues and entries *)

(** [QueueId] of scheduler/discarded_at_send.rs. *)
Inductive QueueId := QThread (t : DetTid) | QProcess (p : DetPid).
#[export] Instance QueueId_eqdec : EqDecision QueueId.
Proof. solve_decision. Defined.
Definition queue_code (q : QueueId) : Z * Z := match q with QThread t => (0, t) | QProcess p => (1, p) end.
#[export] Instance QueueId_ord : OrdKey QueueId := fun a b => kcmp (queue_code a) (queue_code b).
#[export] Instance QueueId_laws : OrdKeyLaws QueueId.
Proof. apply (ord_by_laws queue_code); [|done]. intros [] []; simpl; congruence. Qed.

Definition KERNEL_SIGINFO_SIZE : nat := 48.
Definition SI_TIMER : Z := -2.
Abbreviation KernelSiginfo := (list u8).

Record TimerEntry := TE { process : DetPid; timer : Z; gen_at_send : Z; periodic_at_send : bool }.
#[export] Instance TimerEntry_eqdec : EqDecision TimerEntry.
Proof. solve_decision. Defined.
Inductive Entry :=
  | Plain (siginfo : KernelSiginfo) (forged_si_timer : bool)
  | Timer (t : TimerEntry).
#[export] Instance Entry_eqdec : EqDecision Entry.
Proof. solve_decision. Defined.
Inductive FrontClass := Own | Proxy.
#[export] Instance FrontClass_eqdec : EqDecision FrontClass.
Proof. solve_decision. Defined.
Record SignalList := SL { entries_of : list Entry; front_class : FrontClass; physical_si_timer : bool }.
Inductive TimerAppend := SendFront | ProxyFront | Behind | AlreadyPending.
Record Popped := PP { p_entry : Entry; p_class : FrontClass; p_physical : bool; p_next : option Entry }.
Record ExecOutcome := EO { resend : list (QueueId * Z * KernelSiginfo); take_back : list (QueueId * Z) }.

Abbreviation key := (QueueId * Z)%type.
Abbreviation SignalLists := (list (key * SignalList)).
Implicit Types (s : SignalLists) (queue : QueueId) (signal : Z).

(** * Siginfo records *)

(** [dst[off..off + len].copy_from_slice(src)] and [src[a..b]]. *)
Definition copy_at (off : nat) (src dst : list u8) : list u8 :=
  take off dst ++ src ++ drop (off + length src) dst.
Definition slice (a b : nat) (src : list u8) : list u8 := take (b - a) (drop a src).
(** [i32::to_ne_bytes], [u32::to_ne_bytes], [u64::to_ne_bytes] and
    [i32::from_ne_bytes]. *)
Definition ne4 (x : Z) : list u8 := to_le_bytes 4 (wrap_u 32 x).
Definition ne8 (x : Z) : list u8 := to_le_bytes 8 (wrap_u 64 x).
Definition i32_from_ne (b : list u8) : Z := wrap_i 32 (from_le_bytes b).

Definition siginfo_code (si : KernelSiginfo) : Z := i32_from_ne (slice 8 12 si).
Definition signalfd_record (si : KernelSiginfo) : list u8 :=
  let record := copy_at 0 (slice 0 12 si) (replicate 128 0) in
  let code := siginfo_code si in
  if code =? SI_TIMER then
    let record := copy_at 24 (slice 16 20 si) record in
    let record := copy_at 32 (slice 20 24 si) record in
    let record := copy_at 44 (slice 24 28 si) record in
    copy_at 48 (slice 24 32 si) record
  else
    let record := copy_at 12 (slice 16 24 si) record in
    if code <? 0 then copy_at 48 (slice 24 32 si) (copy_at 44 (slice 24 28 si) record) else record.
Definition ordinary_siginfo (signal code pid uid : Z) : KernelSiginfo :=
  let info := copy_at 0 (ne4 signal) (replicate KERNEL_SIGINFO_SIZE 0) in
  let info := copy_at 8 (ne4 code) info in
  let info := copy_at 16 (ne4 pid) info in
  copy_at 20 (ne4 uid) info.
Definition timer_siginfo (signal timer overrun value : Z) : KernelSiginfo :=
  let info := copy_at 0 (ne4 signal) (replicate KERNEL_SIGINFO_SIZE 0) in
  let info := copy_at 8 (ne4 SI_TIMER) info in
  let info := copy_at 16 (ne4 timer) info in
  let info := copy_at 20 (ne4 overrun) info in
  copy_at 24 (ne8 value) info.
Definition to_user (si : KernelSiginfo) : list u8 := copy_at 0 si (replicate 128 0).
Definition from_user (user : list u8) : KernelSiginfo := slice 0 KERNEL_SIGINFO_SIZE user.

(** * Operations *)

Definition is_listed s queue signal : bool := bt_mem (queue, signal) s.
Definition entries s queue signal : list Entry :=
  match bt_get (queue, signal) s with Some l => entries_of l | None => [] end.
Definition front s queue signal : option (Entry * FrontClass * bool) :=
  l ← bt_get (queue, signal) s; e ← head (entries_of l); Some (e, front_class l, physical_si_timer l).

Definition append_plain s queue signal (siginfo : KernelSiginfo) (discarded_physical : option bool)
    (timer_pair : bool) : bool * SignalLists :=
  if is_listed s queue signal then (false, s)
  else
    let own_si_timer := siginfo_code siginfo =? SI_TIMER in
    let class := if bool_decide (is_Some discarded_physical) && timer_pair then Proxy else Own in
    (true, bt_insert (queue, signal)
             (SL [Plain siginfo own_si_timer] class (default own_si_timer discarded_physical)) s).

Definition same_timer (a b : TimerEntry) : bool := (process a =? process b) && (timer a =? timer b).
(** The scan of one list: the list with the timer's entry replaced, if it has one. *)
Fixpoint refresh_entries (current : TimerEntry) (l : list Entry) : option (list Entry) :=
  match l with
  | [] => None
  | Timer t :: l' =>
      if same_timer t current then Some (Timer current :: l')
      else (fun r => Timer t :: r) <$> refresh_entries current l'
  | e :: l' => (fun r => e :: r) <$> refresh_entries current l'
  end.
Fixpoint refresh_timer s (current : TimerEntry) : bool * SignalLists :=
  match s with
  | [] => (false, [])
  | (k, l) :: s' =>
      match refresh_entries current (entries_of l) with
      | Some es => (true, (k, SL es (front_class l) (physical_si_timer l)) :: s')
      | None => let '(b, s1) := refresh_timer s' current in (b, (k, l) :: s1)
      end
  end.
Definition append_timer s queue signal (e : TimerEntry) (discarded_pending : option bool)
    : TimerAppend * SignalLists :=
  let '(refreshed, s1) := refresh_timer s e in
  if refreshed : bool then (AlreadyPending, s1)
  else
    match bt_get (queue, signal) s1 with
    | Some l =>
        (Behind, bt_insert (queue, signal)
                   (SL (entries_of l ++ [Timer e]) (front_class l) (physical_si_timer l)) s1)
    | None =>
        let '(class, physical, append) :=
          match discarded_pending with Some p => (Proxy, p, ProxyFront) | None => (Own, true, SendFront) end in
        (append, bt_insert (queue, signal) (SL [Timer e] class physical) s1)
    end.

Definition is_timer (e : Entry) : bool := match e with Timer _ => true | Plain _ _ => false end.
Definition pop s queue signal : option Popped * SignalLists :=
  match bt_get (queue, signal) s with
  | None => (None, s)
  | Some l =>
      match entries_of l with
      | [] => (None, s)
      | e :: rest =>
          (Some (PP e (front_class l) (physical_si_timer l) (head rest)),
           match rest with
           | [] => bt_remove (queue, signal) s
           | next :: _ => bt_insert (queue, signal) (SL rest Own (is_timer next)) s
           end)
      end
  end.

Definition take_all s queue signal : list Entry * SignalLists :=
  (entries s queue signal, bt_remove (queue, signal) s).

(** The scan of [deliverable]; the index counts up from [index]. *)
Fixpoint deliverable_from (index : nat) (l : list Entry) (current_gen : DetPid -> Z -> Z) : bool :=
  match l with
  | [] => false
  | e :: l' =>
      (match e with
       | Plain _ _ => (index =? 0)%nat
       | Timer t => gen_at_send t =? current_gen (process t) (timer t)
       end) || deliverable_from (S index) l' current_gen
  end.
Definition deliverable s queue signal (current_gen : DetPid -> Z -> Z) : bool :=
  match bt_get (queue, signal) s with
  | Some l => deliverable_from 0 (entries_of l) current_gen
  | None => false
  end.

Definition survives_exec (e : Entry) : bool := match e with Plain _ false => true | _ => false end.
(** The body of the loop of [exec] for one key. *)
Definition exec_key (k : key) (st : outcome (ExecOutcome * SignalLists)) : outcome (ExecOutcome * SignalLists) :=
  '(out, s) ← st;
  l ← expect (bt_get k s);
  let kept := List.filter survives_exec (entries_of l) in
  Done (match physical_si_timer l, head kept with
        | true, Some (Plain siginfo _) =>
            if bool_decide (front_class l = Proxy)
            then (EO (resend out ++ [(k, siginfo)]) (take_back out),
                  bt_insert k (SL kept (front_class l) false) s)
            else (out, bt_remove k s)
        | true, _ => (out, bt_remove k s)
        | false, Some _ => (out, bt_insert k (SL kept (front_class l) false) s)
        | false, None => (EO (resend out) (take_back out ++ [k]), bt_remove k s)
        end).
Definition exec s (queues : list QueueId) : outcome (ExecOutcome * SignalLists) :=
  let keys := List.filter (fun k : key => bool_decide (k.1 ∈ queues)) (s.*1) in
  fold_left (fun st k => exec_key k st) keys (Done (EO [] [], s)).

Definition keys_of s queue : list key := List.filter (fun k : key => bool_decide (k.1 = queue)) (s.*1).
(** [self.lists.remove(&key).unwrap()] over a list of keys. *)
Fixpoint remove_keys s (keys : list key) : outcome (list (key * SignalList) * SignalLists) :=
  match keys with
  | [] => Done ([], s)
  | k :: keys' =>
      l ← expect (bt_get k s);
      '(removed, s') ← remove_keys (bt_remove k s) keys';
      Done ((k, l) :: removed, s')
  end.
Definition retire s queue : outcome (list Entry * SignalLists) :=
  '(removed, s') ← remove_keys s (keys_of s queue);
  Done (removed ≫= (fun kl => entries_of kl.2), s').
Definition rekey_thread s (from to : QueueId) : outcome SignalLists :=
  if bool_decide (from = to) then Done s
  else
    '(_, s1) ← retire s to;
    '(moved, s2) ← remove_keys s1 (keys_of s1 from);
    Done (fold_left (fun m kl => bt_insert (to, kl.1.2) kl.2 m) moved s2).

Definition listed s : list key := s.*1.

(** The checks of [invariants_hold] on one list; [None] is [false], [Some]
    the set of timers seen so far. *)
Fixpoint insert_timers (l : list Entry) (seen : gset (DetPid * Z)) : option (gset (DetPid * Z)) :=
  match l with
  | [] => Some seen
  | Plain _ _ :: l' => insert_timers l' seen
  | Timer t :: l' =>
      if bool_decide ((process t, timer t) ∈ seen) then None
      else insert_timers l' ({[(process t, timer t)]} ∪ seen)
  end.
Definition check_list (l : SignalList) (seen : gset (DetPid * Z)) : option (gset (DetPid * Z)) :=
  if negb (bool_decide (entries_of l = [])) && forallb is_timer (tail (entries_of l))
  then insert_timers (entries_of l) seen else None.
Fixpoint check_lists s (seen : gset (DetPid * Z)) : bool :=
  match s with
  | [] => true
  | (_, l) :: s' => match check_list l seen with Some seen' => check_lists s' seen' | None => false end
  end.
Definition invariants_hold s : bool := check_lists s ∅.

(** The invariant of the signal lists and what every operation does to the
    entries of each queue. *)

Implicit Types (k : key) (l : SignalList).

Abbreviation timer_id := (DetPid * Z)%type.
Definition id_of (t : TimerEntry) : timer_id := (process t, timer t).
Definition timers_in (es : list Entry) : list timer_id :=
  omap (fun e => match e with Timer t => Some (id_of t) | Plain _ _ => None end) es.
Definition at_key s k : list Entry := entries s k.1 k.2.

(** The module's I2 and I3, by lookups. *)
Record sl_ok s : Prop := {
  sl_sorted : bt_ok s;
  sl_list : forall k l, bt_get k s = Some l ->
    entries_of l <> [] /\ Forall (fun e => is_timer e = true) (tail (entries_of l)) /\ NoDup (timers_in (entries_of l));
  sl_unique : forall k1 k2 t, t ∈ timers_in (at_key s k1) -> t ∈ timers_in (at_key s k2) -> k1 = k2;
}.

Lemma at_key_get s k : at_key s k = match bt_get k s with Some l => entries_of l | None => [] end.
Proof. by destruct k. Qed.
Lemma at_key_nil s k : sl_ok s -> at_key s k = [] <-> bt_get k s = None.
Proof.
  intros Hs. rewrite at_key_get. destruct (bt_get k s) as [l|] eqn:E; [|done].
  destruct (sl_list s Hs k l E) as [? _]. done.
Qed.
Lemma at_key_insert s k l k' :
  bt_ok s -> at_key (bt_insert k l s) k' = if decide (k' = k) then entries_of l else at_key s k'.
Proof.
  intros Hs. rewrite !at_key_get. case_decide as E.
  - subst. by rewrite bt_get_insert_eq.
  - by rewrite bt_get_insert_ne.
Qed.
Lemma at_key_remove s k k' :
  bt_ok s -> at_key (bt_remove k s) k' = if decide (k' = k) then [] else at_key s k'.
Proof.
  intros Hs. rewrite !at_key_get. case_decide as E.
  - subst. by rewrite bt_get_remove_eq.
  - by rewrite bt_get_remove_ne.
Qed.

Lemma timers_in_app a b : timers_in (a ++ b) = timers_in a ++ timers_in b.
Proof. apply omap_app. Qed.
Lemma sl_key s k : sl_ok s -> NoDup (timers_in (at_key s k)).
Proof.
  intros Hs. rewrite at_key_get. destruct (bt_get k s) as [l|] eqn:E; [|constructor].
  by destruct (sl_list s Hs k l E) as (_ & _ & ?).
Qed.

(** Replacing or adding one list. *)
Lemma sl_ok_insert s k l :
  sl_ok s -> entries_of l <> [] -> Forall (fun e => is_timer e = true) (tail (entries_of l)) ->
  NoDup (timers_in (entries_of l)) ->
  (forall k' t, t ∈ timers_in (entries_of l) -> t ∈ timers_in (at_key s k') -> k' = k) ->
  sl_ok (bt_insert k l s).
Proof.
  intros Hs Hne Ht Hnd Hu. pose proof (sl_sorted s Hs) as Hb. split; [by apply bt_insert_ok|..].
  - intros k' l'. destruct (decide (k' = k)) as [->|Hk].
    + rewrite bt_get_insert_eq by done. by intros [= <-].
    + rewrite bt_get_insert_ne by done. apply (sl_list s Hs).
  - intros k1 k2 t. rewrite !at_key_insert by done. repeat case_decide; subst; [done|..].
    + intros H1 H2. symmetry. by eapply Hu.
    + intros H1 H2. by eapply Hu.
    + by apply (sl_unique s Hs).
Qed.
(** Dropping a list. *)
Lemma sl_ok_remove s k : sl_ok s -> sl_ok (bt_remove k s).
Proof.
  intros Hs. pose proof (sl_sorted s Hs) as Hb. split; [by apply bt_remove_ok|..].
  - intros k' l'. destruct (decide (k' = k)) as [->|Hk]; [by rewrite bt_get_remove_eq|].
    rewrite bt_get_remove_ne by done. apply (sl_list s Hs).
  - intros k1 k2 t. rewrite !at_key_remove by done.
    repeat case_decide; try by intros ?%elem_of_nil. { by intros _ ?%elem_of_nil. }
    by apply (sl_unique s Hs).
Qed.

(** ** The code's own check *)

Lemma insert_timers_spec es : forall seen,
  NoDup (timers_in es) -> (forall t, t ∈ timers_in es -> t ∉ seen) ->
  insert_timers es seen = Some (list_to_set (timers_in es) ∪ seen).
Proof.
  induction es as [|[b f|t] es IH]; intros seen Hnd Hs; simpl.
  - f_equal. set_solver.
  - apply IH; [done|]. intros t Ht. by apply Hs.
  - change (timers_in (Timer t :: es)) with (id_of t :: timers_in es) in *.
    inversion_clear Hnd as [|? ? Hn Hnd']. rewrite bool_decide_false.
    2:{ apply Hs. constructor. }
    rewrite IH; [|done|].
    + f_equal. unfold id_of. set_solver.
    + intros t' Ht'. rewrite elem_of_union, elem_of_singleton. intros [->|Hin]; [done|].
      apply (Hs t'); [by constructor|done].
Qed.
(** The lists after the first. *)
Lemma sl_ok_cons k l s :
  sl_ok ((k, l) :: s) ->
  sl_ok s /\ bt_get k s = None /\
  forall k' t, t ∈ timers_in (at_key s k') -> t ∉ timers_in (entries_of l).
Proof.
  intros Hs. pose proof (proj1 (bt_ok_cons _ _ _) (sl_sorted _ Hs)) as [Hb Hlt].
  assert (Hn : bt_get k s = None) by by apply bt_get_lt.
  assert (Hk : at_key ((k, l) :: s) k = entries_of l) by (by rewrite at_key_get, bt_get_head).
  assert (Hget : forall k' l', bt_get k' s = Some l' -> k' <> k /\ bt_get k' ((k, l) :: s) = Some l').
  { intros k' l' E. split; [congruence|]. apply bt_get_elem; [apply Hs|]. right. by apply bt_get_elem. }
  assert (Hat : forall k' t, t ∈ timers_in (at_key s k') -> k' <> k /\ t ∈ timers_in (at_key ((k, l) :: s) k')).
  { intros k' t. rewrite (at_key_get s k'). destruct (bt_get k' s) as [l'|] eqn:E; [|by intros ?%elem_of_nil].
    destruct (Hget _ _ E) as [Hne E']. intros Ht. split; [done|]. by rewrite at_key_get, E'. }
  split_and!; [split; [done|..]|done|].
  - intros k' l' E. by apply (sl_list _ Hs k'), Hget.
  - intros k1 k2 t [_ H1]%Hat [_ H2]%Hat. by apply (sl_unique _ Hs k1 k2 t).
  - intros k' t [Hne H1]%Hat H2. apply Hne. apply (sl_unique _ Hs k' k t); [done|]. by rewrite Hk.
Qed.
Lemma invariants_hold_ok s : sl_ok s -> invariants_hold s = true.
Proof.
  unfold invariants_hold. intros Hs.
  cut (forall seen, (forall k t, t ∈ timers_in (at_key s k) -> t ∉ seen) -> check_lists s seen = true).
  { intros Hc. apply Hc. set_solver. }
  induction s as [|[k l] s IH]; intros seen Hseen; simpl; [done|].
  destruct (sl_ok_cons _ _ _ Hs) as (Hs' & Hn & Hother).
  destruct (sl_list _ Hs k l) as (Hne & Ht & Hnd); [apply bt_get_head|].
  assert (Hk : at_key ((k, l) :: s) k = entries_of l) by (by rewrite at_key_get, bt_get_head).
  unfold check_list. rewrite bool_decide_false by done. simpl.
  rewrite (proj2 (forallb_elem _ _)) by exact (proj1 (Forall_forall _ _) Ht).
  rewrite insert_timers_spec; [|done|].
  - apply IH; [done|]. intros k' t H1. rewrite elem_of_union, elem_of_list_to_set.
    intros [Hin|Hin]; [by eapply Hother|]. apply (Hseen k' t); [|done].
    rewrite at_key_get in *. destruct (bt_get k' s) as [l'|] eqn:E; [|by apply elem_of_nil in H1].
    replace (bt_get k' ((k, l) :: s)) with (Some l'); [done|]. symmetry.
    apply bt_get_elem; [apply Hs|]. right. apply bt_get_elem; [apply Hs'|done].
  - intros t Hin. apply (Hseen k). by rewrite Hk.
Qed.

(** ** Sends *)

Lemma append_plain_ok s queue signal info d pair :
  sl_ok s -> sl_ok (append_plain s queue signal info d pair).2.
Proof.
  intros Hs. unfold append_plain. destruct (is_listed s queue signal); [done|]. simpl.
  apply sl_ok_insert; simpl; [done|done|constructor|constructor|]. by intros ? ? ?%elem_of_nil.
Qed.
Lemma append_plain_spec s queue signal info d pair :
  sl_ok s ->
  let '(b, s') := append_plain s queue signal info d pair in
  b = bool_decide (at_key s (queue, signal) = []) /\
  forall k, at_key s' k = if b && bool_decide (k = (queue, signal))
                          then [Plain info (siginfo_code info =? SI_TIMER)] else at_key s k.
Proof.
  intros Hs. unfold append_plain, is_listed, bt_mem.
  destruct (bt_get (queue, signal) s) as [l|] eqn:E.
  - split; [|done]. symmetry. apply bool_decide_eq_false. rewrite at_key_nil by done. by rewrite E.
  - split; [by rewrite bool_decide_true by by apply at_key_nil|]. intros k. cbn [andb].
    rewrite at_key_insert by apply Hs. case_decide; [by rewrite (bool_decide_true (k = _))|by rewrite (bool_decide_false (k = _))].
Qed.

(** The entry of a timer, replaced by its current state. *)
Definition replace_timer (current : TimerEntry) (es : list Entry) : list Entry :=
  (fun e => match e with Timer t => if same_timer t current then Timer current else e | _ => e end) <$> es.
Lemma same_timer_id a b : same_timer a b = true <-> id_of a = id_of b.
Proof.
  unfold same_timer, id_of. rewrite andb_true_iff, !Z.eqb_eq. split; [by intros [-> ->]|by intros [= -> ->]].
Qed.
Lemma replace_timer_absent e es : id_of e ∉ timers_in es -> replace_timer e es = es.
Proof.
  induction es as [|[b f|t] es IH]; [done| |]; intros Hn.
  - unfold replace_timer in *. rewrite fmap_cons. f_equal. by apply IH.
  - change (timers_in (Timer t :: es)) with (id_of t :: timers_in es) in Hn.
    rewrite not_elem_of_cons in Hn. destruct Hn as [Hne Hn]. unfold replace_timer in *. rewrite fmap_cons, IH by done.
    f_equal. destruct (same_timer t e) eqn:E; [|done]. apply same_timer_id in E. congruence.
Qed.
Lemma refresh_entries_spec e es :
  NoDup (timers_in es) ->
  refresh_entries e es = if bool_decide (id_of e ∈ timers_in es) then Some (replace_timer e es) else None.
Proof.
  induction es as [|[b f|t] es IH]; intros Hnd; cbn [refresh_entries].
  - by rewrite bool_decide_false by by intros ?%elem_of_nil.
  - change (timers_in (Plain b f :: es)) with (timers_in es) in *. rewrite IH by done. by case_bool_decide.
  - change (timers_in (Timer t :: es)) with (id_of t :: timers_in es) in *.
    inversion_clear Hnd as [|? ? Hn Hnd']. destruct (same_timer t e) eqn:E.
    + pose proof (proj1 (same_timer_id t e) E) as Et. rewrite bool_decide_true by (rewrite Et; constructor).
      f_equal. unfold replace_timer. rewrite fmap_cons, E. f_equal.
      symmetry. apply replace_timer_absent. by rewrite <- Et.
    + assert (Hne : id_of e <> id_of t) by (intros Et; symmetry in Et; apply same_timer_id in Et; congruence).
      rewrite IH by done. unfold replace_timer. rewrite fmap_cons, E.
      destruct (decide (id_of e ∈ timers_in es)).
      * rewrite !bool_decide_true; [done|by constructor|done].
      * rewrite !bool_decide_false; [done| |done]. rewrite not_elem_of_cons. done.
Qed.
Lemma replace_timer_timers e es : timers_in (replace_timer e es) = timers_in es.
Proof.
  induction es as [|[b f|t] es IH]; [done|done|].
  unfold replace_timer. rewrite fmap_cons. change (timers_in (Timer t :: es)) with (id_of t :: timers_in es).
  destruct (same_timer t e) eqn:E; unfold replace_timer in IH; simpl; f_equal; try exact IH.
  symmetry. by apply same_timer_id.
Qed.
Lemma replace_timer_shape e es :
  (replace_timer e es = [] <-> es = []) /\ is_timer <$> tail (replace_timer e es) = is_timer <$> tail es.
Proof.
  split; [destruct es; done|]. destruct es as [|x es]; [done|]. unfold replace_timer. simpl.
  induction es as [|[b f|t] es IH]; [done| |]; rewrite !fmap_cons; f_equal; [exact IH|by destruct (same_timer t e)|exact IH].
Qed.

(** Refreshing a timer's entry, wherever it is. *)
Definition refreshed (e : TimerEntry) (l : SignalList) : SignalList :=
  SL (replace_timer e (entries_of l)) (front_class l) (physical_si_timer l).
Lemma refreshed_absent e l : id_of e ∉ timers_in (entries_of l) -> refreshed e l = l.
Proof. intros Hn. unfold refreshed. rewrite replace_timer_absent by done. by destruct l. Qed.
Lemma refresh_timer_spec s e :
  sl_ok s ->
  let '(b, s') := refresh_timer s e in
  (b = true <-> exists k, id_of e ∈ timers_in (at_key s k)) /\ s'.*1 = s.*1 /\
  (b = false -> s' = s) /\ forall k, bt_get k s' = refreshed e <$> bt_get k s.
Proof.
  induction s as [|[k l] s IH]; intros Hs; simpl.
  - split_and!; [|done..]. split; [done|]. intros [k Hk]. by apply elem_of_nil in Hk.
  - destruct (sl_ok_cons _ _ _ Hs) as (Hs' & Hn & Hother).
    destruct (sl_list _ Hs k l) as (_ & _ & Hnd); [apply bt_get_head|].
    rewrite refresh_entries_spec by done. case_bool_decide as Hin.
    + split_and!; [split; [intros _; exists k; by rewrite at_key_get, bt_get_head|done]|done|done|].
      intros k'. simpl. destruct (kcmp k' k); [done|done|].
      destruct (bt_get k' s) as [l'|] eqn:E; simpl; [|done]. rewrite refreshed_absent; [done|].
      intros H'. apply (Hother k' (id_of e)); [by rewrite at_key_get, E|done].
    + specialize (IH Hs'). destruct (refresh_timer s e) as [b s'] eqn:Er. simpl.
      destruct IH as (Hb & Hk & Hf & Hg). split_and!.
      * rewrite Hb. split; intros [k' H'].
        -- exists k'. rewrite at_key_get in *. destruct (bt_get k' s) as [l'|] eqn:E; [|by apply elem_of_nil in H'].
           replace (bt_get k' ((k, l) :: s)) with (Some l'); [done|]. symmetry.
           apply bt_get_elem; [apply Hs|]. right. apply bt_get_elem; [apply Hs'|done].
        -- exists k'. rewrite at_key_get in *. simpl in H'. destruct (kcmp k' k); [done|by apply elem_of_nil in H'|done].
      * by f_equal.
      * intros E. by rewrite (Hf E).
      * intros k'. simpl. destruct (kcmp k' k); simpl; [by rewrite refreshed_absent|done|apply Hg].
Qed.
Lemma sl_ok_refreshed s s' e :
  sl_ok s -> s'.*1 = s.*1 -> (forall k, bt_get k s' = refreshed e <$> bt_get k s) -> sl_ok s'.
Proof.
  intros Hs Hk Hg.
  assert (Hat : forall k, timers_in (at_key s' k) = timers_in (at_key s k)).
  { intros k. rewrite !at_key_get, Hg. destruct (bt_get k s); simpl; [apply replace_timer_timers|done]. }
  split.
  - unfold bt_ok. rewrite Hk. apply Hs.
  - intros k l'. rewrite Hg. destruct (bt_get k s) as [l|] eqn:E; simpl; [|done]. intros [= <-]. simpl.
    destruct (sl_list s Hs k l E) as (Hne & Ht & Hnd). destruct (replace_timer_shape e (entries_of l)) as [H1 H2].
    rewrite replace_timer_timers, H1. split_and!; [done| |done].
    apply (Forall_fmap is_timer (fun b => b = true)). rewrite H2. by apply Forall_fmap.
  - intros k1 k2 t. rewrite !Hat. apply (sl_unique s Hs).
Qed.
Lemma timers_in_timer e : timers_in [Timer e] = [id_of e].
Proof. done. Qed.

Lemma append_timer_spec s queue signal e d :
  sl_ok s ->
  let '(r, s') := append_timer s queue signal e d in
  sl_ok s' /\
  ((exists k, id_of e ∈ timers_in (at_key s k)) ->
     r = AlreadyPending /\ forall k, at_key s' k = replace_timer e (at_key s k)) /\
  ((forall k, id_of e ∉ timers_in (at_key s k)) ->
     r = (match at_key s (queue, signal), d with
          | [], Some _ => ProxyFront | [], None => SendFront | _ :: _, _ => Behind end) /\
     forall k, at_key s' k = if decide (k = (queue, signal)) then at_key s k ++ [Timer e] else at_key s k).
Proof.
  intros Hs. unfold append_timer. pose proof (refresh_timer_spec s e Hs) as Hr.
  destruct (refresh_timer s e) as [b s1]. destruct Hr as (Hb & Hk & Hf & Hg). destruct b.
  - split_and!; [by eapply sl_ok_refreshed| |].
    + intros _. split; [done|]. intros k. rewrite !at_key_get, Hg. by destruct (bt_get k s).
    + intros Hn. destruct (proj1 Hb eq_refl) as [k Hin]. by destruct (Hn k).
  - rewrite (Hf eq_refl) in *. clear s1 Hk Hf Hg.
    assert (Hn : forall k, id_of e ∉ timers_in (at_key s k)) by (intros k Hin; discriminate (proj2 Hb (ex_intro _ k Hin))).
    clear Hb. rewrite (at_key_get s (queue, signal)). destruct (bt_get (queue, signal) s) as [l|] eqn:E.
    + destruct (sl_list s Hs _ l E) as (Hne & Ht & Hnd).
      assert (Hl : id_of e ∉ timers_in (entries_of l)) by (specialize (Hn (queue, signal)); by rewrite at_key_get, E in Hn).
      split_and!.
      * apply sl_ok_insert; simpl; [done| | | |].
        -- by destruct (entries_of l).
        -- destruct (entries_of l) as [|x es]; [done|]. simpl in *. apply Forall_app. split; [done|by constructor].
        -- rewrite timers_in_app, timers_in_timer. apply NoDup_app. split_and!; [done| |apply NoDup_singleton].
           intros t H1 H2%list_elem_of_singleton. by subst.
        -- intros k' t. rewrite timers_in_app, timers_in_timer, elem_of_app, list_elem_of_singleton.
           intros [H1|H1] H2; [|subst; by destruct (Hn k')].
           apply (sl_unique s Hs k' (queue, signal) t); [done|]. by rewrite at_key_get, E.
      * intros [k Hin]. by destruct (Hn k).
      * intros _. split; [by destruct (entries_of l)|]. intros k. rewrite at_key_insert by apply Hs.
        case_decide; [|done]. subst. by rewrite at_key_get, E.
    + destruct d as [p|]; simpl; (split_and!; [apply sl_ok_insert; simpl; [done|done|constructor|apply NoDup_singleton|] | | ]);
        try (intros k' t Ht%list_elem_of_singleton H2; subst; by destruct (Hn k'));
        try (intros [k Hin]; by destruct (Hn k)); intros _; (split; [done|]); intros k;
        rewrite at_key_insert by apply Hs; (case_decide; [|done]); subst; by rewrite at_key_get, E.
Qed.

(** ** Dequeues and flushes *)

Lemma signal_pop_spec s queue signal :
  sl_ok s ->
  let '(r, s') := pop s queue signal in
  sl_ok s' /\
  (fun p => (p_entry p, p_next p)) <$> r =
    match at_key s (queue, signal) with [] => None | e :: rest => Some (e, head rest) end /\
  (forall k, at_key s' k = if decide (k = (queue, signal)) then tail (at_key s k) else at_key s k) /\
  front s' queue signal =
    match at_key s (queue, signal) with _ :: next :: _ => Some (next, Own, is_timer next) | _ => None end.
Proof.
  intros Hs. unfold pop, front. rewrite (at_key_get s (queue, signal)).
  destruct (bt_get (queue, signal) s) as [l|] eqn:E.
  2:{ rewrite E. split_and!; try done. intros k. case_decide; [|done]. subst. by rewrite at_key_get, E. }
  destruct (sl_list s Hs _ l E) as (Hne & Ht & Hnd).
  destruct (entries_of l) as [|e [|next rest]] eqn:El; [done|..]; simpl in Ht.
  - split_and!; [by apply sl_ok_remove|done| |by rewrite bt_get_remove_eq by apply Hs].
    intros k. rewrite at_key_remove by apply Hs. case_decide; [|done]. subst. by rewrite at_key_get, E, El.
  - inversion_clear Ht as [|? ? Hx Ht']. change (e :: next :: rest) with ([e] ++ (next :: rest)) in Hnd.
    rewrite timers_in_app in Hnd. apply NoDup_app in Hnd as (_ & _ & Hnd').
    split_and!; [|done| |by rewrite bt_get_insert_eq by apply Hs].
    + apply sl_ok_insert; try done. intros k' t H1 H2. apply (sl_unique s Hs k' (queue, signal) t); [done|].
      rewrite at_key_get, E, El. change (e :: next :: rest) with ([e] ++ (next :: rest)).
      rewrite timers_in_app, elem_of_app. by right.
    + intros k. rewrite at_key_insert by apply Hs. case_decide; [|done]. subst. by rewrite at_key_get, E, El.
Qed.

Lemma remove_keys_spec keys : forall s,
  bt_ok s -> NoDup keys -> Forall (fun k => is_Some (bt_get k s)) keys ->
  exists removed s', remove_keys s keys = Done (removed, s') /\ bt_ok s' /\
    Forall2 (fun k kl => kl.1 = k /\ bt_get k s = Some kl.2) keys removed /\
    forall k, bt_get k s' = if decide (k ∈ keys) then None else bt_get k s.
Proof.
  induction keys as [|k keys IH]; intros s Hb Hnd HF; cbn [remove_keys].
  - exists [], s. split_and!; [done|done|constructor|]. intros k. by rewrite decide_False by apply not_elem_of_nil.
  - inversion_clear Hnd as [|? ? Hk Hnd']. inversion_clear HF as [|? ? [l El] HF']. rewrite El. simpl.
    destruct (IH (bt_remove k s)) as (removed & s' & E & Hb' & H2 & Hg); [by apply bt_remove_ok|done| |].
    { apply Forall_forall. intros y Hy. rewrite bt_get_remove_ne; [|congruence|done].
      exact (proj1 (Forall_forall _ _) HF' y Hy). }
    rewrite E. simpl. eexists _, s'. split_and!; [done|done| |].
    + constructor; [done|]. clear -H2 Hk Hb. induction H2 as [|x y keys removed [H1 H2] H3 IH]; constructor.
      * rewrite bt_get_remove_ne in H2; [done| |done]. intros ->. apply Hk. constructor.
      * apply IH. intros Hin. apply Hk. by constructor.
    + intros k'. rewrite Hg. destruct (decide (k' = k)) as [->|Hne].
      * rewrite (decide_True (P := k ∈ k :: keys)) by constructor. case_decide; [done|]. by rewrite bt_get_remove_eq.
      * rewrite bt_get_remove_ne by done. repeat case_decide; try done; set_solver.
Qed.
Lemma keys_of_spec s queue k : bt_ok s -> k ∈ keys_of s queue <-> k.1 = queue /\ is_Some (bt_get k s).
Proof.
  intros Hb. unfold keys_of. rewrite list_elem_of_In, List.filter_In, <- list_elem_of_In, bool_decide_eq_true.
  rewrite <- (bt_mem_true s k Hb). unfold bt_mem.
  destruct (bt_get k s); naive_solver.
Qed.
Lemma remove_keys_of_spec s queue :
  sl_ok s ->
  exists removed s', remove_keys s (keys_of s queue) = Done (removed, s') /\ sl_ok s' /\
    Forall2 (fun k kl => kl.1 = k /\ bt_get k s = Some kl.2) (keys_of s queue) removed /\
    forall k, bt_get k s' = if decide (k.1 = queue) then None else bt_get k s.
Proof.
  intros Hs. pose proof (sl_sorted s Hs) as Hb.
  destruct (remove_keys_spec (keys_of s queue) s) as (removed & s' & E & Hb' & H2 & Hg); [done| | |].
  { apply NoDup_List_filter. by apply bt_ok_NoDup. }
  { apply Forall_forall. intros k Hk. by apply keys_of_spec in Hk as [_ ?]. }
  assert (Hg' : forall k, bt_get k s' = if decide (k.1 = queue) then None else bt_get k s).
  { intros k. rewrite Hg. destruct (decide (k ∈ keys_of s queue)) as [Hin|Hin].
    - apply keys_of_spec in Hin as [Hq _]; [|done]. by rewrite decide_True.
    - case_decide as Hq; [|done]. destruct (bt_get k s) eqn:Ek; [|done]. destruct Hin. apply keys_of_spec; [done|]. by rewrite Ek. }
  assert (Hat : forall k, at_key s' k = if decide (k.1 = queue) then [] else at_key s k).
  { intros k. rewrite !at_key_get, Hg'. by case_decide. }
  exists removed, s'. split_and!; [done| |done|done]. split; [done|..].
  - intros k l. rewrite Hg'. case_decide; [done|]. apply (sl_list s Hs).
  - intros k1 k2 t. rewrite !Hat. repeat case_decide; try by intros ?%elem_of_nil. { by intros _ ?%elem_of_nil. }
    apply (sl_unique s Hs).
Qed.
Lemma retire_spec s queue :
  sl_ok s ->
  exists dropped s', retire s queue = Done (dropped, s') /\ sl_ok s' /\
    dropped = keys_of s queue ≫= at_key s /\
    forall k, bt_get k s' = if decide (k.1 = queue) then None else bt_get k s.
Proof.
  intros Hs. destruct (remove_keys_of_spec s queue Hs) as (removed & s' & E & Hs' & H2 & Hg).
  unfold retire. rewrite E. simpl. eexists _, s'. split_and!; [done|done| |done].
  clear E Hg. induction H2 as [|k [k' l] ks rs [H1 Hk] H2 IH]; [done|].
  rewrite !bind_cons, IH, at_key_get. simpl in *. by rewrite Hk.
Qed.

Lemma Forall2_both {A B} (R : A -> B -> Prop) xs ys :
  Forall2 R xs ys ->
  (forall x, x ∈ xs -> exists y, y ∈ ys /\ R x y) /\ (forall y, y ∈ ys -> exists x, x ∈ xs /\ R x y).
Proof.
  induction 1 as [|x y xs ys Hxy HF [IH1 IH2]]; [split; intros ? ?%elem_of_nil; done|].
  split; intros z [->|Hz]%elem_of_cons; [by exists y; split; [constructor|]| |by exists x; split; [constructor|]|].
  - destruct (IH1 z Hz) as (w & Hw & Hr). exists w. split; [by constructor|done].
  - destruct (IH2 z Hz) as (w & Hw & Hr). exists w. split; [by constructor|done].
Qed.
(** Moving lists to a queue that has none. *)
Lemma fold_move_spec to (moved : list (key * SignalList)) : forall m,
  bt_ok m -> NoDup ((fun kl => kl.1.2) <$> moved) ->
  let m' := fold_left (fun m kl => bt_insert (to, kl.1.2) kl.2 m) moved m in
  bt_ok m' /\ forall k, bt_get k m' =
    if decide (k.1 = to) then
      match List.find (fun kl => kl.1.2 =? k.2) moved with Some kl => Some kl.2 | None => bt_get k m end
    else bt_get k m.
Proof.
  induction moved as [|[[q sg] l] moved IH]; intros m Hm Hnd; simpl.
  - split; [done|]. intros k. by case_decide.
  - rewrite fmap_cons in Hnd. simpl in Hnd. inversion_clear Hnd as [|? ? Hn Hnd'].
    destruct (IH (bt_insert (to, sg) l m)) as [Hb Hg]; [by apply bt_insert_ok|done|].
    split; [done|]. intros [k1 k2]. rewrite Hg. simpl. case_decide as Hk.
    + subst k1. destruct (Z.eqb_spec sg k2) as [->|Hne].
      * destruct (List.find _ moved) as [kl|] eqn:Ef; [|by rewrite bt_get_insert_eq].
        apply find_Some_elem in Ef as [Hin Hz]. exfalso. apply Hn. apply Z.eqb_eq in Hz. rewrite <- Hz.
        by apply (list_elem_of_fmap_2 (fun kl : key * SignalList => kl.1.2)).
      * destruct (List.find _ moved); [done|]. apply bt_get_insert_ne; [congruence|done].
    + apply bt_get_insert_ne; [congruence|done].
Qed.
(** What was removed under a queue's keys, by key and without repetition. *)
Lemma removed_lists s queue removed : sl_ok s ->
  Forall2 (fun k kl => kl.1 = k /\ bt_get k s = Some kl.2) (keys_of s queue) removed ->
  (forall k l, (k, l) ∈ removed <-> k.1 = queue /\ bt_get k s = Some l) /\
  NoDup ((fun kl => kl.1.2) <$> removed).
Proof.
  intros Hs H2. split.
  - intros k l. split.
    + intros Hin. destruct (proj2 (Forall2_both _ _ _ H2) _ Hin) as (k' & Hk' & Hk1 & Hk2). simpl in *. subst k'.
      apply keys_of_spec in Hk' as [? _]; [done|apply Hs].
    + intros [Hq Hl]. assert (Hin : k ∈ keys_of s queue) by (apply keys_of_spec; [apply Hs|by rewrite Hl]).
      destruct (proj1 (Forall2_both _ _ _ H2) _ Hin) as ([k' l'] & Hm & Hk1 & Hk2). simpl in *. subst k'. congruence.
  - assert (Hk : fst <$> removed = keys_of s queue).
    { clear -H2. induction H2 as [|k [k' l] ks ms [H1 _] H2 IH]; [done|]. rewrite fmap_cons, IH. simpl in *. by f_equal. }
    change (NoDup (snd ∘ fst <$> removed)). rewrite (list_fmap_compose fst snd), Hk. apply NoDup_fmap_2_strong.
    + intros [q1 g1] [q2 g2] H1%keys_of_spec H3%keys_of_spec; [|apply Hs|apply Hs]. simpl in *. intros ->.
      f_equal. destruct H1 as [-> _], H3 as [-> _]. done.
    + apply NoDup_List_filter, bt_ok_NoDup, Hs.
Qed.
Lemma rekey_thread_spec s from to :
  sl_ok s ->
  exists s', rekey_thread s from to = Done s' /\ sl_ok s' /\
    forall queue signal, at_key s' (queue, signal) =
      if decide (from = to) then at_key s (queue, signal)
      else if decide (queue = to) then at_key s (from, signal)
      else if decide (queue = from) then [] else at_key s (queue, signal).
Proof.
  intros Hs. unfold rekey_thread. case_bool_decide as Hft.
  { exists s. split_and!; [done|done|]. intros. by rewrite decide_True. }
  destruct (retire_spec s to Hs) as (dropped & s1 & E1 & Hs1 & _ & Hg1). rewrite E1. simpl.
  destruct (remove_keys_of_spec s1 from Hs1) as (moved & s2 & E2 & Hs2 & H2 & Hg2). rewrite E2. simpl.
  destruct (removed_lists s1 from moved Hs1 H2) as [Hmoved Hnd].
  destruct (fold_move_spec to moved s2 (sl_sorted _ Hs2) Hnd) as [Hb Hg].
  set (s' := fold_left _ moved s2) in *.
  assert (Hget : forall queue signal, bt_get (queue, signal) s' =
    if decide (queue = to) then bt_get (from, signal) s
    else if decide (queue = from) then None else bt_get (queue, signal) s).
  { intros queue signal. rewrite Hg. simpl. case_decide as Hq.
    - subst queue. destruct (List.find _ moved) as [[[q sg] l]|] eqn:Ef.
      + apply find_Some_elem in Ef as [Hin Hz]. apply Z.eqb_eq in Hz. simpl in *. subst sg.
        apply Hmoved in Hin as [Hq Hl]. simpl in Hq. subst q. rewrite Hg1 in Hl. simpl in Hl.
        by rewrite decide_False in Hl by done.
      + rewrite Hg2, Hg1. simpl. rewrite decide_False by congruence. rewrite decide_True by done. symmetry.
        destruct (bt_get (from, signal) s) as [l|] eqn:El; [|done].
        assert (Hin : ((from, signal), l) ∈ moved).
        { apply Hmoved. split; [done|]. rewrite Hg1. simpl. by rewrite decide_False by done. }
        pose proof (find_None_all _ _ _ Ef Hin) as Hz. simpl in Hz. by rewrite Z.eqb_refl in Hz.
    - rewrite Hg2. simpl. case_decide; [done|]. rewrite Hg1. simpl. by rewrite decide_False by done. }
  assert (Hat : forall queue signal, at_key s' (queue, signal) =
    if decide (queue = to) then at_key s (from, signal)
    else if decide (queue = from) then [] else at_key s (queue, signal)).
  { intros. rewrite !at_key_get, Hget. repeat case_decide; done. }
  exists s'. split_and!; [done|split; [done|..]|intros; rewrite (decide_False (P := from = to)) by done; apply Hat].
  - intros [q g] l. rewrite Hget. repeat case_decide; [apply (sl_list s Hs)|done|apply (sl_list s Hs)].
  - intros [q1 g1] [q2 g2] t. rewrite !Hat.
    repeat case_decide; subst; intros Ht1 Ht2; try (by apply elem_of_nil in Ht1); try (by apply elem_of_nil in Ht2);
      pose proof (sl_unique s Hs _ _ _ Ht1 Ht2); congruence.
Qed.

(** ** Exec *)

Definition survivors l : list Entry := List.filter survives_exec (entries_of l).
(** What exec leaves of a list, what it sends again, and what it takes back. *)
Definition exec_list l : option SignalList :=
  match physical_si_timer l, survivors l with
  | true, _ :: _ => if decide (front_class l = Proxy) then Some (SL (survivors l) Proxy false) else None
  | false, _ :: _ => Some (SL (survivors l) (front_class l) false)
  | _, [] => None
  end.
Definition exec_resend k l : option (key * KernelSiginfo) :=
  match physical_si_timer l, front_class l, survivors l with
  | true, Proxy, Plain siginfo _ :: _ => Some (k, siginfo)
  | _, _, _ => None
  end.
Definition exec_take_back k l : option key :=
  match physical_si_timer l, survivors l with false, [] => Some k | _, _ => None end.

Lemma survivors_front l :
  Forall (fun e => is_timer e = true) (tail (entries_of l)) ->
  survivors l = [] \/ exists info, head (entries_of l) = Some (Plain info false) /\ survivors l = [Plain info false].
Proof.
  intros Ht. unfold survivors. destruct (entries_of l) as [|e es]; [by left|]. simpl in Ht.
  assert (Hes : List.filter survives_exec es = []).
  { induction Ht as [|[] es Hx Ht IH]; [done|done|]. simpl. exact IH. }
  destruct e as [info []|t]; simpl; rewrite Hes; [by left|right; by exists info|by left].
Qed.
Lemma exec_key_spec s out k l :
  sl_ok s -> bt_get k s = Some l ->
  exists s', exec_key k (Done (out, s)) =
      Done (EO (resend out ++ option_list (exec_resend k l)) (take_back out ++ option_list (exec_take_back k l)), s') /\
    sl_ok s' /\ forall k', bt_get k' s' = if decide (k' = k) then exec_list l else bt_get k' s.
Proof.
  intros Hs E. pose proof (sl_sorted s Hs) as Hb. destruct (sl_list s Hs k l E) as (_ & Ht & _).
  assert (Hrem : sl_ok (bt_remove k s) /\ forall k', bt_get k' (bt_remove k s) =
    if decide (k' = k) then None else bt_get k' s).
  { split; [by apply sl_ok_remove|]. intros k'. case_decide; [subst; by apply bt_get_remove_eq|by apply bt_get_remove_ne]. }
  assert (Hins : forall info c, let l' := SL [Plain info false] c false in
    sl_ok (bt_insert k l' s) /\ forall k', bt_get k' (bt_insert k l' s) = if decide (k' = k) then Some l' else bt_get k' s).
  { intros info c. split.
    - apply sl_ok_insert; simpl; [done|done|constructor|constructor|]. by intros ? ? ?%elem_of_nil.
    - intros k'. case_decide; [subst; by apply bt_get_insert_eq|by apply bt_get_insert_ne]. }
  unfold exec_key, exec_list, exec_resend, exec_take_back. simpl. rewrite E. simpl. fold (survivors l).
  destruct out as [rs ts]; simpl.
  destruct (survivors_front l Ht) as [Hn|(info & _ & Hn)]; rewrite Hn; simpl.
  - exists (bt_remove k s). destruct (physical_si_timer l), (front_class l); simpl; rewrite ?app_nil_r; done.
  - destruct (physical_si_timer l), (front_class l); simpl; rewrite ?app_nil_r;
      try (exists (bt_remove k s); done); (eexists; split; [done|]); apply Hins.
Qed.
Lemma exec_fold_spec keys : forall s out,
  sl_ok s -> NoDup keys -> Forall (fun k => is_Some (bt_get k s)) keys ->
  exists s', fold_left (fun st k => exec_key k st) keys (Done (out, s)) =
      Done (EO (resend out ++ omap (fun k => bt_get k s ≫= exec_resend k) keys)
               (take_back out ++ omap (fun k => bt_get k s ≫= exec_take_back k) keys), s') /\
    sl_ok s' /\ forall k, bt_get k s' = if decide (k ∈ keys) then bt_get k s ≫= exec_list else bt_get k s.
Proof.
  induction keys as [|k keys IH]; intros s out Hs Hnd HF; cbn [fold_left omap list_omap].
  - exists s. rewrite !app_nil_r. split_and!; [by destruct out|done|]. intros k. by rewrite decide_False by apply not_elem_of_nil.
  - inversion_clear Hnd as [|? ? Hk Hnd']. inversion_clear HF as [|? ? [l El] HF'].
    destruct (exec_key_spec s out k l Hs El) as (s1 & E1 & Hs1 & Hg1). rewrite E1.
    assert (Hsame : forall k', k' ∈ keys -> bt_get k' s1 = bt_get k' s).
    { intros k' Hk'. rewrite Hg1. rewrite decide_False; [done|congruence]. }
    destruct (IH s1 (EO (resend out ++ option_list (exec_resend k l)) (take_back out ++ option_list (exec_take_back k l))))
      as (s' & E' & Hs' & Hg'); [done|done| |].
    { apply Forall_forall. intros y Hy. rewrite Hsame by done. exact (proj1 (Forall_forall _ _) HF' y Hy). }
    exists s'. split_and!; [|done|].
    + assert (Hom : forall {X} (f : key -> SignalList -> option X) a,
        a ++ option_list (f k l) ++ omap (fun k => bt_get k s1 ≫= f k) keys =
        a ++ match bt_get k s ≫= f k with Some x => x :: omap (fun k => bt_get k s ≫= f k) keys
             | None => omap (fun k => bt_get k s ≫= f k) keys end).
      { intros X f a. f_equal. rewrite El. simpl.
        assert (Ho : omap (fun k => bt_get k s1 ≫= f k) keys = omap (fun k => bt_get k s ≫= f k) keys).
        { apply list_omap_ext. apply Forall_Forall2_diag, Forall_forall. intros y Hy. by rewrite Hsame. }
        rewrite Ho. by destruct (f k l). }
      rewrite E'. simpl resend. simpl take_back. rewrite <- !app_assoc, !Hom. done.
    + intros k'. rewrite Hg'. destruct (decide (k' = k)) as [->|Hne].
      * rewrite (decide_False (P := k ∈ keys)), (decide_True (P := k ∈ k :: keys)) by (done || constructor).
        rewrite Hg1, decide_True, El by done. done.
      * destruct (decide (k' ∈ keys)) as [Hin|Hin].
        -- rewrite (decide_True (P := k' ∈ k :: keys)) by by constructor. by rewrite Hsame.
        -- rewrite (decide_False (P := k' ∈ k :: keys)) by by rewrite not_elem_of_cons.
           rewrite Hg1. by rewrite decide_False by done.
Qed.
Lemma exec_spec s queues :
  sl_ok s ->
  exists s', exec s queues =
      Done (EO (omap (fun k => bt_get k s ≫= exec_resend k) (List.filter (fun k : key => bool_decide (k.1 ∈ queues)) (listed s)))
               (omap (fun k => bt_get k s ≫= exec_take_back k) (List.filter (fun k : key => bool_decide (k.1 ∈ queues)) (listed s))), s') /\
    sl_ok s' /\ forall k, bt_get k s' = if decide (k.1 ∈ queues) then bt_get k s ≫= exec_list else bt_get k s.
Proof.
  intros Hs. pose proof (sl_sorted s Hs) as Hb. unfold exec, listed.
  set (keys := List.filter _ s.*1).
  assert (Hkeys : forall k, k ∈ keys <-> k.1 ∈ queues /\ is_Some (bt_get k s)).
  { intros k. unfold keys. rewrite list_elem_of_In, List.filter_In, <- list_elem_of_In, bool_decide_eq_true.
    rewrite <- (bt_mem_true s k Hb). unfold bt_mem. destruct (bt_get k s); naive_solver. }
  destruct (exec_fold_spec keys s (EO [] [])) as (s' & E & Hs' & Hg); [done| | |].
  { apply NoDup_List_filter. by apply bt_ok_NoDup. }
  { apply Forall_forall. intros k Hk. by apply Hkeys in Hk as [_ ?]. }
  exists s'. split_and!; [exact E|done|]. intros k. rewrite Hg. destruct (decide (k ∈ keys)) as [Hin|Hin].
  - apply Hkeys in Hin as [Hq _]. by rewrite decide_True.
  - case_decide as Hq; [|done]. destruct (bt_get k s) eqn:Ek; [|done]. destruct Hin. by apply Hkeys.
Qed.
