(* ===== verification/SignalListsProps.v ===== *)
(** What the signal lists promise: they hold the entries Linux would hold. *)
From Stdlib Require Import ZArith Lia List.
From stdpp Require Import base gmap list.
From S2P Require Import Prelude BTree SignalLists.
Implicit Types (s : SignalLists) (k : key) (l : SignalList).

(** * Sequences of calls *)

Inductive sl_call :=
  | CPlain (queue : QueueId) (signal : Z) (info : KernelSiginfo) (discarded : option bool) (timer_pair : bool)
  | CTimer (queue : QueueId) (signal : Z) (e : TimerEntry) (discarded : option bool)
  | CPop (queue : QueueId) (signal : Z)
  | CTakeAll (queue : QueueId) (signal : Z)
  | CRetire (queue : QueueId)
  | CRekey (from to : QueueId)
  | CExec (queues : list QueueId).
Inductive sl_reply :=
  | RAppended (b : bool)
  | RTimer (a : TimerAppend)
  | RPopped (o : option (Entry * option Entry))
  | RTaken (es : list Entry)
  | RNone.

Definition sl_exec (c : sl_call) s : outcome (sl_reply * SignalLists) :=
  match c with
  | CPlain q g info d tp => let '(b, s') := append_plain s q g info d tp in Done (RAppended b, s')
  | CTimer q g e d => let '(a, s') := append_timer s q g e d in Done (RTimer a, s')
  | CPop q g => let '(o, s') := pop s q g in Done (RPopped ((fun p => (p_entry p, p_next p)) <$> o), s')
  | CTakeAll q g => let '(es, s') := take_all s q g in Done (RTaken es, s')
  | CRetire q => '(_, s') ← retire s q; Done (RNone, s')
  | CRekey from to => s' ← rekey_thread s from to; Done (RNone, s')
  | CExec queues => '(_, s') ← exec s queues; Done (RNone, s')
  end.
Fixpoint sl_run (cs : list sl_call) s : outcome (list sl_reply * SignalLists) :=
  match cs with
  | [] => Done ([], s)
  | c :: cs' => '(r, s1) ← sl_exec c s; '(rs, s2) ← sl_run cs' s1; Done (r :: rs, s2)
  end.
Definition is_exec (c : sl_call) : bool := match c with CExec _ => true | _ => false end.

(** * Linux's queues

    A queue is its list of sigqueue entries; an ordinary send is dropped when
    the signal is pending ([legacy_queue]); a timer owns one sigqueue, which
    is on at most one list and remembers which. *)
Record linux := LX { sigqueue : key -> list Entry; on_list : timer_id -> option key }.
Definition boot : linux := LX (fun _ => []) (fun _ => None).
Definition set_queue k (es : list Entry) (x : linux) : key -> list Entry :=
  fun k' => if decide (k' = k) then es else sigqueue x k'.
Definition move_timers (f : key -> option key) (x : linux) : timer_id -> option key :=
  fun t => on_list x t ≫= f.

Definition lx_step (c : sl_call) (x : linux) : sl_reply * linux :=
  match c with
  | CPlain q g info _ _ =>
      match sigqueue x (q, g) with
      | [] => (RAppended true, LX (set_queue (q, g) [Plain info (siginfo_code info =? SI_TIMER)] x) (on_list x))
      | _ => (RAppended false, x)
      end
  | CTimer q g e d =>
      match on_list x (id_of e) with
      | Some k => (RTimer AlreadyPending, LX (set_queue k (replace_timer e (sigqueue x k)) x) (on_list x))
      | None =>
          (RTimer (match sigqueue x (q, g), d with
                   | [], Some _ => ProxyFront | [], None => SendFront | _ :: _, _ => Behind end),
           LX (set_queue (q, g) (sigqueue x (q, g) ++ [Timer e]) x)
              (fun t => if decide (t = id_of e) then Some (q, g) else on_list x t))
      end
  | CPop q g =>
      match sigqueue x (q, g) with
      | [] => (RPopped None, x)
      | e :: rest =>
          (RPopped (Some (e, head rest)),
           LX (set_queue (q, g) rest x)
              (fun t => if decide (t ∈ timers_in [e]) then None else on_list x t))
      end
  | CTakeAll q g =>
      (RTaken (sigqueue x (q, g)),
       LX (set_queue (q, g) [] x) (move_timers (fun k => if decide (k = (q, g)) then None else Some k) x))
  | CRetire q =>
      (RNone, LX (fun k => if decide (k.1 = q) then [] else sigqueue x k)
                 (move_timers (fun k => if decide (k.1 = q) then None else Some k) x))
  | CRekey from to =>
      (RNone, if decide (from = to) then x
              else LX (fun k => if decide (k.1 = to) then sigqueue x (from, k.2)
                                else if decide (k.1 = from) then [] else sigqueue x k)
                      (move_timers (fun k => if decide (k.1 = to) then None
                                             else if decide (k.1 = from) then Some (to, k.2) else Some k) x))
  | CExec _ => (RNone, x)
  end.
Fixpoint lx_run (cs : list sl_call) (x : linux) : list sl_reply * linux :=
  match cs with
  | [] => ([], x)
  | c :: cs' => let '(r, x1) := lx_step c x in let '(rs, x2) := lx_run cs' x1 in (r :: rs, x2)
  end.

(** The lists hold what Linux's queues hold. *)
Record refines s (x : linux) : Prop := {
  rf_ok : sl_ok s;
  rf_entries : forall k, at_key s k = sigqueue x k;
  rf_timers : forall t k, on_list x t = Some k <-> t ∈ timers_in (sigqueue x k);
}.

Lemma on_list_None s x t : refines s x -> on_list x t = None <-> forall k, t ∉ timers_in (at_key s k).
Proof.
  intros [_ He Ht]. split.
  - intros Hn k Hin. rewrite He in Hin. apply Ht in Hin. congruence.
  - intros Hn. destruct (on_list x t) as [k|] eqn:E; [|done]. apply Ht in E. rewrite <- He in E. by destruct (Hn k).
Qed.

Lemma refines_plain s x q g info d pair :
  refines s x ->
  let '(b, s') := append_plain s q g info d pair in
  let '(r, x') := lx_step (CPlain q g info d pair) x in r = RAppended b /\ refines s' x'.
Proof.
  intros [Hs He Ht]. pose proof (append_plain_spec s q g info d pair Hs) as Hsp.
  pose proof (append_plain_ok s q g info d pair Hs) as Hok.
  destruct (append_plain s q g info d pair) as [b s']. destruct Hsp as [-> Hk]. rewrite He in Hk |- *. simpl in Hok.
  simpl. destruct (sigqueue x (q, g)) as [|y ys] eqn:Eq.
  - rewrite bool_decide_true in * by done. split; [done|]. split; [done|..].
    + intros k. rewrite Hk. simpl. unfold set_queue. case_bool_decide; case_decide; done.
    + intros t k. simpl. unfold set_queue. rewrite Ht. case_decide; [|done]. subst. rewrite Eq. done.
  - rewrite bool_decide_false in * by done. split; [done|]. split; [done| |done]. intros k. rewrite Hk. apply He.
Qed.
Lemma refines_timer s x q g e d :
  refines s x ->
  let '(a, s') := append_timer s q g e d in
  let '(r, x') := lx_step (CTimer q g e d) x in r = RTimer a /\ refines s' x'.
Proof.
  intros Hr. pose proof Hr as [Hs He Ht]. pose proof (append_timer_spec s q g e d Hs) as Hsp.
  destruct (append_timer s q g e d) as [a s']. destruct Hsp as (Hok & H1 & H2). simpl.
  destruct (on_list x (id_of e)) as [k|] eqn:Eo.
  - pose proof (proj1 (Ht _ _) Eo) as Hin. destruct H1 as [-> Hk]; [exists k; by rewrite He|]. split; [done|].
    assert (Hset : forall k', set_queue k (replace_timer e (sigqueue x k)) x k' = replace_timer e (sigqueue x k')).
    { intros k'. unfold set_queue. case_decide; [by subst|]. symmetry. apply replace_timer_absent.
      intros Hin'. apply Ht in Hin'. congruence. }
    split; [done|..]; simpl.
    + intros k'. by rewrite Hset, Hk, He.
    + intros t k'. by rewrite Hset, replace_timer_timers, Ht.
  - destruct H2 as [-> Hk]; [by apply (on_list_None s x)|]. rewrite He. split; [done|]. split; [done|..]; simpl.
    + intros k. rewrite Hk, He. unfold set_queue. case_decide; [by subst|done].
    + intros t k. unfold set_queue. destruct (decide (t = id_of e)) as [->|Hne].
      * case_decide as Hk'; [|split; [congruence|intros Hin%Ht; congruence]].
        subst. rewrite timers_in_app, elem_of_app. split; [|done]. intros _. right. rewrite timers_in_timer. constructor.
      * rewrite Ht. case_decide; [|done]. subst. rewrite timers_in_app, elem_of_app, timers_in_timer.
        rewrite list_elem_of_singleton. naive_solver.
Qed.
Lemma refines_pop s x q g :
  refines s x ->
  let '(o, s') := pop s q g in
  let '(r, x') := lx_step (CPop q g) x in
  r = RPopped ((fun p => (p_entry p, p_next p)) <$> o) /\ refines s' x'.
Proof.
  intros Hr. pose proof Hr as [Hs He Ht]. pose proof (signal_pop_spec s q g Hs) as Hsp.
  pose proof (sl_key s (q, g) Hs) as Hnd. destruct (pop s q g) as [o s']. destruct Hsp as (Hok & -> & Hk & _).
  rewrite He in *. cbn [lx_step]. destruct (sigqueue x (q, g)) as [|e rest] eqn:Eq.
  - split; [done|]. split; [done| |done]. intros k. rewrite Hk. case_decide; [subst; by rewrite He, Eq|apply He].
  - split; [done|]. change (e :: rest) with ([e] ++ rest) in Hnd. rewrite timers_in_app in Hnd.
    apply NoDup_app in Hnd as (_ & Hdis & _).
    assert (Hsplit : forall t, t ∈ timers_in (sigqueue x (q, g)) <-> t ∈ timers_in [e] \/ t ∈ timers_in rest).
    { intros t. rewrite Eq. change (e :: rest) with ([e] ++ rest). by rewrite timers_in_app, elem_of_app. }
    split; [done|..]; cbn [sigqueue on_list].
    + intros k. rewrite Hk. unfold set_queue. case_decide; [subst; by rewrite He, Eq|apply He].
    + intros t k. unfold set_queue. destruct (decide (t ∈ timers_in [e])) as [Hte|Hte].
      * split; [done|]. intros Hin. exfalso. case_decide; [by eapply Hdis|].
        apply Ht in Hin. assert (Ho : on_list x t = Some (q, g)) by (apply Ht, Hsplit; by left). congruence.
      * rewrite Ht. case_decide; [|done]. subst. rewrite Hsplit. naive_solver.
Qed.
(** Dropping the lists of some keys. *)
Lemma refines_drop s s' x (P : key -> Prop) `{!forall k, Decision (P k)} :
  refines s x -> sl_ok s' -> (forall k, at_key s' k = if decide (P k) then [] else at_key s k) ->
  refines s' (LX (fun k => if decide (P k) then [] else sigqueue x k)
                 (move_timers (fun k => if decide (P k) then None else Some k) x)).
Proof.
  intros [Hs He Ht] Hok Hk. split; [done|..]; cbn [sigqueue on_list].
  - intros k. rewrite Hk. case_decide; [done|apply He].
  - intros t k. unfold move_timers. destruct (on_list x t) as [k0|] eqn:Eo; simpl.
    + pose proof (proj1 (Ht _ _) Eo) as Hin. split.
      * intros Hm. destruct (decide (P k0)) as [Hp|Hp]; [done|]. injection Hm as <-. by rewrite decide_False.
      * case_decide; [by intros ?%elem_of_nil|]. intros Hin'%Ht. assert (k0 = k) as -> by congruence. by rewrite decide_False.
    + split; [done|]. case_decide; [by intros ?%elem_of_nil|]. intros Hin%Ht. congruence.
Qed.
Lemma refines_ext s x x' :
  (forall k, sigqueue x k = sigqueue x' k) -> (forall t, on_list x t = on_list x' t) -> refines s x -> refines s x'.
Proof. intros H1 H2 [Hs He Ht]. split; [done|..]; intros; rewrite <- ?H1, <- ?H2; auto. Qed.

Lemma refines_rekey s x from to :
  refines s x -> exists s', rekey_thread s from to = Done s' /\ refines s' (lx_step (CRekey from to) x).2.
Proof.
  intros Hr. pose proof Hr as [Hs He Ht]. destruct (rekey_thread_spec s from to Hs) as (s' & E & Hok & Hk).
  exists s'. split; [done|]. cbn [lx_step snd]. destruct (decide (from = to)) as [Hft|Hft].
  { split; [done| |done]. intros [q g]. rewrite Hk. apply He. }
  split; [done|..]; cbn [sigqueue on_list].
  - intros [q g]. rewrite Hk. cbn [fst snd]. repeat case_decide; (done || apply He).
  - intros t [q g]. unfold move_timers. cbn [fst snd].
    destruct (on_list x t) as [[q0 g0]|] eqn:Eo; cbn [mbind option_bind fst snd].
    + pose proof (proj1 (Ht _ _) Eo) as Hin. split.
      * repeat case_decide; intros [= <- <-]; subst; try done.
      * intros Hin'. repeat case_decide; subst; try (by apply elem_of_nil in Hin'); apply Ht in Hin'; congruence.
    + split; [done|]. repeat case_decide; try (by intros ?%elem_of_nil); intros Hin%Ht; congruence.
Qed.

Lemma refines_step s x c :
  refines s x -> is_exec c = false ->
  exists s', sl_exec c s = Done ((lx_step c x).1, s') /\ refines s' (lx_step c x).2.
Proof.
  intros Hr Hc. pose proof Hr as [Hs He Ht]. destruct c as [q g info d tp|q g e d|q g|q g|q|from to|queues]; [..|done].
  - pose proof (refines_plain s x q g info d tp Hr) as H. cbn [sl_exec]. destruct (append_plain _ _ _ _ _ _) as [b s'].
    destruct (lx_step _ x) as [r x']. destruct H as [-> H]. by exists s'.
  - pose proof (refines_timer s x q g e d Hr) as H. cbn [sl_exec]. destruct (append_timer _ _ _ _ _) as [a s'].
    destruct (lx_step _ x) as [r x']. destruct H as [-> H]. by exists s'.
  - pose proof (refines_pop s x q g Hr) as H. cbn [sl_exec]. destruct (pop _ _ _) as [o s'].
    destruct (lx_step _ x) as [r x']. destruct H as [-> H]. by exists s'.
  - cbn [sl_exec lx_step take_all fst snd]. exists (bt_remove (q, g) s). split; [by rewrite <- He|].
    eapply refines_ext; [| |apply (refines_drop s (bt_remove (q, g) s) x (fun k => k = (q, g)))]; [done|done|done|by apply sl_ok_remove|].
    intros k. by rewrite at_key_remove by apply Hs.
  - cbn [sl_exec lx_step fst snd]. destruct (retire_spec s q Hs) as (dropped & s' & E & Hok & _ & Hg). rewrite E. simpl.
    exists s'. split; [done|]. apply (refines_drop s s' x (fun k => k.1 = q)); [done|done|].
    intros k. rewrite !at_key_get, Hg. by case_decide.
  - cbn [sl_exec]. destruct (refines_rekey s x from to Hr) as (s' & E & H). rewrite E. by exists s'.
Qed.
Lemma boot_refines : refines [] boot.
Proof. split; [split; [apply bt_ok_nil|done|by intros ? ? ? ?%elem_of_nil]|by intros [q g]|]. intros t k. split; [done|by intros ?%elem_of_nil]. Qed.
Lemma sl_exec_ok c s : sl_ok s -> exists r s', sl_exec c s = Done (r, s') /\ sl_ok s'.
Proof.
  intros Hs. destruct c as [q g info d tp|q g e d|q g|q g|q|from to|queues]; cbn [sl_exec].
  - pose proof (append_plain_ok s q g info d tp Hs) as H. destruct (append_plain _ _ _ _ _ _). eauto.
  - pose proof (append_timer_spec s q g e d Hs) as H. destruct (append_timer _ _ _ _ _). destruct H. eauto.
  - pose proof (signal_pop_spec s q g Hs) as H. destruct (pop _ _ _). destruct H. eauto.
  - eexists _, _. split; [done|]. by apply sl_ok_remove.
  - destruct (retire_spec s q Hs) as (d & s' & -> & Hok & _). simpl. eauto.
  - destruct (rekey_thread_spec s from to Hs) as (s' & -> & Hok & _). simpl. eauto.
  - destruct (exec_spec s queues Hs) as (s' & -> & Hok & _). simpl. eauto.
Qed.

(** * Theorems *)


(** the invariants hold of every reachable state: any sequence of calls,
    exec included, from empty lists runs without a failed unwrap and leaves
    lists that pass the module's own check of I2 and I3: no list is empty, only
    a front entry is an ordinary send, and no timer has two entries. *)
Theorem signal_lists_invariant (cs : list sl_call) :
  exists rs s, sl_run cs [] = Done (rs, s) /\ invariants_hold s = true.
Proof.
  cut (forall s, sl_ok s -> exists rs s', sl_run cs s = Done (rs, s') /\ sl_ok s').
  { intros Hcut. destruct (Hcut [] (rf_ok _ _ boot_refines)) as (rs & s & E & Hs). exists rs, s.
    split; [done|]. by apply invariants_hold_ok. }
  induction cs as [|c cs IH]; intros s Hs; simpl; [eauto|].
  destruct (sl_exec_ok c s Hs) as (r & s1 & -> & Hs1). simpl. destruct (IH s1 Hs1) as (rs & s2 & -> & Hs2). simpl. eauto.
Qed.

Lemma listed_omap {X} (s : SignalLists) (queues : list QueueId) (f : key -> SignalList -> option X) x : sl_ok s ->
  x ∈ omap (fun k => bt_get k s ≫= f k) (List.filter (fun k : key => bool_decide (k.1 ∈ queues)) (listed s)) <->
  exists k l, k.1 ∈ queues /\ bt_get k s = Some l /\ f k l = Some x.
Proof.
  intros Hs. rewrite list_elem_of_omap. split.
  - intros (k' & Hin & Hf). rewrite list_elem_of_In, List.filter_In, bool_decide_eq_true in Hin.
    destruct (bt_get k' s) as [l|] eqn:El; [|done]. exists k', l. by destruct Hin.
  - intros (k' & l & Hq & El & Hf). exists k'. rewrite El. split; [|done].
    rewrite list_elem_of_In, List.filter_In, bool_decide_eq_true, <- list_elem_of_In. split; [|done].
    apply bt_get_elem in El; [|apply Hs]. apply bt_key_elem. eauto.
Qed.
Lemma front_get (s : SignalLists) queue signal e cl ph : front s queue signal = Some (e, cl, ph) ->
  exists l, bt_get (queue, signal) s = Some l /\
    head (entries_of l) = Some e /\ front_class l = cl /\ physical_si_timer l = ph.
Proof.
  unfold front. destruct (bt_get (queue, signal) s) as [l|]; simpl; [|done].
  destruct (head (entries_of l)) eqn:Eh; simpl; [|done]. intros [= <- <- <-]. eexists; by split_and!.
Qed.

(** what exec does to each queue.  The queues it does not name are
    untouched.  In the others every timer's entry and every forged timer send
    goes; a genuine ordinary send stays unless the kernel flushed its own
    physical record.  It is sent again exactly when the kernel flushed a record
    that stood for it, and a physical record is taken back exactly when the
    kernel kept it and no entry is left. *)
Theorem exec_flush_exact (s : SignalLists) (queues : list QueueId) :
  sl_ok s ->
  exists out s', exec s queues = Done (out, s') /\ forall queue signal,
    let kept := List.filter survives_exec (entries s queue signal) in
    (queue ∉ queues -> entries s' queue signal = entries s queue signal) /\
    (queue ∈ queues -> forall e class physical, front s queue signal = Some (e, class, physical) ->
       entries s' queue signal = (if physical && bool_decide (class = Own) then [] else kept)) /\
    (forall info, ((queue, signal), info) ∈ resend out <->
       queue ∈ queues /\ front s queue signal = Some (Plain info false, Proxy, true)) /\
    ((queue, signal) ∈ take_back out <->
       queue ∈ queues /\ kept = [] /\ exists e class, front s queue signal = Some (e, class, false)).
Proof.
  intros Hs. destruct (exec_spec s queues Hs) as (s' & E & _ & Hg). eexists _, s'. split; [exact E|].
  intros queue signal kept. set (k := (queue, signal)).
  assert (Hget : forall l, bt_get k s = Some l -> exists e, head (entries_of l) = Some e /\
    front s queue signal = Some (e, front_class l, physical_si_timer l)).
  { intros l El. destruct (sl_list s Hs k l El) as [Hne _]. unfold front. fold k. rewrite El. simpl.
    destruct (entries_of l) as [|e es]; [done|]. simpl. eauto. }
  assert (Hent : forall l, bt_get k s = Some l -> kept = survivors l).
  { intros l El. unfold kept, entries. fold k. by rewrite El. }
  split_and!.
  - intros Hq. unfold entries. fold k. rewrite Hg. by rewrite decide_False.
  - intros Hq e cl ph (l & El & He & <- & <-)%front_get. fold k in El. unfold entries. fold k. rewrite Hg, decide_True, El by done. simpl.
    rewrite (Hent l El). unfold exec_list. destruct (physical_si_timer l), (front_class l); simpl;
      destruct (survivors l); done.
  - intros info. cbn [resend]. rewrite listed_omap by done. split.
    + intros (k' & l & Hq & El & Hx). unfold exec_resend in Hx.
      destruct (physical_si_timer l) eqn:Ep, (front_class l) eqn:Ec; try done.
      destruct (sl_list s Hs k' l El) as (_ & Ht & _).
      destruct (survivors_front l Ht) as [Hn|(i & Hh & Hn)]; rewrite Hn in Hx; [done|]. injection Hx as -> ->.
      split; [done|]. unfold front. fold k. by rewrite El; simpl; rewrite Hh, Ec, Ep.
    + intros [Hq (l & El & He & Ec & Ep)%front_get]. fold k in El. exists k, l. split_and!; [done|done|].
      unfold exec_resend. rewrite Ec, Ep. unfold survivors. by destruct (entries_of l) as [|x es]; [done|]; injection He as ->.
  - cbn [take_back]. rewrite listed_omap by done. split.
    + intros (k' & l & Hq & El & Hx). unfold exec_take_back in Hx.
      destruct (physical_si_timer l) eqn:Ep; [done|]. destruct (survivors l) eqn:Esv; [|done]. injection Hx as ->.
      split; [done|]. rewrite (Hent l El). split; [done|]. destruct (Hget l El) as (e & _ & Hf). rewrite Ep in Hf. eauto.
    + intros (Hq & Hk & e & cl & (l & El & He & Ec & Ep)%front_get). fold k in El. exists k, l. split_and!; [done|done|].
      unfold exec_take_back. rewrite Ep. by rewrite <- (Hent l El), Hk.
Qed.

(** ** Siginfo bytes *)

Lemma wrap_i32_u32 x : - 2 ^ 31 <= x < 2 ^ 31 -> wrap_i 32 (wrap_u 32 x) = x.
Proof.
  intros Hx. unfold wrap_i, wrap_u. rewrite Zplus_mod_idemp_l. simpl (32 - 1).
  rewrite Z.mod_small by lia. lia.
Qed.
Lemma i32_ne4 x : - 2 ^ 31 <= x < 2 ^ 31 -> i32_from_ne (ne4 x) = x.
Proof.
  intros Hx. unfold i32_from_ne, ne4. rewrite from_to_le_bytes; [by apply wrap_i32_u32|].
  unfold wrap_u. change (256 ^ Z.of_nat 4) with (2 ^ 32). apply Z.mod_pos_bound. lia.
Qed.
Lemma u64_ne8 x : is_u64 x -> from_le_bytes (ne8 x) = x.
Proof.
  intros Hx. unfold is_u64, u64_max in Hx. unfold ne8, wrap_u. rewrite Z.mod_small by lia.
  apply from_to_le_bytes. change (256 ^ Z.of_nat 8) with (2 ^ 64). lia.
Qed.
Lemma ne4_list x : exists a b c d, ne4 x = [a; b; c; d].
Proof. unfold ne4. simpl. eauto. Qed.
Lemma ne8_list x : exists a b c d e f g h, ne8 x = [a; b; c; d; e; f; g; h].
Proof. unfold ne8. simpl. eauto 10. Qed.

(** the siginfo a timer delivers.  The record built for a timer's signal
    carries [SI_TIMER], survives the copy to and from the guest's 128-byte
    form, and reads through a signalfd as Linux's [signalfd_siginfo]: signal,
    code, timer id, overrun and value at their offsets, the sender fields
    zero. *)
Theorem timer_siginfo_delivered (signal tm overrun value : Z) :
  - 2 ^ 31 <= signal < 2 ^ 31 -> - 2 ^ 31 <= tm < 2 ^ 31 -> - 2 ^ 31 <= overrun < 2 ^ 31 -> is_u64 value ->
  let si := timer_siginfo signal tm overrun value in
  let r := signalfd_record si in
  siginfo_code si = SI_TIMER /\ from_user (to_user si) = si /\ length r = 128%nat /\
  i32_from_ne (slice 0 4 r) = signal /\ i32_from_ne (slice 8 12 r) = SI_TIMER /\
  i32_from_ne (slice 24 28 r) = tm /\ i32_from_ne (slice 32 36 r) = overrun /\
  from_le_bytes (slice 48 56 r) = value /\ slice 12 24 r = replicate 12 0.
Proof.
  intros Hs Ht Ho Hv si r.
  pose proof (i32_ne4 signal Hs) as Es. pose proof (i32_ne4 tm Ht) as Et. pose proof (i32_ne4 overrun Ho) as Eo.
  pose proof (u64_ne8 value Hv) as Ev.
  assert (Hc : siginfo_code si = SI_TIMER).
  { unfold si, timer_siginfo. destruct (ne4_list signal) as (a0 & a1 & a2 & a3 & ->).
    destruct (ne4_list tm) as (b0 & b1 & b2 & b3 & ->). destruct (ne4_list overrun) as (c0 & c1 & c2 & c3 & ->).
    destruct (ne8_list value) as (d0 & d1 & d2 & d3 & d4 & d5 & d6 & d7 & ->). vm_compute. reflexivity. }
  unfold r, signalfd_record. rewrite Hc. clear Hc Hs Ht Ho Hv. subst si r. unfold timer_siginfo.
  destruct (ne4_list signal) as (a0 & a1 & a2 & a3 & Ea). destruct (ne4_list tm) as (b0 & b1 & b2 & b3 & Eb).
  destruct (ne4_list overrun) as (c0 & c1 & c2 & c3 & Ec).
  destruct (ne8_list value) as (d0 & d1 & d2 & d3 & d4 & d5 & d6 & d7 & Ed).
  rewrite Ea, Eb, Ec, Ed in *. split_and!; try done.
Qed.

(** * Witnesses *)

Definition alarm_info : KernelSiginfo := ordinary_siginfo 14 0 100 0.
Definition first_timer : TimerEntry := TE 100 1 7 true.
Definition example_calls : list sl_call :=
  [CPlain (QProcess 100) 14 alarm_info None false; CTimer (QProcess 100) 14 first_timer None;
   CPlain (QProcess 100) 14 alarm_info None false; CTimer (QThread 101) 10 (TE 100 1 8 false) None;
   CPop (QProcess 100) 14; CRekey (QProcess 100) (QThread 7)].

Definition proxied : SignalLists := [((QProcess 100, 14), SL [Plain alarm_info false; Timer first_timer] Proxy true)].
Lemma proxied_ok : sl_ok proxied.
Proof.
  assert (Hat : forall k t, t ∈ timers_in (at_key proxied k) -> k = (QProcess 100, 14)).
  { intros k t. rewrite at_key_get. simpl. destruct (kcmp k (QProcess 100, 14)) eqn:E; [|by intros ?%elem_of_nil..].
    intros _. by apply kcmp_eq. }
  split.
  - apply bt_ok_cons. split; [apply bt_ok_nil|constructor].
  - intros k l. simpl. destruct (kcmp k (QProcess 100, 14)); [|done|done]. intros [= <-]. simpl. split_and!.
    + done.
    + by repeat constructor.
    + apply NoDup_singleton.
  - intros k1 k2 t H1%Hat H2%Hat. congruence.
Qed.
Lemma exec_flush_exact_witness :
  sl_ok proxied /\ exists out s', exec proxied [QProcess 100] = Done (out, s') /\
    entries s' (QProcess 100) 14 = [Plain alarm_info false] /\ ((QProcess 100, 14), alarm_info) ∈ resend out.
Proof.
  split; [apply proxied_ok|].
  destruct (exec_flush_exact proxied [QProcess 100] proxied_ok) as (out & s' & E & H). exists out, s'.
  split; [exact E|]. destruct (H (QProcess 100) 14) as (_ & H2 & H3 & _).
  assert (Hin : QProcess 100 ∈ [QProcess 100]) by (apply list_elem_of_singleton; reflexivity). split.
  - rewrite (H2 Hin (Plain alarm_info false) Proxy true eq_refl). vm_compute. reflexivity.
  - apply H3. split; [exact Hin|vm_compute; reflexivity].
Defined.
Lemma timer_siginfo_delivered_witness :
  i32_from_ne (slice 24 28 (signalfd_record (timer_siginfo 14 3 (-1) 99))) = 3.
Proof. apply (timer_siginfo_delivered 14 3 (-1) 99); unfold is_u64, u64_max; lia. Defined.
