(* ===== verification/NetworkTrace.v ===== *)
(** The network trace, detcore-model/src/network_trace.rs, and the open-file
    identities of detcore-model/src/fd.rs that name its channels.

    The types have the source's names.  Chrono's [DateTime] is the interface
    [Chrono], the bincode codec of a payload the interface [Codec]; a byte is a
    [Z]. *)
From Stdlib Require Import ZArith Lia List.
From stdpp Require Import base gmap list strings.
From S2P Require Import Prelude BTree Time.

(** * Open files *)

Record OpenFileId := OFI { creator : DetTid; sequence : Z }.
#[export] Instance OpenFileId_eqdec : EqDecision OpenFileId.
Proof. solve_decision. Defined.
#[export] Instance OpenFileId_ord : OrdKey OpenFileId :=
  fun a b => lex (Z.compare (creator a) (creator b)) (Z.compare (sequence a) (sequence b)).
#[export] Instance OpenFileId_laws : OrdKeyLaws OpenFileId.
Proof.
  apply (ord_by_laws (fun i => (creator i, sequence i))); [|done].
  intros [c s] [c' s']; simpl. congruence.
Qed.

Definition SOCKET_SEQUENCE_DOMAIN : Z := Z.shiftl 1 63.
Definition new_file (c : DetTid) (n : Z) : outcome OpenFileId :=
  _ ← assert_ (n <? SOCKET_SEQUENCE_DOMAIN); Done (OFI c n).
Definition new_socket (c : DetTid) (n : Z) : outcome OpenFileId :=
  _ ← assert_ (n <? SOCKET_SEQUENCE_DOMAIN); Done (OFI c (Z.lor SOCKET_SEQUENCE_DOMAIN n)).
Definition is_socket (i : OpenFileId) : bool := negb (Z.land (sequence i) SOCKET_SEQUENCE_DOMAIN =? 0).
Definition deterministic_socket_cookie (i : OpenFileId) : Z :=
  let c := wrap_u 32 (creator i) in
  Z.lor (wrap_u 64 (Z.shiftl c 32)) (Z.land (sequence i) u32_max).

(** * Errors *)

Inductive NetworkTraceValidationError :=
  | ChannelCount (n : nat) | EpochOutOfRange | NonSocketChannelIdentity
  | ScheduleDependentChannelIdentity | AddressFamilyMismatch | UnsupportedPeerAddress
  | UnknownTraceChannel | NonCanonicalOrdinal | ReleaseBeforeEpoch | NonMonotonicRelease
  | UnreachableTransmitWatermark | EmptyByteChunk | NonContiguousInput | NonContiguousOutput
  | StreamOffsetOverflow | InvalidErrno | NonTerminalSocketError | EventAfterTerminal
  | DuplicateChannel | TrafficOnFailedChannel | WaitOnRefusedSend | ZeroSendWaits
  | SendWaitBeforeEpoch | NonMonotonicSendWait.
Inductive NetworkTraceCodecError :=
  | Truncated | BadMagic | UnsupportedVersion (v : Z) | TrailingData | TrailingPayloadData
  | EncodeFailed | DecodeFailed | Validation (e : NetworkTraceValidationError).

(** * Configuration *)

Inductive NetworkTraceMode := ModeOff | ModeRecord | ModeReplay.
Record NetworkTraceConfig := {
  mode : NetworkTraceMode;
  path : option string;
  network_perturb_seed : option Z;
}.
Inductive NetworkTraceConfigError := OptionsWhileOff | MissingPath | EmptyPath | PerturbationDuringRecord.
Definition validate_trace_path (p : option string) : result NetworkTraceConfigError () :=
  p ← ok_or p MissingPath; ensure (negb (bool_decide (p = EmptyString))) EmptyPath.
Definition config_validate (c : NetworkTraceConfig) : result NetworkTraceConfigError () :=
  match mode c with
  | ModeOff => ensure (bool_decide (path c = None) && bool_decide (network_perturb_seed c = None)) OptionsWhileOff
  | ModeRecord =>
      _ ← validate_trace_path (path c);
      ensure (bool_decide (network_perturb_seed c = None)) PerturbationDuringRecord
  | ModeReplay => validate_trace_path (path c)
  end.

(** * Addresses *)

Inductive NetworkAddressV1 :=
  | Inet4 (address : list u8) (port : Z)
  | Inet6 (address : list u8) (port flowinfo scope_id : Z).
#[export] Instance NetworkAddressV1_eqdec : EqDecision NetworkAddressV1.
Proof. solve_decision. Defined.

(** The predicates of [std::net::Ipv4Addr] and [Ipv6Addr] that are used. *)
Definition ipv4_is_loopback (a : list u8) : bool := bool_decide (a !! 0%nat = Some 127).
Definition ipv4_is_unspecified (a : list u8) : bool := bool_decide (a = [0; 0; 0; 0]).
Definition ipv4_is_multicast (a : list u8) : bool :=
  match a with b :: _ => (224 <=? b) && (b <=? 239) | [] => false end.
Definition ipv4_is_broadcast (a : list u8) : bool := bool_decide (a = [255; 255; 255; 255]).
Definition ipv6_is_unspecified (a : list u8) : bool := bool_decide (a = replicate 16 0).
Definition ipv6_is_loopback (a : list u8) : bool := bool_decide (a = replicate 15 0 ++ [1]).
Definition ipv6_is_multicast (a : list u8) : bool := bool_decide (a !! 0%nat = Some 255).
Definition to_ipv4_mapped (a : list u8) : option (list u8) :=
  if bool_decide (take 12 a = replicate 10 0 ++ [255; 255]) then Some (drop 12 a) else None.

Definition is_supported_external_ipv4 (a : list u8) : bool :=
  negb (ipv4_is_loopback a) && negb (ipv4_is_unspecified a)
  && negb (ipv4_is_multicast a) && negb (ipv4_is_broadcast a).
Definition is_supported_external_peer (a : NetworkAddressV1) : bool :=
  match a with
  | Inet4 address port => negb (port =? 0) && is_supported_external_ipv4 address
  | Inet6 address port _ _ =>
      negb (port =? 0)
      && match to_ipv4_mapped address with
         | Some mapped => is_supported_external_ipv4 mapped
         | None => negb (ipv6_is_loopback address) && negb (ipv6_is_unspecified address)
                   && negb (ipv6_is_multicast address)
         end
  end.
Definition port (a : NetworkAddressV1) : Z := match a with Inet4 _ p | Inet6 _ p _ _ => p end.
Definition is_unroutable (a : NetworkAddressV1) : bool :=
  match a with
  | Inet4 a _ => ipv4_is_unspecified a || ipv4_is_multicast a || ipv4_is_broadcast a
  | Inet6 a _ _ _ =>
      match to_ipv4_mapped a with
      | Some m => ipv4_is_unspecified m || ipv4_is_multicast m || ipv4_is_broadcast m
      | None => ipv6_is_unspecified a || ipv6_is_multicast a
      end
  end.
Definition is_traceable_peer (a : NetworkAddressV1) : bool := negb (port a =? 0) && negb (is_unroutable a).
Definition same_family (a b : NetworkAddressV1) : bool :=
  match a, b with Inet4 _ _, Inet4 _ _ | Inet6 _ _ _ _, Inet6 _ _ _ _ => true | _, _ => false end.

(** * Events *)

Inductive NetworkTransportV1 := Tcp.
Inductive NetworkEndpointRoleV1 := OutboundClient.

Record NetworkChannelV1 := {
  c1_id : OpenFileId;
  c1_transport : NetworkTransportV1;
  c1_role : NetworkEndpointRoleV1;
  c1_local_address : NetworkAddressV1;
  c1_peer_address : NetworkAddressV1;
  created_before_competing_threads : bool;
}.
Record NetworkReleaseV1 := {
  not_before_global_time : Z;
  after_transmitted_offset : Z;
}.
Definition is_eligible (r : NetworkReleaseV1) (committed_global_time validated_transmitted_offset : Z) : bool :=
  (not_before_global_time r <=? committed_global_time)
  && (after_transmitted_offset r <=? validated_transmitted_offset).
Inductive NetworkInputKindV1 :=
  | InboundBytes (stream_offset : Z) (bytes : list u8)
  | PeerWriteClosed (stream_offset : Z)
  | SocketError (stream_offset errno : Z).
Record NetworkInputEventV1 := {
  ordinal : Z;
  in_channel : OpenFileId;
  release : NetworkReleaseV1;
  event : NetworkInputKindV1;
}.
Record NetworkOutputV1 := {
  o1_channel : OpenFileId;
  o1_stream_offset : Z;
  o1_bytes : list u8;
}.
Record NetworkSendWaitV4 := { waits : Z; wait_not_before : Z }.
Record NetworkOutputV4 := {
  out_channel : OpenFileId;
  stream_offset : Z;
  bytes : list u8;
  wait : option NetworkSendWaitV4;
}.
Definition output_of_v1 (o : NetworkOutputV1) : NetworkOutputV4 :=
  {| out_channel := o1_channel o; stream_offset := o1_stream_offset o; bytes := o1_bytes o; wait := None |}.
Record NetworkChannelV2 := {
  id : OpenFileId;
  transport : NetworkTransportV1;
  role : NetworkEndpointRoleV1;
  local_address : option NetworkAddressV1;
  peer_address : NetworkAddressV1;
  connect_errno : Z;
}.

(** [derive(PartialEq, Eq)]. *)
#[export] Instance NetworkTransportV1_eqdec : EqDecision NetworkTransportV1.
Proof. solve_decision. Defined.
#[export] Instance NetworkEndpointRoleV1_eqdec : EqDecision NetworkEndpointRoleV1.
Proof. solve_decision. Defined.
#[export] Instance NetworkReleaseV1_eqdec : EqDecision NetworkReleaseV1.
Proof. solve_decision. Defined.
#[export] Instance NetworkInputKindV1_eqdec : EqDecision NetworkInputKindV1.
Proof. solve_decision. Defined.
#[export] Instance NetworkInputEventV1_eqdec : EqDecision NetworkInputEventV1.
Proof. solve_decision. Defined.
#[export] Instance NetworkSendWaitV4_eqdec : EqDecision NetworkSendWaitV4.
Proof. solve_decision. Defined.
#[export] Instance NetworkOutputV1_eqdec : EqDecision NetworkOutputV1.
Proof. solve_decision. Defined.
#[export] Instance NetworkOutputV4_eqdec : EqDecision NetworkOutputV4.
Proof. solve_decision. Defined.
#[export] Instance NetworkChannelV1_eqdec : EqDecision NetworkChannelV1.
Proof. solve_decision. Defined.
#[export] Instance NetworkChannelV2_eqdec : EqDecision NetworkChannelV2.
Proof. solve_decision. Defined.

(** * Traces *)

(** What is used of chrono's [DateTime<Utc>]. *)
Class Chrono (D : Type) := { timestamp : D -> Z; timestamp_subsec_micros : D -> Z }.

Record NetworkTraceV1 (D : Type) := {
  t1_epoch : D;
  t1_channels : list NetworkChannelV1;
  t1_inputs : list NetworkInputEventV1;
  t1_outputs : list NetworkOutputV1;
}.
Record NetworkTraceV2 (D : Type) := {
  epoch : D;
  channels : list NetworkChannelV2;
  inputs : list NetworkInputEventV1;
  outputs : list NetworkOutputV4;
}.
Record NetworkTraceV2Wire (D : Type) := {
  w_epoch : D;
  w_channels : list NetworkChannelV2;
  w_inputs : list NetworkInputEventV1;
  w_outputs : list NetworkOutputV1;
}.
Arguments t1_epoch {D}. Arguments t1_channels {D}. Arguments t1_inputs {D}. Arguments t1_outputs {D}.
Arguments epoch {D}. Arguments channels {D}. Arguments inputs {D}. Arguments outputs {D}.
Arguments w_epoch {D}. Arguments w_channels {D}. Arguments w_inputs {D}. Arguments w_outputs {D}.
Arguments Build_NetworkTraceV2 {D}.

#[export] Instance NetworkTraceV1_eqdec {D} `{EqDecision D} : EqDecision (NetworkTraceV1 D).
Proof. solve_decision. Defined.
#[export] Instance NetworkTraceV2_eqdec {D} `{EqDecision D} : EqDecision (NetworkTraceV2 D).
Proof. solve_decision. Defined.
#[export] Instance NetworkTraceV2Wire_eqdec {D} `{EqDecision D} : EqDecision (NetworkTraceV2Wire D).
Proof. solve_decision. Defined.

Definition trace_of_wire {D} (t : NetworkTraceV2Wire D) : NetworkTraceV2 D :=
  {| epoch := w_epoch t; channels := w_channels t; inputs := w_inputs t;
     outputs := output_of_v1 <$> w_outputs t |}.
Definition trace_of_v1 {D} (t : NetworkTraceV1 D) : NetworkTraceV2 D :=
  {| epoch := t1_epoch t;
     channels := (fun c => {| id := c1_id c; transport := c1_transport c; role := c1_role c;
                              local_address := Some (c1_local_address c);
                              peer_address := c1_peer_address c; connect_errno := 0 |}) <$> t1_channels t;
     inputs := t1_inputs t;
     outputs := output_of_v1 <$> t1_outputs t |}.

(** * Validation *)

Definition EINTR : Z := 4.
Definition EAGAIN : Z := 11.

Definition epoch_global_time {D} `{Chrono D} (e : D) : result NetworkTraceValidationError Z :=
  seconds ← ok_or (if 0 <=? timestamp e then Some (timestamp e) else None) EpochOutOfRange;
  whole_seconds ← ok_or (checked_u64 (seconds * 1000000000)) EpochOutOfRange;
  fractional_micros ← ok_or (checked_u64 (timestamp_subsec_micros e * 1000)) EpochOutOfRange;
  ok_or (checked_u64 (whole_seconds + fractional_micros)) EpochOutOfRange.

Definition is_empty_bytes (b : list u8) : bool := match b with [] => true | _ => false end.

Fixpoint validate_outputs_from (outs : list NetworkOutputV1) (channel : OpenFileId) (expected_offset : Z)
    : result NetworkTraceValidationError Z :=
  match outs with
  | [] => Ok expected_offset
  | o :: outs' =>
      _ ← ensure (bool_decide (o1_channel o = channel)) UnknownTraceChannel;
      _ ← ensure (negb (is_empty_bytes (o1_bytes o))) EmptyByteChunk;
      _ ← ensure (o1_stream_offset o =? expected_offset) NonContiguousOutput;
      next ← ok_or (checked_u64 (expected_offset + Z.of_nat (length (o1_bytes o)))) StreamOffsetOverflow;
      validate_outputs_from outs' channel next
  end.
Definition validate_outputs (outs : list NetworkOutputV1) (channel : OpenFileId)
    : result NetworkTraceValidationError Z := validate_outputs_from outs channel 0.

Definition validate_errno (errno : Z) : result NetworkTraceValidationError () :=
  _ ← ensure ((1 <=? errno) && (errno <=? 4095)) InvalidErrno;
  ensure (negb ((errno =? EAGAIN) || (errno =? EINTR))) NonTerminalSocketError.

Definition validate_input_kind (e : NetworkInputKindV1) (offset : Z) : result NetworkTraceValidationError Z :=
  match e with
  | InboundBytes off b =>
      _ ← ensure (negb (is_empty_bytes b)) EmptyByteChunk;
      _ ← ensure (off =? offset) NonContiguousInput;
      ok_or (checked_u64 (offset + Z.of_nat (length b))) StreamOffsetOverflow
  | PeerWriteClosed off => _ ← ensure (off =? offset) NonContiguousInput; Ok offset
  | SocketError off errno =>
      _ ← ensure (off =? offset) NonContiguousInput;
      _ ← validate_errno errno;
      Ok offset
  end.
Definition is_terminal (e : NetworkInputKindV1) : bool :=
  match e with InboundBytes _ _ => false | _ => true end.

(** The input loop of [NetworkTraceV1::validate]. *)
Record v1_cursor := { v1_offset : Z; v1_time : Z; v1_tx : Z; v1_terminal : bool }.
Fixpoint v1_validate_inputs (ins : list NetworkInputEventV1) (index : Z) (channel : OpenFileId)
    (epoch_start total_output : Z) (c : v1_cursor) : result NetworkTraceValidationError () :=
  match ins with
  | [] => Ok tt
  | i :: ins' =>
      let r := release i in
      _ ← ensure (ordinal i =? index) NonCanonicalOrdinal;
      _ ← ensure (bool_decide (in_channel i = channel)) UnknownTraceChannel;
      _ ← ensure (epoch_start <=? not_before_global_time r) ReleaseBeforeEpoch;
      _ ← ensure ((v1_time c <=? not_before_global_time r)
                  && (v1_tx c <=? after_transmitted_offset r)) NonMonotonicRelease;
      _ ← ensure (after_transmitted_offset r <=? total_output) UnreachableTransmitWatermark;
      _ ← ensure (negb (v1_terminal c)) EventAfterTerminal;
      next ← validate_input_kind (event i) (v1_offset c);
      v1_validate_inputs ins' (index + 1) channel epoch_start total_output
        {| v1_offset := next; v1_time := not_before_global_time r;
           v1_tx := after_transmitted_offset r; v1_terminal := is_terminal (event i) |}
  end.
Definition v1_validate {D} `{Chrono D} (t : NetworkTraceV1 D) : result NetworkTraceValidationError () :=
  match t1_channels t with
  | [c] =>
      _ ← ensure (is_socket (c1_id c)) NonSocketChannelIdentity;
      _ ← ensure (created_before_competing_threads c) ScheduleDependentChannelIdentity;
      _ ← ensure (same_family (c1_local_address c) (c1_peer_address c)) AddressFamilyMismatch;
      _ ← ensure (is_supported_external_peer (c1_peer_address c)) UnsupportedPeerAddress;
      epoch_start ← epoch_global_time (t1_epoch t);
      total_output ← validate_outputs (t1_outputs t) (c1_id c);
      v1_validate_inputs (t1_inputs t) 0 (c1_id c) epoch_start total_output
        {| v1_offset := 0; v1_time := epoch_start; v1_tx := 0; v1_terminal := false |}
  | cs => Err (ChannelCount (length cs))
  end.

(** [NetworkTraceV2::validate], its three loops. *)
Abbreviation channel_map := (list (OpenFileId * NetworkChannelV2)).

Definition validate_channel (c : NetworkChannelV2) : result NetworkTraceValidationError () :=
  _ ← ensure (is_socket (id c)) NonSocketChannelIdentity;
  _ ← ensure (is_traceable_peer (peer_address c)) UnsupportedPeerAddress;
  _ ← match local_address c with
      | Some local => ensure (same_family local (peer_address c)) AddressFamilyMismatch
      | None => Ok tt
      end;
  ensure ((0 <=? connect_errno c) && (connect_errno c <=? 4095)
          && Bool.eqb (connect_errno c =? 0) (bool_decide (is_Some (local_address c)))) InvalidErrno.
Fixpoint validate_channels (cs : list NetworkChannelV2) (m : channel_map)
    : result NetworkTraceValidationError channel_map :=
  match cs with
  | [] => Ok m
  | c :: cs' =>
      _ ← validate_channel c;
      _ ← ensure (negb (bt_mem (id c) m)) DuplicateChannel;
      validate_channels cs' (bt_insert (id c) c m)
  end.

Record output_cursor := {
  total_output : list (OpenFileId * Z);
  last_wait : list (OpenFileId * Z);
}.
(** The channel of an event, which must be known and connected. *)
Definition live_channel (m : channel_map) (i : OpenFileId) : result NetworkTraceValidationError () :=
  c ← ok_or (bt_get i m) UnknownTraceChannel;
  ensure (connect_errno c =? 0) TrafficOnFailedChannel.
Definition validate_wait (epoch_start : Z) (o : NetworkOutputV4) (w : NetworkSendWaitV4)
    (lw : list (OpenFileId * Z)) : result NetworkTraceValidationError (list (OpenFileId * Z)) :=
  _ ← ensure (negb (is_empty_bytes (bytes o))) WaitOnRefusedSend;
  _ ← ensure (negb (waits w =? 0)) ZeroSendWaits;
  _ ← ensure (epoch_start <=? wait_not_before w) SendWaitBeforeEpoch;
  let previous := default epoch_start (bt_get (out_channel o) lw) in
  _ ← ensure (previous <=? wait_not_before w) NonMonotonicSendWait;
  Ok (bt_insert (out_channel o) (wait_not_before w) lw).
Definition validate_output (m : channel_map) (epoch_start : Z) (o : NetworkOutputV4) (c : output_cursor)
    : result NetworkTraceValidationError output_cursor :=
  _ ← live_channel m (out_channel o);
  let offset := default 0 (bt_get (out_channel o) (total_output c)) in
  _ ← ensure (stream_offset o =? offset) NonContiguousOutput;
  next ← ok_or (checked_u64 (offset + Z.of_nat (length (bytes o)))) StreamOffsetOverflow;
  lw ← match wait o with
       | Some w => validate_wait epoch_start o w (last_wait c)
       | None => Ok (last_wait c)
       end;
  Ok {| total_output := bt_insert (out_channel o) next (total_output c); last_wait := lw |}.
Fixpoint validate_outputs_v2 (m : channel_map) (epoch_start : Z) (outs : list NetworkOutputV4)
    (c : output_cursor) : result NetworkTraceValidationError output_cursor :=
  match outs with
  | [] => Ok c
  | o :: outs' => c' ← validate_output m epoch_start o c; validate_outputs_v2 m epoch_start outs' c'
  end.

Record InboundCursor := { offset : Z; tx_watermark : Z; terminal : bool }.
Definition new_cursor : InboundCursor := {| offset := 0; tx_watermark := 0; terminal := false |}.
Definition validate_input (m : channel_map) (epoch_start : Z) (totals : list (OpenFileId * Z))
    (index : Z) (i : NetworkInputEventV1) (previous_time : Z) (cursors : list (OpenFileId * InboundCursor))
    : result NetworkTraceValidationError (Z * list (OpenFileId * InboundCursor)) :=
  let r := release i in
  _ ← ensure (ordinal i =? index) NonCanonicalOrdinal;
  _ ← live_channel m (in_channel i);
  _ ← ensure (epoch_start <=? not_before_global_time r) ReleaseBeforeEpoch;
  let cursor := default new_cursor (bt_get (in_channel i) cursors) in
  _ ← ensure ((previous_time <=? not_before_global_time r)
              && (tx_watermark cursor <=? after_transmitted_offset r)) NonMonotonicRelease;
  _ ← ensure (after_transmitted_offset r <=? default 0 (bt_get (in_channel i) totals))
        UnreachableTransmitWatermark;
  _ ← ensure (negb (terminal cursor)) EventAfterTerminal;
  next ← validate_input_kind (event i) (offset cursor);
  Ok (not_before_global_time r,
      bt_insert (in_channel i) {| offset := next; tx_watermark := after_transmitted_offset r;
                                  terminal := is_terminal (event i) |} cursors).
Fixpoint validate_inputs (m : channel_map) (epoch_start : Z) (totals : list (OpenFileId * Z))
    (index : Z) (ins : list NetworkInputEventV1) (previous_time : Z)
    (cursors : list (OpenFileId * InboundCursor)) : result NetworkTraceValidationError () :=
  match ins with
  | [] => Ok tt
  | i :: ins' =>
      '(t, cursors') ← validate_input m epoch_start totals index i previous_time cursors;
      validate_inputs m epoch_start totals (index + 1) ins' t cursors'
  end.
Definition validate {D} `{Chrono D} (t : NetworkTraceV2 D) : result NetworkTraceValidationError () :=
  epoch_start ← epoch_global_time (epoch t);
  m ← validate_channels (channels t) [];
  c ← validate_outputs_v2 m epoch_start (outputs t) {| total_output := []; last_wait := [] |};
  validate_inputs m epoch_start (total_output c) 0 (inputs t) epoch_start [].

(** * Framing *)

Definition NETWORK_TRACE_MAGIC : list u8 :=
  [72; 69; 82; 77; 73; 84; 45; 78; 69; 84; 45; 84; 82; 65; 67; 69].
Definition NETWORK_TRACE_VERSION_V1 : Z := 1.
Definition NETWORK_TRACE_VERSION_V2 : Z := 2.
Definition NETWORK_TRACE_VERSION_V3 : Z := 3.
Definition NETWORK_TRACE_VERSION_V4 : Z := 4.
Definition FRAME_HEADER_LEN : nat := length NETWORK_TRACE_MAGIC + 4 + 8.

(** bincode with its standard configuration, for one type of payload:
    [decode] returns the value and the number of bytes consumed. *)
Class Codec (T : Type) := {
  encode : T -> option (list u8);
  decode : list u8 -> option (T * nat);
}.
Class CodecSpec (T : Type) `{Codec T} : Prop := {
  decode_encode : forall x b, encode x = Some b -> decode b = Some (x, length b);
}.

(** A reader is the bytes it will deliver. *)
Definition read_frame (input : list u8) : result NetworkTraceCodecError (Z * list u8) :=
  _ ← ensure (FRAME_HEADER_LEN <=? length input)%nat Truncated;
  let header := take FRAME_HEADER_LEN input in
  let rest := drop FRAME_HEADER_LEN input in
  _ ← ensure (bool_decide (take (length NETWORK_TRACE_MAGIC) header = NETWORK_TRACE_MAGIC)) BadMagic;
  let version := from_le_bytes (take 4 (drop (length NETWORK_TRACE_MAGIC) header)) in
  _ ← ensure (bool_decide (version ∈ [NETWORK_TRACE_VERSION_V1; NETWORK_TRACE_VERSION_V2;
                                      NETWORK_TRACE_VERSION_V3; NETWORK_TRACE_VERSION_V4]))
        (UnsupportedVersion version);
  let payload_len := from_le_bytes (take 8 (drop (length NETWORK_TRACE_MAGIC + 4) header)) in
  let payload := take (Z.to_nat payload_len) rest in
  _ ← ensure (Z.of_nat (length payload) =? payload_len) Truncated;
  _ ← ensure (bool_decide (drop (Z.to_nat payload_len) rest = [])) TrailingData;
  Ok (version, payload).

Definition decode_payload {T} `{Codec T} (payload : list u8) : result NetworkTraceCodecError T :=
  '(value, consumed) ← ok_or (decode payload) DecodeFailed;
  _ ← ensure (consumed =? length payload)%nat TrailingPayloadData;
  Ok value.
Definition encode_frame {T} `{Codec T} (version : Z) (value : T) : result NetworkTraceCodecError (list u8) :=
  payload ← ok_or (encode value) EncodeFailed;
  Ok (NETWORK_TRACE_MAGIC ++ to_le_bytes 4 version
      ++ to_le_bytes 8 (Z.of_nat (length payload)) ++ payload).

Section Framing.
Context {D : Type} `{!Chrono D}.
Context `{!Codec (NetworkTraceV1 D), !Codec (NetworkTraceV2 D), !Codec (NetworkTraceV2Wire D)}.

Definition v1_write_framed (t : NetworkTraceV1 D) : result NetworkTraceCodecError (list u8) :=
  _ ← map_err Validation (v1_validate t);
  encode_frame NETWORK_TRACE_VERSION_V1 t.
Definition v1_read_framed (input : list u8) : result NetworkTraceCodecError (NetworkTraceV1 D) :=
  '(version, payload) ← read_frame input;
  _ ← ensure (version =? NETWORK_TRACE_VERSION_V1) (UnsupportedVersion version);
  trace ← decode_payload payload;
  _ ← map_err Validation (v1_validate trace);
  Ok trace.

Definition records_refused_sends (t : NetworkTraceV2 D) : bool :=
  existsb (fun o => is_empty_bytes (bytes o)) (outputs t).
Definition records_send_waits (t : NetworkTraceV2 D) : bool :=
  existsb (fun o => bool_decide (is_Some (wait o))) (outputs t).
Definition wire_of_trace (t : NetworkTraceV2 D) : NetworkTraceV2Wire D :=
  {| w_epoch := epoch t; w_channels := channels t; w_inputs := inputs t;
     w_outputs := (fun o => {| o1_channel := out_channel o; o1_stream_offset := stream_offset o;
                               o1_bytes := bytes o |}) <$> outputs t |}.
Definition encode_framed (t : NetworkTraceV2 D) : result NetworkTraceCodecError (list u8) :=
  _ ← map_err Validation (validate t);
  if records_send_waits t then encode_frame NETWORK_TRACE_VERSION_V4 t
  else
    let version := if records_refused_sends t then NETWORK_TRACE_VERSION_V3 else NETWORK_TRACE_VERSION_V2 in
    encode_frame version (wire_of_trace t).
Definition write_framed (t : NetworkTraceV2 D) : result NetworkTraceCodecError (list u8) := encode_framed t.
Definition read_framed (input : list u8) : result NetworkTraceCodecError (NetworkTraceV2 D) :=
  '(version, payload) ← read_frame input;
  trace ← (if version =? NETWORK_TRACE_VERSION_V1 then
             t ← (decode_payload payload : result _ (NetworkTraceV1 D));
             _ ← map_err Validation (v1_validate t);
             Ok (trace_of_v1 t)
           else if version =? NETWORK_TRACE_VERSION_V4 then decode_payload payload
           else
             w ← (decode_payload payload : result _ (NetworkTraceV2Wire D));
             Ok (trace_of_wire w));
  _ ← ensure (negb ((version <? NETWORK_TRACE_VERSION_V3) && records_refused_sends trace))
        (Validation EmptyByteChunk);
  _ ← map_err Validation (validate trace);
  Ok trace.
End Framing.
