(* ===== verification/NetworkEngine.v ===== *)
(** The record and replay engine of detcore-model/src/network_engine.rs.

    Each operation takes the engine and returns its answer with the new engine
    inside [result]: an [Err] is a [NetworkEngineError], which ends the run, so
    the state of a failed operation is not kept.  The numeric constants are
    libc's for Linux. *)
From Stdlib Require Import ZArith Lia List.
From stdpp Require Import base gmap list.
From S2P Require Import Prelude BTree Time NetworkTrace.

Definition EINVAL : Z := 22.
Definition EPIPE : Z := 32.
Definition ENOTCONN : Z := 107.
Definition EINPROGRESS : Z := 115.
Definition POLLIN : Z := 1.
Definition POLLOUT : Z := 4.
Definition POLLERR : Z := 8.
Definition POLLHUP : Z := 16.
Definition POLLRDNORM : Z := 64.
Definition POLLWRNORM : Z := 256.
Definition POLLRDHUP : Z := 8192.
Definition SHUT_RD : Z := 0.
Definition SHUT_WR : Z := 1.
Definition SHUT_RDWR : Z := 2.

Inductive NetworkArrival := ABytes (b : list u8) | APeerWriteClosed | AError (errno : Z).
Inductive NetworkRecvOutcome := RData (b : list u8) | REof | RError (errno : Z) | RWouldBlock.

Inductive NetworkEngineError :=
  | WrongMode
  | UnknownChannel (i : OpenFileId)
  | ChannelExists (i : OpenFileId)
  | NotInTrace (i : OpenFileId)
  | PeerMismatch (channel : OpenFileId) (recorded attempted : NetworkAddressV1)
  | OutboundMismatch (channel : OpenFileId) (offset : Z)
  | OutboundBeyondRecording (channel : OpenFileId) (offset : Z)
  | BlockingSendAtRefusal (channel : OpenFileId) (offset : Z)
  | NonblockingSendAtWait (channel : OpenFileId) (offset : Z)
  | InterleavedSend (channel : OpenFileId) (offset : Z)
  | InvalidArrival (i : OpenFileId)
  | Trace (e : NetworkTraceValidationError)
  | UntraceablePeer (peer : NetworkAddressV1)
  | ReplayStalled (channel : OpenFileId) (needed sent : Z)
  | ReplayUnconnected (i : OpenFileId)
  | ReplayUnsent (channel : OpenFileId) (sent recorded : Z)
  | ReplayUnrefused (channel : OpenFileId) (offset : Z).

Definition REPLAY_STALL_LIMIT : Z := 60 * NANOS_PER_SEC.

Record SendMark := SM { mark_offset : Z; mark_events : Z }.
#[export] Instance SendMark_eqdec : EqDecision SendMark.
Proof. solve_decision. Defined.
Inductive ReplaySendOutcome := Sent (n : nat) | SendWouldBlock | NotYet.

Inductive NetworkRequest :=
  | QRecordConnect (i : OpenFileId) (peer : NetworkAddressV1) (local : option NetworkAddressV1)
      (errno : Z) (nonblocking : bool)
  | QReplayConnect (i : OpenFileId) (peer : NetworkAddressV1) (nonblocking : bool)
  | QRecv (i : OpenFileId) (arrivals : list NetworkArrival) (max_len target : nat) (peek : bool)
  | QReadiness (l : list (OpenFileId * nat * list NetworkArrival))
  | QTakeError (i : OpenFileId)
  | QSendFailure (i : OpenFileId)
  | QRecordSend (i : OpenFileId) (b : list u8) (at_ : option SendMark) (waits : Z)
  | QRecordRefusedSend (i : OpenFileId)
  | QReplaySend (i : OpenFileId) (b : list u8) (nonblocking : bool) (waits : Z)
  | QShutdown (i : OpenFileId) (how : Z)
  | QAddresses (i : OpenFileId).
Inductive NetworkReply :=
  | YErrno (e : Z)
  | YFailure (e : option Z)
  | YRecv (o : NetworkRecvOutcome)
  | YEvents (l : list Z)
  | YSent (n : nat)
  | YRecorded (m : SendMark)
  | YWouldBlock
  | YNotYet
  | YAddresses (a : option (option NetworkAddressV1 * NetworkAddressV1)).

(** * Channels *)

Record Channel := CH {
  record : NetworkChannelV2;
  rx : list u8;
  rx_end : Z;
  peer_closed : bool;
  reset : bool;
  pending_error : option Z;
  tx : Z;
  output_events : Z;
  shut_rd : bool;
  shut_wr : bool;
  pending_inputs : list NetworkInputEventV1;
  expected_outputs : list NetworkOutputV4;
}.

Definition channel_new (r : NetworkChannelV2) : Channel :=
  CH r [] 0 false (negb (connect_errno r =? 0)) None 0 0 false false [] [].
Definition send_mark (c : Channel) : SendMark := SM (tx c) (output_events c).
Definition input_ended (c : Channel) : bool := peer_closed c || reset c.

(** Field assignments. *)
Definition set_rx (b : list u8) (e : Z) (c : Channel) : Channel :=
  CH (record c) b e (peer_closed c) (reset c) (pending_error c) (tx c) (output_events c)
     (shut_rd c) (shut_wr c) (pending_inputs c) (expected_outputs c).
Definition set_closed (c : Channel) : Channel :=
  CH (record c) (rx c) (rx_end c) true (reset c) (pending_error c) (tx c) (output_events c)
     (shut_rd c) (shut_wr c) (pending_inputs c) (expected_outputs c).
Definition set_reset (errno : Z) (c : Channel) : Channel :=
  CH (record c) (rx c) (rx_end c) (peer_closed c) true (Some errno) (tx c) (output_events c)
     (shut_rd c) (shut_wr c) (pending_inputs c) (expected_outputs c).
Definition set_pending_error (o : option Z) (c : Channel) : Channel :=
  CH (record c) (rx c) (rx_end c) (peer_closed c) (reset c) o (tx c) (output_events c)
     (shut_rd c) (shut_wr c) (pending_inputs c) (expected_outputs c).
Definition set_tx (t n : Z) (c : Channel) : Channel :=
  CH (record c) (rx c) (rx_end c) (peer_closed c) (reset c) (pending_error c) t n
     (shut_rd c) (shut_wr c) (pending_inputs c) (expected_outputs c).
Definition set_shut (r w : bool) (c : Channel) : Channel :=
  CH (record c) (rx c) (rx_end c) (peer_closed c) (reset c) (pending_error c) (tx c)
     (output_events c) r w (pending_inputs c) (expected_outputs c).
Definition set_streams (ins : list NetworkInputEventV1) (outs : list NetworkOutputV4) (c : Channel) : Channel :=
  CH (record c) (rx c) (rx_end c) (peer_closed c) (reset c) (pending_error c) (tx c)
     (output_events c) (shut_rd c) (shut_wr c) ins outs.

Section Engine.
Context (bp : profile).

(** [Channel::apply] *)
Definition channel_apply (e : NetworkInputKindV1) (c : Channel) : outcome Channel :=
  match e with
  | InboundBytes _ b =>
      n ← arith_u bp 64 (rx_end c + Z.of_nat (length b)); Done (set_rx (rx c ++ b) n c)
  | PeerWriteClosed _ => Done (set_closed c)
  | SocketError _ errno => Done (set_reset errno c)
  end.

Definition check_stalled (c : Channel) (now : Z) : result NetworkEngineError () :=
  match pending_inputs c with
  | [] => Ok tt
  | input :: _ =>
      let r := NetworkTrace.release input in
      if (tx c <? after_transmitted_offset r)
         && (LogicalTime.add_duration (not_before_global_time r) REPLAY_STALL_LIMIT <=? now)
      then Err (ReplayStalled (id (record c)) (after_transmitted_offset r) (tx c))
      else Ok tt
  end.

(** The loop of [Channel::release] over the inputs still pending. *)
Fixpoint release_loop (ins : list NetworkInputEventV1) (now : Z) (c : Channel) : outcome Channel :=
  match ins with
  | [] => Done (set_streams [] (expected_outputs c) c)
  | input :: ins' =>
      if is_eligible (NetworkTrace.release input) now (tx c) then
        c' ← channel_apply (event input) c; release_loop ins' now c'
      else Done (set_streams ins (expected_outputs c) c)
  end.
Definition channel_release (now : Z) (c : Channel) : outcome Channel :=
  release_loop (pending_inputs c) now c.

(** * The engine *)

Context {D : Type} `{!Chrono D}.

Abbreviation channel_table := (list (OpenFileId * Channel)).
Inductive Mode :=
  | Record_ (ep : D) (ins : list NetworkInputEventV1) (outs : list NetworkOutputV4)
  | Replay (unconnected : channel_table).
Record NetworkEngine := NE { mode : Mode; channels : channel_table }.
Implicit Type g : NetworkEngine.

Definition new_record (ep : D) : NetworkEngine := NE (Record_ ep [] []) [].

Definition push_input (m : channel_table) (i : NetworkInputEventV1) : channel_table :=
  match bt_get (in_channel i) m with
  | Some c => bt_insert (in_channel i) (set_streams (pending_inputs c ++ [i]) (expected_outputs c) c) m
  | None => m
  end.
Definition push_output (m : channel_table) (o : NetworkOutputV4) : channel_table :=
  match bt_get (out_channel o) m with
  | Some c => bt_insert (out_channel o) (set_streams (pending_inputs c) (expected_outputs c ++ [o]) c) m
  | None => m
  end.
Definition new_replay (t : NetworkTraceV2 D) : NetworkEngine :=
  let unconnected := fold_left (fun m r => bt_insert (id r) (channel_new r) m) (NetworkTrace.channels t) [] in
  let with_inputs := fold_left push_input (inputs t) unconnected in
  NE (Replay (fold_left push_output (outputs t) with_inputs)) [].

Definition is_record g : bool := match mode g with Record_ _ _ _ => true | Replay _ => false end.
Definition is_channel g (i : OpenFileId) : bool := bt_mem i (channels g).
Definition channel g (i : OpenFileId) : result NetworkEngineError Channel :=
  ok_or (bt_get i (channels g)) (UnknownChannel i).
(** Writing back a channel borrowed mutably. *)
Definition put_channel g (i : OpenFileId) (c : Channel) : NetworkEngine :=
  NE (mode g) (bt_insert i c (channels g)).
Definition check_new g (i : OpenFileId) : result NetworkEngineError () :=
  ensure (negb (bt_mem i (channels g))) (ChannelExists i).

Definition connected g (c : Channel) (nonblocking : bool) : Z * NetworkEngine :=
  let errno := connect_errno (record c) in
  let c' := if nonblocking then set_pending_error (if errno =? 0 then None else Some errno) c else c in
  (if nonblocking then EINPROGRESS else errno, put_channel g (id (record c)) c').

Definition record_connect g (i : OpenFileId) (peer : NetworkAddressV1) (local : option NetworkAddressV1)
    (errno : Z) (nonblocking : bool) : result NetworkEngineError (Z * NetworkEngine) :=
  _ ← ensure (is_record g) WrongMode;
  _ ← check_new g i;
  _ ← ensure (is_traceable_peer peer) (UntraceablePeer peer);
  let r := {| id := i; transport := Tcp; role := OutboundClient;
              local_address := if errno =? 0 then local else None;
              peer_address := peer; connect_errno := errno |} in
  Ok (connected g (channel_new r) nonblocking).

Definition replay_connect g (i : OpenFileId) (peer : NetworkAddressV1) (nonblocking : bool)
    : result NetworkEngineError (Z * NetworkEngine) :=
  _ ← check_new g i;
  match mode g with
  | Record_ _ _ _ => Err WrongMode
  | Replay unconnected =>
      c ← ok_or (bt_get i unconnected) (NotInTrace i);
      let recorded := peer_address (record c) in
      _ ← ensure (bool_decide (recorded = peer)) (PeerMismatch i recorded peer);
      Ok (connected (NE (Replay (bt_remove i unconnected)) (channels g)) c nonblocking)
  end.

Definition addresses g (i : OpenFileId) : option (option NetworkAddressV1 * NetworkAddressV1) :=
  (fun c => (local_address (record c), peer_address (record c))) <$> bt_get i (channels g).

Definition needs_pull g (i : OpenFileId) : bool :=
  is_record g && match bt_get i (channels g) with Some c => negb (input_ended c) | None => false end.

Definition arrival_event (stream_offset : Z) (a : NetworkArrival) : NetworkInputKindV1 :=
  match a with
  | ABytes b => InboundBytes stream_offset b
  | APeerWriteClosed => PeerWriteClosed stream_offset
  | AError errno => SocketError stream_offset errno
  end.
Definition is_empty_arrival (a : NetworkArrival) : bool :=
  match a with ABytes b => is_empty_bytes b | _ => false end.
Definition record_arrival g (i : OpenFileId) (now : Z) (a : NetworkArrival)
    : result NetworkEngineError NetworkEngine :=
  c ← channel g i;
  match mode g with
  | Replay _ => Err WrongMode
  | Record_ ep ins outs =>
      _ ← ensure (negb (input_ended c || is_empty_arrival a)) (InvalidArrival i);
      let e := arrival_event (rx_end c) a in
      let input := {| ordinal := Z.of_nat (length ins); in_channel := i;
                      release := {| not_before_global_time := now; after_transmitted_offset := tx c |};
                      event := e |} in
      c' ← lift (channel_apply e c);
      Ok (NE (Record_ ep (ins ++ [input]) outs) (bt_insert i c' (channels g)))
  end.

(** What [recv] answers on a channel whose due inputs are released. *)
Definition recv_released (c : Channel) (now : Z) (max_len target : nat) (peek : bool)
    : result NetworkEngineError (NetworkRecvOutcome * Channel) :=
  let available := length (rx c) in
  if (0 <? available)%nat
     && ((Nat.max target 1 <=? available)%nat || input_ended c || shut_rd c
         || bool_decide (is_Some (pending_error c)))
  then
    let len := Nat.min available max_len in
    Ok (RData (take len (rx c)), if peek then c else set_rx (drop len (rx c)) (rx_end c) c)
  else if (available =? 0)%nat && bool_decide (is_Some (pending_error c))
  then Ok (RError (default 0 (pending_error c)), set_pending_error None c)
  else if (available =? 0)%nat && (input_ended c || shut_rd c)
  then Ok (REof, c)
  else _ ← check_stalled c now; Ok (RWouldBlock, c).
Definition recv g (i : OpenFileId) (now : Z) (max_len target : nat) (peek : bool)
    : result NetworkEngineError (NetworkRecvOutcome * NetworkEngine) :=
  c ← channel g i;
  c' ← lift (channel_release now c);
  '(o, c'') ← recv_released c' now max_len target peek;
  Ok (o, put_channel g i c'').

(** The poll events of a channel whose due inputs are released. *)
Definition poll_events (c : Channel) (lowat : nat) : Z :=
  let rcv_shutdown := shut_rd c || input_ended c in
  let snd_shutdown := shut_wr c || reset c in
  let hup := if (rcv_shutdown && snd_shutdown) || reset c then POLLHUP else 0 in
  let rd := if rcv_shutdown then Z.lor (Z.lor POLLIN POLLRDNORM) POLLRDHUP
            else if (Nat.max lowat 1 <=? length (rx c))%nat then Z.lor POLLIN POLLRDNORM else 0 in
  let wr := Z.lor POLLOUT POLLWRNORM in
  let err := if bool_decide (is_Some (pending_error c)) then POLLERR else 0 in
  Z.lor (Z.lor (Z.lor hup rd) wr) err.
Definition readiness g (i : OpenFileId) (now : Z) (lowat : nat)
    : result NetworkEngineError (Z * NetworkEngine) :=
  c ← channel g i;
  c' ← lift (channel_release now c);
  _ ← check_stalled c' now;
  Ok (poll_events c' lowat, put_channel g i c').

Definition take_error g (i : OpenFileId) (now : Z) : result NetworkEngineError (Z * NetworkEngine) :=
  c ← channel g i;
  c' ← lift (channel_release now c);
  Ok (default 0 (pending_error c'), put_channel g i (set_pending_error None c')).

Definition send_failure g (i : OpenFileId) (now : Z)
    : result NetworkEngineError (option Z * NetworkEngine) :=
  c ← channel g i;
  c' ← lift (channel_release now c);
  if reset c' || shut_wr c'
  then Ok (Some (default EPIPE (pending_error c')), put_channel g i (set_pending_error None c'))
  else Ok (None, put_channel g i c').

Definition record_send g (i : OpenFileId) (sent : list u8) (at_ : option SendMark) (now waits : Z)
    : result NetworkEngineError (SendMark * NetworkEngine) :=
  c ← channel g i;
  match mode g with
  | Replay _ => Err WrongMode
  | Record_ ep ins outs =>
      _ ← match at_ with
          | Some m => ensure (bool_decide (m = send_mark c)) (InterleavedSend i (mark_offset m))
          | None => Ok tt
          end;
      if is_empty_bytes sent then Ok (send_mark c, g)
      else
        let o := {| out_channel := i; stream_offset := tx c; bytes := sent;
                    wait := if 0 <? waits
                            then Some {| waits := waits; wait_not_before := now |} else None |} in
        t ← lift (arith_u bp 64 (tx c + Z.of_nat (length sent)));
        n ← lift (arith_u bp 64 (output_events c + 1));
        let c' := set_tx t n c in
        Ok (send_mark c', NE (Record_ ep ins (outs ++ [o])) (bt_insert i c' (channels g)))
  end.

Definition record_refused_send g (i : OpenFileId) : result NetworkEngineError NetworkEngine :=
  c ← channel g i;
  match mode g with
  | Replay _ => Err WrongMode
  | Record_ ep ins outs =>
      let o := {| out_channel := i; stream_offset := tx c; bytes := []; wait := None |} in
      n ← lift (arith_u bp 64 (output_events c + 1));
      Ok (NE (Record_ ep ins (outs ++ [o])) (bt_insert i (set_tx (tx c) n c) (channels g)))
  end.

(** [position] of the first pair that differs. *)
Fixpoint first_difference (a b : list u8) : option nat :=
  match a, b with
  | x :: a', y :: b' => if x =? y then S <$> first_difference a' b' else Some 0%nat
  | _, _ => None
  end.
Definition replay_send g (i : OpenFileId) (b : list u8) (nonblocking : bool) (now waits_ : Z)
    : result NetworkEngineError (ReplaySendOutcome * NetworkEngine) :=
  _ ← ensure (negb (is_record g)) WrongMode;
  c ← channel g i;
  if is_empty_bytes b then Ok (Sent 0, g)
  else
    match expected_outputs c with
    | [] => Err (OutboundBeyondRecording i (tx c))
    | fragment :: rest =>
        if is_empty_bytes (bytes fragment) then
          _ ← ensure nonblocking (BlockingSendAtRefusal i (tx c));
          Ok (SendWouldBlock, put_channel g i (set_streams (pending_inputs c) rest c))
        else
          start ← lift (arith_u bp 64 (tx c - stream_offset fragment));
          not_yet ← match (if start =? 0 then wait fragment else None) with
                    | Some w =>
                        _ ← ensure (negb nonblocking) (NonblockingSendAtWait i (tx c));
                        Ok ((waits_ <? waits w) || (now <? wait_not_before w))
                    | None => Ok false
                    end;
          if not_yet : bool then Ok (NotYet, g)
          else if Z.of_nat (length (bytes fragment)) <? start then Crash PExplicit
          else
            let remaining := drop (Z.to_nat start) (bytes fragment) in
            let len := Nat.min (length remaining) (length b) in
            if negb (bool_decide (take len remaining = take len b)) then
              off ← lift (arith_u bp 64 (tx c + Z.of_nat (default len (first_difference remaining b))));
              Err (OutboundMismatch i off)
            else
              t ← lift (arith_u bp 64 (tx c + Z.of_nat len));
              let outs := if (len =? length remaining)%nat then rest else expected_outputs c in
              Ok (Sent len, put_channel g i (set_streams (pending_inputs c) outs (set_tx t (output_events c) c)))
    end.

Definition shutdown g (i : OpenFileId) (how : Z) : result NetworkEngineError (Z * NetworkEngine) :=
  c ← channel g i;
  if negb (connect_errno (record c) =? 0) then Ok (ENOTCONN, g)
  else if how =? SHUT_RD then Ok (0, put_channel g i (set_shut true (shut_wr c) c))
  else if how =? SHUT_WR then Ok (0, put_channel g i (set_shut (shut_rd c) true c))
  else if how =? SHUT_RDWR then Ok (0, put_channel g i (set_shut true true c))
  else Ok (EINVAL, g).

Fixpoint record_arrivals g (i : OpenFileId) (now : Z) (l : list NetworkArrival)
    : result NetworkEngineError NetworkEngine :=
  match l with
  | [] => Ok g
  | a :: l' =>
      if needs_pull g i then g' ← record_arrival g i now a; record_arrivals g' i now l'
      else Ok g
  end.

Fixpoint readiness_loop g (now : Z) (l : list (OpenFileId * nat * list NetworkArrival))
    : result NetworkEngineError (list Z * NetworkEngine) :=
  match l with
  | [] => Ok ([], g)
  | (i, lowat, arrivals) :: l' =>
      g1 ← record_arrivals g i now arrivals;
      '(e, g2) ← readiness g1 i now lowat;
      '(es, g3) ← readiness_loop g2 now l';
      Ok (e :: es, g3)
  end.

(** [NetworkEngine::apply] *)
Definition apply g (now : Z) (request : NetworkRequest)
    : result NetworkEngineError (NetworkReply * NetworkEngine) :=
  match request with
  | QRecordConnect i peer local errno nonblocking =>
      '(e, g') ← record_connect g i peer local errno nonblocking; Ok (YErrno e, g')
  | QReplayConnect i peer nonblocking =>
      '(e, g') ← replay_connect g i peer nonblocking; Ok (YErrno e, g')
  | QRecv i arrivals max_len target peek =>
      g1 ← record_arrivals g i now arrivals;
      '(o, g2) ← recv g1 i now max_len target peek;
      Ok (YRecv o, g2)
  | QReadiness l => '(es, g') ← readiness_loop g now l; Ok (YEvents es, g')
  | QTakeError i => '(e, g') ← take_error g i now; Ok (YErrno e, g')
  | QSendFailure i => '(e, g') ← send_failure g i now; Ok (YFailure e, g')
  | QRecordSend i b at_ waits => '(m, g') ← record_send g i b at_ now waits; Ok (YRecorded m, g')
  | QRecordRefusedSend i => g' ← record_refused_send g i; Ok (YWouldBlock, g')
  | QReplaySend i b nonblocking waits =>
      '(o, g') ← replay_send g i b nonblocking now waits;
      Ok (match o with Sent n => YSent n | SendWouldBlock => YWouldBlock | NotYet => YNotYet end, g')
  | QShutdown i how => '(e, g') ← shutdown g i how; Ok (YErrno e, g')
  | QAddresses i => Ok (YAddresses (addresses g i), g)
  end.

Fixpoint unfinished (cs : channel_table) : result NetworkEngineError () :=
  match cs with
  | [] => Ok tt
  | (i, c) :: cs' =>
      match last (expected_outputs c) with
      | Some o =>
          recorded ← lift (arith_u bp 64 (stream_offset o + Z.of_nat (length (bytes o))));
          Err (if tx c <? recorded then ReplayUnsent i (tx c) recorded else ReplayUnrefused i (tx c))
      | None => unfinished cs'
      end
  end.
Definition finish_replay g : result NetworkEngineError () :=
  match mode g with
  | Record_ _ _ _ => Err WrongMode
  | Replay unconnected =>
      match unconnected with
      | (i, _) :: _ => Err (ReplayUnconnected i)
      | [] => unfinished (channels g)
      end
  end.

Definition finish g : result NetworkEngineError (NetworkTraceV2 D) :=
  match mode g with
  | Replay _ => Err WrongMode
  | Record_ ep ins outs =>
      let t := {| epoch := ep; NetworkTrace.channels := (fun kc => record kc.2) <$> channels g;
                  inputs := ins; outputs := outs |} in
      _ ← map_err Trace (validate t);
      Ok t
  end.
End Engine.
Arguments NetworkEngine : clear implicits.
Arguments Mode : clear implicits.
