(* ===== verification/NetworkSim.v ===== *)
(** Record and replay in lockstep.

    [guest_op] is what a guest thread does on its network channels together
    with what the host answered while recording; [record_op] and [replay_op]
    are the requests the syscall layer (detcore/src/syscalls/network_trace.rs)
    makes for it in the two modes.  [sim] relates a recording engine, whose
    remaining run will still log the inputs [I] and the outputs [O], with the
    replaying engine at the same point of the guest's execution. *)
From Stdlib Require Import ZArith Lia List.
From stdpp Require Import base gmap list strings.
From S2P Require Import Prelude BTree Time NetworkTrace NetworkEngine.


Section Ops.
Context (bp : profile) {D : Type} `{!Chrono D}.
Implicit Type g : NetworkEngine D.

Inductive guest_op :=
  | GConnect (i : OpenFileId) (peer : NetworkAddressV1) (local : option NetworkAddressV1)
      (errno : Z) (nonblocking : bool)
  | GRecv (i : OpenFileId) (arrivals : list NetworkArrival) (max_len target : nat) (peek : bool)
  | GPoll (l : list (OpenFileId * nat * list NetworkArrival))
  | GTakeError (i : OpenFileId)
  | GSendFailure (i : OpenFileId)
  | GSend (i : OpenFileId) (buf : list u8) (accepted : nat) (nonblocking : bool)
      (at_ : option SendMark) (waits : Z)
  | GRefused (i : OpenFileId) (buf : list u8)
  | GSendWait (i : OpenFileId) (buf : list u8) (waits : Z) (first : bool)
  | GShutdown (i : OpenFileId) (how : Z)
  | GAddresses (i : OpenFileId).

(** What the guest's call sees: an engine reply passed on, [n] bytes sent,
    [EAGAIN], or another wait of a blocking send. *)
Inductive guest_view := VReply (r : NetworkReply) | VSent (n : nat) | VEagain | VWait.

Definition record_view (op : guest_op) (r : NetworkReply) : guest_view :=
  match op, r with
  | GSend _ _ n _ _ _, YRecorded _ => VSent n
  | GRefused _ _, YWouldBlock => VEagain
  | GSendWait _ _ _ _, YRecorded _ => VWait
  | _, _ => VReply r
  end.
Definition replay_view (r : NetworkReply) : guest_view :=
  match r with YSent n => VSent n | YWouldBlock => VEagain | YNotYet => VWait | _ => VReply r end.

(** The request a recording run makes; a blocking send that waits again after
    its first wait makes none. *)
Definition record_request (op : guest_op) : option NetworkRequest :=
  match op with
  | GConnect i peer local errno nb => Some (QRecordConnect i peer local errno nb)
  | GRecv i arrivals max_len target peek => Some (QRecv i arrivals max_len target peek)
  | GPoll l => Some (QReadiness l)
  | GTakeError i => Some (QTakeError i)
  | GSendFailure i => Some (QSendFailure i)
  | GSend i buf n _ at_ waits => Some (QRecordSend i (take n buf) at_ waits)
  | GRefused i _ => Some (QRecordRefusedSend i)
  | GSendWait i _ _ first => if first then Some (QRecordSend i [] None 0) else None
  | GShutdown i how => Some (QShutdown i how)
  | GAddresses i => Some (QAddresses i)
  end.
Definition replay_request (op : guest_op) : NetworkRequest :=
  match op with
  | GConnect i peer _ _ nb => QReplayConnect i peer nb
  | GRecv i _ max_len target peek => QRecv i [] max_len target peek
  | GPoll l => QReadiness ((fun x => (x.1, [])) <$> l)
  | GTakeError i => QTakeError i
  | GSendFailure i => QSendFailure i
  | GSend i buf _ nb _ waits => QReplaySend i buf nb waits
  | GRefused i buf => QReplaySend i buf true 0
  | GSendWait i buf waits _ => QReplaySend i buf false waits
  | GShutdown i how => QShutdown i how
  | GAddresses i => QAddresses i
  end.
Definition record_op g (now : Z) (op : guest_op) : result NetworkEngineError (guest_view * NetworkEngine D) :=
  match record_request op with
  | Some q => '(r, g') ← apply bp g now q; Ok (record_view op r, g')
  | None => Ok (VWait, g)
  end.
Definition replay_op g (now : Z) (op : guest_op) : result NetworkEngineError (guest_view * NetworkEngine D) :=
  '(r, g') ← apply bp g now (replay_request op); Ok (replay_view r, g').

Fixpoint run_ops (step : NetworkEngine D -> Z -> guest_op -> result NetworkEngineError (guest_view * NetworkEngine D))
    g (l : list (Z * guest_op)) : result NetworkEngineError (list guest_view * NetworkEngine D) :=
  match l with
  | [] => Ok ([], g)
  | (now, op) :: l' =>
      '(v, g1) ← step g now op;
      '(vs, g2) ← run_ops step g1 l';
      Ok (v :: vs, g2)
  end.

(** ** What the syscall layer guarantees *)

Definition pulls (op : guest_op) : bool :=
  match op with
  | GRecv _ (_ :: _) _ _ _ => true
  | GPoll l => existsb (fun x => match x.2 with [] => false | _ => true end) l
  | _ => false
  end.
(** Global time never goes back, and moves on before the host is asked for
    more input. *)
Fixpoint times_ok (last : Z) (l : list (Z * guest_op)) : Prop :=
  match l with
  | [] => True
  | (now, op) :: l' =>
      is_u64 now /\ last <= now /\ (pulls op = true -> last < now) /\ times_ok now l'
  end.

(** The next output event the rest of the run makes on channel [i]: its number
    of waits, none for a refused send. *)
Fixpoint next_output (i : OpenFileId) (l : list (Z * guest_op)) : option Z :=
  match l with
  | [] => None
  | (_, GSend j _ _ _ _ w) :: l' => if decide (j = i) then Some w else next_output i l'
  | (_, GRefused j _) :: l' => if decide (j = i) then None else next_output i l'
  | _ :: l' => next_output i l'
  end.
(** A poll lists a channel once; the host accepts part of the buffer it is
    given; a nonblocking send does not wait; a send that waits is on a channel
    connected before, and is resumed before any other output on it. *)
Definition op_ok (connected : list OpenFileId) (op : guest_op) (rest : list (Z * guest_op)) : Prop :=
  match op with
  | GPoll l => NoDup ((fun x => x.1.1) <$> l)
  | GSend _ buf n nb _ w =>
      (0 < n <= length buf)%nat /\ 0 <= w /\ (nb = true -> w = 0)
  | GRefused _ buf => buf <> []
  | GSendWait i buf w _ => i ∈ connected /\ buf <> [] /\ 0 <= w /\ exists w', next_output i rest = Some w' /\ w < w'
  | _ => True
  end.
Definition connects (op : guest_op) : list OpenFileId :=
  match op with GConnect i _ _ _ _ => [i] | _ => [] end.
Fixpoint ops_ok (connected : list OpenFileId) (l : list (Z * guest_op)) : Prop :=
  match l with
  | [] => True
  | (_, op) :: l' => op_ok connected op l' /\ ops_ok (connects op ++ connected) l'
  end.
End Ops.

(** * Lockstep *)

Section Lockstep.
Context (bp : profile) {D : Type} `{!Chrono D}.
Implicit Types (g : NetworkEngine D) (c : Channel) (I J : list NetworkInputEventV1) (O P : list NetworkOutputV4).

Definition of_in (i : OpenFileId) I := filter (fun x => in_channel x = i) I.
Definition of_out (i : OpenFileId) O := filter (fun x => out_channel x = i) O.
(** A recorded channel as the replay has it while [I] and [O] are to come. *)
Definition replayed I O (i : OpenFileId) (c : Channel) : Channel :=
  set_streams (of_in i I) (of_out i O) (set_tx (tx c) 0 c).

Record rec_ok g : Prop := {
  rec_mode : is_record g = true;
  rec_sorted : bt_ok (channels g);
  rec_chan : forall i c, bt_get i (channels g) = Some c ->
    id (record c) = i /\ pending_inputs c = [] /\ expected_outputs c = [];
}.
(** [gf] is the engine at the end of the recording. *)
Record sim (gf : NetworkEngine D) I O g g' : Prop := {
  sim_unconnected : exists U, mode g' = Replay U /\ bt_ok U /\
    forall i, bt_get i U =
      match bt_get i (channels g) with
      | Some _ => None
      | None => (fun c => replayed I O i (channel_new (record c))) <$> bt_get i (channels gf)
      end;
  sim_sorted : bt_ok (channels g');
  sim_chan : forall i, bt_get i (channels g') = replayed I O i <$> bt_get i (channels g);
}.
(** [g1] logged [J] and [P] since [g]. *)
Definition logged g g1 J P : Prop :=
  exists ep ins outs, mode g = Record_ ep ins outs /\ mode g1 = Record_ ep (ins ++ J) (outs ++ P).
(** [g1] is [g] with channel [i] replaced. *)
Definition updated g i c g1 : Prop :=
  bt_ok (channels g1) /\
  forall j, bt_get j (channels g1) = if decide (j = i) then Some c else bt_get j (channels g).
(** The channels of [g] live on in [g1]. *)
Definition extends g g1 : Prop :=
  forall i c, bt_get i (channels g) = Some c ->
    exists c1, bt_get i (channels g1) = Some c1 /\ record c1 = record c.
Definition later i (now : Z) I : Prop :=
  Forall (fun x => in_channel x = i -> now < not_before_global_time (release x) <= u64_max) I.
Definition tx_of g i : Z := match bt_get i (channels g) with Some c => tx c | None => 0 end.

Lemma of_in_app i I J : of_in i (I ++ J) = of_in i I ++ of_in i J.
Proof. apply filter_app. Qed.
Lemma of_out_app i O P : of_out i (O ++ P) = of_out i O ++ of_out i P.
Proof. apply filter_app. Qed.
Lemma of_in_only i J : Forall (fun x => in_channel x = i) J -> of_in i J = J.
Proof. unfold of_in. induction 1 as [|x J Hx HJ IH]; [done|]. by rewrite filter_cons_True, IH. Qed.
Lemma of_in_other i j J : j <> i -> Forall (fun x => in_channel x = i) J -> of_in j J = [].
Proof.
  unfold of_in. intros Hne. induction 1 as [|x J Hx HJ IH]; [done|].
  rewrite filter_cons_False; [done|congruence].
Qed.
Lemma of_out_other i j P : j <> i -> Forall (fun x => out_channel x = i) P -> of_out j P = [].
Proof.
  unfold of_out. intros Hne. induction 1 as [|x J Hx HJ IH]; [done|].
  rewrite filter_cons_False; [done|congruence].
Qed.
Lemma of_in_elem i x I l : of_in i I = x :: l -> x ∈ I /\ in_channel x = i.
Proof.
  intros E. assert (Hx : x ∈ of_in i I) by (rewrite E; constructor).
  by apply list_elem_of_filter in Hx as [? ?].
Qed.

(** ** Releases *)

Fixpoint apply_events J c : outcome Channel :=
  match J with
  | [] => Done c
  | x :: J' => c' ← channel_apply bp (event x) c; apply_events J' c'
  end.

Lemma channel_apply_replayed e I O i c :
  channel_apply bp e (replayed I O i c) = (c1 ← channel_apply bp e c; Done (replayed I O i c1)).
Proof. destruct e; simpl; [|done..]. by destruct (arith_u bp 64 _). Qed.
Lemma channel_apply_keeps e c c1 :
  channel_apply bp e c = Done c1 ->
  record c1 = record c /\ tx c1 = tx c /\ pending_inputs c1 = pending_inputs c
  /\ expected_outputs c1 = expected_outputs c.
Proof.
  destruct e; simpl; [|by intros [= <-]..].
  destruct (arith_u bp 64 _); simpl; [|done]. by intros [= <-].
Qed.

Lemma release_later I K O i now c :
  later i now I -> release_loop bp (of_in i I) now (replayed K O i c) = Done (replayed I O i c).
Proof.
  intros HI. unfold replayed at 2. destruct (of_in i I) as [|x l] eqn:E; simpl; [done|].
  apply of_in_elem in E as [Hx Hi]. apply (proj1 (Forall_forall _ _) HI) in Hx as [Hnow _]; [|done].
  unfold is_eligible. by rewrite (proj2 (Z.leb_gt _ _)) by done.
Qed.
Definition arrived i now (t : Z) J : Prop :=
  Forall (fun x => in_channel x = i /\
    release x = {| not_before_global_time := now; after_transmitted_offset := t |}) J.
Lemma arrived_only i now t J : arrived i now t J -> Forall (fun x => in_channel x = i) J.
Proof. intros HJ. eapply Forall_impl; [exact HJ|]. by intros x [? _]. Qed.
Lemma release_replayed J I O i now c c1 :
  arrived i now (tx c) J -> apply_events J c = Done c1 -> later i now I ->
  channel_release bp now (replayed (J ++ I) O i c) = Done (replayed I O i c1).
Proof.
  intros HJ Ha HI. unfold channel_release. simpl.
  rewrite of_in_app, (of_in_only i J) by by eapply arrived_only.
  generalize (J ++ I). intros K. revert c HJ Ha.
  induction J as [|x J IH]; intros c HJ Ha; simpl in *.
  - injection Ha as ->. by apply release_later.
  - inversion_clear HJ as [|? ? [Hi Hr] HJ']. rewrite Hr. unfold is_eligible; simpl.
    rewrite !Z.leb_refl; simpl. rewrite channel_apply_replayed.
    destruct (channel_apply bp (event x) c) as [c2|] eqn:E; simpl in *; [|done].
    apply channel_apply_keeps in E as (_ & Ht & _). apply IH; [|done]. by rewrite Ht.
Qed.
Lemma release_recorded now c : pending_inputs c = [] -> channel_release bp now c = Done c.
Proof. intros E. unfold channel_release. rewrite E. simpl. destruct c; simpl in *. by subst. Qed.
Lemma stalled_recorded now c : pending_inputs c = [] -> check_stalled c now = Ok tt.
Proof. intros E. unfold check_stalled. by rewrite E. Qed.
Lemma stalled_replayed I O i now c :
  0 <= now -> later i now I -> check_stalled (replayed I O i c) now = Ok tt.
Proof.
  intros H0 HI. unfold check_stalled; simpl. destruct (of_in i I) as [|x l] eqn:E; [done|].
  apply of_in_elem in E as [Hx Hi]. apply (proj1 (Forall_forall _ _) HI) in Hx as [Hnow Hmax]; [|done].
  rewrite (proj2 (Z.leb_gt _ _)); [by rewrite andb_false_r|].
  unfold LogicalTime.add_duration, sat_add_u64, REPLAY_STALL_LIMIT, NANOS_PER_SEC, u64_max in *.
  simpl. lia.
Qed.

(** ** Bookkeeping *)

Definition keeps c c1 : Prop :=
  record c1 = record c /\ tx c1 = tx c /\ pending_inputs c1 = pending_inputs c
  /\ expected_outputs c1 = expected_outputs c.
Lemma apply_events_keeps J c c1 : apply_events J c = Done c1 -> keeps c c1.
Proof.
  revert c. induction J as [|x J IH]; simpl; intros c E; [by injection E as ->|].
  destruct (channel_apply bp (event x) c) as [c2|] eqn:E2; simpl in E; [|done].
  apply channel_apply_keeps in E2 as (R & T & A & B). apply IH in E as (R' & T' & A' & B').
  unfold keeps. by rewrite R', T', A', B'.
Qed.

Lemma logged_refl g : rec_ok g -> logged g g [] [].
Proof.
  intros [Hm _ _]. unfold is_record in Hm. destruct (mode g) as [ep ins outs|] eqn:E; [|done].
  exists ep, ins, outs. by rewrite !app_nil_r.
Qed.
Lemma logged_trans g g1 g2 J P J' P' :
  logged g g1 J P -> logged g1 g2 J' P' -> logged g g2 (J ++ J') (P ++ P').
Proof.
  intros (ep & ins & outs & E & E1) (ep' & ins' & outs' & E1' & E2).
  rewrite E1 in E1'. injection E1' as <- <- <-. exists ep, ins, outs. by rewrite !app_assoc.
Qed.
Lemma logged_mode g g1 m cs J P : logged g g1 J P -> mode g1 = m -> logged g (NE m cs) J P.
Proof. intros (ep & ins & outs & E & E1) <-. by exists ep, ins, outs. Qed.

Lemma updated_refl g i c : rec_ok g -> bt_get i (channels g) = Some c -> updated g i c g.
Proof. intros Hg E. split; [apply Hg|]. intros j. case_decide; by subst. Qed.
Lemma updated_insert g i c m : bt_ok (channels g) -> updated g i c (NE m (bt_insert i c (channels g))).
Proof.
  intros Hs. split; simpl; [by apply bt_insert_ok|]. intros j. case_decide as E.
  - subst. by apply bt_get_insert_eq.
  - apply bt_get_insert_ne; [congruence|done].
Qed.
Lemma updated_trans g g1 g2 i c1 c2 : updated g i c1 g1 -> updated g1 i c2 g2 -> updated g i c2 g2.
Proof.
  intros [_ H1] [Hs H2]. split; [done|]. intros j. rewrite H2, H1. by case_decide.
Qed.
Lemma updated_get g i c g1 : updated g i c g1 -> bt_get i (channels g1) = Some c.
Proof. intros [_ H]. rewrite H. by case_decide. Qed.
Lemma updated_extends g i c c1 g1 :
  updated g i c1 g1 -> bt_get i (channels g) = Some c -> record c1 = record c -> extends g g1.
Proof.
  intros [_ H] E R j cj Ej. rewrite H. case_decide; [|eauto]. subst. exists c1. split; [done|congruence].
Qed.
Lemma extends_trans g g1 g2 : extends g g1 -> extends g1 g2 -> extends g g2.
Proof.
  intros H1 H2 i c (c1 & E1 & R1)%H1. destruct (H2 _ _ E1) as (c2 & E2 & R2).
  exists c2. by rewrite R2.
Qed.
Lemma rec_ok_logged g g1 J P : logged g g1 J P -> is_record g1 = true.
Proof. intros (ep & ins & outs & _ & E). unfold is_record. by rewrite E. Qed.
Lemma rec_ok_updated g g1 J P i c c1 :
  rec_ok g -> logged g g1 J P -> updated g i c1 g1 -> bt_get i (channels g) = Some c ->
  record c1 = record c -> pending_inputs c1 = [] -> expected_outputs c1 = [] -> rec_ok g1.
Proof.
  intros [Hm Hs Hc] HL [Hs1 Hu] E R A B. split; [by eapply rec_ok_logged|done|].
  intros j cj. rewrite Hu. case_decide; [|apply Hc]. subst. intros [= <-].
  rewrite R. destruct (Hc _ _ E) as (? & _). done.
Qed.
Lemma tx_of_updated g i c g1 j :
  updated g i c g1 -> tx_of g1 j = if decide (j = i) then tx c else tx_of g j.
Proof. intros [_ H]. unfold tx_of. rewrite H. by case_decide. Qed.

(** The replay follows the recording on one channel. *)
Lemma sim_put gf I O J P g g' i c c1 g1 :
  sim gf (J ++ I) (P ++ O) g g' -> updated g i c1 g1 -> bt_get i (channels g) = Some c ->
  Forall (fun x => in_channel x = i) J -> Forall (fun x => out_channel x = i) P ->
  sim gf I O g1 (put_channel g' i (replayed I O i c1)).
Proof.
  intros [(U & Em & HU & Hun) Hs Hc] [_ Hu] E HJ HP.
  assert (Hr : forall j cj, j <> i -> replayed (J ++ I) (P ++ O) j cj = replayed I O j cj).
  { intros j cj Hne. unfold replayed.
    by rewrite of_in_app, of_out_app, (of_in_other i j J), (of_out_other i j P). }
  split; simpl; [|by apply bt_insert_ok|].
  - exists U. split_and!; [done..|]. intros j. rewrite Hun, Hu. case_decide as Hj.
    + subst. by rewrite E.
    + destruct (bt_get j (channels g)); [done|]. destruct (bt_get j (channels gf)); simpl; [|done].
      by rewrite Hr.
  - intros j. rewrite Hu. case_decide as Hj.
    + subst. by rewrite bt_get_insert_eq.
    + rewrite bt_get_insert_ne, Hc by done. destruct (bt_get j (channels g)); simpl; [|done].
      by rewrite Hr.
Qed.
Lemma sim_channel gf I O g g' i c :
  sim gf I O g g' -> bt_get i (channels g) = Some c -> channel g' i = Ok (replayed I O i c).
Proof. intros [_ _ Hc] E. unfold channel. by rewrite Hc, E. Qed.

(** ** Arrivals *)

Lemma record_arrival_spec g i now a c g1 :
  rec_ok g -> bt_get i (channels g) = Some c -> record_arrival bp g i now a = Ok g1 ->
  exists x c1, channel_apply bp (event x) c = Done c1 /\ arrived i now (tx c) [x] /\
    logged g g1 [x] [] /\ updated g i c1 g1.
Proof.
  intros Hg E. unfold record_arrival, channel. rewrite E; simpl.
  destruct (mode g) as [ep ins outs|] eqn:Em; [|done].
  intros (u & _ & H)%bind_Ok. destruct (channel_apply _ _ _) as [c1|] eqn:Ea; simpl in H; [|done].
  injection H as <-.
  exists {| ordinal := Z.of_nat (length ins); in_channel := i;
            release := {| not_before_global_time := now; after_transmitted_offset := tx c |};
            event := arrival_event (rx_end c) a |}, c1.
  split; [exact Ea|]. split; [by constructor|]. split.
  - exists ep, ins, outs. simpl. by rewrite app_nil_r.
  - apply updated_insert, Hg.
Qed.
Lemma record_arrivals_spec l g i now c g1 :
  rec_ok g -> bt_get i (channels g) = Some c -> record_arrivals bp g i now l = Ok g1 ->
  exists J c1, apply_events J c = Done c1 /\ arrived i now (tx c) J /\
    logged g g1 J [] /\ updated g i c1 g1 /\ (l = [] -> J = []).
Proof.
  revert g c. induction l as [|a l IH]; simpl; intros g c Hg E.
  - intros [= <-]. exists [], c. split_and!; [done|constructor|by apply logged_refl|by apply updated_refl|done].
  - destruct (needs_pull g i).
    2:{ intros [= <-]. exists [], c.
        split_and!; [done|constructor|by apply logged_refl|by apply updated_refl|done]. }
    intros (g2 & Ha & H)%bind_Ok.
    destruct (record_arrival_spec _ _ _ _ _ _ Hg E Ha) as (x & c2 & Ex & Hx & HL & HU).
    pose proof (channel_apply_keeps _ _ _ Ex) as (R & T & A & B).
    destruct (rec_chan g Hg _ _ E) as (_ & A0 & B0).
    assert (Hg2 : rec_ok g2).
    { apply (rec_ok_updated g g2 [x] [] i c c2); try done; [by rewrite A|by rewrite B]. }
    destruct (IH _ _ Hg2 (updated_get _ _ _ _ HU) H) as (J & c1 & EJ & HJ & HL' & HU' & _).
    exists (x :: J), c1. split_and!.
    + simpl. by rewrite Ex.
    + rewrite T in HJ. unfold arrived in *. inversion_clear Hx. by constructor.
    + exact (logged_trans _ _ _ _ _ _ _ HL HL').
    + by eapply updated_trans.
    + done.
Qed.
End Lockstep.

(** Every guest operation keeps record and replay in lockstep. *)

Section Lockstep.
Context (bp : profile) {D : Type} `{!Chrono D}.
Implicit Types (g : NetworkEngine D) (c : Channel) (I J : list NetworkInputEventV1) (O P : list NetworkOutputV4).

(** ** Operations that look at one channel *)

(** The common shape of [recv], [readiness], [take_error] and [send_failure]:
    release what is due, answer, and write the channel back. *)
Definition observe {A} (f : Channel -> result NetworkEngineError (A * Channel)) g i now
    : result NetworkEngineError (A * NetworkEngine D) :=
  c ← channel g i;
  c' ← lift (channel_release bp now c);
  '(o, c2) ← f c';
  Ok (o, put_channel g i c2).
(** An answer that does not depend on the events still to come. *)
Definition follows {A} (now : Z) (f : Channel -> result NetworkEngineError (A * Channel)) : Prop :=
  forall c o c2, pending_inputs c = [] -> f c = Ok (o, c2) ->
    keeps c c2 /\ forall I O i, later i now I -> f (replayed I O i c) = Ok (o, replayed I O i c2).

Definition readiness_of (now : Z) (lowat : nat) c : result NetworkEngineError (Z * Channel) :=
  _ ← check_stalled c now; Ok (poll_events c lowat, c).
Definition take_error_of c : result NetworkEngineError (Z * Channel) :=
  Ok (default 0 (pending_error c), set_pending_error None c).
Definition send_failure_of c : result NetworkEngineError (option Z * Channel) :=
  if reset c || shut_wr c then Ok (Some (default EPIPE (pending_error c)), set_pending_error None c)
  else Ok (None, c).

Lemma recv_observe g i now m t p : recv bp g i now m t p = observe (fun c => recv_released c now m t p) g i now.
Proof. done. Qed.
Lemma readiness_observe g i now lowat : readiness bp g i now lowat = observe (readiness_of now lowat) g i now.
Proof.
  unfold readiness, observe, readiness_of. destruct (channel g i) as [c| |]; simpl; [|done..].
  destruct (channel_release bp now c) as [c'|]; simpl; [|done]. by destruct (check_stalled c' now).
Qed.
Lemma take_error_observe g i now : take_error bp g i now = observe take_error_of g i now.
Proof. done. Qed.
Lemma send_failure_observe g i now : send_failure bp g i now = observe send_failure_of g i now.
Proof.
  unfold send_failure, observe, send_failure_of. destruct (channel g i) as [c| |]; simpl; [|done..].
  destruct (channel_release bp now c) as [c'|]; simpl; [|done]. by destruct (_ || _).
Qed.

Lemma recv_follows now m t p : 0 <= now -> follows now (fun c => recv_released c now m t p).
Proof.
  intros H0 c o c2 E H. unfold recv_released in *. rewrite stalled_recorded in H by done.
  destruct ((0 <? length (rx c))%nat && _) eqn:E1.
  { injection H as <- <-. split; [by destruct p|]. intros I O i HI. simpl.
    unfold input_ended in *; simpl. rewrite E1. by destruct p. }
  destruct ((length (rx c) =? 0)%nat && bool_decide _) eqn:E2.
  { injection H as <- <-. split; [done|]. intros I O i HI. simpl.
    unfold input_ended in *; simpl. by rewrite E1, E2. }
  destruct ((length (rx c) =? 0)%nat && (input_ended c || shut_rd c)) eqn:E3; simpl in H; injection H as <- <-; (split; [done|]);
    intros I O i HI; rewrite ?stalled_replayed by done; simpl;
    unfold input_ended in *; simpl; by rewrite E1, E2, E3.
Qed.
Lemma readiness_follows now lowat : 0 <= now -> follows now (readiness_of now lowat).
Proof.
  intros H0 c o c2 E H. unfold readiness_of in *. rewrite stalled_recorded in H by done.
  simpl in H. injection H as <- <-. split; [done|]. intros I O i HI. by rewrite stalled_replayed.
Qed.
Lemma take_error_follows now : follows now take_error_of.
Proof. intros c o c2 E [= <- <-]. by split. Qed.
Lemma send_failure_follows now : follows now send_failure_of.
Proof.
  intros c o c2 E H. unfold send_failure_of in *. simpl.
  destruct (reset c || shut_wr c); injection H as <- <-; by split.
Qed.

Lemma observe_sim {A} (f : Channel -> result NetworkEngineError (A * Channel)) now l g i g0 o g1 :
  follows now f -> rec_ok g -> record_arrivals bp g i now l = Ok g0 -> observe f g0 i now = Ok (o, g1) ->
  exists J, logged g g1 J [] /\ rec_ok g1 /\ extends g g1 /\ arrived i now (tx_of g i) J /\
    (l = [] -> J = []) /\ (forall j, tx_of g1 j = tx_of g j) /\
    forall gf I O g', sim gf (J ++ I) O g g' -> later i now I ->
      exists g1', observe f g' i now = Ok (o, g1') /\ sim gf I O g1 g1'.
Proof.
  intros Hf Hg Ha Ho. destruct (bt_get i (channels g)) as [c|] eqn:E.
  2:{ assert (g0 = g) as ->.
      { destruct l; simpl in Ha; [by injection Ha|]. unfold needs_pull in Ha.
        rewrite E, andb_false_r in Ha. by injection Ha. }
      unfold observe, channel in Ho. by rewrite E in Ho. }
  destruct (record_arrivals_spec bp _ _ _ _ _ _ Hg E Ha) as (J & c1 & EJ & HJ & HL & HU & HJ0).
  pose proof (apply_events_keeps bp _ _ _ EJ) as (R & T & A0 & B0).
  destruct (rec_chan g Hg _ _ E) as (_ & Ai & Bi). rewrite Ai in A0. rewrite Bi in B0.
  unfold observe, channel in Ho. rewrite (updated_get _ _ _ _ HU) in Ho; simpl in Ho.
  rewrite release_recorded in Ho by done. simpl in Ho.
  apply bind_Ok in Ho as ([o2 c2] & Ef & Ho). injection Ho as <- <-.
  destruct (Hf _ _ _ A0 Ef) as [(R2 & T2 & A2 & B2) Hfr].
  assert (HU2 : updated g i c2 (put_channel g0 i c2)).
  { eapply updated_trans; [exact HU|]. apply updated_insert, HU. }
  assert (HL2 : logged g (put_channel g0 i c2) J []) by by eapply logged_mode.
  exists J. split_and!; [done|..].
  - eapply rec_ok_updated; eauto; congruence.
  - eapply updated_extends; eauto; congruence.
  - unfold tx_of. by rewrite E.
  - done.
  - intros j. rewrite (tx_of_updated _ _ _ _ _ HU2). case_decide; [|done].
    subst. unfold tx_of. rewrite E. congruence.
  - intros gf I O g' HS HI. unfold observe. rewrite (sim_channel _ _ _ _ _ _ _ HS E); simpl.
    rewrite (release_replayed bp J I O i now c c1) by done. simpl.
    rewrite (Hfr I O i HI); simpl. eexists; split; [done|].
    apply (sim_put gf I O J [] g g' i c c2); try done. by eapply arrived_only.
Qed.

Definition future (now : Z) I : Prop := Forall (fun x => now < not_before_global_time (release x) <= u64_max) I.
Lemma future_later i now I : future now I -> later i now I.
Proof. intros HI. eapply Forall_impl; [exact HI|]. done. Qed.
Lemma extends_refl g : extends g g.
Proof. intros i c E. eauto. Qed.

Lemma readiness_loop_sim l now g es g1 :
  0 <= now -> rec_ok g -> NoDup ((fun x => x.1.1) <$> l) -> readiness_loop bp g now l = Ok (es, g1) ->
  exists J, logged g g1 J [] /\ rec_ok g1 /\ extends g g1 /\
    Forall (fun x => in_channel x ∈ (fun x => x.1.1) <$> l /\ not_before_global_time (release x) = now) J /\
    (existsb (fun x => match x.2 with [] => false | _ => true end) l = false -> J = []) /\
    (forall j, tx_of g1 j = tx_of g j) /\
    forall gf I O g', sim gf (J ++ I) O g g' -> future now I ->
      exists g1', readiness_loop bp g' now ((fun x => (x.1, [])) <$> l) = Ok (es, g1') /\ sim gf I O g1 g1'.
Proof.
  intros H0. revert g es. induction l as [|[[i lowat] arr] l IH]; simpl; intros g es Hg Hnd.
  - intros [= <- <-]. exists []. split_and!; [by apply logged_refl|done|apply extends_refl|constructor|done|done|].
    simpl. eauto.
  - inversion_clear Hnd as [|? ? Hi Hnd'].
    intros (g0 & Ha & ([e g2] & Ho & ([es' g3] & Hl & H)%bind_Ok)%bind_Ok)%bind_Ok.
    injection H as <- <-. rewrite readiness_observe in Ho.
    destruct (observe_sim _ _ _ _ _ _ _ _ (readiness_follows now lowat H0) Hg Ha Ho)
      as (J1 & HL1 & Hg2 & HX1 & HJ1 & HJ10 & HT1 & HS1).
    destruct (IH _ _ Hg2 Hnd' Hl) as (J2 & HL2 & Hg3 & HX2 & HJ2 & HJ20 & HT2 & HS2).
    exists (J1 ++ J2). split_and!.
    + exact (logged_trans _ _ _ _ _ _ _ HL1 HL2).
    + done.
    + by eapply extends_trans.
    + apply Forall_app. split; (eapply Forall_impl; [eassumption|]); simpl.
      * intros x [-> ->]. split; [constructor|done].
      * intros x [? ?]. split; [by constructor|done].
    + intros [E1 E2]%orb_false_iff. rewrite HJ10, HJ20; [done|done|by destruct arr].
    + intros j. by rewrite HT2, HT1.
    + intros gf I O g' HS HI. rewrite <- app_assoc in HS.
      destruct (HS1 gf (J2 ++ I) O g' HS) as (g2' & E2 & HS2').
      { apply Forall_app. split; [|by apply future_later].
        eapply Forall_impl; [exact HJ2|]. simpl. intros x [Hin _] Hx. rewrite Hx in Hin. by destruct Hi. }
      rewrite readiness_observe, E2; simpl.
      destruct (HS2 gf I O g2' HS2' HI) as (g3' & E3 & HS3).
      unfold fmap in E3. rewrite E3; simpl. eauto.
Qed.

(** ** One guest operation *)

(** The output event an operation logs, and the offsets it leaves. *)
Definition logs_output g op g1 P : Prop :=
  match op with
  | GSend i _ _ _ _ w =>
      exists o, P = [o] /\ out_channel o = i /\ stream_offset o = tx_of g i /\ bytes o <> [] /\
        waits <$> wait o = (if 0 <? w then Some w else None) /\
        forall j, j <> i -> tx_of g1 j = tx_of g j
  | GRefused i _ =>
      exists o, P = [o] /\ out_channel o = i /\ forall j, j <> i -> tx_of g1 j = tx_of g j
  | _ => P = [] /\ forall j, tx_of g1 j = tx_of g j
  end.
(** The fragment a waiting send waits for comes next on its channel. *)
Definition wait_ahead g op O : Prop :=
  match op with
  | GSendWait i _ w _ => exists o O' w', of_out i O = o :: O' /\ stream_offset o = tx_of g i /\
      bytes o <> [] /\ wait o = Some w' /\ w < waits w'
  | _ => True
  end.
Definition lockstep g now op v g1 : Prop :=
  exists J P, logged g g1 J P /\ rec_ok g1 /\ extends g g1 /\
    Forall (fun x => not_before_global_time (release x) = now) J /\ (pulls op = false -> J = []) /\
    logs_output g op g1 P /\
    forall gf I O g', sim gf (J ++ I) (P ++ O) g g' -> extends g1 gf -> future now I -> wait_ahead g op O ->
      exists g1', replay_op bp g' now op = Ok (v, g1') /\ sim gf I O g1 g1'.

Lemma observe_lockstep {A} (f : Channel -> result NetworkEngineError (A * Channel)) (y : A -> NetworkReply)
    now l g i g0 o g1 op :
  follows now f -> rec_ok g -> record_arrivals bp g i now l = Ok g0 -> observe f g0 i now = Ok (o, g1) ->
  (pulls op = false -> l = []) -> (forall P, P = [] /\ (forall j, tx_of g1 j = tx_of g j) -> logs_output g op g1 P) ->
  (forall g', apply bp g' now (replay_request op) = ('(r, g2) ← observe f g' i now; Ok (y r, g2))) ->
  replay_view (y o) = VReply (y o) ->
  lockstep g now op (VReply (y o)) g1.
Proof.
  intros Hf Hg Ha Ho Hl HP Hr Hv.
  destruct (observe_sim _ _ _ _ _ _ _ _ Hf Hg Ha Ho) as (J & HL & Hg1 & HX & HJ & HJ0 & HT & HS).
  exists J, []. split_and!; [done..| | | |].
  - eapply Forall_impl; [exact HJ|]. simpl. by intros x [_ ->].
  - auto.
  - auto.
  - intros gf I O g' Hsim _ HI _. destruct (HS gf I O g' Hsim (future_later _ _ _ HI)) as (g1' & E & Hs).
    exists g1'. unfold replay_op. rewrite Hr, E; simpl. by rewrite Hv.
Qed.

Lemma recv_lockstep g now i arr m t p r g1 :
  0 <= now -> rec_ok g -> apply bp g now (QRecv i arr m t p) = Ok (r, g1) ->
  lockstep g now (GRecv i arr m t p) (VReply r) g1.
Proof.
  intros H0 Hg. simpl. intros (g0 & Ha & ([o g2] & Ho & H)%bind_Ok)%bind_Ok. injection H as <- <-.
  eapply (observe_lockstep _ YRecv now arr); eauto using recv_follows; by destruct arr.
Qed.
Lemma take_error_lockstep g now i r g1 :
  rec_ok g -> apply bp g now (QTakeError i) = Ok (r, g1) -> lockstep g now (GTakeError i) (VReply r) g1.
Proof.
  intros Hg. simpl. intros ([o g2] & Ho & H)%bind_Ok. injection H as <- <-.
  eapply (observe_lockstep _ YErrno now []); eauto using take_error_follows; done.
Qed.
Lemma send_failure_lockstep g now i r g1 :
  rec_ok g -> apply bp g now (QSendFailure i) = Ok (r, g1) -> lockstep g now (GSendFailure i) (VReply r) g1.
Proof.
  intros Hg. simpl. intros ([o g2] & Ho & H)%bind_Ok. injection H as <- <-.
  rewrite send_failure_observe in Ho.
  eapply (observe_lockstep _ YFailure now []); eauto using send_failure_follows.
  intros g'. simpl. by rewrite send_failure_observe.
Qed.
Lemma poll_lockstep g now l r g1 :
  0 <= now -> rec_ok g -> NoDup ((fun x => x.1.1) <$> l) -> apply bp g now (QReadiness l) = Ok (r, g1) ->
  lockstep g now (GPoll l) (VReply r) g1.
Proof.
  intros H0 Hg Hnd. simpl. intros ([es g2] & Hl & H)%bind_Ok. injection H as <- <-.
  destruct (readiness_loop_sim _ _ _ _ _ H0 Hg Hnd Hl) as (J & HL & Hg1 & HX & HJ & HJ0 & HT & HS).
  exists J, []. split_and!; try done.
  - eapply Forall_impl; [exact HJ|]. by intros x [_ ?].
  - intros gf I O g' Hsim _ HI _. destruct (HS gf I O g' Hsim HI) as (g1' & E & Hs).
    exists g1'. unfold replay_op. simpl. by rewrite E.
Qed.

(** An operation that neither pulls nor sends. *)
Lemma quiet_lockstep g now op v g1 :
  logged g g1 [] [] -> rec_ok g1 -> extends g g1 -> logs_output g op g1 [] ->
  (forall gf I O g', sim gf I O g g' -> extends g1 gf -> wait_ahead g op O ->
    exists g1', replay_op bp g' now op = Ok (v, g1') /\ sim gf I O g1 g1') ->
  lockstep g now op v g1.
Proof. intros. exists [], []. split_and!; eauto. Qed.

Lemma connect_lockstep g now i peer local errno nb r g1 :
  rec_ok g -> apply bp g now (QRecordConnect i peer local errno nb) = Ok (r, g1) ->
  lockstep g now (GConnect i peer local errno nb) (VReply r) g1.
Proof.
  intros Hg. simpl. intros ([e g2] & Hc & H)%bind_Ok. injection H as <- <-.
  unfold record_connect in Hc. apply bind_Ok in Hc as (u & _ & Hc).
  apply bind_Ok in Hc as (u1 & Hn & Hc). apply bind_Ok in Hc as (u2 & Ht & Hc).
  apply ensure_Ok in Hn. unfold bt_mem in Hn.
  destruct (bt_get i (channels g)) as [|] eqn:E; [done|]. clear u u1 u2 Hn Ht.
  set (r := {| id := i |}) in Hc. unfold connected in Hc. simpl in Hc. injection Hc as <- <-.
  set (c1 := if nb then set_pending_error _ _ else _). assert (Hr : record c1 = r) by (unfold c1; by destruct nb).
  assert (HU : updated g i c1 (put_channel g i c1)) by apply updated_insert, Hg.
  assert (HL : logged g (put_channel g i c1) [] []) by (eapply logged_mode; [by apply logged_refl|done]).
  apply quiet_lockstep; [done|..].
  - split; [by eapply rec_ok_logged|apply HU|]. intros j cj. rewrite (proj2 HU). case_decide; [|apply Hg].
    subst j. intros [= <-]. rewrite Hr. unfold c1. by destruct nb.
  - intros j cj Ej. rewrite (proj2 HU). case_decide; [congruence|eauto].
  - simpl. split; [done|]. intros j. rewrite (tx_of_updated _ _ _ _ _ HU). case_decide; [|done].
    subst j. unfold tx_of. rewrite E. unfold c1. by destruct nb.
  - intros gf I O g' [(U & Em & HU' & Hun) Hs Hch] HX _.
    destruct (HX i c1 (updated_get _ _ _ _ HU)) as (cf & Ef & Rf).
    unfold replay_op. simpl. unfold replay_connect, check_new, bt_mem. rewrite Hch, E. simpl.
    rewrite Em, Hun, E, Ef. simpl. rewrite Rf, Hr. simpl. rewrite bool_decide_true by done. simpl.
    eexists. split; [done|].
    replace (if nb then set_pending_error _ _ else _) with (replayed I O i c1) by (unfold c1; by destruct nb).
    split; simpl; [|by apply bt_insert_ok|].
    + exists (bt_remove i U). split_and!; [done|by apply bt_remove_ok|]. intros j.
      destruct (decide (j = i)) as [->|Hj].
      * rewrite bt_get_remove_eq by done. by rewrite bt_get_insert_eq by apply Hg.
      * rewrite bt_get_remove_ne by done. by rewrite bt_get_insert_ne, Hun by (done || apply Hg).
    + intros j. destruct (decide (j = i)) as [->|Hj].
      * rewrite !bt_get_insert_eq by (done || apply Hg). done.
      * rewrite !bt_get_insert_ne by (done || apply Hg). apply Hch.
Qed.

Lemma addresses_lockstep g now i r g1 :
  rec_ok g -> apply bp g now (QAddresses i) = Ok (r, g1) -> lockstep g now (GAddresses i) (VReply r) g1.
Proof.
  intros Hg. simpl. intros [= <- <-].
  apply quiet_lockstep; [by apply logged_refl|done|apply extends_refl|done|].
  intros gf I O g' HS _ _. exists g'. split; [|done]. unfold replay_op; simpl.
  unfold addresses. rewrite (sim_chan _ _ _ _ _ HS). by destruct (bt_get i (channels g)).
Qed.

Lemma shutdown_lockstep g now i how r g1 :
  rec_ok g -> apply bp g now (QShutdown i how) = Ok (r, g1) -> lockstep g now (GShutdown i how) (VReply r) g1.
Proof.
  intros Hg. simpl. intros ([e g2] & Hc & H)%bind_Ok. injection H as <- <-.
  unfold shutdown in Hc. apply bind_Ok in Hc as (c & Ec & Hc).
  assert (E : bt_get i (channels g) = Some c) by by apply ok_or_Ok in Ec.
  assert (Hquiet : (forall gf I O g', sim gf I O g g' -> shutdown g' i how = Ok (e, g')) ->
    lockstep g now (GShutdown i how) (VReply (YErrno e)) g).
  { intros Hr. apply quiet_lockstep; [by apply logged_refl|done|apply extends_refl|done|].
    intros gf I O g' HS _ _. exists g'. split; [|done]. unfold replay_op; simpl. by rewrite (Hr gf I O g' HS). }
  assert (Hput : forall a b, (forall gf I O g', sim gf I O g g' ->
      shutdown g' i how = Ok (e, put_channel g' i (replayed I O i (set_shut a b c)))) ->
    lockstep g now (GShutdown i how) (VReply (YErrno e)) (put_channel g i (set_shut a b c))).
  { intros a b Hr. assert (HU : updated g i (set_shut a b c) (put_channel g i (set_shut a b c)))
      by apply updated_insert, Hg.
    assert (HL : logged g (put_channel g i (set_shut a b c)) [] [])
      by (eapply logged_mode; [by apply logged_refl|done]).
    destruct (rec_chan g Hg _ _ E) as (_ & Ai & Bi).
    apply quiet_lockstep; [done|by eapply rec_ok_updated|by eapply updated_extends|..].
    - simpl. split; [done|]. intros j. rewrite (tx_of_updated _ _ _ _ _ HU). case_decide; [|done].
      subst. unfold tx_of. by rewrite E.
    - intros gf I O g' HS _ _. unfold replay_op; simpl. rewrite (Hr gf I O g' HS). simpl. eexists. split; [done|].
      by apply (sim_put gf I O [] [] g g' i c). }
  clear Ec. unfold shutdown in *.
  destruct (negb _) eqn:E1 in Hc; [|destruct (how =? SHUT_RD) eqn:E2;
    [|destruct (how =? SHUT_WR) eqn:E3; [|destruct (how =? SHUT_RDWR) eqn:E4]]];
    injection Hc as <- <-; (apply Hquiet || apply Hput); intros gf I O g' HS;
    rewrite (sim_channel _ _ _ _ _ _ _ HS E); simpl; by rewrite E1.
Qed.

(** ** Sends *)

Lemma is_empty_bytes_false (b : list u8) : is_empty_bytes b = false <-> b <> [].
Proof. by destruct b. Qed.
Lemma of_out_cons i o O : out_channel o = i -> of_out i (o :: O) = o :: of_out i O.
Proof. intros E. unfold of_out. by rewrite filter_cons_True. Qed.

(** The recording of one output event on a channel. *)
Lemma output_lockstep g now op v i c c1 o m :
  rec_ok g -> bt_get i (channels g) = Some c -> record c1 = record c ->
  pending_inputs c1 = [] -> expected_outputs c1 = [] -> out_channel o = i ->
  logged g (NE m (bt_insert i c1 (channels g))) [] [o] ->
  logs_output g op (NE m (bt_insert i c1 (channels g))) [o] ->
  (forall gf I O g', sim gf I (o :: O) g g' ->
    replay_op bp g' now op = Ok (v, put_channel g' i (replayed I O i c1))) ->
  lockstep g now op v (NE m (bt_insert i c1 (channels g))).
Proof.
  intros Hg E R A B Ho HL HP Hr.
  pose proof (updated_insert g i c1 m (rec_sorted _ Hg)) as HU.
  exists [], [o]. split_and!; [done|by eapply rec_ok_updated|by eapply updated_extends|constructor|done|done|].
  intros gf I O g' HS _ _ _. eexists. split; [by apply (Hr gf)|].
  apply (sim_put gf I O [] [o] g g' i c); try done. by constructor.
Qed.

Lemma send_lockstep g now i buf n nb at_ w r g1 :
  rec_ok g -> (0 < n <= length buf)%nat -> (nb = true -> w = 0) ->
  apply bp g now (QRecordSend i (take n buf) at_ w) = Ok (r, g1) ->
  lockstep g now (GSend i buf n nb at_ w) (record_view (GSend i buf n nb at_ w) r) g1.
Proof.
  intros Hg Hn Hnb. simpl. intros ([e g2] & Hc & H)%bind_Ok. injection H as <- <-.
  unfold record_send in Hc. apply bind_Ok in Hc as (c & Ec & Hc). apply ok_or_Ok in Ec as E.
  assert (Hlen : length (take n buf) = n) by (rewrite length_take; lia).
  assert (Hne : take n buf <> []) by (intros E0; rewrite E0 in Hlen; simpl in Hlen; lia).
  assert (Hb : is_empty_bytes buf = false)
    by (apply is_empty_bytes_false; intros ->; by rewrite take_nil in Hne).
  destruct (rec_chan g Hg _ _ E) as (_ & Ai & Bi).
  destruct (mode g) as [ep ins outs|] eqn:Em; [|done]. apply bind_Ok in Hc as (u & _ & Hc).
  apply is_empty_bytes_false in Hne as Hne'. rewrite Hne' in Hc. rewrite Hlen in Hc.
  destruct (arith_u bp 64 (tx c + Z.of_nat n)) as [t|] eqn:Et; simpl in Hc; [|done].
  destruct (arith_u bp 64 (output_events c + 1)) as [k|] eqn:Ek; simpl in Hc; [|done].
  injection Hc as <- <-. simpl.
  match goal with |- lockstep _ _ _ _ (NE (Record_ _ _ (_ ++ [?o])) _) =>
    apply (output_lockstep g now _ _ i c (set_tx t k c) o) end; try done.
  - exists ep, ins, outs. simpl. by rewrite app_nil_r.
  - eexists. split_and!; simpl; [done|done|unfold tx_of; by rewrite E|done|by destruct (0 <? w)|].
    intros j Hj. unfold tx_of; simpl. rewrite bt_get_insert_ne; [done|congruence|apply Hg].
  - intros gf I O g' HS. unfold replay_op; simpl. unfold replay_send.
    destruct (sim_unconnected _ _ _ _ _ HS) as (U & Em' & _). unfold is_record. rewrite Em'. simpl.
    rewrite (sim_channel _ _ _ _ _ _ _ HS E). simpl. rewrite Hb, of_out_cons by done. simpl.
    rewrite Hne', Z.sub_diag, arith_u_exact by lia. simpl.
    assert (Hlen' : Z.of_nat (length (take n buf)) <? 0 = false) by lia.
    assert (Hmin : Nat.min (length (take n buf)) (length buf) = n) by lia.
    destruct (0 <? w) eqn:Ew; simpl.
    + assert (nb = false) as -> by (destruct nb; [rewrite Hnb in Ew by done; done|done]). simpl.
      rewrite !Z.ltb_irrefl. simpl. rewrite Hlen', drop_0, Hmin, take_take, Nat.min_id.
      rewrite bool_decide_true by done. simpl. rewrite Et. simpl. rewrite Hlen, Nat.eqb_refl. done.
    + rewrite Hlen', drop_0, Hmin, take_take, Nat.min_id.
      rewrite bool_decide_true by done. simpl. rewrite Et. simpl. rewrite Hlen, Nat.eqb_refl. done.
Qed.

Lemma refused_lockstep g now i buf r g1 :
  rec_ok g -> buf <> [] -> apply bp g now (QRecordRefusedSend i) = Ok (r, g1) ->
  lockstep g now (GRefused i buf) (record_view (GRefused i buf) r) g1.
Proof.
  intros Hg Hb. simpl. intros (g2 & Hc & H)%bind_Ok. injection H as <- <-.
  unfold record_refused_send in Hc. apply bind_Ok in Hc as (c & Ec & Hc). apply ok_or_Ok in Ec as E.
  destruct (rec_chan g Hg _ _ E) as (_ & Ai & Bi). apply is_empty_bytes_false in Hb.
  destruct (mode g) as [ep ins outs|] eqn:Em; [|done].
  destruct (arith_u bp 64 (output_events c + 1)) as [k|] eqn:Ek; simpl in Hc; [|done].
  injection Hc as <-. simpl.
  match goal with |- lockstep _ _ _ _ (NE (Record_ _ _ (_ ++ [?o])) _) =>
    apply (output_lockstep g now _ _ i c (set_tx (tx c) k c) o) end; try done.
  - exists ep, ins, outs. simpl. by rewrite app_nil_r.
  - eexists. split_and!; simpl; [done..|].
    intros j Hj. unfold tx_of; simpl. rewrite bt_get_insert_ne; [done|congruence|apply Hg].
  - intros gf I O g' HS. unfold replay_op; simpl. unfold replay_send.
    destruct (sim_unconnected _ _ _ _ _ HS) as (U & Em' & _). unfold is_record. rewrite Em'. simpl.
    rewrite (sim_channel _ _ _ _ _ _ _ HS E). simpl. by rewrite Hb, of_out_cons by done.
Qed.

Lemma wait_replay gf I O g g' now i buf w first c :
  sim gf I O g g' -> bt_get i (channels g) = Some c -> buf <> [] ->
  wait_ahead g (GSendWait i buf w first) O -> replay_op bp g' now (GSendWait i buf w first) = Ok (VWait, g').
Proof.
  intros HS E Hb (o & O' & w' & Eo & Es & Hne & Ew & Hw). unfold replay_op; simpl. unfold replay_send.
  destruct (sim_unconnected _ _ _ _ _ HS) as (U & Em' & _). unfold is_record. rewrite Em'. simpl.
  rewrite (sim_channel _ _ _ _ _ _ _ HS E). simpl. apply is_empty_bytes_false in Hb, Hne.
  rewrite Hb, Eo, Hne, Es. unfold tx_of. rewrite E, Z.sub_diag, arith_u_exact by lia. simpl.
  rewrite Ew. simpl. by rewrite (proj2 (Z.ltb_lt _ _) Hw).
Qed.
End Lockstep.

(** Whole runs in lockstep, from [new_record] and [new_replay] to the end. *)

Section Run.
Context (bp : profile) {D : Type} `{!Chrono D}.
Implicit Types (g : NetworkEngine D) (c : Channel) (I J : list NetworkInputEventV1) (O P : list NetworkOutputV4).

Definition all_connected g (ids : list OpenFileId) : Prop :=
  Forall (fun i => is_Some (bt_get i (channels g))) ids.

Lemma wait_lockstep g now i buf w first v g1 :
  rec_ok g -> is_Some (bt_get i (channels g)) -> buf <> [] ->
  record_op bp g now (GSendWait i buf w first) = Ok (v, g1) ->
  lockstep bp g now (GSendWait i buf w first) v g1.
Proof.
  intros Hg [c E] Hb H. assert (v = VWait /\ g1 = g) as [-> ->].
  { unfold record_op in H; simpl in H. destruct first; [|by injection H as <- <-].
    simpl in H. unfold record_send, channel in H. rewrite E in H; simpl in H.
    destruct (mode g); simpl in H; [by injection H as <- <-|done]. }
  apply quiet_lockstep; [by apply logged_refl|done|apply extends_refl|done|].
  intros gf I O g' HS _ Hw. exists g'. split; [|done]. by eapply wait_replay.
Qed.

Lemma op_lockstep g now op rest ids v g1 :
  0 <= now -> rec_ok g -> all_connected g ids -> op_ok ids op rest ->
  record_op bp g now op = Ok (v, g1) -> lockstep bp g now op v g1.
Proof.
  intros H0 Hg Hids Hop. destruct op; try (
    unfold record_op; cbn [record_request]; intros ([r g2] & Ha & H)%bind_Ok; injection H as <- <-).
  - by apply connect_lockstep.
  - by apply recv_lockstep.
  - by apply poll_lockstep.
  - by apply take_error_lockstep.
  - by apply send_failure_lockstep.
  - destruct Hop as (? & ? & ?). by apply send_lockstep.
  - by apply refused_lockstep.
  - destruct Hop as (Hi & Hb & _). apply wait_lockstep; [done| |done].
    by apply (proj1 (Forall_forall _ _) Hids).
  - by apply shutdown_lockstep.
  - by apply addresses_lockstep.
Qed.

Lemma connects_all g now op v g1 ids :
  record_op bp g now op = Ok (v, g1) -> rec_ok g -> extends g g1 -> all_connected g ids ->
  all_connected g1 (connects op ++ ids).
Proof.
  intros Ho Hg HX Hids. apply Forall_app. split.
  - destruct op; simpl; constructor; [|constructor].
    unfold record_op in Ho; simpl in Ho. apply bind_Ok in Ho as ([r g2] & Ha & Ho). injection Ho as _ <-.
    apply bind_Ok in Ha as ([e g3] & Ha & H). injection H as _ <-.
    unfold record_connect in Ha. apply bind_Ok in Ha as (? & _ & Ha). apply bind_Ok in Ha as (? & _ & Ha).
    apply bind_Ok in Ha as (? & _ & Ha). unfold connected in Ha. injection Ha as _ <-. simpl.
    rewrite bt_get_insert_eq by apply Hg. eauto.
  - eapply Forall_impl; [exact Hids|]. intros i [c E]. destruct (HX _ _ E) as (c1 & E1 & _). eauto.
Qed.

(** The fragment [next_output] announces heads the channel's log. *)
Definition announced g (l : list (Z * guest_op)) O : Prop :=
  forall i w, next_output i l = Some w -> 0 < w ->
    exists o O' w', of_out i O = o :: O' /\ stream_offset o = tx_of g i /\ bytes o <> [] /\
      wait o = Some w' /\ waits w' = w.
Lemma announced_cons g now op l g1 P O :
  logs_output g op g1 P -> announced g1 l O -> announced g ((now, op) :: l) (P ++ O).
Proof.
  intros HP HA i w. destruct op; simpl in HP |- *;
    try (destruct HP as [-> HT]; simpl; intros Hn Hw; specialize (HA i w Hn Hw); by rewrite HT in HA).
  - destruct HP as (o & -> & Ho & Hs & Hb & Hw & HT). rewrite of_out_app. case_decide as Hi.
    + intros [= <-] H0. subst. rewrite of_out_cons by done.
      rewrite (proj2 (Z.ltb_lt 0 _) H0) in Hw. destruct (wait o) as [w'|] eqn:Ew; [|done].
      simpl in Hw. injection Hw as Hw. simpl. eauto 10.
    + intros Hn H0. rewrite (of_out_other i0 i [o]) by (congruence || by constructor).
      specialize (HA i w Hn H0). rewrite HT in HA; [done|congruence].
  - destruct HP as (o & -> & Ho & HT). rewrite of_out_app. case_decide as Hi; [done|].
    intros Hn H0. rewrite (of_out_other i0 i [o]) by (congruence || by constructor).
    specialize (HA i w Hn H0). rewrite HT in HA; [done|congruence].
Qed.

Lemma run_lockstep l g vs gf ids last :
  0 <= last + 1 -> rec_ok g -> all_connected g ids -> times_ok last l -> ops_ok ids l ->
  run_ops (record_op bp) g l = Ok (vs, gf) ->
  exists I O, logged g gf I O /\ rec_ok gf /\ extends g gf /\ future last I /\ announced g l O /\
    forall g', sim gf I O g g' ->
      exists gf', run_ops (replay_op bp) g' l = Ok (vs, gf') /\ sim gf [] [] gf gf'.
Proof.
  revert g vs ids last. induction l as [|[now op] l IH]; intros g vs ids last H0 Hg Hids Ht Hops; simpl.
  - intros [= <- <-]. exists [], []. split_and!;
      [by apply logged_refl|done|apply extends_refl|constructor|done|]. eauto.
  - destruct Ht as (Hnow & Hle & Hpull & Ht). destruct Hops as [Hop Hops].
    intros ([v g1] & Ho & ([vs' g2] & Hr & H)%bind_Ok)%bind_Ok. injection H as <- <-.
    assert (Hn0 : 0 <= now) by apply Hnow.
    destruct (op_lockstep _ _ _ _ _ _ _ Hn0 Hg Hids Hop Ho) as (J & P & HL & Hg1 & HX & HJ & HJ0 & HP & HS).
    destruct (IH g1 vs' (connects op ++ ids) now) as (I & O & HL' & Hgf & HX' & HI & HA & HS');
      [lia|done|by eapply connects_all|done|done|done|].
    exists (J ++ I), (P ++ O). split_and!.
    + by eapply logged_trans.
    + done.
    + by eapply extends_trans.
    + apply Forall_app. split.
      * destruct (pulls op); [|rewrite HJ0 by done; constructor]. eapply Forall_impl; [exact HJ|].
        simpl. intros x ->. unfold is_u64, u64_max in *. specialize (Hpull eq_refl). lia.
      * eapply Forall_impl; [exact HI|]. simpl. lia.
    + by eapply announced_cons.
    + intros g' Hsim. destruct (HS g2 I O g' Hsim HX' HI) as (g1' & E1 & Hs1).
      { destruct op; try done. destruct Hop as (_ & _ & Hw & w' & Hnx & Hlt).
        destruct (HA _ _ Hnx ltac:(lia)) as (o & O' & ww & Eo & Es & Hne & Ew & Hww).
        destruct HP as [-> HT]. rewrite HT in Es. exists o, O', ww. rewrite Hww. done. }
      destruct (HS' g1' Hs1) as (gf' & E2 & Hs2). exists gf'. rewrite E1; simpl. by rewrite E2.
Qed.

(** ** The ends of a run *)

Lemma unconnected_get (T : list (OpenFileId * Channel)) :
  forall m, bt_ok T -> bt_ok m -> (forall i c, bt_get i T = Some c -> id (record c) = i) ->
  let U := fold_left (fun m r => bt_insert (id r) (channel_new r) m) ((fun kc => record kc.2) <$> T) m in
  bt_ok U /\ forall i, bt_get i U =
    match bt_get i T with Some c => Some (channel_new (record c)) | None => bt_get i m end.
Proof.
  induction T as [|[k c] T IH]; intros m HT Hm Hid; simpl; [done|].
  pose proof (proj1 (bt_ok_cons _ _ _) HT) as [HT' Hk].
  assert (id (record c) = k) as -> by (apply Hid, bt_get_head).
  destruct (IH (bt_insert k (channel_new (record c)) m)) as [HU Hget]; [done|by apply bt_insert_ok| |].
  { intros i c' E. apply Hid. apply bt_get_elem; [done|]. right. by apply bt_get_elem. }
  split; [done|]. intros i. rewrite Hget. destruct (kcmp i k) eqn:Ek.
  - apply kcmp_eq in Ek as ->. rewrite bt_get_lt by done. by rewrite bt_get_insert_eq.
  - rewrite bt_get_lt. 2:{ eapply Forall_impl; [exact Hk|]. intros x Hx. by eapply kcmp_trans. }
    apply bt_get_insert_ne; [|done]. intros ->. by rewrite kcmp_refl in Ek.
  - destruct (bt_get i T); [done|]. apply bt_get_insert_ne; [|done]. intros ->. by rewrite kcmp_refl in Ek.
Qed.
Lemma push_inputs_get I : forall m, bt_ok m ->
  let U := fold_left push_input I m in
  bt_ok U /\ forall i, bt_get i U =
    (fun c => set_streams (pending_inputs c ++ of_in i I) (expected_outputs c) c) <$> bt_get i m.
Proof.
  induction I as [|x I IH]; intros m Hm; simpl.
  - split; [done|]. intros i. destruct (bt_get i m) as [[]|]; simpl; [|done]. by rewrite app_nil_r.
  - destruct (IH (push_input m x)) as [HU Hget].
    { unfold push_input. destruct (bt_get _ m); [by apply bt_insert_ok|done]. }
    split; [done|]. intros i. rewrite Hget. unfold push_input, of_in. rewrite filter_cons.
    case_decide as Hi.
    + subst i. destruct (bt_get (in_channel x) m) as [c|] eqn:E; simpl; [|by rewrite E].
      rewrite bt_get_insert_eq by done. simpl. by rewrite <- app_assoc.
    + destruct (bt_get (in_channel x) m) as [c|] eqn:E; [|done]. by rewrite bt_get_insert_ne.
Qed.
Lemma push_outputs_get O : forall m, bt_ok m ->
  let U := fold_left push_output O m in
  bt_ok U /\ forall i, bt_get i U =
    (fun c => set_streams (pending_inputs c) (expected_outputs c ++ of_out i O) c) <$> bt_get i m.
Proof.
  induction O as [|x O IH]; intros m Hm; simpl.
  - split; [done|]. intros i. destruct (bt_get i m) as [[]|]; simpl; [|done]. by rewrite app_nil_r.
  - destruct (IH (push_output m x)) as [HU Hget].
    { unfold push_output. destruct (bt_get _ m); [by apply bt_insert_ok|done]. }
    split; [done|]. intros i. rewrite Hget. unfold push_output, of_out. rewrite filter_cons.
    case_decide as Hi.
    + subst i. destruct (bt_get (out_channel x) m) as [c|] eqn:E; simpl; [|by rewrite E].
      rewrite bt_get_insert_eq by done. simpl. by rewrite <- app_assoc.
    + destruct (bt_get (out_channel x) m) as [c|] eqn:E; [|done]. by rewrite bt_get_insert_ne.
Qed.

Lemma new_record_ok (ep : D) : rec_ok (new_record ep).
Proof. split; [done|apply bt_ok_nil|done]. Qed.
Lemma finish_fields gf (t : NetworkTraceV2 D) (ep : D) I O :
  logged (new_record ep) gf I O -> finish gf = Ok t ->
  NetworkTrace.channels t = ((fun kc => record kc.2) <$> channels gf) /\ inputs t = I /\ outputs t = O.
Proof.
  intros (ep' & ins & outs & [= <- <- <-] & Em). unfold finish. rewrite Em.
  intros (u & _ & H)%bind_Ok. by injection H as <-.
Qed.
Lemma new_replay_sim gf (t : NetworkTraceV2 D) (ep : D) I O :
  rec_ok gf -> NetworkTrace.channels t = ((fun kc => record kc.2) <$> channels gf) -> inputs t = I -> outputs t = O ->
  sim gf I O (new_record ep) (new_replay t).
Proof.
  intros Hgf Ec <- <-. unfold new_replay. rewrite Ec.
  destruct (unconnected_get (channels gf) []) as [H0 G0];
    [apply Hgf|apply bt_ok_nil|intros i c E; by apply (rec_chan gf Hgf)|].
  destruct (push_inputs_get (inputs t) _ H0) as [H1 G1].
  destruct (push_outputs_get (outputs t) _ H1) as [H2 G2].
  split; simpl; [|apply bt_ok_nil|done]. eexists. split_and!; [done|exact H2|].
  intros i. rewrite G2, G1, G0. by destruct (bt_get i (channels gf)).
Qed.
Lemma unfinished_done cs :
  (forall i c, (i, c) ∈ cs -> expected_outputs c = []) -> unfinished bp cs = Ok tt.
Proof.
  induction cs as [|[i c] cs IH]; simpl; intros H; [done|].
  rewrite (H i c) by constructor. simpl. apply IH. intros j d Hin. apply (H j d). by constructor.
Qed.
Lemma finish_replay_sim (gf gf' : NetworkEngine D) : rec_ok gf -> sim gf [] [] gf gf' -> finish_replay bp gf' = Ok tt.
Proof.
  intros Hgf [(U & Em & HU & Hun) Hs Hc]. unfold finish_replay. rewrite Em.
  destruct U as [|[i c] U].
  - apply unfinished_done. intros i c Hin. apply bt_get_elem in Hin; [|done].
    rewrite Hc in Hin. destruct (bt_get i (channels gf)); [|done]. by injection Hin as <-.
  - specialize (Hun i). rewrite bt_get_head in Hun. by destruct (bt_get i (channels gf)).
Qed.
End Run.

(** Framed traces: reading back what was written, for every format version. *)

Definition known_version (v : Z) : Prop :=
  v ∈ [NETWORK_TRACE_VERSION_V1; NETWORK_TRACE_VERSION_V2; NETWORK_TRACE_VERSION_V3; NETWORK_TRACE_VERSION_V4].
(** A frame is read back as its version and payload. *)
Lemma read_frame_build v payload :
  known_version v -> Z.of_nat (length payload) < 2 ^ 64 ->
  read_frame (NETWORK_TRACE_MAGIC ++ to_le_bytes 4 v ++ to_le_bytes 8 (Z.of_nat (length payload)) ++ payload)
  = Ok (v, payload).
Proof.
  intros Hv Hlen. assert (Hv4 : 0 <= v < 256 ^ 4).
  { unfold known_version in Hv. rewrite !elem_of_cons, elem_of_nil in Hv.
    unfold NETWORK_TRACE_VERSION_V1, NETWORK_TRACE_VERSION_V2, NETWORK_TRACE_VERSION_V3,
      NETWORK_TRACE_VERSION_V4 in Hv. lia. }
  set (vb := to_le_bytes 4 v). set (lb := to_le_bytes 8 (Z.of_nat (length payload))).
  assert (Lv : length vb = 4%nat) by apply length_to_le_bytes.
  assert (Ll : length lb = 8%nat) by apply length_to_le_bytes.
  assert (LM : length NETWORK_TRACE_MAGIC = 16%nat) by done.
  set (hd := NETWORK_TRACE_MAGIC ++ vb ++ lb).
  assert (Lh : length hd = FRAME_HEADER_LEN) by (unfold hd; rewrite !length_app, Lv, Ll; done).
  replace (NETWORK_TRACE_MAGIC ++ vb ++ lb ++ payload) with (hd ++ payload)
    by (unfold hd; by rewrite <- !app_assoc).
  unfold read_frame. rewrite length_app, Lh. rewrite (proj2 (Nat.leb_le _ _)) by lia.
  cbn [ensure mbind result_bind].
  rewrite <- Lh, take_app_length, drop_app_length.
  assert (T1 : take (length NETWORK_TRACE_MAGIC) hd = NETWORK_TRACE_MAGIC) by (unfold hd; apply take_app_length).
  assert (T2 : take 4 (drop (length NETWORK_TRACE_MAGIC) hd) = vb).
  { unfold hd. rewrite drop_app_length. by apply take_app_length'. }
  assert (T3 : take 8 (drop (length NETWORK_TRACE_MAGIC + 4) hd) = lb).
  { unfold hd. rewrite <- drop_drop, drop_app_length. rewrite (drop_app_length' vb lb 4) by done.
    by rewrite take_ge by lia. }
  change (length NETWORK_TRACE_MAGIC) with 16%nat in *.
  rewrite T1, T2, T3, (bool_decide_true (NETWORK_TRACE_MAGIC = NETWORK_TRACE_MAGIC)) by done. cbn [ensure mbind result_bind].
  unfold vb, lb. rewrite !from_to_le_bytes by (done || (change (256 ^ Z.of_nat 8) with (2 ^ 64); lia)).
  rewrite (bool_decide_true (v ∈ _)) by done. cbn [ensure mbind result_bind].
  rewrite Nat2Z.id, take_ge, Z.eqb_refl by done. cbn [ensure mbind result_bind].
  by rewrite bool_decide_true by by apply drop_ge.
Qed.

Lemma decode_payload_encode {T} `{CodecSpec T} (x : T) payload :
  encode x = Some payload -> decode_payload payload = Ok x.
Proof.
  intros E. unfold decode_payload. rewrite (decode_encode _ _ E). simpl. by rewrite Nat.eqb_refl.
Qed.
(** A frame written by [encode_frame] is read back as its version and a
    payload that decodes to the value. *)
Lemma read_encode_frame {T} `{CodecSpec T} v (x : T) b :
  known_version v -> encode_frame v x = Ok b -> Z.of_nat (length b) < 2 ^ 64 ->
  exists payload, read_frame b = Ok (v, payload) /\ decode_payload payload = Ok x.
Proof.
  intros Hv. unfold encode_frame. intros (payload & Ep & Eb)%bind_Ok Hlen. apply (f_equal (fun r => match r with Ok x => x | _ => b end)) in Eb. subst b.
  apply ok_or_Ok in Ep. exists payload. split; [|by apply decode_payload_encode].
  apply read_frame_build; [done|]. rewrite !length_app in Hlen. lia.
Qed.

Lemma trace_of_wire_of_trace {D} (t : NetworkTraceV2 D) :
  records_send_waits t = false -> trace_of_wire (wire_of_trace t) = t.
Proof.
  intros Hw. destruct t as [ep cs ins outs]. unfold trace_of_wire, wire_of_trace; simpl. f_equal.
  unfold records_send_waits in Hw. simpl in Hw. induction outs as [|o outs IH]; [done|].
  simpl in Hw. apply orb_false_iff in Hw as [Ho Hw]. rewrite !fmap_cons, IH by done. f_equal.
  destruct o as [c s b [w|]]; [|done]. by rewrite bool_decide_true in Ho by eauto.
Qed.

(** * A valid version 1 trace is a valid trace *)

Ltac ensured := repeat match goal with
  | H : (_ ← _; _) = Ok _ |- _ => let x := fresh "x" in let Hx := fresh "Hx" in
      apply bind_Ok in H as (x & Hx & H); try (apply ensure_Ok in Hx; clear x); try apply ok_or_Ok in Hx
  end.

Section Upgrade.
Context (ch : OpenFileId) (m : list (OpenFileId * NetworkChannelV2)) (e0 : Z).
Hypothesis live : live_channel m ch = Ok tt.

Lemma outputs_upgrade outs off total (oc : output_cursor) :
  bt_ok (total_output oc) -> default 0 (bt_get ch (total_output oc)) = off ->
  validate_outputs_from outs ch off = Ok total ->
  exists oc', validate_outputs_v2 m e0 (output_of_v1 <$> outs) oc = Ok oc' /\
    default 0 (bt_get ch (total_output oc')) = total.
Proof using live.
  revert off oc. induction outs as [|o outs IH]; intros off oc Hs Hoff H; simpl in H.
  - injection H as <-. by exists oc.
  - ensured. apply bool_decide_eq_true in Hx. subst ch.
    assert (Ec : validate_output m e0 (output_of_v1 o) oc = Ok {|
      total_output := bt_insert (o1_channel o) x (total_output oc); last_wait := last_wait oc |}).
    { unfold validate_output; simpl. rewrite live; simpl. rewrite Hoff, Hx1; simpl. by rewrite Hx2. }
    rewrite fmap_cons. simpl. rewrite Ec; simpl. apply (IH x); simpl; [by apply bt_insert_ok| |done].
    by rewrite bt_get_insert_eq.
Qed.

Lemma inputs_upgrade ins idx total (c : v1_cursor) (totals : list (OpenFileId * Z))
    (cursors : list (OpenFileId * InboundCursor)) :
  default 0 (bt_get ch totals) = total -> bt_ok cursors ->
  default new_cursor (bt_get ch cursors) =
    {| offset := v1_offset c; tx_watermark := v1_tx c; terminal := v1_terminal c |} ->
  v1_validate_inputs ins idx ch e0 total c = Ok tt ->
  validate_inputs m e0 totals idx ins (v1_time c) cursors = Ok tt.
Proof using live.
  intros Ht. revert idx c cursors. induction ins as [|i ins IH]; intros idx c cursors Hs Hc H; [done|].
  simpl in H. ensured. apply bool_decide_eq_true in Hx0.
  assert (Ev : validate_input m e0 totals idx i (v1_time c) cursors = Ok (not_before_global_time (NetworkTrace.release i),
    bt_insert ch {| offset := x; tx_watermark := after_transmitted_offset (NetworkTrace.release i);
                    terminal := is_terminal (event i) |} cursors)).
  { unfold validate_input. rewrite Hx0, Hc, Ht, live, Hx, Hx1. simpl. rewrite Hx2, Hx3, Hx4. simpl. by rewrite Hx5. }
  simpl. rewrite Ev; simpl. revert H. apply IH; [by apply bt_insert_ok|]. by rewrite bt_get_insert_eq.
Qed.
End Upgrade.

Lemma external_peer_traceable a : is_supported_external_peer a = true -> is_traceable_peer a = true.
Proof.
  unfold is_supported_external_peer, is_traceable_peer, is_unroutable, is_supported_external_ipv4.
  destruct a as [a p|a p f s]; simpl; [|destruct (to_ipv4_mapped a)]; destruct (p =? 0); simpl; try done;
    rewrite ?negb_orb; intros H; repeat (apply andb_true_iff in H as [H ?]); by repeat (apply andb_true_iff; split).
Qed.

Lemma v1_upgrade {D} `{Chrono D} (t : NetworkTraceV1 D) :
  v1_validate t = Ok tt -> NetworkTrace.validate (trace_of_v1 t) = Ok tt.
Proof.
  unfold v1_validate. destruct (t1_channels t) as [|c [|? ?]] eqn:Ec; try done. intros Hv. ensured.
  apply external_peer_traceable in Hx2.
  unfold NetworkTrace.validate, trace_of_v1. rewrite Ec. simpl. rewrite Hx3. simpl.
  set (c2 := {| id := c1_id c |}).
  assert (Hc : validate_channel c2 = Ok tt).
  { unfold validate_channel; simpl. by rewrite Hx, Hx2, Hx1. }
  rewrite Hc. simpl. set (m := [(c1_id c, c2)]).
  assert (Hl : live_channel m (c1_id c) = Ok tt) by (unfold live_channel, m; by rewrite bt_get_head).
  destruct (outputs_upgrade (c1_id c) m x Hl (t1_outputs t) 0 x0 {| total_output := []; last_wait := [] |})
    as (oc & Eo & Et); [apply bt_ok_nil|done|done|].
  rewrite Eo. simpl. revert Hv. by apply (inputs_upgrade _ _ _ Hl); [|apply bt_ok_nil|].
Qed.

(** A valid version 1 trace has no refused send. *)
Lemma v1_no_refusals {D} `{Chrono D} (t : NetworkTraceV1 D) :
  v1_validate t = Ok tt -> records_refused_sends (trace_of_v1 t) = false.
Proof.
  unfold v1_validate. destruct (t1_channels t) as [|c [|? ?]]; try done. intros Hv. ensured.
  unfold validate_outputs in Hx4. revert Hx4. unfold records_refused_sends, trace_of_v1; simpl.
  generalize 0 as off. clear. induction (t1_outputs t) as [|o outs IH]; intros off; [done|].
  rewrite fmap_cons. simpl. intros Hv. ensured. apply negb_true_iff in Hx0. rewrite Hx0. simpl. by eapply IH.
Qed.
Lemma read_framed_valid {D} `{!Chrono D}
    `{!Codec (NetworkTraceV1 D), !Codec (NetworkTraceV2 D), !Codec (NetworkTraceV2Wire D)} file (t : NetworkTraceV2 D) :
  read_framed file = Ok t -> NetworkTrace.validate t = Ok tt.
Proof.
  unfold read_framed. intros ([v p] & _ & (t' & _ & (u & _ & (u' & Hv & H)%bind_Ok)%bind_Ok)%bind_Ok)%bind_Ok.
  injection H as <-. by destruct (NetworkTrace.validate t') as [[]| |].
Qed.
