(* ===== verification/NetworkSafe.v ===== *)
(** Replay under any guest: whatever requests are made of an engine replaying
    a valid trace, nothing panics, the bytes handed out are the recorded
    stream in order, and the bytes accepted are the recorded output. *)
From Stdlib Require Import ZArith Lia List.
From stdpp Require Import base gmap list.
From S2P Require Import Prelude BTree Time NetworkTrace NetworkEngine NetworkSim.

(** What an operation promises when it neither fails nor panics. *)
Definition post {E A} (r : result E A) (Q : A -> Prop) : Prop :=
  match r with Ok a => Q a | Err _ => True | Crash _ => False end.
Lemma post_bind {E A B} (m : result E A) (f : A -> result E B) (Q : B -> Prop) :
  post m (fun a => post (f a) Q) -> post (a ← m; f a) Q.
Proof. by destruct m. Qed.
Lemma post_mono {E A} (r : result E A) (Q Q' : A -> Prop) :
  post r Q -> (forall a, Q a -> Q' a) -> post r Q'.
Proof. destruct r; simpl; auto. Qed.
Lemma post_ensure {E B} b (e : E) (f : () -> result E B) (Q : B -> Prop) :
  (b = true -> post (f tt) Q) -> post (a ← ensure b e; f a) Q.
Proof. intros H. apply post_bind. unfold ensure. destruct b; simpl; auto. Qed.
Lemma post_ok_or {E A B} (o : option A) (e : E) (f : A -> result E B) (Q : B -> Prop) :
  (forall a, o = Some a -> post (f a) Q) -> post (a ← ok_or o e; f a) Q.
Proof. intros H. apply post_bind. destruct o; simpl; auto. Qed.

Definition event_bytes (x : NetworkInputEventV1) : list u8 :=
  match event x with InboundBytes _ b => b | _ => [] end.
(** The byte streams of a log. *)
Definition in_bytes (I : list NetworkInputEventV1) : list u8 := I ≫= event_bytes.
Definition out_bytes (O : list NetworkOutputV4) : list u8 := O ≫= bytes.
Lemma in_bytes_app I J : in_bytes (I ++ J) = in_bytes I ++ in_bytes J.
Proof. unfold in_bytes. by rewrite bind_app. Qed.
Lemma out_bytes_app O P : out_bytes (O ++ P) = out_bytes O ++ out_bytes P.
Proof. unfold out_bytes. by rewrite bind_app. Qed.
Lemma in_bytes_cons x I : in_bytes (x :: I) = event_bytes x ++ in_bytes I.
Proof. done. Qed.
Lemma out_bytes_cons o O : out_bytes (o :: O) = bytes o ++ out_bytes O.
Proof. done. Qed.
#[global] Arguments in_bytes : simpl never.
#[global] Arguments out_bytes : simpl never.

(** * What validation gives *)

Definition contiguous (O : list NetworkOutputV4) : Prop :=
  forall before o after, O = before ++ o :: after -> stream_offset o = Z.of_nat (length (out_bytes before)).

Definition out_chain : Z -> list NetworkOutputV4 -> Prop :=
  fix chain off outs :=
    match outs with
    | [] => off <= u64_max
    | o :: outs' => stream_offset o = off /\ chain (off + Z.of_nat (length (bytes o))) outs'
    end.
Lemma out_chain_contiguous O : forall off, out_chain off O ->
  off + Z.of_nat (length (out_bytes O)) <= u64_max /\
  forall before o after, O = before ++ o :: after ->
    stream_offset o = off + Z.of_nat (length (out_bytes before)).
Proof.
  induction O as [|x O IH]; intros off; simpl.
  - intros. split; [unfold out_bytes; simpl; lia|]. by intros [|? ?].
  - intros [Hx Hc]. destruct (IH _ Hc) as [Hl Hb]. split.
    + rewrite out_bytes_cons, length_app. lia.
    + intros [|y before] o after [= -> E]; [unfold out_bytes; simpl; lia|].
      rewrite (Hb _ _ _ E), out_bytes_cons, length_app. lia.
Qed.

Lemma validate_outputs_chain m e0 outs : forall oc oc' i,
  bt_ok (total_output oc) -> default 0 (bt_get i (total_output oc)) <= u64_max ->
  validate_outputs_v2 m e0 outs oc = Ok oc' ->
  out_chain (default 0 (bt_get i (total_output oc))) (of_out i outs).
Proof.
  induction outs as [|o outs IH]; intros oc oc' i Hs Hb; simpl; [done|].
  intros (oc1 & Ho & H)%bind_Ok. unfold validate_output in Ho. ensured.
  apply checked_u64_Some in Hx1 as [-> Hu]. injection Ho as <-.
  unfold of_out. rewrite filter_cons. case_decide as Hi.
  - subst i. simpl. apply Z.eqb_eq in Hx0. split; [done|].
    apply (IH _ _ (out_channel o)) in H; simpl; [|by apply bt_insert_ok|].
    + simpl in H. by rewrite bt_get_insert_eq in H.
    + rewrite bt_get_insert_eq by done. simpl. apply Hu.
  - apply (IH _ _ i) in H; simpl; [|by apply bt_insert_ok|by rewrite bt_get_insert_ne].
    simpl in H. by rewrite bt_get_insert_ne in H.
Qed.

Lemma validate_inputs_bound m e0 totals ins : forall idx pt cursors i,
  bt_ok cursors -> offset (default new_cursor (bt_get i cursors)) <= u64_max ->
  validate_inputs m e0 totals idx ins pt cursors = Ok tt ->
  offset (default new_cursor (bt_get i cursors)) + Z.of_nat (length (in_bytes (of_in i ins))) <= u64_max.
Proof.
  induction ins as [|x ins IH]; intros idx pt cursors i Hs Hb; simpl; [unfold in_bytes; simpl; lia|].
  intros ([t cs] & Hv & H)%bind_Ok. unfold validate_input in Hv. ensured. injection Hv as <- <-.
  assert (Hn : x1 = offset (default new_cursor (bt_get (in_channel x) cursors)) + Z.of_nat (length (event_bytes x))
    /\ (x1 <= u64_max \/ x1 = offset (default new_cursor (bt_get (in_channel x) cursors)))).
  { unfold event_bytes. destruct (event x); simpl in Hx5; ensured.
    - apply ok_or_Ok, checked_u64_Some in Hx5 as [-> Hu]. split; [done|]. left. apply Hu.
    - injection Hx5 as <-. simpl. lia.
    - injection Hx5 as <-. simpl. lia. }
  unfold of_in. rewrite filter_cons. case_decide as Hi.
  - subst i. apply IH with (i := in_channel x) in H; rewrite ?bt_get_insert_eq by done.
    + rewrite bt_get_insert_eq in H by done. simpl in H.
      rewrite in_bytes_cons, length_app. unfold of_in in H. lia.
    + by apply bt_insert_ok.
    + simpl. lia.
  - apply IH with (i := i) in H; rewrite ?bt_get_insert_ne by done; [|by apply bt_insert_ok|done].
    by rewrite bt_get_insert_ne in H.
Qed.

Lemma validate_streams {D} `{Chrono D} (t : NetworkTraceV2 D) i :
  NetworkTrace.validate t = Ok tt ->
  contiguous (of_out i (outputs t)) /\ Z.of_nat (length (out_bytes (of_out i (outputs t)))) <= u64_max /\
  Z.of_nat (length (in_bytes (of_in i (inputs t)))) <= u64_max.
Proof.
  unfold NetworkTrace.validate. intros (e0 & _ & (m & _ & (oc & Ho & Hi)%bind_Ok)%bind_Ok)%bind_Ok.
  apply (validate_outputs_chain _ _ _ _ _ i) in Ho; [|apply bt_ok_nil|done].
  apply out_chain_contiguous in Ho as [Hl Hc]. simpl in *.
  apply (validate_inputs_bound _ _ _ _ _ _ _ i) in Hi; [|apply bt_ok_nil|done]. simpl in Hi.
  split_and!; [|lia|lia]. intros b o a E. rewrite (Hc _ _ _ E). lia.
Qed.

(** * Channels of a replay *)

(** The bytes a request took off, or put on, the stream of channel [i]. *)
Definition received (i : OpenFileId) (q : NetworkRequest) (y : NetworkReply) : list u8 :=
  match q, y with
  | QRecv j _ _ _ false, YRecv (RData b) => if decide (j = i) then b else []
  | _, _ => []
  end.
Definition sent (i : OpenFileId) (q : NetworkRequest) (y : NetworkReply) : list u8 :=
  match q, y with
  | QReplaySend j b _ _, YSent n => if decide (j = i) then take n b else []
  | _, _ => []
  end.

Section Replay.
Context (bp : profile) {D : Type} `{!Chrono D} (t : NetworkTraceV2 D) (horizon : Z).
Hypothesis valid : NetworkTrace.validate t = Ok tt.
Implicit Types (g : NetworkEngine D) (c : Channel).

Abbreviation len b := (Z.of_nat (length b)).
Record chan_inv (i : OpenFileId) (rcv snt : list u8) c : Prop := {
  ci_released : exists rel, of_in i (inputs t) = rel ++ pending_inputs c /\ rcv ++ rx c = in_bytes rel /\
    Forall (fun x => not_before_global_time (release x) <= horizon /\
                     after_transmitted_offset (release x) <= tx c) rel /\
    rx_end c = len (in_bytes rel);
  ci_sent : tx c = len snt /\ exists rest, out_bytes (of_out i (outputs t)) = snt ++ rest;
  ci_expected : exists matched, of_out i (outputs t) = matched ++ expected_outputs c /\
    match expected_outputs c with
    | [] => tx c = len (out_bytes matched)
    | o :: _ => tx c = len (out_bytes matched)
                \/ len (out_bytes matched) < tx c < len (out_bytes matched) + len (bytes o)
    end;
}.

Lemma chan_inv_ext i rcv snt c c' :
  pending_inputs c' = pending_inputs c -> rx c' = rx c -> rx_end c' = rx_end c -> tx c' = tx c ->
  expected_outputs c' = expected_outputs c -> chan_inv i rcv snt c -> chan_inv i rcv snt c'.
Proof.
  intros E1 E2 E3 E4 E5 [H1 H2 H3]. split; rewrite ?E1, ?E2, ?E3, ?E4, ?E5; done.
Qed.
Lemma new_chan_inv i r :
  chan_inv i [] [] (set_streams (of_in i (inputs t)) (of_out i (outputs t)) (channel_new r)).
Proof.
  split; simpl.
  - exists []. by split_and!.
  - eauto.
  - exists []. split; [done|]. unfold out_bytes; simpl. destruct (of_out i (outputs t)); [done|by left].
Qed.

Lemma channel_apply_inv i rcv snt x ins c now :
  chan_inv i rcv snt (set_streams (x :: ins) (expected_outputs c) c) -> now <= horizon ->
  is_eligible (release x) now (tx c) = true ->
  exists c', channel_apply bp (event x) c = Done c' /\ expected_outputs c' = expected_outputs c /\
    chan_inv i rcv snt (set_streams ins (expected_outputs c') c').
Proof using valid.
  intros [(rel & Ei & Er & HF & He) Hs Hx] Hn [H1 H2]%andb_true_iff. simpl in *.
  apply Z.leb_le in H1, H2.
  assert (Hrel : of_in i (inputs t) = (rel ++ [x]) ++ ins) by by rewrite <- app_assoc.
  assert (HF' : Forall (fun x => not_before_global_time (release x) <= horizon /\
    after_transmitted_offset (release x) <= tx c) (rel ++ [x])).
  { apply Forall_app. split; [done|]. constructor; [lia|constructor]. }
  destruct (validate_streams t i valid) as (_ & _ & Hmax). rewrite Hrel, in_bytes_app, in_bytes_app in Hmax.
  assert (Eb : in_bytes (rel ++ [x]) = in_bytes rel ++ event_bytes x).
  { rewrite in_bytes_app, in_bytes_cons. unfold in_bytes at 2; simpl. by rewrite app_nil_r. }
  rewrite in_bytes_cons in Hmax. rewrite !length_app in Hmax. unfold event_bytes in *.
  destruct (event x) as [o b|o|o e]; simpl.
  - rewrite He, arith_u_exact by (unfold u64_max in *; lia). simpl. eexists. split_and!; [done..|].
    split; simpl; [|done|done]. exists (rel ++ [x]). rewrite Eb. split_and!; [done| |done|].
    + by rewrite app_assoc, Er.
    + rewrite length_app. lia.
  - eexists. split_and!; [done..|]. split; simpl; [|done|done]. exists (rel ++ [x]).
    by rewrite Eb, app_nil_r.
  - eexists. split_and!; [done..|]. split; simpl; [|done|done]. exists (rel ++ [x]).
    by rewrite Eb, app_nil_r.
Qed.
Lemma release_loop_inv i rcv snt now ins : now <= horizon -> forall c,
  chan_inv i rcv snt (set_streams ins (expected_outputs c) c) ->
  exists c', release_loop bp ins now c = Done c' /\ chan_inv i rcv snt c'.
Proof using valid.
  intros Hn. induction ins as [|x ins IH]; intros c H; simpl; [eauto|].
  destruct (is_eligible (release x) now (tx c)) eqn:E; [|eauto].
  destruct (channel_apply_inv _ _ _ _ _ _ _ H Hn E) as (c' & -> & _ & H'). simpl. by apply IH.
Qed.
Lemma release_inv i rcv snt now c :
  now <= horizon -> chan_inv i rcv snt c ->
  exists c', channel_release bp now c = Done c' /\ chan_inv i rcv snt c'.
Proof using valid.
  intros Hn H. apply release_loop_inv; [done|]. by eapply chan_inv_ext; [..|exact H].
Qed.

Lemma recv_released_inv i rcv snt now m target peek c :
  chan_inv i rcv snt c ->
  post (recv_released c now m target peek) (fun oc =>
    chan_inv i (rcv ++ match oc.1 with RData b => if peek then [] else b | _ => [] end) snt oc.2).
Proof.
  intros H. unfold recv_released.
  destruct ((0 <? length (rx c))%nat && _); [|destruct ((length (rx c) =? 0)%nat && bool_decide _);
    [|destruct ((length (rx c) =? 0)%nat && (input_ended c || shut_rd c))]]; simpl; rewrite ?app_nil_r; try done.
  - destruct peek; simpl; [by rewrite app_nil_r|].
    destruct H as [(rel & Ei & Er & HF & He) Hs Hx]. split; simpl; [|done|done].
    exists rel. split_and!; [done| |done|done]. rewrite <- Er, <- app_assoc. by rewrite take_drop.
  - by eapply chan_inv_ext; [..|exact H].
  - unfold check_stalled. destruct (pending_inputs c) as [|x l]; simpl; [by rewrite app_nil_r|].
    destruct (_ && _); simpl; [done|by rewrite app_nil_r].
Qed.

(** ** The engine *)

Record eng_inv (R S : OpenFileId -> list u8) g : Prop := {
  ei_mode : exists U, mode g = Replay U /\ bt_ok U /\
    forall i c, bt_get i U = Some c -> id (record c) = i /\ chan_inv i [] [] c;
  ei_sorted : bt_ok (channels g);
  ei_chan : forall i c, bt_get i (channels g) = Some c -> chan_inv i (R i) (S i) c;
  ei_fresh : forall i, bt_get i (channels g) = None -> R i = [] /\ S i = [];
}.
Lemma eng_inv_ext R S R' S' g :
  (forall i, R' i = R i) -> (forall i, S' i = S i) -> eng_inv R S g -> eng_inv R' S' g.
Proof.
  intros HR HS [H1 H2 H3 H4]. split; [done|done|..]; intros i; rewrite ?HR, ?HS; auto.
Qed.
Lemma eng_inv_put R S R' S' g i c :
  (forall j, j <> i -> R' j = R j /\ S' j = S j) -> chan_inv i (R' i) (S' i) c ->
  eng_inv R S g -> eng_inv R' S' (put_channel g i c).
Proof.
  intros Ho Hc [H1 H2 H3 H4]. split; simpl; [done|by apply bt_insert_ok|..].
  - intros j cj. destruct (decide (j = i)) as [->|Hj].
    + rewrite bt_get_insert_eq by done. by intros [= <-].
    + rewrite bt_get_insert_ne by done. destruct (Ho j Hj) as [-> ->]. apply H3.
  - intros j. destruct (decide (j = i)) as [->|Hj].
    + by rewrite bt_get_insert_eq by done.
    + rewrite bt_get_insert_ne by done. destruct (Ho j Hj) as [-> ->]. apply H4.
Qed.
Lemma eng_inv_get R S g i {A} (f : Channel -> result NetworkEngineError A) (Q : A -> Prop) :
  eng_inv R S g -> (forall c, chan_inv i (R i) (S i) c -> bt_get i (channels g) = Some c -> post (f c) Q) ->
  post (c ← channel g i; f c) Q.
Proof. intros H Hf. apply post_ok_or. intros c E. apply Hf; [|done]. by apply (ei_chan _ _ _ H). Qed.
(** The channel after [release], whatever is done with it. *)
Lemma eng_inv_release R S g i now {A} (f : Channel -> result NetworkEngineError A) (Q : A -> Prop) :
  now <= horizon -> eng_inv R S g -> (forall c, chan_inv i (R i) (S i) c -> post (f c) Q) ->
  post (c ← channel g i; c' ← lift (channel_release bp now c); f c') Q.
Proof using valid.
  intros Hn H Hf. eapply eng_inv_get; [done|]. intros c Hc _.
  destruct (release_inv _ _ _ _ _ Hn Hc) as (c' & -> & Hc'). simpl. auto.
Qed.
Lemma eng_inv_same R S g i c c' :
  pending_inputs c' = pending_inputs c -> rx c' = rx c -> rx_end c' = rx_end c -> tx c' = tx c ->
  expected_outputs c' = expected_outputs c -> chan_inv i (R i) (S i) c -> eng_inv R S g ->
  eng_inv R S (put_channel g i c').
Proof. intros. apply (eng_inv_put R S); [done| |done]. by eapply chan_inv_ext. Qed.

Lemma no_arrivals R S g i now l : eng_inv R S g -> record_arrivals bp g i now l = Ok g.
Proof.
  intros [(U & Em & _) _ _ _]. destruct l; simpl; [done|]. unfold needs_pull, is_record. by rewrite Em.
Qed.

Lemma first_difference_lt a b k : first_difference a b = Some k -> (k < length a)%nat.
Proof.
  revert b k. induction a as [|x a IH]; intros [|y b] k; simpl; try done.
  destruct (x =? y); [|intros [= <-]; lia].
  destruct (first_difference a b) as [k'|] eqn:E; simpl; [|done]. intros [= <-]. apply IH in E. lia.
Qed.

(** The fragment at the head of [expected_outputs] is the recorded output at
    the current offset. *)
Lemma fragment_inv i rcv snt c o outs :
  chan_inv i rcv snt c -> expected_outputs c = o :: outs ->
  exists matched k, of_out i (outputs t) = matched ++ o :: outs /\
    stream_offset o = len (out_bytes matched) /\ tx c = len (out_bytes matched) + Z.of_nat k /\
    (k = 0%nat \/ (k < length (bytes o))%nat) /\ snt = out_bytes matched ++ take k (bytes o) /\
    len (out_bytes matched) + len (bytes o) <= u64_max.
Proof using valid.
  intros [_ [Ht [rest Hs]] (matched & Em & Hm)] Eo. rewrite Eo in Em, Hm.
  destruct (validate_streams t i valid) as (Hc & Hmax & _).
  rewrite Em, out_bytes_app, out_bytes_cons, !length_app in Hmax.
  exists matched, (Z.to_nat (tx c - len (out_bytes matched))). split_and!; [done|by eapply Hc|lia|lia| |lia].
  assert (Hk : (Z.to_nat (tx c - len (out_bytes matched)) <= length (bytes o))%nat) by lia.
  rewrite Em, out_bytes_app, out_bytes_cons in Hs.
  apply (f_equal (take (length snt))) in Hs. rewrite take_app_length in Hs. rewrite <- Hs.
  replace (length snt) with (length (out_bytes matched) + Z.to_nat (tx c - len (out_bytes matched)))%nat by lia.
  rewrite take_app_add. f_equal. by rewrite take_app_le.
Qed.

Definition sent_by (i : OpenFileId) (b : list u8) (o : ReplaySendOutcome) (j : OpenFileId) : list u8 :=
  match o with Sent n => if decide (i = j) then take n b else [] | _ => [] end.

(** Accepting [n] bytes of the fragment at the head. *)
Lemma accept_inv i rcv snt c o outs matched k n b :
  chan_inv i rcv snt c -> expected_outputs c = o :: outs -> of_out i (outputs t) = matched ++ o :: outs ->
  tx c = len (out_bytes matched) + Z.of_nat k -> snt = out_bytes matched ++ take k (bytes o) ->
  (k + n <= length (bytes o))%nat -> take n (drop k (bytes o)) = take n b ->
  chan_inv i rcv (snt ++ take n b)
    (set_streams (pending_inputs c) (if (n =? length (drop k (bytes o)))%nat then outs else expected_outputs c)
       (set_tx (tx c + Z.of_nat n) (output_events c) c)).
Proof.
  intros [(rel & Ei & Er & HF & He) _ _] Eo Em Et Es Hn Eb.
  assert (Ek : out_bytes matched ++ take (k + n) (bytes o) = snt ++ take n b).
  { by rewrite Es, <- Eb, <- app_assoc, take_take_drop. }
  split; simpl.
  - exists rel. split_and!; [done|done| |done]. eapply Forall_impl; [exact HF|]. simpl. lia.
  - rewrite <- Ek. split.
    + rewrite length_app, length_take. lia.
    + exists (drop (k + n) (bytes o) ++ out_bytes outs).
      by rewrite Em, out_bytes_app, out_bytes_cons, <- (app_assoc (out_bytes matched)),
        (app_assoc (take _ _)), take_drop.
  - rewrite length_drop. destruct (Nat.eqb_spec n (length (bytes o) - k)) as [E|E].
    + exists (matched ++ [o]). split; [by rewrite <- app_assoc|].
      rewrite out_bytes_app, out_bytes_cons, !length_app. unfold out_bytes at 2. simpl.
      destruct outs; [lia|left; lia].
    + exists matched. rewrite Eo. split; [done|]. lia.
Qed.
(** Consuming a refused send. *)
Lemma refusal_inv i rcv snt c o outs :
  chan_inv i rcv snt c -> expected_outputs c = o :: outs -> bytes o = [] ->
  chan_inv i rcv snt (set_streams (pending_inputs c) outs c).
Proof.
  intros [Hr Hs (matched & Em & Hm)] Eo Eb. rewrite Eo in Em, Hm. rewrite Eb in Hm. simpl in Hm.
  split; simpl; [done|done|]. exists (matched ++ [o]). split; [by rewrite <- app_assoc|].
  rewrite out_bytes_app, out_bytes_cons, Eb, app_nil_r. destruct outs; [lia|left; lia].
Qed.

Lemma replay_send_inv R S g i b nb now w :
  eng_inv R S g ->
  post (replay_send bp g i b nb now w) (fun og => eng_inv R (fun j => S j ++ sent_by i b og.1 j) og.2).
Proof using valid.
  intros H. unfold replay_send. apply post_ensure. intros _. eapply eng_inv_get; [done|]. intros c Hc _.
  assert (Hsame : forall o, (forall j, sent_by i b o j = []) -> eng_inv R (fun j => S j ++ sent_by i b o j) g).
  { intros o Ho. eapply eng_inv_ext; [| |exact H]; [done|]. intros j. by rewrite Ho, app_nil_r. }
  destruct (is_empty_bytes b); [apply Hsame; intros j; simpl; by case_decide|].
  destruct (expected_outputs c) as [|o outs] eqn:Eo; [done|].
  destruct (is_empty_bytes (bytes o)) eqn:Eb.
  { apply post_ensure. intros _. simpl. apply (eng_inv_put R S); [intros j _; by rewrite app_nil_r| |done].
    rewrite app_nil_r. apply (refusal_inv _ _ _ _ o); [done|done|]. by destruct (bytes o). }
  destruct (fragment_inv _ _ _ _ _ _ Hc Eo) as (matched & k & Em & Es & Et & Hk & Esnt & Hmax).
  assert (Hkl : (k <= length (bytes o))%nat) by lia.
  replace (tx c - stream_offset o) with (Z.of_nat k) by lia.
  rewrite arith_u_exact by (unfold u64_max in *; lia). simpl. apply post_bind.
  assert (Hrest : forall not_yet : bool, post
    (if not_yet then Ok (NotYet, g)
     else if len (bytes o) <? Z.of_nat k then Crash PExplicit
     else let remaining := drop (Z.to_nat (Z.of_nat k)) (bytes o) in
          let n := Nat.min (length remaining) (length b) in
          if negb (bool_decide (take n remaining = take n b)) then
            off ← lift (arith_u bp 64 (tx c + Z.of_nat (default n (first_difference remaining b))));
            Err (OutboundMismatch i off)
          else
            t' ← lift (arith_u bp 64 (tx c + Z.of_nat n));
            let outs' := if (n =? length remaining)%nat then outs else o :: outs in
            Ok (Sent n, put_channel g i (set_streams (pending_inputs c) outs' (set_tx t' (output_events c) c))))
    (fun og => eng_inv R (fun j => S j ++ sent_by i b og.1 j) og.2)).
  { intros [|]; [by apply Hsame|]. rewrite (proj2 (Z.ltb_ge _ _)) by lia. rewrite Nat2Z.id.
    set (remaining := drop k (bytes o)). set (n := Nat.min (length remaining) (length b)). cbv zeta.
    assert (Hr : length remaining = (length (bytes o) - k)%nat) by apply length_drop.
    destruct (bool_decide _) eqn:Ed; cbn [negb].
    - apply bool_decide_eq_true in Ed. rewrite arith_u_exact by (unfold u64_max in *; lia). simpl.
      apply (eng_inv_put R S); [|simpl; rewrite decide_True by done|done].
      + intros j Hj. simpl. rewrite decide_False by congruence. by rewrite app_nil_r.
      + rewrite <- Eo. apply (accept_inv i (R i) (S i) c o outs matched k n b); [done..|lia|done].
    - assert (Hd : (default n (first_difference remaining b) <= length remaining)%nat).
      { destruct (first_difference remaining b) as [d|] eqn:E; simpl; [apply first_difference_lt in E; lia|lia]. }
      fold n. set (d := default n _) in *. clearbody d. by rewrite arith_u_exact by (unfold u64_max in *; lia). }
  destruct (if Z.of_nat k =? 0 then wait o else None) as [w'|]; [|apply Hrest].
  apply post_ensure. intros _. apply Hrest.
Qed.

Lemma readiness_loop_inv R S now l : now <= horizon -> forall g,
  eng_inv R S g -> post (readiness_loop bp g now l) (fun eg => eng_inv R S eg.2).
Proof using valid.
  intros Hn. induction l as [|[[i lowat] arr] l IH]; intros g H; simpl; [done|].
  rewrite (no_arrivals _ _ _ _ _ _ H). simpl. apply post_bind. unfold readiness.
  eapply eng_inv_release; [done|done|]. intros c Hc. apply post_bind.
  assert (Hp : post (check_stalled c now) (fun _ => True)).
  { unfold check_stalled. destruct (pending_inputs c); [done|]. by destruct (_ && _). }
  eapply post_mono; [exact Hp|]. intros _ _. simpl. apply post_bind.
  eapply post_mono; [apply IH; by eapply eng_inv_same|]. by intros [es g'].
Qed.

Lemma replay_connect_inv R S g i peer nb :
  eng_inv R S g -> post (replay_connect g i peer nb) (fun eg => eng_inv R S eg.2).
Proof.
  intros [(U & Em & HU & Hun) Hs Hc Hf]. unfold replay_connect, check_new. apply post_ensure. intros Hnew.
  rewrite Em. apply post_ok_or. intros c E. apply post_ensure. intros _. simpl.
  destruct (Hun _ _ E) as [Hid Hinv]. rewrite Hid.
  assert (HN : bt_get i (channels g) = None) by (unfold bt_mem in Hnew; by destruct (bt_get i (channels g))).
  destruct (Hf i HN) as [HR HS].
  apply (eng_inv_put R S); [done| |].
  - rewrite HR, HS. destruct nb; [by eapply chan_inv_ext; [..|exact Hinv]|done].
  - split; simpl; [|done..]. exists (bt_remove i U). split_and!; [done|by apply bt_remove_ok|].
    intros j d. destruct (decide (j = i)) as [->|Hj]; [by rewrite bt_get_remove_eq|].
    rewrite bt_get_remove_ne by done. apply Hun.
Qed.
Lemma shutdown_inv R S g i how :
  eng_inv R S g -> post (shutdown g i how) (fun eg => eng_inv R S eg.2).
Proof.
  intros H. unfold shutdown. eapply eng_inv_get; [done|]. intros c Hc _.
  destruct (negb _); [done|]. repeat (destruct (how =? _); [by eapply eng_inv_same; [..|exact Hc|]|]). done.
Qed.
Lemma recv_inv R S g i now m target peek :
  now <= horizon -> eng_inv R S g ->
  post (recv bp g i now m target peek) (fun og =>
    eng_inv (fun j => R j ++ received j (QRecv i [] m target peek) (YRecv og.1)) S og.2).
Proof using valid.
  intros Hn H. unfold recv. eapply eng_inv_release; [done|done|]. intros c Hc. apply post_bind.
  eapply post_mono; [by apply recv_released_inv|]. intros [o c'] Hc'. simpl.
  apply (eng_inv_put R S); [| |done].
  - intros j Hj. destruct peek, o; rewrite ?decide_False by congruence; by rewrite app_nil_r.
  - simpl in Hc'. destruct peek, o; rewrite ?decide_True by done; exact Hc'.
Qed.

(** Every request keeps the invariant, and none panics. *)
Lemma apply_inv R S g now q :
  now <= horizon -> eng_inv R S g ->
  post (apply bp g now q) (fun yg =>
    eng_inv (fun i => R i ++ received i q yg.1) (fun i => S i ++ sent i q yg.1) yg.2).
Proof using valid.
  intros Hn H. assert (Hmode : is_record g = false).
  { destruct (ei_mode _ _ _ H) as (U & Em & _). unfold is_record. by rewrite Em. }
  assert (Hnil : forall g, eng_inv R S g -> eng_inv (fun i => R i ++ []) (fun i => S i ++ []) g).
  { intros g'. apply eng_inv_ext; intros i; apply app_nil_r. }
  destruct q; simpl.
  - unfold record_connect. by rewrite Hmode.
  - apply post_bind. eapply post_mono; [by apply replay_connect_inv|]. intros [e g'] ?. by apply Hnil.
  - rewrite (no_arrivals _ _ _ _ _ _ H). simpl. apply post_bind.
    eapply post_mono; [by apply recv_inv|]. intros [o g'] H'. simpl in *.
    eapply eng_inv_ext; [| |exact H']; [done|]. intros j. by rewrite app_nil_r.
  - apply post_bind. eapply post_mono; [by apply readiness_loop_inv|]. intros [es g'] ?. by apply Hnil.
  - apply post_bind. unfold take_error. eapply eng_inv_release; [done|done|]. intros c Hc. simpl.
    apply Hnil. by eapply eng_inv_same; [..|exact Hc|].
  - apply post_bind. unfold send_failure. eapply eng_inv_release; [done|done|]. intros c Hc.
    destruct (_ || _); simpl; apply Hnil; by eapply eng_inv_same; [..|exact Hc|].
  - apply post_bind. unfold record_send. eapply eng_inv_get; [done|]. intros c _ _.
    unfold is_record in Hmode. by destruct (mode g).
  - apply post_bind. unfold record_refused_send. eapply eng_inv_get; [done|]. intros c _ _.
    unfold is_record in Hmode. by destruct (mode g).
  - apply post_bind. eapply post_mono; [by apply replay_send_inv|]. intros [o g'] H'. simpl in *.
    eapply eng_inv_ext; [| |exact H']; intros j; [by rewrite app_nil_r|]. by destruct o.
  - apply post_bind. eapply post_mono; [by apply shutdown_inv|]. intros [e g'] ?. by apply Hnil.
  - by apply Hnil.
Qed.

Lemma finish_replay_inv R S g : eng_inv R S g -> post (finish_replay bp g) (fun _ => True).
Proof using valid.
  intros H. destruct (ei_mode _ _ _ H) as (U & Em & _). unfold finish_replay. rewrite Em.
  destruct U as [|[i c] U]; [|done].
  assert (Hall : forall i c, (i, c) ∈ channels g -> chan_inv i (R i) (S i) c).
  { intros i c Hin. apply (ei_chan _ _ _ H), bt_get_elem; [apply H|done]. }
  induction (channels g) as [|[i c] cs IH]; simpl; [done|].
  destruct (last (expected_outputs c)) as [o|] eqn:El;
    [|apply IH; intros j d Hin; apply Hall; by constructor].
  apply last_Some in El as [l El]. destruct (Hall i c) as [_ _ (matched & Eo & _)]; [constructor|].
  rewrite El, app_assoc in Eo. destruct (validate_streams t i valid) as (Hc & Hmax & _).
  rewrite (Hc _ _ _ Eo). rewrite Eo, out_bytes_app, length_app in Hmax. rewrite out_bytes_cons, app_nil_r in Hmax.
  rewrite arith_u_exact by (unfold u64_max in *; lia). done.
Qed.

(** ** Runs *)

Lemma new_replay_inv : eng_inv (fun _ => []) (fun _ => []) (new_replay t).
Proof.
  unfold new_replay. set (U0 := fold_left _ (NetworkTrace.channels t) []).
  assert (H0 : bt_ok U0 /\ forall i c, bt_get i U0 = Some c -> exists r, c = channel_new r /\ id r = i).
  { unfold U0. clear U0. generalize (NetworkTrace.channels t). intros rs.
    cut (forall m, (bt_ok m /\ forall i c, bt_get i m = Some c -> exists r, c = channel_new r /\ id r = i) ->
      let U := fold_left (fun m r => bt_insert (id r) (channel_new r) m) rs m in
      bt_ok U /\ forall i c, bt_get i U = Some c -> exists r, c = channel_new r /\ id r = i).
    { intros Hcut. apply Hcut. split; [apply bt_ok_nil|done]. }
    induction rs as [|r rs IH]; intros m [Hm Hr]; simpl; [done|]. apply IH.
    split; [by apply bt_insert_ok|]. intros i c. destruct (decide (id r = i)) as [<-|Hi].
    - rewrite bt_get_insert_eq by done. intros [= <-]. eauto.
    - rewrite bt_get_insert_ne by done. apply Hr. }
  destruct H0 as [H0 G0].
  destruct (push_inputs_get (inputs t) _ H0) as [H1 G1].
  destruct (push_outputs_get (outputs t) _ H1) as [H2 G2].
  split; simpl; [|apply bt_ok_nil|done|done]. eexists. split_and!; [done|exact H2|].
  intros i c. rewrite G2, G1. destruct (bt_get i U0) as [c0|] eqn:E; simpl; [|done]. intros [= <-].
  destruct (G0 _ _ E) as (r & -> & Hid). split; [done|]. simpl. apply new_chan_inv.
Qed.
End Replay.

Section Requests.
Context (bp : profile) {D : Type} `{!Chrono D}.

(** A sequence of requests with their times. *)
Fixpoint run_requests (g : NetworkEngine D) (l : list (Z * NetworkRequest))
    : result NetworkEngineError (list NetworkReply * NetworkEngine D) :=
  match l with
  | [] => Ok ([], g)
  | (now, q) :: l' =>
      '(y, g1) ← apply bp g now q;
      '(ys, g2) ← run_requests g1 l';
      Ok (y :: ys, g2)
  end.
(** What the requests took off, and put on, the stream of a channel. *)
Definition streamed (f : OpenFileId -> NetworkRequest -> NetworkReply -> list u8) (i : OpenFileId)
    (l : list (Z * NetworkRequest)) (ys : list NetworkReply) : list u8 :=
  concat (zip_with (fun x y => f i x.2 y) l ys).

Lemma run_requests_inv (t : NetworkTraceV2 D) horizon l :
  NetworkTrace.validate t = Ok tt -> Forall (fun x => x.1 <= horizon) l -> forall R S g,
  eng_inv t horizon R S g ->
  post (run_requests g l) (fun yg =>
    eng_inv t horizon (fun i => R i ++ streamed received i l yg.1) (fun i => S i ++ streamed sent i l yg.1) yg.2).
Proof.
  intros Hv. induction 1 as [|[now q] l Hn Hl IH]; intros R S g H; simpl.
  - eapply eng_inv_ext; [| |exact H]; intros i; apply app_nil_r.
  - apply post_bind. eapply post_mono; [by apply (apply_inv bp t horizon Hv)|]. intros [y g1] H1. simpl in H1.
    apply post_bind. eapply post_mono; [by apply IH|]. intros [ys g2] H2. simpl in H2 |- *.
    eapply eng_inv_ext; [| |exact H2]; intros i; simpl; by rewrite <- app_assoc.
Qed.
End Requests.
