(* ===== verification/NetworkValid.v ===== *)
(** A recording validates: what [finish] checks holds of every run in which
    the host and the syscall layer behave as documented. *)
From Stdlib Require Import ZArith Lia List.
From stdpp Require Import base gmap list.
From S2P Require Import Prelude BTree Time NetworkTrace NetworkEngine NetworkSim.

(** * What the host delivers *)

Definition arrival_ok (a : NetworkArrival) : Prop :=
  match a with AError e => validate_errno e = Ok tt | _ => True end.
Definition arrival_len (a : NetworkArrival) : Z :=
  match a with ABytes b => Z.of_nat (length b) | _ => 0 end.
Fixpoint sum_Z (l : list Z) : Z := match l with [] => 0 | x :: l' => x + sum_Z l' end.
Definition traffic (op : guest_op) : Z :=
  match op with
  | GRecv _ arrivals _ _ _ => sum_Z (arrival_len <$> arrivals)
  | GPoll l => sum_Z ((fun x => sum_Z (arrival_len <$> x.2)) <$> l)
  | GSend _ _ n _ _ _ => Z.of_nat n
  | _ => 0
  end.
(** [live] are the sockets connected without an error: only those transmit. *)
Definition host_ok (e0 : Z) (live : list OpenFileId) (now : Z) (op : guest_op) : Prop :=
  e0 <= now /\
  match op with
  | GConnect i peer local errno _ =>
      is_socket i = true /\ 0 <= errno <= 4095 /\
      (errno = 0 -> match local with Some a => same_family a peer = true | None => False end)
  | GRecv _ arrivals _ _ _ => Forall arrival_ok arrivals
  | GPoll l => Forall (fun x => Forall arrival_ok x.2) l
  | GSend i buf n _ _ w => i ∈ live /\ (n <= length buf)%nat
  | GRefused i _ => i ∈ live
  | _ => True
  end.
Definition lives (op : guest_op) : list OpenFileId :=
  match op with GConnect i _ _ errno _ => if errno =? 0 then [i] else [] | _ => [] end.
Fixpoint hosts_ok (e0 : Z) (live : list OpenFileId) (l : list (Z * guest_op)) : Prop :=
  match l with
  | [] => True
  | (now, op) :: l' => host_ok e0 live now op /\ hosts_ok e0 (lives op ++ live) l'
  end.

Section Valid.
Context (bp : profile) {D : Type} `{!Chrono D} (ep : D) (e0 : Z).
Implicit Types (g : NetworkEngine D) (c : Channel) (m : list (OpenFileId * NetworkChannelV2)).

(** The input loop of [validate] with the state it ends in. *)
Fixpoint input_fold m tot (idx : Z) (ins : list NetworkInputEventV1) (st : Z * list (OpenFileId * InboundCursor))
    : result NetworkTraceValidationError (Z * list (OpenFileId * InboundCursor)) :=
  match ins with
  | [] => Ok st
  | i :: ins' => st' ← validate_input m e0 tot idx i st.1 st.2; input_fold m tot (idx + 1) ins' st'
  end.
Lemma validate_inputs_fold m tot ins : forall idx pt cur st,
  input_fold m tot idx ins (pt, cur) = Ok st -> validate_inputs m e0 tot idx ins pt cur = Ok tt.
Proof.
  induction ins as [|x ins IH]; intros idx pt cur st; simpl; [done|].
  intros ([pt' cur'] & -> & H)%bind_Ok. simpl. by eapply IH.
Qed.
Lemma input_fold_snoc m tot ins x : forall idx st st1 st2,
  input_fold m tot idx ins st = Ok st1 ->
  validate_input m e0 tot (idx + Z.of_nat (length ins)) x st1.1 st1.2 = Ok st2 ->
  input_fold m tot idx (ins ++ [x]) st = Ok st2.
Proof.
  induction ins as [|y ins IH]; intros idx st st1 st2; simpl.
  - intros [= ->]. rewrite Z.add_0_r. intros ->. done.
  - intros (st' & -> & H)%bind_Ok H2. simpl. eapply IH; [done|].
    rewrite <- H2. f_equal. lia.
Qed.
Lemma outputs_snoc m outs o : forall oc oc1 oc2,
  validate_outputs_v2 m e0 outs oc = Ok oc1 -> validate_output m e0 o oc1 = Ok oc2 ->
  validate_outputs_v2 m e0 (outs ++ [o]) oc = Ok oc2.
Proof.
  induction outs as [|y outs IH]; intros oc oc1 oc2; simpl.
  - intros [= ->] ->. done.
  - intros (oc' & -> & H)%bind_Ok H2. simpl. by eapply IH.
Qed.

(** * The invariant *)

Definition covers m (tot : list (OpenFileId * Z)) g : Prop :=
  forall i c, bt_get i (channels g) = Some c ->
    bt_get i m = Some (record c) /\ tx c <= default 0 (bt_get i tot).
Definition outputs_valid m (now : Z) g (outs : list NetworkOutputV4) : Prop :=
  exists oc, validate_outputs_v2 m e0 outs {| total_output := []; last_wait := [] |} = Ok oc /\
    bt_ok (total_output oc) /\ bt_ok (last_wait oc) /\
    (forall i, default 0 (bt_get i (total_output oc)) = tx_of g i) /\
    (forall i, default e0 (bt_get i (last_wait oc)) <= now).
Definition cursor_of (cur : list (OpenFileId * InboundCursor)) i : InboundCursor :=
  default new_cursor (bt_get i cur).
Definition inputs_valid m tot (now : Z) g (ins : list NetworkInputEventV1) : Prop :=
  exists pt cur, input_fold m tot 0 ins (e0, []) = Ok (pt, cur) /\ bt_ok cur /\ pt <= now /\
    forall i, match bt_get i (channels g) with
      | Some c => offset (cursor_of cur i) = rx_end c /\ tx_watermark (cursor_of cur i) <= tx c /\
                  (terminal (cursor_of cur i) = true -> input_ended c = true)
      | None => bt_get i cur = None
      end.
Record log_inv (now used : Z) (live : list OpenFileId) g : Prop := {
  li_rec : rec_ok g;
  li_now : e0 <= now;
  li_chan : forall i c, bt_get i (channels g) = Some c ->
    validate_channel (record c) = Ok tt /\ 0 <= tx c <= used /\ 0 <= rx_end c <= used /\
    (connect_errno (record c) <> 0 -> reset c = true);
  li_live : forall i, i ∈ live -> exists c, bt_get i (channels g) = Some c /\ connect_errno (record c) = 0;
  li_epoch : exists ins outs, mode g = Record_ ep ins outs;
  li_log : forall ins outs, mode g = Record_ ep ins outs -> forall m tot, covers m tot g ->
    outputs_valid m now g outs /\ inputs_valid m tot now g ins;
}.

Lemma log_inv_mono now used live g now' used' :
  now <= now' -> used <= used' -> log_inv now used live g -> log_inv now' used' live g.
Proof.
  intros Hn Hu [H1 H2 H3 H4 He H5]. split; [done|lia| |done|done|].
  - intros i c E. destruct (H3 i c E) as (? & ? & ? & ?). split_and!; [done|lia..|done].
  - intros ins outs Em m tot Hc. destruct (H5 _ _ Em m tot Hc) as
      [(oc & Ho & Hs1 & Hs2 & Ht & Hw) (pt & cur & Hi & Hs & Hp & Hk)]. split.
    + exists oc. split_and!; [done..|]. intros i. specialize (Hw i). lia.
    + exists pt, cur. split_and!; [done|done|lia|done].
Qed.

(** A step that changes channel [i] and the logs. *)
Lemma log_inv_step last now used used' live g i c c' ins outs ins' outs' :
  log_inv last used live g -> last <= now -> used <= used' ->
  bt_get i (channels g) = Some c -> mode g = Record_ ep ins outs ->
  record c' = record c -> pending_inputs c' = [] -> expected_outputs c' = [] ->
  tx c <= tx c' <= used' -> 0 <= rx_end c' <= used' -> (reset c = true -> reset c' = true) ->
  let g1 := NE (Record_ ep (ins ++ ins') (outs ++ outs')) (bt_insert i c' (channels g)) in
  (forall m tot, bt_get i m = Some (record c) -> tx c' <= default 0 (bt_get i tot) ->
    outputs_valid m last g outs -> inputs_valid m tot last g ins ->
    outputs_valid m now g1 (outs ++ outs') /\ inputs_valid m tot now g1 (ins ++ ins')) ->
  log_inv now used' live g1.
Proof.
  intros [H1 H2 H3 H4 _ H5] Hn Hu E Em R A B HT Hrx Hrs g1 Hlog.
  assert (HU : updated g i c' g1) by apply updated_insert, H1.
  destruct (H3 _ _ E) as (Hvc & Htx & _ & Herr).
  split; [|lia|..].
  - eapply (rec_ok_updated g _ ins' outs' i c c'); try done. by exists ep, ins, outs.
  - intros j d. rewrite (proj2 HU). case_decide.
    + subst j. intros [= <-]. rewrite R. split_and!; auto; lia.
    + intros Ed. destruct (H3 j d Ed) as (? & ? & ? & ?). split_and!; auto; lia.
  - intros j (d & Ed & Hd)%H4. rewrite (proj2 HU). case_decide; [|eauto]. subst j.
    assert (d = c) as -> by congruence. exists c'. by rewrite R.
  - by exists (ins ++ ins'), (outs ++ outs').
  - intros ins1 outs1 [= <- <-] m tot Hc.
    destruct (Hc i c' (updated_get _ _ _ _ HU)) as [Hm Htot]. rewrite R in Hm.
    assert (Hc0 : covers m tot g).
    { intros j d Ed. destruct (decide (j = i)) as [->|Hj].
      - assert (d = c) as -> by congruence. split; [done|lia].
      - apply Hc. rewrite (proj2 HU). by case_decide. }
    destruct (H5 _ _ Em m tot Hc0). by apply Hlog.
Qed.
(** Input and output validity do not depend on the rest of the channel. *)
Lemma outputs_valid_keep m last now g i c c' md outs :
  bt_ok (channels g) -> bt_get i (channels g) = Some c -> tx c' = tx c -> last <= now ->
  outputs_valid m last g outs -> outputs_valid m now (NE md (bt_insert i c' (channels g))) outs.
Proof.
  intros Hs E T Hn (oc & Ho & Hs1 & Hs2 & Ht & Hw). exists oc. split_and!; [done..| |].
  - intros j. rewrite Ht, (tx_of_updated _ _ _ _ _ (updated_insert g i c' md Hs)). case_decide; [|done].
    subst. unfold tx_of. by rewrite E.
  - intros j. specialize (Hw j). lia.
Qed.
Lemma inputs_valid_keep m tot last now g i c c' md ins :
  bt_ok (channels g) -> bt_get i (channels g) = Some c -> tx c <= tx c' -> rx_end c' = rx_end c ->
  (input_ended c = true -> input_ended c' = true) -> last <= now ->
  inputs_valid m tot last g ins -> inputs_valid m tot now (NE md (bt_insert i c' (channels g))) ins.
Proof.
  intros Hs E T Erx Hend Hn (pt & cur & Hi & Hc & Hp & Hk). exists pt, cur. split_and!; [done|done|lia|].
  intros j. rewrite (proj2 (updated_insert g i c' md Hs)). specialize (Hk j). case_decide; [|done].
  subst. rewrite E in Hk. rewrite Erx. destruct Hk as (? & ? & ?). split_and!; [done|lia|auto].
Qed.

(** Replacing a channel by one with the same logged state. *)
Lemma log_inv_put last now used live g i c c' :
  last <= now -> bt_get i (channels g) = Some c -> keeps c c' -> rx_end c' = rx_end c ->
  (reset c = true -> reset c' = true) -> (input_ended c = true -> input_ended c' = true) ->
  log_inv last used live g -> log_inv now used live (put_channel g i c').
Proof.
  intros Hn E (R & T & A & B) Erx Hrs Hend HV. pose proof HV as [H1 _ H3 _ (ins & outs & Em) _].
  destruct (rec_chan g H1 _ _ E) as (_ & Ai & Bi). destruct (H3 _ _ E) as (_ & Htx & Hrx & _).
  replace (put_channel g i c') with (NE (Record_ ep (ins ++ []) (outs ++ [])) (bt_insert i c' (channels g)))
    by (unfold put_channel; by rewrite Em, !app_nil_r).
  eapply (log_inv_step last now used used live g i c c'); try (done || lia || congruence).
  intros m tot _ _ Ho Hi. rewrite !app_nil_r.
  split; [eapply outputs_valid_keep|eapply inputs_valid_keep]; eauto; try apply H1; lia.
Qed.

(** ** Arrivals *)

Lemma arrival_kind_valid a off :
  arrival_ok a -> is_empty_arrival a = false -> 0 <= off -> off + arrival_len a <= u64_max ->
  validate_input_kind (arrival_event off a) off = Ok (off + arrival_len a).
Proof.
  destruct a as [b| |e]; simpl; intros Ha He H0 Hm; rewrite Z.eqb_refl; simpl.
  - rewrite He. simpl. rewrite (proj2 (checked_u64_Some _ (off + Z.of_nat (length b)))); [done|].
    split; [done|]. unfold is_u64. lia.
  - by rewrite Z.add_0_r.
  - rewrite Ha. simpl. by rewrite Z.add_0_r.
Qed.
Lemma arrival_applied a c :
  0 <= rx_end c -> rx_end c + arrival_len a <= u64_max ->
  exists c', channel_apply bp (arrival_event (rx_end c) a) c = Done c' /\
    rx_end c' = rx_end c + arrival_len a /\ (reset c = true -> reset c' = true) /\
    (is_terminal (arrival_event (rx_end c) a) = true -> input_ended c' = true).
Proof.
  intros H0 Hm. destruct a as [b| |e]; simpl in *.
  - rewrite arith_u_exact by (unfold u64_max in *; lia). simpl. eexists. by split_and!.
  - eexists. split_and!; [done|simpl; lia|done..].
  - eexists. split_and!; [done|simpl; lia|done|]. intros _. unfold input_ended. simpl. apply orb_true_r.
Qed.

(** The next input of a channel validates after the inputs so far. *)
Lemma arrival_valid m tot last now g i c a c' ins md :
  bt_ok (channels g) -> bt_get i (channels g) = Some c -> bt_get i m = Some (record c) ->
  connect_errno (record c) = 0 -> tx c <= default 0 (bt_get i tot) -> e0 <= last <= now ->
  arrival_ok a -> is_empty_arrival a = false -> input_ended c = false -> 0 <= rx_end c ->
  rx_end c + arrival_len a <= u64_max -> tx c' = tx c -> rx_end c' = rx_end c + arrival_len a ->
  (is_terminal (arrival_event (rx_end c) a) = true -> input_ended c' = true) ->
  inputs_valid m tot last g ins ->
  inputs_valid m tot now (NE md (bt_insert i c' (channels g))) (ins ++ [
    {| ordinal := Z.of_nat (length ins); in_channel := i;
       release := {| not_before_global_time := now; after_transmitted_offset := tx c |};
       event := arrival_event (rx_end c) a |}]).
Proof.
  intros Hs E Hm Herr Htot Hn Ha Hemp Hend H0 Hmax T Erx Hterm (pt & cur & Hi & Hc & Hp & Hk).
  pose proof (Hk i) as Hki. rewrite E in Hki. destruct Hki as (Hoff & Hwm & Hte).
  set (k' := {| offset := rx_end c + arrival_len a; tx_watermark := tx c;
                terminal := is_terminal (arrival_event (rx_end c) a) |}).
  exists now, (bt_insert i k' cur). split_and!; [|by apply bt_insert_ok|lia|].
  - eapply input_fold_snoc; [exact Hi|]. unfold validate_input. simpl. fold (cursor_of cur i).
    rewrite Z.eqb_refl. simpl. unfold live_channel. rewrite Hm. simpl. rewrite Herr. simpl.
    rewrite (proj2 (Z.leb_le e0 now)) by lia. rewrite (proj2 (Z.leb_le pt now)) by lia.
    rewrite (proj2 (Z.leb_le _ (tx c)) Hwm). rewrite (proj2 (Z.leb_le (tx c) _) Htot). simpl.
    destruct (terminal (cursor_of cur i)) eqn:Et; [rewrite Hte in Hend; done|]. simpl.
    rewrite Hoff, arrival_kind_valid by (done || lia). done.
  - intros j. rewrite (proj2 (updated_insert g i c' md Hs)). unfold cursor_of. case_decide as Hj.
    + subst j. rewrite bt_get_insert_eq by done. simpl. rewrite T, Erx. split_and!; [done|lia|done].
    + rewrite bt_get_insert_ne by done. apply Hk.
Qed.

Lemma log_inv_arrival last now used live g i a g1 :
  log_inv last used live g -> last <= now -> arrival_ok a -> used + arrival_len a <= u64_max ->
  record_arrival bp g i now a = Ok g1 -> log_inv now (used + arrival_len a) live g1.
Proof.
  intros HV Hn Ha Hu. pose proof HV as [H1 H2 H3 _ (ins & outs & Em) _]. unfold record_arrival.
  intros (c & Ec & Hr)%bind_Ok. apply ok_or_Ok in Ec as E. rewrite Em in Hr. apply bind_Ok in Hr as (u & He & Hr).
  apply ensure_Ok, negb_true_iff, orb_false_iff in He as [Hend Hemp]. clear u.
  destruct (H3 _ _ E) as (Hvc & Htx & Hrx & Hrs).
  assert (Herr : connect_errno (record c) = 0).
  { destruct (decide (connect_errno (record c) = 0)) as [|Hne]; [done|]. apply Hrs in Hne.
    unfold input_ended in Hend. rewrite Hne, orb_true_r in Hend. done. }
  assert (Hal : 0 <= arrival_len a) by (destruct a; simpl; lia).
  destruct (arrival_applied a c) as (c' & Ea & Erx & Hrs' & Hterm); [lia|lia|].
  rewrite Ea in Hr. simpl in Hr. injection Hr as <-.
  pose proof (channel_apply_keeps _ _ _ _ Ea) as (R & T & A & B).
  destruct (rec_chan g H1 _ _ E) as (_ & Ai & Bi).
  replace (Record_ ep (ins ++ [_]) outs) with (Record_ ep (ins ++ [
    {| ordinal := Z.of_nat (length ins); in_channel := i;
       release := {| not_before_global_time := now; after_transmitted_offset := tx c |};
       event := arrival_event (rx_end c) a |}]) (outs ++ [])) by by rewrite app_nil_r.
  eapply (log_inv_step last now used _ live g i c c'); try (done || lia || congruence).
  intros m tot Hm Htot Ho Hi. rewrite app_nil_r. split.
  - eapply outputs_valid_keep; eauto. apply H1.
  - eapply (arrival_valid m tot last now g i c a c'); try done; try lia. apply H1.
Qed.
Lemma log_inv_arrivals now l : forall last used live g i g1,
  log_inv last used live g -> last <= now -> Forall arrival_ok l ->
  used + sum_Z (arrival_len <$> l) <= u64_max ->
  record_arrivals bp g i now l = Ok g1 -> log_inv now (used + sum_Z (arrival_len <$> l)) live g1.
Proof.
  assert (Hpos : forall l, 0 <= sum_Z (arrival_len <$> l)).
  { clear. induction l as [|a l IH]; [done|]. rewrite fmap_cons. destruct a; simpl; lia. }
  induction l as [|a l IH]; intros last used live g i g1 HV Hn Hl Hu; simpl.
  - intros [= <-]. eapply log_inv_mono; [exact Hn| |exact HV]. lia.
  - inversion_clear Hl as [|? ? Ha Hl']. simpl in Hu. specialize (Hpos l).
    assert (Hal : 0 <= arrival_len a) by (destruct a; simpl; lia).
    destruct (needs_pull g i).
    + intros (g2 & Hr & H)%bind_Ok. eapply log_inv_arrival in Hr; [|done|done|done|unfold fmap in *; lia].
      eapply IH in H; [|exact Hr|done|done|unfold fmap in *; lia].
      eapply log_inv_mono; [| |exact H]; [done|]. unfold fmap. lia.
    + intros [= <-]. eapply log_inv_mono; [exact Hn| |exact HV]. unfold fmap in *. lia.
Qed.

(** ** Observations *)

Definition quiet {A} (f : Channel -> result NetworkEngineError (A * Channel)) : Prop :=
  forall c o c2, f c = Ok (o, c2) -> keeps c c2 /\ rx_end c2 = rx_end c /\
    reset c2 = reset c /\ peer_closed c2 = peer_closed c.
Lemma recv_quiet now n t p : quiet (fun c => recv_released c now n t p).
Proof.
  intros c o c2 H. unfold recv_released in H.
  repeat (match type of H with context [if ?b then Ok _ else _] => destruct b end; [by injection H as <- <-; destruct p|]).
  apply bind_Ok in H as (u & _ & H). by injection H as <- <-.
Qed.
Lemma readiness_quiet now lowat : quiet (readiness_of now lowat).
Proof. intros c o c2 (u & _ & H)%bind_Ok. by injection H as <- <-. Qed.
Lemma take_error_quiet : quiet take_error_of.
Proof. intros c o c2 H. by injection H as <- <-. Qed.
Lemma send_failure_quiet : quiet send_failure_of.
Proof. intros c o c2 H. unfold send_failure_of in H. destruct (_ || _); by injection H as <- <-. Qed.

Lemma log_inv_observe {A} (f : Channel -> result NetworkEngineError (A * Channel)) last now used live g i o g1 :
  quiet f -> log_inv last used live g -> last <= now -> observe bp f g i now = Ok (o, g1) ->
  log_inv now used live g1.
Proof.
  intros Hf HV Hn. unfold observe. intros (c & Ec & H)%bind_Ok. apply ok_or_Ok in Ec as E.
  destruct (rec_chan g (li_rec _ _ _ _ HV) _ _ E) as (_ & Ai & _).
  rewrite release_recorded in H by done. simpl in H. apply bind_Ok in H as ([o' c2] & Ef & H).
  injection H as <- <-. destruct (Hf _ _ _ Ef) as (Hk & Erx & Er & Ep).
  eapply log_inv_put; [exact Hn|exact E|exact Hk|exact Erx| | |exact HV].
  - by rewrite Er.
  - unfold input_ended. by rewrite Er, Ep.
Qed.

Lemma log_inv_poll now l : forall last used live g es g1,
  log_inv last used live g -> last <= now -> Forall (fun x => Forall arrival_ok x.2) l ->
  used + sum_Z ((fun x => sum_Z (arrival_len <$> x.2)) <$> l) <= u64_max ->
  readiness_loop bp g now l = Ok (es, g1) ->
  log_inv now (used + sum_Z ((fun x => sum_Z (arrival_len <$> x.2)) <$> l)) live g1.
Proof.
  assert (Hpos : forall l : list NetworkArrival, 0 <= sum_Z (arrival_len <$> l)).
  { clear. induction l as [|a l IH]; [done|]. rewrite fmap_cons. destruct a; simpl; lia. }
  assert (Hpos2 : forall l : list (OpenFileId * nat * list NetworkArrival),
    0 <= sum_Z ((fun x => sum_Z (arrival_len <$> x.2)) <$> l)).
  { clear -Hpos. induction l as [|x l IH]; [done|]. rewrite fmap_cons. simpl. specialize (Hpos x.2). lia. }
  induction l as [|[[i lowat] arr] l IH]; intros last used live g es g1 HV Hn Hl.
  - intros _ [= <- <-]. eapply log_inv_mono; [exact Hn| |exact HV]. simpl. lia.
  - rewrite fmap_cons. cbn [readiness_loop sum_Z snd]. intros Hu.
    inversion_clear Hl as [|? ? Ha Hl']. simpl in Ha. specialize (Hpos arr). specialize (Hpos2 l).
    intros (g0 & Hr & ([e g2] & Ho & ([es' g3] & H & H')%bind_Ok)%bind_Ok)%bind_Ok. injection H' as <- <-.
    eapply log_inv_arrivals in Hr; [|done|done|done|lia]. rewrite readiness_observe in Ho.
    eapply log_inv_observe in Ho; [|apply readiness_quiet|exact Hr|done].
    eapply IH in H; [|exact Ho|done|done|lia]. eapply log_inv_mono; [| |exact H]; [done|]. lia.
Qed.

(** ** Outputs *)

(** The next output of a channel validates after the outputs so far. *)
Lemma output_valid m last now g i c c' o outs md :
  bt_ok (channels g) -> bt_get i (channels g) = Some c -> bt_get i m = Some (record c) ->
  connect_errno (record c) = 0 -> e0 <= last <= now -> out_channel o = i -> stream_offset o = tx c ->
  0 <= tx c -> tx c' = tx c + Z.of_nat (length (bytes o)) -> tx c' <= u64_max ->
  (forall w, wait o = Some w -> bytes o <> [] /\ waits w <> 0 /\ wait_not_before w = now) ->
  outputs_valid m last g outs ->
  outputs_valid m now (NE md (bt_insert i c' (channels g))) (outs ++ [o]).
Proof.
  intros Hs E Hm Herr Hn Ho Hoff H0 T Hmax Hwait (oc & Hv & Hs1 & Hs2 & Ht & Hw).
  assert (Hti : default 0 (bt_get i (total_output oc)) = tx c) by (rewrite Ht; unfold tx_of; by rewrite E).
  set (lw := match wait o with Some w => bt_insert i now (last_wait oc) | None => last_wait oc end).
  assert (Hlw : bt_ok lw) by (unfold lw; destruct (wait o); [by apply bt_insert_ok|done]).
  exists {| total_output := bt_insert i (tx c') (total_output oc); last_wait := lw |}. split_and!; simpl.
  - eapply outputs_snoc; [exact Hv|]. unfold validate_output, live_channel. rewrite Ho, Hm. simpl.
    rewrite Herr, Hti, Hoff, Z.eqb_refl. simpl.
    rewrite (proj2 (checked_u64_Some _ (tx c'))) by (unfold is_u64; lia). simpl. unfold lw.
    destruct (wait o) as [w|] eqn:Ew; [|done]. destruct (Hwait w eq_refl) as (Hb & Hw0 & Hwn).
    unfold validate_wait. apply is_empty_bytes_false in Hb. rewrite Hb, Hwn, Ho. simpl.
    rewrite (proj2 (Z.eqb_neq _ _) Hw0). simpl. rewrite (proj2 (Z.leb_le e0 now)) by lia. simpl.
    rewrite (proj2 (Z.leb_le _ now)) by (specialize (Hw i); lia). done.
  - by apply bt_insert_ok.
  - done.
  - intros j. rewrite (tx_of_updated _ _ _ _ _ (updated_insert g i c' md Hs)). case_decide as Hj.
    + subst j. by rewrite bt_get_insert_eq.
    + by rewrite bt_get_insert_ne.
  - intros j. specialize (Hw j). unfold lw. destruct (wait o); [|lia]. destruct (decide (j = i)) as [->|Hj].
    + rewrite bt_get_insert_eq by done. simpl. lia.
    + rewrite bt_get_insert_ne by done. lia.
Qed.
Lemma log_inv_output last now used live g i c c' ins outs o :
  log_inv last used live g -> last <= now -> i ∈ live -> bt_get i (channels g) = Some c ->
  mode g = Record_ ep ins outs -> record c' = record c -> pending_inputs c' = [] -> expected_outputs c' = [] ->
  rx_end c' = rx_end c -> reset c' = reset c -> peer_closed c' = peer_closed c ->
  out_channel o = i -> stream_offset o = tx c -> tx c' = tx c + Z.of_nat (length (bytes o)) ->
  used + Z.of_nat (length (bytes o)) <= u64_max ->
  (forall w, wait o = Some w -> bytes o <> [] /\ waits w <> 0 /\ wait_not_before w = now) ->
  log_inv now (used + Z.of_nat (length (bytes o))) live
    (NE (Record_ ep ins (outs ++ [o])) (bt_insert i c' (channels g))).
Proof.
  intros HV Hn Hl E Em R A B Erx Er Ep Ho Hoff T Hmax Hw. pose proof HV as [H1 H2 H3 H4 _ _].
  destruct (H4 i Hl) as (d & Ed & Herr). assert (d = c) as -> by congruence.
  destruct (H3 _ _ E) as (_ & Htx & Hrx & _). rewrite <- (app_nil_r ins).
  eapply (log_inv_step last now used _ live g i c c'); try (done || lia || congruence).
  intros m tot Hm Htot Hov Hiv. split.
  - eapply (output_valid m last now g i c c' o); try done; try lia. apply H1.
  - rewrite app_nil_r. eapply (inputs_valid_keep m tot last now g i c c'); try done; try lia; [apply H1|].
    unfold input_ended. by rewrite Er, Ep.
Qed.

(** ** Connects *)

Lemma log_inv_connect last now used live g i peer local errno nb e g1 :
  log_inv last used live g -> last <= now -> 0 <= used -> is_socket i = true -> 0 <= errno <= 4095 ->
  (errno = 0 -> match local with Some a => same_family a peer = true | None => False end) ->
  record_connect g i peer local errno nb = Ok (e, g1) ->
  log_inv now used ((if errno =? 0 then [i] else []) ++ live) g1.
Proof.
  intros [H1 H2 H3 H4 He H5] Hn H0 Hsock Herr Hloc. unfold record_connect.
  intros (u & _ & (u1 & Hnew & (u2 & Ht & H)%bind_Ok)%bind_Ok)%bind_Ok.
  apply ensure_Ok in Hnew, Ht. unfold bt_mem in Hnew.
  destruct (bt_get i (channels g)) as [|] eqn:E; [done|]. clear u u1 u2 Hnew.
  set (r := {| id := i |}) in H. unfold connected in H. simpl in H. injection H as _ <-.
  set (c1 := if nb then set_pending_error _ _ else _).
  assert (Hc1 : record c1 = r /\ tx c1 = 0 /\ rx_end c1 = 0 /\ reset c1 = negb (errno =? 0) /\
    pending_inputs c1 = [] /\ expected_outputs c1 = []) by (unfold c1; by destruct nb).
  clearbody c1. destruct Hc1 as (R & T & Erx & Er & A & B).
  assert (HU : updated g i c1 (put_channel g i c1)) by apply updated_insert, H1.
  split; [|lia|..].
  - split; [apply H1|apply HU|]. intros j d. rewrite (proj2 HU). case_decide; [|apply H1].
    subst j. intros [= <-]. by rewrite R.
  - intros j d. rewrite (proj2 HU). case_decide; [|apply H3]. subst j. intros [= <-].
    rewrite R, T, Erx, Er. split_and!; [|lia..|simpl; intros Hne; by rewrite (proj2 (Z.eqb_neq _ _) Hne)].
    unfold validate_channel. simpl. rewrite Hsock, Ht. simpl.
    rewrite (proj2 (Z.leb_le 0 errno)), (proj2 (Z.leb_le errno 4095)) by lia.
    destruct (Z.eqb_spec errno 0) as [E0|E0]; [|done]. specialize (Hloc E0).
    destruct local as [a|]; [|done]. by rewrite Hloc.
  - intros j [Hj|Hj]%elem_of_app.
    + destruct (Z.eqb_spec errno 0) as [E0|E0]; [|by apply elem_of_nil in Hj].
      apply list_elem_of_singleton in Hj as ->. exists c1. split; [by eapply updated_get|]. by rewrite R.
    + destruct (H4 j Hj) as (d & Ed & Hd). exists d. split; [|done]. rewrite (proj2 HU).
      case_decide; [congruence|done].
  - done.
  - intros ins outs Em m tot Hc. simpl in Em.
    destruct (H5 _ _ Em m tot) as [(oc & Ho & Hs1 & Hs2 & Htx & Hw) (pt & cur & Hi & Hs & Hp & Hk)].
    { intros j d Ed. apply Hc. rewrite (proj2 HU). case_decide; [congruence|done]. }
    split.
    + exists oc. split_and!; [done..| |]; intros j; [|specialize (Hw j); lia].
      rewrite Htx, (tx_of_updated _ _ _ _ _ HU). case_decide; [|done]. subst j. unfold tx_of. by rewrite E.
    + exists pt, cur. split_and!; [done|done|lia|]. intros j. rewrite (proj2 HU). specialize (Hk j).
      case_decide; [|done]. subst j. rewrite E in Hk. unfold cursor_of. rewrite Hk, T, Erx. done.
Qed.

(** ** Operations and runs *)

Lemma log_inv_send last now used live g i b at_ w e g1 :
  log_inv last used live g -> last <= now -> i ∈ live -> used + Z.of_nat (length b) <= u64_max ->
  record_send bp g i b at_ now w = Ok (e, g1) -> log_inv now (used + Z.of_nat (length b)) live g1.
Proof.
  intros HV Hn Hl Hu. unfold record_send. intros (c & Ec & H)%bind_Ok. apply ok_or_Ok in Ec as E.
  destruct (li_epoch _ _ _ _ HV) as (ins & outs & Em). rewrite Em in H. apply bind_Ok in H as (u & _ & H).
  destruct (is_empty_bytes b) eqn:Eb.
  { injection H as _ <-. eapply log_inv_mono; [exact Hn| |exact HV]. lia. }
  destruct (li_chan _ _ _ _ HV _ _ E) as (_ & Htx & _).
  destruct (rec_chan g (li_rec _ _ _ _ HV) _ _ E) as (_ & Ai & Bi).
  rewrite (arith_u_exact bp 64 (tx c + Z.of_nat (length b))) in H by (unfold u64_max in *; lia). simpl in H.
  destruct (arith_u bp 64 (output_events c + 1)) as [k|]; simpl in H; [|done]. injection H as _ <-.
  set (o := {| out_channel := i |}). change (length b) with (length (bytes o)).
  apply (log_inv_output last now used live g i c); try done.
  intros w' Ew. simpl in *. destruct (0 <? w) eqn:E0; [|done]. injection Ew as <-. simpl.
  apply is_empty_bytes_false in Eb. split_and!; [done|lia|done].
Qed.
Lemma log_inv_refused last now used live g i g1 :
  log_inv last used live g -> last <= now -> used <= u64_max -> i ∈ live ->
  record_refused_send bp g i = Ok g1 -> log_inv now used live g1.
Proof.
  intros HV Hn Hu Hl. unfold record_refused_send. intros (c & Ec & H)%bind_Ok. apply ok_or_Ok in Ec as E.
  destruct (li_epoch _ _ _ _ HV) as (ins & outs & Em). rewrite Em in H.
  destruct (rec_chan g (li_rec _ _ _ _ HV) _ _ E) as (_ & Ai & Bi).
  destruct (arith_u bp 64 (output_events c + 1)) as [k|]; simpl in H; [|done]. injection H as <-.
  set (o := {| out_channel := i |}). replace used with (used + Z.of_nat (length (bytes o))) by (simpl; lia).
  apply (log_inv_output last now used live g i c); simpl; try done; lia.
Qed.
Lemma log_inv_shutdown last now used live g i how e g1 :
  log_inv last used live g -> last <= now -> shutdown g i how = Ok (e, g1) -> log_inv now used live g1.
Proof.
  intros HV Hn. unfold shutdown. intros (c & Ec & H)%bind_Ok. apply ok_or_Ok in Ec as E.
  assert (Hsame : log_inv now used live g) by (eapply log_inv_mono; [exact Hn| |exact HV]; lia).
  destruct (negb _); [by injection H as _ <-|].
  repeat (destruct (how =? _); [injection H as _ <-; by eapply log_inv_put|]). by injection H as _ <-.
Qed.

Lemma log_inv_op last now used live g op v g1 :
  log_inv last used live g -> last <= now -> 0 <= used -> host_ok e0 live now op ->
  used + traffic op <= u64_max -> record_op bp g now op = Ok (v, g1) ->
  log_inv now (used + traffic op) (lives op ++ live) g1.
Proof.
  intros HV Hn H0 [_ Hop] Hu.
  assert (Hsame : log_inv now (used + 0) live g) by (eapply log_inv_mono; [exact Hn| |exact HV]; lia).
  destruct op; unfold record_op; cbn [record_request traffic lives app] in *;
    try (intros ([r g2] & Ha & H)%bind_Ok; injection H as _ <-; simpl in Ha); rewrite ?Z.add_0_r in *.
  - apply bind_Ok in Ha as ([e g3] & Ha & H). injection H as _ <-. destruct Hop as (? & ? & ?).
    by eapply log_inv_connect.
  - apply bind_Ok in Ha as (g0 & Hr & Ha). apply bind_Ok in Ha as ([o g3] & Ho & H). injection H as _ <-.
    eapply log_inv_arrivals in Hr; [|done..]. rewrite recv_observe in Ho.
    eapply log_inv_observe in Ho; [done|apply recv_quiet|exact Hr|done].
  - apply bind_Ok in Ha as ([es g3] & Ha & H). injection H as _ <-. by eapply log_inv_poll.
  - apply bind_Ok in Ha as ([e g3] & Ho & H). injection H as _ <-. rewrite take_error_observe in Ho.
    eapply log_inv_observe in Ho; [done|apply take_error_quiet|exact HV|done].
  - apply bind_Ok in Ha as ([e g3] & Ho & H). injection H as _ <-. rewrite send_failure_observe in Ho.
    eapply log_inv_observe in Ho; [done|apply send_failure_quiet|exact HV|done].
  - apply bind_Ok in Ha as ([e g3] & Ha & H). injection H as _ <-. destruct Hop as [Hl Hlen].
    assert (Hn' : length (take accepted buf) = accepted) by (rewrite length_take; lia).
    eapply log_inv_send in Ha; [|done|done|done|by rewrite Hn']. by rewrite Hn' in Ha.
  - apply bind_Ok in Ha as (g3 & Ha & H). injection H as _ <-. by eapply log_inv_refused.
  - destruct first; [|by intros [= _ <-]]. intros ([r g2] & Ha & H)%bind_Ok. injection H as _ <-. simpl in Ha.
    apply bind_Ok in Ha as ([e g3] & Ha & H). injection H as _ <-. unfold record_send in Ha.
    apply bind_Ok in Ha as (c & _ & Ha). destruct (mode g); [|done]. simpl in Ha. by injection Ha as _ <-.
  - apply bind_Ok in Ha as ([e g3] & Ha & H). injection H as _ <-. by eapply log_inv_shutdown.
  - by injection Ha as _ <-.
Qed.

Lemma log_inv_run l : forall last used live g vs g1,
  log_inv last used live g -> 0 <= used -> times_ok last l -> hosts_ok e0 live l ->
  used + sum_Z ((fun x => traffic x.2) <$> l) <= u64_max ->
  run_ops (record_op bp) g l = Ok (vs, g1) -> exists now used' live', log_inv now used' live' g1.
Proof.
  assert (Hpos : forall op, 0 <= traffic op).
  { assert (H1 : forall l : list NetworkArrival, 0 <= sum_Z (arrival_len <$> l)).
    { induction l0 as [|a l0 IH]; [done|]. rewrite fmap_cons. destruct a; simpl; lia. }
    intros []; cbn [traffic]; try lia; [apply H1|].
    induction l0 as [|x l0 IH]; [done|]. rewrite fmap_cons. simpl. specialize (H1 x.2). lia. }
  assert (Hsum : forall l : list (Z * guest_op), 0 <= sum_Z ((fun x => traffic x.2) <$> l)).
  { induction l0 as [|x l0 IH]; [done|]. rewrite fmap_cons. cbn [sum_Z]. specialize (Hpos x.2). lia. }
  induction l as [|[now op] l IH]; intros last used live g vs g1 HV H0; simpl.
  - intros _ _ _ [= _ <-]. eauto.
  - intros (Hnow & Hle & _ & Ht) [Hop Hops] Hu. specialize (Hsum l). specialize (Hpos op).
    intros ([v g2] & Ho & ([vs' g3] & Hr & H)%bind_Ok)%bind_Ok. injection H as _ <-.
    eapply log_inv_op in Ho; [|done|done|done|done|unfold fmap in *; lia].
    eapply IH in Hr; eauto; [lia|]. unfold fmap in *. lia.
Qed.

(** ** The end of the recording *)

Lemma new_record_log : log_inv e0 0 [] (new_record ep).
Proof.
  split; [apply new_record_ok|done|done|by intros i Hi%elem_of_nil|by exists [], []|].
  intros ins outs [= <- <-] m tot _. split.
  - eexists. split_and!; [done|apply bt_ok_nil|apply bt_ok_nil|done|]. simpl. lia.
  - exists e0, []. split_and!; [done|apply bt_ok_nil|lia|done].
Qed.
Lemma validate_channels_table (T : list (OpenFileId * Channel)) :
  forall m, bt_ok T -> bt_ok m ->
  (forall i c, bt_get i T = Some c -> id (record c) = i /\ validate_channel (record c) = Ok tt) ->
  (forall i c, bt_get i T = Some c -> bt_get i m = None) ->
  exists m', validate_channels ((fun kc => record kc.2) <$> T) m = Ok m' /\
    forall i, bt_get i m' = match bt_get i T with Some c => Some (record c) | None => bt_get i m end.
Proof.
  induction T as [|[k c] T IH]; intros m HT Hm Hid Hnew; [by exists m|].
  pose proof (proj1 (bt_ok_cons _ _ _) HT) as [HT' Hk].
  destruct (Hid k c) as [Ek Hv]; [apply bt_get_head|]. rewrite fmap_cons. simpl. rewrite Hv, Ek. simpl.
  unfold bt_mem. rewrite (Hnew k c) by apply bt_get_head. simpl.
  assert (Hin : forall i d, bt_get i T = Some d -> i <> k /\ bt_get i ((k, c) :: T) = Some d).
  { intros i d E. split; [intros ->; by rewrite bt_get_lt in E|].
    apply bt_get_elem; [done|]. right. by apply bt_get_elem. }
  destruct (IH (bt_insert k (record c) m)) as (m' & Em & Hget); [done|by apply bt_insert_ok|..].
  { intros i d E. apply Hid. by apply Hin. }
  { intros i d E. destruct (Hin i d E) as [Hne E']. rewrite bt_get_insert_ne by done. by eapply Hnew. }
  exists m'. split; [done|]. intros i. rewrite Hget. destruct (kcmp i k) eqn:Ek'.
  - apply kcmp_eq in Ek' as ->. rewrite bt_get_lt by done. by rewrite bt_get_insert_eq.
  - rewrite bt_get_lt. 2:{ eapply Forall_impl; [exact Hk|]. intros x Hx. by eapply kcmp_trans. }
    apply bt_get_insert_ne; [|done]. intros ->. by rewrite kcmp_refl in Ek'.
  - destruct (bt_get i T); [done|]. apply bt_get_insert_ne; [|done]. intros ->. by rewrite kcmp_refl in Ek'.
Qed.
Lemma finish_log now used live g :
  log_inv now used live g -> epoch_global_time ep = Ok e0 -> exists t, finish g = Ok t.
Proof.
  intros [H1 H2 H3 H4 (ins & outs & Em) H5] Hep. unfold finish. rewrite Em. unfold NetworkTrace.validate. simpl. rewrite Hep. simpl.
  destruct (validate_channels_table (channels g) []) as (m & Hm & Hget); [apply H1|apply bt_ok_nil| |done|].
  { intros i c E. split; [by apply (rec_chan g H1)|by destruct (H3 i c E)]. }
  rewrite Hm. simpl.
  assert (Hmc : forall i c, bt_get i (channels g) = Some c -> bt_get i m = Some (record c))
    by (intros i c E; by rewrite Hget, E).
  (* the totals that validation computes are the channels' own *)
  set (tot := (fun kc => (kc.1, tx kc.2)) <$> channels g).
  assert (Ho : exists oc, outputs_valid m now g outs /\
    validate_outputs_v2 m e0 outs {| total_output := []; last_wait := [] |} = Ok oc /\
    forall i, default 0 (bt_get i (total_output oc)) = tx_of g i).
  { destruct (H5 _ _ Em m tot) as [Hov _].
    - intros i c E. split; [auto|]. unfold tot. clear -E.
      induction (channels g) as [|[k d] T IH]; simpl in *; [done|].
      destruct (kcmp i k); [injection E as ->; simpl; lia|done|auto].
    - destruct Hov as (oc & Hv & Hs1 & Hs2 & Ht & Hw). exists oc. split_and!; [|done|done].
      exists oc. by split_and!. }
  destruct Ho as (oc & _ & Hv & Ht). rewrite Hv. simpl.
  destruct (H5 _ _ Em m (total_output oc)) as [_ (pt & cur & Hi & _)].
  { intros i c E. split; [auto|]. rewrite Ht. unfold tx_of. rewrite E. lia. }
  rewrite (validate_inputs_fold _ _ _ _ _ _ _ Hi). simpl. eauto.
Qed.
End Valid.
