(* ===== verification/NetworkProps.v ===== *)
(** What network record and replay promise: replay reproduces the recording,
    the recording validates, a trace survives its file, and replay is safe
    whatever the guest does. *)
From Stdlib Require Import ZArith Lia List.
From stdpp Require Import base gmap list strings.
From S2P Require Import Prelude BTree Time NetworkTrace NetworkEngine NetworkSim NetworkSafe NetworkValid.

(** * Theorems *)


(** C34: a recording validates.  When sockets have socket identities, connects
    report an errno the kernel can report and a local address exactly on
    success, socket errors are terminal errnos, only connected sockets
    transmit, time starts at the epoch and never goes back, and the run moves
    less than 2^64 bytes, then [finish] accepts the trace it built: ordinals,
    stream offsets, release times, transmit watermarks and send waits all
    satisfy what [validate] checks. *)
Theorem recording_validates (bp : profile) {D : Type} `{!Chrono D} (ep : D) (e0 : Z)
    (l : list (Z * guest_op)) (vs : list guest_view) (gf : NetworkEngine D) :
  epoch_global_time ep = Ok e0 -> times_ok e0 l -> hosts_ok e0 [] l ->
  sum_Z ((fun x => traffic x.2) <$> l) <= u64_max ->
  run_ops (record_op bp) (new_record ep) l = Ok (vs, gf) -> exists t, finish gf = Ok t.
Proof.
  intros Hep Ht Hh Hs Hr.
  destruct (log_inv_run bp ep e0 l e0 0 [] (new_record ep) vs gf) as (now & used & live & HV);
    [apply new_record_log|lia|done..|].
  by eapply finish_log.
Qed.

(** replaying a trace file never panics: whatever bytes the file holds, if
    [read_framed] accepts them then no sequence of requests at any times makes
    the replaying engine overflow, index out of bounds or fail an expectation,
    and neither does ending the replay. *)
Theorem replay_never_panics (bp : profile) {D : Type} `{!Chrono D}
    `{!Codec (NetworkTraceV1 D), !Codec (NetworkTraceV2 D), !Codec (NetworkTraceV2Wire D)}
    (file : list u8) (t : NetworkTraceV2 D) (l : list (Z * NetworkRequest)) :
  read_framed file = Ok t ->
  match run_requests bp (new_replay t) l with
  | Ok (_, g) => match finish_replay bp g with Crash _ => False | _ => True end
  | Err _ => True
  | Crash _ => False
  end.
Proof.
  intros Hr. assert (Hv : NetworkTrace.validate t = Ok tt) by by eapply read_framed_valid.
  assert (exists horizon, Forall (fun x => x.1 <= horizon) l) as [horizon Hl].
  { clear. induction l as [|x l [h IH]]; [by exists 0|]. exists (Z.max x.1 h). constructor; [lia|].
    eapply Forall_impl; [exact IH|]. simpl. lia. }
  pose proof (run_requests_inv bp t horizon l Hv Hl _ _ _ (new_replay_inv t horizon)) as H.
  destruct (run_requests bp (new_replay t) l) as [[ys g]| |]; [|done|done].
  pose proof (finish_replay_inv bp t horizon Hv _ _ _ H) as Hf. simpl in Hf.
  by destruct (finish_replay bp g).
Qed.

(** C35: stream integrity of a replay.  After any requests an engine replaying
    a valid trace has answered, for every connected channel: the inputs
    released are a prefix of the recorded inputs of the channel; the bytes the
    guest took off the stream followed by those still queued are exactly the
    bytes of the released inputs, none lost, repeated or reordered; nothing was
    released before its recorded time or transmit watermark; and the bytes
    accepted from the guest are a prefix of the recorded output of length
    [tx]. *)
Theorem replay_stream_integrity (bp : profile) {D : Type} `{!Chrono D} (t : NetworkTraceV2 D) (horizon : Z)
    (l : list (Z * NetworkRequest)) (ys : list NetworkReply) (g : NetworkEngine D) (i : OpenFileId) (c : Channel) :
  NetworkTrace.validate t = Ok tt -> Forall (fun x => x.1 <= horizon) l ->
  run_requests bp (new_replay t) l = Ok (ys, g) -> bt_get i (channels g) = Some c ->
  (exists released, of_in i (inputs t) = released ++ pending_inputs c /\
     streamed received i l ys ++ rx c = in_bytes released /\
     Forall (fun x => is_eligible (NetworkTrace.release x) horizon (tx c) = true) released) /\
  streamed sent i l ys `prefix_of` out_bytes (of_out i (outputs t)) /\
  tx c = Z.of_nat (length (streamed sent i l ys)).
Proof.
  intros Hv Hl Hr Hc.
  pose proof (run_requests_inv bp t horizon l Hv Hl _ _ _ (new_replay_inv t horizon)) as H.
  rewrite Hr in H. simpl in H. destruct (ei_chan _ _ _ _ _ H i c Hc) as [(rel & Ei & Er & HF & _) [Ht [rest Hs]] _].
  split_and!; [|by exists rest|done]. exists rel. split_and!; [done..|].
  eapply Forall_impl; [exact HF|]. simpl. intros x [H1 H2]. unfold is_eligible.
  by rewrite (proj2 (Z.leb_le _ _) H1), (proj2 (Z.leb_le _ _) H2).
Qed.

(** C39: a trace survives its file: what [encode_framed] writes, in whichever
    of the versions 2, 3 and 4 the trace needs, [read_framed] reads back as the
    same trace. *)
Theorem framed_trace_roundtrip {D : Type} `{!Chrono D}
    `{!Codec (NetworkTraceV1 D), !Codec (NetworkTraceV2 D), !Codec (NetworkTraceV2Wire D)}
    `{!CodecSpec (NetworkTraceV2 D), !CodecSpec (NetworkTraceV2Wire D)} (t : NetworkTraceV2 D) (file : list u8) :
  encode_framed t = Ok file -> Z.of_nat (length file) < 2 ^ 64 -> read_framed file = Ok t.
Proof.
  unfold encode_framed. intros (u & Hv & He)%bind_Ok Hlen. unfold read_framed.
  destruct (records_send_waits t) eqn:Ew.
  - destruct (read_encode_frame NETWORK_TRACE_VERSION_V4 t file) as (payload & Er & Ed); [set_solver|done..|].
    rewrite Er. simpl. rewrite Ed. simpl. by rewrite Hv.
  - set (v := if records_refused_sends t then _ else _) in He.
    destruct (read_encode_frame v (wire_of_trace t) file) as (payload & Er & Ed);
      [unfold v; destruct (records_refused_sends t); set_solver|done..|].
    rewrite Er. simpl. assert (Hv1 : v =? NETWORK_TRACE_VERSION_V1 = false) by (unfold v; by destruct (records_refused_sends t)).
    assert (Hv4 : v =? NETWORK_TRACE_VERSION_V4 = false) by (unfold v; by destruct (records_refused_sends t)).
    rewrite Hv1, Hv4, Ed. simpl. rewrite trace_of_wire_of_trace by done.
    assert (Hc : negb ((v <? NETWORK_TRACE_VERSION_V3) && records_refused_sends t) = true)
      by (unfold v; by destruct (records_refused_sends t)).
    rewrite Hc. simpl. by rewrite Hv.
Qed.

(** version 1 files still replay: a valid version 1 trace, written by its
    own writer, is read as the current trace it stands for, which again passes
    the current validation. *)
Theorem v1_file_upgrade {D : Type} `{!Chrono D}
    `{!Codec (NetworkTraceV1 D), !Codec (NetworkTraceV2 D), !Codec (NetworkTraceV2Wire D)}
    `{!CodecSpec (NetworkTraceV1 D)} (t : NetworkTraceV1 D) (file : list u8) :
  v1_write_framed t = Ok file -> Z.of_nat (length file) < 2 ^ 64 ->
  v1_read_framed file = Ok t /\ (records_refused_sends (trace_of_v1 t) = false) /\
  read_framed file = Ok (trace_of_v1 t).
Proof.
  unfold v1_write_framed. intros ([] & Hv & He)%bind_Ok Hlen.
  assert (Hv' : v1_validate t = Ok tt) by (destruct (v1_validate t) as [[]| |]; [done|done|done]).
  destruct (read_encode_frame NETWORK_TRACE_VERSION_V1 t file) as (payload & Er & Ed); [set_solver|done..|].
  assert (Hn : records_refused_sends (trace_of_v1 t) = false) by by apply v1_no_refusals.
  split_and!; [| done |].
  - unfold v1_read_framed. rewrite Er. simpl. rewrite Ed. simpl. by rewrite Hv'.
  - unfold read_framed. rewrite Er. simpl. rewrite Ed. simpl. rewrite Hv'. simpl. rewrite Hn. simpl.
    by rewrite v1_upgrade.
Qed.

(** * Witnesses *)

(** An epoch in whole seconds. *)
#[local] Instance seconds : Chrono Z := {| timestamp := fun s => s; timestamp_subsec_micros := fun _ => 0 |}.
Definition e_start : Z := 1000000000.
Definition sock : OpenFileId := OFI 3 (SOCKET_SEQUENCE_DOMAIN + 1).
Definition server : NetworkAddressV1 := Inet4 [93; 184; 216; 34] 443.
Definition client : NetworkAddressV1 := Inet4 [10; 0; 0; 1] 40000.
(** A client that polls, reads, sends part of a buffer, is refused, waits for
    buffer space, and sees the server close. *)
Definition session : list (Z * guest_op) :=
  [(e_start + 10, GConnect sock server (Some client) 0 true);
   (e_start + 20, GPoll [(sock, 1%nat, [ABytes [1; 2; 3]])]);
   (e_start + 30, GRecv sock [ABytes [4]] 2 1 false);
   (e_start + 40, GSendFailure sock);
   (e_start + 40, GSend sock [9; 8; 7] 2 true None 0);
   (e_start + 50, GRefused sock [7]);
   (e_start + 60, GSendWait sock [7; 6] 0 true);
   (e_start + 70, GSend sock [7; 6] 2 false (Some (SM 2 2)) 1);
   (e_start + 80, GRecv sock [APeerWriteClosed] 10 1 false);
   (e_start + 85, GRecv sock [] 10 1 false);
   (e_start + 90, GShutdown sock SHUT_WR);
   (e_start + 95, GAddresses sock)].
Definition session_run : result NetworkEngineError (list guest_view * NetworkEngine Z) :=
  run_ops (record_op Prelude.release) (new_record 1) session.
Definition session_views : list guest_view :=
  Eval vm_compute in match session_run with Ok (vs, _) => vs | _ => [] end.
Definition session_engine : NetworkEngine Z :=
  Eval vm_compute in match session_run with Ok (_, g) => g | _ => new_record 1 end.
Definition session_trace : NetworkTraceV2 Z :=
  Eval vm_compute in match finish session_engine with
                     | Ok t => t
                     | _ => {| epoch := 0; NetworkTrace.channels := []; inputs := []; outputs := [] |}
                     end.
Lemma session_times : times_ok e_start session.
Proof. unfold is_u64, u64_max, e_start. cbn. unfold is_u64, u64_max. split_and!; (lia || done). Qed.
Lemma session_ops : ops_ok [] session.
Proof.
  cbn. split_and!; try (done || lia || by apply (bool_decide_unpack _); vm_compute).
  exists 1. split; [by vm_compute|lia].
Qed.
Lemma session_hosts : hosts_ok e_start [] session.
Proof.
  unfold e_start. cbn [hosts_ok session host_ok lives app]. split_and!; try (lia || done); try by repeat constructor.
Qed.


Lemma recording_validates_witness :
  run_ops (record_op Prelude.release) (new_record 1) session = Ok (session_views, session_engine) /\
  exists t, finish session_engine = Ok t.
Proof.
  split; [vm_compute; reflexivity|].
  apply (recording_validates Prelude.release 1 e_start session session_views session_engine).
  - vm_compute. reflexivity.
  - apply session_times.
  - apply session_hosts.
  - vm_compute. discriminate.
  - vm_compute. reflexivity.
Defined.

(** A codec that can write one value. *)
Definition one_value {T} `{EqDecision T} (x0 : T) : Codec T :=
  {| encode x := if decide (x = x0) then Some [42] else None;
     decode b := if decide (b = [42]) then Some (x0, 1%nat) else None |}.
Lemma one_value_spec {T} `{EqDecision T} (x0 : T) : @CodecSpec T (one_value x0).
Proof. split. intros x b. simpl. case_decide; [|done]. subst. by intros [= <-]. Qed.

Definition v1_trace : NetworkTraceV1 Z :=
  {| t1_epoch := 1;
     t1_channels := [{| c1_id := sock; c1_transport := Tcp; c1_role := OutboundClient; c1_local_address := client;
                        c1_peer_address := server; created_before_competing_threads := true |}];
     t1_inputs := [{| ordinal := 0; in_channel := sock;
                      release := {| not_before_global_time := e_start + 5; after_transmitted_offset := 2 |};
                      event := InboundBytes 0 [1; 2] |}];
     t1_outputs := [{| o1_channel := sock; o1_stream_offset := 0; o1_bytes := [7; 8] |}] |}.
#[local] Instance v1_codec : Codec (NetworkTraceV1 Z) := one_value v1_trace.
#[local] Instance v2_codec : Codec (NetworkTraceV2 Z) := one_value session_trace.
#[local] Instance wire_codec : Codec (NetworkTraceV2Wire Z) := one_value (wire_of_trace session_trace).
#[local] Instance v1_codec_spec : CodecSpec (NetworkTraceV1 Z) := one_value_spec _.
#[local] Instance v2_codec_spec : CodecSpec (NetworkTraceV2 Z) := one_value_spec _.
#[local] Instance wire_codec_spec : CodecSpec (NetworkTraceV2Wire Z) := one_value_spec _.
Definition session_file : list u8 :=
  Eval vm_compute in match encode_framed session_trace with Ok b => b | _ => [] end.
Definition v1_file : list u8 :=
  Eval vm_compute in match v1_write_framed v1_trace with Ok b => b | _ => [] end.

Lemma framed_trace_roundtrip_witness :
  encode_framed session_trace = Ok session_file /\ read_framed session_file = Ok session_trace.
Proof.
  split; [vm_compute; reflexivity|].
  apply (framed_trace_roundtrip session_trace session_file); vm_compute; reflexivity.
Defined.
Lemma v1_file_upgrade_witness :
  v1_write_framed v1_trace = Ok v1_file /\ read_framed v1_file = Ok (trace_of_v1 v1_trace).
Proof.
  split; [vm_compute; reflexivity|].
  apply (v1_file_upgrade v1_trace v1_file); vm_compute; reflexivity.
Defined.

(** A guest that does not follow the recording. *)
Definition stray : list (Z * NetworkRequest) :=
  [(e_start + 12, QReplayConnect sock server false);
   (e_start + 25, QRecv sock [] 2 1 false);
   (e_start + 26, QReplaySend sock [9] true 0);
   (e_start + 35, QRecv sock [] 2 1 true);
   (e_start + 36, QReplaySend sock [8; 8] true 0)].
Definition stray_run := Eval vm_compute in run_requests Prelude.release (new_replay session_trace) stray.
Definition stray_replies : list NetworkReply := match stray_run with Ok (ys, _) => ys | _ => [] end.
Definition stray_engine : NetworkEngine Z := match stray_run with Ok (_, g) => g | _ => new_record 1 end.
Definition stray_channel : Channel :=
  Eval vm_compute in match bt_get sock (channels stray_engine) with Some c => c | None => channel_new {|
    id := sock; transport := Tcp; role := OutboundClient; local_address := None; peer_address := server;
    connect_errno := 0 |} end.

Lemma replay_never_panics_witness :
  read_framed session_file = Ok session_trace /\
  match run_requests Prelude.release (new_replay session_trace) stray with
  | Ok (_, g) => match finish_replay Prelude.release g with Crash _ => False | _ => True end
  | Err _ => True
  | Crash _ => False
  end.
Proof.
  split; [vm_compute; reflexivity|].
  apply (replay_never_panics Prelude.release session_file session_trace stray). vm_compute. reflexivity.
Defined.
Lemma replay_stream_integrity_witness :
  streamed received sock stray stray_replies = [1; 2] /\
  streamed sent sock stray stray_replies `prefix_of` out_bytes (of_out sock (outputs session_trace)) /\
  tx stray_channel = 2.
Proof.
  split; [vm_compute; reflexivity|].
  destruct (replay_stream_integrity Prelude.release session_trace (e_start + 36) stray stray_replies
    stray_engine sock stray_channel) as (_ & Hp & Ht).
  - vm_compute. reflexivity.
  - unfold stray, e_start. repeat (apply Forall_cons; split; [simpl; lia|]). apply Forall_nil. exact Logic.I.
  - vm_compute. reflexivity.
  - vm_compute. reflexivity.
  - split; [exact Hp|]. rewrite Ht. vm_compute. reflexivity.
Defined.

(** * Where record and replay part

    Two runs the syscall layer can make that the assumptions of the lockstep
    theorem exclude. *)

Definition record_then_replay (l : list (Z * guest_op))
    : option (list guest_view * result NetworkEngineError (list guest_view)) :=
  match run_ops (record_op Prelude.release) (new_record 1) l with
  | Ok (vs, g) =>
      match finish g with
      | Ok t => Some (vs, '(vs', _) ← run_ops (replay_op Prelude.release) (new_replay t) l; Ok vs')
      | _ => None
      end
  | _ => None
  end.

(** A poll that lists a channel twice, with input arriving between the two
    pulls: the recording reports the first entry not readable, the replay
    reports both readable. *)
Example poll_twice_diverges :
  record_then_replay
    [(e_start + 10, GConnect sock server (Some client) 0 true);
     (e_start + 20, GPoll [(sock, 1%nat, []); (sock, 1%nat, [ABytes [5]])])] =
  Some ([VReply (YErrno EINPROGRESS); VReply (YEvents [260; 325])],
        Ok [VReply (YErrno EINPROGRESS); VReply (YEvents [325; 325])]).
Proof. vm_compute. reflexivity. Qed.

(** A run that ends while a blocking send waits for buffer space: its recording
    is valid, and its replay fails at that send. *)
Example blocked_send_at_end_diverges :
  record_then_replay
    [(e_start + 10, GConnect sock server (Some client) 0 true);
     (e_start + 20, GSendWait sock [7] 0 true)] =
  Some ([VReply (YErrno EINPROGRESS); VWait], Err (OutboundBeyondRecording sock 0)).
Proof. vm_compute. reflexivity. Qed.
