(* ===== verification/Fenwick.v ===== *)
(** * The binary indexed tree of counts (src/detcore/src/edit_distance/bubbles.rs)

    [Fenwick] counts the marked slots before a slot and finds the slot of the
    nth marked one, each along a path of the tree.  The tree is the vector of
    the source, indexed from 1; the theorems relate it to the marks it stands
    for, a function from slots to counts.  Indices are [nat]: a vector's length
    is below [isize::MAX], so a node plus its lowest bit, at most twice the
    length, fits a [usize]. *)
From Stdlib Require Import ZArith Lia List.
From stdpp Require Import base gmap list.
From S2P Require Import Prelude.
Open Scope nat_scope.

Module Fenwick.

(** [usize::trailing_zeros] of a nonzero number. *)
Fixpoint trailing_zeros (p : positive) : nat :=
  match p with xO p' => S (trailing_zeros p') | _ => 0 end.
Definition lowest_bit (node : nat) : nat :=
  match N.of_nat node with N0 => 1 | Npos p => 2 ^ trailing_zeros p end.

Definition zeros (len : nat) : list nat := replicate (len + 1) 0.

(** The body of the loop of [ones] at one node. *)
Definition ones_step (len : nat) (tree : list nat) (node : nat) : outcome (list nat) :=
  let parent := node + lowest_bit node in
  if parent <=? len then
    a ← get_at tree parent; b ← get_at tree node; set_at tree parent (a + b)
  else Done tree.
Fixpoint ones_loop (len : nat) (nodes : list nat) (tree : list nat) : outcome (list nat) :=
  match nodes with
  | [] => Done tree
  | node :: nodes' => tree' ← ones_step len tree node; ones_loop len nodes' tree'
  end.
Definition ones (len : nat) : outcome (list nat) :=
  ones_loop len (seq 1 len) (<[0 := 0]> (replicate (len + 1) 1)).

Fixpoint add_loop (fuel : nat) (tree : list nat) (node : nat) : outcome (list nat) :=
  match fuel with
  | 0 => Panic PFuel
  | S fuel' =>
      if node <? length tree then
        a ← get_at tree node; tree' ← set_at tree node (a + 1);
        add_loop fuel' tree' (node + lowest_bit node)
      else Done tree
  end.
Definition add (tree : list nat) (slot : nat) : outcome (list nat) :=
  add_loop (S (length tree)) tree (slot + 1).

(** A subtraction below zero panics or wraps by profile; a panic stands for
    both, and [remove_marks] shows that neither happens. *)
Definition checked_pred (a : nat) : outcome nat :=
  match a with 0 => Panic POverflow | S a' => Done a' end.
Fixpoint remove_loop (fuel : nat) (tree : list nat) (node : nat) : outcome (list nat) :=
  match fuel with
  | 0 => Panic PFuel
  | S fuel' =>
      if node <? length tree then
        a ← get_at tree node; a' ← checked_pred a; tree' ← set_at tree node a';
        remove_loop fuel' tree' (node + lowest_bit node)
      else Done tree
  end.
Definition remove (tree : list nat) (slot : nat) : outcome (list nat) :=
  remove_loop (S (length tree)) tree (slot + 1).

Fixpoint count_loop (fuel : nat) (tree : list nat) (node count : nat) : outcome nat :=
  match fuel with
  | 0 => Panic PFuel
  | S fuel' =>
      if 0 <? node then
        a ← get_at tree node; count_loop fuel' tree (node - lowest_bit node) (count + a)
      else Done count
  end.
Definition count_before (tree : list nat) (slot : nat) : outcome nat :=
  count_loop (S slot) tree slot 0.

(** [checked_ilog2().map_or(0, |log| 1 << log)] of the number of slots. *)
Definition first_step (len : nat) : nat :=
  match len with 0 => 0 | S _ => 2 ^ Nat.log2 len end.
(** [step >>= 1] until it is zero. *)
Fixpoint nth_loop (fuel : nat) (tree : list nat) (slot rest step : nat) : outcome nat :=
  match fuel with
  | 0 => Panic PFuel
  | S fuel' =>
      if 0 <? step then
        if slot + step <? length tree then
          a ← get_at tree (slot + step);
          if a <=? rest then nth_loop fuel' tree (slot + step) (rest - a) (step / 2)
          else nth_loop fuel' tree slot rest (step / 2)
        else nth_loop fuel' tree slot rest (step / 2)
      else Done slot
  end.
Definition nth (tree : list nat) (n : nat) : outcome nat :=
  nth_loop (S (length tree)) tree 0 n (first_step (length tree - 1)).

(** * Lowest bits *)

Lemma lowest_bit_odd n : 0 < n -> exists k m, lowest_bit n = 2 ^ k /\ n = 2 ^ k * (2 * m + 1).
Proof.
  intros Hn. unfold lowest_bit. destruct (N.of_nat n) as [|p] eqn:E; [lia|].
  exists (trailing_zeros p).
  assert (n = Pos.to_nat p) as -> by lia. clear E Hn.
  induction p as [p _|p [m [_ IH]]|]; simpl trailing_zeros.
  - exists (Pos.to_nat p). rewrite Pos2Nat.inj_xI. simpl. lia.
  - exists m. split; [done|]. rewrite Pos2Nat.inj_xO, IH at 1. simpl. lia.
  - by exists 0.
Qed.
Lemma pow2_pos k : 0 < 2 ^ k.
Proof. induction k; simpl; lia. Qed.
Lemma lowest_bit_bounds n : 0 < n -> 0 < lowest_bit n <= n.
Proof.
  intros H. destruct (lowest_bit_odd n H) as (k & m & -> & Hn). pose proof (pow2_pos k). nia.
Qed.
(** The lowest bit is the largest power of two that divides the number. *)
Lemma lowest_bit_divides n : 0 < n -> Nat.divide (lowest_bit n) n.
Proof. intros H. destruct (lowest_bit_odd n H) as (k & m & -> & Hn). exists (2 * m + 1). lia. Qed.
Lemma pow2_divide j k : j <= k -> Nat.divide (2 ^ j) (2 ^ k).
Proof. intros H. exists (2 ^ (k - j)). rewrite <- Nat.pow_add_r. f_equal. lia. Qed.
Lemma lowest_bit_greatest n k : 0 < n -> Nat.divide (2 ^ k) n -> 2 ^ k <= lowest_bit n.
Proof.
  intros H [c Hc]. destruct (lowest_bit_odd n H) as (j & m & -> & Hn).
  destruct (Nat.le_gt_cases k j) as [Hkj|Hkj]; [by apply Nat.pow_le_mono_r|exfalso].
  destruct (pow2_divide (S j) k Hkj) as [d Hd]. rewrite Hd in Hc. simpl in Hc.
  pose proof (pow2_pos j). assert (2 * m + 1 = c * d * 2) by nia. lia.
Qed.
Lemma lowest_bit_unique n k m : n = 2 ^ k * (2 * m + 1) -> lowest_bit n = 2 ^ k.
Proof.
  intros Hn. pose proof (pow2_pos k). assert (0 < n) by nia.
  destruct (lowest_bit_odd n) as (j & m' & Hl & Hn'); [done|].
  assert (2 ^ k <= lowest_bit n) as H1.
  { apply lowest_bit_greatest; [done|]. exists (2 * m + 1). lia. }
  rewrite Hl in *. destruct (Nat.le_gt_cases j k) as [?|Hkj].
  - apply Nat.le_antisymm; [by apply Nat.pow_le_mono_r|done].
  - exfalso. destruct (pow2_divide (S k) j Hkj) as [d Hd]. rewrite Hd in Hn'. simpl in Hn'.
    assert (2 * m + 1 = d * (2 * m' + 1) * 2) by nia. lia.
Qed.

(** Between a node and its parent, no range reaches below the node. *)
Lemma range_below n i : 0 < n -> n < i < n + lowest_bit n -> n <= i - lowest_bit i.
Proof.
  intros Hn Hi. destruct (lowest_bit_odd n Hn) as (k & m & Hk & Hnk).
  destruct (lowest_bit_odd i ltac:(lia)) as (j & b & Hj & Hib).
  rewrite Hk in Hi. rewrite Hj.
  destruct (Nat.le_gt_cases k j) as [Hkj|Hkj].
  - exfalso. destruct (pow2_divide k j Hkj) as [d Hd]. rewrite Hd in Hib.
    pose proof (pow2_pos k). assert (i - n = 2 ^ k * (d * (2 * b + 1) - (2 * m + 1))) by nia.
    destruct (d * (2 * b + 1) - (2 * m + 1)); nia.
  - destruct (pow2_divide j k ltac:(lia)) as [d Hd]. rewrite Hd in Hnk.
    pose proof (pow2_pos j).
    assert (i - n = 2 ^ j * ((2 * b + 1) - d * (2 * m + 1))) by nia.
    destruct ((2 * b + 1) - d * (2 * m + 1)); nia.
Qed.
Lemma parent_lowest_bit n : 0 < n -> 2 * lowest_bit n <= lowest_bit (n + lowest_bit n).
Proof.
  intros Hn. destruct (lowest_bit_odd n Hn) as (k & m & Hk & Hnk). rewrite Hk.
  change (2 * 2 ^ k) with (2 ^ S k). apply lowest_bit_greatest; [lia|].
  exists (m + 1). simpl. nia.
Qed.

(** * Sums of marks *)

(** The marks of the [n] slots from [a]. *)
Definition range_sum (m : nat -> nat) (a n : nat) : nat := list_sum (m <$> seq a n).

Lemma range_sum_app m a n1 n2 : range_sum m a (n1 + n2) = range_sum m a n1 + range_sum m (a + n1) n2.
Proof. unfold range_sum. by rewrite seq_app, fmap_app, list_sum_app. Qed.
Lemma range_sum_S m a n : range_sum m a (S n) = range_sum m a n + m (a + n).
Proof. replace (S n) with (n + 1) by lia. rewrite range_sum_app. unfold range_sum. simpl. lia. Qed.
Lemma range_sum_ext m m' a n :
  (forall i, a <= i < a + n -> m i = m' i) -> range_sum m a n = range_sum m' a n.
Proof. induction n as [|n IH]; intros H; [done|]. rewrite !range_sum_S, IH, H; auto with lia. Qed.
Lemma range_sum_const c a n : range_sum (fun _ => c) a n = n * c.
Proof. induction n as [|n IH]; [done|]. rewrite range_sum_S, IH. lia. Qed.

(** The marks with one slot changed. *)
Definition mark (m : nat -> nat) (slot x : nat) : nat -> nat :=
  fun i => if i =? slot then x else m i.

Lemma range_sum_mark_out m slot x a n :
  ~ (a <= slot < a + n) -> range_sum (mark m slot x) a n = range_sum m a n.
Proof.
  intros H. apply range_sum_ext. intros i Hi. unfold mark.
  destruct (Nat.eqb_spec i slot); [lia|done].
Qed.
Lemma range_sum_mark_in m slot x a n :
  a <= slot < a + n -> range_sum (mark m slot x) a n + m slot = range_sum m a n + x.
Proof.
  induction n as [|n IH]; intros H; [lia|]. rewrite !range_sum_S.
  destruct (Nat.eq_dec slot (a + n)) as [->|?].
  - rewrite range_sum_mark_out by lia. unfold mark at 1. rewrite Nat.eqb_refl. lia.
  - unfold mark at 2. destruct (Nat.eqb_spec (a + n) slot); [lia|]. specialize (IH ltac:(lia)). lia.
Qed.

(** * What a tree stands for *)

(** Node [i] holds the marks of the slots of its range. *)
Definition node_sum (m : nat -> nat) (i : nat) : nat :=
  range_sum m (i - lowest_bit i) (lowest_bit i).
Definition stands (m : nat -> nat) (len : nat) (tree : list nat) : Prop :=
  length tree = len + 1 /\ forall i, 1 <= i <= len -> tree !! i = Some (node_sum m i).

Lemma prefix_node m i : 0 < i -> range_sum m 0 i = range_sum m 0 (i - lowest_bit i) + node_sum m i.
Proof.
  intros H. pose proof (lowest_bit_bounds i H). unfold node_sum.
  rewrite <- range_sum_app. f_equal. lia.
Qed.

Lemma zeros_marks len : stands (fun _ => 0) len (zeros len).
Proof.
  split; [apply length_replicate|]. intros i Hi. unfold zeros, node_sum.
  rewrite lookup_replicate_2 by lia. by rewrite range_sum_const, Nat.mul_0_r.
Qed.

(** ** Updates *)

Section Update.
Context (len : nat) (m : nat -> nat) (slot x : nat).

(** A node covers the slot; the nodes below it are up to date. *)
Definition updated_below (node : nat) (tree : list nat) : Prop :=
  length tree = len + 1 /\
  forall i, 1 <= i <= len ->
    tree !! i = Some (if i <? node then node_sum (mark m slot x) i else node_sum m i).
Definition covers (node : nat) : Prop := node - lowest_bit node <= slot < node.

Lemma covers_first : covers (slot + 1).
Proof. pose proof (lowest_bit_bounds (slot + 1) ltac:(lia)). unfold covers. lia. Qed.
Lemma covers_parent node : covers node -> covers (node + lowest_bit node).
Proof.
  intros [? ?]. pose proof (lowest_bit_bounds node ltac:(lia)).
  pose proof (parent_lowest_bit node ltac:(lia)). unfold covers. lia.
Qed.
Lemma covers_node node : covers node -> node_sum (mark m slot x) node + m slot = node_sum m node + x.
Proof.
  intros [? ?]. pose proof (lowest_bit_bounds node ltac:(lia)).
  apply range_sum_mark_in. lia.
Qed.
Lemma update_node node tree :
  covers node -> node <= len -> updated_below node tree ->
  updated_below (node + lowest_bit node) (<[node := node_sum (mark m slot x) node]> tree).
Proof.
  intros Hc Hn [Hl Ht]. pose proof (lowest_bit_bounds node ltac:(destruct Hc; lia)).
  split; [by rewrite length_insert|]. intros i Hi.
  destruct (Nat.eq_dec i node) as [->|Hne].
  - rewrite list_lookup_insert_eq by lia. destruct (Nat.ltb_spec node (node + lowest_bit node)); [done|lia].
  - rewrite list_lookup_insert_ne, Ht by done. f_equal.
    destruct (Nat.ltb_spec i node), (Nat.ltb_spec i (node + lowest_bit node)); try done; [lia|].
    symmetry. apply range_sum_mark_out. pose proof (range_below node i). destruct Hc. lia.
Qed.
Lemma update_start tree : stands m len tree -> updated_below (slot + 1) tree.
Proof.
  intros [Hl Ht]. split; [done|]. intros i Hi. rewrite Ht by done. f_equal.
  destruct (Nat.ltb_spec i (slot + 1)); [|done].
  symmetry. apply range_sum_mark_out. pose proof (lowest_bit_bounds i). lia.
Qed.
Lemma update_end node tree : len < node -> updated_below node tree -> stands (mark m slot x) len tree.
Proof.
  intros Hn [Hl Ht]. split; [done|]. intros i Hi. rewrite Ht by done.
  destruct (Nat.ltb_spec i node); [done|lia].
Qed.
Lemma update_lookup node tree :
  covers node -> node <= len -> updated_below node tree -> tree !! node = Some (node_sum m node).
Proof. intros [? ?] ? [_ Ht]. rewrite Ht by lia. by rewrite (proj2 (Nat.ltb_ge node node)). Qed.
End Update.

Lemma add_loop_marks len m slot fuel tree node :
  covers slot node -> len < node + fuel -> updated_below len m slot (m slot + 1) node tree ->
  exists tree', add_loop (S fuel) tree node = Done tree' /\ stands (mark m slot (m slot + 1)) len tree'.
Proof.
  revert tree node. induction fuel as [|fuel IH]; intros tree node Hc Hf Ht; cbn [add_loop];
    rewrite (proj1 Ht); destruct (Nat.ltb_spec node (len + 1)); try lia;
    try (eexists; split; [done|]; eapply update_end; [|done]; lia).
  rewrite (get_at_Done _ _ (node_sum m node)) by (eapply update_lookup; [done| |done]; lia). bind_done.
  rewrite set_at_Done by (rewrite (proj1 Ht); lia). bind_done.
  pose proof (lowest_bit_bounds node ltac:(destruct Hc; lia)).
  apply (IH _ (node + lowest_bit node)); [by apply covers_parent|lia|].
  pose proof (covers_node m slot (m slot + 1) node Hc).
  replace (node_sum m node + 1) with (node_sum (mark m slot (m slot + 1)) node) by lia.
  apply update_node; [done|lia|done].
Qed.
Lemma add_marks len m slot tree :
  stands m len tree ->
  exists tree', add tree slot = Done tree' /\ stands (mark m slot (m slot + 1)) len tree'.
Proof.
  intros Ht. unfold add. rewrite (proj1 Ht).
  eapply add_loop_marks; [apply covers_first|lia|by apply update_start].
Qed.

Lemma remove_loop_marks len m slot fuel tree node :
  0 < m slot -> covers slot node -> len < node + fuel ->
  updated_below len m slot (m slot - 1) node tree ->
  exists tree', remove_loop (S fuel) tree node = Done tree' /\ stands (mark m slot (m slot - 1)) len tree'.
Proof.
  intros Hm. revert tree node. induction fuel as [|fuel IH]; intros tree node Hc Hf Ht;
    cbn [remove_loop];
    rewrite (proj1 Ht); destruct (Nat.ltb_spec node (len + 1)); try lia;
    try (eexists; split; [done|]; eapply update_end; [|done]; lia).
  rewrite (get_at_Done _ _ (node_sum m node)) by (eapply update_lookup; [done| |done]; lia). bind_done.
  pose proof (covers_node m slot (m slot - 1) node Hc).
  destruct (node_sum m node) as [|a] eqn:Ea; [lia|]. cbn [checked_pred mbind outcome_bind].
  rewrite set_at_Done by (rewrite (proj1 Ht); lia). bind_done.
  pose proof (lowest_bit_bounds node ltac:(destruct Hc; lia)).
  apply (IH _ (node + lowest_bit node)); [by apply covers_parent|lia|].
  replace a with (node_sum (mark m slot (m slot - 1)) node) by lia.
  apply update_node; [done|lia|done].
Qed.
Lemma remove_marks len m slot tree :
  0 < m slot -> stands m len tree ->
  exists tree', remove tree slot = Done tree' /\ stands (mark m slot (m slot - 1)) len tree'.
Proof.
  intros Hm Ht. unfold remove. rewrite (proj1 Ht).
  eapply remove_loop_marks; [done|apply covers_first|lia|by apply update_start].
Qed.

(** ** Counting *)

Lemma count_loop_marks len m tree fuel node count :
  stands m len tree -> node <= len -> node < fuel ->
  count_loop fuel tree node count = Done (count + range_sum m 0 node).
Proof.
  intros Ht. revert node count. induction fuel as [|fuel IH]; intros node count Hn Hf; [lia|].
  cbn [count_loop]. destruct (Nat.ltb_spec 0 node).
  - rewrite (get_at_Done _ _ (node_sum m node)) by (apply Ht; lia). bind_done.
    pose proof (lowest_bit_bounds node ltac:(lia)). rewrite IH by lia.
    rewrite (prefix_node m node) by lia. f_equal. lia.
  - replace node with 0 by lia. f_equal. unfold range_sum. simpl. lia.
Qed.
Lemma count_marks len m tree slot :
  stands m len tree -> slot <= len -> count_before tree slot = Done (range_sum m 0 slot).
Proof. intros. unfold count_before. rewrite (count_loop_marks len m); auto with lia. Qed.

(** ** Finding the nth mark *)

Definition half_pow (k : nat) : nat := match k with 0 => 0 | S k' => 2 ^ k' end.
Lemma half_pow_half k : 2 ^ k / 2 = half_pow k.
Proof.
  destruct k as [|k]; [done|]. cbn [half_pow]. rewrite Nat.pow_succ_r', Nat.mul_comm.
  by apply Nat.div_mul.
Qed.
Lemma half_node m k slot :
  Nat.divide (2 ^ S k) slot -> node_sum m (slot + 2 ^ k) = range_sum m slot (2 ^ k).
Proof.
  intros [c Hc]. unfold node_sum.
  rewrite (lowest_bit_unique (slot + 2 ^ k) k c) by (simpl in Hc; lia).
  f_equal. lia.
Qed.

(** The descent keeps a slot whose prefix holds at most [n] marks, while the
    prefix one step further holds more. *)
Lemma nth_loop_marks len m tree n k slot fuel :
  stands m len tree -> Nat.divide (2 ^ k) slot -> slot <= len -> k < fuel ->
  range_sum m 0 slot <= n ->
  (slot + 2 ^ k <= len -> n < range_sum m 0 (slot + 2 ^ k)) ->
  exists slot', nth_loop fuel tree slot (n - range_sum m 0 slot) (half_pow k) = Done slot' /\
    slot' <= len /\ range_sum m 0 slot' <= n /\ (slot' < len -> n < range_sum m 0 (S slot')).
Proof.
  intros Ht. revert slot fuel. induction k as [|k IH]; intros slot fuel Hd Hs Hf Hlo Hhi;
    (destruct fuel as [|fuel]; [lia|]); cbn [nth_loop half_pow].
  { exists slot. repeat split; try done. intros. rewrite <- Nat.add_1_r. apply Hhi. simpl. lia. }
  pose proof (pow2_pos k) as Hp. destruct (Nat.ltb_spec 0 (2 ^ k)); [|lia].
  rewrite half_pow_half, (proj1 Ht).
  assert (Nat.divide (2 ^ k) slot) as Hd'.
  { etransitivity; [|exact Hd]. apply pow2_divide. lia. }
  destruct (Nat.ltb_spec (slot + 2 ^ k) (len + 1)); [|apply IH; auto with lia].
  rewrite (get_at_Done _ _ (node_sum m (slot + 2 ^ k))) by (apply Ht; lia). bind_done.
  rewrite half_node by done.
  pose proof (range_sum_app m 0 slot (2 ^ k)) as Hsum. simpl in Hsum.
  destruct (Nat.leb_spec (range_sum m slot (2 ^ k)) (n - range_sum m 0 slot)).
  - replace (n - range_sum m 0 slot - range_sum m slot (2 ^ k))
      with (n - range_sum m 0 (slot + 2 ^ k)) by lia.
    apply IH; [|lia|lia|lia|].
    + apply Nat.divide_add_r; [done|reflexivity].
    + intros. replace (slot + 2 ^ k + 2 ^ k) with (slot + 2 ^ S k) in * by (simpl; lia). auto.
  - apply IH; auto with lia.
Qed.
(** [nth] finds the slot at which the count of marks passes [n]. *)
Lemma nth_marks len m tree n :
  stands m len tree -> n < range_sum m 0 len ->
  exists slot, nth tree n = Done slot /\ slot < len /\
    range_sum m 0 slot <= n < range_sum m 0 (S slot).
Proof.
  intros Ht Hn. unfold nth. rewrite (proj1 Ht).
  destruct len as [|len]; [unfold range_sum in Hn; simpl in Hn; lia|].
  replace (S len + 1 - 1) with (S len) by lia. cbn [first_step].
  pose proof (Nat.log2_spec (S len) ltac:(lia)) as [_ Hlog].
  destruct (nth_loop_marks (S len) m tree n (S (Nat.log2 (S len))) 0 (S (S len + 1)))
    as (slot & Hr & Hs & Hlo & Hhi); try done.
  - apply Nat.divide_0_r.
  - lia.
  - pose proof (Nat.log2_lt_lin (S len)). lia.
  - unfold range_sum. simpl. lia.
  - simpl. simpl in Hlog. lia.
  - change (range_sum m 0 0) with 0 in Hr. rewrite Nat.sub_0_r in Hr. cbn [half_pow] in Hr.
    exists slot. repeat split; [done| |done|].
    + destruct (Nat.eq_dec slot (S len)) as [->|]; lia.
    + apply Hhi. destruct (Nat.eq_dec slot (S len)) as [->|]; lia.
Qed.

(** ** Building a full tree *)

(** What the nodes up to [n] have handed to node [i]: its children are the
    nodes a smaller power of two below it. *)
Fixpoint handed (k i n : nat) : nat :=
  match k with
  | 0 => 0
  | S t => handed t i n + (if i - 2 ^ t <=? n then 2 ^ t else 0)
  end.
Lemma handed_all k i n : i <= S n -> handed k i n = 2 ^ k - 1.
Proof.
  intros H. induction k as [|t IH]; [done|]. cbn [handed]. rewrite IH.
  pose proof (pow2_pos t). destruct (Nat.leb_spec (i - 2 ^ t) n); simpl; lia.
Qed.
Lemma handed_none k i n : n + 2 ^ k <= i -> handed k i n = 0.
Proof.
  induction k as [|t IH]; [done|]. intros H. cbn [handed]. simpl in H. pose proof (pow2_pos t).
  rewrite IH by lia. destruct (Nat.leb_spec (i - 2 ^ t) n); lia.
Qed.
(** One more node hands its range to its parent and to no other. *)
Lemma handed_other k i n :
  (forall t, t < k -> S n + 2 ^ t <> i) -> 2 ^ k <= i -> handed k i (S n) = handed k i n.
Proof.
  induction k as [|t IH]; intros H Hk; [done|]. cbn [handed]. simpl in Hk. rewrite IH by (auto with lia).
  pose proof (H t ltac:(lia)).
  destruct (Nat.leb_spec (i - 2 ^ t) (S n)), (Nat.leb_spec (i - 2 ^ t) n); lia.
Qed.
Lemma handed_child k i n t :
  t < k -> S n + 2 ^ t = i -> 2 ^ k <= i -> handed k i (S n) = handed k i n + 2 ^ t.
Proof.
  intros Ht Hi. induction k as [|k IH]; intros Hk; [lia|]. cbn [handed]. simpl in Hk.
  destruct (Nat.eq_dec t k) as [->|].
  - rewrite handed_other by
      (first [lia | intros u Hu; pose proof (Nat.pow_lt_mono_r 2 u k ltac:(lia) Hu); lia]).
    destruct (Nat.leb_spec (i - 2 ^ k) (S n)), (Nat.leb_spec (i - 2 ^ k) n); lia.
  - rewrite IH by lia. pose proof (Nat.pow_lt_mono_r 2 t k).
    destruct (Nat.leb_spec (i - 2 ^ k) (S n)), (Nat.leb_spec (i - 2 ^ k) n); lia.
Qed.

Definition bit_log (i : nat) : nat := Nat.log2 (lowest_bit i).
Lemma bit_log_pow i : 0 < i -> lowest_bit i = 2 ^ bit_log i.
Proof.
  intros H. unfold bit_log. destruct (lowest_bit_odd i H) as (k & m & -> & _).
  by rewrite Nat.log2_pow2 by lia.
Qed.
(** The children of a node are the nodes a smaller power of two below it. *)
Lemma child_iff n i :
  0 < n -> 0 < i -> n + lowest_bit n = i <-> exists t, t < bit_log i /\ n + 2 ^ t = i.
Proof.
  intros Hn Hi. split.
  - intros <-. exists (bit_log n). rewrite <- bit_log_pow by done. split; [|done].
    pose proof (parent_lowest_bit n Hn) as H.
    apply (Nat.pow_lt_mono_r_iff 2); [lia|]. rewrite <- !bit_log_pow by lia.
    pose proof (lowest_bit_bounds n). lia.
  - intros (t & Ht & <-). f_equal.
    destruct (pow2_divide (S t) (bit_log (n + 2 ^ t)) Ht) as [d Hd].
    pose proof (lowest_bit_divides (n + 2 ^ t) ltac:(lia)) as [c Hc].
    rewrite bit_log_pow, Hd in Hc by lia. pose proof (pow2_pos t). simpl in Hc.
    assert (n + 2 ^ t = 2 ^ t * (2 * (c * d))) as Hn2 by nia.
    apply (lowest_bit_unique n t (c * d - 1)). destruct (c * d) as [|e]; nia.
Qed.

Definition ones_upto (len n : nat) (tree : list nat) : Prop :=
  length tree = len + 1 /\
  forall i, 1 <= i <= len -> tree !! i = Some (1 + handed (bit_log i) i n).

Lemma ones_step_marks len n tree :
  S n <= len -> ones_upto len n tree ->
  exists tree', ones_step len tree (S n) = Done tree' /\ ones_upto len (S n) tree'.
Proof.
  intros Hn [Hl Ht]. unfold ones_step.
  set (p := S n + lowest_bit (S n)). pose proof (lowest_bit_bounds (S n) ltac:(lia)) as Hb.
  assert (forall i, 1 <= i -> i <> p -> handed (bit_log i) i (S n) = handed (bit_log i) i n) as Hother.
  { intros i Hi Hne. apply handed_other.
    - intros t Htk Heq. apply Hne. symmetry. apply child_iff; [lia|lia|]. by exists t.
    - rewrite <- bit_log_pow by lia. by apply lowest_bit_bounds. }
  destruct (Nat.leb_spec p len) as [Hp|Hp].
  2:{ eexists. split; [done|]. split; [done|]. intros i Hi. rewrite Hother by lia. auto. }
  rewrite (get_at_Done _ _ _ (Ht p ltac:(lia))). bind_done.
  rewrite (get_at_Done _ _ _ (Ht (S n) ltac:(lia))). bind_done.
  rewrite set_at_Done by lia. eexists. split; [done|].
  split; [by rewrite length_insert|]. intros i Hi.
  destruct (Nat.eq_dec i p) as [->|Hne];
    [|by rewrite list_lookup_insert_ne, Ht, Hother by (done || lia)].
  rewrite list_lookup_insert_eq by lia. f_equal.
  rewrite (handed_all _ (S n)), <- bit_log_pow by lia.
  destruct (proj1 (child_iff (S n) p ltac:(lia) ltac:(lia)) eq_refl) as (t & Htk & Heq).
  rewrite (handed_child _ p n t Htk Heq) by (rewrite <- bit_log_pow by lia; apply lowest_bit_bounds; lia).
  lia.
Qed.
Lemma ones_loop_marks len n k tree :
  n + k = len -> ones_upto len n tree ->
  exists tree', ones_loop len (seq (S n) k) tree = Done tree' /\ ones_upto len len tree'.
Proof.
  revert n tree. induction k as [|k IH]; intros n tree Hk Ht; cbn [seq ones_loop].
  - exists tree. split; [done|]. by replace len with n at 2 by lia.
  - destruct (ones_step_marks len n tree ltac:(lia) Ht) as (tree' & -> & Ht').
    bind_done. apply (IH (S n)); [lia|done].
Qed.
Lemma ones_marks len :
  exists tree, ones len = Done tree /\ stands (fun _ => 1) len tree.
Proof.
  destruct (ones_loop_marks len 0 len (<[0 := 0]> (replicate (len + 1) 1))) as (tree & Hr & Hl & Ht).
  - lia.
  - split; [by rewrite length_insert, length_replicate|]. intros i Hi.
    rewrite list_lookup_insert_ne, lookup_replicate_2 by lia.
    rewrite handed_none; [done|]. rewrite <- bit_log_pow by lia. apply lowest_bit_bounds. lia.
  - exists tree. split; [done|]. split; [done|]. intros i Hi. rewrite Ht by done. f_equal.
    rewrite handed_all, <- bit_log_pow by lia. unfold node_sum. rewrite range_sum_const.
    pose proof (lowest_bit_bounds i). lia.
Qed.
End Fenwick.
