(* ===== verification/BubbleSort.v ===== *)
(** * Bubble sort and inversion tables

    The reference the schedule permutations are compared with: a bubble sort
    that makes its swaps one at a time, and what a swap and a whole pass do to
    the table that counts the larger values before each value. *)
From Stdlib Require Import ZArith Lia List Sorting.Sorted.
From stdpp Require Import base gmap list sorting.
From S2P Require Import Prelude.
Open Scope nat_scope.

Module BubbleSort.

(** One pass carries the largest value seen so far to the right, swapping it
    with each smaller value, and stops after [k] swaps; it returns the swaps
    that are left. *)
Fixpoint carry (k x : nat) (l : list nat) : list nat * nat :=
  match l with
  | [] => ([x], k)
  | y :: r =>
      if y <? x then
        match k with
        | 0 => (x :: y :: r, 0)
        | S k' => let '(t, rest) := carry k' x r in (y :: t, rest)
        end
      else let '(t, rest) := carry k y r in (x :: t, rest)
  end.
Definition pass (k : nat) (l : list nat) : list nat * nat :=
  match l with [] => ([], k) | x :: r => carry k x r end.
(** At most [n] passes and [k] swaps. *)
Fixpoint passes (n k : nat) (l : list nat) : list nat :=
  match n with 0 => l | S n' => let '(l', k') := pass k l in passes n' k' l' end.
(** The state of the bubble sort of [l] after its first [k] swaps. *)
Definition bubble (k : nat) (l : list nat) : list nat := passes (length l) k l.

(** Two adjacent values, the larger first, change places. *)
Inductive adjacent_swap : list nat -> list nat -> Prop :=
  | adjacent_swap_intro pre x y post :
      y < x -> adjacent_swap (pre ++ x :: y :: post) (pre ++ y :: x :: post).

(** How many of [seen] are larger than [v], and each value of a list with its
    count of larger values before it. *)
Definition larger (v : nat) (seen : list nat) : nat :=
  length (List.filter (fun u => v <? u) seen).
Fixpoint table (seen l : list nat) : list (nat * nat) :=
  match l with [] => [] | v :: r => (v, larger v seen) :: table (v :: seen) r end.
Definition inversions (l : list nat) : nat := list_sum (snd <$> table [] l).
(** The values that have a larger one before them: a pass moves each of them. *)
Definition positives (t : list (nat * nat)) : nat :=
  length (List.filter (fun e => 0 <? e.2) t).

(** A whole pass. *)
Fixpoint sweep (x : nat) (l : list nat) : list nat :=
  match l with
  | [] => [x]
  | y :: r => if y <? x then y :: sweep x r else x :: sweep y r
  end.
Definition full_pass (l : list nat) : list nat :=
  match l with [] => [] | x :: r => sweep x r end.

(** ** The table *)

Lemma List_filter_perm {A} (f : A -> bool) l l' : l ≡ₚ l' -> List.filter f l ≡ₚ List.filter f l'.
Proof.
  induction 1 as [|x l l' _ IH|x y l|]; simpl; [done| | |by etrans].
  - destruct (f x); by rewrite IH.
  - destruct (f x), (f y); by (reflexivity || constructor).
Qed.
Lemma larger_perm v l l' : l ≡ₚ l' -> larger v l = larger v l'.
Proof. intros H. unfold larger. by rewrite (List_filter_perm _ _ _ H). Qed.
Lemma larger_app v l l' : larger v (l ++ l') = larger v l + larger v l'.
Proof. unfold larger. by rewrite List.filter_app, length_app. Qed.
Lemma larger_cons v u l : larger v (u :: l) = (if v <? u then 1 else 0) + larger v l.
Proof. unfold larger. simpl. by destruct (v <? u). Qed.
Lemma larger_none v l : Forall (fun u => u <= v) l -> larger v l = 0.
Proof.
  induction 1 as [|u l Hu _ IH]; [done|]. rewrite larger_cons, IH.
  destruct (Nat.ltb_spec v u); lia.
Qed.
Lemma below_weaken s x y : Forall (fun u => u < x) s -> x <= y -> Forall (fun u => u < y) s.
Proof. rewrite !Forall_forall. intros H ? u Hu. pose proof (H u Hu). lia. Qed.
Lemma larger_below x y s : Forall (fun u => u < x) s -> x <= y -> larger y s = 0.
Proof.
  intros H Hxy. apply larger_none. rewrite Forall_forall in *. intros u Hu. pose proof (H u Hu). lia.
Qed.
Lemma larger_le v l : larger v l <= length l.
Proof. unfold larger. apply List.filter_length_le. Qed.

Lemma table_perm s s' l : s ≡ₚ s' -> table s l = table s' l.
Proof.
  revert s s'. induction l as [|v l IH]; intros s s' H; simpl; [done|].
  rewrite (larger_perm v _ _ H). f_equal. apply IH. by rewrite H.
Qed.
Lemma table_app s l1 l2 : table s (l1 ++ l2) = table s l1 ++ table (rev l1 ++ s) l2.
Proof.
  revert s. induction l1 as [|v l1 IH]; intros s; simpl; [done|].
  rewrite IH. by rewrite <- (assoc_L (++)).
Qed.
Lemma table_fst s l : fst <$> table s l = l.
Proof. revert s. induction l as [|v l IH]; intros s; simpl; [done|]. by rewrite IH. Qed.
Lemma table_elem s l v n :
  (v, n) ∈ table s l <-> exists pre post, l = pre ++ v :: post /\ n = larger v (rev pre ++ s).
Proof.
  revert s. induction l as [|u l IH]; intros s; simpl.
  - rewrite elem_of_nil. split; [done|]. intros ([|??] & ? & ? & _); done.
  - rewrite elem_of_cons, IH. split.
    + intros [[= -> ->]|(pre & post & -> & ->)]; [by exists [], l|].
      exists (u :: pre), post. simpl. by rewrite <- (assoc_L (++)).
    + intros ([|u' pre] & post & [= <- ->] & ->); [by left|].
      right. exists pre, post. simpl. by rewrite <- (assoc_L (++)).
Qed.
Lemma larger_rev v l : larger v (rev l) = larger v l.
Proof. apply larger_perm. symmetry. apply Permutation_rev. Qed.
Lemma table_elem_nil l v n :
  (v, n) ∈ table [] l <-> exists pre post, l = pre ++ v :: post /\ n = larger v pre.
Proof. rewrite table_elem. setoid_rewrite app_nil_r. by setoid_rewrite larger_rev. Qed.

(** ** A pass *)

Lemma sweep_perm x l : sweep x l ≡ₚ x :: l.
Proof.
  revert x. induction l as [|y l IH]; intros x; simpl; [done|].
  destruct (y <? x); rewrite IH; [apply perm_swap|done].
Qed.
Lemma full_pass_perm l : full_pass l ≡ₚ l.
Proof. destruct l; [done|]. apply sweep_perm. Qed.
Lemma carry_perm k x l : (carry k x l).1 ≡ₚ x :: l.
Proof.
  revert k x. induction l as [|y l IH]; intros k x; simpl; [done|].
  destruct (y <? x); [destruct k as [|k]; [done|]|].
  - specialize (IH k x). destruct (carry k x l). simpl in *. rewrite IH. apply perm_swap.
  - specialize (IH k y). destruct (carry k y l). simpl in *. by rewrite IH.
Qed.
Lemma pass_perm k l : (pass k l).1 ≡ₚ l.
Proof. destruct l; [done|]. apply carry_perm. Qed.
Lemma passes_perm n k l : passes n k l ≡ₚ l.
Proof.
  revert k l. induction n as [|n IH]; intros k l; simpl; [done|].
  pose proof (pass_perm k l). destruct (pass k l). simpl in *. by rewrite IH.
Qed.
Lemma bubble_perm k l : bubble k l ≡ₚ l.
Proof. apply passes_perm. Qed.

(** A pass lowers each nonzero entry of the table by one. *)
Lemma sweep_table x s l :
  Forall (fun u => u < x) s -> NoDup (x :: l) ->
  table s (sweep x l) ≡ₚ (x, 0) :: (prod_map id pred <$> table (x :: s) l).
Proof.
  revert x s. induction l as [|y l IH]; intros x s Hs Hl; simpl.
  { by rewrite (larger_below x x s). }
  apply NoDup_cons in Hl as [Hx Hl]. apply not_elem_of_cons in Hx as [Hne Hx].
  destruct (Nat.ltb_spec y x) as [Hlt|Hge]; cbn [table].
  - rewrite IH.
    + rewrite larger_cons, (proj2 (Nat.ltb_lt _ _) Hlt). simpl.
      rewrite (table_perm (x :: y :: s) (y :: x :: s)) by apply perm_swap. apply perm_swap.
    + by constructor.
    + apply NoDup_cons. split; [done|]. by apply NoDup_cons in Hl as [_ ?].
  - rewrite IH.
    + rewrite larger_cons, (larger_below x x s), (larger_below x y s) by (done || lia).
      destruct (Nat.ltb_spec y x); [lia|done].
    + constructor; [lia|]. apply (below_weaken s x); [done|lia].
    + done.
Qed.
Lemma full_pass_table l :
  NoDup l -> table [] (full_pass l) ≡ₚ prod_map id pred <$> table [] l.
Proof. destruct l as [|x l]; intros Hl; [done|]. by rewrite (sweep_table x [] l). Qed.

(** A pass makes one swap per positive entry of the table, or stops when its
    swaps are used up; with swaps enough it is whole. *)
Lemma carry_swaps k x s l :
  Forall (fun u => u < x) s -> NoDup (x :: l) ->
  (carry k x l).2 = k - positives (table (x :: s) l) /\
  (positives (table (x :: s) l) <= k -> (carry k x l).1 = sweep x l).
Proof.
  revert k x s. induction l as [|y l IH]; intros k x s Hs Hl; simpl.
  { split; [by rewrite Nat.sub_0_r|done]. }
  apply NoDup_cons in Hl as [Hx Hl]. apply not_elem_of_cons in Hx as [Hne Hx].
  unfold positives. cbn [List.filter snd].
  rewrite larger_cons. destruct (Nat.ltb_spec y x) as [Hlt|Hge].
  - simpl. destruct k as [|k]; [simpl; lia|].
    destruct (IH k x (y :: s)) as [H1 H2].
    + by constructor.
    + apply NoDup_cons. split; [done|]. by apply NoDup_cons in Hl as [_ ?].
    + rewrite (table_perm (x :: y :: s) (y :: x :: s)) in H1, H2 by apply perm_swap.
      unfold positives in H1, H2. destruct (carry k x l). simpl in *.
      split; [lia|]. intros. rewrite H2 by lia. done.
  - rewrite (larger_below x y s) by (done || lia). simpl.
    destruct (IH k y (x :: s)) as [H1 H2]; [|done|].
    + constructor; [lia|]. apply (below_weaken s x); [done|lia].
    + unfold positives in H1, H2. destruct (carry k y l). simpl in *. split; [done|].
      intros. by rewrite H2.
Qed.
Lemma pass_left k l : NoDup l -> (pass k l).2 = k - positives (table [] l).
Proof. destruct l as [|x l]; intros Hl; [unfold positives; simpl; lia|]. by apply carry_swaps. Qed.
Lemma pass_full k l :
  NoDup l -> positives (table [] l) <= k ->
  pass k l = (full_pass l, k - positives (table [] l)).
Proof.
  intros Hl Hk. pose proof (pass_left k l Hl) as H2. destruct (pass k l) as [l' k'] eqn:E.
  simpl in H2. subst k'. f_equal. destruct l as [|x l]; [by simplify_eq/=|].
  destruct (carry_swaps k x [] l) as [_ H]; [done|done|]. simpl in E. rewrite E in H. by apply H.
Qed.
Lemma carry_0 x l : carry 0 x l = (x :: l, 0).
Proof.
  revert x. induction l as [|y l IH]; intros x; simpl; [done|].
  destruct (y <? x); [done|]. by rewrite IH.
Qed.
Lemma pass_0 l : pass 0 l = (l, 0).
Proof. destruct l; [done|]. apply carry_0. Qed.
Lemma passes_0 n l : passes n 0 l = l.
Proof. induction n as [|n IH]; simpl; [done|]. by rewrite pass_0. Qed.

(** ** Several passes *)

Definition lower (p : nat) (e : nat * nat) : nat * nat := (e.1, e.2 - p).
Lemma iter_pass_perm p l : Nat.iter p full_pass l ≡ₚ l.
Proof. induction p as [|p IH]; simpl; [done|]. by rewrite full_pass_perm. Qed.
Lemma iter_pass_NoDup p l : NoDup l -> NoDup (Nat.iter p full_pass l).
Proof. by rewrite iter_pass_perm. Qed.
(** After [p] passes each entry of the table is lowered by [p]. *)
Lemma iter_pass_table p l :
  NoDup l -> table [] (Nat.iter p full_pass l) ≡ₚ lower p <$> table [] l.
Proof.
  intros Hl. induction p as [|p IH]; simpl.
  - apply reflexive_eq. rewrite <- (list_fmap_id (table [] l)) at 1.
    apply list_fmap_ext. intros _ [v n] _. unfold lower. simpl. by rewrite Nat.sub_0_r.
  - rewrite full_pass_table by (by apply iter_pass_NoDup). rewrite IH, <- list_fmap_compose.
    apply reflexive_eq, list_fmap_ext. intros _ [v n] _. unfold lower, prod_map. simpl. f_equal. lia.
Qed.
Lemma positives_perm t t' : t ≡ₚ t' -> positives t = positives t'.
Proof. intros H. unfold positives. by rewrite (List_filter_perm _ _ _ H). Qed.
(** The swaps of pass [p + 1]: the values with more than [p] larger ones before. *)
Definition deeper (p : nat) (l : list nat) : nat :=
  length (List.filter (fun e => p <? e.2) (table [] l)).
Lemma iter_pass_positives p l :
  NoDup l -> positives (table [] (Nat.iter p full_pass l)) = deeper p l.
Proof.
  intros Hl. rewrite (positives_perm _ _ (iter_pass_table p l Hl)). unfold positives, deeper.
  induction (table [] l) as [|[v n] t IH]; [done|].
  unfold lower in *. cbn -[Nat.ltb Nat.sub].
  destruct (Nat.ltb_spec 0 (n - p)), (Nat.ltb_spec p n); cbn -[Nat.ltb Nat.sub]; lia.
Qed.
(** [p] whole passes, then the rest. *)
Lemma passes_iter p n k l :
  NoDup l ->
  passes (p + n) (list_sum ((fun q => deeper q l) <$> seq 0 p) + k) l =
  passes n k (Nat.iter p full_pass l).
Proof.
  intros Hl. revert n k. induction p as [|p IH]; intros n k; [done|].
  rewrite seq_S, fmap_app, list_sum_app. simpl (0 + p).
  replace (S p + n) with (p + S n) by lia.
  replace (list_sum ((fun q => deeper q l) <$> seq 0 p) + list_sum ((fun q => deeper q l) <$> [p]) + k)
    with (list_sum ((fun q => deeper q l) <$> seq 0 p) + (deeper p l + k)) by (simpl; lia).
  rewrite IH. cbn [passes]. rewrite pass_full; rewrite ?iter_pass_positives by done.
  - f_equal. lia.
  - by apply iter_pass_NoDup.
  - lia.
Qed.

(** ** Swaps and inversions *)

Lemma inversions_swap pre x y post :
  y < x -> inversions (pre ++ x :: y :: post) = S (inversions (pre ++ y :: x :: post)).
Proof.
  intros H. unfold inversions. rewrite !table_app, !fmap_app, !list_sum_app. simpl.
  rewrite !larger_cons, (proj2 (Nat.ltb_lt y x) H).
  destruct (Nat.ltb_spec x y); [lia|]. simpl.
  rewrite (table_perm (y :: x :: _) (x :: y :: (rev pre ++ []))) by apply perm_swap. lia.
Qed.
Lemma adjacent_swap_inversions l l' : adjacent_swap l l' -> inversions l = S (inversions l').
Proof. intros []. by apply inversions_swap. Qed.
Lemma adjacent_swap_cons x l l' : adjacent_swap l l' -> adjacent_swap (x :: l) (x :: l').
Proof. intros [pre a b post H]. by apply (adjacent_swap_intro (x :: pre)). Qed.

Lemma sum_snd_0 (t : list (nat * nat)) : (forall e, e ∈ t -> e.2 = 0) -> list_sum (snd <$> t) = 0.
Proof.
  induction t as [|e t IH]; intros H; [done|]. change (e.2 + list_sum (snd <$> t) = 0).
  rewrite H, IH by (try (intros; apply H); by constructor). done.
Qed.
Lemma full_pass_inversions l :
  NoDup l -> inversions (full_pass l) + positives (table [] l) = inversions l.
Proof.
  intros Hl. unfold inversions. rewrite (full_pass_table l Hl), <- list_fmap_compose. unfold positives.
  induction (table [] l) as [|[v b] t IH]; [done|]. unfold list_sum, prod_map in *.
  cbn -[Nat.ltb Nat.pred] in *. destruct (Nat.ltb_spec 0 b); cbn -[Nat.ltb Nat.pred]; lia.
Qed.

(** The swap number [k + 1] of a pass. *)
Lemma carry_succ k x s l :
  Forall (fun u => u < x) s -> NoDup (x :: l) -> k < positives (table (x :: s) l) ->
  adjacent_swap (carry k x l).1 (carry (S k) x l).1.
Proof.
  revert k x s. induction l as [|y l IH]; intros k x s Hs Hl; simpl.
  { unfold positives. simpl. lia. }
  apply NoDup_cons in Hl as [Hx Hl]. apply not_elem_of_cons in Hx as [Hne Hx].
  unfold positives. cbn [List.filter snd].
  rewrite larger_cons. destruct (Nat.ltb_spec y x) as [Hlt|Hge].
  - simpl. intros Hk. destruct k as [|k].
    + rewrite carry_0. by apply (adjacent_swap_intro []).
    + apply NoDup_cons in Hl as [Hy Hl].
      specialize (IH k x (y :: s) ltac:(by constructor) ltac:(by apply NoDup_cons)).
      rewrite (table_perm (x :: y :: s) (y :: x :: s)) in IH by apply perm_swap.
      specialize (IH ltac:(unfold positives; lia)).
      destruct (carry k x l), (carry (S k) x l). simpl in *. by apply adjacent_swap_cons.
  - rewrite (larger_below x y s) by (done || lia). simpl. intros Hk.
    assert (Forall (fun u => u < y) (x :: s)) as Hs'.
    { constructor; [lia|]. apply (below_weaken s x); [done|lia]. }
    specialize (IH k y (x :: s) Hs' Hl Hk).
    destruct (carry k y l), (carry (S k) y l). simpl in *. by apply adjacent_swap_cons.
Qed.
(** With passes enough, each further swap is one adjacent swap. *)
Lemma passes_succ n k l :
  NoDup l -> (forall e, e ∈ table [] l -> e.2 <= n) -> k < inversions l ->
  adjacent_swap (passes n k l) (passes n (S k) l).
Proof.
  revert k l. induction n as [|n IH]; intros k l Hl Hn Hk.
  { unfold inversions in Hk. rewrite sum_snd_0 in Hk; [lia|]. intros e He. apply Hn in He. lia. }
  cbn [passes].
  destruct (Nat.le_gt_cases (positives (table [] l)) k) as [Hp|Hp].
  - rewrite !pass_full by (done || lia).
    rewrite Nat.sub_succ_l by done. apply IH.
    + by rewrite full_pass_perm.
    + intros e He. rewrite full_pass_table in He by done.
      apply list_elem_of_fmap in He as ([v b] & -> & He). apply Hn in He. simpl in *. lia.
    + pose proof (full_pass_inversions l Hl). lia.
  - pose proof (pass_left k l Hl). pose proof (pass_left (S k) l Hl).
    destruct l as [|x l]; [unfold positives in Hp; simpl in Hp; lia|].
    pose proof (carry_succ k x [] l ltac:(done) Hl Hp) as Hs. cbn [pass] in *.
    destruct (carry k x l) as [l1 k1], (carry (S k) x l) as [l2 k2]. simpl in *.
    replace k1 with 0 by lia. replace k2 with 0 by lia. by rewrite !passes_0.
Qed.

Lemma table_bound l e : e ∈ table [] l -> e.2 < length l.
Proof.
  destruct e as [v n]. intros (pre & post & -> & ->)%table_elem_nil. simpl.
  pose proof (larger_le v pre). rewrite length_app. simpl. lia.
Qed.
Lemma bubble_0 l : bubble 0 l = l.
Proof. apply passes_0. Qed.
(** Each state is one adjacent swap from the next. *)
Lemma bubble_succ k l : NoDup l -> k < inversions l -> adjacent_swap (bubble k l) (bubble (S k) l).
Proof. intros. apply passes_succ; [done| |done]. intros e He%table_bound. lia. Qed.
Lemma bubble_inversions k l :
  NoDup l -> k <= inversions l -> inversions (bubble k l) = inversions l - k.
Proof.
  intros Hl. induction k as [|k IH]; intros Hk; [rewrite bubble_0; lia|].
  pose proof (adjacent_swap_inversions _ _ (bubble_succ k l Hl ltac:(lia))).
  specialize (IH ltac:(lia)). lia.
Qed.
Lemma inversions_app_one l x : inversions (l ++ [x]) = inversions l + larger x l.
Proof.
  unfold inversions. rewrite table_app, fmap_app, list_sum_app. simpl.
  rewrite app_nil_r, larger_rev. lia.
Qed.
Lemma inversions_sorted l : inversions l = 0 -> StronglySorted le l.
Proof.
  induction l as [|x l IH] using rev_ind; intros H; [constructor|]. rewrite inversions_app_one in H.
  assert (forall a, a ∈ l -> a <= x) as Hle.
  { intros a Ha. apply Nat.le_ngt. intros Hax.
    apply list_elem_of_split in Ha as (l1 & l2 & ->).
    rewrite larger_app, larger_cons, (proj2 (Nat.ltb_lt _ _) Hax) in H. lia. }
  specialize (IH ltac:(lia)). clear H. induction IH as [|a l Hl IH' Ha]; simpl.
  { repeat constructor. }
  constructor.
  - apply IH'. intros b Hb. apply Hle. by constructor.
  - apply Forall_app. split; [done|]. constructor; [|done]. apply Hle. constructor.
Qed.
(** The last state is in order. *)
Lemma bubble_sorted l : NoDup l -> StronglySorted le (bubble (inversions l) l).
Proof. intros Hl. apply inversions_sorted. rewrite bubble_inversions by done. lia. Qed.

(** Any exchange of neighbours changes the inversions by one, so no shorter
    sequence of exchanges sorts the list. *)
Definition transpose (l l' : list nat) : Prop :=
  exists pre x y post, l = pre ++ x :: y :: post /\ l' = pre ++ y :: x :: post.
Lemma transpose_inversions l l' : transpose l l' -> inversions l <= S (inversions l').
Proof.
  intros (pre & x & y & post & -> & ->). destruct (Nat.lt_trichotomy x y) as [H|[->|H]].
  - rewrite (inversions_swap pre y x post H). lia.
  - lia.
  - by rewrite inversions_swap.
Qed.
Lemma sorted_inversions l : StronglySorted le l -> inversions l = 0.
Proof.
  intros Hl. unfold inversions. apply sum_snd_0. intros [v n] (pre & post & -> & ->)%table_elem_nil.
  simpl. apply larger_none. apply Forall_forall. intros u Hu.
  eapply (StronglySorted_app_1_elem_of le pre (v :: post)); [done|done|constructor].
Qed.
Lemma transpose_steps n l l' : nsteps transpose n l l' -> inversions l <= n + inversions l'.
Proof. induction 1 as [|n x y z Hxy _ IH]; [lia|]. apply transpose_inversions in Hxy. lia. Qed.
Lemma adjacent_swap_transpose l l' : adjacent_swap l l' -> transpose l l'.
Proof. intros [pre x y post _]. by exists pre, x, y, post. Qed.
Lemma bubble_steps k l : NoDup l -> k <= inversions l -> nsteps transpose k l (bubble k l).
Proof.
  intros Hl. induction k as [|k IH]; intros Hk; [rewrite bubble_0; constructor|].
  eapply nsteps_r; [apply IH; lia|]. apply adjacent_swap_transpose, bubble_succ; [done|lia].
Qed.

Lemma inversions_bound l : 2 * inversions l <= length l * (length l - 1).
Proof.
  induction l as [|x l IH] using rev_ind; [done|].
  rewrite inversions_app_one, length_app. simpl. pose proof (larger_le x l). nia.
Qed.

(** Whole passes and a part of the next. *)
Lemma bubble_split p k l :
  NoDup l -> p < length l -> k <= deeper p l ->
  bubble (list_sum ((fun q => deeper q l) <$> seq 0 p) + k) l =
  (pass k (Nat.iter p full_pass l)).1.
Proof.
  intros Hl Hp Hk. unfold bubble. replace (length l) with (p + S (length l - p - 1)) by lia.
  rewrite passes_iter by done. cbn [passes].
  pose proof (pass_left k _ (iter_pass_NoDup p l Hl)) as H. rewrite iter_pass_positives in H by done.
  destruct (pass _ _) as [l' k']. simpl in *. replace k' with 0 by lia. apply passes_0.
Qed.

(** ** A part already in place *)

(** Passes beyond those that sort the list change nothing. *)
Lemma passes_enough m n k l :
  NoDup l -> (forall e, e ∈ table [] l -> e.2 <= n) -> k <= inversions l ->
  passes (n + m) k l = passes n k l.
Proof.
  revert k l. induction n as [|n IH]; intros k l Hl Hn Hk.
  { unfold inversions in Hk. rewrite sum_snd_0 in Hk by (intros e He%Hn; lia).
    replace k with 0 by lia. by rewrite !passes_0. }
  cbn [passes Nat.add].
  destruct (Nat.le_gt_cases (positives (table [] l)) k) as [Hp|Hp].
  - rewrite pass_full by done. pose proof (full_pass_inversions l Hl). apply IH; [|  |lia].
    + by rewrite full_pass_perm.
    + intros e He. rewrite full_pass_table in He by done.
      apply list_elem_of_fmap in He as ([v b] & -> & He). apply Hn in He. simpl in *. lia.
  - pose proof (pass_left k l Hl). destruct (pass k l) as [l' k']. simpl in *.
    replace k' with 0 by lia. by rewrite !passes_0.
Qed.

Lemma carry_frame_post k x l post :
  (forall u v, u ∈ x :: l -> v ∈ post -> u < v) -> StronglySorted le post ->
  carry k x (l ++ post) = ((carry k x l).1 ++ post, (carry k x l).2).
Proof.
  revert k x. induction l as [|y l IH]; intros k x Hb Hp; simpl.
  - destruct post as [|z post]; [done|]. simpl.
    destruct (Nat.ltb_spec z x) as [Hzx|_]; [pose proof (Hb x z); set_solver by lia|].
    assert (carry k z post = (z :: post, k)) as ->; [|done]. clear Hb.
    apply StronglySorted_cons in Hp as [Hz Hp]. revert z Hz.
    induction Hp as [|w post Hp IH Hw]; intros z Hz; simpl; [done|].
    apply Forall_cons in Hz as [Hzw Hz]. destruct (Nat.ltb_spec w z); [lia|].
    by rewrite IH.
  - destruct (y <? x).
    + destruct k as [|k]; [done|]. rewrite IH; [|intros; apply Hb; set_solver|done].
      by destruct (carry k x l).
    + rewrite IH; [|intros; apply Hb; set_solver|done]. by destruct (carry k y l).
Qed.
Lemma pass_frame k pre mid post :
  mid <> [] -> StronglySorted le pre -> StronglySorted le post ->
  (forall u v, u ∈ pre -> v ∈ mid ++ post -> u < v) ->
  (forall u v, u ∈ mid -> v ∈ post -> u < v) ->
  pass k (pre ++ mid ++ post) = (pre ++ (pass k mid).1 ++ post, (pass k mid).2).
Proof.
  intros Hm Hpre Hpost Hb1 Hb2. destruct mid as [|x mid]; [done|]. clear Hm.
  induction Hpre as [|u pre Hpre IH Hu]; simpl.
  - by apply carry_frame_post.
  - specialize (IH ltac:(intros; apply Hb1; set_solver)).
    destruct pre as [|w pre]; simpl in *.
    + destruct (Nat.ltb_spec x u); [pose proof (Hb1 u x); set_solver by lia|].
      by rewrite IH.
    + apply Forall_cons in Hu as [Huw _]. destruct (Nat.ltb_spec w u); [lia|]. by rewrite IH.
Qed.
Lemma passes_frame n k pre mid post :
  mid <> [] -> StronglySorted le pre -> StronglySorted le post ->
  (forall u v, u ∈ pre -> v ∈ mid ++ post -> u < v) ->
  (forall u v, u ∈ mid -> v ∈ post -> u < v) ->
  passes n k (pre ++ mid ++ post) = pre ++ passes n k mid ++ post.
Proof.
  intros Hm Hpre Hpost. revert k mid Hm. induction n as [|n IH]; intros k mid Hm Hb1 Hb2; [done|].
  cbn [passes]. rewrite pass_frame by done.
  pose proof (pass_perm k mid) as Hperm. destruct (pass k mid) as [mid' k']. simpl in *. apply IH.
  - intros ->. by apply Permutation_nil_l in Hperm.
  - intros u v. rewrite Hperm. apply Hb1.
  - intros u v. rewrite Hperm. apply Hb2.
Qed.
Lemma bubble_frame k pre mid post :
  NoDup mid -> mid <> [] -> StronglySorted le pre -> StronglySorted le post ->
  (forall u v, u ∈ pre -> v ∈ mid ++ post -> u < v) ->
  (forall u v, u ∈ mid -> v ∈ post -> u < v) ->
  k <= inversions mid ->
  bubble k (pre ++ mid ++ post) = pre ++ bubble k mid ++ post.
Proof.
  intros Hn Hm Hpre Hpost Hb1 Hb2 Hk. unfold bubble. rewrite passes_frame by done.
  rewrite !length_app. replace (length pre + (length mid + length post))
    with (length mid + (length pre + length post)) by lia.
  rewrite passes_enough; [done|done| |done]. intros e He%table_bound. lia.
Qed.
Lemma table_sum_app s t l :
  list_sum (snd <$> table (s ++ t) l) =
  list_sum (snd <$> table s l) + list_sum ((fun v => larger v t) <$> l).
Proof.
  revert s. induction l as [|v l IH]; intros s; [done|].
  specialize (IH (v :: s)). cbn in IH |- *. unfold list_sum in *. rewrite larger_app. lia.
Qed.
Lemma inversions_app l1 l2 :
  inversions (l1 ++ l2) = inversions l1 + inversions l2 + list_sum ((fun v => larger v l1) <$> l2).
Proof.
  unfold inversions. rewrite table_app, fmap_app, list_sum_app, (table_sum_app [] (rev l1 ++ [])).
  rewrite app_nil_r. rewrite (list_fmap_ext _ (fun v => larger v l1) l2); [lia|].
  intros. apply larger_rev.
Qed.
Lemma inversions_below l1 l2 :
  (forall u v, u ∈ l1 -> v ∈ l2 -> u < v) -> inversions (l1 ++ l2) = inversions l1 + inversions l2.
Proof.
  intros H. rewrite inversions_app.
  assert (list_sum ((fun v => larger v l1) <$> l2) = 0) as ->; [|lia].
  induction l2 as [|v l2 IH]; [done|]. cbn. unfold list_sum in IH. rewrite IH by set_solver.
  rewrite larger_none; [done|]. apply Forall_forall. intros u Hu.
  pose proof (H u v Hu ltac:(constructor)). lia.
Qed.
Lemma inversions_frame pre mid post :
  StronglySorted le pre -> StronglySorted le post ->
  (forall u v, u ∈ pre -> v ∈ mid ++ post -> u < v) ->
  (forall u v, u ∈ mid -> v ∈ post -> u < v) ->
  inversions (pre ++ mid ++ post) = inversions mid.
Proof.
  intros Hpre Hpost Hb1 Hb2. rewrite !inversions_below by done.
  rewrite (sorted_inversions pre), (sorted_inversions post) by done. lia.
Qed.
End BubbleSort.
