(* ===== verification/Bubbles.v ===== *)
(** * Permutations between schedules and the states of their bubble sort
    (src/detcore/src/edit_distance/bubbles.rs)

    [generate_permutation] matches the items of two slices, and
    [BubbleSortIter] visits the states a bubble sort of that permutation passes
    through, rebuilding each from the permutation's inversion table instead of
    recording the swaps.  The definitions follow the source; [BubblesInv] and
    [BubblesProps] compare them with a bubble sort that makes the swaps.  A
    subtraction that would go below zero is a panic here under both profiles;
    the theorems show that none does. *)
From Stdlib Require Import ZArith Lia List.
From stdpp Require Import base gmap list.
From S2P Require Import Prelude Fenwick.
Open Scope nat_scope.

Module Bubbles.
Import Fenwick.

Record PermutationResult := {
  perm : list nat;
  unmatched_source_indices : list nat;
  unmatched_target_indices : list nat;
}.
Record ExpandedPermResult := {
  x_perm : list (option nat);
  x_unmatched_source_indices : list nat;
  x_unmatched_target_indices : list nat;
}.
(** [perm.into_iter().flatten()] keeps the matched values. *)
Definition collapse (r : ExpandedPermResult) : PermutationResult :=
  {| perm := omap id (x_perm r);
     unmatched_source_indices := x_unmatched_source_indices r;
     unmatched_target_indices := x_unmatched_target_indices r |}.

Section Generic.
Context {T : Type} `{Countable T}.
Implicit Types (source target : list T).

(** ** generate_expanded_permutation *)

(** [index_source.entry(v).or_default().push(i)] for each item. *)
Fixpoint index_items (i : nat) (items : list T) (index : gmap T (list nat)) : gmap T (list nat) :=
  match items with
  | [] => index
  | v :: items' => index_items (S i) items' (<[v := default [] (index !! v) ++ [i]]> index)
  end.
(** [index_source.get_mut(v).and_then(|tp| tp.pop())] *)
Definition pop_index (index : gmap T (list nat)) (v : T) : option nat * gmap T (list nat) :=
  match index !! v with
  | None => (None, index)
  | Some tp =>
      match last tp with
      | None => (None, index)
      | Some i => (Some i, <[v := removelast tp]> index)
      end
  end.
(** The two chained [map] closures over the target, in step. *)
Fixpoint match_items (i : nat) (items : list T) (index : gmap T (list nat))
    : list (option nat) * list nat * gmap T (list nat) :=
  match items with
  | [] => ([], [], index)
  | v :: items' =>
      let '(o, index1) := pop_index index v in
      let '(result, unmatched, index2) := match_items (S i) items' index1 in
      (o :: result, match o with None => i :: unmatched | Some _ => unmatched end, index2)
  end.
(** The unmatched source indices are collected in the map's iteration order and
    then sorted, so that order does not show. *)
Definition generate_expanded_permutation source target : ExpandedPermResult :=
  let index_source := index_items 0 source ∅ in
  let index_source := (@rev nat) <$> index_source in
  let '(result_perm, unmatched_target, index_source) := match_items 0 target index_source in
  {| x_perm := result_perm;
     x_unmatched_source_indices :=
       stable_sort Nat.leb (concat (snd <$> map_to_list index_source));
     x_unmatched_target_indices := unmatched_target |}.
Definition generate_permutation source target : PermutationResult :=
  collapse (generate_expanded_permutation source target).

(** ** find_sortable_range *)

(** [perm.iter().enumerate().take_while(expected == value).count()] *)
Fixpoint prefix_count (expected : nat) (l : list nat) : nat :=
  match l with
  | [] => 0
  | value :: l' => if expected =? value then S (prefix_count (S expected) l') else 0
  end.
Fixpoint postfix_count (max_index index_from_end : nat) (l : list nat) : outcome nat :=
  match l with
  | [] => Done 0
  | value :: l' =>
      e ← usize_sub max_index index_from_end;
      if e =? value then n ← postfix_count max_index (S index_from_end) l'; Done (S n) else Done 0
  end.
Definition find_sortable_range (perm : list nat) (max_index : nat) : outcome (nat * nat) :=
  let prefix_len := prefix_count 0 perm in
  postfix_len ← (if prefix_len <? length perm then postfix_count max_index 0 (rev perm) else Done 0);
  e ← usize_sub (length perm) postfix_len;
  Done (prefix_len, e).

(** [v[start..end]] and [v[start..end].copy_from_slice(w)]. *)
Definition slice (l : list nat) (range : nat * nat) : outcome (list nat) :=
  if (range.1 <=? range.2) && (range.2 <=? length l)
  then Done (take (range.2 - range.1) (drop range.1 l)) else Panic PIndex.
Definition splice (l : list nat) (range : nat * nat) (w : list nat) : list nat :=
  take range.1 l ++ w ++ drop range.2 l.

(** ** BubbleSortIter *)

Record BubbleSortIter := {
  it_perm : list nat;
  it_source : list T;
  sortable : nat * nat;
  ranked : list nat;
  larger_before : list nat;
  at_least : list nat;
  swap_count : nat;
  cursor : nat;
  unused_value_count : nat;
}.

(** [slice::binary_search] on a sorted slice without duplicates. *)
Definition binary_search (sorted : list nat) (value : nat) : option nat :=
  fst <$> list_find (eq value) sorted.
Fixpoint rank_loop (ranked : list nat) (preceding : nat) (l : list nat)
    (larger_before seen : list nat) : outcome (list nat) :=
  match l with
  | [] => Done larger_before
  | value :: l' =>
      rank ← expect (binary_search ranked value);
      smaller ← count_before seen rank;
      larger ← usize_sub preceding smaller;
      larger_before' ← set_at larger_before rank larger;
      seen' ← add seen rank;
      rank_loop ranked (S preceding) l' larger_before' seen'
  end.
(** [for &larger in &larger_before { at_least[larger] += 1 }] *)
Fixpoint tally (l : list nat) (at_least : list nat) : outcome (list nat) :=
  match l with
  | [] => Done at_least
  | larger :: l' =>
      a ← get_at at_least larger; at_least' ← set_at at_least larger (a + 1); tally l' at_least'
  end.
(** [for p in (0..n).rev() { at_least[p] += at_least[p + 1] }] *)
Fixpoint suffix_sums (n : nat) (at_least : list nat) : outcome (list nat) :=
  match n with
  | 0 => Done at_least
  | S p =>
      a ← get_at at_least p; b ← get_at at_least (p + 1);
      at_least' ← set_at at_least p (a + b); suffix_sums p at_least'
  end.
Definition new (bp : profile) (perm : list nat) (source : list T) (unused : nat)
    : outcome BubbleSortIter :=
  range ← find_sortable_range perm (length source - 1);
  unsorted ← slice perm range;
  let ranked := stable_sort Nat.leb unsorted in
  larger_before ←
    rank_loop ranked 0 unsorted (replicate (length unsorted) 0) (zeros (length unsorted));
  let deepest := foldr Nat.max 0 larger_before in
  tallied ← tally larger_before (replicate (deepest + 2) 0);
  at_least ← suffix_sums (deepest + 1) tallied;
  swap_count ← usize_arith bp (list_sum larger_before);
  Done {| it_perm := splice perm range ranked; it_source := source; sortable := range;
          ranked := ranked; larger_before := larger_before; at_least := at_least;
          swap_count := swap_count; cursor := swap_count; unused_value_count := unused |}.

Definition edit_distance (bp : profile) (it : BubbleSortIter) : outcome nat :=
  usize_arith bp (swap_count it + unused_value_count it).
Definition swap_distance (it : BubbleSortIter) : nat := swap_count it.
Definition history_size (it : BubbleSortIter) : nat := swap_count it.

(** *** seek *)

Fixpoint passes_loop (fuel : nat) (at_least : list nat) (deepest swaps passes done : nat)
    : outcome (nat * nat) :=
  match fuel with
  | 0 => Panic PFuel
  | S fuel' =>
      if passes <? deepest then
        a ← get_at at_least (passes + 1);
        if done + a <=? swaps then passes_loop fuel' at_least deepest swaps (passes + 1) (done + a)
        else Done (passes, done)
      else Done (passes, done)
  end.
Definition passes_within (it : BubbleSortIter) (swaps : nat) : outcome (nat * nat) :=
  deepest ← usize_sub (length (at_least it)) 2;
  '(passes, done) ← passes_loop (S deepest) (at_least it) deepest swaps 0 0;
  left_over ← usize_sub swaps done;
  Done (passes, left_over).

(** The loop that places the values in ascending order. *)
Fixpoint place_loop (ranked larger_before : list nat) (passes : nat) (free state : list nat)
    : outcome (list nat) :=
  match ranked, larger_before with
  | [], _ => Done state
  | _ :: _, [] => Panic PIndex
  | value :: ranked', larger :: larger_before' =>
      slot ← nth free (larger - passes);
      free' ← remove free slot;
      state' ← set_at state slot value;
      place_loop ranked' larger_before' passes free' state'
  end.
(** The loop that makes the swaps of the last, unfinished pass. *)
Fixpoint swap_loop (fuel left j : nat) (state : list nat) : outcome (list nat) :=
  match fuel with
  | 0 => Panic PFuel
  | S fuel' =>
      if 0 <? left then
        a ← get_at state j; b ← get_at state (j + 1);
        if b <? a
        then s1 ← set_at state j b; s2 ← set_at s1 (j + 1) a; swap_loop fuel' (left - 1) (j + 1) s2
        else swap_loop fuel' left (j + 1) state
      else Done state
  end.
Definition seek (it : BubbleSortIter) (swaps : nat) : outcome BubbleSortIter :=
  let swaps := Nat.min swaps (swap_count it) in
  if swaps =? cursor it then Done it else
  '(passes, partial) ← passes_within it swaps;
  state ← slice (it_perm it) (sortable it);
  free ← ones (length state);
  state ← place_loop (ranked it) (larger_before it) passes free state;
  state ← swap_loop (S (length state)) partial 0 state;
  Done {| it_perm := splice (it_perm it) (sortable it) state; it_source := it_source it;
          sortable := sortable it; ranked := ranked it; larger_before := larger_before it;
          at_least := at_least it; swap_count := swap_count it; cursor := swaps;
          unused_value_count := unused_value_count it |}.

(** *** Perm, the items of a state *)

Record Perm := { p_perm : list nat; p_source : list T; p_i : nat }.
Definition perm_new (it : BubbleSortIter) : Perm :=
  {| p_perm := it_perm it; p_source := it_source it; p_i := 0 |}.
Definition perm_next (p : Perm) : outcome (option (T * Perm)) :=
  if p_i p <? length (p_perm p) then
    i ← get_at (p_perm p) (p_i p); x ← get_at (p_source p) i;
    Done (Some (x, {| p_perm := p_perm p; p_source := p_source p; p_i := p_i p + 1 |}))
  else Done None.
(** [Iterator::collect] *)
Fixpoint collect (fuel : nat) (p : Perm) : outcome (list T) :=
  match fuel with
  | 0 => Panic PFuel
  | S fuel' =>
      o ← perm_next p;
      match o with None => Done [] | Some (x, p') => l ← collect fuel' p'; Done (x :: l) end
  end.
Definition items (p : Perm) : outcome (list T) := collect (S (length (p_perm p))) p.

(** *** Moves *)

Definition current (it : BubbleSortIter) : Perm := perm_new it.
Definition next (it : BubbleSortIter) : outcome (option Perm * BubbleSortIter) :=
  if cursor it <? swap_count it
  then it' ← seek it (cursor it + 1); Done (Some (current it'), it') else Done (None, it).
Definition next_back (it : BubbleSortIter) : outcome (option Perm * BubbleSortIter) :=
  if 0 <? cursor it
  then it' ← seek it (cursor it - 1); Done (Some (current it'), it') else Done (None, it).
Definition skip (it : BubbleSortIter) (distance : nat) : outcome BubbleSortIter :=
  seek it (usize_sat_add (cursor it) distance).
Definition skip_back (it : BubbleSortIter) (distance : nat) : outcome BubbleSortIter :=
  seek it (cursor it - distance).
Definition midpoint (it : BubbleSortIter) : outcome (Perm * BubbleSortIter) :=
  it' ← seek it (swap_count it / 2); Done (current it', it').
Definition interpolate (bp : profile) (it : BubbleSortIter) (interpolate_percentage : nat)
    : outcome (Perm * BubbleSortIter) :=
  scaled ← usize_arith bp (swap_count it * interpolate_percentage);
  it' ← seek it (scaled / 100); Done (current it', it').

(** ** Entry points *)

Definition iterable_bubble_sort_from_perm (bp : profile) source (r : PermutationResult)
    : outcome BubbleSortIter :=
  new bp (perm r) source
    (length (unmatched_source_indices r) + length (unmatched_target_indices r)).
Definition iterable_bubble_sort (bp : profile) source target : outcome BubbleSortIter :=
  iterable_bubble_sort_from_perm bp source (generate_permutation source target).
Definition bubble_sort_distance (bp : profile) source target : outcome nat :=
  it ← iterable_bubble_sort bp source target; Done (swap_count it).
End Generic.
Arguments BubbleSortIter T : clear implicits.
Arguments Perm T : clear implicits.
End Bubbles.
