(* ===== verification/BubblesInv.v ===== *)
(** * The bubble sort iterator against bubble sort

    [new] computes the inversion table of the permutation, and [seek] rebuilds
    the state after any number of swaps from it: the lemmas here show each loop
    of the two against [BubbleSort]. *)
From Stdlib Require Import ZArith Lia List Sorting.Sorted.
From stdpp Require Import base gmap list sorting.
From S2P Require Import Prelude Fenwick BubbleSort Bubbles.
Open Scope nat_scope.

Module BubblesInv.
Import Fenwick BubbleSort Bubbles.

(** ** The table as a function of the values *)

Fixpoint before_count (v : nat) (l : list nat) : nat :=
  match l with
  | [] => 0
  | u :: r => if u =? v then 0 else (if v <? u then 1 else 0) + before_count v r
  end.
Lemma before_count_split v pre post : v ∉ pre -> before_count v (pre ++ v :: post) = larger v pre.
Proof.
  induction pre as [|u pre IH]; intros Hv; simpl.
  - by rewrite Nat.eqb_refl.
  - apply not_elem_of_cons in Hv as [Hne Hv]. rewrite larger_cons, IH by done.
    by destruct (Nat.eqb_spec u v).
Qed.
Lemma table_before_count_from pre l :
  NoDup (pre ++ l) -> table (rev pre) l = (fun v => (v, before_count v (pre ++ l))) <$> l.
Proof.
  revert pre. induction l as [|v l IH]; intros pre Hl; [done|]. cbn [table fmap list_fmap].
  assert (v ∉ pre) as Hv. { apply NoDup_app in Hl as (_ & Hl & _). intros H. by apply (Hl v H), list_elem_of_here. }
  f_equal.
  - rewrite before_count_split by done. by rewrite larger_rev.
  - specialize (IH (pre ++ [v])). rewrite <- (assoc_L (++)) in IH. rewrite rev_app_distr in IH.
    by apply IH.
Qed.
Lemma table_before_count l : NoDup l -> table [] l = (fun v => (v, before_count v l)) <$> l.
Proof. apply (table_before_count_from []). Qed.

(** After [p] passes every count is lowered by [p]. *)
Lemma before_count_iter p l v :
  NoDup l -> v ∈ l -> before_count v (Nat.iter p full_pass l) = before_count v l - p.
Proof.
  intros Hl Hv. pose proof (iter_pass_NoDup p l Hl) as Hi.
  assert ((v, before_count v l - p) ∈ table [] (Nat.iter p full_pass l)) as H.
  { rewrite (iter_pass_table p l Hl). apply list_elem_of_fmap. exists (v, before_count v l).
    split; [done|]. rewrite table_before_count by done. apply list_elem_of_fmap. eauto. }
  rewrite table_before_count in H by done. apply list_elem_of_fmap in H as (w & [= -> ?] & _). done.
Qed.

(** ** Placing the values *)

Lemma stands_ext m m' len tree :
  (forall i, i < len -> m i = m' i) -> stands m len tree -> stands m' len tree.
Proof.
  intros H [Hl Ht]. split; [done|]. intros i Hi. rewrite Ht by done. f_equal.
  apply range_sum_ext. intros j Hj. apply H. pose proof (lowest_bit_bounds i). lia.
Qed.
Lemma range_sum_mono m a b : a <= b -> range_sum m 0 a <= range_sum m 0 b.
Proof. intros H. replace b with (a + (b - a)) by lia. rewrite range_sum_app. lia. Qed.

Section Place.
Context (l : list nat) (Hl : NoDup l).

(** The slots whose value is still to be placed. *)
Definition unplaced (rest : list nat) (p : nat) : nat :=
  match l !! p with Some v => if bool_decide (v ∈ rest) then 1 else 0 | None => 0 end.
Lemma unplaced_sum rest p :
  range_sum (unplaced rest) 0 p = length (List.filter (fun v => bool_decide (v ∈ rest)) (take p l)).
Proof.
  induction p as [|p IH]; [done|]. rewrite range_sum_S, IH. unfold unplaced. simpl.
  destruct (l !! p) as [v|] eqn:E.
  - rewrite (take_S_r _ _ _ E), List.filter_app, length_app. simpl.
    by destruct (bool_decide (v ∈ rest)).
  - rewrite !take_ge by (apply lookup_ge_None in E; lia). lia.
Qed.
Lemma unplaced_before v rest pre post :
  l = pre ++ v :: post -> StronglySorted lt (v :: rest) ->
  (forall u w, u ∈ l -> u ∉ v :: rest -> w ∈ v :: rest -> u < w) ->
  range_sum (unplaced (v :: rest)) 0 (length pre) = larger v pre.
Proof.
  intros El Hs Hb. rewrite unplaced_sum, El, take_app_length. unfold larger. f_equal.
  assert (v ∉ pre) as Hv.
  { rewrite El in Hl. apply NoDup_app in Hl as (_ & H & _). intros Hp. by apply (H v Hp), list_elem_of_here. }
  apply StronglySorted_cons in Hs as [Hlt _]. rewrite Forall_forall in Hlt.
  apply List.filter_ext_in. intros u Hu%list_elem_of_In.
  destruct (Nat.ltb_spec v u) as [?|?].
  - apply bool_decide_eq_true. destruct (decide (u ∈ v :: rest)) as [|Hn]; [done|].
    assert (u < v); [|lia]. apply Hb; [rewrite El; set_solver|done|constructor].
  - apply bool_decide_eq_false. intros [->|Hr]%elem_of_cons; [done|]. apply Hlt in Hr. lia.
Qed.
Lemma unplaced_mark v rest pre post i :
  l = pre ++ v :: post -> v ∉ rest -> i < length l ->
  mark (unplaced (v :: rest)) (length pre) (unplaced (v :: rest) (length pre) - 1) i = unplaced rest i.
Proof.
  intros El Hv Hi. unfold mark. destruct (Nat.eqb_spec i (length pre)) as [->|Hne]; unfold unplaced.
  - rewrite El, list_lookup_middle by done.
    rewrite bool_decide_true by constructor. by rewrite bool_decide_false.
  - destruct (l !! i) as [u|] eqn:E; [|done]. assert (u <> v).
    { intros ->. apply Hne. apply (NoDup_lookup l i (length pre) v Hl E).
      by rewrite El, list_lookup_middle. }
    by rewrite (bool_decide_ext _ (u ∈ rest)) by set_solver.
Qed.

Lemma place_loop_spec passes rest lb free state :
  StronglySorted lt rest -> (forall v, v ∈ rest -> v ∈ l) ->
  (forall u w, u ∈ l -> u ∉ rest -> w ∈ rest -> u < w) ->
  Forall2 (fun v larger => larger - passes = before_count v l) rest lb ->
  stands (unplaced rest) (length l) free -> length state = length l ->
  (forall p v, l !! p = Some v -> v ∉ rest -> state !! p = Some v) ->
  place_loop rest lb passes free state = Done l.
Proof.
  intros Hs Hin Hb Hlb. revert free state. revert Hs Hin Hb.
  induction Hlb as [|v b rest lb Hvb Hlb IH]; intros Hs Hin Hb free state Hfree Hlen Hstate; cbn [place_loop].
  { f_equal. apply list_eq_same_length with (length l); [done|done|].
    intros p a c _ Ha Hc. rewrite (Hstate p c Hc ltac:(set_solver)) in Ha. by simplify_eq. }
  destruct (list_elem_of_split l v) as (pre & post & El); [apply Hin; constructor|].
  assert (v ∉ rest) as Hv. { apply StronglySorted_cons in Hs as [Hlt _]. rewrite Forall_forall in Hlt. intros H%Hlt. lia. }
  pose proof (unplaced_before v rest pre post El Hs Hb) as Hsum.
  assert (unplaced (v :: rest) (length pre) = 1) as Hone.
  { unfold unplaced. rewrite El, list_lookup_middle by done. by rewrite bool_decide_true by constructor. }
  assert (before_count v l = larger v pre) as Hbc.
  { rewrite El. apply before_count_split. rewrite El in Hl. apply NoDup_app in Hl as (_ & H & _).
    intros Hp. by apply (H v Hp), list_elem_of_here. }
  assert (length pre < length l) as Hlt by (rewrite El, length_app; simpl; lia).
  rewrite Hvb, Hbc. pose proof (range_sum_S (unplaced (v :: rest)) 0 (length pre)) as HS. simpl in HS.
  destruct (nth_marks _ _ _ (larger v pre) Hfree) as (slot & -> & Hsl & Hlo & Hhi).
  { pose proof (range_sum_mono (unplaced (v :: rest)) (S (length pre)) (length l)). lia. }
  bind_done.
  assert (slot = length pre) as ->.
  { destruct (Nat.lt_trichotomy slot (length pre)) as [H|[H|H]]; [|done|].
    - pose proof (range_sum_mono (unplaced (v :: rest)) (S slot) (length pre)). lia.
    - pose proof (range_sum_mono (unplaced (v :: rest)) (S (length pre)) slot). lia. }
  destruct (remove_marks _ _ (length pre) _ ltac:(rewrite Hone; lia) Hfree) as (free' & -> & Hfree').
  bind_done. rewrite set_at_Done by lia. bind_done.
  apply IH.
  - by apply StronglySorted_cons in Hs as [_ ?].
  - set_solver.
  - intros u w Hu Hnu Hw. destruct (decide (u = v)) as [->|].
    + apply StronglySorted_cons in Hs as [Hlt' _]. rewrite Forall_forall in Hlt'. auto.
    + apply Hb; set_solver.
  - eapply stands_ext; [|exact Hfree']. intros i Hi. by apply (unplaced_mark v rest pre post).
  - by rewrite length_insert.
  - intros p u Hp Hu. destruct (Nat.eq_dec p (length pre)) as [->|Hne].
    + rewrite El, list_lookup_middle in Hp by done. simplify_eq. apply list_lookup_insert_eq. lia.
    + rewrite list_lookup_insert_ne by done. apply Hstate; [done|]. apply not_elem_of_cons. split; [|done].
      intros ->. apply Hne, (NoDup_lookup l p (length pre) v Hl Hp).
      by rewrite El, list_lookup_middle.
Qed.
End Place.

(** ** The swaps of an unfinished pass *)

Lemma swap_loop_carry fuel k pre x l :
  (carry k x l).2 = 0 -> length l < fuel ->
  swap_loop fuel k (length pre) (pre ++ x :: l) = Done (pre ++ (carry k x l).1).
Proof.
  revert fuel k pre x. induction l as [|y l IH]; intros fuel k pre x Hk Hf;
    (destruct fuel as [|fuel]; [lia|]); cbn [swap_loop]; destruct (Nat.ltb_spec 0 k) as [Hpos|Hz].
  - simpl in Hk. lia.
  - replace k with 0 by lia. by rewrite carry_0.
  - rewrite (get_at_Done _ (length pre) x) by (by apply list_lookup_middle). bind_done.
    rewrite (get_at_Done _ _ y).
    2:{ rewrite lookup_app_r by lia. by replace (length pre + 1 - length pre) with 1 by lia. }
    bind_done. simpl in Hk. simpl carry.
    destruct (y <? x) eqn:E.
    + destruct k as [|k]; [lia|]. rewrite set_at_Done by (rewrite length_app; simpl; lia).
      bind_done.
      rewrite insert_app_r_alt, Nat.sub_diag by lia. simpl (<[0:=y]> _).
      rewrite set_at_Done by (rewrite length_app; simpl; lia). bind_done.
      rewrite insert_app_r_alt by lia. replace (length pre + 1 - length pre) with 1 by lia.
      simpl (<[1:=x]> _). specialize (IH fuel k (pre ++ [y]) x).
      rewrite length_app, <- !(assoc_L (++)) in IH. simpl in IH. rewrite Nat.sub_succ, Nat.sub_0_r.
      destruct (carry k x l) as [t rest]. simpl in *. apply IH; [done|lia].
    + specialize (IH fuel k (pre ++ [x]) y). rewrite length_app, <- !(assoc_L (++)) in IH. simpl in IH.
      destruct (carry k y l) as [t rest]. simpl in *. apply IH; [done|lia].
  - replace k with 0 by lia. by rewrite carry_0.
Qed.
Lemma swap_loop_pass k l :
  (pass k l).2 = 0 -> swap_loop (S (length l)) k 0 l = Done (pass k l).1.
Proof.
  destruct l as [|x l]; intros Hk; [simpl in Hk; by subst k|].
  apply (swap_loop_carry _ k [] x l); [done|simpl; lia].
Qed.

(** ** Counting the larger values *)

Section Rank.
Context (l rk : list nat) (Hl : NoDup l) (Hperm : rk ≡ₚ l) (Hs : StronglySorted lt rk).

Lemma ranked_NoDup : NoDup rk.
Proof. by rewrite Hperm. Qed.
Lemma binary_search_rank v : v ∈ l -> exists r, binary_search rk v = Some r /\ rk !! r = Some v.
Proof.
  intros Hv. rewrite <- Hperm in Hv. unfold binary_search.
  destruct (list_find (eq v) rk) as [[r u]|] eqn:E.
  - apply list_find_Some in E as (Hr & <- & _). by exists r.
  - apply list_find_None in E. rewrite Forall_forall in E. by apply E in Hv.
Qed.
Lemma elem_take_rank r v u : rk !! r = Some v -> u ∈ take r rk <-> u ∈ rk /\ u < v.
Proof.
  intros Hr. pose proof (take_drop_middle rk r v Hr) as E.
  rewrite <- E in Hs. apply StronglySorted_app in Hs as (Hlt & _ & Hs2).
  apply StronglySorted_cons in Hs2 as [Hgt _]. rewrite Forall_forall in Hgt. split.
  - intros Hu. split; [by eapply subseteq_take|]. apply Hlt; [done|constructor].
  - intros [Hu Huv]. rewrite <- E in Hu. apply elem_of_app in Hu as [?|[->|Hu]%elem_of_cons]; [done|lia|].
    apply Hgt in Hu. lia.
Qed.
(** The ranks below that of [v] that have been seen are the smaller values
    before it. *)
Lemma seen_smaller r v pre :
  rk !! r = Some v -> v ∉ pre -> NoDup pre -> (forall u, u ∈ pre -> u ∈ l) ->
  range_sum (unplaced rk pre) 0 r + larger v pre = length pre.
Proof.
  intros Hr Hv Hpre Hin. rewrite unplaced_sum.
  assert (List.filter (fun u => bool_decide (u ∈ pre)) (take r rk) ≡ₚ List.filter (fun u => u <? v) pre) as ->.
  { apply NoDup_Permutation.
    - apply NoDup_List_filter. eapply sublist_NoDup; [apply ranked_NoDup|apply sublist_take].
    - by apply NoDup_List_filter.
    - intros u. rewrite !list_elem_of_In, !List.filter_In, <- !list_elem_of_In.
      rewrite bool_decide_eq_true, Nat.ltb_lt, (elem_take_rank r v u Hr), Hperm. naive_solver. }
  unfold larger. clear -Hv. induction pre as [|u pre IH]; [done|]. simpl.
  apply not_elem_of_cons in Hv as [Hne Hv]. specialize (IH Hv).
  destruct (Nat.ltb_spec u v), (Nat.ltb_spec v u); simpl; lia.
Qed.

Definition counted (pre lb : list nat) : Prop :=
  length lb = length rk /\
  forall r v, rk !! r = Some v -> v ∈ pre -> lb !! r = Some (before_count v l).
Lemma rank_loop_spec pre rest lb seen :
  l = pre ++ rest -> counted pre lb -> stands (unplaced rk pre) (length rk) seen ->
  rank_loop rk (length pre) rest lb seen = Done ((fun v => before_count v l) <$> rk).
Proof.
  revert pre lb seen. induction rest as [|v rest IH]; intros pre lb seen El [Hlb Hc] Hseen; cbn [rank_loop].
  { f_equal. apply list_eq_same_length with (length rk); [by rewrite length_fmap|done|].
    intros r a c _ Ha Hcc. rewrite list_lookup_fmap in Hcc. destruct (rk !! r) as [v|] eqn:Er; [|done].
    rewrite (Hc r v Er) in Ha by (rewrite <- (app_nil_r pre), <- El, <- Hperm; by eapply list_elem_of_lookup_2).
    by simplify_eq/=. }
  assert (v ∈ l) as Hvl by (rewrite El; set_solver).
  destruct (binary_search_rank v Hvl) as (r & -> & Hr). cbn [expect mbind outcome_bind].
  pose proof (lookup_lt_Some _ _ _ Hr) as Hrl.
  pose proof Hl as Hl'. rewrite El in Hl'. apply NoDup_app in Hl' as (Hpre & Hd & Hrest).
  assert (v ∉ pre) as Hv by (intros H; by apply (Hd v H), list_elem_of_here).
  rewrite (count_marks _ _ _ r Hseen) by lia. bind_done.
  pose proof (seen_smaller r v pre Hr Hv Hpre ltac:(rewrite El; set_solver)) as Hsum.
  rewrite usize_sub_exact by lia. bind_done.
  rewrite set_at_Done by lia. bind_done.
  destruct (add_marks _ _ r _ Hseen) as (seen' & -> & Hseen'). bind_done.
  specialize (IH (pre ++ [v])). rewrite length_app, Nat.add_1_r in IH. apply IH.
  - by rewrite <- (assoc_L (++)).
  - split; [by rewrite length_insert|]. intros r' v' Hr' Hv'.
    destruct (Nat.eq_dec r r') as [<-|Hne].
    + simplify_eq. rewrite list_lookup_insert_eq by lia. f_equal.
      rewrite El, before_count_split by done. lia.
    + rewrite list_lookup_insert_ne by done. apply Hc; [done|].
      apply elem_of_app in Hv' as [?| ->%list_elem_of_singleton]; [done|].
      exfalso. apply Hne. by apply (NoDup_lookup rk r r' v ranked_NoDup).
  - eapply stands_ext; [|exact Hseen']. intros i Hi. unfold mark, unplaced.
    destruct (Nat.eqb_spec i r) as [->|Hne].
    + rewrite Hr. rewrite bool_decide_false by done. rewrite bool_decide_true by set_solver. done.
    + destruct (rk !! i) as [u|] eqn:E; [|done]. rewrite (bool_decide_ext _ (u ∈ pre ++ [v])); [done|].
      assert (u <> v); [|set_solver]. intros ->. by apply Hne, (NoDup_lookup rk i r v ranked_NoDup).
Qed.
End Rank.

(** ** How deep the passes go *)

Definition count_eq (p : nat) (lb : list nat) : nat := length (List.filter (fun b => b =? p) lb).
Definition count_ge (p : nat) (lb : list nat) : nat := length (List.filter (fun b => p <=? b) lb).
Lemma count_ge_step p lb : count_ge p lb = count_eq p lb + count_ge (S p) lb.
Proof.
  unfold count_ge, count_eq. induction lb as [|b lb IH]; [done|]. cbn -[Nat.leb Nat.eqb].
  destruct (Nat.leb_spec p b), (Nat.leb_spec (S p) b), (Nat.eqb_spec b p);
    cbn -[Nat.leb Nat.eqb]; lia.
Qed.
Lemma tally_spec lb a :
  Forall (fun b => b < length a) lb ->
  exists a', tally lb a = Done a' /\ length a' = length a /\
    forall p n, a !! p = Some n -> a' !! p = Some (n + count_eq p lb).
Proof.
  revert a. induction lb as [|b lb IH]; intros a Hb; cbn [tally].
  { exists a. split_and!; [done|done|]. intros p n ->. unfold count_eq. simpl. f_equal. lia. }
  apply Forall_cons in Hb as [Hlt Hb]. destruct (lookup_lt_is_Some_2 a b Hlt) as [x Hx].
  rewrite (get_at_Done _ _ _ Hx). bind_done. rewrite set_at_Done by done.
  bind_done.
  destruct (IH (<[b := x + 1]> a)) as (a' & -> & Hl' & Ha'); [by rewrite length_insert|].
  rewrite length_insert in Hl'. exists a'. split_and!; [done|done|]. intros p n Hp.
  unfold count_eq in *. cbn -[Nat.eqb]. destruct (Nat.eqb_spec b p) as [->|Hne].
  - rewrite (Ha' p (x + 1)) by (by apply list_lookup_insert_eq). simplify_eq. f_equal. simpl. lia.
  - apply Ha'. by rewrite list_lookup_insert_ne.
Qed.
Lemma suffix_sums_spec lb n a :
  n < length a ->
  (forall p, p < n -> a !! p = Some (count_eq p lb)) ->
  (forall p, n <= p < length a -> a !! p = Some (count_ge p lb)) ->
  exists a', suffix_sums n a = Done a' /\ length a' = length a /\
    forall p, p < length a -> a' !! p = Some (count_ge p lb).
Proof.
  revert a. induction n as [|n IH]; intros a Hn Heq Hge; cbn [suffix_sums].
  { exists a. split_and!; [done|done|]. intros p Hp. apply Hge. lia. }
  rewrite (get_at_Done _ n _ (Heq n ltac:(lia))). bind_done.
  rewrite Nat.add_1_r, (get_at_Done _ _ _ (Hge (S n) ltac:(lia))). bind_done.
  rewrite set_at_Done by lia. bind_done. rewrite <- count_ge_step.
  destruct (IH (<[n := count_ge n lb]> a)) as (a' & -> & Hl & Ha'); rewrite ?length_insert; [lia| | |].
  - intros p Hp. rewrite list_lookup_insert_ne by lia. apply Heq. lia.
  - intros p Hp. destruct (Nat.eq_dec p n) as [->|].
    + by apply list_lookup_insert_eq; lia.
    + rewrite list_lookup_insert_ne by done. apply Hge. lia.
  - rewrite length_insert in Hl, Ha'. by exists a'.
Qed.
Lemma foldr_max_bound b lb : b ∈ lb -> b <= foldr Nat.max 0 lb.
Proof.
  induction lb as [|c lb IH]; [by rewrite elem_of_nil|]. intros [->|H]%elem_of_cons; simpl; [lia|].
  specialize (IH H). lia.
Qed.
(** The entries of [at_least]. *)
Lemma at_least_spec lb :
  let deepest := foldr Nat.max 0 lb in
  exists tallied a, tally lb (replicate (deepest + 2) 0) = Done tallied /\
    suffix_sums (deepest + 1) tallied = Done a /\ length a = deepest + 2 /\
    forall p, p < deepest + 2 -> a !! p = Some (count_ge p lb).
Proof.
  intros deepest.
  destruct (tally_spec lb (replicate (deepest + 2) 0)) as (t & Ht & Hl & Hp).
  { apply Forall_forall. intros b Hb%foldr_max_bound. rewrite length_replicate. unfold deepest. lia. }
  rewrite length_replicate in Hl. setoid_rewrite lookup_replicate in Hp.
  assert (count_ge (deepest + 2) lb = 0) as Hz.
  { unfold count_ge. rewrite (List.filter_ext_in _ (fun _ => false)); [clear; by induction lb|].
    intros b Hb%list_elem_of_In%foldr_max_bound. apply Nat.leb_gt. unfold deepest. lia. }
  destruct (suffix_sums_spec lb (deepest + 1) t) as (a & Ha & Hla & Hpa).
  - lia.
  - intros p Hlt. rewrite (Hp p 0) by (split; [done|lia]). done.
  - intros p Hlt. rewrite (Hp p 0) by (split; [done|lia]). f_equal.
    replace p with (deepest + 1) by lia. rewrite (count_ge_step (deepest + 1)).
    replace (S (deepest + 1)) with (deepest + 2) by lia. lia.
  - exists t, a. rewrite Hl in *. done.
Qed.
End BubblesInv.
