(* ===== verification/BubblesIter.v ===== *)
(** * The bubble sort iterator as a whole

    The range a sort can change, and the invariant [iter_ok] of the iterator:
    [new] establishes it on any permutation of distinct source indices, and
    [seek] keeps it and moves to the state [bubble] reaches by swapping. *)
From Stdlib Require Import ZArith Lia List Sorting.Sorted.
From stdpp Require Import base gmap list sorting.
From S2P Require Import Prelude Fenwick BubbleSort Bubbles BubblesInv.
Open Scope nat_scope.

Module BubblesIter.
Import Fenwick BubbleSort Bubbles BubblesInv.

(** ** The sortable range *)

Lemma prefix_count_spec e l :
  let k := prefix_count e l in
  k <= length l /\ take k l = seq e k /\ l !! k <> Some (e + k).
Proof.
  revert e. induction l as [|v l IH]; intros e; simpl; [done|].
  destruct (Nat.eqb_spec e v) as [<-|Hne].
  - destruct (IH (S e)) as (H1 & H2 & H3). simpl. split_and!; [lia|by rewrite H2|].
    by rewrite Nat.add_succ_r.
  - simpl. split_and!; [lia|done|]. rewrite Nat.add_0_r. congruence.
Qed.
Lemma postfix_count_spec m i l :
  i + length l <= m + 1 ->
  exists k, postfix_count m i l = Done k /\ k <= length l /\
    forall j, j < k -> l !! j = Some (m - (i + j)).
Proof.
  revert i. induction l as [|v l IH]; intros i Hi; cbn [postfix_count].
  { exists 0. split_and!; [done|done|]. lia. }
  simpl in Hi. rewrite usize_sub_exact by lia. bind_done.
  destruct (Nat.eqb_spec (m - i) v) as [<-|Hne].
  - destruct (IH (S i)) as (k & -> & Hk & Hj); [lia|]. exists (S k). simpl.
    split_and!; [done|lia|]. intros [|j] H; simpl; [f_equal; lia|]. rewrite Hj by lia. f_equal. lia.
  - exists 0. split_and!; [done|simpl; lia|]. lia.
Qed.

(** A permutation as [generate_permutation] makes them: distinct indices. *)
Definition perm_ok (n : nat) (perm : list nat) : Prop := NoDup perm /\ forall v, v ∈ perm -> v < n.
Lemma perm_ok_length n perm : perm_ok n perm -> length perm <= n.
Proof.
  intros [Hn Hb]. rewrite <- (length_seq n 0). apply NoDup_incl_length; [by apply NoDup_ListNoDup|].
  intros v Hv%list_elem_of_In. apply list_elem_of_In, elem_of_seq. apply Hb in Hv. lia.
Qed.

(** What is outside the sortable range is in place. *)
Record framed (pre mid post : list nat) : Prop := {
  framed_pre : StronglySorted le pre;
  framed_post : StronglySorted le post;
  framed_below : forall u v, u ∈ pre -> v ∈ mid ++ post -> u < v;
  framed_above : forall u v, u ∈ mid -> v ∈ post -> u < v;
}.
Lemma seq_sorted a n : StronglySorted le (seq a n).
Proof.
  revert a. induction n as [|n IH]; intros a; simpl; constructor; [done|].
  apply Forall_forall. intros v [H _]%elem_of_seq. lia.
Qed.
Lemma split_framed n perm a k :
  perm_ok n perm -> a + k <= length perm ->
  (forall i, i < a -> perm !! i = Some i) ->
  (forall i, length perm - k <= i < length perm -> perm !! i = Some (n - length perm + i)) ->
  exists pre mid post, perm = pre ++ mid ++ post /\ framed pre mid post /\
    length pre = a /\ length mid = length perm - k - a.
Proof.
  intros Hok Hak Hpre Hpost. pose proof (perm_ok_length n perm Hok) as Hlen. destruct Hok as [Hn Hb].
  set (mid := take (length perm - k - a) (drop a perm)).
  assert (perm = seq 0 a ++ mid ++ seq (n - k) k) as Esplit.
  { rewrite <- (take_drop a perm) at 1. f_equal.
    { apply list_eq_same_length with a; [by rewrite length_seq|rewrite length_take; lia|].
      intros i x y Hi Hx Hy. rewrite lookup_take_lt, Hpre in Hx by lia.
      rewrite lookup_seq_lt in Hy by done. by simplify_eq. }
    rewrite <- (take_drop (length perm - k - a) (drop a perm)) at 1. f_equal.
    rewrite drop_drop. apply list_eq_same_length with k; [by rewrite length_seq|rewrite length_drop; lia|].
    intros i x y Hi Hx Hy. rewrite lookup_drop, Hpost in Hx by lia.
    rewrite lookup_seq_lt in Hy by done. simplify_eq. lia. }
  exists (seq 0 a), mid, (seq (n - k) k). split_and!; [done| |by rewrite length_seq|].
  2:{ unfold mid. rewrite length_take, length_drop. lia. }
  rewrite Esplit in Hn. apply NoDup_app in Hn as (_ & Hd1 & Hn). apply NoDup_app in Hn as (_ & Hd2 & _).
  constructor; [apply seq_sorted|apply seq_sorted| |].
  - intros u v Hu Hv. rewrite elem_of_seq in Hu. apply Nat.lt_nge. intros Hva.
    apply (Hd1 v); [|done]. rewrite elem_of_seq. lia.
  - intros u v Hu Hv. rewrite elem_of_seq in Hv. apply Nat.lt_nge. intros Hvu.
    apply (Hd2 u Hu). rewrite elem_of_seq.
    assert (u < n) by (apply Hb; rewrite Esplit; set_solver). lia.
Qed.
Lemma find_sortable_range_spec n perm :
  perm_ok n perm ->
  exists pre mid post, perm = pre ++ mid ++ post /\ framed pre mid post /\
    find_sortable_range perm (n - 1) = Done (length pre, length pre + length mid).
Proof.
  intros Hok. pose proof (perm_ok_length n perm Hok) as Hlen.
  unfold find_sortable_range. destruct (prefix_count_spec 0 perm) as (Ha & Htake & Hstop).
  set (a := prefix_count 0 perm) in *. simpl in Hstop.
  assert (forall i, i < a -> perm !! i = Some i) as Hpre.
  { intros i Hi. rewrite <- (lookup_take_lt _ a) by done. rewrite Htake. by rewrite lookup_seq_lt. }
  destruct (Nat.ltb_spec a (length perm)) as [Hlt|Hge].
  - destruct (postfix_count_spec (n - 1) 0 (rev perm)) as (k & -> & Hk & Hj); [rewrite length_rev; lia|].
    rewrite length_rev in Hk. bind_done. rewrite usize_sub_exact by lia.
    bind_done.
    assert (forall i, length perm - k <= i < length perm -> perm !! i = Some (n - length perm + i)) as Hpost.
    { intros i Hi. pose proof (Hj (length perm - 1 - i) ltac:(lia)) as H.
      rewrite rev_alt in H. change (rev_append perm []) with (reverse perm) in H.
      rewrite reverse_lookup in H by lia.
      replace (length perm - S (length perm - 1 - i)) with i in H by lia.
      rewrite H. f_equal. lia. }
    assert (a + k <= length perm) as Hak.
    { apply Nat.le_ngt. intros H. destruct (Nat.eq_dec n (length perm)) as [E|E].
      - apply Hstop. rewrite Hpost by lia. f_equal. lia.
      - destruct a as [|a']; [lia|]. pose proof (Hpre a' ltac:(lia)) as H1.
        rewrite Hpost in H1 by lia. injection H1. lia. }
    destruct (split_framed n perm a k) as (pre & mid & post & E & Hf & Lp & Lm); try done.
    exists pre, mid, post. split_and!; [done|done|]. f_equal. f_equal; lia.
  - bind_done. rewrite usize_sub_exact by lia. bind_done.
    destruct (split_framed n perm a 0) as (pre & mid & post & E & Hf & Lp & Lm); try done; [lia|lia|].
    exists pre, mid, post. split_and!; [done|done|]. f_equal. f_equal; lia.
Qed.

(** ** Passes and swaps *)

Lemma count_ge_deeper q l : NoDup l -> count_ge (S q) ((fun v => before_count v l) <$> l) = deeper q l.
Proof.
  intros Hl. unfold count_ge, deeper. rewrite table_before_count by done.
  induction l as [|v l' IH] at 2 4; [done|]. cbn -[Nat.leb Nat.ltb before_count].
  unfold Nat.ltb in *. destruct (S q <=? before_count v l); cbn -[Nat.leb before_count]; by rewrite IH.
Qed.
Lemma range_sum_add m m' a n :
  range_sum (fun i => m i + m' i) a n = range_sum m a n + range_sum m' a n.
Proof. induction n as [|n IH]; [done|]. rewrite !range_sum_S, IH. lia. Qed.
Lemma range_sum_below b n : range_sum (fun q => if q <? b then 1 else 0) 0 n = Nat.min b n.
Proof.
  induction n as [|n IH]; [unfold range_sum; simpl; lia|]. rewrite range_sum_S, IH. simpl (0 + n).
  destruct (Nat.ltb_spec n b); lia.
Qed.
(** All the passes together make as many swaps as there are inversions. *)
Lemma sum_deeper d l :
  (forall e, e ∈ table [] l -> e.2 <= d) -> range_sum (fun q => deeper q l) 0 d = inversions l.
Proof.
  unfold deeper, inversions. induction (table [] l) as [|[v b] t IH]; intros Hd.
  { simpl. by rewrite range_sum_const, Nat.mul_0_r. }
  rewrite (range_sum_ext _
    (fun q => (if q <? b then 1 else 0) + length (List.filter (fun e : nat * nat => q <? e.2) t))).
  2:{ intros q _. cbn -[Nat.ltb]. by destruct (q <? b). }
  rewrite range_sum_add, range_sum_below, IH by (intros; apply Hd; by constructor).
  pose proof (Hd (v, b) ltac:(constructor)) as H. simpl in H. rewrite Nat.min_l by done. done.
Qed.

Lemma passes_loop_spec al deepest swaps (D : nat -> nat) fuel p :
  (forall q, q < deepest -> al !! (q + 1) = Some (D q)) ->
  p <= deepest -> deepest < p + fuel -> range_sum D 0 p <= swaps ->
  exists p', passes_loop fuel al deepest swaps p (range_sum D 0 p) = Done (p', range_sum D 0 p') /\
    p' <= deepest /\ range_sum D 0 p' <= swaps /\ (p' < deepest -> swaps < range_sum D 0 p' + D p').
Proof.
  intros HD. revert p. induction fuel as [|fuel IH]; intros p Hp Hf Hle; [lia|]. cbn [passes_loop].
  destruct (Nat.ltb_spec p deepest) as [Hlt|Hge].
  - rewrite (get_at_Done _ _ _ (HD p Hlt)). bind_done.
    pose proof (range_sum_S D 0 p) as HS. simpl in HS.
    destruct (Nat.leb_spec (range_sum D 0 p + D p) swaps).
    + rewrite <- HS, Nat.add_1_r. apply IH; lia.
    + exists p. done.
  - exists p. split_and!; [done|done|done|lia].
Qed.

(** ** The invariant of the iterator *)

Section Iter.
Context {T : Type}.
Implicit Types (it : BubbleSortIter T).

(** [it] is the sort of [perm0], positioned after [cursor] swaps. *)
Record iter_ok (perm0 pre mid post : list nat) it : Prop := {
  iter_split : perm0 = pre ++ mid ++ post;
  iter_framed : framed pre mid post;
  iter_sortable : sortable it = (length pre, length pre + length mid);
  iter_NoDup : NoDup perm0;
  iter_ranked : ranked it ≡ₚ mid /\ StronglySorted lt (ranked it);
  iter_larger : larger_before it = (fun v => before_count v mid) <$> ranked it;
  iter_depth : 2 <= length (at_least it) /\
    forall e, e ∈ table [] mid -> e.2 <= length (at_least it) - 2;
  iter_below : mid <> [] -> length (at_least it) - 2 < length mid;
  iter_at_least : forall p, p < length (at_least it) -> at_least it !! p = Some (count_ge p (larger_before it));
  iter_count : swap_count it = inversions perm0;
  iter_cursor : cursor it <= swap_count it;
  iter_perm : it_perm it = bubble (cursor it) perm0;
}.
(** [perm0] can be sorted by the iterator. *)
Definition is_iter (perm0 : list nat) it : Prop := exists pre mid post, iter_ok perm0 pre mid post it.

Lemma stable_sort_lt l :
  NoDup l -> StronglySorted lt (stable_sort Nat.leb l).
Proof.
  intros Hl. assert (NoDup (stable_sort Nat.leb l)) as Hn by (by rewrite stable_sort_perm).
  assert (StronglySorted (fun a b => Nat.leb a b = true) (stable_sort Nat.leb l)) as Hs.
  { apply stable_sort_sorted; intros; rewrite ?Nat.leb_le in *; lia. }
  revert Hn. induction Hs as [|a s Hs IH Ha]; intros Hn; constructor.
  - apply IH. by apply NoDup_cons in Hn as [_ ?].
  - apply NoDup_cons in Hn as [Hn _]. rewrite Forall_forall in *. intros b Hb.
    specialize (Ha b Hb). apply Nat.leb_le in Ha. assert (a <> b) by congruence. lia.
Qed.
Lemma sorted_lt_le (l : list nat) : StronglySorted lt l -> StronglySorted le l.
Proof.
  induction 1 as [|a s Hs IH Ha]; constructor; [done|]. rewrite Forall_forall in *.
  intros b Hb%Ha. lia.
Qed.
Lemma mid_inversions pre mid post :
  framed pre mid post -> inversions (pre ++ mid ++ post) = inversions mid.
Proof. intros []. by apply inversions_frame. Qed.
Lemma sorted_unique (l l' : list nat) : StronglySorted le l -> StronglySorted le l' -> l ≡ₚ l' -> l = l'.
Proof. intros H1 H2 H. by apply (StronglySorted_unique le). Qed.
Lemma bubble_framed k pre mid post :
  framed pre mid post -> NoDup mid -> k <= inversions mid ->
  bubble k (pre ++ mid ++ post) = pre ++ bubble k mid ++ post.
Proof.
  intros [] Hn Hk. destruct (decide (mid = [])) as [->|Hm]; [|by apply bubble_frame].
  change (inversions []) with 0 in Hk. replace k with 0 by lia. by rewrite !bubble_0.
Qed.
Lemma slice_mid pre mid post : slice (pre ++ mid ++ post) (length pre, length pre + length mid) = Done mid.
Proof.
  unfold slice. cbn [fst snd]. rewrite (proj2 (Nat.leb_le _ _)) by lia.
  rewrite (proj2 (Nat.leb_le _ _)) by (rewrite !length_app; lia). cbn [andb].
  rewrite drop_app_length. replace (length pre + length mid - length pre) with (length mid) by lia.
  by rewrite take_app_length.
Qed.
Lemma splice_mid pre mid post w :
  splice (pre ++ mid ++ post) (length pre, length pre + length mid) w = pre ++ w ++ post.
Proof.
  unfold splice. cbn [fst snd]. rewrite take_app_length. f_equal. f_equal.
  rewrite drop_app_add. by rewrite drop_app_length.
Qed.
Lemma foldr_max_lt n lb : 0 < n -> Forall (fun b => b < n) lb -> foldr Nat.max 0 lb < n.
Proof. intros H. induction 1; simpl; lia. Qed.
Lemma list_sum_perm l l' : l ≡ₚ l' -> list_sum l = list_sum l'.
Proof. unfold list_sum. induction 1; simpl; lia. Qed.
Lemma larger_sum mid rk :
  NoDup mid -> rk ≡ₚ mid -> list_sum ((fun v => before_count v mid) <$> rk) = inversions mid.
Proof.
  intros Hn Hr. unfold inversions. rewrite table_before_count by done.
  rewrite <- list_fmap_compose. apply list_sum_perm. by rewrite Hr.
Qed.

(** [new] positions the iterator at the end of the sort. *)
Lemma new_ok bp perm source unused :
  perm_ok (length source) perm -> (Z.of_nat (inversions perm) < 2 ^ 64)%Z ->
  exists it, new (T := T) bp perm source unused = Done it /\ is_iter perm it /\
    cursor it = swap_count it /\ it_source it = source /\ unused_value_count it = unused.
Proof.
  intros Hok Hfit. unfold new.
  destruct (find_sortable_range_spec _ _ Hok) as (pre & mid & post & E & Hf & ->).
  destruct Hok as [Hn _]. rewrite E in Hn, Hfit. subst perm.
  assert (NoDup mid) as Hm by (apply NoDup_app in Hn as (_ & _ & Hn); by apply NoDup_app in Hn as (? & _)).
  bind_done. rewrite slice_mid. bind_done.
  set (rk := stable_sort Nat.leb mid).
  assert (rk ≡ₚ mid) as Hrk by apply stable_sort_perm.
  assert (length rk = length mid) as Lrk by (by rewrite Hrk).
  rewrite (rank_loop_spec mid rk Hm Hrk (stable_sort_lt mid Hm) [] mid); [| done | |].
  2:{ split; [rewrite length_replicate; lia|]. intros r v _ H. by apply elem_of_nil in H. }
  2:{ rewrite <- Lrk. eapply stands_ext; [|apply zeros_marks]. intros i _. unfold unplaced.
      destruct (rk !! i); [|done]. by rewrite bool_decide_false by apply not_elem_of_nil. }
  bind_done. set (lb := (fun v => before_count v mid) <$> rk).
  destruct (at_least_spec lb) as (t & al & -> & Ht & Hal & Hget). bind_done.
  rewrite Ht. bind_done.
  rewrite mid_inversions in Hfit by done.
  assert (list_sum lb = inversions mid) as Hsum by (by apply larger_sum).
  rewrite Hsum, usize_arith_exact by done. bind_done.
  assert (forall e, e ∈ table [] mid -> e.2 ∈ lb) as Hin.
  { intros e He. rewrite table_before_count in He by done.
    apply list_elem_of_fmap in He as (v & -> & Hv). apply list_elem_of_fmap. exists v. by rewrite Hrk. }
  eexists. split; [done|]. split_and!; try done. exists pre, mid, post.
  constructor; simpl; try done.
  - split; [done|]. by apply stable_sort_lt.
  - split; [lia|]. intros e He%Hin%foldr_max_bound. lia.
  - intros Hne. rewrite Hal. assert (foldr Nat.max 0 lb < length mid); [|lia].
    apply foldr_max_lt; [destruct mid; simpl; [done|lia]|]. apply Forall_forall.
    intros b Hb. apply list_elem_of_fmap in Hb as (v & -> & Hv). rewrite Hrk in Hv.
    apply (table_bound mid (v, before_count v mid)). rewrite table_before_count by done.
    apply list_elem_of_fmap. eauto.
  - intros p Hp. apply Hget. lia.
  - by rewrite mid_inversions.
  - rewrite splice_mid, bubble_framed by (done || lia). f_equal. f_equal.
    apply sorted_unique; [|by apply bubble_sorted|by rewrite bubble_perm].
    by apply sorted_lt_le, stable_sort_lt.
Qed.

(** [seek] moves to the state after the given number of swaps. *)
Lemma seek_state perm0 pre mid post it swaps :
  iter_ok perm0 pre mid post it -> swaps <= inversions mid -> mid <> [] ->
  exists passes partial free, passes_within it swaps = Done (passes, partial) /\
    ones (length mid) = Done free /\
    forall state, length state = length mid ->
      (st ← place_loop (ranked it) (larger_before it) passes free state;
       swap_loop (S (length st)) partial 0 st) = Done (bubble swaps mid).
Proof.
  intros [E Hf _ Hn [Hr Hs] Hlb [Hd2 Hd] Hbelow Hal _ _ _] Hsw Hne.
  assert (NoDup mid) as Hm by (rewrite E in Hn; apply NoDup_app in Hn as (_ & _ & Hn); by apply NoDup_app in Hn as (? & _)).
  set (d := length (at_least it) - 2) in *. specialize (Hbelow Hne).
  unfold passes_within. rewrite usize_sub_exact by done. fold d. bind_done.
  destruct (passes_loop_spec (at_least it) d swaps (fun q => deeper q mid) (S d) 0) as (p & Hpl & Hp & Hle & Hgt).
  { intros q Hq. rewrite Hal by lia. f_equal. rewrite Hlb, Nat.add_1_r.
    rewrite <- (count_ge_deeper q mid Hm). apply Permutation_length, List_filter_perm. by rewrite Hr. }
  { lia. } { lia. } { unfold range_sum. simpl. lia. }
  change (range_sum _ 0 0) with 0 in Hpl. rewrite Hpl. bind_done. rewrite usize_sub_exact by done. bind_done.
  set (partial := swaps - range_sum (fun q => deeper q mid) 0 p).
  assert (partial <= deeper p mid) as Hpart.
  { destruct (Nat.lt_ge_cases p d); [unfold partial; lia|]. pose proof (sum_deeper d mid Hd).
    assert (p = d) as -> by lia. unfold partial. lia. }
  destruct (ones_marks (length mid)) as (free & -> & Hfree).
  exists p, partial, free. split_and!; [done|done|]. intros state Hst.
  assert (length (Nat.iter p full_pass mid) = length mid) as Hli by (by rewrite iter_pass_perm).
  rewrite (place_loop_spec (Nat.iter p full_pass mid)).
  - bind_done. rewrite swap_loop_pass.
    + f_equal. rewrite <- bubble_split by (done || lia). f_equal.
      change (list_sum _) with (range_sum (fun q => deeper q mid) 0 p). unfold partial. lia.
    + rewrite pass_left, iter_pass_positives by (done || by apply iter_pass_NoDup). lia.
  - by apply iter_pass_NoDup.
  - done.
  - intros v Hv. by rewrite iter_pass_perm, <- Hr.
  - intros u w Hu Hnu. rewrite iter_pass_perm, <- Hr in Hu. done.
  - rewrite Hlb. apply Forall2_fmap_r, Forall_Forall2_diag, Forall_forall. intros v Hv.
    rewrite before_count_iter; [done|done|]. by rewrite <- Hr.
  - rewrite Hli. eapply stands_ext; [|exact Hfree]. intros i Hi. unfold unplaced.
    destruct (Nat.iter p full_pass mid !! i) as [v|] eqn:Ev.
    + rewrite bool_decide_true; [done|]. rewrite Hr, <- (iter_pass_perm p). by eapply list_elem_of_lookup_2.
    + apply lookup_ge_None in Ev. lia.
  - lia.
  - intros q v Hq Hv. exfalso. apply Hv. rewrite Hr, <- (iter_pass_perm p). by eapply list_elem_of_lookup_2.
Qed.
Lemma seek_ok perm0 it k :
  is_iter perm0 it ->
  exists it', seek it k = Done it' /\ is_iter perm0 it' /\
    cursor it' = Nat.min k (inversions perm0) /\ swap_count it' = swap_count it /\
    it_source it' = it_source it /\ unused_value_count it' = unused_value_count it.
Proof.
  intros (pre & mid & post & Hok). pose proof Hok as [E Hf Hso Hn Hrk Hlb Hdep Hbel Hal Hc Hcur Hp].
  unfold seek. rewrite Hc. destruct (Nat.eqb_spec (Nat.min k (inversions perm0)) (cursor it)) as [Hk|Hk].
  { exists it. split_and!; try done. by exists pre, mid, post. }
  rewrite E, mid_inversions in Hk, Hc |- * by done.
  assert (mid <> []) as Hne.
  { intros ->. change (inversions []) with 0 in *. lia. }
  destruct (seek_state perm0 pre mid post it (Nat.min k (inversions mid)) Hok ltac:(lia) Hne)
    as (p & partial & free & -> & Hfree & Hst).
  bind_done. rewrite Hp, Hso, E.
  assert (NoDup mid) as Hm by (rewrite E in Hn; apply NoDup_app in Hn as (_ & _ & Hn); by apply NoDup_app in Hn as (? & _)).
  rewrite bubble_framed by (done || lia).
  pose proof (slice_mid pre (bubble (cursor it) mid) post) as Hsl.
  assert (length (bubble (cursor it) mid) = length mid) as Lb by (by rewrite bubble_perm).
  rewrite Lb in Hsl. rewrite Hsl. bind_done. rewrite Lb, Hfree. bind_done.
  specialize (Hst _ Lb). destruct (place_loop _ _ _ _ _) as [st|]; [|done]. cbn [mbind outcome_bind] in *.
  rewrite Hst. bind_done. eexists. split; [done|]. split_and!; try done.
  exists pre, mid, post. constructor; simpl; try done.
  - by rewrite <- E.
  - by rewrite mid_inversions.
  - lia.
  - pose proof (splice_mid pre (bubble (cursor it) mid) post) as Hsp. rewrite Lb in Hsp. rewrite Hsp.
    rewrite bubble_framed by (done || lia). done.
Qed.
End Iter.
End BubblesIter.

(** * Matching the items of two schedules

    [generate_permutation] pairs the k-th occurrence of a value in the target
    with the k-th occurrence of that value in the source.  The lemmas show this
    of the index map the code builds and pops from, and that matched and
    unmatched indices together are exactly the indices of the source. *)

Module BubblesMatch.
Import BubbleSort Bubbles BubblesInv BubblesIter.

Section Match.
Context {T : Type} `{Countable T}.
Implicit Types (l source target : list T) (v : T) (index : gmap T (list nat)).

(** ** The reference *)

(** The indices at which [v] occurs, in order, and how often it does. *)
Fixpoint positions (i : nat) l v : list nat :=
  match l with
  | [] => []
  | u :: l' => if decide (u = v) then i :: positions (S i) l' v else positions (S i) l' v
  end.
Fixpoint occurrences v l : nat :=
  match l with [] => 0 | u :: l' => (if decide (u = v) then 1 else 0) + occurrences v l' end.
(** The partner of the target's item [j]. *)
Definition partner source target (j : nat) : option nat :=
  v ← target !! j; positions 0 source v !! occurrences v (take j target).
(** The indices, from [i] on, of the items without a partner. *)
Fixpoint unpaired (i : nat) (r : list (option nat)) : list nat :=
  match r with
  | [] => []
  | None :: r' => i :: unpaired (S i) r'
  | Some _ :: r' => unpaired (S i) r'
  end.

(** ** The index map *)

Definition bucket index v : list nat := default [] (index !! v).
Lemma bucket_insert_eq index v b : bucket (<[v := b]> index) v = b.
Proof. unfold bucket. by rewrite lookup_insert_eq. Qed.
Lemma bucket_insert_ne index v w b : v <> w -> bucket (<[v := b]> index) w = bucket index w.
Proof. intros. unfold bucket. by rewrite lookup_insert_ne. Qed.
Lemma bucket_fmap_rev index v : bucket ((@rev nat) <$> index) v = rev (bucket index v).
Proof. unfold bucket. rewrite lookup_fmap. by destruct (index !! v). Qed.

Lemma index_items_bucket i l index v :
  bucket (index_items i l index) v = bucket index v ++ positions i l v.
Proof.
  revert i index. induction l as [|u l IH]; intros i index; simpl; [by rewrite app_nil_r|].
  rewrite IH. destruct (decide (u = v)) as [->|Hne].
  - rewrite bucket_insert_eq. by rewrite <- (assoc_L (++)).
  - by rewrite bucket_insert_ne.
Qed.
(** Popping takes the first remaining index of the value. *)
Lemma pop_index_bucket index v :
  exists o index', pop_index index v = (o, index') /\ o = head (rev (bucket index v)) /\
    forall w, rev (bucket index' w) =
      if decide (v = w) then tail (rev (bucket index w)) else rev (bucket index w).
Proof.
  unfold pop_index. destruct (index !! v) as [b|] eqn:E.
  2:{ exists None, index. unfold bucket. rewrite E. split_and!; [done|done|].
      intros w. destruct (decide (v = w)) as [<-|]; [by rewrite E|done]. }
  destruct b as [|x b _] using rev_ind.
  { exists None, index. unfold bucket. rewrite E. split_and!; [done|done|].
    intros w. destruct (decide (v = w)) as [<-|]; [by rewrite E|done]. }
  rewrite last_snoc. exists (Some x), (<[v := b]> index).
  rewrite removelast_last. split_and!; [done| |].
  - unfold bucket. rewrite E. simpl. by rewrite rev_app_distr.
  - intros w. destruct (decide (v = w)) as [<-|Hne].
    + rewrite bucket_insert_eq. unfold bucket. rewrite E. simpl. by rewrite rev_app_distr.
    + by rewrite bucket_insert_ne.
Qed.
Lemma match_items_spec i l index :
  exists r un index', match_items i l index = (r, un, index') /\ length r = length l /\
    un = unpaired i r /\
    (forall j v, l !! j = Some v -> r !! j = Some (rev (bucket index v) !! occurrences v (take j l))).
Proof.
  revert i index. induction l as [|u l IH]; intros i index; cbn [match_items].
  { exists [], [], index. done. }
  destruct (pop_index_bucket index u) as (o & index1 & -> & Ho & Hb).
  destruct (IH (S i) index1) as (r & un & index' & -> & Hlen & Hun & Hr).
  eexists _, _, _. split_and!; [done|simpl; by rewrite Hlen| |].
  - destruct o; simpl; by rewrite Hun.
  - intros [|j] v Hj; simpl in Hj; simplify_eq/=.
    + by destruct (rev (bucket index v)).
    + rewrite (Hr j v Hj), Hb. f_equal. destruct (decide (u = v)) as [->|]; [|done].
      by destruct (rev (bucket index v)).
Qed.

(** ** No index is lost *)

Definition entries index : list nat := concat (snd <$> map_to_list index).
Lemma entries_delete index v : entries index ≡ₚ bucket index v ++ entries (delete v index).
Proof.
  unfold bucket. destruct (index !! v) as [b|] eqn:E.
  - unfold entries. rewrite <- (map_to_list_delete index v b E). done.
  - by rewrite delete_id.
Qed.
Lemma entries_insert index v b : entries (<[v := b]> index) ≡ₚ b ++ entries (delete v index).
Proof.
  rewrite (entries_delete (<[v := b]> index) v), bucket_insert_eq. by rewrite delete_insert_eq.
Qed.
Lemma index_items_entries i l index :
  entries (index_items i l index) ≡ₚ seq i (length l) ++ entries index.
Proof.
  revert i index. induction l as [|u l IH]; intros i index; simpl; [done|].
  rewrite IH. change (default [] (index !! u)) with (bucket index u).
  rewrite entries_insert, (entries_delete index u). rewrite Permutation_middle. f_equiv.
  rewrite <- (assoc_L (++)). simpl. by rewrite <- Permutation_middle.
Qed.
Lemma entries_rev index : entries ((@rev nat) <$> index) ≡ₚ entries index.
Proof.
  unfold entries. rewrite map_to_list_fmap, <- list_fmap_compose.
  induction (map_to_list index) as [|[v b] m IH]; [done|]. cbn.
  rewrite <- (Permutation_rev b). by f_equiv.
Qed.
Lemma pop_index_entries index v o index' :
  pop_index index v = (o, index') -> entries index ≡ₚ option_list o ++ entries index'.
Proof.
  unfold pop_index. destruct (index !! v) as [b|] eqn:E; [|by intros [= <- <-]].
  destruct (last b) as [x|] eqn:Ex; [|by intros [= <- <-]]. intros [= <- <-].
  apply last_Some in Ex as [b' ->]. rewrite removelast_last, entries_insert, (entries_delete index v).
  unfold bucket. rewrite E. simpl. rewrite <- Permutation_middle, app_nil_r. done.
Qed.
Lemma match_items_entries i l index r un index' :
  match_items i l index = (r, un, index') -> entries index ≡ₚ omap id r ++ entries index'.
Proof.
  revert i index r un. induction l as [|u l IH]; intros i index r un; cbn [match_items].
  { by intros [= <- <- <-]. }
  destruct (pop_index index u) as [o index1] eqn:Ep.
  destruct (match_items (S i) l index1) as [[r1 un1] index2] eqn:Em.
  intros [= <- <- <-]. rewrite (pop_index_entries _ _ _ _ Ep), (IH _ _ _ _ Em).
  by destruct o.
Qed.

(** ** The permutation *)

Lemma generate_expanded_spec source target :
  let x := generate_expanded_permutation source target in
  x_perm x = partner source target <$> seq 0 (length target) /\
  x_unmatched_target_indices x = unpaired 0 (x_perm x) /\
  omap id (x_perm x) ++ x_unmatched_source_indices x ≡ₚ seq 0 (length source) /\
  StronglySorted le (x_unmatched_source_indices x).
Proof.
  intros x. unfold x, generate_expanded_permutation.
  destruct (match_items_spec 0 target ((@rev nat) <$> index_items 0 source ∅))
    as (r & un & index' & E & Hlen & Hun & Hr). rewrite E. cbn [x_perm x_unmatched_source_indices x_unmatched_target_indices].
  split_and!.
  - apply list_eq_same_length with (length target); [by rewrite length_fmap, length_seq|done|].
    intros j a b Hj Ha Hb. rewrite list_lookup_fmap, lookup_seq_lt in Hb by done. simpl in Hb.
    destruct (lookup_lt_is_Some_2 target j Hj) as [v Hv]. rewrite (Hr j v Hv) in Ha.
    rewrite bucket_fmap_rev, rev_involutive, index_items_bucket in Ha.
    unfold partner in Hb. rewrite Hv in Hb. simplify_eq/=. done.
  - done.
  - rewrite stable_sort_perm. change (concat _) with (entries index').
    rewrite <- (match_items_entries _ _ _ _ _ _ E), entries_rev, index_items_entries.
    unfold entries. rewrite map_to_list_empty. by rewrite app_nil_r.
  - assert (StronglySorted (fun a b => Nat.leb a b = true) (stable_sort Nat.leb (concat (snd <$> map_to_list index')))) as Hs.
    { apply stable_sort_sorted; intros; rewrite ?Nat.leb_le in *; lia. }
    induction Hs as [|a s Hs IH Ha]; constructor; [done|]. rewrite Forall_forall in *.
    intros b Hb%Ha. by apply Nat.leb_le.
Qed.
Lemma generate_perm_ok source target : perm_ok (length source) (perm (generate_permutation source target)).
Proof.
  destruct (generate_expanded_spec source target) as (_ & _ & Hp & _). unfold generate_permutation. simpl.
  split.
  - pose proof (NoDup_seq 0 (length source)) as Hn. rewrite <- Hp in Hn.
    by apply NoDup_app in Hn as (? & _).
  - intros v Hv. assert (v ∈ seq 0 (length source)) as Hs by (rewrite <- Hp; set_solver).
    apply elem_of_seq in Hs. lia.
Qed.
End Match.
End BubblesMatch.
