(* ===== verification/BubblesProps.v ===== *)
(** * Theorems on permutations and their bubble sort

    Matching two schedules, moving about in the bubble sort between them, and
    what its distance means. *)
From Stdlib Require Import ZArith Lia List Sorting.Sorted.
From stdpp Require Import base gmap list sorting.
From S2P Require Import Prelude BubbleSort Bubbles BubblesInv BubblesIter.
Open Scope nat_scope.

Module BubblesProps.
Import BubbleSort Bubbles BubblesInv BubblesIter BubblesMatch.

Section Moves.
Context {T : Type} `{Countable T}.
Implicit Types (source target : list T) (it : BubbleSortIter T).

(** ** Calls on the iterator *)

Inductive move :=
  | MNext | MNextBack | MSkip (distance : nat) | MSkipBack (distance : nat)
  | MMidpoint | MInterpolate (percentage : nat).

(** A call, and the items of the state it shows. *)
Definition shown (o : option (Perm T)) : outcome (option (list T)) :=
  match o with None => Done None | Some p => l ← items p; Done (Some l) end.
Definition exec (bp : profile) it (m : move) : outcome (option (list T) * BubbleSortIter T) :=
  match m with
  | MNext => '(o, it') ← next it; s ← shown o; Done (s, it')
  | MNextBack => '(o, it') ← next_back it; s ← shown o; Done (s, it')
  | MSkip d => it' ← skip it d; Done (None, it')
  | MSkipBack d => it' ← skip_back it d; Done (None, it')
  | MMidpoint => '(p, it') ← midpoint it; s ← shown (Some p); Done (s, it')
  | MInterpolate pct => '(p, it') ← interpolate bp it pct; s ← shown (Some p); Done (s, it')
  end.
Fixpoint run (bp : profile) it (ms : list move) : outcome (list (option (list T)) * BubbleSortIter T) :=
  match ms with
  | [] => Done ([], it)
  | m :: ms' =>
      '(s, it1) ← exec bp it m; '(ss, it2) ← run bp it1 ms'; Done (s :: ss, it2)
  end.

(** ** The reference: a position in a sort of [n] swaps *)

Definition goes_to (n c : nat) (m : move) : nat :=
  match m with
  | MNext => Nat.min (c + 1) n
  | MNextBack => c - 1
  | MSkip d => Nat.min (c + d) n
  | MSkipBack d => c - d
  | MMidpoint => n / 2
  | MInterpolate pct => Nat.min (n * pct / 100) n
  end.
Definition shows (n c : nat) (m : move) : bool :=
  match m with
  | MNext => c <? n | MNextBack => 0 <? c | MSkip _ | MSkipBack _ => false
  | MMidpoint | MInterpolate _ => true
  end.
Definition well_formed (m : move) : Prop :=
  match m with MInterpolate pct => pct <= 255 | _ => True end.
(** The items of the state after [k] swaps of a sort that makes its swaps. *)
Definition state_items source (p : list nat) (k : nat) : list T :=
  omap (fun i => source !! i) (bubble k p).
Fixpoint ref_run source (p : list nat) (c : nat) (ms : list move) : list (option (list T)) * nat :=
  match ms with
  | [] => ([], c)
  | m :: ms' =>
      let c' := goes_to (inversions p) c m in
      let '(ss, c2) := ref_run source p c' ms' in
      ((if shows (inversions p) c m then Some (state_items source p c') else None) :: ss, c2)
  end.

(** ** One call *)

Lemma collect_spec (p : Perm T) fuel :
  p_i p <= length (p_perm p) < p_i p + fuel -> (forall v, v ∈ p_perm p -> v < length (p_source p)) ->
  collect fuel p = Done (omap (fun i => p_source p !! i) (drop (p_i p) (p_perm p))).
Proof.
  revert p. induction fuel as [|fuel IH]; intros [pm src i]; cbn [p_i p_perm p_source]; intros Hn Hb;
    cbn [collect]; unfold perm_next; cbn [p_i p_perm p_source].
  { lia. }
  destruct (Nat.ltb_spec i (length pm)).
  - destruct (lookup_lt_is_Some_2 pm i) as [v Hv]; [lia|].
    destruct (lookup_lt_is_Some_2 src v) as [x Hx]; [apply Hb; by eapply list_elem_of_lookup_2|].
    rewrite (get_at_Done _ _ _ Hv). bind_done. rewrite (get_at_Done _ _ _ Hx).
    bind_done. rewrite IH by (cbn; done || lia).
    cbn [mbind outcome_bind p_i p_perm p_source]. rewrite (drop_S _ _ _ Hv). simpl. rewrite Hx.
    by rewrite Nat.add_1_r.
  - by rewrite drop_ge by lia.
Qed.

(** [it] sorts [p] over [source]; its state is the one the swaps reach. *)
Definition sorts source (p : list nat) it : Prop :=
  is_iter p it /\ it_source it = source /\ (forall v, v ∈ p -> v < length source).
Lemma sorts_count source p it : sorts source p it -> swap_count it = inversions p /\ cursor it <= inversions p.
Proof. intros [(pre & mid & post & Hok) _]. destruct Hok. lia. Qed.
Lemma sorts_perm source p it : sorts source p it -> it_perm it = bubble (cursor it) p.
Proof. intros [(pre & mid & post & Hok) _]. by destruct Hok. Qed.
Lemma shown_current source p it :
  sorts source p it -> shown (Some (current it)) = Done (Some (state_items source p (cursor it))).
Proof.
  intros Hs. pose proof (sorts_perm source p it Hs) as Hp. destruct Hs as (_ & Hsrc & Hb).
  unfold shown, items, current. cbn [perm_new p_perm p_source p_i].
  rewrite collect_spec; cbn [perm_new p_perm p_source p_i]; [|lia|].
  - bind_done. unfold state_items. by rewrite drop_0, Hp, Hsrc.
  - intros v. rewrite Hp, Hsrc, bubble_perm. apply Hb.
Qed.
Lemma seek_sorts source p it k :
  sorts source p it -> exists it', seek it k = Done it' /\ sorts source p it' /\
    cursor it' = Nat.min k (inversions p).
Proof.
  intros (Hi & Hs & Hb). destruct (seek_ok p it k Hi) as (it' & -> & Hi' & Hc & _ & Hs' & _).
  exists it'. split_and!; [done| |done]. split_and!; [done|by rewrite Hs'|done].
Qed.

Lemma sort_exec_spec bp source p it m :
  sorts source p it -> well_formed m -> (Z.of_nat (inversions p) * 255 < 2 ^ 64)%Z ->
  exists it', exec bp it m =
    Done (if shows (inversions p) (cursor it) m
          then Some (state_items source p (goes_to (inversions p) (cursor it) m)) else None, it') /\
    sorts source p it' /\ cursor it' = goes_to (inversions p) (cursor it) m.
Proof.
  intros Hs Hm Hfit. destruct (sorts_count _ _ _ Hs) as [Hc Hcur].
  assert (forall k, exists it', seek it k = Done it' /\ sorts source p it' /\
    cursor it' = Nat.min k (inversions p) /\
    shown (Some (current it')) = Done (Some (state_items source p (Nat.min k (inversions p))))) as Hseek.
  { intros k. destruct (seek_sorts source p it k Hs) as (it' & ? & Hs' & Hc'). exists it'.
    split_and!; [done|done|done|]. by rewrite (shown_current source p it' Hs'), Hc'. }
  destruct m as [| |d|d| |pct]; cbn [exec goes_to shows].
  - unfold next. rewrite Hc. destruct (Nat.ltb_spec (cursor it) (inversions p)).
    + destruct (Hseek (cursor it + 1)) as (it' & -> & Hs' & Hc' & Hsh). bind_done. rewrite Hsh. eauto.
    + exists it. split_and!; [done|done|lia].
  - unfold next_back. destruct (Nat.ltb_spec 0 (cursor it)).
    + destruct (Hseek (cursor it - 1)) as (it' & -> & Hs' & Hc' & Hsh). bind_done. rewrite Hsh.
      rewrite Nat.min_l in * by lia. eauto.
    + exists it. split_and!; [done|done|lia].
  - unfold skip. destruct (Hseek (usize_sat_add (cursor it) d)) as (it' & -> & Hs' & Hc' & _).
    exists it'. split_and!; [done|done|]. rewrite Hc'. unfold usize_sat_add, usize_fits, u64_max.
    destruct (Z.ltb_spec (Z.of_nat (cursor it + d)) (2 ^ 64)); [done|].
    lia.
  - unfold skip_back. destruct (Hseek (cursor it - d)) as (it' & -> & Hs' & Hc' & _).
    exists it'. split_and!; [done|done|lia].
  - unfold midpoint. rewrite Hc. pose proof (Nat.Div0.div_le_upper_bound (inversions p) 2 (inversions p) ltac:(lia)).
    destruct (Hseek (inversions p / 2)) as (it' & -> & Hs' & Hc' & Hsh).
    bind_done. rewrite Hsh. rewrite Nat.min_l in * by done. eauto.
  - unfold interpolate. rewrite Hc, usize_arith_exact by (rewrite Nat2Z.inj_mul; simpl in Hm; nia). bind_done.
    destruct (Hseek (inversions p * pct / 100)) as (it' & -> & Hs' & Hc' & Hsh).
    bind_done. rewrite Hsh. eauto.
Qed.
Lemma run_spec bp source p ms it :
  sorts source p it -> Forall well_formed ms -> (Z.of_nat (inversions p) * 255 < 2 ^ 64)%Z ->
  exists it', run bp it ms = Done ((ref_run source p (cursor it) ms).1, it') /\
    sorts source p it' /\ cursor it' = (ref_run source p (cursor it) ms).2.
Proof.
  intros Hs Hm Hfit. revert it Hs. induction Hm as [|m ms Hm _ IH]; intros it Hs; cbn [run ref_run].
  { by exists it. }
  destruct (sort_exec_spec bp source p it m Hs Hm Hfit) as (it1 & -> & Hs1 & Hc1). bind_done.
  destruct (IH it1 Hs1) as (it2 & -> & Hs2 & Hc2). bind_done. rewrite Hc1 in *.
  destruct (ref_run source p _ ms) as [ss c2]. by exists it2.
Qed.

(** ** Both ends of the sort *)

Lemma positions_lookup i (l : list T) v k q :
  positions i l v !! k = Some q -> i <= q /\ l !! (q - i) = Some v.
Proof.
  revert i k. induction l as [|u l IH]; intros i k; simpl; [by rewrite lookup_nil|].
  destruct (decide (u = v)) as [->|].
  - destruct k as [|k]; simpl.
    + intros [= <-]. rewrite Nat.sub_diag. split; [lia|done].
    + intros (Hq & Hv)%IH. split; [lia|]. replace (q - i) with (S (q - S i)) by lia. done.
  - intros (Hq & Hv)%IH. split; [lia|]. replace (q - i) with (S (q - S i)) by lia. done.
Qed.
Lemma partner_sound source target j i : partner source target j = Some i -> source !! i = target !! j.
Proof.
  unfold partner. destruct (target !! j) as [v|] eqn:E; [|done]. simpl.
  intros (_ & Hv)%positions_lookup. by rewrite Nat.sub_0_r in Hv.
Qed.
(** The items that have a partner, in the target's order and in the source's. *)
Definition matched_target source target : list T :=
  omap (fun j => if partner source target j then target !! j else None) (seq 0 (length target)).
Definition matched_source source (p : list nat) : list T :=
  omap (fun i => if bool_decide (i ∈ p) then source !! i else None) (seq 0 (length source)).

Lemma start_items source target :
  state_items source (perm (generate_permutation source target)) 0 = matched_target source target.
Proof.
  unfold state_items, matched_target. rewrite bubble_0. unfold generate_permutation, collapse. cbn [perm].
  destruct (generate_expanded_spec source target) as (-> & _).
  induction (seq 0 (length target)) as [|j l IH]; [done|]. simpl.
  destruct (partner source target j) as [i|] eqn:E; simpl; [|exact IH].
  rewrite (partner_sound _ _ _ _ E). destruct (target !! j); [f_equal|]; exact IH.
Qed.
Lemma sorted_filter (f : nat -> bool) l : StronglySorted le l -> StronglySorted le (List.filter f l).
Proof.
  induction 1 as [|a l Hl IH Ha]; simpl; [constructor|]. destruct (f a); [|done].
  constructor; [done|]. rewrite Forall_forall in *. intros b Hb. apply Ha.
  eapply elem_of_sublist; [done|apply filter_sublist].
Qed.
Lemma end_items source p :
  perm_ok (length source) p -> state_items source p (inversions p) = matched_source source p.
Proof.
  intros [Hn Hb]. unfold state_items, matched_source.
  assert (bubble (inversions p) p = List.filter (fun i => bool_decide (i ∈ p)) (seq 0 (length source))) as ->.
  { apply sorted_unique; [by apply bubble_sorted| |].
    - apply sorted_filter, seq_sorted.
    - rewrite bubble_perm. apply NoDup_Permutation; [done|apply NoDup_List_filter, NoDup_seq|].
      intros i. split.
      + intros Hi. apply list_elem_of_In, List.filter_In. rewrite <- list_elem_of_In, elem_of_seq.
        pose proof (Hb i Hi). split; [lia|by apply bool_decide_eq_true].
      + intros [_ Hi]%list_elem_of_In%List.filter_In. by apply bool_decide_eq_true in Hi. }
  induction (seq 0 (length source)) as [|i l IH]; [done|]. simpl.
  destruct (bool_decide (i ∈ p)); simpl; [|exact IH]. destruct (source !! i); [f_equal|]; exact IH.
Qed.

Lemma iterable_sorts bp source target :
  (Z.of_nat (length source) <= 2 ^ 28)%Z ->
  let p := perm (generate_permutation source target) in
  (Z.of_nat (inversions p) * 255 < 2 ^ 64)%Z /\
  exists it, iterable_bubble_sort bp source target = Done it /\ sorts source p it /\
    cursor it = inversions p /\
    unused_value_count it = length (unmatched_source_indices (generate_permutation source target)) +
      length (unmatched_target_indices (generate_permutation source target)).
Proof.
  intros Hlen p. pose proof (generate_perm_ok source target) as Hok. fold p in Hok.
  pose proof (perm_ok_length _ _ Hok). pose proof (inversions_bound p).
  assert (Z.of_nat (inversions p) * 255 < 2 ^ 64)%Z as Hfit.
  { assert (2 * Z.of_nat (inversions p) <= 2 ^ 28 * 2 ^ 28)%Z; [|lia].
    transitivity (Z.of_nat (length p) * Z.of_nat (length p))%Z; nia. }
  split; [done|]. unfold iterable_bubble_sort, iterable_bubble_sort_from_perm. fold p.
  destruct (new_ok bp p source (length (unmatched_source_indices (generate_permutation source target)) +
    length (unmatched_target_indices (generate_permutation source target))) Hok ltac:(lia))
    as (it & -> & Hi & Hc & Hs & Hu).
  assert (sorts source p it) as Hso by (split_and!; [done|done|apply Hok]).
  destruct (sorts_count _ _ _ Hso). exists it. split_and!; [done|done|lia|done].
Qed.
Lemma unpaired_length i r : length (unpaired i r) <= length r.
Proof. revert i. induction r as [|[|] r IH]; intros i; simpl; [lia|specialize (IH (S i)); lia..]. Qed.
Lemma unmatched_lengths source target :
  let r := generate_permutation source target in
  length (unmatched_source_indices r) <= length source /\
  length (unmatched_target_indices r) <= length target.
Proof.
  destruct (generate_expanded_spec source target) as (H1 & H2 & H3 & _). split; simpl.
  - apply Permutation_length in H3. rewrite length_app, length_seq in H3. lia.
  - rewrite H2. etrans; [apply unpaired_length|]. by rewrite H1, length_fmap, length_seq.
Qed.
End Moves.

(** ** Theorems *)

(** C31: the iterator between two schedules of at most 2^28 events never panics,
    and whatever sequence of moves is made on it, it shows at every move exactly
    the items of the state that a bubble sort which makes its swaps one by one
    has reached after that many swaps, in every build profile. *)
Theorem iterator_is_bubble_sort {T} `{Countable T} (bp : profile) (source target : list T) (ms : list move)
    (Hlen : (Z.of_nat (length source) <= 2 ^ 28)%Z) (Hms : Forall well_formed ms) :
  let p := perm (generate_permutation source target) in
  exists it it', iterable_bubble_sort bp source target = Done it /\
    run bp it ms = Done ((ref_run source p (inversions p) ms).1, it') /\
    it_perm it' = bubble ((ref_run source p (inversions p) ms).2) p.
Proof.
  intros p. destruct (iterable_sorts bp source target Hlen) as [Hfit (it & E & Hs & Hc & _)]. fold p in Hfit, Hs, Hc.
  destruct (run_spec bp source p ms it Hs Hms Hfit) as (it' & Hr & Hs' & Hc'). rewrite Hc in *.
  exists it, it'. split_and!; [done|done|]. rewrite <- Hc'. by apply (sorts_perm source).
Qed.
Lemma iterator_is_bubble_sort_witness :
  let p := perm (generate_permutation [10; 20; 30; 40] [40; 10; 50; 30; 20]) in
  let ms := [MMidpoint; MNextBack; MSkip 9; MInterpolate 25] in
  inversions p = 4 /\
  (ref_run [10; 20; 30; 40] p 4 ms).1 =
    [Some [10; 30; 40; 20]; Some [10; 40; 30; 20]; None; Some [10; 40; 30; 20]] /\
  exists it it', iterable_bubble_sort release [10; 20; 30; 40] [40; 10; 50; 30; 20] = Done it /\
    run release it ms = Done ((ref_run [10; 20; 30; 40] p (inversions p) ms).1, it') /\
    it_perm it' = bubble ((ref_run [10; 20; 30; 40] p (inversions p) ms).2) p.
Proof.
  split; [vm_compute; reflexivity|]. split; [vm_compute; reflexivity|].
  apply iterator_is_bubble_sort; [done|repeat constructor; simpl; lia].
Defined.

(** the swap distance between two schedules is the least number of
    exchanges of neighbours that puts their common events in order, and the
    edit distance adds the events only one of them has. *)
Theorem swap_distance_least {T} `{Countable T} (bp : profile) (source target : list T)
    (Hlen : (Z.of_nat (length source) <= 2 ^ 28)%Z) (Htgt : (Z.of_nat (length target) <= 2 ^ 28)%Z) :
  let r := generate_permutation source target in
  exists it, iterable_bubble_sort bp source target = Done it /\
    (forall n l, StronglySorted le l -> nsteps transpose n (perm r) l -> swap_distance it <= n) /\
    (exists l, StronglySorted le l /\ nsteps transpose (swap_distance it) (perm r) l) /\
    edit_distance bp it = Done (swap_distance it +
      (length (unmatched_source_indices r) + length (unmatched_target_indices r))).
Proof.
  intros r. destruct (iterable_sorts bp source target Hlen) as [Hfit (it & E & Hs & Hc & Hu)].
  fold r in Hfit, Hs, Hc, Hu. destruct (sorts_count _ _ _ Hs) as [Hn _]. pose proof (generate_perm_ok source target) as [Hnd _].
  fold r in Hnd. exists it. unfold swap_distance. rewrite Hn. split_and!; [done| | |].
  - intros n l Hl Hsteps. apply transpose_steps in Hsteps. rewrite (sorted_inversions l Hl) in Hsteps. lia.
  - exists (bubble (inversions (perm r)) (perm r)). split; [by apply bubble_sorted|by apply bubble_steps].
  - unfold edit_distance. rewrite Hn, Hu. apply usize_arith_exact.
    destruct (unmatched_lengths source target) as [H1 H2]. fold r in H1, H2. lia.
Qed.
Lemma swap_distance_least_witness :
  let r := generate_permutation [10; 20; 30; 40] [40; 10; 50; 30; 20] in
  perm r = [3; 0; 2; 1] /\
  exists it, iterable_bubble_sort release [10; 20; 30; 40] [40; 10; 50; 30; 20] = Done it /\
    (forall n l, StronglySorted le l -> nsteps transpose n (perm r) l -> swap_distance it <= n) /\
    (exists l, StronglySorted le l /\ nsteps transpose (swap_distance it) (perm r) l) /\
    edit_distance release it = Done (swap_distance it +
      (length (unmatched_source_indices r) + length (unmatched_target_indices r))).
Proof. split; [vm_compute; reflexivity|]. apply swap_distance_least; done. Defined.

(** matching two schedules pairs the k-th occurrence of each event in the
    target with its k-th occurrence in the source, lists the unmatched events
    of both in order and accounts for every source index once; the first state
    of the sort holds the target's matched events in the target's order and the
    last one those of the source in the source's order. *)
Theorem permutation_pairs_occurrences {T} `{Countable T} (source target : list T) :
  let x := generate_expanded_permutation source target in
  let r := generate_permutation source target in
  x_perm x = partner source target <$> seq 0 (length target) /\
  unmatched_target_indices r = unpaired 0 (x_perm x) /\
  perm r ++ unmatched_source_indices r ≡ₚ seq 0 (length source) /\
  StronglySorted le (unmatched_source_indices r) /\
  state_items source (perm r) 0 = matched_target source target /\
  state_items source (perm r) (inversions (perm r)) = matched_source source (perm r).
Proof.
  intros x r. destruct (generate_expanded_spec source target) as (H1 & H2 & H3 & H4).
  split_and!; [done|done|done|done| |].
  - apply start_items.
  - apply end_items, generate_perm_ok.
Qed.
End BubblesProps.
