(* ===== verification/BubblesOrder.v ===== *)
(** * Order along a bubble sort

    A bubble sort never separates what is already in order, so every state
    between two schedules keeps the order they agree on.  From this the
    permutations that align an intermediate state with either end are worked
    out: the distances to the two ends add up. *)
From Stdlib Require Import ZArith Lia List Sorting.Sorted.
From stdpp Require Import base gmap list sorting.
From S2P Require Import Prelude BubbleSort Bubbles BubblesInv BubblesIter BubblesProps.
Open Scope nat_scope.

Module BubblesOrder.
Import BubbleSort Bubbles BubblesInv BubblesIter BubblesMatch BubblesProps.

(** ** One value before another *)

Definition before (l : list nat) (x y : nat) : Prop := [x; y] `sublist_of` l.

Lemma before_app pre l x y :
  before (pre ++ l) x y <-> before pre x y \/ (x ∈ pre /\ y ∈ l) \/ before l x y.
Proof.
  unfold before. rewrite sublist_app_r. split.
  - intros (k1 & k2 & E & H1 & H2). destruct k1 as [|a [|b k1]]; simplify_eq/=.
    + by right; right.
    + right. left. by rewrite !singleton_sublist_l in *.
    + destruct k1, k2; simplify_eq/=. by left.
  - intros [H|[[H1 H2]|H]].
    + exists [x; y], []. split_and!; [done|done|apply sublist_nil_l].
    + exists [x], [y]. by rewrite !singleton_sublist_l.
    + exists [], [x; y]. split_and!; [done|apply sublist_nil_l|done].
Qed.
Lemma before_cons a l x y : before (a :: l) x y <-> (x = a /\ y ∈ l) \/ before l x y.
Proof.
  rewrite (before_app [a] l). unfold before at 1. split.
  - intros [H|[[->%list_elem_of_singleton ?]|?]]; [|by left|by right].
    apply sublist_length in H. simpl in H. lia.
  - intros [[-> ?]|?]; [right; left|by right; right]. split; [constructor|done].
Qed.
Lemma before_elem l x y : before l x y -> x ∈ l /\ y ∈ l.
Proof. intros H. split; (eapply elem_of_sublist; [|exact H]); set_solver. Qed.
Lemma before_total l x y : x ∈ l -> y ∈ l -> x <> y -> before l x y \/ before l y x.
Proof.
  induction l as [|a l IH]; [by rewrite elem_of_nil|].
  rewrite !elem_of_cons, !before_cons. intros [->|Hx] [->|Hy] Hne; naive_solver.
Qed.
Lemma before_asym l x y : NoDup l -> before l x y -> ~ before l y x.
Proof.
  induction l as [|a l IH]; [intros _ H; by apply sublist_nil_r in H|].
  rewrite NoDup_cons, !before_cons. intros [Ha Hl] [[-> Hy]|Hxy] [[-> Hx]|Hyx]; try done.
  - by apply before_elem in Hyx as [_ ?].
  - by apply before_elem in Hxy as [_ ?].
  - by apply IH.
Qed.
Lemma before_lookup l x y i j : l !! i = Some x -> l !! j = Some y -> i < j -> before l x y.
Proof.
  revert i j. induction l as [|a l IH]; intros [|i] [|j] Hi Hj Hij; simplify_eq/=; try lia.
  - apply before_cons. left. split; [done|]. by eapply list_elem_of_lookup_2.
  - apply before_cons. right. by eapply IH; [| |apply Nat.succ_lt_mono].
Qed.
Lemma before_lookup_inv l x y :
  before l x y -> exists i j, l !! i = Some x /\ l !! j = Some y /\ i < j.
Proof.
  induction l as [|a l IH]; [intros H; by apply sublist_nil_r in H|].
  intros [[-> Hy]|H]%before_cons.
  - apply list_elem_of_lookup in Hy as [j Hj]. exists 0, (S j). split_and!; [done|done|lia].
  - destruct (IH H) as (i & j & ? & ? & ?). exists (S i), (S j). split_and!; [done|done|lia].
Qed.
Lemma sorted_of_before l : (forall x y, before l x y -> x <= y) -> StronglySorted le l.
Proof.
  induction l as [|a l IH]; intros H; constructor.
  - apply IH. intros x y Hxy. apply H, before_cons. by right.
  - apply Forall_forall. intros y Hy. apply H, before_cons. by left.
Qed.

(** ** What is in order stays in order *)

Lemma adjacent_swap_before l l' x y : adjacent_swap l l' -> x < y -> before l x y -> before l' x y.
Proof.
  intros [pre a b post Hab] Hxy. rewrite !before_app, !before_cons, !elem_of_cons.
  intros [?|[[? ?]|[[-> [->|?]]|[[-> ?]|?]]]]; try lia; naive_solver.
Qed.
Lemma bubble_before k l x y :
  NoDup l -> k <= inversions l -> x < y -> before l x y -> before (bubble k l) x y.
Proof.
  intros Hl Hk Hxy Hb. induction k as [|k IH]; [by rewrite bubble_0|].
  eapply adjacent_swap_before; [apply bubble_succ; [done|lia]|done|]. apply IH. lia.
Qed.

(** A class of values in ascending order. *)
Definition in_order (l : list nat) (C : nat -> bool) : Prop :=
  forall x y, C x = true -> C y = true -> x < y -> before l x y.
Lemma in_order_filter n l C :
  l ≡ₚ seq 0 n -> (forall x y, C x = true -> C y = true -> x < y < n -> before l x y) ->
  List.filter C l = List.filter C (seq 0 n).
Proof.
  intros Hp Ho. assert (NoDup l) as Hl by (rewrite Hp; apply NoDup_seq).
  apply sorted_unique.
  - apply sorted_of_before. intros x y Hxy. apply Nat.le_ngt. intros Hlt.
    assert (before l x y) as Hb by (unfold before in *; etrans; [exact Hxy|apply filter_sublist]).
    apply before_elem in Hxy as [Hx Hy].
    apply list_elem_of_In, List.filter_In in Hx as [Hx Cx], Hy as [_ Cy].
    apply list_elem_of_In in Hx. rewrite Hp, elem_of_seq in Hx.
    apply (before_asym l x y Hl Hb), Ho; [done|done|lia].
  - apply sorted_filter, seq_sorted.
  - by apply List_filter_perm.
Qed.
Lemma filter_lookup_prefix {A} (C : A -> bool) l j x :
  l !! j = Some x -> C x = true ->
  List.filter C l !! length (List.filter C (take j l)) = Some x.
Proof.
  intros Hj Cx.
  assert (List.filter C l = List.filter C (take j l) ++ x :: List.filter C (drop (S j) l)) as ->.
  { rewrite <- (take_drop_middle l j x Hj) at 1. rewrite List.filter_app. simpl. by rewrite Cx. }
  by rewrite list_lookup_middle.
Qed.

Lemma before_lookup_filter n (C : nat -> bool) x y :
  x < y -> y < n -> C x = true -> C y = true -> before (List.filter C (seq 0 n)) x y.
Proof.
  intros Hxy Hy Cx Cy. replace n with (x + S (n - x - 1)) by lia.
  rewrite seq_app, List.filter_app. apply before_app. right. right. simpl. rewrite Cx.
  apply before_cons. left. split; [done|]. apply list_elem_of_In, List.filter_In.
  split; [apply list_elem_of_In, elem_of_seq; lia|done].
Qed.

(** ** Which permutation aligns two lists *)

Section Unique.
Context {T : Type} `{Countable T}.
Implicit Types (K M : list T) (p : list nat).

Definition at_key K (v : T) (i : nat) : bool := bool_decide (K !! i = Some v).
(** [p] lists the positions in [K] of the items of [M]. *)
Definition reorders p K M : Prop :=
  length M = length p /\ forall j i, p !! j = Some i -> M !! j = K !! i.
(** [p] keeps the order of equal items of [K]. *)
Definition stable p K : Prop :=
  forall x y, x < y -> is_Some (K !! x) -> K !! x = K !! y -> before p x y.

Lemma positions_filter i K v :
  positions i K v = (fun q => q + i) <$> List.filter (at_key K v) (seq 0 (length K)).
Proof.
  revert i. induction K as [|u K IH]; intros i; [done|]. cbn [positions length seq List.filter].
  assert (forall s, List.filter (at_key (u :: K) v) (S <$> s) = S <$> List.filter (at_key K v) s) as Hs.
  { induction s as [|q s IHs]; [done|]. rewrite fmap_cons. cbn [List.filter]. rewrite IHs.
    change (at_key (u :: K) v (S q)) with (at_key K v q). by destruct (at_key K v q). }
  rewrite <- (fmap_S_seq 0 (length K)), Hs, IH. change (at_key (u :: K) v 0) with (bool_decide (Some u = Some v)).
  destruct (decide (u = v)) as [->|Hne].
  - rewrite bool_decide_true by done. cbn. f_equal. rewrite <- list_fmap_compose.
    apply list_fmap_ext. intros. simpl. lia.
  - rewrite bool_decide_false by congruence. rewrite <- list_fmap_compose.
    apply list_fmap_ext. intros. simpl. lia.
Qed.
Lemma positions_filter_0 K v : positions 0 K v = List.filter (at_key K v) (seq 0 (length K)).
Proof.
  rewrite positions_filter. rewrite <- (list_fmap_id (List.filter _ _)) at 2.
  apply list_fmap_ext. intros. simpl. lia.
Qed.
Lemma occurrences_reorders p K M v j :
  reorders p K M -> occurrences v (take j M) = length (List.filter (at_key K v) (take j p)).
Proof.
  intros [Hlen Hk]. induction j as [|j IH]; [done|].
  destruct (M !! j) as [u|] eqn:Eu.
  - destruct (lookup_lt_is_Some_2 p j) as [i Hi]; [apply lookup_lt_Some in Eu; lia|].
    rewrite (take_S_r _ _ _ Eu), (take_S_r _ _ _ Hi), List.filter_app, length_app, <- IH.
    assert (forall l l' : list T, occurrences v (l ++ l') = occurrences v l + occurrences v l') as Ha.
    { intros l l'. induction l as [|w l IHl]; simpl; [done|]. rewrite IHl. lia. }
    rewrite Ha. f_equal. simpl. unfold at_key. rewrite <- (Hk j i Hi), Eu.
    destruct (decide (u = v)) as [->|]; [by rewrite bool_decide_true|by rewrite bool_decide_false by congruence].
  - assert (length M <= j) by (by apply lookup_ge_None). rewrite (take_ge M) by lia. rewrite (take_ge p) by lia.
    rewrite (take_ge M), (take_ge p) in IH by lia. done.
Qed.
(** Matching finds the permutation that reorders and is stable. *)
Lemma generate_unique p K M :
  p ≡ₚ seq 0 (length K) -> reorders p K M -> stable p K ->
  generate_permutation K M =
    {| perm := p; unmatched_source_indices := []; unmatched_target_indices := [] |}.
Proof.
  intros Hp [Hlen Hk] Hst. pose proof (generate_expanded_spec K M) as (H1 & H2 & H3 & H4).
  assert (x_perm (generate_expanded_permutation K M) = Some <$> p) as Ex.
  { rewrite H1. apply list_eq_same_length with (length p); [by rewrite length_fmap|by rewrite length_fmap, length_seq|].
    intros j a b Hj Ha Hb. rewrite list_lookup_fmap, lookup_seq_lt in Ha by lia. rewrite list_lookup_fmap in Hb.
    destruct (p !! j) as [i|] eqn:Ei; [|done]. simplify_eq/=.
    assert (i < length K) as HiK.
    { apply list_elem_of_lookup_2 in Ei. rewrite Hp, elem_of_seq in Ei. lia. }
    destruct (lookup_lt_is_Some_2 K i HiK) as [v Hv].
    unfold partner. rewrite (Hk j i Ei), Hv. cbn [mbind option_bind].
    rewrite positions_filter_0, (occurrences_reorders p K M v j) by done.
    rewrite <- (in_order_filter (length K) p (at_key K v) Hp).
    - apply filter_lookup_prefix; [done|]. by apply bool_decide_eq_true.
    - intros x y Cx%bool_decide_eq_true Cy%bool_decide_eq_true Hxy. apply Hst; [lia|by rewrite Cx|congruence]. }
  unfold generate_permutation, collapse. rewrite H2, Ex in *.
  assert (omap id (Some <$> p) = p) as Eo.
  { clear. induction p as [|a p IH]; [done|]. cbn. by f_equal. }
  rewrite Eo in *. f_equal.
  - rewrite Hp in H3. apply Permutation_length in H3. rewrite length_app in H3.
    apply nil_length_inv. lia.
  - clear. generalize 0. induction p as [|a p IH]; intros n; [done|]. simpl. apply IH.
Qed.

(** The matched positions of a value are its first ones. *)
Lemma omap_app_id (l l' : list (option nat)) : omap id (l ++ l') = omap id l ++ omap id l'.
Proof. induction l as [|[a|] l IH]; cbn; [done|by f_equal|done]. Qed.
Lemma occurrences_app v (l l' : list T) : occurrences v (l ++ l') = occurrences v l + occurrences v l'.
Proof. induction l as [|w l IH]; simpl; [done|]. rewrite IH. lia. Qed.
Lemma matched_positions K M v j :
  j <= length M ->
  List.filter (at_key K v) (omap id (partner K M <$> seq 0 j)) =
  take (occurrences v (take j M)) (positions 0 K v).
Proof.
  induction j as [|j IH]; intros Hj; [done|].
  rewrite seq_S, fmap_app, omap_app_id, List.filter_app, IH by lia. simpl (0 + j).
  destruct (lookup_lt_is_Some_2 M j) as [u Hu]; [lia|].
  rewrite (take_S_r _ _ _ Hu), occurrences_app. cbn. unfold partner. rewrite Hu. cbn.
  destruct (decide (u = v)) as [->|Hne].
  - rewrite Nat.add_0_r, Nat.add_1_r.
    destruct (positions 0 K v !! occurrences v (take j M)) as [i|] eqn:Ei; cbn.
    + rewrite (take_S_r _ _ _ Ei). f_equal. unfold at_key.
      apply positions_lookup in Ei as [_ Ei]. rewrite Nat.sub_0_r in Ei. by rewrite bool_decide_true.
    + apply lookup_ge_None in Ei. rewrite app_nil_r, !take_ge by lia. done.
  - rewrite Nat.add_0_r. destruct (positions 0 K u !! _) as [i|] eqn:Ei; cbn; [|by rewrite app_nil_r].
    apply positions_lookup in Ei as [_ Ei]. rewrite Nat.sub_0_r in Ei. unfold at_key.
    rewrite bool_decide_false by congruence. by rewrite app_nil_r.
Qed.
Lemma occurrences_perm v (l l' : list T) : l ≡ₚ l' -> occurrences v l = occurrences v l'.
Proof. induction 1; simpl; lia. Qed.
Lemma positions_length i K v : length (positions i K v) = occurrences v K.
Proof.
  revert i. induction K as [|u K IH]; intros i; [done|]. simpl.
  destruct (decide (u = v)); simpl; by rewrite IH.
Qed.
(** Two lists of the same items match completely. *)
Section Complete.
Context (K M : list T) (HKM : K ≡ₚ M).
Let r := generate_permutation K M.

Lemma complete_filter v : List.filter (at_key K v) (perm r) = positions 0 K v.
Proof.
  destruct (generate_expanded_spec K M) as (H1 & _).
  unfold r, generate_permutation, collapse. cbn [perm]. rewrite H1, matched_positions by done.
  rewrite (take_ge M), take_ge by (rewrite ?positions_length, ?(occurrences_perm v _ _ HKM); done). done.
Qed.
Lemma complete_source : unmatched_source_indices r = [].
Proof.
  destruct (generate_expanded_spec K M) as (_ & _ & H3 & _).
  change (perm r ++ unmatched_source_indices r ≡ₚ seq 0 (length K)) in H3.
  destruct (unmatched_source_indices r) as [|i us] eqn:Eu; [done|exfalso].
  assert (i < length K) as Hi.
  { assert (i ∈ seq 0 (length K)) as Hs by (rewrite <- H3; set_solver). apply elem_of_seq in Hs. lia. }
  destruct (lookup_lt_is_Some_2 K i Hi) as [v Hv].
  assert (i ∈ List.filter (at_key K v) (perm r)) as Hin.
  { rewrite complete_filter, positions_filter_0. apply list_elem_of_In, List.filter_In.
    split; [apply list_elem_of_In, elem_of_seq; lia|by apply bool_decide_eq_true]. }
  apply list_elem_of_In, List.filter_In in Hin as [Hin%list_elem_of_In _].
  pose proof (NoDup_seq 0 (length K)) as Hn. rewrite <- H3 in Hn.
  apply NoDup_app in Hn as (_ & Hn & _). apply (Hn i Hin). constructor.
Qed.
Lemma complete_perm : perm r ≡ₚ seq 0 (length K).
Proof.
  destruct (generate_expanded_spec K M) as (_ & _ & H3 & _).
  change (perm r ++ unmatched_source_indices r ≡ₚ seq 0 (length K)) in H3.
  by rewrite complete_source, app_nil_r in H3.
Qed.
Lemma omap_id_length (l : list (option nat)) : length (omap id l) <= length l.
Proof. induction l as [|[a|] l IH]; cbn; unfold id in *; lia. Qed.
Lemma omap_id_all (l : list (option nat)) : length (omap id l) = length l -> l = Some <$> omap id l.
Proof.
  induction l as [|[a|] l IH]; intros Hl; cbn in *; [done| |].
  - f_equal. apply IH. unfold id in *. lia.
  - pose proof (omap_id_length l). unfold id in *. lia.
Qed.
Lemma complete_expanded : x_perm (generate_expanded_permutation K M) = Some <$> perm r.
Proof.
  destruct (generate_expanded_spec K M) as (H1 & _). apply omap_id_all.
  change (length (perm r) = length (x_perm (generate_expanded_permutation K M))).
  rewrite complete_perm, length_seq, H1, length_fmap, length_seq. by rewrite HKM.
Qed.
Lemma complete_reorders : reorders (perm r) K M.
Proof.
  destruct (generate_expanded_spec K M) as (H1 & _). split.
  - rewrite complete_perm, length_seq. by rewrite HKM.
  - intros j i Hi. symmetry. apply partner_sound.
    assert (x_perm (generate_expanded_permutation K M) !! j = Some (Some i)) as E
      by (by rewrite complete_expanded, list_lookup_fmap, Hi).
    rewrite H1, list_lookup_fmap in E. destruct (seq 0 (length M) !! j) as [j'|] eqn:Ej; [|done].
    apply lookup_seq in Ej as [-> _]. by simplify_eq/=.
Qed.
Lemma complete_stable : stable (perm r) K.
Proof.
  intros x y Hxy [v Hv] E. unfold before. etrans; [|apply (filter_sublist (at_key K v))].
  rewrite complete_filter, positions_filter_0.
  apply (before_lookup_filter (length K)); [lia| | |]; unfold at_key.
  - rewrite E in Hv. by eapply lookup_lt_Some.
  - by apply bool_decide_eq_true.
  - apply bool_decide_eq_true. congruence.
Qed.
Lemma complete_target : unmatched_target_indices r = [].
Proof.
  destruct (generate_expanded_spec K M) as (_ & H2 & _).
  change (x_unmatched_target_indices (generate_expanded_permutation K M) = []).
  rewrite H2, complete_expanded. generalize 0.
  induction (perm r) as [|a p IH]; intros n; [done|]. simpl. apply IH.
Qed.
End Complete.
End Unique.

(** ** Distances add up *)

(** The position of a value in a list. *)
Definition index_in (l : list nat) (v : nat) : nat := default 0 (fst <$> list_find (eq v) l).
Lemma index_in_lookup l v i : NoDup l -> l !! i = Some v -> index_in l v = i.
Proof.
  intros Hl Hi. unfold index_in. destruct (list_find (eq v) l) as [[j u]|] eqn:E.
  - apply list_find_Some in E as (Hj & <- & _). simpl. by apply (NoDup_lookup l j i v).
  - apply list_find_None in E. rewrite Forall_forall in E.
    apply list_elem_of_lookup_2, E in Hi. done.
Qed.
Lemma index_in_self l : NoDup l -> index_in l <$> l = seq 0 (length l).
Proof.
  intros Hl. apply list_eq_same_length with (length l); [by rewrite length_seq|by rewrite length_fmap|].
  intros i a b Hi Ha Hb. rewrite lookup_seq_lt in Hb by done. rewrite list_lookup_fmap in Ha.
  destruct (l !! i) as [v|] eqn:E; [|done]. simplify_eq/=. by apply index_in_lookup.
Qed.
Lemma transpose_map (g : nat -> nat) l l' : transpose l l' -> transpose (g <$> l) (g <$> l').
Proof.
  intros (pre & x & y & post & -> & ->). exists (g <$> pre), (g x), (g y), (g <$> post).
  by rewrite !fmap_app, !fmap_cons.
Qed.
Lemma transposes_map (g : nat -> nat) n l l' :
  nsteps transpose n l l' -> nsteps transpose n (g <$> l) (g <$> l').
Proof. induction 1; econstructor; [by apply transpose_map|done]. Qed.
Lemma transposes_perm n l l' : nsteps transpose n l l' -> l ≡ₚ l'.
Proof.
  induction 1 as [|n x y z (pre & a & b & post & -> & ->) _ IH]; [done|].
  rewrite <- IH. f_equiv. apply perm_swap.
Qed.
(** From the permutation to its state after [k] swaps there are [k] swaps. *)
Lemma inversions_to_state k p :
  NoDup p -> k <= inversions p -> inversions (index_in (bubble k p) <$> p) = k.
Proof.
  intros Hp Hk. set (s := bubble k p). assert (NoDup s) as Hs by (unfold s; by rewrite bubble_perm).
  set (t := index_in s <$> p).
  assert (nsteps transpose k t (seq 0 (length s))) as H1.
  { rewrite <- (index_in_self s Hs). apply transposes_map. by apply bubble_steps. }
  apply Nat.le_antisymm.
  - apply transpose_steps in H1. rewrite (sorted_inversions (seq 0 _)) in H1 by apply seq_sorted. lia.
  - assert (t ≡ₚ seq 0 (length s)) as Ht by (by eapply transposes_perm).
    assert (NoDup t) as Hnt by (rewrite Ht; apply NoDup_seq).
    pose proof (bubble_steps (inversions t) t Hnt (Nat.le_refl _)) as H2.
    assert (bubble (inversions t) t = seq 0 (length s)) as Eb.
    { apply sorted_unique; [by apply bubble_sorted|apply seq_sorted|]. by rewrite bubble_perm. }
    rewrite Eb in H2. apply (transposes_map (fun i => default 0 (s !! i))) in H2.
    assert ((fun i => default 0 (s !! i)) <$> t = p) as Ep.
    { unfold t. rewrite <- list_fmap_compose. rewrite <- (list_fmap_id p) at 2.
      apply list_fmap_ext. intros j v Hv. simpl.
      assert (v ∈ s) as Hvs by (unfold s; rewrite bubble_perm; by eapply list_elem_of_lookup_2).
      apply list_elem_of_lookup in Hvs as [i Hi]. by rewrite (index_in_lookup s v i Hs Hi), Hi. }
    assert ((fun i => default 0 (s !! i)) <$> seq 0 (length s) = s) as Es.
    { rewrite <- (index_in_self s Hs), <- list_fmap_compose.
      etrans; [|apply list_fmap_id]. apply list_fmap_ext. intros i v Hi. simpl. by rewrite (index_in_lookup s v i Hs Hi), Hi. }
    rewrite Ep, Es in H2. apply transpose_steps in H2.
    unfold s in H2. rewrite bubble_inversions in H2 by done. lia.
Qed.

(** ** Aligning a state with both ends *)

Section State.
Context {T : Type} `{Countable T}.
Context (K : list T) (p : list nat) (k : nat).
Context (Hperm : p ≡ₚ seq 0 (length K)) (Hstable : stable p K) (Hk : k <= inversions p).
Let s := bubble k p.

Lemma state_NoDup : NoDup p /\ NoDup s.
Proof.
  assert (NoDup p) as Hp by (rewrite Hperm; apply NoDup_seq). split; [done|]. unfold s. by rewrite bubble_perm.
Qed.
Lemma state_perm : s ≡ₚ seq 0 (length K).
Proof. unfold s. by rewrite bubble_perm. Qed.
Lemma state_stable : stable s K.
Proof. intros x y Hxy Hx E. apply bubble_before; [apply state_NoDup|done|done|by apply Hstable]. Qed.

(** With the source, under keys at least as fine. *)
Lemma align_source (K' M' : list T) :
  length K' = length K ->
  (forall x y, is_Some (K' !! x) -> K' !! x = K' !! y -> K !! x = K !! y) ->
  reorders s K' M' ->
  generate_permutation K' M' =
    {| perm := s; unmatched_source_indices := []; unmatched_target_indices := [] |}.
Proof.
  intros Hl Href Hr. apply generate_unique; [rewrite Hl; apply state_perm|done|].
  intros x y Hxy Hx E. apply state_stable; [done| |by apply Href].
  apply lookup_lt_is_Some. rewrite <- Hl. by apply lookup_lt_is_Some.
Qed.
(** With the target. *)
Lemma align_target (M2 M : list T) :
  reorders s K M2 -> reorders p K M ->
  generate_permutation M2 M =
    {| perm := index_in s <$> p; unmatched_source_indices := []; unmatched_target_indices := [] |}.
Proof.
  intros [Hl2 Hr2] [Hl Hr]. destruct state_NoDup as [Hp Hs].
  assert (length s = length K) as Hls by (rewrite state_perm; apply length_seq).
  assert (forall v, v ∈ p -> exists i, s !! i = Some v /\ index_in s v = i) as Hidx.
  { intros v Hv. assert (v ∈ s) as Hvs by (unfold s; by rewrite bubble_perm).
    apply list_elem_of_lookup in Hvs as [i Hi]. exists i. split; [done|]. by apply index_in_lookup. }
  apply generate_unique.
  - rewrite Hl2. rewrite <- (index_in_self s Hs). apply fmap_Permutation. symmetry. apply bubble_perm.
  - split; [by rewrite length_fmap|]. intros j i Hi. rewrite list_lookup_fmap in Hi.
    destruct (p !! j) as [v|] eqn:Ev; [|done]. simplify_eq/=.
    destruct (Hidx v) as (i & Hi & ->); [by eapply list_elem_of_lookup_2|].
    by rewrite (Hr j v Ev), (Hr2 i v Hi).
  - intros x y Hxy Hx E.
    destruct (lookup_lt_is_Some_2 s x) as [vx Hvx]; [rewrite <- Hl2; by apply lookup_lt_is_Some|].
    destruct (lookup_lt_is_Some_2 s y) as [vy Hvy].
    { rewrite <- Hl2. apply lookup_lt_is_Some. by rewrite <- E. }
    rewrite (Hr2 x vx Hvx), (Hr2 y vy Hvy) in E. rewrite (Hr2 x vx Hvx) in Hx.
    pose proof (before_lookup s vx vy x y Hvx Hvy Hxy) as Hb.
    assert (vx <> vy) as Hne by (intros ->; pose proof (NoDup_lookup s x y vy Hs Hvx Hvy); lia).
    destruct (Nat.lt_gt_cases vx vy) as [[Hlt|Hgt] _]; [done| |].
    + pose proof (Hstable vx vy Hlt Hx E) as Hbp. unfold before.
      replace [x; y] with (index_in s <$> [vx; vy])
        by (simpl; by rewrite (index_in_lookup s vx x Hs Hvx), (index_in_lookup s vy y Hs Hvy)).
      by apply fmap_sublist.
    + exfalso. apply (before_asym s vx vy Hs Hb). apply state_stable; [done| |done]. by rewrite <- E.
Qed.
End State.
End BubblesOrder.
