(* ===== verification/Schedule.v ===== *)
(** * Scheduled events (src/detcore-model/src/schedule.rs)

    A schedule is a list of [SchedEvent]s: runs of one operation by one thread,
    recorded in the order they were scheduled.  System call numbers, signal
    numbers and instruction pointers are integers of their width; equality of
    events is the derived one. *)
From Stdlib Require Import ZArith Lia List.
From stdpp Require Import base gmap countable list.
From S2P Require Import Prelude Time.
Open Scope Z_scope.

Module Schedule.

Abbreviation Sysno := Z.
Abbreviation InstructionPointer := Z.
Abbreviation LogicalTime := Z.

Inductive SyscallPhase := Prehook | Polling | Posthook.
Record SigWrapper := { raw : Z }.
Inductive Op :=
  | Branch
  | Rdtsc
  | Cpuid
  | Syscall (sysno : Sysno) (phase : SyscallPhase)
  | OtherInstructions
  | SignalReceived (signal : SigWrapper).

Record SchedEvent := {
  dettid : DetTid;
  op : Op;
  count : Z;
  start_rip : option InstructionPointer;
  end_rip : option InstructionPointer;
  end_time : option LogicalTime;
  stopless : bool;
}.

#[global] Instance SyscallPhase_eq_dec : EqDecision SyscallPhase.
Proof. solve_decision. Defined.
#[global] Instance SigWrapper_eq_dec : EqDecision SigWrapper.
Proof. solve_decision. Defined.
#[global] Instance Op_eq_dec : EqDecision Op.
Proof. solve_decision. Defined.
#[global] Instance SchedEvent_eq_dec : EqDecision SchedEvent.
Proof. solve_decision. Defined.

(** Hashing: any injection into a countable type. *)
Definition phase_code (p : SyscallPhase) : Z :=
  match p with Prehook => 0 | Polling => 1 | Posthook => 2 end.
Definition op_code (o : Op) : Z * Z * Z :=
  match o with
  | Branch => (0, 0, 0) | Rdtsc => (1, 0, 0) | Cpuid => (2, 0, 0)
  | Syscall n p => (3, n, phase_code p)
  | OtherInstructions => (4, 0, 0)
  | SignalReceived s => (5, raw s, 0)
  end.
Definition event_code (e : SchedEvent)
    : DetTid * (Z * Z * Z) * Z * option Z * option Z * option Z * bool :=
  (dettid e, op_code (op e), count e, start_rip e, end_rip e, end_time e, stopless e).
#[global] Instance op_code_inj : Inj (=) (=) op_code.
Proof.
  intros [| | |n1 p1| |[s1]] [| | |n2 p2| |[s2]]; intros E; simplify_eq/=; try done.
  by destruct p1, p2.
Qed.
#[global] Instance event_code_inj : Inj (=) (=) event_code.
Proof. intros [] [] E. unfold event_code in E. simplify_eq/=. done. Qed.

Definition decode_op (c : Z * Z * Z) : option Op :=
  match c with
  | (0, _, _) => Some Branch | (1, _, _) => Some Rdtsc | (2, _, _) => Some Cpuid
  | (3, n, 0) => Some (Syscall n Prehook) | (3, n, 1) => Some (Syscall n Polling)
  | (3, n, 2) => Some (Syscall n Posthook)
  | (4, _, _) => Some OtherInstructions
  | (5, s, _) => Some (SignalReceived {| raw := s |})
  | _ => None
  end.
Definition decode_event (c : DetTid * (Z * Z * Z) * Z * option Z * option Z * option Z * bool)
    : option SchedEvent :=
  let '(t, o, n, sr, er, et, sl) := c in
  o' ← decode_op o;
  Some {| dettid := t; op := o'; count := n; start_rip := sr; end_rip := er; end_time := et; stopless := sl |}.
Lemma decode_event_code e : decode_event (event_code e) = Some e.
Proof. destruct e as [t [| | |n []| |[s]] c sr er et sl]; done. Qed.
#[global] Instance SchedEvent_countable : Countable SchedEvent :=
  inj_countable event_code decode_event decode_event_code.

(** ** Builders *)

Definition syscall (tid : DetTid) (sysno : Sysno) (phase : SyscallPhase) : SchedEvent :=
  {| dettid := tid; op := Syscall sysno phase; count := 1; start_rip := None; end_rip := None;
     end_time := None; stopless := false |}.
Definition branches (tid : DetTid) (n : Z) : SchedEvent :=
  {| dettid := tid; op := Branch; count := n; start_rip := None; end_rip := None;
     end_time := None; stopless := false |}.
Definition with_time (e : SchedEvent) (time : LogicalTime) : SchedEvent :=
  {| dettid := dettid e; op := op e; count := count e; start_rip := start_rip e; end_rip := end_rip e;
     end_time := Some time; stopless := stopless e |}.
(** [with_dettime]: the thread's own time, from [Time.DetTime]. *)
Definition with_dettime (bp : profile) (e : SchedEvent) (dt : Time.DetTime.DetTime) : outcome SchedEvent :=
  t ← Time.DetTime.without_starting bp dt; Done (with_time e t).
Definition with_start_rip (e : SchedEvent) (rip : InstructionPointer) : SchedEvent :=
  {| dettid := dettid e; op := op e; count := count e; start_rip := Some rip; end_rip := end_rip e;
     end_time := end_time e; stopless := stopless e |}.
Definition with_end_rip (e : SchedEvent) (rip : InstructionPointer) : outcome SchedEvent :=
  _ ← assert_ (negb (stopless e));
  Done {| dettid := dettid e; op := op e; count := count e; start_rip := start_rip e; end_rip := Some rip;
          end_time := end_time e; stopless := stopless e |}.
Definition taken_without_stop (e : SchedEvent) : outcome SchedEvent :=
  _ ← assert_ (bool_decide (op e = Branch));
  _ ← assert_ (bool_decide (end_rip e = None));
  Done {| dettid := dettid e; op := op e; count := count e; start_rip := start_rip e; end_rip := end_rip e;
          end_time := end_time e; stopless := true |}.

(** Why the stopless mark contradicts the rest of the event. *)
Inductive refusal := OnlyBranches | NoEndRip.
Definition stopless_mark_refusal (e : SchedEvent) : option refusal :=
  if negb (stopless e) then None
  else if bool_decide (op e <> Branch) then Some OnlyBranches
  else match end_rip e with Some _ => Some NoEndRip | None => None end.

(** ** Comparisons *)

Definition same_kind (a b : SchedEvent) : bool :=
  let rips_known := negb (stopless a || stopless b) in
  bool_decide ((dettid a, op a, start_rip a) = (dettid b, op b, start_rip b)) &&
  (negb rips_known || bool_decide (end_rip a = end_rip b)).
Definition same_operations (a b : SchedEvent) : bool :=
  same_kind a b && bool_decide ((count a, end_time a) = (count b, end_time b)).
End Schedule.
