(* ===== verification/Needleman.v ===== *)
(** * Global alignment of two schedules (src/detcore/src/edit_distance/needleman_wunsch.rs)

    The Needleman-Wunsch alignment with two rolling rows of scores and a
    traceback matrix, and the schedule half way along an alignment.  Scores are
    32-bit integers whose additions panic or wrap by profile; positions and
    counts are [nat]. *)
From Stdlib Require Import ZArith Lia List.
From stdpp Require Import base gmap list.
From S2P Require Import Prelude.
Open Scope Z_scope.

Module Needleman.

Inductive Trace := Stop | Left | Up | MatchDiagonal | MisMatchDiagonal.
Inductive NeedlemanWunschError := MatrixTooLarge (cells max_cells : Z).
Abbreviation alignment := (list (option nat * option nat)).

Section Generic.
Context {T : Type} `{EqDecision T}.

Definition simple_score (a b : T) : Z := if decide (a = b) then 1 else -5.

Record NeedlemanWunsch := {
  first_sequence : list T;
  second_sequence : list T;
  first_extra : list T;
  second_extra : list T;
  mismatches : list (nat * nat);
  num_mismatches : nat;
}.
Definition nw_default : NeedlemanWunsch :=
  {| first_sequence := []; second_sequence := []; first_extra := []; second_extra := [];
     mismatches := []; num_mismatches := 0 |}.
Definition with_mismatches (nw : NeedlemanWunsch) (ms : list (nat * nat)) (n : nat) : NeedlemanWunsch :=
  {| first_sequence := first_sequence nw; second_sequence := second_sequence nw;
     first_extra := first_extra nw; second_extra := second_extra nw;
     mismatches := ms; num_mismatches := n |}.

(** ** match_sequences_bounded *)

Section Score.
Context (bp : profile) (scoring_function : T -> T -> Z) (gap_penalty mismatch_penalty : Z).

(** [while start_index < max_length && scoring_function(..) > 0] *)
Fixpoint common_start (first second : list T) : nat :=
  match first, second with
  | a :: first', b :: second' =>
      if 0 <? scoring_function a b then S (common_start first' second') else 0%nat
  | _, _ => 0%nat
  end.

(** [gap_penalty * j as i32] *)
Definition gap_times (j : nat) : outcome Z := arith_i bp 32 (gap_penalty * wrap_i 32 (Z.of_nat j)).
Fixpoint first_row (js : list nat) : outcome (list Z) :=
  match js with
  | [] => Done []
  | j :: js' => x ← gap_times j; l ← first_row js'; Done (x :: l)
  end.

(** The best of the three ways to reach a cell, and which it was. *)
Definition best_cell (match_value diagonal_score horizontal_score vertical_score : Z) : Z * Trace :=
  if (horizontal_score <=? diagonal_score) && (vertical_score <=? diagonal_score)
  then (diagonal_score, if 0 <? match_value then MatchDiagonal else MisMatchDiagonal)
  else if vertical_score <=? horizontal_score then (horizontal_score, Left)
  else (vertical_score, Up).

(** The inner loop over the columns [js] of row [i]. *)
Fixpoint col_loop (first second : list T) (start i col : nat) (js : list nat)
    (previous current : list Z) (tracing : list Trace) : outcome (list Z * list Trace) :=
  match js with
  | [] => Done (current, tracing)
  | j :: js' =>
      a ← get_at first (i - 1 + start); b ← get_at second (j - 1 + start);
      let match_value := scoring_function a b in
      d ← get_at previous (j - 1);
      diagonal_score ← arith_i bp 32 (d + (if 0 <? match_value then match_value else mismatch_penalty));
      h ← get_at current (j - 1);
      horizontal_score ← arith_i bp 32 (h + gap_penalty);
      v ← get_at previous j;
      vertical_score ← arith_i bp 32 (v + gap_penalty);
      let '(score, trace) := best_cell match_value diagonal_score horizontal_score vertical_score in
      current' ← set_at current j score;
      tracing' ← set_at tracing (i * col + j) trace;
      col_loop first second start i col js' previous current' tracing'
  end.
(** The outer loop; [std::mem::swap] exchanges the two rows. *)
Fixpoint row_loop (first second : list T) (start col : nat) (rows : list nat)
    (previous current : list Z) (tracing : list Trace) : outcome (list Trace) :=
  match rows with
  | [] => Done tracing
  | i :: rows' =>
      g ← gap_times i;
      current1 ← set_at current 0 g;
      tracing1 ← set_at tracing (i * col) Up;
      '(current2, tracing2) ←
        col_loop first second start i col (seq 1 (col - 1)) previous current1 tracing1;
      row_loop first second start col rows' current2 previous tracing2
  end.

(** The traceback; what it pushes is in the order of the pushes. *)
Fixpoint traceback (fuel : nat) (tracing : list Trace) (start col i j : nat)
    (aligned : alignment) (ms : list (nat * nat)) (n : nat)
    : outcome (alignment * list (nat * nat) * nat) :=
  match fuel with
  | 0%nat => Panic PFuel
  | S fuel' =>
      if (0 <? i)%nat || (0 <? j)%nat then
        t ← get_at tracing (i * col + j);
        match t with
        | MatchDiagonal =>
            i1 ← usize_sub i 1; j1 ← usize_sub j 1;
            traceback fuel' tracing start col i1 j1
              (aligned ++ [(Some (i1 + start), Some (j1 + start))])%nat ms n
        | Up =>
            i1 ← usize_sub i 1;
            traceback fuel' tracing start col i1 j (aligned ++ [(Some (i1 + start)%nat, None)]) ms (n + 1)
        | Left =>
            j1 ← usize_sub j 1;
            traceback fuel' tracing start col i j1 (aligned ++ [(None, Some (j1 + start)%nat)]) ms (n + 1)
        | MisMatchDiagonal =>
            i1 ← usize_sub i 1; j1 ← usize_sub j 1;
            traceback fuel' tracing start col i1 j1 (aligned ++ [(None, None)])
              (ms ++ [(i1 + start, j1 + start)])%nat (n + 2)
        | Stop => Panic PExplicit
        end
      else Done (aligned, ms, n)
  end.
End Score.

(** [tracing_matrix.iter_mut().take(col).skip(1)] set to [Left]. *)
Definition first_traces (cells col : nat) : list Trace :=
  imap (fun k t => if ((1 <=? k) && (k <? col))%nat then Left else t) (replicate cells Stop).

(** The alignment, or the refusal; the struct keeps the cleared mismatches when
    it refuses. *)
Definition match_sequences_bounded (bp : profile) (nw : NeedlemanWunsch)
    (scoring_function : option (T -> T -> Z)) (gap_penalty mismatch_penalty : option Z)
    (max_matrix_cells : Z) : result NeedlemanWunschError (nat * alignment) * NeedlemanWunsch :=
  let gap_penalty := default (-1) gap_penalty in
  let mismatch_penalty := default (-2) mismatch_penalty in
  let scoring_function := default simple_score scoring_function in
  let nw := with_mismatches nw [] 0 in
  let first := first_sequence nw in
  let second := second_sequence nw in
  let start := common_start scoring_function first second in
  let row := (length first + 1 - start)%nat in
  let col := (length second + 1 - start)%nat in
  let cells := (row * col)%nat in
  match checked_u64 (Z.of_nat cells) with
  | None => (Err (MatrixTooLarge u64_max max_matrix_cells), nw)
  | Some c =>
      if max_matrix_cells <? c then (Err (MatrixTooLarge c max_matrix_cells), nw) else
      match (previous ← first_row bp gap_penalty (seq 0 col);
             tracing ← row_loop bp scoring_function gap_penalty mismatch_penalty first second start col
                         (seq 1 (row - 1)) previous (replicate col 0) (first_traces cells col);
             traceback (row + col) tracing start col (row - 1) (col - 1) [] [] 0)
      with
      | Panic p => (Crash p, nw)
      | Done (aligned, ms, n) => (Ok (start, rev aligned), with_mismatches nw (rev ms) n)
      end
  end.
Definition match_sequences (bp : profile) (nw : NeedlemanWunsch)
    (scoring_function : option (T -> T -> Z)) (gap_penalty mismatch_penalty : option Z)
    : outcome (nat * alignment) * NeedlemanWunsch :=
  match match_sequences_bounded bp nw scoring_function gap_penalty mismatch_penalty u64_max with
  | (Ok r, nw') => (Done r, nw')
  | (Err _, nw') => (Panic PExpect, nw')
  | (Crash p, nw') => (Panic p, nw')
  end.
Definition match_sequences_base (bp : profile) (nw : NeedlemanWunsch)
    : outcome (nat * alignment) * NeedlemanWunsch :=
  match_sequences bp nw None None None.

(** ** generate_midpoint_schedule *)

(** The loop over the alignment; [out] is what has been pushed. *)
Fixpoint midpoint_loop (nw : NeedlemanWunsch) (al : alignment) (current_swaps full_swaps : nat) (out : list T)
    : outcome (list T) :=
  let total_swaps := (num_mismatches nw / 2)%nat in
  match al with
  | [] => Done out
  | (None, None) :: al' =>
      x ← (if (full_swaps <? length (mismatches nw))%nat && (current_swaps <? total_swaps)%nat then
             m ← get_at (mismatches nw) full_swaps; a ← get_at (first_sequence nw) m.1; Done [a]
           else if (full_swaps <? length (mismatches nw))%nat then
             m ← get_at (mismatches nw) full_swaps; b ← get_at (second_sequence nw) m.2; Done [b]
           else Done []);
      midpoint_loop nw al' (current_swaps + 1) (full_swaps + 1) (out ++ x)
  | (o1, o2) :: al' =>
      match o1, (current_swaps <? total_swaps)%nat with
      | Some i, true =>
          a ← get_at (first_sequence nw) i; midpoint_loop nw al' (current_swaps + 1) full_swaps (out ++ [a])
      | _, before =>
          match o2, before with
          | Some j, false =>
              b ← get_at (second_sequence nw) j; midpoint_loop nw al' (current_swaps + 1) full_swaps (out ++ [b])
          | _, _ => midpoint_loop nw al' current_swaps full_swaps out
          end
      end
  end.
(** [while i < start_index { push(first_sequence[i].clone()) }] *)
Fixpoint push_prefix (l : list T) (rows : list nat) : outcome (list T) :=
  match rows with
  | [] => Done []
  | i :: rows' => x ← get_at l i; r ← push_prefix l rows'; Done (x :: r)
  end.
Definition generate_midpoint_schedule (nw : NeedlemanWunsch) (start_index : nat) (al : alignment)
    : outcome (list T) :=
  out ← push_prefix (first_sequence nw) (seq 0 start_index);
  midpoint_loop nw al 0 0 out.
End Generic.
Arguments NeedlemanWunsch T : clear implicits.
End Needleman.
