(* ===== verification/NeedlemanProps.v ===== *)
(** * The alignment is one of the best, and the midpoint can be built from it

    [aligned s t al ms n k] says what the result of [match_sequences_bounded]
    is: the alignment of [s] with [t] that [al] lists, with the replaced pairs
    [ms], [n] unmatched places and score [k].  The two rolling rows hold the best
    scores of the prefixes and every cell of the traceback matrix names a move
    that keeps the score best. *)
From Stdlib Require Import ZArith Lia List.
From stdpp Require Import base gmap list.
From S2P Require Import Prelude Needleman.
Import Needleman.
Open Scope nat_scope.

Module NeedlemanProps.

Section Spec.
Context {T : Type} (score : T -> T -> Z) (gap mismatch : Z) (start : nat).
Implicit Types s t : list T.

Inductive aligned : list T -> list T -> alignment -> list (nat * nat) -> nat -> Z -> Prop :=
| aligned_nil : aligned [] [] [] [] 0 0
| aligned_match s t al ms n k x y : (0 < score x y)%Z -> aligned s t al ms n k ->
    aligned (s ++ [x]) (t ++ [y]) (al ++ [(Some (length s + start), Some (length t + start))]) ms n (k + score x y)
| aligned_mismatch s t al ms n k x y : (score x y <= 0)%Z -> aligned s t al ms n k ->
    aligned (s ++ [x]) (t ++ [y]) (al ++ [(None, None)]) (ms ++ [(length s + start, length t + start)])
      (n + 2) (k + mismatch)
| aligned_up s t al ms n k x : aligned s t al ms n k ->
    aligned (s ++ [x]) t (al ++ [(Some (length s + start), None)]) ms (n + 1) (k + gap)
| aligned_left s t al ms n k y : aligned s t al ms n k ->
    aligned s (t ++ [y]) (al ++ [(None, Some (length t + start))]) ms (n + 1) (k + gap).

(** The score of the best alignment. *)
Definition best s t (k : Z) : Prop :=
  (exists al ms n, aligned s t al ms n k) /\
  forall al ms n k', aligned s t al ms n k' -> (k' <= k)%Z.
Definition value x y : Z := if (0 <? score x y)%Z then score x y else mismatch.

Lemma best_unique s t k k' : best s t k -> best s t k' -> k = k'.
Proof. intros [(? & ? & ? & E) L] [(? & ? & ? & E') L']. apply L in E'. apply L' in E. lia. Qed.
(** The last move, with the sequences it consumed. *)
Ltac last_move E :=
  inversion E; clear E; subst;
  repeat match goal with
    | H : ?l ++ [_] = [] |- _ => by destruct l
    | H : [] = ?l ++ [_] |- _ => by destruct l
    | H : ?l ++ [_] = ?l' ++ [_] |- _ => apply app_inj_tail in H as [? ?]; subst
    end;
  repeat match goal with |- context [(?k + ?g - ?g)%Z] => replace (k + g - g)%Z with k by lia end.
Lemma aligned_last_nil s x al ms n k : aligned (s ++ [x]) [] al ms n k ->
  exists al' ms' n', aligned s [] al' ms' n' (k - gap).
Proof. intros E. last_move E; eauto. Qed.
Lemma aligned_nil_last t y al ms n k : aligned [] (t ++ [y]) al ms n k ->
  exists al' ms' n', aligned [] t al' ms' n' (k - gap).
Proof. intros E. last_move E; eauto. Qed.
Lemma aligned_last s x t y al ms n k : aligned (s ++ [x]) (t ++ [y]) al ms n k ->
  (exists al' ms' n', aligned s t al' ms' n' (k - value x y)) \/
  (exists al' ms' n', aligned s (t ++ [y]) al' ms' n' (k - gap)) \/
  (exists al' ms' n', aligned (s ++ [x]) t al' ms' n' (k - gap)).
Proof.
  intros E. unfold value. destruct (Z.ltb_spec 0 (score x y)); last_move E; try lia; eauto 10.
Qed.

Lemma best_nil : best [] [] 0.
Proof.
  split; [eexists _, _, _; constructor|]. intros al ms n k E. last_move E. done.
Qed.
Lemma best_up s x k : best s [] k -> best (s ++ [x]) [] (k + gap).
Proof.
  intros [(al & ms & n & E) L]. split; [eexists _, _, _; by constructor|].
  intros al' ms' n' k' E'. apply aligned_last_nil in E' as (? & ? & ? & E'). apply L in E'. lia.
Qed.
Lemma best_left t y k : best [] t k -> best [] (t ++ [y]) (k + gap).
Proof.
  intros [(al & ms & n & E) L]. split; [eexists _, _, _; by constructor|].
  intros al' ms' n' k' E'. apply aligned_nil_last in E' as (? & ? & ? & E'). apply L in E'. lia.
Qed.
(** The recurrence. *)
Lemma best_cell_spec s x t y d v h : best s t d -> best s (t ++ [y]) v -> best (s ++ [x]) t h ->
  best (s ++ [x]) (t ++ [y])
    (best_cell (score x y) (d + value x y) (h + gap) (v + gap)).1.
Proof.
  intros [(a1 & b1 & c1 & Ed) Ld] [(a2 & b2 & c2 & Ev) Lv] [(a3 & b3 & c3 & Eh) Lh].
  assert (exists al ms n, aligned (s ++ [x]) (t ++ [y]) al ms n (d + value x y)) as Ad.
  { unfold value. destruct (Z.ltb_spec 0 (score x y)); eexists _, _, _; by constructor. }
  split.
  - unfold best_cell. repeat case_match; cbn [fst]; try done; eexists _, _, _; by constructor.
  - intros al ms n k E.
    assert (k <= d + value x y \/ k <= h + gap \/ k <= v + gap)%Z as Hk.
    { apply aligned_last in E as [(? & ? & ? & E)|[(? & ? & ? & E)|(? & ? & ? & E)]];
        [apply Ld in E|apply Lv in E|apply Lh in E]; lia. }
    unfold best_cell. destruct (Z.leb_spec (h + gap) (d + value x y)), (Z.leb_spec (v + gap) (d + value x y));
      cbn [andb fst]; try (destruct (Z.leb_spec (v + gap) (h + gap)); cbn [fst]); lia.
Qed.

(** An alignment makes at most one move per element. *)
Lemma aligned_bound B s t al ms n k : (0 <= B)%Z -> (- B <= gap <= B)%Z -> (- B <= mismatch <= B)%Z ->
  (forall x y, x ∈ s -> y ∈ t -> (score x y <= B)%Z) -> aligned s t al ms n k ->
  (- (Z.of_nat (length s + length t) * B) <= k <= Z.of_nat (length s + length t) * B)%Z.
Proof.
  intros HB Hg Hm Hs E. induction E as [|s t al ms n k x y Hp E IH|s t al ms n k x y Hp E IH|s t al ms n k x E IH
    |s t al ms n k y E IH]; [cbn; lia|..]; rewrite ?length_app; cbn [length].
  - specialize (IH ltac:(intros; apply Hs; set_solver)).
    specialize (Hs x y ltac:(set_solver) ltac:(set_solver)). nia.
  - specialize (IH ltac:(intros; apply Hs; set_solver)). nia.
  - specialize (IH ltac:(intros; apply Hs; set_solver)). nia.
  - specialize (IH ltac:(intros; apply Hs; set_solver)). nia.
Qed.
Lemma best_bound B s t k : (0 <= B)%Z -> (- B <= gap <= B)%Z -> (- B <= mismatch <= B)%Z ->
  (forall x y, x ∈ s -> y ∈ t -> (score x y <= B)%Z) -> best s t k ->
  (- (Z.of_nat (length s + length t) * B) <= k <= Z.of_nat (length s + length t) * B)%Z.
Proof. intros HB Hg Hm Hs [(al & ms & n & E) _]. by eapply aligned_bound. Qed.
End Spec.
Arguments aligned {T} score gap mismatch start _ _ _ _ _ _.
Arguments best {T} score gap mismatch start _ _ _.

(** ** The two loops over the matrix *)

Section Loops.
Context {T : Type} `{EqDecision T} (bp : profile) (score : T -> T -> Z) (gap mismatch B : Z).
Context (first second : list T) (start : nat).
Context (Hstart : start <= length first) (Hstart' : start <= length second).
Context (HB : (1 <= B)%Z) (Hgap : (- B <= gap <= B)%Z) (Hmis : (- B <= mismatch <= B)%Z).
Context (Hscore : forall x y, x ∈ first -> y ∈ second -> (score x y <= B)%Z).
Context (Hfit : (Z.of_nat (length first + length second) * B < 2 ^ 31)%Z).
Let f := drop start first.
Let s := drop start second.
Let rows := length f.
Let col := length s + 1.
Abbreviation best_at i j := (best score gap mismatch start (take i f) (take j s)).

Lemma rows_def : rows = length first - start.
Proof. unfold rows, f. apply length_drop. Qed.
Lemma col_def : col = length second - start + 1.
Proof. unfold col, s. by rewrite length_drop. Qed.

Lemma best_at_bound i j k : i <= rows -> j < col -> best_at i j k ->
  (- (Z.of_nat (i + j) * B) <= k <= Z.of_nat (i + j) * B)%Z.
Proof.
  intros Hi Hj Hk. apply (best_bound _ _ _ _ B) in Hk; [|lia|done|done|].
  - rewrite !length_take, !Nat.min_l in Hk by (unfold rows, col in *; lia). done.
  - intros x y Hx Hy. apply Hscore.
    + apply elem_of_take in Hx as (a & Hx & _). unfold f in Hx. rewrite lookup_drop in Hx.
      by apply list_elem_of_lookup_2 in Hx.
    + apply elem_of_take in Hy as (a & Hy & _). unfold s in Hy. rewrite lookup_drop in Hy.
      by apply list_elem_of_lookup_2 in Hy.
Qed.
Lemma cell_fits i j : i <= rows -> j < col -> (Z.of_nat (i + j) * B < 2 ^ 31)%Z.
Proof. intros Hi Hj. rewrite rows_def in Hi. rewrite col_def in Hj. nia. Qed.
Lemma gap_times_spec i j : i <= rows -> j < col ->
  gap_times bp gap (i + j) = Done (gap * Z.of_nat (i + j))%Z.
Proof.
  intros Hi Hj. pose proof (cell_fits i j Hi Hj) as Hc. unfold gap_times.
  replace (wrap_i 32 (Z.of_nat (i + j))) with (Z.of_nat (i + j)); [apply arith_i_exact; nia|].
  unfold wrap_i. rewrite Z.mod_small; nia.
Qed.
Lemma best_first_row j : j < col -> best_at 0 j (gap * Z.of_nat j).
Proof.
  induction j as [|j IH]; intros Hj.
  - rewrite Z.mul_0_r, !take_0. apply best_nil.
  - destruct (lookup_lt_is_Some_2 s j) as [y Hy]; [unfold col in *; lia|]. rewrite (take_S_r _ _ _ Hy).
    replace (gap * Z.of_nat (S j))%Z with (gap * Z.of_nat j + gap)%Z by lia. rewrite take_0 in *.
    apply best_left, IH. lia.
Qed.
Lemma best_first_col i : i <= rows -> best_at i 0 (gap * Z.of_nat i).
Proof.
  induction i as [|i IH]; intros Hi.
  - rewrite Z.mul_0_r, !take_0. apply best_nil.
  - destruct (lookup_lt_is_Some_2 f i) as [x Hx]; [unfold rows in *; lia|]. rewrite (take_S_r _ _ _ Hx).
    replace (gap * Z.of_nat (S i))%Z with (gap * Z.of_nat i + gap)%Z by lia. rewrite take_0 in *.
    apply best_up, IH. lia.
Qed.

(** What a trace at [(i, j)] promises: the move it names loses nothing. *)
Definition trace_spec (i j : nat) (t : Trace) : Prop :=
  match t, i, j with
  | Stop, 0, 0 => True
  | Left, _, S j' => exists k, best_at i j' k /\ best_at i j (k + gap)
  | Up, S i', _ => exists k, best_at i' j k /\ best_at i j (k + gap)
  | MatchDiagonal, S i', S j' => exists x y k, f !! i' = Some x /\ s !! j' = Some y /\ (0 < score x y)%Z /\
      best_at i' j' k /\ best_at i j (k + score x y)
  | MisMatchDiagonal, S i', S j' => exists x y k, f !! i' = Some x /\ s !! j' = Some y /\ (score x y <= 0)%Z /\
      best_at i' j' k /\ best_at i j (k + mismatch)
  | _, _, _ => False
  end.
Definition traced (tracing : list Trace) (i j : nat) : Prop :=
  exists t, tracing !! (i * col + j) = Some t /\ trace_spec i j t.
Definition scored (l : list Z) (i j : nat) : Prop := exists k, l !! j = Some k /\ best_at i j k.

Lemma trace_index_inj i j i' j' : j < col -> j' < col -> i * col + j = i' * col + j' -> i = i' /\ j = j'.
Proof.
  intros Hj Hj' E. assert (i = i') as ->; [|lia].
  destruct (lt_eq_lt_dec i i') as [[Hlt|?]|Hlt]; [|done|]; exfalso; nia.
Qed.
Lemma set_trace tracing i j t : length tracing = (rows + 1) * col -> i <= rows -> j < col -> trace_spec i j t ->
  exists tracing', set_at tracing (i * col + j) t = Done tracing' /\ length tracing' = (rows + 1) * col /\
    traced tracing' i j /\ forall i' j', j' < col -> traced tracing i' j' -> traced tracing' i' j'.
Proof.
  intros Hl Hi Hj Ht. assert (i * col + j < length tracing) as Hx by (rewrite Hl; nia).
  exists (<[i * col + j := t]> tracing). split; [by apply set_at_Done|]. split; [by rewrite length_insert|].
  assert (traced (<[i * col + j := t]> tracing) i j) as Hw by (exists t; by rewrite list_lookup_insert_eq).
  split; [done|]. intros i' j' Hj' (t' & Hl' & Ht').
  destruct (decide (i * col + j = i' * col + j')) as [E|Hne].
  - apply trace_index_inj in E as [<- <-]; done.
  - exists t'. by rewrite list_lookup_insert_ne.
Qed.
Lemma set_score (l : list Z) i j k : length l = col -> j < col -> best_at i j k ->
  exists l', set_at l j k = Done l' /\ length l' = col /\ scored l' i j /\
    forall j', j' <> j -> scored l i j' -> scored l' i j'.
Proof.
  intros Hl Hj Hk. exists (<[j := k]> l). split; [apply set_at_Done; lia|]. split; [by rewrite length_insert|].
  split; [exists k; split; [apply list_lookup_insert_eq; lia|done]|].
  intros j' Hne (k' & Hl' & Hk'). exists k'. by rewrite list_lookup_insert_ne.
Qed.
Lemma get_score l i j : scored l i j -> exists k, get_at l j = Done k /\ best_at i j k.
Proof. intros (k & Hl & Hk). exists k. split; [by apply get_at_Done|done]. Qed.

(** The score and the trace of one cell. *)
Lemma cell_trace i j x y d v h : f !! i = Some x -> s !! j = Some y ->
  best_at i j d -> best_at i (S j) v -> best_at (S i) j h ->
  let c := best_cell (score x y) (d + value score mismatch x y) (h + gap) (v + gap) in
  best_at (S i) (S j) c.1 /\ trace_spec (S i) (S j) c.2.
Proof.
  intros Hx Hy Hd Hv Hh c. assert (best_at (S i) (S j) c.1) as Hc.
  { rewrite (take_S_r _ _ _ Hx), (take_S_r _ _ _ Hy) in *. by apply best_cell_spec. }
  split; [done|]. revert Hc. subst c. unfold best_cell, value.
  destruct (Z.ltb_spec 0 (score x y)); repeat case_match; cbn [fst snd]; intros Hc; cbn [trace_spec]; eauto 10.
Qed.

Lemma align_col_loop_spec i x (Hx : f !! i = Some x) :
  forall k j previous current tracing, j + k + 1 = col ->
  length previous = col -> length current = col -> length tracing = (rows + 1) * col ->
  (forall j', j' < col -> scored previous i j') -> (forall j', j' <= j -> scored current (S i) j') ->
  (forall i' j', i' <= i -> j' < col -> traced tracing i' j') -> (forall j', j' <= j -> traced tracing (S i) j') ->
  exists current' tracing',
    col_loop bp score gap mismatch first second start (S i) col (seq (S j) k) previous current tracing
      = Done (current', tracing') /\
    length current' = col /\ length tracing' = (rows + 1) * col /\
    (forall j', j' < col -> scored current' (S i) j') /\
    (forall i' j', i' <= S i -> j' < col -> traced tracing' i' j').
Proof.
  pose proof (lookup_lt_Some _ _ _ Hx) as Hi. fold rows in Hi.
  induction k as [|k IH]; intros j previous current tracing Hk Lp Lc Lt Sp Sc Tp Tc.
  { exists current, tracing. do 3 (split; [done|]). split; [intros; apply Sc; lia|]. intros i' j' Hi' Hj'.
    destruct (decide (i' = S i)) as [->|]; [apply Tc; lia|apply Tp; lia]. }
  destruct (lookup_lt_is_Some_2 s j) as [y Hy]; [unfold col in *; lia|].
  cbn [seq col_loop]. replace (S i - 1 + start) with (start + i) by lia. replace (S j - 1 + start) with (start + j) by lia.
  rewrite (get_at_Done first (start + i) x) by (by rewrite <- lookup_drop). bind_done.
  rewrite (get_at_Done second (start + j) y) by (by rewrite <- lookup_drop). bind_done.
  replace (S j - 1) with j by lia.
  destruct (get_score previous i j) as (d & -> & Hd); [apply Sp; lia|]. bind_done.
  fold (value score mismatch x y).
  destruct (get_score current (S i) j) as (h & Eh & Hh); [apply Sc; lia|].
  destruct (get_score previous i (S j)) as (v & Ev & Hv); [apply Sp; lia|].
  pose proof (best_at_bound i j d ltac:(lia) ltac:(lia) Hd).
  pose proof (best_at_bound (S i) j h ltac:(lia) ltac:(lia) Hh).
  pose proof (best_at_bound i (S j) v ltac:(lia) ltac:(lia) Hv).
  pose proof (cell_fits (S i) (S j) ltac:(lia) ltac:(lia)).
  assert (- B <= value score mismatch x y <= B)%Z as Hval.
  { unfold value. destruct (Z.ltb_spec 0 (score x y)); [|lia]. split; [lia|]. unfold f, s in Hx, Hy.
    rewrite lookup_drop in Hx, Hy. apply Hscore; by eapply list_elem_of_lookup_2. }
  rewrite (arith_i_exact bp 32 (d + _)) by nia. bind_done. rewrite Eh. bind_done.
  rewrite (arith_i_exact bp 32 (h + _)) by nia. bind_done. rewrite Ev. bind_done.
  rewrite (arith_i_exact bp 32 (v + _)) by nia. bind_done.
  destruct (cell_trace i j x y d v h Hx Hy Hd Hv Hh) as [Hc Ht].
  destruct (best_cell _ _ _ _) as [c t]. cbn [fst snd] in Hc, Ht.
  destruct (set_score current (S i) (S j) c Lc ltac:(lia) Hc) as (cur' & -> & Lc' & S' & Kc). bind_done.
  destruct (set_trace tracing (S i) (S j) t Lt ltac:(lia) ltac:(lia) Ht) as (tr' & -> & Lt' & T' & Kt).
  bind_done. apply IH; [lia|done..| | |].
  - intros j' Hj'. destruct (decide (j' = S j)) as [->|]; [done|]. apply Kc, Sc; lia.
  - intros i' j' Hi' Hj'. apply Kt, Tp; lia.
  - intros j' Hj'. destruct (decide (j' = S j)) as [->|]; [done|]. apply Kt, Tc; lia.
Qed.
Lemma align_row_loop_spec : forall k i previous current tracing, i + k = rows ->
  length previous = col -> length current = col -> length tracing = (rows + 1) * col ->
  (forall j, j < col -> scored previous i j) -> (forall i' j, i' <= i -> j < col -> traced tracing i' j) ->
  exists tracing', row_loop bp score gap mismatch first second start col (seq (S i) k) previous current tracing
      = Done tracing' /\
    (forall i' j, i' <= rows -> j < col -> traced tracing' i' j).
Proof.
  induction k as [|k IH]; intros i previous current tracing Hk Lp Lc Lt Sp Tp.
  { exists tracing. split; [done|]. intros; apply Tp; lia. }
  destruct (lookup_lt_is_Some_2 f i) as [x Hx]; [unfold rows in *; lia|].
  assert (0 < col) as Hcol by (unfold col; lia).
  pose proof (gap_times_spec (S i) 0 ltac:(lia) Hcol) as Eg. rewrite Nat.add_0_r in Eg.
  cbn [seq row_loop]. rewrite Eg. bind_done.
  destruct (set_score current (S i) 0 _ Lc Hcol (best_first_col (S i) ltac:(lia))) as (c1 & -> & Lc1 & S1 & _).
  bind_done.
  destruct (set_trace tracing (S i) 0 Up Lt ltac:(lia) Hcol) as (t1 & E1 & Lt1 & T1 & K1).
  { exists (gap * Z.of_nat i)%Z. split; [apply best_first_col; lia|].
    replace (gap * Z.of_nat i + gap)%Z with (gap * Z.of_nat (S i))%Z by lia. apply best_first_col. lia. }
  rewrite Nat.add_0_r in E1. rewrite E1. bind_done.
  destruct (align_col_loop_spec i x Hx (col - 1) 0 previous c1 t1) as (c2 & t2 & -> & Lc2 & Lt2 & S2 & T2);
    [lia|done..| | | |].
  { intros j Hj. by replace j with 0 by lia. }
  { intros i' j Hi' Hj. apply K1, Tp; lia. }
  { intros j Hj. by replace j with 0 by lia. }
  bind_done. apply IH; [lia|done..].
Qed.

(** The moves, between prefixes. *)
Abbreviation aligned_at i j := (aligned score gap mismatch start (take i f) (take j s)).
Lemma left_move i j al ms n k : S j < col -> aligned_at i j al ms n k ->
  aligned_at i (S j) (al ++ [(None, Some (j + start))]) ms (n + 1) (k + gap).
Proof.
  intros Hj E. destruct (lookup_lt_is_Some_2 s j) as [y Hy]; [unfold col in *; lia|].
  rewrite (take_S_r _ _ _ Hy). apply (aligned_left _ _ _ _ _ _ _ _ _ _ y) in E.
  by rewrite length_take, Nat.min_l in E by (unfold col in *; lia).
Qed.
Lemma up_move i j al ms n k : S i <= rows -> aligned_at i j al ms n k ->
  aligned_at (S i) j (al ++ [(Some (i + start), None)]) ms (n + 1) (k + gap).
Proof.
  intros Hi E. destruct (lookup_lt_is_Some_2 f i) as [x Hx]; [unfold rows in *; lia|].
  rewrite (take_S_r _ _ _ Hx). apply (aligned_up _ _ _ _ _ _ _ _ _ _ x) in E.
  by rewrite length_take, Nat.min_l in E by (unfold rows in *; lia).
Qed.
Lemma match_move i j x y al ms n k : f !! i = Some x -> s !! j = Some y -> (0 < score x y)%Z ->
  aligned_at i j al ms n k ->
  aligned_at (S i) (S j) (al ++ [(Some (i + start), Some (j + start))]) ms n (k + score x y).
Proof.
  intros Hx Hy Hp E. rewrite (take_S_r _ _ _ Hx), (take_S_r _ _ _ Hy).
  pose proof (lookup_lt_Some _ _ _ Hx). pose proof (lookup_lt_Some _ _ _ Hy).
  apply (aligned_match _ _ _ _ _ _ _ _ _ _ _ _ Hp) in E. by rewrite !length_take, !Nat.min_l in E by lia.
Qed.
Lemma mismatch_move i j x y al ms n k : f !! i = Some x -> s !! j = Some y -> (score x y <= 0)%Z ->
  aligned_at i j al ms n k ->
  aligned_at (S i) (S j) (al ++ [(None, None)]) (ms ++ [(i + start, j + start)]) (n + 2) (k + mismatch).
Proof.
  intros Hx Hy Hp E. rewrite (take_S_r _ _ _ Hx), (take_S_r _ _ _ Hy).
  pose proof (lookup_lt_Some _ _ _ Hx). pose proof (lookup_lt_Some _ _ _ Hy).
  apply (aligned_mismatch _ _ _ _ _ _ _ _ _ _ _ _ Hp) in E. by rewrite !length_take, !Nat.min_l in E by lia.
Qed.

(** The traceback follows moves that lose nothing back to the origin. *)
Lemma traceback_spec tracing : (forall i j, i <= rows -> j < col -> traced tracing i j) ->
  forall fuel i j al ms n, i <= rows -> j < col -> i + j < fuel ->
  exists al' ms' n' k, traceback fuel tracing start col i j al ms n = Done (al ++ rev al', ms ++ rev ms', n + n') /\
    aligned_at i j al' ms' n' k /\ best_at i j k.
Proof.
  intros Ht. induction fuel as [|fuel IH]; intros i j al ms n Hi Hj Hf; [lia|]. cbn [traceback].
  destruct ((0 <? i) || (0 <? j)) eqn:E.
  2: { apply orb_false_iff in E as [->%Nat.ltb_ge%Nat.le_0_r ->%Nat.ltb_ge%Nat.le_0_r].
       exists [], [], 0, 0%Z. rewrite !take_0, !app_nil_r, Nat.add_0_r. split; [done|].
       split; [constructor|apply best_nil]. }
  destruct (Ht i j Hi Hj) as (t & Hl & Hs). rewrite (get_at_Done tracing _ t Hl). bind_done.
  assert (forall A (l l' : list A) x, (l ++ [x]) ++ rev l' = l ++ rev (l' ++ [x])) as Hrev.
  { intros. by rewrite rev_unit, <- app_assoc. }
  destruct t, i as [|i], j as [|j]; try done; cbn [trace_spec] in Hs;
    rewrite ?(usize_sub_exact _ 1) by lia; bind_done;
    rewrite ?Nat.sub_succ, ?Nat.sub_0_r;
    match goal with |- context [traceback fuel _ _ _ ?i' ?j' ?al1 ?ms1 ?n1] =>
      destruct (IH i' j' al1 ms1 n1) as (al' & ms' & n' & k & -> & Ha & Hb); [lia..|] end; clear IH;
    rewrite ?Hrev, <- ?Nat.add_assoc.
  1-2: destruct Hs as (k1 & Hk & Hk'); rewrite <- (best_unique _ _ _ _ _ _ _ _ Hb Hk) in Hk';
    eexists _, _, _, _; split; [|split; [by apply left_move|done]]; do 2 f_equal; lia.
  1-2: destruct Hs as (k1 & Hk & Hk'); rewrite <- (best_unique _ _ _ _ _ _ _ _ Hb Hk) in Hk';
    eexists _, _, _, _; split; [|split; [by apply up_move|done]]; do 2 f_equal; lia.
  - destruct Hs as (x & y & k1 & Hx & Hy & Hp & Hk & Hk'). rewrite <- (best_unique _ _ _ _ _ _ _ _ Hb Hk) in Hk'.
    eexists _, _, _, _. split; [|split; [by apply match_move|done]]. done.
  - destruct Hs as (x & y & k1 & Hx & Hy & Hp & Hk & Hk'). rewrite <- (best_unique _ _ _ _ _ _ _ _ Hb Hk) in Hk'.
    eexists _, _, _, _. split; [|split; [by eapply mismatch_move|done]]. do 2 f_equal; lia.
Qed.
Lemma first_row_spec js : (forall j, j ∈ js -> j < col) ->
  first_row bp gap js = Done (map (fun j => gap * Z.of_nat j)%Z js).
Proof.
  induction js as [|j js IH]; intros Hj; [done|]. cbn [first_row map].
  pose proof (gap_times_spec 0 j ltac:(lia) ltac:(apply Hj; constructor)) as E. cbn [Nat.add] in E. rewrite E.
  bind_done.
  rewrite IH by (intros; apply Hj; by constructor). done.
Qed.
Lemma first_row_scored j : j < col -> scored (map (fun j => gap * Z.of_nat j)%Z (seq 0 col)) 0 j.
Proof.
  intros Hj. exists (gap * Z.of_nat j)%Z. split; [|by apply best_first_row].
  change (map ?h ?l) with (h <$> l). by rewrite list_lookup_fmap, lookup_seq_lt.
Qed.
Lemma first_traces_spec cells j : col <= cells -> j < col -> traced (first_traces cells col) 0 j.
Proof.
  intros Hc Hj. unfold traced, first_traces. cbn [Nat.mul Nat.add].
  rewrite list_lookup_imap, lookup_replicate_2 by lia. cbn [fmap option_fmap option_map].
  destruct j as [|j]; [eexists; split; done|].
  rewrite (proj2 (Nat.leb_le 1 (S j))), (proj2 (Nat.ltb_lt (S j) col)) by lia.
  exists Left. split; [done|]. exists (gap * Z.of_nat j)%Z. split; [apply best_first_row; lia|].
  replace (gap * Z.of_nat j + gap)%Z with (gap * Z.of_nat (S j))%Z by lia. by apply best_first_row.
Qed.

(** The three loops one after the other. *)
Lemma matrix_spec :
  exists al ms n k,
    (previous ← first_row bp gap (seq 0 col);
     tracing ← row_loop bp score gap mismatch first second start col (seq 1 rows) previous
                 (replicate col 0%Z) (first_traces ((rows + 1) * col) col);
     traceback (rows + 1 + col) tracing start col rows (col - 1) [] [] 0) = Done (rev al, rev ms, n) /\
    aligned score gap mismatch start f s al ms n k /\ best score gap mismatch start f s k.
Proof.
  rewrite first_row_spec by (intros j Hj%elem_of_seq; lia). bind_done.
  destruct (align_row_loop_spec rows 0 (map (fun j => gap * Z.of_nat j)%Z (seq 0 col)) (replicate col 0%Z)
    (first_traces ((rows + 1) * col) col)) as (tr & -> & Ht); [done| | | | | |].
  { by rewrite length_map, length_seq. }
  { apply length_replicate. }
  { unfold first_traces. by rewrite length_imap, length_replicate. }
  { intros j Hj. by apply first_row_scored. }
  { intros i' j Hi Hj. replace i' with 0 by lia. apply first_traces_spec; lia. }
  bind_done.
  destruct (traceback_spec tr Ht (rows + 1 + col) rows (col - 1) [] [] 0) as (al & ms & n & k & E & Ha & Hb);
    [lia|unfold col; lia|lia|].
  exists al, ms, n, k. split; [exact E|].
  rewrite (firstn_all f : take rows f = f), (take_ge s) in Ha, Hb by (unfold col; lia). done.
Qed.
End Loops.

(** ** The midpoint of an alignment *)

Section Midpoint.
Context {T : Type} (score : T -> T -> Z) (gap mismatch : Z) (start : nat).

Definition in_range (f s : list T) (e : option nat * option nat) : Prop :=
  (forall i, e.1 = Some i -> i < start + length f) /\ (forall j, e.2 = Some j -> j < start + length s).
Lemma aligned_range (f s : list T) al ms n k : aligned score gap mismatch start f s al ms n k ->
  Forall (in_range f s) al /\ Forall (fun m => m.1 < start + length f /\ m.2 < start + length s) ms.
Proof.
  assert (forall (f f' s s' : list T) e, in_range f s e -> in_range (f ++ f') (s ++ s') e) as Hm.
  { intros f0 f' s0 s' e [H1 H2]. split; intros i Hi; [apply H1 in Hi|apply H2 in Hi]; rewrite length_app; lia. }
  induction 1 as [|f s al ms n k x y Hp E [IH1 IH2]|f s al ms n k x y Hp E [IH1 IH2]|f s al ms n k x E [IH1 IH2]
    |f s al ms n k y E [IH1 IH2]]; [done|..]; rewrite ?Forall_app, ?Forall_singleton, ?length_app; cbn [length fst snd].
  all: repeat split; try (intros ? [= <-]; rewrite ?length_app; cbn; lia); try done; try lia.
  all: try (eapply Forall_impl; [exact IH2|]; cbn; intros; lia).
  - eapply Forall_impl; [exact IH1|]. intros; by apply Hm.
  - eapply Forall_impl; [exact IH1|]. intros; by apply Hm.
  - eapply Forall_impl; [exact IH1|]. intros e He. rewrite <- (app_nil_r s). by apply Hm.
  - eapply Forall_impl; [exact IH1|]. intros e He. rewrite <- (app_nil_r f). by apply Hm.
Qed.
End Midpoint.

Lemma midpoint_loop_spec {T} (nw : NeedlemanWunsch T) al : forall cs fs out,
  Forall (fun e => (forall i, e.1 = Some i -> i < length (first_sequence nw)) /\
                   (forall j, e.2 = Some j -> j < length (second_sequence nw))) al ->
  Forall (fun m => m.1 < length (first_sequence nw) /\ m.2 < length (second_sequence nw)) (mismatches nw) ->
  exists rest, midpoint_loop nw al cs fs out = Done (out ++ rest) /\
    forall x, x ∈ rest -> x ∈ first_sequence nw \/ x ∈ second_sequence nw.
Proof.
  assert (forall (l : list T) i, i < length l -> exists x, get_at l i = Done x /\ x ∈ l) as Hget.
  { intros l i Hi. destruct (lookup_lt_is_Some_2 l i Hi) as [x Hx]. exists x.
    split; [by apply get_at_Done|by eapply list_elem_of_lookup_2]. }
  induction al as [|[o1 o2] al IH]; intros cs fs out Hal Hms.
  { exists []. rewrite app_nil_r. split; [done|]. intros x Hx. inversion Hx. }
  apply Forall_cons in Hal as [[H1 H2] Hal]. cbn [fst snd] in H1, H2.
  assert (forall cs fs out l, (forall x, x ∈ l -> x ∈ first_sequence nw \/ x ∈ second_sequence nw) ->
    exists rest, midpoint_loop nw al cs fs (out ++ l) = Done (out ++ rest) /\
      forall x, x ∈ rest -> x ∈ first_sequence nw \/ x ∈ second_sequence nw) as Hstep.
  { intros cs' fs' out' l Hl. destruct (IH cs' fs' (out' ++ l) Hal Hms) as (rest & -> & Hr).
    exists (l ++ rest). rewrite app_assoc. split; [done|]. intros x [Hx|Hx]%elem_of_app; auto. }
  assert (forall m, mismatches nw !! fs = Some m ->
    m.1 < length (first_sequence nw) /\ m.2 < length (second_sequence nw)) as Hm.
  { intros m Hm. by apply (proj1 (Forall_lookup _ _) Hms) in Hm. }
  assert (forall x (l : list T), x ∈ [] -> x ∈ l) as Hno by (intros ? ? Hx; inversion Hx).
  destruct o1 as [i|], o2 as [j|]; cbn [midpoint_loop].
  1-3: destruct (cs <? num_mismatches nw / 2)%nat; try (by apply (IH cs fs out));
    first [destruct (Hget (first_sequence nw) i) as (x & -> & Hx); [by apply H1|]
          |destruct (Hget (second_sequence nw) j) as (x & -> & Hx); [by apply H2|]];
    bind_done; apply Hstep; intros z ->%list_elem_of_singleton; auto.
  destruct (fs <? length (mismatches nw))%nat eqn:Ef; cbn [andb].
  2: { bind_done. apply Hstep. eauto. }
  apply Nat.ltb_lt in Ef. destruct (lookup_lt_is_Some_2 _ _ Ef) as [m Em].
  destruct (Hm m Em) as [Hm1 Hm2]. rewrite !(get_at_Done _ fs m Em).
  destruct (cs <? num_mismatches nw / 2)%nat; bind_done;
    [destruct (Hget (first_sequence nw) m.1) as (x & -> & Hx)|destruct (Hget (second_sequence nw) m.2) as (x & -> & Hx)];
    try done; bind_done; apply Hstep; intros z ->%list_elem_of_singleton; auto.
Qed.
Lemma push_prefix_spec {T} (l : list T) k : forall i, i + k <= length l ->
  push_prefix l (seq i k) = Done (take k (drop i l)).
Proof.
  induction k as [|k IH]; intros i Hi; [done|]. cbn [seq push_prefix].
  destruct (lookup_lt_is_Some_2 l i) as [x Hx]; [lia|]. rewrite (get_at_Done l i x Hx). bind_done.
  rewrite IH by lia. bind_done. by rewrite (drop_S _ _ _ Hx).
Qed.
Lemma common_start_le {T} (score : T -> T -> Z) first : forall second,
  common_start score first second <= length first /\ common_start score first second <= length second.
Proof.
  induction first as [|a first IH]; intros [|b second]; cbn; try lia. destruct (IH second).
  destruct (0 <? score a b)%Z; cbn; lia.
Qed.

(** C36: After the common start of the two sequences the alignment is one of the
    best: with scores that stay within 32 bits [match_sequences_bounded] refuses
    exactly the matrices above its limit, before doing any work, and otherwise
    returns without a panic an alignment of the two rests, with its mismatches
    and their number, whose score no alignment exceeds.  From that result
    [generate_midpoint_schedule] returns a sequence that starts with the common
    start and holds only elements of the two sequences. *)
Theorem alignment_is_best {T : Type} `{EqDecision T} bp (nw : NeedlemanWunsch T) score_o gap_o mismatch_o max B
    (score := default simple_score score_o) (gap := default (-1)%Z gap_o) (mismatch := default (-2)%Z mismatch_o)
    (first := first_sequence nw) (second := second_sequence nw) (start := common_start score first second)
    (cells := Z.of_nat ((length first + 1 - start) * (length second + 1 - start))) :
  (1 <= B)%Z -> (- B <= gap <= B)%Z -> (- B <= mismatch <= B)%Z ->
  (forall x y, x ∈ first -> y ∈ second -> (score x y <= B)%Z) ->
  (Z.of_nat (length first + length second) * B < 2 ^ 31)%Z ->
  ((max < cells)%Z -> match_sequences_bounded bp nw score_o gap_o mismatch_o max
     = (Err (MatrixTooLarge cells max), with_mismatches nw [] 0)) /\
  ((cells <= max)%Z -> exists al ms n k,
     match_sequences_bounded bp nw score_o gap_o mismatch_o max = (Ok (start, al), with_mismatches nw ms n) /\
     aligned score gap mismatch start (drop start first) (drop start second) al ms n k /\
     (forall al' ms' n' k', aligned score gap mismatch start (drop start first) (drop start second) al' ms' n' k' ->
        (k' <= k)%Z) /\
     exists rest, generate_midpoint_schedule (with_mismatches nw ms n) start al = Done (take start first ++ rest) /\
       forall x, x ∈ rest -> x ∈ first \/ x ∈ second).
Proof.
  intros HB Hg Hm Hs Hfit. destruct (common_start_le score first second) as [Hl1 Hl2]. fold start in Hl1, Hl2.
  assert (checked_u64 cells = Some cells) as Hc.
  { apply checked_u64_Some. split; [done|]. unfold is_u64, cells. rewrite Nat2Z.inj_mul.
    assert (Z.of_nat (length first + length second) < 2 ^ 31)%Z by nia.
    assert (0 <= Z.of_nat (length first + 1 - start) <= 2 ^ 31)%Z by lia.
    assert (0 <= Z.of_nat (length second + 1 - start) <= 2 ^ 31)%Z by lia.
    pose proof (Z.mul_le_mono_nonneg (Z.of_nat (length first + 1 - start)) (2 ^ 31)
      (Z.of_nat (length second + 1 - start)) (2 ^ 31)). unfold u64_max. lia. }
  unfold match_sequences_bounded. cbn [first_sequence second_sequence with_mismatches].
  fold score gap mismatch first second start cells. rewrite Hc. split.
  { intros Hmax. by rewrite (proj2 (Z.ltb_lt _ _)). }
  intros Hmax. rewrite (proj2 (Z.ltb_ge _ _)) by done.
  destruct (matrix_spec bp score gap mismatch B first second start Hl1 Hl2 HB Hg Hm Hs Hfit)
    as (al & ms & n & k & E & Ha & Hb).
  rewrite !length_drop in E.
  replace (length first + 1 - start) with (length first - start + 1) by lia.
  replace (length second + 1 - start) with (length second - start + 1) by lia.
  replace (length first - start + 1 - 1) with (length first - start) by lia. rewrite E, !rev_involutive.
  exists al, ms, n, k. split; [done|]. split; [done|]. split; [apply Hb|].
  unfold generate_midpoint_schedule. rewrite push_prefix_spec by done. rewrite drop_0. bind_done.
  apply aligned_range in Ha as [Hr1 Hr2]. rewrite !length_drop in Hr2. unfold in_range in Hr1. rewrite !length_drop in Hr1.
  replace (start + (length first - start)) with (length first) in * by lia.
  replace (start + (length second - start)) with (length second) in * by lia.
  by apply (midpoint_loop_spec (with_mismatches nw ms n)).
Qed.
Lemma alignment_is_best_witness :
  let nw := {| first_sequence := [1;2;3;4]; second_sequence := [1;3;4;5]; first_extra := []; second_extra := [];
               mismatches := []; num_mismatches := 0 |} in
  match_sequences_bounded validate nw None None None 16
    = (Ok (1, [(Some 1, None); (Some 2, Some 1); (Some 3, Some 2); (None, Some 3)]), with_mismatches nw [] 2) /\
  exists k, aligned simple_score (-1) (-2) 1 [2;3;4] [3;4;5]
      [(Some 1, None); (Some 2, Some 1); (Some 3, Some 2); (None, Some 3)] [] 2 k /\
    forall al' ms' n' k', aligned simple_score (-1) (-2) 1 [2;3;4] [3;4;5] al' ms' n' k' -> (k' <= k)%Z.
Proof.
  intros nw. assert (match_sequences_bounded validate nw None None None 16
    = (Ok (1, [(Some 1, None); (Some 2, Some 1); (Some 3, Some 2); (None, Some 3)]), with_mismatches nw [] 2)) as E
    by (vm_compute; reflexivity).
  split; [done|].
  destruct (alignment_is_best validate nw None None None 16 2) as [_ H]; [lia|by vm_compute|by vm_compute| |by vm_compute|].
  { intros x y _ _. cbn. unfold simple_score. case_match; lia. }
  destruct H as (al & ms & n & k & E' & Ha & Hb & _); [vm_compute; done|].
  rewrite E in E'. injection E' as <- <- <-. exists k. done.
Defined.

(** The switch from the first sequence to the second counts matched places as
    well and falls inside a swap: the midpoint of two orders of the same elements
    has one of them twice. *)
Example midpoint_repeats_element :
  let nw := {| first_sequence := [0;9;1;2;3;4]; second_sequence := [9;0;1;2;4;3]; first_extra := [];
               second_extra := []; mismatches := []; num_mismatches := 0 |} in
  match match_sequences_bounded release nw None None None 100 with
  | (Ok (start, al), nw') => generate_midpoint_schedule nw' start al = Done [0;9;0;1;2;4;3]
  | _ => False
  end.
Proof. vm_compute. reflexivity. Qed.
End NeedlemanProps.
