(* ===== verification/ScheduleSearch.v ===== *)
(** * The search for a critical schedule (src/hermit-cli/src/bin/hermit/schedule_search.rs)

    [hermit analyze] narrows a passing and a failing schedule down to two that
    differ by one swap.  Each trial replays a schedule; running it is code
    outside this file, the parameter [tester], which may answer differently
    each time: it is a function of a state it also returns.  A computation is a
    state transformer over that state and the intervals shown to the observer,
    ending in a value, an error or a panic.  Messages to the terminal, and
    with them the verbose report and its two settings, are left out. *)
From Stdlib Require Import ZArith Lia List Sorting.Sorted.
From stdpp Require Import base gmap countable list sorting.
From S2P Require Import Prelude BubbleSort Bubbles BubblesIter BubblesProps BubblesOrder Schedule Needleman.
Open Scope Z_scope.

Module ScheduleSearch.
Import Schedule.

Abbreviation schedule := (list SchedEvent).

Record Config := {
  max_jitter_editdist : nat;
  max_jitter_swapdist : nat;
  max_event_level_search_passes : nat;
  max_needleman_matrix_cells : Z;
  max_replay_attempts : nat;
  max_branch_count_jitter : option Z;
  refine_sub_events : bool;
  needleman_search : bool;
}.
Definition default_config : Config :=
  {| max_jitter_editdist := 0; max_jitter_swapdist := 0; max_event_level_search_passes := 100;
     max_needleman_matrix_cells := 4000000; max_replay_attempts := 4;
     max_branch_count_jitter := None; refine_sub_events := true; needleman_search := false |}.

Record EventLevelSearchResult := { r_passing : schedule; r_failing : schedule }.
Record CriticalSchedule := {
  failing_schedule : schedule;
  passing_schedule : schedule;
  critical_event_index : nat;
}.
Record Interval := {
  pass : nat;
  event_level : bool;
  passing : schedule;
  failing : schedule;
  i_edit_distance : nat;
  i_swap_distance : nat;
}.
Inductive SearchStart := Endpoints | FromInterval (pass : nat) (event_level : bool).

Definition scoring_function (first second : SchedEvent) : Z :=
  if same_kind first second then
    if count first =? count second then -2 + 1 + 3 else -2 + 1
  else -2.

(** ** Alignment *)

(** The running total per thread; a non-branch event stands at 0. *)
Fixpoint branch_totals_from (bp : profile) (totals : gmap DetTid Z) (l : schedule) : outcome (list Z) :=
  match l with
  | [] => Done []
  | event :: l' =>
      if bool_decide (op event <> Branch) then
        r ← branch_totals_from bp totals l'; Done (0 :: r)
      else
        total ← arith_u bp 64 (default 0 (totals !! dettid event) + count event);
        r ← branch_totals_from bp (<[dettid event := total]> totals) l'; Done (total :: r)
  end.
Definition branch_totals (bp : profile) (l : schedule) : outcome (list Z) := branch_totals_from bp ∅ l.

Definition stopless_of (l : schedule) (totals : list Z) : list (DetTid * Z) :=
  omap (fun '(event, total) =>
          if stopless event && bool_decide (end_rip event = None) then Some (dettid event, total) else None)
       (zip l totals).
Definition stopless_points (bp : profile) (a b : schedule) : outcome (gset (DetTid * Z)) :=
  ta ← branch_totals bp a; tb ← branch_totals bp b;
  Done (list_to_set (stopless_of a ta ++ stopless_of b tb)).

Definition alignment_key (unknown : gset (DetTid * Z)) (event : SchedEvent) (total : Z) : SchedEvent * Z :=
  ({| dettid := dettid event; op := op event; count := count event; start_rip := start_rip event;
      end_rip := if bool_decide (op event = Branch) && bool_decide ((dettid event, total) ∈ unknown)
                 then None else end_rip event;
      end_time := end_time event; stopless := false |}, total).
Definition alignment_keys (bp : profile) (l : schedule) (unknown : gset (DetTid * Z))
    : outcome (list (SchedEvent * Z)) :=
  totals ← branch_totals bp l;
  Done (zip_with (alignment_key unknown) l totals).
Definition aligned_keys (bp : profile) (source target : schedule)
    : outcome (list (SchedEvent * Z) * list (SchedEvent * Z)) :=
  unknown ← stopless_points bp source target;
  a ← alignment_keys bp source unknown; b ← alignment_keys bp target unknown; Done (a, b).

Definition align (bp : profile) (source target : schedule) : outcome (Bubbles.BubbleSortIter SchedEvent) :=
  '(source_keys, target_keys) ← aligned_keys bp source target;
  Bubbles.iterable_bubble_sort_from_perm bp source (Bubbles.generate_permutation source_keys target_keys).
Definition just_distance (bp : profile) (sched1 sched2 : schedule) : outcome (nat * nat) :=
  bubbles ← align bp sched1 sched2;
  e ← Bubbles.edit_distance bp bubbles; Done (e, Bubbles.swap_distance bubbles).

(** Take each event whose key is still available. *)
Fixpoint take_available (events : list (SchedEvent * SchedEvent)) (available : gmap SchedEvent nat) : schedule :=
  match events with
  | [] => []
  | (event, key) :: events' =>
      match available !! key with
      | Some (S n) => event :: take_available events' (<[key := n]> available)
      | _ => take_available events' available
      end
  end.
Definition count_keys (keys : schedule) : gmap SchedEvent nat :=
  foldl (fun m key => <[key := S (default 0%nat (m !! key))]> m) ∅ keys.
Definition events_shared_with (bp : profile) (l other : schedule) : outcome (option schedule) :=
  '(schedule_keys, other_keys) ← aligned_keys bp l other;
  let shared := take_available (zip l (fst <$> schedule_keys)) (count_keys (fst <$> other_keys)) in
  if bool_decide (length shared = length other) then
    d ← just_distance bp shared other;
    Done (if bool_decide (d = (1, 1)%nat) then Some shared else None)
  else Done None.

(** ** Agreement of replays *)

Definition same_interleaving (first second : schedule) (branch_jitter : Z) : bool :=
  bool_decide (length first = length second) &&
  forallb (fun '(a, b) =>
    bool_decide (dettid a = dettid b) && bool_decide (op a = op b) &&
    bool_decide (start_rip a = start_rip b) && bool_decide (end_rip a = end_rip b) &&
    (Z.abs (count a - count b) <=? (if bool_decide (op a = Branch) then branch_jitter else 0)))
    (zip first second).
Record ReplayDifference := { max_branches : Z; max_end_time_ns : Z }.
Inductive ReplayAgreement := Identical | Within (d : ReplayDifference) | Different.
Definition replay_agreement (first second : schedule) (branch_jitter : option Z) : ReplayAgreement :=
  if bool_decide (first = second) then Identical else
  match branch_jitter with
  | None => Different
  | Some jitter =>
      if same_interleaving first second jitter then
        let pairs := zip first second in
        Within {|
          max_branches := foldr Z.max 0 ((fun '(a, b) => Z.abs (count a - count b)) <$> pairs);
          max_end_time_ns :=
            foldr Z.max 0 (omap (fun '(a, b) => t ← end_time a; u ← end_time b; Some (Z.abs (t - u))) pairs) |}
      else Different
  end.

(** ** Prefixes and postfixes *)

Fixpoint common_len {A} (same : A -> A -> bool) (l1 l2 : list A) : nat :=
  match l1, l2 with
  | a :: l1', b :: l2' => if same a b then S (common_len same l1' l2') else 0%nat
  | _, _ => 0%nat
  end.
Definition get_common_pre_and_postfix {A} (sched_1 sched_2 : list A) (same : A -> A -> bool)
    : list A * list A :=
  let prefix_len := common_len same sched_1 sched_2 in
  let postfix_len :=
    if ((length sched_1 =? length sched_2) && (length sched_1 =? prefix_len))%nat then 0%nat
    else common_len same (rev sched_1) (rev sched_2) in
  (take prefix_len sched_1, drop (length sched_1 - postfix_len) sched_1).

Definition with_count (e : SchedEvent) (n : Z) : SchedEvent :=
  {| dettid := dettid e; op := op e; count := n; start_rip := start_rip e; end_rip := end_rip e;
     end_time := end_time e; stopless := stopless e |}.
Definition same_event_except_count (first second : SchedEvent) : bool :=
  same_operations first (with_count second (count first)).
Definition can_split_event (e : SchedEvent) : bool :=
  (0 <? count e) && (bool_decide (op e = Branch) || (count e =? 1)).
Definition sched_event_with_new_count (original : SchedEvent) (new_count : Z) : SchedEvent :=
  with_count original new_count.
Definition sched_event_fragment (original : SchedEvent) (n : Z) (keeps_start keeps_end : bool) : SchedEvent :=
  {| dettid := dettid original; op := op original; count := n;
     start_rip := if keeps_start then start_rip original else None;
     end_rip := if keeps_end then end_rip original else None;
     end_time := end_time original; stopless := keeps_end && stopless original |}.
Definition create_schedule_with_critical_pair (bp : profile) (prefix postfix pair : schedule) (i j : Z)
    : outcome schedule :=
  a ← get_at pair 0; b ← get_at pair 1;
  i_remainder ← arith_u bp 32 (count a - i);
  j_remainder ← arith_u bp 32 (count b - j);
  let critical_section :=
    [sched_event_fragment a i true (i_remainder =? 0); sched_event_fragment b j true (j_remainder =? 0);
     sched_event_fragment a i_remainder (i =? 0) true; sched_event_fragment b j_remainder (j =? 0) true] in
  Done (prefix ++ List.filter (fun e => 0 <? count e) critical_section ++ postfix).

(** ** Trials *)

Inductive SearchError (E : Type) :=
  | TrialError (e : E)
  | BaselineNotReproduced
  | TargetNotReproduced
  | ReplayNotReproducible
  | SearchDidNotConverge
  | SameSchedule
  | NoSingleSwap (unshared_events swaps_left : nat) (trimmed_failing_passed : bool).
Arguments TrialError {E} e.
Arguments BaselineNotReproduced {E}.
Arguments TargetNotReproduced {E}.
Arguments ReplayNotReproducible {E}.
Arguments SearchDidNotConverge {E}.
Arguments SameSchedule {E}.
Arguments NoSingleSwap {E} _ _ _.

Section Search.
Context {S E : Type} (bp : profile).
Context (tester : S -> schedule -> result E (bool * schedule) * S).

Record world := { tester_state : S; observed : list Interval }.
Definition search (A : Type) : Type := world -> result (SearchError E) A * world.
#[export] Instance search_ret : MRet search := fun A a w => (Ok a, w).
#[export] Instance search_bind : MBind search := fun A B f m w =>
  match m w with (Ok a, w') => f a w' | (Err e, w') => (Err e, w') | (Crash p, w') => (Crash p, w') end.
Definition fail {A} (e : SearchError E) : search A := fun w => (Err e, w).
Definition panics {A} (m : outcome A) : search A := fun w => (lift m, w).
Definition observe (i : Interval) : search () := fun w =>
  (Ok tt, {| tester_state := tester_state w; observed := observed w ++ [i] |}).
Definition test (l : schedule) : search (bool * schedule) := fun w =>
  let '(r, s) := tester (tester_state w) l in
  (map_err TrialError r, {| tester_state := s; observed := observed w |}).

(** *** Stable points *)

Definition agrees (cfg : Config) (replayed earlier : bool * schedule) : bool :=
  bool_decide (replayed.1 = earlier.1) &&
  match replay_agreement replayed.2 earlier.2 (max_branch_count_jitter cfg) with
  | Different => false | _ => true
  end.
Fixpoint replay_loop (cfg : Config) (requested : schedule) (attempts : list nat) (replays : list (bool * schedule))
    : search (bool * schedule) :=
  match attempts with
  | [] => fail ReplayNotReproducible
  | _ :: attempts' =>
      replayed ← test requested;
      if existsb (agrees cfg replayed) replays then mret (replayed.1, requested)
      else replay_loop cfg requested attempts' (replays ++ [replayed])
  end.
Definition test_and_select_stable_point (cfg : Config) (requested : schedule) : search (bool * schedule) :=
  r ← test requested;
  jitter ← panics (just_distance bp requested r.2);
  if ((jitter.1 <=? max_jitter_editdist cfg) && (jitter.2 <=? max_jitter_swapdist cfg))%nat then mret r
  else replay_loop cfg requested (seq 2 (Nat.max (max_replay_attempts cfg) 2 - 1)) [r].

(** *** The event level *)

(** Distances and midpoint of a pair: what a pass starts with. *)
Definition bisect (passing failing : schedule) : outcome (nat * nat * schedule) :=
  bubbles ← align bp passing failing;
  e ← Bubbles.edit_distance bp bubbles;
  '(p, _) ← Bubbles.midpoint bubbles;
  mid ← Bubbles.items p;
  Done (Bubbles.swap_distance bubbles, e, mid).
(** One swap and some unshared events apart. *)
Definition last_swap (cfg : Config) (passing failing : schedule) (swap_dist edit_dist : nat)
    : search EventLevelSearchResult :=
  shared ← panics (events_shared_with bp failing passing);
  match shared with
  | Some trimmed =>
      '(trimmed_passes, selected) ← test_and_select_stable_point cfg trimmed;
      if negb trimmed_passes then mret {| r_passing := passing; r_failing := selected |}
      else unshared ← panics (usize_sub edit_dist swap_dist); fail (NoSingleSwap unshared 1 true)
  | None => unshared ← panics (usize_sub edit_dist swap_dist); fail (NoSingleSwap unshared 1 false)
  end.
Fixpoint event_level_loop (cfg : Config) (passes : list nat) (passing failing : schedule)
    : search EventLevelSearchResult :=
  match passes with
  | [] => fail SearchDidNotConverge
  | pass_number :: passes' =>
      '(swap_dist, edit_dist, requested) ← panics (bisect passing failing);
      _ ← observe {| pass := pass_number; event_level := true; passing := passing; failing := failing;
                     i_edit_distance := edit_dist; i_swap_distance := swap_dist |};
      _ ← panics (usize_sub (length passing + length failing) (2 * length requested));
      if bool_decide (swap_dist = 0%nat) && bool_decide (edit_dist = 0%nat) then fail SameSchedule
      else if bool_decide (swap_dist = 0%nat) then fail (NoSingleSwap edit_dist 0 false)
      else if bool_decide (swap_dist = 1%nat) && bool_decide (edit_dist = 1%nat)
      then mret {| r_passing := passing; r_failing := failing |}
      else if bool_decide (swap_dist = 1%nat) then last_swap cfg passing failing swap_dist edit_dist
      else
        '(midpoint_passes, selected) ← test_and_select_stable_point cfg requested;
        if (midpoint_passes : bool) then event_level_loop cfg passes' selected failing
        else event_level_loop cfg passes' passing selected
  end.
Definition event_level_search (cfg : Config) (first_pass : nat) (passing failing : schedule)
    : search EventLevelSearchResult :=
  event_level_loop cfg (seq first_pass (max_event_level_search_passes cfg - first_pass)) passing failing.

(** *** Alignment by Needleman-Wunsch *)

(** [(a, b) >= (c, d)] on tuples is lexicographic. *)
Definition pair_ge (x y : nat * nat) : bool :=
  ((y.1 <? x.1) || ((y.1 =? x.1) && (y.2 <=? x.2)))%nat.
Fixpoint needleman_loop (cfg : Config) (passes : list nat) (passing failing : schedule)
    : search EventLevelSearchResult :=
  match passes with
  | [] => fail SearchDidNotConverge
  | pass_number :: passes' =>
      d ← panics (just_distance bp passing failing);
      _ ← observe {| pass := pass_number; event_level := false; passing := passing; failing := failing;
                     i_edit_distance := d.1; i_swap_distance := d.2 |};
      if bool_decide (d = (1, 1)%nat) then mret {| r_passing := passing; r_failing := failing |}
      else if bool_decide (d.1 <> d.2) then event_level_search cfg 0 passing failing
      else
        let needleman :=
          {| Needleman.first_sequence := passing; Needleman.second_sequence := failing;
             Needleman.first_extra := []; Needleman.second_extra := [];
             Needleman.mismatches := []; Needleman.num_mismatches := 0 |} in
        match Needleman.match_sequences_bounded bp needleman (Some scoring_function) None (Some (-2))
                (max_needleman_matrix_cells cfg) with
        | (Crash p, _) => panics (Panic p)
        | (Err _, _) => event_level_search cfg 0 passing failing
        | (Ok (_, []), _) => event_level_search cfg 0 passing failing
        | (Ok (start_index, al), needleman') =>
            requested ← panics (Needleman.generate_midpoint_schedule needleman' start_index al);
            dp ← panics (just_distance bp passing requested);
            df ← panics (just_distance bp requested failing);
            if pair_ge dp d || pair_ge df d then event_level_search cfg 0 passing failing
            else
              '(midpoint_passes, selected) ← test_and_select_stable_point cfg requested;
              if (midpoint_passes : bool) then needleman_loop cfg passes' selected failing
              else needleman_loop cfg passes' passing selected
        end
  end.
Definition needleman_level_search (cfg : Config) (first_pass : nat) (passing failing : schedule)
    : search EventLevelSearchResult :=
  needleman_loop cfg (seq first_pass (max_event_level_search_passes cfg - first_pass)) passing failing.

(** *** Within an event *)

Definition test_exact_replay (requested : schedule) : search (option bool) :=
  '(passes, actual) ← test requested;
  let realized := bool_decide (length actual = length requested) &&
    forallb (fun '(a, r) => same_operations a r) (zip actual requested) in
  mret (if realized then Some passes else None).

(** The interval halves, so 33 rounds are more than a [u32] range needs. *)
Fixpoint binary_search_loop (fuel : nat) (predicate : Z -> search (option bool)) (l r : Z) : search (option Z) :=
  match fuel with
  | 0%nat => panics (Panic PFuel)
  | Datatypes.S fuel' =>
      size ← panics (arith_u bp 32 (r - l));
      if 0 <? size then
        mid ← panics (arith_u bp 32 (l + size / 2));
        t ← predicate mid;
        match t with
        | None => mret None
        | Some true =>
            l' ← panics (arith_u bp 32 (mid + 1)); binary_search_loop fuel' predicate l' r
        | Some false => binary_search_loop fuel' predicate l mid
        end
      else mret (Some l)
  end.
Definition binary_search (start stop : Z) (predicate : Z -> search (option bool)) : search (option Z) :=
  binary_search_loop 34 predicate start stop.

(** The critical pair with the larger of the two counts of each event. *)
Definition critical_pair (passing failing : schedule) (start : nat) : outcome (option schedule) :=
  p0 ← get_at passing start; p1 ← get_at passing (start + 1);
  f0 ← get_at failing start; f1 ← get_at failing (start + 1);
  if negb (same_event_except_count p0 f1) || negb (same_event_except_count p1 f0) then Done None else
  let a := sched_event_with_new_count p0 (Z.max (count p0) (count f1)) in
  let b := sched_event_with_new_count p1 (Z.max (count p1) (count f0)) in
  if negb (can_split_event a) || negb (can_split_event b) ||
     negb (existsb (fun e => bool_decide (op e = Branch) && (1 <? count e)) [a; b])
  then Done None else Done (Some [a; b]).
Definition swap_at (l : schedule) (k : nat) : outcome schedule :=
  k1 ← usize_sub k 1; a ← get_at l k1; b ← get_at l k;
  l1 ← set_at l k1 b; set_at l1 k a.
Definition verify_pair (i : Z) (prefix : schedule) (failing : schedule) : search (option CriticalSchedule) :=
  let index := (length prefix + 1 + (if (0 <? i)%Z then 1 else 0))%nat in
  passing ← panics (swap_at failing index);
  d ← panics (just_distance bp passing failing);
  if bool_decide (d <> (1, 1)%nat) then mret None else
  tp ← test_exact_replay passing;
  match tp with
  | None | Some false => mret None
  | Some true =>
      tf ← test_exact_replay failing;
      match tf with
      | None | Some true => mret None
      | Some false =>
          mret (Some {| failing_schedule := failing; passing_schedule := passing; critical_event_index := index |})
      end
  end.
Definition sub_event_search (passing failing : schedule) : search (option CriticalSchedule) :=
  let '(prefix, postfix) := get_common_pre_and_postfix passing failing same_operations in
  if bool_decide (length passing <> length failing) ||
     bool_decide ((length prefix + length postfix + 2)%nat <> length passing) then mret None else
  cpair ← panics (critical_pair passing failing (length prefix));
  match cpair with
  | None => mret None
  | Some cpair =>
      a ← panics (get_at cpair 0); b ← panics (get_at cpair 1);
      let i_max := count a in
      let j_max := count b in
      i_plus_one ← binary_search 0 i_max (fun i =>
        l ← panics (create_schedule_with_critical_pair bp prefix postfix cpair i j_max);
        t ← test_exact_replay l; mret (negb <$> t));
      match i_plus_one with
      | None => mret None
      | Some i1 =>
          if i1 =? 0 then mret None else
          let i := i1 - 1 in
          j ← binary_search 1 j_max (fun j =>
            l ← panics (create_schedule_with_critical_pair bp prefix postfix cpair i j);
            test_exact_replay l);
          match j with
          | None => mret None
          | Some j =>
              l ← panics (create_schedule_with_critical_pair bp prefix postfix cpair i j);
              verify_pair i prefix l
          end
      end
  end.

(** *** The whole search *)

Definition start_search (cfg : Config) (start : SearchStart) (initial_passing initial_failing : schedule)
    : search (nat * bool) :=
  match start with
  | Endpoints =>
      p ← test initial_passing;
      if negb p.1 then fail BaselineNotReproduced else
      f ← test initial_failing;
      if (f.1 : bool) then fail TargetNotReproduced else mret (0%nat, negb (needleman_search cfg))
  | FromInterval pass event_level => mret (pass, event_level || negb (needleman_search cfg))
  end.
(** The refined pair, or the pair of the event level with its critical index. *)
Definition report (r : EventLevelSearchResult) (refined : option CriticalSchedule) : CriticalSchedule :=
  match refined with
  | Some c => c
  | None =>
      let '(common_prefix, _) := get_common_pre_and_postfix (r_passing r) (r_failing r) same_operations in
      {| failing_schedule := r_failing r; passing_schedule := r_passing r;
         critical_event_index := length common_prefix + 1 |}
  end.
Definition search_for_critical_schedule_observed (cfg : Config) (start : SearchStart)
    (initial_passing initial_failing : schedule) : search CriticalSchedule :=
  '(first_pass, event_level) ← start_search cfg start initial_passing initial_failing;
  r ← (if (event_level : bool) then event_level_search cfg first_pass initial_passing initial_failing
       else needleman_level_search cfg first_pass initial_passing initial_failing);
  refined ← (if refine_sub_events cfg then sub_event_search (r_passing r) (r_failing r) else mret None);
  mret (report r refined).
Definition search_for_critical_schedule (cfg : Config) (initial_passing initial_failing : schedule)
    : search CriticalSchedule :=
  search_for_critical_schedule_observed cfg Endpoints initial_passing initial_failing.
End Search.
End ScheduleSearch.

(** * Alignment keys under reordering

    The keys two schedules are aligned on hold each thread's branch total, so
    they depend on the order of the thread's own branches only.  A schedule
    whose threads keep that order has the same keys, and two schedules with the
    same keys agree on that order. *)

Module ScheduleKeys.
Import Schedule ScheduleSearch BubblesOrder.

(** A schedule whose branch batches are not empty, short enough for its sums to
    fit 64 bits. *)
Definition sched_ok (l : schedule) : Prop :=
  Z.of_nat (length l) <= 2 ^ 28 /\ Forall (fun e => op e = Branch -> 0 < count e <= u32_max) l.

(** ** Branch totals without the overflow *)

Definition contrib (t : DetTid) (e : SchedEvent) : Z :=
  if bool_decide (op e = Branch) && bool_decide (dettid e = t) then count e else 0.
Fixpoint thread_sum (t : DetTid) (l : schedule) : Z :=
  match l with [] => 0 | e :: l' => contrib t e + thread_sum t l' end.
Definition total_in (l : schedule) (j : nat) (e : SchedEvent) : Z :=
  if bool_decide (op e = Branch) then thread_sum (dettid e) (take (S j) l) else 0.
Definition totals (l : schedule) : list Z := imap (fun j e => total_in l j e) l.

Lemma thread_sum_app t l l' : thread_sum t (l ++ l') = thread_sum t l + thread_sum t l'.
Proof. induction l as [|e l IH]; simpl; [done|]. rewrite IH. lia. Qed.
Lemma contrib_bounds t e : (op e = Branch -> 0 < count e <= u32_max) -> 0 <= contrib t e <= u32_max.
Proof.
  unfold contrib, u32_max. intros H. case_bool_decide as Ho; [|simpl; lia].
  specialize (H Ho). case_bool_decide; simpl; lia.
Qed.
Lemma thread_sum_bounds t l :
  Forall (fun e => op e = Branch -> 0 < count e <= u32_max) l ->
  0 <= thread_sum t l <= Z.of_nat (length l) * u32_max.
Proof.
  induction 1 as [|e l He _ IH]; [simpl; lia|]. pose proof (contrib_bounds t e He). cbn [thread_sum length]. lia.
Qed.
Lemma take_add_middle {A} (pre : list A) e l : take (S (length pre)) (pre ++ e :: l) = pre ++ [e].
Proof. rewrite take_app. rewrite take_ge by lia. by replace (S (length pre) - length pre)%nat with 1%nat by lia. Qed.

Lemma branch_totals_from_spec bp m pre l :
  sched_ok (pre ++ l) -> (forall t, default 0 (m !! t) = thread_sum t pre) ->
  branch_totals_from bp m l = Done (imap (fun j e => total_in (pre ++ l) (length pre + j) e) l).
Proof.
  revert m pre. induction l as [|e l IH]; intros m pre Hok Hm; [done|]. cbn [branch_totals_from].
  pose proof Hok as [Hlen Hall].
  assert (pre ++ e :: l = (pre ++ [e]) ++ l) as Eapp by (by rewrite <- (assoc_L (++))).
  assert (imap (fun j e0 => total_in (pre ++ e :: l) (length pre + S j)%nat e0) l =
    imap (fun j e0 => total_in ((pre ++ [e]) ++ l) (length (pre ++ [e]) + j)%nat e0) l) as Etl.
  { apply imap_ext. intros i x _. rewrite Eapp, length_app. simpl. f_equal. lia. }
  rewrite imap_cons. unfold total_in at 1. rewrite Nat.add_0_r, take_add_middle.
  unfold compose. rewrite Etl.
  destruct (decide (op e = Branch)) as [Ho|Ho].
  - rewrite bool_decide_false by (intros H; by apply H). rewrite (bool_decide_true (op e = Branch)) by done.
    rewrite Hm. rewrite thread_sum_app. cbn [thread_sum]. rewrite Z.add_0_r.
    assert (contrib (dettid e) e = count e) as Ec by (unfold contrib; by rewrite !bool_decide_true).
    rewrite Ec. pose proof (thread_sum_bounds (dettid e) (pre ++ [e])) as Hb.
    rewrite Eapp in Hall, Hlen. apply Forall_app in Hall as [Hall _]. specialize (Hb Hall).
    rewrite thread_sum_app in Hb. cbn [thread_sum] in Hb. rewrite Ec in Hb.
    rewrite arith_u_exact by (rewrite !length_app in *; unfold u32_max in *; lia).
    bind_done. rewrite (IH _ (pre ++ [e])); [done|by rewrite <- Eapp|].
    intros t. rewrite thread_sum_app. cbn [thread_sum]. destruct (decide (t = dettid e)) as [->|Hne].
    + rewrite lookup_insert_eq. cbn. rewrite Ec. lia.
    + rewrite lookup_insert_ne, Hm by done. unfold contrib.
      rewrite (bool_decide_false (dettid e = t)), andb_false_r by done. lia.
  - rewrite bool_decide_true by done. rewrite (bool_decide_false (op e = Branch)) by done.
    rewrite (IH _ (pre ++ [e])); [done|by rewrite <- Eapp|].
    intros t. rewrite thread_sum_app, Hm. cbn [thread_sum]. unfold contrib.
    rewrite (bool_decide_false (op e = Branch)) by done. simpl. lia.
Qed.
Lemma branch_totals_spec bp l : sched_ok l -> branch_totals bp l = Done (totals l).
Proof. intros H. apply (branch_totals_from_spec bp ∅ []); [done|]. intros t. by rewrite lookup_empty. Qed.
Lemma length_totals l : length (totals l) = length l.
Proof. apply length_imap. Qed.
Lemma totals_lookup l j e : l !! j = Some e -> totals l !! j = Some (total_in l j e).
Proof. intros H. unfold totals. by rewrite list_lookup_imap, H. Qed.

(** ** Keys *)

Definition keys_of (U : gset (DetTid * Z)) (l : schedule) : list (SchedEvent * Z) :=
  zip_with (alignment_key U) l (totals l).
Definition points (l : schedule) : list (DetTid * Z) := stopless_of l (totals l).
Definition unknown_of (a b : schedule) : gset (DetTid * Z) := list_to_set (points a ++ points b).

Lemma aligned_keys_spec bp a b :
  sched_ok a -> sched_ok b ->
  aligned_keys bp a b = Done (keys_of (unknown_of a b) a, keys_of (unknown_of a b) b).
Proof.
  intros Ha Hb. unfold aligned_keys, stopless_points, alignment_keys.
  by rewrite !branch_totals_spec by done.
Qed.
Lemma keys_lookup U l j e : l !! j = Some e -> keys_of U l !! j = Some (alignment_key U e (total_in l j e)).
Proof. intros H. unfold keys_of. by rewrite lookup_zip_with, H, (totals_lookup _ _ _ H). Qed.
Lemma length_keys U l : length (keys_of U l) = length l.
Proof. unfold keys_of. rewrite length_zip_with, length_totals. lia. Qed.
(** More unknown points only make keys coarser. *)
Lemma key_coarser U V e t e' t' :
  U ⊆ V -> alignment_key U e t = alignment_key U e' t' -> alignment_key V e t = alignment_key V e' t'.
Proof.
  intros HUV. unfold alignment_key. intros [= -> -> -> -> Hrip -> ->]. f_equal. f_equal.
  destruct (bool_decide (op _ = Branch)); [|done]. simpl in *.
  destruct (decide ((dettid e', t') ∈ V)) as [HV|HV]; [by rewrite bool_decide_true|].
  rewrite !bool_decide_false in Hrip by set_solver. by rewrite bool_decide_false.
Qed.

(** ** Reordering a schedule *)

Definition thread_branch (l : schedule) (t : DetTid) (i : nat) : bool :=
  match l !! i with
  | Some e => bool_decide (op e = Branch) && bool_decide (dettid e = t)
  | None => false
  end.
(** [s] keeps the branches of every thread in order. *)
Definition thread_ordered (s : list nat) (l : schedule) : Prop :=
  forall t x y, thread_branch l t x = true -> thread_branch l t y = true -> (x < y < length l)%nat -> before s x y.

(** The thread's sum over a list of positions. *)
Fixpoint index_sum (l : schedule) (t : DetTid) (s : list nat) : Z :=
  match s with
  | [] => 0
  | i :: s' => match l !! i with Some e => contrib t e | None => 0 end + index_sum l t s'
  end.
Lemma index_sum_app l t s s' : index_sum l t (s ++ s') = index_sum l t s + index_sum l t s'.
Proof. induction s as [|i s IH]; simpl; [done|]. rewrite IH. lia. Qed.
Lemma index_sum_filter l t s : index_sum l t s = index_sum l t (List.filter (thread_branch l t) s).
Proof.
  induction s as [|i s IH]; [done|]. cbn [index_sum List.filter]. unfold thread_branch at 1.
  rewrite IH. destruct (l !! i) as [e|] eqn:E; [|done]. unfold contrib at 1.
  destruct (bool_decide (op e = Branch) && bool_decide (dettid e = t)) eqn:Ec; [|done].
  cbn [index_sum]. rewrite E. unfold contrib at 1. by rewrite Ec.
Qed.
Lemma thread_sum_index l m s t n :
  reorders s l m -> thread_sum t (take n m) = index_sum l t (take n s).
Proof.
  intros [Hlen Hr]. induction n as [|n IH]; [done|].
  destruct (s !! n) as [i|] eqn:Ei.
  - destruct (lookup_lt_is_Some_2 m n) as [e He]; [apply lookup_lt_Some in Ei; lia|].
    rewrite (take_S_r _ _ _ Ei), (take_S_r _ _ _ He), thread_sum_app, index_sum_app, IH.
    cbn [index_sum thread_sum]. by rewrite <- (Hr n i Ei), He.
  - apply lookup_ge_None in Ei. rewrite (take_ge m), (take_ge s) by lia.
    rewrite (take_ge m), (take_ge s) in IH by lia. done.
Qed.
Lemma reorders_self (l : schedule) : reorders (seq 0 (length l)) l l.
Proof.
  split; [by rewrite length_seq|]. intros j i Hj. by apply lookup_seq in Hj as [-> _].
Qed.
Lemma split_inj {A} (x : A) a b a' b' :
  NoDup (a ++ x :: b) -> a ++ x :: b = a' ++ x :: b' -> a = a'.
Proof.
  intros Hn E. assert (length a = length a') as Hl.
  { apply (NoDup_lookup (a ++ x :: b) _ _ x Hn); [by apply list_lookup_middle|].
    rewrite E. by apply list_lookup_middle. }
  by apply app_inj_1 in E as [? _].
Qed.
Lemma prefix_filter n s (C : nat -> bool) j i :
  s ≡ₚ seq 0 n -> (forall x y, C x = true -> C y = true -> (x < y < n)%nat -> before s x y) ->
  s !! j = Some i -> C i = true -> List.filter C (take (S j) s) = List.filter C (take (S i) (seq 0 n)).
Proof.
  intros Hs Ho Hj Ci.
  assert (i < n)%nat as Hi by (apply list_elem_of_lookup_2 in Hj; rewrite Hs, elem_of_seq in Hj; lia).
  assert (seq 0 n !! i = Some i) as Hi2 by (by rewrite lookup_seq_lt).
  rewrite (take_S_r _ _ _ Hj), (take_S_r _ _ _ Hi2), !List.filter_app. f_equal.
  pose proof (in_order_filter n s C Hs Ho) as E.
  rewrite <- (take_drop_middle s j i Hj), <- (take_drop_middle (seq 0 n) i i Hi2) in E at 1.
  rewrite !List.filter_app in E. cbn [List.filter] in E. rewrite Ci in E.
  eapply split_inj; [|exact E]. rewrite E.
  replace (List.filter C (take i (seq 0 n)) ++ i :: List.filter C (drop (S i) (seq 0 n)))
    with (List.filter C (seq 0 n)); [apply NoDup_List_filter, NoDup_seq|].
  rewrite <- (take_drop_middle (seq 0 n) i i Hi2) at 1. rewrite List.filter_app. cbn [List.filter]. by rewrite Ci.
Qed.

Section Reorder.
Context (l m : schedule) (s : list nat).
Context (Hs : s ≡ₚ seq 0 (length l)) (Hr : reorders s l m) (Ho : thread_ordered s l).

Lemma total_reorder j i e : s !! j = Some i -> l !! i = Some e -> total_in m j e = total_in l i e.
Proof.
  intros Hj Hi. unfold total_in. destruct (bool_decide (op e = Branch)) eqn:Eb; [|done].
  rewrite (thread_sum_index l m s) by done. rewrite (thread_sum_index l l (seq 0 (length l))) by apply reorders_self.
  rewrite index_sum_filter, (index_sum_filter l _ (take (S i) _)). f_equal.
  apply prefix_filter; [done| |done|].
  - intros x y Cx Cy Hxy. by apply (Ho (dettid e)).
  - unfold thread_branch. rewrite Hi, Eb. simpl. by apply bool_decide_eq_true.
Qed.
(** The keys are those of the events, moved along. *)
Lemma keys_reorder U : reorders s (keys_of U l) (keys_of U m).
Proof.
  destruct Hr as [Hlen Hk]. split; [by rewrite length_keys|]. intros j i Hj.
  assert (i < length l)%nat as Hi by (apply list_elem_of_lookup_2 in Hj; rewrite Hs, elem_of_seq in Hj; lia).
  destruct (lookup_lt_is_Some_2 l i Hi) as [e He]. pose proof (Hk j i Hj) as Hm. rewrite He in Hm.
  by rewrite (keys_lookup _ _ _ _ Hm), (keys_lookup _ _ _ _ He), (total_reorder j i e Hj He).
Qed.
Lemma points_elem x l0 : x ∈ points l0 <->
  exists j e, l0 !! j = Some e /\ stopless e && bool_decide (end_rip e = None) = true /\ x = (dettid e, total_in l0 j e).
Proof.
  unfold points, stopless_of. rewrite list_elem_of_omap. split.
  - intros ([e t] & Hin & Hx). apply list_elem_of_lookup in Hin as [j Hj].
    apply lookup_zip_with_Some in Hj as (e' & t' & [= <- <-] & He & Ht).
    rewrite (totals_lookup _ _ _ He) in Ht. simplify_eq.
    destruct (stopless e && _) eqn:Es; [|done]. simplify_eq. eauto.
  - intros (j & e & He & Es & ->). exists (e, total_in l0 j e). rewrite Es. split; [|done].
    apply (list_elem_of_lookup_2 _ j). apply lookup_zip_with_Some.
    exists e, (total_in l0 j e). split_and!; [done|done|]. by apply totals_lookup.
Qed.
Lemma points_reorder x : x ∈ points m <-> x ∈ points l.
Proof.
  destruct Hr as [Hlen Hk]. rewrite !points_elem.
  assert (length s = length l) as Hls by (rewrite Hs; apply length_seq).
  split.
  - intros (j & e & Hj & Es & ->).
    destruct (lookup_lt_is_Some_2 s j) as [i Hi]; [apply lookup_lt_Some in Hj; lia|].
    rewrite (Hk j i Hi) in Hj. exists i, e. split_and!; [done|done|]. by rewrite (total_reorder j i e Hi Hj).
  - intros (i & e & Hi & Es & ->).
    assert (i ∈ s) as Hin by (rewrite Hs, elem_of_seq; apply lookup_lt_Some in Hi; lia).
    apply list_elem_of_lookup in Hin as [j Hj]. exists j, e. split_and!; [by rewrite (Hk j i Hj)|done|].
    by rewrite (total_reorder j i e Hj Hi).
Qed.
End Reorder.

(** ** Same keys, same thread orders *)

Lemma thread_sum_mono l t x y e :
  Forall (fun e => op e = Branch -> 0 < count e <= u32_max) l ->
  (x < y)%nat -> l !! y = Some e ->
  thread_sum t (take (S x) l) + contrib t e <= thread_sum t (take (S y) l).
Proof.
  intros Hall Hxy Hy. rewrite (take_S_r _ _ _ Hy), thread_sum_app. cbn [thread_sum].
  replace y with (S x + (y - S x))%nat by lia. rewrite <- take_take_drop, thread_sum_app.
  pose proof (thread_sum_bounds t (take (y - S x) (drop (S x) l))) as H.
  specialize (H ltac:(by apply Forall_take, Forall_drop)). lia.
Qed.
Lemma thread_total l t x e :
  l !! x = Some e -> thread_branch l t x = true ->
  total_in l x e = thread_sum t (take (S x) l) /\ contrib t e = count e /\ op e = Branch /\ dettid e = t.
Proof.
  unfold thread_branch. intros -> H. apply andb_true_iff in H as [Hb Ht].
  pose proof Hb as Hb'. pose proof Ht as Ht'. apply bool_decide_eq_true in Hb', Ht'.
  unfold total_in, contrib. rewrite Hb, Ht. simpl. by rewrite Ht'.
Qed.
Lemma total_increasing l t x y ex ey :
  sched_ok l -> l !! x = Some ex -> l !! y = Some ey ->
  thread_branch l t x = true -> thread_branch l t y = true -> (x < y)%nat ->
  total_in l x ex < total_in l y ey.
Proof.
  intros [_ Hall] Hx Hy Cx Cy Hxy.
  destruct (thread_total l t x ex Hx Cx) as (-> & _). destruct (thread_total l t y ey Hy Cy) as (-> & Hc & Ho & _).
  pose proof (thread_sum_mono l t x y ey Hall Hxy Hy).
  rewrite Forall_forall in Hall. pose proof (Hall ey (list_elem_of_lookup_2 _ _ _ Hy) Ho). lia.
Qed.
Lemma keys_thread_ordered U a b p :
  sched_ok a -> sched_ok b -> p ≡ₚ seq 0 (length a) -> reorders p (keys_of U a) (keys_of U b) ->
  thread_ordered p a.
Proof.
  intros Ha Hb Hp [Hlen Hk] t x y Cx Cy Hxy.
  destruct (lookup_lt_is_Some_2 a x) as [ex Hex]; [lia|]. destruct (lookup_lt_is_Some_2 a y) as [ey Hey]; [lia|].
  assert (forall z, (z < length a)%nat -> z ∈ p) as Hin by (intros; rewrite Hp, elem_of_seq; lia).
  destruct (before_total p x y) as [|Hyx]; [apply Hin; lia|apply Hin; lia|lia|done|exfalso].
  apply before_lookup_inv in Hyx as (j1 & j2 & Hj1 & Hj2 & Hlt).
  rewrite length_keys in Hlen.
  assert (forall j z ez, p !! j = Some z -> a !! z = Some ez -> thread_branch a t z = true ->
    exists e', b !! j = Some e' /\ thread_branch b t j = true /\ total_in b j e' = total_in a z ez) as Hcor.
  { intros j z ez Hj Hz Cz. destruct (lookup_lt_is_Some_2 b j) as [e' He']; [apply lookup_lt_Some in Hj; lia|].
    pose proof (Hk j z Hj) as E. rewrite (keys_lookup _ _ _ _ He'), (keys_lookup _ _ _ _ Hz) in E.
    injection E as E1 E2 E3 E4 E5 E6 E7. exists e'. split_and!; [done| |done].
    destruct (thread_total a t z ez Hz Cz) as (_ & _ & Hop & Ht).
    unfold thread_branch. rewrite He'. by rewrite !bool_decide_true by congruence. }
  destruct (Hcor j1 y ey Hj1 Hey Cy) as (e1 & He1 & C1 & T1).
  destruct (Hcor j2 x ex Hj2 Hex Cx) as (e2 & He2 & C2 & T2).
  pose proof (total_increasing a t x y ex ey Ha Hex Hey Cx Cy ltac:(lia)).
  pose proof (total_increasing b t j1 j2 e1 e2 Hb He1 He2 C1 C2 Hlt). lia.
Qed.

(** ** A state between two schedules *)

(** The two schedules have the same events as far as keys tell. *)
Definition aligned_pair (a b : schedule) : Prop :=
  sched_ok a /\ sched_ok b /\ keys_of (unknown_of a b) a ≡ₚ keys_of (unknown_of a b) b.
Definition pair_perm (a b : schedule) : list nat :=
  Bubbles.perm (Bubbles.generate_permutation (keys_of (unknown_of a b) a) (keys_of (unknown_of a b) b)).
(** How many swaps apart they are. *)
Definition distance (a b : schedule) : nat := BubbleSort.inversions (pair_perm a b).
Definition state_of (a b : schedule) (k : nat) : schedule := BubblesProps.state_items a (pair_perm a b) k.

Lemma omap_reorders {A} `{Countable A} (l : list A) s :
  s ≡ₚ seq 0 (length l) -> reorders s l (omap (fun i => l !! i) s).
Proof.
  intros Hs. assert (forall i, i ∈ s -> is_Some (l !! i)) as Hin.
  { intros i Hi. rewrite Hs, elem_of_seq in Hi. apply lookup_lt_is_Some. lia. }
  clear Hs. unfold reorders. induction s as [|i s IH]; [done|].
  destruct (Hin i ltac:(constructor)) as [e He].
  assert (omap (fun i => l !! i) (i :: s) = e :: omap (fun i => l !! i) s) as -> by (cbn; by rewrite He).
  destruct IH as [Hl Hk]; [intros; apply Hin; by constructor|]. split; [simpl; lia|].
  intros [|j] i' Hj; simplify_eq/=; [done|]. by apply Hk.
Qed.
Lemma sched_ok_perm l m : l ≡ₚ m -> sched_ok l -> sched_ok m.
Proof. unfold sched_ok. by intros ->. Qed.
Lemma reorders_omap {A} `{Countable A} (l m : list A) s :
  s ≡ₚ seq 0 (length l) -> reorders s l m -> m = omap (fun i => l !! i) s.
Proof.
  intros Hs [Hl Hk]. destruct (omap_reorders l s Hs) as [Hl' Hk'].
  apply list_eq_same_length with (length s); [done|done|].
  intros j x y Hj Hx Hy. destruct (lookup_lt_is_Some_2 s j Hj) as [i Hi].
  rewrite (Hk j i Hi) in Hx. rewrite (Hk' j i Hi) in Hy. congruence.
Qed.
Lemma omap_seq {A} (l : list A) : omap (fun i => l !! i) (seq 0 (length l)) = l.
Proof.
  assert (forall pre, omap (fun i => (pre ++ l) !! i) (seq (length pre) (length l)) = l) as H.
  { induction l as [|e l IH]; intros pre; [done|]. cbn. rewrite list_lookup_middle by done. f_equal.
    specialize (IH (pre ++ [e])). rewrite <- (assoc_L (++)), length_app in IH. simpl in IH.
    by rewrite Nat.add_1_r in IH. }
  apply (H []).
Qed.
Lemma reorders_perm {A} `{Countable A} (l m : list A) s : s ≡ₚ seq 0 (length l) -> reorders s l m -> m ≡ₚ l.
Proof.
  intros Hs Hr. rewrite (reorders_omap l m s Hs Hr). rewrite Hs. by rewrite omap_seq.
Qed.

Section Between.
Context (a b : schedule) (Hab : aligned_pair a b) (k : nat) (Hk : (k <= distance a b)%nat).
Let U := unknown_of a b.
Let p := pair_perm a b.
Let m := state_of a b k.
Let s := BubbleSort.bubble k p.

Lemma between_perm :
  p ≡ₚ seq 0 (length a) /\ s ≡ₚ seq 0 (length a) /\ reorders p (keys_of U a) (keys_of U b) /\
  stable p (keys_of U a) /\ thread_ordered p a.
Proof.
  destruct Hab as (Ha & Hb & Hkeys). fold U in Hkeys.
  assert (p ≡ₚ seq 0 (length a)) as Hp by (rewrite <- (length_keys U a); by apply complete_perm).
  assert (reorders p (keys_of U a) (keys_of U b)) as Hr by (by apply complete_reorders).
  split_and!; [done| |done|by apply complete_stable|by eapply keys_thread_ordered].
  unfold s. by rewrite BubbleSort.bubble_perm.
Qed.
Lemma between_reorders : reorders s a m /\ thread_ordered s a.
Proof.
  destruct between_perm as (Hp & Hs & _ & _ & Ho). split; [by apply omap_reorders|].
  intros t x y Cx Cy Hxy. apply bubble_before; [rewrite Hp; apply NoDup_seq|done|lia|by apply (Ho t)].
Qed.
Lemma between_perm_events : m ≡ₚ a.
Proof.
  destruct between_perm as (_ & Hs & _). unfold m, state_of, BubblesProps.state_items.
  by eapply reorders_perm; [|apply omap_reorders].
Qed.
Lemma between_ok : sched_ok m.
Proof. destruct Hab as (Ha & _). eapply sched_ok_perm; [symmetry; apply between_perm_events|done]. Qed.
(** The unknown points of the state are those of the source. *)
Lemma between_unknown : unknown_of a m ⊆ U /\ unknown_of m b = U.
Proof.
  destruct between_perm as (_ & Hs & _). destruct between_reorders as [Hr Ho].
  pose proof (points_reorder a m s Hs Hr Ho) as Hpts. unfold U, unknown_of. split.
  - intros x. rewrite !list_to_set_app, !elem_of_union, !elem_of_list_to_set, Hpts. tauto.
  - apply set_eq. intros x. rewrite !list_to_set_app, !elem_of_union, !elem_of_list_to_set, Hpts. done.
Qed.
Lemma between_keys V : reorders s (keys_of V a) (keys_of V m).
Proof.
  destruct between_perm as (_ & Hs & _). destruct between_reorders as [Hr Ho]. by apply keys_reorder.
Qed.

(** The state aligned with the source, and with the target. *)
Lemma between_source : aligned_pair a m /\ pair_perm a m = s.
Proof.
  destruct between_perm as (Hp & Hs & Hr & Hst & _). destruct Hab as (Ha & _).
  assert (Bubbles.generate_permutation (keys_of (unknown_of a m) a) (keys_of (unknown_of a m) m) =
    {| Bubbles.perm := s; Bubbles.unmatched_source_indices := []; Bubbles.unmatched_target_indices := [] |}) as E.
  { apply (align_source (keys_of U a) p k); [by rewrite length_keys|done|done|by rewrite !length_keys| |apply between_keys].
    intros x y [kx Hx] Exy. apply lookup_lt_Some in Hx as Hlx. rewrite length_keys in Hlx.
    rewrite Exy in Hx. apply lookup_lt_Some in Hx as Hly. rewrite length_keys in Hly. clear Hx.
    destruct (lookup_lt_is_Some_2 a x Hlx) as [ex Hex]. destruct (lookup_lt_is_Some_2 a y Hly) as [ey Hey].
    rewrite (keys_lookup (unknown_of a m) _ _ _ Hex), (keys_lookup (unknown_of a m) _ _ _ Hey) in Exy.
    rewrite (keys_lookup U _ _ _ Hex), (keys_lookup U _ _ _ Hey). f_equal.
    eapply key_coarser; [apply between_unknown|]. by apply (inj Some) in Exy. }
  split; [|unfold pair_perm; by rewrite E]. split_and!; [done|apply between_ok|].
  symmetry. eapply reorders_perm; [|apply between_keys]. by rewrite length_keys.
Qed.
Lemma between_target : aligned_pair m b /\ pair_perm m b = (index_in s <$> p).
Proof.
  destruct between_perm as (Hp & Hs & Hr & Hst & _). destruct Hab as (Ha & Hb & Hkeys).
  destruct between_unknown as [_ HU].
  assert (keys_of U m ≡ₚ keys_of U a) as Hm by (eapply reorders_perm; [|apply between_keys]; by rewrite length_keys).
  split.
  - split_and!; [apply between_ok|done|]. rewrite HU, Hm. done.
  - unfold pair_perm. rewrite HU.
    rewrite (align_target (keys_of U a) p k) by (done || by rewrite length_keys || apply between_keys). done.
Qed.
(** The distances to the two ends add up. *)
Lemma between_distances : distance a m = (distance a b - k)%nat /\ distance m b = k.
Proof.
  destruct between_perm as (Hp & _). assert (NoDup p) as Hn by (rewrite Hp; apply NoDup_seq).
  unfold distance. destruct between_source as [_ ->]. destruct between_target as [_ ->]. split.
  - by apply BubbleSort.bubble_inversions.
  - by apply inversions_to_state.
Qed.
End Between.
End ScheduleKeys.
