(* ===== verification/ScheduleSearchProps.v ===== *)
(** * Theorems on the search for a critical schedule

    The bisection converges on a pair one swap apart, a failed trial ends the
    search, the binary search finds a boundary, and a refined pair has been
    replayed. *)
From Stdlib Require Import ZArith Lia List Sorting.Sorted.
From stdpp Require Import base gmap countable list sorting.
From S2P Require Import Prelude Schedule BubbleSort Bubbles BubblesIter BubblesProps BubblesOrder Needleman ScheduleSearch.
Open Scope Z_scope.

Module ScheduleSearchProps.
Import Schedule BubbleSort ScheduleSearch ScheduleKeys BubblesOrder.

(** ** Distances as the code computes them *)

Lemma align_total bp a b :
  sched_ok a -> sched_ok b ->
  exists it, align bp a b = Done it /\ BubblesProps.sorts a (pair_perm a b) it /\
    Bubbles.cursor it = distance a b /\
    Bubbles.unused_value_count it =
      (length (Bubbles.unmatched_source_indices
         (Bubbles.generate_permutation (keys_of (unknown_of a b) a) (keys_of (unknown_of a b) b))) +
       length (Bubbles.unmatched_target_indices
         (Bubbles.generate_permutation (keys_of (unknown_of a b) a) (keys_of (unknown_of a b) b))))%nat.
Proof.
  intros Ha Hb. unfold align. rewrite aligned_keys_spec by done. bind_done.
  set (K := keys_of (unknown_of a b) a). set (L := keys_of (unknown_of a b) b).
  destruct Ha as [Hla _].
  pose proof (BubblesMatch.generate_perm_ok K L) as Hok. unfold K in Hok at 1. rewrite length_keys in Hok.
  pose proof (BubblesIter.perm_ok_length _ _ Hok). pose proof (BubbleSort.inversions_bound (pair_perm a b)) as Hi.
  change (Bubbles.perm (Bubbles.generate_permutation K L)) with (pair_perm a b) in *.
  assert (Z.of_nat (BubbleSort.inversions (pair_perm a b)) < 2 ^ 64) as Hfit.
  { assert (2 * Z.of_nat (BubbleSort.inversions (pair_perm a b)) <= 2 ^ 28 * 2 ^ 28); [|lia].
    transitivity (Z.of_nat (length (pair_perm a b)) * Z.of_nat (length (pair_perm a b))); nia. }
  unfold Bubbles.iterable_bubble_sort_from_perm.
  change (Bubbles.perm (Bubbles.generate_permutation K L)) with (pair_perm a b).
  destruct (BubblesIter.new_ok bp (pair_perm a b) a
    (length (Bubbles.unmatched_source_indices (Bubbles.generate_permutation K L)) +
     length (Bubbles.unmatched_target_indices (Bubbles.generate_permutation K L)))%nat Hok Hfit)
    as (it & -> & Hit & Hc & Hs & Hu).
  assert (BubblesProps.sorts a (pair_perm a b) it) as Hso by (split_and!; [done|done|apply Hok]).
  exists it. split_and!; [done|done| |done]. rewrite Hc. by apply (BubblesProps.sorts_count a).
Qed.
Lemma align_pair bp a b :
  aligned_pair a b -> exists it, align bp a b = Done it /\ BubblesProps.sorts a (pair_perm a b) it /\
    Bubbles.edit_distance bp it = Done (distance a b) /\ Bubbles.swap_distance it = distance a b.
Proof.
  intros (Ha & Hb & Hk). destruct (align_total bp a b Ha Hb) as (it & E & Hs & Hc & Hu).
  rewrite complete_source, complete_target in Hu by done. simpl in Hu.
  destruct (BubblesProps.sorts_count _ _ _ Hs) as [Hn _]. fold (distance a b) in Hn.
  exists it. split_and!; [done|done| |done]. unfold Bubbles.edit_distance. rewrite Hn, Hu, Nat.add_0_r.
  apply usize_arith_exact.
  destruct (BubblesProps.iterable_sorts bp (keys_of (unknown_of a b) a) (keys_of (unknown_of a b) b)) as [Hfit _].
  { rewrite length_keys. apply Ha. }
  fold (pair_perm a b) in Hfit. fold (distance a b) in Hfit. lia.
Qed.
Lemma just_distance_pair bp a b :
  aligned_pair a b -> just_distance bp a b = Done (distance a b, distance a b).
Proof.
  intros Hab. unfold just_distance. destruct (align_pair bp a b Hab) as (it & -> & _ & E & Es).
  bind_done. rewrite E. bind_done. by rewrite Es.
Qed.
Lemma bisect_pair bp a b :
  aligned_pair a b ->
  bisect bp a b = Done (distance a b, distance a b, state_of a b (distance a b / 2)).
Proof.
  intros Hab. unfold bisect. destruct (align_pair bp a b Hab) as (it & -> & Hs & E & Es).
  bind_done. rewrite E. bind_done. unfold Bubbles.midpoint.
  unfold Bubbles.swap_distance in *. rewrite Es.
  destruct (BubblesProps.seek_sorts a (pair_perm a b) it (distance a b / 2) Hs) as (it' & -> & Hs' & Hc').
  bind_done. pose proof (BubblesProps.shown_current a _ it' Hs') as Hsh.
  unfold BubblesProps.shown in Hsh. destruct (Bubbles.items (Bubbles.current it')) as [l|]; [|done].
  cbn [mbind outcome_bind] in *. injection Hsh as ->. rewrite Hc'. fold (distance a b).
  assert (distance a b / 2 <= distance a b)%nat by (apply Nat.Div0.div_le_upper_bound; lia).
  by rewrite Nat.min_l.
Qed.
Lemma aligned_refl a : sched_ok a -> aligned_pair a a /\ distance a a = 0%nat.
Proof.
  intros Ha. split; [done|]. unfold distance, pair_perm. set (K := keys_of _ a).
  rewrite (generate_unique (seq 0 (length K)) K K); [|done| |].
  - cbn [Bubbles.perm]. apply sorted_inversions, BubblesIter.seq_sorted.
  - split; [by rewrite length_seq|]. intros j i Hj. by apply lookup_seq in Hj as [-> _].
  - intros x y Hxy Hx E. apply (before_lookup _ x y x y); [| |done].
    + apply lookup_seq_lt. by apply lookup_lt_is_Some.
    + apply lookup_seq_lt. apply lookup_lt_is_Some. by rewrite <- E.
Qed.

(** ** Convergence of the bisection *)

(** A pair that differs by one swap of neighbours, as far as keys tell. *)
Definition one_swap_apart (a b : schedule) : Prop :=
  exists pre x y post, keys_of (unknown_of a b) a = pre ++ x :: y :: post /\
    keys_of (unknown_of a b) b = pre ++ y :: x :: post.
Lemma distance_one a b : aligned_pair a b -> distance a b = 1%nat -> one_swap_apart a b.
Proof.
  intros (Ha & Hb & Hk) Hd. set (K := keys_of (unknown_of a b) a) in *. set (L := keys_of (unknown_of a b) b) in *.
  pose proof (complete_perm K L Hk) as Hp. destruct (complete_reorders K L Hk) as [Hlen Hr].
  set (p := Bubbles.perm (Bubbles.generate_permutation K L)) in *.
  assert (NoDup p) as Hn by (rewrite Hp; apply NoDup_seq).
  pose proof (BubbleSort.bubble_succ 0 p Hn) as Hsw. change (distance a b) with (inversions p) in Hd.
  rewrite BubbleSort.bubble_0 in Hsw. specialize (Hsw ltac:(lia)).
  assert (bubble 1 p = seq 0 (length K)) as Eb.
  { apply BubblesIter.sorted_unique; [|apply BubblesIter.seq_sorted|by rewrite bubble_perm].
    rewrite <- Hd. by apply bubble_sorted. }
  rewrite Eb in Hsw. inversion Hsw as [pre x y post Hyx E1 E2].
  pose proof (reorders_omap K L p Hp (conj Hlen Hr)) as EL. pose proof (omap_seq K) as EK.
  rewrite <- E1 in EL. rewrite <- E2 in EK.
  assert (forall z, z ∈ p -> exists v, K !! z = Some v) as Hin.
  { intros z Hz. rewrite Hp, elem_of_seq in Hz. apply lookup_lt_is_Some. lia. }
  destruct (Hin x) as [vx Hx]; [rewrite <- E1; set_solver|].
  destruct (Hin y) as [vy Hy]; [rewrite <- E1; set_solver|].
  exists (omap (fun i => K !! i) pre), vy, vx, (omap (fun i => K !! i) post). fold K L.
  rewrite EL. rewrite <- EK at 1. rewrite !omap_app. cbn. by rewrite Hx, Hy.
Qed.

Section Faithful.
Context {S E : Type} (bp : profile) (cfg : Config).
Context (tester : S -> schedule -> result E (bool * schedule) * S) (verdict : schedule -> bool).
(** Every trial realizes the schedule it is asked for, with a fixed outcome. *)
Definition faithful : Prop := forall s l, exists s', tester s l = (Ok (verdict l, l), s').
Context (Hf : faithful).

Lemma test_faithful l w : exists w', test tester l w = (Ok (verdict l, l), w').
Proof. unfold test. destruct (Hf (tester_state w) l) as [s' ->]. simpl. eauto. Qed.
Lemma stable_point_faithful l w :
  sched_ok l -> exists w', test_and_select_stable_point bp tester cfg l w = (Ok (verdict l, l), w').
Proof.
  intros Hl. unfold test_and_select_stable_point. destruct (test_faithful l w) as [w' Ht].
  exists w'. unfold mbind, search_bind. rewrite Ht. cbn. destruct (aligned_refl l Hl) as [Hr Hd].
  unfold panics. rewrite (just_distance_pair bp l l Hr), Hd. done.
Qed.

(** What the search ends with. *)
Definition critical (r : EventLevelSearchResult) : Prop :=
  verdict (r_passing r) = true /\ verdict (r_failing r) = false /\
  aligned_pair (r_passing r) (r_failing r) /\ distance (r_passing r) (r_failing r) = 1%nat.

Lemma event_level_converges (Q : SchedEvent -> Prop) passes p f w :
  aligned_pair p f -> (1 <= distance p f)%nat -> (2 * distance p f <= 2 ^ length passes)%nat ->
  verdict p = true -> verdict f = false -> Forall Q p -> Forall Q f ->
  exists r w', event_level_loop bp tester cfg passes p f w = (Ok r, w') /\ critical r /\
    Forall Q (r_passing r) /\ Forall Q (r_failing r) /\ length (r_passing r) = length p.
Proof.
  revert p f w. induction passes as [|n passes IH]; intros p f w Hpf H1 H2 Hp Hv Qp Qf; [simpl in H2; lia|].
  cbn [event_level_loop]. unfold mbind, search_bind, panics. rewrite bisect_pair by done. cbn [lift].
  set (d := distance p f) in *. set (m := state_of p f (d / 2)).
  assert (d / 2 <= d)%nat as Hhalf by (apply Nat.Div0.div_le_upper_bound; lia).
  destruct (between_source p f Hpf (d / 2) Hhalf) as [Hpm _].
  destruct (between_target p f Hpf (d / 2) Hhalf) as [Hmf _].
  destruct (between_distances p f Hpf (d / 2) Hhalf) as [Hd1 Hd2]. fold m in Hpm, Hmf, Hd1, Hd2. fold d in Hd1.
  assert (length m = length p /\ length m = length f) as [Hlm Hlf].
  { destruct Hpm as (_ & _ & Hk1). destruct Hmf as (_ & _ & Hk2).
    apply Permutation_length in Hk1, Hk2. rewrite !length_keys in Hk1, Hk2. done. }
  cbn [observe]. rewrite usize_sub_exact by lia. cbn [lift].
  rewrite !(bool_decide_false (d = 0%nat)) by lia. cbn [andb].
  destruct (decide (d = 1%nat)) as [Ed|Ed].
  { rewrite !bool_decide_true by done. cbn [andb]. eexists _, _. split; [done|]. by split_and!. }
  assert (Forall Q m) as Qm by (unfold m; by rewrite (between_perm_events p f Hpf (d / 2))).
  rewrite !(bool_decide_false (d = 1%nat)) by done. cbn [andb].
  destruct (stable_point_faithful m {| tester_state := tester_state w;
    observed := observed w ++ [{| pass := n; event_level := true; passing := p; failing := f;
      i_edit_distance := d; i_swap_distance := d |}] |}) as [w' Hst]; [apply Hpm|].
  rewrite Hst. cbn [length] in H2. rewrite Nat.pow_succ_r' in H2.
  pose proof (Nat.div_mod d 2 ltac:(lia)). pose proof (Nat.mod_upper_bound d 2 ltac:(lia)).
  assert (2 * (d - d / 2) <= 2 ^ length passes)%nat as Hceil.
  { destruct (length passes) as [|k]; [change (2 ^ 0)%nat with 1%nat in *; lia|].
    rewrite Nat.pow_succ_r' in *. lia. }
  destruct (verdict m) eqn:Em.
  - destruct (IH m f w') as (r & w2 & Hr & Hc & H3 & H4 & H5); try done; [lia|lia|].
    exists r, w2. split_and!; try done. lia.
  - apply IH; try done; lia.
Qed.
End Faithful.

(** ** A failed trial ends the search *)

Section Recorded.
Context {S E : Type} (bp : profile) (cfg : Config).
Context (tester : S -> schedule -> result E (bool * schedule) * S).

(** The tester with a record of the trials: what was asked, what was answered. *)
Definition trial : Type := schedule * result E (bool * schedule).
Definition recorded (s : S * list trial) (l : schedule)
    : result E (bool * schedule) * (S * list trial) :=
  let '(r, s') := tester s.1 l in (r, (s', s.2 ++ [(l, r)])).
Abbreviation W := (@world (S * list trial)).
Abbreviation M := (@search (S * list trial) E).
Definition trials (w : W) : list trial := (tester_state w).2.
Definition is_answer (t : trial) : Prop := exists x, t.2 = Ok x.
(** Either every trial so far answered and no trial error is reported, or the
    last one did not and its error is what the computation ends with. *)
Definition ends {A} (r : result (SearchError E) A) (w : W) : Prop :=
  (Forall is_answer (trials w) /\ forall e, r <> Err (TrialError e)) \/
  (exists l x e, trials w = l ++ [(x, Err e)] /\ Forall is_answer l /\ r = Err (TrialError e)) \/
  (exists l x p, trials w = l ++ [(x, Crash p)] /\ Forall is_answer l /\ r = Crash p).
Definition careful {A} (m : M A) : Prop :=
  forall w, Forall is_answer (trials w) -> ends (m w).1 (m w).2.

Lemma careful_pure {A} (m : M A) :
  (forall w, tester_state (m w).2 = tester_state w /\ forall e, (m w).1 <> Err (TrialError e)) -> careful m.
Proof. intros H w Hw. destruct (H w) as [E1 E2]. left. unfold trials. by rewrite E1. Qed.
Lemma careful_ret {A} (a : A) : careful (mret (M := M) a).
Proof. by apply careful_pure. Qed.
Lemma careful_panics {A} (m : outcome A) : careful (panics m).
Proof. apply careful_pure. intros w. split; [done|]. by destruct m. Qed.
Lemma careful_fail {A} (e : SearchError E) : (forall x, e <> TrialError x) -> careful (@fail _ _ A e).
Proof. intros H. apply careful_pure. intros w. split; [done|]. simpl. intros x [=]. by apply (H x). Qed.
Lemma careful_observe i : careful (observe i).
Proof. by apply careful_pure. Qed.
Lemma careful_test l : careful (test recorded l).
Proof.
  intros w Hw. unfold test, recorded, ends, trials in *.
  destruct (tester _ l) as [[x|e|p] s']; cbn.
  - left. split; [|done]. apply Forall_app. split; [done|]. constructor; [by exists x|done].
  - right. left. by eexists _, _, _.
  - right. right. by eexists _, _, _.
Qed.
Lemma careful_bind {A B} (m : M A) (f : A -> M B) :
  careful m -> (forall a, careful (f a)) -> careful (m ≫= f).
Proof.
  intros Hm Hf w Hw. specialize (Hm w Hw). unfold mbind, search_bind.
  destruct (m w) as [[a|e|p] w']; simpl in *.
  - destruct Hm as [[Hw' _]|[(?&?&?&?&?&?)|(?&?&?&?&?&?)]]; [by apply Hf|done|done].
  - destruct Hm as [[Hw' He]|[(l&x&e'&?&?&?)|(?&?&?&?&?&?)]]; [|right; left|done].
    + left. split; [done|]. intros e' [=]. subst. by apply (He e').
    + exists l, x, e'. split_and!; [done|done|]. congruence.
  - destruct Hm as [[Hw' He]|[(?&?&?&?&?&?)|(l&x&p'&?&?&?)]]; [|done|right; right].
    + left. split; [done|]. done.
    + exists l, x, p'. split_and!; [done|done|]. congruence.
Qed.
End Recorded.

Create HintDb careful.
#[export] Hint Resolve careful_ret careful_panics careful_observe careful_test : careful.
#[export] Hint Opaque test observe panics fail : careful.

(** Take a computation apart into its steps. *)
Ltac careful_steps :=
  repeat match goal with
  | |- careful (mbind _ _) => apply careful_bind; [|intros ?]
  | |- careful (mret _) => apply careful_ret
  | |- careful (panics _) => apply careful_panics
  | |- careful (observe _) => apply careful_observe
  | |- careful (test _ _) => apply careful_test
  | |- careful (fail _) => apply careful_fail; intros ? [=]
  | |- careful (let '(_, _) := ?x in _) => destruct x
  | |- careful (match ?x with _ => _ end) => destruct x
  | H : forall _, careful _ |- careful _ => apply H
  | H : forall _ _, careful _ |- careful _ => apply H
  | |- careful _ => solve [auto with careful nocore]
  end.

Section Searches.
Context {S E : Type} (bp : profile) (cfg : Config).
Context (tester : S -> schedule -> result E (bool * schedule) * S).

Lemma careful_replay_loop requested attempts replays :
  careful (replay_loop (recorded tester) cfg requested attempts replays).
Proof. revert replays. induction attempts as [|n attempts IH]; intros replays; cbn [replay_loop]; careful_steps. Qed.
#[local] Hint Resolve careful_replay_loop : careful.
Lemma careful_stable_point l : careful (test_and_select_stable_point bp (recorded tester) cfg l).
Proof. unfold test_and_select_stable_point. careful_steps. Qed.
#[local] Hint Resolve careful_stable_point : careful.
Lemma careful_last_swap p f sd ed : careful (last_swap bp (recorded tester) cfg p f sd ed).
Proof. unfold last_swap. careful_steps. Qed.
#[local] Hint Resolve careful_last_swap : careful.
Lemma careful_event_level_loop passes p f : careful (event_level_loop bp (recorded tester) cfg passes p f).
Proof. revert p f. induction passes as [|n passes IH]; intros p f; cbn [event_level_loop]; careful_steps. Qed.
Lemma careful_event_level n p f : careful (event_level_search bp (recorded tester) cfg n p f).
Proof. apply careful_event_level_loop. Qed.
#[local] Hint Resolve careful_event_level : careful.
Lemma careful_needleman_loop passes p f : careful (needleman_loop bp (recorded tester) cfg passes p f).
Proof. revert p f. induction passes as [|n passes IH]; intros p f; cbn [needleman_loop]; careful_steps. Qed.
Lemma careful_needleman n p f : careful (needleman_level_search bp (recorded tester) cfg n p f).
Proof. apply careful_needleman_loop. Qed.
#[local] Hint Resolve careful_needleman : careful.
Lemma careful_exact_replay l : careful (test_exact_replay (recorded tester) l).
Proof. unfold test_exact_replay. careful_steps. Qed.
#[local] Hint Resolve careful_exact_replay : careful.
Lemma careful_binary_search a b (P : Z -> search (option bool)) :
  (forall x, careful (P x)) -> careful (@binary_search (S * list (@trial E)) E bp a b P).
Proof.
  intros HP. unfold binary_search. generalize 34%nat. intros n. revert a b.
  induction n as [|n IH]; intros a b; cbn [binary_search_loop]; careful_steps.
Qed.
Lemma careful_verify i pre f : careful (verify_pair bp (recorded tester) i pre f).
Proof. unfold verify_pair. careful_steps. Qed.
#[local] Hint Resolve careful_verify : careful.
Lemma careful_sub_event p f : careful (sub_event_search bp (recorded tester) p f).
Proof.
  unfold sub_event_search. repeat (careful_steps; try (apply careful_binary_search; intros ?)).
Qed.
#[local] Hint Resolve careful_sub_event : careful.
Lemma careful_start start p f : careful (start_search (recorded tester) cfg start p f).
Proof. unfold start_search. careful_steps. Qed.
#[local] Hint Resolve careful_start : careful.
Lemma careful_search start p f :
  careful (search_for_critical_schedule_observed bp (recorded tester) cfg start p f).
Proof. unfold search_for_critical_schedule_observed. careful_steps. Qed.
End Searches.

(** ** The binary search *)

Section BinarySearch.
Context {S E : Type} (bp : profile) (predicate : Z -> @search S E (option bool)) (P : Z -> bool).

(** On the range the predicate always answers, with a fixed answer. *)
Definition answers_on (lo hi : Z) : Prop :=
  forall x w, lo <= x < hi -> exists w', predicate x w = (Ok (Some (P x)), w').
Lemma binary_search_loop_spec fuel lo hi l r w :
  answers_on lo hi -> 0 <= lo <= l -> l <= r <= hi -> hi <= u32_max -> r - l < 2 ^ Z.of_nat fuel ->
  (l = lo \/ P (l - 1) = true) -> (r = hi \/ P r = false) ->
  exists v w', binary_search_loop bp (Datatypes.S fuel) predicate l r w = (Ok (Some v), w') /\
    lo <= v <= hi /\ (v = lo \/ P (v - 1) = true) /\ (v = hi \/ P v = false).
Proof.
  intros HP Hlo. revert l r w Hlo. induction fuel as [|fuel IH]; intros l r w Hlo Hr Hhi Hf Hl1 Hr1;
    cbn [binary_search_loop]; unfold mbind, search_bind, panics; unfold u32_max in *;
    rewrite arith_u_exact by lia; cbn [lift]; destruct (Z.ltb_spec 0 (r - l)) as [Hlt|Hge].
  - change (2 ^ Z.of_nat 0) with 1 in Hf. lia.
  - assert (l = r) as -> by lia. exists r, w. split_and!; try done; lia.
  - rewrite Nat2Z.inj_succ, Z.pow_succ_r in Hf by lia.
    pose proof (Z.div_mod (r - l) 2 ltac:(lia)). pose proof (Z.mod_pos_bound (r - l) 2 ltac:(lia)).
    set (mid := l + (r - l) / 2) in *. rewrite (arith_u_exact bp 32 mid) by lia. cbn [lift].
    destruct (HP mid w) as [w1 ->]; [lia|]. destruct (P mid) eqn:Em.
    + rewrite arith_u_exact by lia. cbn [lift]. apply IH; try done; try lia.
      right. by replace (mid + 1 - 1) with mid by lia.
    + apply IH; try done; try lia. by right.
  - assert (l = r) as -> by lia. exists r, w. split_and!; try done; lia.
Qed.
Lemma binary_search_spec lo hi w :
  answers_on lo hi -> 0 <= lo <= hi -> hi <= u32_max ->
  exists v w', binary_search bp lo hi predicate w = (Ok (Some v), w') /\
    lo <= v <= hi /\ (v = lo \/ P (v - 1) = true) /\ (v = hi \/ P v = false).
Proof.
  intros HP Hlo Hhi. apply binary_search_loop_spec; auto with lia.
  assert (hi - lo < 2 ^ 33) by (unfold u32_max in *; lia). done.
Qed.
End BinarySearch.

(** the binary search of a [u32] range returns without a panic a boundary
    of the predicate: the sample before it answered true, unless it is the start
    of the range, and the sample at it false, unless it is the end.  When the
    predicate holds exactly below some point, that boundary is the least value of
    the range at which it does not hold. *)
Theorem binary_search_boundary {S E : Type} (bp : profile) (predicate : Z -> @search S E (option bool))
    (P : Z -> bool) (lo hi : Z) (w : world)
    (HP : answers_on predicate P lo hi) (Hlo : 0 <= lo <= hi) (Hhi : hi <= u32_max) :
  exists v w', binary_search bp lo hi predicate w = (Ok (Some v), w') /\
    lo <= v <= hi /\ (v = lo \/ P (v - 1) = true) /\ (v = hi \/ P v = false) /\
    ((forall x y, P y = true -> x <= y -> P x = true) ->
     forall x, lo <= x < hi -> (P x = true <-> x < v)).
Proof.
  destruct (binary_search_spec bp predicate P lo hi w HP Hlo Hhi) as (v & w' & Hr & Hv & H1 & H2).
  exists v, w'. split_and!; [done|lia|lia|done|done|]. intros Hm x Hx. split.
  - intros Px. apply Z.lt_nge. intros Hvx. destruct H2 as [->|H2]; [lia|].
    by rewrite (Hm v x Px Hvx) in H2.
  - intros Hxv. destruct H1 as [->|H1]; [lia|]. apply (Hm x (v - 1)); [done|lia].
Qed.
Definition below (k : Z) (x : Z) : @search unit unit (option bool) := mret (Some (x <? k)).
Lemma binary_search_boundary_witness :
  exists v w', binary_search release 3 20 (below 11) {| tester_state := tt; observed := [] |} = (Ok (Some v), w') /\
    3 <= v <= 20 /\ (v = 3 \/ (v - 1 <? 11) = true) /\ (v = 20 \/ (v <? 11) = false) /\
    ((forall x y, (y <? 11) = true -> x <= y -> (x <? 11) = true) ->
     forall x, 3 <= x < 20 -> ((x <? 11) = true <-> x < v)).
Proof.
  apply (binary_search_boundary release (below 11) (fun x => x <? 11)); [|lia|unfold u32_max; lia].
  intros x w _. by exists w.
Defined.

(** ** Refined pairs have been replayed *)

Lemma search_bind_Ok {S E A B} (m : @search S E A) (f : A -> @search S E B) w b w' :
  (m ≫= f) w = (Ok b, w') -> exists a w1, m w = (Ok a, w1) /\ f a w1 = (Ok b, w').
Proof. unfold mbind, search_bind. destruct (m w) as [[]]; naive_solver. Qed.
(** Split a successful computation at its first step. *)
Ltac step H a w1 H1 := apply search_bind_Ok in H as (a & w1 & H1 & H).

Definition realized (actual requested : schedule) : bool :=
  bool_decide (length actual = length requested) &&
  forallb (fun '(a, r) => same_operations a r) (zip actual requested).

Section Verified.
Context {S E : Type} (bp : profile) (tester : S -> schedule -> result E (bool * schedule) * S).

Lemma exact_replay_trial l w b w' :
  test_exact_replay (recorded tester) l w = (Ok (Some b), w') ->
  exists actual, trials w' = trials w ++ [(l, Ok (b, actual))] /\ realized actual l = true.
Proof.
  unfold test_exact_replay. intros H. step H r w1 H1. destruct r as [passes actual].
  unfold test, recorded in H1. unfold trials. destruct (tester (tester_state w).1 l) as [[x|?|?] s'];
    simplify_eq/=. unfold mret, search_ret in H. injection H as H <-.
  change (_ && _) with (realized actual l) in H.
  exists actual. destruct (realized actual l) eqn:Er; simplify_eq/=. done.
Qed.
(** The trials of the pair, in order, and the swap between its schedules. *)
Definition verified_pair (w' : @world (S * list (@trial E))) (c : CriticalSchedule) : Prop :=
  swap_at (failing_schedule c) (critical_event_index c) = Done (passing_schedule c) /\
  just_distance bp (passing_schedule c) (failing_schedule c) = Done (1, 1)%nat /\
  exists before ap af,
    trials w' = before ++ [(passing_schedule c, Ok (true, ap)); (failing_schedule c, Ok (false, af))] /\
    realized ap (passing_schedule c) = true /\ realized af (failing_schedule c) = true.
Lemma panics_Ok {A} (m : outcome A) (w : @world S) a w' :
  @panics S E A m w = (Ok a, w') -> m = Done a /\ w' = w.
Proof. unfold panics. destruct m; naive_solver. Qed.
Lemma verify_pair_spec i prefix l w c w' :
  verify_pair bp (recorded tester) i prefix l w = (Ok (Some c), w') -> verified_pair w' c.
Proof.
  unfold verify_pair. intros H. step H p w1 H1. step H d w2 H2.
  unfold panics in H1, H2. destruct (swap_at l _) as [q|] eqn:Eq; [|done]. simplify_eq/=.
  destruct (just_distance bp p l) as [d'|] eqn:Ed; [|done]. simplify_eq/=.
  case_bool_decide as Hd; [done|]. step H tp w3 H3. destruct tp as [[]|]; [|done|done].
  step H tf w4 H4. destruct tf as [[]|]; [done| |done]. unfold mret, search_ret in H. simplify_eq.
  destruct (exact_replay_trial _ _ _ _ H3) as (ap & Hap & Hrp).
  destruct (exact_replay_trial _ _ _ _ H4) as (af & Haf & Hrf).
  split_and!; simpl; [done| |].
  - by rewrite Ed.
  - exists (trials w2), ap, af. rewrite Haf, Hap, <- (assoc_L (++)). done.
Qed.
Lemma sub_event_verified p f w c w' :
  sub_event_search bp (recorded tester) p f w = (Ok (Some c), w') -> verified_pair w' c.
Proof.
  unfold sub_event_search. destruct (get_common_pre_and_postfix _ _ _) as [prefix postfix].
  destruct (_ || _); [done|]. intros H. step H cp w1 H1. destruct cp as [cpair|]; [|done].
  step H a w2 H2. step H b w3 H3. step H i1 w4 H4. destruct i1 as [i1|]; [|done].
  destruct (i1 =? 0); [done|]. step H j w5 H5. destruct j as [j|]; [|done]. step H l w6 H6.
  by apply verify_pair_spec in H.
Qed.
End Verified.

(** whatever the tester does, a pair that the sub-event refinement returns
    has been replayed last: the passing schedule passed and was realized exactly,
    then the failing one failed and was realized exactly; the two are one swap of
    the events at the critical index apart. *)
Theorem refined_pair_verified {S E : Type} (bp : profile)
    (tester : S -> schedule -> result E (bool * schedule) * S) (p f : schedule) (w w' : world) (c : CriticalSchedule)
    (H : sub_event_search bp (recorded tester) p f w = (Ok (Some c), w')) :
  swap_at (failing_schedule c) (critical_event_index c) = Done (passing_schedule c) /\
  just_distance bp (passing_schedule c) (failing_schedule c) = Done (1, 1)%nat /\
  exists before ap af,
    trials w' = before ++ [(passing_schedule c, Ok (true, ap)); (failing_schedule c, Ok (false, af))] /\
    realized ap (passing_schedule c) = true /\ realized af (failing_schedule c) = true.
Proof. by apply sub_event_verified in H. Qed.

(** ** The refinement of a pair always ends *)

Lemma same_operations_refl e : same_operations e e = true.
Proof. unfold same_operations, same_kind. rewrite !bool_decide_true by done. by rewrite orb_true_r. Qed.
Lemma realized_refl l : realized l l = true.
Proof.
  unfold realized. rewrite bool_decide_true by done. simpl. induction l as [|e l IH]; [done|].
  simpl. by rewrite same_operations_refl.
Qed.
Lemma common_len_le {A} (same : A -> A -> bool) l1 l2 :
  (common_len same l1 l2 <= length l1)%nat /\ (common_len same l1 l2 <= length l2)%nat.
Proof.
  revert l2. induction l1 as [|a l1 IH]; intros [|b l2]; simpl; [lia..|].
  destruct (same a b); [|lia]. specialize (IH l2). lia.
Qed.
Lemma just_distance_total bp a b : sched_ok a -> sched_ok b -> exists d, just_distance bp a b = Done d.
Proof.
  intros Ha Hb. unfold just_distance. destruct (align_total bp a b Ha Hb) as (it & -> & Hs & Hc & Hu).
  bind_done. unfold Bubbles.edit_distance.
  destruct (BubblesProps.sorts_count _ _ _ Hs) as [Hn _]. rewrite Hn, Hu.
  destruct (BubblesProps.unmatched_lengths (keys_of (unknown_of a b) a) (keys_of (unknown_of a b) b)) as [H1 H2].
  destruct (BubblesProps.iterable_sorts bp (keys_of (unknown_of a b) a) (keys_of (unknown_of a b) b)) as [Hfit _].
  { rewrite length_keys. apply Ha. }
  fold (pair_perm a b) in Hfit. rewrite length_keys in H1, H2. destruct Ha as [Ha _], Hb as [Hb _].
  rewrite usize_arith_exact by lia. bind_done. eauto.
Qed.

Section Refine.
Context (bp : profile) (prefix postfix : schedule) (a b : SchedEvent).
Context (Ha : 0 < count a <= u32_max) (Hb : 0 < count b <= u32_max).
Context (Hpre : Forall (fun e => op e = Branch -> 0 < count e <= u32_max) prefix).
Context (Hpost : Forall (fun e => op e = Branch -> 0 < count e <= u32_max) postfix).
Context (Hlen : Z.of_nat (length prefix + length postfix + 4) <= 2 ^ 28).

Definition split_at (i j : Z) : schedule :=
  prefix ++ List.filter (fun e => 0 <? count e)
    [sched_event_fragment a i true (count a - i =? 0); sched_event_fragment b j true (count b - j =? 0);
     sched_event_fragment a (count a - i) (i =? 0) true; sched_event_fragment b (count b - j) (j =? 0) true]
  ++ postfix.
Lemma create_split i j :
  0 <= i <= count a -> 0 <= j <= count b ->
  create_schedule_with_critical_pair bp prefix postfix [a; b] i j = Done (split_at i j) /\ sched_ok (split_at i j).
Proof.
  intros Hi Hj. unfold u32_max in *. split.
  - unfold create_schedule_with_critical_pair. cbn [get_at lookup list_lookup mbind outcome_bind].
    rewrite !arith_u_exact by lia. done.
  - unfold split_at. split.
    + rewrite !length_app. pose proof (List.filter_length_le (fun e => 0 <? count e)
        [sched_event_fragment a i true (count a - i =? 0); sched_event_fragment b j true (count b - j =? 0);
         sched_event_fragment a (count a - i) (i =? 0) true; sched_event_fragment b (count b - j) (j =? 0) true]) as Hf.
      cbn [length] in Hf. lia.
    + apply Forall_app. split; [done|]. apply Forall_app. split; [|done].
      apply Forall_forall. intros e He _. apply list_elem_of_In, List.filter_In in He as [He Hc%Z.ltb_lt].
      apply list_elem_of_In in He. rewrite !elem_of_cons, elem_of_nil in He.
      destruct He as [->|[->|[->|[->|[]]]]]; simpl in *; unfold u32_max; lia.
Qed.
(** The critical event and the one before it are there to be swapped. *)
Lemma swap_at_middle (pre post : schedule) x y :
  swap_at (pre ++ x :: y :: post) (length pre + 1) = Done (pre ++ y :: x :: post).
Proof.
  unfold swap_at. rewrite usize_sub_exact by lia. bind_done.
  replace (length pre + 1 - 1)%nat with (length pre) by lia.
  rewrite (get_at_Done _ (length pre) x) by (by apply list_lookup_middle). bind_done.
  rewrite (get_at_Done _ (length pre + 1) y).
  2:{ rewrite lookup_app_r by lia. by replace (length pre + 1 - length pre)%nat with 1%nat by lia. }
  bind_done. rewrite set_at_Done by (rewrite length_app; simpl; lia). bind_done.
  rewrite insert_app_r_alt, Nat.sub_diag by lia. cbn.
  rewrite set_at_Done by (rewrite length_app; simpl; lia).
  rewrite insert_app_r_alt by lia. by replace (length pre + 1 - length pre)%nat with 1%nat by lia.
Qed.
Lemma split_shape i j :
  0 <= i < count a -> 1 <= j <= count b ->
  exists pre x y post, split_at i j = pre ++ x :: y :: post /\
    (length prefix + 1 + (if (0 <? i)%Z then 1 else 0) = length pre + 1)%nat.
Proof.
  intros Hi Hj. unfold split_at. cbn [List.filter count sched_event_fragment].
  rewrite (proj2 (Z.ltb_lt 0 j)), (proj2 (Z.ltb_lt 0 (count a - i))) by lia.
  destruct (Z.ltb_spec 0 i).
  - eexists (prefix ++ [_]), _, _, _. split; [by rewrite <- (assoc_L (++))|]. rewrite length_app. simpl. lia.
  - eexists prefix, _, _, _. split; [done|]. lia.
Qed.
Lemma swap_split i j :
  0 <= i < count a -> 1 <= j <= count b ->
  exists l, swap_at (split_at i j) (length prefix + 1 + (if (0 <? i)%Z then 1 else 0)) = Done l /\
    l ≡ₚ split_at i j.
Proof.
  intros Hi Hj. destruct (split_shape i j Hi Hj) as (pre & x & y & post & -> & ->).
  rewrite swap_at_middle. eexists. split; [done|]. f_equiv. apply perm_swap.
Qed.
End Refine.

Section RefineFaithful.
Context {S E : Type} (bp : profile).
Context (tester : S -> schedule -> result E (bool * schedule) * S) (verdict : schedule -> bool).
Context (Hf : faithful tester verdict).

(** The outcome of a pair: one swap apart, the first passing, the second failing. *)
Definition critical_pair_found (c : CriticalSchedule) : Prop :=
  verdict (passing_schedule c) = true /\ verdict (failing_schedule c) = false /\
  just_distance bp (passing_schedule c) (failing_schedule c) = Done (1, 1)%nat.

Lemma exact_replay_faithful l w : exists w', test_exact_replay tester l w = (Ok (Some (verdict l)), w').
Proof.
  unfold test_exact_replay. destruct (test_faithful tester verdict Hf l w) as [w' Ht].
  exists w'. unfold mbind, search_bind. rewrite Ht.
  change (_ && _) with (realized l l). by rewrite realized_refl.
Qed.
Lemma verify_faithful i prefix l l' w :
  swap_at l (length prefix + 1 + (if (0 <? i)%Z then 1 else 0)) = Done l' -> sched_ok l -> l' ≡ₚ l ->
  exists o w', verify_pair bp tester i prefix l w = (Ok o, w') /\
    forall c, o = Some c -> critical_pair_found c.
Proof.
  intros Hsw Hok Hp. unfold verify_pair, mbind, search_bind, panics. rewrite Hsw. cbn [lift].
  destruct (just_distance_total bp l' l) as [d Hd]; [by eapply sched_ok_perm|done|]. rewrite Hd. cbn [lift].
  destruct (decide (d = (1, 1)%nat)) as [->|Hne]; [|rewrite bool_decide_true by done; eexists _, _; split; done].
  rewrite bool_decide_false by (intros H; by apply H).
  destruct (exact_replay_faithful l' w) as [w1 ->]. destruct (verdict l') eqn:E1; [|eexists _, _; split; done].
  destruct (exact_replay_faithful l w1) as [w2 ->]. destruct (verdict l) eqn:E2; [eexists _, _; split; done|].
  eexists _, _. split; [done|]. intros c [= <-]. by split_and!.
Qed.
Lemma critical_pair_spec p f n :
  Forall (fun e => 0 <= count e <= u32_max) p -> Forall (fun e => 0 <= count e <= u32_max) f ->
  (n + 1 < length p)%nat -> (n + 1 < length f)%nat ->
  exists o, critical_pair p f n = Done o /\
    forall cp, o = Some cp -> exists a b, cp = [a; b] /\ 0 < count a <= u32_max /\ 0 < count b <= u32_max.
Proof.
  intros Hp Hff Hn Hm. unfold critical_pair.
  destruct (lookup_lt_is_Some_2 p n) as [p0 Hp0]; [lia|]. destruct (lookup_lt_is_Some_2 p (n + 1)) as [p1 Hp1]; [lia|].
  destruct (lookup_lt_is_Some_2 f n) as [f0 Hf0]; [lia|]. destruct (lookup_lt_is_Some_2 f (n + 1)) as [f1 Hf1]; [lia|].
  rewrite !(get_at_Done p n _ Hp0), !(get_at_Done p (n + 1) _ Hp1), !(get_at_Done f n _ Hf0), !(get_at_Done f (n + 1) _ Hf1).
  bind_done. rewrite !Forall_forall in *.
  pose proof (Hp p0 (list_elem_of_lookup_2 _ _ _ Hp0)). pose proof (Hp p1 (list_elem_of_lookup_2 _ _ _ Hp1)).
  pose proof (Hff f0 (list_elem_of_lookup_2 _ _ _ Hf0)). pose proof (Hff f1 (list_elem_of_lookup_2 _ _ _ Hf1)).
  destruct (negb _ || negb _); [by exists None|]. cbv zeta.
  destruct (can_split_event _) eqn:Ca; [|by exists None].
  destruct (can_split_event (sched_event_with_new_count p1 _)) eqn:Cb; [|by exists None].
  cbn [negb orb]. destruct (existsb _ _); [|by exists None].
  eexists. split; [done|]. intros cp [= <-]. eexists _, _. split; [done|].
  unfold can_split_event in Ca, Cb. apply andb_true_iff in Ca as [Ca%Z.ltb_lt _], Cb as [Cb%Z.ltb_lt _].
  simpl in *. lia.
Qed.
Lemma common_fix_spec (p f : schedule) prefix postfix (same : SchedEvent -> SchedEvent -> bool) :
  get_common_pre_and_postfix p f same = (prefix, postfix) ->
  (forall Q, Forall Q p -> Forall Q prefix /\ Forall Q postfix).
Proof.
  unfold get_common_pre_and_postfix. intros [= <- <-] Q HQ. split; [by apply Forall_take|by apply Forall_drop].
Qed.
Lemma sub_event_faithful p f w :
  Forall (fun e => 0 <= count e <= u32_max) p -> Forall (fun e => 0 <= count e <= u32_max) f ->
  Forall (fun e => op e = Branch -> 0 < count e <= u32_max) p -> Z.of_nat (length p + 2) <= 2 ^ 28 ->
  exists o w', sub_event_search bp tester p f w = (Ok o, w') /\ forall c, o = Some c -> critical_pair_found c.
Proof.
  intros Hp Hff Hb Hlen. unfold sub_event_search.
  destruct (get_common_pre_and_postfix p f same_operations) as [prefix postfix] eqn:Epp.
  destruct (common_fix_spec _ _ _ _ _ Epp _ Hb) as [Hb1 Hb2].
  destruct (bool_decide _ || bool_decide _) eqn:Eg; [eexists _, _; split; done|].
  apply orb_false_iff in Eg as [Hlf%bool_decide_eq_false Hls%bool_decide_eq_false].
  apply dec_stable in Hlf, Hls. unfold mbind, search_bind, panics.
  destruct (critical_pair_spec p f (length prefix)) as (o & -> & Ho); [done|done|lia|lia|]. cbn [lift].
  destruct o as [cp|]; [|eexists _, _; split; done].
  destruct (Ho cp eq_refl) as (a & b & -> & Ha & Hcb). cbn [get_at lookup list_lookup lift].
  assert (Z.of_nat (length prefix + length postfix + 4) <= 2 ^ 28) as Hl4 by lia.
  pose proof (create_split bp prefix postfix a b Ha Hcb Hb1 Hb2 Hl4) as Hcr.
  match goal with |- context [binary_search bp 0 (count a) ?P w] =>
    destruct (binary_search_spec bp P (fun i => negb (verdict (split_at prefix postfix a b i (count b)))) 0 (count a) w)
      as (i1 & w1 & -> & Hi1 & H1 & _); [|lia|lia|] end.
  { intros x w0 Hx. destruct (Hcr x (count b) ltac:(lia) ltac:(lia)) as [-> _]. cbn [lift].
    destruct (exact_replay_faithful (split_at prefix postfix a b x (count b)) w0) as [w1 ->]. by eexists. }
  destruct (Z.eqb_spec i1 0) as [|Hz]; [eexists _, _; split; done|].
  match goal with |- context [binary_search bp 1 (count b) ?P w1] =>
    destruct (binary_search_spec bp P (fun j => verdict (split_at prefix postfix a b (i1 - 1) j)) 1 (count b) w1)
      as (j & w2 & -> & Hj & _); [|lia|lia|] end.
  { intros x w0 Hx. destruct (Hcr (i1 - 1) x ltac:(lia) ltac:(lia)) as [-> _]. cbn [lift].
    apply exact_replay_faithful. }
  destruct (Hcr (i1 - 1) j ltac:(lia) ltac:(lia)) as [-> Hok]. cbn [lift].
  destruct (swap_split prefix postfix a b Hl4 (i1 - 1) j ltac:(lia) ltac:(lia)) as (l' & Hsw & Hperm).
  by apply (verify_faithful (i1 - 1) prefix _ l').
Qed.
End RefineFaithful.

(** a trial that cannot finish ends the whole search: every trial before
    the last one answered, and when the last one did not, its error is returned
    unchanged; a search reports a trial's error in no other case.  This holds of
    any tester and of every level of the search. *)
Theorem trial_error_ends_search {S E : Type} (bp : profile) (cfg : Config)
    (tester : S -> schedule -> result E (bool * schedule) * S) (start : SearchStart)
    (passing failing : schedule) (s : S) :
  let '(r, w) := search_for_critical_schedule_observed bp (recorded tester) cfg start passing failing
                   {| tester_state := (s, []); observed := [] |} in
  (Forall is_answer (trials w) /\ forall e, r <> Err (TrialError e)) \/
  (exists l x e, trials w = l ++ [(x, Err e)] /\ Forall is_answer l /\ r = Err (TrialError e)) \/
  (exists l x p, trials w = l ++ [(x, Crash p)] /\ Forall is_answer l /\ r = Crash p).
Proof.
  pose proof (careful_search bp cfg tester start passing failing {| tester_state := (s, []); observed := [] |}) as H.
  destruct (search_for_critical_schedule_observed _ _ _ _ _ _ _) as [r w]. by apply H.
Qed.

(** when every trial realizes the schedule it is asked for with an outcome
    that depends on the schedule alone, the event-level bisection between a
    passing and a failing schedule of the same events ends, within as many passes
    as the logarithm of their distance, at a passing and a failing schedule one
    swap of neighbours apart. *)
Theorem event_search_converges {S E : Type} (bp : profile) (cfg : Config)
    (tester : S -> schedule -> result E (bool * schedule) * S) (verdict : schedule -> bool)
    (passing failing : schedule) (s : S)
    (Hf : faithful tester verdict) (Hpair : aligned_pair passing failing)
    (Hfar : (1 <= distance passing failing)%nat)
    (Hpasses : (2 * distance passing failing <= 2 ^ max_event_level_search_passes cfg)%nat)
    (Hp : verdict passing = true) (Hv : verdict failing = false) :
  exists r w, event_level_search bp tester cfg 0 passing failing {| tester_state := s; observed := [] |} = (Ok r, w) /\
    verdict (r_passing r) = true /\ verdict (r_failing r) = false /\
    one_swap_apart (r_passing r) (r_failing r).
Proof.
  unfold event_level_search. rewrite Nat.sub_0_r.
  destruct (event_level_converges bp cfg tester verdict Hf (fun _ => True)
    (seq 0 (max_event_level_search_passes cfg)) passing failing {| tester_state := s; observed := [] |})
    as (r & w & -> & (H1 & H2 & H3 & H4) & _); try done; [by rewrite length_seq|by apply Forall_true..|].
  exists r, w. split_and!; [done|done|done|]. by apply distance_one.
Qed.

Lemma search_succeeds {S E : Type} (bp : profile) (cfg : Config)
    (tester : S -> schedule -> result E (bool * schedule) * S) (verdict : schedule -> bool) p f s :
  faithful tester verdict -> aligned_pair p f -> (1 <= distance p f)%nat ->
  (2 * distance p f <= 2 ^ max_event_level_search_passes cfg)%nat ->
  verdict p = true -> verdict f = false -> needleman_search cfg = false ->
  Forall (fun e => 0 <= count e <= u32_max) p -> Forall (fun e => 0 <= count e <= u32_max) f ->
  Z.of_nat (length p + 2) <= 2 ^ 28 ->
  exists c w, search_for_critical_schedule bp tester cfg p f {| tester_state := s; observed := [] |} = (Ok c, w) /\
    critical_pair_found bp verdict c.
Proof.
  intros Hf Hpf H1 H2 Hp Hv Hn Qp Qf Hlen.
  unfold search_for_critical_schedule, search_for_critical_schedule_observed, start_search.
  unfold mbind, search_bind. destruct (test_faithful tester verdict Hf p {| tester_state := s; observed := [] |}) as [w1 ->].
  cbn [fst negb]. rewrite Hp. cbn [negb]. destruct (test_faithful tester verdict Hf f w1) as [w2 ->].
  cbn [fst]. rewrite Hv, Hn. cbn [negb mret search_ret]. unfold event_level_search. rewrite Nat.sub_0_r.
  destruct (event_level_converges bp cfg tester verdict Hf (fun e => 0 <= count e <= u32_max)
    (seq 0 (max_event_level_search_passes cfg)) p f w2) as (r & w3 & -> & (C1 & C2 & C3 & C4) & Q1 & Q2 & Hlr);
    try done; [by rewrite length_seq|].
  assert (forall o, (forall c, o = Some c -> critical_pair_found bp verdict c) ->
    critical_pair_found bp verdict (report r o)) as Hend.
  { intros [c|] Hc; [by apply Hc|]. unfold report. destruct (get_common_pre_and_postfix _ _ _) as [pre post].
    split_and!; [done|done|]. cbn [passing_schedule failing_schedule].
    by rewrite (just_distance_pair bp _ _ C3), C4. }
  destruct (refine_sub_events cfg); [|eexists _, _; split; [done|by apply Hend]].
  destruct (sub_event_faithful bp tester verdict Hf (r_passing r) (r_failing r) w3) as (o & w4 & -> & Ho);
    [done|done|apply C3|lia|]. eexists _, _. split; [done|by apply Hend].
Qed.


(** ** Two threads with a race *)

(** Thread 3 must make its second call before thread 5 makes its second. *)
Definition ex_a (n : Z) : SchedEvent := syscall 3 n Prehook.
Definition ex_b (n : Z) : SchedEvent := syscall 5 n Prehook.
Definition ex_passing : schedule := [ex_a 0; ex_a 1; ex_b 0; ex_b 1].
Definition ex_failing : schedule := [ex_b 0; ex_b 1; ex_a 0; ex_a 1].
Definition ex_verdict (l : schedule) : bool :=
  match list_find (eq (ex_a 1)) l, list_find (eq (ex_b 1)) l with
  | Some (i, _), Some (j, _) => (i <? j)%nat
  | _, _ => false
  end.
Definition ex_tester (s : unit) (l : schedule) : result unit (bool * schedule) * unit := (Ok (ex_verdict l, l), s).
Definition ex_config : Config :=
  {| max_jitter_editdist := 0; max_jitter_swapdist := 0; max_event_level_search_passes := 8;
     max_needleman_matrix_cells := 4000000; max_replay_attempts := 4;
     max_branch_count_jitter := None; refine_sub_events := true; needleman_search := false |}.
Lemma ex_faithful : faithful ex_tester ex_verdict.
Proof. intros s l. by exists s. Qed.
Lemma ex_pair : aligned_pair ex_passing ex_failing.
Proof.
  split_and!; [split; [done|]; repeat constructor; done..|].
  assert (keys_of (unknown_of ex_passing ex_failing) ex_failing =
    drop 2 (keys_of (unknown_of ex_passing ex_failing) ex_passing) ++
    take 2 (keys_of (unknown_of ex_passing ex_failing) ex_passing)) as -> by (vm_compute; reflexivity).
  rewrite <- (take_drop 2 (keys_of _ ex_passing)) at 1. apply Permutation_app_comm.
Qed.
Lemma ex_distance : distance ex_passing ex_failing = 4%nat.
Proof. vm_compute. reflexivity. Qed.

Lemma event_search_converges_witness :
  ex_verdict ex_passing = true /\ ex_verdict ex_failing = false /\
  exists r w, event_level_search release ex_tester ex_config 0 ex_passing ex_failing
                {| tester_state := tt; observed := [] |} = (Ok r, w) /\
    ex_verdict (r_passing r) = true /\ ex_verdict (r_failing r) = false /\
    one_swap_apart (r_passing r) (r_failing r).
Proof.
  split; [vm_compute; reflexivity|]. split; [vm_compute; reflexivity|].
  apply (event_search_converges release ex_config ex_tester ex_verdict);
    [apply ex_faithful|apply ex_pair|rewrite ex_distance; lia|rewrite ex_distance; vm_compute; lia|
     vm_compute; reflexivity|vm_compute; reflexivity].
Defined.
(** Branch batches of 10 and 9 that race after the seventh branch of thread 3
    and the fourth of thread 5. *)
Definition ex_race (l : schedule) : bool :=
  negb (foldl (fun '(ta, tb, bad) e =>
    if dettid e =? 3 then (ta + count e, tb, bad)
    else (ta, tb + count e, bad || ((ta <? 7) && (4 <=? tb + count e)))) (0, 0, false) l).2.
Definition ex_race_tester (s : unit) (l : schedule) : result unit (bool * schedule) * unit := (Ok (ex_race l, l), s).
Definition ex_refined : option CriticalSchedule * world :=
  match sub_event_search release (recorded ex_race_tester) [branches 3 10; branches 5 9] [branches 5 9; branches 3 10]
          {| tester_state := (tt, []); observed := [] |} with
  | (Ok o, w) => (o, w)
  | (_, w) => (None, w)
  end.
Lemma refined_pair_verified_witness :
  match ex_refined with
  | (None, _) => False
  | (Some c, w') =>
      failing_schedule c = [branches 3 6; branches 5 4; branches 3 4; branches 5 5] /\
      swap_at (failing_schedule c) (critical_event_index c) = Done (passing_schedule c) /\
      just_distance release (passing_schedule c) (failing_schedule c) = Done (1, 1)%nat /\
      exists before ap af,
        trials w' = before ++ [(passing_schedule c, Ok (true, ap)); (failing_schedule c, Ok (false, af))] /\
        realized ap (passing_schedule c) = true /\ realized af (failing_schedule c) = true
  end.
Proof.
  destruct ex_refined as [o w'] eqn:E.
  destruct o as [c|]; [|vm_compute in E; discriminate].
  split; [vm_compute in E; by simplify_eq|].
  apply (refined_pair_verified release ex_race_tester [branches 3 10; branches 5 9] [branches 5 9; branches 3 10]
    {| tester_state := (tt, []); observed := [] |}).
  vm_compute in E. simplify_eq. vm_compute. reflexivity.
Defined.

(** A midpoint leaves out the events that only one schedule has, and with them
    their branches: the batch of 5 that both schedules have at branch 10 stands at
    branch 5 of the midpoint.  Two swaps separate the two schedules; between the
    midpoint and the failing one none is left to align. *)
Example midpoint_moves_totals :
  let passing := [branches 3 3; branches 3 2; branches 3 5; ex_b 0; ex_b 1] in
  let failing := [ex_b 0; ex_b 1; branches 3 1; branches 3 4; branches 3 5] in
  let midpoint := [ex_b 0; branches 3 5; ex_b 1] in
  (bubbles ← align release passing failing; '(p, _) ← Bubbles.midpoint bubbles; Bubbles.items p) = Done midpoint /\
  just_distance release passing failing = Done (6, 2)%nat /\
  just_distance release midpoint failing = Done (4, 0)%nat.
Proof. split_and!; vm_compute; reflexivity. Qed.
(** The trimmed schedule keeps an event that the alignment does not pair: the
    batch of 5 ends at branch 8 of one schedule and at branch 5 of the other. *)
Example shared_events_ignore_totals :
  let failing := [branches 3 3; branches 3 5; ex_b 1; ex_b 0] in
  let passing := [branches 3 5; ex_b 0; ex_b 1] in
  events_shared_with release failing passing = Done (Some [branches 3 5; ex_b 1; ex_b 0]) /\
  just_distance release failing passing = Done (4, 1)%nat.
Proof. split_and!; vm_compute; reflexivity. Qed.
End ScheduleSearchProps.
