(* ===== verification/Damerau.v ===== *)
(** * The edit distance with transpositions (src/detcore/src/edit_distance/damerau_levenshtein.rs)

    [damerau_lev] strips the common prefix and suffix of two sequences and fills
    the matrix of the Damerau-Levenshtein recurrence, one flat vector of
    [usize].  The two stripping loops advance both iterators for as long as
    [next] gives equal answers, two exhausted iterators included, so they run on
    fuel: [PFuel] stands for a loop that is still running.  Positions and costs
    are [nat]; the additions of costs stay below three times the two lengths,
    which the allocation of the matrix bounds, and the subtractions are checked. *)
From Stdlib Require Import ZArith Lia List.
From stdpp Require Import base gmap list.
From S2P Require Import Prelude.
Open Scope nat_scope.

Module Damerau.

Definition index (row_length row col : nat) : nat := row_length * row + col.

Section Generic.
Context {T : Type} `{Countable T}.

(** [slice::Iter::next]; an exhausted iterator stays exhausted. *)
Definition next (it : list T) : option T * list T := (head it, tail it).

(** [while first.next() == second.next() { count += 1 }] *)
Fixpoint common_loop (bp : profile) (fuel : nat) (first second : list T) (count : nat) : outcome nat :=
  match fuel with
  | 0 => Panic PFuel
  | S fuel' =>
      let '(a, first') := next first in
      let '(b, second') := next second in
      if decide (a = b) then count' ← usize_arith bp (count + 1); common_loop bp fuel' first' second' count'
      else Done count
  end.
Definition longest_common_prefix (bp : profile) (fuel : nat) (a b : list T) : outcome nat :=
  common_loop bp fuel a b 0.
Definition longest_common_suffix (bp : profile) (fuel : nat) (a b : list T) : outcome nat :=
  common_loop bp fuel (rev a) (rev b) 0.

(** [for i in 0..=m], the two left columns. *)
Fixpoint left_loop (width inf : nat) (rows : list nat) (matrix : list nat) : outcome (list nat) :=
  match rows with
  | [] => Done matrix
  | i :: rows' =>
      m1 ← set_at matrix (index width (i + 1) 1) i;
      m2 ← set_at m1 (index width (i + 1) 0) inf;
      left_loop width inf rows' m2
  end.
(** [for j in 0..=n], the two top rows. *)
Fixpoint top_loop (width inf : nat) (cols : list nat) (matrix : list nat) : outcome (list nat) :=
  match cols with
  | [] => Done matrix
  | j :: cols' =>
      m1 ← set_at matrix (index width 1 (j + 1)) j;
      m2 ← set_at m1 (index width 0 (j + 1)) inf;
      top_loop width inf cols' m2
  end.

(** The chain of comparisons that leaves the least of the four distances. *)
Definition least (dist_add dist_del dist_sub dist_trans : nat) : nat :=
  let min := dist_add in
  let min := if dist_del <? min then dist_del else min in
  let min := if dist_sub <? min then dist_sub else min in
  if dist_trans <? min then dist_trans else min.

(** [for col in 1..=n] of one row. *)
Fixpoint col_loop (width : nat) (target : list T) (ch_s : T) (last_row : gmap T nat) (row : nat)
    (cols : list nat) (last_match_col : nat) (matrix : list nat) : outcome (list nat) :=
  match cols with
  | [] => Done matrix
  | col :: cols' =>
      p ← usize_sub col 1; ch_t ← get_at target p;
      let last_match_row := default 0 (last_row !! ch_t) in
      let cost := if decide (ch_s = ch_t) then 0 else 1 in
      above ← get_at matrix (index width row (col + 1));
      let dist_add := above + 1 in
      before ← get_at matrix (index width (row + 1) col);
      let dist_del := before + 1 in
      diagonal ← get_at matrix (index width row col);
      let dist_sub := diagonal + cost in
      swapped ← get_at matrix (index width last_match_row last_match_col);
      r ← usize_sub row last_match_row; rows_between ← usize_sub r 1;
      c ← usize_sub col last_match_col; cols_between ← usize_sub c 1;
      let dist_trans := swapped + rows_between + 1 + cols_between in
      matrix' ← set_at matrix (index width (row + 1) (col + 1)) (least dist_add dist_del dist_sub dist_trans);
      col_loop width target ch_s last_row row cols' (if cost =? 0 then col else last_match_col) matrix'
  end.
(** [for row in 1..=m] *)
Fixpoint row_loop (width : nat) (source target : list T) (rows : list nat) (last_row : gmap T nat)
    (matrix : list nat) : outcome (list nat) :=
  match rows with
  | [] => Done matrix
  | row :: rows' =>
      p ← usize_sub row 1; ch_s ← get_at source p;
      matrix' ← col_loop width target ch_s last_row row (seq 1 (length target)) 0 matrix;
      row_loop width source target rows' (<[ch_s := row]> last_row) matrix'
  end.

(** [damerau_lev] after the two slices. *)
Definition matrix_distance (bp : profile) (source target : list T) : outcome nat :=
  let m := length source in
  let n := length target in
  if m =? 0 then Done n else
  if n =? 0 then Done m else
  let width := n + 2 in
  let height := m + 2 in
  cells ← usize_arith bp (width * height);
  let inf := m + n in
  m0 ← set_at (replicate cells 0) 0 inf;
  m1 ← left_loop width inf (seq 0 (m + 1)) m0;
  m2 ← top_loop width inf (seq 0 (n + 1)) m1;
  m3 ← row_loop width source target (seq 1 m) ∅ m2;
  get_at m3 (index width (m + 1) (n + 1)).
Definition damerau_lev (bp : profile) (fuel : nat) (source target : list T) : outcome nat :=
  prefix ← longest_common_prefix bp fuel source target;
  let source := drop prefix source in
  let target := drop prefix target in
  suffix ← longest_common_suffix bp fuel source target;
  let source := take (length source - suffix) source in
  let target := take (length target - suffix) target in
  matrix_distance bp source target.
End Generic.
End Damerau.

(** * Edit scripts with transpositions

    The specification of [damerau_lev]: [edit s t k] says that [k] insertions,
    deletions, replacements and transpositions, the elements inserted between
    and deleted from between a transposed pair counted, turn [s] into [t].
    [dist s t k] says that [k] is the least such number.  The lemmas are the
    ones the matrix needs: a common end costs nothing, and of all the pairs
    that could be transposed the last one is the cheapest. *)

Module DamerauEdits.
Section Edits.
Context {T : Type}.
Implicit Types (s t u v : list T) (x y : T).

Inductive edit : list T -> list T -> nat -> Prop :=
| edit_nil : edit [] [] 0
| edit_delete s t x k : edit s t k -> edit (s ++ [x]) t (k + 1)
| edit_insert s t y k : edit s t k -> edit s (t ++ [y]) (k + 1)
| edit_keep s t x k : edit s t k -> edit (s ++ [x]) (t ++ [x]) k
| edit_replace s t x y k : edit s t k -> edit (s ++ [x]) (t ++ [y]) (k + 1)
| edit_swap s t x y u v k :
    edit s t k -> edit (s ++ y :: u ++ [x]) (t ++ x :: v ++ [y]) (k + length u + 1 + length v).
Definition dist s t (k : nat) : Prop := edit s t k /\ forall k', edit s t k' -> k <= k'.

(** ** Scripts put one after the other, and mirrored *)

Lemma edit_app s t k s' t' k' : edit s t k -> edit s' t' k' -> edit (s ++ s') (t ++ t') (k + k').
Proof.
  intros E. induction 1 as [|s' t' x k' _ IH|s' t' y k' _ IH|s' t' x k' _ IH|s' t' x y k' _ IH|s' t' x y u v k' _ IH].
  - by rewrite !app_nil_r, Nat.add_0_r.
  - rewrite app_assoc, Nat.add_assoc. by constructor.
  - rewrite app_assoc, Nat.add_assoc. by constructor.
  - rewrite !app_assoc. by constructor.
  - rewrite !app_assoc, Nat.add_assoc. by constructor.
  - replace (k + (k' + length u + 1 + length v)) with (k + k' + length u + 1 + length v) by lia.
    rewrite !(app_assoc _ _ (_ :: _)). by constructor.
Qed.
Lemma edit_deletes s t k u : edit s t k -> edit (s ++ u) t (k + length u).
Proof.
  intros E. induction u as [|x u IH] using rev_ind; [by rewrite app_nil_r, Nat.add_0_r|].
  rewrite app_assoc, length_app, Nat.add_assoc. by constructor.
Qed.
Lemma edit_inserts s t k v : edit s t k -> edit s (t ++ v) (k + length v).
Proof.
  intros E. induction v as [|x v IH] using rev_ind; [by rewrite app_nil_r, Nat.add_0_r|].
  rewrite app_assoc, length_app, Nat.add_assoc. by constructor.
Qed.
Lemma edit_rebuild s t : edit s t (length s + length t).
Proof. apply (edit_inserts s [] (length s) t), (edit_deletes [] [] 0 s), edit_nil. Qed.
Lemma edit_mirror s t k : edit s t k -> edit (rev s) (rev t) k.
Proof.
  induction 1 as [|s t x k _ IH|s t y k _ IH|s t x k _ IH|s t x y k _ IH|s t x y u v k _ IH].
  - constructor.
  - rewrite rev_unit, Nat.add_comm. apply (edit_app [x] [] 1 _ _ k); [|done]. apply (edit_delete [] [] x 0), edit_nil.
  - rewrite rev_unit, Nat.add_comm. apply (edit_app [] [y] 1 _ _ k); [|done]. apply (edit_insert [] [] y 0), edit_nil.
  - rewrite !rev_unit. apply (edit_app [x] [x] 0 _ _ k); [|done]. apply (edit_keep [] [] x 0), edit_nil.
  - rewrite !rev_unit, Nat.add_comm. apply (edit_app [x] [y] 1 _ _ k); [|done].
    apply (edit_replace [] [] x y 0), edit_nil.
  - rewrite !rev_app_distr. cbn [rev]. rewrite !rev_app_distr. cbn [rev app].
    replace (k + length u + 1 + length v) with (length (rev u) + 1 + length (rev v) + k)
      by (rewrite !length_rev; lia).
    apply (edit_app (x :: rev u ++ [y]) (y :: rev v ++ [x])); [|done].
    apply (edit_swap [] [] y x _ _ 0), edit_nil.
Qed.
Lemma edit_length s t k : edit s t k -> length s <= length t + k /\ length t <= length s + k.
Proof. induction 1; rewrite ?length_app in *; cbn in *; rewrite ?length_app in *; cbn in *; lia. Qed.

(** ** The last step of a script *)

Lemma edit_last s x t y k : edit (s ++ [x]) (t ++ [y]) k ->
  (exists k', edit s (t ++ [y]) k' /\ k = k' + 1) \/ (exists k', edit (s ++ [x]) t k' /\ k = k' + 1) \/
  (exists k', edit s t k' /\ (x = y \/ k' + 1 = k) /\ k' <= k) \/
  (exists s0 u t0 v k', edit s0 t0 k' /\ s = s0 ++ y :: u /\ t = t0 ++ x :: v /\ k = k' + length u + 1 + length v).
Proof.
  intros E. inversion E as [Es|s1 t1 x1 k1 E1 Es|s1 t1 y1 k1 E1 Es Et|s1 t1 x1 k1 E1 Es Et|s1 t1 x1 y1 k1 E1 Es Et
    |s1 t1 x1 y1 u1 v1 k1 E1 Es Et]; subst.
  - by destruct s.
  - apply app_inj_tail in Es as [-> ->]. eauto.
  - apply app_inj_tail in Et as [-> ->]. eauto.
  - apply app_inj_tail in Es as [-> <-]. apply app_inj_tail in Et as [-> ->]. eauto 10.
  - apply app_inj_tail in Es as [-> ->]. apply app_inj_tail in Et as [-> ->].
    do 2 right. left. exists k1. split; [done|]. lia.
  - change (s1 ++ (y1 :: u1) ++ [x1] = s ++ [x]) in Es. change (t1 ++ (x1 :: v1) ++ [y1] = t ++ [y]) in Et.
    rewrite app_assoc in Es, Et.
    apply app_inj_tail in Es as [<- ->]. apply app_inj_tail in Et as [<- ->]. do 3 right. eauto 10.
Qed.

(** ** A common end costs nothing *)

Lemma edit_drop_right s t y k : edit s (t ++ [y]) k -> exists k', edit s t k' /\ k' <= k + 1.
Proof.
  intros E. remember (t ++ [y]) as t' eqn:Et. revert t y Et.
  induction E as [|s t' x k E IH|s t' y' k E IH|s t' x k E IH|s t' x y' k E IH|s t' x y' u v k E IH]; intros t y Et.
  - by destruct t.
  - destruct (IH _ _ Et) as (k' & E' & Hk). exists (k' + 1). split; [by constructor|lia].
  - apply app_inj_tail in Et as [-> ->]. exists k. split; [done|lia].
  - apply app_inj_tail in Et as [-> ->]. exists (k + 1). split; [by constructor|lia].
  - apply app_inj_tail in Et as [-> ->]. exists (k + 1). split; [by constructor|lia].
  - change (t' ++ (x :: v) ++ [y'] = t ++ [y]) in Et. rewrite app_assoc in Et.
    apply app_inj_tail in Et as [<- ->]. exists (k + length (y :: u) + length v).
    split; [|cbn; lia].
    change (s ++ y :: u ++ [x]) with (s ++ (y :: u) ++ [x]). rewrite app_assoc.
    rewrite (cons_middle x t' v), app_assoc. apply edit_inserts. constructor. by apply edit_deletes.
Qed.
Lemma edit_flip s t k : edit s t k -> edit t s k.
Proof.
  induction 1 as [|s t x k _ IH|s t y k _ IH|s t x k _ IH|s t x y k _ IH|s t x y u v k _ IH]; try by constructor.
  replace (k + length u + 1 + length v) with (k + length v + 1 + length u) by lia. by constructor.
Qed.
Lemma edit_drop_last s t x k : edit (s ++ [x]) (t ++ [x]) k -> exists k', edit s t k' /\ k' <= k.
Proof.
  intros E. destruct (edit_last _ _ _ _ _ E) as [(k' & E' & ->)|[(k' & E' & ->)|[(k' & E' & _ & Hk)|
    (s0 & u & t0 & v & k' & E' & -> & -> & ->)]]].
  - by apply edit_drop_right in E'.
  - apply edit_flip, edit_drop_right in E' as (k1 & E1 & Hk). apply edit_flip in E1. eauto.
  - eauto.
  - exists (k' + length u + length v). split; [|lia].
    rewrite (cons_middle x s0 u), (cons_middle x t0 v), !app_assoc.
    apply edit_inserts, edit_deletes. by constructor.
Qed.
Lemma dist_suffix s t w k : dist s t k -> dist (s ++ w) (t ++ w) k.
Proof.
  intros [E Hl]. induction w as [|x w IH] using rev_ind; [by rewrite !app_nil_r|].
  destruct IH as [E1 Hl1]. rewrite !app_assoc. split; [by constructor|].
  intros k' E'. apply edit_drop_last in E' as (k1 & E2 & ?). specialize (Hl1 _ E2). lia.
Qed.
Lemma dist_mirror s t k : dist (rev s) (rev t) k -> dist s t k.
Proof.
  intros [E Hl]. split; [by apply edit_mirror in E; rewrite !rev_involutive in E|].
  intros k' E'. by apply Hl, edit_mirror.
Qed.
Lemma dist_prefix s t w k : dist s t k -> dist (w ++ s) (w ++ t) k.
Proof.
  intros [E Hl]. apply dist_mirror. rewrite !rev_app_distr. apply dist_suffix. split; [by apply edit_mirror|].
  intros k' E'. apply Hl. apply edit_mirror in E'. by rewrite !rev_involutive in E'.
Qed.
Lemma dist_nil_r s : dist s [] (length s).
Proof.
  split; [apply (edit_deletes [] [] 0 s), edit_nil|]. intros k E. apply edit_length in E. cbn in E. lia.
Qed.
Lemma dist_nil_l t : dist [] t (length t).
Proof.
  split; [apply (edit_inserts [] [] 0 t), edit_nil|]. intros k E. apply edit_length in E. cbn in E. lia.
Qed.

(** ** The last occurrence, and the step of the recurrence *)

(** [p] is the position after the last [y] of [l], 0 without one. *)
Definition last_at (l : list T) y (p : nat) : Prop :=
  (p = 0 /\ y ∉ l) \/ (exists s u, l = s ++ y :: u /\ y ∉ u /\ p = S (length s)).
Lemma last_at_nil y : last_at [] y 0.
Proof. left. split; [done|]. intros Hx. inversion Hx. Qed.
Lemma last_at_same l y : last_at (l ++ [y]) y (S (length l)).
Proof. right. exists l, []. split; [done|]. split; [|done]. intros Hx. inversion Hx. Qed.
Lemma last_at_other l x y p : x <> y -> last_at l y p -> last_at (l ++ [x]) y p.
Proof.
  intros Hxy [[-> Hn]|(s & u & -> & Hn & ->)].
  - left. split; [done|]. rewrite elem_of_app, list_elem_of_singleton. intros [?| ->]; done.
  - right. exists s, (u ++ [x]). split; [by rewrite <- app_assoc|]. split; [|done].
    rewrite elem_of_app, list_elem_of_singleton. intros [?| ->]; done.
Qed.
Lemma last_at_le l y p : last_at l y p -> p <= length l.
Proof. intros [[-> _]|(s & u & -> & _ & ->)]; [lia|]. rewrite length_app. cbn. lia. Qed.
(** Every occurrence is at or before the last one. *)
Lemma last_at_split l y p s0 u0 : last_at l y p -> l = s0 ++ y :: u0 ->
  exists w u, p = S (length (s0 ++ w)) /\ l = (s0 ++ w) ++ y :: u /\ length u0 = length w + length u.
Proof.
  intros [[_ Hn]|(s & u & -> & Hn & ->)] E.
  - destruct Hn. rewrite E, elem_of_app. right. constructor.
  - destruct (app_eq_inv _ _ _ _ E) as [(w & -> & E2)|(w & -> & E2)].
    + exists w, u. split; [done|]. split; [done|]. apply (f_equal length) in E2.
      rewrite length_app in E2. cbn in E2. lia.
    + destruct w as [|a w].
      * injection E2 as ->. exists [], u0. rewrite !app_nil_r. auto.
      * injection E2 as _ ->. destruct Hn. rewrite elem_of_app. right. constructor.
Qed.

(** The transposition distance of the matrix, where both last occurrences exist. *)
Lemma dist_step s t x y a d g q p c k (cost := if c : bool then 0 else 1) :
  (c = true <-> x = y) ->
  dist s (t ++ [y]) a -> dist (s ++ [x]) t d -> dist s t g ->
  last_at s y p -> last_at t x q ->
  match p, q with
  | S p', S q' => exists w, dist (take p' s) (take q' t) w /\ k = w + (length s - p) + 1 + (length t - q)
  | _, _ => length s + 1 + (length t + 1) <= k
  end ->
  dist (s ++ [x]) (t ++ [y]) (Nat.min (Nat.min (a + 1) (d + 1)) (Nat.min (g + cost) k)).
Proof.
  intros Hc [Ea La] [Ed Ld] [Eg Lg] Hp Hq Hk. subst cost. split.
  - assert (edit (s ++ [x]) (t ++ [y]) (a + 1)) as A1 by by constructor.
    assert (edit (s ++ [x]) (t ++ [y]) (d + 1)) as A2 by by constructor.
    assert (edit (s ++ [x]) (t ++ [y]) (g + if c then 0 else 1)) as A3.
    { destruct c; [rewrite Nat.add_0_r, (proj1 Hc eq_refl)|]; by constructor. }
    assert (a + 1 <= k \/ edit (s ++ [x]) (t ++ [y]) k) as A4.
    { pose proof (La _ (edit_rebuild s (t ++ [y]))) as Hr. rewrite length_app in Hr. cbn in Hr.
      destruct p as [|p']; [lia|]. destruct q as [|q']; [lia|]. right. destruct Hk as (w & [Ew _] & ->).
      destruct Hp as [[? _]|(s1 & u & -> & _ & [= ->])]; [done|].
      destruct Hq as [[? _]|(t1 & v & -> & _ & [= ->])]; [done|].
      rewrite !take_app_length, !length_app in *. cbn [length] in *.
      replace (length s1 + S (length u) - S (length s1)) with (length u) by lia.
      replace (length t1 + S (length v) - S (length t1)) with (length v) by lia.
      rewrite <- !app_assoc. cbn [app]. by apply edit_swap. }
    set (e := g + if c then 0 else 1) in *.
    assert (exists m, Nat.min (Nat.min (a + 1) (d + 1)) (Nat.min e k) = m /\
      (m = a + 1 \/ m = d + 1 \/ m = e \/ (m = k /\ k < a + 1))) as (m & -> & Hm) by (eexists; split; [done|lia]).
    destruct Hm as [->|[->|[->|[-> ?]]]]; [done..|]. destruct A4; [lia|done].
  - intros k' E'. destruct (edit_last _ _ _ _ _ E') as [(k1 & E1 & ->)|[(k1 & E1 & ->)|[(k1 & E1 & Hx & Hle)|
      (s0 & u & t0 & v & k1 & E1 & Es & Et & ->)]]].
    + specialize (La _ E1). lia.
    + specialize (Ld _ E1). lia.
    + specialize (Lg _ E1). destruct c; [lia|]. destruct Hx as [Hx|]; [|lia]. by apply Hc in Hx.
    + destruct (last_at_split _ _ _ _ _ Hp Es) as (w1 & u1 & -> & Es1 & Hu).
      destruct (last_at_split _ _ _ _ _ Hq Et) as (w2 & v1 & -> & Et1 & Hv).
      destruct Hk as (w & [_ Lw] & ->).
      rewrite Es1, Et1, !take_app_length in Lw.
      assert (w <= k1 + length w1 + length w2) by by apply Lw, edit_inserts, edit_deletes.
      rewrite Es1, Et1, !length_app. cbn [length]. lia.
Qed.
End Edits.
End DamerauEdits.
