(* ===== verification/DamerauProps.v ===== *)
(** * The edit distance terminates on different sequences and is the least cost

    The matrix loops are followed cell by cell: each cell holds the distance of
    two prefixes, the frame holds the value that no transposition can beat.  The
    two stripping loops end exactly when the sequences differ. *)
From Stdlib Require Import ZArith Lia List.
From stdpp Require Import base gmap list.
From S2P Require Import Prelude Damerau.
Import Damerau DamerauEdits.
Open Scope nat_scope.

Module DamerauProps.

Lemma index_inj width r c r' c' : c < width -> c' < width ->
  index width r c = index width r' c' -> r = r' /\ c = c'.
Proof.
  unfold index. intros Hc Hc' E. assert (r = r') as ->; [|lia].
  destruct (lt_eq_lt_dec r r') as [[Hlt|?]|Hlt]; [|done|]; exfalso; nia.
Qed.
Lemma least_min a d g k : least a d g k = Nat.min (Nat.min a d) (Nat.min g k).
Proof.
  unfold least. destruct (Nat.ltb_spec d a); destruct (Nat.ltb_spec g (if true then d else a));
    repeat case_match; repeat match goal with H : (_ <? _) = true |- _ => apply Nat.ltb_lt in H
      | H : (_ <? _) = false |- _ => apply Nat.ltb_ge in H end; lia.
Qed.

Section Matrix.
Context {T : Type} `{Countable T} (source target : list T).
Let m := length source.
Let n := length target.
Let width := n + 2.

(** What cell [(r, c)] holds: the distance of the prefixes of [r - 1] and
    [c - 1] elements, or in the frame the sum of the lengths. *)
Definition cell_spec (r c d : nat) : Prop :=
  match r, c with
  | S r', S c' => dist (take r' source) (take c' target) d
  | _, _ => d = m + n
  end.
Definition correct (matrix : list nat) (r c : nat) : Prop :=
  exists d, matrix !! index width r c = Some d /\ cell_spec r c d.
Definition sized (matrix : list nat) : Prop := length matrix = width * (m + 2).

Lemma index_sized matrix r c : sized matrix -> r <= m + 1 -> c <= n + 1 -> index width r c < length matrix.
Proof. unfold sized, index, width. intros ->. nia. Qed.
(** Writing a right value keeps every right cell right. *)
Lemma set_cell matrix r c d : sized matrix -> r <= m + 1 -> c <= n + 1 -> cell_spec r c d ->
  exists matrix', set_at matrix (index width r c) d = Done matrix' /\ sized matrix' /\ correct matrix' r c /\
    forall r' c', c' <= n + 1 -> correct matrix r' c' -> correct matrix' r' c'.
Proof.
  intros Hs Hr Hc Hd. pose proof (index_sized matrix r c Hs Hr Hc) as Hi.
  exists (<[index width r c := d]> matrix). split; [by apply set_at_Done|].
  assert (correct (<[index width r c := d]> matrix) r c) as Hw.
  { exists d. split; [by apply list_lookup_insert_eq|done]. }
  split; [unfold sized; by rewrite length_insert|]. split; [done|].
  intros r' c' Hc' (d' & Hl & Hd').
  destruct (decide (index width r c = index width r' c')) as [E|Hne].
  - apply index_inj in E as [<- <-]; [done|unfold width; lia..].
  - exists d'. by rewrite list_lookup_insert_ne.
Qed.
Lemma cell_left i : i <= m -> cell_spec (i + 1) 1 i.
Proof.
  intros Hi. rewrite Nat.add_1_r. cbn. rewrite take_0.
  rewrite <- (firstn_length_le source Hi) at 2. apply dist_nil_r.
Qed.
Lemma cell_top j : j <= n -> cell_spec 1 (j + 1) j.
Proof.
  intros Hj. rewrite Nat.add_1_r. cbn. rewrite take_0.
  rewrite <- (firstn_length_le target Hj) at 2. apply dist_nil_l.
Qed.
Lemma cell_frame_left r : cell_spec r 0 (m + n).
Proof. by destruct r. Qed.

Definition keeps (matrix matrix' : list nat) : Prop :=
  forall r c, c <= n + 1 -> correct matrix r c -> correct matrix' r c.
Lemma left_loop_spec rows : forall matrix, sized matrix -> (forall i, i ∈ rows -> i <= m) ->
  exists matrix', left_loop width (m + n) rows matrix = Done matrix' /\ sized matrix' /\ keeps matrix matrix' /\
    forall i, i ∈ rows -> correct matrix' (i + 1) 1 /\ correct matrix' (i + 1) 0.
Proof.
  induction rows as [|i rows IH]; intros matrix Hs Hi.
  { exists matrix. do 2 (split; [done|]). split; [by intros r c|]. intros i Hx. inversion Hx. }
  assert (i <= m) as Him by (apply Hi; constructor). cbn [left_loop].
  destruct (set_cell matrix (i + 1) 1 i) as (m1 & -> & S1 & C1 & K1); [done|lia|lia|by apply cell_left|].
  bind_done.
  destruct (set_cell m1 (i + 1) 0 (m + n)) as (m2 & -> & S2 & C2 & K2); [done|lia|lia|apply cell_frame_left|].
  bind_done.
  destruct (IH m2 S2) as (m3 & E3 & S3 & K3 & C3); [intros i' Hx; apply Hi; by constructor|].
  exists m3. split; [done|]. split; [done|]. split.
  { intros r c Hc Hr. by apply K3, K2, K1. }
  intros i' Hx. apply elem_of_cons in Hx as [->|Hx]; [|by apply C3].
  split; apply K3; [lia| |lia|done]. apply K2; [lia|done].
Qed.
Lemma top_loop_spec cols : forall matrix, sized matrix -> (forall j, j ∈ cols -> j <= n) ->
  exists matrix', top_loop width (m + n) cols matrix = Done matrix' /\ sized matrix' /\ keeps matrix matrix' /\
    forall j, j ∈ cols -> correct matrix' 1 (j + 1) /\ correct matrix' 0 (j + 1).
Proof.
  induction cols as [|j cols IH]; intros matrix Hs Hj.
  { exists matrix. do 2 (split; [done|]). split; [by intros r c|]. intros j Hx. inversion Hx. }
  assert (j <= n) as Hjn by (apply Hj; constructor). cbn [top_loop].
  destruct (set_cell matrix 1 (j + 1) j) as (m1 & -> & S1 & C1 & K1); [done|lia|lia|by apply cell_top|].
  bind_done.
  destruct (set_cell m1 0 (j + 1) (m + n)) as (m2 & -> & S2 & C2 & K2); [done|lia|lia|done|].
  bind_done.
  destruct (IH m2 S2) as (m3 & E3 & S3 & K3 & C3); [intros j' Hx; apply Hj; by constructor|].
  exists m3. split; [done|]. split; [done|]. split.
  { intros r c Hc Hr. by apply K3, K2, K1. }
  intros j' Hx. apply elem_of_cons in Hx as [->|Hx]; [|by apply C3].
  split; apply K3; [lia| |lia|done]. apply K2; [lia|done].
Qed.

(** ** One cell *)

Definition rows_right (matrix : list nat) (row : nat) : Prop :=
  (forall r c, r <= row -> c <= n + 1 -> correct matrix r c) /\
  (forall r, r <= m + 1 -> correct matrix r 0 /\ correct matrix r 1).

(** The value the body stores at [(row + 1, col + 1)]. *)
Lemma cell_step r c x y lr lc above before diagonal swapped :
  source !! r = Some x -> target !! c = Some y ->
  last_at (take r source) y lr -> last_at (take c target) x lc ->
  cell_spec (S r) (S (S c)) above -> cell_spec (S (S r)) (S c) before -> cell_spec (S r) (S c) diagonal ->
  cell_spec lr lc swapped ->
  cell_spec (S (S r)) (S (S c))
    (least (above + 1) (before + 1) (diagonal + if decide (x = y) then 0 else 1)
       (swapped + (S r - lr - 1) + 1 + (S c - lc - 1))).
Proof.
  intros Hx Hy Hlr Hlc Ha Hb Hd Hw. cbn in Ha, Hb, Hd |- *.
  pose proof (lookup_lt_Some _ _ _ Hx) as Hr. pose proof (lookup_lt_Some _ _ _ Hy) as Hc.
  assert (length (take r source) = r) as Lr by (rewrite length_take; lia).
  assert (length (take c target) = c) as Lc by (rewrite length_take; lia).
  pose proof (last_at_le _ _ _ Hlr) as Br. pose proof (last_at_le _ _ _ Hlc) as Bc.
  rewrite (take_S_r _ _ _ Hx) in *. rewrite (take_S_r _ _ _ Hy) in *. rewrite least_min.
  replace (if decide (x = y) then 0 else 1) with (if bool_decide (x = y) then 0 else 1)
    by (by destruct (decide (x = y)); [rewrite bool_decide_true|rewrite bool_decide_false]).
  eapply dist_step; try done; [apply bool_decide_eq_true|].
  rewrite Lr, Lc in *. destruct lr as [|lr]; [cbn in Hw; unfold m, n in Hw; lia|].
  destruct lc as [|lc]; [cbn in Hw; unfold m, n in Hw; lia|].
  cbn in Hw. exists swapped. rewrite !take_take, !Nat.min_l by lia. split; [done|lia].
Qed.

Lemma get_cell matrix r c : correct matrix r c ->
  exists d, get_at matrix (index width r c) = Done d /\ cell_spec r c d.
Proof. intros (d & Hl & Hd). exists d. split; [by apply get_at_Done|done]. Qed.

Lemma col_loop_spec r x last_row (Hx : source !! r = Some x)
    (Hlast : forall y, last_at (take r source) y (default 0 (last_row !! y))) :
  forall k c last_match_col matrix, c + k = n -> sized matrix -> rows_right matrix (S r) ->
  (forall c', c' <= S c -> correct matrix (S (S r)) c') -> last_at (take c target) x last_match_col ->
  exists matrix', col_loop width target x last_row (S r) (seq (S c) k) last_match_col matrix = Done matrix' /\
    sized matrix' /\ rows_right matrix' (S (S r)).
Proof.
  pose proof (lookup_lt_Some _ _ _ Hx) as Hr. fold m in Hr.
  induction k as [|k IH]; intros c lmc matrix Hk Hs [Hrows Hleft] Hcur Hlmc.
  { exists matrix. split; [done|]. split; [done|]. split; [|done]. intros r' c' Hr' Hc'.
    destruct (decide (r' = S (S r))) as [->|]; [apply Hcur; lia|apply Hrows; lia]. }
  destruct (lookup_lt_is_Some_2 target c) as [y Hy]; [unfold n in *; lia|].
  pose proof (last_at_le _ _ _ (Hlast y)) as Br. pose proof (last_at_le _ _ _ Hlmc) as Bc.
  rewrite length_take in Br, Bc.
  cbn [seq col_loop]. rewrite (usize_sub_exact (S c) 1) by lia. bind_done.
  replace (S c - 1) with c by lia. rewrite (get_at_Done target c y Hy). bind_done.
  rewrite (Nat.add_1_r (S c)), (Nat.add_1_r (S r)).
  destruct (get_cell matrix (S r) (S (S c))) as (above & -> & Ha); [apply Hrows; lia|]. bind_done.
  destruct (get_cell matrix (S (S r)) (S c)) as (before & -> & Hb); [apply Hcur; lia|]. bind_done.
  destruct (get_cell matrix (S r) (S c)) as (diagonal & -> & Hd); [apply Hrows; lia|]. bind_done.
  destruct (get_cell matrix (default 0 (last_row !! y)) lmc) as (swapped & -> & Hw); [apply Hrows; lia|].
  bind_done.
  rewrite (usize_sub_exact (S r)) by lia. bind_done. rewrite (usize_sub_exact _ 1) by lia.
  bind_done.
  rewrite (usize_sub_exact (S c)) by lia. bind_done. rewrite (usize_sub_exact _ 1) by lia.
  bind_done.
  pose proof (cell_step r c x y _ lmc above before diagonal swapped Hx Hy (Hlast y) Hlmc Ha Hb Hd Hw) as Hcell.
  destruct (set_cell matrix (S (S r)) (S (S c)) _ Hs ltac:(lia) ltac:(lia) Hcell) as (m' & E' & S' & C' & K').
  rewrite E'. bind_done. apply IH; [lia|done| | |].
  - split; [intros; apply K', Hrows; lia|]. intros r' Hr'. destruct (Hleft r' Hr'). split; apply K'; (lia || done).
  - intros c' Hc'. destruct (decide (c' = S (S c))) as [->|]; [done|]. apply K', Hcur; lia.
  - rewrite (take_S_r _ _ _ Hy). destruct (decide (x = y)) as [->|Hne]; cbn [Nat.eqb].
    + replace (S c) with (S (length (take c target))) by (rewrite length_take; unfold n in *; lia).
      apply last_at_same.
    + apply last_at_other; [congruence|done].
Qed.
Lemma row_loop_spec : forall k r last_row matrix, r + k = m -> sized matrix -> rows_right matrix (S r) ->
  (forall y, last_at (take r source) y (default 0 (last_row !! y))) ->
  exists matrix', row_loop width source target (seq (S r) k) last_row matrix = Done matrix' /\
    rows_right matrix' (S m).
Proof.
  induction k as [|k IH]; intros r last_row matrix Hk Hs Hrows Hlast.
  { exists matrix. split; [done|]. by replace m with r by lia. }
  destruct (lookup_lt_is_Some_2 source r) as [x Hx]; [unfold m in *; lia|].
  cbn [seq row_loop]. rewrite (usize_sub_exact (S r) 1) by lia. bind_done.
  replace (S r - 1) with r by lia. rewrite (get_at_Done source r x Hx). bind_done.
  destruct (col_loop_spec r x last_row Hx Hlast n 0 0 matrix) as (m' & E' & S' & R'); [done|done|done| | |].
  { intros c' Hc'. destruct Hrows as [_ Hleft]. destruct (Hleft (S (S r))) as [H0 H1]; [lia|].
    destruct c' as [|[|c']]; [done|done|lia]. }
  { rewrite take_0. apply last_at_nil. }
  fold n. rewrite E'. bind_done. apply IH; [lia|done|done|].
  intros y. rewrite (take_S_r _ _ _ Hx). destruct (decide (x = y)) as [->|Hne].
  - rewrite lookup_insert_eq. cbn [default]. 
    replace (S r) with (S (length (take r source))) by (rewrite length_take; unfold m in *; lia).
    apply last_at_same.
  - rewrite lookup_insert_ne by done. by apply last_at_other.
Qed.

(** The matrix computes the distance of the two slices. *)
Lemma matrix_distance_spec bp : (Z.of_nat (width * (m + 2)) < 2 ^ 64)%Z ->
  exists d, matrix_distance bp source target = Done d /\ dist source target d.
Proof.
  intros Hfit. unfold matrix_distance. fold m n.
  destruct (Nat.eqb_spec m 0) as [E|Hm].
  { apply nil_length_inv in E. subst m. rewrite E. exists n. split; [done|apply dist_nil_l]. }
  destruct (Nat.eqb_spec n 0) as [E|Hn].
  { apply nil_length_inv in E. exists m. split; [done|]. rewrite E. apply dist_nil_r. }
  fold width. rewrite usize_arith_exact by done. bind_done.
  assert (sized (replicate (width * (m + 2)) 0)) as S00 by (unfold sized; by rewrite length_replicate).
  destruct (set_cell _ 0 0 (m + n) S00) as (m0 & E0 & S0 & C0 & _); [lia|lia|done|].
  unfold index in E0. rewrite Nat.mul_0_r in E0. cbn [Nat.add] in E0. rewrite E0. bind_done.
  destruct (left_loop_spec (seq 0 (m + 1)) m0 S0) as (m1 & -> & S1 & K1 & C1).
  { intros i Hi%elem_of_seq. lia. }
  bind_done.
  destruct (top_loop_spec (seq 0 (n + 1)) m1 S1) as (m2 & -> & S2 & K2 & C2).
  { intros i Hi%elem_of_seq. lia. }
  bind_done.
  assert (correct m2 0 0) as C00 by (apply K2, K1; [lia..|done]).
  destruct (row_loop_spec m 0 ∅ m2 eq_refl S2) as (m3 & -> & R3).
  { split.
    - intros r c Hr Hc. destruct c as [|c].
      + destruct r as [|r]; [done|]. apply K2; [lia|]. rewrite <- Nat.add_1_r. apply C1, elem_of_seq. lia.
      + rewrite <- (Nat.add_1_r c). destruct (C2 c) as [? ?]; [apply elem_of_seq; lia|].
        destruct r as [|[|r]]; [done|done|lia].
    - intros [|r] Hr; [split; [done|]; apply (C2 0), elem_of_seq; lia|].
      destruct (C1 r) as [? ?]; [apply elem_of_seq; lia|]. rewrite <- (Nat.add_1_r r). split; apply K2; (lia || done). }
  { intros y. rewrite take_0, lookup_empty. apply last_at_nil. }
  bind_done. destruct (get_cell m3 (m + 1) (n + 1)) as (d & -> & Hd); [apply R3; lia|].
  exists d. split; [done|]. rewrite !Nat.add_1_r in Hd. cbn in Hd. unfold m, n in Hd.
  by rewrite !firstn_all in Hd.
Qed.
End Matrix.

(** ** The stripping loops *)

Section Strip.
Context {T : Type} `{Countable T}.
Implicit Types a b s t : list T.

(** The first pair of answers that differ. *)
Lemma common_loop_spec bp : forall fuel a b count, a <> b -> length a < fuel -> length b < fuel ->
  (Z.of_nat (count + length a) < 2 ^ 64)%Z ->
  exists w a' b', common_loop bp fuel a b count = Done (count + length w) /\
    a = w ++ a' /\ b = w ++ b' /\ head a' <> head b'.
Proof.
  induction fuel as [|fuel IH]; intros a b count Hne Ha Hb Hfit; [lia|]. cbn [common_loop next].
  destruct (decide (head a = head b)) as [E|Hh].
  - destruct a as [|x a], b as [|y b]; cbn [head] in E; try done. injection E as ->.
    rewrite usize_arith_exact by (cbn in Hfit; lia). cbn [mbind outcome_bind tail].
    destruct (IH a b (count + 1)) as (w & a' & b' & -> & -> & -> & Hh); [congruence|cbn in *; lia..|].
    exists (y :: w), a', b'. split; [|done]. f_equal. cbn. lia.
  - exists [], a, b. by rewrite Nat.add_0_r.
Qed.
(** Equal sequences exhaust both iterators together: the loop does not end. *)
Lemma common_loop_same bp : forall fuel a count v, common_loop bp fuel a a count <> Done v.
Proof.
  induction fuel as [|fuel IH]; intros a count v; [done|]. cbn [common_loop next].
  rewrite decide_True by done. unfold usize_arith. repeat case_match; bind_done; [apply IH|done|apply IH].
Qed.

Lemma strip_spec bp fuel s t : s <> t -> length s < fuel -> length t < fuel -> (Z.of_nat (length s) < 2 ^ 64)%Z ->
  exists p s1 t1 q, s = p ++ s1 ++ q /\ t = p ++ t1 ++ q /\
    damerau_lev bp fuel s t = matrix_distance bp s1 t1.
Proof.
  intros Hne Hs Ht Hfit. unfold damerau_lev, longest_common_prefix, longest_common_suffix.
  destruct (common_loop_spec bp fuel s t 0) as (p & s0 & t0 & -> & -> & -> & Hh); [done..|].
  cbn [mbind outcome_bind Nat.add]. rewrite !drop_app_length. rewrite !length_app in *.
  assert (rev s0 <> rev t0) as Hr.
  { intros E. apply (f_equal (@rev T)) in E. rewrite !rev_involutive in E. by subst. }
  destruct (common_loop_spec bp fuel (rev s0) (rev t0) 0 Hr) as (q & s1 & t1 & -> & Es & Et & _);
    [rewrite length_rev; lia..|].
  cbn [mbind outcome_bind Nat.add].
  assert (s0 = rev s1 ++ rev q) as -> by (by rewrite <- rev_app_distr, <- Es, rev_involutive).
  assert (t0 = rev t1 ++ rev q) as -> by (by rewrite <- rev_app_distr, <- Et, rev_involutive).
  exists p, (rev s1), (rev t1), (rev q). do 2 (split; [done|]).
  rewrite !length_app, !(length_rev q), !Nat.add_sub, !take_app_length. done.
Qed.
End Strip.

(** C37: On two different sequences [damerau_lev] returns, with fuel one above
    the longer length and in every build profile, and its answer is the least
    number of insertions, deletions, replacements and transpositions that turn
    the first into the second.  On two equal sequences it never returns a value:
    both iterators of [longest_common_prefix] are exhausted together and keep
    answering alike. *)
Theorem damerau_lev_least {T : Type} `{Countable T} bp fuel (s t : list T) :
  length s < fuel -> length t < fuel ->
  (Z.of_nat ((length s + 2) * (length t + 2)) < 2 ^ 64)%Z ->
  (s <> t -> exists d, damerau_lev bp fuel s t = Done d /\ dist s t d) /\
  (forall d, damerau_lev bp fuel s s <> Done d).
Proof.
  intros Hs Ht Hfit. split.
  - intros Hne. destruct (strip_spec bp fuel s t Hne Hs Ht) as (p & s1 & t1 & q & -> & -> & ->); [lia|].
    destruct (matrix_distance_spec s1 t1 bp) as (d & -> & Hd).
    { rewrite !length_app in Hfit. nia. }
    exists d. split; [done|]. by apply dist_prefix, dist_suffix.
  - intros d E. unfold damerau_lev, longest_common_prefix in E.
    destruct (common_loop bp fuel s s 0) eqn:E1; [by apply common_loop_same in E1|done].
Qed.
Lemma damerau_lev_least_witness :
  (exists d, damerau_lev release 7 [1;0;1;2;3;20] [1;0;3;1;20] = Done d /\ dist [1;0;1;2;3;20] [1;0;3;1;20] d) /\
  damerau_lev release 7 [1;0;1;2;3;20] [1;0;3;1;20] = Done 2 /\
  (forall d, damerau_lev release 7 [1;0;1;2;3;20] [1;0;1;2;3;20] <> Done d).
Proof.
  destruct (damerau_lev_least release 7 [1;0;1;2;3;20] [1;0;3;1;20]) as [H1 H2]; [cbn; lia..|].
  split; [by apply H1|]. split; [vm_compute; reflexivity|done].
Defined.
End DamerauProps.
