(* ===== verification/Pedigree.v ===== *)
(** * Thread pedigrees (src/detcore-model/src/pedigree.rs)

    A pedigree is the path of a thread in the tree of forks, one bit per fork,
    after a leading bit of the root.  Forking extends it; a conversion packs it
    into a process id by run-length encoding its longest run.  A [BitVec] is the
    list of its bits; the two operations of the bitvec crate that look into its
    words, [from_element] and [into_vec], are a class with their documented
    behaviour for [Msb0] order.

    The theorems are in PedigreeProps. *)
From Stdlib Require Import ZArith Lia List Ascii.
From stdpp Require Import base gmap list.
From S2P Require Import Prelude.
Open Scope nat_scope.

Module Pedigree.

(** ** Bits and words *)

Definition msb_bits (w : nat) (x : Z) : list bool :=
  map (fun i => Z.testbit x (Z.of_nat (w - 1 - i))) (seq 0 w).
Definition msb_value (bits : list bool) : Z := fold_left (fun a b => 2 * a + Z.b2z b)%Z bits 0%Z.

(** [BitVec::<u32, Msb0>::from_element] and [into_vec()[0]]. *)
Class BitVecOps := {
  from_element : Z -> list bool;
  first_word : list bool -> outcome Z;
}.
Class BitVecLaws (ops : BitVecOps) : Prop := {
  from_element_msb : forall x, (0 <= x < 2 ^ 32)%Z -> from_element x = msb_bits 32 x;
  first_word_msb : forall bits, length bits = 32 -> first_word bits = Done (msb_value bits);
}.

(** ** The pedigree *)

Record Pedigree := { pedigree : list bool }.
Definition new : Pedigree := {| pedigree := [false] |}.
(** The new child, and the mutated parent. *)
Definition fork_mut (self : Pedigree) : Pedigree * Pedigree :=
  let child_pedigree := pedigree self ++ [true] in
  ({| pedigree := child_pedigree |}, {| pedigree := pedigree self ++ [false] |}).
(** [(parent, child)] *)
Definition fork (self : Pedigree) : Pedigree * Pedigree :=
  let '(child, parent) := fork_mut self in (parent, child).
Definition raw (self : Pedigree) : list bool := pedigree self.

Fixpoint run_loop (sequence : list bool) (index : nat) (prev_bit : bool) (prev_count max_count max_start : nat)
    : nat * nat :=
  match sequence with
  | [] => (max_start, max_count)
  | bit :: rest =>
      let count := if (0 <? index) && eqb prev_bit bit then prev_count + 1 else 1 in
      let '(max_count', max_start') :=
        if max_count <? count then (count, index + 1 - count) else (max_count, max_start) in
      run_loop rest (index + 1) bit count max_count' max_start'
  end.
Definition longest_run (sequence : list bool) : nat * nat := run_loop sequence 0 false 1 0 0.

(** [while sequence.len() > 1 && sequence.last() == Some(&false) { pop }] *)
Fixpoint trim_loop (fuel : nat) (sequence : list bool) : outcome (list bool) :=
  match fuel with
  | 0 => Panic PFuel
  | S fuel' =>
      if (1 <? length sequence) && bool_decide (last sequence = Some false)
      then trim_loop fuel' (removelast sequence) else Done sequence
  end.
Definition split_off {A} (l : list A) (at_ : nat) : outcome (list A * list A) :=
  if at_ <=? length l then Done (take at_ l, drop at_ l) else Panic PIndex.

Definition MSB_ZERO_BITS : nat := 1.
Definition TREE_BITS : nat := 16.
Definition RUN_INDEX_BITS : nat := 4.
Definition RUN_TYPE_BITS : nat := 1.
Definition RUN_LENGTH_BITS : nat := 10.

Section Vpid.
Context `{BitVecOps}.

(** The field of the [width] low bits of [x]. *)
Definition low_bits (bp : profile) (width x : nat) : outcome (list bool) :=
  let word := from_element (wrap_u 32 (Z.of_nat x)) in
  cut ← usize_sub (length word) width;
  '(_, field) ← split_off word cut;
  _ ← debug_assert_ bp (length field =? width);
  Done field.
(** The packing of the [else] branch. *)
Definition pack (bp : profile) (sequence : list bool) (index len : nat) : outcome Z :=
  '(sequence, lower_tree) ← split_off sequence (index + len);
  '(sequence, run) ← split_off sequence index;
  let tree := sequence ++ lower_tree in
  padding ← usize_sub TREE_BITS (length tree);
  let tree_bits := replicate padding false ++ tree in
  _ ← debug_assert_ bp (length tree_bits =? TREE_BITS);
  run_index_bits ← low_bits bp RUN_INDEX_BITS index;
  run_bit ← get_at run 0;
  _ ← debug_assert_ bp (length [run_bit] =? RUN_TYPE_BITS);
  run_length_bits ← low_bits bp RUN_LENGTH_BITS len;
  let vpid_bits := [false] ++ tree_bits ++ run_index_bits ++ [run_bit] ++ run_length_bits in
  _ ← debug_assert_ bp (length vpid_bits =? 32);
  word ← first_word vpid_bits;
  Done (wrap_i 32 word).
(** [i32::try_from]; the error is [None]. *)
Definition i32_try_from (bp : profile) (p : Pedigree) : outcome (option Z) :=
  _ ← debug_assert_ bp (MSB_ZERO_BITS + TREE_BITS + RUN_INDEX_BITS + RUN_TYPE_BITS + RUN_LENGTH_BITS =? 4 * 8);
  sequence ← trim_loop (S (length (raw p))) (raw p);
  let '(index, len) := longest_run sequence in
  rest ← usize_sub (length sequence) len;
  if (2 ^ RUN_INDEX_BITS <=? index) || (2 ^ RUN_LENGTH_BITS <=? len) || (TREE_BITS <? rest)
  then Done None
  else v ← pack bp sequence index len; Done (Some v).
(** [Pid::try_from] *)
Definition pid_try_from (bp : profile) (p : Pedigree) : outcome (option Z) := i32_try_from bp p.
End Vpid.

(** [Display]: the letters written after the root's bit. *)
Definition fmt (bp : profile) (p : Pedigree) : outcome (list ascii) :=
  _ ← debug_assert_ bp (0 <? length (pedigree p));
  _ ← (if debug_assertions bp then b ← get_at (pedigree p) 0; assert_ (negb b) else Done tt);
  Done (map (fun bit : bool => if bit then "C" else "P")%char (tail (pedigree p))).

(** ** Executing it *)

(** The behaviour of the crate, as a function. *)
#[export] Instance msb_ops : BitVecOps := {|
  from_element := msb_bits 32;
  first_word := fun bits => if length bits =? 32 then Done (msb_value bits) else Panic PIndex;
|}.
#[export] Instance msb_laws : BitVecLaws msb_ops.
Proof. split; [done|]. intros bits E. cbn. by rewrite E. Qed.
End Pedigree.
