(* ===== verification/PedigreeProps.v ===== *)
(** * What a pedigree's process id says

    A fork leaves the parent's id as it was, an id is a positive 32-bit number,
    and among paths of one trimmed length it determines the path.  Paths of
    different lengths can share an id ([vpid_collision]), because the leading
    zeros of the tree bits are lost. *)
From Stdlib Require Import ZArith Lia List Ascii.
From stdpp Require Import base gmap list.
From S2P Require Import Prelude Pedigree.
Import Pedigree.
Open Scope nat_scope.

Module PedigreeProps.

(** ** The longest run *)

Definition run (l : list bool) (start count : nat) (b : bool) : Prop :=
  take count (drop start l) = replicate count b.
(** After the bits [l]: the last run has [pc] bits [pb], the first longest one
    starts at [ms] and has [mc]. *)
Record run_inv (l : list bool) (pb : bool) (pc mc ms : nat) : Prop := {
  ri_last : l <> [] -> 1 <= pc <= length l /\ run l (length l - pc) pc pb;
  ri_most : forall c b, 1 <= c <= length l -> run l (length l - c) c b -> c <= pc;
  ri_max : l <> [] -> 1 <= mc /\ ms + mc <= length l /\ exists b, run l ms mc b;
  ri_longest : forall s c b, 1 <= c -> s + c <= length l -> run l s c b -> c <= mc;
  ri_none : l = [] -> mc = 0;
}.
Lemma run_app_l l l' s c b : s + c <= length l -> run (l ++ l') s c b <-> run l s c b.
Proof.
  intros Hs. unfold run. rewrite drop_app_le by lia. rewrite take_app_le by (rewrite length_drop; lia). done.
Qed.
(** A run that ends with the last bit. *)
Lemma run_snoc l x c b : 1 <= c <= length l + 1 ->
  run (l ++ [x]) (length l + 1 - c) c b <-> x = b /\ run l (length l + 1 - c) (c - 1) b.
Proof.
  intros Hc. unfold run. destruct c as [|c]; [lia|]. rewrite drop_app_le by lia.
  replace (S c - 1) with c by lia. remember (drop (length l + 1 - S c) l) as d eqn:Ed.
  assert (length d = c) as Hl by (subst d; rewrite length_drop; lia).
  rewrite (take_ge (d ++ [x])) by (rewrite length_app; cbn; lia). rewrite (take_ge d) by lia.
  replace (S c) with (c + 1) by lia. rewrite replicate_add. cbn [replicate]. split.
  - intros E. apply app_inj_1 in E as [-> E]; [|by rewrite length_replicate]. by injection E as ->.
  - by intros [-> ->].
Qed.
Lemma run_last l k d : 1 <= k <= length l -> run l (length l - k) k d -> last l = Some d.
Proof.
  intros Hk E. unfold run in E. rewrite take_ge in E by (rewrite length_drop; lia).
  rewrite <- (take_drop (length l - k) l), last_app, E. destruct k as [|k]; [lia|].
  rewrite <- Nat.add_1_r, replicate_add. cbn [replicate]. by rewrite last_snoc.
Qed.
Lemma not_nil_length (l : list bool) : 0 < length l -> l <> [].
Proof. destruct l; cbn; [lia|done]. Qed.

(** The count of the loop body is the length of the run that ends here. *)
Definition next_count (l : list bool) (pb : bool) (pc : nat) (x : bool) : nat :=
  if (0 <? length l) && eqb pb x then pc + 1 else 1.
Lemma next_count_run l x pb pc mc ms : run_inv l pb pc mc ms ->
  let c := next_count l pb pc x in 1 <= c <= length l + 1 /\ run (l ++ [x]) (length l + 1 - c) c x.
Proof.
  intros [Hl _ _ _ _]. unfold next_count. destruct (Nat.ltb_spec 0 (length l)) as [Hp|Hp]; cbn [andb].
  2: { split; [lia|]. apply run_snoc; [lia|]. by split. }
  destruct Hl as [Hpc Hr]; [by apply not_nil_length|].
  destruct (eqb_spec pb x) as [->|]; (split; [lia|]); (apply run_snoc; [lia|]); (split; [done|]); [|done].
  replace (length l + 1 - (pc + 1)) with (length l - pc) by lia. by replace (pc + 1 - 1) with pc by lia.
Qed.
Lemma next_count_most l x pb pc mc ms : run_inv l pb pc mc ms ->
  forall c b, 1 <= c <= length l + 1 -> run (l ++ [x]) (length l + 1 - c) c b -> c <= next_count l pb pc x.
Proof.
  intros [Hl Hm _ _ _] c b Hc Hr. apply run_snoc in Hr as [-> Hr]; [|lia]. unfold next_count.
  destruct (decide (c = 1)) as [->|]; [case_match; lia|].
  replace (length l + 1 - c) with (length l - (c - 1)) in Hr by lia.
  pose proof (Hm (c - 1) b ltac:(lia) Hr). rewrite (proj2 (Nat.ltb_lt 0 (length l))) by lia. cbn [andb].
  destruct (eqb_spec pb b) as [|Hne]; [lia|]. destruct Hne.
  destruct Hl as [Hpc Hlast]; [apply not_nil_length; lia|].
  apply run_last in Hlast; [|lia]. apply run_last in Hr; [|lia]. congruence.
Qed.
Lemma run_step l x pb pc mc ms (c := next_count l pb pc x) : run_inv l pb pc mc ms ->
  run_inv (l ++ [x]) x c (if mc <? c then c else mc) (if mc <? c then length l + 1 - c else ms).
Proof.
  intros Hi. destruct (next_count_run _ x _ _ _ _ Hi) as [Hc Hrun]. pose proof (next_count_most _ x _ _ _ _ Hi) as Hmost.
  fold c in Hc, Hrun, Hmost. destruct Hi as [_ _ Hx Hg H0].
  split; rewrite ?length_app; cbn [length]; try done.
  - intros _. destruct (Nat.ltb_spec mc c); [eauto with lia|].
    destruct Hx as (H1 & H2 & b & Hb); [by intros E; apply H0 in E; lia|]. split; [done|]. split; [lia|].
    exists b. by apply run_app_l.
  - intros s c' b Hc' Hs Hr. assert (c' <= c \/ c' <= mc); [|destruct (Nat.ltb_spec mc c); lia].
    destruct (decide (s + c' = length l + 1)) as [E|Hne].
    + left. apply (Hmost _ b); [lia|]. by replace (length l + 1 - c') with s by lia.
    + right. apply (Hg s c' b); [lia|lia|]. apply run_app_l in Hr; [done|lia].
  - intros E. by destruct l.
Qed.
Lemma run_loop_spec rest : forall l pb pc mc ms, run_inv l pb pc mc ms -> l ++ rest <> [] ->
  let '(start, count) := run_loop rest (length l) pb pc mc ms in
  1 <= count /\ start + count <= length (l ++ rest) /\ (exists b, run (l ++ rest) start count b) /\
  forall s c b, 1 <= c -> s + c <= length (l ++ rest) -> run (l ++ rest) s c b -> c <= count.
Proof.
  induction rest as [|x rest IH]; intros l pb pc mc ms Hi Hne; cbn [run_loop].
  - rewrite app_nil_r in *. destruct Hi as [_ _ Hx Hg _]. destruct (Hx Hne) as (H1 & H2 & H3). done.
  - fold (next_count l pb pc x). apply (run_step l x) in Hi. revert Hi. set (c := next_count l pb pc x). intros Hi.
    specialize (IH (l ++ [x])). rewrite length_app in IH. cbn [length] in IH. rewrite <- app_assoc in IH.
    destruct (mc <? c); by apply IH.
Qed.
(** [longest_run] finds a run that no run exceeds. *)
Lemma longest_run_spec l : l <> [] ->
  let '(start, count) := longest_run l in
  1 <= count /\ start + count <= length l /\ (exists b, run l start count b) /\
  forall s c b, 1 <= c -> s + c <= length l -> run l s c b -> c <= count.
Proof.
  intros Hne. apply (run_loop_spec l []); [|done]. split; cbn; try done; lia.
Qed.

(** ** The trailing [P]s *)

Lemma trim_loop_spec l : l <> [] -> exists t k, trim_loop (S (length l)) l = Done t /\
  t <> [] /\ l = t ++ replicate k false /\ (last t = Some true \/ length t = 1).
Proof.
  induction l as [|x l IH] using rev_ind; intros Hne; [done|]. rewrite length_app. cbn [length].
  cbn [trim_loop]. rewrite length_app, last_snoc. cbn [length].
  destruct (1 <? length l + 1) eqn:E; cbn [andb].
  2: { apply Nat.ltb_ge in E. exists (l ++ [x]), 0. rewrite app_nil_r. repeat split; [done|].
       right. rewrite length_app. cbn. lia. }
  destruct x.
  { rewrite bool_decide_false by done. exists (l ++ [true]), 0. rewrite app_nil_r, last_snoc. auto. }
  rewrite bool_decide_true by done. rewrite removelast_last.
  destruct IH as (t & k & Et & Ht & -> & Hl); [apply Nat.ltb_lt in E; apply not_nil_length; lia|].
  replace (length (t ++ replicate k false) + 1) with (S (length (t ++ replicate k false))) by lia.
  exists t, (k + 1). rewrite Et, replicate_add, app_assoc. done.
Qed.
Lemma trim_loop_app l : l <> [] ->
  trim_loop (S (length (l ++ [false]))) (l ++ [false]) = trim_loop (S (length l)) l.
Proof.
  intros Hne. rewrite length_app, Nat.add_1_r. remember (S (length l)) as k eqn:Ek. cbn [trim_loop].
  rewrite last_snoc, bool_decide_true, removelast_last by done.
  rewrite (proj2 (Nat.ltb_lt 1 _)); [done|]. rewrite length_app. destruct l; cbn; [done|lia].
Qed.

(** ** Bits of a word *)

Lemma length_msb_bits w x : length (msb_bits w x) = w.
Proof. unfold msb_bits. by rewrite length_map, length_seq. Qed.
Lemma msb_bits_succ w x : msb_bits (S w) x = Z.testbit x (Z.of_nat w) :: msb_bits w x.
Proof.
  unfold msb_bits. cbn [seq map]. f_equal; [do 2 f_equal; lia|]. rewrite <- seq_shift, map_map.
  apply map_ext. intros i. do 2 f_equal. lia.
Qed.
Lemma drop_msb_bits k w x : drop k (msb_bits (k + w) x) = msb_bits w x.
Proof. induction k as [|k IH]; [done|]. cbn [Nat.add]. by rewrite msb_bits_succ. Qed.
Lemma fold_msb bits : forall a, fold_left (fun a b => 2 * a + Z.b2z b)%Z bits a
  = (a * 2 ^ Z.of_nat (length bits) + msb_value bits)%Z.
Proof.
  unfold msb_value. induction bits as [|b bits IH]; intros a; cbn [fold_left length].
  - rewrite Z.pow_0_r. lia.
  - rewrite IH, (IH (2 * 0 + Z.b2z b)%Z), Nat2Z.inj_succ, Z.pow_succ_r by lia. lia.
Qed.
Lemma msb_value_cons b bits : msb_value (b :: bits) = (Z.b2z b * 2 ^ Z.of_nat (length bits) + msb_value bits)%Z.
Proof. unfold msb_value at 1. cbn [fold_left]. by rewrite fold_msb. Qed.
Lemma msb_value_bound bits : (0 <= msb_value bits < 2 ^ Z.of_nat (length bits))%Z.
Proof.
  induction bits as [|b bits IH]; [done|]. rewrite msb_value_cons. cbn [length].
  rewrite Nat2Z.inj_succ, Z.pow_succ_r by lia. destruct b; cbn [Z.b2z]; lia.
Qed.
Lemma msb_value_app l l' : msb_value (l ++ l') = (msb_value l * 2 ^ Z.of_nat (length l') + msb_value l')%Z.
Proof. unfold msb_value at 1. rewrite fold_left_app. apply fold_msb. Qed.
Lemma msb_value_inj l : forall l', length l = length l' -> msb_value l = msb_value l' -> l = l'.
Proof.
  induction l as [|b l IH]; intros [|b' l'] Hl; try done. injection Hl as Hl. rewrite !msb_value_cons, Hl.
  pose proof (msb_value_bound l) as H1. pose proof (msb_value_bound l') as H2. rewrite Hl in H1.
  intros E. destruct b, b'; cbn [Z.b2z] in E; try lia; f_equal; apply IH; (done || lia).
Qed.
Lemma msb_value_bits w : forall x, (0 <= x < 2 ^ Z.of_nat w)%Z -> msb_value (msb_bits w x) = x.
Proof.
  induction w as [|w IH]; intros x Hx; [cbn in *; lia|].
  rewrite msb_bits_succ, msb_value_cons, length_msb_bits. rewrite Nat2Z.inj_succ, Z.pow_succ_r in Hx by lia.
  assert (msb_bits w x = msb_bits w (x mod 2 ^ Z.of_nat w)) as ->.
  { unfold msb_bits. apply map_ext_in. intros i Hi%in_seq. rewrite Z.mod_pow2_bits_low by lia. done. }
  rewrite IH by (apply Z.mod_pos_bound; lia). rewrite Z.testbit_spec' by lia.
  pose proof (Z.div_mod x (2 ^ Z.of_nat w) ltac:(lia)).
  assert (0 <= x / 2 ^ Z.of_nat w < 2)%Z by (split; [apply Z.div_pos; lia|apply Z.div_lt_upper_bound; lia]).
  rewrite (Z.mod_small (x / _) 2) by lia. lia.
Qed.
Lemma nat_bits_bound w x : x < 2 ^ w -> (0 <= Z.of_nat x < 2 ^ Z.of_nat w)%Z.
Proof. intros Hx. apply Nat2Z.inj_lt in Hx. rewrite Nat2Z.inj_pow in Hx. lia. Qed.
Lemma msb_bits_inj w x y : x < 2 ^ w -> y < 2 ^ w -> msb_bits w (Z.of_nat x) = msb_bits w (Z.of_nat y) -> x = y.
Proof.
  intros Hx%nat_bits_bound Hy%nat_bits_bound E. apply (f_equal msb_value) in E.
  rewrite !msb_value_bits in E by done. lia.
Qed.

(** ** The packing *)

Lemma debug_assert_ok bp : debug_assert_ bp true = Done tt.
Proof. unfold debug_assert_. by destruct (debug_assertions bp). Qed.
Lemma low_bits_spec `{BitVecLaws} bp width x : width <= 32 -> x < 2 ^ width ->
  low_bits bp width x = Done (msb_bits width (Z.of_nat x)).
Proof.
  intros Hw Hx. assert (Z.of_nat x < 2 ^ 32)%Z as Hx32.
  { apply nat_bits_bound in Hx. pose proof (Z.pow_le_mono_r 2 (Z.of_nat width) 32 ltac:(lia) ltac:(lia)). lia. }
  unfold low_bits. unfold wrap_u. rewrite Z.mod_small by lia. rewrite from_element_msb by lia.
  rewrite length_msb_bits, usize_sub_exact by lia. bind_done. unfold split_off.
  rewrite length_msb_bits, (proj2 (Nat.leb_le _ _)) by lia. bind_done.
  assert (drop (32 - width) (msb_bits 32 (Z.of_nat x)) = msb_bits width (Z.of_nat x)) as ->.
  { replace 32 with (32 - width + width) at 2 by lia. apply drop_msb_bits. }
  by rewrite length_msb_bits, Nat.eqb_refl, debug_assert_ok.
Qed.
(** The 31 bits below the sign. *)
Definition vpid_fields (l : list bool) (index len : nat) (b : bool) : list bool :=
  replicate (16 - (length l - len)) false ++ (take index l ++ drop (index + len) l) ++
  msb_bits 4 (Z.of_nat index) ++ [b] ++ msb_bits 10 (Z.of_nat len).
Lemma length_vpid_fields l index len b : index + len <= length l -> length l - len <= 16 ->
  length (vpid_fields l index len b) = 31.
Proof.
  intros H1 H2. unfold vpid_fields. rewrite !length_app, !length_msb_bits, length_replicate, length_take, length_drop.
  cbn [length]. lia.
Qed.
Lemma pack_spec `{BitVecLaws} bp l index len b : 1 <= len -> index + len <= length l -> run l index len b ->
  index < 16 -> len < 1024 -> length l - len <= 16 ->
  pack bp l index len = Done (msb_value (vpid_fields l index len b)).
Proof.
  intros Hlen Hle Hrun Hi Hl Ht. unfold pack, split_off.
  rewrite (proj2 (Nat.leb_le _ _)) by done. bind_done.
  rewrite length_take, Nat.min_l, (proj2 (Nat.leb_le _ _)) by lia. bind_done.
  rewrite take_take, Nat.min_l by lia.
  assert (length (take index l ++ drop (index + len) l) = length l - len) as Htree
    by (rewrite length_app, length_take, length_drop; lia).
  rewrite Htree. unfold TREE_BITS. rewrite usize_sub_exact by lia. bind_done.
  rewrite length_app, length_replicate, Htree, (proj2 (Nat.eqb_eq _ _)) by lia. rewrite debug_assert_ok.
  bind_done. rewrite (low_bits_spec bp RUN_INDEX_BITS index)
    by (change (2 ^ RUN_INDEX_BITS) with 16; unfold RUN_INDEX_BITS; lia).
  bind_done.
  rewrite (get_at_Done _ 0 b).
  2: { rewrite lookup_drop, Nat.add_0_r, lookup_take_lt by lia. apply (f_equal (fun l => l !! 0)) in Hrun.
       by rewrite lookup_replicate_2, lookup_take_lt, lookup_drop, Nat.add_0_r in Hrun by lia. }
  bind_done. cbn [length Nat.eqb RUN_TYPE_BITS]. rewrite debug_assert_ok. bind_done.
  rewrite (low_bits_spec bp RUN_LENGTH_BITS len) by (change (2 ^ RUN_LENGTH_BITS) with 1024; unfold RUN_LENGTH_BITS; lia).
  bind_done. unfold RUN_INDEX_BITS, RUN_LENGTH_BITS. rewrite <- !app_assoc, (app_assoc (take index l)).
  fold (vpid_fields l index len b). pose proof (length_vpid_fields l index len b Hle Ht) as Hv.
  assert (length ([false] ++ vpid_fields l index len b) = 32) as Hw by (cbn; lia).
  rewrite Hw, Nat.eqb_refl, debug_assert_ok. bind_done. rewrite first_word_msb by done.
  cbn [mbind outcome_bind app]. rewrite msb_value_cons. cbn [Z.b2z]. rewrite Z.mul_0_l, Z.add_0_l.
  pose proof (msb_value_bound (vpid_fields l index len b)) as Hb. rewrite Hv in Hb.
  unfold wrap_i. rewrite Z.mod_small; [f_equal; lia|]. cbn in Hb |- *. lia.
Qed.
(** The conversion of a path that is not empty. *)
Lemma i32_try_from_spec `{BitVecLaws} bp p t :
  trim_loop (S (length (raw p))) (raw p) = Done t -> t <> [] ->
  exists index len b, 1 <= len /\ index + len <= length t /\ run t index len b /\
    i32_try_from bp p = Done (if bool_decide (index < 16 /\ len < 1024 /\ length t - len <= 16)
                              then Some (msb_value (vpid_fields t index len b)) else None).
Proof.
  intros Et Hne. pose proof (longest_run_spec t Hne) as Hl. destruct (longest_run t) as [index len] eqn:El.
  destruct Hl as (H1 & H2 & (b & Hb) & _). exists index, len, b. do 3 (split; [done|]). unfold i32_try_from.
  change (MSB_ZERO_BITS + _ + _ + _ + _ =? 4 * 8) with true. rewrite debug_assert_ok, Et. bind_done.
  rewrite El, usize_sub_exact by lia. bind_done.
  change (2 ^ RUN_INDEX_BITS) with 16. change (2 ^ RUN_LENGTH_BITS) with 1024. unfold TREE_BITS.
  destruct (Nat.leb_spec 16 index), (Nat.leb_spec 1024 len), (Nat.ltb_spec 16 (length t - len)); cbn [orb].
  1-7: by rewrite bool_decide_false by lia.
  rewrite bool_decide_true by lia. by rewrite (pack_spec bp t index len b).
Qed.
Lemma vpid_positive l index len b : 1 <= len < 1024 -> index + len <= length l -> length l - len <= 16 ->
  (1 <= msb_value (vpid_fields l index len b) < 2 ^ 31)%Z.
Proof.
  intros Hlen Hle Ht. pose proof (msb_value_bound (vpid_fields l index len b)) as Hb.
  rewrite (length_vpid_fields l index len b Hle Ht) in Hb. split; [|cbn in Hb |- *; lia].
  unfold vpid_fields in *. rewrite !app_assoc, msb_value_app, msb_value_bits in *.
  2-3: apply nat_bits_bound; change (2 ^ 10) with 1024; lia.
  pose proof (msb_value_bound (((replicate (16 - (length l - len)) false ++ take index l ++ drop (index + len) l) ++
    msb_bits 4 (Z.of_nat index)) ++ [b])). rewrite ?app_assoc in *. nia.
Qed.

(** ** Paths of the fork tree *)

(** The pedigree of the thread found by going to the child at each [true]. *)
Definition descend (path : list bool) : Pedigree :=
  fold_left (fun p child => if child : bool then (fork p).2 else (fork p).1) path new.
Lemma descend_from path : forall p,
  pedigree (fold_left (fun p child => if child : bool then (fork p).2 else (fork p).1) path p) = pedigree p ++ path.
Proof.
  induction path as [|c path IH]; intros p; cbn [fold_left]; [by rewrite app_nil_r|].
  rewrite IH. destruct c; cbn; by rewrite <- app_assoc.
Qed.
Lemma descend_bits path : pedigree (descend path) = false :: path.
Proof. apply descend_from. Qed.
(** A path that ends where its thread was born. *)
Definition birth (path : list bool) : Prop := path = [] \/ last path = Some true.
Lemma birth_trim path : birth path -> trim_loop (S (length (raw (descend path)))) (raw (descend path)) = Done (false :: path).
Proof.
  intros Hb. unfold raw. rewrite descend_bits. remember (false :: path) as l eqn:El. cbn [trim_loop].
  destruct Hb as [->|Hl]; [by subst|].
  rewrite (bool_decide_false (last l = _)); [by rewrite andb_false_r|].
  subst l. rewrite last_cons, Hl. done.
Qed.
Lemma fork_parent_vpid `{BitVecOps} bp p : pedigree p <> [] -> i32_try_from bp (fork p).1 = i32_try_from bp p.
Proof. intros Hne. unfold i32_try_from, raw. cbn [fork fork_mut fst snd pedigree]. by rewrite trim_loop_app. Qed.

(** Equal fields at an equal length come from one path. *)
Lemma vpid_fields_inj l index len b l' index' len' b' :
  length l = length l' -> index + len <= length l -> index' + len' <= length l' ->
  run l index len b -> run l' index' len' b' ->
  index < 16 -> len < 1024 -> length l - len <= 16 -> index' < 16 -> len' < 1024 -> length l' - len' <= 16 ->
  vpid_fields l index len b = vpid_fields l' index' len' b' -> l = l'.
Proof.
  intros Hll H1 H1' Hr Hr' Hi Hn Ht Hi' Hn' Ht'. unfold vpid_fields. rewrite !app_assoc. intros E.
  apply app_inj_2 in E as [E Elen]; [|by rewrite !length_msb_bits].
  apply msb_bits_inj in Elen as <-; [|change (2 ^ 10) with 1024; lia..].
  apply app_inj_tail in E as [E <-].
  apply app_inj_2 in E as [E Eindex]; [|by rewrite !length_msb_bits].
  apply msb_bits_inj in Eindex as <-; [|change (2 ^ 4) with 16; lia..].
  rewrite <- !app_assoc, Hll in E. apply app_inv_head in E.
  apply app_inj_1 in E as [E1 E2]; [|rewrite !length_take; lia].
  assert (forall m : list bool, take index m ++ take len (drop index m) ++ drop (index + len) m = m) as Hsplit.
  { intros m. rewrite <- drop_drop. by rewrite take_drop, take_drop. }
  rewrite <- (Hsplit l), <- (Hsplit l'), E1, E2. unfold run in Hr, Hr'. by rewrite Hr, Hr'.
Qed.


(** Among threads whose paths to their birth have one length, the process
    id determines the thread. *)
Theorem vpid_determines_path `{BitVecLaws} bp path path' v :
  birth path -> birth path' -> length path = length path' ->
  pid_try_from bp (descend path) = Done (Some v) -> pid_try_from bp (descend path') = Done (Some v) ->
  path = path'.
Proof.
  intros Hb Hb' Hl E E'.
  destruct (i32_try_from_spec bp _ _ (birth_trim path Hb) ltac:(done)) as (i & n & b & H1 & H2 & Hr & Ev).
  destruct (i32_try_from_spec bp _ _ (birth_trim path' Hb') ltac:(done)) as (i' & n' & b' & H1' & H2' & Hr' & Ev').
  unfold pid_try_from in E, E'. rewrite Ev in E. rewrite Ev' in E'. injection E as E. injection E' as E'. clear Ev Ev'.
  case_bool_decide as Hc; [|done]. case_bool_decide as Hc'; [|done]. injection E as E. rewrite <- E in E'.
  injection E' as E'. apply msb_value_inj in E'; [|rewrite !length_vpid_fields; cbn [length] in *; lia].
  cut (false :: path = false :: path'); [by intros [= ->]|].
  symmetry in E'. eapply vpid_fields_inj in E'; cbn [length] in *; try done; lia.
Qed.
Lemma vpid_determines_path_witness :
  pid_try_from validate (descend [false; true]) = Done (Some 32770%Z) /\ [false; true] = [false; true].
Proof.
  split; [vm_compute; reflexivity|].
  apply (vpid_determines_path (ops := msb_ops) validate _ _ 32770); [by right|by right|done|vm_compute; reflexivity..].
Defined.

(** Two threads of one tree with one id: the tree bits of the first are those of
    the second without the leading zeros. *)
Example vpid_collision :
  let p := [true; false; true; true; true; true; false; true] in
  let q := [false; false; true; true; true; true; false; true; false; false; true] in
  birth p /\ birth q /\ p <> q /\
  pid_try_from release (descend p) = Done (Some 302084%Z) /\
  pid_try_from release (descend q) = Done (Some 302084%Z).
Proof. split; [by right|]. split; [by right|]. split; [done|]. split; vm_compute; reflexivity. Qed.
(** The derived [Default], the empty path, has no id: the index of its run fails. *)
Example default_pedigree_panics : pid_try_from release {| pedigree := [] |} = Panic PIndex.
Proof. vm_compute. reflexivity. Qed.
End PedigreeProps.
