(* ===== verification/Text.v ===== *)
(** Rust strings.

    A [str] is the list of its code points; byte-wise comparison of UTF-8 is
    comparison of code points, so the derived order is lexicographic.  The file
    holds the parts of [str], of integer parsing and of [Display] for integers
    that the happens-before specifications use, with the facts the proofs need:
    decimal printing is injective and parses back. *)
From Stdlib Require Import ZArith Lia List Ascii String.
From stdpp Require Import base sets list.
From S2P Require Import Prelude BTree.
Open Scope Z_scope.

Abbreviation char := Z.
Abbreviation text := (list Z).

(** A string literal of the source. *)
Definition lit (s : string) : text :=
  (fun a => Z.of_N (N_of_ascii a)) <$> list_ascii_of_string s.
Arguments lit s%_string_scope.

(** * Orders *)

Section ListOrd.
Context {A : Type} `{OrdKeyLaws A}.
Fixpoint list_cmp (l1 l2 : list A) : comparison :=
  match l1, l2 with
  | [], [] => Eq
  | [], _ :: _ => Lt
  | _ :: _, [] => Gt
  | x :: l1', y :: l2' => lex (kcmp x y) (list_cmp l1' l2')
  end.
#[export] Instance list_ord : OrdKey (list A) := list_cmp.
#[export] Instance list_ord_laws : OrdKeyLaws (list A).
Proof.
  split; unfold kcmp at 1, list_ord.
  - induction a as [|x a IH]; intros [|y b]; simpl; [done..|]. unfold lex.
    pose proof (kcmp_eq x y) as Hxy. destruct (kcmp x y); [rewrite IH|..]; naive_solver.
  - unfold kcmp at 1, list_ord. induction a as [|x a IH]; intros [|y b]; simpl; [done..|].
    rewrite (kcmp_antisym x y). unfold lex. destruct (kcmp x y); simpl; [apply IH|done..].
  - unfold kcmp at 1 2, list_ord. induction a as [|x a IH]; intros [|y b] [|z c]; simpl; [done..|].
    unfold lex. destruct (kcmp x y) eqn:E1; [|..|done].
    + apply kcmp_eq in E1 as ->. destruct (kcmp y z); [apply IH|done..].
    + intros _. destruct (kcmp y z) eqn:E2; [|..|done]; intros _.
      * apply kcmp_eq in E2 as <-. by rewrite E1.
      * by rewrite (kcmp_trans _ _ _ E1 E2).
Qed.
End ListOrd.

(** [Option]'s derived order: [None] first. *)
#[export] Instance option_ord {A} `{OrdKey A} : OrdKey (option A) :=
  fun a b => match a, b with
             | None, None => Eq | None, Some _ => Lt | Some _, None => Gt
             | Some x, Some y => kcmp x y
             end.
#[export] Instance option_ord_laws {A} `{OrdKeyLaws A} : OrdKeyLaws (option A).
Proof.
  split; unfold kcmp at 1, option_ord.
  - intros [x|] [y|]; [|done..]. rewrite kcmp_eq. naive_solver.
  - intros [x|] [y|]; unfold kcmp; simpl; [apply kcmp_antisym|done..].
  - unfold kcmp at 1 2. intros [x|] [y|] [z|]; try done. exact (kcmp_trans x y z).
Qed.

(** * Characters *)

(** [char::is_whitespace]: the code points with the White_Space property. *)
Definition is_whitespace (c : char) : bool :=
  ((9 <=? c) && (c <=? 13)) || (c =? 32) || (c =? 133) || (c =? 160) || (c =? 5760)
  || ((8192 <=? c) && (c <=? 8202)) || (c =? 8232) || (c =? 8233) || (c =? 8239)
  || (c =? 8287) || (c =? 12288).
Definition is_ascii_digit (c : char) : bool := (48 <=? c) && (c <=? 57).
Definition is_ascii_upper (c : char) : bool := (65 <=? c) && (c <=? 90).
Definition is_ascii_lower (c : char) : bool := (97 <=? c) && (c <=? 122).
Definition is_ascii_alphanumeric (c : char) : bool :=
  is_ascii_digit c || is_ascii_upper c || is_ascii_lower c.
Definition to_ascii_lowercase (s : text) : text :=
  (fun c => if is_ascii_upper c then c + 32 else c) <$> s.

(** * Slices of a string *)

Fixpoint trim_start (s : text) : text :=
  match s with [] => [] | c :: s' => if is_whitespace c then trim_start s' else s end.
Definition trim (s : text) : text := rev (trim_start (rev (trim_start s))).

Fixpoint strip_prefix (p s : text) : option text :=
  match p, s with
  | [], _ => Some s
  | _ :: _, [] => None
  | a :: p', b :: s' => if a =? b then strip_prefix p' s' else None
  end.
Definition strip_suffix (p s : text) : option text :=
  (fun r => rev r) <$> strip_prefix (rev p) (rev s).

(** [s.split_once(c)]: around the first [c]. *)
Fixpoint split_once (c : char) (s : text) : option (text * text) :=
  match s with
  | [] => None
  | d :: s' => if d =? c then Some ([], s')
               else '(a, b) ← split_once c s'; Some (d :: a, b)
  end.

(** [match s.find(p) { Some(i) => &s[..i], None => s }]. *)
Fixpoint before_first (p s : text) : text :=
  match strip_prefix p s with
  | Some _ => []
  | None => match s with [] => [] | c :: s' => c :: before_first p s' end
  end.

(** [s.lines()]: the pieces between line feeds without a trailing carriage
    return; a final empty piece is not a line. *)
Fixpoint split_lines (s : text) : list text :=
  match s with
  | [] => []
  | c :: s' =>
      if c =? 10 then [] :: split_lines s'
      else match split_lines s' with [] => [[c]] | l :: ls => (c :: l) :: ls end
  end.
Definition strip_cr (l : text) : text := default l (strip_suffix [13] l).
(** The last piece keeps its carriage return unless a line feed follows it. *)
Fixpoint lines_cr (ls : list text) (ends_lf : bool) : list text :=
  match ls with
  | [] => []
  | [l] => [if ends_lf then strip_cr l else l]
  | l :: ls' => strip_cr l :: lines_cr ls' ends_lf
  end.
Definition lines (s : text) : list text :=
  lines_cr (split_lines s) (match last s with Some c => c =? 10 | None => false end).

(** * Integers *)

(** [char::to_digit]. *)
Definition to_digit (radix : Z) (c : char) : option Z :=
  let d := if is_ascii_digit c then Some (c - 48)
           else if is_ascii_upper c then Some (c - 65 + 10)
           else if is_ascii_lower c then Some (c - 97 + 10) else None in
  d ← d; if d <? radix then Some d else None.

(** The digit loop: a checked multiplication and a checked addition, or
    subtraction for a negative number, per digit. *)
Fixpoint from_digits (radix lo hi : Z) (neg : bool) (s : text) (acc : Z) : option Z :=
  match s with
  | [] => Some acc
  | c :: s' =>
      d ← to_digit radix c;
      let m := acc * radix in
      let a := if neg then m - d else m + d in
      if (lo <=? m) && (m <=? hi) && (lo <=? a) && (a <=? hi)
      then from_digits radix lo hi neg s' a else None
  end.

(** [T::from_str_radix(s, radix)] for a type with range [lo..=hi]; [parse] is
    radix ten.  A sign alone is an error, and a minus sign is one for an
    unsigned type. *)
Definition from_str_radix (radix lo hi : Z) (s : text) : option Z :=
  match s with
  | [] => None
  | [c] => if (c =? 43) || (c =? 45) then None else from_digits radix lo hi false s 0
  | c :: s' =>
      if c =? 43 then from_digits radix lo hi false s' 0
      else if (c =? 45) && (lo <? 0) then from_digits radix lo hi true s' 0
      else from_digits radix lo hi false s 0
  end.
Definition i32_min : Z := - 2 ^ 31.
Definition i32_max : Z := 2 ^ 31 - 1.
Definition parse_u64 (s : text) : option Z := from_str_radix 10 0 u64_max s.
Definition parse_i32 (s : text) : option Z := from_str_radix 10 i32_min i32_max s.

(** [Display] of a non-negative integer: its decimal digits. *)
Fixpoint decimal_fuel (fuel : nat) (x : Z) (acc : text) : text :=
  match fuel with
  | O => acc
  | S fuel' =>
      let acc' := (48 + x mod 10) :: acc in
      if x <? 10 then acc' else decimal_fuel fuel' (x / 10) acc'
  end.
(** A value below 2^n has at most n digits. *)
Definition decimal (x : Z) : text := decimal_fuel (S (Z.to_nat (Z.log2 x))) x [].
Definition display_int (x : Z) : text :=
  if x <? 0 then 45 :: decimal (- x) else decimal x.

(** * Facts *)

Definition digits_value (s : text) : Z := foldl (fun a c => a * 10 + (c - 48)) 0 s.

Lemma digits_value_app s1 s2 :
  digits_value (s1 ++ s2) = foldl (fun a c => a * 10 + (c - 48)) (digits_value s1) s2.
Proof. apply foldl_app. Qed.

Lemma log2_div10 x : 10 <= x -> Z.log2 (x / 10) < Z.log2 x.
Proof.
  intros Hx. assert (0 < x / 10) by (apply Z.div_str_pos; lia).
  assert (Hle : x / 10 <= x / 2).
  { apply Z.div_le_compat_l; lia. }
  apply Z.log2_le_mono in Hle.
  pose proof (Z.log2_shiftr x 1 ltac:(lia)) as Hs. rewrite Z.shiftr_div_pow2 in Hs by lia.
  change (2 ^ 1) with 2 in Hs. pose proof (Z.log2_le_mono 2 x ltac:(lia)) as H2.
  change (Z.log2 2) with 1 in H2. lia.
Qed.

Lemma decimal_fuel_value fuel x acc :
  0 <= x -> (Z.to_nat (Z.log2 x) < fuel)%nat ->
  digits_value (decimal_fuel fuel x acc) = foldl (fun a c => a * 10 + (c - 48)) x acc.
Proof.
  revert x acc. induction fuel as [|fuel IH]; intros x acc Hx Hf; [lia|].
  cbn [decimal_fuel]. destruct (Z.ltb_spec x 10).
  - unfold digits_value. simpl. f_equal. rewrite Z.mod_small by lia. lia.
  - pose proof (log2_div10 x ltac:(lia)). pose proof (Z.log2_nonneg (x / 10)).
    rewrite IH by (try apply Z.div_pos; lia).
    simpl. f_equal. pose proof (Z.div_mod x 10). lia.
Qed.

Lemma decimal_value x : 0 <= x -> digits_value (decimal x) = x.
Proof. intros Hx. unfold decimal. rewrite decimal_fuel_value by lia. done. Qed.

(** Printing in decimal loses nothing. *)
Lemma decimal_inj x y : 0 <= x -> 0 <= y -> decimal x = decimal y -> x = y.
Proof. intros Hx Hy E. by rewrite <- (decimal_value x), <- (decimal_value y), E. Qed.

Lemma split_once_spec c s a b :
  split_once c s = Some (a, b) <-> s = a ++ c :: b /\ c ∉ a.
Proof.
  revert a b. induction s as [|d s IH]; intros a b; simpl.
  - split; [done|]. intros [E _]. by destruct a.
  - destruct (Z.eqb_spec d c) as [->|Hd].
    + split; [intros [= <- <-]; split; [done|set_solver]|].
      intros [E Hn]. destruct a as [|x a]; simplify_eq/=; [done|]. set_solver.
    + split.
      * intros ([a' b'] & E & [= <- <-])%bind_Some.
        apply IH in E as [-> ?]. split; [done|]. set_solver.
      * intros [E Hn]. destruct a as [|x a]; simplify_eq/=.
        assert (split_once c (a ++ c :: b) = Some (a, b)) as ->; [|done].
        apply IH. split; [done|]. set_solver.
Qed.
