(* ===== verification/HappensBefore.v ===== *)
(** * Happens-before programs (src/detcore-model/src/happens_before.rs)

    A specification names events on guest threads and edges between them;
    [normalize] turns it into a validated program of anchors and edges.  The
    file holds the data types, the validation, the cycle search and the
    per-thread counting of syscall occurrences, in the order of the source.

    [Sysno] is a third-party enumeration: its variants, its parser and the
    numbers behind them are the parameter [SysnoTable]. *)
From Stdlib Require Import String ZArith Lia List.
From stdpp Require Import base gmap list.
From S2P Require Import Prelude BTree Time Schedule Text.
Open Scope Z_scope.

Module HappensBefore.
Abbreviation Sysno := Schedule.Sysno.
Abbreviation SyscallPhase := Schedule.SyscallPhase.

(** The third-party [Sysno]: the number of the variant a name denotes, and its
    [FromStr]. *)
Class SysnoTable := {
  sysno_variant : text -> Sysno;
  sysno_from_str : text -> option Sysno;
}.

Definition HAPPENS_BEFORE_VERSION : Z := 2.
Definition HAPPENS_BEFORE_VERSION_1 : Z := 1.
Definition DEFAULT_MAX_HOLD_NS : Z := 10000000000.

(** ** The declarative format *)

Record ThreadSpec := {
  ts_label : option text;
  ts_dettid : option Z;
  ts_spawn_ordinal : option Z;
}.

Inductive PhaseSpec := PhPrehook | PhPolling | PhPosthook.
Definition phase_into (p : PhaseSpec) : SyscallPhase :=
  match p with
  | PhPrehook => Schedule.Prehook
  | PhPolling => Schedule.Polling
  | PhPosthook => Schedule.Posthook
  end.

Record EventSpec := {
  ev_thread : text;
  ev_syscalls : option Z;
  ev_rcbs : option Z;
  ev_func : option text;
  ev_file : option text;
  ev_line : option Z;
  ev_syscall : option text;
  ev_phase : option PhaseSpec;
  ev_fd : option Z;
  ev_futex_op : option Z;
  ev_from : option text;
  ev_rip : option text;
  ev_mark : option text;
  ev_nth : option Z;
}.

Inductive Strength := Hard | Soft.
Record EdgeSpec := { es_before : text; es_after : text; es_strength : Strength }.

Record HappensBeforeSpec := {
  sp_version : Z;
  sp_max_hold_ns : option Z;
  sp_threads : list (text * ThreadSpec);
  sp_events : list (text * EventSpec);
  sp_edges : list EdgeSpec;
}.

#[global] Instance PhaseSpec_eq_dec : EqDecision PhaseSpec.
Proof. solve_decision. Defined.
#[global] Instance Strength_eq_dec : EqDecision Strength.
Proof. solve_decision. Defined.
#[global] Instance EventSpec_eq_dec : EqDecision EventSpec.
Proof. solve_decision. Defined.

(** ** The normalized model *)

Record ThreadRef := {
  tr_label : text;
  tr_dettid : option DetTid;
  tr_spawn_ordinal : option Z;
}.

Record CodeLocation := { function : option text; file : option text; line : option Z }.
Definition location_is_empty (l : CodeLocation) : bool :=
  match function l, file l, line l with None, None, None => true | _, _, _ => false end.

Inductive Position :=
  | SyscallCount (n : Z)
  | Rcb (m : Z)
  | Syscall (sysno : Sysno) (phase : option SyscallPhase) (nth : Z) (fd futex_op : option Z)
  | Rip (addr : option Z) (nth : Z)
  | Marker (name : text) (nth : Z).

Record Anchor := {
  an_name : text;
  an_thread : ThreadRef;
  an_position : Position;
  an_location : CodeLocation;
  an_from : option text;
}.

Abbreviation OccurrenceKey := (Z * option Z * option Z)%type.

Definition is_syscall_occurrence (a : Anchor) : bool :=
  match an_position a with
  | Syscall _ None _ _ _
  | Syscall _ (Some Schedule.Prehook) _ _ _
  | Syscall _ (Some Schedule.Posthook) _ _ _ => true
  | _ => false
  end.

Definition fires_at_posthook (a : Anchor) : bool :=
  match an_position a with Syscall _ (Some Schedule.Posthook) _ _ _ => true | _ => false end.

Definition occurrence_key (a : Anchor) : option OccurrenceKey :=
  match an_position a with
  | Syscall sysno _ _ fd futex_op =>
      if is_syscall_occurrence a then Some (sysno, fd, futex_op) else None
  | _ => None
  end.

Definition is_none_or {A} (o : option A) (f : A -> bool) : bool :=
  match o with None => true | Some x => f x end.
(** [x as u32 as i32]. *)
Definition low_int (x : Z) : Z := wrap_i 32 (wrap_u 32 x).

Definition syscall_occurrence_matches (a : Anchor) (sysno : Sysno) (args : Z * Z) : bool :=
  match an_position a with
  | Syscall want _ _ fd futex_op =>
      if is_syscall_occurrence a && (want =? sysno) then
        is_none_or fd (fun fd => low_int args.1 =? fd)
        && is_none_or futex_op (fun op => low_int args.2 =? op)
      else false
  | _ => false
  end.

Section Table.
Context `{SysnoTable}.

Definition is_variant (names : list text) (sysno : Sysno) : bool :=
  existsb (fun n => sysno_variant n =? sysno) names.

Definition syscall_never_returns_on_success (sysno : Sysno) : bool :=
  is_variant (lit <$> ["execve"; "execveat"; "exit"; "exit_group"; "rt_sigreturn"]%string) sysno.

Definition syscall_never_reaches_tracer (sysno : Sysno) : bool :=
  sysno =? sysno_variant (lit "rt_sigreturn").

(** The list of an x86_64 build. *)
Definition syscall_takes_fd_first (sysno : Sysno) : bool :=
  is_variant (lit <$>
    ["read"; "write"; "readv"; "writev"; "pread64"; "pwrite64"; "preadv"; "pwritev"; "preadv2";
     "pwritev2"; "close"; "fsync"; "fdatasync"; "ioctl"; "fcntl"; "lseek"; "fstat"; "ftruncate";
     "fallocate"; "flock"; "getdents64"; "sendto"; "recvfrom"; "sendmsg"; "recvmsg"; "sendmmsg";
     "recvmmsg"; "accept"; "accept4"; "connect"; "bind"; "listen"; "shutdown"; "epoll_pwait";
     "epoll_ctl"; "dup"; "dup3"; "epoll_wait"; "dup2"]%string) sysno.
End Table.

Record HappensBeforeEdge := {
  ed_before : text;
  ed_after : text;
  ed_strength : Strength;
}.

Record HappensBeforeProgram := {
  pr_version : Z;
  pr_anchors : list (text * Anchor);
  pr_edges : list HappensBeforeEdge;
  pr_max_hold_ns : option Z;
}.

(** One thread's counting state. *)
Record HbThreadCounters := {
  counts : list (OccurrenceKey * Z);
  origins : list (text * Z);
}.
Definition new_counters : HbThreadCounters := {| counts := []; origins := [] |}.

Definition unresolved_locations (p : HappensBeforeProgram) : list Anchor :=
  List.filter (fun a => match an_position a with Rip None _ => true | _ => false end
                        && negb (location_is_empty (an_location a)))
    (pr_anchors p).*2.

Definition may_have_syscall_count_anchor_at (p : HappensBeforeProgram) (dettid : DetTid) (count : Z)
    : bool :=
  existsb (fun a => match an_position a with SyscallCount n => n =? count | _ => false end
                    && is_none_or (tr_dettid (an_thread a)) (fun d => d =? dettid))
    (pr_anchors p).*2.

Definition has_syscall_occurrence_anchors (p : HappensBeforeProgram) : bool :=
  existsb is_syscall_occurrence (pr_anchors p).*2.

Definition is_version_2 (p : HappensBeforeProgram) : bool :=
  pr_version p =? HAPPENS_BEFORE_VERSION.

Definition relative_anchors (p : HappensBeforeProgram) : list (Anchor * Anchor) :=
  omap (fun a => b ← an_from a; base ← bt_get b (pr_anchors p); Some (a, base)) (pr_anchors p).*2.

Definition unenforced_positions (p : HappensBeforeProgram) : list Anchor :=
  List.filter (fun a => negb (match an_position a with SyscallCount _ => true | _ => false end)
                        && negb (is_syscall_occurrence a))
    (pr_anchors p).*2.

(** *** Counting one syscall entry *)

Section Count.
Context (bp : profile) (p : HappensBeforeProgram) (dettid : DetTid) (sysno : Sysno) (args : Z * Z)
  (entry_count : Z).

Definition on_thread (a : Anchor) : bool :=
  is_none_or (tr_dettid (an_thread a)) (fun d => d =? dettid).

(** The keys the entry matches, as a [BTreeSet]. *)
Definition entry_keys : list (OccurrenceKey * ()) :=
  foldl (fun ks k => bt_insert k tt ks) []
    (omap occurrence_key
       (List.filter (fun a => syscall_occurrence_matches a sysno args) (pr_anchors p).*2)).

Fixpoint bump_counts (ks : list OccurrenceKey) (cs : list (OccurrenceKey * Z))
    : outcome (list (OccurrenceKey * Z)) :=
  match ks with
  | [] => Done cs
  | k :: ks' =>
      n ← arith_u bp 64 (default 0 (bt_get k cs) + 1);
      bump_counts ks' (bt_insert k n cs)
  end.

Definition base_reached (cs : list (OccurrenceKey * Z)) (base : Anchor) : bool :=
  match an_position base with
  | SyscallCount n => n =? entry_count
  | Syscall _ _ nth _ _ =>
      syscall_occurrence_matches base sysno args
      && match occurrence_key base with
         | Some key => match bt_get key cs with Some c => c =? nth | None => false end
         | None => false
         end
  | _ => false
  end.

Definition note_origin (cs : list (OccurrenceKey * Z)) (os : list (text * Z)) (relative : Anchor)
    : list (text * Z) :=
  match (b ← an_from relative; bt_get b (pr_anchors p)) with
  | None => os
  | Some base =>
      if bt_mem (an_name relative) os then os
      else if base_reached cs base then
        bt_insert (an_name relative)
          (default 0 (key ← occurrence_key relative; bt_get key cs)) os
      else os
  end.

(** The last filter of the result: the count, or the count from the origin,
    is the anchor's [nth]. *)
Definition anchor_fires (c : HbThreadCounters) (a : Anchor) : outcome bool :=
  match an_position a, occurrence_key a with
  | Syscall _ _ nth _ _, Some key =>
      let count := default 0 (bt_get key (counts c)) in
      match an_from a with
      | None => Done (count =? nth)
      | Some _ =>
          match bt_get (an_name a) (origins c) with
          | Some origin => d ← arith_u bp 64 (count - origin); Done (d =? nth)
          | None => Done false
          end
      end
  | _, _ => Done false
  end.

Fixpoint fired_names (c : HbThreadCounters) (l : list Anchor) : outcome (list text) :=
  match l with
  | [] => Done []
  | a :: l' =>
      if on_thread a && syscall_occurrence_matches a sysno args then
        b ← anchor_fires c a;
        ns ← fired_names c l';
        Done (if b : bool then an_name a :: ns else ns)
      else fired_names c l'
  end.

Definition count_syscall_occurrences (c : HbThreadCounters)
    : outcome (list text * HbThreadCounters) :=
  let keys := entry_keys in
  cs ← bump_counts keys.*1 (counts c);
  let os := foldl (note_origin cs) (origins c) (List.filter on_thread (pr_anchors p).*2) in
  let c' := {| counts := cs; origins := os |} in
  match keys with
  | [] => Done ([], c')
  | _ => ns ← fired_names c' (pr_anchors p).*2; Done (ns, c')
  end.
End Count.

(** ** Errors *)

Inductive HappensBeforeError :=
  | UnsupportedVersion (v : Z)
  | AmbiguousPosition (event : text) (found : list text)
  | UnknownSyscall (event name : text)
  | NthZero (event : text)
  | FdWithoutSyscall (event : text)
  | FdNotFirstArgument (event syscall : text)
  | BadRip (event txt : text)
  | UnknownEvent (which name : text)
  | UnknownThread (event thread : text)
  | Cycle (names : list text)
  | NewFieldInVersion1 (event : option text) (field : text)
  | UnknownField (place field : text)
  | FutexOpWithoutFutex (event : text)
  | FutexOpOutOfRange (event : text) (value : Z)
  | FromUnknownEvent (event base : text)
  | FromOnNonOccurrence (event : text)
  | FromOtherThread (event base : text)
  | FromUnenforcedPosition (event base : text)
  | FromRelativeBase (event base : text)
  | FromCycle (names : list text)
  | PosthookOnNoReturnSyscall (event syscall : text)
  | DslSyntax (line : nat) (message : text).

Abbreviation hb_result := (result HappensBeforeError).

(** ** Normalization *)

Definition is_Some_b {A} (o : option A) : bool := match o with Some _ => true | None => false end.

Fixpoint refuse_event_fields (evs : list (text * EventSpec)) : hb_result () :=
  match evs with
  | [] => Ok tt
  | (name, ev) :: evs' =>
      _ ← ensure (negb (is_Some_b (ev_from ev))) (NewFieldInVersion1 (Some name) (lit "from"));
      _ ← ensure (negb (is_Some_b (ev_futex_op ev))) (NewFieldInVersion1 (Some name) (lit "futex_op"));
      refuse_event_fields evs'
  end.
Definition refuse_version_2_fields (spec : HappensBeforeSpec) : hb_result () :=
  _ ← ensure (negb (is_Some_b (sp_max_hold_ns spec))) (NewFieldInVersion1 None (lit "max_hold_ns"));
  refuse_event_fields (sp_events spec).

Definition resolve_thread (spec : HappensBeforeSpec) (event thread : text) : hb_result ThreadRef :=
  match bt_get thread (sp_threads spec) with
  | Some ts => Ok {| tr_label := default thread (ts_label ts); tr_dettid := ts_dettid ts;
                     tr_spawn_ordinal := ts_spawn_ordinal ts |}
  | None =>
      match parse_i32 thread with
      | Some raw => Ok {| tr_label := thread; tr_dettid := Some raw; tr_spawn_ordinal := None |}
      | None => Err (UnknownThread event thread)
      end
  end.

(** [s.trim()], then hexadecimal after [0x] or [0X], or decimal. *)
Definition parse_rip (s : text) : option Z :=
  let s := trim s in
  match strip_prefix (lit "0x") s with
  | Some hex => from_str_radix 16 0 u64_max hex
  | None =>
      match strip_prefix (lit "0X") s with
      | Some hex => from_str_radix 16 0 u64_max hex
      | None => parse_u64 s
      end
  end.

Section Normalize.
Context `{SysnoTable} (bp : profile).

(** The explicit position selectors an event sets. *)
Definition selectors_found (ev : EventSpec) : list text :=
  (if is_Some_b (ev_syscalls ev) then [lit "syscalls"] else [])
  ++ (if is_Some_b (ev_rcbs ev) then [lit "rcbs"] else [])
  ++ (if is_Some_b (ev_syscall ev) then [lit "syscall"] else [])
  ++ (if is_Some_b (ev_rip ev) then [lit "rip"] else [])
  ++ (if is_Some_b (ev_mark ev) then [lit "mark"] else []).

Definition event_location (ev : EventSpec) : CodeLocation :=
  {| function := ev_func ev; file := ev_file ev; line := ev_line ev |}.

(** The branch of [normalize_event] for a named syscall. *)
Definition syscall_position (name : text) (ev : EventSpec) (sc : text) (nth : Z)
    : hb_result Position :=
  sysno ← ok_or (sysno_from_str sc) (UnknownSyscall name sc);
  _ ← ensure (negb (is_Some_b (ev_fd ev) && negb (syscall_takes_fd_first sysno)))
        (FdNotFirstArgument name sc);
  futex_op ← match ev_futex_op ev with
             | None => Ok None
             | Some value =>
                 if negb (sysno =? sysno_variant (lit "futex")) then Err (FutexOpWithoutFutex name)
                 else if (i32_min <=? value) && (value <=? i32_max) then Ok (Some value)
                 else Err (FutexOpOutOfRange name value)
             end;
  _ ← ensure (negb (bool_decide (ev_phase ev = Some PhPosthook)
                    && syscall_never_returns_on_success sysno))
        (PosthookOnNoReturnSyscall name sc);
  Ok (Syscall sysno (phase_into <$> ev_phase ev) nth (ev_fd ev) futex_op).

Definition event_position (name : text) (ev : EventSpec) : hb_result Position :=
  let nth := default 1 (ev_nth ev) in
  match ev_syscalls ev, ev_rcbs ev, ev_syscall ev, ev_rip ev, ev_mark ev with
  | Some n, _, _, _, _ => Ok (SyscallCount n)
  | None, Some m, _, _, _ => Ok (Rcb m)
  | None, None, Some sc, _, _ => syscall_position name ev sc nth
  | None, None, None, Some rip, _ =>
      addr ← ok_or (parse_rip rip) (BadRip name rip);
      Ok (Rip (Some addr) nth)
  | None, None, None, None, Some mark => Ok (Marker mark nth)
  | None, None, None, None, None =>
      _ ← lift (debug_assert_ bp (negb (location_is_empty (event_location ev))));
      Ok (Rip None nth)
  end.

Definition normalize_event (spec : HappensBeforeSpec) (name : text) (ev : EventSpec)
    : hb_result Anchor :=
  thread ← resolve_thread spec name (ev_thread ev);
  let location := event_location ev in
  let found := selectors_found ev in
  let has_code_location := negb (location_is_empty location) in
  _ ← ensure (length found <=? 1)%nat (AmbiguousPosition name found);
  _ ← ensure (negb ((length found =? 0)%nat && negb has_code_location)) (AmbiguousPosition name []);
  _ ← ensure (negb (is_Some_b (ev_fd ev) && negb (is_Some_b (ev_syscall ev)))) (FdWithoutSyscall name);
  _ ← ensure (negb (is_Some_b (ev_futex_op ev) && negb (is_Some_b (ev_syscall ev))))
        (FutexOpWithoutFutex name);
  _ ← ensure (negb (bool_decide (ev_nth ev = Some 0) && negb (is_Some_b (ev_syscalls ev))
                    && negb (is_Some_b (ev_rcbs ev))))
        (NthZero name);
  position ← event_position name ev;
  Ok {| an_name := name; an_thread := thread; an_position := position;
        an_location := location; an_from := ev_from ev |}.

Fixpoint normalize_events (spec : HappensBeforeSpec) (evs : list (text * EventSpec))
    (anchors : list (text * Anchor)) : hb_result (list (text * Anchor)) :=
  match evs with
  | [] => Ok anchors
  | (name, ev) :: evs' =>
      a ← normalize_event spec name ev;
      normalize_events spec evs' (bt_insert name a anchors)
  end.

Definition same_thread (a b : ThreadRef) : bool :=
  match tr_dettid a, tr_dettid b with
  | Some x, Some y => x =? y
  | None, None =>
      is_Some_b (tr_spawn_ordinal a) && bool_decide (tr_spawn_ordinal a = tr_spawn_ordinal b)
  | _, _ => false
  end.

Definition is_syscall_count (a : Anchor) : bool :=
  match an_position a with SyscallCount _ => true | _ => false end.

Definition check_relative_base (anchors : list (text * Anchor)) (anchor : Anchor) : hb_result () :=
  match an_from anchor with
  | None => Ok tt
  | Some base =>
      let event := an_name anchor in
      base_anchor ← ok_or (bt_get base anchors) (FromUnknownEvent event base);
      _ ← ensure (is_syscall_occurrence anchor) (FromOnNonOccurrence event);
      _ ← ensure (same_thread (an_thread base_anchor) (an_thread anchor)) (FromOtherThread event base);
      _ ← ensure (negb (is_Some_b (an_from base_anchor))) (FromRelativeBase event base);
      ensure (is_syscall_count base_anchor || is_syscall_occurrence base_anchor)
        (FromUnenforcedPosition event base)
  end.
Fixpoint check_each_base (anchors : list (text * Anchor)) (l : list Anchor) : hb_result () :=
  match l with
  | [] => Ok tt
  | a :: l' => _ ← check_relative_base anchors a; check_each_base anchors l'
  end.
Definition check_relative_bases (anchors : list (text * Anchor)) : hb_result () :=
  check_each_base anchors anchors.*2.

Fixpoint resolve_edges (anchors : list (text * Anchor)) (es : list EdgeSpec)
    : hb_result (list HappensBeforeEdge) :=
  match es with
  | [] => Ok []
  | e :: es' =>
      _ ← ensure (bt_mem (es_before e) anchors) (UnknownEvent (lit "before") (es_before e));
      _ ← ensure (bt_mem (es_after e) anchors) (UnknownEvent (lit "after") (es_after e));
      rest ← resolve_edges anchors es';
      Ok ({| ed_before := es_before e; ed_after := es_after e; ed_strength := es_strength e |} :: rest)
  end.
End Normalize.

(** *** The cycle search *)

Inductive Mark := Visiting | Done_.

Definition adj_push (adj : list (text * list text)) (e : HappensBeforeEdge)
    : list (text * list text) :=
  bt_insert (ed_before e) (default [] (bt_get (ed_before e) adj) ++ [ed_after e]) adj.
Definition adj_of (anchors : list (text * Anchor)) (edges : list HappensBeforeEdge)
    : list (text * list text) :=
  foldl adj_push
    (foldl (fun adj name => bt_insert name (default [] (bt_get name adj)) adj) [] anchors.*1)
    edges.

(** [path.iter().position(|&n| n == next)]. *)
Fixpoint position (x : text) (l : list text) : option nat :=
  match l with
  | [] => None
  | y :: l' => if bool_decide (y = x) then Some O else S <$> position x l'
  end.

Section Search.
Context (adj : list (text * list text)).
Abbreviation marks := (list (text * Mark)).

(** The [while let] loop.  [stack] has its top first; [path] is in the order
    the nodes were pushed.  The outer [Err] of the result is the reported
    cycle. *)
Fixpoint visit (fuel : nat) (state : marks) (stack : list (text * nat)) (path : list text)
    : hb_result marks :=
  match fuel with
  | O => Crash PFuel
  | S fuel' =>
      match stack with
      | [] => Ok state
      | (node, idx) :: below =>
          neighbors ← lift (expect (bt_get node adj));
          match neighbors !! idx with
          | Some next =>
              let stack := (node, S idx) :: below in
              match bt_get next state with
              | Some Visiting =>
                  let start := default O (position next path) in
                  Err (Cycle (drop start path ++ [next]))
              | Some Done_ => visit fuel' state stack path
              | None =>
                  visit fuel' (bt_insert next Visiting state) ((next, O) :: stack) (path ++ [next])
              end
          | None => visit fuel' (bt_insert node Done_ state) below (removelast path)
          end
      end
  end.

Fixpoint visit_roots (fuel : nat) (roots : list text) (state : marks) : hb_result () :=
  match roots with
  | [] => Ok tt
  | root :: roots' =>
      if bt_mem root state then visit_roots fuel roots' state
      else
        state' ← visit fuel (bt_insert root Visiting state) [(root, O)] [root];
        visit_roots fuel roots' state'
  end.
End Search.

(** One turn of the inner loop consumes one adjacency entry or one node. *)
Definition detect_cycle (anchors : list (text * Anchor)) (edges : list HappensBeforeEdge)
    : hb_result () :=
  let adj := adj_of anchors edges in
  visit_roots adj (S (length adj + length edges)) adj.*1 [].

Definition activation_edges (anchors : list (text * Anchor)) : list HappensBeforeEdge :=
  omap (fun a => base ← an_from a;
                 Some {| ed_before := base; ed_after := an_name a; ed_strength := Hard |})
    anchors.*2.
Definition with_activation (anchors : list (text * Anchor)) (edges : list HappensBeforeEdge)
    : list HappensBeforeEdge :=
  List.filter (fun e => bool_decide (ed_strength e = Hard)) (edges ++ activation_edges anchors).

Definition normalize `{SysnoTable} (bp : profile) (spec : HappensBeforeSpec)
    : hb_result HappensBeforeProgram :=
  _ ← ensure ((sp_version spec =? HAPPENS_BEFORE_VERSION)
              || (sp_version spec =? HAPPENS_BEFORE_VERSION_1))
        (UnsupportedVersion (sp_version spec));
  _ ← (if sp_version spec =? HAPPENS_BEFORE_VERSION_1 then refuse_version_2_fields spec else Ok tt);
  anchors ← normalize_events bp spec (sp_events spec) [];
  _ ← check_relative_bases anchors;
  edges ← resolve_edges anchors (sp_edges spec);
  _ ← detect_cycle anchors edges;
  _ ← match detect_cycle anchors (with_activation anchors edges) with
      | Err (Cycle names) => Err (FromCycle names)
      | Crash pn => Crash pn
      | _ => Ok tt
      end;
  Ok {| pr_version := sp_version spec;
        pr_anchors := anchors;
        pr_edges := edges;
        pr_max_hold_ns := if sp_version spec =? HAPPENS_BEFORE_VERSION
                          then Some (default DEFAULT_MAX_HOLD_NS (sp_max_hold_ns spec)) else None |}.

End HappensBefore.
