(* ===== verification/HbCycle.v ===== *)
(** The cycle search of the happens-before programs.

    The depth-first search is shown to stop within its fuel and to decide
    acyclicity: it succeeds exactly when no event reaches itself along the
    edges, and the list it reports otherwise is a closed walk of edges. *)
From Stdlib Require Import ZArith Lia List.
From stdpp Require Import base gmap relations list.
From S2P Require Import Prelude BTree Time Schedule Text HappensBefore.
Import HappensBefore.

(** [x] happens before [y] by one edge. *)
Definition edge_rel (edges : list HappensBeforeEdge) (x y : text) : Prop :=
  exists e, e ∈ edges /\ ed_before e = x /\ ed_after e = y.
Definition acyclic (R : text -> text -> Prop) : Prop := forall x, ~ tc R x x.

(** A walk along a relation, and a walk back to where it started. *)
Fixpoint linked {A} (R : A -> A -> Prop) (c : list A) : Prop :=
  match c with
  | x :: (y :: _) as c' => R x y /\ linked R c'
  | _ => True
  end.
Definition closed_walk {A} (R : A -> A -> Prop) (c : list A) : Prop :=
  exists x mid, c = x :: mid ++ [x] /\ linked R c.

Section Walks.
Context {A : Type} (R : A -> A -> Prop).

Lemma linked_snoc c x y : linked R (c ++ [x]) -> R x y -> linked R ((c ++ [x]) ++ [y]).
Proof.
  induction c as [|a c IH]; simpl; [done|]. intros Hl Hxy. specialize (IH).
  destruct c as [|b c]; simpl in *; naive_solver.
Qed.
Lemma linked_drop n c : linked R c -> linked R (drop n c).
Proof.
  revert c. induction n as [|n IH]; intros [|a c]; simpl; [done..|].
  intros Hl. apply IH. destruct c; simpl in *; naive_solver.
Qed.
Lemma linked_tc x mid y : linked R (x :: mid ++ [y]) -> tc R x y.
Proof.
  revert x. induction mid as [|a mid IH]; simpl; intros x.
  - intros [? _]. by apply tc_once.
  - intros [Hxa Hl]. apply tc_l with a; [done|]. by apply IH.
Qed.
Lemma closed_walk_cyclic c : closed_walk R c -> exists x, tc R x x.
Proof. intros (x & mid & -> & Hl). exists x. by eapply linked_tc. Qed.
End Walks.

Section Dfs.
Context (adj : list (text * list text)) (Hadj : bt_ok adj).
Abbreviation marks := (list (text * Mark)).

Definition E (x y : text) : Prop := exists nb, bt_get x adj = Some nb /\ y ∈ nb.
Context (Hclosed : forall x y, E x y -> is_Some (bt_get y adj)).

Definition done (s : marks) (x : text) : Prop := bt_get x s = Some Done_.

(** A node whose first [i] neighbours were taken: all of them are finished,
    except that below the top of the stack the last one taken is the frame
    above. *)
Fixpoint waiting (s : marks) (child : text) (stack : list (text * nat)) : Prop :=
  match stack with
  | [] => True
  | (n, i) :: rest =>
      (exists nb j, bt_get n adj = Some nb /\ i = S j /\ nb !! j = Some child
                    /\ forall k y, (k < j)%nat -> nb !! k = Some y -> done s y)
      /\ waiting s n rest
  end.
Definition frames (s : marks) (stack : list (text * nat)) : Prop :=
  match stack with
  | [] => True
  | (n, i) :: rest =>
      (exists nb, bt_get n adj = Some nb /\ (i <= length nb)%nat
                  /\ forall k y, (k < i)%nat -> nb !! k = Some y -> done s y)
      /\ waiting s n rest
  end.

Record dfs_inv (s : marks) (stack : list (text * nat)) (path : list text) : Prop := {
  di_ok : bt_ok s;
  di_path : path = rev stack.*1;
  di_nodup : NoDup stack.*1;
  di_visiting : forall x, bt_get x s = Some Visiting <-> x ∈ stack.*1;
  di_nodes : forall x, is_Some (bt_get x s) -> is_Some (bt_get x adj);
  di_closed : forall x y, done s x -> E x y -> done s y;
  di_acyclic : forall x, done s x -> ~ tc E x x;
  di_frames : frames s stack;
}.

Lemma waiting_mono s s' c stack :
  (forall x, done s x -> done s' x) -> waiting s c stack -> waiting s' c stack.
Proof.
  intros Hm. revert c. induction stack as [|[n i] rest IH]; intros c; simpl; [done|].
  intros [(nb & j & ? & ? & ? & Hd) Hw]. split; [|auto].
  exists nb, j. split_and!; [done..|]. intros k y Hk Hy. by eapply Hm, Hd.
Qed.

Lemma waiting_linked s c stack : waiting s c stack -> linked E (rev stack.*1 ++ [c]).
Proof.
  revert c. induction stack as [|[n i] rest IH]; intros c; simpl; [done|].
  intros [(nb & j & Hn & _ & Hc & _) Hw]. apply linked_snoc; [by apply IH|].
  exists nb. split; [done|]. by eapply list_elem_of_lookup_2.
Qed.

Lemma done_closed_rtc s x y :
  (forall x y, done s x -> E x y -> done s y) -> rtc E x y -> done s x -> done s y.
Proof. intros Hc. induction 1; [done|]. eauto. Qed.

(** ** The measure: neighbours still to take *)

Definition weight (x : text) : nat := S (length (default [] (bt_get x adj))).
Definition pending (s : marks) : nat :=
  list_sum ((fun x => if bt_mem x s then O else weight x) <$> adj.*1).
Definition frame_weight (f : text * nat) : nat := (weight f.1 - f.2)%nat.
Definition measure (s : marks) (stack : list (text * nat)) : nat :=
  (pending s + list_sum (frame_weight <$> stack))%nat.

Lemma bt_mem_insert {V} (k x : text) (v : V) m :
  bt_ok m -> bt_mem x (bt_insert k v m) = bool_decide (x = k) || bt_mem x m.
Proof.
  intros Hm. unfold bt_mem. case_bool_decide as Hk; subst.
  - by rewrite bt_get_insert_eq.
  - by rewrite bt_get_insert_ne.
Qed.

Lemma list_sum_cons a l : list_sum (a :: l) = (a + list_sum l)%nat.
Proof. done. Qed.

Lemma pending_split (l : list text) s k :
  bt_ok s -> NoDup l -> bt_mem k s = false ->
  list_sum ((fun x => if bt_mem x s then O else weight x) <$> l)
  = (list_sum ((fun x => if bt_mem x (bt_insert k Visiting s) then O else weight x) <$> l)
     + if bool_decide (k ∈ l) then weight k else O)%nat.
Proof.
  intros Hs Hl Hk. induction Hl as [|x l Hx Hl IH]; [done|].
  rewrite !fmap_cons, !list_sum_cons, IH, bt_mem_insert by done.
  repeat case_bool_decide; simplify_eq/=; rewrite ?Hk; try set_solver; lia.
Qed.

Lemma pending_visit s k :
  bt_ok s -> bt_mem k s = false -> is_Some (bt_get k adj) ->
  pending s = (pending (bt_insert k Visiting s) + weight k)%nat.
Proof.
  intros Hs Hk Hin. unfold pending. rewrite (pending_split _ s k); [|done| |done].
  - rewrite bool_decide_true; [done|]. apply bt_mem_true; [done|].
    unfold bt_mem. by destruct Hin as [? ->].
  - by apply bt_ok_NoDup.
Qed.

Lemma pending_finish s n :
  bt_ok s -> bt_mem n s = true -> pending (bt_insert n Done_ s) = pending s.
Proof.
  intros Hs Hn. unfold pending. f_equal. apply list_fmap_ext. intros i x _.
  rewrite bt_mem_insert by done. case_bool_decide; subst; by rewrite ?Hn.
Qed.

(** ** One step *)

Lemma dfs_finish s n i rest path nb :
  dfs_inv s ((n, i) :: rest) path -> bt_get n adj = Some nb -> nb !! i = None ->
  dfs_inv (bt_insert n Done_ s) rest (removelast path).
Proof.
  intros [Hs Hp Hnd Hv Hn Hc Ha [(nb' & Hnb & Hi & Hd) Hw]] Hnb' Hlast. simplify_eq.
  apply lookup_ge_None in Hlast.
  assert (Hvn : bt_get n s = Some Visiting) by (apply Hv; set_solver).
  simpl in Hnd. apply NoDup_cons in Hnd as [Hnr Hnd].
  assert (Hall : forall y, E n y -> done s y).
  { intros y (nb2 & ? & Hy). simplify_eq. apply list_elem_of_lookup in Hy as [k Hk].
    eapply Hd; [|done]. apply lookup_lt_Some in Hk. lia. }
  assert (Hg : forall x, bt_get x (bt_insert n Done_ s) = if bool_decide (x = n) then Some Done_ else bt_get x s).
  { intros x. case_bool_decide; subst; by rewrite ?bt_get_insert_eq, ?bt_get_insert_ne. }
  assert (Hm : forall x, done s x -> done (bt_insert n Done_ s) x).
  { intros x Hx. unfold done. rewrite Hg. by case_bool_decide. }
  split.
  - by apply bt_insert_ok.
  - simpl. by rewrite removelast_last.
  - done.
  - intros x. rewrite Hg. case_bool_decide as Hx; subst; [by split|].
    rewrite Hv. set_solver.
  - intros x. rewrite Hg. case_bool_decide as Hx; subst; [by eexists|apply Hn].
  - intros x y. unfold done at 1. rewrite Hg. case_bool_decide as Hx; subst.
    + intros _ Hy. by apply Hm, Hall.
    + intros Hx' Hy. by eapply Hm, Hc.
  - intros x. unfold done. rewrite Hg. case_bool_decide as Hx; subst; [|apply Ha].
    intros _ Ht. assert (Hdn : done s n); [|unfold done in Hdn; congruence].
    inversion Ht as [? ? He|? y ? He Hr]; subst; [by apply Hall|].
    eapply done_closed_rtc; [apply Hc|by apply tc_rtc|by apply Hall].
  - destruct rest as [|[n2 i2] rest]; [done|]. simpl in Hw |- *.
    destruct Hw as [(nb2 & j & Hn2 & -> & Hj & Hd2) Hw]. split; [|by eapply waiting_mono].
    exists nb2. split_and!; [done|by apply lookup_lt_Some in Hj|].
    intros k y Hk Hy. destruct (decide (k = j)) as [->|].
    + simplify_eq. unfold done. by rewrite Hg, bool_decide_true.
    + eapply Hm, Hd2; [|done]. lia.
Qed.

Lemma dfs_take_done s n i rest path nb next :
  dfs_inv s ((n, i) :: rest) path -> bt_get n adj = Some nb -> nb !! i = Some next ->
  done s next -> dfs_inv s ((n, S i) :: rest) path.
Proof.
  intros [Hs Hp Hnd Hv Hn Hc Ha [(nb' & Hnb & Hi & Hd) Hw]] Hnb' Hnext Hdn. rewrite Hnb in Hnb'. injection Hnb' as ->.
  split; [done..|]. simpl. split; [|done]. exists nb. apply lookup_lt_Some in Hnext as Hlt.
  split_and!; [done|lia|]. intros k y Hk Hy. destruct (decide (k = i)) as [->|].
  - by simplify_eq.
  - eapply Hd; [|done]. lia.
Qed.

Lemma dfs_push s n i rest path nb next :
  dfs_inv s ((n, i) :: rest) path -> bt_get n adj = Some nb -> nb !! i = Some next ->
  bt_get next s = None ->
  dfs_inv (bt_insert next Visiting s) ((next, O) :: (n, S i) :: rest) (path ++ [next]).
Proof.
  intros [Hs Hp Hnd Hv Hn Hc Ha [(nb' & Hnb & Hi & Hd) Hw]] Hnb' Hnext Hdn. rewrite Hnb in Hnb'. injection Hnb' as ->.
  assert (Hnew : is_Some (bt_get next adj)).
  { apply (Hclosed n). exists nb. split; [done|]. by eapply list_elem_of_lookup_2. }
  assert (Hg : forall x, bt_get x (bt_insert next Visiting s)
                         = if bool_decide (x = next) then Some Visiting else bt_get x s).
  { intros x. case_bool_decide; subst; by rewrite ?bt_get_insert_eq, ?bt_get_insert_ne. }
  assert (Hm : forall x, done (bt_insert next Visiting s) x <-> done s x).
  { intros x. unfold done. rewrite Hg. case_bool_decide; subst; [|done]. by rewrite Hdn. }
  assert (Hnin : next ∉ n :: rest.*1) by (rewrite <- (Hv next); congruence).
  split.
  - by apply bt_insert_ok.
  - by rewrite Hp.
  - simpl. by constructor.
  - intros x. rewrite Hg. case_bool_decide as Hx; subst; [by split; [set_solver|]|].
    rewrite Hv. set_solver.
  - intros x. rewrite Hg. case_bool_decide as Hx; subst; [done|apply Hn].
  - intros x y. rewrite !Hm. apply Hc.
  - intros x. rewrite Hm. apply Ha.
  - destruct Hnew as [nb2 Hnew]. simpl. split; [exists nb2; split_and!; [done|lia|intros; lia]|].
    split; [|eapply waiting_mono; [intros x; apply Hm|done]].
    exists nb, i. split_and!; [done..|]. intros k y Hk Hy. apply Hm. by eapply Hd.
Qed.

Lemma position_elem x l : x ∈ l -> exists i, position x l = Some i /\ l !! i = Some x.
Proof.
  induction l as [|y l IH]; [intros Hx; inversion Hx|]. simpl. case_bool_decide as Hy.
  - subst. by exists O.
  - intros [|Hin]%elem_of_cons; [congruence|]. destruct (IH Hin) as (i & -> & Hi). by exists (S i).
Qed.

Lemma dfs_back_edge s n i rest path nb next :
  dfs_inv s ((n, i) :: rest) path -> bt_get n adj = Some nb -> nb !! i = Some next ->
  bt_get next s = Some Visiting ->
  closed_walk E (drop (default O (position next path)) path ++ [next]).
Proof.
  intros [Hs Hp Hnd Hv Hn Hc Ha [_ Hw]] Hnb Hnext Hvis.
  assert (Hin : next ∈ path) by (rewrite Hp, rev_alt; apply elem_of_reverse, Hv; done).
  destruct (position_elem next path Hin) as (k & -> & Hk). simpl.
  assert (Hpath : path = rev rest.*1 ++ [n]) by done.
  assert (Hl : linked E (path ++ [next])).
  { rewrite Hpath. apply linked_snoc; [by eapply waiting_linked|].
    exists nb. split; [done|]. by eapply list_elem_of_lookup_2. }
  rewrite (drop_S path next k Hk). exists next, (drop (S k) path). split; [done|].
  apply (linked_drop _ k) in Hl. rewrite drop_app_le in Hl by (apply lookup_lt_Some in Hk; lia).
  by rewrite (drop_S path next k Hk) in Hl.
Qed.

(** ** The loop *)

Definition visit_post (s : marks) (r : hb_result marks) : Prop :=
  (exists s', r = Ok s' /\ dfs_inv s' [] [] /\ forall x, is_Some (bt_get x s) -> is_Some (bt_get x s'))
  \/ (exists c, r = Err (Cycle c) /\ closed_walk E c).

Lemma visit_post_mono s s1 r :
  (forall x, is_Some (bt_get x s) -> is_Some (bt_get x s1)) -> visit_post s1 r -> visit_post s r.
Proof.
  intros Hm [(s' & -> & Hi & Hs)|Hc]; [left|by right]. exists s'. split_and!; [done..|]. auto.
Qed.

Lemma bt_insert_is_Some {V} (k x : text) (v : V) m :
  bt_ok m -> is_Some (bt_get x m) -> is_Some (bt_get x (bt_insert k v m)).
Proof.
  intros Hm Hx. destruct (decide (k = x)) as [->|].
  - by rewrite bt_get_insert_eq.
  - by rewrite bt_get_insert_ne.
Qed.

Lemma visit_spec fuel s stack path :
  dfs_inv s stack path -> (measure s stack < fuel)%nat ->
  visit_post s (visit adj fuel s stack path).
Proof.
  revert s stack path. induction fuel as [|fuel IH]; intros s stack path Hi Hm; [lia|]. simpl.
  destruct stack as [|[n i] rest].
  { left. exists s. rewrite (di_path _ _ _ Hi) in Hi. done. }
  pose proof (di_frames _ _ _ Hi) as [(nb & Hnb & Hle & _) _]. rewrite Hnb. simpl.
  assert (Hw : weight n = S (length nb)) by (unfold weight; by rewrite Hnb).
  assert (Hf : frame_weight (n, i) = S (length nb - i)) by (unfold frame_weight; cbn [fst snd]; lia).
  unfold measure in Hm. rewrite fmap_cons, list_sum_cons, Hf in Hm.
  pose proof (di_ok _ _ _ Hi) as Hs.
  destruct (nb !! i) as [next|] eqn:Hnext.
  - apply lookup_lt_Some in Hnext as Hlt.
    assert (Hf' : frame_weight (n, S i) = (length nb - i)%nat) by (unfold frame_weight; cbn [fst snd]; lia).
    destruct (bt_get next s) as [[]|] eqn:Hst.
    + right. eexists. split; [done|]. by eapply dfs_back_edge.
    + apply IH; [by eapply dfs_take_done|].
      unfold measure. rewrite fmap_cons, list_sum_cons, Hf'. lia.
    + eapply visit_post_mono; [intros x; by apply bt_insert_is_Some|].
      apply IH; [by eapply dfs_push|]. unfold measure.
      assert (Hn : is_Some (bt_get next adj)).
      { apply (Hclosed n). exists nb. split; [done|]. by eapply list_elem_of_lookup_2. }
      rewrite !fmap_cons, !list_sum_cons, Hf'.
      rewrite (pending_visit s next) in Hm; [|done|unfold bt_mem; by rewrite Hst|done].
      unfold frame_weight at 1. cbn [fst snd]. lia.
  - eapply visit_post_mono; [intros x; by apply bt_insert_is_Some|].
    apply IH; [by eapply dfs_finish|]. unfold measure. rewrite pending_finish; [lia|done|].
    unfold bt_mem. by rewrite (proj2 (di_visiting _ _ _ Hi n) ltac:(set_solver)).
Qed.

Lemma pending_le s : (pending s <= list_sum (weight <$> adj.*1))%nat.
Proof.
  unfold pending. induction (adj.*1) as [|x l IH]; [done|].
  rewrite !fmap_cons, !list_sum_cons. destruct (bt_mem x s); lia.
Qed.

Lemma dfs_root s r :
  dfs_inv s [] [] -> bt_get r s = None -> is_Some (bt_get r adj) ->
  dfs_inv (bt_insert r Visiting s) [(r, O)] [r].
Proof.
  intros [Hs _ _ Hv Hn Hc Ha _] Hr Hadjr.
  assert (Hg : forall x, bt_get x (bt_insert r Visiting s)
                         = if bool_decide (x = r) then Some Visiting else bt_get x s).
  { intros x. case_bool_decide; subst; by rewrite ?bt_get_insert_eq, ?bt_get_insert_ne. }
  assert (Hm : forall x, done (bt_insert r Visiting s) x <-> done s x).
  { intros x. unfold done. rewrite Hg. case_bool_decide; subst; [|done]. by rewrite Hr. }
  split.
  - by apply bt_insert_ok.
  - done.
  - apply NoDup_singleton.
  - intros x. rewrite Hg. simpl. case_bool_decide as Hx; subst; [by split; [set_solver|]|].
    rewrite Hv. set_solver.
  - intros x. rewrite Hg. case_bool_decide as Hx; subst; [done|apply Hn].
  - intros x y. rewrite !Hm. apply Hc.
  - intros x. rewrite Hm. apply Ha.
  - destruct Hadjr as [nb Hnb]. simpl. split; [|done]. exists nb. split_and!; [done|lia|intros; lia].
Qed.

Lemma visit_roots_spec fuel roots s :
  (list_sum (weight <$> adj.*1) < fuel)%nat -> roots ⊆ adj.*1 -> dfs_inv s [] [] ->
  (forall x, x ∈ adj.*1 -> x ∈ roots \/ is_Some (bt_get x s)) ->
  (visit_roots adj fuel roots s = Ok tt /\ forall x, ~ tc E x x)
  \/ (exists c, visit_roots adj fuel roots s = Err (Cycle c) /\ closed_walk E c).
Proof.
  intros Hfuel. revert s. induction roots as [|r roots IH]; intros s Hsub Hi Hall; simpl.
  - left. split; [done|]. intros x Hx.
    assert (Hk : x ∈ adj.*1).
    { inversion Hx as [? ? (nb & Hnb & _)|? ? ? (nb & Hnb & _) _]; subst;
        apply bt_mem_true; [done| |done|]; unfold bt_mem; by rewrite Hnb. }
    destruct (Hall x Hk) as [Hin|[[] Hm]]; [inversion Hin| |by eapply (di_acyclic _ _ _ Hi)].
    apply (di_visiting _ _ _ Hi) in Hm. inversion Hm.
  - destruct (bt_mem r s) eqn:Hr; unfold bt_mem in Hr; destruct (bt_get r s) eqn:Hg; try done.
    { apply IH; [set_solver|done|]. intros x Hx. destruct (Hall x Hx) as [[->|]%elem_of_cons|]; eauto. }
    assert (Hra : is_Some (bt_get r adj)).
    { pose proof (proj2 (bt_mem_true adj r Hadj) (Hsub r ltac:(set_solver))) as Hb.
      unfold bt_mem in Hb. destruct (bt_get r adj); [by eexists|done]. }
    destruct (visit_spec fuel (bt_insert r Visiting s) [(r, O)] [r]) as [(s' & -> & Hi' & Hs')|(c & -> & Hc)].
    + by apply dfs_root.
    + pose proof (pending_le s) as Hp.
      rewrite (pending_visit s r) in Hp; [|by apply Hi|unfold bt_mem; by rewrite Hg|done].
      unfold measure. rewrite fmap_cons, list_sum_cons. unfold frame_weight.
      cbn [fst snd fmap list_fmap list_sum foldr]. lia.
    + simpl. apply IH; [set_solver|done|]. intros x Hx.
      destruct (Hall x Hx) as [[->|]%elem_of_cons|]; [right|by left|right]; apply Hs'.
      * rewrite bt_get_insert_eq by apply Hi. by eexists.
      * apply bt_insert_is_Some; [apply Hi|done].
    + right. by exists c.
Qed.

End Dfs.

(** * The adjacency table *)

Definition lens (m : list (text * list text)) : nat := list_sum (length <$> m.*2).

Lemma lens_insert m k v :
  bt_ok m -> (lens (bt_insert k v m) + length (default [] (bt_get k m)) = lens m + length v)%nat.
Proof.
  unfold lens. induction m as [|[k' v'] m IH]; intros Hm; cbn [bt_insert bt_get].
  - simpl. lia.
  - apply bt_ok_cons in Hm as [Hm _]. specialize (IH Hm). destruct (kcmp k k');
      rewrite ?fmap_cons, ?list_sum_cons; cbn [fst snd default] in *; simpl length; lia.
Qed.

Lemma weight_sum adj : bt_ok adj -> list_sum (weight adj <$> adj.*1) = (length adj + lens adj)%nat.
Proof.
  intros Hok. unfold lens.
  assert (H : forall l, (forall kv, kv ∈ l -> kv ∈ adj) ->
            list_sum (weight adj <$> l.*1) = (length l + list_sum (length <$> l.*2))%nat).
  { induction l as [|[k v] l IH]; intros Hsub; [done|].
    rewrite !fmap_cons, !list_sum_cons, IH by set_solver.
    assert (Hg : bt_get k adj = Some v) by (apply bt_get_elem; [done|set_solver]).
    unfold weight. cbn [fst snd]. rewrite Hg. simpl. lia. }
  by apply H.
Qed.

Lemma adj_push_ok adj e : bt_ok adj -> bt_ok (adj_push adj e).
Proof. apply bt_insert_ok. Qed.
Lemma adj_push_get adj e x :
  bt_ok adj ->
  bt_get x (adj_push adj e)
  = if bool_decide (x = ed_before e) then Some (default [] (bt_get x adj) ++ [ed_after e])
    else bt_get x adj.
Proof.
  intros Hm. unfold adj_push. case_bool_decide; subst.
  - by rewrite bt_get_insert_eq.
  - by rewrite bt_get_insert_ne.
Qed.

Lemma E_push adj e x y :
  bt_ok adj -> E (adj_push adj e) x y <-> (ed_before e = x /\ ed_after e = y) \/ E adj x y.
Proof.
  intros Hm. unfold E. setoid_rewrite adj_push_get; [|done]. case_bool_decide as Hx; subst.
  - split.
    + intros (nb' & [= <-] & Hy). apply elem_of_app in Hy as [Hy|Hy%list_elem_of_singleton]; [|naive_solver].
      right. destruct (bt_get (ed_before e) adj) as [nb|]; simpl in Hy; [eauto|inversion Hy].
    + intros [[_ <-]|(nb & -> & Hy)]; eexists; (split; [done|]); simpl; set_solver.
  - naive_solver.
Qed.

Lemma adj_fold edges adj :
  bt_ok adj ->
  let adj' := foldl adj_push adj edges in
  bt_ok adj' /\ lens adj' = (lens adj + length edges)%nat
  /\ (forall x y, E adj' x y <-> edge_rel edges x y \/ E adj x y)
  /\ (forall x, is_Some (bt_get x adj) -> is_Some (bt_get x adj')).
Proof.
  revert adj. induction edges as [|e edges IH]; intros adj Hm; simpl.
  { split_and!; [done|lia| |done]. intros x y. split; [auto|].
    intros [(e & He & _)|]; [inversion He|done]. }
  destruct (IH (adj_push adj e) (adj_push_ok _ _ Hm)) as (Hok & Hlen & HE & Hk).
  split_and!; [done| | |].
  - rewrite Hlen. pose proof (lens_insert adj (ed_before e)
      (default [] (bt_get (ed_before e) adj) ++ [ed_after e]) Hm) as Hl.
    rewrite length_app in Hl. simpl in Hl. unfold adj_push. lia.
  - intros x y. rewrite HE, E_push by done. unfold edge_rel. set_solver.
  - intros x Hx. apply Hk. rewrite adj_push_get by done. by case_bool_decide.
Qed.

Definition no_edges (names : list text) (adj : list (text * list text)) : list (text * list text) :=
  foldl (fun adj name => bt_insert name (default [] (bt_get name adj)) adj) adj names.

Lemma no_edges_spec names adj :
  bt_ok adj -> (forall x y, ~ E adj x y) -> lens adj = O ->
  bt_ok (no_edges names adj) /\ (forall x y, ~ E (no_edges names adj) x y)
  /\ lens (no_edges names adj) = O
  /\ (forall x, x ∈ names \/ is_Some (bt_get x adj) -> is_Some (bt_get x (no_edges names adj))).
Proof.
  revert adj. induction names as [|n names IH]; intros adj Hm HE Hl; simpl.
  { split_and!; [done..|]. intros x [Hx|]; [inversion Hx|done]. }
  set (adj1 := bt_insert n _ adj).
  assert (Hg : forall x, bt_get x adj1 = if bool_decide (x = n) then Some (default [] (bt_get n adj)) else bt_get x adj).
  { intros x. unfold adj1. case_bool_decide; subst; by rewrite ?bt_get_insert_eq, ?bt_get_insert_ne. }
  destruct (IH adj1) as (? & ? & ? & Hk).
  - by apply bt_insert_ok.
  - intros x y (nb & Hnb & Hy). rewrite Hg in Hnb. case_bool_decide; subst.
    + apply (HE n y). exists nb. destruct (bt_get n adj); simplify_eq/=; [done|inversion Hy].
    + apply (HE x y). by exists nb.
  - pose proof (lens_insert adj n (default [] (bt_get n adj)) Hm) as Hi. fold adj1 in Hi. lia.
  - split_and!; [done..|]. intros x Hx. apply Hk. rewrite Hg. case_bool_decide; subst.
    + right. by eexists.
    + destruct Hx as [[|]%elem_of_cons|]; [done|by left|by right].
Qed.

Lemma adj_of_spec anchors edges :
  let adj := adj_of anchors edges in
  bt_ok adj /\ lens adj = length edges
  /\ (forall x y, E adj x y <-> edge_rel edges x y)
  /\ (forall x, x ∈ anchors.*1 -> is_Some (bt_get x adj)).
Proof.
  destruct (no_edges_spec anchors.*1 []) as (Hok & HE & Hl & Hk); [apply bt_ok_nil| |done|].
  { intros x y (nb & ? & _). done. }
  destruct (adj_fold edges _ Hok) as (Hok' & Hl' & HE' & Hk'). unfold adj_of.
  change (foldl _ [] anchors.*1) with (no_edges anchors.*1 []).
  split_and!; [done|by rewrite Hl', Hl| |].
  - intros x y. rewrite HE'. specialize (HE x y). naive_solver.
  - intros x Hx. apply Hk', Hk. by left.
Qed.

(** * The search decides acyclicity *)

Definition edges_within (anchors : list (text * Anchor)) (edges : list HappensBeforeEdge) : Prop :=
  Forall (fun e => ed_before e ∈ anchors.*1 /\ ed_after e ∈ anchors.*1) edges.

Lemma linked_ext {A} (R1 R2 : A -> A -> Prop) c :
  (forall x y, R1 x y <-> R2 x y) -> linked R1 c -> linked R2 c.
Proof.
  intros HR. induction c as [|x [|y c] IH]; simpl; [done..|]. rewrite HR. simpl in IH. tauto.
Qed.

Lemma detect_cycle_cases anchors edges :
  edges_within anchors edges ->
  (detect_cycle anchors edges = Ok tt /\ acyclic (edge_rel edges))
  \/ (exists c, detect_cycle anchors edges = Err (Cycle c) /\ closed_walk (edge_rel edges) c).
Proof.
  intros Hin. destruct (adj_of_spec anchors edges) as (Hok & Hl & HE & Hk).
  unfold detect_cycle. set (adj := adj_of anchors edges) in *.
  destruct (visit_roots_spec adj Hok) with (fuel := S (length adj + length edges)) (roots := adj.*1)
    (s := @nil (text * Mark)) as [[-> Ha]|(c & -> & x & mid & -> & Hc)].
  - intros x y (e & He & _ & <-)%HE. apply Hk. by apply (proj1 (Forall_forall _ _) Hin).
  - rewrite weight_sum, Hl by done. lia.
  - done.
  - split; [apply bt_ok_nil|done|apply NoDup_nil_2| | |done..]; intros x.
    + split; [done|intros Hx; inversion Hx].
    + intros [? ?]. done.
  - auto.
  - left. split; [done|]. intros x Hx. apply (Ha x).
    apply (tc_congruence (R:=edge_rel edges) id (E adj)); [|done]. by intros ? ? ?%HE.
  - right. eexists. split; [done|]. exists x, mid. split; [done|]. by eapply linked_ext.
Qed.

Lemma closed_walk_not_acyclic edges c : closed_walk (edge_rel edges) c -> ~ acyclic (edge_rel edges).
Proof. intros [x Hx]%closed_walk_cyclic Ha. by apply (Ha x). Qed.

(** C19: the cycle search of a happens-before specification always returns, and
    accepts an edge list between known events exactly when no event reaches
    itself along the edges; what it reports otherwise is a closed walk: the
    first and last names agree and every two neighbours are joined by an edge. *)
Theorem detect_cycle_decides anchors edges :
  edges_within anchors edges ->
  (detect_cycle anchors edges = Ok tt <-> acyclic (edge_rel edges))
  /\ (detect_cycle anchors edges = Ok tt
      \/ exists c, detect_cycle anchors edges = Err (Cycle c) /\ closed_walk (edge_rel edges) c).
Proof.
  intros Hin. destruct (detect_cycle_cases anchors edges Hin) as [[-> Ha]|(c & -> & Hc)].
  - split; [done|by left].
  - split; [|right; eauto]. split; [done|]. intros Ha. by eapply closed_walk_not_acyclic in Hc.
Qed.
