(* ===== verification/HbNormalize.v ===== *)
(** What a happens-before specification must satisfy to be accepted.

    [valid_spec] states the rules of the format on the declarative events and
    edges themselves; [normalize] is shown to accept exactly the specifications
    that satisfy them, never to panic, and to return a program with the
    invariant [program_ok] the run-time gates rely on. *)
From Stdlib Require Import String ZArith Lia List.
From stdpp Require Import base gmap relations list.
From S2P Require Import Prelude BTree Time Schedule Text HappensBefore HbCycle.
Import HappensBefore.
Open Scope Z_scope.

Lemma elem_of_List_filter {A} (f : A -> bool) l x : x ∈ List.filter f l <-> f x = true /\ x ∈ l.
Proof. rewrite !list_elem_of_In, filter_In. tauto. Qed.

Section Valid.
Context `{SysnoTable}.

(** ** One event *)

Record event_valid (spec : HappensBeforeSpec) (ev : EventSpec) : Prop := {
  evv_thread : is_Some (bt_get (ev_thread ev) (sp_threads spec)) \/ is_Some (parse_i32 (ev_thread ev));
  evv_one : length (selectors_found ev) = 1%nat
            \/ selectors_found ev = [] /\ location_is_empty (event_location ev) = false;
  evv_syscall : forall sc, ev_syscall ev = Some sc ->
    exists n, sysno_from_str sc = Some n
      /\ (ev_phase ev = Some PhPosthook -> syscall_never_returns_on_success n = false);
  evv_fd : is_Some (ev_fd ev) ->
    exists sc, ev_syscall ev = Some sc
      /\ forall n, sysno_from_str sc = Some n -> syscall_takes_fd_first n = true;
  evv_futex : forall v, ev_futex_op ev = Some v ->
    i32_min <= v <= i32_max
    /\ exists sc, ev_syscall ev = Some sc
         /\ forall n, sysno_from_str sc = Some n -> n = sysno_variant (lit "futex");
  evv_nth : ev_nth ev = Some 0 -> is_Some (ev_syscalls ev) \/ is_Some (ev_rcbs ev);
  evv_rip : forall r, ev_rip ev = Some r -> is_Some (parse_rip r);
}.

Definition ev_occurrence (ev : EventSpec) : Prop :=
  is_Some (ev_syscall ev) /\ ev_phase ev <> Some PhPolling.

(** The occurrence number of a position that counts occurrences. *)
Definition position_nth (p : Position) : option Z :=
  match p with Syscall _ _ n _ _ | Rip _ n | Marker _ n => Some n | _ => None end.

Record anchor_of (spec : HappensBeforeSpec) (name : text) (ev : EventSpec) (a : Anchor) : Prop := {
  ao_name : an_name a = name;
  ao_from : an_from a = ev_from ev;
  ao_thread : resolve_thread spec name (ev_thread ev) = Ok (an_thread a);
  ao_occurrence : is_syscall_occurrence a = true <-> ev_occurrence ev;
  ao_count : is_syscall_count a = true <-> is_Some (ev_syscalls ev);
  ao_nth : forall n, position_nth (an_position a) = Some n -> ev_nth ev <> Some 0 /\ n = default 1 (ev_nth ev);
}.

Lemma is_Some_b_spec {A} (o : option A) : is_Some_b o = true <-> is_Some o.
Proof. by destruct o. Qed.
Lemma is_Some_b_false {A} (o : option A) : is_Some_b o = false <-> o = None.
Proof. by destruct o. Qed.

Lemma resolve_thread_cases spec name ev :
  (exists r, resolve_thread spec name (ev_thread ev) = Ok r)
  \/ ~ event_valid spec ev /\ exists e, resolve_thread spec name (ev_thread ev) = Err e.
Proof.
  unfold resolve_thread. destruct (bt_get _ _) eqn:E1; [eauto|].
  destruct (parse_i32 _) eqn:E2; [eauto|]. right. split; [|eauto].
  intros [[[? Hx]|[? Hx]] _ _ _ _ _ _]; congruence.
Qed.

(** What an accepted syscall event names. *)
Definition syscall_facts (ev : EventSpec) (n : Sysno) : Prop :=
  (ev_phase ev = Some PhPosthook -> syscall_never_returns_on_success n = false)
  /\ (is_Some (ev_fd ev) -> syscall_takes_fd_first n = true)
  /\ (forall v, ev_futex_op ev = Some v -> i32_min <= v <= i32_max /\ n = sysno_variant (lit "futex")).

Lemma syscall_position_Ok spec name ev sc nth n :
  event_valid spec ev -> ev_syscall ev = Some sc -> sysno_from_str sc = Some n ->
  syscall_position name ev sc nth
  = Ok (Syscall n (phase_into <$> ev_phase ev) nth (ev_fd ev) (ev_futex_op ev)).
Proof.
  intros Hv Hsc Hn. unfold syscall_position. rewrite Hn. simpl.
  assert (Hfd : is_Some_b (ev_fd ev) && negb (syscall_takes_fd_first n) = false).
  { destruct (is_Some_b (ev_fd ev)) eqn:E; [|done]. apply is_Some_b_spec in E.
    destruct (evv_fd _ _ Hv E) as (sc' & ? & Hf). simplify_eq. by rewrite (Hf n Hn). }
  rewrite Hfd. simpl.
  assert (Hp : bool_decide (ev_phase ev = Some PhPosthook) && syscall_never_returns_on_success n = false).
  { case_bool_decide as E; [|done]. destruct (evv_syscall _ _ Hv sc Hsc) as (? & ? & Hr).
    simplify_eq. by rewrite (Hr E). }
  rewrite Hp. destruct (ev_futex_op ev) as [v|] eqn:Eo; simpl; [|done].
  destruct (evv_futex _ _ Hv v Eo) as (Hr & sc' & ? & Hf). simplify_eq.
  rewrite (Hf n Hn), Z.eqb_refl. simpl.
  by rewrite (proj2 (Z.leb_le i32_min v)), (proj2 (Z.leb_le v i32_max)) by lia.
Qed.

Lemma syscall_position_inv name ev sc nth r :
  syscall_position name ev sc nth = r ->
  (exists e, r = Err e)
  \/ exists n op, r = Ok (Syscall n (phase_into <$> ev_phase ev) nth (ev_fd ev) op)
       /\ sysno_from_str sc = Some n /\ syscall_facts ev n.
Proof.
  intros <-. unfold syscall_position, syscall_facts.
  destruct (sysno_from_str sc) as [n|]; simpl; [|eauto].
  destruct (is_Some_b (ev_fd ev)) eqn:Ef; [apply is_Some_b_spec in Ef|apply is_Some_b_false in Ef];
  destruct (syscall_takes_fd_first n) eqn:?; simpl; try (left; by eauto);
  (destruct (ev_futex_op ev) as [v|]; simpl;
   [destruct (Z.eqb_spec n (sysno_variant (lit "futex"))); simpl; [|by eauto];
    destruct (Z.leb_spec i32_min v), (Z.leb_spec v i32_max); simpl; try (left; by eauto)|]);
  (case_bool_decide; destruct (syscall_never_returns_on_success n) eqn:?; simpl; [left; by eauto|..]);
  right; eexists _, _; (split; [done|]); (split; [done|]);
  (split_and!; [intros; congruence|intros [? ?]; congruence|intros v' Hv'; by simplify_eq]).
Qed.

Context (bp : profile).

(** The selectors an accepted event can set. *)
Lemma evv_selectors spec ev :
  event_valid spec ev ->
  (length (selectors_found ev) <=? 1)%nat = true
  /\ (length (selectors_found ev) =? 0)%nat && location_is_empty (event_location ev) = false.
Proof.
  intros Hv. destruct (evv_one _ _ Hv) as [->|[-> ->]]; [done|]. split; [done|]. by rewrite andb_false_r.
Qed.

Lemma occurrence_phase a sysno ph nth fd op :
  an_position a = Syscall sysno (phase_into <$> ph) nth fd op ->
  is_syscall_occurrence a = true <-> ph <> Some PhPolling.
Proof.
  unfold is_syscall_occurrence. intros ->. by destruct ph as [[]|]; simpl.
Qed.

Lemma event_position_Ok spec name ev :
  event_valid spec ev ->
  exists p, event_position bp name ev = Ok p
    /\ forall a, an_position a = p ->
      (is_syscall_occurrence a = true <-> ev_occurrence ev)
      /\ (is_syscall_count a = true <-> is_Some (ev_syscalls ev))
      /\ (forall n, position_nth (an_position a) = Some n ->
                    ev_nth ev <> Some 0 /\ n = default 1 (ev_nth ev)).
Proof.
  intros Hv. destruct (evv_selectors _ _ Hv) as [H1 H0].
  pose proof (evv_nth _ _ Hv) as Hnth. pose proof (evv_rip _ _ Hv) as Hrip.
  pose proof (evv_syscall _ _ Hv) as Hsys. unfold ev_occurrence, is_syscall_count.
  unfold event_position, selectors_found in *.
  destruct (ev_syscalls ev) as [n|]; destruct (ev_rcbs ev) as [m|];
    destruct (ev_syscall ev) as [sc|] eqn:Esc; destruct (ev_rip ev) as [r|];
    destruct (ev_mark ev) as [mk|]; simpl in H1, H0; try done; simpl.
  all: try (eexists; split; [reflexivity|]; intros a Ha; unfold is_syscall_occurrence; rewrite Ha;
            simpl; split_and!; naive_solver).
  - destruct (Hsys sc eq_refl) as (n & Hn & _).
    rewrite (syscall_position_Ok spec name ev sc _ n Hv Esc Hn). eexists. split; [done|].
    intros a Ha. rewrite (occurrence_phase a _ _ _ _ _ Ha), Ha. simpl. naive_solver.
  - destruct (Hrip r eq_refl) as [addr Haddr]. rewrite Haddr. simpl. eexists. split; [done|].
    intros a Ha; unfold is_syscall_occurrence; rewrite Ha; simpl; split_and!; naive_solver.
  - unfold debug_assert_. rewrite H0. simpl. destruct (debug_assertions bp); simpl;
      (eexists; split; [done|]; intros a Ha; unfold is_syscall_occurrence; rewrite Ha;
       simpl; split_and!; naive_solver).
Qed.

Lemma normalize_event_Ok spec name ev :
  event_valid spec ev -> exists a, normalize_event bp spec name ev = Ok a /\ anchor_of spec name ev a.
Proof.
  intros Hv. destruct (evv_selectors _ _ Hv) as [H1 H0].
  destruct (event_position_Ok spec name ev Hv) as (p & Hp & Hfacts).
  unfold normalize_event. destruct (resolve_thread_cases spec name ev) as [[r Hr]|[Hc _]]; [|done].
  rewrite Hr. simpl. rewrite H1, negb_involutive, H0. simpl.
  assert (Hfd : is_Some_b (ev_fd ev) && negb (is_Some_b (ev_syscall ev)) = false).
  { destruct (is_Some_b (ev_fd ev)) eqn:E; [|done]. apply is_Some_b_spec in E.
    by destruct (evv_fd _ _ Hv E) as (sc & -> & _). }
  assert (Hfx : is_Some_b (ev_futex_op ev) && negb (is_Some_b (ev_syscall ev)) = false).
  { destruct (ev_futex_op ev) as [v|] eqn:E; [|done].
    by destruct (evv_futex _ _ Hv v E) as (_ & sc & -> & _). }
  assert (Hz : bool_decide (ev_nth ev = Some 0) && negb (is_Some_b (ev_syscalls ev))
               && negb (is_Some_b (ev_rcbs ev)) = false).
  { case_bool_decide as E; [|done]. simpl. destruct (evv_nth _ _ Hv E) as [[? ->]|[? ->]]; [done|].
    by rewrite andb_false_r. }
  rewrite Hfd, Hfx, Hz, Hp. simpl. eexists. split; [done|].
  destruct (Hfacts {| an_name := name; an_thread := r; an_position := p;
                      an_location := event_location ev; an_from := ev_from ev |} eq_refl) as (? & ? & ?).
  by split.
Qed.

(** The position step past the guards: it fails, or the syscall and address it
    reads are good. *)
Lemma event_position_inv name ev :
  (length (selectors_found ev) <=? 1)%nat = true ->
  (length (selectors_found ev) =? 0)%nat && location_is_empty (event_location ev) = false ->
  (exists e, event_position bp name ev = Err e)
  \/ (exists p, event_position bp name ev = Ok p)
     /\ (forall sc, ev_syscall ev = Some sc -> exists n, sysno_from_str sc = Some n /\ syscall_facts ev n)
     /\ (forall r, ev_rip ev = Some r -> is_Some (parse_rip r)).
Proof.
  intros H1 H0. unfold event_position, selectors_found in *.
  destruct (ev_syscalls ev) as [n|]; destruct (ev_rcbs ev) as [m|];
    destruct (ev_syscall ev) as [sc|] eqn:Esc; destruct (ev_rip ev) as [r|];
    destruct (ev_mark ev) as [mk|]; simpl in H1, H0; try done; simpl.
  all: try (right; split_and!; [by eexists|done|done]).
  - destruct (syscall_position_inv name ev sc (default 1 (ev_nth ev)) _ eq_refl)
      as [[e He]|(n & op & He & Hn & Hf)]; [left; by exists e|right].
    split_and!; [by eexists| |done]. intros sc' [= <-]. eauto.
  - destruct (parse_rip r) as [addr|] eqn:Er; simpl; [right|left; by eexists].
    split_and!; [by eexists|done|]. intros r' [= <-]. by eexists.
  - right. unfold debug_assert_. rewrite H0. simpl.
    split_and!; [destruct (debug_assertions bp); simpl; by eexists|done|done].
Qed.

Lemma normalize_event_inv spec name ev :
  (exists e, normalize_event bp spec name ev = Err e)
  \/ (exists a, normalize_event bp spec name ev = Ok a) /\ event_valid spec ev.
Proof.
  unfold normalize_event.
  assert (Ht : (exists e, resolve_thread spec name (ev_thread ev) = Err e)
    \/ exists r, resolve_thread spec name (ev_thread ev) = Ok r
         /\ (is_Some (bt_get (ev_thread ev) (sp_threads spec)) \/ is_Some (parse_i32 (ev_thread ev)))).
  { unfold resolve_thread. destruct (bt_get _ _); [eauto|]. destruct (parse_i32 _); eauto. }
  destruct Ht as [[e ->]|(r & -> & Hthread)]; simpl; [by eauto|].
  destruct (_ <=? 1)%nat eqn:H1; simpl; [|by eauto]. rewrite negb_involutive.
  destruct (_ && location_is_empty _) eqn:H0; simpl; [by eauto|].
  destruct (is_Some_b (ev_fd ev) && _) eqn:Hfd; simpl; [by eauto|].
  destruct (is_Some_b (ev_futex_op ev) && _) eqn:Hfx; simpl; [by eauto|].
  destruct (bool_decide (ev_nth ev = Some 0) && _ && _) eqn:Hz; simpl; [by eauto|].
  destruct (event_position_inv name ev H1 H0) as [[e ->]|([p ->] & Hsys & Hrip)]; simpl; [by eauto|].
  right. split; [by eexists|]. split; [done| | | | | |done].
  - apply Nat.leb_le in H1. destruct (selectors_found ev) as [|x [|y l]]; simpl in *; [by right|by left|lia].
  - intros sc Hsc. destruct (Hsys sc Hsc) as (n & Hn & Hp & _). eauto.
  - intros Hf. destruct (ev_syscall ev) as [sc|] eqn:Esc.
    + exists sc. split; [done|]. intros n Hn. destruct (Hsys sc eq_refl) as (n' & ? & _ & Hfd' & _).
      simplify_eq. auto.
    + by rewrite (proj2 (is_Some_b_spec _) Hf) in Hfd.
  - intros v Hv. rewrite Hv in Hfx. destruct (ev_syscall ev) as [sc|] eqn:Esc; [|done].
    destruct (Hsys sc eq_refl) as (n & Hn & _ & _ & Hf). destruct (Hf v Hv) as [? ->].
    split; [done|]. exists sc. split; [done|]. intros n' ?. by simplify_eq.
  - intros Hn. rewrite Hn, bool_decide_true in Hz by done. simpl in Hz.
    destruct (ev_syscalls ev); [left; by eexists|]. destruct (ev_rcbs ev); [right; by eexists|done].
Qed.

(** ** The specification *)

Definition same_thread_events (spec : HappensBeforeSpec) (bev ev : EventSpec) : Prop :=
  exists n1 n2 r1 r2, resolve_thread spec n1 (ev_thread bev) = Ok r1
    /\ resolve_thread spec n2 (ev_thread ev) = Ok r2 /\ same_thread r1 r2 = true.

Definition from_valid (spec : HappensBeforeSpec) (ev : EventSpec) : Prop :=
  forall b, ev_from ev = Some b ->
    exists bev, bt_get b (sp_events spec) = Some bev
      /\ ev_occurrence ev /\ same_thread_events spec bev ev /\ ev_from bev = None
      /\ (is_Some (ev_syscalls bev) \/ ev_occurrence bev).

Definition spec_rel (spec : HappensBeforeSpec) (x y : text) : Prop :=
  exists e, e ∈ sp_edges spec /\ es_before e = x /\ es_after e = y.
(** What must happen first for [y] to be reached: the hard edges into it and
    the base it counts from. *)
Definition must_precede (spec : HappensBeforeSpec) (x y : text) : Prop :=
  (exists e, e ∈ sp_edges spec /\ es_before e = x /\ es_after e = y /\ es_strength e = Hard)
  \/ (exists ev, bt_get y (sp_events spec) = Some ev /\ ev_from ev = Some x).

Record valid_spec (spec : HappensBeforeSpec) : Prop := {
  vs_version : sp_version spec = 1 \/ sp_version spec = 2;
  vs_old : sp_version spec = 1 ->
    sp_max_hold_ns spec = None
    /\ forall name ev, (name, ev) ∈ sp_events spec -> ev_from ev = None /\ ev_futex_op ev = None;
  vs_events : forall name ev, (name, ev) ∈ sp_events spec -> event_valid spec ev;
  vs_from : forall name ev, (name, ev) ∈ sp_events spec -> from_valid spec ev;
  vs_edges : forall e, e ∈ sp_edges spec ->
    es_before e ∈ (sp_events spec).*1 /\ es_after e ∈ (sp_events spec).*1;
  vs_acyclic : acyclic (spec_rel spec);
  vs_reachable : acyclic (must_precede spec);
}.

(** The types of the deserialized fields: an event table, and occurrence
    numbers that are [u64]. *)
Record spec_typed (spec : HappensBeforeSpec) : Prop := {
  st_events : bt_ok (sp_events spec);
  st_nth : forall name ev n, (name, ev) ∈ sp_events spec -> ev_nth ev = Some n -> is_u64 n;
}.

(** ** Version-1 fields *)

Lemma refuse_event_fields_cases evs :
  (refuse_event_fields evs = Ok tt
   /\ forall name ev, (name, ev) ∈ evs -> ev_from ev = None /\ ev_futex_op ev = None)
  \/ ((exists e, refuse_event_fields evs = Err e)
      /\ ~ forall name ev, (name, ev) ∈ evs -> ev_from ev = None /\ ev_futex_op ev = None).
Proof.
  induction evs as [|[name ev] evs IH]; simpl.
  - left. split; [done|]. intros ? ? Hx. inversion Hx.
  - destruct (ev_from ev) as [b|] eqn:Ef; simpl;
      [right; split; [by eexists|]; intros Hall; destruct (Hall name ev ltac:(set_solver)); congruence|].
    destruct (ev_futex_op ev) as [o|] eqn:Eo; simpl;
      [right; split; [by eexists|]; intros Hall; destruct (Hall name ev ltac:(set_solver)); congruence|].
    destruct IH as [[-> Hall]|[[e ->] Hn]]; [left|right].
    + split; [done|]. intros n v [[= -> ->]|]%elem_of_cons; eauto.
    + split; [by eexists|]. intros Hall. apply Hn. intros n v Hv. apply (Hall n v). set_solver.
Qed.

Definition version_1_fields (spec : HappensBeforeSpec) : Prop :=
  sp_max_hold_ns spec = None
  /\ forall name ev, (name, ev) ∈ sp_events spec -> ev_from ev = None /\ ev_futex_op ev = None.

Lemma refuse_version_2_fields_cases spec :
  (refuse_version_2_fields spec = Ok tt /\ version_1_fields spec)
  \/ ((exists e, refuse_version_2_fields spec = Err e) /\ ~ version_1_fields spec).
Proof.
  unfold refuse_version_2_fields, version_1_fields.
  destruct (sp_max_hold_ns spec); simpl; [right; split; [by eexists|by intros [? _]]|].
  destruct (refuse_event_fields_cases (sp_events spec)) as [[-> ?]|[[e ->] ?]]; [by left|right].
  split; [by eexists|]. by intros [_ ?].
Qed.

(** ** The anchor table *)

Record anchors_of (spec : HappensBeforeSpec) (anchors : list (text * Anchor)) : Prop := {
  aso_ok : bt_ok anchors;
  aso_event : forall x ev, (x, ev) ∈ sp_events spec ->
    exists a, bt_get x anchors = Some a /\ anchor_of spec x ev a;
  aso_anchor : forall x a, bt_get x anchors = Some a ->
    exists ev, (x, ev) ∈ sp_events spec /\ anchor_of spec x ev a;
}.

Lemma normalize_events_cases spec evs acc :
  bt_ok acc -> NoDup evs.*1 ->
  ((exists e, normalize_events bp spec evs acc = Err e)
   /\ ~ forall name ev, (name, ev) ∈ evs -> event_valid spec ev)
  \/ (forall name ev, (name, ev) ∈ evs -> event_valid spec ev)
     /\ exists anchors, normalize_events bp spec evs acc = Ok anchors /\ bt_ok anchors
         /\ (forall x, x ∉ evs.*1 -> bt_get x anchors = bt_get x acc)
         /\ (forall x ev, (x, ev) ∈ evs -> exists a, bt_get x anchors = Some a /\ anchor_of spec x ev a).
Proof.
  revert acc. induction evs as [|[name ev] evs IH]; intros acc Hacc Hnd; simpl.
  { right. split; [intros ? ? Hx; inversion Hx|]. exists acc. split_and!; [done..|].
    intros ? ? Hx; inversion Hx. }
  apply NoDup_cons in Hnd as [Hnew Hnd].
  destruct (normalize_event_inv spec name ev) as [[e He]|[_ Hv]].
  { left. rewrite He. split; [by eexists|]. intros Hall.
    destruct (normalize_event_Ok spec name ev) as (a & Ha & _); [apply (Hall name); set_solver|congruence]. }
  destruct (normalize_event_Ok spec name ev Hv) as (a & Ha & Hof). rewrite Ha. simpl.
  destruct (IH (bt_insert name a acc)) as [[[e ->] Hn]|(Hall & anchors & -> & Hok & Hold & Hget)];
    [by apply bt_insert_ok|done|left|right].
  - split; [by eexists|]. intros Hall. apply Hn. intros n v Hv'. apply (Hall n v). set_solver.
  - split; [intros n v [[= -> ->]|]%elem_of_cons; eauto|]. exists anchors. split_and!; [done..| |].
    + intros x Hx. rewrite Hold by set_solver. apply bt_get_insert_ne; [set_solver|done].
    + intros x v [[= -> ->]|Hin]%elem_of_cons; [|by apply Hget].
      exists a. rewrite Hold by done. by rewrite bt_get_insert_eq.
Qed.

Lemma normalize_events_table spec :
  bt_ok (sp_events spec) ->
  ((exists e, normalize_events bp spec (sp_events spec) [] = Err e) /\ ~ valid_spec spec)
  \/ (forall name ev, (name, ev) ∈ sp_events spec -> event_valid spec ev)
     /\ exists anchors, normalize_events bp spec (sp_events spec) [] = Ok anchors /\ anchors_of spec anchors.
Proof.
  intros Hev. destruct (normalize_events_cases spec (sp_events spec) [])
    as [[He Hn]|(Hall & anchors & He & Hok & Hold & Hget)]; [apply bt_ok_nil|by apply bt_ok_NoDup|left|right].
  - split; [done|]. intros Hv. apply Hn, Hv.
  - split; [done|]. exists anchors. split; [done|]. split; [done..|].
    intros x a Ha. destruct (bt_get x (sp_events spec)) as [ev|] eqn:E.
    + apply bt_get_elem in E; [|done]. destruct (Hget x ev E) as (a' & ? & ?). simplify_eq. eauto.
    + rewrite bt_get_None in E by done. by rewrite (Hold x E) in Ha.
Qed.

(** ** Relative bases *)

Definition base_ok (anchors : list (text * Anchor)) (a : Anchor) : Prop :=
  forall b, an_from a = Some b ->
    exists base, bt_get b anchors = Some base
      /\ is_syscall_occurrence a = true /\ same_thread (an_thread base) (an_thread a) = true
      /\ an_from base = None /\ is_syscall_count base || is_syscall_occurrence base = true.

Lemma check_relative_base_cases anchors a :
  (check_relative_base anchors a = Ok tt /\ base_ok anchors a)
  \/ ((exists e, check_relative_base anchors a = Err e) /\ ~ base_ok anchors a).
Proof.
  unfold check_relative_base, base_ok. destruct (an_from a) as [b|]; [|by left].
  destruct (bt_get b anchors) as [base|] eqn:Eb; simpl;
    [|right; split; [by eexists|]; intros Hb; destruct (Hb b eq_refl) as (? & ? & _); congruence].
  destruct (is_syscall_occurrence a); simpl;
    [|right; split; [by eexists|]; intros Hb; destruct (Hb b eq_refl) as (? & ? & ? & _); congruence].
  destruct (same_thread (an_thread base) (an_thread a)) eqn:Et; simpl;
    [|right; split; [by eexists|]; intros Hb; destruct (Hb b eq_refl) as (? & ? & ? & ? & _); congruence].
  destruct (an_from base) eqn:Ef; simpl;
    [right; split; [by eexists|]; intros Hb; destruct (Hb b eq_refl) as (? & ? & ? & ? & ? & _); congruence|].
  destruct (is_syscall_count base || is_syscall_occurrence base) eqn:Ep; simpl.
  - left. split; [done|]. intros b' [= <-]. by exists base.
  - right. split; [by eexists|]. intros Hb. destruct (Hb b eq_refl) as (? & ? & ? & ? & ? & ?). congruence.
Qed.

Lemma check_each_base_cases anchors l :
  (check_each_base anchors l = Ok tt /\ forall a, a ∈ l -> base_ok anchors a)
  \/ ((exists e, check_each_base anchors l = Err e) /\ ~ forall a, a ∈ l -> base_ok anchors a).
Proof.
  induction l as [|a l IH]; simpl; [left; split; [done|]; intros ? Hx; inversion Hx|].
  destruct (check_relative_base_cases anchors a) as [[-> Ha]|[[e ->] Ha]]; simpl.
  - destruct IH as [[-> Hl]|[[e ->] Hl]]; [left|right]; (split; [by eauto|]); set_solver.
  - right. split; [by eexists|]. set_solver.
Qed.

Lemma same_thread_resolved spec n1 n2 bev ev r1 r2 :
  resolve_thread spec n1 (ev_thread bev) = Ok r1 -> resolve_thread spec n2 (ev_thread ev) = Ok r2 ->
  same_thread_events spec bev ev <-> same_thread r1 r2 = true.
Proof.
  assert (Hindep : forall m1 m2 t x y, resolve_thread spec m1 t = Ok x -> resolve_thread spec m2 t = Ok y -> x = y).
  { unfold resolve_thread. intros m1 m2 t x y. destruct (bt_get t _), (parse_i32 t); congruence. }
  intros H1 H2. split; [|intros; by exists n1, n2, r1, r2].
  intros (m1 & m2 & x1 & x2 & Hx1 & Hx2 & Hs).
  by rewrite (Hindep _ _ _ _ _ H1 Hx1), (Hindep _ _ _ _ _ H2 Hx2).
Qed.

Lemma base_ok_from_valid spec anchors x ev a :
  bt_ok (sp_events spec) -> anchors_of spec anchors -> (x, ev) ∈ sp_events spec ->
  bt_get x anchors = Some a -> anchor_of spec x ev a ->
  base_ok anchors a <-> from_valid spec ev.
Proof.
  intros Hok Hof Hin Ha Hao. unfold base_ok, from_valid. rewrite (ao_from _ _ _ _ Hao).
  pose proof (ao_occurrence _ _ _ _ Hao) as Hoc.
  split; intros Hb b Hfrom; destruct (Hb b Hfrom) as (base & Hbase & Hocc & Hthr & Hnone & Hpos).
  - destruct (aso_anchor _ _ Hof b base Hbase) as (bev & Hbev & Hbao).
    exists bev. split_and!; [by apply bt_get_elem|by apply Hoc| |by rewrite <- (ao_from _ _ _ _ Hbao)|].
    + eapply same_thread_resolved; [apply Hbao|apply Hao|done].
    + apply orb_true_iff in Hpos as [Hp|Hp]; [left; by apply Hbao|right; by apply Hbao].
  - apply bt_get_elem in Hbase as Hbin; [|done].
    destruct (aso_event _ _ Hof b base Hbin) as (ba & Hba & Hbao).
    exists ba. split_and!; [done|by apply Hoc| |by rewrite (ao_from _ _ _ _ Hbao)|].
    + eapply same_thread_resolved; [apply Hbao|apply Hao|done].
    + apply orb_true_iff. destruct Hpos as [Hp|Hp]; [left; by apply Hbao|right; by apply Hbao].
Qed.

Lemma bases_from_valid spec anchors :
  bt_ok (sp_events spec) -> anchors_of spec anchors ->
  (forall a, a ∈ anchors.*2 -> base_ok anchors a)
  <-> (forall name ev, (name, ev) ∈ sp_events spec -> from_valid spec ev).
Proof.
  intros Hok Hof. split.
  - intros Hall x ev Hin. destruct (aso_event _ _ Hof x ev Hin) as (a & Ha & Hao).
    apply (base_ok_from_valid spec anchors x ev a); [done..|]. apply Hall.
    apply bt_get_elem in Ha; [|apply Hof]. apply list_elem_of_fmap. by exists (x, a).
  - intros Hall a Ha. apply list_elem_of_fmap in Ha as [[x a'] [-> Ha]]. simpl.
    apply bt_get_elem in Ha; [|apply Hof]. destruct (aso_anchor _ _ Hof x a' Ha) as (ev & Hin & Hao).
    apply (base_ok_from_valid spec anchors x ev a'); [done..|]. by eapply Hall.
Qed.

(** ** Edges *)

Definition edge_of (e : EdgeSpec) : HappensBeforeEdge :=
  {| ed_before := es_before e; ed_after := es_after e; ed_strength := es_strength e |}.

Lemma resolve_edges_cases anchors es :
  bt_ok anchors ->
  (resolve_edges anchors es = Ok (edge_of <$> es)
   /\ forall e, e ∈ es -> es_before e ∈ anchors.*1 /\ es_after e ∈ anchors.*1)
  \/ ((exists er, resolve_edges anchors es = Err er)
      /\ ~ forall e, e ∈ es -> es_before e ∈ anchors.*1 /\ es_after e ∈ anchors.*1).
Proof.
  intros Hok. induction es as [|e es IH]; simpl; [left; split; [done|]; intros ? Hx; inversion Hx|].
  destruct (bt_mem (es_before e) anchors) eqn:Eb; simpl;
    [apply bt_mem_true in Eb; [|done]|apply bt_mem_false in Eb; [|done]; right; split; [by eexists|]; set_solver].
  destruct (bt_mem (es_after e) anchors) eqn:Ea; simpl;
    [apply bt_mem_true in Ea; [|done]|apply bt_mem_false in Ea; [|done]; right; split; [by eexists|]; set_solver].
  destruct IH as [[-> Hl]|[[er ->] Hl]]; [left|right]; (split; [by simpl; eauto|]); set_solver.
Qed.

Lemma anchors_of_keys spec anchors x :
  anchors_of spec anchors -> x ∈ anchors.*1 <-> x ∈ (sp_events spec).*1.
Proof.
  intros Hof. rewrite !bt_key_elem. split.
  - intros [a Ha]. apply bt_get_elem in Ha; [|apply Hof].
    destruct (aso_anchor _ _ Hof x a Ha) as (ev & ? & _). by exists ev.
  - intros [ev Hev]. destruct (aso_event _ _ Hof x ev Hev) as (a & Ha & _).
    exists a. by apply bt_get_elem; [apply Hof|].
Qed.

Lemma spec_rel_edges spec x y : edge_rel (edge_of <$> sp_edges spec) x y <-> spec_rel spec x y.
Proof.
  unfold edge_rel, spec_rel. split.
  - intros (e & He & <- & <-). apply list_elem_of_fmap in He as (es & -> & ?). by exists es.
  - intros (es & ? & <- & <-). exists (edge_of es). split_and!; [|done..]. by apply list_elem_of_fmap_2.
Qed.

Lemma must_precede_edges spec anchors x y :
  bt_ok (sp_events spec) -> anchors_of spec anchors ->
  edge_rel (with_activation anchors (edge_of <$> sp_edges spec)) x y <-> must_precede spec x y.
Proof.
  intros Hok Hof. unfold edge_rel, with_activation, must_precede.
  split.
  - intros (e & Hin & <- & <-). apply elem_of_List_filter in Hin as [Hh%bool_decide_eq_true He].
    apply elem_of_app in He as [He|He].
    + left. apply list_elem_of_fmap in He as (es & -> & ?). by exists es.
    + right. unfold activation_edges in He. apply list_elem_of_omap in He as (a & Ha & Hs).
      apply list_elem_of_fmap in Ha as [[z a'] [-> Ha]]. simpl in Hs.
      destruct (an_from a') as [b|] eqn:Ef; simplify_eq/=.
      apply bt_get_elem in Ha; [|apply Hof]. destruct (aso_anchor _ _ Hof z a' Ha) as (ev & Hin & Hao).
      exists ev. rewrite (ao_name _ _ _ _ Hao). split; [by apply bt_get_elem|]. by rewrite <- (ao_from _ _ _ _ Hao).
  - intros [(es & He & <- & <- & Hh)|(ev & Hev & Hf)].
    + exists (edge_of es). split_and!; [|done..]. apply elem_of_List_filter.
      split; [by apply bool_decide_eq_true|]. apply elem_of_app. left. by apply list_elem_of_fmap_2.
    + apply bt_get_elem in Hev; [|done]. destruct (aso_event _ _ Hof y ev Hev) as (a & Ha & Hao).
      exists {| ed_before := x; ed_after := y; ed_strength := Hard |}. split_and!; [|done..].
      apply elem_of_List_filter. split; [by apply bool_decide_eq_true|].
      apply elem_of_app. right. apply list_elem_of_omap. exists a. split.
      * apply bt_get_elem in Ha; [|apply Hof]. apply list_elem_of_fmap. by exists (y, a).
      * by rewrite (ao_from _ _ _ _ Hao), Hf, (ao_name _ _ _ _ Hao).
Qed.

(** ** The program *)

Record program_ok (p : HappensBeforeProgram) : Prop := {
  po_anchors : bt_ok (pr_anchors p);
  po_names : forall x a, bt_get x (pr_anchors p) = Some a -> an_name a = x;
  po_edges : edges_within (pr_anchors p) (pr_edges p);
  po_acyclic : acyclic (edge_rel (pr_edges p));
  po_reachable : acyclic (edge_rel (with_activation (pr_anchors p) (pr_edges p)));
  po_bases : forall x a, bt_get x (pr_anchors p) = Some a -> base_ok (pr_anchors p) a;
  po_nth : forall x a n, bt_get x (pr_anchors p) = Some a ->
    position_nth (an_position a) = Some n -> 1 <= n;
  po_budget : pr_version p = 1 /\ pr_max_hold_ns p = None
              \/ pr_version p = 2 /\ is_Some (pr_max_hold_ns p);
}.

Definition program_of (spec : HappensBeforeSpec) (p : HappensBeforeProgram) : Prop :=
  anchors_of spec (pr_anchors p) /\ pr_edges p = edge_of <$> sp_edges spec
  /\ pr_version p = sp_version spec.

Lemma acyclic_ext (R1 R2 : text -> text -> Prop) :
  (forall x y, R1 x y <-> R2 x y) -> acyclic R1 <-> acyclic R2.
Proof.
  intros HR. split; intros Ha x Hx; apply (Ha x);
    (eapply (tc_congruence id); [|exact Hx]); intros; by apply HR.
Qed.

Lemma within_activation anchors edges :
  bt_ok anchors -> (forall x a, bt_get x anchors = Some a -> an_name a = x) ->
  (forall a, a ∈ anchors.*2 -> base_ok anchors a) ->
  edges_within anchors edges -> edges_within anchors (with_activation anchors edges).
Proof.
  intros Hok Hnames Hb Hin. apply Forall_forall. intros e He.
  apply elem_of_List_filter in He as [_ He]. apply elem_of_app in He as [He|He].
  - by apply (proj1 (Forall_forall _ _) Hin).
  - apply list_elem_of_omap in He as (a & Ha & He). destruct (an_from a) as [b|] eqn:Ef; simplify_eq/=.
    destruct (Hb a Ha b Ef) as (base & Hbase & _).
    apply list_elem_of_fmap in Ha as [[x a'] [-> Ha]]. simpl. apply bt_get_elem in Ha as Hx; [|done].
    rewrite (Hnames x a' Hx). rewrite <- !(bt_mem_true anchors) by done.
    unfold bt_mem. by rewrite Hbase, Hx.
Qed.

(** The tail of [normalize] once the anchors are made. *)
Lemma normalize_tail spec anchors :
  spec_typed spec -> anchors_of spec anchors ->
  (forall name ev, (name, ev) ∈ sp_events spec -> from_valid spec ev) ->
  (forall e, e ∈ sp_edges spec -> es_before e ∈ anchors.*1 /\ es_after e ∈ anchors.*1) ->
  let edges := edge_of <$> sp_edges spec in
  edges_within anchors edges /\ edges_within anchors (with_activation anchors edges).
Proof.
  intros [Hok Hnth] Hof Hfrom Hes edges.
  assert (Hin : edges_within anchors edges).
  { apply Forall_forall. intros e He. apply list_elem_of_fmap in He as (es & -> & He). by apply Hes. }
  split; [done|]. apply within_activation; [apply Hof| |by eapply bases_from_valid|done].
  intros x a Ha. destruct (aso_anchor _ _ Hof x a Ha) as (ev & _ & Hao). apply Hao.
Qed.

Lemma program_ok_intro spec p :
  spec_typed spec -> program_of spec p -> valid_spec spec ->
  pr_max_hold_ns p = (if sp_version spec =? 2 then Some (default DEFAULT_MAX_HOLD_NS (sp_max_hold_ns spec)) else None) ->
  program_ok p.
Proof.
  intros [Hok Hnth] (Hof & Hes & Hver) Hv Hb. 
  assert (Hkeys : forall e, e ∈ sp_edges spec -> es_before e ∈ (pr_anchors p).*1 /\ es_after e ∈ (pr_anchors p).*1).
  { intros e He. rewrite !(anchors_of_keys spec) by done. by apply Hv. }
  split.
  - apply Hof.
  - intros x a Ha. destruct (aso_anchor _ _ Hof x a Ha) as (ev & _ & Hao). apply Hao.
  - rewrite Hes. by eapply normalize_tail; [|done|apply Hv|done].
  - rewrite Hes. rewrite (acyclic_ext _ _ (spec_rel_edges spec)). apply Hv.
  - rewrite Hes. rewrite (acyclic_ext _ _ (fun x y => must_precede_edges spec _ x y Hok Hof)). apply Hv.
  - intros x a Ha. apply (bases_from_valid spec); [done|done|apply Hv|].
    apply bt_get_elem in Ha; [|apply Hof]. apply list_elem_of_fmap. by exists (x, a).
  - intros x a n Ha Hn. destruct (aso_anchor _ _ Hof x a Ha) as (ev & Hin & Hao).
    destruct (ao_nth _ _ _ _ Hao n Hn) as [Hz ->].
    destruct (ev_nth ev) as [m|] eqn:Em; simpl; [|lia].
    destruct (Hnth x ev m Hin Em). destruct (decide (m = 0)); [congruence|lia].
  - rewrite Hver, Hb. destruct (vs_version _ Hv) as [->| ->]; [by left|right; simpl; eauto].
Qed.

Lemma cycle_checks spec anchors :
  bt_ok (sp_events spec) -> anchors_of spec anchors ->
  let es := edge_of <$> sp_edges spec in
  edges_within anchors es -> edges_within anchors (with_activation anchors es) ->
  (detect_cycle anchors es = Ok tt /\ detect_cycle anchors (with_activation anchors es) = Ok tt
   /\ acyclic (spec_rel spec) /\ acyclic (must_precede spec))
  \/ (exists c, detect_cycle anchors es = Err (Cycle c) /\ ~ acyclic (spec_rel spec))
  \/ (detect_cycle anchors es = Ok tt
      /\ exists c, detect_cycle anchors (with_activation anchors es) = Err (Cycle c)
           /\ ~ acyclic (must_precede spec)).
Proof.
  intros Hok Hof es Hin Hin2.
  pose proof (acyclic_ext _ _ (spec_rel_edges spec)) as H1.
  pose proof (acyclic_ext _ _ (fun x y => must_precede_edges spec anchors x y Hok Hof)) as H2.
  destruct (detect_cycle_cases anchors es Hin) as [[-> Ha]|(c & -> & Hc%closed_walk_not_acyclic)].
  - destruct (detect_cycle_cases anchors _ Hin2) as [[-> Ha2]|(c & -> & Hc%closed_walk_not_acyclic)].
    + left. split_and!; [done..|by apply H1|by apply H2].
    + right. right. split; [done|]. exists c. split; [done|]. by rewrite <- H2.
  - right. left. exists c. split; [done|]. by rewrite <- H1.
Qed.

(** The version test and the version-1 fields. *)
Lemma old_fields_cases spec :
  let r := if sp_version spec =? 1 then refuse_version_2_fields spec else Ok tt in
  (r = Ok tt /\ (sp_version spec = 1 -> version_1_fields spec))
  \/ ((exists e, r = Err e) /\ ~ valid_spec spec).
Proof.
  simpl. destruct (Z.eqb_spec (sp_version spec) 1) as [E1|E1]; [|left; split; [done|lia]].
  destruct (refuse_version_2_fields_cases spec) as [[-> ?]|[He Hn]]; [by left|right].
  split; [done|]. intros Hv. by apply Hn, Hv.
Qed.

Lemma normalize_cases spec :
  spec_typed spec ->
  (valid_spec spec /\ exists p, normalize bp spec = Ok p /\ program_ok p /\ program_of spec p)
  \/ (~ valid_spec spec /\ exists e, normalize bp spec = Err e).
Proof.
  intros Hty. pose proof (st_events _ Hty) as Hok.
  unfold normalize, HAPPENS_BEFORE_VERSION, HAPPENS_BEFORE_VERSION_1.
  destruct ((sp_version spec =? 2) || (sp_version spec =? 1)) eqn:Ever; simpl;
    [|right; split; [intros Hv; destruct (vs_version _ Hv); apply orb_false_iff in Ever; lia|by eexists]].
  destruct (old_fields_cases spec) as [[-> Hold]|[[e ->] Hn]]; simpl; [|right; by eauto].
  destruct (normalize_events_table spec Hok) as [[[e ->] Hn]|(Hevs & anchors & -> & Hof)];
    simpl; [right; by eauto|]. unfold check_relative_bases.
  destruct (check_each_base_cases anchors anchors.*2) as [[-> Hb]|[[e ->] Hb]]; simpl;
    rewrite bases_from_valid in Hb by done;
    [|right; split; [intros Hv; apply Hb, Hv|by eauto]].
  destruct (resolve_edges_cases anchors (sp_edges spec) (aso_ok _ _ Hof)) as [[-> Hes]|[[e ->] Hes]]; simpl.
  2:{ right. split; [|by eauto]. intros Hv. apply Hes. intros e' He.
      rewrite !(anchors_of_keys spec) by done. by apply Hv. }
  destruct (normalize_tail spec anchors Hty Hof Hb Hes) as [Hin Hin2].
  destruct (cycle_checks spec anchors Hok Hof Hin Hin2)
    as [(-> & -> & Ha & Hr)|[(c & -> & Hn)|(-> & c & -> & Hn)]]; simpl;
    [left|right; split; [intros Hv; apply Hn, Hv|by eauto]..].
  assert (Hv : valid_spec spec).
  { split; [apply orb_true_iff in Ever; lia|done..| |done|done].
    intros e He. rewrite <- !(anchors_of_keys spec anchors) by done. by apply Hes. }
  split; [done|]. eexists. split; [done|]. split; [by eapply program_ok_intro|done].
Qed.
End Valid.

