(* ===== verification/HbCount.v ===== *)
(** Counting syscall occurrences.

    The incremental counters a thread keeps (one per syscall, descriptor and
    futex operation, and one origin per relative anchor) are shown to implement
    the definition over the thread's whole history: an anchor fires at exactly
    the entry that is its [nth] match, counted from the thread's start or from
    the entry at which its base was reached. *)
From Stdlib Require Import ZArith Lia List.
From stdpp Require Import base gmap relations list.
From S2P Require Import Prelude BTree Time Schedule Text HappensBefore HbCycle HbNormalize.
Import HappensBefore.
Open Scope Z_scope.

(** A syscall entry: its number and first two arguments. *)
Abbreviation entry := (Sysno * (Z * Z))%type.

(** * The definition over histories *)

Definition matches (a : Anchor) (e : entry) : bool := syscall_occurrence_matches a e.1 e.2.
Definition n_match (a : Anchor) (h : list entry) : Z := Z.of_nat (length (List.filter (matches a) h)).

(** The last entry of [h] is where [base] is reached. *)
Definition base_reached_at (base : Anchor) (h : list entry) : Prop :=
  match an_position base with
  | SyscallCount n => h <> [] /\ n = Z.of_nat (length h)
  | Syscall _ _ nth _ _ =>
      exists h0 e, h = h0 ++ [e] /\ matches base e = true /\ n_match base h = nth
  | _ => False
  end.

(** The last entry of [h] is the one [a] names. *)
Definition fires_at (p : HappensBeforeProgram) (a : Anchor) (h : list entry) : Prop :=
  (exists h0 e, h = h0 ++ [e] /\ matches a e = true)
  /\ exists nth, position_nth (an_position a) = Some nth
     /\ match an_from a with
        | None => n_match a h = nth
        | Some b => exists base h1 h2, bt_get b (pr_anchors p) = Some base
                      /\ h = h1 ++ h2 /\ base_reached_at base h1 /\ n_match a h2 = nth
        end.

(** * Running a history *)

Section Run.
Context (bp : profile) (p : HappensBeforeProgram) (dettid : DetTid).

(** A thread's entries in order; the [k]th carries the running count [k]. *)
Fixpoint run_entries (h : list entry) (k : Z) (c : HbThreadCounters)
    : outcome (list (list text) * HbThreadCounters) :=
  match h with
  | [] => Done ([], c)
  | e :: h' =>
      '(ns, c') ← count_syscall_occurrences bp p dettid e.1 e.2 (k + 1) c;
      '(rest, c'') ← run_entries h' (k + 1) c';
      Done (ns :: rest, c'')
  end.

(** ** Keys *)

Definition key_matches (k : OccurrenceKey) (e : entry) : bool :=
  let '(s, fd, op) := k in
  (s =? e.1) && (is_none_or fd (fun fd => low_int e.2.1 =? fd)
                 && is_none_or op (fun op => low_int e.2.2 =? op)).
Definition n_key (k : OccurrenceKey) (h : list entry) : Z :=
  Z.of_nat (length (List.filter (key_matches k) h)).

Lemma matches_key a k : occurrence_key a = Some k -> matches a = key_matches k.
Proof.
  unfold occurrence_key, matches, syscall_occurrence_matches, key_matches.
  destruct (an_position a); try done. destruct (is_syscall_occurrence a); [|done].
  intros [= <-]. reflexivity.
Qed.
Lemma matches_occurrence a e :
  matches a e = true -> is_syscall_occurrence a = true /\ exists k, occurrence_key a = Some k.
Proof.
  unfold matches, syscall_occurrence_matches, occurrence_key.
  destruct (an_position a); try done. destruct (is_syscall_occurrence a); [by eauto|done].
Qed.
Lemma occurrence_has_key a :
  is_syscall_occurrence a = true -> exists k, occurrence_key a = Some k.
Proof.
  unfold occurrence_key. intros E. rewrite E. unfold is_syscall_occurrence in E.
  destruct (an_position a); by eauto.
Qed.
Lemma occurrence_nth a :
  is_syscall_occurrence a = true ->
  exists s ph nth fd op, an_position a = Syscall s ph nth fd op.
Proof. unfold is_syscall_occurrence. destruct (an_position a); by eauto 10. Qed.
Lemma n_match_key a k h : occurrence_key a = Some k -> n_match a h = n_key k h.
Proof. intros E. unfold n_match, n_key. by rewrite (matches_key a k E). Qed.

Lemma n_key_app k h1 h2 : n_key k (h1 ++ h2) = n_key k h1 + n_key k h2.
Proof. unfold n_key. rewrite List.filter_app, length_app. lia. Qed.
Lemma n_key_snoc k h e : n_key k (h ++ [e]) = n_key k h + (if key_matches k e then 1 else 0).
Proof. rewrite n_key_app. f_equal. unfold n_key. simpl. by destruct (key_matches k e). Qed.
Lemma n_key_nonneg k h : 0 <= n_key k h.
Proof. unfold n_key. lia. Qed.
Lemma n_key_le k h : n_key k h <= Z.of_nat (length h).
Proof.
  unfold n_key. apply inj_le. induction h as [|e h IH]; simpl; [lia|].
  destruct (key_matches k e); simpl; lia.
Qed.
Lemma n_match_app a h1 h2 : n_match a (h1 ++ h2) = n_match a h1 + n_match a h2.
Proof. unfold n_match. rewrite List.filter_app, length_app. lia. Qed.

Definition anchor_key (k : OccurrenceKey) : Prop :=
  exists a, a ∈ (pr_anchors p).*2 /\ occurrence_key a = Some k.

(** ** One entry's keys and counts *)

Lemma insert_all_mem (l : list OccurrenceKey) (acc : list (OccurrenceKey * ())) k :
  bt_ok acc ->
  let r := foldl (fun ks k => bt_insert k tt ks) acc l in
  bt_ok r /\ (k ∈ r.*1 <-> k ∈ l \/ k ∈ acc.*1).
Proof.
  revert acc. induction l as [|x l IH]; intros acc Hacc; simpl.
  { split; [done|]. set_solver. }
  destruct (IH (bt_insert x tt acc)) as [Hok Hin]; [by apply bt_insert_ok|]. split; [done|].
  rewrite Hin, elem_of_cons. rewrite <- (bt_mem_true (bt_insert x tt acc)) by (by apply bt_insert_ok).
  rewrite <- (bt_mem_true acc) by done. unfold bt_mem.
  destruct (decide (k = x)) as [->|Hk].
  - rewrite bt_get_insert_eq by done. tauto.
  - rewrite bt_get_insert_ne by done. tauto.
Qed.

Lemma entry_keys_spec e k :
  anchor_key k -> bt_ok (entry_keys p e.1 e.2) /\ (k ∈ (entry_keys p e.1 e.2).*1 <-> key_matches k e = true).
Proof.
  intros (a & Ha & Hk). unfold entry_keys.
  destruct (insert_all_mem (omap occurrence_key (List.filter (fun a => syscall_occurrence_matches a e.1 e.2)
    (pr_anchors p).*2)) [] k bt_ok_nil) as [Hok Hin].
  split; [done|]. rewrite Hin. split.
  - intros [Hx|Hx]; [|inversion Hx]. apply list_elem_of_omap in Hx as (a' & Ha' & Hk').
    apply elem_of_List_filter in Ha' as [Hm _]. by rewrite <- (matches_key a' k Hk').
  - intros Hm. left. apply list_elem_of_omap. exists a. split; [|done].
    apply elem_of_List_filter. split; [|done]. rewrite <- (matches_key a k Hk) in Hm. done.
Qed.

Lemma bump_counts_spec ks cs :
  bt_ok cs -> NoDup ks -> (forall k, k ∈ ks -> 0 <= default 0 (bt_get k cs) < u64_max) ->
  exists cs', bump_counts bp ks cs = Done cs' /\ bt_ok cs'
    /\ forall k, bt_get k cs' = if bool_decide (k ∈ ks) then Some (default 0 (bt_get k cs) + 1)
                                else bt_get k cs.
Proof.
  revert cs. induction ks as [|x ks IH]; intros cs Hok Hnd Hfit; cbn [bump_counts].
  { exists cs. split_and!; [done..|]. intros k. case_bool_decide as Hk; [inversion Hk|done]. }
  apply NoDup_cons in Hnd as [Hx Hnd].
  rewrite arith_u_exact by (specialize (Hfit x ltac:(set_solver)); unfold u64_max in *; lia).
  bind_done. destruct (IH (bt_insert x (default 0 (bt_get x cs) + 1) cs)) as (cs' & -> & Hok' & Hget).
  - by apply bt_insert_ok.
  - done.
  - intros k Hk. assert (x <> k) by (by intros ->).
    rewrite bt_get_insert_ne by done. apply Hfit. set_solver.
  - exists cs'. split_and!; [done..|]. intros k. rewrite Hget. destruct (decide (k = x)) as [->|Hne].
    + rewrite bt_get_insert_eq by done. rewrite bool_decide_false by done.
      by rewrite bool_decide_true by set_solver.
    + rewrite bt_get_insert_ne by done.
      rewrite (bool_decide_ext (k ∈ x :: ks) (k ∈ ks)) by set_solver. done.
Qed.

Lemma entry_keys_anchor e k : k ∈ (entry_keys p e.1 e.2).*1 -> anchor_key k.
Proof.
  unfold entry_keys. intros Hin.
  destruct (insert_all_mem (omap occurrence_key (List.filter (fun a => syscall_occurrence_matches a e.1 e.2)
    (pr_anchors p).*2)) [] k bt_ok_nil) as [_ Hmem].
  apply Hmem in Hin as [Hx|Hx]; [|inversion Hx]. apply list_elem_of_omap in Hx as (a & Ha & Hk).
  apply elem_of_List_filter in Ha as [_ Ha]. by exists a.
Qed.
Lemma entry_keys_ok e : bt_ok (entry_keys p e.1 e.2).
Proof. unfold entry_keys. by apply (insert_all_mem _ [] (0, None, None) bt_ok_nil). Qed.

(** ** The invariant of the counters *)

Definition count_of (k : OccurrenceKey) (h : list entry) : option Z :=
  if n_key k h =? 0 then None else Some (n_key k h).

Record count_inv (h : list entry) (c : HbThreadCounters) : Prop := {
  ci_counts_ok : bt_ok (counts c);
  ci_counts : forall k, anchor_key k -> bt_get k (counts c) = count_of k h;
  ci_origins_ok : bt_ok (origins c);
  ci_origins : forall x a b base, bt_get x (pr_anchors p) = Some a -> on_thread dettid a = true ->
    an_from a = Some b -> bt_get b (pr_anchors p) = Some base ->
    forall o, bt_get x (origins c) = Some o
              <-> exists h1 h2, h = h1 ++ h2 /\ base_reached_at base h1 /\ o = n_match a h1;
}.

Lemma count_of_default k h : default 0 (count_of k h) = n_key k h.
Proof. unfold count_of. by destruct (Z.eqb_spec (n_key k h) 0) as [->|]. Qed.

Lemma bump_inv h c e :
  count_inv h c -> Z.of_nat (length h) < u64_max ->
  exists cs, bump_counts bp (entry_keys p e.1 e.2).*1 (counts c) = Done cs /\ bt_ok cs
    /\ forall k, anchor_key k -> bt_get k cs = count_of k (h ++ [e]).
Proof.
  intros [Hok Hc _ _] Hlen.
  destruct (bump_counts_spec (entry_keys p e.1 e.2).*1 (counts c)) as (cs & -> & Hok' & Hget);
    [done|apply bt_ok_NoDup, entry_keys_ok| |].
  - intros k Hk%entry_keys_anchor. rewrite Hc, count_of_default by done.
    pose proof (n_key_nonneg k h). pose proof (n_key_le k h). lia.
  - exists cs. split_and!; [done..|]. intros k Hk. rewrite Hget, Hc by done.
    destruct (entry_keys_spec e k Hk) as [_ Hin]. unfold count_of at 3.
    rewrite n_key_snoc, count_of_default. pose proof (n_key_nonneg k h).
    case_bool_decide as Hm.
    + apply Hin in Hm. rewrite Hm. by rewrite (proj2 (Z.eqb_neq (n_key k h + 1) 0)) by lia.
    + destruct (key_matches k e); [by rewrite Hin in Hm|]. by rewrite Z.add_0_r.
Qed.

(** ** Reaching a base *)

Lemma base_reached_prefix base h1 h2 :
  base_reached_at base h1 -> base_reached_at base (h1 ++ h2) -> h2 = [].
Proof.
  unfold base_reached_at. destruct (an_position base); try done.
  - intros [_ ->] [_ E]. rewrite length_app in E. destruct h2; simpl in *; [done|lia].
  - intros (h0 & e & -> & Hm & <-) (g & e' & E & Hm' & Hn). destruct h2 as [|x h2 _] using rev_ind; [done|].
    rewrite app_assoc in E. apply app_inj_tail in E as [<- <-].
    rewrite !n_match_app in Hn. unfold n_match in Hn. simpl in Hn. rewrite Hm, Hm' in Hn. simpl in Hn. lia.
Qed.
Lemma base_reached_unique base h1 h2 g1 g2 :
  h1 ++ h2 = g1 ++ g2 -> base_reached_at base h1 -> base_reached_at base g1 -> h1 = g1.
Proof.
  intros E Hh Hg. apply app_eq_inv in E as [(k & -> & _)|(k & -> & _)].
  - by rewrite (base_reached_prefix base g1 k Hg Hh), app_nil_r.
  - by rewrite (base_reached_prefix base h1 k Hh Hg), app_nil_r.
Qed.

Lemma base_reached_spec h e cs base :
  base ∈ (pr_anchors p).*2 -> (forall k, anchor_key k -> bt_get k cs = count_of k (h ++ [e])) ->
  base_reached e.1 e.2 (Z.of_nat (length h) + 1) cs base = true <-> base_reached_at base (h ++ [e]).
Proof.
  intros Hbase Hcs. unfold base_reached, base_reached_at.
  destruct (an_position base) as [n|m|s ph nth fd op|addr nth|mk nth]; [|done| |done|done].
  - rewrite Z.eqb_eq, length_app. simpl. split; [|intros [_ ->]; lia].
    intros ->. split; [by destruct h|lia].
  - rewrite andb_true_iff. fold (matches base e). split.
    + intros [Hm Hn]. exists h, e. split_and!; [done..|].
      destruct (occurrence_key base) as [k|] eqn:Ek; [|done]. rewrite Hcs in Hn by (by exists base).
      unfold count_of in Hn. rewrite (n_match_key base k _ Ek).
      destruct (Z.eqb_spec (n_key k (h ++ [e])) 0); [done|]. by apply Z.eqb_eq.
    + intros (h0 & e0 & E & Hm & Hn). apply app_inj_tail in E as [<- <-]. split; [done|].
      destruct (matches_occurrence base e Hm) as [_ [k Ek]]. rewrite Ek, Hcs by (by exists base).
      rewrite (n_match_key base k _ Ek) in Hn. unfold count_of. rewrite <- Hn.
      rewrite n_key_snoc. rewrite (matches_key base k Ek) in Hm. rewrite Hm.
      pose proof (n_key_nonneg k h). rewrite (proj2 (Z.eqb_neq _ _)) by lia. apply Z.eqb_refl.
Qed.

(** ** Origins *)

Lemma note_origin_other cs ec os s args r x :
  bt_ok os -> an_name r <> x ->
  bt_get x (note_origin p s args ec cs os r) = bt_get x os /\ bt_ok (note_origin p s args ec cs os r).
Proof.
  intros Hok Hne. unfold note_origin. destruct (_ ≫= _) as [base|]; [|done].
  destruct (bt_mem _ _); [done|]. destruct (base_reached _ _ _ _ _); [|done].
  split; [by apply bt_get_insert_ne|by apply bt_insert_ok].
Qed.
Lemma note_origin_ok cs ec os s args r : bt_ok os -> bt_ok (note_origin p s args ec cs os r).
Proof.
  intros Hok. unfold note_origin. destruct (_ ≫= _) as [base|]; [|done].
  destruct (bt_mem _ _); [done|]. destruct (base_reached _ _ _ _ _); [by apply bt_insert_ok|done].
Qed.

Lemma fold_origins cs ec s args l os a :
  bt_ok os -> NoDup (an_name <$> l) ->
  let os' := foldl (note_origin p s args ec cs) os l in
  bt_ok os' /\ (a ∈ l -> bt_get (an_name a) os' = bt_get (an_name a) (note_origin p s args ec cs os a))
  /\ (an_name a ∉ an_name <$> l -> bt_get (an_name a) os' = bt_get (an_name a) os).
Proof.
  revert os. induction l as [|r l IH]; intros os Hok Hnd; simpl.
  { split_and!; [done| |done]. intros Hx; inversion Hx. }
  simpl in Hnd. apply NoDup_cons in Hnd as [Hr Hnd].
  destruct (IH (note_origin p s args ec cs os r)) as (Hok' & Hin & Hout); [by apply note_origin_ok|done|].
  split_and!; [done| |].
  - intros [->|Ha]%elem_of_cons; [by apply Hout|].
    rewrite (Hin Ha). assert (Hne : an_name r <> an_name a).
    { intros E. apply Hr. rewrite E. by apply list_elem_of_fmap_2. }
    destruct (note_origin_other cs ec os s args r (an_name a) Hok Hne) as [Hg Hok1].
    unfold note_origin at 1 3. destruct (an_from a ≫= _) as [base|]; [|done].
    unfold bt_mem. rewrite Hg. destruct (bt_get (an_name a) os) eqn:E; [by rewrite Hg, E|].
    destruct (base_reached _ _ _ _ _); [|by rewrite Hg, E].
    by rewrite !bt_get_insert_eq.
  - rewrite elem_of_cons. intros Hn. rewrite Hout by tauto.
    apply note_origin_other; [done|]. intros E. apply Hn. by left.
Qed.

Context (Hp : program_ok p).

Lemma anchor_elem x a : bt_get x (pr_anchors p) = Some a -> a ∈ (pr_anchors p).*2.
Proof.
  intros Ha. apply bt_get_elem in Ha; [|apply Hp]. apply list_elem_of_fmap. by exists (x, a).
Qed.
Lemma elem_anchor a : a ∈ (pr_anchors p).*2 -> bt_get (an_name a) (pr_anchors p) = Some a.
Proof.
  intros Ha. apply list_elem_of_fmap in Ha as [[x a'] [-> Ha]]. apply bt_get_elem in Ha; [|apply Hp].
  simpl. by rewrite (po_names _ Hp x a' Ha).
Qed.
Lemma sublist_map {A B} (f : A -> B) l1 l2 : l1 `sublist_of` l2 -> (f <$> l1) `sublist_of` (f <$> l2).
Proof. induction 1; simpl; by constructor. Qed.
Lemma anchor_names_NoDup f : NoDup (an_name <$> List.filter f (pr_anchors p).*2).
Proof.
  assert (E : an_name <$> (pr_anchors p).*2 = (pr_anchors p).*1).
  { rewrite <- list_fmap_compose. apply list_fmap_ext. intros i [x a] Hi. simpl.
    apply (po_names _ Hp). apply bt_get_elem; [apply Hp|]. by eapply list_elem_of_lookup_2. }
  eapply sublist_NoDup; [|apply sublist_map, filter_sublist]. rewrite E. apply bt_ok_NoDup, Hp.
Qed.

Lemma reached_snoc base h e h1 h2 :
  h ++ [e] = h1 ++ h2 -> base_reached_at base h1 ->
  (h2 = [] /\ h1 = h ++ [e]) \/ (exists h2', h = h1 ++ h2').
Proof.
  intros E Hb. destruct h2 as [|x h2 _] using rev_ind.
  - left. by rewrite app_nil_r in E.
  - right. rewrite app_assoc in E. apply app_inj_tail in E as [-> _]. eauto.
Qed.

Lemma origins_step h c e cs x a b base :
  count_inv h c -> (forall k, anchor_key k -> bt_get k cs = count_of k (h ++ [e])) ->
  bt_get x (pr_anchors p) = Some a -> on_thread dettid a = true ->
  an_from a = Some b -> bt_get b (pr_anchors p) = Some base ->
  forall o, bt_get x (note_origin p e.1 e.2 (Z.of_nat (length h) + 1) cs (origins c) a) = Some o
            <-> exists h1 h2, h ++ [e] = h1 ++ h2 /\ base_reached_at base h1 /\ o = n_match a h1.
Proof.
  intros Hi Hcs Ha Hon Hfrom Hbase o.
  pose proof (ci_origins _ _ Hi x a b base Ha Hon Hfrom Hbase) as Horig.
  pose proof (base_reached_spec h e cs base (anchor_elem _ _ Hbase) Hcs) as Hreach.
  rewrite <- (po_names _ Hp x a Ha) in *.
  assert (Hocc : is_syscall_occurrence a = true).
  { by destruct (po_bases _ Hp _ a Ha b Hfrom) as (? & _ & ? & _). }
  destruct (occurrence_has_key a Hocc) as [k Hk].
  unfold note_origin. rewrite Hfrom. simpl. rewrite Hbase. unfold bt_mem.
  destruct (bt_get (an_name a) (origins c)) as [o0|] eqn:Eo.
  - destruct (proj1 (Horig o0) eq_refl) as (h1 & h2 & E & Hb & Ho). rewrite Eo. split.
    + intros [= <-]. exists h1, (h2 ++ [e]). rewrite E. by rewrite <- app_assoc.
    + intros (g1 & g2 & E' & Hb' & ->). rewrite Ho. do 2 f_equal. rewrite E, <- app_assoc in E'.
      by eapply base_reached_unique.
  - assert (Hno : forall h1 h2, h = h1 ++ h2 -> ~ base_reached_at base h1).
    { intros h1 h2 E Hb. by assert (@None Z = Some (n_match a h1)) by (apply Horig; eauto). }
    destruct (base_reached _ _ _ _ _) eqn:Er.
    + rewrite bt_get_insert_eq by apply Hi. rewrite Hk. simpl.
      rewrite Hcs, count_of_default, <- (n_match_key a k) by (done || (exists a; eauto using anchor_elem)).
      split.
      * intros [= <-]. exists (h ++ [e]), []. rewrite app_nil_r. split_and!; [done|by apply Hreach|done].
      * intros (h1 & h2 & E & Hb & ->). destruct (reached_snoc base h e h1 h2 E Hb) as [[_ ->]|[h2' E2]]; [done|].
        by destruct (Hno h1 h2').
    + rewrite Eo. split; [done|]. intros (h1 & h2 & E & Hb & ->).
      destruct (reached_snoc base h e h1 h2 E Hb) as [[_ ->]|[h2' E2]]; [by apply Hreach in Hb; congruence|].
      by destruct (Hno h1 h2').
Qed.

Lemma origins_inv h c e cs :
  count_inv h c -> bt_ok cs -> (forall k, anchor_key k -> bt_get k cs = count_of k (h ++ [e])) ->
  count_inv (h ++ [e]) {| counts := cs;
    origins := foldl (note_origin p e.1 e.2 (Z.of_nat (length h) + 1) cs) (origins c)
                 (List.filter (on_thread dettid) (pr_anchors p).*2) |}.
Proof.
  intros Hi Hok Hcs.
  pose proof (fold_origins cs (Z.of_nat (length h) + 1) e.1 e.2
    (List.filter (on_thread dettid) (pr_anchors p).*2) (origins c)) as Hfold.
  split; cbn [counts origins]; [done..| |].
  - apply (Hfold {| an_name := []; an_thread := {| tr_label := []; tr_dettid := None; tr_spawn_ordinal := None |};
      an_position := Rcb 0; an_location := {| function := None; file := None; line := None |};
      an_from := None |}); [apply Hi|apply anchor_names_NoDup].
  - intros x a b base Ha Hon Hfrom Hbase o.
    destruct (Hfold a) as (_ & Hin & _); [apply Hi|apply anchor_names_NoDup|].
    rewrite <- (po_names _ Hp x a Ha), Hin by (apply elem_of_List_filter; eauto using anchor_elem).
    rewrite (po_names _ Hp x a Ha). by eapply origins_step.
Qed.

(** ** Firing *)

Lemma anchor_fires_spec h e c a :
  count_inv (h ++ [e]) c -> a ∈ (pr_anchors p).*2 -> on_thread dettid a = true -> matches a e = true ->
  Z.of_nat (length h) < u64_max ->
  exists b, anchor_fires bp c a = Done b /\ (b = true <-> fires_at p a (h ++ [e])).
Proof.
  intros Hi Ha Hon Hm Hlen. destruct (matches_occurrence a e Hm) as [Hocc [k Hk]].
  destruct (occurrence_nth a Hocc) as (s & ph & nth & fd & op & Hpos).
  unfold anchor_fires, fires_at. rewrite Hpos, Hk. simpl position_nth.
  rewrite (ci_counts _ _ Hi), count_of_default, <- (n_match_key a k) by (done || (by exists a)).
  assert (Hlast : exists h0 e0, h ++ [e] = h0 ++ [e0] /\ matches a e0 = true) by eauto.
  destruct (an_from a) as [b|] eqn:Hfrom.
  2:{ eexists. split; [done|]. rewrite Z.eqb_eq. split; [eauto|]. by intros (_ & ? & [= <-] & ?). }
  pose proof (elem_anchor a Ha) as Hget.
  destruct (po_bases _ Hp _ a Hget b Hfrom) as (base & Hbase & _).
  pose proof (ci_origins _ _ Hi _ a b base Hget Hon Hfrom Hbase) as Horig.
  destruct (bt_get (an_name a) (origins c)) as [o|] eqn:Eo.
  - destruct (proj1 (Horig o) eq_refl) as (h1 & h2 & E & Hb & ->).
    assert (En : n_match a (h ++ [e]) - n_match a h1 = n_match a h2) by (rewrite E, n_match_app; lia).
    rewrite En, arith_u_exact.
    + bind_done. eexists. split; [done|]. rewrite Z.eqb_eq. split.
      * intros Hn. split; [done|]. exists nth. split; [done|]. by exists base, h1, h2.
      * intros (_ & n & [= <-] & base' & g1 & g2 & Hbase' & E' & Hb' & <-). simplify_eq.
        rewrite E in E'. pose proof (base_reached_unique _ _ _ _ _ E' Hb Hb') as <-.
        by apply app_inv_head in E' as <-.
    + rewrite (n_match_key a k h2 Hk). pose proof (n_key_nonneg k h2). pose proof (n_key_le k h2).
      assert (Hl : (length h2 <= length (h ++ [e]))%nat) by (rewrite E, length_app; lia).
      rewrite length_app in Hl. simpl in Hl. unfold u64_max in Hlen. lia.
  - eexists. split; [done|]. split; [done|].
    intros (_ & n & _ & base' & h1 & h2 & Hbase' & E & Hb & _). simplify_eq.
    by assert (@None Z = Some (n_match a h1)) by (apply Horig; eauto).
Qed.

Lemma fired_names_spec h e c l :
  count_inv (h ++ [e]) c -> (forall a, a ∈ l -> a ∈ (pr_anchors p).*2) -> Z.of_nat (length h) < u64_max ->
  exists ns, fired_names bp dettid e.1 e.2 c l = Done ns /\ ns `sublist_of` (an_name <$> l)
    /\ forall n, n ∈ ns <-> exists a, a ∈ l /\ an_name a = n /\ on_thread dettid a = true
                              /\ fires_at p a (h ++ [e]).
Proof.
  intros Hi Hsub Hlen. induction l as [|a l IH]; cbn [fired_names].
  { exists []. split_and!; [done|done|]. intros n. split; [intros Hx; inversion Hx|].
    intros (? & Hx & _). inversion Hx. }
  destruct IH as (ns & Hns & Hsl & Hin); [set_solver|].
  assert (Hskip : on_thread dettid a && matches a e = false ->
    ~ (on_thread dettid a = true /\ fires_at p a (h ++ [e]))).
  { intros Hf [Hon [(h0 & e0 & E & Hm) _]]. apply app_inj_tail in E as [_ <-]. by rewrite Hon, Hm in Hf. }
  fold (matches a e). destruct (on_thread dettid a && matches a e) eqn:E.
  - apply andb_true_iff in E as [Hon Hm].
    destruct (anchor_fires_spec h e c a Hi) as (b & -> & Hb); [set_solver|done..|]. bind_done.
    rewrite Hns. bind_done. eexists. split; [done|]. destruct b; split.
    + by apply sublist_skip.
    + intros n. rewrite elem_of_cons, Hin. split; [|set_solver].
      intros [->|(a' & ? & ?)]; [exists a|exists a']; set_solver.
    + by apply sublist_cons.
    + intros n. rewrite Hin. split; [set_solver|]. intros (a' & [->|?]%elem_of_cons & ? & ? & Hf); [|eauto].
      by apply Hb in Hf.
  - rewrite Hns. exists ns. split; [done|]. split; [by apply sublist_cons|].
    intros n. rewrite Hin. split; [set_solver|].
    intros (a' & [->|?]%elem_of_cons & ? & ? & ?); [|by eauto]. by destruct (Hskip eq_refl).
Qed.

Lemma count_step h c e :
  count_inv h c -> Z.of_nat (length h) < u64_max ->
  exists ns c', count_syscall_occurrences bp p dettid e.1 e.2 (Z.of_nat (length h) + 1) c = Done (ns, c')
    /\ count_inv (h ++ [e]) c' /\ NoDup ns
    /\ forall n, n ∈ ns <-> exists a, bt_get n (pr_anchors p) = Some a /\ on_thread dettid a = true
                              /\ fires_at p a (h ++ [e]).
Proof.
  intros Hi Hlen. unfold count_syscall_occurrences.
  destruct (bump_inv h c e Hi Hlen) as (cs & -> & Hok & Hcs). bind_done.
  pose proof (origins_inv h c e cs Hi Hok Hcs) as Hi'.
  set (c' := {| counts := cs; origins := _ |}) in *.
  destruct (fired_names_spec h e c' (pr_anchors p).*2 Hi' ltac:(done) Hlen) as (ns & Hns & Hsub & Hin).
  assert (Hin' : forall n, n ∈ ns <-> exists a, bt_get n (pr_anchors p) = Some a /\ on_thread dettid a = true
                              /\ fires_at p a (h ++ [e])).
  { intros n. rewrite Hin. split.
    - intros (a & Ha & <- & ? & ?). exists a. by rewrite (elem_anchor a Ha).
    - intros (a & Ha & ? & ?). exists a. split_and!; [by eapply anchor_elem|by eapply po_names|done..]. }
  assert (Hnd : NoDup ns).
  { eapply sublist_NoDup; [|exact Hsub]. rewrite <- (List.filter_true (pr_anchors p).*2).
    apply anchor_names_NoDup. }
  destruct (entry_keys p e.1 e.2) as [|kv ks] eqn:Ek; [|rewrite Hns; bind_done; by exists ns, c'].
  exists [], c'. split_and!; [done|done|by apply NoDup_nil_2|]. intros n. rewrite <- Hin'.
  destruct ns as [|n0 ns]; [done|]. exfalso.
  destruct (proj1 (Hin' n0) ltac:(set_solver)) as (a & Ha & _ & (h0 & e0 & E & Hm) & _).
  apply app_inj_tail in E as [_ <-]. destruct (matches_occurrence a e Hm) as [_ [k Hk]].
  destruct (entry_keys_spec e k) as [_ Hmem]; [exists a; eauto using anchor_elem|].
  rewrite Ek in Hmem. rewrite (matches_key a k Hk) in Hm. apply Hmem in Hm. inversion Hm.
Qed.

Lemma new_counters_inv : count_inv [] new_counters.
Proof.
  split; [apply bt_ok_nil|done|apply bt_ok_nil|].
  intros x a b base _ _ _ _ o. split; [done|]. intros (h1 & h2 & E & Hb & _).
  symmetry in E. apply app_eq_nil in E as [-> ->]. unfold base_reached_at in Hb.
  destruct (an_position base); [by destruct Hb|done| |done|done].
  destruct Hb as (h0 & e & E & _). by destruct h0.
Qed.

Lemma run_entries_inv h h0 c :
  count_inv h0 c -> Z.of_nat (length (h0 ++ h)) < u64_max ->
  exists r c', run_entries h (Z.of_nat (length h0)) c = Done (r, c') /\ count_inv (h0 ++ h) c'.
Proof.
  revert h0 c. induction h as [|e h IH]; intros h0 c Hi Hlen; cbn [run_entries].
  { exists [], c. by rewrite app_nil_r. }
  rewrite length_app in Hlen. simpl in Hlen.
  destruct (count_step h0 c e Hi) as (ns & c1 & -> & Hi1 & _); [lia|]. bind_done.
  destruct (IH (h0 ++ [e]) c1 Hi1) as (r & c2 & Hr & Hi2).
  { rewrite !length_app. simpl. lia. }
  rewrite length_app in Hr. replace (Z.of_nat (length h0 + length [e])) with (Z.of_nat (length h0) + 1) in Hr
    by (simpl; lia).
  rewrite Hr. bind_done. exists (ns :: r), c2. split; [done|]. by rewrite <- app_assoc in Hi2.
Qed.

(** An anchor names at most one entry of a history. *)
Lemma n_match_snoc a h e : matches a e = true -> n_match a (h ++ [e]) = n_match a h + 1.
Proof. intros Hm. rewrite n_match_app. unfold n_match at 2. simpl. by rewrite Hm. Qed.
Lemma n_match_nonneg a h : 0 <= n_match a h.
Proof. unfold n_match. lia. Qed.

Lemma fires_once a h1 h2 : fires_at p a h1 -> fires_at p a (h1 ++ h2) -> h2 = [].
Proof.
  intros [(h0 & e & E0 & Hm) (nth & Hnth & Hf)] [(g0 & e' & E' & Hm') (nth' & Hnth' & Hf')].
  simplify_eq. destruct h2 as [|x h2 _] using rev_ind; [done|]. exfalso.
  rewrite app_assoc in E'. apply app_inj_tail in E' as [<- <-].
  destruct (an_from a) as [b|].
  - destruct Hf as (base & k1 & k2 & Hb & E & Hr & Hn), Hf' as (base' & l1 & l2 & Hb' & El & Hr' & Hn').
    simplify_eq. rewrite E, <- app_assoc in El. 
    pose proof (base_reached_unique _ _ _ _ _ El Hr Hr') as <-. apply app_inv_head in El as <-.
    rewrite !n_match_app in Hn'. unfold n_match in Hn' at 3. simpl in Hn'. rewrite Hm' in Hn'.
    pose proof (n_match_nonneg a h2). simpl in Hn'. lia.
  - rewrite app_assoc, (n_match_snoc a _ x Hm'), n_match_app in Hf'. pose proof (n_match_nonneg a h2). lia.
Qed.
End Run.

(** C26: over any syscall history of a thread, the counters a thread keeps
    fire exactly the anchors the whole history defines: those on this thread
    (or on a spawn ordinal) for which the current entry is the [nth] match,
    counted from the start of the thread or, for a relative anchor, from the
    entry at which its base was reached.  No anchor is named by two entries of
    one thread, and no counter or difference overflows. *)
Theorem occurrence_counting_exact bp p dettid h e :
  program_ok p -> Z.of_nat (length h) < u64_max ->
  exists r c ns c',
    run_entries bp p dettid h 0 new_counters = Done (r, c)
    /\ count_syscall_occurrences bp p dettid e.1 e.2 (Z.of_nat (length h) + 1) c = Done (ns, c')
    /\ NoDup ns
    /\ (forall n, n ∈ ns <-> exists a, bt_get n (pr_anchors p) = Some a /\ on_thread dettid a = true
                               /\ fires_at p a (h ++ [e]))
    /\ (forall a h1 h2, fires_at p a h1 -> fires_at p a (h1 ++ h2) -> h2 = []).
Proof.
  intros Hp Hlen.
  destruct (run_entries_inv bp p dettid Hp h [] new_counters) as (r & c & Hr & Hi);
    [apply new_counters_inv|done|].
  destruct (count_step bp p dettid Hp h c e Hi Hlen) as (ns & c' & Hc & _ & Hnd & Hin).
  exists r, c, ns, c'. split_and!; [done..|]. intros a. apply fires_once.
Qed.
