(* ===== verification/HbGate.v ===== *)
(** * Happens-before gates (src/detcore/src/scheduler.rs, src/detcore/src/lib.rs)

    The run-time state that enforces a happens-before program and the scheduler
    methods that use it, over the run queue of RunQueue.v: a thread that
    reaches the AFTER anchor of a hard edge before the BEFORE anchor has fired
    is taken out of the queue, and is put back when some anchor fires.  A
    refusal is modelled as the data its text is formatted from. *)
From Stdlib Require Import ZArith Lia List.
From stdpp Require Import base gmap list.
From S2P Require Import Prelude BTree RunQueue Time Schedule Text HappensBefore.
Import HappensBefore.
Open Scope Z_scope.

Module HbGate.

Record HbHold := { since_ns : Z; hold_anchors : list text }.

Record HbRuntime := {
  program : HappensBeforeProgram;
  fired : list (text * ());
  parked : list (DetTid * ());
  spawn_order : list DetTid;
  wake_pending : bool;
  held_at : list (DetTid * list text);
  holds : list (DetTid * HbHold);
}.

Definition new (p : HappensBeforeProgram) : HbRuntime :=
  {| program := p; fired := []; parked := []; spawn_order := []; wake_pending := false;
     held_at := []; holds := [] |}.

Definition set_spawn_order (l : list DetTid) (hb : HbRuntime) : HbRuntime :=
  {| program := program hb; fired := fired hb; parked := parked hb; spawn_order := l;
     wake_pending := wake_pending hb; held_at := held_at hb; holds := holds hb |}.
Definition set_wake_pending (w : bool) (hb : HbRuntime) : HbRuntime :=
  {| program := program hb; fired := fired hb; parked := parked hb; spawn_order := spawn_order hb;
     wake_pending := w; held_at := held_at hb; holds := holds hb |}.
Definition set_parked (pk : list (DetTid * ())) (ha : list (DetTid * list text))
    (ho : list (DetTid * HbHold)) (hb : HbRuntime) : HbRuntime :=
  {| program := program hb; fired := fired hb; parked := pk; spawn_order := spawn_order hb;
     wake_pending := wake_pending hb; held_at := ha; holds := ho |}.
Definition set_fired (f : list (text * ())) (hb : HbRuntime) : HbRuntime :=
  {| program := program hb; fired := f; parked := parked hb; spawn_order := spawn_order hb;
     wake_pending := wake_pending hb; held_at := held_at hb; holds := holds hb |}.

Definition note_spawn (hb : HbRuntime) (t : DetTid) : HbRuntime :=
  if bool_decide (t ∈ spawn_order hb) then hb else set_spawn_order (spawn_order hb ++ [t]) hb.

Definition thread_matches (hb : HbRuntime) (tref : ThreadRef) (t : DetTid) : bool :=
  match tr_dettid tref with
  | Some d => d =? t
  | None =>
      match tr_spawn_ordinal tref with
      | Some ord => bool_decide (spawn_order hb !! Z.to_nat ord = Some t)
      | None => false
      end
  end.

Definition anchors_at_syscall (hb : HbRuntime) (t : DetTid) (count : Z) : list text :=
  an_name <$> List.filter (fun a => match an_position a with SyscallCount n => n =? count | _ => false end
                                    && thread_matches hb (an_thread a) t)
                (pr_anchors (program hb)).*2.

Definition occurrence_anchors_on (hb : HbRuntime) (t : DetTid) (names : list text) : list text :=
  List.filter (fun n => match bt_get n (pr_anchors (program hb)) with
                        | Some a => is_syscall_occurrence a && thread_matches hb (an_thread a) t
                        | None => false
                        end) names.

Definition is_hard (e : HappensBeforeEdge) : bool :=
  match ed_strength e with Hard => true | Soft => false end.

(** The hard edges into [after] whose source has not fired. *)
Definition open_edges (hb : HbRuntime) (after : text) : list HappensBeforeEdge :=
  List.filter (fun e => bool_decide (ed_after e = after) && is_hard e
                        && negb (bt_mem (ed_before e) (fired hb)))
    (pr_edges (program hb)).

Definition anchor_blocked (hb : HbRuntime) (name : text) : bool :=
  existsb (fun e => bool_decide (ed_after e = name) && is_hard e
                    && negb (bt_mem (ed_before e) (fired hb)))
    (pr_edges (program hb)).

(** ** Refusals *)

Abbreviation unfired_line := (Anchor * HappensBeforeEdge)%type.
Inductive verdict :=
  | HbAnchorNeverFired (lines : list (unfired_line * DetTid))
  | HbHoldInVforkChild (reached : list text) (t : DetTid)
  | HbHoldBudgetExceeded (t : DetTid) (held : list text) (budget : Z) (lines : list unfired_line)
  | HbPosthookInterrupted (t : DetTid) (anchors : list text) (count : Z) (code : text)
  | HbRelativeAcrossIdentity (caller leader : DetTid) (names : list (text * text))
  | OtherVerdict.

(** [self.program.anchors[&edge.before]] for each of the edges. *)
Fixpoint unfired_lines (p : HappensBeforeProgram) (es : list HappensBeforeEdge)
    : outcome (list unfired_line) :=
  match es with
  | [] => Done []
  | e :: es' =>
      before ← expect (bt_get (ed_before e) (pr_anchors p));
      rest ← unfired_lines p es';
      Done ((before, e) :: rest)
  end.
Definition unfired_befores (hb : HbRuntime) (after : text) : outcome (list unfired_line) :=
  unfired_lines (program hb) (open_edges hb after).

Fixpoint all_unfired (hb : HbRuntime) (afters : list text) : outcome (list unfired_line) :=
  match afters with
  | [] => Done []
  | a :: afters' =>
      l ← unfired_befores hb a;
      rest ← all_unfired hb afters';
      Done (l ++ rest)
  end.

Fixpoint held_lines (hb : HbRuntime) (ts : list DetTid) : outcome (list (unfired_line * DetTid)) :=
  match ts with
  | [] => Done []
  | t :: ts' =>
      l ← all_unfired hb (default [] (bt_get t (held_at hb)));
      rest ← held_lines hb ts';
      Done (((fun x => (x, t)) <$> l) ++ rest)
  end.
Definition held_gate_refusal (hb : HbRuntime) : outcome (option verdict) :=
  match parked hb with
  | [] => Done None
  | _ => l ← held_lines hb (parked hb).*1; Done (Some (HbAnchorNeverFired l))
  end.

(** The unfired syscall-occurrence anchors, each with the edges that use it and,
    for a relative one, its base and whether that fired. *)
Definition unfired_occurrence_report (hb : HbRuntime)
    : option (list (Anchor * list HappensBeforeEdge * option (text * bool))) :=
  let unfired := List.filter (fun a => is_syscall_occurrence a && negb (bt_mem (an_name a) (fired hb)))
                   (pr_anchors (program hb)).*2 in
  match unfired with
  | [] => None
  | _ => Some ((fun a =>
      (a,
       List.filter (fun e => bool_decide (ed_before e = an_name a) || bool_decide (ed_after e = an_name a))
         (pr_edges (program hb)),
       (fun base => (base, bt_mem base (fired hb))) <$> an_from a)) <$> unfired)
  end.

Definition over_budget (hb : HbRuntime) (now_ns budget : Z) (h : DetTid * HbHold) : bool :=
  (budget <? sat_sub_u64 now_ns (since_ns h.2)) && existsb (anchor_blocked hb) (hold_anchors h.2).
Definition hold_budget_refusal (hb : HbRuntime) (now_ns : Z) : outcome (option verdict) :=
  match pr_max_hold_ns (program hb) with
  | None => Done None
  | Some budget =>
      match List.find (over_budget hb now_ns budget) (holds hb) with
      | None => Done None
      | Some (t, hold) =>
          l ← all_unfired hb (hold_anchors hold);
          Done (Some (HbHoldBudgetExceeded t (hold_anchors hold) budget l))
      end
  end.

Definition relative_identity_refusal (hb : HbRuntime) (caller leader : DetTid) : option verdict :=
  let names := (fun ab => (an_name ab.1, an_name ab.2))
    <$> List.filter (fun ab => thread_matches hb (an_thread ab.1) caller
                               || thread_matches hb (an_thread ab.1) leader)
          (relative_anchors (program hb)) in
  match names with [] => None | _ => Some (HbRelativeAcrossIdentity caller leader names) end.

(** ** The scheduler *)

Inductive TerminalKind := HermitStall | GuestDeadlock | Refusal.
(** [Ok(())] or [Err(SkipTurn)] of a turn. *)
Inductive turn_result := Granted | SkipTurn.

Section Scheduler.
Context (bp : profile) {G : Type} `{!Rng G}.

(** The fields of the scheduler the gates read and write. *)
Record Scheduler := {
  happens_before : option HbRuntime;
  run_queue : RunQueue G;
  priorities : list (DetTid * Priority);
  committed_time : Z;
  vfork_barriers : list (DetTid * option DetTid);
  turn : Z;
  terminal_deadlock : option verdict;
  terminal_kind : TerminalKind;
}.

Definition set_hb (hb : option HbRuntime) (s : Scheduler) : Scheduler :=
  {| happens_before := hb; run_queue := run_queue s; priorities := priorities s;
     committed_time := committed_time s; vfork_barriers := vfork_barriers s; turn := turn s;
     terminal_deadlock := terminal_deadlock s; terminal_kind := terminal_kind s |}.
Definition set_rq (q : RunQueue G) (s : Scheduler) : Scheduler :=
  {| happens_before := happens_before s; run_queue := q; priorities := priorities s;
     committed_time := committed_time s; vfork_barriers := vfork_barriers s; turn := turn s;
     terminal_deadlock := terminal_deadlock s; terminal_kind := terminal_kind s |}.
Definition set_turn (n : Z) (s : Scheduler) : Scheduler :=
  {| happens_before := happens_before s; run_queue := run_queue s; priorities := priorities s;
     committed_time := committed_time s; vfork_barriers := vfork_barriers s; turn := n;
     terminal_deadlock := terminal_deadlock s; terminal_kind := terminal_kind s |}.

(** [if self.terminal_deadlock.is_none() { ... = Some(v); kind = Refusal }] *)
Definition refuse (v : verdict) (s : Scheduler) : Scheduler :=
  match terminal_deadlock s with
  | Some _ => s
  | None =>
      {| happens_before := happens_before s; run_queue := run_queue s; priorities := priorities s;
         committed_time := committed_time s; vfork_barriers := vfork_barriers s; turn := turn s;
         terminal_deadlock := Some v; terminal_kind := Refusal |}
  end.

Definition hb_note_spawn (s : Scheduler) (t : DetTid) : Scheduler :=
  match happens_before s with
  | Some hb => set_hb (Some (note_spawn hb t)) s
  | None => s
  end.

Definition skip_turn (s : Scheduler) : outcome (turn_result * Scheduler) :=
  n ← arith_u bp 64 (turn s + 1);
  Done (SkipTurn, set_turn n s).
Definition skip_turn_blocked (s : Scheduler) (t : DetTid) : outcome (turn_result * Scheduler) :=
  q ← undo_tentative_pop (run_queue s);
  '(removed, q) ← remove_tid q t;
  _ ← assert_ removed;
  skip_turn (set_rq q s).

Definition hb_posthook_interrupted (s : Scheduler) (t : DetTid) (count : Z) (anchors : list text)
    (code : text) : outcome (turn_result * Scheduler) :=
  hb ← expect (happens_before s);
  match occurrence_anchors_on hb t anchors with
  | [] => Done (Granted, s)
  | on => skip_turn_blocked (refuse (HbPosthookInterrupted t on count code) s) t
  end.

(** Firing the reached anchors: the new set, and whether it grew. *)
Definition fire_all (f : list (text * ())) (names : list text) : list (text * ()) * bool :=
  foldl (fun '(f, grew) n => (bt_insert n tt f, grew || negb (bt_mem n f))) (f, false) names.

Definition reached_at (hb : HbRuntime) (t : DetTid) (count : Z) (occurrence_anchors : list text)
    : list text :=
  anchors_at_syscall hb t count ++ occurrence_anchors_on hb t occurrence_anchors.

(** Parking the thread at its closed gate. *)
Definition park (now_ns : Z) (t : DetTid) (reached : list text) (hb : HbRuntime) : HbRuntime :=
  set_parked (bt_insert t tt (parked hb)) (bt_insert t reached (held_at hb))
    (if bt_mem t (holds hb) then holds hb
     else bt_insert t {| since_ns := now_ns; hold_anchors := reached |} (holds hb)) hb.

(** Granting passage. *)
Definition grant (t : DetTid) (reached : list text) (hb : HbRuntime) : HbRuntime :=
  let '(f, newly) := fire_all (fired hb) reached in
  let hb := set_parked (parked hb) (held_at hb) (bt_remove t (holds hb)) (set_fired f hb) in
  if newly : bool then set_wake_pending true hb else hb.

Definition hb_checkpoint (s : Scheduler) (t : DetTid) (count : Z) (occurrence_anchors : list text)
    : outcome (turn_result * Scheduler) :=
  hb ← expect (happens_before s);
  let reached := reached_at hb t count occurrence_anchors in
  let blocked := existsb (anchor_blocked hb) reached in
  if (length reached =? 0)%nat then Done (Granted, s)
  else if blocked then
    let s1 := if existsb (fun b => bool_decide (b.2 = Some t)) (vfork_barriers s)
              then refuse (HbHoldInVforkChild reached t) s else s in
    skip_turn_blocked (set_hb (Some (park (committed_time s) t reached hb)) s1) t
  else Done (Granted, set_hb (Some (grant t reached hb)) s).

Definition get_priority (s : Scheduler) (t : DetTid) : outcome Priority :=
  expect (bt_get t (priorities s)).
Definition runqueue_push_back (s : Scheduler) (t : DetTid) : outcome Scheduler :=
  p ← get_priority s t;
  '(_, q) ← push_back bp (run_queue s) t p;
  Done (set_rq q s).

Definition unpark (t : DetTid) (hb : HbRuntime) : HbRuntime :=
  set_parked (bt_remove t (parked hb)) (bt_remove t (held_at hb)) (holds hb) hb.

Fixpoint readmit (ts : list DetTid) (hb : HbRuntime) (s : Scheduler) : outcome Scheduler :=
  match ts with
  | [] => Done (set_hb (Some hb) s)
  | t :: ts' =>
      let hb := unpark t hb in
      s ← (if contains_tid (run_queue s) t then Done s else runqueue_push_back s t);
      readmit ts' hb s
  end.
Definition hb_flush_wakes (s : Scheduler) : outcome Scheduler :=
  match happens_before s with
  | Some hb =>
      if wake_pending hb then readmit (parked hb).*1 (set_wake_pending false hb) s else Done s
  | None => Done s
  end.

Definition hb_check_hold_budget (s : Scheduler) : outcome (turn_result * Scheduler) :=
  match happens_before s with
  | None => Done (Granted, s)
  | Some hb =>
      r ← hold_budget_refusal hb (committed_time s);
      match r with
      | None => Done (Granted, s)
      | Some v => Done (SkipTurn, refuse v s)
      end
  end.

(** What a killed thread leaves behind here. *)
Definition hb_forget (s : Scheduler) (t : DetTid) : Scheduler :=
  match happens_before s with
  | None => s
  | Some hb => set_hb (Some (set_parked (bt_remove t (parked hb)) (bt_remove t (held_at hb))
                               (bt_remove t (holds hb)) hb)) s
  end.
End Scheduler.
Arguments Scheduler G : clear implicits.

(** ** The guest side of a checkpoint *)

Inductive ResourceID :=
  | HappensBeforeCheckpoint (count : Z)
  | HappensBeforeSyscallCheckpoint (count : Z) (anchors : list text)
  | HappensBeforePosthookInterrupted (count : Z) (anchors : list text) (code : text).

(** The checkpoint a syscall entry makes at its prehook, the posthook anchors it
    leaves for its completion, and the thread's counters. *)
Definition entry_checkpoint (bp : profile) (p : HappensBeforeProgram) (t : DetTid) (sysno : Sysno)
    (args : Z * Z) (new_count : Z) (counters : HbThreadCounters)
    : outcome (option ResourceID * list text * HbThreadCounters) :=
  '(reached, counters) ←
    (if has_syscall_occurrence_anchors p
     then count_syscall_occurrences bp p t sysno args new_count counters
     else Done ([], counters));
  let is_posthook := fun name => match bt_get name (pr_anchors p) with
                                 | Some a => fires_at_posthook a
                                 | None => false
                                 end in
  let posthook := List.filter is_posthook reached in
  let reached := List.filter (fun n => negb (is_posthook n)) reached in
  let checkpoint :=
    match reached with
    | _ :: _ => Some (HappensBeforeSyscallCheckpoint new_count reached)
    | [] => if may_have_syscall_count_anchor_at p t new_count
            then Some (HappensBeforeCheckpoint new_count) else None
    end in
  Done (checkpoint, posthook, counters).

(** The result of a syscall as the posthook sees it. *)
Inductive syscall_end :=
  | Returned (v : Z)
  | RestartCode (name : text)
  | Errno (n : Z)
  | ToolFailure.
Definition posthook_checkpoint (count : Z) (anchors : list text) (r : syscall_end) : option ResourceID :=
  match anchors with
  | [] => None
  | _ =>
      match r with
      | RestartCode code => Some (HappensBeforePosthookInterrupted count anchors code)
      | Returned _ | Errno _ => Some (HappensBeforeSyscallCheckpoint count anchors)
      | ToolFailure => None
      end
  end.

(** The turn of a happens-before request. *)
Definition block_for_hb (bp : profile) {G} (s : Scheduler G) (t : DetTid) (r : ResourceID)
    : outcome (turn_result * Scheduler G) :=
  match r with
  | HappensBeforeCheckpoint count => hb_checkpoint bp s t count []
  | HappensBeforeSyscallCheckpoint count anchors => hb_checkpoint bp s t count anchors
  | HappensBeforePosthookInterrupted count anchors code =>
      hb_posthook_interrupted bp s t count anchors code
  end.

End HbGate.
