(* ===== verification/HbGateInv.v ===== *)
(** The happens-before gates under any sequence of scheduler events.

    [hb_event] lists what touches the gates: the requests of selected threads,
    the flush of the deferred wake-ups, the budget check, thread creation and
    death, every run-queue call of the rest of the scheduler, and the passing
    of committed time.  [gate_inv] holds after every sequence within the
    scheduler's contract, and no step of one panics. *)
From Stdlib Require Import ZArith Lia List.
From stdpp Require Import base gmap relations list.
From S2P Require Import Prelude BTree RunQueue RunQueueInv RunQueueOrder Time Schedule Text HappensBefore HbCycle HbNormalize HbGate.
Import HappensBefore HbGate.
Open Scope Z_scope.

Inductive hb_event :=
  | ERequest (t : DetTid) (r : ResourceID)
  | EFlush
  | EBudget
  | ESpawn (t : DetTid)
  | EForget (t : DetTid)
  | EQueue (c : rq_call)
  | ETime (now : Z).

Definition is_fired (hb : HbRuntime) (n : text) : Prop := n ∈ (fired hb).*1.
Definition hard_edge (p : HappensBeforeProgram) (x y : text) : Prop :=
  exists e, e ∈ pr_edges p /\ is_hard e = true /\ ed_before e = x /\ ed_after e = y.

(** ** Sorted maps used as sets *)

Section Keys.
Context {K V : Type} `{OrdKeyLaws K} `{EqDecision K}.

Lemma bt_insert_key (k x : K) (v : V) m :
  bt_ok m -> x ∈ (bt_insert k v m).*1 <-> x = k \/ x ∈ m.*1.
Proof.
  intros Hm. rewrite <- (bt_mem_true (bt_insert k v m)) by (by apply bt_insert_ok).
  rewrite <- (bt_mem_true m) by done. unfold bt_mem. destruct (decide (x = k)) as [->|Hne].
  - rewrite bt_get_insert_eq by done. tauto.
  - rewrite bt_get_insert_ne by done. destruct (bt_get x m); naive_solver.
Qed.
Lemma bt_remove_key (k x : K) (m : list (K * V)) :
  bt_ok m -> x ∈ (bt_remove k m).*1 <-> x <> k /\ x ∈ m.*1.
Proof.
  intros Hm. rewrite <- (bt_mem_true (bt_remove k m)) by (by apply bt_remove_ok).
  rewrite <- (bt_mem_true m) by done. unfold bt_mem. destruct (decide (x = k)) as [->|Hne].
  - rewrite bt_get_remove_eq by done. split; [done|]. by intros [? _].
  - rewrite bt_get_remove_ne by done. destruct (bt_get x m); naive_solver.
Qed.
End Keys.

Lemma fire_all_spec f names :
  bt_ok f ->
  bt_ok (fire_all f names).1
  /\ (forall n, n ∈ (fire_all f names).1.*1 <-> n ∈ f.*1 \/ n ∈ names)
  /\ ((fire_all f names).2 = false -> forall n, n ∈ names -> n ∈ f.*1).
Proof.
  unfold fire_all.
  assert (H : forall (names : list text) f g, bt_ok f ->
    let r := foldl (fun '(f, grew) n => (bt_insert n tt f, grew || negb (bt_mem n f))) (f, g) names in
    bt_ok r.1 /\ (forall n, n ∈ r.1.*1 <-> n ∈ f.*1 \/ n ∈ names)
    /\ (r.2 = false -> g = false /\ forall n, n ∈ names -> n ∈ f.*1)).
  { clear f names. induction names as [|x names IH]; intros f g Hf; simpl.
    { split_and!; [done|set_solver|]. intros ->. split; [done|]. intros n Hn. inversion Hn. }
    assert (Hkey : forall n, n ∈ (bt_insert x tt f).*1 <-> n = x \/ n ∈ f.*1).
    { intros n. by apply bt_insert_key. }
    destruct (IH (bt_insert x tt f) (g || negb (bt_mem x f))) as (Hok & Hin & Hg); [by apply bt_insert_ok|].
    split_and!; [done| |].
    - intros n. rewrite Hin, Hkey, elem_of_cons. tauto.
    - intros Hr. destruct (Hg Hr) as [Hx Hall]. apply orb_false_iff in Hx as [-> Hx].
      apply negb_false_iff, bt_mem_true in Hx; [|done]. split; [done|].
      intros n [->|Hn]%elem_of_cons; [done|]. apply Hall, Hkey in Hn as [->|]; done. }
  intros Hf. destruct (H names f false Hf) as (? & ? & Hg). split_and!; [done..|]. intros Hr. by apply Hg.
Qed.

Lemma anchor_blocked_true hb n :
  bt_ok (fired hb) ->
  anchor_blocked hb n = true <-> exists x, hard_edge (program hb) x n /\ ~ is_fired hb x.
Proof.
  intros Hf. unfold anchor_blocked, hard_edge, is_fired. rewrite existsb_elem. split.
  - intros (e & He & Hb). apply andb_true_iff in Hb as [[Hn Hh]%andb_true_iff Hm].
    apply bool_decide_eq_true in Hn. apply negb_true_iff, bt_mem_false in Hm; [|done].
    exists (ed_before e). split; [by exists e|done].
  - intros (x & (e & He & Hh & <- & <-) & Hm). exists e. split; [done|].
    rewrite bool_decide_true, Hh by done. simpl. apply negb_true_iff. by apply bt_mem_false.
Qed.

Section Gate.
Context (bp : profile) {G : Type} `{!Rng G}.
Implicit Types (s : Scheduler G) (P : list SuspendedRunQueueEntry).
Abbreviation state := (Scheduler G * list SuspendedRunQueueEntry)%type.

Definition exec_event (ev : hb_event) (st : state) : outcome state :=
  let '(s, P) := st in
  match ev with
  | ERequest t r => '(_, s') ← block_for_hb bp s t r; Done (s', P)
  | EFlush => s' ← hb_flush_wakes bp s; Done (s', P)
  | EBudget => '(_, s') ← hb_check_hold_budget s; Done (s', P)
  | ESpawn t => Done (hb_note_spawn s t, P)
  | EForget t => Done (hb_forget s t, P)
  | EQueue c => '(q, P') ← exec bp c (run_queue s, P); Done (set_rq q s, P')
  | ETime now =>
      Done ({| happens_before := happens_before s; run_queue := run_queue s;
               priorities := priorities s; committed_time := now;
               vfork_barriers := vfork_barriers s; turn := turn s;
               terminal_deadlock := terminal_deadlock s; terminal_kind := terminal_kind s |}, P)
  end.

(** The states a sequence of events passes through, the first one included. *)
Fixpoint run_events (evs : list hb_event) (st : state) : outcome (list state) :=
  match evs with
  | [] => Done [st]
  | ev :: evs' => st' ← exec_event ev st; sts ← run_events evs' st'; Done (st :: sts)
  end.

(** What the rest of the scheduler guarantees: a request is handled in the
    turn of the selected thread; wake-ups are flushed with no selection open,
    every held thread has a priority and there is room in the queue's counters;
    no other queue call admits a held thread; time does not go back. *)
Definition held (s : Scheduler G) (t : DetTid) : Prop :=
  exists hb, happens_before s = Some hb /\ t ∈ (parked hb).*1.
Definition event_ok (ev : hb_event) (st : state) : Prop :=
  let '(s, P) := st in
  match ev with
  | ERequest t r => tentative_selection (run_queue s) = Some t /\ turn s < u64_max
  | EFlush =>
      unlocked (run_queue s)
      /\ (forall t, held s t -> exists pr, bt_get t (priorities s) = Some pr /\ is_ordinary_priority pr = true)
      /\ forall hb, happens_before s = Some hb ->
           last_back_turn (run_queue s) + Z.of_nat (length (parked hb)) < RUN_TIME_TURNS
           /\ - RUN_TIME_TURNS < last_front_turn (run_queue s) - 1
           /\ poll_upgrades (run_queue s) + Z.of_nat (length (parked hb)) <= u64_max
  | EQueue c =>
      call_ok c (run_queue s, P)
      /\ forall q P', exec bp c (run_queue s, P) = Done (q, P') ->
           forall t, t ∈ tids q -> held s t -> t ∈ tids (run_queue s)
  | ETime now => committed_time s <= now
  | EBudget | ESpawn _ | EForget _ => True
  end.
Fixpoint events_ok (evs : list hb_event) (st : state) : Prop :=
  match evs with
  | [] => True
  | ev :: evs' => event_ok ev st /\ forall st', exec_event ev st = Done st' -> events_ok evs' st'
  end.

(** ** The invariant *)

Record hb_inv (hb : HbRuntime) : Prop := {
  hi_program : program_ok (program hb);
  hi_fired : bt_ok (fired hb);
  hi_parked : bt_ok (parked hb);
  hi_held_at : bt_ok (held_at hb);
  hi_holds : bt_ok (holds hb);
  hi_same : forall t, t ∈ (parked hb).*1 <-> t ∈ (held_at hb).*1;
  hi_hold : forall t, t ∈ (parked hb).*1 -> t ∈ (holds hb).*1;
  hi_wake : forall t l, bt_get t (held_at hb) = Some l ->
    wake_pending hb = true \/ existsb (anchor_blocked hb) l = true;
  hi_closed : forall x y, hard_edge (program hb) x y -> is_fired hb y -> is_fired hb x;
}.
Record gate_inv (p : HappensBeforeProgram) (st : state) : Prop := {
  gi_hb : exists hb, happens_before st.1 = Some hb /\ program hb = p /\ hb_inv hb
            /\ forall t, t ∈ (parked hb).*1 -> t ∉ tids (run_queue st.1);
  gi_rq : rq_ok st.2 (run_queue st.1);
  gi_turn : 0 <= turn st.1;
}.

Lemma park_inv now t reached hb :
  hb_inv hb -> existsb (anchor_blocked hb) reached = true -> hb_inv (park now t reached hb).
Proof.
  intros [Hp Hf Hpk Hha Hho Hsame Hhold Hwake Hcl] Hb. unfold park.
  split; cbn [program fired parked held_at holds set_parked wake_pending];
    [done|done|by apply bt_insert_ok|by apply bt_insert_ok| | | | |exact Hcl].
  - destruct (bt_mem t (holds hb)); [done|by apply bt_insert_ok].
  - intros u. rewrite !bt_insert_key, Hsame by done. done.
  - intros u. rewrite bt_insert_key by done. destruct (bt_mem t (holds hb)) eqn:Em.
    + apply bt_mem_true in Em; [|done]. intros [->|]; [done|auto].
    + rewrite bt_insert_key by done. intros [->|]; [by left|right; auto].
  - intros u l Hg. destruct (decide (u = t)) as [->|Hne].
    + rewrite bt_get_insert_eq in Hg by done. injection Hg as <-. by right.
    + rewrite bt_get_insert_ne in Hg by done. by apply (Hwake u l).
Qed.

Lemma grant_inv t reached hb :
  hb_inv hb -> existsb (anchor_blocked hb) reached = false -> t ∉ (parked hb).*1 ->
  hb_inv (grant t reached hb)
  /\ (forall n, is_fired (grant t reached hb) n <-> is_fired hb n \/ n ∈ reached)
  /\ program (grant t reached hb) = program hb /\ parked (grant t reached hb) = parked hb.
Proof.
  intros [Hp Hf Hpk Hha Hho Hsame Hhold Hwake Hcl] Hb Ht. unfold grant.
  destruct (fire_all_spec (fired hb) reached Hf) as (Hok & Hin & Hnew).
  destruct (fire_all (fired hb) reached) as [f newly]; cbn [fst snd] in *.
  set (hb' := if newly then _ else _).
  assert (Hfl : fired hb' = f) by (unfold hb'; by destruct newly).
  assert (Hpr : program hb' = program hb) by (unfold hb'; by destruct newly).
  assert (Hpk' : parked hb' = parked hb) by (unfold hb'; by destruct newly).
  assert (Hha' : held_at hb' = held_at hb) by (unfold hb'; by destruct newly).
  assert (Hho' : holds hb' = bt_remove t (holds hb)) by (unfold hb'; by destruct newly).
  assert (Hfired : forall n, is_fired hb' n <-> is_fired hb n \/ n ∈ reached).
  { intros n. unfold is_fired. by rewrite Hfl. }
  split_and!; [|done..].
  split; rewrite ?Hfl, ?Hpr, ?Hpk', ?Hha', ?Hho'; [done..|by apply bt_remove_ok|done| | |].
  - intros u Hu. apply bt_remove_key; [done|]. split; [by intros ->|auto].
  - intros u l Hg. destruct newly eqn:En; [by left|]. 
    destruct (Hwake u l Hg) as [|Hbl]; [by left|right].
    apply existsb_elem in Hbl as (n & Hn & Hbl). apply existsb_elem. exists n. split; [done|].
    apply anchor_blocked_true in Hbl as (x & He & Hx); [|done].
    apply anchor_blocked_true; [by rewrite Hfl|]. exists x. rewrite Hpr. split; [done|].
    rewrite Hfired. intros [?|Hr]; [done|]. by apply Hx, Hnew.
  - intros x y He Hy. apply Hfired in Hy as [Hy|Hy]; apply Hfired; left; [by eapply Hcl|].
    destruct (decide (x ∈ (fired hb).*1)) as [|Hx]; [done|]. exfalso.
    assert (Hbl : anchor_blocked hb y = true) by (apply anchor_blocked_true; [done|by exists x]).
    assert (existsb (anchor_blocked hb) reached = true) by (apply existsb_elem; eauto). congruence.
Qed.

Lemma forget_inv t hb :
  hb_inv hb ->
  hb_inv (set_parked (bt_remove t (parked hb)) (bt_remove t (held_at hb)) (bt_remove t (holds hb)) hb).
Proof.
  intros [Hp Hf Hpk Hha Hho Hsame Hhold Hwake Hcl].
  split; cbn [program fired parked held_at holds set_parked wake_pending];
    [done|done|by apply bt_remove_ok..| | | |exact Hcl].
  - intros u. rewrite !bt_remove_key, Hsame by done. done.
  - intros u. rewrite !bt_remove_key by done. naive_solver.
  - intros u l Hg. destruct (decide (u = t)) as [->|Hne].
    + by rewrite bt_get_remove_eq in Hg.
    + rewrite bt_get_remove_ne in Hg by done. by apply (Hwake u l).
Qed.

Lemma note_spawn_inv t hb : hb_inv hb -> hb_inv (note_spawn hb t).
Proof.
  intros [Hp Hf Hpk Hha Hho Hsame Hhold Hwake Hcl]. unfold note_spawn.
  case_bool_decide; split; try done.
Qed.

(** ** Requests *)

Lemma skip_turn_blocked_spec s P t :
  rq_ok P (run_queue s) -> tentative_selection (run_queue s) = Some t -> 0 <= turn s < u64_max ->
  exists q, skip_turn_blocked bp s t = Done (SkipTurn, set_turn (turn s + 1) (set_rq q s))
    /\ rq_ok P q /\ unlocked q /\ (forall u, u ∈ tids q -> u ∈ tids (run_queue s)) /\ t ∉ tids q.
Proof.
  intros Hq Hsel Hturn. unfold skip_turn_blocked.
  destruct (undo_tentative_pop_spec P (run_queue s) t Hq Hsel) as [-> Hq1]. bind_done.
  set (q1 := set_tentative None false (run_queue s)) in *.
  destruct (remove_tid_spec P q1 t Hq1) as (q & -> & Hq' & Hu & Hqueue & _ & _ & Hnot & _); [done|].
  bind_done. assert (Hin : contains_tid q1 t = true).
  { apply contains_tid_true. pose proof (ok_lock _ _ Hq) as Hl. unfold lock_ok in Hl.
    rewrite Hsel in Hl. apply Hl. }
  rewrite Hin. bind_done. unfold skip_turn. cbn [turn set_rq].
  rewrite arith_u_exact by (unfold u64_max in *; lia). bind_done. exists q. split_and!; [done..| |done].
  intros u. unfold tids. rewrite Hqueue. intros Hu'.
  apply list_elem_of_fmap in Hu' as (kv & -> & Hkv).
  apply elem_of_List_filter in Hkv as [_ Hkv].
  by apply (list_elem_of_fmap_2 (fun kv : entry => tid kv.2)).
Qed.

Lemma refuse_fields v s :
  happens_before (refuse v s) = happens_before s /\ run_queue (refuse v s) = run_queue s
  /\ turn (refuse v s) = turn s /\ committed_time (refuse v s) = committed_time s
  /\ vfork_barriers (refuse v s) = vfork_barriers s /\ priorities (refuse v s) = priorities s.
Proof. unfold refuse. by destruct (terminal_deadlock s). Qed.

(** What one event does to the set of fired anchors: it grows, and every
    anchor that joins it had all its hard BEFORE anchors in it already. *)
Definition fired_step (hb hb' : HbRuntime) : Prop :=
  (forall n, is_fired hb n -> is_fired hb' n)
  /\ (forall x y, hard_edge (program hb) x y -> is_fired hb' y -> ~ is_fired hb y -> is_fired hb x).
Definition step_ok (p : HappensBeforeProgram) (st st' : state) : Prop :=
  gate_inv p st' /\ forall hb hb', happens_before st.1 = Some hb -> happens_before st'.1 = Some hb' ->
    fired_step hb hb'.

Lemma fired_step_same hb hb' : fired hb' = fired hb -> fired_step hb hb'.
Proof. intros E. unfold fired_step, is_fired. rewrite E. split; [done|]. by intros x y _ ? ?. Qed.

(** A turn that ends by parking or refusing. *)
Lemma skip_step p s P t hb :
  happens_before s = Some hb -> program hb = p -> hb_inv hb -> rq_ok P (run_queue s) ->
  tentative_selection (run_queue s) = Some t -> 0 <= turn s < u64_max ->
  (forall u, u ∈ (parked hb).*1 -> u = t \/ u ∉ tids (run_queue s)) ->
  exists s', skip_turn_blocked bp s t = Done (SkipTurn, s') /\ gate_inv p (s', P)
    /\ happens_before s' = Some hb.
Proof.
  intros Hhb Hprog Hinv Hrq Hsel Hturn Hout.
  destruct (skip_turn_blocked_spec s P t Hrq Hsel Hturn) as (q & -> & Hq & _ & Hsub & Hnot).
  eexists. split; [done|]. split; [|done].
  split; cbn [fst snd happens_before run_queue turn set_turn set_rq]; [|done|lia].
  exists hb. split_and!; [done..|]. intros u Hu Hin. destruct (Hout u Hu) as [->|Hn]; [done|auto].
Qed.

Lemma hb_posthook_step p s P t count anchors code :
  gate_inv p (s, P) -> tentative_selection (run_queue s) = Some t -> turn s < u64_max ->
  exists r s', hb_posthook_interrupted bp s t count anchors code = Done (r, s') /\ step_ok p (s, P) (s', P).
Proof.
  intros Hg Hsel Hroom. pose proof Hg as [(hb & Hhb & Hprog & Hinv & Hout) Hrq Hturn]. cbn [fst snd] in *.
  unfold hb_posthook_interrupted. rewrite Hhb. cbn [expect]. bind_done.
  destruct (occurrence_anchors_on hb t anchors) as [|n ns].
  { exists Granted, s. split; [done|]. split; [done|].
    intros hb1 hb2 E1 E2. cbn [fst] in *. simplify_eq. by apply fired_step_same. }
  set (v := HbPosthookInterrupted _ _ _ _).
  destruct (refuse_fields v s) as (E1 & E2 & E3 & _).
  destruct (skip_step p (refuse v s) P t hb) as (s' & -> & Hg' & Hhb');
    [by rewrite E1|done|done|by rewrite E2|by rewrite E2|rewrite E3; lia|rewrite E2; auto|].
  exists SkipTurn, s'. split; [done|]. split; [done|].
  intros hb1 hb2 F1 F2. cbn [fst] in *. simplify_eq. by apply fired_step_same.
Qed.

Lemma hb_checkpoint_step p s P t count anchors :
  gate_inv p (s, P) -> tentative_selection (run_queue s) = Some t -> turn s < u64_max ->
  exists r s', hb_checkpoint bp s t count anchors = Done (r, s') /\ step_ok p (s, P) (s', P).
Proof.
  intros Hg Hsel Hroom. pose proof Hg as [(hb & Hhb & Hprog & Hinv & Hout) Hrq Hturn]. cbn [fst snd] in *.
  assert (Hself : t ∉ (parked hb).*1).
  { intros Ht. apply (Hout t Ht). pose proof (ok_lock _ _ Hrq) as Hl. unfold lock_ok in Hl.
    rewrite Hsel in Hl. apply Hl. }
  unfold hb_checkpoint. rewrite Hhb. cbn [expect]. bind_done. set (reached := reached_at _ _ _ _).
  destruct (length reached =? 0)%nat.
  { exists Granted, s. split; [done|]. split; [done|].
    intros hb1 hb2 E1 E2. cbn [fst] in *. simplify_eq. by apply fired_step_same. }
  destruct (existsb (anchor_blocked hb) reached) eqn:Hb.
  - set (s1 := if existsb _ _ then _ else _).
    assert (Hs1 : run_queue s1 = run_queue s /\ turn s1 = turn s).
    { unfold s1. destruct (existsb _ (vfork_barriers s)); [|done]. split; apply refuse_fields. }
    destruct Hs1 as [E2 E3].
    destruct (skip_step p (set_hb (Some (park (committed_time s) t reached hb)) s1) P t
      (park (committed_time s) t reached hb)) as (s' & -> & Hg' & Hhb');
      cbn [happens_before run_queue turn set_hb];
      [done|done|by apply park_inv|by rewrite E2|by rewrite E2|rewrite E3; lia| |].
    { rewrite E2. intros u. unfold park. cbn [parked set_parked]. rewrite bt_insert_key by apply Hinv.
      intros [->|Hu]; [by left|right; auto]. }
    exists SkipTurn, s'. split; [done|]. split; [done|].
    intros hb1 hb2 F1 F2. cbn [fst] in *. simplify_eq. by apply fired_step_same.
  - destruct (grant_inv t reached hb Hinv Hb Hself) as (Hinv' & Hfired & Hpr & Hpk).
    eexists _, _. split; [done|]. split.
    + split; cbn [fst snd happens_before run_queue turn set_hb]; [|done..].
      eexists. split_and!; [done|by rewrite Hpr|done|]. by rewrite Hpk.
    + cbn [fst happens_before set_hb]. intros hb1 hb2 F1 F2. simplify_eq. split.
      * intros n Hn. apply Hfired. by left.
      * intros x y He Hy Hny. apply Hfired in Hy as [|Hy]; [done|].
        destruct (decide (x ∈ (fired hb).*1)) as [|Hx]; [done|]. exfalso.
        assert (Hbl : anchor_blocked hb y = true) by (apply anchor_blocked_true; [apply Hinv|by exists x]).
        assert (existsb (anchor_blocked hb) reached = true) by (apply existsb_elem; eauto). congruence.
Qed.

(** ** Waking *)

Definition unpark_all (ts : list DetTid) (hb : HbRuntime) : HbRuntime :=
  foldl (fun h t => unpark t h) hb ts.

Lemma unpark_all_spec ts hb :
  bt_ok (parked hb) -> bt_ok (held_at hb) ->
  let hb' := unpark_all ts hb in
  bt_ok (parked hb') /\ bt_ok (held_at hb')
  /\ (forall u, u ∈ (parked hb').*1 <-> u ∈ (parked hb).*1 /\ u ∉ ts)
  /\ (forall u, u ∈ (held_at hb').*1 <-> u ∈ (held_at hb).*1 /\ u ∉ ts)
  /\ holds hb' = holds hb /\ fired hb' = fired hb /\ program hb' = program hb
  /\ wake_pending hb' = wake_pending hb /\ spawn_order hb' = spawn_order hb.
Proof.
  revert hb. induction ts as [|t ts IH]; intros hb Hp Hh; simpl; [set_solver|].
  destruct (IH (unpark t hb)) as (? & ? & Hin & Hin' & ? & ? & ? & ? & ?);
    [by apply bt_remove_ok..|]. split_and!; [done|done| | |done..]; intros u; rewrite ?Hin, ?Hin';
    unfold unpark; cbn [parked held_at set_parked]; rewrite bt_remove_key by done; set_solver.
Qed.

Lemma push_back_tids P (q q' : RunQueue G) t p k :
  rq_ok P q -> unlocked q -> has_room q -> t ∉ tids q -> is_ordinary_priority p = true ->
  push_back bp q t p = Done (k, q') ->
  rq_ok P q' /\ unlocked q' /\ tids q' ≡ₚ t :: tids q
  /\ last_back_turn q' = last_back_turn q + 1 /\ last_front_turn q' = last_front_turn q
  /\ poll_upgrades q' <= poll_upgrades q + 1.
Proof.
  intros Hq Hu Hr Ht Hp Hpush.
  destruct (push_back_spec bp P q t p Hq Hu Hr Ht Hp) as (q1 & E & Hok & HP & Heq).
  rewrite E in Hpush. injection Hpush as _ <-. split; [done|].
  assert (Htids : tids q1 ≡ₚ t :: tids q).
  { unfold tids. rewrite HP, upgraded_if_due_tids. done. }
  rewrite Heq. unfold unlocked in *. cbn. split_and!; [done| |done|done|].
  - by rewrite Heq in Htids.
  - destruct (upgrade_due _ _); lia.
Qed.

Lemma readmit_spec P ts hb s :
  rq_ok P (run_queue s) -> unlocked (run_queue s) -> NoDup ts ->
  (forall t, t ∈ ts -> t ∉ tids (run_queue s)) ->
  (forall t, t ∈ ts -> exists pr, bt_get t (priorities s) = Some pr /\ is_ordinary_priority pr = true) ->
  last_back_turn (run_queue s) + Z.of_nat (length ts) < RUN_TIME_TURNS ->
  - RUN_TIME_TURNS < last_front_turn (run_queue s) - 1 ->
  poll_upgrades (run_queue s) + Z.of_nat (length ts) <= u64_max ->
  exists q, readmit bp ts hb s = Done (set_hb (Some (unpark_all ts hb)) (set_rq q s))
    /\ rq_ok P q /\ unlocked q /\ (forall t, t ∈ tids q <-> t ∈ ts \/ t ∈ tids (run_queue s)).
Proof.
  revert hb s. induction ts as [|t ts IH]; intros hb s Hq Hu Hnd Hout Hpr Hb Hf Hup; cbn [readmit].
  { exists (run_queue s). split_and!; [by destruct s|done|done|set_solver]. }
  apply NoDup_cons in Hnd as [Ht Hnd]. cbn [length] in Hb, Hup.
  destruct (Hpr t ltac:(set_solver)) as (pr & Hget & Hord).
  assert (Hnt : t ∉ tids (run_queue s)) by (apply Hout; set_solver).
  rewrite (proj2 (contains_tid_false _ _) Hnt). unfold runqueue_push_back, get_priority. rewrite Hget.
  cbn [expect]. bind_done.
  assert (Hroom : has_room (run_queue s)) by (unfold has_room; split_and!; lia).
  destruct (push_back_spec bp P (run_queue s) t pr Hq Hu Hroom Hnt Hord) as (q1 & E & _).
  rewrite E. bind_done.
  destruct (push_back_tids P _ q1 t pr _ Hq Hu Hroom Hnt Hord E) as (Hq1 & Hu1 & Htids & Eb & Ef & Eu).
  destruct (IH (unpark t hb) (set_rq q1 s)) as (q & -> & Hq' & Hu' & Hin); cbn [run_queue set_rq priorities];
    rewrite ?Eb, ?Ef; try done; try lia.
  - intros u Hu'. rewrite Htids, not_elem_of_cons. split; [by intros ->|apply Hout; set_solver].
  - intros u Hu'. apply Hpr. set_solver.
  - exists q. split_and!; [done..|]. intros u. rewrite Hin. cbn [run_queue set_rq]. rewrite Htids. set_solver.
Qed.

(** The gates after a flush: nobody is parked, the holds stay. *)
Lemma flushed_inv hb :
  hb_inv hb ->
  let hb' := unpark_all (parked hb).*1 (set_wake_pending false hb) in
  hb_inv hb' /\ program hb' = program hb /\ fired hb' = fired hb /\ wake_pending hb' = false
  /\ holds hb' = holds hb
  /\ (forall u, u ∉ (parked hb').*1) /\ (forall t l, bt_get t (held_at hb') <> Some l).
Proof.
  intros Hinv hb'. pose proof Hinv as [I1 I2 I3 I4 I5 I6 I7 I8 I9].
  destruct (unpark_all_spec (parked hb).*1 (set_wake_pending false hb))
    as (Hp' & Hh' & Hin' & Hin2 & Eho & Efi & Epr & Ewk & _); [done..|]. fold hb' in Hp', Hh', Hin', Hin2, Eho, Efi, Epr, Ewk.
  assert (Hnone : forall u, u ∉ (parked hb').*1) by (intros u; rewrite Hin'; cbn [parked set_wake_pending]; tauto).
  assert (Hnoneh : forall u, u ∉ (held_at hb').*1).
  { intros u. rewrite Hin2. cbn [held_at set_wake_pending]. rewrite <- I6. tauto. }
  assert (Hno : forall t l, bt_get t (held_at hb') <> Some l).
  { intros t l Hg. apply bt_get_elem in Hg; [|done]. apply (Hnoneh t). apply bt_key_elem. eauto. }
  split_and!; [|done..].
  split; [by rewrite Epr|by rewrite Efi|done|done|by rewrite Eho|set_solver|set_solver| |].
  - intros t l Hg. by destruct (Hno t l).
  - rewrite Epr. unfold is_fired. rewrite Efi. exact I9.
Qed.

Lemma hb_flush_step p s P :
  gate_inv p (s, P) -> event_ok EFlush (s, P) ->
  exists s', hb_flush_wakes bp s = Done s' /\ step_ok p (s, P) (s', P)
    /\ exists hb', happens_before s' = Some hb' /\ wake_pending hb' = false
         /\ (forall t, held s t -> held s' t \/ t ∈ tids (run_queue s'))
         /\ (forall t l, bt_get t (held_at hb') = Some l -> existsb (anchor_blocked hb') l = true).
Proof.
  intros Hg (Hu & Hpr & Hroom). pose proof Hg as [(hb & Hhb & Hprog & Hinv & Hout) Hrq Hturn]. cbn [fst snd] in *.
  unfold hb_flush_wakes. rewrite Hhb. destruct (wake_pending hb) eqn:Ew.
  - destruct (Hroom hb Hhb) as (Hb & Hf & Hup). rewrite <- (length_fmap fst) in Hb, Hup.
    destruct (readmit_spec P (parked hb).*1 (set_wake_pending false hb) s) as (q & -> & Hq & Hu' & Hin); auto.
    { apply bt_ok_NoDup, Hinv. }
    { intros t Ht. apply Hpr. by exists hb. }
    destruct (flushed_inv hb Hinv) as (Hinv' & Epr & Efi & Ewk & _ & Hnone & Hno).
    set (hb' := unpark_all _ _) in *.
    eexists. split; [done|]. split; [split|].
    + split; cbn [fst snd happens_before run_queue turn set_hb set_rq]; [|done..].
      exists hb'. split_and!; [done|by rewrite Epr|done|]. intros t Ht. by destruct (Hnone t).
    + cbn [fst happens_before set_hb set_rq]. intros h1 h2 F1 F2. simplify_eq.
      by apply fired_step_same.
    + exists hb'. cbn [happens_before run_queue set_hb set_rq]. split_and!; [done|by rewrite Ewk| |].
      * intros t (h & Hh & Ht). simplify_eq. right. apply Hin. by left.
      * intros t l Hg'. by destruct (Hno t l).
  - exists s. split; [done|]. split; [split; [done|]|].
    + intros h1 h2 F1 F2. cbn [fst] in *. simplify_eq. by apply fired_step_same.
    + exists hb. split_and!; [done|done|by left|]. intros t l Hl.
      destruct (hi_wake _ Hinv t l Hl); [congruence|done].
Qed.

(** ** The hold budget *)

Lemma unfired_lines_Done p es :
  program_ok p -> (forall e, e ∈ es -> e ∈ pr_edges p) ->
  exists l, unfired_lines p es = Done l /\ l.*2 = es.
Proof.
  intros Hp. induction es as [|e es IH]; intros Hsub; cbn [unfired_lines]; [by exists []|].
  pose proof (proj1 (Forall_forall _ _) (po_edges _ Hp) e (Hsub e ltac:(set_solver))) as [Hin _].
  apply (proj2 (bt_mem_true _ _ (po_anchors _ Hp))) in Hin. unfold bt_mem in Hin.
  destruct (bt_get (ed_before e) (pr_anchors p)) as [a|]; [|done]. cbn [expect]. bind_done.
  destruct IH as (l & -> & El); [set_solver|]. bind_done. exists ((a, e) :: l). split; [done|].
  by rewrite fmap_cons, El.
Qed.

Lemma all_unfired_Done hb afters :
  program_ok (program hb) ->
  exists l, all_unfired hb afters = Done l /\ l.*2 = concat (open_edges hb <$> afters).
Proof.
  intros Hp. induction afters as [|a afters (l2 & IH & El2)]; cbn [all_unfired]; [by exists []|].
  unfold unfired_befores.
  destruct (unfired_lines_Done (program hb) (open_edges hb a) Hp) as (l & -> & El).
  { intros e He. apply elem_of_List_filter in He as [_ He]. done. }
  bind_done. rewrite IH. bind_done. exists (l ++ l2). split; [done|]. rewrite fmap_app, El, El2. done.
Qed.

(** The verdict of the budget check: the first over-budget hold, or none. *)
Lemma hold_budget_refusal_spec hb now :
  program_ok (program hb) ->
  exists r, hold_budget_refusal hb now = Done r
    /\ match pr_max_hold_ns (program hb) with
       | None => r = None
       | Some b =>
           (r = None /\ forall h, h ∈ holds hb -> over_budget hb now b h = false)
           \/ exists t h lines, r = Some (HbHoldBudgetExceeded t (hold_anchors h) b lines)
                /\ (t, h) ∈ holds hb /\ over_budget hb now b (t, h) = true
                /\ lines.*2 = concat (open_edges hb <$> hold_anchors h)
       end.
Proof.
  intros Hp. unfold hold_budget_refusal. destruct (pr_max_hold_ns (program hb)) as [b|]; [|by exists None].
  destruct (List.find _ _) as [[t h]|] eqn:Ef.
  - apply find_Some_elem in Ef as [Hin Hov]. destruct (all_unfired_Done hb (hold_anchors h) Hp) as (l & -> & El).
    bind_done. eexists. split; [done|]. right. by exists t, h, l.
  - exists None. split; [done|]. left. split; [done|]. intros x Hx. by eapply find_None_all.
Qed.

Lemma hb_budget_step p s P :
  gate_inv p (s, P) ->
  exists r s', hb_check_hold_budget s = Done (r, s') /\ step_ok p (s, P) (s', P)
    /\ happens_before s' = happens_before s.
Proof.
  intros Hg. pose proof Hg as [(hb & Hhb & Hprog & Hinv & Hout) Hrq Hturn]. cbn [fst snd] in *.
  unfold hb_check_hold_budget. rewrite Hhb.
  destruct (hold_budget_refusal_spec hb (committed_time s) (hi_program _ Hinv)) as (r & -> & _). bind_done.
  assert (Hsame : forall s', happens_before s' = happens_before s -> run_queue s' = run_queue s ->
    turn s' = turn s -> step_ok p (s, P) (s', P)).
  { intros s' E1 E2 E3. split.
    - split; cbn [fst snd]; rewrite ?E1, ?E2, ?E3; [by exists hb|done..].
    - cbn [fst]. rewrite E1. intros h1 h2 F1 F2. simplify_eq. by apply fired_step_same. }
  destruct r as [v|]; eexists _, _; (split; [done|]); (split; [apply Hsame|]); try apply refuse_fields; try done.
  rewrite <- Hhb. apply refuse_fields.
Qed.

(** ** Any event *)

Context `{!RngSpec G}.

Lemma hb_only_step p s P hb' :
  gate_inv p (s, P) -> hb_inv hb' ->
  (forall hb, happens_before s = Some hb -> program hb' = program hb /\ fired hb' = fired hb
     /\ forall t, t ∈ (parked hb').*1 -> t ∈ (parked hb).*1) ->
  step_ok p (s, P) (set_hb (Some hb') s, P).
Proof.
  intros [(hb & Hhb & Hprog & Hinv & Hout) Hrq Hturn] Hinv' Hsame. cbn [fst snd] in *.
  destruct (Hsame hb Hhb) as (E1 & E2 & E3). split.
  - split; cbn [fst snd happens_before run_queue turn set_hb]; [|done..].
    exists hb'. split_and!; [done|by rewrite E1|done|auto].
  - cbn [fst happens_before set_hb]. intros h1 h2 F1 F2. simplify_eq. by apply fired_step_same.
Qed.

Lemma exec_event_ok p ev st :
  gate_inv p st -> event_ok ev st -> exists st', exec_event ev st = Done st' /\ step_ok p st st'.
Proof.
  destruct st as [s P]. intros Hg He.
  pose proof Hg as [(hb & Hhb & Hprog & Hinv & Hout) Hrq Hturn]. cbn [fst snd] in *.
  destruct ev as [t r| | |t|t|c|now]; cbn [exec_event event_ok] in *.
  - destruct He as [Hsel Hroom].
    assert (Hr : exists r' s', block_for_hb bp s t r = Done (r', s') /\ step_ok p (s, P) (s', P)).
    { destruct r; [by apply hb_checkpoint_step..|by apply hb_posthook_step]. }
    destruct Hr as (r' & s' & -> & Hs). bind_done. eauto.
  - destruct (hb_flush_step p s P Hg He) as (s' & -> & Hs & _). bind_done. eauto.
  - destruct (hb_budget_step p s P Hg) as (r & s' & -> & Hs & _). bind_done. eauto.
  - eexists. split; [done|]. unfold hb_note_spawn. rewrite Hhb. apply hb_only_step; [done|by apply note_spawn_inv|].
    intros h F. simplify_eq. unfold note_spawn. by case_bool_decide.
  - eexists. split; [done|]. unfold hb_forget. rewrite Hhb. apply hb_only_step; [done|by apply forget_inv|].
    intros h F. simplify_eq. split_and!; [done..|]. intros u. cbn [parked set_parked].
    rewrite bt_remove_key by apply Hinv. tauto.
  - destruct He as [Hc Hadm]. destruct (exec_ok bp c (run_queue s) P Hrq Hc) as (q & P' & Hex & Hq).
    rewrite Hex. bind_done. eexists. split; [done|]. split.
    + split; cbn [fst snd happens_before run_queue turn set_rq]; [|done..].
      exists hb. split_and!; [done..|]. intros t Ht Hin. apply (Hout t Ht).
      apply (Hadm q P' Hex t Hin). by exists hb.
    + cbn [fst happens_before set_rq]. intros h1 h2 F1 F2. simplify_eq. by apply fired_step_same.
  - eexists. split; [done|]. split.
    + split; cbn [fst snd happens_before run_queue turn]; [by exists hb|done..].
    + cbn [fst happens_before]. intros h1 h2 F1 F2. simplify_eq. by apply fired_step_same.
Qed.

Lemma run_events_ok p evs st :
  gate_inv p st -> events_ok evs st ->
  exists sts, run_events evs st = Done sts /\ sts !! O = Some st
    /\ (forall i si, sts !! i = Some si -> gate_inv p si)
    /\ forall i si si', sts !! i = Some si -> sts !! S i = Some si' -> step_ok p si si'.
Proof.
  revert st. induction evs as [|ev evs IH]; intros st Hg He; cbn [run_events].
  { exists [st]. split_and!; [done|done| |].
    - by intros [|i] si [= <-].
    - by intros [|i] si si'. }
  destruct He as [Hev Hrest]. destruct (exec_event_ok p ev st Hg Hev) as (st1 & E & Hs).
  rewrite E. bind_done.
  destruct (IH st1) as (sts & -> & H0 & Hall & Hstep); [apply Hs|by apply Hrest|]. bind_done.
  exists (st :: sts). split_and!; [done|done| |].
  - intros [|i] si; simpl; [by intros [= <-]|apply Hall].
  - intros [|i] si si'; simpl; [|apply Hstep]. intros [= <-] E'. simplify_eq. done.
Qed.

Lemma new_inv p : program_ok p -> hb_inv (new p).
Proof.
  intros Hp. split; cbn; try apply bt_ok_nil; try done.
  intros x y _ Hy. unfold is_fired in Hy. inversion Hy.
Qed.
Lemma gate_start p s P :
  program_ok p -> happens_before s = Some (new p) -> rq_ok P (run_queue s) -> 0 <= turn s ->
  gate_inv p (s, P).
Proof.
  intros Hp Hhb Hrq Ht. split; [|done|done]. exists (new p). split_and!; [done|done|by apply new_inv|].
  intros t Hin. inversion Hin.
Qed.
End Gate.
