(* ===== verification/HbGateProps.v ===== *)
(** What the happens-before gates promise: hard edges order the firings, no
    opened gate is forgotten, a closed gate always has a reachable cause, holds
    are bounded by the budget, and the guest's checkpoints name exactly the
    anchors its history reaches. *)
From Stdlib Require Import String ZArith Lia List.
From stdpp Require Import base gmap relations list.
From S2P Require Import Prelude BTree RunQueue RunQueueInv RunQueueOrder RunQueueProps Time Schedule Text HappensBefore HbCycle HbNormalize HbCount HbGate HbGateInv.
Import HappensBefore HbGate.
Open Scope Z_scope.

(** * A closed gate has a cause *)

Section Cause.
Context (hb : HbRuntime) (Hp : program_ok (program hb)) (Hf : bt_ok (fired hb)).
Abbreviation R := (hard_edge (program hb)).

Lemma hard_acyclic : acyclic R.
Proof.
  intros x Hx. apply (po_acyclic _ Hp x). apply (tc_congruence (R:=R) id (edge_rel (pr_edges (program hb)))); [|done].
  intros a b (e & He & _ & Ha & Hb). by exists e.
Qed.

Lemma linked_tc_last x c y : linked R (x :: c) -> y ∈ c -> tc R x y.
Proof.
  revert x. induction c as [|z c IH]; intros x Hl Hy; [inversion Hy|]. destruct Hl as [Hxz Hl].
  apply elem_of_cons in Hy as [->|Hy]; [by apply tc_once|]. eapply tc_l; [done|]. by apply IH.
Qed.
Lemma linked_NoDup c : linked R c -> NoDup c.
Proof.
  induction c as [|x c IH]; intros Hl; [constructor|]. constructor.
  - intros Hx. by apply (hard_acyclic x), (linked_tc_last x c).
  - apply IH. destruct c; [done|apply Hl].
Qed.
Lemma linked_names c x : linked R (x :: c) -> forall y, y ∈ c -> y ∈ (pr_anchors (program hb)).*1.
Proof.
  revert x. induction c as [|z c IH]; intros x Hl y Hy; [inversion Hy|]. destruct Hl as [(e & He & _ & _ & <-) Hl].
  apply elem_of_cons in Hy as [->|Hy]; [|by eapply IH].
  apply (proj1 (Forall_forall _ _) (po_edges _ Hp) e He).
Qed.

(** Following unfired sources backwards ends: a chain of hard edges cannot be
    longer than the list of anchors. *)
Lemma cause_search fuel x c :
  linked R (x :: c) -> ~ is_fired hb x -> (length (pr_anchors (program hb)) < fuel + length c)%nat ->
  exists y c', linked R (y :: c' ++ x :: c) /\ ~ is_fired hb y /\ anchor_blocked hb y = false
  \/ (y = x /\ anchor_blocked hb x = false).
Proof.
  revert x c. induction fuel as [|fuel IH]; intros x c Hl Hx Hlen.
  - exfalso. assert (Hnd : NoDup c) by (apply linked_NoDup in Hl; by apply NoDup_cons in Hl as [_ ?]).
    assert (Hle : (length c <= length (pr_anchors (program hb)).*1)%nat).
    { apply submseteq_length, NoDup_submseteq; [done|]. intros y Hy. by eapply linked_names. }
    rewrite length_fmap in Hle. lia.
  - destruct (anchor_blocked hb x) eqn:Eb; [|exists x, []; by right].
    apply anchor_blocked_true in Eb as (z & Hz & Hnz); [|done].
    destruct (IH z (x :: c)) as (y & c' & [(Hl' & Hy & Hb)|[-> Hb]]); [done|done|simpl; lia|..].
    + exists y, (c' ++ [z]). left. rewrite <- app_assoc. done.
    + exists z, []. by left.
Qed.
End Cause.

(** a gate never stays closed for a reason inside the program: when an
    anchor is held back, some anchor that has not fired, and is not held back
    itself, leads to it along hard edges.  So a run that cannot go on is one in
    which the guest never reached that anchor. *)
Theorem closed_gate_has_cause hb a :
  hb_inv hb -> anchor_blocked hb a = true ->
  exists y, ~ is_fired hb y /\ anchor_blocked hb y = false /\ tc (hard_edge (program hb)) y a.
Proof.
  intros Hinv Hb. apply anchor_blocked_true in Hb as (x & Hx & Hnx); [|apply Hinv].
  destruct (cause_search hb (hi_program _ Hinv) (hi_fired _ Hinv) (length (pr_anchors (program hb))) x [a])
    as (y & c & [(Hl & Hy & Hby)|[-> Hbx]]); [done|done|simpl; lia|..].
  - exists y. split_and!; [done..|]. eapply linked_tc_last; [exact Hl|]. set_solver.
  - exists x. split_and!; [done..|]. by apply tc_once.
Qed.

(** * Order, wake-ups and budget over event sequences *)

Section Props.
Context (bp : profile) {G : Type} `{!Rng G} `{!RngSpec G}.
Implicit Types (s : Scheduler G) (P : list SuspendedRunQueueEntry).

(** C7: under any sequence of thread requests, wake-up flushes, budget checks,
    thread creations and deaths and run-queue calls that keeps the scheduler's
    contract, nothing panics, fired anchors stay fired, and an anchor fires
    only when the BEFORE anchor of every hard edge into it fired in an earlier
    event; held threads are never in the run queue. *)
Theorem hard_edges_enforced p evs s P :
  program_ok p -> happens_before s = Some (new p) -> rq_ok P (run_queue s) -> 0 <= turn s ->
  events_ok bp evs (s, P) ->
  exists sts, run_events bp evs (s, P) = Done sts
    /\ forall i si si' hb hb', sts !! i = Some si -> sts !! S i = Some si' ->
         happens_before si.1 = Some hb -> happens_before si'.1 = Some hb' ->
         (forall n, is_fired hb n -> is_fired hb' n)
         /\ (forall x y, hard_edge p x y -> is_fired hb' y -> ~ is_fired hb y -> is_fired hb x)
         /\ (forall t, t ∈ (parked hb').*1 -> t ∉ tids (run_queue si'.1)).
Proof.
  intros Hp Hhb Hrq Ht Hev.
  destruct (run_events_ok bp p evs (s, P)) as (sts & Hrun & _ & Hall & Hstep); [by apply gate_start|done|].
  exists sts. split; [done|]. intros i si si' hb hb' Hi Hi' Eh Eh'.
  destruct (Hstep i si si' Hi Hi') as [_ Hf]. destruct (Hf hb hb' Eh Eh') as [Hm Ho].
  destruct (Hall i si Hi) as [(h1 & F1 & Hpr & _) _ _]. destruct (Hall (S i) si' Hi') as [(h2 & F2 & _ & _ & Hout) _ _].
  simplify_eq. split_and!; [done|exact Ho|done].
Qed.

(** C29: no wake-up is lost: after the deferred flush, every thread that was
    held is back in the run queue or still held, and a thread that is still
    held is held at an anchor whose gate is closed. *)
Theorem flush_wakes_every_open_gate p evs s P sts s1 P1 :
  program_ok p -> happens_before s = Some (new p) -> rq_ok P (run_queue s) -> 0 <= turn s ->
  events_ok bp evs (s, P) -> run_events bp evs (s, P) = Done sts -> last sts = Some (s1, P1) ->
  event_ok bp EFlush (s1, P1) ->
  exists s2 hb2, hb_flush_wakes bp s1 = Done s2 /\ happens_before s2 = Some hb2
    /\ wake_pending hb2 = false
    /\ (forall t, held s1 t -> held s2 t \/ t ∈ tids (run_queue s2))
    /\ (forall t, t ∈ (parked hb2).*1 ->
          exists l n, bt_get t (held_at hb2) = Some l /\ n ∈ l /\ anchor_blocked hb2 n = true).
Proof.
  intros Hp Hhb Hrq Ht Hev Hrun Hlast Hfl.
  destruct (run_events_ok bp p evs (s, P)) as (sts' & Hrun' & _ & Hall & _); [by apply gate_start|done|].
  rewrite Hrun in Hrun'. injection Hrun' as <-. rewrite last_lookup in Hlast.
  destruct (hb_flush_step bp p s1 P1 (Hall _ _ Hlast) Hfl) as (s2 & Hf & [Hg _] & hb2 & Hhb2 & Hw & Hheld & Hbl).
  exists s2, hb2. split_and!; [done..|]. intros t Hin.
  destruct Hg as [(h & Fh & _ & Hinv & _) _ _]. cbn [fst] in Fh. simplify_eq.
  apply (hi_same _ Hinv), bt_key_elem in Hin as [l Hl]. apply bt_get_elem in Hl; [|apply Hinv].
  destruct (proj1 (existsb_elem _ _) (Hbl t l Hl)) as (n & Hn & Hb). eauto.
Qed.

(** ** The hold budget *)

Lemma skip_hb s t r s' : skip_turn_blocked bp s t = Done (r, s') -> happens_before s' = happens_before s.
Proof.
  unfold skip_turn_blocked, skip_turn. intros E. apply bind_Done in E as (q & _ & E).
  apply bind_Done in E as ([b q1] & _ & E). apply bind_Done in E as (? & _ & E).
  apply bind_Done in E as (n & _ & [= _ <-]). done.
Qed.

Lemma request_holds s u rq r s' hb t :
  block_for_hb bp s u rq = Done (r, s') -> happens_before s = Some hb -> bt_ok (holds hb) -> t <> u ->
  exists hb', happens_before s' = Some hb' /\ bt_get t (holds hb') = bt_get t (holds hb).
Proof.
  intros Hex Hhb Hok Hne.
  assert (Hck : forall c l, hb_checkpoint bp s u c l = Done (r, s') ->
    exists hb', happens_before s' = Some hb' /\ bt_get t (holds hb') = bt_get t (holds hb)).
  { intros c l E. unfold hb_checkpoint in E. rewrite Hhb in E. cbn [mbind outcome_bind expect] in E.
    destruct (length _ =? 0)%nat; [injection E as <- <-; by exists hb|].
    destruct (existsb (anchor_blocked hb) _).
    - apply skip_hb in E. eexists. split; [exact E|]. unfold park. cbn [holds set_parked].
      destruct (bt_mem u (holds hb)); [done|]. by apply bt_get_insert_ne.
    - injection E as <- <-. eexists. split; [done|]. unfold grant.
      destruct (fire_all _ _) as [f []]; cbn [holds set_parked set_wake_pending]; by apply bt_get_remove_ne. }
  destruct rq as [c|c l|c l code]; cbn [block_for_hb] in Hex; [by eapply Hck..|].
  unfold hb_posthook_interrupted in Hex. rewrite Hhb in Hex. cbn [mbind outcome_bind expect] in Hex.
  destruct (occurrence_anchors_on hb u l); [injection Hex as <- <-; by exists hb|].
  apply skip_hb in Hex. exists hb. split; [|done]. rewrite Hex, <- Hhb. apply refuse_fields.
Qed.

Lemma readmit_holds ts hb s s' :
  readmit bp ts hb s = Done s' -> exists hb', happens_before s' = Some hb' /\ holds hb' = holds hb.
Proof.
  revert hb s. induction ts as [|t ts IH]; intros hb s; cbn [readmit].
  - intros [= <-]. by exists hb.
  - intros (s1 & _ & E)%bind_Done. destruct (IH _ _ E) as (hb' & ? & Ho). exists hb'. by rewrite Ho.
Qed.

(** A hold ends only when its thread makes a request or dies. *)
Lemma hold_kept p ev st st' hb t h :
  gate_inv p st -> exec_event bp ev st = Done st' -> happens_before st.1 = Some hb ->
  bt_get t (holds hb) = Some h -> ev <> EForget t -> (forall r, ev <> ERequest t r) ->
  exists hb', happens_before st'.1 = Some hb' /\ bt_get t (holds hb') = Some h.
Proof.
  destruct st as [s P]. intros Hg Hex Hhb Ht Hf Hr. cbn [fst] in *.
  pose proof Hg as [(hb0 & Hhb0 & Hprog & Hinv & Hout) Hrq Hturn]. cbn [fst snd] in *.
  rewrite Hhb in Hhb0. injection Hhb0 as <-.
  destruct ev as [u r| | |u|u|c|now]; cbn [exec_event] in Hex.
  - apply bind_Done in Hex as ([r' s'] & Hex & [= <-]).
    destruct (request_holds s u r r' s' hb t Hex Hhb) as (hb' & ? & E); [apply Hinv|by intros ->; destruct (Hr r)|].
    exists hb'. by rewrite E.
  - apply bind_Done in Hex as (s' & Hex & [= <-]). unfold hb_flush_wakes in Hex. rewrite Hhb in Hex.
    destruct (wake_pending hb); [|injection Hex as <-; eauto].
    destruct (readmit_holds _ _ _ _ Hex) as (hb' & ? & E). exists hb'. by rewrite E.
  - destruct (hb_budget_step p s P Hg) as (r & s' & E & _ & Es). rewrite E in Hex.
    injection Hex as <-. exists hb. cbn [fst]. by rewrite Es.
  - injection Hex as <-. unfold hb_note_spawn. rewrite Hhb. eexists. split; [done|].
    unfold note_spawn. by case_bool_decide.
  - injection Hex as <-. unfold hb_forget. rewrite Hhb. eexists. split; [done|].
    cbn [holds set_parked]. rewrite bt_get_remove_ne; [done|by intros ->|apply Hinv].
  - apply bind_Done in Hex as ([q P'] & _ & [= <-]). by exists hb.
  - injection Hex as <-. by exists hb.
Qed.

Lemma holds_kept p evs s P sts t hb h :
  gate_inv p (s, P) -> events_ok bp evs (s, P) -> run_events bp evs (s, P) = Done sts ->
  happens_before s = Some hb -> bt_get t (holds hb) = Some h ->
  (forall ev, ev ∈ evs -> ev <> EForget t /\ forall r, ev <> ERequest t r) ->
  forall i si, sts !! i = Some si ->
    gate_inv p si /\ exists hbi, happens_before si.1 = Some hbi /\ bt_get t (holds hbi) = Some h.
Proof.
  revert s P sts hb. induction evs as [|ev evs IH]; intros s P sts hb Hg Hok Hrun Hhb Ht Hev i si Hi;
    cbn [run_events] in Hrun.
  - injection Hrun as <-. destruct i as [|i]; [|done]. injection Hi as <-. split; [done|by exists hb].
  - apply bind_Done in Hrun as ([s1 P1] & E & Hrun). apply bind_Done in Hrun as (sts1 & Hrun & [= <-]).
    destruct i as [|i]; [injection Hi as <-; split; [done|by exists hb]|]. simpl in Hi.
    destruct (Hev ev ltac:(set_solver)) as [Hf Hr]. destruct Hok as [Hok Hok'].
    destruct (exec_event_ok bp p ev (s, P) Hg Hok) as (st' & E' & [Hg' _]). rewrite E in E'. injection E' as <-.
    destruct (hold_kept p ev (s, P) (s1, P1) hb t h Hg E Hhb Ht Hf Hr) as (hb1 & Hhb1 & Ht1).
    eapply (IH s1 P1 sts1 hb1); eauto. intros ev' Hin. apply Hev. set_solver.
Qed.

End Props.

(** * The guest's side *)

Section Guest.
Context (bp : profile) (p : HappensBeforeProgram) (t : DetTid).

(** A thread's syscall entries, each making its checkpoint. *)
Fixpoint guest_entries (h : list HbCount.entry) (k : Z) (c : HbThreadCounters)
    : outcome (list (option ResourceID * list text) * HbThreadCounters) :=
  match h with
  | [] => Done ([], c)
  | e :: h' =>
      '(req, post, c') ← entry_checkpoint bp p t e.1 e.2 (k + 1) c;
      '(rest, c'') ← guest_entries h' (k + 1) c';
      Done ((req, post) :: rest, c'')
  end.

Context (Hp : program_ok p).
(** With no occurrence anchor the counters are not touched. *)
Definition guest_inv (h : list HbCount.entry) (c : HbThreadCounters) : Prop :=
  has_syscall_occurrence_anchors p = true -> count_inv p t h c.

(** Whether entry [h]'s last call reaches [a] as the scheduler resolves it. *)
Definition reaches (hb : HbRuntime) (a : Anchor) (h : list HbCount.entry) : Prop :=
  thread_matches hb (an_thread a) t = true
  /\ (an_position a = SyscallCount (Z.of_nat (length h))
      \/ fires_at_posthook a = false /\ fires_at p a h).

Definition reached_by (hb : HbRuntime) (req : option ResourceID) : list text :=
  match req with
  | Some (HappensBeforeCheckpoint count) => reached_at hb t count []
  | Some (HappensBeforeSyscallCheckpoint count l) => reached_at hb t count l
  | _ => []
  end.

Lemma fires_occurrence a h : fires_at p a h -> is_syscall_occurrence a = true.
Proof. intros [(h0 & e & _ & Hm) _]. by apply (matches_occurrence a e Hm). Qed.
Lemma no_occurrence_no_fire a h :
  has_syscall_occurrence_anchors p = false -> a ∈ (pr_anchors p).*2 -> ~ fires_at p a h.
Proof.
  intros Hn Ha Hf%fires_occurrence. assert (has_syscall_occurrence_anchors p = true); [|congruence].
  apply existsb_elem. eauto.
Qed.
Lemma matches_on_thread hb tr u : thread_matches hb tr u = true ->
  is_none_or (tr_dettid tr) (fun d => d =? u) = true.
Proof. unfold thread_matches. by destruct (tr_dettid tr). Qed.

Lemma anchors_at_syscall_elem hb count n :
  program hb = p ->
  n ∈ anchors_at_syscall hb t count
  <-> exists a, bt_get n (pr_anchors p) = Some a /\ an_position a = SyscallCount count
        /\ thread_matches hb (an_thread a) t = true.
Proof.
  intros Hpr. unfold anchors_at_syscall. rewrite Hpr. split.
  - intros Hin. apply list_elem_of_fmap in Hin as (a & -> & Ha).
    apply elem_of_List_filter in Ha as [Hc Ha]. apply andb_true_iff in Hc as [Hc Ht].
    exists a. split; [by apply elem_anchor|]. split; [|done].
    destruct (an_position a); try done. apply Z.eqb_eq in Hc as ->. done.
  - intros (a & Ha & Hpos & Ht). apply list_elem_of_fmap. exists a.
    split; [symmetry; by eapply po_names|]. apply elem_of_List_filter.
    split; [|by eapply anchor_elem]. by rewrite Hpos, Z.eqb_refl, Ht.
Qed.
Lemma occurrence_anchors_elem hb names n :
  program hb = p ->
  n ∈ occurrence_anchors_on hb t names
  <-> n ∈ names /\ exists a, bt_get n (pr_anchors p) = Some a /\ is_syscall_occurrence a = true
        /\ thread_matches hb (an_thread a) t = true.
Proof.
  intros Hpr. unfold occurrence_anchors_on. rewrite Hpr, elem_of_List_filter.
  destruct (bt_get n (pr_anchors p)) as [a|]; [|naive_solver]. rewrite andb_true_iff. naive_solver.
Qed.

(** One entry: the counters, the names left for the posthook, and the request. *)
Lemma entry_checkpoint_step h e c :
  guest_inv h c -> Z.of_nat (length h) < u64_max ->
  exists names c' req,
    entry_checkpoint bp p t e.1 e.2 (Z.of_nat (length h) + 1) c
    = Done (req, List.filter (fun n => match bt_get n (pr_anchors p) with
                                       | Some a => fires_at_posthook a | None => false end) names, c')
    /\ guest_inv (h ++ [e]) c'
    /\ (forall n, n ∈ names <-> exists a, bt_get n (pr_anchors p) = Some a /\ on_thread t a = true
                                  /\ fires_at p a (h ++ [e]))
    /\ (let pre := List.filter (fun n => negb (match bt_get n (pr_anchors p) with
                                       | Some a => fires_at_posthook a | None => false end)) names in
        req = match pre with
              | _ :: _ => Some (HappensBeforeSyscallCheckpoint (Z.of_nat (length h) + 1) pre)
              | [] => if may_have_syscall_count_anchor_at p t (Z.of_nat (length h) + 1)
                      then Some (HappensBeforeCheckpoint (Z.of_nat (length h) + 1)) else None
              end).
Proof.
  intros Hc Hlen. unfold entry_checkpoint. destruct (has_syscall_occurrence_anchors p) eqn:Eo.
  - destruct (count_step bp p t Hp h c e (Hc Eo) Hlen) as (ns & c' & -> & Hi & _ & Hin). bind_done.
    eexists ns, c', _. split; [done|]. split; [by intros _|]. done.
  - bind_done. eexists [], c, _. split; [done|]. split; [by intros ?; congruence|]. split; [|done].
    intros n. split; [intros Hx; inversion Hx|]. intros (a & Ha & _ & Hf).
    by apply (no_occurrence_no_fire a _ Eo (anchor_elem p Hp n a Ha)) in Hf.
Qed.

Lemma guest_entries_inv h h0 c :
  guest_inv h0 c -> Z.of_nat (length (h0 ++ h)) < u64_max ->
  exists r c', guest_entries h (Z.of_nat (length h0)) c = Done (r, c') /\ guest_inv (h0 ++ h) c'.
Proof.
  revert h0 c. induction h as [|e h IH]; intros h0 c Hi Hlen; cbn [guest_entries].
  { exists [], c. by rewrite app_nil_r. }
  rewrite length_app in Hlen. simpl in Hlen.
  destruct (entry_checkpoint_step h0 e c Hi) as (ns & c1 & req & -> & Hi1 & _); [lia|]. bind_done.
  destruct (IH (h0 ++ [e]) c1 Hi1) as (r & c2 & Hr & Hi2).
  { rewrite !length_app. simpl. lia. }
  rewrite length_app in Hr. replace (Z.of_nat (length h0 + length [e])) with (Z.of_nat (length h0) + 1) in Hr
    by (simpl; lia).
  rewrite Hr. bind_done. eexists _, c2. split; [done|]. by rewrite <- app_assoc in Hi2.
Qed.

(** What the scheduler makes of the request. *)
Lemma reached_by_spec hb h names req n :
  program hb = p -> h <> [] ->
  (forall n, n ∈ names <-> exists a, bt_get n (pr_anchors p) = Some a /\ on_thread t a = true
                             /\ fires_at p a h) ->
  (let pre := List.filter (fun n => negb (match bt_get n (pr_anchors p) with
                                     | Some a => fires_at_posthook a | None => false end)) names in
   req = match pre with
         | _ :: _ => Some (HappensBeforeSyscallCheckpoint (Z.of_nat (length h)) pre)
         | [] => if may_have_syscall_count_anchor_at p t (Z.of_nat (length h))
                 then Some (HappensBeforeCheckpoint (Z.of_nat (length h))) else None
         end) ->
  n ∈ reached_by hb req <-> exists a, bt_get n (pr_anchors p) = Some a /\ reaches hb a h.
Proof.
  intros Hpr Hne Hnames Hreq. set (pre := List.filter _ names) in Hreq.
  assert (Hpre : forall n, n ∈ pre <-> exists a, bt_get n (pr_anchors p) = Some a /\ on_thread t a = true
                             /\ fires_at p a h /\ fires_at_posthook a = false).
  { intros m. unfold pre. rewrite elem_of_List_filter, Hnames, negb_true_iff. split.
    - intros [Hf (a & Ha & ? & ?)]. rewrite Ha in Hf. eauto 10.
    - intros (a & Ha & ? & ? & ?). rewrite Ha. eauto 10. }
  assert (Hgoal : forall l, (forall m, m ∈ l <-> m ∈ pre) ->
    n ∈ reached_at hb t (Z.of_nat (length h)) l <-> exists a, bt_get n (pr_anchors p) = Some a /\ reaches hb a h).
  { intros l Hl. unfold reached_at, reaches. rewrite elem_of_app, anchors_at_syscall_elem,
      occurrence_anchors_elem, Hl, Hpre by done. split.
    - intros [(a & Ha & Hpos & Ht)|[(a & Ha & _ & Hf & Hph) (a' & Ha' & _ & Ht)]]; simplify_eq; eauto 10.
    - intros (a & Ha & Ht & [Hpos|[Hph Hf]]); [left; eauto|right]. split.
      + exists a. split_and!; [done|by eapply matches_on_thread|done..].
      + exists a. split_and!; [done|by eapply fires_occurrence|done]. }
  rewrite Hreq. clear Hreq. destruct pre as [|x pre'] eqn:Epre; [|by apply Hgoal].
  destruct (may_have_syscall_count_anchor_at p t (Z.of_nat (length h))) eqn:Em; [by apply Hgoal|].
  simpl. split; [intros Hx; inversion Hx|]. intros (a & Ha & Ht & Hr). exfalso.
  destruct Hr as [Hpos|[Hph Hf]].
  - assert (may_have_syscall_count_anchor_at p t (Z.of_nat (length h)) = true); [|congruence].
    apply existsb_elem. exists a. split; [by eapply anchor_elem|].
    rewrite Hpos, Z.eqb_refl. simpl. by eapply matches_on_thread.
  - assert (Hx : n ∈ @nil text); [|inversion Hx].
    apply Hpre. exists a. split_and!; [done|by eapply matches_on_thread|done..].
Qed.
End Guest.

(** over any syscall history of a thread, the checkpoint its latest entry
    makes, or the absence of one, tells the scheduler exactly what that entry
    reached: the anchors the scheduler resolves from the request are the count
    anchors at this entry's number on this thread and the prehook occurrence
    anchors on this thread that the history fires here; the names left for the
    posthook are the posthook anchors the history fires here. *)
Theorem checkpoint_names_reached_anchors bp p t h e :
  program_ok p -> Z.of_nat (length h) < u64_max ->
  exists r c req post c',
    guest_entries bp p t h 0 new_counters = Done (r, c)
    /\ entry_checkpoint bp p t e.1 e.2 (Z.of_nat (length h) + 1) c = Done (req, post, c')
    /\ (forall hb n, program hb = p ->
          n ∈ reached_by t hb req
          <-> exists a, bt_get n (pr_anchors p) = Some a /\ reaches p t hb a (h ++ [e]))
    /\ (forall n, n ∈ post <-> exists a, bt_get n (pr_anchors p) = Some a /\ on_thread t a = true
          /\ fires_at_posthook a = true /\ fires_at p a (h ++ [e])).
Proof.
  intros Hp Hlen.
  destruct (guest_entries_inv bp p t Hp h [] new_counters) as (r & c & Hr & Hi);
    [intros _; apply new_counters_inv|done|].
  destruct (entry_checkpoint_step bp p t Hp h e c Hi Hlen) as (names & c' & req & He & _ & Hnames & Hreq).
  eexists r, c, req, _, c'. split_and!; [done|done| |].
  - intros hb n Hpr. apply reached_by_spec with (names := names); [done|done|by destruct h|done|].
    rewrite length_app. replace (Z.of_nat (length h + length [e])) with (Z.of_nat (length h) + 1) by (simpl; lia).
    done.
  - intros n. rewrite elem_of_List_filter, Hnames. split.
    + intros [Hf (a & Ha & ? & ?)]. rewrite Ha in Hf. eauto 10.
    + intros (a & Ha & ? & ? & ?). rewrite Ha. eauto 10.
Qed.
