(* ===== verification/HbDsl.v ===== *)
(** * The terse happens-before language (src/detcore-model/src/happens_before.rs)

    One edge per line, [thread:anchor#n < thread:anchor#n], with an optional
    [!soft] or [!hard] and [//] comments.  Every side becomes a named event; the
    name is the token with its punctuation replaced, and a number is appended
    until the name is free or already denotes the same event. *)
From Stdlib Require Import String ZArith Lia List.
From stdpp Require Import base gmap list.
From S2P Require Import Prelude BTree Time Schedule Text HappensBefore.
Import HappensBefore.
Open Scope Z_scope.

Module HbDsl.
Section Dsl.
Context `{SysnoTable} (bp : profile).

Definition strip_comment (l : text) : text := before_first (lit "//") l.

Definition parse_dsl_phase (phase : text) (lineno : nat) : hb_result PhaseSpec :=
  let p := to_ascii_lowercase (trim phase) in
  if bool_decide (p = lit "pre") || bool_decide (p = lit "prehook") then Ok PhPrehook
  else if bool_decide (p = lit "post") || bool_decide (p = lit "posthook") then Ok PhPosthook
  else if bool_decide (p = lit "poll") || bool_decide (p = lit "polling") then Ok PhPolling
  else Err (DslSyntax lineno (lit "unknown syscall phase '" ++ p ++ lit "'")).

Definition is_syscall_name (s : text) : bool := is_Some_b (sysno_from_str s).

Definition sanitize_name (token : text) : text :=
  let out := (fun ch => if is_ascii_alphanumeric ch || (ch =? 95) then ch else 95) <$> token in
  match out with [] => [101] | _ => out end.

(** [EventSpec { thread, nth, ..Default::default() }], with the one field a
    branch sets. *)
Definition event_base (thread : text) (nth : option Z) : EventSpec :=
  {| ev_thread := thread; ev_syscalls := None; ev_rcbs := None; ev_func := None; ev_file := None;
     ev_line := None; ev_syscall := None; ev_phase := None; ev_fd := None; ev_futex_op := None;
     ev_from := None; ev_rip := None; ev_mark := None; ev_nth := nth |}.
Definition event_syscall (thread : text) (nth : option Z) (sc : text) (ph : option PhaseSpec) : EventSpec :=
  {| ev_thread := thread; ev_syscalls := None; ev_rcbs := None; ev_func := None; ev_file := None;
     ev_line := None; ev_syscall := Some sc; ev_phase := ph; ev_fd := None; ev_futex_op := None;
     ev_from := None; ev_rip := None; ev_mark := None; ev_nth := nth |}.
Definition event_other (thread : text) (nth syscalls rcbs : option Z) (func rip : option text) : EventSpec :=
  {| ev_thread := thread; ev_syscalls := syscalls; ev_rcbs := rcbs; ev_func := func; ev_file := None;
     ev_line := None; ev_syscall := None; ev_phase := None; ev_fd := None; ev_futex_op := None;
     ev_from := None; ev_rip := rip; ev_mark := None; ev_nth := nth |}.

(** The anchor part of a token. *)
Definition dsl_anchor (thread body : text) (nth : option Z) (lineno : nat) : hb_result EventSpec :=
  match strip_prefix (lit "@") body with
  | Some rest => Ok (event_other thread nth None None None (Some rest))
  | None =>
  match strip_prefix (lit "rcb=") body with
  | Some m =>
      v ← ok_or (parse_u64 m) (DslSyntax lineno (lit "bad rcb count '" ++ m ++ lit "'"));
      Ok (event_other thread None None (Some v) None None)
  | None =>
  match strip_prefix (lit "sc=") body with
  | Some n =>
      v ← ok_or (parse_u64 n) (DslSyntax lineno (lit "bad syscall count '" ++ n ++ lit "'"));
      Ok (event_other thread None (Some v) None None None)
  | None =>
  match split_once 64 body with
  | Some (sc, phase) =>
      ph ← parse_dsl_phase phase lineno;
      Ok (event_syscall thread nth sc (Some ph))
  | None =>
      if is_syscall_name body then Ok (event_syscall thread nth body None)
      else Ok (event_other thread nth None None (Some body) None)
  end end end end.

(** The event one side of an edge denotes. *)
Definition dsl_event (token : text) (lineno : nat) : hb_result EventSpec :=
  '(thread, anchor) ← ok_or (split_once 58 token)
     (DslSyntax lineno (lit "expected 'thread:anchor' in '" ++ token ++ lit "'"));
  let thread := trim thread in
  let anchor := trim anchor in
  _ ← ensure (negb ((length thread =? 0)%nat || (length anchor =? 0)%nat))
        (DslSyntax lineno (lit "empty thread or anchor in '" ++ token ++ lit "'"));
  '(body, nth) ← match split_once 35 anchor with
                 | Some (a, n) =>
                     v ← ok_or (parse_u64 n) (DslSyntax lineno (lit "bad ordinal '#" ++ n ++ lit "'"));
                     Ok (trim a, Some v)
                 | None => Ok (anchor, None)
                 end;
  dsl_anchor thread body nth lineno.

(** The [while] loop over candidate names. *)
Fixpoint fresh_name (fuel : nat) (seen : list (text * ())) (events : list (text * EventSpec))
    (base : text) (ev : EventSpec) (ev_name : text) (suffix : Z) : outcome text :=
  match fuel with
  | O => Panic PFuel
  | S fuel' =>
      if bt_mem ev_name seen && negb (bool_decide (bt_get ev_name events = Some ev)) then
        suffix ← arith_i bp 32 (suffix + 1);
        fresh_name fuel' seen events base ev (base ++ [95] ++ display_int suffix) suffix
      else Done ev_name
  end.

Definition parse_dsl_side (token : text) (lineno : nat) (spec : HappensBeforeSpec)
    (seen : list (text * ())) : hb_result (text * HappensBeforeSpec * list (text * ())) :=
  ev ← dsl_event token lineno;
  let base := sanitize_name token in
  (* each turn of the loop meets a different name that was seen *)
  name ← lift (fresh_name (S (length seen)) seen (sp_events spec) base ev base 1);
  let seen := bt_insert name tt seen in
  let events := if bt_mem name (sp_events spec) then sp_events spec
                else bt_insert name ev (sp_events spec) in
  let thread := ev_thread ev in
  let threads :=
    match parse_i32 thread with
    | Some _ => sp_threads spec
    | None =>
        if bt_mem thread (sp_threads spec) then sp_threads spec
        else bt_insert thread {| ts_label := Some thread; ts_dettid := None; ts_spawn_ordinal := None |}
               (sp_threads spec)
    end in
  Ok (name,
      {| sp_version := sp_version spec; sp_max_hold_ns := sp_max_hold_ns spec;
         sp_threads := threads; sp_events := events; sp_edges := sp_edges spec |},
      seen).

(** The text of one line: its two sides and its strength, or nothing. *)
Definition dsl_line (raw : text) (lineno : nat) : hb_result (option (text * text * Strength)) :=
  let line := trim (strip_comment raw) in
  if (length line =? 0)%nat then Ok None
  else
    let '(body, strength) :=
      match strip_suffix (lit "!soft") line with
      | Some b => (trim b, Soft)
      | None => match strip_suffix (lit "!hard") line with
                | Some b => (trim b, Hard)
                | None => (line, Hard)
                end
      end in
    '(lhs, rhs) ← ok_or (split_once 60 body)
       (DslSyntax lineno (lit "expected '<' separating two events"));
    Ok (Some (trim lhs, trim rhs, strength)).

Definition add_edge (e : EdgeSpec) (spec : HappensBeforeSpec) : HappensBeforeSpec :=
  {| sp_version := sp_version spec; sp_max_hold_ns := sp_max_hold_ns spec;
     sp_threads := sp_threads spec; sp_events := sp_events spec;
     sp_edges := sp_edges spec ++ [e] |}.

Fixpoint from_dsl_lines (ls : list text) (lineno : nat) (spec : HappensBeforeSpec)
    (seen : list (text * ())) : hb_result HappensBeforeSpec :=
  match ls with
  | [] => Ok spec
  | raw :: ls' =>
      l ← dsl_line raw lineno;
      match l with
      | None => from_dsl_lines ls' (S lineno) spec seen
      | Some (lhs, rhs, strength) =>
          '(before, spec, seen) ← parse_dsl_side lhs lineno spec seen;
          '(after, spec, seen) ← parse_dsl_side rhs lineno spec seen;
          from_dsl_lines ls' (S lineno)
            (add_edge {| es_before := before; es_after := after; es_strength := strength |} spec) seen
      end
  end.

Definition empty_spec : HappensBeforeSpec :=
  {| sp_version := HAPPENS_BEFORE_VERSION_1; sp_max_hold_ns := None; sp_threads := [];
     sp_events := []; sp_edges := [] |}.
Definition from_dsl (input : text) : hb_result HappensBeforeSpec :=
  from_dsl_lines (lines input) 1 empty_spec [].
End Dsl.
End HbDsl.
