(* ===== verification/HbDslProps.v ===== *)
(** Parsing the terse language: the naming of events loses nothing.

    [dsl_edges] reads the lines without names, as pairs of events; [from_dsl]
    fails exactly where it does, and otherwise builds a specification whose
    edges denote those events in order. *)
From Stdlib Require Import String ZArith Lia List.
From stdpp Require Import base gmap relations list.
From S2P Require Import Prelude BTree RunQueue Time Schedule Text HappensBefore HbCycle HbNormalize HbGate HbGateInv HbDsl.
Import HappensBefore HbDsl.
Open Scope Z_scope.

(** * Numbers read are in range *)

Lemma from_digits_range radix lo hi neg s acc v :
  lo <= acc <= hi -> from_digits radix lo hi neg s acc = Some v -> lo <= v <= hi.
Proof.
  revert acc. induction s as [|c s IH]; intros acc Ha; cbn [from_digits]; [by intros [= <-]|].
  destruct (to_digit radix c) as [d|]; [|done]. cbn [mbind option_bind].
  destruct (_ && _) eqn:E; [|done]. apply IH. apply andb_true_iff in E as [[[_ _]%andb_true_iff E1]%andb_true_iff E2].
  apply Z.leb_le in E1, E2. lia.
Qed.
Lemma parse_u64_range s v : parse_u64 s = Some v -> is_u64 v.
Proof.
  unfold parse_u64, from_str_radix, is_u64. intros E.
  repeat (case_match; try done); eapply from_digits_range; try exact E; unfold u64_max; lia.
Qed.

#[local] Ltac rbind := cbn [mbind result_bind ok_or ensure].

Section Props.
Context `{SysnoTable} (bp : profile).

(** * Reading without names *)

Fixpoint dsl_edges (ls : list text) (lineno : nat) : hb_result (list (EventSpec * EventSpec * Strength)) :=
  match ls with
  | [] => Ok []
  | raw :: ls' =>
      l ← dsl_line raw lineno;
      match l with
      | None => dsl_edges ls' (S lineno)
      | Some (lhs, rhs, strength) =>
          b ← dsl_event lhs lineno;
          a ← dsl_event rhs lineno;
          rest ← dsl_edges ls' (S lineno);
          Ok ((b, a, strength) :: rest)
      end
  end.

(** The shape of every event the language can write. *)
Definition dsl_shape (ev : EventSpec) : Prop :=
  ev_from ev = None /\ ev_futex_op ev = None /\ ev_fd ev = None
  /\ (forall n, ev_nth ev = Some n -> is_u64 n)
  /\ (length (selectors_found ev) = 1%nat
      \/ selectors_found ev = [] /\ location_is_empty (event_location ev) = false).

Lemma dsl_anchor_shape thread body nth lineno ev :
  (forall n, nth = Some n -> is_u64 n) -> dsl_anchor thread body nth lineno = Ok ev ->
  dsl_shape ev /\ ev_thread ev = thread.
Proof.
  intros Hn. unfold dsl_anchor.
  destruct (strip_prefix _ body); [intros [= <-]; split; [|done]; by split_and!; [..|left]|].
  destruct (strip_prefix _ body).
  { intros (v & _ & [= <-])%bind_Ok. split; [|done]. by split_and!; [..|left]. }
  destruct (strip_prefix _ body).
  { intros (v & _ & [= <-])%bind_Ok. split; [|done]. by split_and!; [..|left]. }
  destruct (split_once _ body) as [[sc ph]|].
  { intros (v & _ & [= <-])%bind_Ok. split; [|done]. by split_and!; [..|left]. }
  destruct (is_syscall_name body); intros [= <-]; (split; [|done]);
    [by split_and!; [..|left]|by split_and!; [..|right]].
Qed.

Lemma dsl_event_shape token lineno ev : dsl_event token lineno = Ok ev -> dsl_shape ev.
Proof.
  unfold dsl_event. intros ([thread anchor] & _ & E)%bind_Ok.
  apply bind_Ok in E as (_ & _ & E). apply bind_Ok in E as ([body nth] & En & E).
  apply (dsl_anchor_shape _ _ _ _ _) in E as [Hs _]; [done|]. intros n ->.
  destruct (split_once 35 (trim anchor)) as [[a m]|]; [|done].
  apply bind_Ok in En as (v & Hv%ok_or_Ok & [= _ <-]). by eapply parse_u64_range.
Qed.

Lemma dsl_event_no_crash token lineno :
  (exists ev, dsl_event token lineno = Ok ev) \/ exists e, dsl_event token lineno = Err e.
Proof.
  assert (Hph : forall ph, (exists p, parse_dsl_phase ph lineno = Ok p) \/ exists e, parse_dsl_phase ph lineno = Err e).
  { intros ph. unfold parse_dsl_phase. repeat case_match; eauto. }
  unfold dsl_event, dsl_anchor.
  destruct (split_once 58 token) as [[th an]|]; rbind; [|by eauto].
  destruct (negb _); rbind; [|by eauto].
  assert (Hnth : forall x, (exists b o, match split_once 35 x with
      | Some (a, n) => v ← ok_or (parse_u64 n) (DslSyntax lineno (lit "bad ordinal '#" ++ n ++ lit "'")); Ok (trim a, Some v)
      | None => Ok (x, None) end = Ok (b, o))
    \/ exists e, match split_once 35 x with
      | Some (a, n) => v ← ok_or (parse_u64 n) (DslSyntax lineno (lit "bad ordinal '#" ++ n ++ lit "'")); Ok (trim a, Some v)
      | None => Ok (x, None) end = Err e).
  { intros x. destruct (split_once 35 x) as [[a n]|]; [|by eauto]. destruct (parse_u64 n); rbind; eauto. }
  destruct (Hnth (trim an)) as [(b & o & ->)|[e ->]]; rbind; [|by eauto].
  destruct (strip_prefix _ b) as [rest|]; [by eauto|].
  destruct (strip_prefix _ b) as [m|]; [destruct (parse_u64 m); rbind; by eauto|].
  destruct (strip_prefix _ b) as [m|]; [destruct (parse_u64 m); rbind; by eauto|].
  destruct (split_once 64 b) as [[sc ph]|]; [|destruct (is_syscall_name b); by eauto].
  destruct (Hph ph) as [[q ->]|[e ->]]; rbind; by eauto.
Qed.

(** * The name loop *)

Definition candidate (base : text) (k : Z) : text :=
  if k =? 1 then base else base ++ [95] ++ display_int k.

Lemma candidate_inj base j k : 1 <= j -> 1 <= k -> candidate base j = candidate base k -> j = k.
Proof.
  intros Hj Hk. unfold candidate, display_int.
  rewrite (proj2 (Z.ltb_ge j 0)), (proj2 (Z.ltb_ge k 0)) by lia.
  destruct (Z.eqb_spec j 1) as [->|], (Z.eqb_spec k 1) as [->|]; [done|..]; intros E.
  - apply (f_equal length) in E. rewrite !length_app in E. simpl in E. lia.
  - apply (f_equal length) in E. rewrite !length_app in E. simpl in E. lia.
  - apply app_inv_head in E. injection E as E. apply decimal_inj in E; lia.
Qed.

Lemma candidates_NoDup base (n : nat) : NoDup ((fun i => candidate base (Z.of_nat i)) <$> seq 1 n).
Proof.
  apply NoDup_fmap_2_strong; [|apply NoDup_seq].
  intros i j Hi Hj E. apply elem_of_seq in Hi, Hj. apply candidate_inj in E; lia.
Qed.

Lemma fresh_name_spec fuel seen events base ev (k : nat) :
  bt_ok seen -> (1 <= k)%nat -> (length seen < fuel + (k - 1))%nat -> Z.of_nat (k + fuel) < 2 ^ 31 ->
  (forall i, (1 <= i < k)%nat -> candidate base (Z.of_nat i) ∈ seen.*1) ->
  exists n, fresh_name bp fuel seen events base ev (candidate base (Z.of_nat k)) (Z.of_nat k) = Done n
    /\ (n ∉ seen.*1 \/ bt_get n events = Some ev).
Proof.
  revert k. induction fuel as [|fuel IH]; intros k Hs Hk Hlen Hfit Hprev; cbn [fresh_name].
  - exfalso. assert (Hle : (length ((fun i => candidate base (Z.of_nat i)) <$> seq 1 (k - 1))
                            <= length seen.*1)%nat).
    { apply submseteq_length, NoDup_submseteq; [apply candidates_NoDup|].
      intros n Hn. apply list_elem_of_fmap in Hn as (i & -> & Hi%elem_of_seq). apply Hprev. lia. }
    rewrite !length_fmap, length_seq in Hle. lia.
  - destruct (bt_mem (candidate base (Z.of_nat k)) seen) eqn:Em; simpl;
      [|eexists; split; [done|]; left; by apply bt_mem_false].
    case_bool_decide as Eg; simpl; [eauto|].
    rewrite arith_i_exact by lia. bind_done.
    assert (Hc : base ++ 95 :: display_int (Z.of_nat k + 1) = candidate base (Z.of_nat (S k))).
    { unfold candidate. rewrite (proj2 (Z.eqb_neq _ _)) by lia. simpl. do 3 f_equal. lia. }
    rewrite Hc. replace (Z.of_nat k + 1) with (Z.of_nat (S k)) by lia. apply IH; [done|lia|lia|lia|].
    intros i Hi. destruct (decide (i = k)) as [->|]; [by apply bt_mem_true|apply Hprev; lia].
Qed.

(** * The invariant of the parse *)

Record dsl_inv (spec : HappensBeforeSpec) (seen : list (text * ())) : Prop := {
  dv_events : bt_ok (sp_events spec);
  dv_threads : bt_ok (sp_threads spec);
  dv_seen : bt_ok seen;
  dv_names : forall n, n ∈ seen.*1 <-> n ∈ (sp_events spec).*1;
  dv_version : sp_version spec = 1 /\ sp_max_hold_ns spec = None;
  dv_shape : forall n ev, bt_get n (sp_events spec) = Some ev -> dsl_shape ev
    /\ (is_Some (bt_get (ev_thread ev) (sp_threads spec)) \/ is_Some (parse_i32 (ev_thread ev)));
}.

(** Events and threads are only added. *)
Definition extends (spec spec' : HappensBeforeSpec) : Prop :=
  (forall n ev, bt_get n (sp_events spec) = Some ev -> bt_get n (sp_events spec') = Some ev)
  /\ (forall n ts, bt_get n (sp_threads spec) = Some ts -> bt_get n (sp_threads spec') = Some ts).
Lemma spec_extends_refl spec : extends spec spec.
Proof. by split. Qed.
Lemma spec_extends_trans a b c : extends a b -> extends b c -> extends a c.
Proof. intros [? ?] [? ?]. split; auto. Qed.

Lemma bt_insert_length {K V} `{OrdKey K} (k : K) (v : V) m : (length (bt_insert k v m) <= S (length m))%nat.
Proof. induction m as [|[k' v'] m IH]; simpl; [lia|]. destruct (kcmp k k'); simpl; lia. Qed.

Lemma bt_entry_get {V} k (v : V) (m : list (text * V)) :
  bt_ok m ->
  let m' := if bt_mem k m then m else bt_insert k v m in
  bt_ok m' /\ is_Some (bt_get k m')
  /\ (forall x w, bt_get x m = Some w -> bt_get x m' = Some w)
  /\ (forall x, x ∈ m'.*1 <-> x = k \/ x ∈ m.*1)
  /\ (forall x w, bt_get x m' = Some w -> bt_get x m = Some w \/ x = k /\ w = v).
Proof.
  intros Hm. simpl. destruct (bt_mem k m) eqn:Em.
  - unfold bt_mem in Em. destruct (bt_get k m) as [w|] eqn:Eg; [|done].
    split_and!; [done|by eexists|done| |auto]. intros x. split; [auto|]. intros [->|]; [|done].
    apply bt_key_elem. exists w. by apply bt_get_elem.
  - apply bt_mem_false in Em; [|done]. split_and!; [by apply bt_insert_ok| | | |].
    + rewrite bt_get_insert_eq by done. by eexists.
    + intros x w Hx. rewrite bt_get_insert_ne; [done| |done]. intros ->. apply Em.
      apply bt_key_elem. exists w. by apply bt_get_elem.
    + intros x. by apply bt_insert_key.
    + intros x w. destruct (decide (k = x)) as [->|Hne].
      * rewrite bt_get_insert_eq by done. intros [= ->]. by right.
      * rewrite bt_get_insert_ne by done. by left.
Qed.

Lemma parse_dsl_side_spec token lineno spec seen :
  dsl_inv spec seen -> Z.of_nat (length seen) < 2 ^ 31 - 3 ->
  (exists e, dsl_event token lineno = Err e /\ parse_dsl_side bp token lineno spec seen = Err e)
  \/ exists ev name spec' seen', dsl_event token lineno = Ok ev
     /\ parse_dsl_side bp token lineno spec seen = Ok (name, spec', seen')
     /\ dsl_inv spec' seen' /\ extends spec spec' /\ bt_get name (sp_events spec') = Some ev
     /\ sp_edges spec' = sp_edges spec /\ (length seen' <= S (length seen))%nat.
Proof.
  intros [He Ht Hs Hn Hv Hsh] Hfit. unfold parse_dsl_side.
  destruct (dsl_event_no_crash token lineno) as [[ev Hev]|[e Hev]]; rewrite Hev; rbind; [right|left; by eauto].
  destruct (fresh_name_spec (S (length seen)) seen (sp_events spec) (sanitize_name token) ev 1 Hs)
    as (name & Hname & Hcase); [lia|lia|lia|intros i Hi; lia|].
  change (candidate (sanitize_name token) (Z.of_nat 1)) with (sanitize_name token) in Hname.
  change (Z.of_nat 1) with 1 in Hname. rewrite Hname. cbn [lift]. rbind.
  destruct (bt_entry_get name ev (sp_events spec) He) as (He' & _ & Hext & Hkeys & Hback).
  set (events' := if bt_mem name (sp_events spec) then _ else _) in *.
  assert (Hget : bt_get name events' = Some ev).
  { destruct Hcase as [Hnew|Hold]; [|by apply Hext]. unfold events'.
    rewrite (proj2 (bt_mem_false _ _ He)) by (by rewrite <- Hn). by apply bt_get_insert_eq. }
  set (ts := {| ts_label := Some (ev_thread ev); ts_dettid := None; ts_spawn_ordinal := None |}).
  destruct (bt_entry_get (ev_thread ev) ts (sp_threads spec) Ht) as (Ht' & Hts & Htext & _ & _).
  set (threads1 := if bt_mem (ev_thread ev) (sp_threads spec) then _ else _) in *.
  set (threads' := match parse_i32 (ev_thread ev) with Some _ => _ | None => _ end).
  assert (Hth : bt_ok threads' /\ (forall x w, bt_get x (sp_threads spec) = Some w -> bt_get x threads' = Some w)
    /\ (is_Some (bt_get (ev_thread ev) threads') \/ is_Some (parse_i32 (ev_thread ev)))).
  { unfold threads'. destruct (parse_i32 (ev_thread ev)); split_and!; try done; [right; by eexists|by left]. }
  destruct Hth as (Hth & Hthext & Hthev).
  eexists ev, name, _, _. split; [done|]. split; [done|]. split; [|split_and!; [by split|done|done|]].
  - split; cbn [sp_events sp_threads sp_version sp_max_hold_ns]; [done|done|by apply bt_insert_ok| |done|].
    + intros x. rewrite bt_insert_key, Hn, Hkeys by done. done.
    + intros x w Hx. apply Hback in Hx as [Hx|[-> ->]].
      * destruct (Hsh x w Hx) as [? [[? ?]|?]]; split; eauto.
      * split; [by eapply dsl_event_shape|done].
  - apply bt_insert_length.
Qed.

(** The edges of a specification denote the events that were read. *)
Definition denotes (spec : HappensBeforeSpec) (e : EdgeSpec) (r : EventSpec * EventSpec * Strength) : Prop :=
  bt_get (es_before e) (sp_events spec) = Some r.1.1 /\ bt_get (es_after e) (sp_events spec) = Some r.1.2
  /\ es_strength e = r.2.

Lemma denotes_extends spec spec' es rs :
  extends spec spec' -> Forall2 (denotes spec) es rs -> Forall2 (denotes spec') es rs.
Proof. intros [He _] Hf. eapply Forall2_impl; [exact Hf|]. intros e r (? & ? & ?). split_and!; auto. Qed.

Lemma dsl_line_no_crash raw lineno :
  (exists l, dsl_line raw lineno = Ok l) \/ exists e, dsl_line raw lineno = Err e.
Proof.
  unfold dsl_line. destruct (_ =? 0)%nat; [by eauto|].
  destruct (strip_suffix (lit "!soft") _); [|destruct (strip_suffix (lit "!hard") _)];
    match goal with |- context [split_once 60 ?b] => destruct (split_once 60 b) as [[? ?]|] end; rbind; by eauto.
Qed.

Lemma from_dsl_lines_spec ls lineno spec seen acc :
  dsl_inv spec seen -> Z.of_nat (length seen + 2 * length ls) < 2 ^ 31 - 3 ->
  Forall2 (denotes spec) (sp_edges spec) acc ->
  match dsl_edges ls lineno with
  | Err e => from_dsl_lines bp ls lineno spec seen = Err e
  | Ok l => exists spec' seen', from_dsl_lines bp ls lineno spec seen = Ok spec' /\ dsl_inv spec' seen'
              /\ Forall2 (denotes spec') (sp_edges spec') (acc ++ l)
  | Crash _ => False
  end.
Proof.
  revert lineno spec seen acc. induction ls as [|raw ls IH]; intros lineno spec seen acc Hi Hfit Hacc;
    cbn [dsl_edges from_dsl_lines].
  { exists spec, seen. by rewrite app_nil_r. }
  cbn [length] in Hfit.
  destruct (dsl_line_no_crash raw lineno) as [[l Hl]|[e Hl]]; rewrite Hl; rbind; [|done].
  destruct l as [[[lhs rhs] st]|]; [|apply IH; [done|lia|done]].
  destruct (parse_dsl_side_spec lhs lineno spec seen Hi)
    as [(e & -> & ->)|(b & nb & spec1 & seen1 & -> & -> & Hi1 & Hx1 & Hb & He1 & Hlen1)]; [lia|done|]. rbind.
  destruct (parse_dsl_side_spec rhs lineno spec1 seen1 Hi1)
    as [(e & -> & ->)|(a & na & spec2 & seen2 & -> & -> & Hi2 & Hx2 & Ha & He2 & Hlen2)]; [lia|done|]. rbind.
  set (edge := {| es_before := nb; es_after := na; es_strength := st |}).
  assert (Hi3 : dsl_inv (add_edge edge spec2) seen2) by (destruct Hi2; by split).
  assert (Hden : Forall2 (denotes (add_edge edge spec2)) (sp_edges (add_edge edge spec2)) (acc ++ [(b, a, st)])).
  { cbn [sp_edges add_edge]. rewrite He2, He1. apply Forall2_app.
    - eapply (denotes_extends spec); [|done]. by eapply spec_extends_trans.
    - constructor; [|constructor]. split_and!; [|done|done]. cbn. by apply Hx2. }
  specialize (IH (S lineno) (add_edge edge spec2) seen2 _ Hi3 ltac:(lia) Hden).
  destruct (dsl_edges ls (S lineno)) as [l|e|c]; rbind; [|done|done].
  by rewrite <- app_assoc in IH.
Qed.

Lemma empty_inv : dsl_inv empty_spec [].
Proof. split; cbn; try apply bt_ok_nil; try done. Qed.
End Props.

(** C32: parsing the terse language never panics or runs on, and naming the
    events changes nothing: it fails with the error of the first line that is
    not an edge, and otherwise returns a well-typed version-1 specification
    whose edges are the lines in order, each naming on either side exactly the
    event that side was written as, on a thread that resolves. *)
Theorem from_dsl_denotes_lines `{SysnoTable} bp input :
  Z.of_nat (length (lines input)) < 2 ^ 30 - 2 ->
  match dsl_edges (lines input) 1 with
  | Err e => from_dsl bp input = Err e
  | Ok l =>
      exists spec, from_dsl bp input = Ok spec /\ Forall2 (denotes spec) (sp_edges spec) l
        /\ spec_typed spec /\ sp_version spec = 1
        /\ forall name ev, (name, ev) ∈ sp_events spec ->
             ev_from ev = None
             /\ (is_Some (bt_get (ev_thread ev) (sp_threads spec)) \/ is_Some (parse_i32 (ev_thread ev)))
  | Crash _ => False
  end.
Proof.
  intros Hlen. unfold from_dsl.
  pose proof (from_dsl_lines_spec bp (lines input) 1 empty_spec [] [] empty_inv) as Hs.
  cbn [length] in Hs. specialize (Hs ltac:(lia) ltac:(constructor)).
  destruct (dsl_edges (lines input) 1) as [l|e|c]; [|done|done].
  destruct Hs as (spec & seen & Hspec & [He Ht _ _ [Hv _] Hsh] & Hden). exists spec.
  assert (Hall : forall name ev, (name, ev) ∈ sp_events spec -> dsl_shape ev
    /\ (is_Some (bt_get (ev_thread ev) (sp_threads spec)) \/ is_Some (parse_i32 (ev_thread ev)))).
  { intros name ev Hin. apply (Hsh name). by apply bt_get_elem. }
  split_and!; [done|done| |done|].
  - split; [done|]. intros name ev n Hin Hn. destruct (Hall name ev Hin) as [(_ & _ & _ & Hu & _) _]. by apply Hu.
  - intros name ev Hin. destruct (Hall name ev Hin) as [(Hf & _) Hthr]. done.
Qed.
