(* ===== verification/HbLaunch.v ===== *)
(** * Preparing a happens-before program for a run (src/hermit-cli/src/happens_before.rs)

    The debug-info index, the resolution of code locations to addresses, and the
    refusal of a program the run cannot enforce.  The object file's symbols and
    its line-program rows are read by third-party crates: they are the input
    lists here.  A refusal's text is its reason. *)
From Stdlib Require Import String ZArith Lia List.
From stdpp Require Import base gmap list.
From S2P Require Import Prelude BTree Schedule Text HappensBefore.
Import HappensBefore.
Open Scope Z_scope.

Module HbLaunch.

Record FuncExtent := { fe_addr : Z; fe_size : Z }.
Record LineRow := { lr_addr : Z; lr_file : option text; lr_line : Z }.
Record ResolvedLocation := { rl_function : option text; rl_file : option text; rl_line : option Z }.
Record DebugInfoResolver := {
  functions : list (text * FuncExtent);
  rows : list LineRow;
}.

(** [s.rsplit_once('/')]: what follows the last slash. *)
Fixpoint after_last (c : char) (s : text) : option text :=
  match s with
  | [] => None
  | d :: s' => match after_last c s' with
               | Some b => Some b
               | None => if d =? c then Some s' else None
               end
  end.
Definition basename (s : text) : text := default s (after_last 47 s).

(** ** Building the index *)

(** What [object] says of one symbol. *)
Record Symbol := { sy_text : bool; sy_addr : Z; sy_name : option text; sy_size : Z }.

Definition index_symbol (fs : list (text * FuncExtent)) (sym : Symbol) : list (text * FuncExtent) :=
  if negb (sy_text sym) then fs
  else if sy_addr sym =? 0 then fs
  else
    match sy_name sym with
    | None | Some [] => fs
    | Some name =>
        let new := {| fe_addr := sy_addr sym; fe_size := sy_size sym |} in
        match bt_get name fs with
        | Some e => if (fe_size e =? 0) && (0 <? sy_size sym) then bt_insert name new fs else fs
        | None => bt_insert name new fs
        end
    end.

(** What [gimli] says of one row: whether it ends a sequence, its line and the
    path of its file. *)
Record RawRow := { rr_end : bool; rr_addr : Z; rr_line : option Z; rr_path : option text }.

Definition keep_row (r : RawRow) : option LineRow :=
  if rr_end r then None
  else line ← rr_line r;
       Some {| lr_addr := rr_addr r; lr_file := basename <$> rr_path r; lr_line := wrap_u 32 line |}.
(** [sort_by_key], a stable sort. *)
Fixpoint insert_row (r : LineRow) (l : list LineRow) : list LineRow :=
  match l with
  | [] => [r]
  | r' :: l' => if lr_addr r <=? lr_addr r' then r :: l else r' :: insert_row r l'
  end.
Definition load_line_rows (raw : list RawRow) : list LineRow :=
  foldr insert_row [] (omap keep_row raw).
Definition from_symbols (syms : list Symbol) (raw : list RawRow) : DebugInfoResolver :=
  {| functions := foldl index_symbol [] syms; rows := load_line_rows raw |}.

Section Resolve.
Context (bp : profile).

Definition contains (e : FuncExtent) (addr : Z) : outcome bool :=
  if fe_size e =? 0 then Done (addr =? fe_addr e)
  else if fe_addr e <=? addr then
    top ← arith_u bp 64 (fe_addr e + fe_size e); Done (addr <? top)
  else Done false.

Definition is_empty (r : DebugInfoResolver) : bool :=
  match functions r, rows r with [], [] => true | _, _ => false end.
Definition function_addr (r : DebugInfoResolver) (name : text) : option Z :=
  fe_addr <$> bt_get name (functions r).

Definition file_matches (want have : option text) : bool :=
  match want, have with
  | Some w, Some h => bool_decide (w = h)
  | Some _, None => false
  | None, _ => true
  end.
(** The addresses of the matching rows, in row order. *)
Fixpoint line_addrs (file : option text) (line : Z) (extent : option FuncExtent) (l : list LineRow)
    : outcome (list Z) :=
  match l with
  | [] => Done []
  | r :: l' =>
      if (lr_line r =? line) && file_matches file (lr_file r) then
        b ← match extent with Some e => contains e (lr_addr r) | None => Done true end;
        rest ← line_addrs file line extent l';
        Done (if b : bool then lr_addr r :: rest else rest)
      else line_addrs file line extent l'
  end.
Definition list_min (l : list Z) : option Z :=
  foldl (fun m x => match m with None => Some x | Some y => Some (Z.min y x) end) None l.
Definition line_addr (r : DebugInfoResolver) (file : option text) (line : Z) (within : option FuncExtent)
    : outcome (option Z) :=
  l ← line_addrs (basename <$> file) line within (rows r);
  Done (list_min l).

Definition resolve_location (r : DebugInfoResolver) (loc : CodeLocation) : outcome (option Z) :=
  match function loc, line loc with
  | Some func, Some ln =>
      let extent := bt_get func (functions r) in
      a ← line_addr r (file loc) ln extent;
      Done (match a with Some x => Some x | None => fe_addr <$> extent end)
  | Some func, None => Done (function_addr r func)
  | None, Some ln => line_addr r (file loc) ln None
  | None, None => Done None
  end.

(** [max_by_key]: the last of the greatest. *)
Fixpoint enclosing (addr : Z) (fs : list (text * FuncExtent)) (best : option (text * FuncExtent))
    : outcome (option text) :=
  match fs with
  | [] => Done (fst <$> best)
  | (name, e) :: fs' =>
      c ← contains e addr;
      enclosing addr fs'
        (if (c : bool) || (fe_addr e <=? addr) then
           match best with
           | Some (_, b) => if fe_addr b <=? fe_addr e then Some (name, e) else best
           | None => Some (name, e)
           end
         else best)
  end.
Definition describe (r : DebugInfoResolver) (addr : Z) : outcome ResolvedLocation :=
  f ← enclosing addr (functions r) None;
  (* [partition_point] of an address-sorted list: the rows at or before [addr] *)
  let row := last (List.filter (fun w => lr_addr w <=? addr) (rows r)) in
  Done {| rl_function := f; rl_file := row ≫= lr_file; rl_line := lr_line <$> row |}.

(** One anchor of [resolve_program]: its new form, and whether it stays unresolved. *)
Definition resolve_anchor (r : DebugInfoResolver) (a : Anchor) : outcome (Anchor * bool) :=
  match an_position a with
  | Rip None nth =>
      x ← resolve_location r (an_location a);
      Done (match x with
            | Some addr => ({| an_name := an_name a; an_thread := an_thread a;
                               an_position := Rip (Some addr) nth; an_location := an_location a;
                               an_from := an_from a |}, false)
            | None => (a, true)
            end)
  | _ => Done (a, false)
  end.
Fixpoint resolve_anchors (r : DebugInfoResolver) (l : list (text * Anchor))
    : outcome (list (text * Anchor) * list text) :=
  match l with
  | [] => Done ([], [])
  | (name, a) :: l' =>
      '(a', un) ← resolve_anchor r a;
      '(rest, uns) ← resolve_anchors r l';
      Done ((name, a') :: rest, if un : bool then name :: uns else uns)
  end.
Definition resolve_program (p : HappensBeforeProgram) (r : DebugInfoResolver)
    : outcome (HappensBeforeProgram * list text) :=
  '(anchors, un) ← resolve_anchors r (pr_anchors p);
  Done ({| pr_version := pr_version p; pr_anchors := anchors; pr_edges := pr_edges p;
           pr_max_hold_ns := pr_max_hold_ns p |}, un).
End Resolve.

(** ** What a run can enforce *)

Record HbLaunch := {
  backend : text;
  ptrace : bool;
  namespace_only : bool;
  passthru_opt : bool;
  preemption : bool;
  replay_schedule : bool;
}.

Inductive refusal :=
  | PollingPhase
  | PosthookUnderReplay
  | NeverReachesTracer (sysno : Sysno)
  | NoInterception (occurrence : bool)
  | OtherBackend (occurrence : bool) (backend : text)
  | SomeUnintercepted (occurrence : bool)
  | HoldWithoutPreemption (version : Z).
Inductive launch_error :=
  | AnchorRefused (name : text) (position : Position) (why : refusal)
  | ProgramRefused (why : refusal).

Section Launch.
Context `{SysnoTable}.

Definition anchor_refusal (launch : HbLaunch) (a : Anchor) : option refusal :=
  let occ := is_syscall_occurrence a in
  let bypass :=
    if namespace_only launch then Some (NoInterception occ)
    else if negb (ptrace launch) then Some (OtherBackend occ (backend launch))
    else if passthru_opt launch && occ then Some (SomeUnintercepted occ)
    else None in
  match an_position a with
  | Syscall sysno _ _ _ _ =>
      if negb occ then Some PollingPhase
      else if fires_at_posthook a && replay_schedule launch then Some PosthookUnderReplay
      else if syscall_never_reaches_tracer sysno then Some (NeverReachesTracer sysno)
      else bypass
  | SyscallCount _ => bypass
  | _ => None
  end.

Definition refuse_hold_without_preemption (p : HappensBeforeProgram) : result launch_error () :=
  if negb (is_version_2 p) then Ok tt else Err (ProgramRefused (HoldWithoutPreemption (pr_version p))).

Fixpoint refuse_anchors (launch : HbLaunch) (l : list Anchor) : result launch_error () :=
  match l with
  | [] => Ok tt
  | a :: l' =>
      match anchor_refusal launch a with
      | Some why => Err (AnchorRefused (an_name a) (an_position a) why)
      | None => refuse_anchors launch l'
      end
  end.
Definition refuse_unenforceable_anchors (p : HappensBeforeProgram) (launch : HbLaunch)
    : result launch_error () :=
  _ ← refuse_anchors launch (pr_anchors p).*2;
  if negb (preemption launch) then refuse_hold_without_preemption p else Ok tt.
End Launch.

End HbLaunch.
