(* ===== verification/HbLaunchProps.v ===== *)
(** * Properties of location resolution and of the launch check *)
From Stdlib Require Import String ZArith Lia List.
From stdpp Require Import base gmap list.
From S2P Require Import Prelude BTree Schedule Text HappensBefore HbLaunch.
Import HappensBefore HbLaunch.
Open Scope Z_scope.

(** ** What a location denotes *)

Definition inside (e : FuncExtent) (addr : Z) : Prop :=
  fe_size e = 0 /\ addr = fe_addr e \/ 0 < fe_size e /\ fe_addr e <= addr < fe_addr e + fe_size e.

(** [addr] is a row of [line] in [file], inside [ext] when there is one. *)
Definition row_at (r : DebugInfoResolver) (file : option text) (line : Z) (ext : option FuncExtent)
    (addr : Z) : Prop :=
  exists row, row ∈ rows r /\ lr_addr row = addr /\ lr_line row = line /\
    file_matches (basename <$> file) (lr_file row) = true /\
    match ext with Some e => inside e addr | None => True end.
Definition least (P : Z -> Prop) (x : Z) : Prop := P x /\ forall y, P y -> x <= y.

(** The line inside the function, then the function's entry, then the line. *)
Definition location_at (r : DebugInfoResolver) (loc : CodeLocation) (addr : Z) : Prop :=
  match function loc, line loc with
  | Some f, Some ln =>
      let ext := bt_get f (functions r) in
      least (row_at r (file loc) ln ext) addr \/
      (forall x, ~ row_at r (file loc) ln ext x) /\ fe_addr <$> ext = Some addr
  | Some f, None => fe_addr <$> bt_get f (functions r) = Some addr
  | None, Some ln => least (row_at r (file loc) ln None) addr
  | None, None => False
  end.

(** Symbols lie in the address space. *)
Definition extents_fit (r : DebugInfoResolver) : Prop :=
  forall f e, bt_get f (functions r) = Some e ->
    0 <= fe_addr e /\ 0 <= fe_size e /\ fe_addr e + fe_size e <= u64_max.

(** ** Lines *)

Section Lines.
Context (bp : profile).

Lemma contains_spec e addr :
  0 <= fe_addr e -> 0 <= fe_size e -> fe_addr e + fe_size e <= u64_max ->
  exists b, contains bp e addr = Done b /\ (b = true <-> inside e addr).
Proof.
  intros Ha Hs Hu. unfold contains, inside. destruct (Z.eqb_spec (fe_size e) 0).
  { eexists; split; [done|]. rewrite Z.eqb_eq. lia. }
  destruct (Z.leb_spec (fe_addr e) addr); [|eexists; split; [done|]; split; [done|lia]].
  rewrite arith_u_exact by (unfold u64_max in *; lia). cbn [mbind outcome_bind].
  eexists; split; [done|]. rewrite Z.ltb_lt. lia.
Qed.

Lemma line_addrs_spec file ln ext l :
  (forall e, ext = Some e -> 0 <= fe_addr e /\ 0 <= fe_size e /\ fe_addr e + fe_size e <= u64_max) ->
  exists xs, line_addrs bp file ln ext l = Done xs /\
    forall x, x ∈ xs <-> exists row, row ∈ l /\ lr_addr row = x /\ lr_line row = ln /\
      file_matches file (lr_file row) = true /\ match ext with Some e => inside e x | None => True end.
Proof.
  intros Hext. induction l as [|r l (xs & IH & Hxs)]; cbn [line_addrs].
  { eexists; split; [done|]. set_solver. }
  assert (Hskip : (lr_line r =? ln) && file_matches file (lr_file r) = false ->
    forall x, x ∈ xs <-> exists row, row ∈ r :: l /\ lr_addr row = x /\ lr_line row = ln /\
      file_matches file (lr_file row) = true /\ match ext with Some e => inside e x | None => True end).
  { intros E x. rewrite Hxs. split; intros (row & Hin & ? & Hl & Hf & ?); exists row; split_and!; try done; [by right|].
    apply elem_of_cons in Hin as [->|]; [|done]. by rewrite Hf, (proj2 (Z.eqb_eq _ _) Hl) in E. }
  destruct ((lr_line r =? ln) && file_matches file (lr_file r)) eqn:E; [|rewrite IH; eauto].
  apply andb_true_iff in E as [El Ef]. apply Z.eqb_eq in El.
  assert (Hb : exists b, match ext with Some e => contains bp e (lr_addr r) | None => Done true end = Done b /\
    (b = true <-> match ext with Some e => inside e (lr_addr r) | None => True end)).
  { destruct ext as [e|]; [|by exists true]. destruct (Hext e eq_refl) as (? & ? & ?). by apply contains_spec. }
  destruct Hb as (b & -> & Hb). cbn [mbind outcome_bind]. rewrite IH. cbn [mbind outcome_bind].
  eexists; split; [done|]. intros x. destruct b.
  - rewrite elem_of_cons, Hxs. split.
    + intros [->|(row & ? & ?)]; [exists r|exists row]; split_and!; try done; [by left|naive_solver|by right|naive_solver..].
    + intros (row & [->|Hin]%elem_of_cons & <- & ?); [by left|right; eauto].
  - rewrite Hxs. split; intros (row & Hin & Hx & ? & ? & He); exists row; split_and!; try done; [by right|].
    apply elem_of_cons in Hin as [->|]; [|done]. subst x. by apply Hb in He.
Qed.

Lemma list_min_spec l :
  match list_min l with
  | Some x => least (fun y => y ∈ l) x
  | None => l = []
  end.
Proof.
  unfold list_min, least.
  assert (H : forall l m, match foldl (fun m x => match m with None => Some x | Some y => Some (Z.min y x) end) (Some m) l with
    | Some x => (x = m \/ x ∈ l) /\ x <= m /\ forall y, y ∈ l -> x <= y | None => False end).
  { induction l0 as [|a l0 IH]; intros m; simpl; [set_solver by lia|].
    specialize (IH (Z.min m a)). destruct (foldl _ _ l0) as [x|]; [|done]. destruct IH as (H1 & H2 & H3).
    split_and!; [|lia|].
    - destruct H1 as [->|]; [|set_solver]. destruct (Z.min_spec m a) as [[_ ->]|[_ ->]]; set_solver.
    - intros y [->|]%elem_of_cons; [lia|auto]. }
  destruct l as [|a l]; simpl; [done|]. specialize (H l a). destruct (foldl _ _ l) as [x|]; [|done].
  destruct H as (H1 & H2 & H3). split; [set_solver|]. intros y [->|]%elem_of_cons; [lia|auto].
Qed.

Lemma line_addr_spec r file ln ext :
  (forall e, ext = Some e -> 0 <= fe_addr e /\ 0 <= fe_size e /\ fe_addr e + fe_size e <= u64_max) ->
  exists o, line_addr bp r file ln ext = Done o /\
    match o with
    | Some x => least (row_at r file ln ext) x
    | None => forall x, ~ row_at r file ln ext x
    end.
Proof.
  intros Hext. destruct (line_addrs_spec (basename <$> file) ln ext (rows r) Hext) as (xs & E & Hxs).
  unfold line_addr. rewrite E. cbn [mbind outcome_bind]. eexists; split; [done|].
  pose proof (list_min_spec xs) as Hm. unfold least, row_at in *.
  destruct (list_min xs) as [x|].
  - destruct Hm as [Hin Hle]. split; [by apply Hxs|]. intros y Hy. apply Hle. by apply Hxs.
  - intros x Hx. apply Hxs in Hx. by rewrite Hm in Hx; apply elem_of_nil in Hx.
Qed.

Lemma resolve_location_spec r loc :
  extents_fit r ->
  exists o, resolve_location bp r loc = Done o /\
    match o with Some x => location_at r loc x | None => forall x, ~ location_at r loc x end.
Proof.
  intros Hfit. unfold resolve_location, location_at, function_addr.
  destruct (function loc) as [f|], (line loc) as [ln|].
  - destruct (line_addr_spec r (file loc) ln (bt_get f (functions r))) as (o & -> & Ho).
    { intros e He. by apply (Hfit f). }
    cbn [mbind outcome_bind]. eexists; split; [done|]. destruct o as [x|]; [by left|].
    destruct (bt_get f (functions r)) as [e|]; simpl; [by right|].
    intros x [[Hx _]|[_ ?]]; [by apply (Ho x)|done].
  - eexists; split; [done|]. by destruct (bt_get f (functions r)).
  - destruct (line_addr_spec r (file loc) ln None) as (o & -> & Ho); [done|]. exists o. split; [done|].
    destruct o; [done|]. intros x [Hx _]. by apply (Ho x).
  - eexists; split; [done|]. naive_solver.
Qed.

(** ** Programs *)

Definition unresolved (a : Anchor) : bool := match an_position a with Rip None _ => true | _ => false end.

(** How resolution changes one anchor. *)
Definition resolved_as (r : DebugInfoResolver) (a a' : Anchor) : Prop :=
  an_name a' = an_name a /\ an_thread a' = an_thread a /\ an_location a' = an_location a /\ an_from a' = an_from a /\
  match an_position a with
  | Rip None nth =>
      match an_position a' with
      | Rip (Some x) n => n = nth /\ location_at r (an_location a) x
      | Rip None n => n = nth /\ forall x, ~ location_at r (an_location a) x
      | _ => False
      end
  | p => an_position a' = p
  end.

Lemma resolve_anchor_spec r a :
  extents_fit r ->
  exists a', resolve_anchor bp r a = Done (a', unresolved a') /\ resolved_as r a a'.
Proof.
  intros Hfit. unfold resolve_anchor, resolved_as, unresolved.
  destruct (an_position a) as [n|m|sn ph nth fd fo|[x|] nth|mk nth] eqn:E;
    try (exists a; rewrite E; by split_and!).
  destruct (resolve_location_spec r (an_location a) Hfit) as (o & -> & Ho). cbn [mbind outcome_bind].
  destruct o as [x|]; [|exists a; rewrite E; by split_and!].
  exists {| an_name := an_name a; an_thread := an_thread a; an_position := Rip (Some x) nth;
            an_location := an_location a; an_from := an_from a |}. by split_and!.
Qed.

Lemma resolve_anchors_spec r l :
  extents_fit r ->
  exists l' un, resolve_anchors bp r l = Done (l', un) /\
    Forall2 (fun x x' => x'.1 = x.1 /\ resolved_as r x.2 x'.2) l l' /\
    un = (List.filter (fun x => unresolved x.2) l').*1.
Proof.
  intros Hfit. induction l as [|[name a] l (l' & un & IH & HF & Hun)]; cbn [resolve_anchors].
  { eexists _, _. by split. }
  destruct (resolve_anchor_spec r a Hfit) as (a' & -> & Ha). cbn [mbind outcome_bind].
  rewrite IH. cbn [mbind outcome_bind]. eexists _, _. split; [done|]. split; [by constructor|].
  cbn [List.filter snd]. destruct (unresolved a'); by rewrite Hun.
Qed.
End Lines.

(** Resolving a program against a binary's debug information touches only
    the anchors whose address is missing: each gets the address its code location
    denotes (the line inside the named function, else the function's entry, else
    the line, the lowest one), or none exists and it is reported; everything
    else of the program is kept, and the reported names are exactly the anchors
    left without an address. *)
Theorem resolve_program_exact bp p r :
  extents_fit r ->
  exists p' un, resolve_program bp p r = Done (p', un) /\
    pr_version p' = pr_version p /\ pr_edges p' = pr_edges p /\ pr_max_hold_ns p' = pr_max_hold_ns p /\
    Forall2 (fun x x' => x'.1 = x.1 /\ resolved_as r x.2 x'.2) (pr_anchors p) (pr_anchors p') /\
    un = (List.filter (fun x => unresolved x.2) (pr_anchors p')).*1.
Proof.
  intros Hfit. destruct (resolve_anchors_spec bp r (pr_anchors p) Hfit) as (l' & un & E & HF & Hun).
  unfold resolve_program. rewrite E. cbn [mbind outcome_bind]. by eexists _, _.
Qed.

(** ** The launch check *)

(** What a run must offer for an anchor to be enforced as written. *)
Definition enforceable `{SysnoTable} (l : HbLaunch) (a : Anchor) : Prop :=
  match an_position a with
  | SyscallCount _ => namespace_only l = false /\ ptrace l = true
  | Syscall sysno _ _ _ _ =>
      is_syscall_occurrence a = true /\ namespace_only l = false /\ ptrace l = true /\
      passthru_opt l = false /\ syscall_never_reaches_tracer sysno = false /\
      (fires_at_posthook a = true -> replay_schedule l = false)
  | _ => True
  end.

Lemma anchor_refusal_None `{SysnoTable} l a : anchor_refusal l a = None <-> enforceable l a.
Proof.
  unfold anchor_refusal, enforceable. destruct (an_position a) as [n|m|sn ph nth fd fo|x nth|mk nth] eqn:E; try done.
  - assert (is_syscall_occurrence a = false) as -> by (unfold is_syscall_occurrence; by rewrite E).
    destruct (namespace_only l), (ptrace l), (passthru_opt l); simpl; naive_solver.
  - destruct (is_syscall_occurrence a), (fires_at_posthook a), (replay_schedule l),
      (syscall_never_reaches_tracer sn), (namespace_only l), (ptrace l), (passthru_opt l); simpl; naive_solver.
Qed.

Lemma refuse_anchors_Ok `{SysnoTable} l as_ :
  refuse_anchors l as_ = Ok tt <-> Forall (enforceable l) as_.
Proof.
  induction as_ as [|a as_ IH]; cbn [refuse_anchors]; [done|]. rewrite Forall_cons, <- IH, <- anchor_refusal_None.
  destruct (anchor_refusal l a); naive_solver.
Qed.

(** A launch accepts a program exactly when the run can enforce it: every
    count and syscall anchor is intercepted under the ptrace runtime, no polling
    anchor, no syscall that bypasses the tracer, no posthook anchor under
    schedule replay, and a preemption timer whenever holds have a budget. *)
Theorem launch_accepts_enforceable `{SysnoTable} p l :
  refuse_unenforceable_anchors p l = Ok tt <->
  Forall (enforceable l) (pr_anchors p).*2 /\ (preemption l = true \/ pr_version p <> HAPPENS_BEFORE_VERSION).
Proof.
  unfold refuse_unenforceable_anchors. rewrite <- refuse_anchors_Ok.
  destruct (refuse_anchors l (pr_anchors p).*2) as [[]|e|pn]; cbn [mbind result_bind]; [|naive_solver..].
  unfold refuse_hold_without_preemption, is_version_2.
  destruct (preemption l); simpl; [naive_solver|].
  destruct (Z.eqb_spec (pr_version p) HAPPENS_BEFORE_VERSION); simpl; naive_solver.
Qed.

(** ** A concrete binary *)

Definition ex_resolver : DebugInfoResolver :=
  from_symbols
    [{| sy_text := true; sy_addr := 4096; sy_name := Some (lit "main"); sy_size := 64 |};
     {| sy_text := true; sy_addr := 8192; sy_name := Some (lit "free_buffer"); sy_size := 32 |}]
    [{| rr_end := false; rr_addr := 8200; rr_line := Some 7; rr_path := Some (lit "src/buf.c") |};
     {| rr_end := false; rr_addr := 4100; rr_line := Some 7; rr_path := Some (lit "src/main.c") |}].
Definition ex_unresolved : HappensBeforeProgram :=
  let a := {| an_name := lit "e"; an_thread := {| tr_label := lit "A"; tr_dettid := Some 3; tr_spawn_ordinal := None |};
              an_position := Rip None 1;
              an_location := {| function := Some (lit "free_buffer"); file := None; line := Some 7 |};
              an_from := None |} in
  {| pr_version := 1; pr_anchors := [(lit "e", a)]; pr_edges := []; pr_max_hold_ns := None |}.

Lemma resolve_program_exact_witness :
  exists p' un, resolve_program validate ex_unresolved ex_resolver = Done (p', un) /\
    un = (List.filter (fun x => unresolved x.2) (pr_anchors p')).*1.
Proof.
  destruct (resolve_program_exact validate ex_unresolved ex_resolver) as (p' & un & E & _ & _ & _ & _ & Hun).
  - intros f e Hf. apply bt_get_elem in Hf; [|by repeat constructor].
    let l := eval vm_compute in (functions ex_resolver) in change (functions ex_resolver) with l in Hf.
    rewrite !elem_of_cons, elem_of_nil in Hf.
    destruct Hf as [[= _ ->]|[[= _ ->]|[]]]; vm_compute; repeat split; discriminate.
  - exists p', un. split; [exact E|exact Hun].
Defined.
