(* ===== verification/HbExamples.v ===== *)
(** Concrete happens-before programs: the hypotheses of the theorems about
    validation, counting and gates hold on them. *)
From Stdlib Require Import String ZArith Lia List.
From stdpp Require Import base gmap relations list.
From S2P Require Import Prelude BTree RunQueue RunQueueInv RunQueueOrder RunQueueProps Time Schedule Text HappensBefore HbCycle HbNormalize HbCount HbGate HbGateInv HbGateProps HbDsl HbDslProps.
Import HappensBefore HbGate.
Open Scope Z_scope.

(** A few syscalls with their x86_64 numbers. *)
Definition known_syscalls : list (text * Z) :=
  (fun '(n, v) => (lit n, v)) <$> [("read", 0); ("write", 1); ("exit", 60); ("futex", 202)]%string.
Definition lookup_syscall (n : text) : option Z :=
  snd <$> List.find (fun kv => bool_decide (kv.1 = n)) known_syscalls.
#[local] Instance ex_table : SysnoTable :=
  {| sysno_variant := fun n => default (-1) (lookup_syscall n); sysno_from_str := lookup_syscall |}.

(** Thread 5's first [write] to descriptor 1 after its first syscall waits for
    thread 3's second syscall. *)
Definition ex_spec : HappensBeforeSpec :=
  {| sp_version := 2; sp_max_hold_ns := Some 500; sp_threads := [];
     sp_events :=
       [(lit "base", HbDsl.event_other (lit "5") None (Some 1) None None None);
        (lit "first", HbDsl.event_other (lit "3") None (Some 2) None None None);
        (lit "then", {| ev_thread := lit "5"; ev_syscalls := None; ev_rcbs := None; ev_func := None;
                        ev_file := None; ev_line := None; ev_syscall := Some (lit "write");
                        ev_phase := None; ev_fd := Some 1; ev_futex_op := None;
                        ev_from := Some (lit "base"); ev_rip := None; ev_mark := None;
                        ev_nth := Some 1 |})];
     sp_edges := [{| es_before := lit "first"; es_after := lit "then"; es_strength := Hard |}] |}.

Lemma ex_typed : spec_typed ex_spec.
Proof.
  split; [unfold bt_ok; vm_compute; repeat constructor|].
  intros name ev n Hin Hn. cbn [sp_events ex_spec] in Hin.
  repeat (apply elem_of_cons in Hin as [[= -> ->]|Hin]; [cbn in Hn; try done; injection Hn as <-; by vm_compute|]).
  inversion Hin.
Qed.

Definition empty_program : HappensBeforeProgram :=
  {| pr_version := 1; pr_anchors := []; pr_edges := []; pr_max_hold_ns := None |}.
Definition ex_program : HappensBeforeProgram :=
  Eval vm_compute in match normalize release ex_spec with Ok p => p | _ => empty_program end.

Lemma ex_program_ok : program_ok ex_program.
Proof.
  destruct (normalize_cases release ex_spec ex_typed) as [(_ & p & E & Hp & _)|[_ [e E]]].
  - replace ex_program with p; [done|]. vm_compute in E. by injection E as <-.
  - vm_compute in E. done.
Qed.

(** ** Validation *)


Definition ex_edges : list HappensBeforeEdge :=
  [{| ed_before := lit "first"; ed_after := lit "then"; ed_strength := Hard |};
   {| ed_before := lit "then"; ed_after := lit "first"; ed_strength := Hard |}].
Lemma detect_cycle_decides_witness :
  detect_cycle (pr_anchors ex_program) ex_edges
    = Err (Cycle [lit "first"; lit "then"; lit "first"])
  /\ ~ acyclic (edge_rel ex_edges).
Proof.
  assert (Hin : edges_within (pr_anchors ex_program) ex_edges).
  { unfold edges_within, ex_edges. repeat constructor; cbn; set_solver. }
  destruct (detect_cycle_decides (pr_anchors ex_program) ex_edges Hin) as [Hiff _].
  assert (E : detect_cycle (pr_anchors ex_program) ex_edges
              = Err (Cycle [lit "first"; lit "then"; lit "first"])) by by vm_compute.
  split; [exact E|]. intros Ha. apply Hiff in Ha. rewrite E in Ha. discriminate.
Defined.

(** ** Counting *)

(** One [read], then a [write] to descriptor 1. *)
Lemma occurrence_counting_exact_witness :
  exists r c ns c',
    run_entries release ex_program 5 [(0, (7, 0))] 0 new_counters = Done (r, c)
    /\ count_syscall_occurrences release ex_program 5 1 (1, 0) 2 c = Done (ns, c')
    /\ lit "then" ∈ ns.
Proof.
  destruct (occurrence_counting_exact release ex_program 5 [(0, (7, 0))] (1, (1, 0)) ex_program_ok)
    as (r & c & ns & c' & Hr & Hc & _ & Hin & _); [by vm_compute|].
  exists r, c, ns, c'. split; [exact Hr|]. split; [exact Hc|].
  apply Hin. eexists. split; [by vm_compute|]. split; [by vm_compute|].
  split; [by exists [(0, (7, 0))], (1, (1, 0))|]. exists 1. split; [done|].
  eexists _, [(0, (7, 0))], [(1, (1, 0))]. split; [by vm_compute|]. split; [done|].
  split; [|by vm_compute]. by vm_compute.
Defined.

(** ** The terse language *)

Definition ex_lines : text := lit "5:write@post#2 < 3:sc=4 // one edge".
Lemma from_dsl_denotes_lines_witness :
  exists spec, HbDsl.from_dsl release ex_lines = Ok spec
    /\ Forall2 (denotes spec) (sp_edges spec)
         [(HbDsl.event_syscall (lit "5") (Some 2) (lit "write") (Some PhPosthook),
           HbDsl.event_other (lit "3") None (Some 4) None None None, Hard)]
    /\ spec_typed spec.
Proof.
  pose proof (from_dsl_denotes_lines release ex_lines ltac:(by vm_compute)) as Hd.
  assert (E : dsl_edges (lines ex_lines) 1
    = Ok [(HbDsl.event_syscall (lit "5") (Some 2) (lit "write") (Some PhPosthook),
           HbDsl.event_other (lit "3") None (Some 4) None None None, Hard)]) by by vm_compute.
  rewrite E in Hd. destruct Hd as (spec & H1 & H2 & H3 & _). by exists spec.
Defined.

(** ** Gates *)

#[local] Existing Instance low_rng.
#[local] Existing Instance low_rng_spec.

Definition ex_scheduler : Scheduler Z :=
  {| happens_before := Some (HbGate.new ex_program); run_queue := example_queue;
     priorities := [(3, 1000); (5, 1000)]; committed_time := 100; vfork_barriers := [];
     HbGate.turn := 0; terminal_deadlock := None; terminal_kind := HermitStall |}.

(** Thread 5 is held at its [write]; thread 3 then makes its second syscall and
    leaves the queue. *)
Definition ex_hold : list hb_event :=
  [EQueue (CPopTid 5); ERequest 5 (HappensBeforeSyscallCheckpoint 2 [lit "then"])].
Definition ex_fire : list hb_event :=
  [EQueue (CPopTid 3); ERequest 3 (HappensBeforeCheckpoint 2); EQueue CCommit].

Definition states_of (evs : list hb_event) (st : Scheduler Z * list SuspendedRunQueueEntry)
    : list (Scheduler Z * list SuspendedRunQueueEntry) :=
  match run_events release evs st with Done sts => sts | Panic _ => [] end.
Definition ex_held : Scheduler Z * list SuspendedRunQueueEntry :=
  Eval vm_compute in default (ex_scheduler, []) (last (states_of ex_hold (ex_scheduler, []))).
Definition ex_fired : Scheduler Z * list SuspendedRunQueueEntry :=
  Eval vm_compute in default (ex_scheduler, []) (last (states_of (ex_hold ++ ex_fire) (ex_scheduler, []))).

(** Queue calls of the example only select or commit, so they admit nobody. *)
Ltac no_admission :=
  intros ? ? E; vm_compute in E; injection E as <- <-; intros ?t Hin _;
  match type of Hin with ?t ∈ tids ?q =>
    let a := eval vm_compute in (tids q) in change (t ∈ a) in Hin end;
  match goal with |- ?t ∈ tids ?q =>
    let b := eval vm_compute in (tids q) in change (t ∈ b) end;
  set_solver.
Ltac next_event := intros ? E; vm_compute in E; injection E as <-.

Lemma ex_hold_ok : events_ok release ex_hold (ex_scheduler, []).
Proof.
  split; [split; [split; by vm_compute|no_admission]|]. next_event.
  split; [by vm_compute|]. next_event. done.
Qed.
Lemma ex_fire_ok : events_ok release ex_fire ex_held.
Proof.
  split; [split; [split; by vm_compute|no_admission]|]. next_event.
  split; [by vm_compute|]. next_event.
  split; [split; [split; [by vm_compute|by eexists]|no_admission]|]. next_event. done.
Qed.
Lemma ex_events_ok : events_ok release (ex_hold ++ ex_fire) (ex_scheduler, []).
Proof.
  split; [split; [split; by vm_compute|no_admission]|]. next_event.
  split; [by vm_compute|]. next_event. exact ex_fire_ok.
Qed.

Lemma ex_held_inv : gate_inv ex_program ex_held.
Proof.
  destruct (run_events_ok release ex_program ex_hold (ex_scheduler, [])) as (sts & E & _ & Hall & _).
  - apply gate_start; [apply ex_program_ok|done|apply example_ok|done].
  - apply ex_hold_ok.
  - apply (Hall 2%nat). vm_compute in E. injection E as <-. by vm_compute.
Qed.

Lemma hard_edges_enforced_witness :
  exists sts, run_events release (ex_hold ++ ex_fire) (ex_scheduler, []) = Done sts
    /\ forall i si si' hb hb', sts !! i = Some si -> sts !! S i = Some si' ->
         happens_before si.1 = Some hb -> happens_before si'.1 = Some hb' ->
         (forall n, is_fired hb n -> is_fired hb' n)
         /\ (forall x y, hard_edge ex_program x y -> is_fired hb' y -> ~ is_fired hb y -> is_fired hb x)
         /\ (forall t, t ∈ (parked hb').*1 -> t ∉ tids (run_queue si'.1)).
Proof.
  apply (hard_edges_enforced release ex_program);
    [apply ex_program_ok|done|apply example_ok|by vm_compute|apply ex_events_ok].
Defined.

Lemma flush_wakes_every_open_gate_witness :
  exists s2 hb2, hb_flush_wakes release ex_fired.1 = Done s2 /\ happens_before s2 = Some hb2
    /\ wake_pending hb2 = false /\ (held s2 5 \/ 5 ∈ tids (run_queue s2)).
Proof.
  destruct (flush_wakes_every_open_gate release ex_program (ex_hold ++ ex_fire) ex_scheduler []
    (states_of (ex_hold ++ ex_fire) (ex_scheduler, [])) ex_fired.1 ex_fired.2)
    as (s2 & hb2 & H1 & H2 & H3 & H4 & _);
    [apply ex_program_ok|done|apply example_ok|by vm_compute|apply ex_events_ok|by vm_compute|by vm_compute| |].
  - split; [by vm_compute|]. split.
    + intros t (hb & [= <-] & Hin). cbn in Hin. apply list_elem_of_singleton in Hin as ->. by exists 1000.
    + intros hb [= <-]. by vm_compute.
  - exists s2, hb2. split; [exact H1|]. split; [exact H2|]. split; [exact H3|].
    apply H4. eexists. split; [reflexivity|]. cbn. set_solver.
Defined.

Definition held_runtime : HbRuntime := Eval vm_compute in default (HbGate.new ex_program) (happens_before ex_held.1).
Lemma held_runtime_inv : hb_inv held_runtime.
Proof. destruct ex_held_inv as [(hb & E & _ & Hinv & _) _ _]. by injection E as <-. Qed.

Lemma closed_gate_has_cause_witness :
  exists y, ~ is_fired held_runtime y /\ anchor_blocked held_runtime y = false
    /\ tc (hard_edge (program held_runtime)) y (lit "then").
Proof. apply closed_gate_has_cause; [apply held_runtime_inv|by vm_compute]. Defined.

(** 500 ns is the budget; at 700 ns thread 5 has been held for 600. *)
Definition ex_wait : list hb_event := [EBudget; ETime 700].

(** The second entry of thread 5 reaches [then]. *)
Lemma checkpoint_names_reached_anchors_witness :
  exists r c req post c',
    guest_entries release ex_program 5 [(0, (7, 0))] 0 new_counters = Done (r, c)
    /\ entry_checkpoint release ex_program 5 1 (1, 0) 2 c = Done (req, post, c')
    /\ lit "then" ∈ reached_by 5 held_runtime req.
Proof.
  destruct (checkpoint_names_reached_anchors release ex_program 5 [(0, (7, 0))] (1, (1, 0)) ex_program_ok)
    as (r & c & req & post & c' & Hr & Hc & Hin & _); [by vm_compute|].
  exists r, c, req, post, c'. split; [exact Hr|]. split; [exact Hc|].
  apply Hin; [by vm_compute|]. eexists. split; [by vm_compute|]. split; [by vm_compute|]. right.
  split; [by vm_compute|]. split; [by exists [(0, (7, 0))], (1, (1, 0))|]. exists 1. split; [done|].
  eexists _, [(0, (7, 0))], [(1, (1, 0))]. split; [by vm_compute|]. split; [done|].
  split; [|by vm_compute]. by vm_compute.
Defined.
