(* ===== verification/Resource.v ===== *)
(** * Resource requests (src/detcore/src/resources.rs, src/detcore/src/types.rs)

    What a guest thread asks the scheduler for: the resource identities with
    their payloads, the permission, and the request.  A request's resources are
    the entries of its hash map in the order it yields them. *)
From Stdlib Require Import ZArith Lia List.
From stdpp Require Import base gmap list.
From S2P Require Import Prelude BTree Time Schedule Text.
Open Scope Z_scope.

Module Resource.
Abbreviation DetPid := Z.
Abbreviation DetInode := Z.
Abbreviation LogicalTime := Z.

Inductive ChildWaitSelector := Exact (p : DetPid) | AnyChild | ProcessGroup (p : DetPid).
Inductive ChildWaitExitClass := Sigchld | Clone | AnyClass.
Record ChildWaitSpec := {
  selector : ChildWaitSelector;
  owner : option DetTid;
  exit_class : ChildWaitExitClass;
}.
Record ExternalOpId := { op_tid : DetTid; sequence : Z }.
Record MmId := { creator : DetTid; generation : Z }.
Record ChaosEpochTransition := { logical_time : LogicalTime; epoch : Z; factor : Z }.
Inductive Device := ContainerStdin | ContainerStdout | ContainerStderr.

Inductive ResourceID :=
  | FileContents (i : DetInode)
  | FileMetadata (i : DetInode)
  | DirectoryContents (i : DetInode)
  | MemAddrSpace (p : DetPid)
  | Path (p : text)
  | PathsTransitive (p : text)
  | DeviceAccess (d : Device)
  | Exit (group : bool) (process : DetPid) (mm : MmId)
  | ParentContinue (parent child : DetTid)
  | SleepUntil (t : LogicalTime)
  | InternalIOPolling
  | TraceReplay
  | FutexWait
  | BlockingExternalIO (op : ExternalOpId)
  | BlockingVfork (op : ExternalOpId)
  | VforkFailed (op : ExternalOpId)
  | BlockedExternalContinue (op : ExternalOpId)
  | PriorityChangePoint (old : Z) (t : LogicalTime) (new : Z) (epochs : list ChaosEpochTransition)
  | WaitChild (parent : DetPid) (spec : ChildWaitSpec)
  | WaitPhysicalChild (p : DetPid)
  | InboundSignal (s : Schedule.SigWrapper)
  | WaitidSignals (ss : list Schedule.SigWrapper)
  | SchedYield
  | HappensBeforeCheckpoint (count : Z)
  | HappensBeforeSyscallCheckpoint (count : Z) (anchors : list text)
  | HappensBeforePosthookInterrupted (count : Z) (anchors : list text) (code : text)
  | BlockingRtSigsuspend (op : ExternalOpId)
  | InGuestFatalAlarm.

Inductive Permission := R | W | RW.

(** The fields of a request this development reads. *)
Record Resources := {
  tid : DetTid;
  resources : list (ResourceID * Permission);
  poll_attempt : Z;
}.

#[global] Instance ChildWaitSelector_eq_dec : EqDecision ChildWaitSelector.
Proof. solve_decision. Defined.
#[global] Instance ChildWaitExitClass_eq_dec : EqDecision ChildWaitExitClass.
Proof. solve_decision. Defined.
#[global] Instance ChildWaitSpec_eq_dec : EqDecision ChildWaitSpec.
Proof. solve_decision. Defined.
#[global] Instance ExternalOpId_eq_dec : EqDecision ExternalOpId.
Proof. solve_decision. Defined.
#[global] Instance MmId_eq_dec : EqDecision MmId.
Proof. solve_decision. Defined.
#[global] Instance ChaosEpochTransition_eq_dec : EqDecision ChaosEpochTransition.
Proof. solve_decision. Defined.
#[global] Instance Device_eq_dec : EqDecision Device.
Proof. solve_decision. Defined.
#[global] Instance ResourceID_eq_dec : EqDecision ResourceID.
Proof. solve_decision. Defined.
#[global] Instance Permission_eq_dec : EqDecision Permission.
Proof. solve_decision. Defined.

(** [ResourceID::is_kernel_run_blocking] *)
Definition is_kernel_run_blocking (r : ResourceID) : bool :=
  match r with
  | BlockingExternalIO _ | BlockingVfork _ | BlockingRtSigsuspend _ => true
  | _ => false
  end.

(** [Permission::union] *)
Definition union (a b : Permission) : Permission :=
  match a, b with
  | R, R => R
  | R, W => RW
  | W, R => RW
  | W, W => W
  | RW, _ => RW
  | _, RW => RW
  end.

(** [matches!(p, W | RW)] *)
Definition writes (p : Permission) : bool := match p with R => false | W | RW => true end.

(** [Resources::exit_identity] *)
Definition exit_identity (r : Resources) : option (bool * DetPid * MmId) :=
  head (omap (fun kv => match kv.1 with Exit g p mm => Some (g, p, mm) | _ => None end) (resources r)).
End Resource.
