(* ===== verification/WorkSpan.v ===== *)
(** * Work and span of a schedule (src/detcore/src/scheduler/work_span.rs)

    Every committed turn is given a time: the thread's previous commit plus its
    own CPU time since, or a later predecessor.  The state keeps, per thread,
    its clock samples, its latest commit and what it follows; per resource, its
    accesses; per parent, its children's exits.  What the accounting reads of
    the rest of the scheduler is the record [View].

    Hash maps keyed by thread or process are [gmap]s; where one is iterated the
    result does not depend on the order.  Offsets inside a segment are [i128]
    in the source and cannot leave that range. *)
From Stdlib Require Import ZArith Lia List.
From stdpp Require Import base gmap list.
From S2P Require Import Prelude BTree Time Schedule Text Resource.
Import Resource.
Open Scope Z_scope.

Module WorkSpan.

Definition MAX_RESOURCES : nat := Z.to_nat 4096.
Definition MAX_EXITED_PER_PARENT : nat := Z.to_nat 4096.

Record Bounds := B { lo : Z; hi : Z }.
Definition zero : Bounds := B 0 0.
Definition bmax (a b : Bounds) : Bounds := B (Z.max (lo a) (lo b)) (Z.max (hi a) (hi b)).
Definition plus (bp : profile) (b : Bounds) (weight : Z) : outcome Bounds :=
  l ← arith_u bp 64 (lo b + weight);
  h ← arith_u bp 64 (hi b + weight);
  Done (B l h).

Inductive EdgeKind := EProgram | ESpawn | EReap | EResource | ESignal | EWaited.
Inductive WaitKind := WPoll | WFutex | WOutside | WSignal | WResource | WVforkParent | WChildWait.
Inductive Unmodelled :=
  | WaitCauses | ChannelDataWithoutWaiting | SharedMemoryWithoutWaiting | SignalSenders
  | KilledOutsideCalls | FilesAndDevices.
Definition UNMODELLED : list Unmodelled :=
  [WaitCauses; ChannelDataWithoutWaiting; SharedMemoryWithoutWaiting; SignalSenders;
   KilledOutsideCalls; FilesAndDevices].

(** The derived orders: declaration order. *)
Definition edge_code (k : EdgeKind) : Z :=
  match k with EProgram => 0 | ESpawn => 1 | EReap => 2 | EResource => 3 | ESignal => 4 | EWaited => 5 end.
Definition wait_code (k : WaitKind) : Z :=
  match k with WPoll => 0 | WFutex => 1 | WOutside => 2 | WSignal => 3 | WResource => 4
             | WVforkParent => 5 | WChildWait => 6 end.
#[global] Instance EdgeKind_eq_dec : EqDecision EdgeKind.
Proof. solve_decision. Defined.
#[global] Instance WaitKind_eq_dec : EqDecision WaitKind.
Proof. solve_decision. Defined.
#[export] Instance EdgeKind_ord : OrdKey EdgeKind := fun a b => kcmp (edge_code a) (edge_code b).
#[export] Instance WaitKind_ord : OrdKey WaitKind := fun a b => kcmp (wait_code a) (wait_code b).
#[export] Instance EdgeKind_ord_laws : OrdKeyLaws EdgeKind.
Proof. apply (ord_by_laws edge_code); [|done]. by intros [] []. Qed.
#[export] Instance WaitKind_ord_laws : OrdKeyLaws WaitKind.
Proof. apply (ord_by_laws wait_code); [|done]. by intros [] []. Qed.

(** Predecessors met inside a segment: the largest offset per span. *)
Record Segment := { seg_lo : option Z; seg_hi : option Z }.
Definition no_segment : Segment := {| seg_lo := None; seg_hi := None |}.
(** [u64::try_from((cpu + offset).max(0)).unwrap_or(u64::MAX)] *)
Definition shifted (cpu offset : Z) : Z :=
  let x := Z.max (cpu + offset) 0 in if x <=? u64_max then x else u64_max.

Record Access := { write : Bounds; reads : Bounds }.

(** A [HashMap<ResourceID, _>]: entries by key, each key once. *)
Section Assoc.
Context {K V : Type} `{EqDecision K}.
Fixpoint al_get (k : K) (m : list (K * V)) : option V :=
  match m with [] => None | (k', v) :: m' => if bool_decide (k' = k) then Some v else al_get k m' end.
Fixpoint al_set (k : K) (v : V) (m : list (K * V)) : list (K * V) :=
  match m with
  | [] => [(k, v)]
  | (k', v') :: m' => if bool_decide (k' = k) then (k', v) :: m' else (k', v') :: al_set k v m'
  end.
End Assoc.

(** The source's [resources] is [access] here ([resources] names a request's). *)
Record WorkSpanState := {
  enabled : bool;
  report : option text;
  cpu_now : gmap DetTid Z;
  cpu_outside : gmap DetTid Z;
  cpu_committed : gmap DetTid Z;
  finish : gmap DetTid Bounds;
  spawned : gmap DetTid Bounds;
  segment : gmap DetTid Segment;
  waiting : gmap DetTid (Z * WaitKind);
  access : list (ResourceID * Access);
  resource_floor : Bounds;
  resource_evictions : Z;
  pending_access : gmap DetTid (list (ResourceID * Permission));
  exited : gmap DetPid (list (DetPid * Bounds));
  latest_child_exit : gmap DetPid Bounds;
  process_done : gmap DetPid Bounds;
  exited_cap : nat;
  work : Z;
  span : Bounds;
  commits : Z;
  threads : Z;
  binding_lo : list (EdgeKind * Z);
  binding_hi : list (EdgeKind * Z);
  binding_waited : list (WaitKind * Z);
}.

Definition new (work_span_report : option text) : WorkSpanState :=
  {| enabled := match work_span_report with Some _ => true | None => false end;
     report := work_span_report; cpu_now := ∅; cpu_outside := ∅; cpu_committed := ∅; finish := ∅;
     spawned := ∅; segment := ∅; waiting := ∅; access := []; resource_floor := zero;
     resource_evictions := 0; pending_access := ∅; exited := ∅; latest_child_exit := ∅;
     process_done := ∅; exited_cap := MAX_EXITED_PER_PARENT; work := 0; span := zero;
     commits := 0; threads := 0; binding_lo := []; binding_hi := []; binding_waited := [] |}.

(** Field assignments, grouped by what the code changes together. *)
Definition set_clocks now outside committed s : WorkSpanState :=
  {| enabled := enabled s; report := report s; cpu_now := now; cpu_outside := outside; cpu_committed := committed;
     finish := finish s; spawned := spawned s; segment := segment s; waiting := waiting s;
     access := access s; resource_floor := resource_floor s;
     resource_evictions := resource_evictions s; pending_access := pending_access s;
     exited := exited s; latest_child_exit := latest_child_exit s; process_done := process_done s;
     exited_cap := exited_cap s; work := work s; span := span s; commits := commits s;
     threads := threads s; binding_lo := binding_lo s; binding_hi := binding_hi s;
     binding_waited := binding_waited s |}.
Definition set_timeline fin spw seg wt s : WorkSpanState :=
  {| enabled := enabled s; report := report s; cpu_now := cpu_now s; cpu_outside := cpu_outside s;
     cpu_committed := cpu_committed s; finish := fin; spawned := spw; segment := seg; waiting := wt;
     access := access s; resource_floor := resource_floor s;
     resource_evictions := resource_evictions s; pending_access := pending_access s;
     exited := exited s; latest_child_exit := latest_child_exit s; process_done := process_done s;
     exited_cap := exited_cap s; work := work s; span := span s; commits := commits s;
     threads := threads s; binding_lo := binding_lo s; binding_hi := binding_hi s;
     binding_waited := binding_waited s |}.
Definition set_access ac floor ev pend s : WorkSpanState :=
  {| enabled := enabled s; report := report s; cpu_now := cpu_now s; cpu_outside := cpu_outside s;
     cpu_committed := cpu_committed s; finish := finish s; spawned := spawned s;
     segment := segment s; waiting := waiting s; access := ac; resource_floor := floor;
     resource_evictions := ev; pending_access := pend;
     exited := exited s; latest_child_exit := latest_child_exit s; process_done := process_done s;
     exited_cap := exited_cap s; work := work s; span := span s; commits := commits s;
     threads := threads s; binding_lo := binding_lo s; binding_hi := binding_hi s;
     binding_waited := binding_waited s |}.
Definition set_exits ex latest pd s : WorkSpanState :=
  {| enabled := enabled s; report := report s; cpu_now := cpu_now s; cpu_outside := cpu_outside s;
     cpu_committed := cpu_committed s; finish := finish s; spawned := spawned s;
     segment := segment s; waiting := waiting s; access := access s;
     resource_floor := resource_floor s; resource_evictions := resource_evictions s;
     pending_access := pending_access s; exited := ex; latest_child_exit := latest;
     process_done := pd; exited_cap := exited_cap s; work := work s; span := span s;
     commits := commits s; threads := threads s; binding_lo := binding_lo s;
     binding_hi := binding_hi s; binding_waited := binding_waited s |}.
Definition set_totals w sp c th s : WorkSpanState :=
  {| enabled := enabled s; report := report s; cpu_now := cpu_now s; cpu_outside := cpu_outside s;
     cpu_committed := cpu_committed s; finish := finish s; spawned := spawned s;
     segment := segment s; waiting := waiting s; access := access s;
     resource_floor := resource_floor s; resource_evictions := resource_evictions s;
     pending_access := pending_access s; exited := exited s;
     latest_child_exit := latest_child_exit s; process_done := process_done s;
     exited_cap := exited_cap s; work := w; span := sp; commits := c; threads := th;
     binding_lo := binding_lo s; binding_hi := binding_hi s; binding_waited := binding_waited s |}.
Definition set_bindings bl bh bw s : WorkSpanState :=
  {| enabled := enabled s; report := report s; cpu_now := cpu_now s; cpu_outside := cpu_outside s;
     cpu_committed := cpu_committed s; finish := finish s; spawned := spawned s;
     segment := segment s; waiting := waiting s; access := access s;
     resource_floor := resource_floor s; resource_evictions := resource_evictions s;
     pending_access := pending_access s; exited := exited s;
     latest_child_exit := latest_child_exit s; process_done := process_done s;
     exited_cap := exited_cap s; work := work s; span := span s; commits := commits s;
     threads := threads s; binding_lo := bl; binding_hi := bh; binding_waited := bw |}.

(** ** Classifying requests *)

Definition conflict_key (r : ResourceID) : option ResourceID :=
  match r with
  | FileContents _ | FileMetadata _ | DirectoryContents _ | MemAddrSpace _ | Path _
  | PathsTransitive _ | DeviceAccess _ => Some r
  | _ => None
  end.

Definition resource_wait_kind (r : ResourceID) : option WaitKind :=
  match r with
  | FileContents _ | FileMetadata _ | DirectoryContents _ | MemAddrSpace _ | Path _
  | PathsTransitive _ | DeviceAccess _ => Some WResource
  | InternalIOPolling => Some WPoll
  | FutexWait => Some WFutex
  | BlockingExternalIO _ | BlockingVfork _ | BlockedExternalContinue _
  | BlockingRtSigsuspend _ => Some WOutside
  | InboundSignal _ | WaitidSignals _ => Some WSignal
  | ParentContinue _ _ => Some WVforkParent
  | WaitChild _ _ | WaitPhysicalChild _ => Some WChildWait
  | Exit _ _ _ | SleepUntil _ | TraceReplay | VforkFailed _ | PriorityChangePoint _ _ _ _
  | SchedYield | HappensBeforeCheckpoint _ | HappensBeforeSyscallCheckpoint _ _
  | HappensBeforePosthookInterrupted _ _ _ | InGuestFatalAlarm => None
  end.

(** [Iterator::max]: the last of the greatest. *)
Definition max_kind (l : list WaitKind) : option WaitKind :=
  foldl (fun best k => match best with
                       | None => Some k
                       | Some b => if wait_code k <? wait_code b then Some b else Some k
                       end) None l.
Definition wait_kind (request : Resources) : option WaitKind :=
  max_kind (omap (fun kv => resource_wait_kind kv.1) (resources request)).

Definition bind (best : Z * EdgeKind) (candidate : Z) (kind : EdgeKind) : Z * EdgeKind :=
  if best.1 <? candidate then (candidate, kind) else best.

Definition is_signal_request (request : option Resources) : bool :=
  match request with
  | Some r => existsb (fun kv => match kv.1 with InboundSignal _ | WaitidSignals _ => true | _ => false end)
                (resources r)
  | None => false
  end.
Definition is_exit_request (request : option Resources) : bool :=
  match request with
  | Some r => existsb (fun kv => match kv.1 with Exit _ _ _ => true | _ => false end) (resources r)
  | None => false
  end.
Definition is_outside_request (request : option Resources) : bool :=
  match request with
  | Some r => existsb (fun kv => is_kernel_run_blocking kv.1) (resources r)
  | None => false
  end.
Definition conflicts_of (request : option Resources) : list (ResourceID * Permission) :=
  match request with
  | Some r => omap (fun kv => key ← conflict_key kv.1; Some (key, kv.2)) (resources r)
  | None => []
  end.

(** ** The scheduler's other state *)

Record View := {
  next_turns : list (DetTid * option Resources);
  run_queue_contains : DetTid -> bool;
  committed_exits : DetTid -> bool;
  registered_process : DetTid -> option DetPid;
  live_process_threads : DetPid -> list DetTid;
  is_init_orphan : DetPid -> bool;
  parent_process : DetPid -> option DetPid;
  unreaped_children_of : DetPid -> list DetPid;
  logically_exited_processes : DetPid -> bool;
  autoreaped_exits : DetPid -> bool;
}.
Definition known (v : View) (t : DetTid) : bool := existsb (fun nt => nt.1 =? t) (next_turns v).

Inductive Arrival :=
  | StartsThread
  | Retry (request : Resources)
  | ExecTransfer
  | Other.

Section Ops.
Context (bp : profile).

(** ** Where a thread has reached *)

Definition time_at (s : WorkSpanState) (t : DetTid) (cpu : Z) : outcome Bounds :=
  let base := default zero (match finish s !! t with Some b => Some b | None => spawned s !! t end) in
  let committed := default cpu (cpu_committed s !! t) in
  at_ ← plus bp base (sat_sub_u64 cpu committed);
  match segment s !! t with
  | None => Done at_
  | Some seg =>
      Done (B (match seg_lo seg with Some off => Z.max (lo at_) (shifted cpu off) | None => lo at_ end)
              (match seg_hi seg with Some off => Z.max (hi at_) (shifted cpu off) | None => hi at_ end))
  end.

Definition last_sample (s : WorkSpanState) (t : DetTid) : Z :=
  default 0 (match cpu_now s !! t with Some c => Some c | None => cpu_committed s !! t end).
Definition reached (s : WorkSpanState) (t : DetTid) : outcome Bounds := time_at s t (last_sample s t).
Definition ready_hi (s : WorkSpanState) (t : DetTid) : outcome Z :=
  b ← reached s t; Done (hi b).

(** ** Waiters *)

Definition blocked_waiters (v : View) (by_ : DetTid) : list (DetTid * WaitKind) :=
  omap (fun nt => if (nt.1 =? by_) || run_queue_contains v nt.1 then None
                  else r ← nt.2; k ← wait_kind r; Some (nt.1, k))
    (next_turns v).
Definition or_insert_wait (w : gmap DetTid (Z * WaitKind)) (tk : DetTid * WaitKind)
    : gmap DetTid (Z * WaitKind) :=
  match w !! tk.1 with Some _ => w | None => <[tk.1 := (0, tk.2)]> w end.
Definition raise_waiters (v : View) (s : WorkSpanState) (by_ : DetTid) (at_ : Z) : WorkSpanState :=
  let w := foldl or_insert_wait (waiting s) (blocked_waiters v by_) in
  let w := map_imap (fun t tw => Some (if t =? by_ then tw else (Z.max tw.1 at_, tw.2))) w in
  set_timeline (finish s) (spawned s) (segment s) w s.

Definition note_wait_kind (s : WorkSpanState) (t : DetTid) (r : Resources) : WorkSpanState :=
  match wait_kind r with
  | Some k => set_timeline (finish s) (spawned s) (segment s) (or_insert_wait (waiting s) (t, k)) s
  | None => s
  end.

Definition is_outside (s : WorkSpanState) (t : DetTid) : bool :=
  match waiting s !! t with Some (_, WOutside) => true | _ => false end.

Definition starts (a : Arrival) : bool := match a with StartsThread => true | _ => false end.

Definition note_arrival (v : View) (s : WorkSpanState) (t : DetTid) (cpu : Z) (a : Arrival)
    : outcome WorkSpanState :=
  if negb (enabled s) || match a with ExecTransfer => true | _ => false end then Done s
  else
    s ← (if (known v t || starts a) && bool_decide (cpu_committed s !! t = None) then
           n ← arith_u bp 64 (threads s + 1);
           Done (set_totals (work s) (span s) (commits s) n
                   (set_clocks (cpu_now s) (cpu_outside s) (<[t := cpu]> (cpu_committed s)) s))
         else Done s);
    if negb (known v t) || starts a || committed_exits v t then Done s
    else if is_outside s t then
      Done (set_clocks (cpu_now s) (<[t := cpu]> (cpu_outside s)) (cpu_committed s) s)
    else
      let s := set_clocks (<[t := cpu]> (cpu_now s)) (cpu_outside s) (cpu_committed s) s in
      r ← ready_hi s t;
      let s := raise_waiters v s t r in
      Done (match a with Retry request => note_wait_kind s t request | _ => s end).

(** ** Spawn, reap, wait *)

Definition raise_offset (slot : option Z) (at_ cpu : Z) : option Z :=
  let offset := at_ - cpu in
  match slot with
  | Some current => if current <? offset then Some offset else slot
  | None => Some offset
  end.
Definition anchor (s : WorkSpanState) (t : DetTid) (cpu : Z) (l : option Z) (h : Z) : WorkSpanState :=
  let seg := default no_segment (segment s !! t) in
  let seg' := {| seg_lo := match l with Some x => raise_offset (seg_lo seg) x cpu | None => seg_lo seg end;
                 seg_hi := raise_offset (seg_hi seg) h cpu |} in
  set_timeline (finish s) (spawned s) (<[t := seg']> (segment s)) (waiting s) s.

Definition note_spawn (s : WorkSpanState) (creator child : DetTid) : outcome WorkSpanState :=
  if negb (enabled s) then Done s
  else
    start ← reached s creator;
    Done (set_timeline (delete child (finish s)) (<[child := start]> (spawned s))
            (delete child (segment s)) (delete child (waiting s)) s).

Definition note_reap (s : WorkSpanState) (reaper : DetTid) (cpu : Z) (parent child : DetPid)
    : WorkSpanState :=
  if negb (enabled s) then s
  else
    match exited s !! parent ≫= bt_get child with
    | Some ex =>
        let s := set_exits (alter (bt_remove child) parent (exited s)) (latest_child_exit s)
                   (process_done s) s in
        anchor s reaper cpu (Some (lo ex)) (hi ex)
    | None =>
        match latest_child_exit s !! parent with
        | Some latest => anchor s reaper cpu None (hi latest)
        | None => s
        end
    end.

Definition forget_exit (s : WorkSpanState) (parent child : DetPid) : WorkSpanState :=
  if negb (enabled s) then s
  else set_exits (alter (bt_remove child) parent (exited s)) (latest_child_exit s) (process_done s) s.

Definition note_wait (s : WorkSpanState) (t : DetTid) (request : Resources) : WorkSpanState :=
  if negb (enabled s) then s else note_wait_kind s t request.

(** ** Accesses *)

Definition settle_one (at_ : Z) (ac : list (ResourceID * Access)) (kp : ResourceID * Permission)
    : list (ResourceID * Access) :=
  match al_get kp.1 ac with
  | None => ac
  | Some x =>
      al_set kp.1
        (if writes kp.2 then {| write := B (lo (write x)) (Z.max (hi (write x)) at_); reads := reads x |}
         else {| write := write x; reads := B (lo (reads x)) (Z.max (hi (reads x)) at_) |}) ac
  end.
Definition settle_accesses (s : WorkSpanState) (t : DetTid) (at_ : Z) : WorkSpanState :=
  set_access (foldl (settle_one at_) (access s) (default [] (pending_access s !! t)))
    (resource_floor s) (resource_evictions s) (delete t (pending_access s)) s.

(** The last conflicting access before one with permission [p]. *)
Definition before_access (x : Access) (p : Permission) : Bounds :=
  if writes p then bmax (write x) (reads x) else write x.

(** The threads still running a conflicting access. *)
Definition running_on (s : WorkSpanState) (t : DetTid) (kp : ResourceID * Permission) : list DetTid :=
  (List.filter (fun e : DetTid * list (ResourceID * Permission) =>
     negb (e.1 =? t)
     && existsb (fun a : ResourceID * Permission =>
                   bool_decide (a.1 = kp.1) && (writes a.2 || writes kp.2)) e.2)
    (map_to_list (pending_access s))).*1.

Fixpoint bind_threads (s : WorkSpanState) (ts : list DetTid) (kind : EdgeKind) (best : Z * EdgeKind)
    : outcome (Z * EdgeKind) :=
  match ts with
  | [] => Done best
  | t :: ts' => r ← ready_hi s t; bind_threads s ts' kind (bind best r kind)
  end.

Fixpoint bind_conflicts (s : WorkSpanState) (t : DetTid) (cs : list (ResourceID * Permission))
    (l h : Z * EdgeKind) : outcome ((Z * EdgeKind) * (Z * EdgeKind)) :=
  match cs with
  | [] => Done (l, h)
  | kp :: cs' =>
      let '(l, h) :=
        match al_get kp.1 (access s) with
        | Some x => let b := before_access x kp.2 in
                    (bind l (lo b) EResource, bind h (hi b) EResource)
        | None => (l, bind h (hi (resource_floor s)) EResource)
        end in
      h ← bind_threads s (running_on s t kp) EResource h;
      bind_conflicts s t cs' l h
  end.

(** Recording one access of a commit, clearing a full table first. *)
Definition floor_of (ac : list (ResourceID * Access)) (fl : Bounds) : Bounds :=
  foldl (fun f kx => bmax (bmax f (write kx.2)) (reads kx.2)) fl ac.
Definition record_one (commit : Bounds) (r : list (ResourceID * Access) * Bounds * Z)
    (kp : ResourceID * Permission) : outcome (list (ResourceID * Access) * Bounds * Z) :=
  let '(ac, fl, ev) := r in
  '(ac, fl, ev) ←
    (if match al_get kp.1 ac with None => true | Some _ => false end && (MAX_RESOURCES <=? length ac)%nat
     then ev ← arith_u bp 64 (ev + 1); Done ([], floor_of ac fl, ev)
     else Done (ac, fl, ev));
  let x := default {| write := B 0 (hi fl); reads := zero |} (al_get kp.1 ac) in
  let x := if writes kp.2 then {| write := commit; reads := zero |}
           else {| write := write x; reads := bmax (reads x) commit |} in
  Done (al_set kp.1 x ac, fl, ev).
Fixpoint record_accesses (commit : Bounds) (r : list (ResourceID * Access) * Bounds * Z)
    (cs : list (ResourceID * Permission)) : outcome (list (ResourceID * Access) * Bounds * Z) :=
  match cs with
  | [] => Done r
  | kp :: cs' => r ← record_one commit r kp; record_accesses commit r cs'
  end.

(** ** Commit *)

Definition ending_process (v : View) (t : DetTid) (group : bool) : option DetPid :=
  process ← registered_process v t;
  if group || negb (existsb (fun o => negb (o =? t)) (live_process_threads v process))
  then Some process else None.

(** The process this commit's exit ends, its parent, and the parent's children
    still to be reaped. *)
Definition ends (v : View) (t : DetTid) (request : option Resources)
    : option (DetPid * DetPid * list DetPid) :=
  r ← request;
  process ← head (omap (fun kv => match kv.1 with Exit group _ _ => ending_process v t group | _ => None end)
                    (resources r));
  if is_init_orphan v process then None
  else
    parent ← parent_process v process;
    Some (process, parent,
          List.filter (fun c => logically_exited_processes v c && negb (autoreaped_exits v c))
            (unreaped_children_of v parent)).

Definition bump {K} `{OrdKey K} (k : K) (m : list (K * Z)) : outcome (list (K * Z)) :=
  n ← arith_u bp 64 (default 0 (bt_get k m) + 1); Done (bt_insert k n m).

Fixpoint pop_to (cap : nat) (fuel : nat) (m : list (DetPid * Bounds)) : list (DetPid * Bounds) :=
  match fuel with
  | O => m
  | S fuel' => if (cap <? length m)%nat then pop_to cap fuel' (tail m) else m
  end.
(** [insert], then [while len > cap { pop_first }]. *)
Definition insert_exit (cap : nat) (p : DetPid) (b : Bounds) (m : list (DetPid * Bounds))
    : list (DetPid * Bounds) :=
  let m := bt_insert p b m in pop_to cap (length m) m.

Definition record_end (s : WorkSpanState) (commit : Bounds) (e : DetPid * DetPid * list DetPid)
    : WorkSpanState :=
  let '(process, parent, waitable) := e in
  let commit := match process_done s !! process with Some d => bmax d commit | None => commit end in
  let kids := List.filter (fun cb => existsb (fun c => c =? cb.1) waitable)
                (default [] (exited s !! parent)) in
  set_exits (<[parent := insert_exit (exited_cap s) process commit kids]> (exited s))
    (<[parent := bmax (default zero (latest_child_exit s !! parent)) commit]> (latest_child_exit s))
    (process_done s) s.

(** The sample, weight and predecessors a commit starts from. *)
Record Start := {
  st_cpu : Z;
  st_weight : Z;
  st_segment : Segment;
  st_previous : Bounds;
  st_kind : EdgeKind;
}.
Definition take_outside (s : WorkSpanState) (t : DetTid) : WorkSpanState :=
  match cpu_outside s !! t with
  | Some c => set_clocks (<[t := c]> (cpu_now s)) (delete t (cpu_outside s)) (cpu_committed s) s
  | None => s
  end.
Definition begin_commit (s : WorkSpanState) (t : DetTid) : Start * WorkSpanState :=
  let s := take_outside s t in
  let baseline := cpu_committed s !! t in
  let cpu := default 0 (match cpu_now s !! t with Some c => Some c | None => baseline end) in
  let weight := match baseline with Some b => sat_sub_u64 cpu b | None => 0 end in
  let seg := default no_segment (segment s !! t) in
  let s := set_timeline (finish s) (spawned s) (delete t (segment s)) (waiting s) s in
  let s := match baseline with
           | Some _ => set_clocks (cpu_now s) (cpu_outside s) (<[t := cpu]> (cpu_committed s)) s
           | None => s
           end in
  match finish s !! t with
  | Some previous =>
      ({| st_cpu := cpu; st_weight := weight; st_segment := seg; st_previous := previous;
          st_kind := EProgram |}, s)
  | None =>
      ({| st_cpu := cpu; st_weight := weight; st_segment := seg;
          st_previous := default zero (spawned s !! t); st_kind := ESpawn |},
       set_timeline (finish s) (delete t (spawned s)) (segment s) (waiting s) s)
  end.

Definition bind_segment (cpu : Z) (off : option Z) (best : Z * EdgeKind) : Z * EdgeKind :=
  match off with Some o => bind best (shifted cpu o) EReap | None => best end.

Definition take_wait (s : WorkSpanState) (t : DetTid) (h : Z * EdgeKind)
    : (Z * EdgeKind) * option WaitKind * WorkSpanState :=
  let s' := set_timeline (finish s) (spawned s) (segment s) (delete t (waiting s)) s in
  match waiting s !! t with
  | Some (time, kind) => if h.1 <? time then ((time, EWaited), Some kind, s') else (h, None, s')
  | None => (h, None, s')
  end.

(** [fold(span.hi, u64::max)] over the other sampled threads. *)
Fixpoint max_ready (s : WorkSpanState) (ts : list DetTid) (best : Z) : outcome Z :=
  match ts with
  | [] => Done best
  | t :: ts' => r ← ready_hi s t; max_ready s ts' (Z.max best r)
  end.
Definition bind_signal (s : WorkSpanState) (t : DetTid) (request : option Resources) (h : Z * EdgeKind)
    : outcome (Z * EdgeKind) :=
  if is_signal_request request then
    r ← max_ready s (List.filter (fun o => negb (o =? t)) (map_to_list (cpu_now s)).*1) (hi (span s));
    Done (bind h r ESignal)
  else Done h.

(** The commit's time in both spans, with what fixed it. *)
Definition commit_time (s : WorkSpanState) (t : DetTid) (request : option Resources) (st : Start)
    : outcome ((Z * EdgeKind) * (Z * EdgeKind) * option WaitKind * WorkSpanState) :=
  ready ← plus bp (st_previous st) (st_weight st);
  let s := settle_accesses s t (hi ready) in
  let l := bind_segment (st_cpu st) (seg_lo (st_segment st)) (lo ready, st_kind st) in
  let h := bind_segment (st_cpu st) (seg_hi (st_segment st)) (hi ready, st_kind st) in
  let '(h, waited, s) := take_wait s t h in
  h ← bind_signal s t request h;
  '(l, h) ← bind_conflicts s t (conflicts_of request) l h;
  Done (l, h, waited, s).

Definition count_bindings (s : WorkSpanState) (l h : EdgeKind) (waited : option WaitKind)
    : outcome WorkSpanState :=
  bl ← bump l (binding_lo s);
  bh ← bump h (binding_hi s);
  bw ← match waited with
       | Some k => if bool_decide (h = EWaited) then bump k (binding_waited s) else Done (binding_waited s)
       | None => Done (binding_waited s)
       end;
  Done (set_bindings bl bh bw s).

(** Recording the commit: its accesses, its time, the totals. *)
Definition end_commit (v : View) (s : WorkSpanState) (t : DetTid) (request : option Resources)
    (commit : Bounds) (weight : Z) : outcome WorkSpanState :=
  let cs := conflicts_of request in
  '(ac, fl, ev) ← record_accesses commit (access s, resource_floor s, resource_evictions s) cs;
  let pend := match cs with [] => delete t (pending_access s) | _ => <[t := cs]> (pending_access s) end in
  let s := set_access ac fl ev pend s in
  let s := set_timeline (<[t := commit]> (finish s)) (spawned s) (segment s) (waiting s) s in
  w ← arith_u bp 64 (work s + weight);
  c ← arith_u bp 64 (commits s + 1);
  let s := set_totals w (bmax (span s) commit) c (threads s) s in
  let s := raise_waiters v s t (hi commit) in
  let s := if is_outside_request request
           then set_timeline (finish s) (spawned s) (segment s) (<[t := (0, WOutside)]> (waiting s)) s
           else s in
  let s := match (if is_exit_request request then registered_process v t else None) with
           | Some process =>
               set_exits (exited s) (latest_child_exit s)
                 (<[process := bmax (default zero (process_done s !! process)) commit]> (process_done s)) s
           | None => s
           end in
  Done (match ends v t request with Some e => record_end s commit e | None => s end).

Definition commit (v : View) (s : WorkSpanState) (t : DetTid) (request : option Resources)
    : outcome WorkSpanState :=
  if negb (enabled s) then Done s
  else
    let '(st, s) := begin_commit s t in
    '(l, h, waited, s) ← commit_time s t request st;
    s ← count_bindings s l.2 h.2 waited;
    end_commit v s t request (B l.1 h.1) (st_weight st).

(** ** Retirement and exec *)

Definition finish_tail (s : WorkSpanState) (t : DetTid) : outcome (Bounds * WorkSpanState) :=
  r ← reached s t;
  s ← match cpu_now s !! t, cpu_committed s !! t with
      | Some cpu, Some base =>
          w ← arith_u bp 64 (work s + sat_sub_u64 cpu base);
          Done (set_totals w (span s) (commits s) (threads s)
                  (set_clocks (cpu_now s) (cpu_outside s) (<[t := cpu]> (cpu_committed s)) s))
      | _, _ => Done s
      end;
  Done (r, set_totals (work s) (bmax (span s) r) (commits s) (threads s) s).

(** A sibling retired after its process's exit was recorded joins the record. *)
Definition join_exit (s : WorkSpanState) (parent : option DetPid) (process : DetPid) (tail : Bounds)
    : WorkSpanState :=
  match parent with
  | None => s
  | Some parent =>
      match exited s !! parent ≫= bt_get process with
      | None => s
      | Some record =>
          set_exits (alter (bt_insert process (bmax record tail)) parent (exited s))
            (alter (fun l => bmax l tail) parent (latest_child_exit s)) (process_done s) s
      end
  end.

Definition forget_thread (s : WorkSpanState) (t : DetTid) : WorkSpanState :=
  set_access (access s) (resource_floor s) (resource_evictions s) (delete t (pending_access s))
    (set_timeline (delete t (finish s)) (delete t (spawned s)) (delete t (segment s)) (delete t (waiting s))
      (set_clocks (delete t (cpu_now s)) (delete t (cpu_outside s)) (delete t (cpu_committed s)) s)).

Definition retire_thread (v : View) (s : WorkSpanState) (t : DetTid) (process : DetPid)
    : outcome WorkSpanState :=
  if negb (enabled s) then Done s
  else
    let process := default process (registered_process v t) in
    let parent := parent_process v process in
    '(tail, s) ← finish_tail s t;
    let s := settle_accesses s t (hi tail) in
    let s := set_exits (exited s) (latest_child_exit s)
               (<[process := bmax (default zero (process_done s !! process)) tail]> (process_done s)) s in
    Done (forget_thread (join_exit s parent process tail) t).

Definition parent_gone (s : WorkSpanState) (parent : DetPid) : WorkSpanState :=
  if negb (enabled s) then s
  else set_exits (delete parent (exited s)) (delete parent (latest_child_exit s))
         (delete parent (process_done s)) s.

Definition adopt (v : View) (s : WorkSpanState) (former reaper child : DetPid) : WorkSpanState :=
  if negb (enabled s) then s
  else
    let raise_latest b s :=
      set_exits (exited s) (<[reaper := bmax (default zero (latest_child_exit s !! reaper)) b]> (latest_child_exit s))
        (process_done s) s in
    match exited s !! former ≫= bt_get child with
    | Some record =>
        let ex := alter (bt_remove child) former (exited s) in
        let ex := <[reaper := insert_exit (exited_cap s) child record (default [] (ex !! reaper))]> ex in
        raise_latest record (set_exits ex (latest_child_exit s) (process_done s) s)
    | None =>
        if logically_exited_processes v child then
          match latest_child_exit s !! former with Some b => raise_latest b s | None => s end
        else s
    end.

Definition rekey {V} (caller leader : DetTid) (m : gmap DetTid V) : gmap DetTid V :=
  let m := delete leader m in
  match m !! caller with Some x => <[leader := x]> (delete caller m) | None => m end.

Definition transfer_thread (s : WorkSpanState) (caller leader : DetTid) : outcome WorkSpanState :=
  if negb (enabled s) then Done s
  else
    s ← (if leader =? caller then Done s
         else '(tail, s) ← finish_tail s leader; Done (settle_accesses s leader (hi tail)));
    Done (set_access (access s) (resource_floor s) (resource_evictions s)
            (rekey caller leader (pending_access s))
      (set_timeline (rekey caller leader (finish s)) (rekey caller leader (spawned s))
         (rekey caller leader (segment s)) (rekey caller leader (waiting s))
       (set_clocks (rekey caller leader (cpu_now s)) (rekey caller leader (cpu_outside s))
          (rekey caller leader (cpu_committed s)) s))).
End Ops.

(** ** The report *)

Record WorkSpanReport := {
  work_ns : Z;
  span_lo_ns : Z;
  span_hi_ns : Z;
  parallelism_lo : f64;
  parallelism_hi : f64;
  rp_commits : Z;
  rp_threads : Z;
  rp_binding_lo : list (EdgeKind * Z);
  rp_binding_hi : list (EdgeKind * Z);
  rp_binding_waited : list (WaitKind * Z);
  rp_resource_evictions : Z;
  unmodelled : list Unmodelled;
}.
Definition ratio (s : WorkSpanState) (sp : Z) : f64 :=
  if sp =? 0 then f64_of_Z 0 else f64_div (f64_of_Z (work s)) (f64_of_Z sp).
Definition work_span_report (s : WorkSpanState) : option WorkSpanReport :=
  if negb (enabled s) then None
  else Some {| work_ns := work s; span_lo_ns := lo (span s); span_hi_ns := hi (span s);
               parallelism_lo := ratio s (hi (span s)); parallelism_hi := ratio s (lo (span s));
               rp_commits := commits s; rp_threads := threads s; rp_binding_lo := binding_lo s;
               rp_binding_hi := binding_hi s; rp_binding_waited := binding_waited s;
               rp_resource_evictions := resource_evictions s; unmodelled := UNMODELLED |}.

End WorkSpan.
