(* ===== verification/WorkSpanInv.v ===== *)
(** * The invariant of the work and span accounting

    [inv_at M s] bounds every stored time by [M]; a thread's base plus its CPU
    time since its last commit is bounded by [M] too.  [total s], the work
    counted plus the CPU time sampled since the last commits, is the bound that
    every operation keeps. *)
From Stdlib Require Import ZArith Lia List.
From stdpp Require Import base gmap list.
From S2P Require Import Prelude BTree Time Schedule Text Resource WorkSpan.
Import Resource WorkSpan.
Open Scope Z_scope.

(** ** Sums over a map *)

Definition msum (m : gmap Z Z) : Z := map_fold (fun _ x acc => x + acc) 0 m.

Lemma msum_insert m t x : m !! t = None -> msum (<[t := x]> m) = x + msum m.
Proof. intros H. unfold msum. rewrite map_fold_insert_L; [done| intros; lia | done]. Qed.

Lemma msum_delete m t : msum m = default 0 (m !! t) + msum (delete t m).
Proof.
  destruct (m !! t) as [x|] eqn:E; simpl.
  - rewrite <- (insert_delete_id m t x E) at 1. apply msum_insert, lookup_delete_eq.
  - by rewrite delete_id.
Qed.

(** Two maps that agree away from [t]. *)
Lemma msum_change m m' t :
  (forall o, o <> t -> m' !! o = m !! o) ->
  msum m' = msum m - default 0 (m !! t) + default 0 (m' !! t).
Proof.
  intros H. rewrite (msum_delete m t), (msum_delete m' t).
  assert (delete t m' = delete t m) as ->; [|lia].
  apply map_eq; intros o. destruct (decide (o = t)) as [->|].
  - by rewrite !lookup_delete_eq.
  - rewrite !lookup_delete_ne by done. auto.
Qed.

(** ** The accounting *)

Definition pend (now com : option Z) : Z :=
  match now, com with Some c, Some b => sat_sub_u64 c b | _, _ => 0 end.
Definition pend_map (now com : gmap DetTid Z) : gmap DetTid Z :=
  merge (fun n c => match n, c with Some c, Some b => Some (sat_sub_u64 c b) | _, _ => None end) now com.
Definition pending (s : WorkSpanState) : Z := msum (pend_map (cpu_now s) (cpu_committed s)).
Definition total (s : WorkSpanState) : Z := work s + pending s.

Lemma pend_map_lookup now com t : default 0 (pend_map now com !! t) = pend (now !! t) (com !! t).
Proof. unfold pend_map. rewrite lookup_merge. by destruct (now !! t), (com !! t). Qed.

Lemma pending_change now com now' com' t :
  (forall o, o <> t -> now' !! o = now !! o) -> (forall o, o <> t -> com' !! o = com !! o) ->
  msum (pend_map now' com')
  = msum (pend_map now com) - pend (now !! t) (com !! t) + pend (now' !! t) (com' !! t).
Proof.
  intros Hn Hc. rewrite (msum_change (pend_map now com) _ t).
  - by rewrite !pend_map_lookup.
  - intros o Ho. unfold pend_map. rewrite !lookup_merge. by rewrite Hn, Hc.
Qed.

Lemma pend_nonneg n c : 0 <= pend n c.
Proof. destruct n, c; simpl; unfold sat_sub_u64; lia. Qed.

Lemma msum_nonneg m : map_Forall (fun _ x => 0 <= x) m -> 0 <= msum m.
Proof.
  induction m as [|k x m Hk IH] using map_ind; intros Hm; [done|].
  rewrite msum_insert by done. apply map_Forall_insert in Hm as [? Hm]; [|done].
  specialize (IH Hm). lia.
Qed.
Lemma pending_nonneg s : 0 <= pending s.
Proof.
  apply msum_nonneg. intros k x Hx. unfold pend_map in Hx. rewrite lookup_merge in Hx.
  destruct (cpu_now s !! k), (cpu_committed s !! k); simplify_eq/=. unfold sat_sub_u64; lia.
Qed.

(** ** The invariant *)

Definition bounded (M : Z) (b : Bounds) : Prop := 0 <= lo b <= hi b /\ hi b <= M.

Definition seg_ok (m : Z) (g : Segment) : Prop :=
  match seg_hi g with
  | None => seg_lo g = None
  | Some h => h <= m /\ match seg_lo g with Some l => l <= h | None => True end
  end.

(** What the maps hold of one thread. *)
Record thread_ok (M : Z) (now out com : option Z) (fin spn : option Bounds) (seg : option Segment)
    (wt : option (Z * WaitKind)) : Prop := {
  ok_now : forall c, now = Some c -> exists b, com = Some b /\ b <= c;
  ok_com : forall c, com = Some c -> 0 <= c;
  ok_out : forall c, out = Some c ->
    exists b x, com = Some b /\ default b now <= c /\ wt = Some (x, WOutside);
  ok_fin : forall b, fin = Some b -> bounded (M - pend now com) b;
  ok_spn : forall b, spn = Some b -> bounded (M - pend now com) b;
  ok_seg : forall g, seg = Some g -> exists b, com = Some b /\ seg_ok (M - default b now) g;
  ok_wt : forall x k, wt = Some (x, k) -> 0 <= x <= M;
  ok_pend : pend now com <= M;
}.
Definition thread_at (M : Z) (s : WorkSpanState) (t : DetTid) : Prop :=
  thread_ok M (cpu_now s !! t) (cpu_outside s !! t) (cpu_committed s !! t) (finish s !! t)
    (spawned s !! t) (segment s !! t) (waiting s !! t).

Definition access_ok (M : Z) (x : Access) : Prop := bounded M (write x) /\ bounded M (reads x).

Record tables_ok (M : Z) (s : WorkSpanState) : Prop := {
  ok_span : bounded M (span s);
  ok_floor : bounded M (resource_floor s);
  ok_access : Forall (fun kx => access_ok M kx.2) (access s);
  ok_exited : map_Forall (fun _ m => Forall (fun kb => bounded M kb.2) m) (exited s);
  ok_latest : map_Forall (fun _ b => bounded M b) (latest_child_exit s);
  ok_done : map_Forall (fun _ b => bounded M b) (process_done s);
}.

Record inv_at (M : Z) (s : WorkSpanState) : Prop := {
  inv_threads : forall t, thread_at M s t;
  inv_tables : tables_ok M s;
  inv_max : 0 <= M <= u64_max;
}.

(** Every counter of the report stays below the number of commits. *)
Definition tally_ok {K} (n : Z) (m : list (K * Z)) : Prop := Forall (fun kx => 0 <= kx.2 <= n) m.
Record counters_ok (s : WorkSpanState) : Prop := {
  ok_commits : 0 <= commits s;
  ok_threads : 0 <= threads s;
  ok_evictions : 0 <= resource_evictions s;
  ok_lo : tally_ok (commits s) (binding_lo s);
  ok_hi : tally_ok (commits s) (binding_hi s);
  ok_waited : tally_ok (commits s) (binding_waited s);
}.

(** The memory the state takes. *)
Record memory_ok (s : WorkSpanState) : Prop := {
  ok_resources : (length (access s) <= MAX_RESOURCES)%nat;
  ok_zombies : map_Forall (fun _ m => (length m <= exited_cap s)%nat) (exited s);
  ok_cap : exited_cap s = MAX_EXITED_PER_PARENT;
}.

Record ws_inv (s : WorkSpanState) : Prop := {
  ws_at : inv_at (total s) s;
  ws_work : 0 <= work s;
  ws_counters : counters_ok s;
  ws_memory : memory_ok s;
}.

(** ** Monotonicity in the bound *)

Lemma bounded_mono M M' b : M <= M' -> bounded M b -> bounded M' b.
Proof. unfold bounded. lia. Qed.
Lemma bounded_zero M : 0 <= M -> bounded M zero.
Proof. unfold bounded; simpl; lia. Qed.
Lemma bounded_max M a b : bounded M a -> bounded M b -> bounded M (bmax a b).
Proof. unfold bounded, bmax; simpl; lia. Qed.
Lemma bounded_default M o : 0 <= M -> (forall b, o = Some b -> bounded M b) -> bounded M (default zero o).
Proof. intros HM H. destruct o; simpl; auto using bounded_zero. Qed.
Lemma seg_ok_mono m m' g : m <= m' -> seg_ok m g -> seg_ok m' g.
Proof. unfold seg_ok. destruct (seg_hi g); [|done]. intros ? [? ?]; split; [lia|done]. Qed.

Lemma thread_ok_mono M M' n u c f p g w :
  M <= M' -> thread_ok M n u c f p g w -> thread_ok M' n u c f p g w.
Proof.
  intros HM [H1 H2 H3 H4 H5 H6 H7 H8]; split; try done.
  - intros b Hb. eapply bounded_mono; [|by apply H4]. lia.
  - intros b Hb. eapply bounded_mono; [|by apply H5]. lia.
  - intros x Hx. destruct (H6 x Hx) as (b & Hb & Hs). exists b. split; [done|].
    eapply seg_ok_mono; [|done]. lia.
  - intros x k Hw. specialize (H7 x k Hw). lia.
  - lia.
Qed.

Lemma tables_ok_mono M M' s : M <= M' -> tables_ok M s -> tables_ok M' s.
Proof.
  intros HM [H1 H2 H3 H4 H5 H6]. split; try (by eapply bounded_mono).
  - eapply Forall_impl; [exact H3|]. intros x [? ?]; split; by eapply bounded_mono.
  - intros k m Hk. eapply Forall_impl; [by eapply H4|]. intros x ?; by eapply bounded_mono.
  - intros k b Hk. eapply bounded_mono; [|by eapply H5]. done.
  - intros k b Hk. eapply bounded_mono; [|by eapply H6]. done.
Qed.

(** ** Where a thread has reached *)

Lemma plus_exact bp b w M :
  bounded (M - w) b -> 0 <= w -> M <= u64_max -> plus bp b w = Done (B (lo b + w) (hi b + w)).
Proof.
  intros [? ?] ? ?. unfold plus, u64_max in *.
  rewrite !arith_u_exact by lia. by cbn [mbind outcome_bind].
Qed.

Lemma shifted_le cpu off M : cpu + off <= M -> 0 <= M <= u64_max -> 0 <= shifted cpu off <= M.
Proof. intros. unfold shifted. destruct (Z.leb_spec (Z.max (cpu + off) 0) u64_max); lia. Qed.
Lemma shifted_mono cpu a b : a <= b -> shifted cpu a <= shifted cpu b.
Proof.
  intros. unfold shifted.
  destruct (Z.leb_spec (Z.max (cpu + a) 0) u64_max), (Z.leb_spec (Z.max (cpu + b) 0) u64_max); lia.
Qed.

(** A thread's base, whether a commit or a start. *)
Definition base_of (s : WorkSpanState) (t : DetTid) : Bounds :=
  default zero (match finish s !! t with Some b => Some b | None => spawned s !! t end).

Lemma thread_base M s t :
  thread_at M s t ->
  bounded (M - pend (cpu_now s !! t) (cpu_committed s !! t)) (base_of s t).
Proof.
  intros Ht. unfold base_of. pose proof (ok_pend _ _ _ _ _ _ _ _ Ht). apply bounded_default; [lia|]. intros b Hb.
  destruct (finish s !! t) eqn:E; simplify_eq.
  - by apply (ok_fin _ _ _ _ _ _ _ _ Ht).
  - by apply (ok_spn _ _ _ _ _ _ _ _ Ht).
Qed.

(** The CPU time since the last commit, at the latest sample. *)
Lemma since_commit M s t :
  thread_at M s t ->
  sat_sub_u64 (last_sample s t) (default (last_sample s t) (cpu_committed s !! t))
  = pend (cpu_now s !! t) (cpu_committed s !! t).
Proof.
  intros Ht. unfold last_sample.
  destruct (cpu_now s !! t) as [c|] eqn:E; simpl.
  - destruct (ok_now _ _ _ _ _ _ _ _ Ht c E) as (b & -> & ?). done.
  - destruct (cpu_committed s !! t); simpl; unfold sat_sub_u64; lia.
Qed.

Lemma last_sample_seg s t b :
  cpu_committed s !! t = Some b -> default b (cpu_now s !! t) = last_sample s t.
Proof. unfold last_sample. intros ->. by destruct (cpu_now s !! t). Qed.

(** Where the thread has reached, without the machine's width. *)
Definition or_shifted (a cpu : Z) (off : option Z) : Z :=
  match off with Some o => Z.max a (shifted cpu o) | None => a end.
Definition reached_at (s : WorkSpanState) (t : DetTid) : Bounds :=
  let p := pend (cpu_now s !! t) (cpu_committed s !! t) in
  let g := default no_segment (segment s !! t) in
  B (or_shifted (lo (base_of s t) + p) (last_sample s t) (seg_lo g))
    (or_shifted (hi (base_of s t) + p) (last_sample s t) (seg_hi g)).

Lemma reached_eq bp M s t :
  thread_at M s t -> M <= u64_max -> reached bp s t = Done (reached_at s t).
Proof.
  intros Ht HU. unfold reached, time_at, reached_at. fold (base_of s t).
  pose proof (thread_base M s t Ht) as Hb.
  pose proof (pend_nonneg (cpu_now s !! t) (cpu_committed s !! t)) as Hp.
  rewrite (since_commit M s t Ht), (plus_exact bp _ _ M) by (done || lia). cbn [mbind outcome_bind].
  by destruct (segment s !! t).
Qed.

Lemma or_shifted_bounds M cpu l h g :
  0 <= l <= h -> h <= M <= u64_max -> seg_ok (M - cpu) g ->
  bounded M (B (or_shifted l cpu (seg_lo g)) (or_shifted h cpu (seg_hi g))).
Proof.
  intros Hlh HM Hg. unfold bounded, or_shifted, seg_ok in *; simpl.
  destruct (seg_hi g) as [y|]; [|rewrite Hg; lia]. destruct Hg as [Hy Hx].
  pose proof (shifted_le cpu y M).
  destruct (seg_lo g) as [x|]; [|lia].
  pose proof (shifted_mono cpu x y). pose proof (shifted_le cpu x M). lia.
Qed.

Lemma reached_bounded M s t : thread_at M s t -> 0 <= M <= u64_max -> bounded M (reached_at s t).
Proof.
  intros Ht HM. pose proof (thread_base M s t Ht) as [Hb1 Hb2].
  pose proof (pend_nonneg (cpu_now s !! t) (cpu_committed s !! t)) as Hp.
  apply or_shifted_bounds; [lia|lia|].
  destruct (segment s !! t) as [g|] eqn:Eg; [|done].
  destruct (ok_seg _ _ _ _ _ _ _ _ Ht g Eg) as (b & Eb & Hg).
  by rewrite (last_sample_seg s t b Eb) in Hg.
Qed.

Lemma reached_ok bp M s t :
  thread_at M s t -> 0 <= M <= u64_max ->
  exists b, reached bp s t = Done b /\ bounded M b.
Proof.
  intros Ht HM. exists (reached_at s t). split; [eapply reached_eq; [done|lia]|by apply reached_bounded].
Qed.

(** * Each operation of the accounting keeps the invariant *)

(** ** Waiters *)

Lemma or_insert_wait_lookup w tk o :
  or_insert_wait w tk !! o = w !! o \/ w !! o = None /\ or_insert_wait w tk !! o = Some (0, tk.2).
Proof.
  unfold or_insert_wait. destruct (w !! tk.1) eqn:E; [by left|].
  destruct (decide (o = tk.1)) as [->|]; [right; by rewrite lookup_insert_eq|left; by rewrite lookup_insert_ne].
Qed.

(** Waits begin or rise, and keep their kind. *)
Definition wait_raised (M : Z) (old new : option (Z * WaitKind)) : Prop :=
  match old with
  | Some (x, k) => exists y, new = Some (y, k) /\ x <= y /\ (y = x \/ y <= M)
  | None => match new with Some (y, _) => 0 <= y <= M | None => True end
  end.

Lemma wait_raised_refl M w : 0 <= M -> (forall x k, w = Some (x, k) -> 0 <= x <= M) -> wait_raised M w w.
Proof. intros HM H. destruct w as [[x k]|]; simpl; [|done]. exists x. naive_solver lia. Qed.

Lemma thread_ok_wait M n u c f p g w w' :
  0 <= M -> wait_raised M w w' -> thread_ok M n u c f p g w -> thread_ok M n u c f p g w'.
Proof.
  intros HM Hr [H1 H2 H3 H4 H5 H6 H7 H8]. split; try done.
  - intros x Hx. destruct (H3 x Hx) as (b & y & Hb & Hd & ->).
    destruct Hr as (z & -> & _). eauto 10.
  - intros x k ->. destruct w as [[y k']|]; simpl in Hr; [|lia].
    destruct Hr as (z & [= -> ->] & ? & ?). specialize (H7 y k' eq_refl). lia.
Qed.

Lemma or_inserts_raised M l w o :
  0 <= M -> (forall x k, w !! o = Some (x, k) -> 0 <= x <= M) ->
  wait_raised M (w !! o) (foldl or_insert_wait w l !! o) /\
  (forall x k, foldl or_insert_wait w l !! o = Some (x, k) -> 0 <= x <= M).
Proof.
  intros HM. revert w. induction l as [|tk l IH]; intros w Hw; simpl.
  - split; [by apply wait_raised_refl|done].
  - destruct (or_insert_wait_lookup w tk o) as [E|[E1 E2]].
    + rewrite <- E in Hw |- *. by apply IH.
    + destruct (IH (or_insert_wait w tk)) as [Hr Hb].
      { rewrite E2. intros x k [= <- <-]. lia. }
      split; [|done]. rewrite E2 in Hr. destruct Hr as (y & Hy & ? & ?).
      rewrite E1, Hy. simpl. specialize (Hb _ _ Hy). lia.
Qed.

Lemma raise_inv v M s by_ at_ :
  inv_at M s -> 0 <= at_ <= M -> inv_at M (raise_waiters v s by_ at_).
Proof.
  intros [Ht Htb HM] Ha. split; [|by destruct Htb|done].
  intros o. unfold thread_at, raise_waiters; simpl.
  eapply thread_ok_wait; [lia| |apply Ht].
  destruct (or_inserts_raised M (blocked_waiters v by_) (waiting s) o) as [Hr Hb];
    [lia|apply (ok_wt _ _ _ _ _ _ _ _ (Ht o))|].
  rewrite map_lookup_imap.
  destruct (foldl _ _ _ !! o) as [[y k]|] eqn:E; cbn [mbind option_bind]; [|done].
  specialize (Hb _ _ eq_refl).
  destruct (waiting s !! o) as [[x k']|]; simpl in *.
  - destruct Hr as (z & [= -> ->] & ? & ?).
    destruct (o =? by_); eexists; (split; [done|lia]).
  - destruct (o =? by_); simpl; lia.
Qed.

Lemma note_wait_kind_inv M s t r : inv_at M s -> inv_at M (note_wait_kind s t r).
Proof.
  intros [Ht Htb HM]. unfold note_wait_kind. destruct (wait_kind r) as [k|]; [|done].
  split; [|by destruct Htb|done]. intros o. unfold thread_at; simpl.
  eapply thread_ok_wait; [lia| |apply Ht].
  apply (or_inserts_raised M [(t, k)] (waiting s) o); [lia|apply (ok_wt _ _ _ _ _ _ _ _ (Ht o))].
Qed.

(** ** Clocks *)

(** Replacing what the maps hold of [t] only. *)
Lemma inv_at_thread M M' s s' t :
  inv_at M s -> M <= M' <= u64_max ->
  (forall o, o <> t -> thread_at M s' o) -> thread_at M' s' t -> tables_ok M s' -> inv_at M' s'.
Proof.
  intros [Ht Htb HM] HM' Ho Hs Htb'. split; [|by eapply tables_ok_mono; [|exact Htb']; lia|lia].
  intros o. destruct (decide (o = t)) as [->|]; [done|].
  eapply thread_ok_mono; [|by apply Ho]. lia.
Qed.

Ltac other_thread H := let o := fresh "o" in let Ho := fresh "Ho" in
  intros o Ho; unfold thread_at; simpl;
  rewrite ?lookup_insert_ne, ?lookup_delete_ne by congruence; apply (inv_threads _ _ H).

(** A first request sets the baseline and counts nothing. *)
Definition set_baseline (s : WorkSpanState) (t : DetTid) (cpu : Z) : WorkSpanState :=
  set_clocks (cpu_now s) (cpu_outside s) (<[t := cpu]> (cpu_committed s)) s.

Lemma baseline_inv M s t cpu :
  inv_at M s -> cpu_committed s !! t = None -> 0 <= cpu -> inv_at M (set_baseline s t cpu).
Proof.
  intros H E Hc. pose proof (inv_max _ _ H).
  eapply (inv_at_thread M M s _ t); [done|lia|other_thread H| |by destruct (inv_tables _ _ H)].
  destruct (inv_threads _ _ H t) as [H1 H2 H3 H4 H5 H6 H7 H8].
  unfold thread_at, set_baseline; simpl. rewrite lookup_insert_eq. rewrite E in *.
  destruct (cpu_now s !! t) as [c|]; [destruct (H1 c eq_refl) as (? & ? & ?); done|].
  destruct (cpu_outside s !! t) as [c|]; [destruct (H3 c eq_refl) as (? & ? & ? & ?); done|].
  split; try done; naive_solver.
Qed.

Lemma baseline_total M s t cpu :
  inv_at M s -> cpu_committed s !! t = None -> total (set_baseline s t cpu) = total s.
Proof.
  intros H E. unfold total, pending; simpl.
  rewrite (pending_change (cpu_now s) (cpu_committed s) _ _ t);
    [|done|by intros; rewrite lookup_insert_ne].
  destruct (cpu_now s !! t) as [c|] eqn:En; simpl; [|lia].
  destruct (ok_now _ _ _ _ _ _ _ _ (inv_threads _ _ H t) c En) as (? & ? & ?); congruence.
Qed.

(** A sample moves the bound with the clock. *)
Definition sample (s : WorkSpanState) (t : DetTid) (cpu : Z) (out : gmap DetTid Z) : WorkSpanState :=
  set_clocks (<[t := cpu]> (cpu_now s)) out (cpu_committed s) s.

Lemma pend_sample s t b cpu M :
  thread_at M s t -> cpu_committed s !! t = Some b -> last_sample s t <= cpu ->
  pend (Some cpu) (Some b) = pend (cpu_now s !! t) (Some b) + (cpu - last_sample s t).
Proof.
  intros Ht Eb Hl. pose proof (last_sample_seg s t b Eb) as El.
  destruct (cpu_now s !! t) as [c|] eqn:En; simpl in *; unfold sat_sub_u64.
  - destruct (ok_now _ _ _ _ _ _ _ _ Ht c En) as (b' & ? & ?). simplify_eq. lia.
  - lia.
Qed.

Lemma sample_inv M s t b cpu out :
  inv_at M s -> cpu_committed s !! t = Some b -> last_sample s t <= cpu ->
  M + (cpu - last_sample s t) <= u64_max ->
  out !! t = None -> (forall o, o <> t -> out !! o = cpu_outside s !! o) ->
  inv_at (M + (cpu - last_sample s t)) (sample s t cpu out).
Proof.
  intros H Eb Hl HU Hout Hoth. pose proof (inv_max _ _ H).
  eapply (inv_at_thread M _ s _ t); [done|lia| | |by destruct (inv_tables _ _ H)].
  - intros o Ho. unfold thread_at; simpl. rewrite lookup_insert_ne, Hoth by done. apply (inv_threads _ _ H).
  - pose proof (pend_sample s t b cpu M (inv_threads _ _ H t) Eb Hl) as Hp.
    pose proof (last_sample_seg s t b Eb) as El.
    destruct (inv_threads _ _ H t) as [H1 H2 H3 H4 H5 H6 H7 H8].
    unfold thread_at, sample; simpl. rewrite lookup_insert_eq, Hout, Eb in *.
    assert (Hb : b <= last_sample s t).
    { rewrite <- El. destruct (cpu_now s !! t) as [c|]; simpl; [|lia].
      destruct (H1 c eq_refl) as (? & [= <-] & ?). lia. }
    split; try done.
    + intros c [= <-]. exists b. split; [done|lia].
    + intros x Hx. rewrite Hp. eapply bounded_mono; [|by apply H4]. lia.
    + intros x Hx. rewrite Hp. eapply bounded_mono; [|by apply H5]. lia.
    + intros g Hg. destruct (H6 g Hg) as (b' & [= <-] & Hs). exists b. split; [done|].
      rewrite El in Hs. simpl. eapply seg_ok_mono; [|exact Hs]. lia.
    + intros x k Hw. specialize (H7 x k Hw). lia.
    + rewrite Hp. lia.
Qed.

Lemma sample_total M s t b cpu out :
  inv_at M s -> cpu_committed s !! t = Some b -> last_sample s t <= cpu ->
  total (sample s t cpu out) = total s + (cpu - last_sample s t).
Proof.
  intros H Eb Hl. unfold total, pending; simpl.
  rewrite (pending_change (cpu_now s) (cpu_committed s) _ _ t);
    [|by intros; rewrite lookup_insert_ne|done].
  rewrite lookup_insert_eq, Eb, (pend_sample s t b cpu M) by (done || apply (inv_threads _ _ H)). lia.
Qed.

(** ** Arrivals *)

(** Whether a request's clock is kept at all. *)
Definition kept (v : View) (s : WorkSpanState) (t : DetTid) (a : Arrival) : bool :=
  enabled s && negb (match a with ExecTransfer => true | _ => false end)
  && known v t && negb (starts a) && negb (committed_exits v t).

(** The CPU time a request adds to the account. *)
Definition arrival_gain (v : View) (s : WorkSpanState) (t : DetTid) (cpu : Z) (a : Arrival) : Z :=
  if kept v s t a && negb (is_outside s t)
  then match cpu_committed s !! t with Some _ => cpu - last_sample s t | None => 0 end
  else 0.

(** A thread's clock never runs backwards, and the counters have room. *)
Definition arrival_ok (v : View) (s : WorkSpanState) (t : DetTid) (cpu : Z) (a : Arrival) : Prop :=
  0 <= cpu /\ (kept v s t a = true -> last_sample s t <= cpu) /\
  total s + arrival_gain v s t cpu a <= u64_max /\ threads s < u64_max.

Definition stepped (s s' : WorkSpanState) (g : Z) : Prop := ws_inv s' /\ total s' = total s + g.

(** An operation that leaves the accounts, the counters and the tables alone. *)
Lemma stepped_intro s s' g :
  ws_inv s -> inv_at (total s + g) s' -> total s' = total s + g -> work s' = work s ->
  counters_ok s' -> memory_ok s' -> stepped s s' g.
Proof. intros [_ Hw _ _] Hi Ht Ew Hc Hm. split; [|done]. split; [by rewrite Ht|by rewrite Ew|done|done]. Qed.

Lemma raise_total v s by_ at_ : total (raise_waiters v s by_ at_) = total s.
Proof. done. Qed.
Lemma note_wait_kind_total s t r : total (note_wait_kind s t r) = total s.
Proof. unfold note_wait_kind. by destruct (wait_kind r). Qed.
Lemma note_wait_kind_frame s t r :
  counters_ok s -> memory_ok s ->
  counters_ok (note_wait_kind s t r) /\ memory_ok (note_wait_kind s t r) /\
  work (note_wait_kind s t r) = work s.
Proof. unfold note_wait_kind. destruct (wait_kind r); [|done]. by intros [] []. Qed.

(** An outside call's clock is kept aside. *)
Lemma outside_inv M s t b cpu :
  inv_at M s -> cpu_committed s !! t = Some b -> is_outside s t = true -> last_sample s t <= cpu ->
  inv_at M (set_clocks (cpu_now s) (<[t := cpu]> (cpu_outside s)) (cpu_committed s) s).
Proof.
  intros H Eb Ho Hl. pose proof (inv_max _ _ H).
  eapply (inv_at_thread M M s _ t); [done|lia|other_thread H| |by destruct (inv_tables _ _ H)].
  destruct (inv_threads _ _ H t) as [H1 H2 H3 H4 H5 H6 H7 H8].
  unfold thread_at; simpl. rewrite lookup_insert_eq. split; try done.
  intros c [= <-]. unfold is_outside in Ho.
  destruct (waiting s !! t) as [[x []]|] eqn:Ew; try done.
  exists b, x. by rewrite (last_sample_seg s t b Eb).
Qed.

Lemma last_sample_baseline M s t cpu :
  inv_at M s -> cpu_committed s !! t = None -> last_sample (set_baseline s t cpu) t = cpu.
Proof.
  intros H E. unfold last_sample; simpl. rewrite lookup_insert_eq.
  destruct (cpu_now s !! t) as [c|] eqn:En; [|done].
  destruct (ok_now _ _ _ _ _ _ _ _ (inv_threads _ _ H t) c En) as (? & ? & ?); congruence.
Qed.

(** The part of an arrival after the baseline is set. *)
Definition arrive_known (bp : profile) (v : View) (s : WorkSpanState) (t : DetTid) (cpu : Z) (a : Arrival)
    : outcome WorkSpanState :=
  if is_outside s t then
    Done (set_clocks (cpu_now s) (<[t := cpu]> (cpu_outside s)) (cpu_committed s) s)
  else
    r ← ready_hi bp (sample s t cpu (cpu_outside s)) t;
    let s := raise_waiters v (sample s t cpu (cpu_outside s)) t r in
    Done (match a with Retry request => note_wait_kind s t request | _ => s end).

Lemma ready_hi_ok bp M s t : inv_at M s -> exists r, ready_hi bp s t = Done r /\ 0 <= r <= M.
Proof.
  intros H. destruct (reached_ok bp M s t (inv_threads _ _ H t) (inv_max _ _ H)) as (b & Hb & Hbd).
  unfold ready_hi. rewrite Hb. eexists; split; [done|]. unfold bounded in Hbd; lia.
Qed.

Lemma arrive_known_step bp v s t b cpu a g :
  ws_inv s -> cpu_committed s !! t = Some b -> last_sample s t <= cpu ->
  g = (if is_outside s t then 0 else cpu - last_sample s t) -> total s + g <= u64_max ->
  exists s', arrive_known bp v s t cpu a = Done s' /\ stepped s s' g.
Proof.
  intros Hi Eb Hl -> HU. destruct Hi as [Hat Hw Hc Hm] eqn:EHi. unfold arrive_known.
  destruct (is_outside s t) eqn:Eo.
  - eexists; split; [done|]. apply stepped_intro; [done| |unfold total, pending; simpl; lia|done| |].
    + rewrite Z.add_0_r. by eapply outside_inv.
    + by destruct Hc.
    + by destruct Hm.
  - assert (Hout : cpu_outside s !! t = None).
    { destruct (cpu_outside s !! t) as [c|] eqn:E; [|done].
      destruct (ok_out _ _ _ _ _ _ _ _ (inv_threads _ _ Hat t) c E) as (? & x & _ & _ & Ew).
      unfold is_outside in Eo. by rewrite Ew in Eo. }
    pose proof (sample_inv _ s t b cpu (cpu_outside s) Hat Eb Hl HU Hout (fun _ _ => eq_refl)) as Hs.
    destruct (ready_hi_ok bp _ _ t Hs) as (r & -> & Hr). cbn [mbind outcome_bind].
    pose proof (raise_inv v _ _ t r Hs Hr) as Hr'.
    pose proof (sample_total _ s t b cpu (cpu_outside s) Hat Eb Hl) as Ht.
    set (s1 := raise_waiters _ _ _ _) in *.
    assert (counters_ok s1) by (by destruct Hc). assert (memory_ok s1) by (by destruct Hm).
    eexists; split; [done|].
    destruct a; (apply stepped_intro; [done| | | | |]; try done).
    all: try (by apply note_wait_kind_inv); try (by rewrite note_wait_kind_total).
    all: by edestruct (note_wait_kind_frame s1) as (? & ? & ?).
Qed.

Lemma baseline_ws s t cpu n :
  ws_inv s -> cpu_committed s !! t = None -> 0 <= cpu -> 0 <= n ->
  ws_inv (set_totals (work s) (span s) (commits s) n (set_baseline s t cpu)).
Proof.
  intros [Hat Hw Hc Hm] E Hcpu Hn.
  pose proof (baseline_inv _ s t cpu Hat E Hcpu) as [Hth Htb HM].
  pose proof (baseline_total _ s t cpu Hat E) as Ht.
  split; [|done|by destruct Hc|by destruct Hm].
  unfold total, pending in *; simpl in *. rewrite Ht. split; [done|by destruct Htb|done].
Qed.

Lemma arrival_step bp v s t cpu a :
  ws_inv s -> arrival_ok v s t cpu a ->
  exists s', note_arrival bp v s t cpu a = Done s' /\ stepped s s' (arrival_gain v s t cpu a).
Proof.
  intros Hi (Hcpu & Hmono & HU & Hth). unfold note_arrival, arrival_gain, kept in *.
  destruct (enabled s); simpl; [|exists s; split; [done|split; [done|lia]]].
  destruct (match a with ExecTransfer => true | _ => false end) eqn:Ea;
    [exists s; split; [done|split; [done|simpl; lia]]|]. simpl in *.
  pose proof (ok_threads _ (ws_counters _ Hi)).
  destruct (cpu_committed s !! t) as [b|] eqn:Eb.
  - rewrite bool_decide_eq_false_2, andb_false_r by done. cbn [mbind outcome_bind].
    destruct (known v t), (starts a), (committed_exits v t); simpl in *;
      try (exists s; split; [done|split; [done|lia]]).
    eapply (arrive_known_step bp v s t b cpu a); auto.
    by destruct (is_outside s t).
  - rewrite bool_decide_eq_true_2, andb_true_r by done.
    destruct (known v t || starts a) eqn:Eks.
    + rewrite arith_u_exact by (unfold u64_max in *; lia). cbn [mbind outcome_bind].
      fold (set_baseline s t cpu).
      pose proof (baseline_ws s t cpu (threads s + 1) Hi Eb Hcpu ltac:(lia)) as Hb.
      pose proof (baseline_total _ s t cpu (ws_at _ Hi) Eb) as Ht.
      pose proof (last_sample_baseline _ s t cpu (ws_at _ Hi) Eb) as Hl.
      set (s1 := set_totals _ _ _ _ _) in *.
      assert (Ht1 : total s1 = total s) by done.
      destruct (known v t), (starts a), (committed_exits v t); simpl in *;
        try (exists s1; split; [done|split; [done|destruct (is_outside s t); simpl; lia]]).
      edestruct (arrive_known_step bp v s1 t cpu cpu a 0) as (s' & E & Hs'); [done| | | | |].
      * simpl. by rewrite lookup_insert_eq.
      * change (last_sample s1 t) with (last_sample (set_baseline s t cpu) t). lia.
      * change (last_sample s1 t) with (last_sample (set_baseline s t cpu) t). destruct (is_outside s1 t); lia.
      * pose proof (inv_max _ _ (ws_at _ Hi)). lia.
      * exists s'. split; [exact E|]. destruct Hs' as [? ?]. split; [done|].
        destruct (is_outside s t); simpl; lia.
    + apply orb_false_iff in Eks as [Ek Es]. rewrite Ek, Es. cbn [mbind outcome_bind].
      exists s; split; [done|split; [done|simpl; lia]].
Qed.
