(* ===== verification/WorkSpanLife.v ===== *)
(** * Spawns, reaps, exits, retirement and exec keep the invariant *)
From Stdlib Require Import ZArith Lia List.
From stdpp Require Import base gmap list.
From S2P Require Import Prelude BTree Time Schedule Text Resource WorkSpan WorkSpanInv.
Import Resource WorkSpan.
Open Scope Z_scope.

(** ** Tables of exits *)

Section Entries.
Context {K V : Type} `{OrdKey K}.
Lemma bt_insert_entry (m : list (K * V)) k v x : x ∈ bt_insert k v m -> x = (k, v) \/ x ∈ m.
Proof.
  induction m as [|[k' v'] m IH]; simpl; [set_solver|].
  destruct (kcmp k k'); set_solver.
Qed.
Lemma bt_get_entry (m : list (K * V)) k v : bt_get k m = Some v -> exists k', (k', v) ∈ m.
Proof.
  induction m as [|[k' v'] m IH]; simpl; [done|].
  destruct (kcmp k k'); intros; simplify_eq; set_solver.
Qed.
Lemma bt_insert_Forall (P : K * V -> Prop) m k v : P (k, v) -> Forall P m -> Forall P (bt_insert k v m).
Proof. rewrite !Forall_forall. intros Hk Hm x [->|Hx]%bt_insert_entry; auto. Qed.
Lemma bt_remove_Forall (P : K * V -> Prop) m k : Forall P m -> Forall P (bt_remove k m).
Proof.
  rewrite !Forall_forall. intros Hm x Hx. apply Hm.
  induction m as [|[k' v'] m IH]; simpl in *; [done|]. destruct (kcmp k k'); set_solver.
Qed.
Lemma bt_insert_present (m : list (K * V)) k v v' :
  bt_get k m = Some v' -> length (bt_insert k v m) = length m.
Proof.
  induction m as [|[k' w] m IH]; simpl; [done|]. destruct (kcmp k k'); simpl; try done.
  intros E. by rewrite IH.
Qed.
Lemma bt_remove_length (m : list (K * V)) k : (length (bt_remove k m) <= length m)%nat.
Proof. induction m as [|[k' w] m IH]; simpl; [done|]. destruct (kcmp k k'); simpl; lia. Qed.
End Entries.

Lemma pop_to_length cap n m : (length m <= n + cap)%nat -> (length (pop_to cap n m) <= cap)%nat.
Proof.
  revert m. induction n as [|n IH]; intros m Hm; simpl; [done|].
  destruct (Nat.ltb_spec cap (length m)); [|done]. apply IH. destruct m; simpl in *; lia.
Qed.
Lemma pop_to_Forall P cap n m : Forall P m -> Forall P (pop_to cap n m).
Proof.
  revert m. induction n as [|n IH]; intros m Hm; simpl; [done|].
  destruct (cap <? length m)%nat; [|done]. apply IH. by destruct Hm.
Qed.
Lemma insert_exit_length cap p b m : (length (insert_exit cap p b m) <= cap)%nat.
Proof. apply pop_to_length. lia. Qed.
Lemma insert_exit_Forall M cap p b m :
  bounded M b -> Forall (fun kb => bounded M kb.2) m ->
  Forall (fun kb => bounded M kb.2) (insert_exit cap p b m).
Proof. intros. by apply pop_to_Forall, bt_insert_Forall. Qed.

(** ** The exit tables of a state *)

Definition exits_ok (M : Z) (cap : nat) (ex : gmap DetPid (list (DetPid * Bounds)))
    (latest pd : gmap DetPid Bounds) : Prop :=
  map_Forall (fun _ m => Forall (fun kb => bounded M kb.2) m /\ (length m <= cap)%nat) ex /\
  map_Forall (fun _ b => bounded M b) latest /\ map_Forall (fun _ b => bounded M b) pd.

Lemma exits_of M s :
  inv_at M s -> memory_ok s ->
  exits_ok M (exited_cap s) (exited s) (latest_child_exit s) (process_done s).
Proof.
  intros [_ [_ _ _ H4 H5 H6] _] [_ Hz _]. split; [|done].
  intros k m Hk. split; [by apply (H4 k)|by apply (Hz k)].
Qed.

(** Replacing the exit tables by good ones. *)
Lemma set_exits_inv M s ex latest pd :
  inv_at M s -> memory_ok s -> exits_ok M (exited_cap s) ex latest pd ->
  inv_at M (set_exits ex latest pd s) /\ memory_ok (set_exits ex latest pd s).
Proof.
  intros [Ht [H1 H2 H3 _ _ _] HM] [Hr _ Hcap] (He & Hl & Hp). split.
  - split; [done| |done]. split; try done. intros k m Hk. by apply (He k).
  - split; [done| |done]. intros k m Hk. by apply (He k).
Qed.

Lemma exits_step s ex latest pd :
  ws_inv s -> exits_ok (total s) (exited_cap s) ex latest pd -> stepped s (set_exits ex latest pd s) 0.
Proof.
  intros Hi He. destruct (set_exits_inv _ s ex latest pd (ws_at _ Hi) (ws_memory _ Hi) He) as [Hat Hm].
  apply stepped_intro; try done; [by rewrite Z.add_0_r|unfold total, pending; simpl; lia|].
  by destruct (ws_counters _ Hi).
Qed.

Lemma exits_alter M cap ex latest pd p f :
  exits_ok M cap ex latest pd ->
  (forall m, Forall (fun kb => bounded M kb.2) m /\ (length m <= cap)%nat ->
     Forall (fun kb => bounded M kb.2) (f m) /\ (length (f m) <= cap)%nat) ->
  exits_ok M cap (alter f p ex) latest pd.
Proof.
  intros (He & Hl & Hp) Hf. split; [|done]. intros k m Hk.
  destruct (decide (k = p)) as [->|].
  - rewrite lookup_alter_eq in Hk. destruct (ex !! p) as [m0|] eqn:E; simplify_eq/=. by apply Hf, (He p).
  - rewrite lookup_alter_ne in Hk by done. by apply (He k).
Qed.
Lemma exits_remove M cap ex latest pd p c :
  exits_ok M cap ex latest pd -> exits_ok M cap (alter (bt_remove c) p ex) latest pd.
Proof.
  intros H. apply exits_alter; [done|]. intros m [? ?]. split; [by apply bt_remove_Forall|].
  pose proof (bt_remove_length m c). lia.
Qed.
Lemma exits_entry M cap ex latest pd p c b :
  exits_ok M cap ex latest pd -> ex !! p ≫= bt_get c = Some b -> bounded M b.
Proof.
  intros (He & _) Hb. destruct (ex !! p) as [m|] eqn:E; simplify_eq/=.
  destruct (bt_get_entry _ _ _ Hb) as (k & Hk).
  destruct (He p m E) as [Hm _]. rewrite Forall_forall in Hm. by apply (Hm (k, b)).
Qed.
Lemma exits_latest M cap ex latest pd p b :
  0 <= M -> exits_ok M cap ex latest pd -> bounded M b ->
  exits_ok M cap ex (<[p := bmax (default zero (latest !! p)) b]> latest) pd.
Proof.
  intros HM (He & Hl & Hp) Hb. split; [done|]. split; [|done].
  apply map_Forall_insert_2; [|done]. apply bounded_max; [|done].
  apply bounded_default; [done|]. intros x Hx. by apply (Hl p).
Qed.
Lemma exits_done M cap ex latest pd p b :
  0 <= M -> exits_ok M cap ex latest pd -> bounded M b ->
  exits_ok M cap ex latest (<[p := bmax (default zero (pd !! p)) b]> pd).
Proof.
  intros HM (He & Hl & Hp) Hb. split; [done|]. split; [done|].
  apply map_Forall_insert_2; [|done]. apply bounded_max; [|done].
  apply bounded_default; [done|]. intros x Hx. by apply (Hp p).
Qed.
Lemma exits_insert M cap ex latest pd p c b m :
  exits_ok M cap ex latest pd -> bounded M b -> Forall (fun kb => bounded M kb.2) m ->
  exits_ok M cap (<[p := insert_exit cap c b m]> ex) latest pd.
Proof.
  intros (He & Hl & Hp) Hb Hm. split; [|done]. apply map_Forall_insert_2; [|done].
  split; [by apply insert_exit_Forall|apply insert_exit_length].
Qed.
Lemma exits_children M cap ex latest pd p :
  exits_ok M cap ex latest pd -> Forall (fun kb => bounded M kb.2) (default [] (ex !! p)).
Proof. intros (He & _). destruct (ex !! p) as [m|] eqn:E; simpl; [by apply (He p)|constructor]. Qed.

(** ** Spawn, reap, wait *)

Lemma stepped_refl s : ws_inv s -> stepped s s 0.
Proof. intros H. split; [done|lia]. Qed.

Lemma spawn_step bp s creator child :
  ws_inv s -> cpu_now s !! child = None -> cpu_outside s !! child = None ->
  exists s', note_spawn bp s creator child = Done s' /\ stepped s s' 0.
Proof.
  intros Hi En Eo. unfold note_spawn. destruct (enabled s); simpl; [|eauto using stepped_refl].
  pose proof (ws_at _ Hi) as Hat.
  destruct (reached_ok bp _ s creator (inv_threads _ _ Hat creator) (inv_max _ _ Hat)) as (b & -> & Hb).
  cbn [mbind outcome_bind]. eexists; split; [done|].
  apply stepped_intro; try done; [|unfold total, pending; simpl; lia|by destruct (ws_counters _ Hi)|by destruct (ws_memory _ Hi)].
  rewrite Z.add_0_r. pose proof (inv_max _ _ Hat).
  eapply (inv_at_thread _ _ s _ child); [done|lia|other_thread Hat| |by destruct (inv_tables _ _ Hat)].
  destruct (inv_threads _ _ Hat child) as [H1 H2 H3 H4 H5 H6 H7 H8].
  unfold thread_at; simpl. rewrite !lookup_delete_eq, lookup_insert_eq, En, Eo in *.
  split; try done; simpl in *.
  intros x [= <-]. by rewrite Z.sub_0_r.
Qed.

(** A segment's anchor: the predecessor's time at the reap's clock. *)
Lemma anchor_inv M s t b cpu l h :
  inv_at M s -> cpu_committed s !! t = Some b -> last_sample s t <= cpu -> h <= M ->
  match l with Some x => x <= h | None => True end -> inv_at M (anchor s t cpu l h).
Proof.
  intros H Eb Hl Hh Hlh. pose proof (inv_max _ _ H).
  eapply (inv_at_thread M M s _ t); [done|lia|other_thread H| |by destruct (inv_tables _ _ H)].
  destruct (inv_threads _ _ H t) as [H1 H2 H3 H4 H5 H6 H7 H8].
  unfold thread_at; simpl. rewrite lookup_insert_eq. split; try done.
  intros g [= <-]. exists b. split; [done|]. rewrite (last_sample_seg s t b Eb).
  assert (Hg : seg_ok (M - last_sample s t) (default no_segment (segment s !! t))).
  { destruct (segment s !! t) as [g|] eqn:Eg; [|done].
    destruct (H6 g eq_refl) as (b' & Hb' & Hg). rewrite Eb in Hb'; simplify_eq.
    by rewrite (last_sample_seg s t b' Eb) in Hg. }
  destruct (default no_segment (segment s !! t)) as [gl gh]. unfold seg_ok, raise_offset in *; simpl in *.
  destruct gh as [y|]; [destruct Hg as [Hy Hgl]|rewrite Hg].
  - destruct (Z.ltb_spec y (h - cpu)); (split; [lia|]);
      destruct l as [x|], gl as [z|]; try done; try lia;
      destruct (Z.ltb_spec z (x - cpu)); lia.
  - split; [lia|]. destruct l; [lia|done].
Qed.

Definition reap_ok (s : WorkSpanState) (reaper : DetTid) (cpu : Z) : Prop :=
  is_Some (cpu_committed s !! reaper) /\ last_sample s reaper <= cpu.

Lemma reap_step s reaper cpu parent child :
  ws_inv s -> reap_ok s reaper cpu -> stepped s (note_reap s reaper cpu parent child) 0.
Proof.
  intros Hi [[b Eb] Hl]. unfold note_reap. destruct (enabled s); simpl; [|by apply stepped_refl].
  pose proof (exits_of _ _ (ws_at _ Hi) (ws_memory _ Hi)) as He.
  assert (Hanchor : forall s1 l h, stepped s s1 0 -> cpu_committed s1 = cpu_committed s ->
    cpu_now s1 = cpu_now s -> h <= total s -> match l with Some x => x <= h | None => True end ->
    stepped s (anchor s1 reaper cpu l h) 0).
  { intros s1 l h [H1 Ht] Ec En Hh Hlh. assert (total (anchor s1 reaper cpu l h) = total s1) as Et by done.
    split; [|lia]. destruct H1 as [Hat Hw Hc Hm]. split; [|done|by destruct Hc|by destruct Hm].
    rewrite Et. eapply anchor_inv; [done|by rewrite Ec| |lia|done].
    unfold last_sample in *. by rewrite En, Ec. }
  destruct (exited s !! parent ≫= bt_get child) as [ex|] eqn:Ex.
  - pose proof (exits_entry _ _ _ _ _ _ _ _ He Ex) as [? ?].
    apply Hanchor; try done; [|lia]. apply exits_step; [done|]. by apply exits_remove.
  - destruct (latest_child_exit s !! parent) as [latest|] eqn:El; [|by apply stepped_refl].
    destruct He as (_ & Hlat & _). destruct (Hlat parent latest El).
    apply Hanchor; try done. by apply stepped_refl.
Qed.

Lemma forget_step s parent child : ws_inv s -> stepped s (forget_exit s parent child) 0.
Proof.
  intros Hi. unfold forget_exit. destruct (enabled s); simpl; [|by apply stepped_refl].
  apply exits_step; [done|]. apply exits_remove, (exits_of _ _ (ws_at _ Hi) (ws_memory _ Hi)).
Qed.

Lemma note_wait_step s t r : ws_inv s -> stepped s (note_wait s t r) 0.
Proof.
  intros Hi. unfold note_wait. destruct (enabled s); simpl; [|by apply stepped_refl].
  destruct (note_wait_kind_frame s t r (ws_counters _ Hi) (ws_memory _ Hi)) as (? & ? & ?).
  apply stepped_intro; try done; rewrite ?note_wait_kind_total, Z.add_0_r; [|done].
  apply note_wait_kind_inv, Hi.
Qed.

Lemma parent_gone_step s p : ws_inv s -> stepped s (parent_gone s p) 0.
Proof.
  intros Hi. unfold parent_gone. destruct (enabled s); simpl; [|by apply stepped_refl].
  apply exits_step; [done|]. destruct (exits_of _ _ (ws_at _ Hi) (ws_memory _ Hi)) as (? & ? & ?).
  split; [|split]; by apply map_Forall_delete.
Qed.

Lemma adopt_step v s former reaper child : ws_inv s -> stepped s (adopt v s former reaper child) 0.
Proof.
  intros Hi. unfold adopt. destruct (enabled s); simpl; [|by apply stepped_refl].
  pose proof (exits_of _ _ (ws_at _ Hi) (ws_memory _ Hi)) as He.
  pose proof (inv_max _ _ (ws_at _ Hi)) as HM.
  destruct (exited s !! former ≫= bt_get child) as [record|] eqn:Ex.
  - pose proof (exits_entry _ _ _ _ _ _ _ _ He Ex) as Hr.
    pose proof (exits_remove _ _ _ _ _ former child He) as He'.
    apply (exits_step s); [done|]. apply exits_latest; [lia| |done].
    apply exits_insert; [done|done|]. by eapply exits_children.
  - destruct (logically_exited_processes v child); [|by apply stepped_refl].
    destruct (latest_child_exit s !! former) as [b|] eqn:El; [|by apply stepped_refl].
    apply exits_step; [done|]. apply exits_latest; [lia|done|]. destruct He as (_ & Hlat & _). by apply (Hlat former).
Qed.

(** ** Accesses *)

Section Assoc.
Context {K V : Type} `{EqDecision K}.
Lemma al_get_entry (m : list (K * V)) k v : al_get k m = Some v -> (k, v) ∈ m.
Proof. induction m as [|[k' v'] m IH]; simpl; [done|]. case_bool_decide; set_solver. Qed.
Lemma al_set_entry (m : list (K * V)) k v x : x ∈ al_set k v m -> x = (k, v) \/ x ∈ m.
Proof.
  induction m as [|[k' v'] m IH]; simpl; [set_solver|]. case_bool_decide; set_solver.
Qed.
Lemma al_set_Forall (P : K * V -> Prop) m k v : P (k, v) -> Forall P m -> Forall P (al_set k v m).
Proof. rewrite !Forall_forall. intros Hk Hm x [->|Hx]%al_set_entry; auto. Qed.
Lemma al_set_length (m : list (K * V)) k v :
  length (al_set k v m) = match al_get k m with Some _ => length m | None => S (length m) end.
Proof.
  induction m as [|[k' v'] m IH]; simpl; [done|]. case_bool_decide; simpl; [done|].
  rewrite IH. by destruct (al_get k m).
Qed.
End Assoc.

Definition accesses_ok (M : Z) (ac : list (ResourceID * Access)) : Prop :=
  Forall (fun kx => access_ok M kx.2) ac /\ (length ac <= MAX_RESOURCES)%nat.

Lemma settle_one_ok M at_ ac kp : 0 <= at_ <= M -> accesses_ok M ac -> accesses_ok M (settle_one at_ ac kp).
Proof.
  intros Ha [Hf Hl]. unfold settle_one. destruct (al_get kp.1 ac) as [x|] eqn:E; [|done].
  split; [|by rewrite al_set_length, E]. apply al_set_Forall; [|done].
  rewrite Forall_forall in Hf. destruct (Hf _ (al_get_entry _ _ _ E)) as [Hw Hr].
  unfold access_ok, bounded in *; simpl in *. destruct (writes kp.2); simpl; lia.
Qed.

(** Replacing the access tables by good ones. *)
Lemma set_access_inv M s ac fl ev pa :
  inv_at M s -> memory_ok s -> accesses_ok M ac -> bounded M fl ->
  inv_at M (set_access ac fl ev pa s) /\ memory_ok (set_access ac fl ev pa s).
Proof.
  intros [Ht [H1 _ _ H4 H5 H6] HM] [_ Hz Hcap] [Ha Hl] Hfl. split; [|done].
  split; [done| |done]. by split.
Qed.

Lemma settle_inv M s t at_ :
  inv_at M s -> memory_ok s -> 0 <= at_ <= M ->
  inv_at M (settle_accesses s t at_) /\ memory_ok (settle_accesses s t at_).
Proof.
  intros H Hm Ha. apply set_access_inv; [done|done| |by destruct (inv_tables _ _ H)].
  assert (accesses_ok M (access s)) as Hac by (split; [by destruct (inv_tables _ _ H)|by destruct Hm]).
  revert Hac. generalize (access s). induction (default [] _) as [|kp l IH]; intros ac Hac; simpl; [done|].
  by apply IH, settle_one_ok.
Qed.

Lemma settle_step s s' g t at_ :
  stepped s s' g -> 0 <= at_ <= total s' -> stepped s (settle_accesses s' t at_) g.
Proof.
  intros [[Hat Hw Hc Hm] Ht] Ha. destruct (settle_inv _ s' t at_ Hat Hm Ha) as [Hat' Hm'].
  split; [|done]. by split; [| |destruct Hc|].
Qed.

Lemma stepped_exits s s' g ex latest pd :
  stepped s s' g -> exits_ok (total s') (exited_cap s') ex latest pd ->
  stepped s (set_exits ex latest pd s') g.
Proof.
  intros [Hi Ht] He. destruct (exits_step s' ex latest pd Hi He) as [Hi' Ht']. split; [done|lia].
Qed.

(** ** Retirement and exec *)

(** Moving the work since the last commit from pending to counted. *)
Definition count_tail (s : WorkSpanState) (t : DetTid) (cpu w : Z) : WorkSpanState :=
  set_totals (work s + w) (span s) (commits s) (threads s)
    (set_clocks (cpu_now s) (cpu_outside s) (<[t := cpu]> (cpu_committed s)) s).

Lemma advance_thread M s t c b :
  thread_at M s t -> cpu_now s !! t = Some c -> cpu_committed s !! t = Some b -> 0 <= M ->
  thread_ok M (Some c) (cpu_outside s !! t) (Some c) (finish s !! t) (spawned s !! t)
    (segment s !! t) (waiting s !! t).
Proof.
  intros [H1 H2 H3 H4 H5 H6 H7 H8] En Eb HM. rewrite En, Eb in *.
  destruct (H1 c eq_refl) as (? & [= <-] & Hbc). specialize (H2 b eq_refl).
  assert (pend (Some c) (Some c) = 0) as Ep by (simpl; unfold sat_sub_u64; lia).
  pose proof (pend_nonneg (Some c) (Some b)).
  split; rewrite ?Ep.
  - intros x [= <-]. by exists c.
  - intros x [= <-]. lia.
  - intros x Hx. destruct (H3 x Hx) as (? & y & _ & ? & ?). by exists c, y.
  - intros x Hx. eapply bounded_mono; [|by apply H4]. lia.
  - intros x Hx. eapply bounded_mono; [|by apply H5]. lia.
  - intros g Hg. destruct (H6 g Hg) as (? & _ & Hs). by exists c.
  - done.
  - done.
Qed.

Lemma count_tail_step s t c b :
  ws_inv s -> cpu_now s !! t = Some c -> cpu_committed s !! t = Some b ->
  stepped s (count_tail s t c (sat_sub_u64 c b)) 0.
Proof.
  intros Hi En Eb. pose proof (ws_at _ Hi) as Hat. pose proof (inv_max _ _ Hat).
  assert (Et : total (count_tail s t c (sat_sub_u64 c b)) = total s).
  { unfold total, pending; simpl. rewrite (pending_change (cpu_now s) (cpu_committed s) _ _ t);
      [|done|by intros; rewrite lookup_insert_ne].
    rewrite lookup_insert_eq, En, Eb; simpl. unfold sat_sub_u64; lia. }
  split; [|lia]. destruct Hi as [_ Hw Hc Hm].
  split; [|simpl; unfold sat_sub_u64; lia|by destruct Hc|by destruct Hm]. rewrite Et.
  eapply (inv_at_thread _ _ s _ t); [done|lia|other_thread Hat| |by destruct (inv_tables _ _ Hat)].
  unfold thread_at; simpl. rewrite lookup_insert_eq, En.
  eapply advance_thread; [apply (inv_threads _ _ Hat)|done|done|lia].
Qed.

Lemma raise_span_step s s' g b :
  stepped s s' g -> bounded (total s') b ->
  stepped s (set_totals (work s') (bmax (span s') b) (commits s') (threads s') s') g.
Proof.
  intros [[Hat Hw Hc Hm] Ht] Hb. split; [|done]. split; [|done|by destruct Hc|by destruct Hm].
  destruct Hat as [Hth [H1 H2 H3 H4 H5 H6] HM]. split; [done| |done]. split; try done.
  by apply bounded_max.
Qed.

(** After a thread's tail is counted, nothing of it is pending. *)
Lemma finish_tail_step bp s t :
  ws_inv s ->
  exists b s', finish_tail bp s t = Done (b, s') /\ bounded (total s) b /\ stepped s s' 0 /\
    pend (cpu_now s' !! t) (cpu_committed s' !! t) = 0.
Proof.
  intros Hi. pose proof (ws_at _ Hi) as Hat. pose proof (inv_max _ _ Hat) as HM.
  unfold finish_tail.
  destruct (reached_ok bp _ s t (inv_threads _ _ Hat t) HM) as (b & -> & Hb). cbn [mbind outcome_bind].
  destruct (cpu_now s !! t) as [c|] eqn:En.
  - destruct (ok_now _ _ _ _ _ _ _ _ (inv_threads _ _ Hat t) c En) as (b0 & Eb & Hbc). rewrite Eb.
    pose proof (count_tail_step s t c b0 Hi En Eb) as Hst.
    assert (Hwk : 0 <= work s + sat_sub_u64 c b0 <= u64_max).
    { pose proof (ws_work _ Hi). split; [unfold sat_sub_u64; lia|].
      destruct Hst as [[_ _ _ _] Ht]. change (work s + sat_sub_u64 c b0) with (work (count_tail s t c (sat_sub_u64 c b0))).
      pose proof (pending_nonneg (count_tail s t c (sat_sub_u64 c b0))). unfold total in *. lia. }
    rewrite arith_u_exact by (unfold u64_max in *; lia). cbn [mbind outcome_bind].
    eexists _, _. split; [done|]. split; [done|]. split.
    + apply (raise_span_step s (count_tail s t c (sat_sub_u64 c b0)) 0 b Hst).
      destruct Hst as [_ ->]. by rewrite Z.add_0_r.
    + simpl. rewrite lookup_insert_eq, En. simpl. unfold sat_sub_u64; lia.
  - cbn [mbind outcome_bind]. eexists _, _. split; [done|]. split; [done|]. split.
    + apply raise_span_step; [by apply stepped_refl|done].
    + simpl. by rewrite En.
Qed.

Lemma thread_ok_none M : 0 <= M -> thread_ok M None None None None None None None.
Proof. intros. by split. Qed.

Lemma forget_thread_step s s' g t :
  stepped s s' g -> pend (cpu_now s' !! t) (cpu_committed s' !! t) = 0 -> stepped s (forget_thread s' t) g.
Proof.
  intros [[Hat Hw Hc Hm] Ht] Hp. pose proof (inv_max _ _ Hat).
  assert (Et : total (forget_thread s' t) = total s').
  { unfold total, pending; simpl.
    rewrite (pending_change (cpu_now s') (cpu_committed s') _ _ t); try by intros; rewrite lookup_delete_ne.
    rewrite Hp, lookup_delete_eq; simpl. lia. }
  split; [|lia]. split; [|done|by destruct Hc|by destruct Hm]. rewrite Et.
  eapply (inv_at_thread _ _ s' _ t); [done|lia|other_thread Hat| |by destruct (inv_tables _ _ Hat)].
  unfold thread_at; simpl. rewrite !lookup_delete_eq. apply thread_ok_none; lia.
Qed.

Lemma join_exit_step s s' g parent process b :
  stepped s s' g -> bounded (total s') b -> stepped s (join_exit s' parent process b) g.
Proof.
  intros Hs Hb. unfold join_exit. destruct parent as [p|]; [|done].
  destruct Hs as [Hi Ht] eqn:EHs.
  pose proof (exits_of _ _ (ws_at _ Hi) (ws_memory _ Hi)) as He.
  destruct (exited s' !! p ≫= bt_get process) as [record|] eqn:Ex; [|done].
  pose proof (exits_entry _ _ _ _ _ _ _ _ He Ex) as Hr.
  apply stepped_exits; [done|]. destruct He as (H1 & H2 & H3). split; [|split; [|done]].
  - intros k m Hk. destruct (decide (k = p)) as [->|]; [|rewrite lookup_alter_ne in Hk by done; by apply (H1 k)].
    rewrite lookup_alter_eq in Hk. destruct (exited s' !! p) as [m0|] eqn:E; simplify_eq/=.
    destruct (H1 p m0 E). split; [by apply bt_insert_Forall, H; apply bounded_max|].
    by rewrite (bt_insert_present _ _ _ _ Ex).
  - intros k l Hk. destruct (decide (k = p)) as [->|]; [|rewrite lookup_alter_ne in Hk by done; by apply (H2 k)].
    rewrite lookup_alter_eq in Hk. destruct (latest_child_exit s' !! p) as [l0|] eqn:E; simplify_eq/=.
    apply bounded_max; [by apply (H2 p)|done].
Qed.

Lemma join_exit_now s p process b : cpu_now (join_exit s p process b) = cpu_now s.
Proof. unfold join_exit. destruct p; [|done]. by destruct (_ ≫= _). Qed.
Lemma join_exit_committed s p process b : cpu_committed (join_exit s p process b) = cpu_committed s.
Proof. unfold join_exit. destruct p; [|done]. by destruct (_ ≫= _). Qed.

Lemma retire_step bp v s t process :
  ws_inv s -> exists s', retire_thread bp v s t process = Done s' /\ stepped s s' 0.
Proof.
  intros Hi. unfold retire_thread. destruct (enabled s); simpl; [|eauto using stepped_refl].
  destruct (finish_tail_step bp s t Hi) as (b & s1 & -> & Hb & Hs & Hp). cbn [mbind outcome_bind].
  eexists; split; [done|].
  assert (Hb1 : bounded (total s1) b) by (destruct Hs as [_ ->]; by rewrite Z.add_0_r).
  apply forget_thread_step.
  - apply join_exit_step; [|done].
    pose proof (settle_step s s1 0 t (hi b) Hs) as Hst. unfold bounded in Hb1.
    specialize (Hst ltac:(lia)). apply stepped_exits; [done|].
    destruct Hst as [Hi2 _]. pose proof (inv_max _ _ (ws_at _ Hi2)).
    apply exits_done; [lia| |done]. apply (exits_of _ _ (ws_at _ Hi2) (ws_memory _ Hi2)).
  - by rewrite join_exit_now, join_exit_committed.
Qed.

Lemma rekey_lookup {V} caller leader (m : gmap DetTid V) o :
  caller <> leader ->
  rekey caller leader m !! o
  = if decide (o = leader) then m !! caller else if decide (o = caller) then None else m !! o.
Proof.
  intros Hne. unfold rekey. rewrite lookup_delete_ne by done.
  destruct (m !! caller) as [x|] eqn:E; repeat case_decide; subst; try done;
    rewrite ?lookup_insert_eq, ?lookup_insert_ne, ?lookup_delete_eq, ?lookup_delete_ne by done; try done.
Qed.

Lemma pending_rekey now com caller leader :
  caller <> leader -> pend (now !! leader) (com !! leader) = 0 ->
  msum (pend_map (rekey caller leader now) (rekey caller leader com)) = msum (pend_map now com).
Proof.
  intros Hne Hp. set (m := pend_map now com). set (m' := pend_map _ _).
  assert (Hm' : forall o, m' !! o = if decide (o = leader) then m !! caller
                                    else if decide (o = caller) then None else m !! o).
  { intros o. subst m m'. unfold pend_map. rewrite !lookup_merge, !rekey_lookup by done.
    repeat case_decide; done. }
  rewrite (msum_delete m leader), (msum_delete (delete leader m) caller), (msum_delete m' leader).
  assert (delete leader m' = delete caller (delete leader m)) as ->.
  { apply map_eq. intros o. destruct (decide (o = leader)) as [->|].
    - rewrite lookup_delete_eq, lookup_delete_ne, lookup_delete_eq by done. done.
    - rewrite lookup_delete_ne, Hm', decide_False by done. case_decide; subst.
      + by rewrite lookup_delete_eq.
      + by rewrite !lookup_delete_ne. }
  rewrite Hm', decide_True, lookup_delete_ne by done.
  subst m. rewrite !pend_map_lookup. lia.
Qed.

Definition transfer_maps (s : WorkSpanState) (caller leader : DetTid) : WorkSpanState :=
  set_access (access s) (resource_floor s) (resource_evictions s) (rekey caller leader (pending_access s))
    (set_timeline (rekey caller leader (finish s)) (rekey caller leader (spawned s))
       (rekey caller leader (segment s)) (rekey caller leader (waiting s))
     (set_clocks (rekey caller leader (cpu_now s)) (rekey caller leader (cpu_outside s))
        (rekey caller leader (cpu_committed s)) s)).

Lemma rekey_step s s' g caller leader :
  caller <> leader -> stepped s s' g ->
  pend (cpu_now s' !! leader) (cpu_committed s' !! leader) = 0 ->
  stepped s (transfer_maps s' caller leader) g.
Proof.
  intros Hne [[Hat Hw Hc Hm] Ht] Hp. pose proof (inv_max _ _ Hat).
  assert (Et : total (transfer_maps s' caller leader) = total s').
  { unfold total, pending; simpl. by rewrite pending_rekey. }
  split; [|lia]. split; [|done|by destruct Hc|by destruct Hm]. rewrite Et.
  split; [|by destruct (inv_tables _ _ Hat)|done].
  intros o. unfold thread_at; simpl. rewrite !rekey_lookup by done.
  repeat case_decide; subst; [apply (inv_threads _ _ Hat)|apply thread_ok_none; lia|apply (inv_threads _ _ Hat)].
Qed.

Lemma transfer_step bp s caller leader :
  ws_inv s -> caller <> leader ->
  exists s', transfer_thread bp s caller leader = Done s' /\ stepped s s' 0.
Proof.
  intros Hi Hne. unfold transfer_thread. destruct (enabled s); simpl; [|eauto using stepped_refl].
  rewrite (proj2 (Z.eqb_neq leader caller)) by congruence.
  destruct (finish_tail_step bp s leader Hi) as (b & s1 & -> & Hb & Hs & Hp). cbn [mbind outcome_bind].
  eexists; split; [done|]. apply (rekey_step s (settle_accesses s1 leader (hi b)) 0 caller leader); [done| |done].
  apply settle_step; [done|]. destruct Hs as [_ ->]. unfold bounded in Hb. lia.
Qed.
