(* ===== verification/WorkSpanCommit.v ===== *)
(** * A commit's time is the latest of its predecessors

    [pred_lo] and [pred_hi] list the edges of the two spans, read off the state
    before the commit.  [commit_spec] shows that a commit returns, that its time
    is the greatest of them in each span, and that the invariant is kept. *)
From Stdlib Require Import ZArith Lia List.
From stdpp Require Import base gmap list.
From S2P Require Import Prelude BTree Time Schedule Text Resource WorkSpan WorkSpanInv WorkSpanLife.
Import Resource WorkSpan.
Open Scope Z_scope.

Definition is_max (P : Z -> Prop) (x : Z) : Prop := P x /\ forall y, P y -> y <= x.

(** ** The predecessors *)

(** The clock a commit reads, and the work it adds. *)
Definition commit_cpu (s : WorkSpanState) (t : DetTid) : Z :=
  match cpu_outside s !! t with Some c => c | None => last_sample s t end.
Definition commit_weight (s : WorkSpanState) (t : DetTid) : Z :=
  match cpu_committed s !! t with Some b => sat_sub_u64 (commit_cpu s t) b | None => 0 end.

Definition holds_conflict (s : WorkSpanState) (t : DetTid) (kp : ResourceID * Permission) (o : DetTid) : Prop :=
  o <> t /\ exists held a, pending_access s !! o = Some held /\ a ∈ held /\ a.1 = kp.1 /\
    writes a.2 || writes kp.2 = true.

(** In both spans: program order or spawn, a reap, a conflicting access. *)
Inductive pred_lo (s : WorkSpanState) (t : DetTid) (request : option Resources) : Z -> Prop :=
  | lo_program : pred_lo s t request (lo (base_of s t) + commit_weight s t)
  | lo_reap g off :
      segment s !! t = Some g -> seg_lo g = Some off ->
      pred_lo s t request (shifted (commit_cpu s t) off)
  | lo_access kp x :
      kp ∈ conflicts_of request -> al_get kp.1 (access s) = Some x ->
      pred_lo s t request (lo (before_access x kp.2)).

Inductive conflict_hi (s : WorkSpanState) (t : DetTid) (kp : ResourceID * Permission) : Z -> Prop :=
  | hi_access x : al_get kp.1 (access s) = Some x -> conflict_hi s t kp (hi (before_access x kp.2))
  | hi_cleared : al_get kp.1 (access s) = None -> conflict_hi s t kp (hi (resource_floor s))
  | hi_running o : holds_conflict s t kp o -> conflict_hi s t kp (hi (reached_at s o)).

(** In the upper span, also what happened while the thread waited, and for a
    signal delivery everything so far. *)
Inductive pred_hi (s : WorkSpanState) (t : DetTid) (request : option Resources) : Z -> Prop :=
  | hi_program : pred_hi s t request (hi (base_of s t) + commit_weight s t)
  | hi_reap g off :
      segment s !! t = Some g -> seg_hi g = Some off ->
      pred_hi s t request (shifted (commit_cpu s t) off)
  | hi_waited x k : waiting s !! t = Some (x, k) -> pred_hi s t request x
  | hi_signal_span : is_signal_request request = true -> pred_hi s t request (hi (span s))
  | hi_signal_thread o :
      is_signal_request request = true -> o <> t -> is_Some (cpu_now s !! o) ->
      pred_hi s t request (hi (reached_at s o))
  | hi_conflict kp p : kp ∈ conflicts_of request -> conflict_hi s t kp p -> pred_hi s t request p.

(** ** Folding in predecessors *)

(** [b] is the later of [a] and a set of candidates. *)
Definition joins (P : Z -> Prop) (a b : Z) : Prop :=
  a <= b /\ (b = a \/ P b) /\ forall y, P y -> y <= b.

Lemma joins_none (P : Z -> Prop) a : (forall y, ~ P y) -> joins P a a.
Proof. intros H. split; [lia|]. split; [by left|]. intros y Hy. by destruct (H y). Qed.
Lemma joins_bind (best : Z * EdgeKind) c k : joins (eq c) best.1 (bind best c k).1.
Proof. unfold bind, joins. destruct (Z.ltb_spec best.1 c); simpl; naive_solver lia. Qed.
Lemma joins_trans (P Q R : Z -> Prop) a b c :
  joins P a b -> joins Q b c -> (forall y, R y <-> P y \/ Q y) -> joins R a c.
Proof.
  intros (? & Hb & Hp) (? & Hc & Hq) HR. split; [lia|]. split.
  - destruct Hc as [->|Hc]; [destruct Hb as [->|Hb]; [by left|right; apply HR; by left]|right; apply HR; by right].
  - intros y [Hy|Hy]%HR; [specialize (Hp y Hy); lia|by apply Hq].
Qed.
Lemma joins_le (P : Z -> Prop) a b M : joins P a b -> a <= M -> (forall y, P y -> y <= M) -> b <= M.
Proof. intros (_ & [->|Hb] & _) ? H; auto. Qed.

Section Binds.
Context (bp : profile) (M : Z).

Lemma ready_hi_eq s t : inv_at M s -> ready_hi bp s t = Done (hi (reached_at s t)).
Proof.
  intros H. unfold ready_hi. pose proof (inv_max _ _ H).
  rewrite (reached_eq bp M) by (apply (inv_threads _ _ H) || lia). done.
Qed.

Lemma bind_threads_joins s ts k best :
  inv_at M s ->
  exists r, bind_threads bp s ts k best = Done r /\
    joins (fun y => exists o, o ∈ ts /\ y = hi (reached_at s o)) best.1 r.1.
Proof.
  intros H. revert best. induction ts as [|t ts IH]; intros best; cbn [bind_threads].
  - eexists; split; [done|]. apply joins_none. set_solver.
  - rewrite ready_hi_eq by done. cbn [mbind outcome_bind].
    destruct (IH (bind best (hi (reached_at s t)) k)) as (r & -> & Hr).
    eexists; split; [done|]. eapply joins_trans; [apply joins_bind|exact Hr|]. set_solver.
Qed.

Lemma max_ready_joins s ts best :
  inv_at M s ->
  exists r, max_ready bp s ts best = Done r /\
    joins (fun y => exists o, o ∈ ts /\ y = hi (reached_at s o)) best r.
Proof.
  intros H. revert best. induction ts as [|t ts IH]; intros best; cbn [max_ready].
  - eexists; split; [done|]. apply joins_none. set_solver.
  - rewrite ready_hi_eq by done. cbn [mbind outcome_bind].
    destruct (IH (Z.max best (hi (reached_at s t)))) as (r & -> & Hr).
    eexists; split; [done|]. eapply (joins_trans (eq (hi (reached_at s t)))); [|exact Hr|set_solver].
    unfold joins. naive_solver lia.
Qed.

Lemma running_on_spec s t kp o : o ∈ running_on s t kp <-> holds_conflict s t kp o.
Proof.
  unfold running_on, holds_conflict. rewrite list_elem_of_fmap. split.
  - intros ((o' & held) & -> & Hin). apply list_elem_of_In, filter_In in Hin as [Hin Hc]. simpl in *.
    apply andb_true_iff in Hc as [Hne Hx]. apply negb_true_iff, Z.eqb_neq in Hne.
    apply existsb_exists in Hx as (a & Ha & Hx). apply andb_true_iff in Hx as [Hk Hw].
    apply bool_decide_eq_true in Hk. split; [done|]. exists held, a.
    apply list_elem_of_In, elem_of_map_to_list in Hin. apply list_elem_of_In in Ha. done.
  - intros (Hne & held & a & Hp & Ha & Hk & Hw). exists (o, held). split; [done|].
    apply list_elem_of_In, filter_In. split; [by apply list_elem_of_In, elem_of_map_to_list|].
    simpl. rewrite (proj2 (Z.eqb_neq o t)) by done. simpl. apply existsb_exists.
    exists a. split; [by apply list_elem_of_In|]. by rewrite bool_decide_eq_true_2.
Qed.

(** One conflict, in the upper span: its last access, and who still runs one. *)
Lemma bind_conflict_hi s t kp h :
  inv_at M s ->
  let c := match al_get kp.1 (access s) with
           | Some x => hi (before_access x kp.2) | None => hi (resource_floor s) end in
  exists h', bind_threads bp s (running_on s t kp) EResource (bind h c EResource) = Done h' /\
    joins (conflict_hi s t kp) h.1 h'.1.
Proof.
  intros H c. destruct (bind_threads_joins s (running_on s t kp) EResource (bind h c EResource) H)
    as (h' & -> & Hh'). eexists; split; [done|].
  eapply joins_trans; [apply joins_bind|exact Hh'|]. intros y; split.
  - intros [x Hx|Hn|o Ho]; [left; subst c; by rewrite Hx|left; subst c; by rewrite Hn|right].
    exists o. by rewrite running_on_spec.
  - intros [<-|(o & Ho%running_on_spec & ->)]; [|by constructor].
    subst c. destruct (al_get kp.1 (access s)) eqn:E; by constructor.
Qed.

Lemma bind_conflicts_joins s t cs l h :
  inv_at M s ->
  exists l' h', bind_conflicts bp s t cs l h = Done (l', h') /\
    joins (fun y => exists kp x, kp ∈ cs /\ al_get kp.1 (access s) = Some x /\ y = lo (before_access x kp.2))
      l.1 l'.1 /\
    joins (fun y => exists kp, kp ∈ cs /\ conflict_hi s t kp y) h.1 h'.1.
Proof.
  intros H. revert l h. induction cs as [|kp cs IH]; intros l h; cbn [bind_conflicts].
  { eexists _, _. split; [done|]. split; apply joins_none; set_solver. }
  pose proof (bind_conflict_hi s t kp h H) as (h1 & Eh1 & Hh1).
  assert (Hhi : forall h' : Z * EdgeKind,
    joins (fun y => exists k, k ∈ cs /\ conflict_hi s t k y) h1.1 h'.1 ->
    joins (fun y => exists k, k ∈ kp :: cs /\ conflict_hi s t k y) h.1 h'.1).
  { intros h' Hh'. eapply joins_trans; [exact Hh1|exact Hh'|]. set_solver. }
  destruct (al_get kp.1 (access s)) as [x|] eqn:Ex; rewrite Eh1; cbn [mbind outcome_bind].
  - destruct (IH (bind l (lo (before_access x kp.2)) EResource) h1) as (l' & h' & -> & Hl & Hh).
    eexists _, _. split; [done|]. split; [|by apply Hhi].
    eapply joins_trans; [apply joins_bind|exact Hl|]. intros y; split.
    + intros (k & x' & [->|Hin]%elem_of_cons & Hx & ->); [left; congruence|right; eauto].
    + intros [<-|(k & x' & ? & ? & ->)]; [exists kp, x|exists k, x']; set_solver.
  - destruct (IH l h1) as (l' & h' & -> & Hl & Hh).
    eexists _, _. split; [done|]. split; [|by apply Hhi].
    eapply (joins_trans (fun _ => False)); [apply joins_none; naive_solver|exact Hl|]. intros y; split.
    + intros (k & x' & [->|Hin]%elem_of_cons & Hx & ->); [congruence|right; eauto].
    + intros [[]|(k & x' & ? & ? & ->)]. exists k, x'; set_solver.
Qed.
End Binds.

(** ** Opening a commit *)

Definition commit_gain (s : WorkSpanState) (t : DetTid) : Z := commit_cpu s t - last_sample s t.

(** The counters have room for one more commit. *)
Definition commit_ok (s : WorkSpanState) (t : DetTid) (request : option Resources) : Prop :=
  total s + commit_gain s t <= u64_max /\ commits s < u64_max /\
  resource_evictions s + Z.of_nat (length (conflicts_of request)) <= u64_max.

Lemma take_outside_inv M s t :
  inv_at M s -> M + commit_gain s t <= u64_max ->
  0 <= commit_gain s t /\ inv_at (M + commit_gain s t) (take_outside s t) /\
  total (take_outside s t) = total s + commit_gain s t /\
  cpu_outside (take_outside s t) !! t = None /\ last_sample (take_outside s t) t = commit_cpu s t.
Proof.
  intros H HU. unfold commit_gain, commit_cpu, take_outside in *.
  destruct (cpu_outside s !! t) as [c|] eqn:Eo.
  - destruct (ok_out _ _ _ _ _ _ _ _ (inv_threads _ _ H t) c Eo) as (b & x & Eb & Hc & _).
    rewrite (last_sample_seg s t b Eb) in Hc. fold (sample s t c (delete t (cpu_outside s))).
    split; [lia|]. split; [|split; [|split]].
    + apply (sample_inv M s t b); try done; [by rewrite lookup_delete_eq|by intros; rewrite lookup_delete_ne].
    + by apply (sample_total M s t b).
    + simpl. by rewrite lookup_delete_eq.
    + unfold last_sample; simpl. by rewrite lookup_insert_eq.
  - rewrite Z.sub_diag, !Z.add_0_r. by split; [|split; [|split]].
Qed.

Lemma thread_ok_opened M n u c f p g w p' :
  thread_ok M n u c f p g w -> p' = p \/ p' = None -> thread_ok M n u c f p' None w.
Proof. intros [] [->| ->]; by split. Qed.

(** Parts of the state that opening and timing a commit leave alone. *)
Record frame (s s' : WorkSpanState) : Prop := {
  fr_work : work s' = work s;
  fr_span : span s' = span s;
  fr_commits : commits s' = commits s;
  fr_threads : threads s' = threads s;
  fr_evictions : resource_evictions s' = resource_evictions s;
  fr_lo : binding_lo s' = binding_lo s;
  fr_hi : binding_hi s' = binding_hi s;
  fr_waited : binding_waited s' = binding_waited s;
}.
Lemma frame_trans s1 s2 s3 : frame s1 s2 -> frame s2 s3 -> frame s1 s3.
Proof. intros [] []; split; congruence. Qed.
Lemma frame_counters s s' : frame s s' -> counters_ok s -> counters_ok s'.
Proof. intros [] []; split; congruence. Qed.

(** The state a commit is timed in: [t]'s clock advanced, its segment closed. *)
Definition opened (s : WorkSpanState) (t : DetTid) : WorkSpanState := (begin_commit s t).2.
Definition start_of (s : WorkSpanState) (t : DetTid) : Start := (begin_commit s t).1.

Lemma opened_lookups s t o :
  o <> t ->
  cpu_now (opened s t) !! o = cpu_now s !! o /\ cpu_outside (opened s t) !! o = cpu_outside s !! o /\
  cpu_committed (opened s t) !! o = cpu_committed s !! o /\ finish (opened s t) !! o = finish s !! o /\
  spawned (opened s t) !! o = spawned s !! o /\ segment (opened s t) !! o = segment s !! o /\
  waiting (opened s t) !! o = waiting s !! o.
Proof.
  intros Ho. unfold opened, begin_commit, take_outside.
  destruct (cpu_outside s !! t); simpl; destruct (cpu_committed s !! t); simpl;
    destruct (finish s !! t); simpl; rewrite ?lookup_insert_ne, ?lookup_delete_ne by done; done.
Qed.

Lemma opened_frame s t :
  frame s (opened s t) /\ access (opened s t) = access s /\ resource_floor (opened s t) = resource_floor s /\
  pending_access (opened s t) = pending_access s /\ exited (opened s t) = exited s /\
  latest_child_exit (opened s t) = latest_child_exit s /\ process_done (opened s t) = process_done s /\
  exited_cap (opened s t) = exited_cap s /\ finish (opened s t) = finish s /\ waiting (opened s t) = waiting s.
Proof.
  unfold opened, begin_commit, take_outside.
  destruct (cpu_outside s !! t); simpl; destruct (cpu_committed s !! t); simpl;
    destruct (finish s !! t); simpl; done.
Qed.

Lemma take_outside_maps s t :
  cpu_committed (take_outside s t) = cpu_committed s /\ finish (take_outside s t) = finish s /\
  spawned (take_outside s t) = spawned s /\ segment (take_outside s t) = segment s.
Proof. unfold take_outside. by destruct (cpu_outside s !! t). Qed.

Lemma start_of_eq M s t :
  inv_at M s -> M + commit_gain s t <= u64_max ->
  start_of s t = {| st_cpu := commit_cpu s t; st_weight := commit_weight s t;
                    st_segment := default no_segment (segment s !! t); st_previous := base_of s t;
                    st_kind := match finish s !! t with Some _ => EProgram | None => ESpawn end |}.
Proof.
  intros H HU. destruct (take_outside_inv M s t H HU) as (_ & _ & _ & _ & El).
  destruct (take_outside_maps s t) as (Ec & Ef & Esp & Esg).
  unfold start_of, begin_commit, commit_weight, base_of. rewrite <- El. unfold last_sample.
  rewrite Ec, Esg. destruct (cpu_committed s !! t); cbn [finish spawned set_clocks set_timeline];
    rewrite Ef, Esp; by destruct (finish s !! t).
Qed.

(** What the opened state holds of [t]. *)
Lemma opened_clocks s t :
  cpu_now (opened s t) = cpu_now (take_outside s t) /\
  cpu_outside (opened s t) = cpu_outside (take_outside s t) /\
  cpu_committed (opened s t)
  = match cpu_committed s !! t with
    | Some _ => <[t := last_sample (take_outside s t) t]> (cpu_committed s)
    | None => cpu_committed s
    end /\
  segment (opened s t) = delete t (segment s) /\
  (spawned (opened s t) = spawned s \/ spawned (opened s t) = delete t (spawned s)).
Proof.
  destruct (take_outside_maps s t) as (Ec & Ef & Esp & Esg).
  unfold opened, begin_commit, last_sample. rewrite <- Ec, <- Esp, <- Esg.
  destruct (cpu_committed (take_outside s t) !! t); cbn [finish spawned set_clocks set_timeline];
    destruct (finish (take_outside s t) !! t); simpl; split_and!; auto.
Qed.

Lemma opened_thread M s t :
  inv_at M s -> M + commit_gain s t <= u64_max -> thread_at (M + commit_gain s t) (opened s t) t.
Proof.
  intros H HU. destruct (take_outside_inv M s t H HU) as (Hg & H0 & _ & _ & _).
  destruct (take_outside_maps s t) as (Ec & Ef & Esp & Esg).
  destruct (opened_clocks s t) as (En & Eo & Ecm & Eseg & Espw).
  destruct (opened_frame s t) as (_ & _ & _ & _ & _ & _ & _ & _ & Efin & Ewt).
  pose proof (inv_max _ _ H0) as HM.
  pose proof (inv_threads _ _ H0 t) as Ht.
  assert (Hw : waiting (take_outside s t) = waiting s) by (unfold take_outside; by destruct (cpu_outside s !! t)).
  unfold thread_at. rewrite En, Eo, Efin, Ewt, Eseg, lookup_delete_eq.
  eapply (thread_ok_opened _ _ _ _ _ (spawned s !! t) (segment s !! t));
    [|destruct Espw as [-> | ->]; [by left|right; apply lookup_delete_eq]].
  rewrite <- Ef, <- Esp, <- Esg, <- Hw, Ecm.
  destruct (cpu_committed s !! t) as [b|] eqn:Eb.
  - rewrite lookup_insert_eq. rewrite <- Ec in Eb.
    destruct (cpu_now (take_outside s t) !! t) as [c|] eqn:Ecn.
    + replace (last_sample (take_outside s t) t) with c by (unfold last_sample; by rewrite Ecn).
      eapply advance_thread; [exact Ht|done|done|lia].
    + replace (last_sample (take_outside s t) t) with b by (unfold last_sample; by rewrite Ecn, Eb).
      rewrite <- Ecn, <- Eb. exact Ht.
  - rewrite <- Ec. exact Ht.
Qed.

Lemma opened_inv M s t :
  inv_at M s -> M + commit_gain s t <= u64_max -> inv_at (M + commit_gain s t) (opened s t).
Proof.
  intros H HU. destruct (take_outside_inv M s t H HU) as (Hg & _).
  eapply (inv_at_thread M _ s _ t); [done|lia| |by apply opened_thread|].
  - intros o Ho. unfold thread_at. destruct (opened_lookups s t o Ho) as (-> & -> & -> & -> & -> & -> & ->).
    apply (inv_threads _ _ H).
  - destruct (opened_frame s t) as (Hf & Ha & Hfl & _ & He & Hl & Hd & _).
    destruct (inv_tables _ _ H). split; rewrite ?Ha, ?Hfl, ?He, ?Hl, ?Hd, ?(fr_span _ _ Hf); done.
Qed.

Lemma opened_pending M s t :
  inv_at M s -> M + commit_gain s t <= u64_max ->
  pending (opened s t) + commit_weight s t = pending s + commit_gain s t.
Proof.
  intros H HU. destruct (take_outside_inv M s t H HU) as (_ & H0 & Et & _ & El).
  destruct (opened_clocks s t) as (En & _ & Ecm & _). destruct (take_outside_maps s t) as (Ec & _).
  assert (Ew : work (take_outside s t) = work s) by (unfold take_outside; by destruct (cpu_outside s !! t)).
  assert (Ep : pending (take_outside s t) = pending s + commit_gain s t) by (unfold total in Et; lia).
  rewrite <- Ep. unfold pending. rewrite En, Ecm, <- Ec. unfold commit_weight. rewrite <- Ec, <- El.
  pose proof (ok_now _ _ _ _ _ _ _ _ (inv_threads _ _ H0 t)) as Hn. unfold last_sample.
  destruct (cpu_committed (take_outside s t) !! t) as [b|] eqn:Eb; [|lia].
  rewrite (pending_change (cpu_now (take_outside s t)) (cpu_committed (take_outside s t)) _ _ t);
    [|done|by intros; rewrite lookup_insert_ne].
  rewrite lookup_insert_eq, Eb.
  destruct (cpu_now (take_outside s t) !! t) as [c|]; simpl; unfold sat_sub_u64; lia.
Qed.

(** A thread's base leaves room for the work of its commit. *)
Lemma base_weight M s t :
  inv_at M s -> M + commit_gain s t <= u64_max ->
  bounded (M + commit_gain s t - commit_weight s t) (base_of s t) /\ 0 <= commit_weight s t /\
  seg_ok (M + commit_gain s t - commit_cpu s t) (default no_segment (segment s !! t)).
Proof.
  intros H HU. destruct (take_outside_inv M s t H HU) as (_ & H0 & _ & _ & El).
  destruct (take_outside_maps s t) as (Ec & Ef & Esp & Esg).
  pose proof (inv_threads _ _ H0 t) as Ht. split_and!.
  - pose proof (thread_base _ _ _ Ht) as Hb. unfold base_of in *. rewrite Ef, Esp in Hb.
    rewrite <- (since_commit _ _ _ Ht), El, Ec in Hb. unfold commit_weight.
    destruct (cpu_committed s !! t); simpl in Hb; [done|].
    replace (sat_sub_u64 (commit_cpu s t) (commit_cpu s t)) with 0 in Hb by (unfold sat_sub_u64; lia). done.
  - unfold commit_weight. destruct (cpu_committed s !! t); unfold sat_sub_u64; lia.
  - destruct (segment s !! t) as [g|] eqn:Eg; [|done]. rewrite <- Esg in Eg.
    destruct (ok_seg _ _ _ _ _ _ _ _ Ht g Eg) as (b & Eb & Hs).
    by rewrite (last_sample_seg _ _ b Eb), El in Hs.
Qed.

(** ** The predecessors are bounded *)

Lemma before_access_ok M x p : access_ok M x -> bounded M (before_access x p).
Proof. intros [? ?]. unfold before_access. destruct (writes p); [by apply bounded_max|done]. Qed.

Lemma access_get_ok M s k x : inv_at M s -> al_get k (access s) = Some x -> access_ok M x.
Proof.
  intros H Hx. pose proof (ok_access _ _ (inv_tables _ _ H)) as Ha. rewrite Forall_forall in Ha.
  by apply (Ha (k, x)), al_get_entry.
Qed.

Lemma pred_hi_le M s t request y :
  inv_at M s -> M + commit_gain s t <= u64_max -> pred_hi s t request y -> y <= M + commit_gain s t.
Proof.
  intros H HU Hy. destruct (take_outside_inv M s t H HU) as (Hg & H0 & _).
  destruct (base_weight M s t H HU) as (Hb & Hw & Hs). pose proof (inv_max _ _ H0).
  pose proof (inv_max _ _ H).
  destruct Hy as [|g off Eg Eoff|x k Ew|_|o _ _ _|kp p _ Hc].
  - unfold bounded in Hb. lia.
  - rewrite Eg in Hs. simpl in Hs. unfold seg_ok in Hs. rewrite Eoff in Hs. apply shifted_le; lia.
  - pose proof (ok_wt _ _ _ _ _ _ _ _ (inv_threads _ _ H t) x k Ew). lia.
  - pose proof (ok_span _ _ (inv_tables _ _ H)) as Hsp. unfold bounded in Hsp. lia.
  - pose proof (reached_bounded M s o (inv_threads _ _ H o)) as Hr. unfold bounded in Hr. lia.
  - destruct Hc as [x Hx|_|o _].
    + pose proof (before_access_ok M x kp.2 (access_get_ok M s _ x H Hx)) as Hbx. unfold bounded in Hbx. lia.
    + pose proof (ok_floor _ _ (inv_tables _ _ H)) as Hf. unfold bounded in Hf. lia.
    + pose proof (reached_bounded M s o (inv_threads _ _ H o)) as Hr. unfold bounded in Hr. lia.
Qed.

Lemma pred_lo_hi M s t request y :
  inv_at M s -> M + commit_gain s t <= u64_max -> pred_lo s t request y ->
  exists z, pred_hi s t request z /\ y <= z.
Proof.
  intros H HU Hy. destruct (base_weight M s t H HU) as (Hb & Hw & Hs).
  destruct Hy as [|g off Eg Eoff|kp x Hin Hx].
  - eexists; split; [apply hi_program|]. unfold bounded in Hb. lia.
  - rewrite Eg in Hs. simpl in Hs. unfold seg_ok in Hs. rewrite Eoff in Hs.
    destruct (seg_hi g) as [h|] eqn:Eh; [|done]. destruct Hs as [_ Hle].
    eexists; split; [by eapply hi_reap|]. by apply shifted_mono.
  - pose proof (before_access_ok M x kp.2 (access_get_ok M s _ x H Hx)) as Hbx. unfold bounded in Hbx.
    eexists; split; [by eapply hi_conflict, hi_access|]. lia.
Qed.

Lemma commit_bounded M s t request l h :
  inv_at M s -> M + commit_gain s t <= u64_max ->
  is_max (pred_lo s t request) l -> is_max (pred_hi s t request) h ->
  bounded (M + commit_gain s t) (B l h).
Proof.
  intros H HU [Hl Hl'] [Hh Hh']. destruct (base_weight M s t H HU) as (Hb & Hw & _).
  destruct (pred_lo_hi M s t request l H HU Hl) as (z & Hz & ?).
  pose proof (pred_hi_le M s t request h H HU Hh). specialize (Hh' z Hz).
  specialize (Hl' _ (lo_program s t request)). unfold bounded in *; simpl. lia.
Qed.

(** ** Settling accesses *)

Lemma al_get_set {K V} `{EqDecision K} (m : list (K * V)) k v k' :
  al_get k' (al_set k v m) = if bool_decide (k = k') then Some v else al_get k' m.
Proof.
  induction m as [|[k1 v1] m IH]; cbn [al_set al_get].
  - done.
  - destruct (decide (k1 = k)) as [->|Hne].
    + rewrite (bool_decide_eq_true_2 (k = k)) by done. cbn [al_get]. by destruct (bool_decide (k = k')).
    + rewrite (bool_decide_eq_false_2 (k1 = k)) by done. cbn [al_get]. rewrite IH.
      destruct (decide (k1 = k')) as [->|].
      * by rewrite (bool_decide_eq_true_2 (k' = k')), (bool_decide_eq_false_2 (k = k')) by congruence.
      * by rewrite (bool_decide_eq_false_2 (k1 = k')) by done.
Qed.

(** An access after the commit's own earlier accesses are settled at [at_]. *)
Definition settled (at_ : Z) (x x' : Access) : Prop :=
  lo (write x') = lo (write x) /\ lo (reads x') = lo (reads x) /\
  hi (write x) <= hi (write x') <= Z.max (hi (write x)) at_ /\
  hi (reads x) <= hi (reads x') <= Z.max (hi (reads x)) at_.

Lemma settle_get at_ l ac k :
  match al_get k ac with
  | None => al_get k (foldl (settle_one at_) ac l) = None
  | Some x => exists x', al_get k (foldl (settle_one at_) ac l) = Some x' /\ settled at_ x x'
  end.
Proof.
  revert ac. induction l as [|kp l IH]; intros ac; cbn [foldl].
  { destruct (al_get k ac) as [x|]; [|done]. exists x. split; [done|]. unfold settled. lia. }
  specialize (IH (settle_one at_ ac kp)). unfold settle_one in *.
  destruct (al_get kp.1 ac) as [y|] eqn:Ey; [|done]. rewrite al_get_set in IH.
  destruct (decide (kp.1 = k)) as [<-|Hne].
  - rewrite bool_decide_eq_true_2 in IH by done. rewrite Ey. destruct IH as (x' & -> & Hs).
    exists x'. split; [done|]. unfold settled in *. destruct (writes kp.2); simpl in *; lia.
  - by rewrite bool_decide_eq_false_2 in IH.
Qed.

Lemma settled_before at_ x x' p :
  settled at_ x x' ->
  lo (before_access x' p) = lo (before_access x p) /\
  hi (before_access x p) <= hi (before_access x' p) <= Z.max (hi (before_access x p)) at_.
Proof. unfold settled, before_access. destruct (writes p); simpl; lia. Qed.

(** ** Timing a commit *)

Lemma bind_segment_joins cpu off best :
  joins (fun y => exists o, off = Some o /\ y = shifted cpu o) best.1 (bind_segment cpu off best).1.
Proof.
  destruct off as [o|]; simpl; [|apply joins_none; naive_solver].
  destruct (joins_bind best (shifted cpu o) EReap) as (H1 & H2 & H3). split; [done|].
  split; [destruct H2 as [?|<-]; [by left|right; eauto]|]. intros y (? & [= <-] & ->). auto.
Qed.

Lemma take_wait_joins s t h :
  exists h' w, take_wait s t h
    = (h', w, set_timeline (finish s) (spawned s) (segment s) (delete t (waiting s)) s) /\
    joins (fun y => exists k, waiting s !! t = Some (y, k)) h.1 h'.1.
Proof.
  unfold take_wait. destruct (waiting s !! t) as [[x k]|].
  - destruct (Z.ltb_spec h.1 x); eexists _, _; (split; [done|]); unfold joins; simpl.
    + split; [lia|]. split; [right; eauto|]. intros y (? & [= -> ->]). lia.
    + split; [lia|]. split; [by left|]. intros y (? & [= -> ->]). lia.
  - eexists _, _. split; [done|]. apply joins_none. naive_solver.
Qed.

Definition signal_pred (s : WorkSpanState) (t : DetTid) (request : option Resources) (y : Z) : Prop :=
  is_signal_request request = true /\
  (y = hi (span s) \/ exists o, o <> t /\ is_Some (cpu_now s !! o) /\ y = hi (reached_at s o)).

Lemma bind_signal_joins bp M s t request h :
  inv_at M s ->
  exists h', bind_signal bp s t request h = Done h' /\ joins (signal_pred s t request) h.1 h'.1.
Proof.
  intros H. unfold bind_signal, signal_pred. destruct (is_signal_request request).
  2: { eexists; split; [done|]. apply joins_none. naive_solver. }
  set (ts := List.filter _ _).
  destruct (max_ready_joins bp M s ts (hi (span s)) H) as (r & -> & (Hr1 & Hr2 & Hr3)).
  cbn [mbind outcome_bind]. eexists; split; [done|].
  assert (Hts : forall o, o ∈ ts <-> o <> t /\ is_Some (cpu_now s !! o)).
  { intros o. subst ts. rewrite list_elem_of_In, filter_In, <- list_elem_of_In, list_elem_of_fmap,
      negb_true_iff, Z.eqb_neq. split.
    - intros [((o' & c) & -> & Hin%elem_of_map_to_list) ?]. split; [done|]. by exists c.
    - intros [? [c Hc]]. split; [|done]. exists (o, c). by rewrite elem_of_map_to_list. }
  destruct (joins_bind h r ESignal) as (H1 & H2 & H3). split; [done|]. split.
  - destruct H2 as [?|<-]; [by left|right]. split; [done|].
    destruct Hr2 as [->|(o & Ho%Hts & ->)]; [by left|right; exists o; naive_solver].
  - intros y (_ & [->|(o & Ho & Hs & ->)]); specialize (H3 r eq_refl); [lia|].
    specialize (Hr3 (hi (reached_at s o))).
    assert (hi (reached_at s o) <= r); [|lia]. apply Hr3. exists o. by rewrite Hts.
Qed.

(** The state the predecessors are read in. *)
Definition timed (s : WorkSpanState) (t : DetTid) (at_ : Z) : WorkSpanState :=
  let s1 := settle_accesses (opened s t) t at_ in
  set_timeline (finish s1) (spawned s1) (segment s1) (delete t (waiting s1)) s1.

Lemma timed_reached s t at_ o : o <> t -> reached_at (timed s t at_) o = reached_at s o.
Proof.
  intros Ho. destruct (opened_lookups s t o Ho) as (H1 & _ & H2 & H3 & H4 & H5 & _).
  unfold reached_at, base_of, last_sample, timed; simpl. by rewrite H1, H2, H3, H4, H5.
Qed.

Lemma timed_conflict s t at_ kp o :
  holds_conflict (timed s t at_) t kp o <-> holds_conflict s t kp o.
Proof.
  destruct (opened_frame s t) as (_ & _ & _ & Ep & _). unfold holds_conflict, timed; simpl. rewrite Ep.
  split; intros (Hne & held & a & Hp & Hrest); (split; [done|]); exists held, a;
    rewrite lookup_delete_ne in * by done; done.
Qed.

Lemma timed_signal s t at_ request y : signal_pred (timed s t at_) t request y <-> signal_pred s t request y.
Proof.
  unfold signal_pred. destruct (opened_frame s t) as (Hf & _).
  assert (span (timed s t at_) = span s) as -> by apply (fr_span _ _ Hf).
  assert (Hn : forall o, o <> t -> cpu_now (timed s t at_) !! o = cpu_now s !! o)
    by (intros o Ho; apply (opened_lookups s t o Ho)).
  split; intros (Hs & [->|(o & Ho & Hc & ->)]); (split; [done|]); auto; right; exists o;
    rewrite timed_reached, Hn in * by done; auto.
Qed.

(** A conflict read in [timed s t at_] is one of [s], or not after [at_]. *)
Lemma timed_conflict_hi s t at_ kp y :
  conflict_hi (timed s t at_) t kp y -> y <= at_ \/ conflict_hi s t kp y.
Proof.
  destruct (opened_frame s t) as (_ & Ea & Efl & _).
  pose proof (settle_get at_ (default [] (pending_access (opened s t) !! t)) (access (opened s t)) kp.1) as Hg.
  rewrite Ea in Hg.
  intros [x' Hx'|Hn|o Ho].
  - unfold timed in Hx'; simpl in Hx'. rewrite Ea in Hx'.
    destruct (al_get kp.1 (access s)) as [x|] eqn:Ex; [|congruence].
    destruct Hg as (x1 & Hx1 & Hs). assert (x1 = x') as -> by congruence.
    destruct (settled_before at_ x x' kp.2 Hs) as [_ Hb].
    destruct (Z.le_gt_cases (hi (before_access x' kp.2)) at_); [by left|right].
    replace (hi (before_access x' kp.2)) with (hi (before_access x kp.2)) by lia. by constructor.
  - right. replace (resource_floor (timed s t at_)) with (resource_floor s) by (unfold timed; simpl; by rewrite Efl).
    apply hi_cleared. unfold timed in Hn; simpl in Hn. rewrite Ea in Hn.
    destruct (al_get kp.1 (access s)) as [x|]; [|done]. destruct Hg as (x1 & Hx1 & _). congruence.
  - right. rewrite timed_reached by apply Ho. apply hi_running, (timed_conflict s t at_ kp o), Ho.
Qed.

Lemma timed_conflict_hi_le s t at_ kp y :
  conflict_hi s t kp y -> exists z, conflict_hi (timed s t at_) t kp z /\ y <= z.
Proof.
  destruct (opened_frame s t) as (_ & Ea & Efl & _).
  pose proof (settle_get at_ (default [] (pending_access (opened s t) !! t)) (access (opened s t)) kp.1) as Hg.
  rewrite Ea in Hg. intros [x Hx|Hn|o Ho].
  - rewrite Hx in Hg. destruct Hg as (x' & Hx' & Hs). destruct (settled_before at_ x x' kp.2 Hs) as [_ Hb].
    eexists; split; [apply hi_access; unfold timed; simpl; rewrite Ea; exact Hx'|lia].
  - rewrite Hn in Hg. exists (hi (resource_floor s)). split; [|lia].
    replace (resource_floor s) with (resource_floor (timed s t at_)) by (unfold timed; simpl; by rewrite Efl).
    apply hi_cleared. unfold timed; simpl. by rewrite Ea.
  - eexists; split; [apply hi_running, (timed_conflict s t at_ kp o), Ho|].
    rewrite timed_reached by apply Ho. lia.
Qed.

Lemma timed_access_lo s t at_ kp y :
  (exists x, al_get kp.1 (access (timed s t at_)) = Some x /\ y = lo (before_access x kp.2)) <->
  (exists x, al_get kp.1 (access s) = Some x /\ y = lo (before_access x kp.2)).
Proof.
  destruct (opened_frame s t) as (_ & Ea & _).
  pose proof (settle_get at_ (default [] (pending_access (opened s t) !! t)) (access (opened s t)) kp.1) as Hg.
  rewrite Ea in Hg. unfold timed; simpl. rewrite Ea.
  destruct (al_get kp.1 (access s)) as [x|] eqn:Ex.
  - destruct Hg as (x' & -> & Hs). destruct (settled_before at_ x x' kp.2 Hs) as [Hl _].
    split; intros (x0 & [= <-] & ->); eexists; (split; [done|congruence]).
  - rewrite Hg. naive_solver.
Qed.

Lemma opened_memory s t : memory_ok s -> memory_ok (opened s t).
Proof.
  intros [Hr Hz Hcap]. destruct (opened_frame s t) as (_ & Ea & _ & _ & Ee & _ & _ & Ec & _).
  split; rewrite ?Ea, ?Ee, ?Ec; done.
Qed.

Lemma timed_inv M s t at_ :
  inv_at M s -> memory_ok s -> M + commit_gain s t <= u64_max -> 0 <= at_ <= M + commit_gain s t ->
  inv_at (M + commit_gain s t) (timed s t at_) /\ memory_ok (timed s t at_).
Proof.
  intros H Hm HU Ha. pose proof (opened_inv M s t H HU) as Ho.
  destruct (settle_inv _ (opened s t) t at_ Ho (opened_memory s t Hm) Ha) as [Hs Hms].
  split; [|by destruct Hms]. pose proof (inv_max _ _ Hs).
  destruct (take_outside_inv M s t H HU) as (_ & _ & _ & Eout & _).
  destruct (opened_clocks s t) as (_ & Eo & _). rewrite <- Eo in Eout.
  eapply (inv_at_thread _ _ (settle_accesses (opened s t) t at_) _ t); [done|lia| | |by destruct (inv_tables _ _ Hs)].
  - intros o Hot. unfold thread_at, timed; simpl. rewrite lookup_delete_ne by done. apply (inv_threads _ _ Hs).
  - destruct (inv_threads _ _ Hs t). unfold thread_at, timed; simpl in *.
    rewrite lookup_delete_eq, Eout in *. by split.
Qed.

Lemma timed_frame s t at_ : frame s (timed s t at_).
Proof. destruct (opened_frame s t) as ([] & _). by split. Qed.

Lemma timed_clocks s t at_ :
  cpu_now (timed s t at_) = cpu_now (opened s t) /\ cpu_committed (timed s t at_) = cpu_committed (opened s t) /\
  cpu_outside (timed s t at_) = cpu_outside (opened s t).
Proof. done. Qed.

(** Opening a commit leaves nothing of the thread pending. *)
Lemma opened_pend M s t :
  inv_at M s -> M + commit_gain s t <= u64_max ->
  pend (cpu_now (opened s t) !! t) (cpu_committed (opened s t) !! t) = 0.
Proof.
  intros H HU. destruct (take_outside_inv M s t H HU) as (_ & H0 & _).
  destruct (opened_clocks s t) as (-> & _ & -> & _). destruct (take_outside_maps s t) as (Ec & _).
  destruct (cpu_now (take_outside s t) !! t) as [c|] eqn:En; [|done].
  destruct (ok_now _ _ _ _ _ _ _ _ (inv_threads _ _ H0 t) c En) as (b & Eb & _). rewrite Ec in Eb.
  rewrite Eb, lookup_insert_eq. unfold last_sample. rewrite En. simpl. unfold sat_sub_u64; lia.
Qed.

(** The edges of the upper span, gathered in the code's order. *)
Lemma hi_joins_max s t request at_ h0 h1 h2 h3 h :
  at_ = hi (base_of s t) + commit_weight s t -> h0 = at_ ->
  joins (fun y => exists o, seg_hi (default no_segment (segment s !! t)) = Some o
                            /\ y = shifted (commit_cpu s t) o) h0 h1 ->
  joins (fun y => exists k, waiting s !! t = Some (y, k)) h1 h2 ->
  joins (signal_pred (timed s t at_) t request) h2 h3 ->
  joins (fun y => exists kp, kp ∈ conflicts_of request /\ conflict_hi (timed s t at_) t kp y) h3 h ->
  is_max (pred_hi s t request) h.
Proof.
  intros Eat E0 (L1 & A1 & U1) (L2 & A2 & U2) (L3 & A3 & U3) (L4 & A4 & U4). split.
  - assert (Hprog : pred_hi s t request at_) by (rewrite Eat; apply hi_program).
    destruct A4 as [->|(kp & Hin & Hc)].
    2: { destruct (timed_conflict_hi s t at_ kp h Hc); [|by eapply hi_conflict].
         replace h with at_ by lia. done. }
    destruct A3 as [->|(Hs & Hy)%timed_signal].
    2: { destruct Hy as [->|(o & ? & ? & ->)]; [by apply hi_signal_span|by apply hi_signal_thread]. }
    destruct A2 as [->|(k & Hk)]; [|by eapply hi_waited].
    destruct A1 as [->|(o & Ho & ->)]; [by rewrite E0|].
    destruct (segment s !! t) as [g|] eqn:Eg; [|done]. by eapply hi_reap.
  - intros y [|g off Eg Eoff|x k Ew|Hs|o Hs Hne Hn|kp p Hin Hc].
    + lia.
    + specialize (U1 (shifted (commit_cpu s t) off)). rewrite Eg in U1. simpl in U1.
      specialize (U1 ltac:(eauto)). lia.
    + specialize (U2 x ltac:(eauto)). lia.
    + specialize (U3 (hi (span s))). rewrite timed_signal in U3. specialize (U3 ltac:(split; auto)). lia.
    + specialize (U3 (hi (reached_at s o))). rewrite timed_signal in U3.
      specialize (U3 ltac:(split; [done|right; eauto])). lia.
    + destruct (timed_conflict_hi_le s t at_ kp p Hc) as (z & Hz & ?).
      specialize (U4 z ltac:(eauto)). lia.
Qed.

Lemma lo_joins_max s t request at_ l0 l1 l :
  l0 = lo (base_of s t) + commit_weight s t ->
  joins (fun y => exists o, seg_lo (default no_segment (segment s !! t)) = Some o
                            /\ y = shifted (commit_cpu s t) o) l0 l1 ->
  joins (fun y => exists kp x, kp ∈ conflicts_of request /\ al_get kp.1 (access (timed s t at_)) = Some x
                               /\ y = lo (before_access x kp.2)) l1 l ->
  is_max (pred_lo s t request) l.
Proof.
  intros E0 (L1 & A1 & U1) (L2 & A2 & U2). split.
  - destruct A2 as [->|(kp & x & Hin & Hx & ->)].
    + destruct A1 as [->|(o & Ho & ->)]; [rewrite E0; apply lo_program|].
      destruct (segment s !! t) as [g|] eqn:Eg; [|done]. by eapply lo_reap.
    + destruct (proj1 (timed_access_lo s t at_ kp _) (ex_intro _ x (conj Hx eq_refl))) as (x0 & Hx0 & ->).
      by eapply lo_access.
  - intros y [|g off Eg Eoff|kp x Hin Hx].
    + lia.
    + specialize (U1 (shifted (commit_cpu s t) off)). rewrite Eg in U1. simpl in U1.
      specialize (U1 ltac:(eauto)). lia.
    + destruct (proj2 (timed_access_lo s t at_ kp _) (ex_intro _ x (conj Hx eq_refl))) as (x0 & Hx0 & E).
      rewrite E. apply U2. eauto.
Qed.

Lemma commit_time_spec bp M s t request :
  inv_at M s -> memory_ok s -> M + commit_gain s t <= u64_max ->
  exists l h w, let s' := timed s t (hi (base_of s t) + commit_weight s t) in
    commit_time bp (opened s t) t request (start_of s t) = Done (l, h, w, s') /\
    is_max (pred_lo s t request) l.1 /\ is_max (pred_hi s t request) h.1 /\
    inv_at (M + commit_gain s t) s' /\ memory_ok s'.
Proof.
  intros H Hm HU. destruct (base_weight M s t H HU) as (Hb & Hw & _).
  rewrite (start_of_eq M s t H HU). unfold commit_time; cbn [st_previous st_weight st_segment st_cpu st_kind].
  rewrite (plus_exact bp _ _ (M + commit_gain s t)) by done. cbn [mbind outcome_bind].
  set (at_ := hi (base_of s t) + commit_weight s t). cbn [lo hi].
  destruct (timed_inv M s t at_ H Hm HU) as [Ht Hmt]; [unfold bounded in Hb; lia|].
  set (l0 := (lo (base_of s t) + commit_weight s t, _)).
  set (g := default no_segment (segment s !! t)). set (h0 := (at_, _)).
  destruct (take_wait_joins (settle_accesses (opened s t) t at_) t (bind_segment (commit_cpu s t) (seg_hi g) h0))
    as (h2 & w & -> & J2).
  change (set_timeline _ _ _ _ _) with (timed s t at_).
  destruct (bind_signal_joins bp _ (timed s t at_) t request h2 Ht) as (h3 & -> & J3). cbn [mbind outcome_bind].
  destruct (bind_conflicts_joins bp _ (timed s t at_) t (conflicts_of request)
    (bind_segment (commit_cpu s t) (seg_lo g) l0) h3 Ht) as (l & h & -> & JL & JH). cbn [mbind outcome_bind].
  assert (Ewt : waiting (settle_accesses (opened s t) t at_) = waiting s) by apply (opened_frame s t).
  rewrite Ewt in J2.
  exists l, h, w. split; [done|]. split_and!; try done.
  - eapply (lo_joins_max s t request at_ l0.1); [done|apply bind_segment_joins|exact JL].
  - eapply (hi_joins_max s t request at_ h0.1); [done|done|apply bind_segment_joins|exact J2|exact J3|exact JH].
Qed.

(** * Recording a commit keeps the invariant *)

(** ** Accesses *)

Lemma floor_of_ok M ac fl :
  bounded M fl -> Forall (fun kx => access_ok M kx.2) ac -> bounded M (floor_of ac fl).
Proof.
  intros Hfl Ha. revert fl Hfl. induction Ha as [|kx ac [Hw Hr] _ IH]; intros fl Hfl; [done|].
  apply IH. by repeat apply bounded_max.
Qed.

(** The access a commit leaves for a key. *)
Lemma record_access_ok M b x p :
  bounded M b -> access_ok M x ->
  access_ok M (if writes p then {| write := b; reads := zero |}
               else {| write := write x; reads := bmax (reads x) b |}).
Proof.
  intros Hb [? ?]. destruct (writes p); split; simpl; auto using bounded_max.
  apply bounded_zero. unfold bounded in Hb. lia.
Qed.

Definition recorded_ok (M : Z) (r : list (ResourceID * Access) * Bounds * Z) (n : Z) : Prop :=
  let '(ac, fl, ev) := r in accesses_ok M ac /\ bounded M fl /\ 0 <= ev <= n.

Lemma record_one_ok bp M b r kp n :
  bounded M b -> recorded_ok M r n -> n < u64_max ->
  exists r', record_one bp b r kp = Done r' /\ recorded_ok M r' (n + 1).
Proof.
  intros Hb. destruct r as [[ac fl] ev]. intros ([Ha Hl] & Hfl & Hev) Hn. unfold record_one.
  assert (Hstep : forall ac fl ev,
    Forall (fun kx => access_ok M kx.2) ac -> bounded M fl -> 0 <= ev <= n + 1 ->
    (match al_get kp.1 ac with Some _ => length ac | None => S (length ac) end <= MAX_RESOURCES)%nat ->
    recorded_ok M (al_set kp.1
      (if writes kp.2 then {| write := b; reads := zero |}
       else {| write := write (default {| write := B 0 (hi fl); reads := zero |} (al_get kp.1 ac));
               reads := bmax (reads (default {| write := B 0 (hi fl); reads := zero |} (al_get kp.1 ac))) b |})
      ac, fl, ev) (n + 1)).
  { clear -Hb. intros ac fl ev Ha Hfl Hev Hl. split; [|done].
    split; [|by rewrite al_set_length]. apply al_set_Forall; [|done]. apply record_access_ok; [done|].
    destruct (al_get kp.1 ac) as [x|] eqn:E; simpl.
    - rewrite Forall_forall in Ha. by apply (Ha (kp.1, x)), al_get_entry.
    - unfold access_ok, bounded in *; simpl; lia. }
  destruct (al_get kp.1 ac) as [x|] eqn:E; cbn [andb].
  - cbn [mbind outcome_bind]. eexists; split; [done|]. apply Hstep; try done; [lia|by rewrite E].
  - destruct (Nat.leb_spec MAX_RESOURCES (length ac)).
    + rewrite arith_u_exact by (unfold u64_max in *; lia). cbn [mbind outcome_bind].
      eexists; split; [done|]. apply Hstep; [constructor|by apply floor_of_ok|lia|].
      simpl. unfold MAX_RESOURCES. lia.
    + cbn [mbind outcome_bind]. eexists; split; [done|]. apply Hstep; try done; [lia|by rewrite E].
Qed.

Lemma record_accesses_ok bp M b cs r n :
  bounded M b -> recorded_ok M r n -> n + Z.of_nat (length cs) <= u64_max ->
  exists r', record_accesses bp b r cs = Done r' /\ recorded_ok M r' (n + Z.of_nat (length cs)).
Proof.
  intros Hb. revert r n. induction cs as [|kp cs IH]; intros r n Hr Hn; cbn [record_accesses length] in *.
  - eexists; split; [done|]. by rewrite Z.add_0_r.
  - destruct (record_one_ok bp M b r kp n Hb Hr) as (r1 & -> & Hr1); [lia|]. cbn [mbind outcome_bind].
    destruct (IH r1 (n + 1) Hr1) as (r' & -> & Hr'); [lia|]. eexists; split; [done|].
    by replace (n + Z.of_nat (S (length cs))) with (n + 1 + Z.of_nat (length cs)) by lia.
Qed.

(** ** Counters *)

Lemma bump_ok {K} `{OrdKey K} bp (k : K) m n :
  tally_ok n m -> 0 <= n < u64_max -> exists m', bump bp k m = Done m' /\ tally_ok (n + 1) m'.
Proof.
  intros Hm Hn. unfold bump.
  assert (Hv : 0 <= default 0 (bt_get k m) <= n).
  { destruct (bt_get k m) as [x|] eqn:E; simpl; [|lia]. destruct (bt_get_entry _ _ _ E) as (k' & Hk).
    unfold tally_ok in Hm. rewrite Forall_forall in Hm. by apply (Hm (k', x)). }
  rewrite arith_u_exact by (unfold u64_max in *; lia). cbn [mbind outcome_bind].
  eexists; split; [done|]. apply bt_insert_Forall; [simpl; lia|].
  eapply Forall_impl; [exact Hm|]. simpl. lia.
Qed.

Lemma tally_mono {K} n n' (m : list (K * Z)) : n <= n' -> tally_ok n m -> tally_ok n' m.
Proof. intros Hn Hm. eapply Forall_impl; [exact Hm|]. simpl. lia. Qed.

Lemma count_bindings_ok bp s l h w :
  counters_ok s -> commits s < u64_max ->
  exists bl bh bw, count_bindings bp s l h w = Done (set_bindings bl bh bw s) /\
    tally_ok (commits s + 1) bl /\ tally_ok (commits s + 1) bh /\ tally_ok (commits s + 1) bw.
Proof.
  intros [Hc _ _ H1 H2 H3] Hn. unfold count_bindings.
  destruct (bump_ok bp l (binding_lo s) (commits s) H1) as (bl & -> & Hl); [lia|]. cbn [mbind outcome_bind].
  destruct (bump_ok bp h (binding_hi s) (commits s) H2) as (bh & -> & Hh); [lia|]. cbn [mbind outcome_bind].
  assert (Hkeep : tally_ok (commits s + 1) (binding_waited s)) by (eapply tally_mono; [|exact H3]; lia).
  destruct w as [k|]; [destruct (bool_decide (h = EWaited))|].
  - destruct (bump_ok bp k (binding_waited s) (commits s) H3) as (bw & -> & Hw); [lia|].
    cbn [mbind outcome_bind]. eauto 10.
  - cbn [mbind outcome_bind]. eauto 10.
  - cbn [mbind outcome_bind]. eauto 10.
Qed.

(** ** Closing a commit *)

(** The thread that just committed has nothing pending. *)
Lemma set_finish_inv M s t b :
  inv_at M s -> bounded M b -> pend (cpu_now s !! t) (cpu_committed s !! t) = 0 ->
  inv_at M (set_timeline (<[t := b]> (finish s)) (spawned s) (segment s) (waiting s) s).
Proof.
  intros H Hb Hp. pose proof (inv_max _ _ H).
  eapply (inv_at_thread M M s _ t); [done|lia|other_thread H| |by destruct (inv_tables _ _ H)].
  destruct (inv_threads _ _ H t). unfold thread_at; simpl. rewrite lookup_insert_eq. split; try done.
  intros x [= <-]. by rewrite Hp, Z.sub_0_r.
Qed.

Lemma set_totals_inv M s w sp c th :
  inv_at M s -> bounded M sp -> inv_at M (set_totals w sp c th s).
Proof. intros [Ht [] HM] Hsp. split; [done| |done]. by split. Qed.

Lemma set_bindings_inv M s bl bh bw : inv_at M s -> inv_at M (set_bindings bl bh bw s).
Proof. intros [Ht [] HM]. split; [done| |done]. by split. Qed.

Lemma go_outside_inv M s t :
  inv_at M s -> cpu_outside s !! t = None ->
  inv_at M (set_timeline (finish s) (spawned s) (segment s) (<[t := (0, WOutside)]> (waiting s)) s).
Proof.
  intros H Ho. pose proof (inv_max _ _ H).
  eapply (inv_at_thread M M s _ t); [done|lia|other_thread H| |by destruct (inv_tables _ _ H)].
  destruct (inv_threads _ _ H t). unfold thread_at; simpl. rewrite lookup_insert_eq, Ho in *. split; try done.
  intros x k [= <- <-]. lia.
Qed.

Lemma record_end_exits M s b e :
  inv_at M s -> memory_ok s -> bounded M b ->
  exists ex latest, record_end s b e = set_exits ex latest (process_done s) s /\
    exits_ok M (exited_cap s) ex latest (process_done s).
Proof.
  intros H Hm Hb. destruct e as [[process parent] waitable]. unfold record_end.
  pose proof (exits_of _ _ H Hm) as He. pose proof (inv_max _ _ H).
  set (c := match process_done s !! process with Some d => bmax d b | None => b end).
  assert (Hc : bounded M c).
  { subst c. destruct (process_done s !! process) as [d|] eqn:E; [|done].
    apply bounded_max; [|done]. by apply (ok_done _ _ (inv_tables _ _ H) process). }
  eexists _, _. split; [done|]. apply exits_latest; [lia| |done]. apply exits_insert; [done|done|].
  pose proof (exits_children _ _ _ _ _ parent He) as Hk. rewrite Forall_forall in Hk |- *.
  intros x Hx. apply list_elem_of_In, filter_In in Hx as [Hx _]. by apply Hk, list_elem_of_In.
Qed.

(** The updates of the exit tables at the end of a commit. *)
Definition close_exits (v : View) (s : WorkSpanState) (t : DetTid) (request : option Resources)
    (commit : Bounds) : WorkSpanState :=
  let s := match (if is_exit_request request then registered_process v t else None) with
           | Some process =>
               set_exits (exited s) (latest_child_exit s)
                 (<[process := bmax (default zero (process_done s !! process)) commit]> (process_done s)) s
           | None => s
           end in
  match ends v t request with Some e => record_end s commit e | None => s end.

Lemma close_exits_eq M v s t request b :
  inv_at M s -> memory_ok s -> bounded M b ->
  exists ex latest pd, close_exits v s t request b = set_exits ex latest pd s /\
    exits_ok M (exited_cap s) ex latest pd.
Proof.
  intros H Hm Hb. pose proof (exits_of _ _ H Hm) as He. pose proof (inv_max _ _ H). unfold close_exits.
  assert (Hs : exists pd, (match (if is_exit_request request then registered_process v t else None) with
      | Some process => set_exits (exited s) (latest_child_exit s)
          (<[process := bmax (default zero (process_done s !! process)) b]> (process_done s)) s
      | None => s end) = set_exits (exited s) (latest_child_exit s) pd s /\
      exits_ok M (exited_cap s) (exited s) (latest_child_exit s) pd).
  { destruct (if is_exit_request request then _ else _) as [p|].
    - eexists; split; [done|]. apply exits_done; [lia|done|done].
    - exists (process_done s). split; [by destruct s|done]. }
  destruct Hs as (pd & -> & He1).
  destruct (set_exits_inv _ s _ _ _ H Hm He1) as [H1 Hm1].
  destruct (ends v t request) as [e|]; [|eauto 10].
  destruct (record_end_exits M _ b e H1 Hm1 Hb) as (ex & latest & -> & He2).
  simpl in *. eauto 10.
Qed.

(** What a commit leaves besides the exit tables. *)
Record closed (s : WorkSpanState) (t : DetTid) (b : Bounds) (weight : Z) (s' : WorkSpanState) : Prop := {
  cl_finish : finish s' !! t = Some b;
  cl_work : work s' = work s + weight;
  cl_span : span s' = bmax (span s) b;
  cl_commits : commits s' = commits s + 1;
  cl_threads : threads s' = threads s;
  cl_evictions : 0 <= resource_evictions s';
  cl_now : cpu_now s' = cpu_now s;
  cl_committed : cpu_committed s' = cpu_committed s;
  cl_lo : binding_lo s' = binding_lo s;
  cl_hi : binding_hi s' = binding_hi s;
  cl_waited : binding_waited s' = binding_waited s;
}.

Lemma end_commit_ok bp v M s t request b weight :
  inv_at M s -> memory_ok s -> bounded M b ->
  pend (cpu_now s !! t) (cpu_committed s !! t) = 0 -> cpu_outside s !! t = None ->
  0 <= work s + weight <= u64_max -> 0 <= commits s < u64_max -> 0 <= resource_evictions s ->
  resource_evictions s + Z.of_nat (length (conflicts_of request)) <= u64_max ->
  exists s', end_commit bp v s t request b weight = Done s' /\ inv_at M s' /\ memory_ok s' /\
    closed s t b weight s'.
Proof.
  intros H Hm Hb Hp Ho Hw Hc Hev0 Hev. unfold end_commit.
  destruct (record_accesses_ok bp M b (conflicts_of request) (access s, resource_floor s, resource_evictions s)
    (resource_evictions s) Hb) as ([[ac fl] ev] & -> & (Hac & Hfl & Hev')); [|done|].
  { split; [split; [apply H|apply Hm]|]. split; [apply H|lia]. }
  cbn [mbind outcome_bind]. set (pa := match conflicts_of request with [] => _ | _ => _ end).
  destruct (set_access_inv M s ac fl ev pa H Hm Hac Hfl) as [H1 Hm1].
  set (s1 := set_access ac fl ev pa s) in *.
  cbn [work commits set_timeline set_access]. change (work s1) with (work s). change (commits s1) with (commits s).
  rewrite !arith_u_exact by (unfold u64_max in *; lia). cbn [mbind outcome_bind].
  pose proof (set_finish_inv M s1 t b H1 Hb Hp) as H2.
  set (s2 := set_timeline (<[t := b]> (finish s1)) _ _ _ s1) in *.
  assert (H3 : inv_at M (set_totals (work s + weight) (bmax (span s2) b) (commits s + 1) (threads s2) s2))
    by (apply set_totals_inv; [done|]; apply bounded_max; [apply H|done]).
  set (s3 := set_totals _ _ _ _ s2) in *.
  assert (Hbh : 0 <= hi b <= M) by (unfold bounded in Hb; lia).
  pose proof (raise_inv v M s3 t (hi b) H3 Hbh) as H4. set (s4 := raise_waiters v s3 t (hi b)) in *.
  set (s5 := if is_outside_request request then _ else _).
  assert (H5 : inv_at M s5 /\ memory_ok s5 /\ closed s t b weight s5).
  { assert (Hcl : closed s t b weight s4) by (split; try done; [apply lookup_insert_eq|change (resource_evictions s4) with ev; lia]).
    subst s5. destruct (is_outside_request request); [|by split_and!; [|destruct Hm1|]].
    split_and!; [by apply go_outside_inv|by destruct Hm1|by destruct Hcl]. }
  destruct H5 as (H5 & Hm5 & Hcl).
  destruct (close_exits_eq M v s5 t request b H5 Hm5 Hb) as (ex & latest & pd & Ecl & He).
  fold (close_exits v s5 t request b). rewrite Ecl.
  destruct (set_exits_inv M s5 ex latest pd H5 Hm5 He) as [H6 Hm6].
  eexists; split; [done|]. split_and!; [done|done|by destruct Hcl].
Qed.

(** A commit returns; its time is the latest predecessor in each span, its work
    the CPU time since the thread's last commit, and the invariant is kept. *)
Lemma commit_spec bp v s t request :
  ws_inv s -> enabled s = true -> commit_ok s t request ->
  exists s' b, commit bp v s t request = Done s' /\ stepped s s' (commit_gain s t) /\
    finish s' !! t = Some b /\ is_max (pred_lo s t request) (lo b) /\ is_max (pred_hi s t request) (hi b) /\
    work s' = work s + commit_weight s t /\ span s' = bmax (span s) b /\ commits s' = commits s + 1.
Proof.
  intros [H Hwk Hct Hm] Hen (HU & Hc & Hev). unfold commit. rewrite Hen; cbn [negb].
  destruct (begin_commit s t) as [st s1] eqn:Ebc.
  assert (st = start_of s t) as -> by (unfold start_of; by rewrite Ebc).
  assert (s1 = opened s t) as -> by (unfold opened; by rewrite Ebc).
  destruct (commit_time_spec bp _ s t request H Hm HU) as (l & h & w & -> & Hl & Hh & Ht & Hmt).
  cbn [mbind outcome_bind].
  pose proof (commit_bounded _ s t request l.1 h.1 H HU Hl Hh) as Hb.
  pose proof (timed_frame s t (hi (base_of s t) + commit_weight s t)) as Hf.
  pose proof (opened_pending _ s t H HU) as Hpend.
  destruct (base_weight _ s t H HU) as (_ & Hw & _).
  set (s2 := timed _ _ _) in *.
  assert (Hc2 : commits s2 < u64_max) by (by rewrite (fr_commits _ _ Hf)).
  destruct (count_bindings_ok bp s2 l.2 h.2 w (frame_counters _ _ Hf Hct) Hc2) as (bl & bh & bw & -> & T1 & T2 & T3).
  cbn [mbind outcome_bind]. rewrite (start_of_eq _ s t H HU); cbn [st_weight].
  pose proof (pending_nonneg (opened s t)) as Hp0. destruct (timed_clocks s t (hi (base_of s t) + commit_weight s t))
    as (En & Ecm & Eout). fold s2 in En, Ecm, Eout.
  destruct (end_commit_ok bp v _ (set_bindings bl bh bw s2) t request (B l.1 h.1) (commit_weight s t)
    (set_bindings_inv _ _ _ _ _ Ht)) as (s' & -> & Hi' & Hm' & Hcl).
  - by destruct Hmt.
  - done.
  - exact (opened_pend _ s t H HU).
  - change (cpu_outside (opened s t) !! t = None). destruct (opened_clocks s t) as (_ & -> & _).
    apply (take_outside_inv _ s t H HU).
  - change (work (set_bindings bl bh bw s2)) with (work s2). rewrite (fr_work _ _ Hf). unfold total in HU. lia.
  - change (commits (set_bindings bl bh bw s2)) with (commits s2). destruct Hct. rewrite (fr_commits _ _ Hf). lia.
  - change (0 <= resource_evictions s2). destruct Hct. by rewrite (fr_evictions _ _ Hf).
  - change (resource_evictions (set_bindings bl bh bw s2)) with (resource_evictions s2).
    by rewrite (fr_evictions _ _ Hf).
  - destruct Hcl as [C1 C2 C3 C4 C5 C6 C7 C8 C9 C10 C11].
    cbn [work span commits threads cpu_now cpu_committed binding_lo binding_hi binding_waited set_bindings] in *.
    assert (Et : total s' = total s + commit_gain s t).
    { unfold total, pending in *. rewrite C2, C7, C8, En, Ecm, (fr_work _ _ Hf). lia. }
    exists s', (B l.1 h.1). split; [done|]. split.
    + split; [|done]. split; [by rewrite Et|rewrite C2, (fr_work _ _ Hf); lia| |done].
      destruct Hct. split; rewrite ?C4, ?C5, ?C9, ?C10, ?C11, ?(fr_threads _ _ Hf); try done.
      rewrite (fr_commits _ _ Hf). lia.
    + rewrite C2, C3, C4, (fr_work _ _ Hf), (fr_span _ _ Hf), (fr_commits _ _ Hf). done.
Qed.
