(* ===== verification/WorkSpanProps.v ===== *)
(** * Properties of the work and span accounting

    A run is any sequence of the scheduler's calls that respects their contract:
    clocks do not run backwards, a spawned child has not run, a reaper has been
    sampled, an exec moves one thread to another, and no total passes [u64]. *)
From Stdlib Require Import ZArith Lia List.
From stdpp Require Import base gmap list.
From S2P Require Import Prelude BTree Time Schedule Text Resource WorkSpan WorkSpanInv WorkSpanLife WorkSpanCommit.
Import Resource WorkSpan.
Open Scope Z_scope.

Inductive ws_event :=
  | EvArrive (v : View) (t : DetTid) (cpu : Z) (a : Arrival)
  | EvSpawn (creator child : DetTid)
  | EvReap (reaper : DetTid) (cpu : Z) (parent child : DetPid)
  | EvForget (parent child : DetPid)
  | EvWait (t : DetTid) (request : Resources)
  | EvCommit (v : View) (t : DetTid) (request : option Resources)
  | EvRetire (v : View) (t : DetTid) (process : DetPid)
  | EvParentGone (parent : DetPid)
  | EvAdopt (v : View) (former reaper child : DetPid)
  | EvTransfer (caller leader : DetTid).

Definition exec (bp : profile) (s : WorkSpanState) (ev : ws_event) : outcome WorkSpanState :=
  match ev with
  | EvArrive v t cpu a => note_arrival bp v s t cpu a
  | EvSpawn creator child => note_spawn bp s creator child
  | EvReap reaper cpu parent child => Done (note_reap s reaper cpu parent child)
  | EvForget parent child => Done (forget_exit s parent child)
  | EvWait t request => Done (note_wait s t request)
  | EvCommit v t request => commit bp v s t request
  | EvRetire v t process => retire_thread bp v s t process
  | EvParentGone parent => Done (parent_gone s parent)
  | EvAdopt v former reaper child => Done (adopt v s former reaper child)
  | EvTransfer caller leader => transfer_thread bp s caller leader
  end.

(** The CPU time an event brings into the account. *)
Definition gain (s : WorkSpanState) (ev : ws_event) : Z :=
  match ev with
  | EvArrive v t cpu a => arrival_gain v s t cpu a
  | EvCommit _ t _ => if enabled s then commit_gain s t else 0
  | _ => 0
  end.

(** The contract of each call. *)
Definition event_ok (s : WorkSpanState) (ev : ws_event) : Prop :=
  match ev with
  | EvArrive v t cpu a => arrival_ok v s t cpu a
  | EvSpawn _ child => cpu_now s !! child = None /\ cpu_outside s !! child = None
  | EvReap reaper cpu _ _ => reap_ok s reaper cpu
  | EvCommit _ t request => commit_ok s t request
  | EvTransfer caller leader => caller <> leader
  | _ => True
  end.

Fixpoint run (bp : profile) (s : WorkSpanState) (evs : list ws_event) : outcome WorkSpanState :=
  match evs with
  | [] => Done s
  | ev :: evs' => s' ← exec bp s ev; run bp s' evs'
  end.
Fixpoint run_ok (bp : profile) (s : WorkSpanState) (evs : list ws_event) : Prop :=
  match evs with
  | [] => True
  | ev :: evs' => event_ok s ev /\ match exec bp s ev with Done s' => run_ok bp s' evs' | Panic _ => True end
  end.
(** The CPU time a run brings into the account. *)
Fixpoint gains (bp : profile) (s : WorkSpanState) (evs : list ws_event) : Z :=
  match evs with
  | [] => 0
  | ev :: evs' => gain s ev + match exec bp s ev with Done s' => gains bp s' evs' | Panic _ => 0 end
  end.

Lemma new_ws_inv path : ws_inv (new path).
Proof.
  assert (E : total (new path) = 0) by (by destruct path).
  split; [rewrite E| | |].
  - split; [|split|]; simpl; try by apply bounded_zero.
    + intros t. unfold thread_at; simpl. rewrite !lookup_empty. by apply thread_ok_none.
    + constructor.
    + apply map_Forall_empty.
    + apply map_Forall_empty.
    + apply map_Forall_empty.
    + unfold u64_max; lia.
  - simpl; lia.
  - split; simpl; try lia; constructor.
  - split; simpl; [unfold MAX_RESOURCES; lia|apply map_Forall_empty|done].
Qed.

Lemma exec_step bp s ev :
  ws_inv s -> event_ok s ev -> exists s', exec bp s ev = Done s' /\ stepped s s' (gain s ev).
Proof.
  intros Hi Hev. destruct ev; cbn [exec event_ok gain] in *.
  - by apply arrival_step.
  - destruct Hev. by apply spawn_step.
  - eexists; split; [done|]. by apply reap_step.
  - eexists; split; [done|]. by apply forget_step.
  - eexists; split; [done|]. by apply note_wait_step.
  - destruct (enabled s) eqn:E.
    + destruct (commit_spec bp v s t request Hi E Hev) as (s' & b & ? & ? & _). eauto.
    + unfold commit. rewrite E. eauto using stepped_refl.
  - by apply retire_step.
  - eexists; split; [done|]. by apply parent_gone_step.
  - eexists; split; [done|]. by apply adopt_step.
  - by apply transfer_step.
Qed.

Lemma ws_run_step bp s evs :
  ws_inv s -> run_ok bp s evs -> exists s', run bp s evs = Done s' /\ stepped s s' (gains bp s evs).
Proof.
  revert s. induction evs as [|ev evs IH]; intros s Hi Hok; simpl in *; [eauto using stepped_refl|].
  destruct Hok as [Hev Hok]. destruct (exec_step bp s ev Hi Hev) as (s1 & E1 & Hi1 & Ht1).
  rewrite E1 in Hok |- *. cbn [mbind outcome_bind]. destruct (IH s1 Hi1 Hok) as (s' & -> & Hi' & Ht').
  eexists; split; [done|]. split; [done|]. lia.
Qed.

(** C21: The accounting never panics on a run that respects its contract, and it
    conserves CPU time: the work counted plus what the live threads have been
    sampled to run since their last commits is exactly the CPU time the requests
    brought in, each moment counted once through commits, retirements and
    execs. *)
Theorem work_conserved bp path evs :
  run_ok bp (new path) evs ->
  exists s, run bp (new path) evs = Done s /\ work s + pending s = gains bp (new path) evs.
Proof.
  intros Hok. destruct (ws_run_step bp _ evs (new_ws_inv path) Hok) as (s & -> & _ & Ht).
  exists s. split; [done|]. unfold total in Ht. simpl in Ht. exact Ht.
Qed.

(** C30: The two spans bracket a real schedule: after any run the lower span is
    at most the upper one, the upper one is at most the work counted and
    pending, and once no thread has uncommitted work, at most the work
    reported. *)
Theorem span_within_work bp path evs :
  run_ok bp (new path) evs ->
  exists s, run bp (new path) evs = Done s /\
    0 <= lo (span s) <= hi (span s) /\ hi (span s) <= work s + pending s /\
    forall r, work_span_report s = Some r -> pending s = 0 ->
      span_lo_ns r <= span_hi_ns r <= work_ns r.
Proof.
  intros Hok. destruct (ws_run_step bp _ evs (new_ws_inv path) Hok) as (s & -> & Hi & _).
  destruct (ok_span _ _ (inv_tables _ _ (ws_at _ Hi))) as [H1 H2]. unfold total in H2.
  exists s. split_and!; try done; try lia.
  intros r Hr Hp. unfold work_span_report in Hr. destruct (enabled s); simplify_eq/=. lia.
Qed.


Lemma retire_forgets bp v s t process s' :
  enabled s = true -> retire_thread bp v s t process = Done s' ->
  exists s1, s' = forget_thread s1 t.
Proof.
  intros Hen. unfold retire_thread. rewrite Hen; cbn [negb].
  destruct (finish_tail bp s t) as [[tl s1]|p]; cbn [mbind outcome_bind]; [|done].
  intros [= <-]. eauto.
Qed.

(** Memory is bounded over any run: at most [MAX_RESOURCES] resources and
    [MAX_EXITED_PER_PARENT] zombies per parent are remembered, and retiring a
    thread leaves no entry of it. *)
Theorem work_span_memory_bounded bp path evs :
  run_ok bp (new path) evs ->
  exists s, run bp (new path) evs = Done s /\
    (length (access s) <= MAX_RESOURCES)%nat /\
    (forall parent kids, exited s !! parent = Some kids -> (length kids <= MAX_EXITED_PER_PARENT)%nat) /\
    forall v t process, enabled s = true ->
      exists s', retire_thread bp v s t process = Done s' /\
        cpu_now s' !! t = None /\ cpu_outside s' !! t = None /\ cpu_committed s' !! t = None /\
        finish s' !! t = None /\ spawned s' !! t = None /\ segment s' !! t = None /\
        waiting s' !! t = None /\ pending_access s' !! t = None.
Proof.
  intros Hok. destruct (ws_run_step bp _ evs (new_ws_inv path) Hok) as (s & -> & Hi & _).
  exists s. destruct (ws_memory _ Hi) as [Hr Hz Hcap]. split_and!; try done.
  - intros parent kids Hk. rewrite <- Hcap. by apply (Hz parent).
  - intros v t process Hen. destruct (retire_step bp v s t process Hi) as (s' & E & _).
    exists s'. split; [done|]. destruct (retire_forgets bp v s t process s' Hen E) as (s1 & ->).
    simpl. by rewrite !lookup_delete_eq.
Qed.
