(* ===== verification/WorkSpanOutside.v ===== *)
(** * Calls outside the schedule do not disturb the accounting

    A thread whose call runs outside the schedule sends its requests at moments
    the host chooses.  They commute with whatever other threads do, so the
    report is a function of commit order. *)
From Stdlib Require Import ZArith Lia List String.
From stdpp Require Import base gmap list.
From S2P Require Import Prelude BTree Time Schedule Text Resource WorkSpan WorkSpanInv WorkSpanLife WorkSpanCommit WorkSpanProps.
Import Resource WorkSpan.
Open Scope Z_scope.

(** The sample an outside call's request leaves. *)
Definition aside (t : DetTid) (cpu : Z) (s : WorkSpanState) : WorkSpanState :=
  set_clocks (cpu_now s) (<[t := cpu]> (cpu_outside s)) (cpu_committed s) s.

(** [f] is carried through a computation. *)
Definition carry {A} (f : A -> A) (x : outcome A) : outcome A := a ← x; Done (f a).

Section Aside.
Context (bp : profile) (t : DetTid) (cpu : Z).
Notation F := (aside t cpu).

(** ** What others read is unchanged *)

Lemma aside_ready s o : ready_hi bp (F s) o = ready_hi bp s o.
Proof. done. Qed.
Lemma aside_bind_threads s ts k best : bind_threads bp (F s) ts k best = bind_threads bp s ts k best.
Proof.
  revert best. induction ts as [|o ts IH]; intros best; cbn [bind_threads]; [done|].
  rewrite aside_ready. destruct (ready_hi bp s o); cbn [mbind outcome_bind]; auto.
Qed.
Lemma aside_max_ready s ts best : max_ready bp (F s) ts best = max_ready bp s ts best.
Proof.
  revert best. induction ts as [|o ts IH]; intros best; cbn [max_ready]; [done|].
  rewrite aside_ready. destruct (ready_hi bp s o); cbn [mbind outcome_bind]; auto.
Qed.
Lemma aside_bind_conflicts s o cs l h : bind_conflicts bp (F s) o cs l h = bind_conflicts bp s o cs l h.
Proof.
  revert l h. induction cs as [|kp cs IH]; intros l h; cbn [bind_conflicts]; [done|].
  change (access (F s)) with (access s). change (resource_floor (F s)) with (resource_floor s).
  change (running_on (F s) o kp) with (running_on s o kp).
  destruct (al_get kp.1 (access s)); rewrite aside_bind_threads;
    destruct (bind_threads _ _ _ _ _); cbn [mbind outcome_bind]; auto.
Qed.
Lemma aside_bind_signal s o request h : bind_signal bp (F s) o request h = bind_signal bp s o request h.
Proof.
  unfold bind_signal. destruct (is_signal_request request); [|done].
  change (cpu_now (F s)) with (cpu_now s). change (span (F s)) with (span s). by rewrite aside_max_ready.
Qed.

(** ** Commits of others *)

Lemma aside_take s o : o <> t -> take_outside (F s) o = F (take_outside s o).
Proof.
  intros Ho. unfold take_outside. change (cpu_outside (F s)) with (<[t := cpu]> (cpu_outside s)).
  rewrite lookup_insert_ne, delete_insert_ne by congruence. by destruct (cpu_outside s !! o).
Qed.

Lemma aside_begin s o : o <> t -> begin_commit (F s) o = ((begin_commit s o).1, F (begin_commit s o).2).
Proof.
  intros Ho. unfold begin_commit. rewrite aside_take by done. set (s0 := take_outside s o). clearbody s0.
  change (cpu_committed (F s0)) with (cpu_committed s0). cbn zeta.
  destruct (cpu_committed s0 !! o); cbn [finish set_clocks set_timeline aside]; by destruct (finish s0 !! o).
Qed.

Lemma aside_commit_time s o request st :
  commit_time bp (F s) o request st
  = '(l, h, w, s') ← commit_time bp s o request st; Done (l, h, w, F s').
Proof.
  unfold commit_time. destruct (plus bp (st_previous st) (st_weight st)) as [r|p];
    cbn [mbind outcome_bind]; [|done].
  change (settle_accesses (F s) o (hi r)) with (F (settle_accesses s o (hi r))).
  set (s1 := settle_accesses s o (hi r)). set (h := bind_segment _ _ _). set (l := bind_segment _ _ _).
  assert (Etw : take_wait (F s1) o h = ((take_wait s1 o h).1, F (take_wait s1 o h).2)).
  { unfold take_wait. change (waiting (F s1)) with (waiting s1).
    destruct (waiting s1 !! o) as [[x k]|]; [destruct (h.1 <? x)|]; done. }
  rewrite Etw. destruct (take_wait s1 o h) as [[h' w] s2]. cbn [fst snd].
  rewrite aside_bind_signal. destruct (bind_signal bp s2 o request h'); cbn [mbind outcome_bind]; [|done].
  rewrite aside_bind_conflicts. by destruct (bind_conflicts _ _ _ _ _ _) as [[]|].
Qed.

Lemma aside_count_bindings s l h w :
  count_bindings bp (F s) l h w = carry F (count_bindings bp s l h w).
Proof.
  unfold count_bindings, carry. change (binding_lo (F s)) with (binding_lo s).
  change (binding_hi (F s)) with (binding_hi s). change (binding_waited (F s)) with (binding_waited s).
  destruct (bump bp l _); cbn [mbind outcome_bind]; [|done].
  destruct (bump bp h _); cbn [mbind outcome_bind]; [|done].
  by destruct (match w with Some _ => _ | None => _ end).
Qed.

Lemma aside_close v s o request b : close_exits v (F s) o request b = F (close_exits v s o request b).
Proof.
  unfold close_exits. destruct (if is_exit_request request then _ else _) as [p|];
    destruct (ends v o request) as [[[? ?] ?]|]; done.
Qed.

Lemma aside_end_commit v s o request b weight :
  end_commit bp v (F s) o request b weight = carry F (end_commit bp v s o request b weight).
Proof.
  unfold end_commit, carry.
  change (access (F s)) with (access s). change (resource_floor (F s)) with (resource_floor s).
  change (resource_evictions (F s)) with (resource_evictions s).
  destruct (record_accesses bp b _ _) as [[[ac fl] ev]|p]; cbn [mbind outcome_bind]; [|done].
  change (pending_access (F s)) with (pending_access s). set (pa := match conflicts_of request with [] => _ | _ => _ end).
  cbn [work commits set_timeline set_access aside set_clocks].
  destruct (arith_u bp 64 (work s + weight)); cbn [mbind outcome_bind]; [|done].
  destruct (arith_u bp 64 (commits s + 1)); cbn [mbind outcome_bind]; [|done].
  set (s4 := raise_waiters v (set_totals _ _ _ _ (set_timeline _ _ _ _ (set_access ac fl ev pa s))) o (hi b)).
  change (raise_waiters v _ o (hi b)) with (F s4). clearbody s4.
  destruct (is_outside_request request); f_equal.
  - exact (aside_close v (set_timeline (finish s4) (spawned s4) (segment s4) (<[o := (0, WOutside)]> (waiting s4)) s4)
             o request b).
  - exact (aside_close v s4 o request b).
Qed.

Lemma aside_commit v s o request :
  o <> t -> commit bp v (F s) o request = carry F (commit bp v s o request).
Proof.
  intros Ho. unfold commit. change (enabled (F s)) with (enabled s). destruct (enabled s); cbn [negb]; [|done].
  rewrite aside_begin by done. destruct (begin_commit s o) as [st s1]. cbn [fst snd].
  rewrite aside_commit_time. destruct (commit_time bp s1 o request st) as [[[[l h] w] s2]|p];
    cbn [mbind outcome_bind]; [|done].
  rewrite aside_count_bindings. unfold carry at 1.
  destruct (count_bindings bp s2 l.2 h.2 w); cbn [mbind outcome_bind]; [|done].
  apply aside_end_commit.
Qed.

(** ** Other calls *)

Lemma aside_arrival v s o c a : o <> t -> note_arrival bp v (F s) o c a = carry F (note_arrival bp v s o c a).
Proof.
  intros Ho. unfold note_arrival. change (enabled (F s)) with (enabled s).
  destruct (negb (enabled s) || _); [done|].
  change (cpu_committed (F s)) with (cpu_committed s). change (threads (F s)) with (threads s).
  assert (Htail : forall s, (if negb (known v o) || starts a || committed_exits v o then Done (F s)
      else if is_outside (F s) o then
        Done (set_clocks (cpu_now (F s)) (<[o := c]> (cpu_outside (F s))) (cpu_committed (F s)) (F s))
      else
        let s := set_clocks (<[o := c]> (cpu_now (F s))) (cpu_outside (F s)) (cpu_committed (F s)) (F s) in
        r ← ready_hi bp s o;
        let s := raise_waiters v s o r in
        Done (match a with Retry request => note_wait_kind s o request | _ => s end))
    = carry F (if negb (known v o) || starts a || committed_exits v o then Done s
      else if is_outside s o then
        Done (set_clocks (cpu_now s) (<[o := c]> (cpu_outside s)) (cpu_committed s) s)
      else
        let s := set_clocks (<[o := c]> (cpu_now s)) (cpu_outside s) (cpu_committed s) s in
        r ← ready_hi bp s o;
        let s := raise_waiters v s o r in
        Done (match a with Retry request => note_wait_kind s o request | _ => s end))).
  { clear s. intros s. destruct (negb (known v o) || _ || _); [done|].
    change (is_outside (F s) o) with (is_outside s o). destruct (is_outside s o).
    - unfold carry, aside, set_clocks; simpl. by rewrite insert_insert_ne by congruence.
    - change (set_clocks (<[o := c]> (cpu_now (F s))) (cpu_outside (F s)) (cpu_committed (F s)) (F s))
        with (F (set_clocks (<[o := c]> (cpu_now s)) (cpu_outside s) (cpu_committed s) s)).
      cbn zeta. rewrite aside_ready. destruct (ready_hi bp _ o); cbn [mbind outcome_bind carry]; [|done].
      destruct a; try done. unfold note_wait_kind. by destruct (wait_kind request). }
  destruct ((known v o || starts a) && _); [|exact (Htail s)].
  destruct (arith_u bp 64 (threads s + 1)); cbn [mbind outcome_bind]; [|done].
  exact (Htail (set_totals (work s) (span s) (commits s) a0
    (set_clocks (cpu_now s) (cpu_outside s) (<[o := c]> (cpu_committed s)) s))).
Qed.

Lemma aside_spawn s creator child : note_spawn bp (F s) creator child = carry F (note_spawn bp s creator child).
Proof.
  unfold note_spawn. change (enabled (F s)) with (enabled s). destruct (negb (enabled s)); [done|].
  change (reached bp (F s) creator) with (reached bp s creator). by destruct (reached bp s creator).
Qed.

Lemma aside_finish_tail s o :
  finish_tail bp (F s) o = '(b, s') ← finish_tail bp s o; Done (b, F s').
Proof.
  unfold finish_tail. change (reached bp (F s) o) with (reached bp s o).
  destruct (reached bp s o); cbn [mbind outcome_bind]; [|done].
  change (cpu_now (F s)) with (cpu_now s). change (cpu_committed (F s)) with (cpu_committed s).
  destruct (cpu_now s !! o), (cpu_committed s !! o); try done.
  change (work (F s)) with (work s). by destruct (arith_u bp 64 _).
Qed.

Lemma aside_join_exit s p process b : join_exit (F s) p process b = F (join_exit s p process b).
Proof. unfold join_exit. destruct p; [|done]. change (exited (F s)) with (exited s). by destruct (_ ≫= _). Qed.

Lemma aside_retire v s o process :
  o <> t -> retire_thread bp v (F s) o process = carry F (retire_thread bp v s o process).
Proof.
  intros Ho. unfold retire_thread. change (enabled (F s)) with (enabled s). destruct (negb (enabled s)); [done|].
  rewrite aside_finish_tail. destruct (finish_tail bp s o) as [[b s1]|p]; cbn [mbind outcome_bind carry]; [|done].
  set (pr := default process _). set (pa := parent_process v pr).
  set (s2 := set_exits (exited (settle_accesses s1 o (hi b))) _ _ (settle_accesses s1 o (hi b))).
  change (set_exits _ _ _ (settle_accesses (F s1) o (hi b))) with (F s2).
  rewrite aside_join_exit. set (s3 := join_exit s2 pa pr b).
  unfold forget_thread, aside, set_access, set_timeline, set_clocks; simpl.
  by rewrite delete_insert_ne by congruence.
Qed.

Lemma aside_reap s reaper c parent child : note_reap (F s) reaper c parent child = F (note_reap s reaper c parent child).
Proof.
  unfold note_reap. change (enabled (F s)) with (enabled s). destruct (negb (enabled s)); [done|].
  change (exited (F s)) with (exited s). destruct (exited s !! parent ≫= bt_get child); [done|].
  change (latest_child_exit (F s)) with (latest_child_exit s). by destruct (latest_child_exit s !! parent).
Qed.
Lemma aside_forget s parent child : forget_exit (F s) parent child = F (forget_exit s parent child).
Proof. unfold forget_exit. change (enabled (F s)) with (enabled s). by destruct (negb (enabled s)). Qed.
Lemma aside_wait s o r : note_wait (F s) o r = F (note_wait s o r).
Proof.
  unfold note_wait, note_wait_kind. change (enabled (F s)) with (enabled s).
  destruct (negb (enabled s)); [done|]. by destruct (wait_kind r).
Qed.
Lemma aside_parent_gone s p : parent_gone (F s) p = F (parent_gone s p).
Proof. unfold parent_gone. change (enabled (F s)) with (enabled s). by destruct (negb (enabled s)). Qed.
Lemma aside_adopt v s former reaper child : adopt v (F s) former reaper child = F (adopt v s former reaper child).
Proof.
  unfold adopt. change (enabled (F s)) with (enabled s). destruct (negb (enabled s)); [done|].
  change (exited (F s)) with (exited s). destruct (exited s !! former ≫= bt_get child); [done|].
  destruct (logically_exited_processes v child); [|done].
  change (latest_child_exit (F s)) with (latest_child_exit s). by destruct (latest_child_exit s !! former).
Qed.

Lemma rekey_insert {V} caller leader (m : gmap DetTid V) (x : V) :
  caller <> t -> leader <> t -> rekey caller leader (<[t := x]> m) = <[t := x]> (rekey caller leader m).
Proof.
  intros Hc Hl. unfold rekey. rewrite delete_insert_ne by congruence. rewrite lookup_insert_ne by congruence.
  destruct (delete leader m !! caller); [|done].
  by rewrite delete_insert_ne, insert_insert_ne by congruence.
Qed.

Lemma aside_transfer s caller leader :
  caller <> t -> leader <> t ->
  transfer_thread bp (F s) caller leader = carry F (transfer_thread bp s caller leader).
Proof.
  intros Hc Hl. unfold transfer_thread. change (enabled (F s)) with (enabled s).
  destruct (negb (enabled s)); [done|].
  assert (Hr : forall s, Done (transfer_maps (F s) caller leader)
    = Done (F (transfer_maps s caller leader))).
  { clear s. intros s. f_equal. unfold transfer_maps, aside, set_access, set_timeline, set_clocks; simpl.
    by rewrite rekey_insert. }
  destruct (leader =? caller); [exact (Hr s)|].
  rewrite aside_finish_tail. destruct (finish_tail bp s leader) as [[b s1]|p]; cbn [mbind outcome_bind]; [|done].
  exact (Hr (settle_accesses s1 leader (hi b))).
Qed.
End Aside.

(** ** An outside thread stays outside while others run *)

Section Stays.
Context (t : DetTid).

Definition stays (s s' : WorkSpanState) : Prop :=
  enabled s' = enabled s /\ cpu_committed s' !! t = cpu_committed s !! t /\
  (is_outside s t = true -> is_outside s' t = true).

Lemma stays_refl s : stays s s.
Proof. done. Qed.
Lemma stays_trans s1 s2 s3 : stays s1 s2 -> stays s2 s3 -> stays s1 s3.
Proof. intros (E1 & C1 & O1) (E2 & C2 & O2). split; [congruence|]. split; [congruence|auto]. Qed.

Lemma wait_stays w tk : (exists x, w !! t = Some (x, WOutside)) ->
  exists x, or_insert_wait w tk !! t = Some (x, WOutside).
Proof.
  intros (x & Hx). destruct (or_insert_wait_lookup w tk t) as [->|[E _]]; [eauto|congruence].
Qed.
Lemma waits_stay l w : (exists x, w !! t = Some (x, WOutside)) ->
  exists x, foldl or_insert_wait w l !! t = Some (x, WOutside).
Proof. revert w. induction l as [|tk l IH]; intros w Hw; simpl; [done|]. by apply IH, wait_stays. Qed.

Lemma is_outside_true s : is_outside s t = true <-> exists x, waiting s !! t = Some (x, WOutside).
Proof.
  unfold is_outside. split; [|by intros [x ->]].
  destruct (waiting s !! t) as [[x []]|]; try done. eauto.
Qed.

Lemma raise_stays v s by_ at_ : stays s (raise_waiters v s by_ at_).
Proof.
  split; [done|]. split; [done|]. rewrite !is_outside_true. intros Hw.
  unfold raise_waiters; simpl. rewrite map_lookup_imap.
  destruct (waits_stay (blocked_waiters v by_) _ Hw) as (x & ->). simpl. destruct (t =? by_); eauto.
Qed.
Lemma note_wait_kind_stays s o r : stays s (note_wait_kind s o r).
Proof.
  unfold note_wait_kind. destruct (wait_kind r); [|done]. split; [done|]. split; [done|].
  rewrite !is_outside_true. intros Hw. by apply wait_stays.
Qed.

(** Changes that keep what is read of [t]. *)
Lemma stays_same s s' :
  enabled s' = enabled s -> cpu_committed s' !! t = cpu_committed s !! t -> waiting s' !! t = waiting s !! t ->
  stays s s'.
Proof. intros ? ? E. split; [done|]. split; [done|]. unfold is_outside. by rewrite E. Qed.

Lemma opened_stays s o : o <> t -> stays s (opened s o).
Proof.
  intros Ho. destruct (opened_lookups s o t) as (_ & _ & Ec & _ & _ & _ & Ew); [congruence|].
  apply stays_same; [|done|done]. unfold opened, begin_commit, take_outside.
  destruct (cpu_outside s !! o); cbn zeta; cbn [cpu_committed set_clocks]; destruct (cpu_committed s !! o);
    cbn [finish set_clocks set_timeline]; by destruct (finish s !! o).
Qed.

Lemma commit_time_stays bp s o request st l h w s' :
  o <> t -> commit_time bp s o request st = Done (l, h, w, s') -> stays s s'.
Proof.
  intros Ho. unfold commit_time. destruct (plus _ _ _); cbn [mbind outcome_bind]; [|done].
  destruct (take_wait_joins (settle_accesses s o (hi a)) o
    (bind_segment (st_cpu st) (seg_hi (st_segment st)) (hi a, st_kind st))) as (h' & w' & -> & _).
  destruct (bind_signal _ _ _ _ _); cbn [mbind outcome_bind]; [|done].
  destruct (bind_conflicts _ _ _ _ _ _) as [[]|]; cbn [mbind outcome_bind]; [|done].
  intros [= _ _ _ <-]. apply stays_same; try done. simpl. by rewrite lookup_delete_ne by congruence.
Qed.

Lemma count_bindings_stays bp s l h w s' : count_bindings bp s l h w = Done s' -> stays s s'.
Proof.
  unfold count_bindings. destruct (bump bp l _); cbn [mbind outcome_bind]; [|done].
  destruct (bump bp h _); cbn [mbind outcome_bind]; [|done].
  destruct (match w with Some _ => _ | None => _ end); cbn [mbind outcome_bind]; [|done].
  by intros [= <-].
Qed.

Lemma close_exits_stays v s o request b : stays s (close_exits v s o request b).
Proof.
  unfold close_exits. destruct (if is_exit_request request then _ else _);
    destruct (ends v o request) as [[[? ?] ?]|]; done.
Qed.

Lemma end_commit_stays bp v s o request b weight s' :
  o <> t -> end_commit bp v s o request b weight = Done s' -> stays s s'.
Proof.
  intros Ho. unfold end_commit. destruct (record_accesses _ _ _ _) as [[[ac fl] ev]|]; cbn [mbind outcome_bind]; [|done].
  set (s2 := set_timeline _ _ _ _ _). destruct (arith_u bp 64 (work s2 + weight)); cbn [mbind outcome_bind]; [|done].
  destruct (arith_u bp 64 (commits s2 + 1)); cbn [mbind outcome_bind]; [|done].
  set (s4 := raise_waiters _ _ _ _). intros [= <-].
  assert (H4 : stays s s4) by (eapply stays_trans; [|apply raise_stays]; done).
  destruct (is_outside_request request).
  - eapply stays_trans; [|apply (close_exits_stays v _ o request b)]. eapply stays_trans; [exact H4|].
    apply stays_same; try done. simpl. by rewrite lookup_insert_ne by congruence.
  - eapply stays_trans; [exact H4|]. apply (close_exits_stays v s4 o request b).
Qed.

Lemma commit_stays bp v s o request s' : o <> t -> commit bp v s o request = Done s' -> stays s s'.
Proof.
  intros Ho. unfold commit. destruct (negb (enabled s)); [by intros [= <-]|].
  pose proof (opened_stays s o Ho) as H1. unfold opened in H1. destruct (begin_commit s o) as [st s1].
  destruct (commit_time bp s1 o request st) as [[[[l h] w] s2]|] eqn:E2; cbn [mbind outcome_bind]; [|done].
  destruct (count_bindings bp s2 l.2 h.2 w) as [s3|] eqn:E3; cbn [mbind outcome_bind]; [|done].
  intros E4. eapply stays_trans; [exact H1|]. eapply stays_trans; [by eapply commit_time_stays|].
  eapply stays_trans; [by eapply count_bindings_stays|by eapply end_commit_stays].
Qed.
End Stays.

(** Events that are not [t]'s own turns, requests, creation or end. *)
Definition others (t : DetTid) (ev : ws_event) : Prop :=
  match ev with
  | EvArrive _ o _ _ | EvSpawn _ o | EvCommit _ o _ | EvRetire _ o _ => o <> t
  | EvTransfer caller leader => caller <> t /\ leader <> t
  | _ => True
  end.

Lemma arrival_stays bp t v s o c a s' : o <> t -> note_arrival bp v s o c a = Done s' -> stays t s s'.
Proof.
  intros Ho. unfold note_arrival. destruct (negb (enabled s) || _); [by intros [= <-]|].
  assert (Htail : forall s1, stays t s s1 ->
    (if negb (known v o) || starts a || committed_exits v o then Done s1
     else if is_outside s1 o then
       Done (set_clocks (cpu_now s1) (<[o := c]> (cpu_outside s1)) (cpu_committed s1) s1)
     else
       let s1 := set_clocks (<[o := c]> (cpu_now s1)) (cpu_outside s1) (cpu_committed s1) s1 in
       r ← ready_hi bp s1 o;
       let s1 := raise_waiters v s1 o r in
       Done (match a with Retry request => note_wait_kind s1 o request | _ => s1 end)) = Done s' -> stays t s s').
  { intros s1 H1. destruct (negb (known v o) || _ || _); [by intros [= <-]|].
    destruct (is_outside s1 o); [by intros [= <-]|]. cbn zeta.
    destruct (ready_hi bp _ o); cbn [mbind outcome_bind]; [|done]. intros [= <-].
    eapply stays_trans; [exact H1|]. set (s2 := set_clocks _ _ _ s1).
    eapply (stays_trans t s1 s2); [done|]. eapply stays_trans; [apply (raise_stays t v s2 o a0)|].
    destruct a; try done. apply note_wait_kind_stays. }
  destruct ((known v o || starts a) && _); [|by apply Htail].
  destruct (arith_u bp 64 (threads s + 1)); cbn [mbind outcome_bind]; [|done].
  apply Htail. apply stays_same; try done. simpl. by rewrite lookup_insert_ne by congruence.
Qed.

Lemma finish_tail_stays bp t s o b s' : o <> t -> finish_tail bp s o = Done (b, s') -> stays t s s'.
Proof.
  intros Ho. unfold finish_tail. destruct (reached bp s o); cbn [mbind outcome_bind]; [|done].
  destruct (cpu_now s !! o), (cpu_committed s !! o); try (by intros [= <- <-]).
  destruct (arith_u bp 64 _); cbn [mbind outcome_bind]; [|done]. intros [= <- <-].
  apply stays_same; try done. simpl. by rewrite lookup_insert_ne by congruence.
Qed.

Lemma join_exit_stays t s p process b : stays t s (join_exit s p process b).
Proof. unfold join_exit. destruct p; [|done]. by destruct (_ ≫= _). Qed.

Lemma retire_stays bp t v s o process s' : o <> t -> retire_thread bp v s o process = Done s' -> stays t s s'.
Proof.
  intros Ho. unfold retire_thread. destruct (negb (enabled s)); [by intros [= <-]|].
  destruct (finish_tail bp s o) as [[b s1]|] eqn:E1; cbn [mbind outcome_bind]; [|done].
  intros [= <-]. eapply stays_trans; [by eapply finish_tail_stays|].
  set (s2 := set_exits _ _ _ (settle_accesses s1 o (hi b))).
  eapply (stays_trans t s1 s2); [done|]. eapply stays_trans; [apply join_exit_stays|].
  apply stays_same; try done; simpl; by rewrite lookup_delete_ne by congruence.
Qed.

Lemma transfer_stays bp t s caller leader s' :
  caller <> t -> leader <> t -> transfer_thread bp s caller leader = Done s' -> stays t s s'.
Proof.
  intros Hc Hl. unfold transfer_thread. destruct (negb (enabled s)); [by intros [= <-]|].
  assert (Hk : forall V (m : gmap DetTid V), rekey caller leader m !! t = m !! t).
  { intros V m. unfold rekey. destruct (delete leader m !! caller);
      by rewrite ?lookup_insert_ne, ?lookup_delete_ne by congruence. }
  assert (Hr : forall s1, stays t s s1 -> stays t s (transfer_maps s1 caller leader)).
  { intros s1 H1. eapply stays_trans; [exact H1|]. apply stays_same; try done; simpl; by rewrite Hk. }
  destruct (leader =? caller); [intros [= <-]; by apply Hr|].
  destruct (finish_tail bp s leader) as [[b s1]|] eqn:E1; cbn [mbind outcome_bind]; [|done].
  intros [= <-]. apply (Hr (settle_accesses s1 leader (hi b))).
  eapply stays_trans; [by eapply finish_tail_stays|]. done.
Qed.

Lemma exec_stays bp t s ev s' : others t ev -> exec bp s ev = Done s' -> stays t s s'.
Proof.
  intros Hev. destruct ev; cbn [exec others] in *.
  - by apply arrival_stays.
  - unfold note_spawn. destruct (negb (enabled s)); [by intros [= <-]|].
    destruct (reached bp s _); cbn [mbind outcome_bind]; [|done]. intros [= <-].
    apply stays_same; try done. simpl. by rewrite lookup_delete_ne by congruence.
  - intros [= <-]. unfold note_reap. destruct (negb (enabled s)); [done|].
    destruct (exited s !! parent ≫= bt_get child); [done|]. by destruct (latest_child_exit s !! parent).
  - intros [= <-]. unfold forget_exit. by destruct (negb (enabled s)).
  - intros [= <-]. unfold note_wait. destruct (negb (enabled s)); [done|]. apply note_wait_kind_stays.
  - by apply commit_stays.
  - by apply retire_stays.
  - intros [= <-]. unfold parent_gone. by destruct (negb (enabled s)).
  - intros [= <-]. unfold adopt. destruct (negb (enabled s)); [done|].
    destruct (exited s !! former ≫= bt_get child); [done|].
    destruct (logically_exited_processes v child); [|done]. by destruct (latest_child_exit s !! former).
  - destruct Hev. by apply transfer_stays.
Qed.

Lemma exec_aside bp t cpu s ev :
  others t ev -> exec bp (aside t cpu s) ev = carry (aside t cpu) (exec bp s ev).
Proof.
  intros Hev. destruct ev; cbn [exec others] in *.
  - by apply aside_arrival.
  - apply aside_spawn.
  - unfold carry. cbn [mbind outcome_bind]. f_equal. apply aside_reap.
  - unfold carry. cbn [mbind outcome_bind]. f_equal. apply aside_forget.
  - unfold carry. cbn [mbind outcome_bind]. f_equal. apply aside_wait.
  - by apply aside_commit.
  - by apply aside_retire.
  - unfold carry. cbn [mbind outcome_bind]. f_equal. apply aside_parent_gone.
  - unfold carry. cbn [mbind outcome_bind]. f_equal. apply aside_adopt.
  - destruct Hev. by apply aside_transfer.
Qed.

Lemma outside_arrival bp v t cpu a s :
  enabled s = true -> is_Some (cpu_committed s !! t) -> is_outside s t = true ->
  kept v s t a = true -> note_arrival bp v s t cpu a = Done (aside t cpu s).
Proof.
  intros Hen [b Hb] Ho Hk. unfold kept in Hk. rewrite Hen in Hk. unfold note_arrival. rewrite Hen, Hb.
  rewrite (bool_decide_eq_false_2 (Some b = None)), andb_false_r by done. cbn [mbind outcome_bind].
  rewrite Ho. destruct a, (known v t), (committed_exits v t); done.
Qed.

(** A request of a thread whose call runs outside the schedule commutes with
    any sequence of what the other threads do: whether the host delivers it
    before or after their turns, requests, spawns, exits and execs, the
    resulting state is the same. *)
Theorem outside_request_commutes bp v t cpu a s evs :
  enabled s = true -> is_Some (cpu_committed s !! t) -> is_outside s t = true ->
  kept v s t a = true -> Forall (others t) evs ->
  (s1 ← run bp s evs; note_arrival bp v s1 t cpu a) = (s1 ← note_arrival bp v s t cpu a; run bp s1 evs).
Proof.
  intros Hen Hb Ho Hk Hev. rewrite (outside_arrival bp v t cpu a s) by done. cbn [mbind outcome_bind].
  revert s Hen Hb Ho Hk. induction Hev as [|ev evs Hev _ IH]; intros s Hen Hb Ho Hk; cbn [run].
  - cbn [mbind outcome_bind]. by apply outside_arrival.
  - rewrite exec_aside by done. unfold carry.
    destruct (exec bp s ev) as [s1|p] eqn:E; cbn [mbind outcome_bind]; [|done].
    destruct (exec_stays bp t s ev s1 Hev E) as (E1 & E2 & E3).
    apply IH; [congruence|by rewrite E2|auto|]. unfold kept in *. by rewrite E1.
Qed.

(** * Concrete runs of the work and span accounting *)

(** Threads 1 and 2 of processes 1 and 2; 2 is 1's child. *)
Definition ex_view : View :=
  {| next_turns := [(1, None); (2, None)];
     run_queue_contains := fun _ => true;
     committed_exits := fun _ => false;
     registered_process := fun t => Some t;
     live_process_threads := fun p => [p];
     is_init_orphan := fun _ => false;
     parent_process := fun p => if p =? 2 then Some 1 else None;
     unreaped_children_of := fun p => if p =? 1 then [2] else [];
     logically_exited_processes := fun p => p =? 2;
     autoreaped_exits := fun _ => false |}.

Definition ex_request (t : DetTid) (rs : list (ResourceID * Permission)) : option Resources :=
  Some {| tid := t; resources := rs; poll_attempt := 0 |}.
Definition ex_path : text := lit "report.json".

(** A file written by 1, then read by the child it spawns; the child exits and
    is reaped; 1 then leaves the schedule. *)
Definition ex_prefix : list ws_event :=
  [EvArrive ex_view 1 100 StartsThread; EvArrive ex_view 1 150 Other;
   EvCommit ex_view 1 (ex_request 1 [(FileContents 7, W)]);
   EvArrive ex_view 1 170 Other; EvSpawn 1 2; EvArrive ex_view 2 170 StartsThread;
   EvCommit ex_view 2 (ex_request 2 [(SchedYield, R)]); EvArrive ex_view 2 200 Other].
Definition ex_events : list ws_event :=
  ex_prefix ++
  [EvCommit ex_view 2 (ex_request 2 [(FileContents 7, R)]); EvArrive ex_view 2 210 Other;
   EvRetire ex_view 2 2].

(** Evaluates a closed contract. *)
Ltac by_evaluation := vm_compute; repeat split; try discriminate; try (eexists; reflexivity).

(** The state in which thread 2 is about to read the file. *)
Definition ex_state : WorkSpanState :=
  Eval vm_compute in match run validate (new (Some ex_path)) ex_prefix with Done s => s | Panic _ => new None end.

Lemma work_conserved_witness :
  exists s, run validate (new (Some ex_path)) ex_events = Done s /\ work s + pending s = 110.
Proof.
  destruct (work_conserved validate (Some ex_path) ex_events) as (s & E & H); [by_evaluation|].
  exists s. split; [exact E|]. rewrite H. vm_compute. reflexivity.
Defined.

Lemma span_within_work_witness :
  exists s, run validate (new (Some ex_path)) ex_events = Done s /\
    lo (span s) <= hi (span s) /\ hi (span s) <= work s + pending s.
Proof.
  destruct (span_within_work validate (Some ex_path) ex_events) as (s & E & H1 & H2 & _); [by_evaluation|].
  exists s. split; [exact E|]. split; [apply H1|exact H2].
Defined.


Lemma work_span_memory_bounded_witness :
  exists s, run validate (new (Some ex_path)) ex_events = Done s /\ (length (access s) <= MAX_RESOURCES)%nat.
Proof.
  destruct (work_span_memory_bounded validate (Some ex_path) ex_events) as (s & E & H & _); [by_evaluation|].
  exists s. split; [exact E|exact H].
Defined.

(** Thread 1 blocks in a kernel-run read; its request may arrive before or
    after thread 2's commit. *)
Definition ex_outside : WorkSpanState :=
  Eval vm_compute in
    match run validate ex_state [EvCommit ex_view 1 (ex_request 1 [(BlockingExternalIO {| op_tid := 1; sequence := 0 |}, R)])]
    with Done s => s | Panic _ => new None end.

Lemma outside_request_commutes_witness :
  (s1 ← run validate ex_outside [EvCommit ex_view 2 (ex_request 2 [(FileContents 7, R)])];
   note_arrival validate ex_view s1 1 900 Other)
  = (s1 ← note_arrival validate ex_view ex_outside 1 900 Other;
     run validate s1 [EvCommit ex_view 2 (ex_request 2 [(FileContents 7, R)])]).
Proof.
  apply (outside_request_commutes validate ex_view 1 900 Other ex_outside).
  - reflexivity.
  - eexists. vm_compute. reflexivity.
  - vm_compute. reflexivity.
  - vm_compute. reflexivity.
  - repeat constructor. discriminate.
Defined.
