(* ===== verification/ReplayCursor.v ===== *)
(** * The cursor over a recorded schedule
      (src/detcore-model/src/collections/replay_cursor.rs)

    A queue that is consumed from the front and can be looked into.  The deque
    is the list of its elements, the next one first; indices and lengths are
    [nat]. *)
From Stdlib Require Import ZArith Lia List String.
From stdpp Require Import base list.
From S2P Require Import Prelude Text.

Module ReplayCursor.
Section Cursor.
Context {T : Type}.

Record ReplayCursor := { inner_data : list T }.
Implicit Types c : ReplayCursor.

Definition from_iter (i : list T) : ReplayCursor := {| inner_data := i |}.
Definition peek_nth c (index : nat) : option T := inner_data c !! index.
Definition peek c : option T := peek_nth c 0.

(** The loop of [prefix_contains], [i] being the index of the head of [l]. *)
Fixpoint find_index (pred : T -> bool) (i : nat) (l : list T) : option nat :=
  match l with
  | [] => None
  | v :: l' => if pred v then Some i else find_index pred (S i) l'
  end.
Definition prefix_contains c (winsize : nat) (pred : T -> bool) : option nat :=
  find_index pred 0 (take winsize (inner_data c)).

Definition drop_ c (count : nat) : ReplayCursor :=
  {| inner_data := drop (Nat.min count (length (inner_data c))) (inner_data c) |}.
Definition len c : nat := length (inner_data c).
Definition is_empty c : bool := match inner_data c with [] => true | _ => false end.
Definition next c : option T * ReplayCursor :=
  match inner_data c with
  | [] => (None, c)
  | x :: l => (Some x, {| inner_data := l |})
  end.

(** [show] is the [Display] of the elements. *)
Definition display_first_n (show : T -> text) c (count : nat) : text :=
  snd (foldl (fun '(first, acc) x => (false, acc ++ (if first : bool then [] else lit " ") ++ show x))
             (true, []) (take count (inner_data c))).

(** ** Lemmas *)

Lemma find_index_Some pred i l k :
  find_index pred i l = Some k <->
  exists j v, k = (i + j)%nat /\ l !! j = Some v /\ pred v = true /\
    forall j' v', (j' < j)%nat -> l !! j' = Some v' -> pred v' = false.
Proof.
  revert i k. induction l as [|x l IH]; intros i k; simpl.
  - split; [done|]. intros (j & v & _ & Hj & _). by rewrite lookup_nil in Hj.
  - destruct (pred x) eqn:E.
    + split.
      * intros [= <-]. exists 0%nat, x. repeat split; [lia|done|]. intros; lia.
      * intros ([|j] & v & -> & Hj & Hv & Hall); [f_equal; lia|].
        specialize (Hall 0%nat x ltac:(lia) eq_refl). congruence.
    + rewrite IH. split.
      * intros (j & v & -> & Hj & Hv & Hall). exists (S j), v. repeat split; [lia|done|done|].
        intros [|j'] v' Hlt Hl; simpl in Hl; [congruence|]. eapply Hall; [|done]. lia.
      * intros ([|j] & v & -> & Hj & Hv & Hall); simpl in Hj; [congruence|].
        exists j, v. repeat split; [lia|done|done|]. intros j' v' Hlt Hl.
        apply (Hall (S j') v'); [lia|done].
Qed.

(** A found element is in the window, satisfies the test, and is the first. *)
Lemma prefix_contains_Some c w pred k :
  prefix_contains c w pred = Some k ->
  (k < w)%nat /\ exists v, inner_data c !! k = Some v /\ pred v = true /\
    forall j v', (j < k)%nat -> inner_data c !! j = Some v' -> pred v' = false.
Proof.
  unfold prefix_contains. rewrite find_index_Some. intros (j & v & -> & Hj & Hv & Hall). simpl.
  apply lookup_take_Some in Hj as [Hj Hlt]. split; [done|]. exists v. repeat split; [done|done|].
  intros j' v' Hj' Hl. apply (Hall j' v' Hj'). apply lookup_take_Some. split; [done|lia].
Qed.
Lemma prefix_contains_None c w pred k v :
  prefix_contains c w pred = None -> (k < w)%nat -> inner_data c !! k = Some v -> pred v = false.
Proof.
  unfold prefix_contains. intros Hn Hk Hv. destruct (pred v) eqn:E; [|done]. exfalso.
  assert (Hin : take w (inner_data c) !! k = Some v) by (apply lookup_take_Some; done).
  clear Hv. revert k Hk Hin Hn. generalize 0%nat. induction (take w (inner_data c)) as [|x l IH];
    intros i [|k] Hk Hin; simpl in *; try done.
  - injection Hin as ->. by rewrite E.
  - destruct (pred x); [done|]. apply (IH (S i) k); [lia|done].
Qed.
Lemma peek_head c x l : inner_data c = x :: l -> peek c = Some x.
Proof. unfold peek, peek_nth. by intros ->. Qed.
Lemma drop_data c n : inner_data (drop_ c n) = drop n (inner_data c).
Proof.
  simpl. destruct (decide (n <= length (inner_data c))%nat); [by rewrite Nat.min_l|].
  rewrite Nat.min_r by lia. rewrite !drop_ge by lia. done.
Qed.
End Cursor.
Arguments ReplayCursor : clear implicits.
End ReplayCursor.
