(* ===== verification/Replayer.v ===== *)
(** * The schedule replayer (src/detcore/src/scheduler/replayer.rs)

    A replay holds the recorded events in a cursor and the recorded background
    starts by how many events they follow.  [observe_event] compares each event
    the run makes with the cursor's head, counts how it differs, resynchronizes,
    releases the schedule or stops, and says which thread the recording ran
    next.  Counters are [u64] with the overflow behaviour of the build profile;
    log output has no part in the state and is left out.  [kept_retry]'s count
    is a [u32] that saturates. *)
From Stdlib Require Import ZArith Lia List String.
From stdpp Require Import base gmap list.
From S2P Require Import Prelude BTree Time Schedule Text ReplayCursor.
Import Schedule.
Open Scope Z_scope.

Module Replayer.
Import ReplayCursor.

Definition LOOKAHEAD_WINDOW : nat := 10.
Definition UNMATCHED_EVENTS_BEFORE_RELEASE : Z := 1000.
Definition REPLAY_KEPT_RETRY_LIMIT : Z := 1000.

(** ** Data *)

Record Release := { event : Z; unreplayed : nat }.
(** [detcore_model::summary::ReplayPosition] *)
Record ReplayPosition := { pos_event : Z; pos_record_event : Z }.
Record UntakenStart := { thread : DetTid; call : Z; after : Z; passed_at : option ReplayPosition }.
(** [crate::preemptions::BackgroundStart] *)
Record BackgroundStart := { bs_after : Z; bs_thread : DetTid; bs_call : Z }.
Record FirstDesync := {
  fd_event : Z; record_event : Z; fd_observed : DetTid; fd_expected : DetTid; fd_hard : bool
}.
Record DesyncStats := {
  soft : Z;
  hard : Z;
  at_context_switch : Z;
  resync_insertions : Z;
  resync_deletions : Z;
  fast_forwards : Z;
  last_was_desync : bool;
}.
#[export] Instance DesyncStats_default : Inhabited DesyncStats :=
  populate {| soft := 0; hard := 0; at_context_switch := 0; resync_insertions := 0;
              resync_deletions := 0; fast_forwards := 0; last_was_desync := false |}.
(** [impl Add for DesyncStats] *)
Definition stats_add (bp : profile) (self rhs : DesyncStats) : outcome DesyncStats :=
  s ← arith_u bp 64 (soft self + soft rhs);
  h ← arith_u bp 64 (hard self + hard rhs);
  a ← arith_u bp 64 (at_context_switch self + at_context_switch rhs);
  i ← arith_u bp 64 (resync_insertions self + resync_insertions rhs);
  d ← arith_u bp 64 (resync_deletions self + resync_deletions rhs);
  f ← arith_u bp 64 (fast_forwards self + fast_forwards rhs);
  Done {| soft := s; hard := h; at_context_switch := a; resync_insertions := i;
          resync_deletions := d; fast_forwards := f; last_was_desync := last_was_desync rhs |}.

Inductive StopReason := FatalDesync | ReplayExausted.
Record ReplayedSliceEnd := { length_ : LogicalTime; end_stopless : bool }.
Definition with_a_stop (e : ReplayedSliceEnd) : ReplayedSliceEnd :=
  {| length_ := length_ e; end_stopless := false |}.
Inductive ReplayAction :=
  | Continue (e : option ReplayedSliceEnd)
  | Stop (why : StopReason)
  | ContextSwitch (now : bool) (next : DetTid) (e : option ReplayedSliceEnd).

#[export] Instance ReplayPosition_eqdec : EqDecision ReplayPosition.
Proof. solve_decision. Defined.
#[export] Instance UntakenStart_eqdec : EqDecision UntakenStart.
Proof. solve_decision. Defined.
#[export] Instance DesyncStats_eqdec : EqDecision DesyncStats.
Proof. solve_decision. Defined.
#[export] Instance ReplayedSliceEnd_eqdec : EqDecision ReplayedSliceEnd.
Proof. solve_decision. Defined.
#[export] Instance StopReason_eqdec : EqDecision StopReason.
Proof. solve_decision. Defined.
#[export] Instance ReplayAction_eqdec : EqDecision ReplayAction.
Proof. solve_decision. Defined.

Record Replayer := {
  cursor : ReplayCursor SchedEvent;
  traced_event_count : Z;
  events_popped : Z;
  schedule_len : Z;
  last_consumed : option Z;
  exhausted_from : option Z;
  unmatched_run : Z;
  observed_non_polling : Z;
  release : option Release;
  desync_counts : gmap DetTid DesyncStats;
  replay_exhausted_panic : bool;
  die_on_desync : bool;
  syscalls_in_flight : gmap DetTid (option Sysno * option Sysno);
  kept_retry : option (DetTid * nat * Z);
  background_starts : list (Z * list (DetTid * Z));
  pending_starts : list (DetTid * Z * Z);
  passed_starts : list UntakenStart;
  notes_background_starts : bool;
  skipped : Z;
  first_desync : option FirstDesync;
}.

Definition set_cursor (v : ReplayCursor SchedEvent) (r : Replayer) : Replayer :=
  {| cursor := v; traced_event_count := traced_event_count r; events_popped := events_popped r;
     schedule_len := schedule_len r; last_consumed := last_consumed r; exhausted_from := exhausted_from r;
     unmatched_run := unmatched_run r; observed_non_polling := observed_non_polling r; release := release r;
     desync_counts := desync_counts r; replay_exhausted_panic := replay_exhausted_panic r;
     die_on_desync := die_on_desync r; syscalls_in_flight := syscalls_in_flight r; kept_retry := kept_retry r;
     background_starts := background_starts r; pending_starts := pending_starts r;
     passed_starts := passed_starts r; notes_background_starts := notes_background_starts r;
     skipped := skipped r; first_desync := first_desync r |}.
Definition set_traced (v : Z) (r : Replayer) : Replayer :=
  {| cursor := cursor r; traced_event_count := v; events_popped := events_popped r;
     schedule_len := schedule_len r; last_consumed := last_consumed r; exhausted_from := exhausted_from r;
     unmatched_run := unmatched_run r; observed_non_polling := observed_non_polling r; release := release r;
     desync_counts := desync_counts r; replay_exhausted_panic := replay_exhausted_panic r;
     die_on_desync := die_on_desync r; syscalls_in_flight := syscalls_in_flight r; kept_retry := kept_retry r;
     background_starts := background_starts r; pending_starts := pending_starts r;
     passed_starts := passed_starts r; notes_background_starts := notes_background_starts r;
     skipped := skipped r; first_desync := first_desync r |}.
Definition set_popped (v : Z) (r : Replayer) : Replayer :=
  {| cursor := cursor r; traced_event_count := traced_event_count r; events_popped := v;
     schedule_len := schedule_len r; last_consumed := last_consumed r; exhausted_from := exhausted_from r;
     unmatched_run := unmatched_run r; observed_non_polling := observed_non_polling r; release := release r;
     desync_counts := desync_counts r; replay_exhausted_panic := replay_exhausted_panic r;
     die_on_desync := die_on_desync r; syscalls_in_flight := syscalls_in_flight r; kept_retry := kept_retry r;
     background_starts := background_starts r; pending_starts := pending_starts r;
     passed_starts := passed_starts r; notes_background_starts := notes_background_starts r;
     skipped := skipped r; first_desync := first_desync r |}.
Definition set_last_consumed (v : option Z) (r : Replayer) : Replayer :=
  {| cursor := cursor r; traced_event_count := traced_event_count r; events_popped := events_popped r;
     schedule_len := schedule_len r; last_consumed := v; exhausted_from := exhausted_from r;
     unmatched_run := unmatched_run r; observed_non_polling := observed_non_polling r; release := release r;
     desync_counts := desync_counts r; replay_exhausted_panic := replay_exhausted_panic r;
     die_on_desync := die_on_desync r; syscalls_in_flight := syscalls_in_flight r; kept_retry := kept_retry r;
     background_starts := background_starts r; pending_starts := pending_starts r;
     passed_starts := passed_starts r; notes_background_starts := notes_background_starts r;
     skipped := skipped r; first_desync := first_desync r |}.
Definition set_exhausted_from (v : option Z) (r : Replayer) : Replayer :=
  {| cursor := cursor r; traced_event_count := traced_event_count r; events_popped := events_popped r;
     schedule_len := schedule_len r; last_consumed := last_consumed r; exhausted_from := v;
     unmatched_run := unmatched_run r; observed_non_polling := observed_non_polling r; release := release r;
     desync_counts := desync_counts r; replay_exhausted_panic := replay_exhausted_panic r;
     die_on_desync := die_on_desync r; syscalls_in_flight := syscalls_in_flight r; kept_retry := kept_retry r;
     background_starts := background_starts r; pending_starts := pending_starts r;
     passed_starts := passed_starts r; notes_background_starts := notes_background_starts r;
     skipped := skipped r; first_desync := first_desync r |}.
Definition set_unmatched_run (v : Z) (r : Replayer) : Replayer :=
  {| cursor := cursor r; traced_event_count := traced_event_count r; events_popped := events_popped r;
     schedule_len := schedule_len r; last_consumed := last_consumed r; exhausted_from := exhausted_from r;
     unmatched_run := v; observed_non_polling := observed_non_polling r; release := release r;
     desync_counts := desync_counts r; replay_exhausted_panic := replay_exhausted_panic r;
     die_on_desync := die_on_desync r; syscalls_in_flight := syscalls_in_flight r; kept_retry := kept_retry r;
     background_starts := background_starts r; pending_starts := pending_starts r;
     passed_starts := passed_starts r; notes_background_starts := notes_background_starts r;
     skipped := skipped r; first_desync := first_desync r |}.
Definition set_non_polling (v : Z) (r : Replayer) : Replayer :=
  {| cursor := cursor r; traced_event_count := traced_event_count r; events_popped := events_popped r;
     schedule_len := schedule_len r; last_consumed := last_consumed r; exhausted_from := exhausted_from r;
     unmatched_run := unmatched_run r; observed_non_polling := v; release := release r;
     desync_counts := desync_counts r; replay_exhausted_panic := replay_exhausted_panic r;
     die_on_desync := die_on_desync r; syscalls_in_flight := syscalls_in_flight r; kept_retry := kept_retry r;
     background_starts := background_starts r; pending_starts := pending_starts r;
     passed_starts := passed_starts r; notes_background_starts := notes_background_starts r;
     skipped := skipped r; first_desync := first_desync r |}.
Definition set_release (v : option Release) (r : Replayer) : Replayer :=
  {| cursor := cursor r; traced_event_count := traced_event_count r; events_popped := events_popped r;
     schedule_len := schedule_len r; last_consumed := last_consumed r; exhausted_from := exhausted_from r;
     unmatched_run := unmatched_run r; observed_non_polling := observed_non_polling r; release := v;
     desync_counts := desync_counts r; replay_exhausted_panic := replay_exhausted_panic r;
     die_on_desync := die_on_desync r; syscalls_in_flight := syscalls_in_flight r; kept_retry := kept_retry r;
     background_starts := background_starts r; pending_starts := pending_starts r;
     passed_starts := passed_starts r; notes_background_starts := notes_background_starts r;
     skipped := skipped r; first_desync := first_desync r |}.
Definition set_counts (v : gmap DetTid DesyncStats) (r : Replayer) : Replayer :=
  {| cursor := cursor r; traced_event_count := traced_event_count r; events_popped := events_popped r;
     schedule_len := schedule_len r; last_consumed := last_consumed r; exhausted_from := exhausted_from r;
     unmatched_run := unmatched_run r; observed_non_polling := observed_non_polling r; release := release r;
     desync_counts := v; replay_exhausted_panic := replay_exhausted_panic r; die_on_desync := die_on_desync r;
     syscalls_in_flight := syscalls_in_flight r; kept_retry := kept_retry r;
     background_starts := background_starts r; pending_starts := pending_starts r;
     passed_starts := passed_starts r; notes_background_starts := notes_background_starts r;
     skipped := skipped r; first_desync := first_desync r |}.
Definition set_flags (exhausted die : bool) (r : Replayer) : Replayer :=
  {| cursor := cursor r; traced_event_count := traced_event_count r; events_popped := events_popped r;
     schedule_len := schedule_len r; last_consumed := last_consumed r; exhausted_from := exhausted_from r;
     unmatched_run := unmatched_run r; observed_non_polling := observed_non_polling r; release := release r;
     desync_counts := desync_counts r; replay_exhausted_panic := exhausted; die_on_desync := die;
     syscalls_in_flight := syscalls_in_flight r; kept_retry := kept_retry r;
     background_starts := background_starts r; pending_starts := pending_starts r;
     passed_starts := passed_starts r; notes_background_starts := notes_background_starts r;
     skipped := skipped r; first_desync := first_desync r |}.
Definition set_in_flight (v : gmap DetTid (option Sysno * option Sysno)) (r : Replayer) : Replayer :=
  {| cursor := cursor r; traced_event_count := traced_event_count r; events_popped := events_popped r;
     schedule_len := schedule_len r; last_consumed := last_consumed r; exhausted_from := exhausted_from r;
     unmatched_run := unmatched_run r; observed_non_polling := observed_non_polling r; release := release r;
     desync_counts := desync_counts r; replay_exhausted_panic := replay_exhausted_panic r;
     die_on_desync := die_on_desync r; syscalls_in_flight := v; kept_retry := kept_retry r;
     background_starts := background_starts r; pending_starts := pending_starts r;
     passed_starts := passed_starts r; notes_background_starts := notes_background_starts r;
     skipped := skipped r; first_desync := first_desync r |}.
Definition set_kept_retry (v : option (DetTid * nat * Z)) (r : Replayer) : Replayer :=
  {| cursor := cursor r; traced_event_count := traced_event_count r; events_popped := events_popped r;
     schedule_len := schedule_len r; last_consumed := last_consumed r; exhausted_from := exhausted_from r;
     unmatched_run := unmatched_run r; observed_non_polling := observed_non_polling r; release := release r;
     desync_counts := desync_counts r; replay_exhausted_panic := replay_exhausted_panic r;
     die_on_desync := die_on_desync r; syscalls_in_flight := syscalls_in_flight r; kept_retry := v;
     background_starts := background_starts r; pending_starts := pending_starts r;
     passed_starts := passed_starts r; notes_background_starts := notes_background_starts r;
     skipped := skipped r; first_desync := first_desync r |}.
Definition set_background (v : list (Z * list (DetTid * Z))) (r : Replayer) : Replayer :=
  {| cursor := cursor r; traced_event_count := traced_event_count r; events_popped := events_popped r;
     schedule_len := schedule_len r; last_consumed := last_consumed r; exhausted_from := exhausted_from r;
     unmatched_run := unmatched_run r; observed_non_polling := observed_non_polling r; release := release r;
     desync_counts := desync_counts r; replay_exhausted_panic := replay_exhausted_panic r;
     die_on_desync := die_on_desync r; syscalls_in_flight := syscalls_in_flight r; kept_retry := kept_retry r;
     background_starts := v; pending_starts := pending_starts r; passed_starts := passed_starts r;
     notes_background_starts := notes_background_starts r; skipped := skipped r;
     first_desync := first_desync r |}.
Definition set_pending (v : list (DetTid * Z * Z)) (r : Replayer) : Replayer :=
  {| cursor := cursor r; traced_event_count := traced_event_count r; events_popped := events_popped r;
     schedule_len := schedule_len r; last_consumed := last_consumed r; exhausted_from := exhausted_from r;
     unmatched_run := unmatched_run r; observed_non_polling := observed_non_polling r; release := release r;
     desync_counts := desync_counts r; replay_exhausted_panic := replay_exhausted_panic r;
     die_on_desync := die_on_desync r; syscalls_in_flight := syscalls_in_flight r; kept_retry := kept_retry r;
     background_starts := background_starts r; pending_starts := v; passed_starts := passed_starts r;
     notes_background_starts := notes_background_starts r; skipped := skipped r;
     first_desync := first_desync r |}.
Definition set_passed (v : list UntakenStart) (r : Replayer) : Replayer :=
  {| cursor := cursor r; traced_event_count := traced_event_count r; events_popped := events_popped r;
     schedule_len := schedule_len r; last_consumed := last_consumed r; exhausted_from := exhausted_from r;
     unmatched_run := unmatched_run r; observed_non_polling := observed_non_polling r; release := release r;
     desync_counts := desync_counts r; replay_exhausted_panic := replay_exhausted_panic r;
     die_on_desync := die_on_desync r; syscalls_in_flight := syscalls_in_flight r; kept_retry := kept_retry r;
     background_starts := background_starts r; pending_starts := pending_starts r; passed_starts := v;
     notes_background_starts := notes_background_starts r; skipped := skipped r;
     first_desync := first_desync r |}.
Definition set_notes_all (v : bool) (r : Replayer) : Replayer :=
  {| cursor := cursor r; traced_event_count := traced_event_count r; events_popped := events_popped r;
     schedule_len := schedule_len r; last_consumed := last_consumed r; exhausted_from := exhausted_from r;
     unmatched_run := unmatched_run r; observed_non_polling := observed_non_polling r; release := release r;
     desync_counts := desync_counts r; replay_exhausted_panic := replay_exhausted_panic r;
     die_on_desync := die_on_desync r; syscalls_in_flight := syscalls_in_flight r; kept_retry := kept_retry r;
     background_starts := background_starts r; pending_starts := pending_starts r;
     passed_starts := passed_starts r; notes_background_starts := v; skipped := skipped r;
     first_desync := first_desync r |}.
Definition set_skipped (v : Z) (r : Replayer) : Replayer :=
  {| cursor := cursor r; traced_event_count := traced_event_count r; events_popped := events_popped r;
     schedule_len := schedule_len r; last_consumed := last_consumed r; exhausted_from := exhausted_from r;
     unmatched_run := unmatched_run r; observed_non_polling := observed_non_polling r; release := release r;
     desync_counts := desync_counts r; replay_exhausted_panic := replay_exhausted_panic r;
     die_on_desync := die_on_desync r; syscalls_in_flight := syscalls_in_flight r; kept_retry := kept_retry r;
     background_starts := background_starts r; pending_starts := pending_starts r;
     passed_starts := passed_starts r; notes_background_starts := notes_background_starts r; skipped := v;
     first_desync := first_desync r |}.
Definition set_first_desync (v : option FirstDesync) (r : Replayer) : Replayer :=
  {| cursor := cursor r; traced_event_count := traced_event_count r; events_popped := events_popped r;
     schedule_len := schedule_len r; last_consumed := last_consumed r; exhausted_from := exhausted_from r;
     unmatched_run := unmatched_run r; observed_non_polling := observed_non_polling r; release := release r;
     desync_counts := desync_counts r; replay_exhausted_panic := replay_exhausted_panic r;
     die_on_desync := die_on_desync r; syscalls_in_flight := syscalls_in_flight r; kept_retry := kept_retry r;
     background_starts := background_starts r; pending_starts := pending_starts r;
     passed_starts := passed_starts r; notes_background_starts := notes_background_starts r;
     skipped := skipped r; first_desync := v |}.

(** ** Comparing an observed event with a recorded one *)

(** [Sysno::exit] and [Sysno::exit_group] (x86-64). *)
Definition SYS_exit : Sysno := 60.
Definition SYS_exit_group : Sysno := 231.
Definition is_terminal_posthook (e : SchedEvent) : bool :=
  match op e with
  | Syscall n Posthook => (n =? SYS_exit) || (n =? SYS_exit_group)
  | _ => false
  end.
Definition is_prehook (e : SchedEvent) : bool :=
  match op e with Syscall _ Prehook => true | _ => false end.
Definition is_polling (e : SchedEvent) : bool :=
  match op e with Syscall _ Polling => true | _ => false end.

(** An optional field of the recording that the observed event does not have. *)
Definition differs_if_some {A} `{EqDecision A} (expected observed : option A) : bool :=
  match expected with Some _ => bool_decide (observed <> expected) | None => false end.

Definition is_desync (observed expected : SchedEvent) : bool :=
  if bool_decide ((dettid observed, op observed, count observed) <>
                  (dettid expected, op expected, count expected)) then true
  else if differs_if_some (end_time expected) (end_time observed) then true
  else if differs_if_some (start_rip expected) (start_rip observed) then true
  else differs_if_some (end_rip expected) (end_rip observed).
Definition events_match (observed expected : SchedEvent) : bool := negb (is_desync observed expected).

Definition is_hard_desync (observed expected : SchedEvent) : bool :=
  let strip1 :=
    {| dettid := dettid observed; op := op observed; count := 0;
       start_rip := match start_rip expected with None => None | Some _ => start_rip observed end;
       end_rip := if stopless expected then None
                  else match end_rip expected with None => None | Some _ => end_rip observed end;
       end_time := None; stopless := false |} in
  let strip2 :=
    {| dettid := dettid expected; op := op expected; count := 0;
       start_rip := start_rip expected; end_rip := end_rip expected;
       end_time := None; stopless := false |} in
  bool_decide (strip1 <> strip2).

Definition hard_desync_fields (observed expected : SchedEvent) : list string :=
  (if bool_decide (dettid observed <> dettid expected) then ["dettid"%string] else []) ++
  (if bool_decide (op observed <> op expected) then ["op"%string] else []) ++
  (if differs_if_some (start_rip expected) (start_rip observed) then ["start_rip"%string] else []) ++
  (if differs_if_some (end_rip expected) (end_rip observed) && negb (stopless expected)
   then ["end_rip"%string] else []).

(** ** Creation *)

Definition new (i : list SchedEvent) : Replayer :=
  {| cursor := from_iter i; traced_event_count := 0; events_popped := 0;
     schedule_len := Z.of_nat (len (from_iter i)); last_consumed := None; exhausted_from := None;
     unmatched_run := 0; observed_non_polling := 0; release := None; desync_counts := ∅;
     replay_exhausted_panic := false; die_on_desync := false; syscalls_in_flight := ∅;
     kept_retry := None; background_starts := []; pending_starts := []; passed_starts := [];
     notes_background_starts := false; skipped := 0; first_desync := None |}.

Definition record_position (bp : profile) (r : Replayer) : outcome Z :=
  arith_u bp 64 (events_popped r + skipped r).

(** The entries of [background_starts] up to [position], as they come due, and
    the entries that stay. *)
Fixpoint due_starts (position : Z) (m : list (Z * list (DetTid * Z)))
    : list (DetTid * Z * Z) * list (Z * list (DetTid * Z)) :=
  match m with
  | [] => ([], [])
  | (after, starts) :: m' =>
      if position <? after then ([], m)
      else let '(due, rest) := due_starts position m' in
           (((fun tc => (tc.1, tc.2, after)) <$> starts) ++ due, rest)
  end.
Definition queue_background_starts (bp : profile) (r : Replayer) : outcome Replayer :=
  position ← record_position bp r;
  let '(due, rest) := due_starts position (background_starts r) in
  Done (set_background rest (set_pending (pending_starts r ++ due) r)).

(** [background_starts.entry(after).or_default().push_back((thread, call))] *)
Definition add_start (s : BackgroundStart) (m : list (Z * list (DetTid * Z))) :=
  bt_insert (bs_after s) (default [] (bt_get (bs_after s) m) ++ [(bs_thread s, bs_call s)]) m.
Definition with_background_starts (bp : profile) (r : Replayer) (starts : list BackgroundStart)
    (notes_all : bool) : outcome Replayer :=
  let r := set_background (foldl (fun m s => add_start s m) (background_starts r) starts) r in
  queue_background_starts bp (set_notes_all notes_all r).

(** ** Background starts *)

(** [desync_counts.entry(tid).or_default()], updated in place. *)
Definition stats_of (tid : DetTid) (r : Replayer) : DesyncStats :=
  default inhabitant (desync_counts r !! tid).
Definition put_stats (tid : DetTid) (s : DesyncStats) (r : Replayer) : Replayer :=
  set_counts (<[tid := s]> (desync_counts r)) r.
Definition count_hard (bp : profile) (s : DesyncStats) : outcome DesyncStats :=
  h ← arith_u bp 64 (hard s + 1);
  Done {| soft := soft s; hard := h; at_context_switch := at_context_switch s;
          resync_insertions := resync_insertions s; resync_deletions := resync_deletions s;
          fast_forwards := fast_forwards s; last_was_desync := last_was_desync s |}.
Definition count_soft (bp : profile) (s : DesyncStats) : outcome DesyncStats :=
  h ← arith_u bp 64 (soft s + 1);
  Done {| soft := h; hard := hard s; at_context_switch := at_context_switch s;
          resync_insertions := resync_insertions s; resync_deletions := resync_deletions s;
          fast_forwards := fast_forwards s; last_was_desync := last_was_desync s |}.
Definition count_at_switch (bp : profile) (s : DesyncStats) : outcome DesyncStats :=
  h ← arith_u bp 64 (at_context_switch s + 1);
  Done {| soft := soft s; hard := hard s; at_context_switch := h;
          resync_insertions := resync_insertions s; resync_deletions := resync_deletions s;
          fast_forwards := fast_forwards s; last_was_desync := last_was_desync s |}.
Definition count_deletion (bp : profile) (s : DesyncStats) : outcome DesyncStats :=
  h ← arith_u bp 64 (resync_deletions s + 1);
  Done {| soft := soft s; hard := hard s; at_context_switch := at_context_switch s;
          resync_insertions := resync_insertions s; resync_deletions := h;
          fast_forwards := fast_forwards s; last_was_desync := last_was_desync s |}.
Definition count_fast_forward (bp : profile) (s : DesyncStats) : outcome DesyncStats :=
  h ← arith_u bp 64 (fast_forwards s + 1);
  Done {| soft := soft s; hard := hard s; at_context_switch := at_context_switch s;
          resync_insertions := resync_insertions s; resync_deletions := resync_deletions s;
          fast_forwards := h; last_was_desync := last_was_desync s |}.
Definition count_ (f : DesyncStats -> outcome DesyncStats) (tid : DetTid) (r : Replayer)
    : outcome Replayer :=
  s ← f (stats_of tid r); Done (put_stats tid s r).

(** A recorded start that will not be taken: a hard desync of its thread. *)
Definition pass_start (bp : profile) (at_ : ReplayPosition) (start : DetTid * Z * Z) (r : Replayer)
    : outcome Replayer :=
  let '(t, c, a) := start in
  r ← count_ (count_hard bp) t r;
  Done (set_passed (passed_starts r ++ [{| thread := t; call := c; after := a; passed_at := Some at_ |}]) r).
Fixpoint pass_starts (bp : profile) (at_ : ReplayPosition) (starts : list (DetTid * Z * Z)) (r : Replayer)
    : outcome Replayer :=
  match starts with
  | [] => Done r
  | s :: starts' => r ← pass_start bp at_ s r; pass_starts bp at_ starts' r
  end.

(** The loop of [retire_skipped_starts] over the keys it passes. *)
Fixpoint retire_keys (bp : profile) (at_ : ReplayPosition) (past : list Z) (retired : nat) (r : Replayer)
    : outcome (nat * Replayer) :=
  match past with
  | [] => Done (retired, r)
  | a :: past' =>
      let starts := default [] (bt_get a (background_starts r)) in
      let r := set_background (bt_remove a (background_starts r)) r in
      r ← pass_starts bp at_ ((fun tc => (tc.1, tc.2, a)) <$> starts) r;
      retire_keys bp at_ past' (retired + length starts)%nat r
  end.
(** [BTreeMap::range] panics where the start of its range is past the end. *)
Definition retire_skipped_starts (bp : profile) (dropped event : Z) (r : Replayer)
    : outcome (nat * Replayer) :=
  position ← record_position bp r;
  lo ← arith_u bp 64 (position + 1);
  hi ← arith_u bp 64 (position + dropped);
  _ ← (if hi <? lo then Panic PExplicit else Done tt);
  let past := List.filter (fun k => (lo <=? k) && (k <=? hi)) ((background_starts r).*1) in
  let at_ := {| pos_event := event; pos_record_event := position |} in
  '(retired, r) ← retire_keys bp at_ past 0 r;
  s ← arith_u bp 64 (skipped r + dropped);
  Done (retired, set_skipped s r).

Definition released (r : Replayer) : bool := match release r with Some _ => true | None => false end.
Definition pending_background_start (r : Replayer) : option (DetTid * Z) :=
  if released r then None
  else match pending_starts r with [] => None | (t, c, _) :: _ => Some (t, c) end.
Definition take_background_start (r : Replayer) (t : DetTid) (c : Z) : bool * Replayer :=
  if bool_decide (pending_background_start r = Some (t, c))
  then (true, set_pending (tail (pending_starts r)) r)
  else (false, r).
Definition note_unrecorded_background_start (bp : profile) (r : Replayer) (t : DetTid)
    : outcome (bool * Replayer) :=
  r ← count_ (count_hard bp) t r; Done (die_on_desync r, r).
Definition untaken_background_starts (r : Replayer) : list UntakenStart :=
  stable_sort (fun a b => after a <=? after b)
    (passed_starts r ++
     ((fun '(t, c, a) => {| thread := t; call := c; after := a; passed_at := None |})
        <$> pending_starts r) ++
     concat ((fun e : Z * list (DetTid * Z) =>
        (fun tc => {| thread := tc.1; call := tc.2; after := e.1; passed_at := None |}) <$> e.2)
        <$> background_starts r)).

(** ** The recording's next decision *)

Definition timer_preemption_branches (r : Replayer) (nxt : SchedEvent) : option Z :=
  match op nxt with
  | Branch =>
      let timer_preemption :=
        match end_rip nxt with
        | Some _ => true
        | None => match peek_nth (cursor r) 1 with
                  | Some following =>
                      bool_decide (op following = Branch) || bool_decide (dettid following <> dettid nxt)
                  | None => false
                  end
        end in
      if timer_preemption then Some (count nxt) else None
  | _ => None
  end.
Definition resolve_time_to_run (r : Replayer) (nxt : SchedEvent) : option ReplayedSliceEnd :=
  let branches := if stopless nxt then Some (count nxt) else timer_preemption_branches r nxt in
  count ← branches;
  let e := {| length_ := LogicalTime.from_rcbs count; end_stopless := stopless nxt |} in
  let end_stays_visible :=
    match peek_nth (cursor r) 1 with
    | None => true
    | Some following =>
        bool_decide (op following = Branch) || bool_decide (dettid following <> dettid nxt)
    end in
  Some (if stopless nxt && negb end_stays_visible then with_a_stop e else e).

Definition next_slice_end (r : Replayer) : option (DetTid * option ReplayedSliceEnd) :=
  match pending_background_start r with
  | Some (t, _) => Some (t, None)
  | None => nxt ← peek (cursor r); Some (dettid nxt, resolve_time_to_run r nxt)
  end.
Definition next_resume (r : Replayer) : option (DetTid * option LogicalTime) :=
  (fun te : DetTid * option ReplayedSliceEnd => (te.1, length_ <$> te.2)) <$> next_slice_end r.
Definition next_thread_among (r : Replayer) (threads : list DetTid) (except : DetTid) : option DetTid :=
  List.find (fun t => negb (t =? except) && bool_decide (t ∈ threads))
    (dettid <$> inner_data (cursor r)).
Definition next_is_retry_by (r : Replayer) (tid : DetTid) : bool :=
  match peek (cursor r) with
  | None => false
  | Some nxt =>
      (dettid nxt =? tid) &&
      match op nxt with
      | Syscall sysno (Polling | Posthook) =>
          match syscalls_in_flight r !! tid with
          | Some (entered, attempted) =>
              bool_decide (entered = Some sysno) || bool_decide (attempted = Some sysno)
          | None => false
          end
      | _ => false
      end
  end.
Definition keep_retry_turn (r : Replayer) (tid : DetTid) : bool * Replayer :=
  let remaining := len (cursor r) in
  let kept := match kept_retry r with
              | Some (t, remained, kept) =>
                  if (t =? tid) && (remained =? remaining)%nat then Z.min u32_max (kept + 1) else 1
              | None => 1
              end in
  (kept <=? REPLAY_KEPT_RETRY_LIMIT, set_kept_retry (Some (tid, remaining, kept)) r).
Definition next_is_failed_attempt_by (r : Replayer) (tid : DetTid) : bool :=
  match peek (cursor r) with Some nxt => (dettid nxt =? tid) && is_polling nxt | None => false end.
Definition stacktrace_position (bp : profile) (r : Replayer) (traced_ix : Z) : outcome (option Z) :=
  match last_consumed r with
  | Some position => Done (Some position)
  | None =>
      match exhausted_from r with
      | None => Done None
      | Some first =>
          d ← arith_u bp 64 (traced_ix - first);
          p ← arith_u bp 64 (schedule_len r + d);
          Done (Some p)
      end
  end.
Definition has_events_left (r : Replayer) : bool :=
  negb (released r) &&
  (negb (is_empty (cursor r)) || negb (bool_decide (pending_starts r = []))
   || negb (bool_decide (background_starts r = []))).
Definition position_now (bp : profile) (r : Replayer) : outcome ReplayPosition :=
  p ← record_position bp r;
  Done {| pos_event := traced_event_count r; pos_record_event := p |}.

(** ** Observing an event *)

Definition note_syscall_in_flight (observed : SchedEvent) (r : Replayer) : Replayer :=
  let tid := dettid observed in
  let m := syscalls_in_flight r in
  match op observed with
  | Syscall sysno Prehook => set_in_flight (<[tid := (Some sysno, None)]> m) r
  | Syscall sysno Polling => set_in_flight (<[tid := ((default (None, None) (m !! tid)).1, Some sysno)]> m) r
  | Syscall _ Posthook => set_in_flight (delete tid m) r
  | _ => r
  end.
Definition next_replay_matches (r : Replayer) (observed : SchedEvent) : bool :=
  match peek (cursor r) with Some expected => negb (is_hard_desync observed expected) | None => false end.

Definition pop_next (bp : profile) (r : Replayer) : outcome (option SchedEvent * Replayer) :=
  n ← arith_u bp 64 (events_popped r + 1);
  let '(nxt, c) := next (cursor r) in
  r ← queue_background_starts bp (set_cursor c (set_popped n r));
  Done (nxt, r).

Definition release_schedule (r : Replayer) (current_ix : Z) : ReplayAction * Replayer :=
  let dropped := len (cursor r) in
  let r := set_release (Some {| event := current_ix; unreplayed := dropped |})
             (set_cursor (from_iter []) r) in
  (if replay_exhausted_panic r then Stop ReplayExausted else Continue None, r).

Definition counts_next_round (bp : profile) (mytid : DetTid) (is_desync : bool) (r : Replayer)
    : outcome Replayer :=
  let s := stats_of mytid r in
  i ← (if negb is_desync && last_was_desync s then arith_u bp 64 (resync_insertions s + 1)
       else Done (resync_insertions s));
  Done (put_stats mytid
    {| soft := soft s; hard := hard s; at_context_switch := at_context_switch s;
       resync_insertions := i; resync_deletions := resync_deletions s;
       fast_forwards := fast_forwards s; last_was_desync := is_desync |} r).

Definition check_fast_forward (bp : profile) (observed : SchedEvent) (r : Replayer)
    : outcome (option nat * Replayer) :=
  match prefix_contains (cursor r) LOOKAHEAD_WINDOW (events_match observed) with
  | Some ix =>
      r ← count_ (count_fast_forward bp) (dettid observed) r;
      Done (Some ix, set_cursor (drop_ (cursor r) ix) r)
  | None => Done (None, r)
  end.

Definition check_context_switch (r : Replayer) (observed : SchedEvent) (popped : bool)
    : outcome ReplayAction :=
  match next_slice_end r with
  | Some (next_tid, timeslice) =>
      _ ← expect (end_time observed);
      let stopped := with_a_stop <$> timeslice in
      Done (if negb (next_tid =? dettid observed)
            then ContextSwitch (negb (is_prehook observed || is_terminal_posthook observed)) next_tid stopped
            else if popped then Continue timeslice else Continue stopped)
  | None => Done (Continue None)
  end.

(** [observe_event], first part: number the event, and pass the background
    starts that were due before it.  The flag says whether there were any. *)
Definition begin_event (bp : profile) (observed : SchedEvent) (r : Replayer) : outcome (bool * Replayer) :=
  let current_ix := traced_event_count r in
  t ← arith_u bp 64 (current_ix + 1);
  let r := set_traced t r in
  n ← (if is_polling observed then Done (observed_non_polling r)
       else arith_u bp 64 (observed_non_polling r + 1));
  let r := set_last_consumed None (note_syscall_in_flight observed (set_non_polling n r)) in
  let r := if is_empty (cursor r) && bool_decide (exhausted_from r = None) && negb (released r)
           then set_exhausted_from (Some current_ix) r else r in
  let untaken := pending_starts r in
  let r := set_pending [] r in
  position ← record_position bp r;
  r ← pass_starts bp {| pos_event := current_ix; pos_record_event := position |} untaken r;
  Done (negb (bool_decide (untaken = [])), r).

(** Second part, against the cursor's head [expected]: note the first desync,
    count the difference.  [inl]: the replay stops; [inr hard]: it goes on. *)
Definition judge_event (bp : profile) (current_ix : Z) (observed expected : SchedEvent) (r : Replayer)
    : outcome ((ReplayAction + bool) * Replayer) :=
  if is_desync observed expected then
    r ← (match first_desync r with
         | Some _ => Done r
         | None =>
             position ← record_position bp r;
             Done (set_first_desync
               (Some {| fd_event := current_ix; record_event := position; fd_observed := dettid observed;
                        fd_expected := dettid expected; fd_hard := is_hard_desync observed expected |}) r)
         end);
    if is_hard_desync observed expected then
      if die_on_desync r
      then Done (inl (Stop FatalDesync), put_stats (dettid observed) (stats_of (dettid observed) r) r)
      else r ← count_ (count_hard bp) (dettid observed) r; Done (inr true, r)
    else r ← count_ (count_soft bp) (dettid observed) r; Done (inr false, r)
  else Done (inr false, r).

(** Third part: look for a later recorded event that matches, and drop the ones
    before it. *)
Definition resync_event (bp : profile) (current_ix : Z) (observed : SchedEvent) (desync in_hard : bool)
    (r : Replayer) : outcome ((ReplayAction + bool) * Replayer) :=
  if desync then
    '(found, r) ← check_fast_forward bp observed r;
    match found with
    | Some ix =>
        _ ← debug_assert_ bp (0 <? ix)%nat;
        r ← count_ (count_deletion bp) (dettid observed) r;
        '(retired, r) ← retire_skipped_starts bp (Z.of_nat ix) current_ix r;
        if (0 <? retired)%nat && die_on_desync r then Done (inl (Stop FatalDesync), r)
        else Done (inr false, r)
    | None => Done (inr in_hard, r)
    end
  else Done (inr in_hard, r).

(** Fourth part: consume the head, or count an unmatched event and perhaps
    release the schedule, and report what runs next. *)
Definition settle_event (bp : profile) (non_polling_ix : Z) (observed : SchedEvent) (in_hard : bool)
    (r : Replayer) : outcome (ReplayAction * Replayer) :=
  '(released_, r) ←
    (if in_hard then
       if is_polling observed then Done (None, r)
       else n ← arith_u bp 64 (unmatched_run r + 1);
            let r := set_unmatched_run n r in
            if UNMATCHED_EVENTS_BEFORE_RELEASE <=? n
            then let '(a, r) := release_schedule r non_polling_ix in Done (Some a, r)
            else Done (None, r)
     else
       p ← arith_u bp 64 (schedule_len r - Z.of_nat (len (cursor r)));
       '(_, r) ← pop_next bp (set_last_consumed (Some p) r);
       Done (None, set_unmatched_run 0 r));
  match released_ with
  | Some a => Done (a, r)
  | None =>
      action ← check_context_switch r observed (negb in_hard);
      match action with
      | ContextSwitch _ _ _ =>
          if in_hard
          then r ← count_ (count_at_switch bp) (dettid observed) r; Done (action, r)
          else Done (action, r)
      | _ => Done (action, r)
      end
  end.

Definition observe_event (bp : profile) (r : Replayer) (observed : SchedEvent)
    : outcome (ReplayAction * Replayer) :=
  let current_ix := traced_event_count r in
  let non_polling_ix := observed_non_polling r in
  '(untaken, r) ← begin_event bp observed r;
  if untaken && die_on_desync r then Done (Stop FatalDesync, r)
  else
    match peek (cursor r) with
    | Some expected =>
        '(judged, r) ← judge_event bp current_ix observed expected r;
        match judged with
        | inl stop => Done (stop, r)
        | inr in_hard =>
            let desync := is_desync observed expected in
            r ← counts_next_round bp (dettid observed) desync r;
            '(resynced, r) ← resync_event bp current_ix observed desync in_hard r;
            match resynced with
            | inl stop => Done (stop, r)
            | inr in_hard => settle_event bp non_polling_ix observed in_hard r
            end
        end
    | None => Done (if replay_exhausted_panic r then Stop ReplayExausted else Continue None, r)
    end.
End Replayer.
