(* ===== verification/ReplayerInv.v ===== *)
(** * The replayer keeps its place

    What each part of [observe_event] does to the state, as explicit updates,
    and the invariant of a replay: the cursor is the recording from the current
    position on (or was released), the background starts still waiting follow
    that position, no counter overflows. *)
From Stdlib Require Import ZArith Lia List.
From stdpp Require Import base gmap list.
From S2P Require Import Prelude BTree Time Schedule ReplayCursor Replayer.
Import Schedule ReplayCursor Replayer.
Open Scope Z_scope.

(** ** Counters *)

Definition stats_le (K : Z) (c : gmap DetTid DesyncStats) : Prop :=
  0 <= K /\ map_Forall (fun _ s =>
    0 <= soft s <= K /\ 0 <= hard s <= K /\ 0 <= at_context_switch s <= K /\
    0 <= resync_insertions s <= K /\ 0 <= resync_deletions s <= K /\ 0 <= fast_forwards s <= K) c.

Lemma stats_le_empty : stats_le 0 ∅.
Proof. split; [lia|]. apply map_Forall_empty. Qed.
Lemma stats_le_mono K K' c : stats_le K c -> K <= K' -> stats_le K' c.
Proof.
  intros [HK Hc] Hle. split; [lia|]. intros t s Hs. apply (Hc t) in Hs. simpl in Hs. lia.
Qed.
Lemma stats_of_le K t r :
  stats_le K (desync_counts r) ->
  let s := stats_of t r in
  0 <= soft s <= K /\ 0 <= hard s <= K /\ 0 <= at_context_switch s <= K /\
  0 <= resync_insertions s <= K /\ 0 <= resync_deletions s <= K /\ 0 <= fast_forwards s <= K.
Proof.
  intros [HK Hc]. unfold stats_of. destruct (desync_counts r !! t) as [s|] eqn:E; simpl; [|lia].
  exact (Hc t s E).
Qed.
Lemma put_stats_le K t s r :
  stats_le K (desync_counts r) ->
  (0 <= soft s <= K /\ 0 <= hard s <= K /\ 0 <= at_context_switch s <= K /\
   0 <= resync_insertions s <= K /\ 0 <= resync_deletions s <= K /\ 0 <= fast_forwards s <= K) ->
  stats_le K (<[t := s]> (desync_counts r)).
Proof. intros [HK Hc] Hs. split; [done|]. by apply map_Forall_insert_2. Qed.

(** The updates of one counter. *)
Definition counting (bp : profile) (f : DesyncStats -> outcome DesyncStats) : Prop :=
  f = count_hard bp \/ f = count_soft bp \/ f = count_at_switch bp \/ f = count_deletion bp \/
  f = count_fast_forward bp.
Lemma count_done bp f K t r :
  counting bp f -> stats_le K (desync_counts r) -> K + 1 < 2 ^ 64 ->
  exists c, count_ f t r = Done (set_counts c r) /\ stats_le (K + 1) c.
Proof.
  intros Hf HK Hlt. pose proof (stats_of_le K t r HK) as Hs. simpl in Hs.
  assert (HK' : stats_le (K + 1) (desync_counts r)) by (eapply stats_le_mono; [done|lia]).
  unfold count_. destruct Hf as [ -> |[ -> |[ -> |[ -> | -> ]]]];
    unfold count_hard, count_soft, count_at_switch, count_deletion, count_fast_forward;
    rewrite arith_u_exact by lia; cbn [mbind outcome_bind];
    (eexists; split; [reflexivity|]; apply put_stats_le; [done|]; simpl; lia).
Qed.
Lemma next_round_done bp K t b r :
  stats_le K (desync_counts r) -> K + 1 < 2 ^ 64 ->
  exists c, counts_next_round bp t b r = Done (set_counts c r) /\ stats_le (K + 1) c.
Proof.
  intros HK Hlt. pose proof (stats_of_le K t r HK) as Hs. simpl in Hs.
  assert (HK' : stats_le (K + 1) (desync_counts r)) by (eapply stats_le_mono; [done|lia]).
  unfold counts_next_round. destruct (negb b && last_was_desync (stats_of t r)).
  - rewrite arith_u_exact by lia. cbn [mbind outcome_bind].
    eexists. split; [reflexivity|]. apply put_stats_le; [done|]. simpl. lia.
  - cbn [mbind outcome_bind]. eexists. split; [reflexivity|]. apply put_stats_le; [done|]. simpl. lia.
Qed.

(** ** Background starts *)

Definition as_passed (at_ : ReplayPosition) (s : DetTid * Z * Z) : UntakenStart :=
  {| thread := s.1.1; call := s.1.2; after := s.2; passed_at := Some at_ |}.
Lemma pass_starts_done bp at_ l K r :
  stats_le K (desync_counts r) -> K + Z.of_nat (length l) < 2 ^ 64 ->
  exists c, pass_starts bp at_ l r = Done (set_passed (passed_starts r ++ (as_passed at_ <$> l)) (set_counts c r))
    /\ stats_le (K + Z.of_nat (length l)) c.
Proof.
  revert K r. induction l as [|[[t c0] a] l IH]; intros K r HK Hlt; cbn [pass_starts length fmap list_fmap] in *.
  - exists (desync_counts r). rewrite app_nil_r, Z.add_0_r. split; [by destruct r|done].
  - destruct (count_done bp (count_hard bp) K t r) as (c & E & Hc); [by left|done|lia|].
    unfold pass_start. rewrite E. cbn [mbind outcome_bind].
    destruct (IH (K + 1) (set_passed (passed_starts (set_counts c r) ++
        [{| thread := t; call := c0; after := a; passed_at := Some at_ |}]) (set_counts c r)))
      as (c' & E' & Hc'); [done|lia|].
    rewrite E'. exists c'. split.
    + f_equal. cbn. rewrite <- app_assoc. reflexivity.
    + eapply stats_le_mono; [exact Hc'|lia].
Qed.

(** What [due_starts] leaves follows the position, and nothing is lost. *)
Definition flat_starts (m : list (Z * list (DetTid * Z))) : list (DetTid * Z * Z) :=
  concat ((fun e : Z * list (DetTid * Z) => (fun tc => (tc.1, tc.2, e.1)) <$> e.2) <$> m).
Lemma due_starts_flat p m : flat_starts m = (due_starts p m).1 ++ flat_starts (due_starts p m).2.
Proof.
  induction m as [|[a l] m IH]; [done|]. simpl. destruct (Z.ltb_spec p a); [done|].
  destruct (due_starts p m) as [due rest]; simpl in *.
  unfold flat_starts in *. cbn. rewrite IH. by rewrite app_assoc.
Qed.
Lemma due_starts_keys p m :
  bt_ok m -> Forall (fun e => p < e.1) (due_starts p m).2 /\ Forall (fun s => s.2 <= p) (due_starts p m).1.
Proof.
  induction m as [|[a l] m IH]; simpl; [done|]. intros [Hm Ha]%bt_ok_cons.
  destruct (Z.ltb_spec p a); simpl.
  - split; [|done]. constructor; [done|]. eapply Forall_impl; [exact Ha|].
    intros kv Hk. cbn beta in *. apply (proj1 (klt_Z _ _)) in Hk. lia.
  - destruct (IH Hm) as [H1 H2]. destruct (due_starts p m) as [due rest]; simpl in *. split; [done|].
    apply Forall_app. split; [|done]. apply Forall_fmap, Forall_forall. intros tc _. simpl. lia.
Qed.
Lemma due_starts_sublist p m : (due_starts p m).2 `sublist_of` m.
Proof.
  induction m as [|[a l] m IH]; simpl; [done|]. destruct (p <? a); [done|].
  destruct (due_starts p m); simpl in *. by apply sublist_cons.
Qed.

Lemma retire_keys_done bp at_ hi m r K n :
  background_starts r = m -> bt_ok m ->
  stats_le K (desync_counts r) -> K + Z.of_nat (length (due_starts hi m).1) < 2 ^ 64 ->
  exists c, retire_keys bp at_ (List.filter (fun k => k <=? hi) m.*1) n r =
    Done ((n + length (due_starts hi m).1)%nat,
          set_background (due_starts hi m).2
            (set_passed (passed_starts r ++ (as_passed at_ <$> (due_starts hi m).1)) (set_counts c r)))
    /\ stats_le (K + Z.of_nat (length (due_starts hi m).1)) c.
Proof.
  revert r K n. induction m as [|[a l] m IH]; intros r K n Hr Hm HK Hlt.
  - simpl. exists (desync_counts r). rewrite app_nil_r, Nat.add_0_r, Z.add_0_r.
    split; [|done]. f_equal. f_equal. simpl in Hr. destruct r; simpl in *. by subst.
  - pose proof (proj1 (bt_ok_cons _ _ _) Hm) as [Hm' Ha]. cbn [fmap list_fmap List.filter fst].
    cbn [due_starts] in *. rewrite Z.leb_antisym. destruct (Z.ltb_spec hi a) as [Hlt'|Hge]; cbn [negb].
    + replace (List.filter _ (list_fmap _ _ fst m)) with (@nil Z).
      * cbn. exists (desync_counts r). rewrite app_nil_r, Nat.add_0_r, Z.add_0_r.
        split; [|done]. f_equal. f_equal. simpl in Hr. destruct r; simpl in *. by subst.
      * symmetry. change (list_fmap _ _ fst m) with (m.*1). clear -Ha Hlt'. induction Ha as [|[k v] m Hk Hm IH]; [done|].
        cbn beta in Hk. apply (proj1 (klt_Z _ _)) in Hk. simpl in *. by rewrite (proj2 (Z.leb_gt _ _)) by lia.
    + destruct (due_starts hi m) as [due rest] eqn:Ed; cbn [fst snd] in *.
      cbn [retire_keys]. rewrite Hr, bt_get_head, bt_remove_head. cbn [from_option id].
      rewrite length_app, length_fmap in Hlt.
      destruct (pass_starts_done bp at_ ((fun tc => (tc.1, tc.2, a)) <$> l) K (set_background m r))
        as (c & E & Hc); [done|rewrite length_fmap; lia|].
      rewrite E. cbn [mbind outcome_bind]. rewrite length_fmap in Hc.
      destruct (IH (set_passed (passed_starts (set_background m r) ++
          (as_passed at_ <$> ((fun tc => (tc.1, tc.2, a)) <$> l))) (set_counts c (set_background m r)))
          (K + Z.of_nat (length l)) (n + length l)%nat) as (c' & E' & Hc'); [done|done|done|lia|].
      change (list_fmap _ _ fst m) with (m.*1). rewrite E'. exists c'. split.
      * f_equal. rewrite length_app, length_fmap, fmap_app. cbn. rewrite <- app_assoc, Nat.add_assoc. reflexivity.
      * eapply stats_le_mono; [exact Hc'|]. rewrite length_app, length_fmap. lia.
Qed.

(** ** The invariant *)

(** The position in the recording, as a number. *)
Definition pos (r : Replayer) : Z := events_popped r + skipped r.

(** Every start that was not taken, in order: passed, due, not yet due. *)
Definition all_left (r : Replayer) : list (DetTid * Z * Z) :=
  ((fun u => (thread u, call u, after u)) <$> passed_starts r) ++ pending_starts r ++
  flat_starts (background_starts r).

Definition placed (sched : list SchedEvent) (r : Replayer) : Prop :=
  match release r with
  | None => inner_data (cursor r) = drop (Z.to_nat (pos r)) sched /\ pos r <= Z.of_nat (length sched) /\
            0 <= unmatched_run r < UNMATCHED_EVENTS_BEFORE_RELEASE
  | Some rel => inner_data (cursor r) = [] /\ pos r + Z.of_nat (unreplayed rel) = Z.of_nat (length sched)
  end.

(** The starts not yet due: an ordered map without empty entries. *)
Definition waiting_ok (m : list (Z * list (DetTid * Z))) : Prop := bt_ok m /\ Forall (fun e => e.2 <> []) m.
Lemma waiting_sublist m1 m2 : m1 `sublist_of` m2 -> waiting_ok m2 -> waiting_ok m1.
Proof.
  intros Hs [H1 H2]. split; [by eapply bt_ok_sublist|]. apply Forall_forall. intros e He.
  apply (proj1 (Forall_forall _ _) H2). by eapply elem_of_sublist.
Qed.

Record inv (sched : list SchedEvent) (n K S : Z) (r : Replayer) : Prop := {
  inv_len : schedule_len r = Z.of_nat (length sched);
  inv_pos : 0 <= events_popped r /\ 0 <= skipped r;
  inv_place : placed sched r;
  inv_traced : 0 <= observed_non_polling r <= traced_event_count r /\ traced_event_count r <= n;
  inv_exhausted : forall f, exhausted_from r = Some f ->
    0 <= f < traced_event_count r /\ inner_data (cursor r) = [] /\ release r = None;
  inv_stats : stats_le (K + Z.of_nat (length (passed_starts r))) (desync_counts r);
  inv_background : waiting_ok (background_starts r) /\ Forall (fun e => pos r < e.1) (background_starts r);
  inv_due : Forall (fun s => s.2 <= pos r) (pending_starts r) /\
            Forall (fun u => after u <= pos r) (passed_starts r);
  inv_left : Z.of_nat (length (all_left r)) <= S;
}.

(** Room for one more operation: it numbers one event and makes at most five
    counts of its own. *)
Definition room (sched : list SchedEvent) (n K S : Z) : Prop :=
  Z.of_nat (length sched) < 2 ^ 64 /\ n + 1 < 2 ^ 64 /\ K + 5 + S < 2 ^ 64.

Lemma length_all_left r :
  length (all_left r) = (length (passed_starts r) + length (pending_starts r) +
                         length (flat_starts (background_starts r)))%nat.
Proof. unfold all_left. rewrite !length_app, length_fmap. lia. Qed.

Lemma pos_bound sched n K S r : inv sched n K S r -> 0 <= pos r <= Z.of_nat (length sched).
Proof.
  intros [_ [H1 H2] Hp _ _ _ _ _ _]. unfold placed, pos in *.
  destruct (release r); [|lia]. lia.
Qed.
Lemma position_done bp sched n K S r :
  inv sched n K S r -> room sched n K S -> record_position bp r = Done (pos r).
Proof.
  intros Hi [Hs _]. pose proof (pos_bound _ _ _ _ _ Hi). unfold record_position.
  by rewrite arith_u_exact by (unfold pos in *; lia).
Qed.
Lemma cursor_len sched n K S r :
  inv sched n K S r -> release r = None ->
  Z.of_nat (length (inner_data (cursor r))) = Z.of_nat (length sched) - pos r.
Proof.
  intros Hi E. pose proof (pos_bound _ _ _ _ _ Hi). pose proof (inv_place _ _ _ _ _ Hi) as Hp.
  unfold placed in Hp. rewrite E in Hp. destruct Hp as [-> _]. rewrite length_drop. lia.
Qed.
Lemma cursor_unreleased sched n K S r :
  inv sched n K S r -> inner_data (cursor r) <> [] -> release r = None.
Proof.
  intros Hi Hc. pose proof (inv_place _ _ _ _ _ Hi) as Hp. unfold placed in Hp.
  destruct (release r); [by destruct Hp|done].
Qed.

(** ** Numbering an event and passing the due starts *)

Lemma note_in_flight obs r : exists m, note_syscall_in_flight obs r = set_in_flight m r.
Proof.
  unfold note_syscall_in_flight. destruct (op obs) as [| | |s []| |]; try (eexists; reflexivity);
    exists (syscalls_in_flight r); by destruct r.
Qed.
Lemma set_exhausted_id r : set_exhausted_from (exhausted_from r) r = r.
Proof. by destruct r. Qed.

Definition exhausted_then (r : Replayer) : option Z :=
  if is_empty (cursor r) && bool_decide (exhausted_from r = None) && negb (released r)
  then Some (traced_event_count r) else exhausted_from r.
Definition non_polling (obs : SchedEvent) : Z := if is_polling obs then 0 else 1.

(** The state after the first part, up to counters the proofs only bound. *)
Definition begun (obs : SchedEvent) c m (r : Replayer) : Replayer :=
  set_passed (passed_starts r ++ (as_passed {| pos_event := traced_event_count r; pos_record_event := pos r |}
                <$> pending_starts r))
    (set_counts c (set_pending [] (set_exhausted_from (exhausted_then r)
      (set_last_consumed None (set_in_flight m
        (set_non_polling (observed_non_polling r + non_polling obs)
          (set_traced (traced_event_count r + 1) r))))))).

Lemma begin_done bp sched n K S r obs :
  inv sched n K S r -> room sched n K S ->
  exists c m, begin_event bp obs r = Done (negb (bool_decide (pending_starts r = [])), begun obs c m r) /\
    stats_le (K + Z.of_nat (length (passed_starts r) + length (pending_starts r))) c.
Proof.
  intros Hi Hroom. pose proof Hi as [_ _ _ [Hnp Ht] _ Hst _ _ HS]. pose proof Hroom as (Hlen & Hn & HK).
  pose proof (length_all_left r) as Hall.
  unfold begin_event. rewrite arith_u_exact by lia. cbn [mbind outcome_bind].
  assert ((if is_polling obs then Done (observed_non_polling (set_traced (traced_event_count r + 1) r))
           else arith_u bp 64 (observed_non_polling (set_traced (traced_event_count r + 1) r) + 1))
          = Done (observed_non_polling r + non_polling obs)) as ->.
  { unfold non_polling. destruct (is_polling obs); cbn; [f_equal; lia|]. rewrite arith_u_exact by lia. done. }
  cbn [mbind outcome_bind].
  destruct (note_in_flight obs (set_non_polling (observed_non_polling r + non_polling obs)
             (set_traced (traced_event_count r + 1) r))) as [m ->].
  set (r0 := set_last_consumed None _).
  assert ((if is_empty (cursor r0) && bool_decide (exhausted_from r0 = None) && negb (released r0)
           then set_exhausted_from (Some (traced_event_count r)) r0 else r0)
          = set_exhausted_from (exhausted_then r) r0) as ->.
  { unfold exhausted_then. subst r0. cbn [cursor exhausted_from release released set_last_consumed
      set_in_flight set_non_polling set_traced]. unfold released. cbn [release].
    destruct (_ && _ && _); [done|]. by destruct r. }
  change (record_position bp _) with (record_position bp r).
  rewrite (position_done bp sched n K S r Hi Hroom). cbn [mbind outcome_bind].
  destruct (pass_starts_done bp {| pos_event := traced_event_count r; pos_record_event := pos r |}
    (pending_starts r) (K + Z.of_nat (length (passed_starts r)))
    (set_pending [] (set_exhausted_from (exhausted_then r) r0))) as (c & E & Hc); [done|lia|].
  change (pending_starts (set_exhausted_from (exhausted_then r) r0)) with (pending_starts r).
  rewrite E. cbn [mbind outcome_bind]. exists c, m. split; [reflexivity|].
  eapply stats_le_mono; [exact Hc|lia].
Qed.

Lemma thread_as_passed at_ (l : list (DetTid * Z * Z)) :
  (fun u => (thread u, call u, after u)) <$> (as_passed at_ <$> l) = l.
Proof. rewrite <- list_fmap_compose. rewrite <- (list_fmap_id l) at 2. apply list_fmap_ext. by intros ? [[??]?]. Qed.

Lemma begun_inv sched n K S r obs c m :
  inv sched n K S r ->
  stats_le (K + Z.of_nat (length (passed_starts r) + length (pending_starts r))) c ->
  inv sched (n + 1) K S (begun obs c m r) /\ all_left (begun obs c m r) = all_left r.
Proof.
  intros [Hl Hp Hpl Ht He Hst Hb [Hd1 Hd2] HS] Hc.
  assert (Hall : all_left (begun obs c m r) = all_left r).
  { unfold all_left, begun. cbn. by rewrite fmap_app, thread_as_passed, <- app_assoc. }
  split; [|done]. split; try done; cbn.
  - unfold non_polling. destruct (is_polling obs); lia.
  - intros f. unfold exhausted_then. destruct (is_empty (cursor r)) eqn:E1; cbn.
    + unfold is_empty in E1. destruct (inner_data (cursor r)) eqn:E2; [|done].
      destruct (bool_decide _); cbn.
      * unfold released. destruct (release r) eqn:E3; cbn.
        -- intros Hf. destruct (He f Hf) as (_ & _ & ?). congruence.
        -- intros [= <-]. split; [lia|done].
      * intros Hf. destruct (He f Hf) as (? & _ & ?). split; [lia|done].
    + intros Hf. destruct (He f Hf) as (? & Hx & _). unfold is_empty in E1. by rewrite Hx in E1.
  - by rewrite length_app, length_fmap.
  - split; [done|]. apply Forall_app. split; [done|]. by apply Forall_fmap.
  - change (Z.of_nat (length (all_left (begun obs c m r))) <= S). by rewrite Hall.
Qed.

(** ** Judging the event against the head *)

Lemma inv_counts sched n K K' S c r :
  inv sched n K S r -> stats_le (K' + Z.of_nat (length (passed_starts r))) c ->
  inv sched n K' S (set_counts c r).
Proof. intros [Hl Hp Hpl Ht He Hst Hb Hd HS] Hc. by split. Qed.
Lemma inv_first sched n K S fd r : inv sched n K S r -> inv sched n K S (set_first_desync fd r).
Proof. intros [Hl Hp Hpl Ht He Hst Hb Hd HS]. by split. Qed.
Lemma inv_stats_room sched n K S r :
  inv sched n K S r -> K + 1 + S < 2 ^ 64 ->
  stats_le (K + Z.of_nat (length (passed_starts r))) (desync_counts r) /\
  K + Z.of_nat (length (passed_starts r)) + 1 < 2 ^ 64.
Proof. intros Hi HK. pose proof (inv_left _ _ _ _ _ Hi). rewrite length_all_left in *. split; [apply Hi|lia]. Qed.

Lemma counted bp f t sched n K S r :
  counting bp f -> inv sched n K S r -> K + 1 + S < 2 ^ 64 ->
  exists c, count_ f t r = Done (set_counts c r) /\ inv sched n (K + 1) S (set_counts c r).
Proof.
  intros Hf Hi HK. destruct (inv_stats_room _ _ _ _ _ Hi HK) as [Hs Hlt].
  destruct (count_done bp f _ t r Hf Hs Hlt) as (c & E & Hc). exists c. split; [done|].
  eapply inv_counts; [done|]. eapply stats_le_mono; [done|lia].
Qed.

Definition judged (die : bool) (obs e : SchedEvent) : ReplayAction + bool :=
  if is_desync obs e && is_hard_desync obs e
  then if die then inl (Stop FatalDesync) else inr true else inr false.

Lemma inv_weaken sched n K K' S r : inv sched n K S r -> K <= K' -> inv sched n K' S r.
Proof.
  intros [Hl Hp Hpl Ht He Hst Hb Hd HS] HK. split; try done. eapply stats_le_mono; [done|lia].
Qed.

Lemma judge_done bp ix sched n K S r obs e :
  inv sched n K S r -> Z.of_nat (length sched) < 2 ^ 64 -> K + 1 + S < 2 ^ 64 ->
  exists c fd, judge_event bp ix obs e r =
    Done (judged (die_on_desync r) obs e, set_counts c (set_first_desync fd r)) /\
    inv sched n (K + 1) S (set_counts c (set_first_desync fd r)).
Proof.
  intros Hi Hlen HK. unfold judge_event, judged. destruct (is_desync obs e); cbn [andb].
  2:{ exists (desync_counts r), (first_desync r).
      replace (set_counts _ _) with r by (by destruct r). split; [done|]. eapply inv_weaken; [done|lia]. }
  assert (exists fd, (match first_desync r with
    | Some _ => Done r
    | None => position ← record_position bp r;
        Done (set_first_desync (Some {| fd_event := ix; record_event := position;
          fd_observed := dettid obs; fd_expected := dettid e; fd_hard := is_hard_desync obs e |}) r)
    end) = Done (set_first_desync fd r)) as [fd ->].
  { destruct (first_desync r) eqn:E.
    - exists (first_desync r). by destruct r.
    - pose proof (pos_bound _ _ _ _ _ Hi). unfold record_position.
      rewrite arith_u_exact by (unfold pos in *; lia). by eexists. }
  cbn [mbind outcome_bind]. set (r1 := set_first_desync fd r).
  assert (Hi1 : inv sched n K S r1) by (by apply inv_first).
  destruct (is_hard_desync obs e).
  - change (die_on_desync r1) with (die_on_desync r). destruct (die_on_desync r).
    + exists (<[dettid obs := stats_of (dettid obs) r1]> (desync_counts r1)), fd. split; [reflexivity|].
      eapply (inv_weaken _ _ K); [|lia]. eapply inv_counts; [done|].
      pose proof (inv_stats _ _ _ _ _ Hi1) as Hs. apply put_stats_le; [done|]. by apply stats_of_le.
    + destruct (counted bp (count_hard bp) (dettid obs) sched n K S r1) as (c & -> & Hc);
        [by left|done|done|]. by exists c, fd.
  - destruct (counted bp (count_soft bp) (dettid obs) sched n K S r1) as (c & -> & Hc);
      [by right; left|done|done|]. by exists c, fd.
Qed.

Lemma round_done bp t b sched n K S r :
  inv sched n K S r -> K + 1 + S < 2 ^ 64 ->
  exists c, counts_next_round bp t b r = Done (set_counts c r) /\ inv sched n (K + 1) S (set_counts c r).
Proof.
  intros Hi HK. destruct (inv_stats_room _ _ _ _ _ Hi HK) as [Hs Hlt].
  destruct (next_round_done bp _ t b r Hs Hlt) as (c & E & Hc). exists c. split; [done|].
  eapply inv_counts; [done|]. eapply stats_le_mono; [done|lia].
Qed.

(** ** Dropping recorded events to resynchronize *)

(** The state after [ix] recorded events were dropped at observed event [at_]. *)
Definition skipped_to (ix : nat) (at_ : ReplayPosition) c (r : Replayer) : Replayer :=
  let p := pos r + Z.of_nat ix in
  set_skipped (skipped r + Z.of_nat ix)
    (set_background (due_starts p (background_starts r)).2
      (set_passed (passed_starts r ++ (as_passed at_ <$> (due_starts p (background_starts r)).1))
        (set_counts c (set_cursor (drop_ (cursor r) ix) r)))).

Lemma skipped_to_inv sched n K S r ix at_ c :
  inv sched n K S r -> pending_starts r = [] -> (ix < length (inner_data (cursor r)))%nat ->
  stats_le (K + Z.of_nat (length (passed_starts r) +
              length (due_starts (pos r + Z.of_nat ix) (background_starts r)).1)) c ->
  inv sched n K S (skipped_to ix at_ c r) /\ all_left (skipped_to ix at_ c r) = all_left r.
Proof.
  intros Hi Hpend Hix Hc. pose proof (pos_bound _ _ _ _ _ Hi) as Hpb.
  assert (Hrel : release r = None).
  { eapply cursor_unreleased; [done|]. intros E. rewrite E in Hix. simpl in Hix. lia. }
  pose proof (cursor_len _ _ _ _ _ Hi Hrel) as Hcl.
  destruct Hi as [Hl Hp Hpl Ht He Hst [Hb1 Hb2] [Hd1 Hd2] HS].
  assert (Hall : all_left (skipped_to ix at_ c r) = all_left r).
  { unfold all_left, skipped_to. cbn. rewrite fmap_app, thread_as_passed, Hpend.
    rewrite (due_starts_flat (pos r + Z.of_nat ix) (background_starts r)). by rewrite <- app_assoc. }
  assert (Hpos : pos (skipped_to ix at_ c r) = pos r + Z.of_nat ix) by (unfold pos, skipped_to; cbn; lia).
  destruct (due_starts_keys (pos r + Z.of_nat ix) (background_starts r) (proj1 Hb1)) as [Hk1 Hk2].
  split; [|done]. split; try done.
  - cbn. lia.
  - unfold placed in *. change (release (skipped_to ix at_ c r)) with (release r). rewrite Hrel in *.
    rewrite Hpos. change (cursor (skipped_to ix at_ c r)) with (drop_ (cursor r) ix).
    rewrite drop_data. destruct Hpl as (-> & ? & ?). split; [|split; [lia|done]].
    rewrite drop_drop. f_equal. lia.
  - intros f Hf. change (exhausted_from r = Some f) in Hf. destruct (He f Hf) as (_ & Hx & _).
    rewrite Hx in Hix. simpl in Hix. lia.
  - cbn. by rewrite length_app, length_fmap.
  - rewrite Hpos. cbn. split; [|done]. eapply waiting_sublist; [apply due_starts_sublist|done].
  - rewrite Hpos. cbn. rewrite Hpend. split; [done|]. apply Forall_app. split.
    + eapply Forall_impl; [exact Hd2|]. intros u Hu. cbn beta in *. lia.
    + by apply Forall_fmap.
  - by rewrite Hall.
Qed.

Lemma retire_done bp sched n K S r ix ev :
  inv sched n K S r -> Z.of_nat (length sched) < 2 ^ 64 -> K + S < 2 ^ 64 -> pending_starts r = [] ->
  (0 < ix < length (inner_data (cursor r)))%nat ->
  exists c, retire_skipped_starts bp (Z.of_nat ix) ev (set_cursor (drop_ (cursor r) ix) r) =
    Done (length (due_starts (pos r + Z.of_nat ix) (background_starts r)).1,
          skipped_to ix {| pos_event := ev; pos_record_event := pos r |} c r) /\
    stats_le (K + Z.of_nat (length (passed_starts r) +
              length (due_starts (pos r + Z.of_nat ix) (background_starts r)).1)) c.
Proof.
  intros Hi Hlen HK Hpend Hix. pose proof (pos_bound _ _ _ _ _ Hi) as Hpb.
  assert (Hrel : release r = None).
  { eapply cursor_unreleased; [done|]. intros E. rewrite E in Hix. simpl in Hix. lia. }
  pose proof (cursor_len _ _ _ _ _ Hi Hrel) as Hcl.
  destruct Hi as [Hl Hp Hpl Ht He Hst [Hb1 Hb2] [Hd1 Hd2] HS].
  rewrite length_all_left, (due_starts_flat (pos r + Z.of_nat ix)), length_app in HS.
  unfold retire_skipped_starts.
  change (record_position bp _) with (record_position bp r). unfold record_position.
  rewrite arith_u_exact by (unfold pos in *; lia). cbn [mbind outcome_bind]. change (events_popped r + skipped r) with (pos r).
  rewrite !arith_u_exact by lia. cbn [mbind outcome_bind].
  rewrite (proj2 (Z.ltb_ge _ _)) by lia. cbn [mbind outcome_bind].
  change (background_starts (set_cursor _ r)) with (background_starts r).
  assert (List.filter (fun k => (pos r + 1 <=? k) && (k <=? pos r + Z.of_nat ix)) ((background_starts r).*1)
          = List.filter (fun k => k <=? pos r + Z.of_nat ix) ((background_starts r).*1)) as ->.
  { clear -Hb2. induction Hb2 as [|[k v] m Hk _ IH]; [done|]. cbn [fst] in Hk.
    cbn [fmap list_fmap List.filter fst]. rewrite (proj2 (Z.leb_le (pos r + 1) k)) by lia. cbn [andb].
    change (list_fmap _ _ fst m) with (m.*1). by rewrite IH. }
  destruct (retire_keys_done bp {| pos_event := ev; pos_record_event := pos r |} (pos r + Z.of_nat ix)
    (background_starts r) (set_cursor (drop_ (cursor r) ix) r) (K + Z.of_nat (length (passed_starts r))) 0)
    as (c & -> & Hc); [done|apply Hb1|done|lia|].
  cbn [mbind outcome_bind]. change (skipped (set_background _ _)) with (skipped r).
  rewrite arith_u_exact by (unfold pos in *; lia). cbn [mbind outcome_bind]. exists c.
  split; [reflexivity|]. eapply stats_le_mono; [done|lia].
Qed.
