(* ===== verification/ReplayerSteps.v ===== *)
(** * One observed event, as a step

    [verdict_of] says in a few lines what an observed event means to a replay:
    fatal, past the end, consuming a recorded event (after dropping some), or
    unmatched.  [observe_done] is the theorem that [observe_event] implements
    it, keeps the invariant, and never panics. *)
From Stdlib Require Import ZArith Lia List Sorting.Sorted.
From stdpp Require Import base gmap list.
From S2P Require Import Prelude BTree Time Schedule ReplayCursor Replayer ReplayerInv.
Import Schedule ReplayCursor Replayer.
Open Scope Z_scope.

(** ** Resynchronizing *)

Lemma prefix_after_desync c obs e l ix :
  inner_data c = e :: l -> is_desync obs e = true ->
  prefix_contains c LOOKAHEAD_WINDOW (events_match obs) = Some ix ->
  (0 < ix < length (inner_data c))%nat.
Proof.
  intros Hc Hd (_ & v & Hv & Hm & _)%prefix_contains_Some. split.
  - destruct ix; [|lia]. rewrite Hc in Hv. injection Hv as <-. unfold events_match in Hm. by rewrite Hd in Hm.
  - by eapply lookup_lt_Some.
Qed.

Lemma resync_found bp ev sched n K S r obs e l ix in_hard :
  inv sched n K S r -> Z.of_nat (length sched) < 2 ^ 64 -> K + 2 + S < 2 ^ 64 ->
  pending_starts r = [] -> inner_data (cursor r) = e :: l -> is_desync obs e = true ->
  prefix_contains (cursor r) LOOKAHEAD_WINDOW (events_match obs) = Some ix ->
  exists c, let due := (due_starts (pos r + Z.of_nat ix) (background_starts r)).1 in
    let r' := skipped_to ix {| pos_event := ev; pos_record_event := pos r |} c r in
    resync_event bp ev obs true in_hard r =
      Done (if (0 <? length due)%nat && die_on_desync r then inl (Stop FatalDesync) else inr false, r') /\
    inv sched n (K + 2) S r' /\ all_left r' = all_left r.
Proof.
  intros Hi Hlen HK Hpend Hc Hd Hf. pose proof (prefix_after_desync _ _ _ _ _ Hc Hd Hf) as Hix.
  destruct (inv_stats_room sched n K S r Hi ltac:(lia)) as [Hs Hlt].
  unfold resync_event, check_fast_forward. rewrite Hf.
  destruct (count_done bp (count_fast_forward bp) _ (dettid obs) r ltac:(unfold counting; auto) Hs Hlt)
    as (c1 & -> & Hc1). cbn [mbind outcome_bind].
  assert (debug_assert_ bp (0 <? ix)%nat = Done tt) as ->.
  { rewrite (proj2 (Nat.ltb_lt _ _)) by lia. unfold debug_assert_. by destruct (debug_assertions bp). }
  cbn [mbind outcome_bind].
  destruct (count_done bp (count_deletion bp) _ (dettid obs)
    (set_cursor (drop_ (cursor (set_counts c1 r)) ix) (set_counts c1 r)) ltac:(unfold counting; auto) Hc1)
    as (c2 & -> & Hc2).
  { pose proof (inv_left _ _ _ _ _ Hi). rewrite length_all_left in *. lia. }
  cbn [mbind outcome_bind].
  assert (Hi2 : inv sched n (K + 2) S (set_counts c2 r)).
  { eapply inv_counts; [done|]. eapply stats_le_mono; [done|lia]. }
  destruct (retire_done bp sched n (K + 2) S (set_counts c2 r) ix ev Hi2 Hlen ltac:(lia) Hpend Hix)
    as (c & E & Hst).
  change (set_counts c2 _) with (set_cursor (drop_ (cursor (set_counts c2 r)) ix) (set_counts c2 r)).
  rewrite E. cbn [mbind outcome_bind]. exists c.
  destruct (skipped_to_inv sched n (K + 2) S (set_counts c2 r) ix
    {| pos_event := ev; pos_record_event := pos r |} c Hi2 Hpend ltac:(cbn; lia) Hst) as [Hi' Hall].
  split; [|split; [exact Hi'|exact Hall]].
  change (due_starts (pos (set_counts c2 r) + Z.of_nat ix) (background_starts (set_counts c2 r)))
    with (due_starts (pos r + Z.of_nat ix) (background_starts r)).
  change (die_on_desync (skipped_to _ _ _ _)) with (die_on_desync r).
  by destruct (_ && _).
Qed.
Lemma resync_none bp ev r obs b in_hard :
  b = false \/ prefix_contains (cursor r) LOOKAHEAD_WINDOW (events_match obs) = None ->
  resync_event bp ev obs b in_hard r = Done (inr in_hard, r).
Proof. unfold resync_event, check_fast_forward. intros [-> | ->]; [done|]. by destruct b. Qed.

(** ** Consuming the head *)

Definition consumed (r : Replayer) : Replayer :=
  set_unmatched_run 0
    (set_background (due_starts (pos r + 1) (background_starts r)).2
      (set_pending (pending_starts r ++ (due_starts (pos r + 1) (background_starts r)).1)
        (set_cursor (drop_ (cursor r) 1)
          (set_popped (events_popped r + 1) (set_last_consumed (Some (pos r)) r))))).

Lemma consumed_inv sched n K S r :
  inv sched n K S r -> pending_starts r = [] -> inner_data (cursor r) <> [] ->
  inv sched n K S (consumed r) /\ all_left (consumed r) = all_left r.
Proof.
  intros Hi Hpend Hne. pose proof (pos_bound _ _ _ _ _ Hi) as Hpb.
  pose proof (cursor_unreleased _ _ _ _ _ Hi Hne) as Hrel.
  pose proof (cursor_len _ _ _ _ _ Hi Hrel) as Hcl.
  destruct Hi as [Hl Hp Hpl Ht He Hst [Hb1 Hb2] [Hd1 Hd2] HS].
  assert (Hall : all_left (consumed r) = all_left r).
  { unfold all_left, consumed. cbn. rewrite Hpend. cbn.
    by rewrite (due_starts_flat (pos r + 1) (background_starts r)). }
  assert (Hpos : pos (consumed r) = pos r + 1) by (unfold pos, consumed; cbn; lia).
  destruct (due_starts_keys (pos r + 1) (background_starts r) (proj1 Hb1)) as [Hk1 Hk2].
  assert (0 < length (inner_data (cursor r)))%nat by (destruct (inner_data (cursor r)); [done|simpl; lia]).
  split; [|done]. split; try done.
  - cbn. lia.
  - unfold placed in *. change (release (consumed r)) with (release r). rewrite Hrel in *. rewrite Hpos.
    change (cursor (consumed r)) with (drop_ (cursor r) 1). rewrite drop_data.
    destruct Hpl as (-> & ? & ?). split; [|split; [lia|cbn; unfold UNMATCHED_EVENTS_BEFORE_RELEASE; lia]].
    rewrite drop_drop. f_equal. lia.
  - intros f Hf. change (exhausted_from r = Some f) in Hf. by destruct (He f Hf) as (_ & Hx & _).
  - rewrite Hpos. cbn. split; [|done]. eapply waiting_sublist; [apply due_starts_sublist|done].
  - rewrite Hpos. cbn. rewrite Hpend. split; [done|].
    eapply Forall_impl; [exact Hd2|]. intros u Hu. cbn beta in *. lia.
  - by rewrite Hall.
Qed.

Lemma pop_done bp sched n K S r :
  inv sched n K S r -> Z.of_nat (length sched) < 2 ^ 64 -> inner_data (cursor r) <> [] ->
  arith_u bp 64 (schedule_len r - Z.of_nat (len (cursor r))) = Done (pos r) /\
  exists o r1, pop_next bp (set_last_consumed (Some (pos r)) r) = Done (o, r1) /\
    set_unmatched_run 0 r1 = consumed r.
Proof.
  intros Hi Hlen Hne. pose proof (pos_bound _ _ _ _ _ Hi) as Hpb.
  pose proof (cursor_unreleased _ _ _ _ _ Hi Hne) as Hrel.
  pose proof (cursor_len _ _ _ _ _ Hi Hrel) as Hcl. rewrite (inv_len _ _ _ _ _ Hi).
  assert (0 < length (inner_data (cursor r)))%nat by (destruct (inner_data (cursor r)); [done|simpl; lia]).
  unfold len. split; [rewrite arith_u_exact by lia; f_equal; lia|].
  unfold pop_next. change (events_popped (set_last_consumed _ r)) with (events_popped r).
  pose proof (inv_pos _ _ _ _ _ Hi). rewrite arith_u_exact by (unfold pos in *; lia). cbn [mbind outcome_bind].
  change (cursor (set_last_consumed _ r)) with (cursor r). unfold next.
  destruct (inner_data (cursor r)) as [|x l] eqn:Ec; [done|].
  replace {| inner_data := l |} with (drop_ (cursor r) 1).
  2:{ unfold drop_. rewrite Ec. done. }
  unfold queue_background_starts, record_position. cbn [events_popped skipped set_cursor set_popped set_last_consumed].
  rewrite arith_u_exact by (unfold pos in *; lia). cbn [mbind outcome_bind].
  replace (events_popped r + 1 + skipped r) with (pos r + 1) by (unfold pos; lia).
  change (background_starts (set_cursor _ _)) with (background_starts r).
  unfold consumed. destruct (due_starts (pos r + 1) (background_starts r)) as [due rest] eqn:Ed. cbn [fst snd].
  do 2 eexists. split; reflexivity.
Qed.

(** ** Settling the event *)

Definition next_decision (r : Replayer) (obs : SchedEvent) (popped : bool) : ReplayAction :=
  match next_slice_end r with
  | Some (t, e) =>
      if negb (t =? dettid obs)
      then ContextSwitch (negb (is_prehook obs || is_terminal_posthook obs)) t (with_a_stop <$> e)
      else Continue (if popped then e else with_a_stop <$> e)
  | None => Continue None
  end.
Lemma context_switch_done r obs popped :
  is_Some (end_time obs) -> check_context_switch r obs popped = Done (next_decision r obs popped).
Proof.
  intros [t Ht]. unfold check_context_switch, next_decision. rewrite Ht. cbn [mbind outcome_bind expect].
  destruct (next_slice_end r) as [[u e]|]; [|done]. destruct (negb _); [done|]. by destruct popped.
Qed.

Lemma settle_consumes bp np sched n K S r obs :
  inv sched n K S r -> Z.of_nat (length sched) < 2 ^ 64 -> inner_data (cursor r) <> [] ->
  is_Some (end_time obs) ->
  settle_event bp np obs false r = Done (next_decision (consumed r) obs true, consumed r).
Proof.
  intros Hi Hlen Hne Ht. destruct (pop_done bp _ _ _ _ _ Hi Hlen Hne) as (E & o & r1 & E1 & E2).
  unfold settle_event. rewrite E. cbn [mbind outcome_bind]. rewrite E1. cbn [mbind outcome_bind].
  rewrite E2. cbn [mbind outcome_bind]. cbn [negb]. rewrite (context_switch_done _ _ _ Ht). cbn [mbind outcome_bind].
  by destruct (next_decision _ _ _).
Qed.

(** An unmatched event: it is counted unless it is a polling retry, and the
    last of a long run releases the schedule. *)
Definition releases (obs : SchedEvent) (r : Replayer) : bool :=
  negb (is_polling obs) && (UNMATCHED_EVENTS_BEFORE_RELEASE <=? unmatched_run r + 1).
Definition released_state (np : Z) (r : Replayer) : Replayer :=
  set_release (Some {| event := np; unreplayed := len (cursor r) |})
    (set_cursor (from_iter []) (set_unmatched_run (unmatched_run r + 1) r)).
Definition unmatched_state (obs : SchedEvent) c (r : Replayer) : Replayer :=
  set_counts c (set_unmatched_run (unmatched_run r + non_polling obs) r).

Lemma settle_unmatched bp np sched n K S r obs :
  inv sched n K S r -> K + 1 + S < 2 ^ 64 -> inner_data (cursor r) <> [] -> is_Some (end_time obs) ->
  if releases obs r then
    settle_event bp np obs true r =
      Done (if replay_exhausted_panic r then Stop ReplayExausted else Continue None, released_state np r) /\
    inv sched n K S (released_state np r)
  else exists c,
    settle_event bp np obs true r = Done (next_decision r obs false, unmatched_state obs c r) /\
    inv sched n (K + 1) S (unmatched_state obs c r).
Proof.
  intros Hi HK Hne Ht. pose proof (cursor_unreleased _ _ _ _ _ Hi Hne) as Hrel.
  pose proof (inv_place _ _ _ _ _ Hi) as Hpl. unfold placed in Hpl. rewrite Hrel in Hpl.
  unfold UNMATCHED_EVENTS_BEFORE_RELEASE in Hpl. destruct Hpl as (Hcur & Hple & Hrun).
  pose proof (cursor_len _ _ _ _ _ Hi Hrel) as Hcl.
  assert (Hfin : forall u, 0 <= u < UNMATCHED_EVENTS_BEFORE_RELEASE -> exists c,
    (action ← check_context_switch (set_unmatched_run u r) obs (negb true);
     match action with
     | ContextSwitch _ _ _ =>
         if true then r0 ← count_ (count_at_switch bp) (dettid obs) (set_unmatched_run u r); Done (action, r0)
         else Done (action, set_unmatched_run u r)
     | _ => Done (action, set_unmatched_run u r)
     end) = Done (next_decision r obs false, set_counts c (set_unmatched_run u r)) /\
    inv sched n (K + 1) S (set_counts c (set_unmatched_run u r))).
  { intros u Hu. assert (Hi1 : inv sched n K S (set_unmatched_run u r)).
    { destruct Hi as [Hl Hp Hpl Hn He Hst Hb Hd HS]. split; try done.
      unfold placed in *. cbn. rewrite Hrel in *. by split; [|split]. }
    rewrite (context_switch_done _ _ _ Ht). cbn [mbind outcome_bind].
    change (next_decision (set_unmatched_run u r) obs (negb true)) with (next_decision r obs false).
    destruct (next_decision r obs false).
    1,2: exists (desync_counts r); split; [reflexivity|]; by apply (inv_weaken _ _ K); [|lia].
    destruct (counted bp (count_at_switch bp) (dettid obs) sched n K S (set_unmatched_run u r))
      as (c & -> & Hc); [unfold counting; auto|done|done|]. by exists c. }
  unfold settle_event, releases, unmatched_state, non_polling. destruct (is_polling obs); cbn [negb andb].
  - destruct (Hfin (unmatched_run r)) as (c & E & Hc); [done|]. exists c.
    assert (Hid : set_unmatched_run (unmatched_run r) r = r) by (by destruct r).
    rewrite Z.add_0_r. rewrite Hid in *. by split.
  - rewrite arith_u_exact by lia. cbn [mbind outcome_bind].
    destruct (Z.leb_spec UNMATCHED_EVENTS_BEFORE_RELEASE (unmatched_run r + 1)).
    + split; [reflexivity|]. destruct Hi as [Hl Hp Hpl Hn He Hst Hb Hd HS]. split; try done.
      * unfold placed. cbn. split; [done|]. change (pos (released_state np r)) with (pos r). unfold len. lia.
      * intros f Hf. change (exhausted_from r = Some f) in Hf. by destruct (He f Hf) as (_ & Hx & _).
    + destruct (Hfin (unmatched_run r + 1)) as (c & E & Hc); [lia|]. by exists c.
Qed.

(** ** The whole step *)

Inductive verdict :=
  | Fatal
  | PastEnd
  | Consumes (dropped : nat)
  | Unmatched.

Definition verdict_of (r : Replayer) (obs : SchedEvent) : verdict :=
  if negb (bool_decide (pending_starts r = [])) && die_on_desync r then Fatal
  else match inner_data (cursor r) with
  | [] => PastEnd
  | e :: _ =>
      if negb (is_desync obs e) then Consumes 0
      else if is_hard_desync obs e && die_on_desync r then Fatal
      else match prefix_contains (cursor r) LOOKAHEAD_WINDOW (events_match obs) with
      | Some ix =>
          if (0 <? length (due_starts (pos r + Z.of_nat ix) (background_starts r)).1)%nat && die_on_desync r
          then Fatal else Consumes ix
      | None => if is_hard_desync obs e then Unmatched else Consumes 0
      end
  end.

(** What does not depend on the verdict. *)
Record kept (r r' : Replayer) : Prop := {
  kept_die : die_on_desync r' = die_on_desync r;
  kept_panic : replay_exhausted_panic r' = replay_exhausted_panic r;
  kept_traced : traced_event_count r' = traced_event_count r;
  kept_non_polling : observed_non_polling r' = observed_non_polling r;
  kept_left : all_left r' = all_left r;
}.
Record carried (obs : SchedEvent) (r r' : Replayer) : Prop := {
  carried_die : die_on_desync r' = die_on_desync r;
  carried_panic : replay_exhausted_panic r' = replay_exhausted_panic r;
  carried_traced : traced_event_count r' = traced_event_count r + 1;
  carried_non_polling : observed_non_polling r' = observed_non_polling r + non_polling obs;
  carried_left : all_left r' = all_left r;
}.

Definition exhausted_action (r : Replayer) : ReplayAction :=
  if replay_exhausted_panic r then Stop ReplayExausted else Continue None.
Definition past_end (r : Replayer) (act : ReplayAction) (r' : Replayer) : Prop :=
  act = exhausted_action r /\ inner_data (cursor r') = [] /\ pos r' = pos r /\ last_consumed r' = None /\
  release r' = release r.
Definition consumes (k : nat) (r : Replayer) (obs : SchedEvent) (act : ReplayAction) (r' : Replayer) : Prop :=
  act = next_decision r' obs true /\
  inner_data (cursor r') = drop (k + 1) (inner_data (cursor r)) /\
  pos r' = pos r + Z.of_nat k + 1 /\ last_consumed r' = Some (pos r + Z.of_nat k) /\
  release r' = None /\ unmatched_run r' = 0.
Definition unmatched (np : Z) (r : Replayer) (obs : SchedEvent) (act : ReplayAction) (r' : Replayer) : Prop :=
  pos r' = pos r /\ last_consumed r' = None /\
  if releases obs r then
    act = exhausted_action r /\ inner_data (cursor r') = [] /\
    release r' = Some {| event := np; unreplayed := len (cursor r) |}
  else
    act = next_decision r' obs false /\ inner_data (cursor r') = inner_data (cursor r) /\
    release r' = None /\ unmatched_run r' = unmatched_run r + non_polling obs.

Definition stepped (r : Replayer) (obs : SchedEvent) (act : ReplayAction) (r' : Replayer) : Prop :=
  match verdict_of r obs with
  | Fatal => act = Stop FatalDesync
  | PastEnd => past_end r act r'
  | Consumes k => consumes k r obs act r'
  | Unmatched => unmatched (observed_non_polling r) r obs act r'
  end.

Lemma settle_done bp np sched n K S r obs in_hard :
  inv sched n K S r -> Z.of_nat (length sched) < 2 ^ 64 -> K + 1 + S < 2 ^ 64 ->
  inner_data (cursor r) <> [] -> pending_starts r = [] -> last_consumed r = None -> is_Some (end_time obs) ->
  exists act r', settle_event bp np obs in_hard r = Done (act, r') /\ inv sched n (K + 1) S r' /\ kept r r' /\
    if in_hard then unmatched np r obs act r' else consumes 0 r obs act r'.
Proof.
  intros Hi Hlen HK Hne Hpend Hlast Ht. pose proof (cursor_unreleased _ _ _ _ _ Hi Hne) as Hrel.
  destruct in_hard.
  - pose proof (settle_unmatched bp np sched n K S r obs Hi HK Hne Ht) as H.
    unfold unmatched. destruct (releases obs r) eqn:Er.
    + destruct H as [E Hi']. do 2 eexists. split; [exact E|]. split; [by apply (inv_weaken _ _ K); [|lia]|].
      repeat split; done.
    + destruct H as (c & E & Hi'). do 2 eexists. split; [exact E|]. split; [exact Hi'|].
      repeat split; done.
  - destruct (consumed_inv _ _ _ _ _ Hi Hpend Hne) as [Hi' Hall].
    do 2 eexists. split; [by eapply settle_consumes|]. split; [by apply (inv_weaken _ _ K); [|lia]|].
    assert (pos (consumed r) = pos r + 0 + 1) by (unfold pos, consumed; cbn; lia).
    assert (inner_data (cursor (consumed r)) = drop 1 (inner_data (cursor r))) as Hd.
    { change (cursor (consumed r)) with (drop_ (cursor r) 1). apply drop_data. }
    split; [by split|]. unfold consumes. rewrite Z.add_0_r in *. by repeat split.
Qed.

(** After the judgement: resynchronize and settle. *)
Definition found_at (r : Replayer) (obs e : SchedEvent) : option nat :=
  if is_desync obs e then prefix_contains (cursor r) LOOKAHEAD_WINDOW (events_match obs) else None.
Definition misses_start (r : Replayer) (ix : nat) : bool :=
  (0 <? length (due_starts (pos r + Z.of_nat ix) (background_starts r)).1)%nat.

Lemma resync_settle bp ev np sched n K S r obs e l in_hard :
  inv sched n K S r -> Z.of_nat (length sched) < 2 ^ 64 -> K + 3 + S < 2 ^ 64 ->
  inner_data (cursor r) = e :: l -> pending_starts r = [] -> last_consumed r = None -> is_Some (end_time obs) ->
  exists act r', ('(x, r) ← resync_event bp ev obs (is_desync obs e) in_hard r;
      match x with inl stop => Done (stop, r) | inr h => settle_event bp np obs h r end) = Done (act, r') /\
    inv sched n (K + 3) S r' /\ kept r r' /\
    match found_at r obs e with
    | Some ix => if misses_start r ix && die_on_desync r then act = Stop FatalDesync else consumes ix r obs act r'
    | None => if in_hard then unmatched np r obs act r' else consumes 0 r obs act r'
    end.
Proof.
  intros Hi Hlen HK Hc Hpend Hlast Ht. unfold found_at.
  destruct (is_desync obs e) eqn:Ed.
  2:{ rewrite resync_none by auto. cbn [mbind outcome_bind].
      destruct (settle_done bp np sched n K S r obs in_hard) as (act & r' & E & Hi' & Hk & Hs);
        [done|done|lia|by rewrite Hc|done|done|done|].
      exists act, r'. split; [done|]. split; [by apply (inv_weaken _ _ (K + 1)); [|lia]|]. done. }
  destruct (prefix_contains (cursor r) LOOKAHEAD_WINDOW (events_match obs)) as [ix|] eqn:Ep.
  2:{ rewrite resync_none by auto. cbn [mbind outcome_bind].
      destruct (settle_done bp np sched n K S r obs in_hard) as (act & r' & E & Hi' & Hk & Hs);
        [done|done|lia|by rewrite Hc|done|done|done|].
      exists act, r'. split; [done|]. split; [by apply (inv_weaken _ _ (K + 1)); [|lia]|]. done. }
  destruct (resync_found bp ev sched n K S r obs e l ix in_hard) as (c & E & Hi1 & Hall);
    [done|done|lia|done|done|done|done|].
  rewrite E. cbn [mbind outcome_bind]. set (r1 := skipped_to _ _ _ _) in *. fold (misses_start r ix).
  destruct (misses_start r ix && die_on_desync r).
  { do 2 eexists. split; [reflexivity|]. split; [by apply (inv_weaken _ _ (K + 2)); [|lia]|]. by split. }
  pose proof (prefix_after_desync _ _ _ _ _ Hc Ed Ep) as Hix.
  assert (Hcur : inner_data (cursor r1) = drop ix (inner_data (cursor r))) by apply drop_data.
  assert (Hne : inner_data (cursor r1) <> []).
  { intros E0. apply (f_equal length) in E0. rewrite Hcur, length_drop in E0. simpl in E0. lia. }
  destruct (settle_done bp np sched n (K + 2) S r1 obs false) as (act & r' & E' & Hi' & Hk & Hs);
    [done|done|lia|done|done|done|done|].
  exists act, r'. split; [done|]. split; [by apply (inv_weaken _ _ (K + 2 + 1)); [|lia]|].
  destruct Hk as [k1 k2 k3 k4 k5]. split; [split; try done; congruence|].
  destruct Hs as (Ha & Hd & Hp & Hl & Hr & Hu). assert (pos r1 = pos r + Z.of_nat ix) by (unfold pos, r1; cbn; lia).
  unfold consumes. rewrite Hcur, drop_drop in Hd. repeat split; [done|done|lia|rewrite Hl; f_equal; lia|done|done].
Qed.

(** The judgement changes neither the place nor the starts. *)
Record same_place (r r' : Replayer) : Prop := {
  same_cursor : cursor r' = cursor r;
  same_pos : pos r' = pos r;
  same_background : background_starts r' = background_starts r;
  same_run : unmatched_run r' = unmatched_run r;
  same_panic : replay_exhausted_panic r' = replay_exhausted_panic r;
  same_die : die_on_desync r' = die_on_desync r;
}.
Lemma resync_settle_place np r r3 obs e act r' (in_hard : bool) :
  same_place r r3 ->
  match found_at r3 obs e with
  | Some ix => if misses_start r3 ix && die_on_desync r3 then act = Stop FatalDesync else consumes ix r3 obs act r'
  | None => if in_hard then unmatched np r3 obs act r' else consumes 0 r3 obs act r'
  end ->
  match found_at r obs e with
  | Some ix => if misses_start r ix && die_on_desync r then act = Stop FatalDesync else consumes ix r obs act r'
  | None => if in_hard then unmatched np r obs act r' else consumes 0 r obs act r'
  end.
Proof.
  intros [H1 H2 H3 H4 H5 H6]. unfold found_at, misses_start, consumes, unmatched, releases, exhausted_action.
  by rewrite H1, H2, H3, H4, H5, H6.
Qed.

(** The parts before the resynchronization, with the state they leave opaque. *)
Record quiet (r r' : Replayer) : Prop := {
  quiet_place : same_place r r';
  quiet_kept : kept r r';
  quiet_pending : pending_starts r' = pending_starts r;
  quiet_last : last_consumed r' = last_consumed r;
}.
Lemma begin_step bp sched n K S r obs :
  inv sched n K S r -> room sched n K S ->
  exists r1, begin_event bp obs r = Done (negb (bool_decide (pending_starts r = [])), r1) /\
    inv sched (n + 1) K S r1 /\ same_place r r1 /\ carried obs r r1 /\
    pending_starts r1 = [] /\ last_consumed r1 = None /\ release r1 = release r.
Proof.
  intros Hi Hroom. destruct (begin_done bp sched n K S r obs Hi Hroom) as (c & m & Eb & Hc).
  destruct (begun_inv sched n K S r obs c m Hi Hc) as [Hi1 Hall1].
  exists (begun obs c m r). split; [exact Eb|]. split; [exact Hi1|]. by repeat split.
Qed.
Lemma judge_step bp ix sched n K S r obs e :
  inv sched n K S r -> Z.of_nat (length sched) < 2 ^ 64 -> K + 1 + S < 2 ^ 64 ->
  exists r', judge_event bp ix obs e r = Done (judged (die_on_desync r) obs e, r') /\
    inv sched n (K + 1) S r' /\ quiet r r'.
Proof.
  intros Hi Hlen HK. destruct (judge_done bp ix sched n K S r obs e Hi Hlen HK) as (c & fd & E & Hi').
  eexists. split; [exact E|]. split; [exact Hi'|]. by repeat split.
Qed.
Lemma round_step bp t b sched n K S r :
  inv sched n K S r -> K + 1 + S < 2 ^ 64 ->
  exists r', counts_next_round bp t b r = Done r' /\ inv sched n (K + 1) S r' /\ quiet r r'.
Proof.
  intros Hi HK. destruct (round_done bp t b sched n K S r Hi HK) as (c & E & Hi').
  eexists. split; [exact E|]. split; [exact Hi'|]. by repeat split.
Qed.
Lemma carried_kept obs r r1 r' : carried obs r r1 -> kept r1 r' -> carried obs r r'.
Proof. intros [] []. split; congruence. Qed.
Lemma same_place_trans r r1 r' : same_place r r1 -> same_place r1 r' -> same_place r r'.
Proof. intros [] []. split; congruence. Qed.

(** Everything after the first part, for an event with a recorded head. *)
Lemma judged_done bp sched n K S r r1 obs e l :
  inv sched n K S r1 -> Z.of_nat (length sched) < 2 ^ 64 -> K + 5 + S < 2 ^ 64 ->
  inner_data (cursor r) = e :: l -> same_place r r1 -> pending_starts r1 = [] -> last_consumed r1 = None ->
  carried obs r r1 -> is_Some (end_time obs) ->
  bool_decide (pending_starts r = []) = true \/ die_on_desync r = false ->
  exists act r',
    ('(judged, r2) ← judge_event bp (traced_event_count r) obs e r1;
     match judged with
     | inl stop => Done (stop, r2)
     | inr in_hard =>
         r3 ← counts_next_round bp (dettid obs) (is_desync obs e) r2;
         '(x, r4) ← resync_event bp (traced_event_count r) obs (is_desync obs e) in_hard r3;
         match x with
         | inl stop => Done (stop, r4)
         | inr h => settle_event bp (observed_non_polling r) obs h r4
         end
     end) = Done (act, r') /\
    inv sched n (K + 5) S r' /\ carried obs r r' /\ stepped r obs act r'.
Proof.
  intros Hi1 Hlen HK Ec Hpl1 Hp1 Hl1 Hc1 Ht Hnd.
  destruct (judge_step bp (traced_event_count r) sched n K S r1 obs e Hi1 Hlen ltac:(lia))
    as (r2 & -> & Hi2 & [Hpl2 Hk2 Hp2 Hl2]). cbn [mbind outcome_bind].
  destruct (round_step bp (dettid obs) (is_desync obs e) sched n (K + 1) S r2 Hi2 ltac:(lia))
    as (r3 & E3 & Hi3 & [Hpl3 Hk3 Hp3 Hl3]).
  assert (Hpl : same_place r r3) by (eapply same_place_trans; [|done]; by eapply same_place_trans).
  assert (Hc3 : carried obs r r3) by (eapply carried_kept; [|done]; by eapply carried_kept).
  assert (Hrest : forall in_hard, exists act r',
    ('(x, r4) ← resync_event bp (traced_event_count r) obs (is_desync obs e) in_hard r3;
      match x with
      | inl stop => Done (stop, r4)
      | inr h => settle_event bp (observed_non_polling r) obs h r4
      end) = Done (act, r') /\ inv sched n (K + 5) S r' /\ carried obs r r' /\
    match found_at r obs e with
    | Some ix => if misses_start r ix && die_on_desync r then act = Stop FatalDesync else consumes ix r obs act r'
    | None => if in_hard then unmatched (observed_non_polling r) r obs act r' else consumes 0 r obs act r'
    end).
  { intros in_hard.
    destruct (resync_settle bp (traced_event_count r) (observed_non_polling r) sched n (K + 1 + 1) S r3 obs e l in_hard)
      as (act & r' & E & Hi' & Hk & Hs);
      [done|done|lia|by rewrite (same_cursor _ _ Hpl)|congruence|congruence|done|].
    exists act, r'. split; [exact E|]. split; [by apply (inv_weaken _ _ (K + 1 + 1 + 3)); [|lia]|].
    split; [by eapply carried_kept|]. by eapply resync_settle_place. }
  clear Hpl3 Hk3 Hpl Hc3 Hi3. unfold found_at in Hrest. unfold stepped, verdict_of. rewrite Ec.
  replace (negb (bool_decide (pending_starts r = [])) && die_on_desync r) with false
    by (destruct Hnd as [-> | ->]; [done|by rewrite andb_false_r]).
  unfold judged. rewrite (same_die _ _ Hpl1). destruct (is_desync obs e) eqn:Ed; cbn [andb negb].
  2:{ rewrite E3. cbn [mbind outcome_bind]. exact (Hrest false). }
  destruct (is_hard_desync obs e) eqn:Eh; cbn [andb].
  - destruct (die_on_desync r) eqn:Edie.
    + do 2 eexists. split; [reflexivity|]. split; [by apply (inv_weaken _ _ (K + 1)); [|lia]|].
      split; [by eapply carried_kept|done].
    + rewrite E3. cbn [mbind outcome_bind]. destruct (Hrest true) as (act & r' & E & H).
      exists act, r'. split; [exact E|]. destruct (prefix_contains _ _ _) as [ix|]; [|done].
      fold (misses_start r ix). by destruct (misses_start r ix).
  - rewrite E3. cbn [mbind outcome_bind]. destruct (Hrest false) as (act & r' & E & H).
    exists act, r'. split; [exact E|]. destruct (prefix_contains _ _ _) as [ix|]; [|done].
    fold (misses_start r ix). by destruct (misses_start r ix && die_on_desync r).
Qed.

Lemma observe_done bp sched n K S r obs :
  inv sched n K S r -> room sched n K S -> is_Some (end_time obs) ->
  exists act r', observe_event bp r obs = Done (act, r') /\ inv sched (n + 1) (K + 5) S r' /\
    carried obs r r' /\ stepped r obs act r'.
Proof.
  intros Hi Hroom Ht. pose proof Hroom as (Hlen & Hn & HK).
  destruct (begin_step bp sched n K S r obs Hi Hroom) as (r1 & Eb & Hi1 & Hpl & Hc & Hp & Hl & Hr).
  unfold observe_event. rewrite Eb. cbn [mbind outcome_bind].
  rewrite (same_die _ _ Hpl), (same_cursor _ _ Hpl).
  destruct (negb (bool_decide (pending_starts r = [])) && die_on_desync r) eqn:E1.
  { exists (Stop FatalDesync), r1. split; [done|]. split; [by apply (inv_weaken _ _ K); [|lia]|].
    split; [done|]. unfold stepped, verdict_of. by rewrite E1. }
  unfold peek, peek_nth. destruct (inner_data (cursor r)) as [|e l] eqn:Ec; cbn [lookup list_lookup].
  - do 2 eexists. split; [reflexivity|]. split; [by apply (inv_weaken _ _ K); [|lia]|]. split; [done|].
    unfold stepped, verdict_of. rewrite E1, Ec. destruct Hpl as [h1 h2 h3 h4 h5 h6].
    unfold past_end, exhausted_action. rewrite h5, h1, Ec. by repeat split.
  - apply (judged_done bp sched (n + 1) K S r r1 obs e l); try done.
    destruct (bool_decide (pending_starts r = [])); [by left|right]. by destruct (die_on_desync r).
Qed.

(** * Sequences of calls on a replayer

    The scheduler observes events, begins calls that the recording may have
    started in the background, notes unrecorded ones and asks whether a polling
    thread keeps its turn.  Any sequence of these calls, from a replay of any
    recording, keeps the invariant. *)

(** ** The recorded starts *)

Definition triple (s : BackgroundStart) : DetTid * Z * Z := (bs_thread s, bs_call s, bs_after s).

Lemma flat_cons a l m : flat_starts ((a, l) :: m) = ((fun tc => (tc.1, tc.2, a)) <$> l) ++ flat_starts m.
Proof. done. Qed.
Lemma flat_after p m : Forall (fun e => p < e.1) m -> Forall (fun s => p < s.2) (flat_starts m).
Proof.
  induction 1 as [|[a l] m Ha Hm IH]; [done|]. rewrite flat_cons. apply Forall_app. split; [|done].
  apply Forall_fmap, Forall_forall. intros tc _. simpl in *. done.
Qed.
Lemma add_start_perm s m : bt_ok m -> flat_starts (add_start s m) ≡ₚ flat_starts m ++ [triple s].
Proof.
  unfold add_start. induction m as [|[a l] m IH]; cbn [bt_get bt_insert].
  - done.
  - intros [Hm Ha]%bt_ok_cons. destruct (kcmp (bs_after s) a) eqn:E.
    + apply kcmp_eq in E. subst a. cbn [from_option id]. rewrite !flat_cons, fmap_app, <- !app_assoc.
      apply Permutation_app_head. apply Permutation_app_comm.
    + cbn [from_option]. rewrite flat_cons. cbn. apply Permutation_cons_append.
    + rewrite !flat_cons, (IH Hm), <- app_assoc. done.
Qed.
Lemma add_start_ok s m : bt_ok m -> bt_ok (add_start s m).
Proof. apply bt_insert_ok. Qed.
Lemma add_starts_perm starts m :
  bt_ok m -> flat_starts (foldl (fun m s => add_start s m) m starts) ≡ₚ flat_starts m ++ (triple <$> starts) /\
  bt_ok (foldl (fun m s => add_start s m) m starts).
Proof.
  revert m. induction starts as [|s starts IH]; intros m Hm; cbn [foldl fmap list_fmap].
  - by rewrite app_nil_r.
  - destruct (IH (add_start s m)) as [H1 H2]; [by apply add_start_ok|]. split; [|done].
    by rewrite H1, (add_start_perm s m Hm), <- app_assoc.
Qed.

(** A start after every entry is the last of the flat list. *)
Lemma add_start_last s m :
  bt_ok m -> Forall (fun e => e.1 <= bs_after s) m -> flat_starts (add_start s m) = flat_starts m ++ [triple s].
Proof.
  unfold add_start. induction m as [|[a l] m IH]; cbn [bt_get bt_insert]; [done|].
  intros Hok [Ha Hm]%Forall_cons. pose proof (proj1 (bt_ok_cons _ _ _) Hok) as [Hm' Hall]. simpl in Ha.
  destruct (kcmp (bs_after s) a) eqn:E.
  - apply kcmp_eq in E. subst a. cbn [from_option id]. destruct m as [|[b l'] m].
    + rewrite !flat_cons, fmap_app. cbn. by rewrite !app_nil_r.
    + exfalso. inversion_clear Hall as [|? ? Hlt _]. apply (proj1 (klt_Z _ _)) in Hlt.
      inversion_clear Hm as [|? ? Hle _]. simpl in *. lia.
  - apply (proj1 (klt_Z _ _)) in E. lia.
  - rewrite !flat_cons, IH by done. by rewrite app_assoc.
Qed.
Lemma add_start_keys s m : Forall (fun e => e.1 <= bs_after s) m -> Forall (fun e => e.1 <= bs_after s) (add_start s m).
Proof.
  unfold add_start. generalize (default [] (bt_get (bs_after s) m) ++ [(bs_thread s, bs_call s)]). intros l Hm.
  induction Hm as [|[a l'] m Ha Hm IH]; cbn [bt_insert].
  - constructor; [simpl; lia|done].
  - destruct (kcmp (bs_after s) a); repeat constructor; simpl in *; try lia; done.
Qed.
Lemma add_starts_flat starts m :
  bt_ok m -> StronglySorted Z.le (bs_after <$> starts) ->
  (forall s, s ∈ starts -> Forall (fun e => e.1 <= bs_after s) m) ->
  flat_starts (foldl (fun m s => add_start s m) m starts) = flat_starts m ++ (triple <$> starts).
Proof.
  revert m. induction starts as [|s starts IH]; intros m Hm Hs Hall; cbn [foldl fmap list_fmap].
  - by rewrite app_nil_r.
  - inversion_clear Hs as [|? ? Hs' Hle]. assert (Hsm : Forall (fun e => e.1 <= bs_after s) m) by (apply Hall; set_solver).
    rewrite IH; [|by apply add_start_ok|done|].
    + rewrite add_start_last by done. by rewrite <- app_assoc.
    + intros s' Hs''. eapply Forall_impl; [by apply add_start_keys|]. intros e He. cbn beta in *.
      rewrite Forall_fmap, Forall_forall in Hle. specialize (Hle s' Hs''). simpl in Hle. lia.
Qed.

Lemma add_start_full s m : Forall (fun e => e.2 <> []) m -> Forall (fun e => e.2 <> []) (add_start s m).
Proof.
  unfold add_start. generalize (default [] (bt_get (bs_after s) m)). intros l Hm.
  assert (Hl : l ++ [(bs_thread s, bs_call s)] <> []) by (by destruct l).
  induction Hm as [|[a l'] m Ha Hm IH]; cbn [bt_insert]; [by constructor|].
  destruct (kcmp (bs_after s) a); repeat constructor; done.
Qed.
Lemma add_starts_full starts m :
  Forall (fun e => e.2 <> []) m -> Forall (fun e => e.2 <> []) (foldl (fun m s => add_start s m) m starts).
Proof. revert m. induction starts as [|s starts IH]; intros m Hm; cbn; [done|]. by apply IH, add_start_full. Qed.

(** A replay of a recording, before its first event. *)
Definition start_replay (bp : profile) (sched : list SchedEvent) (starts : list BackgroundStart)
    (notes_all exhausted_panic die : bool) : outcome Replayer :=
  r ← with_background_starts bp (new sched) starts notes_all; Done (set_flags exhausted_panic die r).

Lemma start_done bp sched starts notes_all ex die :
  Z.of_nat (length sched) < 2 ^ 64 ->
  exists r, start_replay bp sched starts notes_all ex die = Done r /\
    inv sched 0 0 (Z.of_nat (length starts)) r /\
    all_left r = flat_starts (foldl (fun m s => add_start s m) [] starts) /\
    pos r = 0 /\ inner_data (cursor r) = sched /\ release r = None /\ unmatched_run r = 0 /\
    passed_starts r = [] /\ first_desync r = None /\ desync_counts r = ∅ /\ die_on_desync r = die /\
    replay_exhausted_panic r = ex.
Proof.
  intros Hlen. unfold start_replay, with_background_starts, queue_background_starts, record_position.
  destruct (add_starts_perm starts [] bt_ok_nil) as [Hperm Hok].
  change (background_starts (new sched)) with (@nil (Z * list (DetTid * Z))). set (bg := foldl _ _ starts) in *.
  cbn [events_popped skipped new set_notes_all set_background]. rewrite arith_u_exact by lia. cbn [mbind outcome_bind].
  change (background_starts (set_notes_all _ _)) with bg.
  destruct (due_starts (0 + 0) bg) as [due rest] eqn:Ed. cbn [mbind outcome_bind].
  pose proof (due_starts_flat (0 + 0) bg) as Hfl. pose proof (due_starts_keys (0 + 0) bg Hok) as [Hk1 Hk2].
  pose proof (due_starts_sublist (0 + 0) bg) as Hsub.
  rewrite Ed in *. cbn [fst snd] in *.
  eexists. split; [reflexivity|]. split; [|by repeat split].
  split; try done.
  - unfold placed, pos. cbn. unfold UNMATCHED_EVENTS_BEFORE_RELEASE. repeat split; lia.
  - cbn. split; [|done]. eapply waiting_sublist; [exact Hsub|]. split; [done|]. by apply add_starts_full.
  - change (Z.of_nat (length (due ++ flat_starts rest)) <= Z.of_nat (length starts)). rewrite Hfl in Hperm. apply Permutation_length in Hperm.
    change (flat_starts []) with (@nil (DetTid * Z * Z)) in Hperm. rewrite app_nil_l, length_fmap in Hperm. lia.
Qed.

(** ** Calls *)

Inductive call_ :=
  | Observe (e : SchedEvent)
  | Take (t : DetTid) (c : Z)
  | Unrecorded (t : DetTid)
  | KeepRetry (t : DetTid).

(** One call; the list is the background start it took, if it took one. *)
Definition do_call (bp : profile) (r : Replayer) (c : call_) : outcome (list (DetTid * Z * Z) * Replayer) :=
  match c with
  | Observe e => '(_, r) ← observe_event bp r e; Done ([], r)
  | Take t c =>
      let '(ok, r') := take_background_start r t c in
      Done (if ok then take 1 (pending_starts r) else [], r')
  | Unrecorded t => '(_, r) ← note_unrecorded_background_start bp r t; Done ([], r)
  | KeepRetry t => Done ([], snd (keep_retry_turn r t))
  end.
Fixpoint do_calls (bp : profile) (r : Replayer) (cs : list call_) : outcome (list (DetTid * Z * Z) * Replayer) :=
  match cs with
  | [] => Done ([], r)
  | c :: cs' =>
      '(taken, r) ← do_call bp r c;
      '(taken', r) ← do_calls bp r cs';
      Done (taken ++ taken', r)
  end.
Definition timed (c : call_) : Prop := match c with Observe e => is_Some (end_time e) | _ => True end.

Lemma take_done sched n K S r t c :
  inv sched n K S r ->
  let '(ok, r') := take_background_start r t c in
  inv sched n K S r' /\
  all_left r ≡ₚ (if ok then take 1 (pending_starts r) else []) ++ all_left r'.
Proof.
  intros Hi. unfold take_background_start. destruct (bool_decide _) eqn:E; [|done].
  apply bool_decide_eq_true in E. unfold pending_background_start in E.
  destruct (released r); [done|]. destruct (pending_starts r) as [|[[t' c'] a] p] eqn:Ep; [done|].
  assert (Hleft : all_left r ≡ₚ (t', c', a) :: all_left (set_pending (tail ((t', c', a) :: p)) r)).
  { unfold all_left. cbn. rewrite Ep. cbn. by rewrite <- Permutation_middle. }
  cbn [take]. split; [|exact Hleft].
  apply Permutation_length in Hleft.
  destruct Hi as [Hl Hp Hpl Ht He Hst Hb [Hd1 Hd2] HS]. split; try done.
  - split; [|done]. cbn. rewrite Ep in Hd1. by inversion_clear Hd1.
  - change (length (_ :: all_left ?x)) with (Datatypes.S (length (all_left x))) in Hleft. lia.
Qed.

Lemma inv_later sched n n' K K' S r : inv sched n K S r -> n <= n' -> K <= K' -> inv sched n' K' S r.
Proof.
  intros [Hl Hp Hpl Htr He Hst Hb Hd HS] Hn HK. split; try done.
  - destruct Htr. split; [done|lia].
  - eapply stats_le_mono; [done|lia].
Qed.
Lemma call_done bp sched n K S r c :
  inv sched n K S r -> room sched n K S -> timed c ->
  exists taken r', do_call bp r c = Done (taken, r') /\ inv sched (n + 1) (K + 5) S r' /\
    all_left r ≡ₚ taken ++ all_left r'.
Proof.
  intros Hi Hroom Ht. pose proof Hroom as (Hlen & Hn & HK).
  destruct c as [e|t c|t|t]; cbn [do_call].
  - destruct (observe_done bp sched n K S r e Hi Hroom Ht) as (act & r' & -> & Hi' & Hc & _).
    cbn [mbind outcome_bind]. exists [], r'. split; [done|]. split; [done|]. by rewrite (carried_left _ _ _ Hc).
  - pose proof (take_done sched n K S r t c Hi) as H. destruct (take_background_start r t c) as [ok r'].
    destruct H as [H1 H2]. do 2 eexists. split; [reflexivity|]. split; [|done]. eapply inv_later; [exact H1|lia|lia].
  - unfold note_unrecorded_background_start.
    destruct (counted bp (count_hard bp) t sched n K S r) as (c & -> & Hc); [by left|done|lia|].
    cbn [mbind outcome_bind]. do 2 eexists. split; [reflexivity|]. split; [|done].
    eapply inv_later; [exact Hc|lia|lia].
  - unfold keep_retry_turn. cbn [snd]. do 2 eexists. split; [reflexivity|]. split; [|done].
    eapply (inv_later _ n _ K); [|lia|lia]. destruct Hi. by split.
Qed.

Lemma calls_done bp sched cs n K S r :
  inv sched n K S r -> Z.of_nat (length sched) < 2 ^ 64 ->
  n + Z.of_nat (length cs) < 2 ^ 64 -> K + 5 * Z.of_nat (length cs) + S < 2 ^ 64 -> Forall timed cs ->
  exists taken r', do_calls bp r cs = Done (taken, r') /\
    inv sched (n + Z.of_nat (length cs)) (K + 5 * Z.of_nat (length cs)) S r' /\
    all_left r ≡ₚ taken ++ all_left r'.
Proof.
  revert n K r. induction cs as [|c cs IH]; intros n K r Hi Hlen Hn HK Ht; cbn [do_calls length] in *.
  - exists [], r. split; [done|]. by rewrite !Z.add_0_r.
  - inversion_clear Ht as [|? ? Ht1 Ht2].
    destruct (call_done bp sched n K S r c Hi) as (tk & r1 & -> & Hi1 & Hl1); [by repeat split; [|lia..]|done|].
    cbn [mbind outcome_bind].
    destruct (IH (n + 1) (K + 5) r1 Hi1 Hlen) as (tk' & r2 & -> & Hi2 & Hl2); [lia|lia|done|].
    cbn [mbind outcome_bind]. do 2 eexists. split; [reflexivity|]. split.
    + replace (n + Z.of_nat (Datatypes.S (length cs))) with (n + 1 + Z.of_nat (length cs)) by lia.
      by replace (K + 5 * Z.of_nat (Datatypes.S (length cs))) with (K + 5 + 5 * Z.of_nat (length cs)) by lia.
    + by rewrite Hl1, Hl2, app_assoc.
Qed.

(** ** What the summary reports *)

Definition untriple (u : UntakenStart) : DetTid * Z * Z := (thread u, call u, after u).
Lemma flat_untaken (m : list (Z * list (DetTid * Z))) :
  untriple <$> concat ((fun e : Z * list (DetTid * Z) =>
    (fun tc => {| thread := tc.1; call := tc.2; after := e.1; passed_at := None |}) <$> e.2) <$> m) = flat_starts m.
Proof.
  induction m as [|[a l] m IH]; [done|]. rewrite flat_cons, <- IH. cbn [fmap list_fmap concat fst snd].
  rewrite fmap_app. f_equal. by rewrite <- list_fmap_compose.
Qed.
(** The report lists exactly the starts that were not taken. *)
Lemma untaken_left r : untriple <$> untaken_background_starts r ≡ₚ all_left r.
Proof.
  unfold untaken_background_starts, all_left. rewrite stable_sort_perm, !fmap_app, flat_untaken.
  apply Permutation_app_head, Permutation_app_tail. rewrite <- list_fmap_compose.
  rewrite <- (list_fmap_id (pending_starts r)) at 2. apply Permutation_refl', list_fmap_ext. by intros ? [[??]?].
Qed.
Lemma untaken_sorted r : StronglySorted Z.le (after <$> untaken_background_starts r).
Proof.
  assert (Hs : StronglySorted (fun a b => (after a <=? after b) = true) (untaken_background_starts r)).
  { apply stable_sort_sorted; intros; rewrite ?Z.leb_le in *; lia. }
  induction Hs as [|u l Hl IH Hu]; cbn; constructor; [done|].
  apply Forall_fmap. eapply Forall_impl; [exact Hu|]. intros v Hv. by apply Z.leb_le in Hv.
Qed.
