(* ===== verification/ReplayerProps.v ===== *)
(** * The schedule replayer: theorems *)
From Stdlib Require Import ZArith Lia List Sorting.Sorted.
From stdpp Require Import base gmap list.
From S2P Require Import Prelude BTree Time Schedule ReplayCursor Replayer ReplayerInv ReplayerSteps.
Import Schedule ReplayCursor Replayer.
Open Scope Z_scope.

(** ** Every recorded event and start is accounted for *)

(** C8: whatever calls the scheduler makes on a replay (events that match, differ, insert or skip, starts
    taken or not), no call panics; the cursor is the recording from the replay's position on, or was released
    with the events left over counted; and every recorded background start was either taken or is reported
    untaken, exactly once and in record order. *)
Theorem replay_accounts_for_recording bp sched starts notes_all ex die cs :
  Z.of_nat (length sched) < 2 ^ 64 ->
  5 * Z.of_nat (length cs) + Z.of_nat (length starts) < 2 ^ 64 ->
  Forall timed cs ->
  exists r0 taken r,
    start_replay bp sched starts notes_all ex die = Done r0 /\ do_calls bp r0 cs = Done (taken, r) /\
    record_position bp r = Done (pos r) /\
    match release r with
    | None => inner_data (cursor r) = drop (Z.to_nat (pos r)) sched /\ 0 <= pos r <= Z.of_nat (length sched)
    | Some rel => inner_data (cursor r) = [] /\ pos r + Z.of_nat (unreplayed rel) = Z.of_nat (length sched)
    end /\
    taken ++ (untriple <$> untaken_background_starts r) ≡ₚ triple <$> starts /\
    StronglySorted Z.le (after <$> untaken_background_starts r).
Proof.
  intros Hlen Hroom Ht.
  destruct (start_done bp sched starts notes_all ex die Hlen) as (r0 & E0 & Hi0 & Hl0 & _).
  destruct (calls_done bp sched cs _ _ _ _ Hi0 Hlen ltac:(lia) ltac:(lia) Ht) as (taken & r & E & Hi & Hl).
  exists r0, taken, r. split; [done|]. split; [done|].
  pose proof (pos_bound _ _ _ _ _ Hi) as Hp. split.
  { unfold record_position. by rewrite arith_u_exact by (unfold pos in *; lia). }
  split.
  { pose proof (inv_place _ _ _ _ _ Hi) as Hpl. unfold placed in Hpl. destruct (release r); [done|].
    destruct Hpl as (? & ? & ?). split; [done|lia]. }
  split; [|apply untaken_sorted].
  rewrite untaken_left, <- Hl, Hl0. destruct (add_starts_perm starts [] bt_ok_nil) as [Hp0 _]. exact Hp0.
Qed.

(** ** A run that repeats the recording is followed exactly *)

(** A recording, as the sequence of the scheduler's decisions: the events threads ran and the calls begun in
    the background between them. *)
Inductive decision :=
  | Began (t : DetTid) (c : Z)
  | Ran (e : SchedEvent).
Definition decided (d : decision) : DetTid := match d with Began t _ => t | Ran e => dettid e end.
Fixpoint events_of (d : list decision) : list SchedEvent :=
  match d with [] => [] | Began _ _ :: d' => events_of d' | Ran e :: d' => e :: events_of d' end.
(** The recorded starts, each with the number of events before it. *)
Fixpoint starts_of (k : Z) (d : list decision) : list BackgroundStart :=
  match d with
  | [] => []
  | Began t c :: d' => {| bs_after := k; bs_thread := t; bs_call := c |} :: starts_of k d'
  | Ran _ :: d' => starts_of (k + 1) d'
  end.

Inductive repeats : decision -> decision -> Prop :=
  | repeats_began t c : repeats (Began t c) (Began t c)
  | repeats_ran o e : events_match o e = true -> is_Some (end_time o) -> repeats (Ran o) (Ran e).

(** What the replay tells the thread that ran [o], when [next] runs after it. *)
Definition obeys (next : option DetTid) (o : SchedEvent) (act : ReplayAction) : Prop :=
  match act with
  | ContextSwitch _ t _ => next = Some t /\ t <> dettid o
  | Continue _ => next = None \/ next = Some (dettid o)
  | Stop _ => False
  end.

Inductive follows (bp : profile) : Replayer -> list decision -> Replayer -> Prop :=
  | follows_end r : follows bp r [] r
  | follows_began r t c run r1 r' :
      fst <$> next_slice_end r = Some t -> take_background_start r t c = (true, r1) ->
      follows bp r1 run r' -> follows bp r (Began t c :: run) r'
  | follows_ran r o run act r1 r' :
      fst <$> next_slice_end r = Some (dettid o) -> observe_event bp r o = Done (act, r1) ->
      obeys (decided <$> head run) o act ->
      follows bp r1 run r' -> follows bp r (Ran o :: run) r'.

Definition clean (c : gmap DetTid DesyncStats) : Prop := map_Forall (fun _ s => s = inhabitant) c.

Lemma begin_exact bp obs r b r1 :
  begin_event bp obs r = Done (b, r1) -> pending_starts r = [] ->
  b = false /\ passed_starts r1 = passed_starts r /\ first_desync r1 = first_desync r /\
  desync_counts r1 = desync_counts r /\ cursor r1 = cursor r /\ die_on_desync r1 = die_on_desync r.
Proof.
  unfold begin_event. intros E Hp.
  apply bind_Done in E as (t & _ & E). apply bind_Done in E as (n & _ & E).
  destruct (note_in_flight obs (set_non_polling n (set_traced t r))) as [m Hm]. rewrite Hm in E. clear Hm.
  destruct (is_empty _ && _ && _);
    (apply bind_Done in E as (p & _ & E); cbn [pending_starts set_exhausted_from set_last_consumed set_in_flight
       set_non_polling set_traced] in E; rewrite Hp in E; cbn [pass_starts mbind outcome_bind] in E;
     injection E as <- <-; done).
Qed.
Lemma round_exact bp t r r' :
  counts_next_round bp t false r = Done r' ->
  passed_starts r' = passed_starts r /\ first_desync r' = first_desync r /\ cursor r' = cursor r /\
  (clean (desync_counts r) -> clean (desync_counts r')).
Proof.
  unfold counts_next_round. intros E. apply bind_Done in E as (i & Ei & E). injection E as <-.
  repeat split. intros Hc. apply map_Forall_insert_2; [|done].
  assert (Hs : stats_of t r = inhabitant).
  { unfold stats_of. destruct (desync_counts r !! t) as [s|] eqn:Es; [exact (Hc t s Es)|done]. }
  rewrite Hs in *. cbn in Ei. by injection Ei as <-.
Qed.
Lemma settle_exact bp np obs r act r' :
  settle_event bp np obs false r = Done (act, r') ->
  passed_starts r' = passed_starts r /\ first_desync r' = first_desync r /\ desync_counts r' = desync_counts r.
Proof.
  unfold settle_event. intros E. apply bind_Done in E as ([a r1] & E1 & E).
  apply bind_Done in E1 as (p & _ & E1). apply bind_Done in E1 as ([o r2] & E2 & E1). injection E1 as <- <-.
  cbn [negb] in E. apply bind_Done in E as (act' & _ & E).
  assert (r' = set_unmatched_run 0 r2) as -> by (destruct act'; congruence).
  unfold pop_next in E2. apply bind_Done in E2 as (n & _ & E2).
  destruct (next _) as [nx c]. apply bind_Done in E2 as (r3 & E3 & E2). injection E2 as _ <-.
  unfold queue_background_starts in E3. apply bind_Done in E3 as (q & _ & E3).
  destruct (due_starts _ _) as [due rest]. injection E3 as <-. done.
Qed.
Lemma observe_exact bp r obs e l act r' :
  observe_event bp r obs = Done (act, r') -> pending_starts r = [] ->
  inner_data (cursor r) = e :: l -> is_desync obs e = false ->
  passed_starts r' = passed_starts r /\ first_desync r' = first_desync r /\
  (clean (desync_counts r) -> clean (desync_counts r')).
Proof.
  unfold observe_event. intros E Hp Hc Hd. apply bind_Done in E as ([b r1] & Eb & E).
  apply begin_exact in Eb as (-> & h1 & h2 & h3 & h4 & h5); [|done]. cbn [andb] in E.
  unfold peek, peek_nth in E. rewrite h4, Hc in E. cbn [lookup list_lookup] in E.
  unfold judge_event in E. rewrite Hd in E. cbn [mbind outcome_bind] in E.
  apply bind_Done in E as (r2 & E2 & E). apply round_exact in E2 as (k1 & k2 & k3 & k4).
  rewrite resync_none in E by auto. cbn [mbind outcome_bind] in E.
  apply settle_exact in E as (m1 & m2 & m3). rewrite m1, m2, m3, k1, k2, h1, h2. rewrite h3 in k4. done.
Qed.

(** The state of a replay whose remaining recording is [d]. *)
Record ready (sched : list SchedEvent) (n K S : Z) (d : list decision) (r : Replayer) : Prop := {
  ready_inv : inv sched n K S r;
  ready_release : release r = None;
  ready_cursor : inner_data (cursor r) = events_of d;
  ready_starts : pending_starts r ++ flat_starts (background_starts r) = triple <$> starts_of (pos r) d;
  ready_passed : passed_starts r = [];
  ready_first : first_desync r = None;
  ready_clean : clean (desync_counts r);
}.

Lemma starts_of_after k d : Forall (fun s => k <= bs_after s) (starts_of k d).
Proof.
  revert k. induction d as [|[t c|e] d IH]; intros k; cbn; [done| |].
  - constructor; [simpl; lia|apply IH].
  - eapply Forall_impl; [apply IH|]. intros s Hs. cbn beta in *. lia.
Qed.
Lemma starts_of_sorted k d : StronglySorted Z.le (bs_after <$> starts_of k d).
Proof.
  revert k. induction d as [|[t c|e] d IH]; intros k; cbn; [constructor| |apply IH].
  constructor; [apply IH|]. apply Forall_fmap. apply starts_of_after.
Qed.
Lemma starts_of_length k d : (length (starts_of k d) <= length d)%nat.
Proof. revert k. induction d as [|[t c|e] d IH]; intros k; cbn; [done| |]; specialize (IH k) as H1;
  [lia|]. specialize (IH (k + 1)). lia. Qed.
Lemma events_of_length d : (length (events_of d) <= length d)%nat.
Proof. induction d as [|[t c|e] d IH]; cbn; lia. Qed.

(** The due starts are the ones recorded before the next event. *)
Lemma ready_began sched n K S t c d r :
  ready sched n K S (Began t c :: d) r ->
  exists p, pending_starts r = (t, c, pos r) :: p /\ p ++ flat_starts (background_starts r) = triple <$> starts_of (pos r) d.
Proof.
  intros [Hi _ _ Hst _ _ _]. cbn in Hst. pose proof (inv_background _ _ _ _ _ Hi) as [_ Hb].
  apply flat_after in Hb. destruct (pending_starts r) as [|x p].
  - cbn in Hst. rewrite Hst in Hb. inversion_clear Hb as [|? ? Hlt _]. cbn in Hlt. lia.
  - cbn in Hst. injection Hst as -> Hst. by exists p.
Qed.
Lemma ready_ran sched n K S e d r :
  ready sched n K S (Ran e :: d) r -> pending_starts r = [].
Proof.
  intros [Hi _ _ Hst _ _ _]. pose proof (inv_due _ _ _ _ _ Hi) as [Hd _].
  destruct (pending_starts r) as [|x p]; [done|]. exfalso. cbn in Hst.
  pose proof (starts_of_after (pos r + 1) d) as Ha.
  destruct (starts_of (pos r + 1) d) as [|s l]; [done|]. cbn in Hst. injection Hst as -> _.
  inversion_clear Hd as [|? ? H1 _]. inversion_clear Ha as [|? ? H2 _]. cbn in *. lia.
Qed.
Lemma ready_next sched n K S d r :
  ready sched n K S d r -> fst <$> next_slice_end r = decided <$> head d.
Proof.
  intros Hr. pose proof Hr as [Hi Hrel Hc Hst _ _ _]. unfold next_slice_end, pending_background_start, released.
  rewrite Hrel. destruct d as [|[t c|e] d].
  - assert (pending_starts r = []) as ->.
    { apply (f_equal length) in Hst. rewrite length_app in Hst. destruct (pending_starts r); [done|]. simpl in Hst. lia. }
    unfold peek, peek_nth. by rewrite Hc.
  - destruct (ready_began _ _ _ _ _ _ _ _ Hr) as (p & -> & _). done.
  - rewrite (ready_ran _ _ _ _ _ _ _ Hr). unfold peek, peek_nth. by rewrite Hc.
Qed.

Lemma ready_take sched n K S t c d r :
  ready sched n K S (Began t c :: d) r ->
  exists r', take_background_start r t c = (true, r') /\ ready sched n K S d r'.
Proof.
  intros Hr. destruct (ready_began _ _ _ _ _ _ _ _ Hr) as (p & Hp & Hst).
  pose proof Hr as [Hi Hrel Hc _ Hpa Hf Hcl].
  pose proof (take_done sched n K S r t c Hi) as Ht. unfold take_background_start in *.
  rewrite bool_decide_eq_true_2 in *.
  2,3: unfold pending_background_start, released; by rewrite Hrel, Hp.
  destruct Ht as [Hi' _]. eexists. split; [reflexivity|]. split; try done.
  cbn. by rewrite Hp.
Qed.

Lemma events_match_thread o e : events_match o e = true -> dettid o = dettid e.
Proof.
  unfold events_match, is_desync. destruct (bool_decide _) eqn:E; [done|].
  apply bool_decide_eq_false in E. intros _. destruct (decide (dettid o = dettid e)); [done|].
  exfalso. apply E. congruence.
Qed.

Lemma ready_observe bp sched n K S o e d r :
  ready sched n K S (Ran e :: d) r -> room sched n K S -> events_match o e = true -> is_Some (end_time o) ->
  exists act r', observe_event bp r o = Done (act, r') /\ obeys (decided <$> head d) o act /\
    ready sched (n + 1) (K + 5) S d r'.
Proof.
  intros Hr Hroom Hm Ht. pose proof (ready_ran _ _ _ _ _ _ _ Hr) as Hp.
  pose proof Hr as [Hi Hrel Hc Hst Hpa Hf Hcl]. cbn in Hc, Hst.
  assert (Hd : is_desync o e = false) by (unfold events_match in Hm; by apply negb_true_iff in Hm).
  destruct (observe_done bp sched n K S r o Hi Hroom Ht) as (act & r' & E & Hi' & Hca & Hs).
  destruct (observe_exact bp r o e _ act r' E Hp Hc Hd) as (Hpa' & Hf' & Hcl').
  unfold stepped, verdict_of in Hs. rewrite Hp, Hc, Hd in Hs. cbn in Hs.
  destruct Hs as (Ha & Hcur & Hpos & _ & Hrel' & _). rewrite Hc in Hcur. cbn in Hcur.
  assert (Hr' : ready sched (n + 1) (K + 5) S d r').
  { split; try done; [|congruence|congruence|by apply Hcl'].
    pose proof (carried_left _ _ _ Hca) as Hl. unfold all_left in Hl. rewrite Hpa', Hpa, Hp in Hl. cbn in Hl.
    rewrite Hl. rewrite Hp in Hst. cbn in Hst. rewrite Hst, Hpos. do 2 f_equal. lia. }
  exists act, r'. split; [done|]. split; [|done]. rewrite <- (ready_next _ _ _ _ _ _ Hr'), Ha.
  unfold next_decision. destruct (next_slice_end r') as [[t sl]|]; cbn; [|by left].
  destruct (Z.eqb_spec t (dettid o)) as [->|Hne]; cbn; [by right|done].
Qed.

Lemma ready_follows bp sched run rec n K S r :
  ready sched n K S rec r -> Forall2 repeats run rec -> Z.of_nat (length sched) < 2 ^ 64 ->
  n + Z.of_nat (length rec) < 2 ^ 64 -> K + 5 * Z.of_nat (length rec) + S < 2 ^ 64 ->
  exists n' K' r', follows bp r run r' /\ ready sched n' K' S [] r'.
Proof.
  intros Hr HF Hlen Hn HK. revert n K r Hr Hn HK. induction HF as [|x y run rec Hxy HF IH]; intros n K r Hr Hn HK.
  - exists n, K, r. split; [constructor|done].
  - assert (Hhead : decided <$> head run = decided <$> head rec).
    { destruct HF as [|? ? ? ? [t c|o e Hm _] _]; cbn; [done|done|]. by rewrite (events_match_thread _ _ Hm). }
    pose proof (ready_next _ _ _ _ _ _ Hr) as Hnx. cbn in Hnx, Hn, HK. destruct Hxy as [t c|o e Hm Ht].
    + destruct (ready_take _ _ _ _ _ _ _ _ Hr) as (r1 & E & Hr1).
      destruct (IH n K r1 Hr1 ltac:(lia) ltac:(lia)) as (n' & K' & r' & Hf & Hr').
      exists n', K', r'. split; [|done]. by econstructor.
    + destruct (ready_observe bp sched n K S o e rec r Hr) as (act & r1 & E & Ho & Hr1);
        [split; [done|lia]|done|done|].
      destruct (IH (n + 1) (K + 5) r1 Hr1 ltac:(lia) ltac:(lia)) as (n' & K' & r' & Hf & Hr').
      exists n', K', r'. split; [|done]. cbn in Hnx.
      eapply follows_ran; [by rewrite (events_match_thread _ _ Hm)|done|by rewrite Hhead|done].
Qed.

(** C3: recording then replaying gives the same run: where a run makes the recorded decisions again (each
    event matching its recorded one, each background start begun where it was recorded), the replay names the
    recorded thread before every one, accepts every start, answers every event by letting the thread go on or
    switching to the thread the recording ran next, never stops, and ends with nothing left over, nothing
    reported untaken and no desync counted, under every setting of the flags. *)
Theorem replay_follows_recording bp rec run notes_all ex die :
  Forall2 repeats run rec ->
  6 * Z.of_nat (length rec) < 2 ^ 64 ->
  exists r0 r,
    start_replay bp (events_of rec) (starts_of 0 rec) notes_all ex die = Done r0 /\
    follows bp r0 run r /\
    has_events_left r = false /\ untaken_background_starts r = [] /\ first_desync r = None /\
    (forall t s, desync_counts r !! t = Some s -> s = inhabitant).
Proof.
  intros HF Hlen. pose proof (events_of_length rec) as He. pose proof (starts_of_length 0 rec) as Hs.
  destruct (start_done bp (events_of rec) (starts_of 0 rec) notes_all ex die ltac:(lia))
    as (r0 & E0 & Hi0 & Hl0 & Hp0 & Hc0 & Hr0 & _ & Hpa0 & Hf0 & Hct0 & _).
  assert (Hready : ready (events_of rec) 0 0 (Z.of_nat (length (starts_of 0 rec))) rec r0).
  { split; try done; [|rewrite Hct0; apply map_Forall_empty].
    unfold all_left in Hl0. rewrite Hpa0 in Hl0. cbn in Hl0. rewrite Hl0, Hp0.
    rewrite (add_starts_flat (starts_of 0 rec) []); [done|apply bt_ok_nil|apply starts_of_sorted|done]. }
  destruct (ready_follows bp _ run rec _ _ _ _ Hready HF) as (n' & K' & r & Hf & [Hi Hrel Hc Hst Hpa Hfi Hcl]);
    [lia|lia|lia|].
  exists r0, r. split; [done|]. split; [done|]. cbn in Hst.
  apply app_eq_nil in Hst as [Hp Hb]. pose proof (inv_background _ _ _ _ _ Hi) as [[_ Hfull] _].
  assert (background_starts r = []) as Hbg.
  { destruct (background_starts r) as [|[a l] m]; [done|]. inversion_clear Hfull as [|? ? Hl _].
    rewrite flat_cons in Hb. by destruct l. }
  split; [|split; [|split; [done|exact Hcl]]].
  - unfold has_events_left, is_empty. rewrite Hc, Hp, Hbg. cbn. by rewrite andb_false_r.
  - apply (fmap_nil_inv untriple), Permutation_nil_r. rewrite untaken_left. unfold all_left.
    by rewrite Hpa, Hp, Hbg.
Qed.
