(* ===== verification/ReplayerStops.v ===== *)
(** * Where a replay stops, and that it does not stay stuck *)
From Stdlib Require Import ZArith Lia List Sorting.Sorted.
From stdpp Require Import base gmap list.
From S2P Require Import Prelude BTree Time Schedule ReplayCursor Replayer ReplayerInv ReplayerSteps ReplayerProps.
Import Schedule ReplayCursor Replayer.
Open Scope Z_scope.

(** ** Hard differences *)

(** The mark of a slice end taken without a stop goes with no end RIP ([taken_without_stop],
    [stopless_mark_refusal]). *)
Definition well_marked (e : SchedEvent) : Prop := stopless_mark_refusal e = None.
Lemma well_marked_rip e : well_marked e -> stopless e = true -> end_rip e = None.
Proof.
  unfold well_marked, stopless_mark_refusal. intros H Hs. rewrite Hs in H. cbn in H.
  destruct (bool_decide _); [done|]. by destruct (end_rip e).
Qed.

Definition same_operation (o e : SchedEvent) : Prop :=
  dettid o = dettid e /\ op o = op e /\
  (forall rip, start_rip e = Some rip -> start_rip o = Some rip) /\
  (forall rip, end_rip e = Some rip -> end_rip o = Some rip).
Lemma differs_false {A} `{EqDecision A} (e o : option A) :
  differs_if_some e o = false <-> forall x, e = Some x -> o = Some x.
Proof.
  unfold differs_if_some. destruct e as [x|]; [|naive_solver].
  rewrite bool_decide_eq_false. split; [|naive_solver]. intros H y [= <-]. by destruct (decide (o = Some x)).
Qed.
(** A difference is hard exactly when the operation, its thread or a recorded RIP is another. *)
Lemma hard_desync_spec o e : well_marked e -> is_hard_desync o e = false <-> same_operation o e.
Proof.
  intros Hm. unfold is_hard_desync, same_operation. rewrite bool_decide_eq_false.
  pose proof (well_marked_rip e Hm) as Hs.
  assert (Hstop : (if stopless e then None else match end_rip e with None => None | Some _ => end_rip o end)
                  = match end_rip e with None => None | Some _ => end_rip o end).
  { destruct (stopless e); [|done]. by rewrite Hs. }
  rewrite Hstop. split.
  - intros H. apply dec_stable in H. injection H as H1 H2 H3 H4.
    repeat split; [done|done| |]; intros rip E; rewrite E in *; done.
  - intros (H1 & H2 & H3 & H4) H. apply H. f_equal; try done.
    + destruct (start_rip e); [|done]. by apply H3.
    + destruct (end_rip e); [|done]. by apply H4.
Qed.
Lemma match_not_hard o e : well_marked e -> is_desync o e = false -> is_hard_desync o e = false.
Proof.
  intros Hm H. apply hard_desync_spec; [done|]. unfold is_desync in H.
  destruct (bool_decide _) eqn:E1; [done|]. apply bool_decide_eq_false, dec_stable in E1. injection E1 as H1 H2 H3.
  destruct (differs_if_some (end_time e) _); [done|].
  destruct (differs_if_some (start_rip e) _) eqn:E2; [done|].
  repeat split; [done|done|by apply differs_false|by apply differs_false].
Qed.
(** The message of a fatal desync names a field exactly when there is one. *)
Lemma hard_desync_fields_spec o e :
  well_marked e -> hard_desync_fields o e = [] <-> is_hard_desync o e = false.
Proof.
  intros Hm. rewrite (hard_desync_spec o e Hm). unfold hard_desync_fields, same_operation.
  rewrite !app_nil. pose proof (well_marked_rip e Hm) as Hs.
  assert (Hrip : differs_if_some (end_rip e) (end_rip o) && negb (stopless e) = differs_if_some (end_rip e) (end_rip o)).
  { destruct (stopless e); [rewrite Hs by done; done|apply andb_true_r]. }
  rewrite Hrip, <- !differs_false.
  destruct (bool_decide (dettid o <> dettid e)) eqn:E1; bool_prop;
    destruct (bool_decide (op o <> op e)) eqn:E2; bool_prop;
    destruct (differs_if_some (start_rip e) (start_rip o)), (differs_if_some (end_rip e) (end_rip o));
    split; intros H; destruct_and?; try done; try (apply dec_stable in E1); try (apply dec_stable in E2); done.
Qed.

(** ** Stops *)

(** The recorded event a fast-forward would resynchronize to. *)
Definition resyncs_to (r : Replayer) (o : SchedEvent) (ix : nat) : Prop :=
  (ix < LOOKAHEAD_WINDOW)%nat /\ (exists v, inner_data (cursor r) !! ix = Some v /\ events_match o v = true) /\
  forall j v, (j < ix)%nat -> inner_data (cursor r) !! j = Some v -> events_match o v = false.

(** [o] takes the replay off its record: a due start was not taken, the operation is another, or the
    recorded events it skips hold a start. *)
Definition departs (r : Replayer) (o : SchedEvent) : Prop :=
  pending_starts r <> [] \/
  exists e l, inner_data (cursor r) = e :: l /\
    (~ same_operation o e \/
     exists ix s, resyncs_to r o ix /\ s ∈ flat_starts (background_starts r) /\ s.2 <= pos r + Z.of_nat ix).
(** [o] ends the recording: it is past the last event, or the last of a long run of unmatched events. *)
Definition runs_out (r : Replayer) (o : SchedEvent) : Prop :=
  inner_data (cursor r) = [] \/
  exists e l, inner_data (cursor r) = e :: l /\ ~ same_operation o e /\ (forall ix, ~ resyncs_to r o ix) /\
    is_polling o = false /\ unmatched_run r + 1 = UNMATCHED_EVENTS_BEFORE_RELEASE.

Lemma prefix_resyncs r o ix :
  prefix_contains (cursor r) LOOKAHEAD_WINDOW (events_match o) = Some ix <-> resyncs_to r o ix.
Proof.
  split.
  - intros (H1 & v & H2 & H3 & H4)%prefix_contains_Some. split; [done|]. split; [by exists v|done].
  - intros (H1 & (v & H2 & H3) & H4).
    destruct (prefix_contains (cursor r) LOOKAHEAD_WINDOW (events_match o)) as [k|] eqn:E.
    + apply prefix_contains_Some in E as (K1 & w & K2 & K3 & K4). f_equal.
      destruct (Nat.lt_trichotomy k ix) as [?|[?|?]]; [|done|].
      * rewrite (H4 k w) in K3; done.
      * rewrite (K4 ix v) in H3; done.
    + pose proof (prefix_contains_None _ _ _ _ _ E H1 H2). congruence.
Qed.
Lemma due_exists p m :
  waiting_ok m -> (0 <? length (due_starts p m).1)%nat = true <-> exists s, s ∈ flat_starts m /\ s.2 <= p.
Proof.
  intros [Hok _]. rewrite Nat.ltb_lt. pose proof (due_starts_keys p m Hok) as [H1 H2].
  rewrite (due_starts_flat p m). apply flat_after in H1. split.
  - intros Hl. destruct (due_starts p m).1 as [|s d]; [simpl in Hl; lia|]. exists s.
    inversion_clear H2. split; [set_solver|done].
  - intros (s & [Hs|Hs]%elem_of_app & Hle).
    + destruct (due_starts p m).1; [set_solver|simpl; lia].
    + rewrite Forall_forall in H1. specialize (H1 s Hs). lia.
Qed.

Lemma next_decision_no_stop r o b why : next_decision r o b <> Stop why.
Proof. unfold next_decision. destruct (next_slice_end r) as [[t e]|]; [|done]. by destruct (negb _). Qed.
Lemma exhausted_action_stop r why :
  exhausted_action r = Stop why <-> why = ReplayExausted /\ replay_exhausted_panic r = true.
Proof. unfold exhausted_action. destruct (replay_exhausted_panic r); naive_solver. Qed.

Lemma cursor_marked sched n K S r e l :
  inv sched n K S r -> Forall well_marked sched -> inner_data (cursor r) = e :: l -> well_marked e.
Proof.
  intros Hi Hm Hc. assert (release r = None) as Hrel by (eapply cursor_unreleased; [done|by rewrite Hc]).
  pose proof (inv_place _ _ _ _ _ Hi) as Hp. unfold placed in Hp. rewrite Hrel in Hp. destruct Hp as [Hp _].
  rewrite Hc in Hp. apply (proj1 (Forall_forall _ _) Hm). rewrite <- (take_drop (Z.to_nat (pos r)) sched), <- Hp.
  set_solver.
Qed.

(** The verdict in terms of the specification. *)
Lemma verdict_fatal sched n K S r o :
  inv sched n K S r -> Forall well_marked sched ->
  verdict_of r o = Fatal <-> die_on_desync r = true /\ departs r o.
Proof.
  intros Hi Hm. unfold verdict_of, departs. destruct (die_on_desync r).
  2:{ rewrite andb_false_r. split; [|naive_solver]. destruct (inner_data _) as [|e l]; [done|].
      destruct (negb _); [done|]. rewrite andb_false_r.
      destruct (prefix_contains _ _ _); [by rewrite andb_false_r|]. by destruct (is_hard_desync o e). }
  rewrite andb_true_r. destruct (bool_decide (pending_starts r = [])) eqn:Ep; bool_prop; cbn [negb]; [|naive_solver].
  destruct (inner_data (cursor r)) as [|e l] eqn:Ec; [naive_solver|].
  pose proof (cursor_marked _ _ _ _ _ _ _ Hi Hm Ec) as He. rewrite !andb_true_r.
  destruct (is_desync o e) eqn:Ed; cbn [negb].
  - destruct (is_hard_desync o e) eqn:Eh.
    + split; [|done]. intros _. split; [done|]. right. exists e, l. split; [done|]. left.
      rewrite <- (hard_desync_spec o e He). congruence.
    + apply (hard_desync_spec o e He) in Eh.
      destruct (prefix_contains _ _ _) as [ix|] eqn:Ex.
      * rewrite andb_true_r. apply prefix_resyncs in Ex.
        pose proof (due_exists (pos r + Z.of_nat ix) (background_starts r)
                      (proj1 (inv_background _ _ _ _ _ Hi))) as Hdue.
        destruct (0 <? _)%nat.
        -- split; [|done]. intros _. split; [done|]. right. exists e, l. split; [done|]. right.
           destruct (proj1 Hdue eq_refl) as (s & ? & ?). by exists ix, s.
        -- split; [done|]. intros [_ [?|(e' & l' & [= <- <-] & [?|(ix' & s & Hx & Hs & Hle)])]]; [done|done|].
           apply prefix_resyncs in Hx, Ex. rewrite Hx in Ex. injection Ex as ->.
           by discriminate (proj2 Hdue (ex_intro _ s (conj Hs Hle))).
      * split; [done|]. intros [_ [?|(e' & l' & [= <- <-] & [?|(ix' & s & Hx & _)])]]; [done|done|].
        apply prefix_resyncs in Hx. congruence.
  - split; [done|]. pose proof (proj1 (hard_desync_spec o e He) (match_not_hard o e He Ed)) as Hsame.
    intros [_ [?|(e' & l' & [= <- <-] & [?|(ix & s & (_ & _ & Hx) & Hs & Hle)])]]; [done|done|].
    pose proof (inv_background _ _ _ _ _ Hi) as [_ Hb]. apply flat_after in Hb. rewrite Forall_forall in Hb.
    specialize (Hb s Hs). destruct ix; [lia|].
    specialize (Hx 0%nat e ltac:(lia)). rewrite Ec in Hx. specialize (Hx eq_refl).
    unfold events_match in Hx. by rewrite Ed in Hx.
Qed.

(** An event that does not depart ends the recording exactly when [runs_out] says so. *)
Lemma stepped_exhausted sched n K S r o act r' :
  inv sched n K S r -> Forall well_marked sched -> stepped r o act r' -> verdict_of r o <> Fatal ->
  act = Stop ReplayExausted <-> replay_exhausted_panic r = true /\ runs_out r o.
Proof.
  intros Hi Hm Hs Hnf. unfold stepped in Hs.
  assert (Hv : verdict_of r o = PastEnd /\ inner_data (cursor r) = [] \/
    exists e l, inner_data (cursor r) = e :: l /\
      ((exists k, verdict_of r o = Consumes k /\ (same_operation o e \/ exists ix, resyncs_to r o ix)) \/
       verdict_of r o = Unmatched /\ ~ same_operation o e /\ forall ix, ~ resyncs_to r o ix)).
  { revert Hnf. unfold verdict_of. destruct (_ && die_on_desync r); [done|].
    destruct (inner_data (cursor r)) as [|e l] eqn:Ec; [by left|]. intros Hnf. right. exists e, l. split; [done|].
    pose proof (cursor_marked _ _ _ _ _ _ _ Hi Hm Ec) as He.
    destruct (is_desync o e) eqn:Ed; cbn [negb] in *.
    2:{ left. exists 0%nat. split; [done|]. left. apply (hard_desync_spec o e He). by apply match_not_hard. }
    destruct (is_hard_desync o e && die_on_desync r); [done|].
    destruct (prefix_contains _ _ _) as [ix|] eqn:Ex.
    - destruct (_ && die_on_desync r); [done|]. left. exists ix. split; [done|]. right.
      exists ix. by apply prefix_resyncs.
    - assert (Hno : forall ix, ~ resyncs_to r o ix) by (intros ix Hx; apply prefix_resyncs in Hx; congruence).
      destruct (is_hard_desync o e) eqn:Eh.
      + right. split; [done|]. split; [|done]. rewrite <- (hard_desync_spec o e He). congruence.
      + left. exists 0%nat. split; [done|]. left. by apply (hard_desync_spec o e He). }
  unfold runs_out. destruct Hv as [[Ev Hc]|(e & l & Hc & [(k & Ev & Hwhy)|(Ev & Hns & Hno)])]; rewrite Ev in Hs.
  - destruct Hs as (-> & _). rewrite exhausted_action_stop. naive_solver.
  - destruct Hs as (-> & _). split; [intros H; by apply next_decision_no_stop in H|].
    intros (_ & [?|(e' & l' & He' & Hns & Hno & _)]); [congruence|].
    rewrite Hc in He'. injection He' as <- <-. destruct Hwhy as [?|[ix ?]]; [done|]. by destruct (Hno ix).
  - destruct Hs as (_ & _ & Hs). unfold releases in Hs.
    pose proof (inv_place _ _ _ _ _ Hi) as Hpl. unfold placed in Hpl.
    rewrite (cursor_unreleased _ _ _ _ _ Hi) in Hpl by (by rewrite Hc). destruct Hpl as (_ & _ & Hrun).
    destruct (is_polling o) eqn:Epol; cbn [negb andb] in Hs.
    + destruct Hs as (-> & _). split; [intros H; by apply next_decision_no_stop in H|].
      intros (_ & [?|(e' & l' & _ & _ & _ & ? & _)]); congruence.
    + destruct (Z.leb_spec UNMATCHED_EVENTS_BEFORE_RELEASE (unmatched_run r + 1)) as [Hge|Hlt].
      * destruct Hs as (-> & _). rewrite exhausted_action_stop. split; [|naive_solver].
        intros [_ Hp]. split; [done|]. right. exists e, l. repeat split; try done. lia.
      * destruct Hs as (-> & _). split; [intros H; by apply next_decision_no_stop in H|].
        intros (_ & [?|(e' & l' & _ & _ & _ & _ & ?)]); [congruence|lia].
Qed.

(** C11: when a replay stops.  In any state a replay can reach, observing an event never panics; it stops the
    run as a fatal desync exactly when [--die-on-desync] is set and the event departs from the record (a
    background start due before it was not begun, it is not the recorded operation, or the events it skips
    hold a start), and as exhausted exactly when [--replay-exhausted-panic] is set, it does not depart fatally
    and the record has run out. *)
Theorem replay_stops_exactly bp sched starts notes_all ex die cs o r0 taken r :
  Z.of_nat (length sched) < 2 ^ 64 -> Forall well_marked sched ->
  5 * (Z.of_nat (length cs) + 1) + Z.of_nat (length starts) < 2 ^ 64 ->
  Forall timed cs -> is_Some (end_time o) ->
  start_replay bp sched starts notes_all ex die = Done r0 -> do_calls bp r0 cs = Done (taken, r) ->
  exists act r', observe_event bp r o = Done (act, r') /\
    (act = Stop FatalDesync <-> die_on_desync r = true /\ departs r o) /\
    (act = Stop ReplayExausted <->
       replay_exhausted_panic r = true /\ ~ (die_on_desync r = true /\ departs r o) /\ runs_out r o).
Proof.
  intros Hlen Hm Hroom Ht Ho E0 E.
  destruct (start_done bp sched starts notes_all ex die Hlen) as (r0' & E0' & Hi0 & _).
  rewrite E0 in E0'. injection E0' as <-.
  destruct (calls_done bp sched cs _ _ _ _ Hi0 Hlen ltac:(lia) ltac:(lia) Ht) as (tk & r1 & E1 & Hi & _).
  rewrite E in E1. injection E1 as <- <-.
  destruct (observe_done bp _ _ _ _ r o Hi ltac:(split; [done|lia]) Ho) as (act & r' & Eo & _ & _ & Hs).
  exists act, r'. split; [done|]. pose proof (verdict_fatal _ _ _ _ r o Hi Hm) as Hv.
  assert (Hdec : verdict_of r o = Fatal \/ verdict_of r o <> Fatal) by (destruct (verdict_of r o); auto).
  destruct Hdec as [Hf|Hnf].
  - unfold stepped in Hs. rewrite Hf in Hs. subst act. split; [by rewrite <- Hv|].
    split; [done|]. intros (_ & Hn & _). by destruct Hn; apply Hv.
  - pose proof (stepped_exhausted _ _ _ _ _ _ _ _ Hi Hm Hs Hnf) as Hx. rewrite <- Hv. split.
    + split; [|done]. intros ->. exfalso. clear Hx. unfold stepped in Hs.
      destruct (verdict_of r o); [done|..].
      * destruct Hs as [H _]. symmetry in H. by apply exhausted_action_stop in H as [? _].
      * destruct Hs as [H _]. symmetry in H. by apply next_decision_no_stop in H.
      * destruct Hs as (_ & _ & Hs). destruct (releases o r), Hs as [H _]; symmetry in H.
        -- by apply exhausted_action_stop in H as [? _].
        -- by apply next_decision_no_stop in H.
    + rewrite Hx. naive_solver.
Qed.

(** ** A replay does not stay stuck *)

(** Events observed that are not polling retries. *)
Definition counted_event (c : call_) : Z := match c with Observe e => non_polling e | _ => 0 end.
Fixpoint counted_events (cs : list call_) : Z :=
  match cs with [] => 0 | c :: cs' => counted_event c + counted_events cs' end.

(** How many more of them the recording can last: each consumes a recorded event or adds to the run. *)
Definition lasting (r : Replayer) : Z :=
  match inner_data (cursor r) with
  | [] => 0
  | _ => UNMATCHED_EVENTS_BEFORE_RELEASE * Z.of_nat (length (inner_data (cursor r))) - unmatched_run r
  end.

Lemma lasting_pos sched n K S r :
  inv sched n K S r -> 0 <= lasting r /\ (lasting r = 0 -> inner_data (cursor r) = []).
Proof.
  intros Hi. unfold lasting. destruct (inner_data (cursor r)) as [|e l] eqn:Ec; [done|].
  pose proof (inv_place _ _ _ _ _ Hi) as Hpl. unfold placed in Hpl.
  rewrite (cursor_unreleased _ _ _ _ _ Hi) in Hpl by (by rewrite Ec). destruct Hpl as (_ & _ & Hrun).
  unfold UNMATCHED_EVENTS_BEFORE_RELEASE in *. simpl length. split; lia.
Qed.

Lemma stepped_lasting sched n K S r o act r' :
  inv sched n K S r -> die_on_desync r = false -> stepped r o act r' ->
  lasting r' <= Z.max 0 (lasting r - non_polling o).
Proof.
  intros Hi Hdie Hs. pose proof (lasting_pos _ _ _ _ _ Hi) as [Hpos _].
  assert (Hnp : 0 <= non_polling o <= 1) by (unfold non_polling; destruct (is_polling o); lia).
  assert (Hv : verdict_of r o <> Fatal /\ (inner_data (cursor r) = [] <-> verdict_of r o = PastEnd)).
  { unfold verdict_of. rewrite Hdie, andb_false_r. destruct (inner_data (cursor r)) as [|e l]; [done|].
    destruct (negb _); [done|]. rewrite andb_false_r.
    destruct (prefix_contains _ _ _); [by rewrite andb_false_r|]. by destruct (is_hard_desync o e). }
  destruct Hv as [Hnf Hpe]. unfold stepped in Hs. destruct (verdict_of r o) as [| |k|]; [done|..].
  - destruct Hs as (_ & Hc & _). unfold lasting at 1. rewrite Hc. lia.
  - destruct Hs as (_ & Hc & _ & _ & _ & Hu). assert (inner_data (cursor r) <> []) as Hne by (intros H; by apply Hpe in H).
    pose proof (inv_place _ _ _ _ _ Hi) as Hpl. unfold placed in Hpl.
    rewrite (cursor_unreleased _ _ _ _ _ Hi Hne) in Hpl. destruct Hpl as (_ & _ & Hrun).
    apply (f_equal length) in Hc. rewrite length_drop in Hc. unfold lasting, UNMATCHED_EVENTS_BEFORE_RELEASE in *.
    destruct (inner_data (cursor r')) as [|e' l']; [lia|]. rewrite Hu. simpl length in *.
    destruct (inner_data (cursor r)) as [|e l]; [done|]. simpl length in *. lia.
  - destruct Hs as (_ & _ & Hs). destruct (releases o r).
    + destruct Hs as (_ & Hc & _). unfold lasting at 1. rewrite Hc. lia.
    + destruct Hs as (_ & Hc & _ & Hu). unfold lasting. rewrite Hc, Hu.
      destruct (inner_data (cursor r)); lia.
Qed.

Lemma call_lasting bp sched n K S r c taken r' :
  inv sched n K S r -> room sched n K S -> timed c -> die_on_desync r = false ->
  do_call bp r c = Done (taken, r') ->
  lasting r' <= Z.max 0 (lasting r - counted_event c) /\ die_on_desync r' = false.
Proof.
  intros Hi Hroom Ht Hdie E. pose proof (lasting_pos _ _ _ _ _ Hi) as [Hpos _].
  assert (Hsame : forall x, cursor x = cursor r -> unmatched_run x = unmatched_run r ->
    die_on_desync x = die_on_desync r -> lasting x <= Z.max 0 (lasting r - 0) /\ die_on_desync x = false).
  { intros x H1 H2 H3. unfold lasting. rewrite H1, H2, H3. split; [fold (lasting r); lia|done]. }
  destruct c as [e|t c|t|t]; cbn [do_call counted_event] in *.
  - destruct (observe_done bp sched n K S r e Hi Hroom Ht) as (act & r1 & Eo & _ & Hc & Hs).
    rewrite Eo in E. cbn [mbind outcome_bind] in E. injection E as <- <-.
    split; [by eapply stepped_lasting|]. by rewrite (carried_die _ _ _ Hc).
  - unfold take_background_start in E. destruct (bool_decide _); injection E as <- <-; by apply Hsame.
  - unfold note_unrecorded_background_start, count_ in E. apply bind_Done in E as ([b r1] & E1 & E).
    injection E as <- <-. apply bind_Done in E1 as (r2 & E2 & E1). injection E1 as <- <-.
    apply bind_Done in E2 as (s & _ & E2). injection E2 as <-. by apply Hsame.
  - injection E as <- <-. by apply Hsame.
Qed.

Lemma calls_lasting bp sched cs n K S r taken r' :
  inv sched n K S r -> Z.of_nat (length sched) < 2 ^ 64 -> n + Z.of_nat (length cs) < 2 ^ 64 ->
  K + 5 * Z.of_nat (length cs) + S < 2 ^ 64 -> Forall timed cs -> die_on_desync r = false ->
  do_calls bp r cs = Done (taken, r') -> lasting r' <= Z.max 0 (lasting r - counted_events cs).
Proof.
  revert n K r taken. induction cs as [|c cs IH]; intros n K r taken Hi Hlen Hn HK Ht Hdie E; cbn [do_calls counted_events length] in *.
  - injection E as <- <-. lia.
  - inversion_clear Ht as [|? ? Ht1 Ht2]. assert (Hroom : room sched n K S) by (split; [done|lia]).
    destruct (call_done bp sched n K S r c Hi Hroom Ht1) as (tk & r1 & E1 & Hi1 & _).
    destruct (call_lasting bp sched n K S r c tk r1 Hi Hroom Ht1 Hdie E1) as [Hl1 Hd1].
    rewrite E1 in E. cbn [mbind outcome_bind] in E. apply bind_Done in E as ([tk' r2] & E2 & E). injection E as <- <-.
    specialize (IH _ _ r1 tk' Hi1 Hlen ltac:(lia) ltac:(lia) Ht2 Hd1 E2).
    assert (0 <= counted_event c) by (destruct c as [e| | |]; cbn; [unfold non_polling; destruct (is_polling e)|..]; lia).
    assert (0 <= counted_events cs).
    { clear. induction cs as [|[e| | |] cs IH]; cbn; [lia|unfold non_polling; destruct (is_polling e); lia|lia..]. }
    lia.
Qed.

(** C23: a replay without [--die-on-desync] does not stay stuck on its recording, whatever the run does: once
    it has seen a thousand events per recorded one (polling retries apart), the recording is used up or was
    released, and holds no thread back. *)
Theorem replay_runs_out bp sched starts notes_all ex cs r0 taken r :
  Z.of_nat (length sched) < 2 ^ 64 ->
  5 * Z.of_nat (length cs) + Z.of_nat (length starts) < 2 ^ 64 ->
  Forall timed cs ->
  start_replay bp sched starts notes_all ex false = Done r0 -> do_calls bp r0 cs = Done (taken, r) ->
  UNMATCHED_EVENTS_BEFORE_RELEASE * Z.of_nat (length sched) <= counted_events cs ->
  inner_data (cursor r) = [].
Proof.
  intros Hlen Hroom Ht E0 E Hcount.
  destruct (start_done bp sched starts notes_all ex false Hlen)
    as (r0' & E0' & Hi0 & _ & _ & Hc0 & _ & Hu0 & _ & _ & _ & Hd0 & _).
  rewrite E0 in E0'. injection E0' as <-.
  pose proof (calls_lasting bp sched cs _ _ _ r0 taken r Hi0 Hlen ltac:(lia) ltac:(lia) Ht Hd0 E) as Hl.
  destruct (calls_done bp sched cs _ _ _ _ Hi0 Hlen ltac:(lia) ltac:(lia) Ht) as (tk & r1 & E1 & Hi & _).
  rewrite E in E1. injection E1 as <- <-. apply (lasting_pos _ _ _ _ _ Hi).
  pose proof (lasting_pos _ _ _ _ _ Hi) as [Hge _].
  assert (lasting r0 <= UNMATCHED_EVENTS_BEFORE_RELEASE * Z.of_nat (length sched)).
  { unfold lasting. rewrite Hc0, Hu0. destruct sched; simpl length; lia. }
  lia.
Qed.

(** ** Without desyncs allowed, the recorded operations in the recorded order *)

Fixpoint observe_all (bp : profile) (r : Replayer) (os : list SchedEvent) : outcome (list ReplayAction * Replayer) :=
  match os with
  | [] => Done ([], r)
  | o :: os' =>
      '(act, r) ← observe_event bp r o;
      '(acts, r) ← observe_all bp r os';
      Done (act :: acts, r)
  end.

Lemma strict_verdict sched n K S r o :
  inv sched n K S r -> Forall well_marked sched -> die_on_desync r = true -> verdict_of r o <> Fatal ->
  (verdict_of r o = PastEnd /\ inner_data (cursor r) = []) \/
  exists k e, verdict_of r o = Consumes k /\ inner_data (cursor r) !! k = Some e /\ same_operation o e.
Proof.
  intros Hi Hm Hdie. unfold verdict_of. rewrite Hdie, !andb_true_r. destruct (negb _); [done|].
  destruct (inner_data (cursor r)) as [|e l] eqn:Ec; [by left|].
  assert (Hall : forall k v, inner_data (cursor r) !! k = Some v -> well_marked v).
  { intros k v Hk. apply (proj1 (Forall_forall _ _) Hm).
    pose proof (inv_place _ _ _ _ _ Hi) as Hp. unfold placed in Hp.
    rewrite (cursor_unreleased _ _ _ _ _ Hi) in Hp by (by rewrite Ec). destruct Hp as [Hp _].
    rewrite Hp in Hk. apply list_elem_of_lookup_2 in Hk. rewrite <- (take_drop (Z.to_nat (pos r)) sched). set_solver. }
  rewrite Ec in Hall. intros Hnf. right. destruct (is_desync o e) eqn:Ed; cbn [negb] in *.
  - destruct (is_hard_desync o e) eqn:Eh; cbn [andb] in *; [done|].
    destruct (prefix_contains _ _ _) as [ix|] eqn:Ex.
    + rewrite andb_true_r in *. destruct (0 <? _)%nat; [done|].
      apply prefix_contains_Some in Ex as (_ & v & Hv & Hmt & _). rewrite Ec in Hv.
      exists ix, v. split; [done|]. split; [done|]. apply hard_desync_spec; [by eapply Hall|].
      apply match_not_hard; [by eapply Hall|]. unfold events_match in Hmt. by apply negb_true_iff in Hmt.
    + exists 0%nat, e. split; [done|]. split; [done|]. apply hard_desync_spec; [by eapply (Hall 0%nat)|done].
  - exists 0%nat, e. split; [done|]. split; [done|]. apply hard_desync_spec; [by eapply (Hall 0%nat)|].
    by apply match_not_hard; [eapply (Hall 0%nat)|].
Qed.

(** [os] runs recorded operations from position [p] on, at increasing positions, until the recording ends. *)
Inductive in_order (sched : list SchedEvent) : nat -> list SchedEvent -> Prop :=
  | in_order_done p : in_order sched p []
  | in_order_past os : in_order sched (length sched) os
  | in_order_next p q o e os :
      (p <= q)%nat -> sched !! q = Some e -> same_operation o e -> in_order sched (Datatypes.S q) os ->
      in_order sched p (o :: os).

Lemma observe_all_in_order bp sched os n K S r acts r' :
  inv sched n K S r -> Forall well_marked sched -> Z.of_nat (length sched) < 2 ^ 64 ->
  n + Z.of_nat (length os) < 2 ^ 64 -> K + 5 * Z.of_nat (length os) + S < 2 ^ 64 ->
  Forall (fun o => is_Some (end_time o)) os -> die_on_desync r = true -> release r = None ->
  observe_all bp r os = Done (acts, r') -> Stop FatalDesync ∉ acts ->
  in_order sched (Z.to_nat (pos r)) os.
Proof.
  intros Hi Hm Hlen. revert n K r acts Hi. induction os as [|o os IH];
    intros n K r acts Hi Hn HK Ht Hdie Hrel E Hno; [constructor|].
  cbn [observe_all length] in *. inversion_clear Ht as [|? ? Ht1 Ht2].
  destruct (observe_done bp sched n K S r o Hi ltac:(split; [done|lia]) Ht1) as (act & r1 & Eo & Hi1 & Hc & Hs).
  rewrite Eo in E. cbn [mbind outcome_bind] in E. apply bind_Done in E as ([acts' r2] & E2 & E).
  injection E as <- <-. apply not_elem_of_cons in Hno as [Hact Hno].
  assert (Hnf : verdict_of r o <> Fatal) by (intros Hf; unfold stepped in Hs; rewrite Hf in Hs; done).
  pose proof (pos_bound _ _ _ _ _ Hi) as Hp. pose proof (inv_place _ _ _ _ _ Hi) as Hpl.
  unfold placed in Hpl. rewrite Hrel in Hpl. destruct Hpl as (Hcur & _ & _).
  unfold stepped in Hs. destruct (strict_verdict _ _ _ _ _ o Hi Hm Hdie Hnf) as [[Hv Hc0]|(k & e & Hv & He & Hsame)].
  - assert (Z.to_nat (pos r) = length sched) as ->; [|constructor].
    pose proof (cursor_len _ _ _ _ _ Hi Hrel) as Hl. rewrite Hc0 in Hl. simpl in Hl. lia.
  - rewrite Hv in Hs. destruct Hs as (_ & _ & Hpos & _ & Hrel1 & _).
    rewrite Hcur, lookup_drop in He. eapply (in_order_next _ _ (Z.to_nat (pos r) + k)); [lia|done|done|].
    replace (Datatypes.S (Z.to_nat (pos r) + k)) with (Z.to_nat (pos r1)) by lia.
    eapply (IH (n + 1) (K + 5)); try done; [lia|lia|]. by rewrite (carried_die _ _ _ Hc).
Qed.

(** a replay under [--die-on-desync] that is not stopped ran the recorded operations in the recorded
    order: each observed event has the thread, the operation and the recorded RIPs of a recorded event, at
    increasing positions, until the recording is used up. *)
Theorem strict_replay_in_order bp sched starts notes_all ex os r0 acts r :
  Z.of_nat (length sched) < 2 ^ 64 -> Forall well_marked sched ->
  5 * Z.of_nat (length os) + Z.of_nat (length starts) < 2 ^ 64 ->
  Forall (fun o => is_Some (end_time o)) os ->
  start_replay bp sched starts notes_all ex true = Done r0 -> observe_all bp r0 os = Done (acts, r) ->
  Stop FatalDesync ∉ acts -> in_order sched 0 os.
Proof.
  intros Hlen Hm Hroom Ht E0 E Hno.
  destruct (start_done bp sched starts notes_all ex true Hlen)
    as (r0' & E0' & Hi0 & _ & Hp0 & _ & Hr0 & _ & _ & _ & _ & Hd0 & _).
  rewrite E0 in E0'. injection E0' as <-.
  pose proof (observe_all_in_order bp sched os _ _ _ r0 acts r Hi0 Hm Hlen ltac:(lia) ltac:(lia) Ht Hd0 Hr0 E Hno) as H.
  by rewrite Hp0 in H.
Qed.

(** ** Kept retry turns *)

Fixpoint keep_turns (n : nat) (tid : DetTid) (r : Replayer) : list bool :=
  match n with
  | O => []
  | Datatypes.S n' => let '(b, r') := keep_retry_turn r tid in b :: keep_turns n' tid r'
  end.
Lemma keep_turns_from n tid r k :
  kept_retry r = Some (tid, len (cursor r), k) -> 0 <= k <= u32_max ->
  keep_turns n tid r = (fun i => (Z.min u32_max (k + Z.of_nat i) <=? REPLAY_KEPT_RETRY_LIMIT)) <$> seq 1 n.
Proof.
  revert r k. induction n as [|n IH]; intros r k Hk Hle; [done|].
  cbn [keep_turns]. unfold keep_retry_turn. rewrite Hk, Z.eqb_refl, Nat.eqb_refl. cbn [andb seq fmap list_fmap].
  f_equal. erewrite (IH _ (Z.min u32_max (k + 1))); [|reflexivity|unfold u32_max in *; lia].
  rewrite <- (fmap_S_seq 1 n), <- list_fmap_compose. apply list_fmap_ext. intros _ i _. cbn.
  f_equal. unfold u32_max in *. lia.
Qed.

(** a polling thread keeps its turn for exactly a thousand retries in a row while the recording does not
    advance, and backs off on every later one. *)
Theorem kept_retries_exact n tid r :
  (forall t l k, kept_retry r = Some (t, l, k) -> t <> tid \/ l <> len (cursor r)) ->
  keep_turns n tid r = (fun i => Z.of_nat i <? REPLAY_KEPT_RETRY_LIMIT) <$> seq 0 n.
Proof.
  intros Hnew. destruct n as [|n]; [done|]. cbn [keep_turns]. unfold keep_retry_turn.
  assert ((match kept_retry r with
    | Some (t, remained, kept) => if (t =? tid) && (remained =? len (cursor r))%nat then Z.min u32_max (kept + 1) else 1
    | None => 1 end) = 1) as ->.
  { destruct (kept_retry r) as [[[t l] k]|]; [|done]. specialize (Hnew t l k eq_refl).
    destruct (Z.eqb_spec t tid), (Nat.eqb_spec l (len (cursor r))); cbn; try done. naive_solver. }
  erewrite keep_turns_from; [|reflexivity|unfold u32_max; lia].
  cbn [seq fmap list_fmap]. f_equal. apply list_fmap_ext. intros x i Hi. apply lookup_seq in Hi as [-> _].
  unfold REPLAY_KEPT_RETRY_LIMIT, u32_max. destruct (Z.leb_spec (Z.min (2 ^ 32 - 1) (1 + Z.of_nat (1 + x))) 1000),
    (Z.ltb_spec (Z.of_nat (1 + x)) 1000); lia.
Qed.

(** * The schedule replayer: the theorems on a concrete recording *)

(** Thread 3 enters a read, thread 5's background call begins, thread 5 runs, thread 3 returns. *)
Definition ev_enter : SchedEvent := with_time (syscall 3 0 Prehook) 100.
Definition ev_run : SchedEvent := with_time (branches 5 40) 200.
Definition ev_return : SchedEvent := with_time (syscall 3 0 Posthook) 300.
Definition ev_other : SchedEvent := with_time (syscall 5 1 Prehook) 250.
Definition example_record : list decision := [Ran ev_enter; Began 5 7; Ran ev_run; Ran ev_return].
Definition example_sched : list SchedEvent := events_of example_record.
Definition example_starts : list BackgroundStart := starts_of 0 example_record.

Lemma example_timed : Forall timed [Observe ev_enter; Take 5 7; Observe ev_run; Observe ev_other; KeepRetry 5].
Proof. repeat constructor; eexists; reflexivity. Qed.
Lemma replay_accounts_for_recording_witness :
  exists r0 taken r,
    start_replay validate example_sched example_starts true false false = Done r0 /\
    do_calls validate r0 [Observe ev_enter; Take 5 7; Observe ev_run; Observe ev_other; KeepRetry 5] = Done (taken, r) /\
    taken = [(5, 7, 1)] /\ pos r = 2.
Proof.
  destruct (replay_accounts_for_recording validate example_sched example_starts true false false
    [Observe ev_enter; Take 5 7; Observe ev_run; Observe ev_other; KeepRetry 5])
    as (r0 & taken & r & E0 & E & _); [vm_compute; reflexivity|vm_compute; reflexivity|apply example_timed|].
  exists r0, taken, r. split; [exact E0|]. split; [exact E|].
  vm_compute in E0. injection E0 as <-. vm_compute in E. injection E as <- <-. split; reflexivity.
Defined.

Lemma replay_follows_recording_witness :
  exists r0 r, start_replay Prelude.release example_sched example_starts true true true = Done r0 /\
    follows Prelude.release r0 example_record r /\ has_events_left r = false.
Proof.
  destruct (replay_follows_recording Prelude.release example_record example_record true true true)
    as (r0 & r & E0 & Hf & Hl & _); [|vm_compute; reflexivity|].
  - repeat constructor; try reflexivity; eexists; reflexivity.
  - exists r0, r. split; [exact E0|]. split; [exact Hf|exact Hl].
Defined.

(** Thread 5's start is due before [ev_run] and was not taken. *)
Definition strict_start : outcome Replayer := start_replay validate example_sched example_starts true false true.
Definition strict_calls : list call_ := [Observe ev_enter].
Lemma example_marked : Forall well_marked example_sched.
Proof. repeat constructor. Qed.
Lemma replay_stops_exactly_witness :
  exists r0 taken r r', strict_start = Done r0 /\ do_calls validate r0 strict_calls = Done (taken, r) /\
    departs r ev_run /\ observe_event validate r ev_run = Done (Stop FatalDesync, r').
Proof.
  destruct strict_start as [r0|] eqn:E0; [|vm_compute in E0; discriminate].
  destruct (do_calls validate r0 strict_calls) as [[taken r]|] eqn:E.
  2:{ vm_compute in E0. injection E0 as <-. vm_compute in E. discriminate. }
  destruct (replay_stops_exactly validate example_sched example_starts true false true strict_calls ev_run r0 taken r)
    as (act & r' & Eo & Hf & _);
    [vm_compute; reflexivity|apply example_marked|vm_compute; reflexivity|
     repeat constructor; eexists; reflexivity|eexists; reflexivity|exact E0|exact E|].
  assert (Hd : die_on_desync r = true /\ departs r ev_run).
  { vm_compute in E0. injection E0 as <-. vm_compute in E. injection E as <- <-.
    split; [reflexivity|]. left. discriminate. }
  exists r0, taken, r, r'. split; [reflexivity|]. split; [exact E|]. split; [apply Hd|].
  apply Hf in Hd. subst act. exact Eo.
Defined.

(** A run that never makes the recorded event. *)
Definition stuck_calls : list call_ := replicate 1000 (Observe ev_other).
Lemma replay_runs_out_witness :
  exists r0 taken r, start_replay validate [ev_enter] [] true false false = Done r0 /\
    do_calls validate r0 stuck_calls = Done (taken, r) /\ inner_data (cursor r) = [].
Proof.
  destruct (start_replay validate [ev_enter] [] true false false) as [r0|] eqn:E0; [|vm_compute in E0; discriminate].
  destruct (do_calls validate r0 stuck_calls) as [[taken r]|] eqn:E.
  2:{ vm_compute in E0. injection E0 as <-. vm_compute in E. discriminate. }
  exists r0, taken, r. split; [reflexivity|]. split; [exact E|].
  apply (replay_runs_out validate [ev_enter] [] true false stuck_calls r0 taken r);
    [vm_compute; reflexivity|vm_compute; reflexivity| |exact E0|exact E|vm_compute; discriminate].
  apply Forall_replicate. eexists. reflexivity.
Defined.

Lemma strict_replay_in_order_witness :
  exists r0 acts r, start_replay validate example_sched [] true false true = Done r0 /\
    observe_all validate r0 [ev_enter; ev_run] = Done (acts, r) /\ in_order example_sched 0 [ev_enter; ev_run].
Proof.
  destruct (start_replay validate example_sched [] true false true) as [r0|] eqn:E0; [|vm_compute in E0; discriminate].
  destruct (observe_all validate r0 [ev_enter; ev_run]) as [[acts r]|] eqn:E.
  2:{ vm_compute in E0. injection E0 as <-. vm_compute in E. discriminate. }
  exists r0, acts, r. split; [reflexivity|]. split; [exact E|].
  apply (strict_replay_in_order validate example_sched [] true false [ev_enter; ev_run] r0 acts r);
    [vm_compute; reflexivity|apply example_marked|vm_compute; reflexivity|
     repeat constructor; eexists; reflexivity|exact E0|exact E|].
  vm_compute in E0. injection E0 as <-. vm_compute in E. injection E as <- _.
  intros H. repeat (apply elem_of_cons in H as [H|H]; [discriminate|]). by apply elem_of_nil in H.
Defined.

Lemma kept_retries_exact_witness :
  (forall t l k, kept_retry (new example_sched) = Some (t, l, k) -> t <> 3 \/ l <> len (cursor (new example_sched))) /\
  last (keep_turns 1001 3 (new example_sched)) = Some false.
Proof.
  assert (H : forall t l k, kept_retry (new example_sched) = Some (t, l, k) ->
    t <> 3 \/ l <> len (cursor (new example_sched))) by discriminate.
  split; [exact H|]. rewrite (kept_retries_exact 1001 3 (new example_sched) H). vm_compute. reflexivity.
Defined.
