(* ===== verification/FairContinuation.v ===== *)
(** * The fair continuation (src/detcore/src/scheduler/fair_continuation.rs)

    Past the end of a replayed schedule, [--replay-continue-fairly] orders the
    threads in round-robin order by the virtual time each has run.  The accounts
    are a map by thread; the clocks come as an ordered map with a slot for every
    registered thread.  Run times saturate at [u64]. *)
From Stdlib Require Import ZArith Lia List.
From stdpp Require Import base gmap list.
From S2P Require Import Prelude BTree RunQueue.
Open Scope Z_scope.

Module FairContinuation.

Record Clock := { current : Z; inherited : Z }.
Record Account := {
  clock : option Z;
  run_time : Z;
  runnable : bool;
  last_selected : Z;
}.
Record FairContinuation := {
  accounts : gmap DetTid Account;
  floor : Z;
  selections : Z;
}.
Definition fair_default : FairContinuation := {| accounts := ∅; floor := 0; selections := 0 |}.

(** [runnable.binary_search(&tid).is_ok()]: membership, of a sorted slice. *)
Definition binary_search_is_ok (sorted : list DetTid) (tid : DetTid) : bool := bool_decide (tid ∈ sorted).

(** The body of the loop over the clocks. *)
Definition update_account (floor : Z) (reported : option Clock) (is_runnable : bool) (account : Account) : Account :=
  let account :=
    match reported with
    | Some c =>
        let previous := default (inherited c) (clock account) in
        let ran := sat_sub_u64 (current c) previous in
        {| clock := Some (current c); run_time := sat_add_u64 (run_time account) ran;
           runnable := runnable account; last_selected := last_selected account |}
    | None => account
    end in
  let account :=
    if is_runnable && negb (runnable account)
    then {| clock := clock account; run_time := Z.max (run_time account) floor;
            runnable := runnable account; last_selected := 0 |}
    else account in
  {| clock := clock account; run_time := run_time account; runnable := is_runnable;
     last_selected := last_selected account |}.
Definition new_account (floor : Z) (reported : option Clock) : Account :=
  {| clock := current <$> reported; run_time := floor; runnable := false; last_selected := 0 |}.
Definition charge (floor : Z) (run : list DetTid) (accounts : gmap DetTid Account)
    (slot : DetTid * option Clock) : gmap DetTid Account :=
  let account := default (new_account floor slot.2) (accounts !! slot.1) in
  <[slot.1 := update_account floor slot.2 (binary_search_is_ok run slot.1) account]> accounts.

Definition list_min (l : list Z) : option Z :=
  match l with [] => None | x :: l' => Some (foldl Z.min x l') end.

Definition run_times (self : FairContinuation) (clocks : list (DetTid * option Clock)) (run : list DetTid)
    : list (DetTid * (Z * Z)) * FairContinuation :=
  let retained := filter (fun kv : DetTid * Account => bt_mem kv.1 clocks = true) (accounts self) in
  let accounts' := foldl (charge (floor self) run) retained clocks in
  let keys := (fun tid => (tid, match accounts' !! tid with
                                | Some account => (run_time account, last_selected account)
                                | None => (floor self, 0)
                                end)) <$> run in
  let floor' := match list_min ((fun k => k.2.1) <$> keys) with
                | Some least => Z.max (floor self) least
                | None => floor self
                end in
  (keys, {| accounts := accounts'; floor := floor'; selections := selections self |}).

Definition note_selected (bp : profile) (self : FairContinuation) (tid : DetTid) : outcome FairContinuation :=
  n ← arith_u bp 64 (selections self + 1);
  Done {| accounts := match accounts self !! tid with
                      | Some a => <[tid := {| clock := clock a; run_time := run_time a; runnable := runnable a;
                                              last_selected := n |}]> (accounts self)
                      | None => accounts self
                      end;
          floor := floor self; selections := n |}.

Definition reassign (self : FairContinuation) (from to : DetTid) : FairContinuation :=
  if from =? to then self
  else {| accounts := match accounts self !! from with
                      | Some account => <[to := account]> (delete from (accounts self))
                      | None => delete to (delete from (accounts self))
                      end;
          floor := floor self; selections := selections self |}.

(** ** [Scheduler::order_continuation_fairly] (src/detcore/src/scheduler.rs)

    The part of the scheduler it reads and writes; [priorities] has a key for
    every registered thread. *)
Section Order.
Context (bp : profile) {G : Type} `{!Rng G}.
Record Continuation := {
  run_queue : RunQueue G;
  priorities : list (DetTid * Z);
  continuation_clocks : list (DetTid * option Clock);
  replay_priorities_released : bool;
  fair : option FairContinuation;
}.
Definition order_continuation_fairly (s : Continuation) : outcome Continuation :=
  if negb (replay_priorities_released s) then Done s
  else match fair s with
  | None => Done s
  | Some f =>
      let kept := List.filter (fun kv : DetTid * option Clock => bt_mem kv.1 (priorities s)) (continuation_clocks s) in
      let clocks := foldl (fun m p => if bt_mem (fst p) m then m else bt_insert (fst p) None m) kept (priorities s) in
      let run := round_robin_tids (run_queue s) in
      let '(keys, f') := run_times f clocks run in
      q ← order_by_run_time bp (run_queue s) keys;
      Done {| run_queue := q; priorities := priorities s; continuation_clocks := clocks;
              replay_priorities_released := replay_priorities_released s; fair := Some f' |}
  end.
End Order.
Arguments Continuation : clear implicits.
End FairContinuation.
