(* ===== verification/FairContinuationProps.v ===== *)
(** * The fair continuation: lag and starvation bounds *)
From Stdlib Require Import ZArith Lia List Sorting.Sorted.
From stdpp Require Import base gmap list.
From S2P Require Import Prelude BTree RunQueue RunQueueInv RunQueueOrder RunQueueProps FairContinuation.
Import FairContinuation.
Open Scope Z_scope.

(** ** What a pass does to one account *)

Lemma charge_lookup fl run clocks m t :
  bt_ok clocks ->
  foldl (charge fl run) m clocks !! t =
  match bt_get t clocks with
  | Some slot => Some (update_account fl slot (binary_search_is_ok run t) (default (new_account fl slot) (m !! t)))
  | None => m !! t
  end.
Proof.
  revert m. induction clocks as [|[k slot] clocks IH]; intros m Hok; [done|].
  pose proof (proj1 (bt_ok_cons _ _ _) Hok) as [Hok' Hk]. cbn [foldl bt_get].
  rewrite (IH _ Hok'). unfold charge. cbn [fst snd].
  destruct (kcmp t k) eqn:E.
  - apply kcmp_eq in E. subst k. rewrite (bt_get_lt _ _ Hk). by rewrite lookup_insert_eq.
  - assert (t <> k) by (intros ->; by rewrite kcmp_refl in E).
    rewrite bt_get_lt; [by rewrite lookup_insert_ne|].
    eapply Forall_impl; [exact Hk|]. intros kv Hkv. cbn beta in *. by transitivity k.
  - assert (t <> k) by (intros ->; by rewrite kcmp_refl in E).
    destruct (bt_get t clocks); by rewrite lookup_insert_ne.
Qed.

Definition pass_accounts (f : FairContinuation) (clocks : list (DetTid * option Clock)) (run : list DetTid) :=
  accounts (run_times f clocks run).2.
Lemma pass_lookup f clocks run t :
  bt_ok clocks ->
  pass_accounts f clocks run !! t =
  match bt_get t clocks with
  | Some slot => Some (update_account (floor f) slot (binary_search_is_ok run t)
                         (default (new_account (floor f) slot) (accounts f !! t)))
  | None => None
  end.
Proof.
  intros Hok. unfold pass_accounts, run_times. cbn [snd accounts]. rewrite (charge_lookup _ _ _ _ _ Hok).
  rewrite map_lookup_filter. unfold bt_mem.
  destruct (bt_get t clocks) as [slot|] eqn:E.
  - destruct (accounts f !! t) as [a|]; [|done]. cbn. rewrite option_guard_True; [done|]. cbn. by rewrite E.
  - destruct (accounts f !! t) as [a|]; [|done]. cbn. rewrite option_guard_False; [done|]. cbn. by rewrite E.
Qed.

(** Time the thread's clock has that its account was not charged yet. *)
Definition outstanding (a : Account) (slot : option Clock) : Z :=
  match slot with Some c => sat_sub_u64 (current c) (default (inherited c) (clock a)) | None => 0 end.

Definition account_ok (Q fl : Z) (a : Account) (slot : option Clock) : Prop :=
  0 <= run_time a <= u64_max /\ run_time a + outstanding a slot <= fl + Q /\
  (runnable a = true -> fl <= run_time a).

Lemma update_ok Q fl slot b a :
  0 <= fl <= u64_max -> 0 <= Q -> account_ok Q fl a slot ->
  let a' := update_account fl slot b a in
  0 <= run_time a' <= u64_max /\ run_time a' <= fl + Q /\ (b = true -> fl <= run_time a') /\
  runnable a' = b /\ (forall c, slot = Some c -> clock a' = Some (current c)) /\ (slot = None -> clock a' = clock a).
Proof.
  intros Hf HQ (H1 & H2 & H3). unfold update_account, outstanding in *.
  destruct slot as [c|]; cbn [run_time clock runnable last_selected] in *.
  - assert (Hs : 0 <= sat_sub_u64 (current c) (default (inherited c) (clock a))) by (unfold sat_sub_u64; lia).
    set (d := sat_sub_u64 _ _) in *. unfold sat_add_u64.
    destruct b, (runnable a) eqn:Er; cbn;
      (split; [lia|split; [lia|split; [intros Hb; first [discriminate Hb|specialize (H3 eq_refl); lia|lia]|]]]);
      (split; [done|split; [naive_solver|done]]).
  - destruct b, (runnable a) eqn:Er; cbn;
      (split; [lia|split; [lia|split; [intros Hb; first [discriminate Hb|specialize (H3 eq_refl); lia|lia]|]]]);
      (split; [done|split; [done|done]]).
Qed.
Lemma outstanding_after fl slot b a : outstanding (update_account fl slot b a) slot = 0.
Proof.
  unfold outstanding, update_account. destruct slot as [c|]; [|done].
  cbn. destruct (b && _); cbn; unfold sat_sub_u64; lia.
Qed.
Lemma new_account_ok Q fl slot : 0 <= fl <= u64_max -> 0 <= Q -> account_ok Q fl (new_account fl slot) slot.
Proof.
  intros Hf HQ. unfold account_ok, outstanding, new_account. destruct slot as [c|]; cbn; [|split; [lia|split; [lia|done]]].
  unfold sat_sub_u64. split; [lia|split; [lia|done]].
Qed.

(** ** The invariant: no account is more than a slice ahead of the floor *)

Record fair_inv (Q : Z) (f : FairContinuation) (clocks : list (DetTid * option Clock)) : Prop := {
  fi_slice : 0 <= Q;
  fi_clocks : bt_ok clocks;
  fi_floor : 0 <= floor f <= u64_max;
  fi_accounts : forall t a slot, accounts f !! t = Some a -> bt_get t clocks = Some slot ->
    account_ok Q (floor f) a slot /\ (slot = None -> clock a = None);
}.

Lemma list_min_least l : match list_min l with
  | Some m => m ∈ l /\ Forall (fun x => m <= x) l
  | None => l = []
  end.
Proof.
  destruct l as [|x l]; [done|]. cbn. revert x. induction l as [|y l IH]; intros x; cbn.
  - split; [set_solver|]. repeat constructor. lia.
  - destruct (IH (Z.min x y)) as [H1 H2]. inversion_clear H2 as [|? ? H3 H4]. split.
    + apply elem_of_cons in H1 as [H1|H1]; [|set_solver]. rewrite H1. destruct (Z.min_spec x y) as [[_ ->]|[_ ->]]; set_solver.
    + constructor; [lia|]. constructor; [lia|done].
Qed.

Definition pass_keys (f : FairContinuation) (clocks : list (DetTid * option Clock)) (run : list DetTid) :=
  (run_times f clocks run).1.
Lemma pass_key f clocks run t r s :
  bt_ok clocks -> (forall u, u ∈ run -> is_Some (bt_get u clocks)) ->
  (t, (r, s)) ∈ pass_keys f clocks run <->
  t ∈ run /\ exists a, pass_accounts f clocks run !! t = Some a /\ r = run_time a /\ s = last_selected a.
Proof.
  intros Hok Hrun. unfold pass_keys, run_times. cbn [fst]. rewrite list_elem_of_fmap.
  change (foldl _ _ clocks) with (pass_accounts f clocks run). split.
  - intros (u & E & Hu). injection E as -> E. split; [done|]. rewrite (pass_lookup _ _ _ _ Hok) in *.
    destruct (Hrun u Hu) as [slot Es]. rewrite Es in *. injection E as -> ->. eauto.
  - intros (Ht & a & Ha & -> & ->). exists t. by rewrite Ha.
Qed.

Lemma pass_inv Q f clocks run :
  fair_inv Q f clocks -> (forall u, u ∈ run -> is_Some (bt_get u clocks)) ->
  fair_inv Q (run_times f clocks run).2 clocks /\
  floor f <= floor (run_times f clocks run).2 /\
  (forall t r s, (t, (r, s)) ∈ pass_keys f clocks run -> floor (run_times f clocks run).2 <= r <= floor f + Q) /\
  (forall t a slot, pass_accounts f clocks run !! t = Some a -> bt_get t clocks = Some slot ->
     run_time a <= floor f + Q /\ (forall c, slot = Some c -> clock a = Some (current c)) /\
     (slot = None -> clock a = None)).
Proof.
  intros [HQ Hok Hfl Hacc] Hrun.
  assert (Hupd : forall t a slot, pass_accounts f clocks run !! t = Some a -> bt_get t clocks = Some slot ->
    outstanding a slot = 0 /\ 0 <= run_time a <= u64_max /\ run_time a <= floor f + Q /\
    (t ∈ run -> floor f <= run_time a) /\ runnable a = binary_search_is_ok run t /\
    (forall c, slot = Some c -> clock a = Some (current c)) /\ (slot = None -> clock a = None)).
  { intros t a slot Ha Hs. rewrite (pass_lookup _ _ _ _ Hok), Hs in Ha. injection Ha as <-.
    split; [apply outstanding_after|].
    assert (Hold : account_ok Q (floor f) (default (new_account (floor f) slot) (accounts f !! t)) slot /\
      (slot = None -> clock (default (new_account (floor f) slot) (accounts f !! t)) = None)).
    { destruct (accounts f !! t) as [a|] eqn:E; cbn; [by eapply Hacc|]. split; [by apply new_account_ok|by intros ->]. }
    destruct Hold as [Hold Hnone].
    destruct (update_ok Q (floor f) slot (binary_search_is_ok run t) _ Hfl HQ Hold) as (H1 & H2 & H3 & H4 & H5 & H6).
    split; [done|]. split; [done|]. split; [|split; [done|]; split; [done|]; intros E; by rewrite (H6 E), (Hnone E)]. intros Ht. apply H3. unfold binary_search_is_ok.
    by apply bool_decide_eq_true. }
  set (keys := pass_keys f clocks run).
  assert (Hkeys : forall t r s, (t, (r, s)) ∈ keys -> floor f <= r <= floor f + Q /\ r <= u64_max).
  { intros t r s (Ht & a & Ha & -> & ->)%pass_key; [|done|done]. destruct (Hrun t Ht) as [slot Hs].
    destruct (Hupd t a slot Ha Hs) as (_ & ? & ? & Hge & _ & _). specialize (Hge Ht). lia. }
  assert (Hfloor : floor (run_times f clocks run).2 = match list_min ((fun k => k.2.1) <$> keys) with
    | Some least => Z.max (floor f) least | None => floor f end) by done.
  pose proof (list_min_least ((fun k => k.2.1) <$> keys)) as Hmin.
  assert (Hfl' : floor f <= floor (run_times f clocks run).2 <= u64_max /\
    forall t r s, (t, (r, s)) ∈ keys -> floor (run_times f clocks run).2 <= r).
  { rewrite Hfloor. destruct (list_min _) as [m|].
    - destruct Hmin as [Hm1 Hm2]. apply list_elem_of_fmap_1 in Hm1 as ([t [r s]] & -> & Hin).
      pose proof (Hkeys _ _ _ Hin) as Hr. cbn [fst snd] in *. split; [lia|]. intros t' r' s' Hin'.
      rewrite Forall_fmap, Forall_forall in Hm2. specialize (Hm2 _ Hin'). cbn in Hm2.
      pose proof (Hkeys _ _ _ Hin'). lia.
    - apply fmap_nil_inv in Hmin. rewrite Hmin. split; [lia|]. intros ? ? ? H. by apply elem_of_nil in H. }
  destruct Hfl' as [Hfl' Hge]. split; [|split; [lia|split]].
  - split; [done|done|lia|]. intros t a slot Ha Hs. destruct (Hupd t a slot Ha Hs) as (H1 & H2 & H3 & H4 & H5 & _ & H6).
    split; [|done]. split; [done|]. rewrite H1. split; [lia|]. rewrite H5. intros Ht. unfold binary_search_is_ok in Ht.
    apply bool_decide_eq_true in Ht. apply (Hge t (run_time a) (last_selected a)). apply pass_key; eauto.
  - intros t r s Hin. split; [by eapply Hge|]. apply (Hkeys _ _ _ Hin).
  - intros t a slot Ha Hs. by destruct (Hupd t a slot Ha Hs) as (_ & _ & H3 & _ & _ & H5 & H6).
Qed.

(** ** The continuation as a run of turns *)

Record world := { wf : FairContinuation; wclocks : list (DetTid * option Clock) }.

(** [t] is first in the order of the keys: run time, then last selection, then thread. *)
Definition first_key (keys : list (DetTid * (Z * Z))) (t : DetTid) : Prop :=
  exists w, (t, w) ∈ keys /\ forall u w', (u, w') ∈ keys -> kle (w, t) (w', u).

(** A turn of [d] nanoseconds: the thread's clock advances, and a thread that had not reported yet does. *)
Definition advance (d inh : Z) (slot : option Clock) : option Clock :=
  match slot with
  | Some c => Some {| current := current c + d; inherited := inherited c |}
  | None => Some {| current := inh + d; inherited := inh |}
  end.

(** What can happen, when no slice is longer than [Q]: the first of the threads in round-robin order has a
    turn, a thread is created or exits, a created thread's first report comes before its first turn, and a
    thread that execs takes over its leader's id. *)
Inductive world_step (bp : profile) (Q : Z) : world -> world -> Prop :=
  | step_turn f clocks run t d inh slot f' :
      (forall u, u ∈ run -> is_Some (bt_get u clocks)) -> StronglySorted Z.le run ->
      first_key (pass_keys f clocks run) t -> 0 <= d <= Q -> bt_get t clocks = Some slot ->
      note_selected bp (run_times f clocks run).2 t = Done f' ->
      world_step bp Q {| wf := f; wclocks := clocks |}
        {| wf := f'; wclocks := bt_insert t (advance d inh slot) clocks |}
  | step_create f clocks t slot :
      bt_get t clocks = None -> accounts f !! t = None ->
      world_step bp Q {| wf := f; wclocks := clocks |} {| wf := f; wclocks := bt_insert t slot clocks |}
  | step_report f clocks t inh :
      bt_get t clocks = Some None ->
      world_step bp Q {| wf := f; wclocks := clocks |}
        {| wf := f; wclocks := bt_insert t (Some {| current := inh; inherited := inh |}) clocks |}
  | step_exit f clocks t :
      world_step bp Q {| wf := f; wclocks := clocks |} {| wf := f; wclocks := bt_remove t clocks |}
  | step_exec f clocks from to slot :
      from <> to -> bt_get from clocks = Some slot ->
      world_step bp Q {| wf := f; wclocks := clocks |}
        {| wf := reassign f from to; wclocks := bt_insert to slot (bt_remove from clocks) |}.

Lemma advance_outstanding a slot d inh :
  0 <= d -> (forall c, slot = Some c -> clock a = Some (current c)) -> (slot = None -> clock a = None) ->
  outstanding a (advance d inh slot) = d.
Proof.
  intros Hd Hs Hn. unfold outstanding, advance. destruct slot as [c|]; cbn.
  - rewrite (Hs c eq_refl). cbn. unfold sat_sub_u64. lia.
  - rewrite (Hn eq_refl). cbn. unfold sat_sub_u64. lia.
Qed.

Lemma pass_account_some f clocks run t slot :
  bt_ok clocks -> bt_get t clocks = Some slot -> is_Some (pass_accounts f clocks run !! t).
Proof. intros Hok Hs. rewrite (pass_lookup _ _ _ _ Hok), Hs. eauto. Qed.

(** The thread with the first key has the floor's run time. *)
Lemma first_key_floor Q f clocks run t a :
  fair_inv Q f clocks -> (forall u, u ∈ run -> is_Some (bt_get u clocks)) ->
  first_key (pass_keys f clocks run) t -> pass_accounts f clocks run !! t = Some a ->
  run_time a <= floor (run_times f clocks run).2.
Proof.
  intros Hi Hrun ([r s] & Hin & Hleast) Ha. pose proof (fi_clocks _ _ _ Hi) as Hok.
  apply pass_key in Hin as (Ht & a' & Ha' & -> & ->); [|done|done]. rewrite Ha in Ha'. injection Ha' as <-.
  change (floor (run_times f clocks run).2) with (match list_min ((fun k => k.2.1) <$> pass_keys f clocks run) with
    | Some least => Z.max (floor f) least | None => floor f end).
  pose proof (list_min_least ((fun k => k.2.1) <$> pass_keys f clocks run)) as Hmin.
  destruct (list_min _) as [m|].
  - destruct Hmin as [Hm _]. apply list_elem_of_fmap_1 in Hm as ([u [r' s']] & -> & Hu).
    specialize (Hleast u (r', s') Hu). do 2 apply kle_fst in Hleast. apply (proj1 (kle_Z _ _)) in Hleast. cbn. lia.
  - apply fmap_nil_inv in Hmin.
    assert (H : (t, (run_time a, last_selected a)) ∈ pass_keys f clocks run) by (apply pass_key; eauto).
    rewrite Hmin in H. by apply elem_of_nil in H.
Qed.

Lemma step_fair bp Q w w' :
  world_step bp Q w w' -> fair_inv Q (wf w) (wclocks w) -> fair_inv Q (wf w') (wclocks w').
Proof.
  intros Hstep Hi. destruct Hstep as [f clocks run t d inh slot f' Hrun _ Hfirst Hd Hslot Hnote
    |f clocks t slot Hnew Hacc|f clocks t inh Hslot|f clocks t|f clocks from to slot Hne Hslot]; cbn [wf wclocks] in *.
  - destruct (pass_inv Q f clocks run Hi Hrun) as (Hi1 & Hmono & _ & Hpass).
    unfold note_selected in Hnote. apply bind_Done in Hnote as (n & _ & E). injection E as <-.
    destruct Hi1 as [HQ Hok Hfl Ha]. split; [done|by apply bt_insert_ok|exact Hfl|].
    intros u a slot' Hu Hs'. cbn [accounts] in Hu.
    match goal with |- account_ok _ (floor ?x) _ _ /\ _ => change (floor x) with (floor (run_times f clocks run).2) end.
    change (foldl (charge (floor f) run) _ clocks) with (pass_accounts f clocks run) in Hu.
    assert (Hua : exists b, pass_accounts f clocks run !! u = Some b /\ run_time a = run_time b /\
      clock a = clock b /\ runnable a = runnable b).
    { revert Hu. destruct (pass_accounts f clocks run !! t) as [b|] eqn:Eb; intros Hu; [|by exists a].
      destruct (decide (u = t)) as [->|Hut]; [rewrite lookup_insert_eq in Hu; injection Hu as <-; by exists b|].
      rewrite lookup_insert_ne in Hu by done. by exists a. }
    destruct Hua as (b & Hb & E1 & E2 & E3). destruct (decide (u = t)) as [->|Hut].
    + rewrite bt_get_insert_eq in Hs' by done. injection Hs' as <-.
      destruct (Ha t b slot Hb Hslot) as [(K1 & K2 & K3) _]. destruct (Hpass t b slot Hb Hslot) as (K4 & K5 & K6).
      assert (Hout : outstanding a (advance d inh slot) = d).
      { apply advance_outstanding; [lia| |]; intros; rewrite E2; eauto. }
      pose proof (first_key_floor Q f clocks run t b Hi Hrun Hfirst Hb) as Hle.
      split; [|by destruct slot]. unfold account_ok. rewrite E1, E3, Hout. split; [done|]. split; [lia|done].
    + rewrite bt_get_insert_ne in Hs' by done. destruct (Ha u b slot' Hb Hs') as [(K1 & K2 & K3) K4].
      unfold account_ok, outstanding in *. rewrite E1, E2, E3. done.
  - destruct Hi as [HQ Hok Hfl Ha]. split; [done|by apply bt_insert_ok|done|]. intros u a slot' Hu Hs'.
    assert (u <> t) by congruence. rewrite bt_get_insert_ne in Hs' by done. by eapply Ha.
  - destruct Hi as [HQ Hok Hfl Ha]. split; [done|by apply bt_insert_ok|done|]. intros u a slot' Hu Hs'.
    destruct (decide (u = t)) as [->|Hut].
    + rewrite bt_get_insert_eq in Hs' by done. injection Hs' as <-. destruct (Ha t a None Hu Hslot) as [(K1 & K2 & K3) K4].
      split; [|done]. unfold account_ok, outstanding in *. rewrite (K4 eq_refl). cbn.
      unfold sat_sub_u64. rewrite Z.sub_diag. done.
    + rewrite bt_get_insert_ne in Hs' by done. by eapply Ha.
  - destruct Hi as [HQ Hok Hfl Ha]. split; [done|by apply bt_remove_ok|done|]. intros u a slot' Hu Hs'.
    assert (u <> t) by (intros ->; by rewrite bt_get_remove_eq in Hs'). rewrite bt_get_remove_ne in Hs' by done. by eapply Ha.
  - destruct Hi as [HQ Hok Hfl Ha]. unfold reassign. rewrite (proj2 (Z.eqb_neq _ _) Hne).
    split; cbn [floor accounts]; [done|by apply bt_insert_ok, bt_remove_ok|done|]. intros u a slot' Hu Hs'.
    destruct (decide (u = to)) as [->|Hut].
    + rewrite bt_get_insert_eq in Hs' by (by apply bt_remove_ok). injection Hs' as <-.
      destruct (accounts f !! from) as [b|] eqn:Eb.
      * rewrite lookup_insert_eq in Hu. injection Hu as <-. by eapply Ha.
      * by rewrite lookup_delete_eq in Hu.
    + rewrite bt_get_insert_ne in Hs' by (done || by apply bt_remove_ok).
      assert (u <> from) by (intros ->; by rewrite bt_get_remove_eq in Hs').
      rewrite bt_get_remove_ne in Hs' by done.
      assert (accounts f !! u = Some a); [|by eapply Ha].
      destruct (accounts f !! from); [rewrite lookup_insert_ne in Hu by done|rewrite lookup_delete_ne in Hu by done];
        by rewrite lookup_delete_ne in Hu.
Qed.

Definition reachable (bp : profile) (Q : Z) (w : world) : Prop :=
  exists clocks, bt_ok clocks /\ rtc (world_step bp Q) {| wf := fair_default; wclocks := clocks |} w.
Lemma reachable_fair bp Q w : 0 <= Q -> reachable bp Q w -> fair_inv Q (wf w) (wclocks w).
Proof.
  intros HQ (clocks & Hok & Hrtc). assert (H0 : fair_inv Q fair_default clocks).
  { split; [done|done|unfold u64_max; cbn; lia|]. intros t a slot Ha. cbn in Ha. by rewrite lookup_empty in Ha. }
  remember {| wf := fair_default; wclocks := clocks |} as w0 eqn:Ew.
  assert (Hw0 : fair_inv Q (wf w0) (wclocks w0)) by (by subst). clear Ew H0 Hok.
  induction Hrtc as [w|w w1 w2 Hs _ IH]; [done|]. apply IH. by eapply step_fair.
Qed.

(** the fair continuation keeps the threads in round-robin order within one slice of each other: where no
    turn runs longer than [Q], the run times any pass orders by differ by at most [Q], however threads come,
    block, wake, exec and exit in between. *)
Theorem fair_lag_bounded bp Q w run t u r r' s s' :
  0 <= Q -> reachable bp Q w -> (forall v, v ∈ run -> is_Some (bt_get v (wclocks w))) ->
  (t, (r, s)) ∈ (run_times (wf w) (wclocks w) run).1 -> (u, (r', s')) ∈ (run_times (wf w) (wclocks w) run).1 ->
  Z.abs (r - r') <= Q.
Proof.
  intros HQ Hreach Hrun Ht Hu. pose proof (reachable_fair bp Q w HQ Hreach) as Hi.
  destruct (pass_inv Q (wf w) (wclocks w) run Hi Hrun) as (_ & Hmono & Hkeys & _).
  pose proof (Hkeys _ _ _ Ht). pose proof (Hkeys _ _ _ Hu). lia.
Qed.

(** ** No thread starves *)

(** Turns of a fixed set of threads, each at least a nanosecond; the list is who had them. *)
Inductive turns (bp : profile) (Q : Z) (run : list DetTid) : world -> list DetTid -> world -> Prop :=
  | turns_none w : turns bp Q run w [] w
  | turns_more f clocks t d c f' picks w' :
      first_key (pass_keys f clocks run) t -> 1 <= d <= Q -> bt_get t clocks = Some (Some c) ->
      note_selected bp (run_times f clocks run).2 t = Done f' ->
      turns bp Q run {| wf := f';
        wclocks := bt_insert t (Some {| current := current c + d; inherited := inherited c |}) clocks |} picks w' ->
      turns bp Q run {| wf := f; wclocks := clocks |} (t :: picks) w'.

(** The run time a pass gives a thread. *)
Definition time_of (f : FairContinuation) (clocks : list (DetTid * option Clock)) (run : list DetTid) (v : DetTid) : Z :=
  match pass_accounts f clocks run !! v with Some a => run_time a | None => 0 end.

Lemma turn_times bp Q f clocks run t d c f' v :
  fair_inv Q f clocks -> (forall u, u ∈ run -> exists c, bt_get u clocks = Some (Some c)) ->
  t ∈ run -> v ∈ run -> 0 <= d -> bt_get t clocks = Some (Some c) ->
  note_selected bp (run_times f clocks run).2 t = Done f' ->
  time_of f' (bt_insert t (Some {| current := current c + d; inherited := inherited c |}) clocks) run v =
  if decide (v = t) then Z.min u64_max (time_of f clocks run t + d) else time_of f clocks run v.
Proof.
  intros Hi Hrun Ht Hv Hd Hc Hnote.
  destruct (pass_inv Q f clocks run Hi) as (Hi1 & _ & _ & Hpass).
  { intros u Hu. destruct (Hrun u Hu) as [c' ->]. eauto. }
  pose proof (fi_clocks _ _ _ Hi) as Hok.
  unfold note_selected in Hnote. apply bind_Done in Hnote as (n & _ & E). injection E as <-.
  unfold time_of. rewrite (pass_lookup _ (bt_insert t _ clocks)) by (by apply bt_insert_ok).
  cbn [accounts floor]. change (foldl (charge (floor f) run) _ clocks) with (pass_accounts f clocks run).
  assert (Hrunb : binary_search_is_ok run v = true) by (unfold binary_search_is_ok; by apply bool_decide_eq_true).
  destruct (Hrun v Hv) as [cv Hcv].
  destruct (pass_account_some f clocks run v _ Hok Hcv) as [av Hav].
  destruct (pass_account_some f clocks run t _ Hok Hc) as [at_ Hat].
  assert (Hrn : runnable av = true).
  { rewrite (pass_lookup _ _ _ _ Hok), Hcv in Hav. injection Hav as <-. unfold update_account. cbn. done. }
  destruct (Hpass v av _ Hav Hcv) as (_ & Hclk & _). specialize (Hclk cv eq_refl).
  destruct (fi_accounts _ _ _ Hi1 v av _ Hav Hcv) as [(Hub & _) _].
  rewrite Hat, Hrunb. destruct (decide (v = t)) as [->|Hne].
  - rewrite Hat in Hav. injection Hav as ->. rewrite Hcv in Hc. injection Hc as ->.
    rewrite bt_get_insert_eq by done. rewrite lookup_insert_eq. cbn [from_option id].
    unfold update_account. cbn [clock run_time runnable last_selected current inherited].
    rewrite Hrn, Hclk. cbn [negb andb run_time from_option id]. unfold sat_add_u64, sat_sub_u64. f_equal. lia.
  - rewrite bt_get_insert_ne by done. rewrite Hcv. rewrite lookup_insert_ne by done. rewrite Hav. cbn [from_option id].
    unfold update_account. rewrite Hclk. cbn [clock run_time runnable last_selected]. rewrite Hrn.
    cbn [negb andb run_time from_option id]. unfold sat_add_u64, sat_sub_u64. lia.
Qed.

Fixpoint sum_over (g : DetTid -> Z) (l : list DetTid) : Z :=
  match l with [] => 0 | v :: l' => g v + sum_over g l' end.
Lemma sum_over_le g h l : (forall v, v ∈ l -> g v <= h v) -> sum_over g l <= sum_over h l.
Proof.
  induction l as [|v l IH]; cbn; [lia|]. intros H. specialize (IH ltac:(intros; apply H; set_solver)).
  specialize (H v ltac:(set_solver)). lia.
Qed.
Lemma sum_over_lt g h l t :
  (forall v, v ∈ l -> g v <= h v) -> t ∈ l -> g t + 1 <= h t -> sum_over g l + 1 <= sum_over h l.
Proof.
  induction l as [|v l IH]; cbn; intros H Ht Hlt; [by apply elem_of_nil in Ht|].
  pose proof (sum_over_le g h l ltac:(intros; apply H; set_solver)).
  pose proof (H v ltac:(set_solver)). apply elem_of_cons in Ht as [->|Ht]; [lia|].
  specialize (IH ltac:(intros; apply H; set_solver) Ht Hlt). lia.
Qed.
Lemma sum_over_const g l K : (forall v, v ∈ l -> g v <= K) -> sum_over g l <= K * Z.of_nat (length l).
Proof.
  induction l as [|v l IH]; cbn [sum_over length]; [lia|]. intros H.
  specialize (IH ltac:(intros; apply H; set_solver)). specialize (H v ltac:(set_solver)). lia.
Qed.

(** How many more turns the others can have before [u]. *)
Definition ahead_of (f : FairContinuation) (clocks : list (DetTid * option Clock)) (run : list DetTid) (u : DetTid) : Z :=
  sum_over (fun v => Z.max 0 (time_of f clocks run u + 1 - time_of f clocks run v)) (List.filter (fun v => negb (v =? u)) run).

Lemma first_key_time f clocks run t u :
  bt_ok clocks -> (forall v, v ∈ run -> is_Some (bt_get v clocks)) -> u ∈ run ->
  first_key (pass_keys f clocks run) t -> t ∈ run /\ time_of f clocks run t <= time_of f clocks run u.
Proof.
  intros Hok Hrun Hu ([r s] & Hin & Hleast). apply pass_key in Hin as (Ht & a & Ha & -> & ->); [|done|done].
  destruct (Hrun u Hu) as [slot Hs]. destruct (pass_account_some f clocks run u slot Hok Hs) as [b Hb].
  specialize (Hleast u (run_time b, last_selected b)). split; [done|]. unfold time_of. rewrite Ha, Hb.
  assert (H : kle (run_time a, last_selected a, t) (run_time b, last_selected b, u)).
  { apply Hleast. apply pass_key; eauto. }
  do 2 apply kle_fst in H. by apply (proj1 (kle_Z _ _)) in H.
Qed.

Lemma turns_ahead bp Q run w picks w' u :
  turns bp Q run w picks w' -> fair_inv Q (wf w) (wclocks w) -> StronglySorted Z.le run ->
  (forall v, v ∈ run -> exists c, bt_get v (wclocks w) = Some (Some c)) -> u ∈ run -> u ∉ picks ->
  time_of (wf w) (wclocks w) run u + Q <= u64_max ->
  Z.of_nat (length picks) <= ahead_of (wf w) (wclocks w) run u.
Proof.
  intros Hturns. induction Hturns as [w|f clocks t d c f' picks w' Hfirst Hd Hc Hnote Hturns IH];
    intros Hi Hsort Hrun Hu Hpicks Hsat; cbn [wf wclocks] in *.
  - cbn. unfold ahead_of. induction (List.filter _ run) as [|v l IH]; cbn; lia.
  - apply not_elem_of_cons in Hpicks as [Hut Hpicks].
    assert (Hrun' : forall v, v ∈ run -> is_Some (bt_get v clocks)) by (intros v Hv; destruct (Hrun v Hv) as [? ->]; eauto).
    pose proof (fi_clocks _ _ _ Hi) as Hok.
    destruct (first_key_time f clocks run t u Hok Hrun' Hu Hfirst) as [Ht Hle].
    set (clocks' := bt_insert t _ clocks) in *.
    assert (Hi' : fair_inv Q f' clocks').
    { apply (step_fair bp Q {| wf := f; wclocks := clocks |} {| wf := f'; wclocks := clocks' |}); [|done].
      apply (step_turn bp Q f clocks run t d 0 (Some c)); try done. lia. }
    assert (Htimes : forall v, v ∈ run -> time_of f' clocks' run v =
      if decide (v = t) then Z.min u64_max (time_of f clocks run t + d) else time_of f clocks run v).
    { intros v Hv. apply (turn_times bp Q); try done. lia. }
    assert (Htu : time_of f' clocks' run u = time_of f clocks run u) by (rewrite (Htimes u Hu); by rewrite decide_False).
    specialize (IH Hi' Hsort). rewrite Htu in IH. specialize (IH ltac:(intros v Hv; destruct (decide (v = t)) as [->|];
      [unfold clocks'; rewrite bt_get_insert_eq by done; eauto|unfold clocks'; rewrite bt_get_insert_ne by done; by apply Hrun])
      Hu Hpicks Hsat).
    assert (ahead_of f' clocks' run u + 1 <= ahead_of f clocks run u); [|cbn [length]; lia].
    unfold ahead_of. rewrite Htu.
    apply (sum_over_lt _ _ _ t).
    + intros v Hv. apply list_elem_of_In, filter_In in Hv as [Hv _]. apply list_elem_of_In in Hv.
      rewrite (Htimes v Hv). destruct (decide (v = t)) as [->|]; lia.
    + apply list_elem_of_In, filter_In. split; [by apply list_elem_of_In|]. apply negb_true_iff, Z.eqb_neq. congruence.
    + rewrite (Htimes t Ht), decide_True by done. lia.
Qed.


(** * The fair continuation orders the run queue

    [order_continuation_fairly] composes the accounts with
    [RunQueue::order_by_run_time].  The file also has the theorems of the fair
    continuation on concrete runs. *)

Section Order.
Context (bp : profile) {G : Type} `{!Rng G}.
Implicit Types (q : RunQueue G) (s : Continuation G).

Lemma round_robin_sorted q : StronglySorted Z.le (round_robin_tids q).
Proof.
  pose proof (stable_sort_sorted Z.leb ltac:(intros; rewrite !Z.leb_le; lia)
    ltac:(intros ? ? ?; rewrite !Z.leb_le; lia)
    ((fun kv => tid kv.2) <$> List.filter (fun kv => in_round_robin_order kv.1 kv.2) (queue q))) as H.
  fold (round_robin_tids q) in H. induction H as [|x l Hl IH Hx]; constructor; [done|].
  eapply Forall_impl; [exact Hx|]. intros y Hy. by apply Z.leb_le in Hy.
Qed.
Lemma round_robin_elem q t :
  t ∈ round_robin_tids q <-> exists k v, (k, v) ∈ queue q /\ in_round_robin_order k v = true /\ tid v = t.
Proof.
  unfold round_robin_tids. rewrite stable_sort_perm, list_elem_of_fmap. split.
  - intros ([k v] & -> & [Hin Hr]%list_elem_of_In%filter_In). exists k, v. by rewrite list_elem_of_In.
  - intros (k & v & Hin & Hr & <-). exists (k, v). split; [done|]. apply list_elem_of_In, filter_In.
    by rewrite <- list_elem_of_In.
Qed.
Lemma round_robin_NoDup P q : rq_ok P q -> NoDup (round_robin_tids q).
Proof.
  intros Hq. unfold round_robin_tids. rewrite stable_sort_perm.
  eapply sublist_NoDup; [exact (ok_tids _ _ Hq)|]. unfold tids. apply fmap_sublist, filter_sublist.
Qed.

(** The slots after registration: one for every registered thread. *)
Definition slots (s : Continuation G) : list (DetTid * option Clock) :=
  foldl (fun m p => if bt_mem (fst p) m then m else bt_insert (fst p) None m)
    (List.filter (fun kv : DetTid * option Clock => bt_mem kv.1 (priorities s)) (continuation_clocks s)) (priorities s).
Lemma slots_fold (ps : list (DetTid * Z)) (m : list (DetTid * option Clock)) :
  bt_ok m ->
  let m' := foldl (fun m p => if bt_mem (fst p) m then m else bt_insert (fst p) None m) m ps in
  bt_ok m' /\ (forall t, is_Some (bt_get t m) \/ t ∈ ps.*1 -> is_Some (bt_get t m')).
Proof.
  revert m. induction ps as [|[k p] ps IH]; intros m Hm; cbn [foldl fst].
  - split; [done|]. intros t [H|H]; [done|by apply elem_of_nil in H].
  - destruct (bt_mem k m) eqn:E.
    + destruct (IH m Hm) as [H1 H2]. split; [done|]. intros t [H|H]; [by apply H2; left|].
      cbn in H. apply elem_of_cons in H as [->|H]; [|by apply H2; right]. apply H2. left.
      unfold bt_mem in E. by destruct (bt_get k m).
    + destruct (IH (bt_insert k None m) (bt_insert_ok _ _ _ Hm)) as [H1 H2]. split; [done|].
      intros t H. apply H2. cbn in H. destruct (decide (t = k)) as [->|Hne].
      * left. rewrite bt_get_insert_eq by done. eauto.
      * destruct H as [H|H]; [left; by rewrite bt_get_insert_ne|]. right. by apply elem_of_cons in H as [?|?].
Qed.
Lemma slots_ok s :
  bt_ok (continuation_clocks s) -> bt_ok (slots s) /\ forall t, t ∈ (priorities s).*1 -> is_Some (bt_get t (slots s)).
Proof.
  intros Hok. destruct (slots_fold (priorities s)
    (List.filter (fun kv : DetTid * option Clock => bt_mem kv.1 (priorities s)) (continuation_clocks s))) as [H1 H2].
  { eapply bt_ok_sublist; [apply filter_sublist|done]. }
  split; [exact H1|]. intros t Ht. apply H2. by right.
Qed.

(** past the end of a replayed schedule, one pass of the fair continuation reorders the run queue by its
    accounts: it never panics, keeps the queue's invariant and its threads, and of two round-robin entries of
    one priority band the one whose account has the smaller run time (then the less recent selection, then the
    smaller thread) is ahead of the other. *)
Theorem continuation_orders_by_run_time s f P :
  rq_ok P (run_queue s) -> unlocked (run_queue s) -> Z.of_nat (len (run_queue s)) < 2 ^ 30 ->
  bt_ok (continuation_clocks s) -> (forall t, t ∈ tids (run_queue s) -> t ∈ (priorities s).*1) ->
  replay_priorities_released s = true -> fair s = Some f ->
  0 <= floor f <= u64_max -> (forall t a, accounts f !! t = Some a -> 0 <= run_time a) ->
  exists s' f', order_continuation_fairly bp s = Done s' /\ fair s' = Some f' /\
    rq_ok P (run_queue s') /\ tids (run_queue s') ≡ₚ tids (run_queue s) /\
    forall k1 v1 k2 v2 a1 a2,
      (k1, v1) ∈ queue (run_queue s) -> (k2, v2) ∈ queue (run_queue s) -> priority k1 = priority k2 ->
      in_round_robin_order k1 v1 = true -> in_round_robin_order k2 v2 = true ->
      accounts f' !! tid v1 = Some a1 -> accounts f' !! tid v2 = Some a2 ->
      klt (run_time a1, last_selected a1, tid v1) (run_time a2, last_selected a2, tid v2) ->
      exists k1' k2', (k1', v1) ∈ queue (run_queue s') /\ (k2', v2) ∈ queue (run_queue s') /\
        priority k1' = priority k1 /\ priority k2' = priority k2 /\ klt k1' k2'.
Proof.
  intros Hq Hu Hlen Hok Hreg Hrel Hf Hfl Hacc. destruct (slots_ok s Hok) as [Hsl Hslot].
  set (run := round_robin_tids (run_queue s)).
  assert (Hrun : forall t, t ∈ run -> is_Some (bt_get t (slots s))).
  { intros t (k & v & Hin & _ & <-)%round_robin_elem. apply Hslot, Hreg. unfold tids.
    by apply (list_elem_of_fmap_2 (fun kv => tid kv.2)) in Hin. }
  set (keys := pass_keys f (slots s) run).
  assert (Hkeys : Forall (fun o => 0 <= o.2.1) keys).
  { apply Forall_forall. intros [t [r x]] (_ & a & Ha & -> & ->)%pass_key; [|done|done].
    rewrite (pass_lookup _ _ _ _ Hsl) in Ha. destruct (bt_get t (slots s)) as [slot|]; [|done]. injection Ha as <-.
    assert (H0 : 0 <= run_time (default (new_account (floor f) slot) (accounts f !! t))).
    { destruct (accounts f !! t) as [a|] eqn:E; cbn; [by eapply Hacc|lia]. }
    unfold update_account. cbn. destruct slot as [c|]; cbn; destruct (_ && _); cbn;
      unfold sat_add_u64, sat_sub_u64, u64_max in *; lia. }
  assert (Hfst : keys.*1 = run).
  { unfold keys, pass_keys, run_times. cbn [fst]. rewrite <- list_fmap_compose. apply list_fmap_id. }
  destruct (order_by_run_time_fair bp (run_queue s) P keys Hq Hu Hlen Hkeys) as (q' & E & Hq' & Htids & _ & Hord).
  assert (Hgo : order_continuation_fairly bp s =
    Done {| run_queue := q'; priorities := priorities s; continuation_clocks := slots s;
            replay_priorities_released := replay_priorities_released s; fair := Some (run_times f (slots s) run).2 |}).
  { unfold order_continuation_fairly. rewrite Hrel, Hf. cbn [negb]. fold (slots s). fold run.
    unfold keys, pass_keys in E. destruct (run_times f (slots s) run) as [ks f']. cbn [fst] in E. rewrite E. done. }
  do 2 eexists. split; [exact Hgo|]. split; [reflexivity|]. split; [exact Hq'|]. split; [exact Htids|].
  intros k1 v1 k2 v2 a1 a2 H1 H2 Hp Hr1 Hr2 Ha1 Ha2 Hlt.
  assert (Hw : forall k v a, (k, v) ∈ queue (run_queue s) -> in_round_robin_order k v = true ->
    accounts (run_times f (slots s) run).2 !! tid v = Some a ->
    wanted_map keys !! tid v = Some (run_time a, last_selected a)).
  { intros k v a Hin Hr Ha. unfold wanted_map. apply elem_of_list_to_map.
    - rewrite fmap_reverse, reverse_Permutation, Hfst. by eapply round_robin_NoDup.
    - rewrite elem_of_reverse. apply pass_key; [done|done|]. split; [|by exists a].
      apply round_robin_elem. by exists k, v. }
  apply (Hord k1 v1 k2 v2 _ _ H1 H2 Hp Hr1 Hr2 (Hw _ _ _ H1 Hr1 Ha1) (Hw _ _ _ H2 Hr2 Ha2) Hlt).
Qed.
End Order.

(** ** On concrete runs *)

Definition example_clocks : list (DetTid * option Clock) :=
  [(3, Some {| current := 100; inherited := 100 |}); (5, Some {| current := 100; inherited := 100 |})].
Definition example_w0 : world := {| wf := fair_default; wclocks := example_clocks |}.
Definition example_f1 : FairContinuation :=
  match note_selected validate (run_times fair_default example_clocks [3; 5]).2 3 with Done f => f | Panic _ => fair_default end.
Definition example_w1 : world :=
  {| wf := example_f1; wclocks := bt_insert 3 (Some {| current := 140; inherited := 100 |}) example_clocks |}.

Lemma example_clocks_ok : bt_ok example_clocks.
Proof. unfold bt_ok. cbn. repeat constructor. Qed.
Lemma example_slots u : u ∈ [3; 5] -> exists c, bt_get u example_clocks = Some (Some c).
Proof. intros Hu. repeat (apply elem_of_cons in Hu as [->|Hu]; [by eexists|]). by apply elem_of_nil in Hu. Qed.
Lemma example_first : first_key (pass_keys fair_default example_clocks [3; 5]) 3.
Proof.
  let l := eval vm_compute in (pass_keys fair_default example_clocks [3; 5]) in
    change (pass_keys fair_default example_clocks [3; 5]) with l.
  exists (0, 0). split; [left|]. intros u w Hu.
  repeat (apply elem_of_cons in Hu as [[= -> ->]|Hu]; [vm_compute; discriminate|]). by apply elem_of_nil in Hu.
Qed.
Lemma example_step : world_step validate 50 example_w0 example_w1.
Proof.
  apply (step_turn validate 50 fair_default example_clocks [3; 5] 3 40 0 (Some {| current := 100; inherited := 100 |})).
  - intros u Hu. destruct (example_slots u Hu) as [c ->]. eauto.
  - repeat constructor; lia.
  - apply example_first.
  - lia.
  - reflexivity.
  - reflexivity.
Qed.
Lemma example_reachable : reachable validate 50 example_w1.
Proof.
  exists example_clocks. split; [apply example_clocks_ok|]. by apply rtc_once, example_step.
Qed.

Lemma fair_lag_bounded_witness :
  (3, (40, 1)) ∈ (run_times (wf example_w1) (wclocks example_w1) [3; 5]).1 /\
  (5, (0, 0)) ∈ (run_times (wf example_w1) (wclocks example_w1) [3; 5]).1 /\ Z.abs (40 - 0) <= 50.
Proof.
  assert (H1 : (3, (40, 1)) ∈ (run_times (wf example_w1) (wclocks example_w1) [3; 5]).1) by (vm_compute; left).
  assert (H2 : (5, (0, 0)) ∈ (run_times (wf example_w1) (wclocks example_w1) [3; 5]).1) by (vm_compute; right; left).
  split; [exact H1|]. split; [exact H2|].
  apply (fair_lag_bounded validate 50 example_w1 [3; 5] 3 5 40 0 1 0); [lia|apply example_reachable| |exact H1|exact H2].
  intros u Hu. repeat (apply elem_of_cons in Hu as [->|Hu]; [vm_compute; eauto|]). by apply elem_of_nil in Hu.
Defined.


(** Thread 3 ran 40 ns of its slice, so thread 5 goes first. *)
Definition example_continuation : Continuation Z :=
  {| run_queue := example_queue; priorities := [(3, 1000); (5, 1000); (7, 1000); (9, 1000)];
     continuation_clocks := wclocks example_w1; replay_priorities_released := true; fair := Some example_f1 |}.
Lemma example_registered t : t ∈ tids (run_queue example_continuation) -> t ∈ (priorities example_continuation).*1.
Proof.
  change (tids (run_queue example_continuation)) with (tids example_queue).
  let l := eval vm_compute in (tids example_queue) in
    replace (tids example_queue) with l by (vm_compute; reflexivity).
  change ((priorities example_continuation).*1) with [3; 5; 7; 9]. set_solver.
Qed.
Lemma continuation_orders_by_run_time_witness :
  exists s' f', order_continuation_fairly validate example_continuation = Done s' /\ fair s' = Some f' /\
    exists k1 k2, (k1, QV 5 None false false) ∈ queue (run_queue s') /\ (k2, QV 3 None false false) ∈ queue (run_queue s') /\
      klt k1 k2.
Proof.
  destruct (continuation_orders_by_run_time validate example_continuation example_f1 [] example_ok)
    as (s' & f' & E & Hf & _ & _ & Hord).
  - reflexivity.
  - vm_compute. reflexivity.
  - apply bt_insert_ok, example_clocks_ok.
  - apply example_registered.
  - reflexivity.
  - reflexivity.
  - vm_compute. split; discriminate.
  - intros t a Ha. assert (Hall : map_Forall (fun _ a => bool_decide (0 <= run_time a) = true) (accounts example_f1)).
    { apply map_Forall_to_list. vm_compute. repeat constructor. }
    apply (Hall t) in Ha. by apply bool_decide_eq_true in Ha.
  - exists s', f'. split; [exact E|]. split; [exact Hf|].
    assert (Ef : exists a1 a2, accounts f' !! 5 = Some a1 /\ accounts f' !! 3 = Some a2 /\
      klt (run_time a1, last_selected a1, 5) (run_time a2, last_selected a2, 3)).
    { vm_compute in E. injection E as <-. injection Hf as <-. do 2 eexists. split; [vm_compute; reflexivity|].
      split; [vm_compute; reflexivity|]. vm_compute. reflexivity. }
    destruct Ef as (a1 & a2 & H1 & H2 & Hlt).
    destruct (Hord (PO 1000 2) (QV 5 None false false) (PO 1000 1) (QV 3 None false false) a1 a2)
      as (k1 & k2 & K1 & K2 & _ & _ & Hk); [vm_compute; right; right; left|vm_compute; right; left|
       reflexivity|reflexivity|reflexivity|exact H1|exact H2|exact Hlt|].
    exists k1, k2. split; [exact K1|]. split; [exact K2|exact Hk].
Defined.
