(* ===== verification/Boundary.v ===== *)
(** * The slice-boundary protocol (src/detcore-model/src/schedule/boundary.rs)

    A recording of this protocol is one stream of ordinary events and of the
    boundaries where timeslices ended, each boundary carrying the full identity
    of its owner, entry and counters.  The stream is validated as a whole when
    it is written and when it is read back; the cursor over it matches record
    for record.  A boundary's index and the lengths are [nat]; static error
    strings are the source's. *)
From Stdlib Require Import ZArith Lia List String.
From stdpp Require Import base gmap list.
From S2P Require Import Prelude Time Schedule Text Resource.
Import Schedule.
Open Scope Z_scope.

Module Boundary.

Record Owner := {
  tid : DetTid;
  thread_generation : Z;
  birth_tid : DetTid;
  birth_generation : Z;
  address_space_creator : DetTid;
  address_space_generation : Z;
}.
Inductive Phase := Prehook | Posthook | TimerMaximum.
Inductive Cause := SoftwareCheckin | CausePmuTimer | CauseNoRcbTimer | ExplicitSchedYield.
Inductive Entry :=
  | ESyscall (sysno : Sysno) (occurrence : Z)
  | ERdtsc
  | ECpuid
  | EPmuTimer
  | ENoRcbTimer
  | EThreadStart
  | EExec
  | ESignalEntry (signal : SigWrapper) (occurrence : Z) (announced : bool)
  | ESignal (signal : SigWrapper) (occurrence : Z) (announced : bool) (delivery : Z).
Record Identity := {
  owner : Owner;
  cause : Cause;
  phase : Phase;
  entry : Entry;
  committed_rcbs : Z;
  checkin : Z;
  slice : Z;
}.
Record Boundary := {
  identity : Identity;
  b_count : Z;
  b_start_rip : option InstructionPointer;
  b_end_rip : option InstructionPointer;
  b_end_time : option LogicalTime;
}.
Inductive Record_ := Event (e : SchedEvent) | TimesliceEnd (b : Boundary).

#[export] Instance Owner_eqdec : EqDecision Owner.
Proof. solve_decision. Defined.
#[export] Instance Phase_eqdec : EqDecision Phase.
Proof. solve_decision. Defined.
#[export] Instance Cause_eqdec : EqDecision Cause.
Proof. solve_decision. Defined.
#[export] Instance Entry_eqdec : EqDecision Entry.
Proof. solve_decision. Defined.
#[export] Instance Identity_eqdec : EqDecision Identity.
Proof. solve_decision. Defined.
#[export] Instance Boundary_eqdec : EqDecision Boundary.
Proof. solve_decision. Defined.
#[export] Instance Record_eqdec : EqDecision Record_.
Proof. solve_decision. Defined.

#[export] Instance Owner_countable : Countable Owner.
Proof.
  refine (inj_countable'
    (fun o => (tid o, thread_generation o, birth_tid o, birth_generation o, address_space_creator o,
               address_space_generation o))
    (fun '(a, b, c, d, e, f) => {| tid := a; thread_generation := b; birth_tid := c; birth_generation := d;
                                   address_space_creator := e; address_space_generation := f |}) _).
  by intros [].
Defined.

Inductive Error :=
  | UnsupportedProtocol (protocol : text) (version : Z)
  | RecordCount (declared actual : nat)
  | BoundaryCount (declared actual : nat)
  | InvalidBoundary (index : nat) (reason : string)
  | InvalidEvent (index : nat) (reason : string)
  | Mismatch (index : nat) (expected observed : Record_)
  | Exhausted (index : nat) (observed : Record_)
  | Incomplete (index remaining : nat)
  | UnsupportedEdit (operation : string).

(** ** Matching one record *)

(** An optional field the stored record does not hold is not compared. *)
Definition only_if {A B} (stored : option A) (observed : option B) : option B :=
  match stored with None => None | Some _ => observed end.
Definition comparable (stored observed : Record_) : Record_ :=
  match stored, observed with
  | Event e, Event o =>
      Event {| dettid := dettid o; op := op o; count := count o; start_rip := only_if (start_rip e) (start_rip o);
               end_rip := only_if (end_rip e) (end_rip o); end_time := only_if (end_time e) (end_time o);
               stopless := stopless o |}
  | TimesliceEnd e, TimesliceEnd o =>
      TimesliceEnd {| identity := identity o; b_count := b_count o;
                      b_start_rip := only_if (b_start_rip e) (b_start_rip o);
                      b_end_rip := only_if (b_end_rip e) (b_end_rip o);
                      b_end_time := only_if (b_end_time e) (b_end_time o) |}
  | _, _ => observed
  end.
Definition check_observation (self : Record_) (index : nat) (observed : Record_) : result Error () :=
  if bool_decide (self <> comparable self observed)
  then Err (Mismatch index self observed) else Ok tt.

(** ** Validation *)

(** [Sysno::sched_yield] (x86-64). *)
Definition SYS_sched_yield : Sysno := 24.
Definition is_sched_yield (e : Entry) : bool :=
  match e with ESyscall n _ => n =? SYS_sched_yield | _ => false end.
Definition signal_in_range (s : SigWrapper) : bool := (1 <=? raw s) && (raw s <=? 64).

Definition validate_shape (self : Boundary) (index : nat) : result Error () :=
  let id := identity self in
  let invalid reason := InvalidBoundary index reason in
  _ ← ensure (b_count self =? 1) (invalid "boundary count must be one"%string);
  _ ← ensure (negb ((tid (owner id) <=? 0) || (birth_tid (owner id) <=? 0)
                    || (address_space_creator (owner id) <=? 0) || (checkin id =? 0) || (slice id =? 0)))
        (invalid "nonpositive owner or zero occurrence"%string);
  _ ← (match entry id with
       | ESyscall _ 0 | ESignal _ _ _ 0 | ESignal _ 0 _ _ | ESignalEntry _ 0 _ =>
           Err (invalid "zero syscall or signal occurrence"%string)
       | ESignal signal _ _ _ | ESignalEntry signal _ _ =>
           ensure (signal_in_range signal) (invalid "invalid logical signal"%string)
       | _ => Ok tt
       end);
  _ ← ensure (match entry id with
              | ESignalEntry _ _ _ => bool_decide (phase id = Prehook)
              | ESignal _ _ _ _ => bool_decide (phase id = Posthook)
              | _ => true
              end) (invalid "signal entry/delivery phase mismatch"%string);
  _ ← ensure (negb (bool_decide (phase id = TimerMaximum) && bool_decide (entry id <> ENoRcbTimer)))
        (invalid "maximum-body phase requires the actual no-RCB timer"%string);
  ensure (match cause id with
          | CausePmuTimer => bool_decide (entry id = EPmuTimer)
          | CauseNoRcbTimer => bool_decide (entry id = ENoRcbTimer)
          | ExplicitSchedYield => is_sched_yield (entry id)
          | SoftwareCheckin => negb (bool_decide (entry id = EPmuTimer) || bool_decide (entry id = ENoRcbTimer))
          end) (invalid "cause disagrees with actual semantic entry"%string).

(** The maps [validate_records] keeps as it goes: only read and written by
    key, so the order of the source's [BTreeMap]s plays no part. *)
Record Seen := {
  previous : gmap Owner Identity;
  latest_owner : gmap DetTid Owner;
  latest_birth : gmap (DetTid * Z) Owner;
}.
Definition nothing_seen : Seen := {| previous := ∅; latest_owner := ∅; latest_birth := ∅ |}.

Definition moved_backwards (o last : Owner) : bool :=
  (thread_generation o <? thread_generation last)
  || ((thread_generation o =? thread_generation last)
      && (negb (birth_tid o =? birth_tid last) || negb (birth_generation o =? birth_generation last)
          || (address_space_generation o <? address_space_generation last)
          || ((address_space_generation o =? address_space_generation last)
              && negb (address_space_creator o =? address_space_creator last)))).
Definition moved_without_exec (o last : Owner) : bool :=
  (address_space_generation o <? address_space_generation last)
  || ((address_space_generation o =? address_space_generation last) && bool_decide (o <> last)).
Definition birth_of (o : Owner) : DetTid * Z := (birth_tid o, birth_generation o).

(** The checks of one boundary against the ones before it. *)
Definition validate_boundary_order (index : nat) (id : Identity) (s : Seen) : result Error () :=
  let invalid reason := InvalidBoundary index reason in
  _ ← ensure (match latest_owner s !! tid (owner id) with
              | Some last => negb (moved_backwards (owner id) last) | None => true end)
        (invalid "owner generation moved backwards"%string);
  _ ← ensure (match latest_birth s !! birth_of (owner id) with
              | Some last => negb (moved_without_exec (owner id) last) | None => true end)
        (invalid "logical survivor moved without a new exec incarnation"%string);
  match previous s !! owner id with
  | Some last =>
      _ ← ensure (bool_decide (checked_u64 (slice last + 1) = Some (slice id)))
            (invalid "missing, duplicated or reordered slice occurrence"%string);
      _ ← ensure (negb ((checkin id <? checkin last) || (committed_rcbs id <? committed_rcbs last)))
            (invalid "check-in or guest RCB count moved backwards"%string);
      ensure (negb ((checkin id =? checkin last)
                    && (bool_decide (entry id <> entry last) || bool_decide (phase id <> phase last)
                        || negb (committed_rcbs id =? committed_rcbs last))))
        (invalid "one semantic check-in has conflicting identities"%string)
  | None => ensure (slice id =? 1) (invalid "first completed slice must be one"%string)
  end.
Definition see (id : Identity) (s : Seen) : Seen :=
  {| previous := <[owner id := id]> (previous s);
     latest_owner := <[tid (owner id) := owner id]> (latest_owner s);
     latest_birth := <[birth_of (owner id) := owner id]> (latest_birth s) |}.
Definition validate_event (index : nat) (e : SchedEvent) : result Error () :=
  _ ← ensure (negb ((dettid e <=? 0) || (count e =? 0)))
        (InvalidEvent index "event owner and count must be positive"%string);
  ensure (negb (stopless e)) (InvalidEvent index "a slice-boundary recording marks no event `stopless`"%string).
Definition validate_record (index : nat) (r : Record_) (s : Seen) : result Error Seen :=
  match r with
  | Event e => _ ← validate_event index e; Ok s
  | TimesliceEnd b =>
      _ ← validate_shape b index;
      _ ← validate_boundary_order index (identity b) s;
      Ok (see (identity b) s)
  end.
Fixpoint validate_from (index : nat) (records : list Record_) (s : Seen) : result Error Seen :=
  match records with
  | [] => Ok s
  | r :: records' => s ← validate_record index r s; validate_from (S index) records' s
  end.
Definition validate_records (records : list Record_) : result Error () :=
  _ ← validate_from 0 records nothing_seen; Ok tt.

(** ** Schedules and their wire form *)

Record Schedule := { records : list Record_ }.
Record Wire := {
  protocol : text; version : Z; record_count : nat; boundary_count_ : nat; w_records : list Record_;
}.
Definition PROTOCOL : text := lit "hermit-slice-boundaries".
Definition VERSION : Z := 1.

Definition boundary_count (rs : list Record_) : nat :=
  length (List.filter (fun r => match r with TimesliceEnd _ => true | Event _ => false end) rs).
Definition new_schedule (rs : list Record_) : result Error Schedule :=
  _ ← validate_records rs; Ok {| records := rs |}.
(** [BorrowedSchedule::new]: the view that is serialized as [Wire]. *)
Definition borrowed (rs : list Record_) : Wire :=
  {| protocol := PROTOCOL; version := VERSION; record_count := length rs; boundary_count_ := boundary_count rs;
     w_records := rs |}.
Definition borrow_records (rs : list Record_) : result Error Wire :=
  _ ← validate_records rs; Ok (borrowed rs).
Definition try_from (w : Wire) : result Error Schedule :=
  _ ← ensure (bool_decide (protocol w = PROTOCOL) && (version w =? VERSION))
        (UnsupportedProtocol (protocol w) (version w));
  _ ← ensure (record_count w =? length (w_records w))%nat
        (RecordCount (record_count w) (length (w_records w)));
  let actual := boundary_count (w_records w) in
  _ ← ensure (boundary_count_ w =? actual)%nat (BoundaryCount (boundary_count_ w) actual);
  new_schedule (w_records w).

Definition strip_record_time (r : Record_) : Record_ :=
  match r with
  | Event e => Event {| dettid := dettid e; op := op e; count := count e; start_rip := start_rip e;
                        end_rip := end_rip e; end_time := None; stopless := stopless e |}
  | TimesliceEnd b => TimesliceEnd {| identity := identity b; b_count := b_count b; b_start_rip := b_start_rip b;
                                      b_end_rip := b_end_rip b; b_end_time := None |}
  end.
Definition strip_times (s : Schedule) : Schedule := {| records := strip_record_time <$> records s |}.

Inductive Edit := Split | Search | Minimize.
Definition edit_name (e : Edit) : string :=
  match e with
  | Split => "split boundary schedule" | Search => "search boundary schedule"
  | Minimize => "minimize boundary schedule"
  end.
Definition edit (s : Schedule) (e : Edit) : result Error () := Err (UnsupportedEdit (edit_name e)).
Definition into_legacy_events (s : Schedule) : result Error (list SchedEvent) :=
  Err (UnsupportedEdit "discard protocol into legacy event vector").

(** ** The cursor *)

Record Cursor := { schedule : Schedule; next : nat }.
Definition cursor (s : Schedule) : Cursor := {| schedule := s; next := 0 |}.
Definition expected (c : Cursor) : option Record_ := records (schedule c) !! next c.
(** The answer, and the cursor after it: a refused record leaves it where it was. *)
Definition cursor_observe (c : Cursor) (observed : Record_) : result Error () * Cursor :=
  match expected c with
  | None => (Err (Exhausted (next c) observed), c)
  | Some e =>
      match check_observation e (next c) observed with
      | Ok _ => (Ok tt, {| schedule := schedule c; next := S (next c) |})
      | Err err => (Err err, c)
      | Crash p => (Crash p, c)
      end
  end.
Definition cursor_finish (c : Cursor) : outcome (result Error ()) :=
  remaining ← usize_sub (length (records (schedule c))) (next c);
  Done (if (remaining =? 0)%nat then Ok tt else Err (Incomplete (next c) remaining)).
End Boundary.

(** * The lifecycle registry (src/detcore/src/slice_boundary/lifecycle.rs)

    The scheduler's record of which logical thread owns which deterministic TID:
    [fresh] at registration, [exec] where a thread replaces its image and takes
    its leader's TID, [retire] at exit.  A boundary is accepted only from the
    live owner of its TID and address space, and only after the owner's previous
    one.  An [anyhow] error is a protocol error or the text of the refusal,
    without the source's common prefix; errors return no new registry, since
    every check of the source comes before its first mutation. *)

Import Schedule Boundary.
Inductive AnyError := Protocol (e : Error) | Refusal (why : string).

(** ** Address spaces (src/detcore-model/src/futex.rs) *)
Abbreviation MmId := Resource.MmId.
Abbreviation creator := Resource.creator.
Abbreviation generation := Resource.generation.
Definition mm_initial (c : DetTid) : MmId := {| Resource.creator := c; Resource.generation := 0 |}.
Definition for_clone (parent : MmId) (child : DetTid) (shares_vm : bool) : MmId :=
  if shares_vm then parent else mm_initial child.
Definition for_exec (bp : profile) (m : MmId) (c : DetTid) : outcome MmId :=
  g ← arith_u bp 64 (generation m + 1); Done {| Resource.creator := c; Resource.generation := g |}.

Module Registry.
Record Registry := {
  last : gmap DetTid Z;
  live : gmap DetTid Owner;
  boundaries : gmap Owner Identity;
}.
Definition empty : Registry := {| last := ∅; live := ∅; boundaries := ∅ |}.

Definition of_image (o : Owner) (mm : MmId) : bool :=
  (address_space_creator o =? creator mm) && (address_space_generation o =? generation mm).
Definition get_owner (r : Registry) (t : DetTid) (mm : MmId) : result AnyError Owner :=
  match live r !! t with
  | Some o => if of_image o mm then Ok o else Err (Refusal "unregistered or stale lifecycle owner")
  | None => Err (Refusal "unregistered or stale lifecycle owner")
  end.

(** Whether [identity] may come after the owner's boundary [prior]. *)
Definition follows (prior identity : Identity) : bool :=
  bool_decide (checked_u64 (slice prior + 1) = Some (slice identity))
  && negb (checkin identity <? checkin prior) && negb (committed_rcbs identity <? committed_rcbs prior)
  && negb ((checkin identity =? checkin prior)
           && (bool_decide (entry identity <> entry prior) || bool_decide (phase identity <> phase prior)
               || negb (committed_rcbs identity =? committed_rcbs prior))).
Definition validate_boundary (r : Registry) (t : DetTid) (mm : MmId) (b : Boundary) : result AnyError () :=
  _ ← map_err Protocol (validate_shape b 0);
  let id := identity b in
  o ← get_owner r t mm;
  _ ← ensure (bool_decide (owner id = o)) (Refusal "boundary does not name the authenticated owner");
  match boundaries r !! owner id with
  | None => ensure (slice id =? 1) (Refusal "missing initial slice")
  | Some prior => ensure (follows prior id) (Refusal "repeated or reordered boundary")
  end.
Definition commit_boundary (r : Registry) (b : Boundary) : Registry :=
  {| last := last r; live := live r;
     boundaries := <[owner (identity b) := identity b]> (boundaries r) |}.

Definition next_generation (r : Registry) (t : DetTid) : result AnyError Z :=
  _ ← ensure (0 <? t) (Refusal "invalid lifecycle TID");
  match last r !! t with
  | None => Ok 0
  | Some g => ok_or (checked_u64 (g + 1)) (Refusal "TID incarnation overflow")
  end.
Definition fresh (r : Registry) (t : DetTid) (mm : MmId) : result AnyError (Owner * Registry) :=
  _ ← ensure (bool_decide (live r !! t = None)) (Refusal "duplicate live thread registration");
  g ← next_generation r t;
  let o := {| tid := t; thread_generation := g; birth_tid := t; birth_generation := g;
              address_space_creator := creator mm; address_space_generation := generation mm |} in
  Ok (o, {| last := <[t := g]> (last r); live := <[t := o]> (live r); boundaries := boundaries r |}).

Definition exec_generation (r : Registry) (caller leader : DetTid) (old_mm : MmId) (survivor : Owner)
    : result AnyError Z :=
  if caller =? leader then Ok (thread_generation survivor)
  else
    _ ← ensure (match live r !! leader with Some displaced => of_image displaced old_mm | None => true end)
          (Refusal "exec displaced an unrelated owner");
    next_generation r leader.
Definition exec (r : Registry) (caller leader : DetTid) (old_mm new_mm : MmId)
    : result AnyError (Owner * Registry) :=
  survivor ← get_owner r caller old_mm;
  _ ← ensure ((creator new_mm =? leader)
              && bool_decide (checked_u64 (generation old_mm + 1) = Some (generation new_mm)))
        (Refusal "invalid exec address-space transition");
  g ← exec_generation r caller leader old_mm survivor;
  let o := {| tid := leader; thread_generation := g; birth_tid := birth_tid survivor;
              birth_generation := birth_generation survivor; address_space_creator := creator new_mm;
              address_space_generation := generation new_mm |} in
  Ok (o, {| last := <[leader := g]> (last r); live := <[leader := o]> (delete caller (live r));
            boundaries := boundaries r |}).
Definition retire (r : Registry) (t : DetTid) (mm : MmId) : Registry :=
  match get_owner r t mm with
  | Ok _ => {| last := last r; live := delete t (live r); boundaries := boundaries r |}
  | _ => r
  end.
End Registry.
