(* ===== verification/BoundaryReplay.v ===== *)
(** * Grants and the strict cursor
      (src/detcore/src/slice_boundary/grant.rs,
       src/detcore/src/scheduler/boundary_replayer.rs)

    [Budget] names one boundary of a validated stream that a grant may carry to
    its owner; [Mailbox] holds it from the lookahead until the reply of a
    committed grant; [BoundaryReplayer] is the cursor over the stored stream,
    which never moves on an error. *)
From Stdlib Require Import ZArith Lia List String.
From stdpp Require Import base gmap list.
From S2P Require Import Prelude Time Schedule Text Replayer Boundary.
Import Schedule Boundary.
Open Scope Z_scope.

Record Budget := { stored_index : nat; budget_expected : Identity }.
#[export] Instance Budget_eqdec : EqDecision Budget.
Proof. solve_decision. Defined.

(** [Budget::at], on a schedule that is already validated. *)
Definition budget_at (s : Boundary.Schedule) (index : nat) : result AnyError Budget :=
  match records s !! index with
  | Some (TimesliceEnd b) => Ok {| stored_index := index; budget_expected := identity b |}
  | _ => Err (Refusal "budget index is not a boundary")
  end.
(** [Budget::try_from] of its wire form, which has the same two fields. *)
Definition budget_try_from (w : Budget) : result Error Budget :=
  _ ← validate_shape {| identity := budget_expected w; b_count := 1; b_start_rip := None; b_end_rip := None;
                        b_end_time := None |} (stored_index w);
  Ok w.

Module Mailbox.
(** By TID: the image it was queued for, the budget, and whether its grant was
    committed. *)
Record Mailbox := { pending : gmap DetTid (MmId * Budget * bool) }.
Definition empty : Mailbox := {| pending := ∅ |}.
Definition retire (m : Mailbox) (t : DetTid) (mm : MmId) : Mailbox :=
  match pending m !! t with
  | Some (owner_mm, _, _) => if bool_decide (owner_mm = mm) then {| pending := delete t (pending m) |} else m
  | None => m
  end.
Definition queue (m : Mailbox) (mm : MmId) (budget : Budget) : result AnyError Mailbox :=
  let o := owner (budget_expected budget) in
  _ ← ensure (Registry.of_image o mm) (Refusal "budget address-space generation mismatch");
  match pending m !! tid o with
  | Some (prior_mm, prior, _) =>
      if bool_decide (prior_mm = mm) && bool_decide (prior = budget) then Ok m
      else Err (Refusal "duplicate outstanding grant budget")
  | None => Ok {| pending := <[tid o := (mm, budget, false)]> (pending m) |}
  end.
Definition committed_grant (m : Mailbox) (t : DetTid) : Mailbox :=
  match pending m !! t with
  | Some (mm, budget, _) => {| pending := <[t := (mm, budget, true)]> (pending m) |}
  | None => m
  end.
(** The reply's budget, with the mailbox after it; a refusal keeps the hint. *)
Definition finish (m : Mailbox) (t : DetTid) (mm : MmId) (granted terminal : bool)
    : result AnyError (option Budget * Mailbox) :=
  if terminal then Ok (None, retire m t mm)
  else
    match pending m !! t with
    | None => Ok (None, m)
    | Some (owner_mm, budget, committed) =>
        if negb granted || negb committed then Ok (None, m)
        else
          _ ← ensure (bool_decide (owner_mm = mm)) (Refusal "stale grant budget address space");
          Ok (Some budget, {| pending := delete t (pending m) |})
    end.
End Mailbox.

Module BoundaryReplayer.
Record BoundaryReplayer := { br_schedule : Boundary.Schedule; br_next : nat }.
Definition new (s : Boundary.Schedule) : BoundaryReplayer := {| br_schedule := s; br_next := 0 |}.
Definition has_records_left (r : BoundaryReplayer) : bool :=
  (br_next r <? length (records (br_schedule r)))%nat.
Definition record_thread (r : Record_) : DetTid :=
  match r with Event e => dettid e | TimesliceEnd b => tid (owner (identity b)) end.
Definition next_thread (r : BoundaryReplayer) : option DetTid :=
  record_thread <$> records (br_schedule r) !! br_next r.

(** The loop of [budget_for], from the record at [index]. *)
Fixpoint budget_in (s : Boundary.Schedule) (o : Owner) (index : nat) (rs : list Record_)
    : outcome (option Budget) :=
  match rs with
  | [] => Done None
  | r :: rs' =>
      if negb (record_thread r =? tid o) then Done None
      else match r with
           | TimesliceEnd b =>
               if bool_decide (owner (identity b) = o)
               then match budget_at s index with
                    | Ok budget => Done (Some budget)
                    | _ => Panic PExpect
                    end
               else Done None
           | Event _ => budget_in s o (S index) rs'
           end
  end.
Definition budget_for (r : BoundaryReplayer) (o : Owner) : outcome (option Budget) :=
  budget_in (br_schedule r) o (br_next r) (drop (br_next r) (records (br_schedule r))).

Definition finish (r : BoundaryReplayer) : outcome (result Error ()) :=
  if has_records_left r
  then remaining ← usize_sub (length (records (br_schedule r))) (br_next r);
       Done (Err (Incomplete (br_next r) remaining))
  else Done (Ok tt).

(** A switch the observed request itself hands over: at a boundary, at a syscall
    prehook and at a committed exit. *)
Definition deferred (observed : Record_) : bool :=
  match observed with
  | TimesliceEnd _ => true
  | Event e => match op e with Syscall _ Schedule.Prehook => true | _ => Replayer.is_terminal_posthook e end
  end.
(** The answer, and the cursor after it. *)
Definition observe (r : BoundaryReplayer) (observed : Record_)
    : result Error Replayer.ReplayAction * BoundaryReplayer :=
  match records (br_schedule r) !! br_next r with
  | None => (Err (Exhausted (br_next r) observed), r)
  | Some expected =>
      match check_observation expected (br_next r) observed with
      | Err e => (Err e, r)
      | Crash p => (Crash p, r)
      | Ok _ =>
          let r := {| br_schedule := br_schedule r; br_next := S (br_next r) |} in
          match next_thread r with
          | None => (Ok (Replayer.Continue None), r)
          | Some next_tid =>
              if next_tid =? record_thread observed then (Ok (Replayer.Continue None), r)
              else (Ok (Replayer.ContextSwitch (negb (deferred observed)) next_tid None), r)
          end
      end
  end.
End BoundaryReplayer.
