(* ===== verification/BoundaryStream.v ===== *)
(** * Recorded boundary streams

    What the registry accepts, the reader accepts: any run of lifecycle calls,
    accepted boundaries and well-formed events records a stream that passes the
    validation of the whole stream.  The invariant of the registry ties every
    owner the validation has seen to the owner that is live now. *)
From Stdlib Require Import ZArith Lia List String.
From stdpp Require Import base gmap list.
From S2P Require Import Prelude Time Schedule Text Replayer Boundary BoundaryReplay.
Import Schedule Boundary.
Open Scope Z_scope.

(** ** Runs of a recording *)

Inductive life_call :=
  | LFresh (t : DetTid) (mm : MmId)
  | LExec (caller leader : DetTid) (old_mm new_mm : MmId)
  | LRetire (t : DetTid) (mm : MmId)
  | LBoundary (t : DetTid) (mm : MmId) (b : Boundary)
  | LEvent (e : SchedEvent).

Definition recorded := list Record_.
Definition life_step (st : Registry.Registry * recorded) (c : life_call)
    : result AnyError (Registry.Registry * recorded) :=
  let '(r, rs) := st in
  match c with
  | LFresh t mm => o ← Registry.fresh r t mm; Ok (o.2, rs)
  | LExec caller leader old_mm new_mm => o ← Registry.exec r caller leader old_mm new_mm; Ok (o.2, rs)
  | LRetire t mm => Ok (Registry.retire r t mm, rs)
  | LBoundary t mm b =>
      _ ← Registry.validate_boundary r t mm b;
      Ok (Registry.commit_boundary r b, rs ++ [TimesliceEnd b])
  | LEvent e => _ ← map_err Protocol (validate_event (length rs) e); Ok (r, rs ++ [Event e])
  end.
Fixpoint life_run (st : Registry.Registry * recorded) (cs : list life_call)
    : result AnyError (Registry.Registry * recorded) :=
  match cs with [] => Ok st | c :: cs' => st ← life_step st c; life_run st cs' end.

(** ** The registry's invariant *)

(** [now] is the owner [before] is seen as, or a later image of it. *)
Definition moved_on (before now : Owner) : Prop :=
  now = before \/ address_space_generation before < address_space_generation now.
#[export] Instance moved_on_refl : Reflexive moved_on.
Proof. by left. Qed.

Definition issued (r : Registry.Registry) (t : DetTid) (g : Z) : Prop :=
  exists g', Registry.last r !! t = Some g' /\ g <= g'.

Record registry_ok (r : Registry.Registry) : Prop := {
  live_slot : forall t o, Registry.live r !! t = Some o ->
    tid o = t /\ Registry.last r !! t = Some (thread_generation o);
  live_birth : forall t o, Registry.live r !! t = Some o -> issued r (birth_tid o) (birth_generation o);
  live_distinct : forall t t' o o', Registry.live r !! t = Some o -> Registry.live r !! t' = Some o' ->
    birth_of o = birth_of o' -> t = t';
}.
Record seen_ok (r : Registry.Registry) (s : Seen) : Prop := {
  seen_previous : previous s = Registry.boundaries r;
  seen_slot : forall t o, latest_owner s !! t = Some o ->
    tid o = t /\ issued r t (thread_generation o)
    /\ forall l, Registry.live r !! t = Some l -> thread_generation l = thread_generation o ->
         birth_of l = birth_of o /\ moved_on o l;
  seen_birth : forall b o, latest_birth s !! b = Some o ->
    birth_of o = b /\ issued r b.1 b.2
    /\ forall t l, Registry.live r !! t = Some l -> birth_of l = b -> moved_on o l;
}.

Lemma issued_insert r r' t t' g g' :
  Registry.last r' = <[t' := g']> (Registry.last r) ->
  (forall g0, Registry.last r !! t' = Some g0 -> g0 <= g') -> issued r t g -> issued r' t g.
Proof.
  intros E Hle (g0&L&Hg). unfold issued. rewrite E. destruct (decide (t = t')) as [->|N].
  - exists g'. rewrite lookup_insert_eq. split; [done|]. specialize (Hle _ L). lia.
  - exists g0. by rewrite lookup_insert_ne.
Qed.

Lemma get_owner_Ok r t mm o :
  Registry.get_owner r t mm = Ok o <-> Registry.live r !! t = Some o /\ Registry.of_image o mm = true.
Proof.
  unfold Registry.get_owner. destruct (Registry.live r !! t) as [o'|]; [|by split; [|intros [? _]]].
  destruct (Registry.of_image o' mm) eqn:E.
  - split; [intros [= <-]; done|intros [[= <-] _]; done].
  - split; [done|intros [[= <-] I]; congruence].
Qed.
Lemma of_image_true o mm :
  Registry.of_image o mm = true <->
  address_space_creator o = creator mm /\ address_space_generation o = generation mm.
Proof. unfold Registry.of_image. rewrite andb_true_iff, !Z.eqb_eq. done. Qed.

(** A generation the registry hands out has not been issued before. *)
Lemma next_generation_fresh r t g :
  Registry.next_generation r t = Ok g ->
  0 < t /\ (forall g0, Registry.last r !! t = Some g0 -> g0 < g).
Proof.
  unfold Registry.next_generation. intros (u&E&H)%bind_Ok. apply ensure_Ok, Z.ltb_lt in E. split; [done|].
  intros g0 L. rewrite L in H. apply ok_or_Ok, checked_u64_Some in H as [-> _]. lia.
Qed.
Lemma issued_fresh r t g g' :
  (forall g0, Registry.last r !! t = Some g0 -> g0 < g') -> issued r t g -> g < g'.
Proof. intros H (g0&L&Hg). specialize (H _ L). lia. Qed.

(** ** Each lifecycle call *)

(** A live map with one owner put in at [t], of a generation new at [t], and
    others at most taken out. *)
Lemma seat_ok r r' t o :
  registry_ok r ->
  Registry.last r' = <[t := thread_generation o]> (Registry.last r) ->
  (forall g0, Registry.last r !! t = Some g0 -> g0 <= thread_generation o) ->
  tid o = t -> issued r' (birth_tid o) (birth_generation o) ->
  Registry.live r' !! t = Some o ->
  (forall t' o', t' <> t -> Registry.live r' !! t' = Some o' ->
     Registry.live r !! t' = Some o' /\ birth_of o' <> birth_of o) ->
  registry_ok r'.
Proof.
  intros OK EL Hg Ht Hb Lt Lo.
  assert (other : forall t' o', Registry.live r' !! t' = Some o' ->
            (t' = t /\ o' = o) \/ (t' <> t /\ Registry.live r !! t' = Some o' /\ birth_of o' <> birth_of o)).
  { intros t' o' L. destruct (decide (t' = t)) as [->|N]; [left; by rewrite Lt in L; injection L as <-|right].
    split; [done|]. by apply Lo. }
  split.
  - intros t' o' L. destruct (other _ _ L) as [[-> ->]|(N&L'&_)]; rewrite EL.
    + by rewrite lookup_insert_eq.
    + rewrite lookup_insert_ne by done. by apply (live_slot _ OK).
  - intros t' o' L. destruct (other _ _ L) as [[-> ->]|(N&L'&_)]; [done|].
    eapply issued_insert; [exact EL|exact Hg|]. by eapply live_birth.
  - intros t1 t2 o1 o2 L1 L2 E.
    destruct (other _ _ L1) as [[-> ->]|(N1&L1'&B1)], (other _ _ L2) as [[-> ->]|(N2&L2'&B2)];
      [done|by destruct B2|by destruct B1|]. eapply live_distinct; eauto.
Qed.
Lemma seat_seen r r' s t o :
  seen_ok r s ->
  Registry.last r' = <[t := thread_generation o]> (Registry.last r) ->
  Registry.boundaries r' = Registry.boundaries r ->
  (forall g0, Registry.last r !! t = Some g0 -> g0 <= thread_generation o) ->
  Registry.live r' !! t = Some o ->
  (forall t' o', t' <> t -> Registry.live r' !! t' = Some o' -> Registry.live r !! t' = Some o') ->
  (forall b, latest_owner s !! t = Some b -> thread_generation o = thread_generation b ->
     birth_of o = birth_of b /\ moved_on b o) ->
  (forall b, latest_birth s !! birth_of o = Some b -> moved_on b o) ->
  seen_ok r' s.
Proof.
  intros OK EL EB Hg Lt Lo Hs Hb. split.
  - by rewrite EB, (seen_previous _ _ OK).
  - intros t' b L. destruct (seen_slot _ _ OK _ _ L) as (T&I&M). split; [done|]. split.
    { eapply issued_insert; eauto. }
    intros l Ll. destruct (decide (t' = t)) as [->|N]; [|exact (M l (Lo t' l N Ll))].
    rewrite Lt in Ll. injection Ll as <-. by apply Hs.
  - intros b x L. destruct (seen_birth _ _ OK _ _ L) as (T&I&M). split; [done|]. split.
    { eapply issued_insert; eauto. }
    intros t' l Ll El. destruct (decide (t' = t)) as [->|N]; [|exact (M t' l (Lo t' l N Ll) El)].
    rewrite Lt in Ll. injection Ll as <-. apply Hb. by rewrite El.
Qed.

Lemma fresh_Ok r t mm o r' :
  Registry.fresh r t mm = Ok (o, r') ->
  Registry.live r !! t = None
  /\ 0 < t /\ (forall g0, Registry.last r !! t = Some g0 -> g0 < thread_generation o)
  /\ o = {| tid := t; thread_generation := thread_generation o; birth_tid := t;
            birth_generation := thread_generation o; address_space_creator := creator mm;
            address_space_generation := generation mm |}
  /\ r' = {| Registry.last := <[t := thread_generation o]> (Registry.last r);
             Registry.live := <[t := o]> (Registry.live r); Registry.boundaries := Registry.boundaries r |}.
Proof.
  unfold Registry.fresh. intros (u&E&(g&G&H)%bind_Ok)%bind_Ok. apply ensure_Ok, bool_decide_eq_true_1 in E.
  injection H as <- <-. apply next_generation_fresh in G as [P G]. by repeat split.
Qed.
Lemma fresh_ok r s t mm o r' :
  registry_ok r -> seen_ok r s -> Registry.fresh r t mm = Ok (o, r') -> registry_ok r' /\ seen_ok r' s.
Proof.
  intros OK SK (N&P&G&Eo&->)%fresh_Ok.
  assert (T : tid o = t) by by rewrite Eo.
  assert (B : birth_of o = (t, thread_generation o)) by (rewrite Eo; done).
  assert (unborn : forall x, issued r (birth_tid x) (birth_generation x) -> birth_of x <> birth_of o).
  { intros x Hx E. rewrite B in E. unfold birth_of in E. injection E as E1 E2. rewrite E1, E2 in Hx.
    specialize (issued_fresh _ _ _ _ G Hx). lia. }
  split.
  - eapply seat_ok; [done|done|intros g0 Lg; specialize (G g0 Lg); lia|done| |apply lookup_insert_eq|].
    + unfold birth_of in B. injection B as -> ->. exists (thread_generation o). cbn. by rewrite lookup_insert_eq.
    + intros t' o' N' L. cbn in L. rewrite lookup_insert_ne in L by done. split; [done|].
      by eapply unborn, live_birth.
  - eapply seat_seen; [done|done|done|intros g0 Lg; specialize (G g0 Lg); lia|apply lookup_insert_eq| | |].
    + intros t' o' N' L. cbn in L. by rewrite lookup_insert_ne in L.
    + intros b L E. destruct (seen_slot _ _ SK _ _ L) as (_&I&_).
      specialize (issued_fresh _ _ _ _ G I). lia.
    + intros b L. destruct (seen_birth _ _ SK _ _ L) as (E&I&_). rewrite B in I. cbn in I.
      specialize (issued_fresh _ _ _ _ G I). lia.
Qed.

Lemma exec_Ok r caller leader old_mm new_mm o r' :
  Registry.exec r caller leader old_mm new_mm = Ok (o, r') ->
  exists v, Registry.live r !! caller = Some v /\ address_space_generation v < address_space_generation o
  /\ creator new_mm = leader
  /\ (caller = leader /\ thread_generation o = thread_generation v
      \/ caller <> leader /\ 0 < leader
         /\ forall g0, Registry.last r !! leader = Some g0 -> g0 < thread_generation o)
  /\ o = {| tid := leader; thread_generation := thread_generation o; birth_tid := birth_tid v;
            birth_generation := birth_generation v; address_space_creator := creator new_mm;
            address_space_generation := generation new_mm |}
  /\ r' = {| Registry.last := <[leader := thread_generation o]> (Registry.last r);
             Registry.live := <[leader := o]> (delete caller (Registry.live r));
             Registry.boundaries := Registry.boundaries r |}.
Proof.
  unfold Registry.exec. intros (v&V&(u&E&(g&G&H)%bind_Ok)%bind_Ok)%bind_Ok.
  apply ensure_Ok, andb_true_iff in E as [E1%Z.eqb_eq E2%bool_decide_eq_true_1].
  apply get_owner_Ok in V as [V I]. apply of_image_true in I as [_ I].
  apply checked_u64_Some in E2 as [E2 _]. injection H as <- <-. exists v. cbn.
  split; [done|]. split; [lia|]. split; [done|]. split; [|done].
  unfold Registry.exec_generation in G. destruct (caller =? leader) eqn:C.
  - apply Z.eqb_eq in C. injection G as <-. by left.
  - apply Z.eqb_neq in C. right. apply bind_Ok in G as (w&_&G). by apply next_generation_fresh in G as [? ?].
Qed.
Lemma registry_exec_ok r s caller leader old_mm new_mm o r' :
  registry_ok r -> seen_ok r s -> Registry.exec r caller leader old_mm new_mm = Ok (o, r') ->
  registry_ok r' /\ seen_ok r' s.
Proof.
  intros OK SK (v&V&A&_&C&Eo&->)%exec_Ok.
  assert (T : tid o = leader) by by rewrite Eo.
  assert (B : birth_of o = birth_of v) by by rewrite Eo.
  assert (Hg : forall g0, Registry.last r !! leader = Some g0 -> g0 <= thread_generation o).
  { intros g0 L. destruct C as [[<- E]|(_&_&H)]; [|specialize (H _ L); lia].
    destruct (live_slot _ OK _ _ V) as [_ L']. rewrite L in L'. injection L' as ->. lia. }
  assert (rest : forall t' o', t' <> leader ->
            <[leader := o]> (delete caller (Registry.live r)) !! t' = Some o' ->
            t' <> caller /\ Registry.live r !! t' = Some o').
  { intros t' o' N L. rewrite lookup_insert_ne in L by done. by apply lookup_delete_Some in L as [? ?]. }
  assert (later : forall b, moved_on b v -> moved_on b o).
  { intros b [->|H]; right; lia. }
  split.
  - eapply seat_ok; [done|done|done|done| |apply lookup_insert_eq|].
    + unfold birth_of in B. injection B as -> ->. eapply issued_insert; [done|done|]. by eapply live_birth.
    + intros t' o' N L. apply rest in L as [N' L]; [|done]. split; [done|]. rewrite B. intros E. destruct N'.
      by eapply live_distinct.
  - eapply seat_seen; [done|done|done|done|apply lookup_insert_eq| | |].
    + intros t' o' N L. by apply rest in L as [_ L].
    + intros b L E. destruct (seen_slot _ _ SK _ _ L) as (_&I&M). destruct C as [[<- E']|(_&_&H)].
      * rewrite B. destruct (M v V) as [Mb Mo]; [congruence|]. auto.
      * specialize (issued_fresh _ _ _ _ H I). lia.
    + intros b L. destruct (seen_birth _ _ SK _ _ L) as (_&_&M). eapply later, M; [done|]. by rewrite B.
Qed.
Lemma retire_ok r s t mm :
  registry_ok r -> seen_ok r s -> registry_ok (Registry.retire r t mm) /\ seen_ok (Registry.retire r t mm) s.
Proof.
  intros OK SK. unfold Registry.retire. destruct (Registry.get_owner r t mm); [|done..].
  assert (sub : forall t' o', delete t (Registry.live r) !! t' = Some o' -> Registry.live r !! t' = Some o').
  { intros t' o' L. by apply lookup_delete_Some in L as [_ L]. }
  destruct OK as [A B C], SK as [D E F]. split; split; cbn.
  - intros t' o' L. by apply A, sub.
  - intros t' o' L. exact (B _ _ (sub _ _ L)).
  - intros t1 t2 o1 o2 L1 L2. exact (C _ _ _ _ (sub _ _ L1) (sub _ _ L2)).
  - done.
  - intros t' b L. destruct (E _ _ L) as (?&?&M). split; [done|]. split; [done|]. intros l Ll. exact (M l (sub _ _ Ll)).
  - intros b x L. destruct (F _ _ L) as (?&?&M). split; [done|]. split; [done|]. intros t' l Ll. exact (M t' l (sub _ _ Ll)).
Qed.

(** ** An accepted boundary is one the whole-stream validation accepts *)

Lemma ensure_any {E} b (e e' : E) u : ensure b e = Ok u -> ensure b e' = Ok tt.
Proof. by destruct b. Qed.
Lemma validate_shape_index b i j : validate_shape b i = Ok tt -> validate_shape b j = Ok tt.
Proof.
  unfold validate_shape.
  intros (u1&E1&(u2&E2&(u3&E3&(u4&E4&(u5&E5&E6)%bind_Ok)%bind_Ok)%bind_Ok)%bind_Ok)%bind_Ok.
  rewrite (ensure_any _ _ _ _ E1). cbn [mbind result_bind]. rewrite (ensure_any _ _ _ _ E2). cbn [mbind result_bind].
  match goal with |- (_ ← ?m; _) = _ => assert (m = Ok tt) as -> end.
  { destruct (entry (identity b)) as [n []| | | | | | |g [] a|g [] a []]; cbn [mbind result_bind] in *;
      try done; by eapply ensure_any. }
  cbn [mbind result_bind]. rewrite (ensure_any _ _ _ _ E4). cbn [mbind result_bind].
  rewrite (ensure_any _ _ _ _ E5). cbn [mbind result_bind]. by eapply ensure_any.
Qed.

Lemma validate_boundary_Ok r t mm b :
  Registry.validate_boundary r t mm b = Ok tt ->
  validate_shape b 0 = Ok tt
  /\ Registry.live r !! t = Some (owner (identity b)) /\ Registry.of_image (owner (identity b)) mm = true
  /\ match Registry.boundaries r !! owner (identity b) with
     | None => slice (identity b) = 1
     | Some prior => Registry.follows prior (identity b) = true
     end.
Proof.
  unfold Registry.validate_boundary.
  intros ([]&S&(o&O&([]&E&H)%bind_Ok)%bind_Ok)%bind_Ok. apply ensure_Ok, bool_decide_eq_true_1 in E.
  apply get_owner_Ok in O as [L I]. subst o.
  split; [by destruct (validate_shape b 0) as [[]| |]|]. split; [done|]. split; [done|].
  destruct (Registry.boundaries r !! owner (identity b)); apply ensure_Ok in H; [done|by apply Z.eqb_eq].
Qed.

Lemma ensure_bind {E} (b : bool) (e : E) {A} (k : () -> result E A) :
  b = true -> (u ← ensure b e; k u) = k tt.
Proof. by intros ->. Qed.
Lemma follows_order i prior id :
  Registry.follows prior id = true ->
  (_ ← ensure (bool_decide (checked_u64 (slice prior + 1) = Some (slice id)))
         (InvalidBoundary i "missing, duplicated or reordered slice occurrence"%string);
   _ ← ensure (negb ((checkin id <? checkin prior) || (committed_rcbs id <? committed_rcbs prior)))
         (InvalidBoundary i "check-in or guest RCB count moved backwards"%string);
   ensure (negb ((checkin id =? checkin prior)
                 && (bool_decide (entry id <> entry prior) || bool_decide (phase id <> phase prior)
                     || negb (committed_rcbs id =? committed_rcbs prior))))
     (InvalidBoundary i "one semantic check-in has conflicting identities"%string)) = Ok tt.
Proof.
  unfold Registry.follows. rewrite !andb_true_iff. intros [[[A B] C] D].
  rewrite ensure_bind by done. rewrite ensure_bind by (rewrite negb_orb, B, C; done). by rewrite D.
Qed.

Lemma moved_not_back b l : moved_on b l -> birth_of l = birth_of b ->
  thread_generation b <= thread_generation l -> moved_backwards l b = false.
Proof.
  unfold birth_of, moved_backwards. intros M E G. injection E as -> ->. rewrite !Z.eqb_refl. cbn.
  assert (thread_generation l <? thread_generation b = false) as -> by (by apply Z.ltb_ge).
  destruct M as [->|M].
  - rewrite !Z.ltb_irrefl, !Z.eqb_refl. done.
  - rewrite (proj2 (Z.ltb_ge (address_space_generation l) _)) by lia.
    rewrite (proj2 (Z.eqb_neq (address_space_generation l) _)) by lia. by rewrite andb_false_r.
Qed.
Lemma moved_with_exec b l : moved_on b l -> moved_without_exec l b = false.
Proof.
  unfold moved_without_exec. intros [->|M].
  - rewrite Z.ltb_irrefl, Z.eqb_refl. cbn. apply bool_decide_eq_false_2. naive_solver.
  - rewrite (proj2 (Z.ltb_ge _ _)), (proj2 (Z.eqb_neq _ _)) by lia. done.
Qed.
Lemma later_slot b l : thread_generation b < thread_generation l -> moved_backwards l b = false.
Proof.
  intros H. unfold moved_backwards. rewrite (proj2 (Z.ltb_ge _ _)), (proj2 (Z.eqb_neq _ _)) by lia. done.
Qed.

Lemma boundary_order r s i t mm b :
  registry_ok r -> seen_ok r s -> Registry.validate_boundary r t mm b = Ok tt ->
  validate_boundary_order i (identity b) s = Ok tt.
Proof.
  intros OK SK (_&L&_&H)%validate_boundary_Ok. set (id := identity b) in *. unfold validate_boundary_order.
  destruct (live_slot _ OK _ _ L) as [T G]. rewrite T.
  rewrite ensure_bind.
  2:{ destruct (latest_owner s !! t) as [o|] eqn:Lo; [|done].
      destruct (seen_slot _ _ SK _ _ Lo) as (_&(g&Lg&Hg)&M). rewrite G in Lg. injection Lg as <-.
      apply negb_true_iff. destruct (decide (thread_generation (owner id) = thread_generation o)) as [E|N].
      - destruct (M _ L E) as [Bo Mo]. apply moved_not_back; [done|done|lia].
      - apply later_slot. lia. }
  rewrite ensure_bind.
  2:{ destruct (latest_birth s !! birth_of (owner id)) as [o|] eqn:Lo; [|done].
      destruct (seen_birth _ _ SK _ _ Lo) as (_&_&M). apply negb_true_iff, moved_with_exec. by eapply M. }
  rewrite (seen_previous _ _ SK). destruct (Registry.boundaries r !! owner id) as [prior|].
  - by apply follows_order.
  - by rewrite H.
Qed.
Lemma boundary_seen r s t mm b :
  registry_ok r -> seen_ok r s -> Registry.validate_boundary r t mm b = Ok tt ->
  registry_ok (Registry.commit_boundary r b) /\ seen_ok (Registry.commit_boundary r b) (see (identity b) s).
Proof.
  intros OK SK (_&L&_&_)%validate_boundary_Ok. set (id := identity b) in *.
  destruct (live_slot _ OK _ _ L) as [T G]. split; [destruct OK; by split|]. split; cbn.
  - by rewrite (seen_previous _ _ SK).
  - rewrite T. intros t' o Lo. destruct (decide (t' = t)) as [->|N].
    + rewrite lookup_insert_eq in Lo. injection Lo as <-. split; [done|].
      split; [eexists; split; [exact G|done]|]. intros l Ll _. rewrite L in Ll. injection Ll as <-. by split; [|left].
    + rewrite lookup_insert_ne in Lo by done. by apply (seen_slot _ _ SK).
  - intros k o Lo. destruct (decide (k = birth_of (owner id))) as [->|N].
    + rewrite lookup_insert_eq in Lo. injection Lo as <-. split; [done|]. split; [exact (live_birth _ OK _ _ L)|].
      intros t' l Ll El. assert (t' = t) as -> by by eapply live_distinct.
      rewrite L in Ll. injection Ll as <-. by left.
    + rewrite lookup_insert_ne in Lo by done. by apply (seen_birth _ _ SK).
Qed.

(** ** Whole runs *)

Definition stream_ok (st : Registry.Registry * recorded) : Prop :=
  exists s, validate_from 0 st.2 nothing_seen = Ok s /\ registry_ok st.1 /\ seen_ok st.1 s.

Lemma validate_from_app i xs ys s :
  validate_from i (xs ++ ys) s = (s' ← validate_from i xs s; validate_from (i + length xs) ys s').
Proof.
  revert i s. induction xs as [|x xs IH]; intros i s; cbn.
  - by rewrite Nat.add_0_r.
  - destruct (validate_record i x s); [|done..]. cbn. rewrite IH. by rewrite Nat.add_succ_r.
Qed.

Lemma registry_empty_ok : registry_ok Registry.empty.
Proof. split; cbn; intros *; rewrite lookup_empty; done. Qed.
Lemma stream_init : stream_ok (Registry.empty, []).
Proof.
  exists nothing_seen. split; [done|]. split; [apply registry_empty_ok|].
  split; cbn; [done| |]; intros *; rewrite lookup_empty; done.
Qed.
Lemma life_step_ok st c st' : stream_ok st -> life_step st c = Ok st' -> stream_ok st'.
Proof.
  destruct st as [r rs]. intros (s&V&OK&SK) H. cbn in V, OK, SK. destruct c; cbn in H.
  - apply bind_Ok in H as ([o r']&F&H). injection H as <-. exists s. split; [done|]. by eapply fresh_ok.
  - apply bind_Ok in H as ([o r']&F&H). injection H as <-. exists s. split; [done|]. by eapply registry_exec_ok.
  - injection H as <-. exists s. split; [done|]. by apply retire_ok.
  - apply bind_Ok in H as ([]&F&H). injection H as <-. exists (see (identity b) s). split.
    + cbn [fst snd]. rewrite validate_from_app, V. cbn [mbind result_bind validate_from validate_record Nat.add].
      rewrite (validate_shape_index _ _ (length rs) (proj1 (validate_boundary_Ok _ _ _ _ F))). cbn.
      by rewrite (boundary_order _ _ _ _ _ _ OK SK F).
    + by eapply boundary_seen.
  - apply bind_Ok in H as ([]&F&H). injection H as <-. exists s. split; [|done].
    cbn [fst snd]. rewrite validate_from_app, V. cbn [mbind result_bind validate_from validate_record Nat.add].
    destruct (validate_event (length rs) e) as [[]| |]; [done|by cbn in F..].
Qed.
Lemma life_run_ok cs st st' : stream_ok st -> life_run st cs = Ok st' -> stream_ok st'.
Proof.
  revert st. induction cs as [|c cs IH]; intros st OK H; cbn in H; [by injection H as <-|].
  apply bind_Ok in H as (st1&S&H). eapply IH; [|done]. by eapply life_step_ok.
Qed.
