(* ===== verification/BoundaryGuest.v ===== *)
(** * Slice boundaries at the guest
      (src/detcore/src/slice_boundary.rs, slice_boundary/callbacks.rs and the
       installation half of slice_boundary/grant.rs)

    A guest thread counts its semantic check-ins, syscalls and signal entries in
    its [Observations]; a callback holds a [Token] from its entry to its posthook;
    closing a slice snapshots the identity of the last check-in, then resets the
    slice.  [ThreadState] has the fields this code reads or writes.  The reset
    itself, [ThreadState::next_timeslice], chooses the next deadlines from the
    configuration and the PRNG and is not modelled: it is the operation of the
    class [SliceReset], whose law is that it leaves the observed fields alone.
    A refusal returns no new state: every caller ends the run on one, and only
    the statistics check of [reset_start] comes after a change of the thread. *)
From Stdlib Require Import ZArith Lia List String.
From stdpp Require Import base gmap list.
From S2P Require Import Prelude Time Schedule Text RunQueue Boundary BoundaryReplay.
Import Schedule Boundary.
Open Scope Z_scope.

Record Observations := {
  o_owner : Owner;
  o_mm : MmId;
  o_checkin : Z;
  completed_slices : Z;
  syscall_occurrence : Z;
  signal_entry_occurrence : Z;
  active_syscall : option (Sysno * Z);
  current : option (Entry * Phase * Z);
  expected_budget : option Budget;
  pending_start_budget : option (Budget * Z);
  start_reset_done : bool;
}.
Record ThreadState := {
  t_dettid : DetTid;
  mm_id : MmId;
  committed_clock_value : Z;
  logical_nanos : LogicalTime;
  own_signal_turn_hold : bool;
  timeslice_count : Z;
  replay_rcb_end : option Z;
  slice_boundary : option Observations;
}.

Definition set_checkin c cur (o : Observations) : Observations :=
  {| o_owner := o_owner o; o_mm := o_mm o; o_checkin := c; completed_slices := completed_slices o;
     syscall_occurrence := syscall_occurrence o; signal_entry_occurrence := signal_entry_occurrence o;
     active_syscall := active_syscall o; current := cur; expected_budget := expected_budget o;
     pending_start_budget := pending_start_budget o; start_reset_done := start_reset_done o |}.
Definition set_occurrences sys sig act (o : Observations) : Observations :=
  {| o_owner := o_owner o; o_mm := o_mm o; o_checkin := o_checkin o; completed_slices := completed_slices o;
     syscall_occurrence := sys; signal_entry_occurrence := sig; active_syscall := act; current := current o;
     expected_budget := expected_budget o; pending_start_budget := pending_start_budget o;
     start_reset_done := start_reset_done o |}.
Definition set_budgets exp pend done_ (o : Observations) : Observations :=
  {| o_owner := o_owner o; o_mm := o_mm o; o_checkin := o_checkin o; completed_slices := completed_slices o;
     syscall_occurrence := syscall_occurrence o; signal_entry_occurrence := signal_entry_occurrence o;
     active_syscall := active_syscall o; current := current o; expected_budget := exp;
     pending_start_budget := pend; start_reset_done := done_ |}.
Definition set_completed n (o : Observations) : Observations :=
  {| o_owner := o_owner o; o_mm := o_mm o; o_checkin := o_checkin o; completed_slices := n;
     syscall_occurrence := syscall_occurrence o; signal_entry_occurrence := signal_entry_occurrence o;
     active_syscall := active_syscall o; current := current o; expected_budget := None;
     pending_start_budget := pending_start_budget o; start_reset_done := start_reset_done o |}.
Definition set_boundary b rcb (t : ThreadState) : ThreadState :=
  {| t_dettid := t_dettid t; mm_id := mm_id t; committed_clock_value := committed_clock_value t;
     logical_nanos := logical_nanos t; own_signal_turn_hold := own_signal_turn_hold t;
     timeslice_count := timeslice_count t; replay_rcb_end := rcb; slice_boundary := b |}.
Definition put_boundary b (t : ThreadState) : ThreadState := set_boundary b (replay_rcb_end t) t.

(** ** The slice reset *)

(** What a reset leaves alone. *)
Record same_image (a b : ThreadState) : Prop := {
  same_dettid : t_dettid b = t_dettid a;
  same_mm : mm_id b = mm_id a;
  same_observations : slice_boundary b = slice_boundary a;
}.
Class SliceReset := {
  (** [cfg.target_timeslice.or(cfg.max_timeslice).is_some()] *)
  sliced : bool;
  next_timeslice : ThreadState -> outcome (option Priority * ThreadState);
  next_timeslice_frame : forall t p t', next_timeslice t = Done (p, t') -> same_image t t';
}.

(** ** Observations *)

Definition new_observations (t : ThreadState) (g : Z) : Observations :=
  {| o_owner := {| tid := t_dettid t; thread_generation := g; birth_tid := t_dettid t; birth_generation := g;
                   address_space_creator := creator (mm_id t); address_space_generation := generation (mm_id t) |};
     o_mm := mm_id t; o_checkin := 0; completed_slices := 0; syscall_occurrence := 0;
     signal_entry_occurrence := 0; active_syscall := None; current := None; expected_budget := None;
     pending_start_budget := None; start_reset_done := false |}.
Definition from_owner (t : ThreadState) (o : Owner) : result AnyError Observations :=
  _ ← ensure ((tid o =? t_dettid t) && (0 <? birth_tid o) && Registry.of_image o (mm_id t))
        (Refusal "lifecycle reply does not name this image");
  let state := new_observations t (thread_generation o) in
  Ok {| o_owner := o; o_mm := o_mm state; o_checkin := o_checkin state;
        completed_slices := completed_slices state; syscall_occurrence := syscall_occurrence state;
        signal_entry_occurrence := signal_entry_occurrence state; active_syscall := active_syscall state;
        current := current state; expected_budget := expected_budget state;
        pending_start_budget := pending_start_budget state; start_reset_done := start_reset_done state |}.
Definition require_owner (o : Observations) (t : ThreadState) : result AnyError () :=
  ensure ((tid (o_owner o) =? t_dettid t) && bool_decide (o_mm o = mm_id t)) (Refusal "stale observation owner").

Definition publish (o : Observations) (t : ThreadState) (e : Entry) (ph : Phase)
    : result AnyError Observations :=
  _ ← require_owner o t;
  c ← ok_or (checked_u64 (o_checkin o + 1)) (Refusal "semantic check-in overflow");
  _ ← ensure (match current o with Some (_, _, rcbs) => negb (committed_clock_value t <? rcbs) | None => true end)
        (Refusal "committed guest RCB count moved backwards");
  Ok (set_checkin c (Some (e, ph, committed_clock_value t)) o).

(** [Observations::syscall] *)
Definition observe_syscall (o : Observations) (t : ThreadState) (n : Sysno) (ph : Phase)
    : result AnyError Observations :=
  occurrence ← (match ph with
                | Prehook => ok_or (checked_u64 (syscall_occurrence o + 1)) (Refusal "syscall occurrence overflow")
                | Posthook =>
                    match active_syscall o with
                    | Some (active, occurrence) =>
                        if active =? n then Ok occurrence
                        else Err (Refusal "syscall posthook has no matching entry")
                    | None => Err (Refusal "syscall posthook has no matching entry")
                    end
                | TimerMaximum => Err (Refusal "syscall at timer body")
                end);
  o ← publish o t (ESyscall n occurrence) ph;
  match ph with
  | Prehook => Ok (set_occurrences occurrence (signal_entry_occurrence o) (Some (n, occurrence)) o)
  | Posthook => Ok (set_occurrences (syscall_occurrence o) (signal_entry_occurrence o) None o)
  | TimerMaximum => Crash PExplicit
  end.
(** [Observations::callback] *)
Definition observe_callback (o : Observations) (t : ThreadState) (e : Entry) (ph : Phase)
    : result AnyError Observations :=
  match e with
  | ESyscall _ _ => Err (Refusal "use syscall occurrence allocator")
  | ESignal signal _ _ delivery =>
      if (delivery =? 0) || negb (signal_in_range signal) then Err (Refusal "invalid logical signal delivery")
      else publish o t e ph
  | _ => publish o t e ph
  end.

Definition current_identity (o : Observations) (t : ThreadState) (explicit_yield : bool)
    : result AnyError Identity :=
  _ ← require_owner o t;
  _ ← ensure (negb (own_signal_turn_hold t)) (Refusal "boundary conflicts with own-signal turn hold");
  c ← ok_or (current o) (Refusal "slice end has no semantic check-in");
  let '(e, ph, rcbs) := c in
  _ ← ensure (rcbs =? committed_clock_value t) (Refusal "guest progressed beyond the observed check-in");
  cause ← (if explicit_yield
           then if is_sched_yield e then Ok ExplicitSchedYield
                else Err (Refusal "explicit yield at a different syscall")
           else Ok (match e with
                    | EPmuTimer => CausePmuTimer | ENoRcbTimer => CauseNoRcbTimer | _ => SoftwareCheckin
                    end));
  s ← ok_or (checked_u64 (completed_slices o + 1)) (Refusal "slice occurrence overflow");
  Ok {| owner := o_owner o; cause := cause; phase := ph; entry := e; committed_rcbs := rcbs;
        checkin := o_checkin o; slice := s |}.

Record ClosedSlice := { closed_boundary : Boundary; next_priority : option Priority }.
Definition close_slice `{SliceReset} (o : Observations) (t : ThreadState) (explicit_yield : bool)
    (rip : option InstructionPointer) : result AnyError (ClosedSlice * Observations * ThreadState) :=
  id ← current_identity o t explicit_yield;
  let b := {| identity := id; b_count := 1; b_start_rip := None; b_end_rip := rip;
              b_end_time := Some (logical_nanos t) |} in
  _ ← ensure (match expected_budget o with
              | Some budget => bool_decide (budget_expected budget = identity b) | None => true end)
        (Refusal "expected another boundary");
  r ← lift (next_timeslice t);
  let '(p, t) := r in
  Ok ({| closed_boundary := b; next_priority := p |}, set_completed (slice id) o, t).
(** The slice end of src/detcore/src/lib.rs, with the observations taken out of
    the thread while it runs. *)
Definition end_slice `{SliceReset} (t : ThreadState) (explicit_yield : bool)
    : result AnyError (option Boundary * option Priority * ThreadState) :=
  match slice_boundary t with
  | Some o =>
      r ← close_slice o (put_boundary None t) explicit_yield None;
      let '(closed, o, t) := r in
      Ok (Some (closed_boundary closed), next_priority closed, put_boundary (Some o) t)
  | None => r ← lift (next_timeslice t); Ok (None, r.1, r.2)
  end.

(** [Observations::replay_expiration] and its wrapper on a thread. *)
Definition expires (o : Observations) (t : ThreadState) : result AnyError (option bool) :=
  match expected_budget o with
  | None => Ok None
  | Some budget =>
      _ ← require_owner o t;
      let want := budget_expected budget in
      _ ← ensure (negb ((checkin want <? o_checkin o) || (committed_rcbs want <? committed_clock_value t)))
            (Refusal "passed expected");
      if o_checkin o <? checkin want then Ok (Some false)
      else
        seen ← current_identity o t false;
        let location :=
          {| owner := owner want;
             cause := if bool_decide (cause want = ExplicitSchedYield) then SoftwareCheckin else cause want;
             phase := phase want; entry := entry want; committed_rcbs := committed_rcbs want;
             checkin := checkin want; slice := slice want |} in
        _ ← ensure (bool_decide (seen = location)) (Refusal "expected another boundary");
        Ok (Some (negb (bool_decide (cause want = ExplicitSchedYield))))
  end.
Definition replay_expiration (t : ThreadState) : result AnyError (option bool) :=
  match slice_boundary t with Some o => expires o t | None => Ok None end.

Definition no_rcb_maximum (t : ThreadState) : result AnyError ThreadState :=
  match slice_boundary t with
  | Some o => o ← publish o t ENoRcbTimer TimerMaximum; Ok (put_boundary (Some o) t)
  | None => Ok t
  end.

Definition adopt_owner (t : ThreadState) (o : Owner) (starts_thread : bool) : result AnyError ThreadState :=
  candidate ← from_owner t o;
  match slice_boundary t with
  | Some prior =>
      if bool_decide (o_owner prior = o) then _ ← require_owner prior t; Ok t
      else
        _ ← ensure (bool_decide (birth_of (o_owner prior) = birth_of o)
                    && bool_decide (checked_u64 (address_space_generation (o_owner prior) + 1)
                                    = Some (address_space_generation o))
                    && negb (bool_decide (o_mm prior = mm_id t)))
              (Refusal "lifecycle reply replaced a different thread");
        Ok (set_boundary (Some candidate) None t)
  | None =>
      _ ← ensure starts_thread (Refusal "first owner did not arrive through startup");
      Ok (set_boundary (Some candidate) None t)
  end.

(** ** Callbacks *)

Inductive Callback :=
  | CbSyscall (n : Sysno) | CbCpuid | CbRdtsc | CbPmuTimer | CbNoRcbTimer | CbThreadStart | CbExec
  | CbSignal (signal : SigWrapper) (announced : bool).
Record Token := { token_owner : Owner; token_entry : Entry; prehook_seen : bool }.

Definition begin_callback (o : Observations) (t : ThreadState) (cb : Callback)
    : result AnyError (Token * Observations) :=
  _ ← require_owner o t;
  r ← (match cb with
       | CbSyscall n =>
           k ← ok_or (checked_u64 (syscall_occurrence o + 1)) (Refusal "syscall occurrence overflow");
           Ok (ESyscall n k, set_occurrences k (signal_entry_occurrence o) (active_syscall o) o)
       | CbCpuid => Ok (ECpuid, o)
       | CbRdtsc => Ok (ERdtsc, o)
       | CbPmuTimer => Ok (EPmuTimer, o)
       | CbNoRcbTimer => Ok (ENoRcbTimer, o)
       | CbThreadStart => Ok (EThreadStart, o)
       | CbExec => Ok (EExec, o)
       | CbSignal signal announced =>
           _ ← ensure (signal_in_range signal) (Refusal "invalid actual signal entry");
           k ← ok_or (checked_u64 (signal_entry_occurrence o + 1)) (Refusal "signal entry occurrence overflow");
           Ok (ESignalEntry signal k announced, set_occurrences (syscall_occurrence o) k (active_syscall o) o)
       end);
  Ok ({| token_owner := o_owner o; token_entry := r.1; prehook_seen := false |}, r.2).
Definition is_signal_entry (e : Entry) : bool := match e with ESignalEntry _ _ _ => true | _ => false end.
Definition publish_callback (o : Observations) (t : ThreadState) (k : Token) (ph : Phase)
    : result AnyError (Token * Observations) :=
  _ ← ensure (bool_decide (token_owner k = o_owner o)) (Refusal "callback token belongs to another owner");
  _ ← ensure (eqb (prehook_seen k) (bool_decide (ph = Posthook)))
        (Refusal "callback phase is repeated or out of order");
  _ ← ensure (negb (bool_decide (ph = Posthook) && is_signal_entry (token_entry k)))
        (Refusal "signal posthook precedes actual delivery");
  o ← publish o t (token_entry k) ph;
  Ok ({| token_owner := token_owner k; token_entry := token_entry k; prehook_seen := true |}, o).

(** [with_observations], for an action on the observations and the rest of the
    thread. *)
Definition with_observations {R} (t : ThreadState)
    (action : Observations -> ThreadState -> result AnyError (R * Observations))
    : result AnyError (option R * ThreadState) :=
  match slice_boundary t with
  | None => Ok (None, t)
  | Some o => r ← action o (put_boundary None t); Ok (Some r.1, put_boundary (Some r.2) t)
  end.
Definition begin_ (t : ThreadState) (cb : option Callback) : result AnyError (option Token * ThreadState) :=
  with_observations t (fun o t =>
    cb ← ok_or cb (Refusal "callback has no actual semantic identity"); begin_callback o t cb).
Definition pre (t : ThreadState) (k : option Token) : result AnyError (option Token * ThreadState) :=
  r ← with_observations t (fun o t =>
        k ← ok_or k (Refusal "prehook lost its callback token"); publish_callback o t k Prehook);
  let '(k', t) := r in
  Ok (match k' with Some k' => Some k' | None => k end, t).
Definition post (t : ThreadState) (k : option Token) : result AnyError ThreadState :=
  r ← with_observations t (fun o t =>
        k ← ok_or k (Refusal "posthook lost its callback token"); publish_callback o t k Posthook);
  Ok r.2.
Definition delivered_signal (k : option Token) (signal : SigWrapper) (zero_based_delivery : Z)
    : result AnyError (option Token) :=
  match k with
  | None => Ok None
  | Some k =>
      match token_entry k with
      | ESignalEntry entered occurrence announced =>
          _ ← ensure (prehook_seen k && bool_decide (entered = signal))
                (Refusal "delivery disagrees with its actual entry");
          d ← ok_or (checked_u64 (zero_based_delivery + 1)) (Refusal "signal delivery ordinal overflow");
          Ok (Some {| token_owner := token_owner k; token_entry := ESignal signal occurrence announced d;
                      prehook_seen := prehook_seen k |})
      | _ => Err (Refusal "delivery has no unsettled signal entry")
      end
  end.

(** ** Installing a grant's budget *)

Definition precise_end (b : Budget) : option Z :=
  if bool_decide (cause (budget_expected b) = CausePmuTimer)
  then Some (committed_rcbs (budget_expected b)) else None.
Definition install_checked (t : ThreadState) (b : Budget) : result AnyError ThreadState :=
  b ← map_err Protocol (budget_try_from b);
  o ← ok_or (slice_boundary t) (Refusal "grant to an uninitialized boundary owner");
  _ ← require_owner o t;
  next_slice ← ok_or (checked_u64 (completed_slices o + 1)) (Refusal "slice occurrence overflow");
  let want := budget_expected b in
  _ ← ensure (bool_decide (owner want = o_owner o) && (slice want =? next_slice)
              && negb (checkin want <? o_checkin o) && negb (committed_rcbs want <? committed_clock_value t))
        (Refusal "stale or wrong-owner grant budget");
  if bool_decide (expected_budget o = Some b) && bool_decide (replay_rcb_end t = precise_end b) then Ok t
  else
    _ ← ensure (bool_decide (expected_budget o = None) && bool_decide (replay_rcb_end t = None))
          (Refusal "grant would overwrite an active replay budget");
    Ok (set_boundary (Some (set_budgets (Some b) (pending_start_budget o) (start_reset_done o) o))
          (precise_end b) t).
Definition install (t : ThreadState) (b : Budget) : result AnyError ThreadState :=
  _ ← ensure (match slice_boundary t with
              | Some o => bool_decide (pending_start_budget o = None) | None => true end)
        (Refusal "ordinary grant cannot consume a staged start budget");
  install_checked t b.

(** No check-in, slice, expectation or reset so far. *)
Definition unstarted (o : Observations) : bool :=
  (o_checkin o =? 0) && (completed_slices o =? 0) && bool_decide (current o = None)
  && negb (start_reset_done o).
Definition stage_start (t : ThreadState) (b : Budget) : result AnyError ThreadState :=
  o ← ok_or (slice_boundary t) (Refusal "start grant has no authenticated owner");
  _ ← require_owner o t;
  let want := budget_expected b in
  _ ← ensure (bool_decide (o_owner o = owner want) && unstarted o && bool_decide (expected_budget o = None)
              && bool_decide (pending_start_budget o = None) && bool_decide (replay_rcb_end t = None)
              && (slice want =? 1) && negb (committed_rcbs want <? committed_clock_value t))
        (Refusal "invalid or repeated start budget");
  Ok (put_boundary (Some (set_budgets (expected_budget o) (Some (b, timeslice_count t)) (start_reset_done o) o)) t).

Record StartReset := {
  reset_tid : DetTid; reset_mm : MmId; reset_owner : option Owner; reset_before : Z; reset_after : Z;
}.
Definition reset_start `{SliceReset} (t : ThreadState) : result AnyError (StartReset * ThreadState) :=
  let before := timeslice_count t in
  who ← (match slice_boundary t with
         | Some o =>
             _ ← require_owner o t;
             _ ← ensure (unstarted o
                         && match pending_start_budget o with
                            | Some (_, staged_before) => staged_before =? before | None => true end)
                   (Refusal "repeated or late startup reset");
             Ok (Some (o_owner o))
         | None => Ok None
         end);
  r ← lift (next_timeslice t);
  let t := r.2 in
  let after := timeslice_count t in
  _ ← ensure (bool_decide (checked_u64 (before + (if sliced then 1 else 0)) = Some after))
        (Refusal "startup reset changed unexpected statistics");
  let t := match slice_boundary t with
           | Some o => put_boundary (Some (set_budgets (expected_budget o) (pending_start_budget o) true o)) t
           | None => t
           end in
  Ok ({| reset_tid := t_dettid t; reset_mm := mm_id t; reset_owner := who; reset_before := before;
         reset_after := after |}, t).
Definition finish_start (t : ThreadState) (reset : StartReset) : result AnyError ThreadState :=
  _ ← ensure ((reset_tid reset =? t_dettid t) && bool_decide (reset_mm reset = mm_id t)
              && (reset_after reset =? timeslice_count t)
              && bool_decide (reset_owner reset = o_owner <$> slice_boundary t)
              && match slice_boundary t with Some o => start_reset_done o | None => true end)
        (Refusal "missing or stale startup reset receipt");
  match slice_boundary t ≫= pending_start_budget with
  | None => Ok t
  | Some (b, before) =>
      _ ← ensure (before =? reset_before reset) (Refusal "start budget requires exactly one reset");
      t ← install_checked t b;
      o ← lift (expect (slice_boundary t));
      Ok (put_boundary (Some (set_budgets (expected_budget o) None (start_reset_done o) o)) t)
  end.
