(* ===== verification/BoundarySystem.v ===== *)
(** * Guests, registry and recording together

    Threads start, exec, run callbacks and end slices against one registry.
    Every boundary a guest closes is one the registry accepts, however the
    callbacks of the guests nest and interleave: the invariant relates each
    guest's counters to the last boundary the registry holds of it. *)
From Stdlib Require Import ZArith Lia List String.
From stdpp Require Import base gmap list.
From S2P Require Import Prelude RunQueue Time Schedule Text Boundary BoundaryReplay BoundaryStream BoundaryGuest.
Import Schedule Boundary.
Open Scope Z_scope.

(** ** Runs *)

Record Guest := { thread : ThreadState; tokens : list (option Token) }.
Record System := { registry : Registry.Registry; stream : recorded; guests : gmap DetTid Guest }.
Definition no_guests : System := {| registry := Registry.empty; stream := []; guests := ∅ |}.

Inductive guest_call :=
  | GRuns (clock time : Z) (hold : bool)
  | GBegin (cb : option Callback)
  | GPre (i : nat)
  | GPost (i : nat)
  | GDelivered (i : nat) (signal : SigWrapper) (delivery : N)
  | GNoRcbMaximum
  | GStageStart (b : Budget)
  | GStart
  | GInstall (b : Budget).
Inductive system_call :=
  | SStart (t : ThreadState)
  | SExec (caller leader : DetTid) (new_mm : MmId) (clock : Z)
  | SRetire (t : DetTid) (mm : MmId)
  | SGuest (t : DetTid) (c : guest_call)
  | SEnd (t : DetTid) (explicit_yield : bool)
  | SEvent (e : SchedEvent).

Section System.
Context `{SliceReset}.

(** A guest's own call; between two of them its clocks and its hold are whatever
    the guest makes them. *)
Definition guest_step (g : Guest) (c : guest_call) : result AnyError Guest :=
  let t := thread g in
  let with_thread t := {| thread := t; tokens := tokens g |} in
  match c with
  | GRuns clock time hold =>
      Ok (with_thread {| t_dettid := t_dettid t; mm_id := mm_id t; committed_clock_value := clock;
                         logical_nanos := time; own_signal_turn_hold := hold;
                         timeslice_count := timeslice_count t; replay_rcb_end := replay_rcb_end t;
                         slice_boundary := slice_boundary t |})
  | GBegin cb => r ← begin_ t cb; Ok {| thread := r.2; tokens := tokens g ++ [r.1] |}
  | GPre i => r ← pre t (mjoin (tokens g !! i)); Ok {| thread := r.2; tokens := <[i := r.1]> (tokens g) |}
  | GPost i => t ← post t (mjoin (tokens g !! i)); Ok (with_thread t)
  | GDelivered i signal d =>
      k ← delivered_signal (mjoin (tokens g !! i)) signal (Z.of_N d); Ok {| thread := t; tokens := <[i := k]> (tokens g) |}
  | GNoRcbMaximum => t ← no_rcb_maximum t; Ok (with_thread t)
  | GStageStart b => t ← stage_start t b; Ok (with_thread t)
  | GStart => r ← reset_start t; t ← finish_start r.2 r.1; Ok (with_thread t)
  | GInstall b => t ← install t b; Ok (with_thread t)
  end.

Definition moved_thread (t : ThreadState) (leader : DetTid) (new_mm : MmId) (clock : Z) : ThreadState :=
  {| t_dettid := leader; mm_id := new_mm; committed_clock_value := clock; logical_nanos := logical_nanos t;
     own_signal_turn_hold := own_signal_turn_hold t; timeslice_count := timeslice_count t;
     replay_rcb_end := replay_rcb_end t; slice_boundary := slice_boundary t |}.

(** A thread starts with no observations, in an address space some task created,
    and adopts the owner of its registration; an exec moves the caller's thread
    to the leader's TID and the new image, where it adopts the new owner. *)
Definition system_step (s : System) (c : system_call) : result AnyError System :=
  match c with
  | SStart t =>
      _ ← ensure (bool_decide (slice_boundary t = None) && (0 <? creator (mm_id t)))
            (Refusal "not a new thread of an existing address space");
      r ← Registry.fresh (registry s) (t_dettid t) (mm_id t);
      t' ← adopt_owner t r.1 true;
      Ok {| registry := r.2; stream := stream s;
            guests := <[t_dettid t := {| thread := t'; tokens := [] |}]> (guests s) |}
  | SExec caller leader new_mm clock =>
      g ← ok_or (guests s !! caller) (Refusal "no such guest");
      r ← Registry.exec (registry s) caller leader (mm_id (thread g)) new_mm;
      t' ← adopt_owner (moved_thread (thread g) leader new_mm clock) r.1 false;
      Ok {| registry := r.2; stream := stream s;
            guests := <[leader := {| thread := t'; tokens := tokens g |}]> (delete caller (guests s)) |}
  | SRetire t mm =>
      Ok {| registry := Registry.retire (registry s) t mm; stream := stream s;
            guests := match Registry.get_owner (registry s) t mm with
                      | Ok _ => delete t (guests s) | _ => guests s end |}
  | SGuest t c =>
      g ← ok_or (guests s !! t) (Refusal "no such guest");
      g ← guest_step g c;
      Ok {| registry := registry s; stream := stream s; guests := <[t := g]> (guests s) |}
  | SEnd t explicit_yield =>
      g ← ok_or (guests s !! t) (Refusal "no such guest");
      r ← end_slice (thread g) explicit_yield;
      let '(b, _, t') := r in
      st ← (match b with
            | Some b => life_step (registry s, stream s) (LBoundary t (mm_id (thread g)) b)
            | None => Ok (registry s, stream s)
            end);
      Ok {| registry := st.1; stream := st.2;
            guests := <[t := {| thread := t'; tokens := tokens g |}]> (guests s) |}
  | SEvent e =>
      st ← life_step (registry s, stream s) (LEvent e);
      Ok {| registry := st.1; stream := st.2; guests := guests s |}
  end.
Fixpoint system_run (s : System) (cs : list system_call) : result AnyError System :=
  match cs with [] => Ok s | c :: cs' => s ← system_step s c; system_run s cs' end.
End System.

(** ** A guest's counters *)

(** The shape of an entry that callbacks can produce, before its phase. *)
Definition entry_ok (e : Entry) : Prop :=
  match e with
  | ESyscall _ k => 1 <= k
  | ESignalEntry g k _ => 1 <= k /\ signal_in_range g = true
  | ESignal g k _ d => 1 <= k /\ 1 <= d /\ signal_in_range g = true
  | _ => True
  end.
Definition phase_ok (e : Entry) (ph : Phase) : Prop :=
  match e with
  | ESignalEntry _ _ _ => ph = Prehook
  | ESignal _ _ _ _ => ph = Posthook
  | ENoRcbTimer => True
  | _ => ph <> TimerMaximum
  end.
Definition is_signal (e : Entry) : bool := match e with ESignal _ _ _ _ => true | _ => false end.
Definition token_ok (k : Token) : Prop :=
  entry_ok (token_entry k) /\ (is_signal (token_entry k) = true -> prehook_seen k = true).
Definition tokens_ok (ks : list (option Token)) : Prop := forall k, Some k ∈ ks -> token_ok k.

Record observations_ok (o : Observations) : Prop := {
  counts_ok : 0 <= o_checkin o /\ 0 <= completed_slices o
              /\ 0 <= syscall_occurrence o /\ 0 <= signal_entry_occurrence o;
  current_ok : forall e ph rcbs, current o = Some (e, ph, rcbs) ->
    1 <= o_checkin o /\ entry_ok e /\ phase_ok e ph;
}.
(** The last boundary the registry holds of a guest, against its counters. *)
Definition tracks (last : option Identity) (o : Observations) : Prop :=
  match last with
  | None => completed_slices o = 0
  | Some id =>
      slice id = completed_slices o /\ checkin id <= o_checkin o
      /\ exists e ph rcbs, current o = Some (e, ph, rcbs) /\ committed_rcbs id <= rcbs
         /\ (checkin id = o_checkin o -> e = entry id /\ ph = phase id /\ rcbs = committed_rcbs id)
  end.

(** What every call of a guest keeps: [o'] is [o] with later counters. *)
Record advances (o o' : Observations) : Prop := {
  adv_owner : o_owner o' = o_owner o;
  adv_mm : o_mm o' = o_mm o;
  adv_ok : observations_ok o -> observations_ok o';
  adv_tracks : forall last, tracks last o -> tracks last o';
}.
#[export] Instance advances_refl : Reflexive advances.
Proof. by split. Qed.
#[export] Instance advances_trans : Transitive advances.
Proof.
  intros a b c [A1 A2 A3 A4] [B1 B2 B3 B4]. split; [congruence|congruence|auto|]. intros l T. by apply B4, A4.
Qed.

Lemma publish_advances o t e ph o' :
  publish o t e ph = Ok o' -> entry_ok e -> phase_ok e ph -> advances o o'.
Proof.
  unfold publish. intros (u&_&(c&C&(v&M&E)%bind_Ok)%bind_Ok)%bind_Ok HE HP. injection E as <-.
  apply ok_or_Ok, checked_u64_Some in C as [-> C]. apply ensure_Ok in M.
  split; [done|done| |].
  - intros [A B]. split; [cbn; lia|]. cbn. intros e' ph' r [= <- <- <-]. split; [lia|done].
  - intros [id|]; [|done]. cbn. intros (S&K&e0&ph0&r0&Cu&R&_). rewrite Cu in M. split; [done|]. split; [lia|].
    eexists _, _, _. split; [done|]. apply negb_true_iff, Z.ltb_ge in M. split; [lia|]. lia.
Qed.
Lemma occurrences_advance o sys sig act :
  (0 <= syscall_occurrence o -> 0 <= sys) -> (0 <= signal_entry_occurrence o -> 0 <= sig) ->
  advances o (set_occurrences sys sig act o).
Proof. intros A B. split; [done|done| |done]. intros [C D]. split; [cbn; naive_solver|done]. Qed.
Lemma budgets_advance o a b c : advances o (set_budgets a b c o).
Proof. split; [done|done| |done]. intros [A B]. by split. Qed.

Lemma begin_callback_ok o t cb k o' :
  begin_callback o t cb = Ok (k, o') -> observations_ok o -> advances o o' /\ token_ok k.
Proof.
  unfold begin_callback. intros (u&_&([e o1]&E&H)%bind_Ok)%bind_Ok OK. injection H as <- <-. cbn.
  destruct (counts_ok _ OK) as (A&B&C&D).
  destruct cb as [n| | | | | | |g a]; try (injection E as <- <-; done).
  - apply bind_Ok in E as (c&E&[= <- <-]). apply ok_or_Ok, checked_u64_Some in E as [-> E].
    split; [apply occurrences_advance; lia|]. split; cbn; [lia|done].
  - apply bind_Ok in E as (w&G&E). apply ensure_Ok in G.
    apply bind_Ok in E as (c&E&[= <- <-]). apply ok_or_Ok, checked_u64_Some in E as [-> E].
    split; [apply occurrences_advance; lia|]. split; cbn; [split; [lia|done]|done].
Qed.
Lemma publish_callback_ok o t k ph k' o' :
  publish_callback o t k ph = Ok (k', o') -> ph <> TimerMaximum -> token_ok k -> advances o o' /\ token_ok k'.
Proof.
  unfold publish_callback. intros (u1&_&(u2&P&(u3&S&(o1&E&H)%bind_Ok)%bind_Ok)%bind_Ok)%bind_Ok N [K1 K2].
  injection H as <- <-. apply ensure_Ok, eqb_prop in P. apply ensure_Ok in S. split; [|by split].
  eapply publish_advances; [done|done|].
  destruct (token_entry k); try done; cbn in *.
  - rewrite andb_true_r in S. apply negb_true_iff, bool_decide_eq_false_1 in S. by destruct ph.
  - rewrite K2 in P by done. symmetry in P. by apply bool_decide_eq_true_1 in P.
Qed.

(** ** A guest's calls *)

(** The guest of [t] with the observations it has. *)
Record guest_ok (t : DetTid) (g : Guest) (o : Observations) : Prop := {
  g_observations : slice_boundary (thread g) = Some o;
  g_dettid : t_dettid (thread g) = t;
  g_mm : o_mm o = mm_id (thread g);
  g_counts : observations_ok o;
  g_tokens : tokens_ok (tokens g);
}.

Lemma tokens_at ks i k : tokens_ok ks -> mjoin (ks !! i) = Some k -> token_ok k.
Proof.
  intros OK E. destruct (ks !! i) as [k'|] eqn:L; cbn in E; [|done]. subst k'.
  apply OK. by eapply list_elem_of_lookup_2.
Qed.
Lemma tokens_insert ks i k : tokens_ok ks -> (forall x, k = Some x -> token_ok x) -> tokens_ok (<[i := k]> ks).
Proof.
  intros OK H x Hx. apply list_elem_of_lookup in Hx as [j L].
  apply list_lookup_insert_Some in L as [(->&E&_)|[_ L]]; [by apply H|].
  apply OK. by eapply list_elem_of_lookup_2.
Qed.
Lemma tokens_snoc ks k : tokens_ok ks -> (forall x, k = Some x -> token_ok x) -> tokens_ok (ks ++ [k]).
Proof.
  intros OK H x Hx. apply elem_of_app in Hx as [Hx|Hx]; [by apply OK|].
  apply list_elem_of_singleton in Hx. by apply H.
Qed.

(** The observations after a step, and the thread they are in. *)
Definition evolves (t t' : ThreadState) (o o' : Observations) : Prop :=
  t_dettid t' = t_dettid t /\ mm_id t' = mm_id t /\ slice_boundary t' = Some o' /\ advances o o'.
Lemma guest_evolves d g o t' o' ks :
  guest_ok d g o -> evolves (thread g) t' o o' -> tokens_ok ks ->
  guest_ok d {| thread := t'; tokens := ks |} o' /\ advances o o'.
Proof.
  intros [A B C D E] (F&G&I&J) K. split; [|done]. split; cbn; [done|congruence| |by apply (adv_ok _ _ J)|done].
  rewrite (adv_mm _ _ J). congruence.
Qed.

Lemma with_observations_ok {R} t o (action : Observations -> ThreadState -> result AnyError (R * Observations)) r t' :
  slice_boundary t = Some o -> with_observations t action = Ok (r, t') ->
  exists x o', r = Some x /\ action o (put_boundary None t) = Ok (x, o') /\ t' = put_boundary (Some o') t.
Proof.
  intros E. unfold with_observations. rewrite E. intros ([x o']&A&[= <- <-])%bind_Ok. by eexists _, _.
Qed.
Lemma begin_evolves d g o cb k t' :
  guest_ok d g o -> begin_ (thread g) cb = Ok (k, t') ->
  exists x o', k = Some x /\ evolves (thread g) t' o o' /\ token_ok x.
Proof.
  intros G (x&o'&->&A&->)%(with_observations_ok _ o); [|apply G]. apply bind_Ok in A as (c&_&A).
  apply begin_callback_ok in A as [A K]; [|apply G]. by exists x, o'.
Qed.
Lemma pre_evolves d g o i k t' :
  guest_ok d g o -> pre (thread g) (mjoin (tokens g !! i)) = Ok (k, t') ->
  exists x o', k = Some x /\ evolves (thread g) t' o o' /\ token_ok x.
Proof.
  intros G. unfold pre. intros ([x t1]&(y&o'&->&A&->)%(with_observations_ok _ o)&[= <- <-])%bind_Ok; [|apply G].
  apply bind_Ok in A as (c&C&A). apply ok_or_Ok in C.
  apply publish_callback_ok in A as [A K]; [by exists y, o'|done|]. eapply tokens_at; [apply G|done].
Qed.
Lemma post_evolves d g o i t' :
  guest_ok d g o -> post (thread g) (mjoin (tokens g !! i)) = Ok t' ->
  exists o', evolves (thread g) t' o o'.
Proof.
  intros G. unfold post. intros ([x t1]&(y&o'&->&A&->)%(with_observations_ok _ o)&[= <-])%bind_Ok; [|apply G].
  apply bind_Ok in A as (c&C&A). apply ok_or_Ok in C.
  apply publish_callback_ok in A as [A K]; [by exists o'|done|]. eapply tokens_at; [apply G|done].
Qed.
Lemma delivered_ok ks i signal d k :
  tokens_ok ks -> delivered_signal (mjoin (ks !! i)) signal d = Ok k -> 0 <= d ->
  forall x, k = Some x -> token_ok x.
Proof.
  intros OK. destruct (mjoin (ks !! i)) as [k0|] eqn:L; cbn; [|by intros [= <-]].
  destruct (tokens_at _ _ _ OK L) as [K1 K2]. destruct (token_entry k0) eqn:E; try done.
  intros (u&P&(c&C&[= <-])%bind_Ok)%bind_Ok Hd x [= <-]. apply ensure_Ok, andb_true_iff in P as [P1 P2].
  apply bool_decide_eq_true_1 in P2. subst signal0. apply ok_or_Ok, checked_u64_Some in C as [-> _].
  cbn in K1. split; cbn; [|done]. split; [tauto|]. split; [lia|tauto].
Qed.

Lemma install_checked_evolves t o b t' :
  slice_boundary t = Some o -> install_checked t b = Ok t' -> exists o', evolves t t' o o'.
Proof.
  intros E. unfold install_checked. rewrite E.
  intros (b'&_&(o0&O&(u1&_&(n&_&(u2&_&I)%bind_Ok)%bind_Ok)%bind_Ok)%bind_Ok)%bind_Ok.
  injection O as <-. destruct (_ && _) in I; [injection I as <-; by exists o|].
  apply bind_Ok in I as (u3&_&I). injection I as <-.
  eexists. split; [done|]. split; [done|]. split; [done|]. apply budgets_advance.
Qed.
Lemma install_evolves t o b t' :
  slice_boundary t = Some o -> install t b = Ok t' -> exists o', evolves t t' o o'.
Proof. intros E. unfold install. intros (u&_&I)%bind_Ok. by eapply install_checked_evolves. Qed.
Lemma stage_start_evolves t o b t' :
  slice_boundary t = Some o -> stage_start t b = Ok t' -> exists o', evolves t t' o o'.
Proof.
  intros E. unfold stage_start. rewrite E. intros (o0&[= <-]&(u1&_&(u2&_&I)%bind_Ok)%bind_Ok)%bind_Ok.
  injection I as <-. eexists. split; [done|]. split; [done|]. split; [done|]. apply budgets_advance.
Qed.
Lemma no_rcb_maximum_evolves t o t' :
  slice_boundary t = Some o -> no_rcb_maximum t = Ok t' -> exists o', evolves t t' o o'.
Proof.
  intros E. unfold no_rcb_maximum. rewrite E. intros (o'&P&[= <-])%bind_Ok. exists o'.
  split; [done|]. split; [done|]. split; [done|]. by eapply publish_advances.
Qed.
Lemma evolves_trans t1 t2 t3 o1 o2 o3 : evolves t1 t2 o1 o2 -> evolves t2 t3 o2 o3 -> evolves t1 t3 o1 o3.
Proof.
  intros (A&B&C&D) (E&F&G&I). split; [congruence|]. split; [congruence|]. split; [done|]. by transitivity o2.
Qed.

Section GuestSteps.
Context `{SliceReset}.

Lemma reset_start_evolves t o r t' :
  slice_boundary t = Some o -> reset_start t = Ok (r, t') -> exists o', evolves t t' o o'.
Proof.
  intros E. unfold reset_start. rewrite E. intros (w&_&([p t1]&N&(u&_&R)%bind_Ok)%bind_Ok)%bind_Ok.
  destruct (next_timeslice t) as [x|] eqn:Nt; [|done]. injection N as ->.
  destruct (next_timeslice_frame _ _ _ Nt) as [A B C]. cbn in R. rewrite C, E in R. injection R as <- <-.
  eexists. split; [done|]. split; [done|]. split; [done|]. apply budgets_advance.
Qed.
Lemma finish_start_evolves t o r t' :
  slice_boundary t = Some o -> finish_start t r = Ok t' -> exists o', evolves t t' o o'.
Proof.
  intros E. unfold finish_start. rewrite E. intros (u&_&F)%bind_Ok. cbn [mbind option_bind] in F.
  destruct (pending_start_budget o) as [[b before]|]; [|injection F as <-; by exists o].
  apply bind_Ok in F as (v&_&F). apply bind_Ok in F as (t1&I&F). apply bind_Ok in F as (o1&X&[= <-]).
  destruct (install_checked_evolves _ _ _ _ E I) as (o2&Ev). destruct Ev as (A&B&C&D).
  rewrite C in X. injection X as <-. eexists. eapply evolves_trans; [by split; [exact A|]; split; [exact B|]; split|].
  split; [done|]. split; [done|]. split; [done|]. apply budgets_advance.
Qed.

Lemma guest_step_ok d g o c g' :
  guest_ok d g o -> guest_step g c = Ok g' -> exists o', guest_ok d g' o' /\ advances o o'.
Proof.
  intros G S. pose proof (g_observations _ _ _ G) as E. pose proof (g_tokens _ _ _ G) as K.
  assert (move : forall t' o' ks, evolves (thread g) t' o o' -> tokens_ok ks ->
            exists o', guest_ok d {| thread := t'; tokens := ks |} o' /\ advances o o').
  { intros t' o' ks Ev Ks. exists o'. by eapply guest_evolves. }
  destruct c as [clock time hold|cb|i|i|i signal dl| |b| |b]; cbn in S.
  - injection S as <-. by apply (move _ o).
  - apply bind_Ok in S as ([k t']&B&[= <-]). destruct (begin_evolves _ _ _ _ _ _ G B) as (x&o'&->&Ev&Kx).
    eapply move; [done|]. apply tokens_snoc; [done|]. by intros ? [= <-].
  - apply bind_Ok in S as ([k t']&B&[= <-]). destruct (pre_evolves _ _ _ _ _ _ G B) as (x&o'&->&Ev&Kx).
    eapply move; [done|]. apply tokens_insert; [done|]. by intros ? [= <-].
  - apply bind_Ok in S as (t'&B&[= <-]). destruct (post_evolves _ _ _ _ _ G B) as (o'&Ev). by eapply move.
  - apply bind_Ok in S as (k&B&[= <-]). apply (move _ o); [done|]. apply tokens_insert; [done|].
    eapply delivered_ok; [done|done|lia].
  - apply bind_Ok in S as (t'&B&[= <-]). destruct (no_rcb_maximum_evolves _ _ _ E B) as (o'&Ev). by eapply move.
  - apply bind_Ok in S as (t'&B&[= <-]). destruct (stage_start_evolves _ _ _ _ E B) as (o'&Ev). by eapply move.
  - apply bind_Ok in S as ([r t1]&B&S). apply bind_Ok in S as (t'&F&[= <-]).
    destruct (reset_start_evolves _ _ _ _ E B) as (o1&Ev1).
    destruct (finish_start_evolves _ o1 _ _ (proj1 (proj2 (proj2 Ev1))) F) as (o2&Ev2).
    eapply move; [by eapply evolves_trans|done].
  - apply bind_Ok in S as (t'&B&[= <-]). destruct (install_evolves _ _ _ _ E B) as (o'&Ev). by eapply move.
Qed.
End GuestSteps.

(** * The invariant of guests, registry and recording *)

(** ** Owners the registry has boundaries of *)

Definition keys_ok (r : Registry.Registry) : Prop :=
  forall o id, Registry.boundaries r !! o = Some id ->
    issued r (tid o) (thread_generation o)
    /\ forall l, Registry.live r !! tid o = Some l -> thread_generation l = thread_generation o -> moved_on o l.
Definition owner_positive (o : Owner) : Prop := 0 < tid o /\ 0 < birth_tid o /\ 0 < address_space_creator o.

Lemma keys_seat r r' t o :
  keys_ok r ->
  Registry.last r' = <[t := thread_generation o]> (Registry.last r) ->
  Registry.boundaries r' = Registry.boundaries r ->
  (forall g0, Registry.last r !! t = Some g0 -> g0 <= thread_generation o) ->
  Registry.live r' !! t = Some o ->
  (forall t' o', t' <> t -> Registry.live r' !! t' = Some o' -> Registry.live r !! t' = Some o') ->
  (forall b id, Registry.boundaries r !! b = Some id -> tid b = t ->
     thread_generation o = thread_generation b -> moved_on b o) ->
  keys_ok r'.
Proof.
  intros K EL EB Hg Lt Lo Hk b id L. rewrite EB in L. destruct (K _ _ L) as [I M]. split.
  { eapply issued_insert; eauto. }
  intros l Ll E. destruct (decide (tid b = t)) as [T|N].
  - rewrite T, Lt in Ll. injection Ll as <-. by eapply Hk.
  - exact (M l (Lo _ _ N Ll) E).
Qed.

Lemma fresh_keys r t mm o r' :
  keys_ok r -> Registry.fresh r t mm = Ok (o, r') ->
  keys_ok r' /\ Registry.boundaries r' !! o = None.
Proof.
  intros K (N&P&G&Eo&->)%fresh_Ok.
  assert (T : tid o = t) by by rewrite Eo.
  assert (new : forall b id, Registry.boundaries r !! b = Some id -> tid b = t ->
                  thread_generation b < thread_generation o).
  { intros b id L Tb. destruct (K _ _ L) as [I _]. rewrite Tb in I. by eapply issued_fresh. }
  split.
  - eapply keys_seat; [done|done|done|intros g0 Lg; specialize (G g0 Lg); lia|apply lookup_insert_eq| |].
    + intros t' o' Nt L. cbn in L. by rewrite lookup_insert_ne in L.
    + intros b id L Tb E. specialize (new _ _ L Tb). lia.
  - cbn. destruct (Registry.boundaries r !! o) as [id|] eqn:L; [|done]. specialize (new _ _ L T). lia.
Qed.
Lemma exec_keys r caller leader old_mm new_mm o r' :
  registry_ok r -> keys_ok r -> Registry.exec r caller leader old_mm new_mm = Ok (o, r') ->
  keys_ok r' /\ Registry.boundaries r' !! o = None.
Proof.
  intros OK K (v&V&A&_&C&Eo&->)%exec_Ok.
  assert (T : tid o = leader) by by rewrite Eo.
  assert (past : forall b id, Registry.boundaries r !! b = Some id -> tid b = leader ->
            thread_generation o = thread_generation b -> address_space_generation b < address_space_generation o).
  { intros b id L Tb E. destruct (K _ _ L) as [I M]. rewrite Tb in I, M. destruct C as [[<- Ev]|(_&_&F)].
    - destruct (M v V) as [->|M']; [congruence|lia|lia].
    - specialize (issued_fresh _ _ _ _ F I). lia. }
  split.
  - eapply keys_seat; [done|done|done| |apply lookup_insert_eq| |].
    + intros g0 L. destruct C as [[<- Ev]|(_&_&F)]; [|specialize (F _ L); lia].
      destruct (live_slot _ OK _ _ V) as [_ L']. rewrite L in L'. injection L' as ->. lia.
    + intros t' o' Nt L. cbn in L. rewrite lookup_insert_ne in L by done.
      by apply lookup_delete_Some in L as [_ L].
    + intros b id L Tb E. right. by eapply past.
  - cbn. destruct (Registry.boundaries r !! o) as [id|] eqn:L; [|done].
    specialize (past _ _ L T eq_refl). lia.
Qed.
Lemma retire_keys_ok r t mm : keys_ok r -> keys_ok (Registry.retire r t mm).
Proof.
  intros K. unfold Registry.retire. destruct (Registry.get_owner r t mm); [|done..].
  intros o id L. destruct (K _ _ L) as [I M]. split; [done|]. intros l Ll. cbn in Ll.
  apply M. by apply lookup_delete_Some in Ll as [_ Ll].
Qed.
Lemma commit_keys r t b :
  registry_ok r -> keys_ok r -> Registry.live r !! t = Some (owner (identity b)) ->
  keys_ok (Registry.commit_boundary r b).
Proof.
  intros OK K L o id Lo. cbn in Lo. destruct (live_slot _ OK _ _ L) as [T G].
  destruct (decide (o = owner (identity b))) as [->|N].
  - rewrite T. split; [eexists; split; [exact G|done]|]. intros l Ll _. cbn in Ll. rewrite L in Ll.
    injection Ll as <-. by left.
  - rewrite lookup_insert_ne in Lo by done. by destruct (K _ _ Lo).
Qed.

(** ** A closed slice *)

Lemma shape_closed id i rip tm :
  owner_positive (owner id) -> 1 <= checkin id -> 1 <= slice id -> entry_ok (entry id) ->
  phase_ok (entry id) (phase id) ->
  (cause id = ExplicitSchedYield /\ is_sched_yield (entry id) = true
   \/ cause id = match entry id with
                 | EPmuTimer => CausePmuTimer | ENoRcbTimer => CauseNoRcbTimer | _ => SoftwareCheckin end) ->
  validate_shape {| identity := id; b_count := 1; b_start_rip := None; b_end_rip := rip; b_end_time := tm |} i = Ok tt.
Proof.
  intros (P1&P2&P3) C S E F W. unfold validate_shape. cbn [identity b_count].
  rewrite ensure_bind by done. rewrite ensure_bind.
  2:{ rewrite !(proj2 (Z.leb_gt _ _)) by done. rewrite !(proj2 (Z.eqb_neq _ _)) by lia. done. }
  match goal with |- (_ ← ?m; _) = _ => assert (m = Ok tt) as -> end.
  { destruct (entry id) as [n k| | | | | | |g k a|g k a d]; cbn in E; try done.
    - by destruct k.
    - destruct E as [? E], k; [lia| |lia]. by rewrite E.
    - destruct E as (?&?&E), k, d; try lia. by rewrite E. }
  cbn [mbind result_bind].
  rewrite ensure_bind by (destruct (entry id); try done; cbn in F; by apply bool_decide_eq_true_2).
  rewrite ensure_bind.
  2:{ apply negb_true_iff, andb_false_iff. destruct (decide (phase id = TimerMaximum)) as [Et|Nt].
      - right. apply bool_decide_eq_false_2. intros N. apply N. rewrite Et in F. by destruct (entry id).
      - left. by apply bool_decide_eq_false_2. }
  destruct W as [[-> ->]| ->]; [done|]. destruct (entry id); done.
Qed.

Lemma current_identity_Ok o t y id :
  current_identity o t y = Ok id ->
  exists c, current o = Some (entry id, phase id, committed_rcbs id)
  /\ (cause id = ExplicitSchedYield /\ is_sched_yield (entry id) = true
      \/ cause id = match entry id with
                    | EPmuTimer => CausePmuTimer | ENoRcbTimer => CauseNoRcbTimer | _ => SoftwareCheckin end)
  /\ c = completed_slices o + 1 /\ checked_u64 c = Some (slice id)
  /\ owner id = o_owner o /\ checkin id = o_checkin o.
Proof.
  unfold current_identity.
  intros (u1&_&(u2&_&([[e ph] rcbs]&C&(u3&_&(w&W&(sl&S&[= <-])%bind_Ok)%bind_Ok)%bind_Ok)%bind_Ok)%bind_Ok)%bind_Ok.
  apply ok_or_Ok in C, S. eexists. cbn. split; [done|]. split; [|done].
  destruct y; [|injection W as <-; by right].
  destruct (is_sched_yield e); [|done]. injection W as <-. by left.
Qed.

Section Close.
Context `{SliceReset}.

(** What the registry holds of a guest and its observations. *)
Record attached (r : Registry.Registry) (t : DetTid) (o : Observations) : Prop := {
  att_live : Registry.live r !! t = Some (o_owner o);
  att_image : Registry.of_image (o_owner o) (o_mm o) = true;
  att_positive : owner_positive (o_owner o);
  att_tracks : tracks (Registry.boundaries r !! o_owner o) o;
}.

Lemma end_slice_Ok t o y b p t' :
  slice_boundary t = Some o -> end_slice t y = Ok (b, p, t') ->
  exists id, current_identity o (put_boundary None t) y = Ok id
  /\ b = Some {| identity := id; b_count := 1; b_start_rip := None; b_end_rip := None;
                 b_end_time := Some (logical_nanos t) |}
  /\ t_dettid t' = t_dettid t /\ mm_id t' = mm_id t
  /\ slice_boundary t' = Some (set_completed (slice id) o).
Proof.
  intros E. unfold end_slice. rewrite E. intros ([[cl o'] t1]&C&[= <- <- <-])%bind_Ok.
  unfold close_slice in C. apply bind_Ok in C as (id&I&(u&_&([q t2]&N&C)%bind_Ok)%bind_Ok).
  destruct (next_timeslice (put_boundary None t)) as [x|] eqn:Nt; [|done]. injection N as ->.
  destruct (next_timeslice_frame _ _ _ Nt) as [A B D]. injection C as <- <- <-. by exists id.
Qed.

Lemma closed_follows r o id :
  tracks (Registry.boundaries r !! o_owner o) o -> current o = Some (entry id, phase id, committed_rcbs id) ->
  checked_u64 (completed_slices o + 1) = Some (slice id) -> checkin id = o_checkin o ->
  match Registry.boundaries r !! o_owner o with
  | None => slice id = 1
  | Some prior => Registry.follows prior id = true
  end.
Proof.
  intros T C S K. destruct (Registry.boundaries r !! o_owner o) as [prior|]; cbn in T.
  - destruct T as (Sp&Kp&e&ph&rcbs&C'&R&Same). rewrite C in C'. injection C' as <- <- <-.
    unfold Registry.follows. rewrite Sp, S, K. rewrite bool_decide_eq_true_2 by done.
    rewrite !(proj2 (Z.ltb_ge _ _)) by lia. cbn. apply negb_true_iff.
    destruct (o_checkin o =? checkin prior) eqn:Eq; [|done]. apply Z.eqb_eq in Eq.
    destruct (Same (eq_sym Eq)) as (->&->&->). rewrite !bool_decide_eq_false_2 by (by intros []).
    by rewrite Z.eqb_refl.
  - rewrite T in S. by apply checked_u64_Some in S as [-> _].
Qed.

(** The boundary a guest closes is the one its registry waits for. *)
Lemma end_slice_accepted r d g o y b p t' :
  guest_ok d g o -> attached r d o -> end_slice (thread g) y = Ok (b, p, t') ->
  exists bd, b = Some bd /\ Registry.validate_boundary r d (mm_id (thread g)) bd = Ok tt
  /\ exists o', guest_ok d {| thread := t'; tokens := tokens g |} o'
     /\ attached (Registry.commit_boundary r bd) d o'.
Proof.
  intros G A E. destruct (end_slice_Ok _ _ _ _ _ _ (g_observations _ _ _ G) E) as (id&I&->&D&M&SB).
  apply current_identity_Ok in I as (c&C&W&->&S&O&K). destruct (current_ok _ (g_counts _ _ _ G) _ _ _ C) as (K1&E1&P1).
  destruct (counts_ok _ (g_counts _ _ _ G)) as (_&Cs&_&_). pose proof (proj1 (checked_u64_Some _ _) S) as [Sl _].
  eexists. split; [done|]. split.
  - unfold Registry.validate_boundary. rewrite shape_closed; [|rewrite O; apply A|lia|lia|done|done|done].
    cbn [map_err mbind result_bind identity].
    rewrite (proj2 (get_owner_Ok _ _ _ (o_owner o))).
    2:{ split; [apply A|]. rewrite <- (g_mm _ _ _ G). apply A. }
    cbn [mbind result_bind]. rewrite O, ensure_bind by (by apply bool_decide_eq_true_2).
    pose proof (closed_follows r o id (att_tracks _ _ _ A) C S K) as Fo.
    destruct (Registry.boundaries r !! o_owner o); by rewrite Fo.
  - exists (set_completed (slice id) o). destruct G as [G1 G2 G3 G4 G5], A as [A1 A2 A3 A4]. split.
    + split; cbn; [done|congruence|congruence| |done]. destruct G4 as [B1 B2]. split; cbn; [lia|exact B2].
    + split; cbn; [done|done|done|]. rewrite O, lookup_insert_eq. cbn. split; [done|]. split; [lia|].
      eexists _, _, _. split; [exact C|]. split; [lia|done].
Qed.
End Close.
