(* ===== verification/BoundaryProps.v ===== *)
(** * What slice boundaries guarantee

    The boundaries guests close are accepted and make a stream that reads back;
    the strict cursor accepts exactly that stream; a budget reaches the image it
    was queued for once. *)
From Stdlib Require Import ZArith Lia List String.
From stdpp Require Import base gmap list.
From S2P Require Import Prelude RunQueue Time Schedule Text Replayer Boundary BoundaryReplay BoundaryStream BoundaryGuest BoundarySystem.
Import Schedule Boundary.
Open Scope Z_scope.

(** ** The strict cursor *)

(** A stored piece of evidence against the observed one. *)
Definition evidence {A} (stored observed : option A) : Prop := forall x, stored = Some x -> observed = Some x.
Definition record_matches (stored observed : Record_) : Prop :=
  match stored, observed with
  | Event e, Event o =>
      dettid o = dettid e /\ op o = op e /\ count o = count e /\ stopless o = stopless e
      /\ evidence (start_rip e) (start_rip o) /\ evidence (end_rip e) (end_rip o)
      /\ evidence (end_time e) (end_time o)
  | TimesliceEnd e, TimesliceEnd o =>
      identity o = identity e /\ b_count o = b_count e
      /\ evidence (b_start_rip e) (b_start_rip o) /\ evidence (b_end_rip e) (b_end_rip o)
      /\ evidence (b_end_time e) (b_end_time o)
  | _, _ => False
  end.
Lemma only_if_evidence {A} (e o : option A) : e = only_if e o <-> evidence e o.
Proof.
  unfold evidence. destruct e as [x|]; cbn; [|by split].
  split; [intros <- y [= <-]; done|]. intros E. by rewrite (E x).
Qed.
Lemma comparable_matches e o : e = comparable e o <-> record_matches e o.
Proof.
  destruct e as [e|e], o as [o|o]; cbn; [|by split|by split|].
  - rewrite <- !only_if_evidence. destruct e, o; cbn. split.
    + intros E. injection E as E1 E2 E3 E4 E5 E6 E7. repeat split; congruence.
    + intros (->&->&->&->&<-&<-&<-). done.
  - rewrite <- !only_if_evidence. destruct e, o; cbn. split.
    + intros E. injection E as E1 E2 E3 E4 E5. repeat split; congruence.
    + intros (->&->&<-&<-&<-). done.
Qed.
Lemma check_observation_cases e i o :
  (record_matches e o /\ check_observation e i o = Ok tt)
  \/ (~ record_matches e o /\ check_observation e i o = Err (Mismatch i e o)).
Proof.
  unfold check_observation. destruct (decide (e = comparable e o)) as [E|N].
  - left. rewrite bool_decide_eq_false_2 by tauto. by rewrite <- comparable_matches.
  - right. rewrite bool_decide_eq_true_2 by done. by rewrite <- comparable_matches.
Qed.
Lemma record_matches_refl r : record_matches r r.
Proof. by destruct r; repeat split; intros ? E. Qed.

(** The records of a run in order, to the first refusal. *)
Fixpoint observe_all (r : BoundaryReplayer.BoundaryReplayer) (obs : list Record_)
    : result Error () * BoundaryReplayer.BoundaryReplayer :=
  match obs with
  | [] => (Ok tt, r)
  | o :: obs' =>
      match BoundaryReplayer.observe r o with
      | (Ok _, r') => observe_all r' obs'
      | (Err e, r') => (Err e, r')
      | (Crash p, r') => (Crash p, r')
      end
  end.
Definition at_ (s : Boundary.Schedule) (k : nat) : BoundaryReplayer.BoundaryReplayer :=
  {| BoundaryReplayer.br_schedule := s; BoundaryReplayer.br_next := k |}.

Lemma observe_at s k o :
  match records s !! k with
  | None => BoundaryReplayer.observe (at_ s k) o = (Err (Exhausted k o), at_ s k)
  | Some e =>
      record_matches e o /\ (exists a, BoundaryReplayer.observe (at_ s k) o = (Ok a, at_ s (S k)))
      \/ ~ record_matches e o /\ BoundaryReplayer.observe (at_ s k) o = (Err (Mismatch k e o), at_ s k)
  end.
Proof.
  unfold BoundaryReplayer.observe. cbn. destruct (records s !! k) as [e|]; [|done].
  destruct (check_observation_cases e k o) as [[M ->]|[M ->]]; [left|by right]. split; [done|].
  destruct (BoundaryReplayer.next_thread _) as [n|]; [|by eexists]. destruct (n =? _); by eexists.
Qed.

(** How the observation of [obs] from the record [k] ends, at [n]. *)
Definition ends_at (s : Boundary.Schedule) (k : nat) (obs : list Record_) (n : nat) (a : result Error ()) : Prop :=
  Forall2 record_matches (take n (drop k (records s))) (take n obs)
  /\ match a with
     | Ok _ => n = length obs
     | Err e => exists o, obs !! n = Some o
         /\ match records s !! (k + n)%nat with
            | Some x => ~ record_matches x o /\ e = Mismatch (k + n) x o
            | None => e = Exhausted (k + n) o
            end
     | Crash _ => False
     end.
Lemma observe_all_ends s k obs : exists n a,
  observe_all (at_ s k) obs = (a, at_ s (k + n)) /\ ends_at s k obs n a.
Proof.
  revert k. induction obs as [|o obs IH]; intros k; cbn.
  { exists 0%nat, (Ok tt). rewrite Nat.add_0_r. split; [done|]. by split; [constructor|]. }
  pose proof (observe_at s k o) as O. destruct (records s !! k) as [e|] eqn:L.
  - destruct O as [[M [a ->]]|[M ->]].
    + destruct (IH (S k)) as (n&b&->&F&B). exists (S n), b. rewrite Nat.add_succ_r. split; [done|].
      split; [rewrite (drop_S _ e) by done; by constructor|].
      destruct b as [[]|e'|]; [cbn; by f_equal| |done]. by rewrite <- Nat.add_succ_comm.
    + exists 0%nat, (Err (Mismatch k e o)). rewrite Nat.add_0_r. split; [done|]. split; [constructor|].
      exists o. rewrite Nat.add_0_r, L. done.
  - rewrite O. exists 0%nat, (Err (Exhausted k o)). rewrite Nat.add_0_r. split; [done|]. split; [constructor|].
    exists o. rewrite Nat.add_0_r, L. done.
Qed.

Lemma finish_at s n : BoundaryReplayer.finish (at_ s n) = Done (Ok tt) <-> (length (records s) <= n)%nat.
Proof.
  unfold BoundaryReplayer.finish, BoundaryReplayer.has_records_left, at_, BoundaryReplayer.br_next,
    BoundaryReplayer.br_schedule, usize_sub.
  destruct (n <? length (records s))%nat eqn:C; [apply Nat.ltb_lt in C|apply Nat.ltb_ge in C].
  - rewrite (proj2 (Nat.leb_le _ _)) by lia. split; [done|lia].
  - done.
Qed.

(** C25: the strict replay of a boundary recording ends in one of two ways.
    Either every observation matches the stored record at its place, and the
    replay is complete exactly when it has as many observations as the recording
    has records; or the first observation that does not match its record, or has
    none, is refused with an error that names its stored index, the record there
    and the observation, and the cursor stays at that index.  No replay skips,
    repeats or merges a record. *)
Theorem strict_boundary_replay (s : Boundary.Schedule) (obs : list Record_) :
  (exists n a, observe_all (BoundaryReplayer.new s) obs = (a, at_ s n) /\ ends_at s 0 obs n a)
  /\ ((observe_all (BoundaryReplayer.new s) obs).1 = Ok tt
      /\ BoundaryReplayer.finish (observe_all (BoundaryReplayer.new s) obs).2 = Done (Ok tt)
      <-> Forall2 record_matches (records s) obs).
Proof.
  pose proof (observe_all_ends s 0 obs) as (n&a&E&F). rewrite Nat.add_0_l in E.
  change (BoundaryReplayer.new s) with (at_ s 0). rewrite E. split; [by exists n, a|].
  destruct F as [F B]. cbn [fst snd]. rewrite finish_at. split.
  - intros [-> Fi]. cbn in B. subst n. rewrite (firstn_all obs) in F. by rewrite drop_0, take_ge in F.
  - intros M. pose proof (Forall2_length _ _ _ M) as Len. destruct a as [[]|e|p]; [|exfalso|done].
    + subst n. split; [done|lia].
    + destruct B as (o&Lo&B). rewrite Nat.add_0_l in B. destruct (records s !! n) as [x|] eqn:Lx.
      * destruct B as [B _]. apply B. by eapply Forall2_lookup_lr.
      * apply lookup_lt_Some in Lo. apply lookup_ge_None in Lx. lia.
Qed.

(** ** Recordings *)

Lemma observe_all_self s : (observe_all (BoundaryReplayer.new s) (records s)).1 = Ok tt
  /\ BoundaryReplayer.finish (observe_all (BoundaryReplayer.new s) (records s)).2 = Done (Ok tt).
Proof.
  pose proof (observe_all_ends s 0 (records s)) as (n&a&E&F&B). rewrite Nat.add_0_l in E.
  change (BoundaryReplayer.new s) with (at_ s 0). rewrite E. cbn [fst snd]. rewrite finish_at.
  destruct a as [[]|e|p]; [|exfalso|done].
  - subst n. done.
  - destruct B as (o&Lo&B). cbn in B. rewrite Lo in B. destruct B as [B _]. apply B, record_matches_refl.
Qed.
Lemma stream_reads_back st :
  stream_ok st -> borrow_records st.2 = Ok (borrowed st.2)
  /\ try_from (borrowed st.2) = Ok {| records := st.2 |}.
Proof.
  intros (s&V&_). assert (E : validate_records st.2 = Ok tt) by (unfold validate_records; by rewrite V).
  split; [unfold borrow_records; by rewrite E|]. unfold try_from, new_schedule.
  cbn [borrowed protocol version record_count boundary_count_ w_records].
  rewrite !Nat.eqb_refl, bool_decide_eq_true_2 by done. cbn. by rewrite E.
Qed.

(** C15: whatever a recording accepts, a replay can read.  For any run of thread
    registrations, execs, retirements, boundaries the registry accepts and
    well-formed events, the recorded stream passes the writer's validation, its
    wire form is read back to the same records, and replaying those records
    through the strict cursor is accepted to the end. *)
Theorem recorded_stream_reads_back (cs : list life_call) (r : Registry.Registry) (rs : list Record_)
  (Hrun : life_run (Registry.empty, []) cs = Ok (r, rs)) :
  exists w s, borrow_records rs = Ok w /\ try_from w = Ok s /\ records s = rs
    /\ (observe_all (BoundaryReplayer.new s) rs).1 = Ok tt
    /\ BoundaryReplayer.finish (observe_all (BoundaryReplayer.new s) rs).2 = Done (Ok tt).
Proof.
  destruct (stream_reads_back _ (life_run_ok _ _ _ stream_init Hrun)) as [B T]. cbn in B, T.
  eexists _, _. split; [exact B|]. split; [exact T|]. split; [done|].
  exact (observe_all_self {| records := rs |}).
Qed.

(** ** Guests against the registry *)

Record system_ok (s : System) : Prop := {
  sys_stream : stream_ok (registry s, stream s);
  sys_keys : keys_ok (registry s);
  sys_guests : forall t g, guests s !! t = Some g ->
    exists o, guest_ok t g o /\ attached (registry s) t o;
}.
Lemma sys_registry s : system_ok s -> registry_ok (registry s).
Proof. intros [(?&_&?&_) _ _]. done. Qed.

Lemma attached_frame r r' t o :
  Registry.live r' !! t = Registry.live r !! t ->
  Registry.boundaries r' !! o_owner o = Registry.boundaries r !! o_owner o ->
  attached r t o -> attached r' t o.
Proof. intros A B [C D E F]. split; congruence. Qed.
Lemma attached_advances r t o o' : attached r t o -> advances o o' -> attached r t o'.
Proof.
  intros [A B C D] [E F _ G]. split; [by rewrite E|by rewrite E, F|by rewrite E|]. rewrite E. by apply G.
Qed.

(** A thread that has just adopted an owner no boundary names. *)
Lemma adopted_ok r t o b t' ks :
  adopt_owner t o b = Ok t' -> option_map o_owner (slice_boundary t) <> Some o ->
  Registry.live r !! t_dettid t = Some o -> owner_positive o -> Registry.boundaries r !! o = None ->
  tokens_ok ks ->
  exists obs, guest_ok (t_dettid t) {| thread := t'; tokens := ks |} obs /\ attached r (t_dettid t) obs.
Proof.
  unfold adopt_owner, from_owner. intros (c&(u&E&[= <-])%bind_Ok&A)%bind_Ok N L P B K.
  apply ensure_Ok, andb_true_iff in E as [_ E].
  match type of A with context [Some ?c] => set (obs := c) in * end.
  assert (t' = set_boundary (Some obs) None t) as ->.
  { destruct (slice_boundary t) as [prior|].
    - rewrite bool_decide_eq_false_2 in A by (intros <-; by apply N).
      apply bind_Ok in A as (v&_&A). by injection A as <-.
    - apply bind_Ok in A as (v&_&A). by injection A as <-. }
  exists obs. subst obs. split; [by split|].
  split; cbn; [done|done|done|]. by rewrite B.
Qed.

Section Steps.
Context `{SliceReset}.

Lemma start_step s t s' : system_ok s -> system_step s (SStart t) = Ok s' -> system_ok s'.
Proof.
  intros OK S. cbn in S. apply bind_Ok in S as (u&E&S). apply ensure_Ok, andb_true_iff in E as [E P].
  apply bool_decide_eq_true_1 in E. apply Z.ltb_lt in P.
  apply bind_Ok in S as ([o r']&F&S). apply bind_Ok in S as (t'&A&[= <-]).
  destruct OK as [(sn&V&R&SK) K G]. destruct (fresh_ok _ _ _ _ _ _ R SK F) as [R' SK'].
  destruct (fresh_keys _ _ _ _ _ K F) as [K' B]. apply fresh_Ok in F as (N&Pt&_&Eo&->). cbn in *.
  split; cbn; [by exists sn|done|]. intros t2 g2 L. destruct (decide (t2 = t_dettid t)) as [->|Nt].
  - rewrite lookup_insert_eq in L. injection L as <-.
    eapply adopted_ok; [exact A|by rewrite E|apply lookup_insert_eq| |done|by intros k Hk%elem_of_nil].
    rewrite Eo. by split; [|split].
  - rewrite lookup_insert_ne in L by done. destruct (G _ _ L) as (obs&G2&At). exists obs. split; [done|].
    refine (attached_frame _ _ _ _ _ _ At); [|done]. cbn. by rewrite lookup_insert_ne.
Qed.
Lemma system_exec_step s caller leader new_mm clock s' :
  system_ok s -> system_step s (SExec caller leader new_mm clock) = Ok s' -> system_ok s'.
Proof.
  intros OK S. cbn in S. apply bind_Ok in S as (g&Lg&S). apply ok_or_Ok in Lg.
  apply bind_Ok in S as ([o r']&F&S). apply bind_Ok in S as (t'&A&[= <-]).
  destruct OK as [(sn&V&R&SK) K G]. destruct (registry_exec_ok _ _ _ _ _ _ _ _ R SK F) as [R' SK'].
  destruct (exec_keys _ _ _ _ _ _ _ R K F) as [K' B]. apply exec_Ok in F as (v&Lv&Gen&Cr&C&Eo&->). cbn in *.
  destruct (G _ _ Lg) as (obs&Gg&At). pose proof (att_live _ _ _ At) as Lo. rewrite Lv in Lo. injection Lo as ->.
  split; cbn; [by exists sn|done|]. intros t2 g2 L. destruct (decide (t2 = leader)) as [->|Nt].
  - rewrite lookup_insert_eq in L. injection L as <-.
    eapply (adopted_ok _ (moved_thread (thread g) leader new_mm clock)); [exact A| |apply lookup_insert_eq| |done|apply Gg].
    + cbn. rewrite (g_observations _ _ _ Gg). cbn. intros [= Eq]. rewrite Eq in Gen. lia.
    + destruct (att_positive _ _ _ At) as (P1&P2&P3). destruct (live_slot _ R _ _ Lv) as [T _].
      assert (0 < leader). { destruct C as [[<- _]|(_&?&_)]; [by rewrite <- T|done]. }
      rewrite Eo. unfold owner_positive. cbn. rewrite Cr. done.
  - rewrite lookup_insert_ne in L by done. apply lookup_delete_Some in L as [Nc L].
    destruct (G _ _ L) as (obs2&G2&At2). exists obs2. split; [done|].
    refine (attached_frame _ _ _ _ _ _ At2); [|done]. cbn. rewrite lookup_insert_ne by done. by rewrite lookup_delete_ne.
Qed.
Lemma system_retire_step s t mm s' : system_ok s -> system_step s (SRetire t mm) = Ok s' -> system_ok s'.
Proof.
  intros [(sn&V&R&SK) K G] [= <-]. destruct (retire_ok _ _ t mm R SK) as [R' SK'].
  split; cbn; [by exists sn|by apply retire_keys_ok|]. unfold Registry.retire.
  intros t2 g2. destruct (Registry.get_owner (registry s) t mm); [|apply G..].
  intros [N L]%lookup_delete_Some. destruct (G _ _ L) as (obs&G2&At). exists obs. split; [done|].
  refine (attached_frame _ _ _ _ _ _ At); [|done]. cbn. by rewrite lookup_delete_ne.
Qed.
Lemma guest_call_step s t c s' : system_ok s -> system_step s (SGuest t c) = Ok s' -> system_ok s'.
Proof.
  intros [St K G] S. cbn in S. apply bind_Ok in S as (g&Lg&S). apply ok_or_Ok in Lg.
  apply bind_Ok in S as (g'&S&[= <-]). destruct (G _ _ Lg) as (obs&Gg&At).
  destruct (guest_step_ok _ _ _ _ _ Gg S) as (o'&Gg'&Adv).
  split; cbn; [done|done|]. intros t2 g2 L. destruct (decide (t2 = t)) as [->|N].
  - rewrite lookup_insert_eq in L. injection L as <-. exists o'. split; [done|]. by eapply attached_advances.
  - rewrite lookup_insert_ne in L by done. by apply G.
Qed.

(** The step of a slice end that the guest closes: the registry accepts. *)
Lemma end_step s t g y r :
  system_ok s -> guests s !! t = Some g -> end_slice (thread g) y = Ok r ->
  exists b s', r.1.1 = Some b /\ Registry.validate_boundary (registry s) t (mm_id (thread g)) b = Ok tt
    /\ system_step s (SEnd t y) = Ok s' /\ stream s' = stream s ++ [TimesliceEnd b] /\ system_ok s'.
Proof.
  intros OK Lg E. pose proof (sys_registry _ OK) as R. destruct OK as [St K G].
  destruct (G _ _ Lg) as (o&Gg&At). destruct r as [[b p] t'].
  destruct (end_slice_accepted _ _ _ _ _ _ _ _ Gg At E) as (bd&->&Vb&o'&Gg'&At').
  eexists bd, _. split; [done|]. split; [done|]. cbn. rewrite Lg. cbn. rewrite E. cbn. rewrite Vb. cbn.
  split; [done|]. split; [done|].
  destruct (validate_boundary_Ok _ _ _ _ Vb) as (_&Live&_&_).
  split; cbn.
  - eapply (life_step_ok (registry s, stream s) (LBoundary t (mm_id (thread g)) bd)); [exact St|].
    cbn. by rewrite Vb.
  - by eapply commit_keys.
  - intros t2 g2 L. destruct (decide (t2 = t)) as [->|N].
    + rewrite lookup_insert_eq in L. injection L as <-. by exists o'.
    + rewrite lookup_insert_ne in L by done. destruct (G _ _ L) as (o2&G2&At2). exists o2. split; [done|].
      refine (attached_frame _ _ _ _ _ _ At2); [done|]. cbn. apply lookup_insert_ne. intros Eo.
      destruct (live_slot _ R _ _ Live) as [T1 _].
      destruct (live_slot _ R _ _ (att_live _ _ _ At2)) as [T2 _]. congruence.
Qed.
Lemma event_step s e s' : system_ok s -> system_step s (SEvent e) = Ok s' -> system_ok s'.
Proof.
  intros [St K G] S. cbn in S. apply bind_Ok in S as ([r' rs']&S&[= <-]).
  pose proof (life_step_ok (registry s, stream s) (LEvent e) (r', rs') St S) as St'.
  apply bind_Ok in S as (u&_&[= <- <-]). by split.
Qed.
Lemma system_step_ok s c s' : system_ok s -> system_step s c = Ok s' -> system_ok s'.
Proof.
  intros OK S. destruct c as [t|caller leader mm clock|t mm|t c|t y|e].
  - by eapply start_step.
  - by eapply system_exec_step.
  - by eapply system_retire_step.
  - by eapply guest_call_step.
  - pose proof S as S'. cbn in S. apply bind_Ok in S as (g&Lg&S). apply ok_or_Ok in Lg.
    apply bind_Ok in S as (r&E&_). destruct (end_step _ _ _ _ _ OK Lg E) as (b&s2&_&_&S2&_&OK2).
    rewrite S2 in S'. by injection S' as <-.
  - by eapply event_step.
Qed.
Lemma no_guests_ok : system_ok no_guests.
Proof. split; [apply stream_init| |]; intros ? ? L; cbn in L; by rewrite lookup_empty in L. Qed.
Lemma system_run_ok cs s s' : system_ok s -> system_run s cs = Ok s' -> system_ok s'.
Proof.
  revert s. induction cs as [|c cs IH]; intros s OK R; cbn in R; [by injection R as <-|].
  apply bind_Ok in R as (s1&S&R). eapply IH; [|exact R]. by eapply system_step_ok.
Qed.
End Steps.

(** C6: the guests and the scheduler agree on every slice end.  In any run in
    which threads start, exec, exit, run and nest their callbacks, deliver
    signals, install budgets and end slices, a slice end that a guest closes
    names a boundary the registry accepts: its owner is the live one, its shape
    is valid, and it comes right after the guest's previous boundary.  The run
    goes on with that boundary recorded, and the recording still reads back. *)
Theorem guest_boundaries_accepted `{SliceReset} (cs : list system_call) (s : System) (t : DetTid) (g : Guest)
  (y : bool) r (Hrun : system_run no_guests cs = Ok s) (Hguest : guests s !! t = Some g)
  (Hend : end_slice (thread g) y = Ok r) :
  exists b s', r.1.1 = Some b /\ Registry.validate_boundary (registry s) t (mm_id (thread g)) b = Ok tt
    /\ system_step s (SEnd t y) = Ok s' /\ stream s' = stream s ++ [TimesliceEnd b]
    /\ try_from (borrowed (stream s')) = Ok {| records := stream s' |}.
Proof.
  destruct (end_step s t g y r (system_run_ok _ _ _ no_guests_ok Hrun) Hguest Hend)
    as (b&s'&E&V&S&St&OK).
  exists b, s'. do 4 (split; [done|]). apply (stream_reads_back _ (sys_stream _ OK)).
Qed.

(** * From the lookahead to the reply of a grant

    The budget a grant carries names the next boundary of its owner, and the
    mailbox hands it out once, to the image it was queued for, after the grant
    was committed. *)

(** ** Lookahead *)

(** The record [i] is the next boundary, and only events of [t] come before it. *)
Definition next_boundary_at (rs : list Record_) (k : nat) (t : DetTid) (i : nat) (b : Boundary) : Prop :=
  (k <= i)%nat /\ rs !! i = Some (TimesliceEnd b) /\ tid (owner (identity b)) = t
  /\ forall j r, (k <= j < i)%nat -> rs !! j = Some r -> exists e, r = Event e /\ dettid e = t.

Lemma budget_in_spec s o k :
  exists found, BoundaryReplayer.budget_in s o k (drop k (records s)) = Done found
  /\ forall i id, found = Some {| stored_index := i; budget_expected := id |} <->
     exists b, next_boundary_at (records s) k (tid o) i b /\ identity b = id /\ owner id = o.
Proof.
  remember (length (records s) - k)%nat as n eqn:Hn. revert k Hn. induction n as [|n IH]; intros k Hn.
  { exists None. rewrite drop_ge by lia. split; [done|]. intros i id. split; [done|].
    intros (b&(Hk&L&_)&_). apply lookup_lt_Some in L. lia. }
  destruct (records s !! k) as [r|] eqn:L; [|apply lookup_ge_None in L; lia].
  rewrite (drop_S _ r) by done. cbn [BoundaryReplayer.budget_in].
  destruct (BoundaryReplayer.record_thread r =? tid o) eqn:T; cbn [negb].
  2:{ apply Z.eqb_neq in T. exists None. split; [done|]. intros i id. split; [done|].
      intros (b&(Hk&Li&Tb&Before)&_). destruct (decide (i = k)) as [->|N].
      - rewrite L in Li. injection Li as ->. cbn in T. congruence.
      - destruct (Before k r) as (e&->&Te); [lia|done|]. cbn in T. congruence. }
  apply Z.eqb_eq in T. destruct r as [e|b]; cbn in T.
  - destruct (IH (S k)) as (found&E&F); [lia|]. exists found. split; [done|]. intros i id. rewrite F.
    split; intros (b&(Hk&Li&Tb&Before)&Rest); exists b; (split; [|done]).
    + split; [lia|]. split; [done|]. split; [done|]. intros j r Hj Lj.
      destruct (decide (j = k)) as [->|N]; [|apply (Before j r); [lia|done]].
      rewrite L in Lj. injection Lj as <-. by exists e.
    + assert (i <> k) by (intros ->; rewrite L in Li; done).
      split; [lia|]. split; [done|]. split; [done|]. intros j r Hj. apply (Before j r). lia.
  - assert (only : forall i b', next_boundary_at (records s) k (tid o) i b' -> i = k /\ b' = b).
    { intros i b' (Hk&Li&_&Before). destruct (decide (i = k)) as [->|N].
      - rewrite L in Li. by injection Li as ->.
      - destruct (Before k (TimesliceEnd b)) as (e&[=]&_); [lia|done]. }
    destruct (decide (owner (identity b) = o)) as [Eo|No].
    + rewrite bool_decide_eq_true_2 by done. unfold budget_at. rewrite L. eexists. split; [done|].
      intros i id. split.
      * intros [= <- <-]. exists b. split; [|done]. split; [lia|]. split; [done|]. split; [done|]. intros j r Hj. lia.
      * intros (b'&[-> ->]%only&<-&_). done.
    + rewrite bool_decide_eq_false_2 by done. exists None. split; [done|]. intros i id. split; [done|].
      by intros (b'&[-> ->]%only&<-&?).
Qed.

(** the lookahead of a replay always answers, and it names a boundary
    exactly when that boundary is the next one in the stored stream, all records
    before it are events of the asking thread, and it belongs to the asking
    owner itself: never to a later image or another thread. *)
Theorem lookahead_names_next_boundary (r : BoundaryReplayer.BoundaryReplayer) (o : Owner) :
  exists found, BoundaryReplayer.budget_for r o = Done found
  /\ forall i id, found = Some {| stored_index := i; budget_expected := id |} <->
     exists b, next_boundary_at (records (BoundaryReplayer.br_schedule r)) (BoundaryReplayer.br_next r) (tid o) i b
       /\ identity b = id /\ owner id = o.
Proof. apply budget_in_spec. Qed.

(** ** The mailbox *)

Inductive mail_call :=
  | MQueue (mm : MmId) (b : Budget)
  | MCommit (t : DetTid)
  | MRetire (t : DetTid) (mm : MmId)
  | MFinish (t : DetTid) (mm : MmId) (granted terminal : bool).
(** Who received which budget, in order. *)
Abbreviation delivery := (DetTid * MmId * Budget)%type.
Definition mail_step (st : Mailbox.Mailbox * list delivery) (c : mail_call)
    : result AnyError (Mailbox.Mailbox * list delivery) :=
  let '(m, log) := st in
  match c with
  | MQueue mm b => m ← Mailbox.queue m mm b; Ok (m, log)
  | MCommit t => Ok (Mailbox.committed_grant m t, log)
  | MRetire t mm => Ok (Mailbox.retire m t mm, log)
  | MFinish t mm granted terminal =>
      r ← Mailbox.finish m t mm granted terminal;
      Ok (r.2, log ++ match r.1 with Some b => [(t, mm, b)] | None => [] end)
  end.
Fixpoint mail_run (st : Mailbox.Mailbox * list delivery) (cs : list mail_call)
    : result AnyError (Mailbox.Mailbox * list delivery) :=
  match cs with [] => Ok st | c :: cs' => st ← mail_step st c; mail_run st cs' end.

Definition for_image (t : DetTid) (mm : MmId) (b : Budget) : Prop :=
  tid (owner (budget_expected b)) = t /\ Registry.of_image (owner (budget_expected b)) mm = true.
Definition queues_for (t : DetTid) (c : mail_call) : bool :=
  match c with MQueue _ b => tid (owner (budget_expected b)) =? t | _ => false end.
Definition queue_count (t : DetTid) (cs : list mail_call) : nat := length (List.filter (queues_for t) cs).
Definition delivered_count (t : DetTid) (log : list delivery) : nat :=
  length (List.filter (fun d => d.1.1 =? t) log).

Record mail_ok (cs : list mail_call) (st : Mailbox.Mailbox * list delivery) : Prop := {
  ml_pending : forall t mm b c, Mailbox.pending st.1 !! t = Some (mm, b, c) ->
    for_image t mm b
    /\ exists before after, cs = before ++ MQueue mm b :: after /\ (c = true -> MCommit t ∈ after);
  ml_log : forall t mm b, (t, mm, b) ∈ st.2 ->
    for_image t mm b
    /\ exists before between after,
         cs = before ++ MQueue mm b :: between ++ MFinish t mm true false :: after /\ MCommit t ∈ between;
  ml_count : forall t, (delivered_count t st.2 + (if Mailbox.pending st.1 !! t then 1 else 0)
                        <= queue_count t cs)%nat;
}.

Lemma queue_count_snoc t cs c : queue_count t (cs ++ [c]) = (queue_count t cs + (if queues_for t c then 1 else 0))%nat.
Proof. unfold queue_count. rewrite List.filter_app, length_app. cbn. by destruct (queues_for t c). Qed.
Lemma delivered_count_snoc t log d :
  delivered_count t (log ++ [d]) = (delivered_count t log + (if (d.1.1 =? t)%Z then 1 else 0))%nat.
Proof. unfold delivered_count. rewrite List.filter_app, length_app. cbn. by destruct (d.1.1 =? t). Qed.

(** A call that only keeps or drops what is pending. *)
Lemma mail_ok_shrink cs c m m' log :
  mail_ok cs (m, log) -> (forall t x, Mailbox.pending m' !! t = Some x -> Mailbox.pending m !! t = Some x) ->
  mail_ok (cs ++ [c]) (m', log).
Proof.
  intros [A B C] S. split; cbn in *.
  - intros t mm b k L. destruct (A _ _ _ _ (S _ _ L)) as (F&x&y&->&K). split; [done|].
    exists x, (y ++ [c]). rewrite <- app_assoc. split; [done|]. intros E. apply elem_of_app. left. auto.
  - intros t mm b L. destruct (B _ _ _ L) as (F&x&y&z&->&K). split; [done|].
    exists x, y, (z ++ [c]). split; [|done]. by rewrite <- app_assoc, <- app_comm_cons, <- app_assoc.
  - intros t. specialize (C t). rewrite queue_count_snoc.
    destruct (Mailbox.pending m' !! t) as [x|] eqn:L; [rewrite (S _ _ L) in C|];
      destruct (queues_for t c), (Mailbox.pending m !! t); cbn in *; lia.
Qed.
Lemma mail_queue_ok cs m log mm b m' :
  mail_ok cs (m, log) -> Mailbox.queue m mm b = Ok m' -> mail_ok (cs ++ [MQueue mm b]) (m', log).
Proof.
  intros OK. unfold Mailbox.queue. intros (u&I&H)%bind_Ok. apply ensure_Ok in I.
  set (t := tid (owner (budget_expected b))) in *.
  destruct (Mailbox.pending m !! t) as [[[pmm pb] k]|] eqn:P.
  { destruct (_ && _) in H; [|done]. injection H as <-. by apply (mail_ok_shrink _ _ m). }
  injection H as <-. pose proof (mail_ok_shrink cs (MQueue mm b) m m log OK (fun _ _ L => L)) as [A B C].
  split; cbn [fst snd Mailbox.pending] in *; [|done|].
  - intros t' mm' b' c L. destruct (decide (t' = t)) as [->|N].
    + rewrite lookup_insert_eq in L. injection L as <- <- <-. split; [done|]. by exists cs, [].
    + rewrite lookup_insert_ne in L by done. by apply A.
  - intros t'. destruct OK as [_ _ C0]. specialize (C0 t'). cbn [fst snd] in C0. rewrite queue_count_snoc. cbn [queues_for Mailbox.pending].
    fold t. destruct (decide (t' = t)) as [->|N].
    + rewrite lookup_insert_eq, Z.eqb_refl. rewrite P in C0. lia.
    + rewrite lookup_insert_ne by done. lia.
Qed.
Lemma mail_commit_ok cs m log t :
  mail_ok cs (m, log) -> mail_ok (cs ++ [MCommit t]) (Mailbox.committed_grant m t, log).
Proof.
  intros OK. pose proof (mail_ok_shrink cs (MCommit t) m m log OK (fun _ _ L => L)) as OK'.
  unfold Mailbox.committed_grant. destruct (Mailbox.pending m !! t) as [[[mm b] k]|] eqn:P; [|done].
  destruct OK as [A0 _ _], OK' as [A B C]. split; cbn [fst snd Mailbox.pending] in *; [|done|].
  - intros t' mm' b' c L. destruct (decide (t' = t)) as [->|N].
    + rewrite lookup_insert_eq in L. injection L as <- <- <-. destruct (A0 _ _ _ _ P) as (F&x&y&->&_). split; [done|].
      exists x, (y ++ [MCommit t]). rewrite <- app_assoc. split; [done|]. intros _. apply elem_of_app. right.
      by apply list_elem_of_singleton.
    + rewrite lookup_insert_ne in L by done. by apply A.
  - intros t'. specialize (C t'). destruct (decide (t' = t)) as [->|N].
    + rewrite lookup_insert_eq. by rewrite P in C.
    + by rewrite lookup_insert_ne.
Qed.
Lemma mail_retire_shrinks m t mm t' x :
  Mailbox.pending (Mailbox.retire m t mm) !! t' = Some x -> Mailbox.pending m !! t' = Some x.
Proof.
  unfold Mailbox.retire. destruct (Mailbox.pending m !! t) as [[[pmm b] k]|]; [|done].
  destruct (bool_decide _); [|done]. cbn. intros L. by apply lookup_delete_Some in L as [_ L].
Qed.
Lemma mail_finish_ok cs m log t mm granted terminal r :
  mail_ok cs (m, log) -> Mailbox.finish m t mm granted terminal = Ok r ->
  mail_ok (cs ++ [MFinish t mm granted terminal])
    (r.2, log ++ match r.1 with Some b => [(t, mm, b)] | None => [] end).
Proof.
  intros OK. unfold Mailbox.finish. destruct terminal.
  { intros [= <-]. cbn. rewrite app_nil_r. eapply mail_ok_shrink; [done|]. apply mail_retire_shrinks. }
  destruct (Mailbox.pending m !! t) as [[[pmm b] k]|] eqn:P.
  2:{ intros [= <-]. cbn. rewrite app_nil_r. by apply (mail_ok_shrink _ _ m). }
  destruct granted, k; cbn [negb orb]; try (intros [= <-]; cbn; rewrite app_nil_r; by apply (mail_ok_shrink _ _ m)).
  intros (u&E&[= <-])%bind_Ok. apply ensure_Ok, bool_decide_eq_true_1 in E. subst pmm. cbn [fst snd].
  pose proof OK as [A0 _ C0]. destruct (A0 _ _ _ _ P) as (F&x&y&Ecs&K).
  assert (OK' : mail_ok (cs ++ [MFinish t mm true false]) ({| Mailbox.pending := delete t (Mailbox.pending m) |}, log)).
  { eapply mail_ok_shrink; [done|]. intros t' z L. cbn in L. by apply lookup_delete_Some in L as [_ L]. }
  destruct OK' as [A B C]. split; cbn [fst snd Mailbox.pending] in *; [done| |].
  - intros t' mm' b' [L|L]%elem_of_app; [by apply B|]. apply list_elem_of_singleton in L. injection L as -> -> ->.
    split; [done|]. exists x, y, []. split; [|by apply K]. by rewrite Ecs, <- app_assoc, <- app_comm_cons.
  - intros t'. specialize (C0 t'). rewrite delivered_count_snoc, queue_count_snoc. cbn [queues_for Mailbox.pending fst snd].
    destruct (decide (t' = t)) as [->|N].
    + rewrite lookup_delete_eq, Z.eqb_refl. rewrite P in C0. lia.
    + rewrite lookup_delete_ne, (proj2 (Z.eqb_neq t t')) by done. lia.
Qed.
Lemma mail_step_ok cs st c st' : mail_ok cs st -> mail_step st c = Ok st' -> mail_ok (cs ++ [c]) st'.
Proof.
  destruct st as [m log]. intros OK S. destruct c; cbn in S.
  - apply bind_Ok in S as (m'&Q&[= <-]). by apply mail_queue_ok with m.
  - injection S as <-. by apply mail_commit_ok.
  - injection S as <-. eapply mail_ok_shrink; [done|]. apply mail_retire_shrinks.
  - apply bind_Ok in S as (r&F&[= <-]). by eapply mail_finish_ok.
Qed.
Lemma mail_run_ok cs0 cs st st' : mail_ok cs0 st -> mail_run st cs = Ok st' -> mail_ok (cs0 ++ cs) st'.
Proof.
  revert cs0 st. induction cs as [|c cs IH]; intros cs0 st OK R; cbn in R.
  { injection R as <-. by rewrite app_nil_r. }
  apply bind_Ok in R as (st1&S&R). rewrite cons_middle, app_assoc. eapply IH; [|done]. by eapply mail_step_ok.
Qed.

(** a budget reaches only the image it was queued for, and once.  In any run
    of the mailbox, every budget a reply carried names a boundary of the thread
    and address space that got the reply, was queued before for that image, had
    its grant committed in between, and the replies to a thread carry no more
    budgets than were queued for it. *)
Theorem budgets_reach_their_image (cs : list mail_call) (m : Mailbox.Mailbox) (log : list delivery)
  (Hrun : mail_run (Mailbox.empty, []) cs = Ok (m, log)) :
  (forall t mm b, (t, mm, b) ∈ log ->
     for_image t mm b
     /\ exists before between after,
          cs = before ++ MQueue mm b :: between ++ MFinish t mm true false :: after /\ MCommit t ∈ between)
  /\ forall t, (delivered_count t log <= queue_count t cs)%nat.
Proof.
  assert (mail_ok [] (Mailbox.empty, [])) as I.
  { split; cbn; [intros *; by rewrite lookup_empty|by intros ? ? ? ?%elem_of_nil|]. intros t. by rewrite lookup_empty. }
  destruct (mail_run_ok _ _ _ _ I Hrun) as [_ B C]. split; [exact B|]. intros t. specialize (C t). cbn [fst snd] in C. cbn [app] in C. lia.
Qed.
