(* ===== verification/BoundaryController.v ===== *)
(** * The scheduler's side of slice boundaries
      (src/detcore/src/scheduler/boundary_controller.rs)

    A boundary from a guest is checked against the registry, matched against the
    stored stream in a replay, appended to the recording, and committed; a
    matched record that the schedule continues on another thread hands the
    foreground over through the run queue's priorities.  [Controller] has the
    scheduler's fields this code reads or writes, on the run queue of [RunQueue].
    A call answers its result with the state after it, so that a refusal's
    effects show; log output is left out. *)
From Stdlib Require Import ZArith Lia List String.
From stdpp Require Import base gmap list.
From S2P Require Import Prelude BTree Time Schedule Text RunQueue Replayer Boundary BoundaryReplay.
Import Schedule Boundary.
Open Scope Z_scope.

Abbreviation PathBuf := text.
Abbreviation MaybePrintStack := (option (option PathBuf)).

Record Controller (G : Type) := {
  boundary_owners : option Registry.Registry;
  (** [PreemptionWriter::boundary_records] of the writer, if there is one. *)
  preemption_writer : option (option (list Record_));
  recorded_event_count : Z;
  stacktrace_events : option (list (Z * option SchedEvent * option PathBuf));
  replayer : option Replayer.Replayer;
  boundary_replayer : option BoundaryReplayer.BoundaryReplayer;
  boundary_stacktrace_events : gmap nat (option PathBuf);
  boundary_budgets : Mailbox.Mailbox;
  thread_mms : gmap DetTid MmId;
  run_queue : RunQueue G;
  priorities : list (DetTid * Priority);
  timeslices : gmap DetTid (option LogicalTime);
  replay_prehook_callers : gset DetTid;
  replay_priorities_released : bool;
  replay_exhausted_allowance : Z;
  replay_exhausted_at : option Z;
  record_logical_replay_priorities : bool;
}.
Arguments boundary_owners {G}. Arguments preemption_writer {G}. Arguments recorded_event_count {G}.
Arguments stacktrace_events {G}. Arguments replayer {G}. Arguments boundary_replayer {G}.
Arguments boundary_stacktrace_events {G}. Arguments boundary_budgets {G}. Arguments thread_mms {G}.
Arguments run_queue {G}. Arguments priorities {G}. Arguments timeslices {G}.
Arguments replay_prehook_callers {G}. Arguments replay_priorities_released {G}.
Arguments replay_exhausted_allowance {G}. Arguments replay_exhausted_at {G}.
Arguments record_logical_replay_priorities {G}.

Section Setters.
Context {G : Type}.
Implicit Type c : Controller G.
Definition set_recording o w n st c : Controller G :=
  {| boundary_owners := o; preemption_writer := w; recorded_event_count := n; stacktrace_events := st;
     replayer := replayer c; boundary_replayer := boundary_replayer c;
     boundary_stacktrace_events := boundary_stacktrace_events c; boundary_budgets := boundary_budgets c;
     thread_mms := thread_mms c; run_queue := run_queue c; priorities := priorities c; timeslices := timeslices c;
     replay_prehook_callers := replay_prehook_callers c;
     replay_priorities_released := replay_priorities_released c;
     replay_exhausted_allowance := replay_exhausted_allowance c; replay_exhausted_at := replay_exhausted_at c;
     record_logical_replay_priorities := record_logical_replay_priorities c |}.
Definition set_cursor r st c : Controller G :=
  {| boundary_owners := boundary_owners c; preemption_writer := preemption_writer c;
     recorded_event_count := recorded_event_count c; stacktrace_events := stacktrace_events c;
     replayer := replayer c; boundary_replayer := r; boundary_stacktrace_events := st;
     boundary_budgets := boundary_budgets c; thread_mms := thread_mms c; run_queue := run_queue c;
     priorities := priorities c; timeslices := timeslices c; replay_prehook_callers := replay_prehook_callers c;
     replay_priorities_released := replay_priorities_released c;
     replay_exhausted_allowance := replay_exhausted_allowance c; replay_exhausted_at := replay_exhausted_at c;
     record_logical_replay_priorities := record_logical_replay_priorities c |}.
Definition set_released rel allow at_ c : Controller G :=
  {| boundary_owners := boundary_owners c; preemption_writer := preemption_writer c;
     recorded_event_count := recorded_event_count c; stacktrace_events := stacktrace_events c;
     replayer := replayer c; boundary_replayer := boundary_replayer c;
     boundary_stacktrace_events := boundary_stacktrace_events c; boundary_budgets := boundary_budgets c;
     thread_mms := thread_mms c; run_queue := run_queue c; priorities := priorities c; timeslices := timeslices c;
     replay_prehook_callers := replay_prehook_callers c; replay_priorities_released := rel;
     replay_exhausted_allowance := allow; replay_exhausted_at := at_;
     record_logical_replay_priorities := record_logical_replay_priorities c |}.
Definition set_dispatch q p ts pc c : Controller G :=
  {| boundary_owners := boundary_owners c; preemption_writer := preemption_writer c;
     recorded_event_count := recorded_event_count c; stacktrace_events := stacktrace_events c;
     replayer := replayer c; boundary_replayer := boundary_replayer c;
     boundary_stacktrace_events := boundary_stacktrace_events c; boundary_budgets := boundary_budgets c;
     thread_mms := thread_mms c; run_queue := q; priorities := p; timeslices := ts; replay_prehook_callers := pc;
     replay_priorities_released := replay_priorities_released c;
     replay_exhausted_allowance := replay_exhausted_allowance c; replay_exhausted_at := replay_exhausted_at c;
     record_logical_replay_priorities := record_logical_replay_priorities c |}.
Definition set_budgets m c : Controller G :=
  {| boundary_owners := boundary_owners c; preemption_writer := preemption_writer c;
     recorded_event_count := recorded_event_count c; stacktrace_events := stacktrace_events c;
     replayer := replayer c; boundary_replayer := boundary_replayer c;
     boundary_stacktrace_events := boundary_stacktrace_events c; boundary_budgets := m;
     thread_mms := thread_mms c; run_queue := run_queue c; priorities := priorities c; timeslices := timeslices c;
     replay_prehook_callers := replay_prehook_callers c;
     replay_priorities_released := replay_priorities_released c;
     replay_exhausted_allowance := replay_exhausted_allowance c; replay_exhausted_at := replay_exhausted_at c;
     record_logical_replay_priorities := record_logical_replay_priorities c |}.
End Setters.

Section Controller.
Context (bp : profile) {G : Type}.
Implicit Type c : Controller G.

(** ** Lookahead *)

Definition boundary_budget_for_live_owner c (t : DetTid) : outcome (result AnyError (option Budget)) :=
  match boundary_replayer c with
  | None => Done (Ok None)
  | Some r =>
      match (mm ← ok_or (thread_mms c !! t) (Refusal "grant has no registered address space");
             owners ← ok_or (boundary_owners c) (Refusal "replay has no lifecycle registry");
             Registry.get_owner owners t mm) with
      | Ok o => b ← BoundaryReplayer.budget_for r o; Done (Ok b)
      | Err e => Done (Err e)
      | Crash p => Panic p
      end
  end.
Definition prepare_boundary_grant c (t : DetTid) : outcome (result AnyError () * Controller G) :=
  b ← boundary_budget_for_live_owner c t;
  match b with
  | Ok (Some budget) =>
      mm ← expect (thread_mms c !! t);
      match Mailbox.queue (boundary_budgets c) mm budget with
      | Ok m => Done (Ok tt, set_budgets m c)
      | Err e => Done (Err e, c)
      | Crash p => Panic p
      end
  | Ok None => Done (Ok tt, c)
  | Err e => Done (Err e, c)
  | Crash p => Panic p
  end.

(** ** Priorities (src/detcore/src/scheduler.rs) *)

Definition requeue_with_new_priority c (t : DetTid) (p : Priority) : outcome (Controller G) :=
  _ ← assert_ (is_ordinary_priority p);
  let prios := bt_insert t p (priorities c) in
  r ← remove_tid (run_queue c) t;
  let '(present, q) := r in
  if present : bool then
    p' ← expect (bt_get t prios);
    r ← push_back bp q t p';
    Done (set_dispatch r.2 prios (timeslices c) (replay_prehook_callers c) c)
  else Done (set_dispatch q prios (timeslices c) (replay_prehook_callers c) c).
Fixpoint requeue_all c (ts : list DetTid) (p : Priority) : outcome (Controller G) :=
  match ts with
  | [] => Done c
  | t :: ts' => c ← requeue_with_new_priority c t p; requeue_all c ts' p
  end.

Definition note_replay_switch c (from to : DetTid) (at_syscall_prehook : bool) : Controller G :=
  let callers := replay_prehook_callers c ∖ {[to]} in
  set_dispatch (run_queue c) (priorities c) (timeslices c)
    (if at_syscall_prehook then {[from]} ∪ callers else callers ∖ {[from]}) c.

(** At most one of the two replay cursors. *)
Definition one_cursor c : bool :=
  bool_decide (replayer c = None) || bool_decide (boundary_replayer c = None).
Definition has_schedule_replay c : outcome bool :=
  _ ← assert_ (one_cursor c);
  Done (negb (bool_decide (replayer c = None)) || negb (bool_decide (boundary_replayer c = None))).
Definition replay_has_records_left c : outcome bool :=
  _ ← assert_ (one_cursor c);
  Done (match boundary_replayer c with
        | Some r => BoundaryReplayer.has_records_left r
        | None => match replayer c with Some r => Replayer.has_events_left r | None => false end
        end).
(** The thread a replay resumes next; boundaries give no length to run. *)
Definition replay_next_resume c : outcome (option (DetTid * option LogicalTime)) :=
  _ ← assert_ (one_cursor c);
  Done (match boundary_replayer c with
        | Some r => (fun t => (t, None)) <$> BoundaryReplayer.next_thread r
        | None => r ← replayer c; Replayer.next_resume r
        end).
Definition release_replay_priorities_if_exhausted c (matched_event_pending : bool) : outcome (Controller G) :=
  if replay_priorities_released c then Done c
  else
    replays ← has_schedule_replay c;
    if negb replays then Done c
    else
      left_ ← replay_has_records_left c;
      if left_ : bool then Done c
      else
        let c := set_released true (if matched_event_pending then 1 else 0)
                   (if record_logical_replay_priorities c then replay_exhausted_at c
                    else Some (recorded_event_count c)) c in
        requeue_all c (priorities c).*1 DEFAULT_PRIORITY.

(** ** Consuming one record *)

Record ConsumeResult := { keep_running : bool; print_stack : MaybePrintStack; event_ix : nat }.

(** The handoff of a context switch from [current] to [next]. *)
Definition hand_over c (observed : Record_) (next : DetTid) : outcome (Controller G) :=
  let current := BoundaryReplayer.record_thread observed in
  _ ← assert_ (negb (current =? next));
  c ← requeue_with_new_priority c current REPLAY_DEFERRED_PRIORITY;
  c ← requeue_with_new_priority c next REPLAY_FOREGROUND_PRIORITY;
  let at_syscall_prehook := match observed with Event e => Replayer.is_prehook e | TimesliceEnd _ => false end in
  let c := note_replay_switch c current next at_syscall_prehook in
  Done (set_dispatch (run_queue c) (priorities c) (delete next (timeslices c)) (replay_prehook_callers c) c).
Definition consume_boundary_record c (observed : Record_)
    : outcome (result AnyError ConsumeResult * Controller G) :=
  _ ← assert_ (bool_decide (replayer c = None));
  match boundary_replayer c with
  | None => Done (Err (Refusal "no slice-boundary replay cursor"), c)
  | Some r =>
      let index := BoundaryReplayer.br_next r in
      match BoundaryReplayer.observe r observed with
      | (Err e, r) => Done (Err (Protocol e), set_cursor (Some r) (boundary_stacktrace_events c) c)
      | (Crash p, _) => Panic p
      | (Ok action, r) =>
          let complete := negb (BoundaryReplayer.br_next r =? index)%nat in
          let stack := if complete then boundary_stacktrace_events c !! index else None in
          let rest := if complete then delete index (boundary_stacktrace_events c)
                      else boundary_stacktrace_events c in
          c ← release_replay_priorities_if_exhausted (set_cursor (Some r) rest c) true;
          k ← (match action with
               | Replayer.Continue None => Done (true, c)
               | Replayer.ContextSwitch now next None => c ← hand_over c observed next; Done (negb now, c)
               | _ => Panic PExplicit
               end);
          Done (Ok {| keep_running := k.1; print_stack := stack; event_ix := index |}, k.2)
      end
  end.

(** ** Accepting a boundary *)

(** What a recording run checks before it accepts; [None] outside one. *)
Definition recording_count c : result AnyError (option Z) :=
  match preemption_writer c with
  | None => Ok None
  | Some None => Err (Refusal "annotation has a legacy writer")
  | Some (Some records) =>
      next ← ok_or (checked_u64 (recorded_event_count c + 1)) (Refusal "stored index overflow");
      _ ← ensure (Z.of_nat (length records) =? recorded_event_count c) (Refusal "inconsistent recording index");
      _ ← ensure (negb (bool_decide (boundary_replayer c = None)
                        && match stacktrace_events c with
                           | Some ((requested, event, _) :: _) =>
                               (requested =? recorded_event_count c) && negb (bool_decide (event = None))
                           | _ => false
                           end)) (Refusal "ordinary event selector names a marker");
      Ok (Some next)
  end.
Definition is_recording c : bool := match preemption_writer c with Some (Some _) => true | _ => false end.
Definition check_boundary c (t : DetTid) (mm : MmId) (b : Boundary) : result AnyError (option Z) :=
  owners ← ok_or (boundary_owners c) (Refusal "annotation outside its protocol");
  _ ← Registry.validate_boundary owners t mm b;
  _ ← ensure (match preemption_writer c with Some None => false | _ => true end)
        (Refusal "annotation has a legacy writer");
  _ ← ensure (is_recording c || negb (bool_decide (boundary_replayer c = None)))
        (Refusal "annotation has no recorder or replay cursor");
  recording_count c.

(** [PreemptionWriter::insert_slice_boundary] *)
Definition insert_slice_boundary (w : option (list Record_)) (b : Boundary)
    : result AnyError (nat * option (list Record_)) :=
  records ← ok_or w (Refusal "cannot append a slice boundary to a legacy recording");
  _ ← map_err Protocol (validate_shape b (length records));
  Ok (length records, Some (records ++ [TimesliceEnd b])).
(** The recording's half of an acceptance. *)
Definition record_boundary c (b : Boundary) (next_count : option Z) (stack : MaybePrintStack)
    : outcome (result AnyError MaybePrintStack * Controller G) :=
  if negb (is_recording c) then Done (Ok stack, c)
  else
    w ← expect (preemption_writer c);
    match insert_slice_boundary w b with
    | Err e => Done (Err e, c)
    | Crash p => Panic p
    | Ok (index, w) =>
        _ ← assert_ (Z.of_nat index =? recorded_event_count c);
        n ← expect next_count;
        match (if bool_decide (boundary_replayer c = None) then stacktrace_events c else None) with
        | Some ((requested, event, path) :: rest) =>
            if requested =? Z.of_nat index then
              _ ← assert_ (bool_decide (event = None));
              Done (Ok (Some path), set_recording (boundary_owners c) (Some w) n (Some rest) c)
            else Done (Ok stack, set_recording (boundary_owners c) (Some w) n (stacktrace_events c) c)
        | _ => Done (Ok stack, set_recording (boundary_owners c) (Some w) n (stacktrace_events c) c)
        end
    end.
Definition commit_owner c (b : Boundary) : outcome (Controller G) :=
  owners ← expect (boundary_owners c);
  Done (set_recording (Some (Registry.commit_boundary owners b)) (preemption_writer c) (recorded_event_count c)
          (stacktrace_events c) c).

Definition accept_slice_boundary c (t : DetTid) (mm : MmId) (b : Boundary)
    : outcome (result AnyError MaybePrintStack * Controller G) :=
  match check_boundary c t mm b with
  | Err e => Done (Err e, c)
  | Crash p => Panic p
  | Ok next_count =>
      r ← (if bool_decide (boundary_replayer c = None) then Done (Ok None, c)
           else
             r ← consume_boundary_record c (TimesliceEnd b);
             match r with
             | (Ok consumed, c) => _ ← assert_ (keep_running consumed); Done (Ok (print_stack consumed), c)
             | (Err e, c) => Done (Err e, c)
             | (Crash p, _) => Panic p
             end);
      match r with
      | (Ok stack, c) =>
          r ← record_boundary c b next_count stack;
          match r with
          | (Ok stack, c) => c ← commit_owner c b; Done (Ok stack, c)
          | (Err e, c) => Done (Err e, c)
          | (Crash p, _) => Panic p
          end
      | (Err e, c) => Done (Err e, c)
      | (Crash p, _) => Panic p
      end
  end.
End Controller.
