(* ===== verification/BoundaryControllerProps.v ===== *)
(** * Accepting a boundary is all or nothing *)
From Stdlib Require Import ZArith Lia List String.
From stdpp Require Import base gmap list.
From S2P Require Import Prelude BTree RunQueue RunQueueInv RunQueueProps Time Schedule Text Resource Replayer Boundary BoundaryReplay BoundaryStream BoundaryGuest BoundarySystem BoundaryProps BoundaryController.
Import Schedule Boundary.
Open Scope Z_scope.

Section Accept.
Context (bp : profile) {G : Type}.
Implicit Types (c : Controller G) (q : RunQueue G) (P : list SuspendedRunQueueEntry).

(** Room for [n] more pushes at the back. *)
Definition room (n : nat) q : Prop :=
  last_back_turn q + Z.of_nat n < RUN_TIME_TURNS /\ - RUN_TIME_TURNS < last_front_turn q - 1
  /\ poll_upgrades q + Z.of_nat n <= u64_max.
Record dispatch_ok P (n : nat) c : Prop := {
  d_queue : rq_ok P (run_queue c);
  d_unlocked : unlocked (run_queue c);
  d_room : room n (run_queue c);
  d_priorities : bt_ok (priorities c);
}.

(** Nothing but the run queue and the priorities differs. *)
Definition redispatched c c' : Prop :=
  c' = BoundaryController.set_dispatch (run_queue c') (priorities c') (timeslices c) (replay_prehook_callers c) c.

Lemma remove_tid_upgrades q t b q' : remove_tid q t = Done (b, q') -> poll_upgrades q' = poll_upgrades q.
Proof. unfold remove_tid. intros (u&_&[= _ <-])%bind_Done. done. Qed.

Lemma requeue_ok P n c t p :
  dispatch_ok P (S n) c -> is_ordinary_priority p = true ->
  exists c', requeue_with_new_priority bp c t p = Done c' /\ dispatch_ok P n c' /\ redispatched c c'
    /\ priorities c' = bt_insert t p (priorities c).
Proof.
  intros [Q U (R1&R2&R3) B] O. unfold requeue_with_new_priority. rewrite O. cbn [assert_ mbind outcome_bind].
  destruct (remove_tid_spec P (run_queue c) t Q U) as (q1&E&Q1&U1&_&Lb&Lf&N&_). rewrite E.
  pose proof (remove_tid_upgrades _ _ _ _ E) as Pu. cbn [mbind outcome_bind].
  destruct (contains_tid (run_queue c) t).
  - rewrite bt_get_insert_eq by done. cbn [expect mbind outcome_bind].
    destruct (push_back_spec bp P q1 t p Q1 U1) as (q2&E2&Qd&_&Eq); [|done|done|].
    { unfold has_room. rewrite Lb, Lf, Pu. lia. }
    rewrite E2. cbn [mbind outcome_bind snd]. eexists. split; [done|]. split; [|by split].
    split; cbn; [done| | |by apply bt_insert_ok].
    + rewrite Eq. exact U1.
    + rewrite Eq. unfold room. cbn [set_queue set_poll_upgrades set_turns last_back_turn last_front_turn poll_upgrades]. rewrite Lb, Lf, Pu.
      match goal with |- context [if ?x then _ else _] => destruct x end; lia.
  - eexists. split; [done|]. split; [|by split]. split; cbn; [done|done| |by apply bt_insert_ok].
    unfold room. rewrite Lb, Lf, Pu. lia.
Qed.
Lemma redispatched_trans c1 c2 c3 : redispatched c1 c2 -> redispatched c2 c3 -> redispatched c1 c3.
Proof. unfold redispatched. intros E1 E2. rewrite E2, E1. done. Qed.
Lemma requeue_all_ok P n c ts p :
  dispatch_ok P (length ts + n) c -> is_ordinary_priority p = true ->
  exists c', requeue_all bp c ts p = Done c' /\ dispatch_ok P n c' /\ redispatched c c'.
Proof.
  revert c. induction ts as [|t ts IH]; intros c D O; cbn.
  - exists c. split; [done|]. split; [done|]. unfold redispatched. by destruct c.
  - destruct (requeue_ok _ _ _ t p D O) as (c1&->&D1&R1&_). cbn [mbind outcome_bind].
    destruct (IH _ D1 O) as (c2&->&D2&R2). exists c2. split; [done|]. split; [done|].
    by eapply redispatched_trans.
Qed.

(** What a consumed record may change beside the cursor: the dispatch state. *)
Record same_protocol c c' : Prop := {
  sp_owners : boundary_owners c' = boundary_owners c;
  sp_writer : preemption_writer c' = preemption_writer c;
  sp_count : recorded_event_count c' = recorded_event_count c;
  sp_stacks : stacktrace_events c' = stacktrace_events c;
  sp_replayer : replayer c' = replayer c;
  sp_cursor : boundary_replayer c' = boundary_replayer c;
}.
#[export] Instance same_protocol_refl : Reflexive same_protocol.
Proof. by split. Qed.
#[export] Instance same_protocol_trans : Transitive same_protocol.
Proof. intros a b c [] []. split; congruence. Qed.
Lemma redispatched_same c c' : redispatched c c' -> same_protocol c c'.
Proof. unfold redispatched. intros ->. by split. Qed.

Definition dispatch_size c : nat := length (priorities c) + 2.
Lemma release_ok P c b :
  dispatch_ok P (dispatch_size c) c -> one_cursor c = true ->
  exists c', release_replay_priorities_if_exhausted bp c b = Done c' /\ dispatch_ok P 2 c' /\ same_protocol c c'
    /\ (replay_has_records_left c = Done true -> c' = c).
Proof.
  intros D O.
  assert (D2 : dispatch_ok P 2 c).
  { destruct D as [A B (C1&C2&C3) E]. split; [done|done| |done]. unfold room, dispatch_size in *. lia. }
  unfold release_replay_priorities_if_exhausted. destruct (replay_priorities_released c); [by exists c|].
  unfold has_schedule_replay, replay_has_records_left. rewrite O. cbn [assert_ mbind outcome_bind].
  destruct (negb _); [by exists c|].
  match goal with |- context [if ?b then Done c else _] => destruct b eqn:L end; [by exists c|].
  match goal with |- context [requeue_all bp ?x] => set (c1 := x) end.
  destruct (requeue_all_ok P 2 c1 (priorities c).*1 DEFAULT_PRIORITY) as (c2&E&D'&R); [|done|].
  { rewrite length_fmap. by destruct D as [A B C E]; split. }
  exists c2. split; [exact E|]. split; [done|]. split; [|by intros [=]].
  transitivity c1; [by split|]. by apply redispatched_same.
Qed.
Lemma hand_over_ok P c observed next :
  dispatch_ok P 2 c -> BoundaryReplayer.record_thread observed <> next ->
  exists c', hand_over bp c observed next = Done c' /\ dispatch_ok P 0 c' /\ same_protocol c c'
    /\ bt_get next (priorities c') = Some REPLAY_FOREGROUND_PRIORITY
    /\ bt_get (BoundaryReplayer.record_thread observed) (priorities c') = Some REPLAY_DEFERRED_PRIORITY.
Proof.
  intros D N. unfold hand_over. rewrite (proj2 (Z.eqb_neq _ _) N). cbn [negb assert_ mbind outcome_bind].
  destruct (requeue_ok _ _ _ (BoundaryReplayer.record_thread observed) REPLAY_DEFERRED_PRIORITY D)
    as (c1&->&D1&R1&P1); [done|]. cbn [mbind outcome_bind].
  destruct (requeue_ok _ _ _ next REPLAY_FOREGROUND_PRIORITY D1) as (c2&->&D2&R2&P2); [done|].
  cbn [mbind outcome_bind]. eexists. split; [done|].
  pose proof (redispatched_same _ _ (redispatched_trans _ _ _ R1 R2)) as S.
  split; [by destruct D2; split|]. split; [by destruct S; split|]. cbn. rewrite P2.
  split; [apply bt_get_insert_eq, D1|]. rewrite bt_get_insert_ne; [|done|apply D1]. rewrite P1.
  apply bt_get_insert_eq, D.
Qed.

(** ** Consuming a record *)

Definition action_at (s : Boundary.Schedule) (k : nat) (observed : Record_) : Replayer.ReplayAction :=
  match BoundaryReplayer.next_thread (at_ s k) with
  | None => Replayer.Continue None
  | Some n => if n =? BoundaryReplayer.record_thread observed then Replayer.Continue None
              else Replayer.ContextSwitch (negb (BoundaryReplayer.deferred observed)) n None
  end.
Lemma observe_action s k o :
  (exists e, records s !! k = Some e /\ record_matches e o
     /\ BoundaryReplayer.observe (at_ s k) o = (Ok (action_at s (S k) o), at_ s (S k)))
  \/ exists err, BoundaryReplayer.observe (at_ s k) o = (Err err, at_ s k).
Proof.
  pose proof (observe_at s k o) as H. destruct (records s !! k) as [e|] eqn:L; [|right; by eexists].
  destruct H as [[M _]|[_ ->]]; [left|right; by eexists]. exists e. split; [done|]. split; [done|].
  unfold BoundaryReplayer.observe, action_at. cbn [at_ BoundaryReplayer.br_schedule BoundaryReplayer.br_next].
  rewrite L. destruct (check_observation_cases e k o) as [[_ ->]|[N _]]; [|done].
  change {| BoundaryReplayer.br_schedule := s; BoundaryReplayer.br_next := S k |} with (at_ s (S k)).
  destruct (BoundaryReplayer.next_thread (at_ s (S k))) as [n|]; [|done]. by destruct (n =? _).
Qed.

(** The dispatch a matched record leaves: the thread of the next record in the
    foreground, if it is another one. *)
Definition handed_over c (s : Boundary.Schedule) (k : nat) (observed : Record_) : Prop :=
  forall n, BoundaryReplayer.next_thread (at_ s k) = Some n -> n <> BoundaryReplayer.record_thread observed ->
    bt_get n (priorities c) = Some REPLAY_FOREGROUND_PRIORITY
    /\ bt_get (BoundaryReplayer.record_thread observed) (priorities c) = Some REPLAY_DEFERRED_PRIORITY.

Lemma consume_ok P c s k observed :
  dispatch_ok P (dispatch_size c) c -> replayer c = None -> boundary_replayer c = Some (at_ s k) ->
  BoundaryReplayer.deferred observed = true ->
  (exists e, consume_boundary_record bp c observed = Done (Err e, c))
  \/ exists res c' e, consume_boundary_record bp c observed = Done (Ok res, c') /\ keep_running res = true
     /\ dispatch_ok P 0 c' /\ records s !! k = Some e /\ record_matches e observed
     /\ same_protocol (set_cursor (Some (at_ s (S k))) (boundary_stacktrace_events c) c) c'
     /\ handed_over c' s (S k) observed.
Proof.
  intros D R B Df. unfold consume_boundary_record. rewrite R, bool_decide_eq_true_2 by done.
  cbn [assert_ mbind outcome_bind]. rewrite B. cbn [at_ BoundaryReplayer.br_next].
  destruct (observe_action s k observed) as [(e&L&M&E)|[err E]]; rewrite E.
  2:{ left. exists (Protocol err). do 3 f_equal. destruct c; cbn in *. by rewrite B. }
  right. match goal with |- context [release_replay_priorities_if_exhausted bp (set_cursor ?r ?x c) _] =>
    set (c1 := set_cursor r x c) end.
  assert (D1 : dispatch_ok P (dispatch_size c1) c1) by (by destruct D; split).
  assert (O1 : one_cursor c1 = true) by (unfold one_cursor; cbn; rewrite R; by rewrite bool_decide_eq_true_2).
  destruct (release_ok P c1 true D1 O1) as (c2&->&D2&S2&K2). cbn [mbind outcome_bind].
  assert (S3 : same_protocol (set_cursor (Some (at_ s (S k))) (boundary_stacktrace_events c) c) c2).
  { destruct S2. by split. }
  assert (weak : dispatch_ok P 0 c2).
  { destruct D2 as [A1 A2 (A3&A4&A5) A6]. split; [done|done| |done]. unfold room. lia. }
  unfold action_at. destruct (BoundaryReplayer.next_thread (at_ s (S k))) as [n|] eqn:N.
  - destruct (n =? BoundaryReplayer.record_thread observed) eqn:Eq.
    + apply Z.eqb_eq in Eq. eexists _, c2, e. cbn. split; [done|]. split; [done|]. do 4 (split; [done|]).
      intros n' N'. rewrite N in N'. injection N' as <-. congruence.
    + apply Z.eqb_neq in Eq. destruct (hand_over_ok P c2 observed n D2) as (c3&->&D3&S4&F1&F2); [congruence|].
      cbn [mbind outcome_bind fst snd]. eexists _, c3, e. split; [done|]. cbn. rewrite Df.
      split; [done|]. do 3 (split; [done|]). split; [by transitivity c2|].
      intros n' N' _. rewrite N in N'. injection N' as <-. done.
  - eexists _, c2, e. cbn. split; [done|]. split; [done|]. do 4 (split; [done|]).
    intros n' N'. by rewrite N in N'.
Qed.

(** ** Accepting a boundary *)

(** The checks are refusals, never panics. *)
Lemma ensure_no_crash {E} b (e : E) p : ensure b e <> Crash p.
Proof. by destruct b. Qed.
Lemma bind_no_crash {E A B} (m : result E A) (f : A -> result E B) p :
  m <> Crash p -> (forall a, f a <> Crash p) -> (m ≫= f) <> Crash p.
Proof. intros M F. destruct m; cbn; [apply F|done|congruence]. Qed.
Lemma ok_or_no_crash {E A} (o : option A) (e : E) p : ok_or o e <> Crash p.
Proof. by destruct o. Qed.
Lemma shape_no_crash b i p : validate_shape b i <> Crash p.
Proof.
  unfold validate_shape. do 2 (apply bind_no_crash; [apply ensure_no_crash|intros _]).
  apply bind_no_crash.
  { destruct (entry (identity b)) as [n []| | | | | | |g [] a|g [] a []]; try done; apply ensure_no_crash. }
  intros _. do 2 (apply bind_no_crash; [apply ensure_no_crash|intros _]). apply ensure_no_crash.
Qed.
Lemma check_boundary_no_crash c t mm b p : check_boundary c t mm b <> Crash p.
Proof.
  unfold check_boundary. apply bind_no_crash; [apply ok_or_no_crash|]. intros o. apply bind_no_crash.
  { unfold Registry.validate_boundary. apply bind_no_crash.
    { pose proof (shape_no_crash b 0 p). by destruct (validate_shape b 0); cbn; try congruence. }
    intros _. apply bind_no_crash.
    { unfold Registry.get_owner. destruct (Registry.live o !! t); [|done]. by destruct (Registry.of_image _ _). }
    intros o'. apply bind_no_crash; [apply ensure_no_crash|intros _].
    destruct (Registry.boundaries o !! _); apply ensure_no_crash. }
  intros _. do 2 (apply bind_no_crash; [apply ensure_no_crash|intros _]).
  unfold recording_count. destruct (preemption_writer c) as [[rs|]|]; [|done|done].
  apply bind_no_crash; [apply ok_or_no_crash|intros n].
  do 2 (apply bind_no_crash; [apply ensure_no_crash|intros _]). done.
Qed.

Definition one_more (w : option (option (list Record_))) (b : Boundary) : option (option (list Record_)) :=
  match w with Some (Some rs) => Some (Some (rs ++ [TimesliceEnd b])) | _ => w end.
(** The state after the acceptance of [b]. *)
Record accepted c c' (b : Boundary) : Prop := {
  acc_owners : exists o, boundary_owners c = Some o
    /\ boundary_owners c' = Some (Registry.commit_boundary o b);
  acc_writer : preemption_writer c' = one_more (preemption_writer c) b;
  acc_count : recorded_event_count c' = recorded_event_count c + (if is_recording c then 1 else 0);
  acc_cursor : match boundary_replayer c with
               | None => boundary_replayer c' = None
               | Some r =>
                   boundary_replayer c' = Some (at_ (BoundaryReplayer.br_schedule r) (S (BoundaryReplayer.br_next r)))
                   /\ handed_over c' (BoundaryReplayer.br_schedule r) (S (BoundaryReplayer.br_next r)) (TimesliceEnd b)
                   /\ exists e, records (BoundaryReplayer.br_schedule r) !! BoundaryReplayer.br_next r = Some e
                      /\ record_matches e (TimesliceEnd b)
               end;
}.

Lemma check_boundary_Ok c t mm b n :
  check_boundary c t mm b = Ok n ->
  exists o, boundary_owners c = Some o /\ Registry.validate_boundary o t mm b = Ok tt
  /\ (is_recording c = true \/ boundary_replayer c <> None)
  /\ match preemption_writer c with
     | Some (Some rs) => n = Some (recorded_event_count c + 1) /\ Z.of_nat (length rs) = recorded_event_count c
         /\ (boundary_replayer c = None -> forall req ev path rest,
              stacktrace_events c = Some ((req, ev, path) :: rest) -> req = recorded_event_count c -> ev = None)
     | _ => preemption_writer c = None
     end.
Proof.
  unfold check_boundary. intros (o&O&([]&V&(u1&W&(u2&R&C)%bind_Ok)%bind_Ok)%bind_Ok)%bind_Ok.
  apply ok_or_Ok in O. apply ensure_Ok in W, R. exists o. split; [done|]. split; [done|]. split.
  { apply orb_true_iff in R as [R|R]; [by left|right]. by apply negb_true_iff, bool_decide_eq_false_1 in R. }
  unfold recording_count in C. destruct (preemption_writer c) as [[rs|]|]; [|done|done].
  apply bind_Ok in C as (n'&N&(u3&I&(u4&St&[= <-])%bind_Ok)%bind_Ok). apply ok_or_Ok, checked_u64_Some in N as [-> _].
  apply ensure_Ok, Z.eqb_eq in I. apply ensure_Ok, negb_true_iff in St. split; [done|]. split; [done|].
  intros Br req ev path rest Es Er. rewrite Es, Br, bool_decide_eq_true_2 in St by done.
  rewrite (proj2 (Z.eqb_eq _ _) Er) in St. cbn in St. apply negb_false_iff in St. by apply bool_decide_eq_true_1 in St.
Qed.

Lemma record_boundary_ok c b n stack :
  validate_shape b 0 = Ok tt ->
  match preemption_writer c with
  | Some (Some rs) => n = Some (recorded_event_count c + 1) /\ Z.of_nat (length rs) = recorded_event_count c
      /\ (boundary_replayer c = None -> forall req ev path rest,
           stacktrace_events c = Some ((req, ev, path) :: rest) -> req = recorded_event_count c -> ev = None)
  | _ => preemption_writer c = None
  end ->
  exists st c', record_boundary c b n stack = Done (Ok st, c')
    /\ exists stacks, c' = set_recording (boundary_owners c) (one_more (preemption_writer c) b)
         (recorded_event_count c + (if is_recording c then 1 else 0)) stacks c.
Proof.
  intros V W. unfold record_boundary, is_recording.
  destruct (preemption_writer c) as [[rs|]|] eqn:Ew; [|done|].
  2:{ eexists _, c. split; [done|]. exists (stacktrace_events c). cbn. rewrite Z.add_0_r. destruct c; cbn in *. by rewrite Ew. }
  destruct W as (->&Len&Sel). cbn [negb expect mbind outcome_bind]. unfold insert_slice_boundary. cbn [ok_or mbind result_bind].
  rewrite (validate_shape_index _ _ (length rs) V). cbn [map_err mbind result_bind].
  rewrite Len, Z.eqb_refl. cbn [assert_ mbind outcome_bind expect one_more].
  destruct (decide (boundary_replayer c = None)) as [Br|Br].
  - rewrite bool_decide_eq_true_2 by done.
    destruct (stacktrace_events c) as [[|[[req ev] path] rest]|] eqn:Es.
    + by eexists _, _; split; [done|]; eexists.
    + destruct (req =? recorded_event_count c) eqn:Er.
      * apply Z.eqb_eq in Er. specialize (Sel Br _ _ _ _ eq_refl Er) as ->.
        rewrite bool_decide_eq_true_2 by done. cbn. by eexists _, _; split; [done|]; eexists.
      * by eexists _, _; split; [done|]; eexists.
    + by eexists _, _; split; [done|]; eexists.
  - rewrite bool_decide_eq_false_2 by done. by eexists _, _; split; [done|]; eexists.
Qed.
End Accept.

(** C10: accepting a slice boundary is all or nothing.  On a scheduler with an
    unlocked run queue and room for its pushes, the call returns: either it is
    refused, by the registry, the recorder or the replay cursor, and the
    scheduler is exactly as it was; or the boundary is the registry's last one
    of its owner, is appended to a recording that counts one record more, and in
    a replay matched the stored record, moved the cursor by one, and left the
    thread of the next record in the foreground. *)
Theorem boundary_accepted_or_unchanged (bp : profile) {G : Type} P (c : Controller G) (t : DetTid)
  (mm : MmId) (b : Boundary) (Hdispatch : dispatch_ok P (dispatch_size c) c) (Hone : replayer c = None) :
  exists res c', accept_slice_boundary bp c t mm b = Done (res, c')
    /\ match res with
       | Err _ => c' = c
       | Ok _ => accepted c c' b
           /\ exists o, boundary_owners c = Some o /\ Registry.validate_boundary o t mm b = Ok tt
       | Crash _ => False
       end.
Proof.
  unfold accept_slice_boundary. destruct (check_boundary c t mm b) as [n|e|p] eqn:C.
  2:{ by eexists _, _. }
  2:{ exfalso. revert C. apply check_boundary_no_crash. }
  apply check_boundary_Ok in C as (o&O&V&Ro&W). pose proof (proj1 (validate_boundary_Ok _ _ _ _ V)) as Sh.
  destruct (boundary_replayer c) as [[s k]|] eqn:B.
  - rewrite bool_decide_eq_false_2 by done. change {| BoundaryReplayer.br_schedule := s; BoundaryReplayer.br_next := k |} with (at_ s k) in B.
    destruct (consume_ok bp P c s k (TimesliceEnd b) Hdispatch Hone B eq_refl)
      as [[e ->]|(res&c1&e&->&Kr&D1&L&M&[S1 S2 S3 S4 S5 S6]&Ho)]; cbn [mbind outcome_bind].
    { by eexists _, _. }
    rewrite Kr. cbn [assert_ mbind outcome_bind]. cbn in S1, S2, S3, S4, S6.
    destruct (record_boundary_ok c1 b n (print_stack res) Sh) as (st&c2&->&sts&->).
    { rewrite S2, S3, S6. destruct (preemption_writer c) as [[rs|]|]; [|done|done].
      destruct W as (?&?&_). split; [done|]. split; [done|]. by intros [=]. }
    cbn [mbind outcome_bind]. unfold commit_owner. cbn. rewrite S1, O. cbn. eexists _, _. split; [done|].
    split; [|by exists o]. split; cbn; [by exists o|by rewrite S2| |].
    + rewrite S3. unfold is_recording. by rewrite S2.
    + rewrite B. cbn. split; [done|]. split; [exact Ho|]. by exists e.
  - rewrite bool_decide_eq_true_2 by done. cbn [mbind outcome_bind].
    destruct (record_boundary_ok c b n None Sh) as (st&c2&->&sts&->); [by rewrite B|].
    cbn [mbind outcome_bind]. unfold commit_owner. cbn. rewrite O. cbn. eexists _, _. split; [done|].
    split; [|by exists o]. split; cbn; [by exists o|done|done|]. by rewrite B.
Qed.

(** * Slice boundaries on concrete runs

    Small runs on which the hypotheses of the theorems hold. *)

(** ** A recording with an exec by a thread that is not the leader *)

Definition mm3 : MmId := mm_initial 3.
Definition mm3' : MmId := {| Resource.creator := 3; Resource.generation := 1 |}.
Definition owner_of (t g bt bg : Z) (mm : MmId) : Owner :=
  {| tid := t; thread_generation := g; birth_tid := bt; birth_generation := bg;
     address_space_creator := creator mm; address_space_generation := generation mm |}.
Definition software (o : Owner) (e : Entry) (ph : Phase) (rcbs k s : Z) : Boundary :=
  {| identity := {| owner := o; cause := SoftwareCheckin; phase := ph; entry := e; committed_rcbs := rcbs;
                    checkin := k; slice := s |};
     b_count := 1; b_start_rip := None; b_end_rip := None; b_end_time := Some 100 |}.
Definition cpuid_event (t : DetTid) : SchedEvent :=
  {| dettid := t; op := Cpuid; count := 1; start_rip := None; end_rip := None; end_time := None;
     stopless := false |}.
Definition boundary_a : Boundary := software (owner_of 3 0 3 0 mm3) ECpuid Posthook 50 2 1.
Definition boundary_b : Boundary := software (owner_of 5 0 5 0 mm3) (ESyscall 1 1) Prehook 7 1 1.
Definition boundary_c : Boundary := software (owner_of 3 1 5 0 mm3') EExec Posthook 0 1 1.
Definition example_life : list life_call :=
  [LFresh 3 mm3; LFresh 5 mm3; LEvent (cpuid_event 3); LBoundary 3 mm3 boundary_a; LBoundary 5 mm3 boundary_b;
   LExec 5 3 mm3 mm3'; LRetire 3 mm3; LBoundary 3 mm3' boundary_c].
Definition example_stream : list Record_ :=
  [Event (cpuid_event 3); TimesliceEnd boundary_a; TimesliceEnd boundary_b; TimesliceEnd boundary_c].
Definition example_registry : Registry.Registry :=
  match life_run (Registry.empty, []) example_life with Ok (r, _) => r | _ => Registry.empty end.

Lemma recorded_stream_reads_back_witness :
  life_run (Registry.empty, []) example_life = Ok (example_registry, example_stream)
  /\ exists w s, borrow_records example_stream = Ok w /\ try_from w = Ok s /\ records s = example_stream
    /\ (observe_all (BoundaryReplayer.new s) example_stream).1 = Ok tt
    /\ BoundaryReplayer.finish (observe_all (BoundaryReplayer.new s) example_stream).2 = Done (Ok tt).
Proof.
  assert (H : life_run (Registry.empty, []) example_life = Ok (example_registry, example_stream)) by (vm_compute; reflexivity).
  split; [exact H|]. exact (recorded_stream_reads_back _ _ _ H).
Defined.

(** ** Guests *)

(** A reset that counts the slice and clears the precise target. *)
Definition plain_next_timeslice (t : ThreadState) : outcome (option Priority * ThreadState) :=
  Done (None, {| t_dettid := t_dettid t; mm_id := mm_id t; committed_clock_value := committed_clock_value t;
                 logical_nanos := logical_nanos t; own_signal_turn_hold := own_signal_turn_hold t;
                 timeslice_count := timeslice_count t + 1; replay_rcb_end := None;
                 slice_boundary := slice_boundary t |}).
Lemma plain_frame t p t' : plain_next_timeslice t = Done (p, t') -> same_image t t'.
Proof. intros [= _ <-]. by split. Qed.
Definition plain_reset : SliceReset :=
  {| sliced := true; next_timeslice := plain_next_timeslice; next_timeslice_frame := plain_frame |}.

Definition new_thread (t : DetTid) (mm : MmId) : ThreadState :=
  {| t_dettid := t; mm_id := mm; committed_clock_value := 0; logical_nanos := 0; own_signal_turn_hold := false;
     timeslice_count := 0; replay_rcb_end := None; slice_boundary := None |}.
(** A syscall of thread 3 is interrupted by a signal, whose posthook ends a
    slice; thread 5 ends one at its prehook, then execs. *)
Definition example_system_calls : list system_call :=
  [SStart (new_thread 3 mm3); SStart (new_thread 5 mm3);
   SGuest 3 GStart; SGuest 3 (GBegin (Some (CbSyscall 0))); SGuest 3 (GPre 0);
   SGuest 5 (GBegin (Some (CbSyscall 1))); SGuest 5 (GRuns 7 10 false); SGuest 5 (GPre 0);
   SGuest 3 (GRuns 40 90 false); SGuest 3 (GBegin (Some (CbSignal {| raw := 14 |} false))); SGuest 3 (GPre 1);
   SGuest 3 (GDelivered 1 {| raw := 14 |} 0); SEnd 5 false;
   SGuest 3 (GRuns 50 100 false); SGuest 3 (GPost 1); SEnd 3 false;
   SExec 5 3 mm3' 0; SGuest 3 (GBegin (Some CbExec)); SGuest 3 (GPre 1); SGuest 3 (GPost 1)].
Definition example_system : System :=
  match @system_run plain_reset no_guests example_system_calls with Ok s => s | _ => no_guests end.
Definition example_guest : Guest :=
  match guests example_system !! 3 with Some g => g | None => {| thread := new_thread 3 mm3; tokens := [] |} end.
Definition example_end : option Boundary * option Priority * ThreadState :=
  match @end_slice plain_reset (thread example_guest) false with
  | Ok r => r | _ => (None, None, new_thread 3 mm3) end.

Lemma guest_boundaries_accepted_witness :
  @system_run plain_reset no_guests example_system_calls = Ok example_system
  /\ guests example_system !! 3 = Some example_guest
  /\ @end_slice plain_reset (thread example_guest) false = Ok example_end
  /\ exists b s', example_end.1.1 = Some b
    /\ Registry.validate_boundary (registry example_system) 3 (mm_id (thread example_guest)) b = Ok tt
    /\ @system_step plain_reset example_system (SEnd 3 false) = Ok s'
    /\ stream s' = stream example_system ++ [TimesliceEnd b]
    /\ try_from (borrowed (stream s')) = Ok {| records := stream s' |}.
Proof.
  assert (H1 : @system_run plain_reset no_guests example_system_calls = Ok example_system) by (vm_compute; reflexivity).
  assert (H2 : guests example_system !! 3 = Some example_guest) by (vm_compute; reflexivity).
  assert (H3 : @end_slice plain_reset (thread example_guest) false = Ok example_end) by (vm_compute; reflexivity).
  split; [exact H1|]. split; [exact H2|]. split; [exact H3|].
  exact (@guest_boundaries_accepted plain_reset _ _ _ _ _ _ H1 H2 H3).
Defined.

(** ** A replay that also records *)

Definition boundary_owners_before : Registry.Registry :=
  match life_run (Registry.empty, []) (take 3 example_life) with Ok (r, _) => r | _ => Registry.empty end.
Definition example_controller : Controller Z :=
  {| boundary_owners := Some boundary_owners_before;
     preemption_writer := Some (Some [Event (cpuid_event 3)]);
     recorded_event_count := 1; stacktrace_events := None; replayer := None;
     boundary_replayer := Some {| BoundaryReplayer.br_schedule := {| records := example_stream |};
                                  BoundaryReplayer.br_next := 1 |};
     boundary_stacktrace_events := ∅; boundary_budgets := Mailbox.empty; thread_mms := {[3 := mm3; 5 := mm3]};
     run_queue := example_queue; priorities := [(3, REPLAY_FOREGROUND_PRIORITY); (5, REPLAY_DEFERRED_PRIORITY)];
     timeslices := ∅; replay_prehook_callers := ∅; replay_priorities_released := false;
     replay_exhausted_allowance := 0; replay_exhausted_at := None;
     record_logical_replay_priorities := true |}.
Lemma example_dispatch : dispatch_ok [] (dispatch_size example_controller) example_controller.
Proof.
  split; [exact example_ok|reflexivity| |].
  - vm_compute. done.
  - cbn. apply bt_ok_cons. split; [apply bt_ok_cons; split; [apply bt_ok_nil|constructor]|].
    constructor; [reflexivity|constructor].
Qed.
Lemma boundary_accepted_or_unchanged_witness :
  exists res c', @accept_slice_boundary release Z example_controller 3 mm3 boundary_a = Done (res, c')
    /\ match res with
       | Err _ => c' = example_controller
       | Ok _ => accepted example_controller c' boundary_a
           /\ exists o, boundary_owners example_controller = Some o
              /\ Registry.validate_boundary o 3 mm3 boundary_a = Ok tt
       | Crash _ => False
       end.
Proof.
  apply (@boundary_accepted_or_unchanged release Z [] example_controller 3 mm3 boundary_a
           example_dispatch eq_refl).
Defined.
(** That call is accepted, and hands the foreground to thread 5. *)
Lemma example_accepted :
  match @accept_slice_boundary release Z example_controller 3 mm3 boundary_a with
  | Done (Ok None, c') => bt_get 5 (priorities c') = Some REPLAY_FOREGROUND_PRIORITY
  | _ => False
  end.
Proof. vm_compute. reflexivity. Qed.

(** ** The mailbox *)

Definition example_budget : Budget := {| stored_index := 1; budget_expected := identity boundary_a |}.
Definition example_mail : list mail_call :=
  [MQueue mm3 example_budget; MFinish 3 mm3 true false; MRetire 3 mm3'; MCommit 3; MFinish 3 mm3 true false;
   MFinish 3 mm3 true false].
Definition example_log : list delivery := [(3, mm3, example_budget)].
Lemma budgets_reach_their_image_witness :
  mail_run (Mailbox.empty, []) example_mail = Ok (Mailbox.empty, example_log)
  /\ (forall t mm b, (t, mm, b) ∈ example_log ->
     for_image t mm b
     /\ exists before between after,
          example_mail = before ++ MQueue mm b :: between ++ MFinish t mm true false :: after
          /\ MCommit t ∈ between)
  /\ forall t, (delivered_count t example_log <= queue_count t example_mail)%nat.
Proof.
  assert (H : mail_run (Mailbox.empty, []) example_mail = Ok (Mailbox.empty, example_log)) by (vm_compute; reflexivity).
  split; [exact H|]. exact (budgets_reach_their_image _ _ _ H).
Defined.
