(* ===== verification/LseInsn.v ===== *)
(** The subset of A64 the exclusive-loop rewriter decodes and the instructions
    it emits (detcore/src/aarch64_lse/insn.rs).

    An instruction word is a [Z] in the range of [u32].  [decode] is total: a
    word outside the subset is [Other].  The tests and masks are those of the
    code, in its order; a left shift of a [u32] is [shl32], which drops the bits
    shifted out. *)
From S2P Require Import Prelude.
From stdpp Require Import base list.
Open Scope Z_scope.

Module LseInsn.

Abbreviation Reg := Z.
Definition ZR : Reg := 31.

(** [x << n] and [x >> n] on a [u32] *)
Definition shl32 (x n : Z) : Z := wrap_u 32 (Z.shiftl x n).
Definition shr (x n : Z) : Z := Z.shiftr x n.

Inductive Size := SizeB | SizeH | SizeW | SizeX.
#[global] Instance Size_eq_dec : EqDecision Size.
Proof. solve_decision. Defined.

(** The discriminants of [Size]. *)
Definition size_code (s : Size) : Z :=
  match s with SizeB => 0 | SizeH => 1 | SizeW => 2 | SizeX => 3 end.
Definition size_from_bits (bits : Z) : Size :=
  match bits with 0 => SizeB | 1 => SizeH | 2 => SizeW | _ => SizeX end.
Definition is_64 (s : Size) : bool := match s with SizeX => true | _ => false end.

Record Ordering := MkOrdering { acquire : bool; release : bool }.
#[global] Instance Ordering_eq_dec : EqDecision Ordering.
Proof. solve_decision. Defined.

Inductive AluOp := OpAdd | OpSub | OpAnd | OpOrr | OpEor | OpBic.
#[global] Instance AluOp_eq_dec : EqDecision AluOp.
Proof. solve_decision. Defined.

Inductive Operand := OperandReg (r : Reg) | OperandImm (k : Z).
#[global] Instance Operand_eq_dec : EqDecision Operand.
Proof. solve_decision. Defined.

Inductive Insn :=
  | LoadExcl (size : Size) (ord : Ordering) (rt rn : Reg)
  | StoreExcl (size : Size) (ord : Ordering) (rs rt rn : Reg)
  | ExclPair
  | Alu (op : AluOp) (sf : bool) (rd rn : Reg) (operand : Operand)
  | ZeroExtend (bits : Z) (rd rn : Reg)
  | Cmp (sf : bool) (rn : Reg) (operand : Operand)
  | CompareBranch (nonzero sf : bool) (rt : Reg) (offset : Z)
  | CompareAndBranch (offset : Z)
  | CondBranch (cond offset : Z)
  | Branch (link : bool) (offset : Z)
  | TestBranch (offset : Z)
  | Clrex
  | Nop
  | Other.
#[global] Instance Insn_eq_dec : EqDecision Insn.
Proof. solve_decision. Defined.

(** [((value as i64) << shift) >> shift] *)
Definition sign_extend (value bits : Z) : Z :=
  let shift := 64 - bits in
  Z.shiftr (wrap_i 64 (Z.shiftl value shift)) shift.

Definition NOP : Z := 0xd503201f.
Definition CLREX : Z := 0xd5033f5f.

(** The classes [decode] tells apart, in its order. *)
Definition decode_exclusive (word : Z) : Insn :=
  let size := size_from_bits (shr word 30) in
  let load := Z.land (shr word 22) 1 =? 1 in
  let pair := Z.land (shr word 21) 1 =? 1 in
  let rs := Z.land (shr word 16) 0x1f in
  let o0 := Z.land (shr word 15) 1 =? 1 in
  let rt2 := Z.land (shr word 10) 0x1f in
  let rn := Z.land (shr word 5) 0x1f in
  let rt := Z.land word 0x1f in
  if pair then match size with SizeB | SizeH => Other | _ => ExclPair end
  else if negb (rt2 =? ZR) then Other
  else if load then
    if negb (rs =? ZR) then Other else LoadExcl size (MkOrdering o0 false) rt rn
  else StoreExcl size (MkOrdering false o0) rs rt rn.

Definition decode_add_sub_imm (word : Z) : Insn :=
  let sf := shr word 31 =? 1 in
  let sub := Z.land (shr word 30) 1 =? 1 in
  let set_flags := Z.land (shr word 29) 1 =? 1 in
  let shift12 := Z.land (shr word 22) 1 =? 1 in
  let imm := Z.land (shr word 10) 0xfff in
  let rn := Z.land (shr word 5) 0x1f in
  let rd := Z.land word 0x1f in
  let imm := if shift12 then shl32 imm 12 else imm in
  if set_flags then
    if sub && (rd =? ZR) && negb shift12 then Cmp sf rn (OperandImm imm) else Other
  else if rd =? ZR then Other
  else Alu (if sub then OpSub else OpAdd) sf rd rn (OperandImm imm).

Definition decode_add_sub_reg (word : Z) : Insn :=
  let sf := shr word 31 =? 1 in
  let sub := Z.land (shr word 30) 1 =? 1 in
  let set_flags := Z.land (shr word 29) 1 =? 1 in
  let shift := Z.land (shr word 22) 3 in
  let rm := Z.land (shr word 16) 0x1f in
  let imm6 := Z.land (shr word 10) 0x3f in
  let rn := Z.land (shr word 5) 0x1f in
  let rd := Z.land word 0x1f in
  if negb (shift =? 0) || negb (imm6 =? 0) then Other
  else if set_flags then
    if sub && (rd =? ZR) then Cmp sf rn (OperandReg rm) else Other
  else if rd =? ZR then Other
  else Alu (if sub then OpSub else OpAdd) sf rd rn (OperandReg rm).

Definition decode_logical (word : Z) : Insn :=
  let sf := shr word 31 =? 1 in
  let opc := Z.land (shr word 29) 3 in
  let shift := Z.land (shr word 22) 3 in
  let negate := Z.land (shr word 21) 1 =? 1 in
  let rm := Z.land (shr word 16) 0x1f in
  let imm6 := Z.land (shr word 10) 0x3f in
  let rn := Z.land (shr word 5) 0x1f in
  let rd := Z.land word 0x1f in
  if negb (shift =? 0) || negb (imm6 =? 0) || (rd =? ZR) then Other
  else match opc, negate with
       | 0, false => Alu OpAnd sf rd rn (OperandReg rm)
       | 0, true => Alu OpBic sf rd rn (OperandReg rm)
       | 1, false => Alu OpOrr sf rd rn (OperandReg rm)
       | 2, false => Alu OpEor sf rd rn (OperandReg rm)
       | _, _ => Other
       end.

Definition decode_bitfield (word : Z) : Insn :=
  let imms := Z.land (shr word 10) 0x3f in
  let immr := Z.land (shr word 16) 0x3f in
  let rn := Z.land (shr word 5) 0x1f in
  let rd := Z.land word 0x1f in
  if (immr =? 0) && ((imms =? 7) || (imms =? 15)) then ZeroExtend (imms + 1) rd rn
  else Other.

Definition decode (word : Z) : Insn :=
  if (Z.land (shr word 24) 0x3f =? 0x08) && (Z.land (shr word 23) 1 =? 0)
  then decode_exclusive word
  else if word =? NOP then Nop
  else if word =? CLREX then Clrex
  else if Z.land (shr word 23) 0x3f =? 0x22 then decode_add_sub_imm word
  else if (Z.land (shr word 24) 0x1f =? 0x0b) && (Z.land (shr word 21) 1 =? 0)
  then decode_add_sub_reg word
  else if Z.land (shr word 24) 0x1f =? 0x0a then decode_logical word
  else if Z.land (shr word 22) 0x3ff =? 0x14c then decode_bitfield word
  else if Z.land (shr word 25) 0x3f =? 0x1a then
    CompareBranch (Z.land (shr word 24) 1 =? 1) (shr word 31 =? 1) (Z.land word 0x1f)
      (sign_extend (Z.land (shr word 5) 0x7ffff) 19 * 4)
  else if Z.land (shr word 25) 0x3f =? 0x1b then
    TestBranch (sign_extend (Z.land (shr word 5) 0x3fff) 14 * 4)
  else if Z.land (shr word 24) 0xff =? 0x54 then
    CondBranch (Z.land word 0xf) (sign_extend (Z.land (shr word 5) 0x7ffff) 19 * 4)
  else if (Z.land (shr word 24) 0x7e =? 0x74) &&
          negb ((Z.land (shr word 24) 0x7f =? 0x74) && (Z.land (shr word 14) 0x3 =? 1)) then
    CompareAndBranch (sign_extend (Z.land (shr word 5) 0x1ff) 9 * 4)
  else if Z.land (shr word 26) 0x1f =? 0x05 then
    Branch (shr word 31 =? 1) (sign_extend (Z.land word 0x03ffffff) 26 * 4)
  else Other.

(** The encoders; [|] is [Z.lor], associated to the left as in the code. *)
Definition sf_bit (sf : bool) : Z := if sf then shl32 1 31 else 0.

Infix "|||" := Z.lor (at level 50, left associativity) : Z_scope.

Definition mov_reg (sf : bool) (rd rm : Reg) : Z :=
  sf_bit sf ||| 0x2a0003e0 ||| shl32 rm 16 ||| rd.
Definition movz_shifted (sf : bool) (rd : Reg) (imm16 hw : Z) : Z :=
  sf_bit sf ||| 0x52800000 ||| shl32 hw 21 ||| shl32 imm16 5 ||| rd.
Definition movz (sf : bool) (rd : Reg) (imm16 : Z) : Z := movz_shifted sf rd imm16 0.

(** The test of one iteration of [movz_for]'s loop, [value] a [u64]. *)
Definition movz_window (value hw : Z) : bool :=
  let shift := 16 * hw in
  (wrap_u 64 (Z.shiftl (shr value shift) shift) =? value) && (shr value shift <=? 0xffff).
Definition movz_for (sf : bool) (rd : Reg) (value : Z) : option Z :=
  hw ← head (filter (fun hw => movz_window value hw = true) (if sf then [0; 1; 2; 3] else [0; 1]));
  Some (movz_shifted sf rd (wrap_u 32 (shr value (16 * hw))) hw).

Definition movn (sf : bool) (rd : Reg) (imm16 : Z) : Z :=
  sf_bit sf ||| 0x12800000 ||| shl32 imm16 5 ||| rd.
Definition neg (sf : bool) (rd rm : Reg) : Z :=
  sf_bit sf ||| 0x4b0003e0 ||| shl32 rm 16 ||| rd.
Definition mvn (sf : bool) (rd rm : Reg) : Z :=
  sf_bit sf ||| 0x2a2003e0 ||| shl32 rm 16 ||| rd.

Inductive AtomicOp := AtomicAdd | AtomicClr | AtomicEor | AtomicSet | AtomicSwp.
#[global] Instance AtomicOp_eq_dec : EqDecision AtomicOp.
Proof. solve_decision. Defined.
Definition atomic_code (op : AtomicOp) : Z :=
  match op with
  | AtomicAdd => 0 | AtomicClr => 1 | AtomicEor => 2 | AtomicSet => 3 | AtomicSwp => 8
  end.

Definition atomic (op : AtomicOp) (size : Size) (ord : Ordering) (rs rt rn : Reg) : Z :=
  let '(o3, opc) := match op with AtomicSwp => (1, 0) | _ => (0, atomic_code op) end in
  shl32 (size_code size) 30 ||| shl32 0x38 24 ||| shl32 (Z.b2z (acquire ord)) 23
  ||| shl32 (Z.b2z (release ord)) 22 ||| shl32 1 21 ||| shl32 rs 16 ||| shl32 o3 15
  ||| shl32 opc 12 ||| shl32 rn 5 ||| rt.

Definition imm19 (offset : Z) : option Z :=
  if negb (Z.rem offset 4 =? 0) || negb ((- 2 ^ 20 <=? offset) && (offset <? 2 ^ 20)) then None
  else Some (Z.land (wrap_u 32 (Z.quot offset 4)) 0x7ffff).

Definition cond_branch (cond offset : Z) : option Z :=
  imm ← imm19 offset; Some (0x54000000 ||| shl32 imm 5 ||| cond).
Definition compare_branch (nonzero sf : bool) (rt : Reg) (offset : Z) : option Z :=
  imm ← imm19 offset;
  Some (sf_bit sf ||| 0x34000000 ||| shl32 (Z.b2z nonzero) 24 ||| shl32 imm 5 ||| rt).

Definition cas (size : Size) (ord : Ordering) (rs rt rn : Reg) : Z :=
  shl32 (size_code size) 30 ||| shl32 0x08 24 ||| shl32 1 23
  ||| shl32 (Z.b2z (acquire ord)) 22 ||| shl32 1 21 ||| shl32 rs 16
  ||| shl32 (Z.b2z (release ord)) 15 ||| shl32 0x1f 10 ||| shl32 rn 5 ||| rt.

End LseInsn.
