(* ===== verification/LseRewrite.v ===== *)
(** Planning and applying the in-place rewrite of load/store-exclusive retry
    loops (detcore/src/aarch64_lse/rewrite.rs).

    A code range is the list of its instruction words and the address [base] of
    the first one.  [HashSet<u64>] is a [gset Z].  Slice indexing is [get_at], so
    an index out of range is a panic of the model too.  The address arithmetic
    [base + 4 * index] wraps at 64 bits, as in a release build; a build with
    overflow checks panics on exactly the ranges that wrap, which the theorems
    exclude. *)
From S2P Require Import Prelude LseInsn.
From stdpp Require Import base gmap list strings.
Open Scope Z_scope.

Module LseRewrite.
Import LseInsn.

Inductive Idiom := Rmw | Swap | CasCompare | CasZero.
#[global] Instance Idiom_eq_dec : EqDecision Idiom.
Proof. solve_decision. Defined.
#[global] Instance Idiom_countable : Countable Idiom.
Proof.
  refine (inj_countable' (fun i => match i with Rmw => 0 | Swap => 1 | CasCompare => 2 | CasZero => 3 end%nat)
            (fun n => match n with 0 => Rmw | 1 => Swap | 2 => CasCompare | _ => CasZero end%nat) _).
  by intros [].
Defined.

Inductive Refusal :=
  | ExclusivePair
  | NoPairedLoad
  | Undecoded
  | NotCanonical
  | BranchIntoSequence
  | CompareExit
  | Registers (why : string)
  | UnsupportedOperation
  | BranchOutOfRange
  | Relocated
  | LiteralInsideSequence
  | AddressedData
  | NoMappingSymbols
  | UnsupportedMappingSymbol (name : string)
  | UnknownDirectBranch.

Record Site := MkSite { site_addr : Z; site_idiom : Idiom; site_words : list Z }.
Record RefusedSite := MkRefused { refused_addr : Z; refused_reason : Refusal }.
Record Report := MkReport {
  patched : list Site;
  refused : list RefusedSite;
  exclusive_instructions : nat }.
Definition Report_default : Report := MkReport [] [] 0.

(** [Vec::push] on the two lists and [+= 1] on the count *)
Definition push_patched (s : Site) (r : Report) : Report :=
  MkReport (patched r ++ [s]) (refused r) (exclusive_instructions r).
Definition push_refused (x : RefusedSite) (r : Report) : Report :=
  MkReport (patched r) (refused r ++ [x]) (exclusive_instructions r).
Definition count_exclusive (r : Report) : Report :=
  MkReport (patched r) (refused r) (S (exclusive_instructions r)).

Definition by_idiom (r : Report) : gmap Idiom nat :=
  foldl (fun counts site => <[site_idiom site := S (default 0%nat (counts !! site_idiom site))]> counts)
    ∅ (patched r).

Definition addr_of (base : Z) (index : nat) : Z := wrap_u 64 (base + 4 * Z.of_nat index).
(** [((addr - base) / 4) as usize] *)
Definition index_of (base addr : Z) : nat := Z.to_nat (wrap_u 64 (addr - base) / 4).

Definition insn_offset (i : Insn) : option Z :=
  match i with
  | Branch _ offset | CondBranch _ offset | CompareBranch _ _ _ offset
  | CompareAndBranch offset | TestBranch offset => Some offset
  | _ => None
  end.

(** [here.wrapping_add(offset as u64)] *)
Definition branch_target (base : Z) (index : nat) (offset : Z) : Z :=
  wrap_u 64 (addr_of base index + wrap_u 64 offset).
Definition direct_branches (decoded : list Insn) (base : Z) : list (nat * Z) :=
  omap (fun '(index, insn) =>
          offset ← insn_offset insn; Some (index, branch_target base index offset))
    (imap pair decoded).
Definition direct_branch_targets (words : list Z) (base : Z) : gset Z :=
  list_to_set (direct_branches (decode <$> words) base).*2.

Definition REQUIRE_FULLY_DECODED_RANGES : bool := false.

Definition unknown_direct_branch_possible (word : Z) : bool :=
  if negb (bool_decide (decode word = Other)) then false
  else if REQUIRE_FULLY_DECODED_RANGES then true
  else if shr word 16 =? 0 then false
  else
    let class := Z.land (shr word 25) 0xf in
    if (class =? 2) || ((4 <=? class) && (class <=? 7)) || (class =? 8) || (class =? 9)
       || ((12 <=? class) && (class <=? 15)) then false
    else if (class =? 10) || (class =? 11) then
      let sub := Z.land (shr word 21) 0xf in
      negb ((Z.land (shr word 24) 0xff =? 0xd4)
            || (Z.land (shr word 24) 0xff =? 0xd5)
            || ((Z.land (shr word 25) 0x7f =? 0x6b)
                && ((sub =? 0) || (sub =? 1) || (sub =? 2) || (sub =? 4) || (sub =? 5))))
    else true.

Definition swap (size : Size) (ord : Ordering) (rs rt rv rn : Reg) (zero_status : Z)
  : result Refusal (list Z) :=
  if rt =? ZR then Err (Registers "the loaded value is discarded")
  else if rv =? rt then Err (Registers "the stored register is the load destination")
  else Ok [atomic AtomicSwp size ord rv rt rn; zero_status; NOP].

Definition cas_zero (size : Size) (ord : Ordering) (rt rv rn : Reg) (sf : bool)
  (branch_offset zero_status : Z) : result Refusal (list Z) :=
  if (rt =? ZR) || (rv =? rt)
  then Err (Registers "the load destination must carry the expected value")
  else branch ← ok_or (compare_branch true sf rt (branch_offset - 4)) BranchOutOfRange;
       Ok [mov_reg sf rt ZR; cas size ord rt rv rn; branch; zero_status].

(** The word that leaves the atomic's operand in the status register, and the
    atomic operation. *)
Definition materialise (op : AluOp) (operand : Operand) (sf : bool) (rs : Reg)
  : result Refusal (Z * AtomicOp) :=
  match op, operand with
  | OpAdd, OperandReg rm => Ok (mov_reg sf rs rm, AtomicAdd)
  | OpAdd, OperandImm k => w ← ok_or (movz_for sf rs k) UnsupportedOperation; Ok (w, AtomicAdd)
  | OpSub, OperandReg rm => Ok (neg sf rs rm, AtomicAdd)
  | OpSub, OperandImm k =>
      if (1 <=? k) && (k <=? 0x10000) then Ok (movn sf rs (k - 1), AtomicAdd)
      else Err UnsupportedOperation
  | OpOrr, OperandReg rm => Ok (mov_reg sf rs rm, AtomicSet)
  | OpEor, OperandReg rm => Ok (mov_reg sf rs rm, AtomicEor)
  | OpBic, OperandReg rm => Ok (mov_reg sf rs rm, AtomicClr)
  | OpAnd, OperandReg rm => Ok (mvn sf rs rm, AtomicClr)
  | _, _ => Err UnsupportedOperation
  end.

Definition rmw (alu : Insn) (alu_word : Z) (size : Size) (ord : Ordering)
  (rs rt rv rn : Reg) (sf : bool) (zero_status : Z) : result Refusal (list Z) :=
  match alu with
  | Alu op alu_sf rd alu_rn operand =>
      if negb (rd =? rv) || negb (alu_rn =? rt) || negb (eqb alu_sf sf) then Err NotCanonical
      else if rt =? ZR then Err (Registers "the loaded value is discarded")
      else if rs =? rt then Err (Registers "the status register is the load destination")
      else
        _ ← match operand with
            | OperandReg rm =>
                if rm =? rs then Err (Registers "the second operand is the status register")
                else if rm =? rt then Err (Registers "the second operand is the loaded value")
                else Ok tt
            | OperandImm _ => Ok tt
            end;
        '(m, atomic_op) ← materialise op operand sf rs;
        Ok [m; atomic atomic_op size ord rs rt rn; alu_word; zero_status]
  | _ => Err NotCanonical
  end.

Definition width_limit (size : Size) : Z :=
  match size with SizeB => shl32 1 8 | SizeH => shl32 1 16 | _ => u32_max end.

(** Whether [before] zero-extends [rm] to the access width. *)
Definition extends_to (before : option Insn) (size : Size) (rm : Reg) : bool :=
  match before with
  | Some (ZeroExtend bits rd _) =>
      (rd =? rm) && (bits =? match size with SizeB => 8 | _ => 16 end)
  | _ => false
  end.

Definition cas_compare (cmp branch : Insn) (cmp_word : Z) (size : Size) (ord : Ordering)
  (rt rv rn : Reg) (sf : bool) (zero_status : Z) (before : option Insn)
  : result Refusal (list Z) :=
  match cmp with
  | Cmp cmp_sf cmp_rn operand =>
      match branch with
      | CondBranch cond offset =>
          if negb (cond =? 1) then Err NotCanonical
          else
            branch_word ← ok_or (cond_branch 1 (offset - 4)) BranchOutOfRange;
            if negb (cmp_rn =? rt) || negb (eqb cmp_sf sf) then Err NotCanonical
            else if (rt =? ZR) || (rv =? rt)
            then Err (Registers "the load destination must carry the expected value")
            else
              expected ← match operand with
                         | OperandReg rm =>
                             if rm =? rt then Err (Registers "the compared value is the loaded value")
                             else if negb (match size with SizeW | SizeX => true | _ => false end)
                                     && negb (extends_to before size rm)
                             then Err (Registers "a sub-word compare against a register")
                             else Ok (mov_reg sf rt rm)
                         | OperandImm k =>
                             if width_limit size <=? k
                             then Err (Registers "the compared immediate exceeds the access width")
                             else Ok (movz sf rt k)
                         end;
              Ok [expected; cas size ord rt rv rn; cmp_word; branch_word; zero_status]
      | _ => Err NotCanonical
      end
  | _ => Err NotCanonical
  end.

(** [match_sequence]'s choice of idiom, from the distance of the store from the
    load and the instructions between them. *)
Definition match_idiom (words : list Z) (decoded : list Insn) (start store : nat)
  (size : Size) (ord : Ordering) (rs rt rv rn : Reg) (entered_from_outside : bool)
  : result Refusal (Idiom * list Z) :=
  let sf := is_64 size in
  let zero_status := mov_reg false rs ZR in
  next ← lift (get_at decoded (start + 1));
  match (store - start)%nat, next with
  | 1%nat, _ => ws ← swap size ord rs rt rv rn zero_status; Ok (Swap, ws)
  | 2%nat, Alu _ _ _ _ _ =>
      alu_word ← lift (get_at words (start + 1));
      ws ← rmw next alu_word size ord rs rt rv rn sf zero_status;
      Ok (Rmw, ws)
  | 2%nat, CompareBranch true branch_sf branch_rt branch_offset =>
      if (branch_rt =? rt) && eqb branch_sf sf then
        ws ← cas_zero size ord rt rv rn sf branch_offset zero_status;
        Ok (CasZero, ws)
      else Err NotCanonical
  | 3%nat, cmp =>
      branch ← lift (get_at decoded (start + 2));
      cmp_word ← lift (get_at words (start + 1));
      before ← (if entered_from_outside then Ok None
                else match start with
                     | O => Ok None
                     | S i => b ← lift (get_at decoded i); Ok (Some b)
                     end);
      ws ← cas_compare cmp branch cmp_word size ord rt rv rn sf zero_status before;
      Ok (CasCompare, ws)
  | _, _ => Err NotCanonical
  end.

Definition match_sequence (words : list Z) (decoded : list Insn) (store : nat) (base : Z)
  (branches : list (nat * Z)) (external_targets known_entries : gset Z)
  : result Refusal Site :=
  at_store ← lift (get_at decoded store);
  match at_store with
  | StoreExcl size store_ord rs rv rn =>
      let close := (store + 1)%nat in
      let '(closes_loop, back) :=
        match decoded !! close with
        | Some (CompareBranch true false rt offset) =>
            if rt =? rs then (true, offset) else (false, 0)
        | _ => (false, 0)
        end in
      if negb closes_loop then Err NotCanonical
      else
        let start_isize := Z.of_nat close + Z.quot back 4 in
        if (start_isize <? 0) || (Z.of_nat store <=? start_isize) then Err NotCanonical
        else
          let start := Z.to_nat start_isize in
          at_start ← lift (get_at decoded start);
          '(load_size, load_ord, rt) ←
            match at_start with
            | LoadExcl load_size ord rt load_rn =>
                if load_rn =? rn then Ok (load_size, ord, rt) else Err NotCanonical
            | _ => Err NoPairedLoad
            end;
          if negb (bool_decide (load_size = size)) then Err NotCanonical
          else if bool_decide (Other ∈ take (store - (start + 1)) (drop (start + 1) decoded))
          then Err Undecoded
          else if (rs =? ZR) || (rs =? rn) || (rs =? rv)
          then Err (Registers "the status register is not free")
          else if (rt =? rn) || (rv =? rn)
          then Err (Registers "a value register is the base register")
          else if rn =? ZR
          then Err (Registers "the stack pointer is the base register")
          else
            let ord := MkOrdering (acquire load_ord) (LseInsn.release store_ord) in
            let head := addr_of base start in
            let entered_from_outside :=
              bool_decide (head ∈ external_targets) || bool_decide (head ∈ known_entries)
              || existsb (fun '(index, target) =>
                            (target =? head) && ((index <? start)%nat || (close <? index)%nat))
                   branches in
            '(idiom, ws) ← match_idiom words decoded start store size ord rs rt rv rn
                             entered_from_outside;
            Ok (MkSite head idiom ws)
  | _ => Crash PExplicit
  end.

(** What [plan_section] keeps fixed over its loop. *)
Record section := MkSection {
  sec_words : list Z;
  sec_base : Z;
  sec_external : gset Z;
  sec_known : gset Z }.
Definition sec_decoded (c : section) : list Insn := decode <$> sec_words c.
Definition sec_branches (c : section) : list (nat * Z) :=
  direct_branches (sec_decoded c) (sec_base c).
Definition sec_targets (c : section) : gset Z :=
  list_to_set (sec_branches c).*2 ∪ sec_external c.

(** Whether a branch or a known entry reaches an instruction of the [len] ones
    from [start] other than the first. *)
Definition interior_entered (c : section) (start len : nat) : bool :=
  existsb (fun i => bool_decide (addr_of (sec_base c) i ∈ sec_targets c)
                    || bool_decide (addr_of (sec_base c) i ∈ sec_known c))
    (seq (start + 1) (len - 1)).

Definition is_compare (i : Idiom) : bool :=
  match i with CasCompare | CasZero => true | _ => false end.

(** One iteration of [plan_section]'s loop. *)
Definition plan_step (c : section) (r : Report) (index : nat) (insn : Insn) : outcome Report :=
  let here := addr_of (sec_base c) index in
  match insn with
  | ExclPair =>
      let r := count_exclusive r in
      word ← get_at (sec_words c) index;
      Done (if Z.land (shr word 22) 1 =? 0
            then push_refused (MkRefused here ExclusivePair) r else r)
  | LoadExcl _ _ _ _ => Done (count_exclusive r)
  | StoreExcl _ _ _ _ _ =>
      let r := count_exclusive r in
      match match_sequence (sec_words c) (sec_decoded c) index (sec_base c) (sec_branches c)
              (sec_external c) (sec_known c) with
      | Ok site =>
          let start := index_of (sec_base c) (site_addr site) in
          Done (if interior_entered c start (length (site_words site))
                then push_refused (MkRefused here BranchIntoSequence) r
                else if is_compare (site_idiom site)
                then push_refused (MkRefused here CompareExit) r
                else push_patched site r)
      | Err reason => Done (push_refused (MkRefused here reason) r)
      | Crash p => Panic p
      end
  | _ => Done r
  end.

Fixpoint plan_loop (c : section) (r : Report) (index : nat) (rest : list Insn)
  : outcome Report :=
  match rest with
  | [] => Done r
  | insn :: rest => r ← plan_step c r index insn; plan_loop c r (S index) rest
  end.

Definition plan_section (words : list Z) (base : Z) (external_targets known_entries : gset Z)
  : outcome Report :=
  let c := MkSection words base external_targets known_entries in
  plan_loop c Report_default 0 (sec_decoded c).

Definition refuse_patched (r : Report) (reason : Refusal) : Report :=
  MkReport [] (refused r ++ ((fun s => MkRefused (site_addr s) reason) <$> patched r))
    (exclusive_instructions r).

Definition plan_with_external_store (words : list Z) (base : Z)
  (external_targets known_entries : gset Z) (_external_store_exclusive : bool)
  : outcome Report :=
  report ← plan_section words base external_targets known_entries;
  Done (if existsb unknown_direct_branch_possible words
        then refuse_patched report UnknownDirectBranch else report).
Definition plan_with_entries (words : list Z) (base : Z) (external_targets known_entries : gset Z)
  : outcome Report :=
  plan_with_external_store words base external_targets known_entries false.
Definition plan_with_external_targets (words : list Z) (base : Z) (external_targets : gset Z)
  : outcome Report :=
  plan_with_entries words base external_targets ∅.
Definition plan (words : list Z) (base : Z) : outcome Report :=
  plan_with_entries words base ∅ ∅.

(** [words[index..index + new.len()].copy_from_slice(new)] *)
Definition copy_into (words : list Z) (index : nat) (new : list Z) : outcome (list Z) :=
  if (index + length new <=? length words)%nat
  then Done (take index words ++ new ++ drop (index + length new) words)
  else Panic PIndex.
Fixpoint apply_sites (words : list Z) (base : Z) (sites : list Site) : outcome (list Z) :=
  match sites with
  | [] => Done words
  | site :: sites =>
      words ← copy_into words (index_of base (site_addr site)) (site_words site);
      apply_sites words base sites
  end.
Definition apply (words : list Z) (base : Z) (report : Report) : outcome (list Z) :=
  apply_sites words base (patched report).

End LseRewrite.
