(* ===== verification/LseArm.v ===== *)
(** The A64 instructions of a rewritten sequence, as the Arm Architecture
    Reference Manual (DDI 0487, C6.2) specifies them: their encodings and what
    they do to a thread's registers, its program counter and memory.  This is
    what the rewriter of [LseRewrite] is verified against; it is a specification,
    not a translation of code.

    Memory is a map from addresses to bytes that other threads may change between
    any two instructions.  Whether a store-exclusive succeeds is not determined
    by the state: both outcomes are steps of the machine.  The acquire and release
    bits are decoded and kept, and have no effect on a single thread's state.
    The state the sequences do not touch (condition flags, vector and system
    registers, the stack pointer) is a parameter [M]. *)
From S2P Require Import Prelude LseInsn.
From stdpp Require Import base gmap list.
Open Scope Z_scope.

Module LseArm.
Import LseInsn.

(** * Encodings *)

(** Bits [lo .. lo + n - 1] of a word. *)
Definition bits (w lo n : Z) : Z := (w / 2 ^ lo) mod 2 ^ n.
Definition bit (w lo : Z) : bool := bits w lo 1 =? 1.

Inductive arm_insn :=
  | ArmLdxr (size : Size) (acq : bool) (rt rn : Reg)
  | ArmStxr (size : Size) (rel : bool) (rs rt rn : Reg)
  | ArmAddSubImm (sub sf : bool) (rd rn : Reg) (imm : Z)
  | ArmAddSubReg (sub sf : bool) (rd rn rm : Reg)
  | ArmLogical (opc : Z) (negate sf : bool) (rd rn rm : Reg)
  | ArmMovWide (keep sf : bool) (rd : Reg) (imm16 hw : Z)  (* MOVZ, MOVN *)
  | ArmCbz (nonzero sf : bool) (rt : Reg) (offset : Z)
  | ArmAtomic (op : AtomicOp) (size : Size) (acq rel : bool) (rs rt rn : Reg)
  | ArmNop.

(** The two's complement value of an [n]-bit field. *)
Definition signed (n x : Z) : Z := if x <? 2 ^ (n - 1) then x else x - 2 ^ n.

Definition arm_size (w : Z) : Size := size_from_bits (bits w 30 2).

(** LDXR, LDAXR, STXR and STLXR: size 001000 0 L 0 Rs o0 11111 Rn Rt. *)
Definition arm_exclusive (w : Z) : option arm_insn :=
  if bit w 21 || negb (bits w 10 5 =? 31) || (bits w 5 5 =? 31) then None
  else if bit w 22 then
    if bits w 16 5 =? 31
    then Some (ArmLdxr (arm_size w) (bit w 15) (bits w 0 5) (bits w 5 5)) else None
  else Some (ArmStxr (arm_size w) (bit w 15) (bits w 16 5) (bits w 0 5) (bits w 5 5)).
(** ADD and SUB (immediate): sf op 0 100010 sh imm12 Rn Rd. *)
Definition arm_add_sub_imm (w : Z) : option arm_insn :=
  if bit w 29 || (bits w 5 5 =? 31) || (bits w 0 5 =? 31) then None
  else Some (ArmAddSubImm (bit w 30) (bit w 31) (bits w 0 5) (bits w 5 5)
               (if bit w 22 then bits w 10 12 * 2 ^ 12 else bits w 10 12)).
(** ADD and SUB (shifted register) with no shift: sf op 0 01011 00 0 Rm 000000 Rn Rd. *)
Definition arm_add_sub_reg (w : Z) : option arm_insn :=
  if bit w 29 || negb (bits w 22 2 =? 0) || negb (bits w 10 6 =? 0) then None
  else Some (ArmAddSubReg (bit w 30) (bit w 31) (bits w 0 5) (bits w 5 5) (bits w 16 5)).
(** AND, BIC, ORR, ORN, EOR and EON (shifted register) with no shift:
    sf opc 01010 00 N Rm 000000 Rn Rd. *)
Definition arm_logical (w : Z) : option arm_insn :=
  if (bits w 29 2 =? 3) || negb (bits w 22 2 =? 0) || negb (bits w 10 6 =? 0) then None
  else Some (ArmLogical (bits w 29 2) (bit w 21) (bit w 31) (bits w 0 5) (bits w 5 5) (bits w 16 5)).
(** MOVN and MOVZ: sf 00/10 100101 hw imm16 Rd; a 32-bit one has hw 0 or 1. *)
Definition arm_mov_wide (w : Z) : option arm_insn :=
  if bit w 29 || (negb (bit w 31) && (2 <=? bits w 21 2)) then None
  else Some (ArmMovWide (bit w 30) (bit w 31) (bits w 0 5) (bits w 5 16) (bits w 21 2)).
(** LDADD, LDCLR, LDEOR, LDSET and SWP: size 111000 A R 1 Rs o3 opc 00 Rn Rt. *)
Definition arm_atomic_op (o3 : bool) (opc : Z) : option AtomicOp :=
  match o3, opc with
  | false, 0 => Some AtomicAdd
  | false, 1 => Some AtomicClr
  | false, 2 => Some AtomicEor
  | false, 3 => Some AtomicSet
  | true, 0 => Some AtomicSwp
  | _, _ => None
  end.
Definition arm_atomic (w : Z) : option arm_insn :=
  if negb (bit w 21) || negb (bits w 10 2 =? 0) || (bits w 5 5 =? 31) then None
  else op ← arm_atomic_op (bit w 15) (bits w 12 3);
       Some (ArmAtomic op (arm_size w) (bit w 23) (bit w 22)
               (bits w 16 5) (bits w 0 5) (bits w 5 5)).

Definition arm_decode (w : Z) : option arm_insn :=
  if (bits w 24 6 =? 0x08) && negb (bit w 23) then arm_exclusive w
  else if w =? 0xd503201f then Some ArmNop
  else if bits w 23 6 =? 0x22 then arm_add_sub_imm w
  else if (bits w 24 5 =? 0x0b) && negb (bit w 21) then arm_add_sub_reg w
  else if bits w 24 5 =? 0x0a then arm_logical w
  else if bits w 25 6 =? 0x1a then
    Some (ArmCbz (bit w 24) (bit w 31) (bits w 0 5) (4 * signed 19 (bits w 5 19)))
  else if bits w 23 6 =? 0x25 then arm_mov_wide w
  else if bits w 24 6 =? 0x38 then arm_atomic w
  else None.

(** * Execution *)

Record state (M : Type) := MkState {
  regs : gmap Z Z;      (* X0 .. X30 *)
  pc : Z;
  mem : Z -> Z;         (* bytes *)
  misc : M }.
Arguments MkState {M}. Arguments regs {M}. Arguments pc {M}. Arguments mem {M}. Arguments misc {M}.

Definition reg_width (sf : bool) : Z := if sf then 64 else 32.
(** Register 31 reads as zero and is never written. *)
Definition get_reg (sf : bool) (r : Reg) (g : gmap Z Z) : Z :=
  if r =? 31 then 0 else wrap_u (reg_width sf) (default 0 (g !! r)).
(** A 32-bit write clears the upper half. *)
Definition set_reg (sf : bool) (r : Reg) (v : Z) (g : gmap Z Z) : gmap Z Z :=
  if r =? 31 then g else <[r := wrap_u (reg_width sf) v]> g.

Definition size_bytes (s : Size) : nat :=
  match s with SizeB => 1 | SizeH => 2 | SizeW => 4 | SizeX => 8 end%nat.
Definition size_bits (s : Size) : Z :=
  match s with SizeB => 8 | SizeH => 16 | SizeW => 32 | SizeX => 64 end.
Definition load (s : Size) (a : Z) (m : Z -> Z) : Z :=
  from_le_bytes ((fun i => wrap_u 8 (m (wrap_u 64 (a + Z.of_nat i)))) <$> seq 0 (size_bytes s)).
Definition store (s : Size) (a v : Z) (m : Z -> Z) : Z -> Z :=
  fun x => default (m x) (to_le_bytes (size_bytes s) v !! Z.to_nat (wrap_u 64 (x - a))).

Definition logical_result (opc : Z) (a b : Z) : Z :=
  match opc with 0 => Z.land a b | 1 => Z.lor a b | _ => Z.lxor a b end.
Definition add_sub_result (sub : bool) (a b : Z) : Z := if sub then a - b else a + b.
Definition atomic_result (op : AtomicOp) (old v : Z) : Z :=
  match op with
  | AtomicAdd => old + v
  | AtomicClr => Z.ldiff old v
  | AtomicEor => Z.lxor old v
  | AtomicSet => Z.lor old v
  | AtomicSwp => v
  end.

(** What an instruction that does not access memory or branch does to the
    registers. *)
Definition exec_regs (i : arm_insn) (g : gmap Z Z) : gmap Z Z :=
  match i with
  | ArmAddSubImm sub sf rd rn imm => set_reg sf rd (add_sub_result sub (get_reg sf rn g) imm) g
  | ArmAddSubReg sub sf rd rn rm =>
      set_reg sf rd (add_sub_result sub (get_reg sf rn g) (get_reg sf rm g)) g
  | ArmLogical opc negate sf rd rn rm =>
      let b := get_reg sf rm g in
      set_reg sf rd (logical_result opc (get_reg sf rn g) (if negate then Z.lnot b else b)) g
  | ArmMovWide keep sf rd imm16 hw =>
      let v := Z.shiftl imm16 (16 * hw) in
      set_reg sf rd (if keep then v else Z.lnot v) g
  | _ => g
  end.

Section exec.
Context {M : Type}.
Implicit Type s : state M.

Definition next_pc (a : Z) : Z := wrap_u 64 (a + 4).
Definition goto (g : gmap Z Z) (a : Z) (m : Z -> Z) s : state M := MkState g a m (misc s).

(** One instruction; [ok] is whether a store-exclusive succeeds. *)
Definition arm_exec (i : arm_insn) (ok : bool) s : state M :=
  let g := regs s in
  let next := next_pc (pc s) in
  match i with
  | ArmLdxr size _ rt rn =>
      goto (set_reg true rt (load size (get_reg true rn g) (mem s)) g) next (mem s) s
  | ArmStxr size _ rs rt rn =>
      if ok then
        goto (set_reg false rs 0 g) next
          (store size (get_reg true rn g) (wrap_u (size_bits size) (get_reg true rt g)) (mem s)) s
      else goto (set_reg false rs 1 g) next (mem s) s
  | ArmCbz nonzero sf rt offset =>
      let taken := xorb nonzero (get_reg sf rt g =? 0) in
      goto g (if taken then wrap_u 64 (pc s + offset) else next) (mem s) s
  | ArmAtomic op size _ _ rs rt rn =>
      let a := get_reg true rn g in
      let old := load size a (mem s) in
      let v := wrap_u (size_bits size) (get_reg true rs g) in
      goto (set_reg true rt old g) next
        (store size a (wrap_u (size_bits size) (atomic_result op old v)) (mem s)) s
  | _ => goto (exec_regs i g) next (mem s) s
  end.

(** * The machine: a code range in the thread's address space

    [other_step] is what a word of the range outside the instructions above
    does, and [ext_step] a step of code outside the range. *)
Context (other_step : Z -> state M -> state M -> Prop) (ext_step : state M -> state M -> Prop).

Definition fetch (code : list Z) (base a : Z) : option Z :=
  if (base <=? a) && ((a - base) mod 4 =? 0) then code !! Z.to_nat ((a - base) / 4) else None.

(** The instructions [code] runs from a state, one per outcome of [oks], or
    [None] where a word is not one of the reference instructions. *)
Fixpoint run (code : list Z) (base : Z) (oks : list bool) s : option (state M) :=
  match oks with
  | [] => Some s
  | ok :: oks =>
      w ← fetch code base (pc s); a ← arm_decode w; run code base oks (arm_exec a ok s)
  end.

Inductive step (code : list Z) (base : Z) : state M -> state M -> Prop :=
  | step_env s m : step code base s (goto (regs s) (pc s) m s)
  | step_arm s w i ok :
      fetch code base (pc s) = Some w -> arm_decode w = Some i ->
      step code base s (arm_exec i ok s)
  | step_other s s' w :
      fetch code base (pc s) = Some w -> arm_decode w = None -> other_step w s s' ->
      step code base s s'
  | step_ext s s' :
      fetch code base (pc s) = None -> ext_step s s' -> step code base s s'.

End exec.

End LseArm.
