(* ===== verification/LseArmProps.v ===== *)
(** The rewriter's decoder and encoders against the reference encodings of
    [LseArm]: [decode]'s instructions are the manual's, and each emitted word is
    the instruction its encoder is named after. *)
From S2P Require Import Prelude LseInsn LseRewrite LseArm.
From stdpp Require Import base gmap list.
From Stdlib Require Import Btauto.
Open Scope Z_scope.

Module LseArmProps.
Import LseInsn LseArm.

(** * Fields of words *)

Lemma bits_testbit w lo n i : 0 <= lo -> 0 <= n -> 0 <= i ->
  Z.testbit (bits w lo n) i = (i <? n) && Z.testbit w (i + lo).
Proof.
  intros Hlo Hn Hi. unfold bits. destruct (Z.ltb_spec i n) as [H|H].
  - rewrite Z.mod_pow2_bits_low, Z.div_pow2_bits by lia. done.
  - by rewrite Z.mod_pow2_bits_high by lia.
Qed.

Lemma bits_land w lo n : 0 <= lo -> 0 <= n -> Z.land (shr w lo) (2 ^ n - 1) = bits w lo n.
Proof.
  intros Hlo Hn. unfold bits, shr. rewrite <- Z.shiftr_div_pow2, <- Z.land_ones by lia.
  by rewrite Z.ones_equiv, <- Z.sub_1_r.
Qed.
Lemma bits_low w n : 0 <= n -> Z.land w (2 ^ n - 1) = bits w 0 n.
Proof. intros Hn. rewrite <- bits_land by lia. done. Qed.
Lemma bits_top w lo : 0 <= lo <= 32 -> is_u32 w -> shr w lo = bits w lo (32 - lo).
Proof.
  unfold is_u32, u32_max, bits, shr. intros Hlo Hw. rewrite Z.shiftr_div_pow2 by lia.
  symmetry. apply Z.mod_small. split; [apply Z.div_pos; lia|].
  apply Z.div_lt_upper_bound; [lia|]. rewrite <- Z.pow_add_r by lia.
  replace (lo + (32 - lo)) with 32 by lia. lia.
Qed.
Lemma bits_range w lo n : 0 <= n -> 0 <= bits w lo n < 2 ^ n.
Proof. intros. unfold bits. apply Z.mod_pos_bound. lia. Qed.
Lemma bits_bits w lo n lo' n' : 0 <= lo -> 0 <= lo' -> 0 <= n' -> lo' + n' <= n ->
  bits (bits w lo n) lo' n' = bits w (lo + lo') n'.
Proof.
  intros. apply Z.bits_inj'. intros i Hi. rewrite !bits_testbit by lia.
  destruct (Z.ltb_spec i n'); simpl; [|done].
  rewrite (proj2 (Z.ltb_lt _ _)) by lia. simpl. f_equal. lia.
Qed.
Lemma bits_lor a b lo n : 0 <= lo -> 0 <= n ->
  bits (a ||| b) lo n = bits a lo n ||| bits b lo n.
Proof.
  intros. apply Z.bits_inj'. intros i Hi. rewrite Z.lor_spec, !bits_testbit, Z.lor_spec by lia.
  by destruct (i <? n).
Qed.

(** A field [x] of [m] bits placed at bit [k]: seen from a field above it, below
    it, or around it. *)
Lemma testbit_above x m i : 0 <= x < 2 ^ m -> 0 <= m <= i -> Z.testbit x i = false.
Proof.
  intros Hx Hi. destruct (Z.eq_dec x 0) as [->|]; [by rewrite Z.testbit_0_l|].
  apply Z.bits_above_log2; [lia|]. apply Z.lt_le_trans with m; [|lia].
  apply Z.log2_lt_pow2; lia.
Qed.
Lemma shl32_small x k m : 0 <= k -> 0 <= m -> k + m <= 32 -> 0 <= x < 2 ^ m ->
  shl32 x k = Z.shiftl x k.
Proof.
  intros Hk Hm Hkm Hx. unfold shl32, wrap_u. apply Z.mod_small.
  rewrite Z.shiftl_mul_pow2 by lia. split; [nia|].
  apply Z.lt_le_trans with (2 ^ m * 2 ^ k); [nia|]. rewrite <- Z.pow_add_r by lia.
  apply Z.pow_le_mono_r; lia.
Qed.
Lemma bits_placed x k m lo n : 0 <= k -> 0 <= m -> 0 <= lo -> 0 <= n -> k + m <= 32 ->
  0 <= x < 2 ^ m ->
  bits (shl32 x k) lo n =
    if (k + m <=? lo) || (lo + n <=? k) then 0
    else if (lo <=? k) && (k + m <=? lo + n) then Z.shiftl x (k - lo)
    else bits (shl32 x k) lo n.
Proof.
  intros Hk Hm Hlo Hn Hkm Hx. rewrite !(shl32_small x k m) by lia.
  destruct (Z.leb_spec (k + m) lo) as [H1|H1]; simpl;
    [|destruct (Z.leb_spec (lo + n) k) as [H2|H2]; simpl;
      [|destruct (Z.leb_spec lo k) as [H3|H3]; simpl; [|done];
        destruct (Z.leb_spec (k + m) (lo + n)) as [H4|H4]; [|done]]];
    apply Z.bits_inj'; intros i Hi; rewrite bits_testbit, ?Z.testbit_0_l by lia;
    destruct (Z.ltb_spec i n) as [Hin|Hin]; simpl; try done.
  - rewrite Z.shiftl_spec by lia. apply (testbit_above x m); lia.
  - rewrite Z.shiftl_spec by lia. apply Z.testbit_neg_r. lia.
  - rewrite !Z.shiftl_spec by lia. f_equal. lia.
  - rewrite Z.shiftl_spec by lia. symmetry. apply (testbit_above x m); lia.
Qed.
Lemma bits_field0 x m lo n : 0 <= m -> 0 <= lo -> 0 <= n -> 0 <= x < 2 ^ m ->
  bits x lo n = if m <=? lo then 0 else if (lo =? 0) && (m <=? n) then x else bits x lo n.
Proof.
  intros Hm Hlo Hn Hx. destruct (Z.leb_spec m lo) as [H|H].
  - apply Z.bits_inj'. intros i Hi. rewrite bits_testbit, Z.testbit_0_l by lia.
    rewrite (testbit_above x m) by lia. by rewrite andb_false_r.
  - destruct (Z.eqb_spec lo 0) as [->|]; simpl; [|done].
    destruct (Z.leb_spec m n) as [H'|]; [|done]. unfold bits.
    rewrite Z.pow_0_r, Z.div_1_r. apply Z.mod_small. split; [lia|].
    apply Z.lt_le_trans with (2 ^ m); [lia|]. apply Z.pow_le_mono_r; lia.
Qed.

(** * Words assembled from an opcode and fields

    A word as its fixed bits [c] and its fields: value, position and width. *)
Definition place (f : Z * Z * Z) : Z := let '(x, k, m) := f in shl32 x k.
Definition asm (c : Z) (fs : list (Z * Z * Z)) : Z := foldr (fun f w => place f ||| w) c fs.
Definition field_ok (f : Z * Z * Z) : Prop :=
  let '(x, k, m) := f in 0 <= k /\ 0 <= m /\ k + m <= 32 /\ 0 <= x < 2 ^ m.
(** The field at [lo], [n] bits wide: fixed bits, or exactly one field. *)
Fixpoint look (c : Z) (fs : list (Z * Z * Z)) (lo n : Z) : option Z :=
  match fs with
  | [] => Some (bits c lo n)
  | (x, k, m) :: fs =>
      if (k + m <=? lo) || (lo + n <=? k) then look c fs lo n
      else if (lo =? k) && (m <=? n) then
        v ← look c fs lo n; if v =? 0 then Some x else None
      else None
  end.

Lemma bits_look c fs lo n v : 0 <= lo -> 0 <= n -> Forall field_ok fs ->
  look c fs lo n = Some v -> bits (asm c fs) lo n = v.
Proof.
  intros Hlo Hn. revert v. induction fs as [|[[x k] m] fs IH]; intros v Hok; simpl; [congruence|].
  apply Forall_cons in Hok as [(Hk & Hm & Hkm & Hx) Hok'].
  rewrite bits_lor, (bits_placed x k m) by lia.
  destruct ((k + m <=? lo) || (lo + n <=? k)); [by rewrite Z.lor_0_l; auto|].
  destruct (Z.eqb_spec lo k) as [->|]; simpl; [|done].
  destruct (Z.leb_spec m n); [|done].
  destruct (look c fs k n) as [u|] eqn:Hu; simpl; [|done].
  destruct (Z.eqb_spec u 0) as [->|]; [|done]. intros [= <-].
  rewrite (IH 0), Z.lor_0_r by done. rewrite Z.leb_refl, (proj2 (Z.leb_le _ _)) by lia. simpl.
  by rewrite Z.sub_diag, Z.shiftl_0_r.
Qed.
Lemma asm_neq c fs d lo n v : 0 <= lo -> 0 <= n -> Forall field_ok fs ->
  look c fs lo n = Some v -> v <> bits d lo n -> (asm c fs =? d) = false.
Proof.
  intros ?? Hok Hv Hd. apply Z.eqb_neq. intros E. apply Hd. rewrite <- E. symmetry.
  by apply bits_look.
Qed.

(** A class test that straddles a field, decided by the bits below it or above it. *)
Lemma bits_neq w lo n d lo' n' v : 0 <= lo -> 0 <= lo' -> 0 <= n' -> lo' + n' <= n ->
  bits w (lo + lo') n' = v -> v <> bits d lo' n' -> (bits w lo n =? d) = false.
Proof.
  intros ???? Hv Hd. apply Z.eqb_neq. intros E. apply Hd. rewrite <- E, <- Hv.
  by rewrite bits_bits by lia.
Qed.

Definition is_reg (r : Z) : Prop := 0 <= r < 32.
Lemma shl32_reg r : is_reg r -> shl32 r 0 = r.
Proof. unfold is_reg. intros. rewrite (shl32_small r 0 5) by lia. apply Z.shiftl_0_r. Qed.
Lemma sf_bit_field sf : sf_bit sf = shl32 (Z.b2z sf) 31.
Proof. by destruct sf. Qed.
Lemma b2z_bit b : (Z.b2z b =? 1) = b.
Proof. by destruct b. Qed.
Lemma b2z_field b : 0 <= Z.b2z b < 2.
Proof. by destruct b. Qed.

(** Equality of two [|||] trees with the same leaves. *)
Ltac lor_ac := apply Z.bits_inj'; intros ? _; unfold asm, place; simpl;
  rewrite !Z.lor_spec; btauto.
Ltac fields_ok := repeat constructor; unfold is_reg in *; simpl; try lia; try apply b2z_field.

(** The [o3] and [opc] fields of an atomic. *)
Definition atomic_o3 (op : AtomicOp) : Z := match op with AtomicSwp => 1 | _ => 0 end.
Definition atomic_opc (op : AtomicOp) : Z := match op with AtomicSwp => 0 | _ => atomic_code op end.
(** Evaluate the reference decoder on an assembled word: first the class, then
    the fields of that class. *)
Ltac arm_fields :=
  repeat match goal with
  | |- context [bits (asm ?c ?fs) ?lo ?n] =>
      let v := eval cbv -[Z.b2z size_code atomic_o3 atomic_opc acquire LseInsn.release] in (look c fs lo n) in
      lazymatch v with
      | Some ?u => rewrite (bits_look c fs lo n u ltac:(lia) ltac:(lia) ltac:(fields_ok) eq_refl)
      end
  | |- context [bits (asm ?c ?fs) ?lo ?n =? ?d] =>
      let try_sub a b :=
        (rewrite (bits_neq (asm c fs) lo n d a b _ ltac:(lia) ltac:(lia) ltac:(lia) ltac:(lia)
                   (bits_look c fs (lo + a) b _ ltac:(lia) ltac:(lia) ltac:(fields_ok) eq_refl)
                   ltac:(done))) in
      let b := eval cbv in (n - 1) in
      first [ try_sub 1 b | try_sub 0 b ]
  | |- context [asm ?c ?fs =? ?d] =>
      rewrite (asm_neq c fs d 24 6 _ ltac:(lia) ltac:(lia) ltac:(fields_ok) eq_refl ltac:(done))
  end; rewrite ?b2z_bit; cbn [Z.eqb Pos.eqb andb orb negb Z.leb Z.compare Pos.compare Pos.compare_cont].
Ltac arm_eval :=
  unfold arm_decode, bit; arm_fields;
  unfold arm_exclusive, arm_add_sub_imm, arm_add_sub_reg, arm_logical, arm_mov_wide, arm_atomic,
    arm_size, bit; arm_fields.

Lemma reg_neq_31 r : r <> 31 -> (r =? 31) = false.
Proof. apply Z.eqb_neq. Qed.

(** An encoder's word [w] is [asm c fs]. *)
Ltac as_asm c fs :=
  match goal with
  | |- context [arm_decode ?w] =>
      replace w with (asm c fs);
      [ | cbv beta iota delta [mov_reg neg mvn movz_shifted movn atomic atomic_code compare_branch];
          rewrite ?sf_bit_field; unfold asm, place; cbn [foldr];
          rewrite ?shl32_reg by done; lor_ac ]
  end.

Lemma arm_mov_reg sf rd rm : is_reg rd -> is_reg rm ->
  arm_decode (mov_reg sf rd rm) = Some (ArmLogical 1 false sf rd 31 rm).
Proof.
  intros. as_asm 0x2a0003e0 [(Z.b2z sf, 31, 1); (rm, 16, 5); (rd, 0, 5)]. by arm_eval.
Qed.
Lemma arm_mvn sf rd rm : is_reg rd -> is_reg rm ->
  arm_decode (mvn sf rd rm) = Some (ArmLogical 1 true sf rd 31 rm).
Proof.
  intros. as_asm 0x2a2003e0 [(Z.b2z sf, 31, 1); (rm, 16, 5); (rd, 0, 5)]. by arm_eval.
Qed.
Lemma arm_neg sf rd rm : is_reg rd -> is_reg rm ->
  arm_decode (neg sf rd rm) = Some (ArmAddSubReg true sf rd 31 rm).
Proof.
  intros. as_asm 0x4b0003e0 [(Z.b2z sf, 31, 1); (rm, 16, 5); (rd, 0, 5)]. by arm_eval.
Qed.
Lemma arm_movn sf rd imm16 : is_reg rd -> 0 <= imm16 < 2 ^ 16 ->
  arm_decode (movn sf rd imm16) = Some (ArmMovWide false sf rd imm16 0).
Proof.
  intros. as_asm 0x12800000 [(Z.b2z sf, 31, 1); (imm16, 5, 16); (rd, 0, 5)]. arm_eval.
  by rewrite andb_false_r.
Qed.
Lemma arm_movz (sf : bool) rd imm16 hw : is_reg rd -> 0 <= imm16 < 2 ^ 16 ->
  0 <= hw < (if sf then 4 else 2) ->
  arm_decode (movz_shifted sf rd imm16 hw) = Some (ArmMovWide true sf rd imm16 hw).
Proof.
  intros ?? Hhw. assert (0 <= hw < 4) by (destruct sf; lia).
  as_asm 0x52800000 [(Z.b2z sf, 31, 1); (hw, 21, 2); (imm16, 5, 16); (rd, 0, 5)]. arm_eval.
  destruct sf; simpl; [done|]. by rewrite (proj2 (Z.leb_gt 2 hw)) by lia.
Qed.
Lemma arm_atomic_word op size ord rs rt rn : is_reg rs -> is_reg rt -> is_reg rn -> rn <> 31 ->
  arm_decode (atomic op size ord rs rt rn) =
    Some (ArmAtomic op size (acquire ord) (LseInsn.release ord) rs rt rn).
Proof.
  intros Hs Ht Hn Hn'. assert (0 <= size_code size < 4) by (by destruct size).
  assert (0 <= atomic_o3 op < 2 /\ 0 <= atomic_opc op < 8) as [? ?] by (by destruct op).
  assert (size_from_bits (size_code size) = size) as Hsz by (by destruct size).
  assert (arm_atomic_op (atomic_o3 op =? 1) (atomic_opc op) = Some op) as Hop by (by destruct op).
  replace (atomic op size ord rs rt rn) with
    (asm (shl32 0x38 24 ||| shl32 1 21)
       [(size_code size, 30, 2); (Z.b2z (acquire ord), 23, 1); (Z.b2z (LseInsn.release ord), 22, 1);
        (rs, 16, 5); (atomic_o3 op, 15, 1); (atomic_opc op, 12, 3); (rn, 5, 5); (rt, 0, 5)]).
  2: { unfold asm, place. cbn [foldr]. rewrite shl32_reg by done.
       unfold atomic. destruct op; cbn [atomic_o3 atomic_opc]; lor_ac. }
  arm_eval. by rewrite reg_neq_31, Hop, Hsz by done.
Qed.

(** * The decoder against the reference *)

(** The reference instruction a decoded one stands for, where register 31 is
    not the stack pointer. *)
Definition arm_of (i : Insn) : option arm_insn :=
  match i with
  | LoadExcl size ord rt rn =>
      if rn =? 31 then None else Some (ArmLdxr size (acquire ord) rt rn)
  | StoreExcl size ord rs rt rn =>
      if rn =? 31 then None else Some (ArmStxr size (LseInsn.release ord) rs rt rn)
  | Alu op sf rd rn (OperandImm k) =>
      if rn =? 31 then None
      else match op with
           | OpAdd => Some (ArmAddSubImm false sf rd rn k)
           | OpSub => Some (ArmAddSubImm true sf rd rn k)
           | _ => None
           end
  | Alu op sf rd rn (OperandReg rm) =>
      Some match op with
           | OpAdd => ArmAddSubReg false sf rd rn rm
           | OpSub => ArmAddSubReg true sf rd rn rm
           | OpAnd => ArmLogical 0 false sf rd rn rm
           | OpBic => ArmLogical 0 true sf rd rn rm
           | OpOrr => ArmLogical 1 false sf rd rn rm
           | OpEor => ArmLogical 2 false sf rd rn rm
           end
  | CompareBranch nonzero sf rt offset => Some (ArmCbz nonzero sf rt offset)
  | Nop => Some ArmNop
  | _ => None
  end.

(** Masks and shifts as fields. *)
Ltac mask_fields :=
  unfold ZR in *;
  repeat match goal with
  | |- context [Z.land (shr ?w ?lo) ?m] =>
      let n := eval cbv in (Z.log2 (m + 1)) in
      replace (Z.land (shr w lo) m) with (bits w lo n) by (symmetry; apply (bits_land w lo n); lia)
  | |- context [Z.land ?w ?m] =>
      let n := eval cbv in (Z.log2 (m + 1)) in
      replace (Z.land w m) with (bits w 0 n) by (symmetry; apply (bits_low w n); lia)
  | H : is_u32 ?w |- context [shr ?w ?lo] =>
      rewrite (bits_top w lo ltac:(lia) H); let n := eval cbv in (32 - lo) in change (32 - lo) with n
  end.

Lemma bit_zero w lo : (bits w lo 1 =? 0) = negb (bit w lo).
Proof.
  unfold bit. pose proof (bits_range w lo 1 ltac:(lia)).
  destruct (Z.eqb_spec (bits w lo 1) 0), (Z.eqb_spec (bits w lo 1) 1); done || lia.
Qed.

Lemma decode_exclusive_arm w : is_u32 w ->
  arm_of (decode_exclusive w) = arm_exclusive w.
Proof.
  intros Hw. unfold decode_exclusive, arm_exclusive, arm_size. mask_fields. fold (bit w 21) (bit w 22) (bit w 15).
  destruct (bit w 21); simpl.
  { by destruct (size_from_bits (bits w 30 2)). }
  destruct (bits w 10 5 =? 31); simpl; [|done].
  destruct (bit w 22); simpl; [destruct (bits w 16 5 =? 31); simpl; [|by destruct (_ =? _)]|]; done.
Qed.

Lemma decode_add_sub_imm_arm w a : is_u32 w ->
  arm_of (decode_add_sub_imm w) = Some a -> arm_add_sub_imm w = Some a.
Proof.
  intros Hw. unfold decode_add_sub_imm, arm_add_sub_imm. mask_fields.
  pose proof (bits_range w 10 12 ltac:(lia)) as Hr.
  rewrite (shl32_small (bits w 10 12) 12 12), Z.shiftl_mul_pow2 by lia.
  fold (bit w 31) (bit w 30) (bit w 29) (bit w 22).
  destruct (bit w 29); simpl; [by destruct (bit w 30), (bits w 0 5 =? 31), (bit w 22)|].
  destruct (bits w 0 5 =? 31); simpl; [done|].
  destruct (bits w 5 5 =? 31); simpl; [done|]. by destruct (bit w 30).
Qed.
Lemma decode_add_sub_reg_arm w a : is_u32 w ->
  arm_of (decode_add_sub_reg w) = Some a -> arm_add_sub_reg w = Some a.
Proof.
  intros Hw. unfold decode_add_sub_reg, arm_add_sub_reg. mask_fields.
  fold (bit w 31) (bit w 30) (bit w 29).
  destruct (bits w 22 2 =? 0), (bits w 10 6 =? 0), (bit w 29), (bits w 0 5 =? 31), (bit w 30);
    simpl; done.
Qed.
Lemma decode_logical_arm w a : is_u32 w ->
  arm_of (decode_logical w) = Some a -> arm_logical w = Some a.
Proof.
  intros Hw. unfold decode_logical, arm_logical. mask_fields. fold (bit w 31) (bit w 21).
  destruct (bits w 22 2 =? 0), (bits w 10 6 =? 0), (bits w 0 5 =? 31); simpl;
    rewrite ?orb_true_r; try done.
  pose proof (bits_range w 29 2 ltac:(lia)) as Hr.
  assert (bits w 29 2 = 0 \/ bits w 29 2 = 1 \/ bits w 29 2 = 2 \/ bits w 29 2 = 3) as Hc by lia.
  destruct Hc as [->|[->|[->| ->]]], (bit w 21); simpl; done.
Qed.

Lemma sign_extend_signed n v : 1 <= n <= 32 -> 0 <= v < 2 ^ n -> sign_extend v n = signed n v.
Proof.
  intros Hn Hv. unfold sign_extend, signed, wrap_i. rewrite Z.shiftl_mul_pow2, Z.shiftr_div_pow2 by lia.
  replace (2 ^ 64) with (2 ^ n * 2 ^ (64 - n)) by (rewrite <- Z.pow_add_r by lia; f_equal; lia).
  replace (2 ^ (64 - 1)) with (2 ^ (n - 1) * 2 ^ (64 - n)) by (rewrite <- Z.pow_add_r by lia; f_equal; lia).
  rewrite <- Z.mul_add_distr_r, Z.mul_mod_distr_r, <- Z.mul_sub_distr_r, Z.div_mul by lia.
  assert (2 ^ n = 2 * 2 ^ (n - 1)) as E by (rewrite <- Z.pow_succ_r by lia; f_equal; lia).
  destruct (Z.ltb_spec v (2 ^ (n - 1))).
  - rewrite Z.mod_small by lia. lia.
  - replace (v + 2 ^ (n - 1)) with (v - 2 ^ (n - 1) + 1 * 2 ^ n) by lia.
    rewrite Z.mod_add, Z.mod_small by lia. lia.
Qed.

Lemma offset_signed w : sign_extend (bits w 5 19) 19 * 4 = 4 * signed 19 (bits w 5 19).
Proof. rewrite sign_extend_signed; [lia|lia|]. apply bits_range. lia. Qed.

(** The registers of an instruction and its immediate. *)
Definition insn_regs (i : Insn) : list Reg :=
  match i with
  | LoadExcl _ _ rt rn => [rt; rn]
  | StoreExcl _ _ rs rt rn => [rs; rt; rn]
  | Alu _ _ rd rn (OperandReg rm) => [rd; rn; rm]
  | Alu _ _ rd rn (OperandImm _) => [rd; rn]
  | CompareBranch _ _ rt _ => [rt]
  | _ => []
  end.
Definition insn_imm (i : Insn) : Z :=
  match i with Alu _ _ _ _ (OperandImm k) => k | _ => 0 end.

(** [decode]'s class tests up to the compare and branch class, as fields; what
    follows them is [rest]. *)
Lemma decode_classes w : is_u32 w -> exists rest,
  arm_of rest = None /\ insn_regs rest = [] /\ insn_imm rest = 0 /\
  decode w =
    if (bits w 24 6 =? 0x08) && negb (bit w 23) then decode_exclusive w
    else if w =? NOP then Nop
    else if w =? CLREX then Clrex
    else if bits w 23 6 =? 0x22 then decode_add_sub_imm w
    else if (bits w 24 5 =? 0x0b) && negb (bit w 21) then decode_add_sub_reg w
    else if bits w 24 5 =? 0x0a then decode_logical w
    else if bits w 22 10 =? 0x14c then decode_bitfield w
    else if bits w 25 6 =? 0x1a then
      CompareBranch (bit w 24) (bit w 31) (bits w 0 5) (4 * signed 19 (bits w 5 19))
    else rest.
Proof.
  intros Hw. unfold decode.
  match goal with |- context [if ?b then CompareBranch _ _ _ _ else ?r] => exists r end.
  split_and!.
  1-3: by repeat match goal with |- context [if ?b then _ else _] => destruct b end.
  rewrite <- !bit_zero, <- offset_signed. unfold bit. mask_fields. done.
Qed.

Lemma decode_arm w a : is_u32 w -> arm_of (decode w) = Some a -> arm_decode w = Some a.
Proof.
  intros Hw. destruct (decode_classes w Hw) as (rest & Hrest & _ & _ & ->). unfold arm_decode.
  destruct ((bits w 24 6 =? 8) && negb (bit w 23)); [by rewrite decode_exclusive_arm|].
  change NOP with 0xd503201f. destruct (w =? 0xd503201f); [done|].
  destruct (w =? CLREX); [done|].
  destruct (bits w 23 6 =? 0x22); [by apply decode_add_sub_imm_arm|].
  destruct ((bits w 24 5 =? 0x0b) && negb (bit w 21)); [by apply decode_add_sub_reg_arm|].
  destruct (bits w 24 5 =? 0x0a); [by apply decode_logical_arm|].
  destruct (bits w 22 10 =? 0x14c).
  { unfold decode_bitfield. by destruct (_ && _). }
  destruct (bits w 25 6 =? 0x1a); [done|]. by rewrite Hrest.
Qed.

(** The other way for the instruction that branches. *)
Lemma arm_cbz_decode w nonzero sf rt offset : is_u32 w ->
  arm_decode w = Some (ArmCbz nonzero sf rt offset) -> decode w = CompareBranch nonzero sf rt offset.
Proof.
  intros Hw. destruct (decode_classes w Hw) as (rest & _ & _ & _ & ->). unfold arm_decode.
  destruct ((bits w 24 6 =? 8) && negb (bit w 23)).
  { unfold arm_exclusive. by repeat match goal with |- context [if ?b then _ else _] => destruct b end. }
  change NOP with 0xd503201f. destruct (w =? 0xd503201f); [done|].
  destruct (bits w 23 6 =? 0x22) eqn:H1.
  { unfold arm_add_sub_imm. by destruct (_ || _ || _). }
  destruct ((bits w 24 5 =? 0x0b) && negb (bit w 21)).
  { unfold arm_add_sub_reg. by destruct (_ || _ || _). }
  destruct (bits w 24 5 =? 0x0a).
  { unfold arm_logical. by destruct (_ || _ || _). }
  destruct (Z.eqb_spec (bits w 25 6) 0x1a) as [Hc|Hc].
  - destruct (Z.eqb_spec w CLREX) as [->|_]; [done|].
    rewrite (bits_neq w 22 10 0x14c 3 6 0x1a); [congruence|lia|lia|lia|lia|done|done].
  - destruct (bits w 23 6 =? 0x25); [unfold arm_mov_wide; by destruct (_ || _)|].
    destruct (bits w 24 6 =? 0x38); [|done]. unfold arm_atomic.
    destruct (_ || _ || _); [done|]. by destruct (arm_atomic_op _ _).
Qed.

(** Every register number [decode] gives is one of 32, an immediate has at most
    24 bits, and a destination is not the zero register. *)
Definition insn_ok (i : Insn) : Prop :=
  Forall is_reg (insn_regs i) /\ 0 <= insn_imm i < 2 ^ 24 /\
  match i with Alu _ _ rd _ _ => rd <> 31 | _ => True end.

Lemma decode_class_ok w : is_u32 w ->
  insn_ok (decode_exclusive w) /\ insn_ok (decode_add_sub_imm w) /\
  insn_ok (decode_add_sub_reg w) /\ insn_ok (decode_logical w) /\ insn_ok (decode_bitfield w).
Proof.
  assert (forall lo, is_reg (bits w lo 5)) as Hb by (intros; apply (bits_range w lo 5); lia).
  pose proof (bits_range w 10 12 ltac:(lia)) as Hr.
  intros Hw. unfold decode_exclusive, decode_add_sub_imm, decode_add_sub_reg, decode_logical, decode_bitfield.
  mask_fields. rewrite (shl32_small (bits w 10 12) 12 12), Z.shiftl_mul_pow2 by lia.
  split_and!.
  all: repeat match goal with
    | |- context [match size_from_bits ?x with _ => _ end] => destruct (size_from_bits x)
    | |- context [if ?b then Other else _] => destruct b eqn:?
    | |- context [if ?b then _ else Other] => destruct b
    | |- context [match bits ?x 29 2 with _ => _ end] => destruct (bits x 29 2) as [|[[]|[]|]|]
    | |- context [if bits ?x 21 1 =? 1 then _ else _] => destruct (bits x 21 1 =? 1)
    | |- context [if bits ?x 22 1 =? 1 then _ else _] => destruct (bits x 22 1 =? 1)
    | |- context [if bits ?x 29 1 =? 1 then _ else _] => destruct (bits x 29 1 =? 1)
    end.
  all: unfold insn_ok; simpl; split_and!; repeat constructor; try apply Hb; try lia.
Qed.
Lemma decode_ok w : is_u32 w -> insn_ok (decode w).
Proof.
  intros Hw. destruct (decode_class_ok w Hw) as (H1 & H2 & H3 & H4 & H5).
  destruct (decode_classes w Hw) as (rest & Ha & Hr & Hi & ->).
  repeat match goal with |- context [if ?b then _ else _] => destruct b end; try done.
  - split_and!; simpl; repeat constructor; try apply (bits_range w 0 5); lia.
  - unfold insn_ok. rewrite Hr, Hi. split_and!; [constructor|lia|lia|]. destruct rest as [| | |? ? ? ? []| | | | | | | | | |]; done.
Qed.

End LseArmProps.

(** The operand of an emitted atomic: what [materialise] leaves in the status
    register makes the atomic store what the loop's operation computes, and the
    copy of that operation after the atomic recomputes it. *)

Module LseAlu.
Import LseInsn LseRewrite LseArm LseArmProps.

(** * Wrapped arithmetic *)

Lemma wrap_testbit n x i : 0 <= n -> 0 <= i ->
  Z.testbit (wrap_u n x) i = (i <? n) && Z.testbit x i.
Proof.
  intros Hn Hi. unfold wrap_u. destruct (Z.ltb_spec i n).
  - by rewrite Z.mod_pow2_bits_low by lia.
  - by rewrite Z.mod_pow2_bits_high by lia.
Qed.
Lemma wrap_wrap n m x : 0 <= n <= m -> wrap_u n (wrap_u m x) = wrap_u n x.
Proof.
  intros. apply Z.bits_inj'. intros i Hi. rewrite !wrap_testbit by lia.
  destruct (Z.ltb_spec i n); simpl; [|done]. by rewrite (proj2 (Z.ltb_lt i m)) by lia.
Qed.
Lemma wrap_small n x : 0 <= x < 2 ^ n -> wrap_u n x = x.
Proof. apply Z.mod_small. Qed.
Lemma wrap_add_r n a b : wrap_u n (a + wrap_u n b) = wrap_u n (a + b).
Proof. unfold wrap_u. by rewrite Zplus_mod_idemp_r. Qed.

Ltac wrap_bits :=
  apply Z.bits_inj'; intros i Hi;
  repeat (rewrite ?wrap_testbit, ?Z.lor_spec, ?Z.land_spec, ?Z.lxor_spec, ?Z.ldiff_spec,
            ?Z.lnot_spec, ?Z.testbit_0_l by lia); btauto.
Lemma wrap_lor n a b : 0 <= n -> wrap_u n (Z.lor a (wrap_u n b)) = wrap_u n (Z.lor a b).
Proof. intros. wrap_bits. Qed.
Lemma wrap_lxor n a b : 0 <= n -> wrap_u n (Z.lxor a (wrap_u n b)) = wrap_u n (Z.lxor a b).
Proof. intros. wrap_bits. Qed.
Lemma wrap_ldiff n a b : 0 <= n -> wrap_u n (Z.ldiff a (wrap_u n b)) = wrap_u n (Z.ldiff a b).
Proof. intros. wrap_bits. Qed.

(** * The operations *)

Definition alu_result (op : AluOp) (a b : Z) : Z :=
  match op with
  | OpAdd => a + b
  | OpSub => a - b
  | OpAnd => Z.land a b
  | OpOrr => Z.lor a b
  | OpEor => Z.lxor a b
  | OpBic => Z.ldiff a b
  end.
Definition operand_value (o : Operand) (sf : bool) (g : gmap Z Z) : Z :=
  match o with OperandReg rm => get_reg sf rm g | OperandImm k => k end.

Lemma alu_exec op sf rd rn o a g : arm_of (Alu op sf rd rn o) = Some a ->
  exec_regs a g = set_reg sf rd (alu_result op (get_reg sf rn g) (operand_value o sf g)) g.
Proof.
  destruct o as [rm|k]; simpl.
  - intros [= <-]. destruct op; simpl; rewrite ?Z.ldiff_land; done.
  - destruct (rn =? 31); [done|]. by destruct op; intros [= <-].
Qed.

(** Instructions that neither access memory nor branch. *)
Definition register_only (a : arm_insn) : bool :=
  match a with
  | ArmAddSubImm _ _ _ _ _ | ArmAddSubReg _ _ _ _ _ | ArmLogical _ _ _ _ _ _
  | ArmMovWide _ _ _ _ _ | ArmNop => true
  | _ => false
  end.
Lemma alu_register_only op sf rd rn o a : arm_of (Alu op sf rd rn o) = Some a ->
  register_only a = true.
Proof.
  destruct o as [rm|k]; simpl; [intros [= <-]; by destruct op|].
  destruct (rn =? 31); [done|]. by destruct op; intros [= <-].
Qed.

Lemma movz_for_word (sf : bool) rd k w : 0 <= k < 2 ^ 64 -> movz_for sf rd k = Some w ->
  exists imm16 hw, w = movz_shifted sf rd imm16 hw /\ 0 <= imm16 < 2 ^ 16 /\
    0 <= hw < (if sf then 4 else 2) /\ Z.shiftl imm16 (16 * hw) = k.
Proof.
  intros Hk. unfold movz_for. destruct (head _) as [hw|] eqn:Hh; simpl; [|done]. intros [= <-].
  apply head_Some_elem_of, list_elem_of_filter in Hh as [Hwin Hin].
  assert (0 <= hw < (if sf then 4 else 2)) as Hhw.
  { destruct sf; repeat (apply elem_of_cons in Hin as [->|Hin]; [lia|]); by apply elem_of_nil in Hin. }
  unfold movz_window in Hwin. apply andb_true_iff in Hwin as [H1 H2].
  apply Z.eqb_eq in H1. apply Z.leb_le in H2. unfold shr in *.
  assert (0 <= Z.shiftr k (16 * hw)) by (apply Z.shiftr_nonneg; lia).
  assert (0 <= 16 * hw <= 48) by (destruct sf; lia).
  eexists _, hw. split; [done|]. rewrite wrap_small by lia. split_and!; [lia|lia|lia|lia|].
  rewrite wrap_small in H1; [done|]. rewrite Z.shiftl_mul_pow2, Z.shiftr_div_pow2 by lia.
  pose proof (Z.mul_div_le k (2 ^ (16 * hw)) ltac:(lia)).
  split; [apply Z.mul_nonneg_nonneg; [apply Z.div_pos|]; lia|lia].
Qed.

(** The operand of a decoded operation. *)
Definition operand_ok (o : Operand) : Prop :=
  match o with OperandReg rm => is_reg rm | OperandImm k => 0 <= k < 2 ^ 24 end.
Lemma alu_operand_ok op sf rd rn o : insn_ok (Alu op sf rd rn o) -> operand_ok o /\ rd <> 31.
Proof.
  intros (Hr & Hi & Hd). split; [|done]. destruct o; simpl in *; [|done].
  do 2 apply Forall_cons in Hr as [_ Hr]. by apply Forall_cons in Hr as [Hr _].
Qed.

(** The instruction [materialise] emits puts [f g] in the status register, from
    which the atomic computes, at the access width, what the operation does. *)
Lemma materialise_word op o sf rs w aop : is_reg rs -> operand_ok o ->
  materialise op o sf rs = Ok (w, aop) ->
  exists a f, arm_decode w = Some a /\ register_only a = true /\
    (forall g, exec_regs a g = set_reg sf rs (f g) g) /\
    forall g n old, 0 <= n <= reg_width sf ->
      wrap_u n (atomic_result aop old (wrap_u n (f g))) =
      wrap_u n (alu_result op old (operand_value o sf g)).
Proof.
  intros Hrs Hk. destruct o as [rm|k]; simpl in Hk.
  - destruct op; simpl; intros [= <- <-].
    all: eexists _, _; (split; [first [by apply arm_mov_reg | by apply arm_neg | by apply arm_mvn]|]).
    all: (split; [done|]); (split; [intros g; simpl; reflexivity|]).
    all: intros g n old Hn; simpl; set (b := get_reg sf rm g).
    all: rewrite ?wrap_add_r, ?wrap_lor, ?wrap_lxor, ?wrap_ldiff by lia.
    all: try (f_equal; simpl; lia).
    all: unfold get_reg at 1; simpl; wrap_bits.
  - destruct op; simpl; try done.
    + destruct (movz_for sf rs k) as [w'|] eqn:Hm; simpl; [|done]. intros [= <- <-].
      apply movz_for_word in Hm as (imm16 & hw & -> & Hi & Hhw & Hv); [|lia].
      eexists _, _. split; [by apply arm_movz|]. split; [done|]. split; [intros g; simpl; reflexivity|].
      intros g n old Hn. by rewrite Hv, wrap_add_r.
    + destruct ((1 <=? k) && (k <=? 65536)) eqn:Hb; [|done]. intros [= <- <-].
      apply andb_true_iff in Hb as [H1%Z.leb_le H2%Z.leb_le].
      eexists _, _. split; [apply arm_movn; [done|lia]|]. split; [done|].
      split; [intros g; simpl; reflexivity|].
      intros g n old Hn. rewrite wrap_add_r, Z.shiftl_0_r. f_equal. unfold Z.lnot. lia.
Qed.

End LseAlu.
