(* ===== verification/LseSites.v ===== *)
(** What the planner of [LseRewrite] patches: the shape of the sequences, that
    they lie apart and inside the range, that nothing in the range branches into
    one, that the plan accounts for every store-exclusive, and what applying it
    does to the words. *)
From S2P Require Import Prelude LseInsn LseRewrite LseArm LseArmProps.
From stdpp Require Import base gmap list sorting.
Open Scope Z_scope.

Module LseSites.
Import LseInsn LseRewrite LseArm LseArmProps LseAlu.

(** * The shape of a patched sequence *)

(** The operand of a patched read-modify-write is neither a register the loop
    loads into nor its status register. *)
Definition operand_free (o : Operand) (rs rt : Reg) : Prop :=
  match o with OperandReg rm => rm <> rs /\ rm <> rt | OperandImm _ => True end.

Inductive shape (words : list Z) (start : nat) : Idiom -> list Z -> Prop :=
  | shape_swap size lo so rs rt rv rn wl ws wc :
      words !! start = Some wl -> decode wl = LoadExcl size lo rt rn ->
      words !! (start + 1)%nat = Some ws -> decode ws = StoreExcl size so rs rv rn ->
      words !! (start + 2)%nat = Some wc -> decode wc = CompareBranch true false rs (-8) ->
      rs <> 31 -> rs <> rn -> rs <> rv -> rt <> rn -> rv <> rn -> rn <> 31 ->
      rt <> 31 -> rv <> rt ->
      shape words start Swap
        [atomic AtomicSwp size (MkOrdering (acquire lo) (LseInsn.release so)) rv rt rn;
         mov_reg false rs ZR; NOP]
  | shape_rmw size lo so rs rt rv rn op o m aop wl wa ws wc :
      words !! start = Some wl -> decode wl = LoadExcl size lo rt rn ->
      words !! (start + 1)%nat = Some wa -> decode wa = Alu op (is_64 size) rv rt o ->
      words !! (start + 2)%nat = Some ws -> decode ws = StoreExcl size so rs rv rn ->
      words !! (start + 3)%nat = Some wc -> decode wc = CompareBranch true false rs (-12) ->
      rs <> 31 -> rs <> rn -> rs <> rv -> rt <> rn -> rv <> rn -> rn <> 31 ->
      rt <> 31 -> rs <> rt -> operand_free o rs rt ->
      materialise op o (is_64 size) rs = Ok (m, aop) ->
      shape words start Rmw
        [m; atomic aop size (MkOrdering (acquire lo) (LseInsn.release so)) rs rt rn; wa;
         mov_reg false rs ZR].

Ltac peel :=
  repeat match goal with
  | H : (if ?b then Err _ else _) = Ok _ |- _ => destruct b eqn:?; [discriminate H|]
  | H : (if ?b then _ else Err _) = Ok _ |- _ => destruct b eqn:?; [|discriminate H]
  | H : Err _ = Ok _ |- _ => discriminate H
  | H : Crash _ = Ok _ |- _ => discriminate H
  | H : orb _ _ = false |- _ => apply orb_false_iff in H as [? ?]
  | H : andb _ _ = true |- _ => apply andb_true_iff in H as [? ?]
  | H : negb _ = false |- _ => apply negb_false_iff in H
  | H : bool_decide _ = true |- _ => apply bool_decide_eq_true in H
  | H : (_ =? _) = true |- _ => apply Z.eqb_eq in H
  | H : (_ =? _) = false |- _ => apply Z.eqb_neq in H
  | H : (_ <? _) = false |- _ => apply Z.ltb_ge in H
  | H : (_ <=? _) = false |- _ => apply Z.leb_gt in H
  | H : eqb _ _ = true |- _ => apply eqb_prop in H
  end.

Lemma lift_get_Ok {A} (v : list A) i (x : A) :
  lift (E := Refusal) (get_at v i) = Ok x -> v !! i = Some x.
Proof. unfold get_at. destruct (v !! i); simpl; congruence. Qed.
Lemma decoded_lookup (words : list Z) (i : nat) x : (decode <$> words) !! i = Some x ->
  exists w, words !! i = Some w /\ decode w = x.
Proof. rewrite list_lookup_fmap. destruct (words !! i); simpl; naive_solver. Qed.

Lemma swap_Ok size ord rs rt rv rn z ws : swap size ord rs rt rv rn z = Ok ws ->
  rt <> 31 /\ rv <> rt /\ ws = [atomic AtomicSwp size ord rv rt rn; z; NOP].
Proof. unfold swap. intros H. unfold ZR in *. peel. by injection H as <-. Qed.
Lemma rmw_Ok op alu_sf rd alu_rn o wa size ord rs rt rv rn sf z ws :
  rmw (Alu op alu_sf rd alu_rn o) wa size ord rs rt rv rn sf z = Ok ws ->
  rd = rv /\ alu_rn = rt /\ alu_sf = sf /\ rt <> 31 /\ rs <> rt /\ operand_free o rs rt /\
  exists m aop, materialise op o sf rs = Ok (m, aop) /\
    ws = [m; atomic aop size ord rs rt rn; wa; z].
Proof.
  unfold rmw. intros H. unfold ZR in *. peel.
  apply bind_Ok in H as ([] & Ho & H). apply bind_Ok in H as ([m aop] & Hm & H).
  injection H as <-. split_and!; try done.
  - destruct o; simpl; [|done]. by peel.
  - eauto.
Qed.

(** The idioms that are ever patched, from the matched sequence. *)
Lemma match_idiom_Ok words start store size ord rs rt rv rn out i ws :
  (start < store)%nat ->
  match_idiom words (decode <$> words) start store size ord rs rt rv rn out = Ok (i, ws) ->
  is_compare i = false ->
  (store = start + 1 /\ i = Swap /\ swap size ord rs rt rv rn (mov_reg false rs ZR) = Ok ws)%nat \/
  (store = start + 2 /\ i = Rmw /\ exists wa op sf rd n o,
     words !! (start + 1) = Some wa /\ decode wa = Alu op sf rd n o /\
     rmw (Alu op sf rd n o) wa size ord rs rt rv rn (is_64 size) (mov_reg false rs ZR) = Ok ws)%nat.
Proof.
  unfold match_idiom. intros Hlt H Hc.
  apply bind_Ok in H as (next & Hn%lift_get_Ok & H).
  destruct (store - start)%nat as [|[|[|[|d]]]] eqn:Hd; try (by destruct next).
  - apply bind_Ok in H as (w & Hw & [= <- <-]). left. split; [lia|]. done.
  - right. split; [lia|]. destruct next; try done.
    + apply bind_Ok in H as (wa & Hwa%lift_get_Ok & H).
      apply bind_Ok in H as (w & Hw & [= <- <-]). split; [done|].
      apply decoded_lookup in Hn as (wa' & Hwa' & Hdec). replace wa' with wa in * by congruence.
      eauto 10.
    + destruct nonzero; [|done]. peel. by apply bind_Ok in H as (w & Hw & [= <- <-]).
  - apply bind_Ok in H as (b & Hb & H). apply bind_Ok in H as (w & Hw & H).
    apply bind_Ok in H as (bf & Hbf & H). by apply bind_Ok in H as (w' & Hw' & [= <- <-]).
Qed.

Lemma compare_branch_offset w nonzero sf rt off : is_u32 w ->
  decode w = CompareBranch nonzero sf rt off -> exists q, off = 4 * q.
Proof.
  intros Hw. destruct (decode_classes w Hw) as (rest & Ha & _ & _ & ->).
  unfold decode_exclusive, decode_add_sub_imm, decode_add_sub_reg, decode_logical, decode_bitfield.
  repeat match goal with
    | |- context [match size_from_bits ?x with _ => _ end] => destruct (size_from_bits x)
    | |- context [match Z.land ?x ?y with _ => _ end] => destruct (Z.land x y) as [|[[]|[]|]|]
    | |- context [if ?b then _ else _] => destruct b
    end; intros [=]; subst; try done; eauto.
Qed.

Lemma match_sequence_shape words store base branches ext known site :
  Forall is_u32 words ->
  match_sequence words (decode <$> words) store base branches ext known = Ok site ->
  is_compare (site_idiom site) = false ->
  exists start, site_addr site = addr_of base start /\
    shape words start (site_idiom site) (site_words site) /\
    (start + length (site_words site) = store + 2)%nat.
Proof.
  intros Hu. unfold match_sequence. intros H Hc.
  apply bind_Ok in H as (ist & Hst%lift_get_Ok & H). destruct ist as [|size so rs rv rn| | | | | | | | | | | |]; try done.
  destruct ((decode <$> words) !! (store + 1)%nat) as [icl|] eqn:Hcl; [|done].
  destruct icl as [| | | | | |[] [] crt back| | | | | | |]; try done.
  destruct (Z.eqb_spec crt rs) as [->|]; [|done]. cbn [negb] in H. peel.
  apply decoded_lookup in Hst as (ws & Hws & Hdws). apply decoded_lookup in Hcl as (wc & Hwc & Hdwc).
  destruct (compare_branch_offset wc _ _ _ _ (Forall_lookup_1 _ _ _ _ Hu Hwc) Hdwc) as [q ->].
  rewrite Z.mul_comm, Z.quot_mul in * by lia.
  set (start := Z.to_nat (Z.of_nat (store + 1) + q)) in *.
  assert ((start < store)%nat /\ q = Z.of_nat start - Z.of_nat (store + 1)) as [Hlt Hq] by (clear H; split; unfold start; lia).
  apply bind_Ok in H as (ild & Hld%lift_get_Ok & H). apply bind_Ok in H as ([[lsz lo] rt] & Hl & H).
  destruct ild as [lsz' lo' rt' lrn| | | | | | | | | | | | |]; try done. peel. injection Hl as -> -> ->. subst lrn.
  apply decoded_lookup in Hld as (wl & Hwl & Hdwl). peel. subst lsz.
  apply bind_Ok in H as ([i wds] & Hi & [= <-]). cbn [site_idiom site_words site_addr] in *.
  exists start. split; [done|]. unfold ZR in *.
  apply match_idiom_Ok in Hi as [(Hs & -> & Hsw)|(Hs & -> & wa & op & sf & rd & n & o & Hwa & Hda & Hr)];
    [| |lia|done].
  - apply swap_Ok in Hsw as (? & ? & ->). split; [|simpl; lia].
    rewrite Hs in Hws, Hwc. rewrite <- Nat.add_assoc in Hwc.
    eapply (shape_swap words start size lo so rs rt rv rn wl ws wc); try done. rewrite Hdwc. f_equal. lia.
  - apply rmw_Ok in Hr as (-> & -> & -> & ? & ? & ? & m & aop & Hm & ->). split; [|simpl; lia].
    rewrite Hs in Hws, Hwc. rewrite <- Nat.add_assoc in Hwc.
    eapply (shape_rmw words start size lo so rs rt rv rn op o m aop wl wa ws wc); try done.
    rewrite Hdwc. f_equal. lia.
Qed.

(** * The planner does not panic *)

Lemma lookup_Some_lt {A} (l : list A) i : (i < length l)%nat -> exists x, l !! i = Some x.
Proof. apply lookup_lt_is_Some_2. Qed.

Lemma not_crash_ifs (A : Type) (b : bool) (e : Refusal) (r : result Refusal A) p :
  r <> Crash p -> (if b then Err e else r) <> Crash p.
Proof. by destruct b. Qed.
Lemma ok_or_not_crash {A} (o : option A) (e : Refusal) p : ok_or o e <> Crash p.
Proof. by destruct o. Qed.
Lemma bind_not_crash {A B} (m : result Refusal A) (f : A -> result Refusal B) p :
  m <> Crash p -> (forall a, m = Ok a -> f a <> Crash p) -> (x ← m; f x) <> Crash p.
Proof. intros Hm Hf. destruct m; simpl; auto. congruence. Qed.
Lemma lift_get_not_crash {A} (v : list A) i p : (i < length v)%nat ->
  lift (E := Refusal) (get_at v i) <> Crash p.
Proof. intros [x Hx]%lookup_Some_lt. by rewrite (get_at_Done _ _ x). Qed.

Ltac no_crash := repeat (intros; match goal with
  | |- (if _ then Err _ else _) <> Crash _ => apply not_crash_ifs
  | |- (_ ≫= _) <> Crash _ => apply bind_not_crash
  | |- ok_or _ _ <> Crash _ => apply ok_or_not_crash
  | |- lift (get_at _ _) <> Crash _ => apply lift_get_not_crash
  | |- (let '(_, _) := ?x in _) <> Crash _ => destruct x
  | |- match ?x with _ => _ end <> Crash _ => destruct x
  | |- Ok _ <> Crash _ => discriminate
  | |- Err _ <> Crash _ => discriminate
  end).

Lemma match_idiom_no_crash words start store size ord rs rt rv rn out p :
  (start < store)%nat -> (store < length words)%nat ->
  match_idiom words (decode <$> words) start store size ord rs rt rv rn out <> Crash p.
Proof.
  intros H1 H2. unfold match_idiom.
  apply bind_not_crash; [apply lift_get_not_crash; rewrite length_fmap; lia|]. intros next _.
  destruct (store - start)%nat as [|[|[|[|d]]]] eqn:Hd; try (by destruct next);
    unfold swap, rmw, materialise, cas_zero, cas_compare; no_crash; rewrite ?length_fmap; try lia.
Qed.

Lemma match_sequence_no_crash words store base branches ext known size so rs rv rn p :
  (decode <$> words) !! store = Some (StoreExcl size so rs rv rn) ->
  match_sequence words (decode <$> words) store base branches ext known <> Crash p.
Proof.
  intros Hst. assert (store < length words)%nat as Hlt.
  { apply lookup_lt_Some in Hst. by rewrite length_fmap in Hst. }
  unfold match_sequence. rewrite (get_at_Done _ _ _ Hst). cbn [lift mbind result_bind].
  match goal with |- (let '(_, _) := ?x in _) <> _ => destruct x as [closes back] end.
  apply not_crash_ifs.
  match goal with |- (if ?b then _ else _) <> _ => destruct b eqn:Hb; [discriminate|] end.
  apply orb_false_iff in Hb as [H1%Z.ltb_ge H2%Z.leb_gt].
  apply bind_not_crash; [apply lift_get_not_crash; rewrite length_fmap; lia|]. intros ld _.
  apply bind_not_crash; [by destruct ld; try destruct (_ =? _)|]. intros [[lsz lo] rt] _.
  do 5 apply not_crash_ifs. apply bind_not_crash; [|by intros []].
  apply match_idiom_no_crash; lia.
Qed.

(** * One iteration, and the loop *)

Definition is_store_side (w : Z) : bool :=
  match decode w with
  | StoreExcl _ _ _ _ _ => true
  | ExclPair => Z.land (shr w 22) 1 =? 0
  | _ => false
  end.
Definition is_exclusive_insn (w : Z) : bool :=
  match decode w with
  | StoreExcl _ _ _ _ _ | LoadExcl _ _ _ _ | ExclPair => true
  | _ => false
  end.

(** The range does not reach the end of the address space. *)
Definition fits (base : Z) (n : nat) : Prop := 0 <= base /\ base + 4 * Z.of_nat n < 2 ^ 64.
Lemma addr_of_exact base n i : fits base n -> (i <= n)%nat -> addr_of base i = base + 4 * Z.of_nat i.
Proof. intros [? ?] ?. apply wrap_small. lia. Qed.
Lemma index_of_addr base n i : fits base n -> (i <= n)%nat -> index_of base (addr_of base i) = i.
Proof.
  intros Hf Hi. unfold index_of. rewrite (addr_of_exact base n) by done. destruct Hf.
  replace (base + 4 * Z.of_nat i - base) with (Z.of_nat i * 4) by lia.
  rewrite wrap_small by lia. rewrite Z.div_mul by lia. lia.
Qed.

(** A patched site: where it starts, its shape, and that nothing enters its
    interior. *)
Record site_at (c : section) (start : nat) (s : Site) : Prop := {
  site_at_addr : site_addr s = addr_of (sec_base c) start;
  site_at_shape : shape (sec_words c) start (site_idiom s) (site_words s);
  site_at_interior : interior_entered c start (length (site_words s)) = false }.

Lemma shape_length words start i ws : shape words start i ws ->
  (3 <= length ws)%nat /\ (start + length ws <= length words)%nat.
Proof.
  intros []; simpl; (split; [lia|]);
    repeat match goal with H : words !! _ = Some _ |- _ => apply lookup_lt_Some in H end; lia.
Qed.

(** What one iteration does to the report. *)
Inductive iteration (c : section) (index : nat) (w : Z) (r r' : Report) : Prop :=
  | iter_skip : is_store_side w = false -> patched r' = patched r -> refused r' = refused r ->
      iteration c index w r r'
  | iter_refuse reason : is_store_side w = true -> patched r' = patched r ->
      refused r' = refused r ++ [MkRefused (addr_of (sec_base c) index) reason] ->
      iteration c index w r r'
  | iter_patch s start : is_store_side w = true -> site_at c start s ->
      (start + length (site_words s) = index + 2)%nat ->
      patched r' = patched r ++ [s] -> refused r' = refused r -> iteration c index w r r'.

Section planning.
Context (c : section).
Hypothesis Hu : Forall is_u32 (sec_words c).
Hypothesis Hfit : fits (sec_base c) (length (sec_words c)).

Lemma plan_step_spec r index w : sec_words c !! index = Some w ->
  exists r', plan_step c r index (decode w) = Done r' /\ iteration c index w r r' /\
    exclusive_instructions r' =
      (exclusive_instructions r + if is_exclusive_insn w then 1 else 0)%nat.
Proof.
  intros Hw. assert (sec_decoded c !! index = Some (decode w)) as Hd.
  { unfold sec_decoded. by rewrite list_lookup_fmap, Hw. }
  unfold plan_step, is_exclusive_insn. destruct (decode w) eqn:Hdw; try rewrite Nat.add_1_r.
  all: try (eexists; split; [done|]; split; [apply iter_skip; unfold is_store_side; by rewrite ?Hdw|simpl; lia]).
  - destruct (match_sequence _ _ _ _ _ _ _) as [site|reason|p] eqn:Hm.
    2: { eexists. split; [done|]. split; [|done]. eapply iter_refuse; [|done|done].
         unfold is_store_side. by rewrite Hdw. }
    2: { exfalso. revert Hm. unfold sec_decoded in *. by eapply match_sequence_no_crash. }
    eexists. split; [done|].
    destruct (interior_entered _ _ _) eqn:Hi.
    { split; [|done]. eapply iter_refuse; [|done|done]. unfold is_store_side. by rewrite Hdw. }
    destruct (is_compare _) eqn:Hc.
    { split; [|done]. eapply iter_refuse; [|done|done]. unfold is_store_side. by rewrite Hdw. }
    split; [|done].
    destruct (match_sequence_shape _ _ _ _ _ _ _ Hu Hm Hc) as (start & Ha & Hs & Hl).
    destruct (shape_length _ _ _ _ Hs).
    rewrite Ha, (index_of_addr _ (length (sec_words c))) in Hi by (done || lia).
    eapply (iter_patch _ _ _ _ _ site start); try done. unfold is_store_side. by rewrite Hdw.
  - rewrite (get_at_Done _ _ _ Hw). eexists. split; [done|].
    destruct (Z.land (shr w 22) 1 =? 0) eqn:Hb; (split; [|done]).
    + eapply iter_refuse; [|done|done]. unfold is_store_side. by rewrite Hdw.
    + apply iter_skip; [|done|done]. unfold is_store_side. by rewrite Hdw.
Qed.

Definition site_start (s : Site) : nat := index_of (sec_base c) (site_addr s).
Definition site_end (s : Site) : nat := (site_start s + length (site_words s))%nat.
(** The address of a site's store-exclusive, the instruction before its last. *)
Definition store_addr (s : Site) : Z := addr_of (sec_base c) (site_end s - 2).
Definition store_side_at (i : nat) : bool :=
  match sec_words c !! i with Some w => is_store_side w | None => false end.

Lemma site_at_start s start : site_at c start s -> site_start s = start.
Proof.
  intros [Ha Hs _]. unfold site_start. rewrite Ha.
  destruct (shape_length _ _ _ _ Hs). apply (index_of_addr _ (length (sec_words c))); [done|lia].
Qed.

(** The report after the first [n] instructions. *)
Record planned (n : nat) (r : Report) : Prop := {
  planned_sites : Forall (fun s => site_at c (site_start s) s /\ (site_end s <= n + 1)%nat) (patched r);
  planned_order : StronglySorted (fun a b => site_end a < site_end b)%nat (patched r);
  planned_stores : (store_addr <$> patched r) ++ (refused_addr <$> refused r) ≡ₚ
    addr_of (sec_base c) <$> filter (fun i => store_side_at i = true) (seq 0 n);
  planned_count : exclusive_instructions r =
    length (filter (fun w => is_exclusive_insn w = true) (take n (sec_words c))) }.

Lemma StronglySorted_snoc {A} (R : A -> A -> Prop) l x :
  StronglySorted R l -> Forall (fun y => R y x) l -> StronglySorted R (l ++ [x]).
Proof.
  induction 1 as [|a l Hl IH Ha]; intros Hx; simpl; [repeat constructor|].
  apply Forall_cons in Hx as [Hax Hx]. constructor; [auto|]. apply Forall_app. by split; [|constructor].
Qed.

Lemma seq_snoc n : seq 0 (S n) = seq 0 n ++ [n].
Proof. by rewrite seq_S. Qed.

Lemma planned_next n r r' w : sec_words c !! n = Some w -> planned n r ->
  iteration c n w r r' ->
  exclusive_instructions r' = (exclusive_instructions r + if is_exclusive_insn w then 1 else 0)%nat ->
  planned (S n) r'.
Proof.
  intros Hw [Hs Ho Hp Hc] Hit Hx. split.
  4: { rewrite (take_S_r _ _ w), filter_app, length_app, Hx, Hc by done. f_equal.
       rewrite filter_cons. by destruct (is_exclusive_insn w). }
  all: assert (store_side_at n = is_store_side w) as Hside by (unfold store_side_at; by rewrite Hw).
  all: destruct Hit as [H1 Ep Er|reason H1 Ep Er|s start H1 H2 H3 Ep Er]; rewrite ?Ep, ?Er; clear Ep Er.
  1, 2: eapply Forall_impl; [done|]; intros ? [? ?]; split; [done|lia].
  - pose proof (site_at_start _ _ H2) as E. apply Forall_app. split.
    + eapply Forall_impl; [done|]. intros ? [? ?]. split; [done|lia].
    + constructor; [|constructor]. unfold site_end. rewrite E. split; [done|lia].
  - done.
  - done.
  - pose proof (site_at_start _ _ H2) as E. apply StronglySorted_snoc; [done|].
    eapply Forall_impl; [done|]. intros s' [_ Hle]. unfold site_end at 2. rewrite E. lia.
  - rewrite seq_snoc, filter_app, filter_cons, Hside, H1, filter_nil. simpl. by rewrite app_nil_r.
  - rewrite seq_snoc, filter_app, filter_cons, Hside, H1, filter_nil, !fmap_app. simpl.
    by rewrite app_assoc, Hp.
  - rewrite seq_snoc, filter_app, filter_cons, Hside, H1, filter_nil, !fmap_app. simpl.
    rewrite <- app_assoc, (Permutation_app_comm _ (refused_addr <$> _)), app_assoc, Hp.
    unfold store_addr, site_end. rewrite (site_at_start _ _ H2), H3. by rewrite Nat.add_sub.
Qed.

Lemma plan_loop_planned n r : planned n r -> (n <= length (sec_words c))%nat ->
  exists r', plan_loop c r n (drop n (sec_decoded c)) = Done r' /\
    planned (length (sec_words c)) r'.
Proof.
  remember (length (sec_words c) - n)%nat as k eqn:Hk. revert n r Hk.
  induction k as [|k IH]; intros n r Hk Hr Hn.
  - assert (n = length (sec_words c)) as -> by lia. exists r.
    unfold sec_decoded. rewrite drop_ge by (by rewrite length_fmap). done.
  - destruct (lookup_Some_lt (sec_words c) n) as [w Hw]; [lia|].
    rewrite (drop_S _ (decode w) n) by (unfold sec_decoded; by rewrite list_lookup_fmap, Hw).
    destruct (plan_step_spec r n w Hw) as (r' & Hst & Hit & Hx).
    cbn [plan_loop]. rewrite Hst. cbn [mbind outcome_bind].
    apply IH; [lia| |lia]. by eapply planned_next.
Qed.

Lemma planned_init : planned 0 Report_default.
Proof. split; simpl; constructor. Qed.

(** * Patched sites lie apart *)

Lemma shape_head words start i ws : shape words start i ws ->
  exists w size o rt rn, words !! start = Some w /\ decode w = LoadExcl size o rt rn.
Proof. destruct 1; eauto 10. Qed.
Lemma shape_interior words start i ws j w size o rt rn : shape words start i ws ->
  (start < j < start + length ws)%nat -> words !! j = Some w -> decode w = LoadExcl size o rt rn -> False.
Proof.
  destruct 1; simpl; intros Hj Hw Hd.
  - assert (j = start + 1 \/ j = start + 2)%nat as [->| ->] by lia; congruence.
  - assert (j = start + 1 \/ j = start + 2 \/ j = start + 3)%nat as [->|[->| ->]] by lia; congruence.
Qed.
Lemma shape_same_length words start i i' ws ws' : shape words start i ws -> shape words start i' ws' ->
  length ws = length ws'.
Proof. destruct 1; destruct 1; simpl; congruence. Qed.

Lemma sites_apart a b : site_at c (site_start a) a -> site_at c (site_start b) b ->
  (site_end a < site_end b)%nat -> (site_end a <= site_start b)%nat.
Proof.
  intros [_ Ha _] [_ Hb _] Hlt. unfold site_end in *.
  destruct (decide (site_start a + length (site_words a) <= site_start b)%nat) as [|Hov]; [done|exfalso].
  destruct (Nat.lt_total (site_start a) (site_start b)) as [H|[H|H]].
  - destruct (shape_head _ _ _ _ Hb) as (w & sz & o & rt & rn & Hw & Hd).
    eapply (shape_interior _ _ _ _ _ _ _ _ _ _ Ha); [|done|done]. lia.
  - rewrite H in Ha. pose proof (shape_same_length _ _ _ _ _ _ Ha Hb). lia.
  - destruct (shape_head _ _ _ _ Ha) as (w & sz & o & rt & rn & Hw & Hd).
    eapply (shape_interior _ _ _ _ _ _ _ _ _ _ Hb); [|done|done]. lia.
Qed.

Lemma planned_apart n r : planned n r ->
  StronglySorted (fun a b => site_end a <= site_start b)%nat (patched r).
Proof.
  intros [Hs Ho _ _]. induction Ho as [|a l Hl IH Ha]; [constructor|].
  apply Forall_cons in Hs as [[Hsa _] Hs]. constructor; [auto|].
  rewrite Forall_forall in *. intros b Hb. apply sites_apart; [done|by apply Hs|auto].
Qed.

End planning.

(** * Entering a site *)

Lemma interior_not_entered c start s i : site_at c start s ->
  (start < i < start + length (site_words s))%nat ->
  addr_of (sec_base c) i ∉ sec_targets c /\ addr_of (sec_base c) i ∉ sec_known c.
Proof.
  intros [_ _ Hi] Hr. unfold interior_entered in Hi.
  assert (forall f, existsb f (seq (start + 1) (length (site_words s) - 1)) = false -> f i = false) as H.
  { intros f Hf. destruct (f i) eqn:E; [|done]. rewrite <- Hf. symmetry. apply existsb_exists.
    exists i. split; [|done]. apply in_seq. lia. }
  apply H in Hi. apply orb_false_iff in Hi as [H1 H2].
  by apply bool_decide_eq_false in H1, H2.
Qed.

Lemma direct_target_known c i w off : sec_words c !! i = Some w ->
  insn_offset (decode w) = Some off -> branch_target (sec_base c) i off ∈ sec_targets c.
Proof.
  intros Hw Ho. unfold sec_targets. apply elem_of_union_l, elem_of_list_to_set, list_elem_of_fmap.
  exists (i, branch_target (sec_base c) i off). split; [done|].
  apply list_elem_of_omap. exists (i, decode w). rewrite Ho. split; [|done].
  apply (list_elem_of_lookup_2 _ i). rewrite list_lookup_imap. unfold sec_decoded.
  by rewrite list_lookup_fmap, Hw.
Qed.

(** * Applying a plan *)

Lemma copy_into_spec words index new : (index + length new <= length words)%nat ->
  exists words', copy_into words index new = Done words' /\ length words' = length words /\
    (forall j, (j < length new)%nat -> words' !! (index + j)%nat = new !! j) /\
    (forall i, ~ (index <= i < index + length new)%nat -> words' !! i = words !! i).
Proof.
  intros H. unfold copy_into. rewrite (proj2 (Nat.leb_le _ _) H). eexists. split; [done|].
  assert (length (take index words) = index) as Hl by (rewrite length_take; lia).
  split_and!.
  - rewrite !length_app, length_drop. lia.
  - intros j Hj. rewrite lookup_app_r, Hl by lia. rewrite lookup_app_l by lia. f_equal. lia.
  - intros i Hi. destruct (decide (i < index)%nat).
    + rewrite lookup_app_l, lookup_take_lt by lia. done.
    + rewrite lookup_app_r, Hl, lookup_app_r, lookup_drop by lia. f_equal. lia.
Qed.

Lemma apply_sites_spec c sites words :
  Forall (fun s => site_end c s <= length words)%nat sites ->
  StronglySorted (fun a b => site_end c a <= site_start c b)%nat sites ->
  exists words', apply_sites words (sec_base c) sites = Done words' /\
    length words' = length words /\
    (forall s j, s ∈ sites -> (j < length (site_words s))%nat ->
       words' !! (site_start c s + j)%nat = site_words s !! j) /\
    (forall i, (forall s, s ∈ sites -> ~ (site_start c s <= i < site_end c s)%nat) ->
       words' !! i = words !! i).
Proof.
  intros Hend Hs. revert words Hend.
  induction Hs as [|a l Hl IH Ha]; intros words Hend; simpl.
  { exists words. split_and!; try done. intros s j Hin. by apply elem_of_nil in Hin. }
  apply Forall_cons in Hend as [He Hend].
  destruct (copy_into_spec words (site_start c a) (site_words a)) as (w1 & E1 & L1 & In1 & Out1); [done|].
  unfold site_start in E1. rewrite E1. cbn [mbind outcome_bind].
  destruct (IH w1) as (w2 & E2 & L2 & In2 & Out2); [by rewrite L1|].
  exists w2. split; [done|]. split; [congruence|]. rewrite Forall_forall in Ha. split.
  - intros s j [->|Hin]%elem_of_cons Hj; [|by apply In2]. rewrite Out2; [by apply In1|].
    intros s Hin. specialize (Ha s Hin). unfold site_end in *. lia.
  - intros i Hi. rewrite Out2 by (intros; apply Hi; set_solver). apply Out1.
    apply (Hi a). set_solver.
Qed.

(** * A rewritten range *)

Record rewritten (c : section) (r : Report) (words' : list Z) : Prop := {
  rw_sites s : s ∈ patched r -> site_at c (site_start c s) s;
  rw_apart a b : a ∈ patched r -> b ∈ patched r ->
    a = b \/ (site_end c a <= site_start c b)%nat \/ (site_end c b <= site_start c a)%nat;
  rw_length : length words' = length (sec_words c);
  rw_inside s j : s ∈ patched r -> (j < length (site_words s))%nat ->
    words' !! (site_start c s + j)%nat = site_words s !! j;
  rw_outside i : (forall s, s ∈ patched r -> ~ (site_start c s <= i < site_end c s)%nat) ->
    words' !! i = sec_words c !! i;
  rw_classified : patched r = [] \/
    Forall (fun w => unknown_direct_branch_possible w = false) (sec_words c) }.

Lemma StronglySorted_pairs {A} (R : A -> A -> Prop) l a b :
  StronglySorted R l -> a ∈ l -> b ∈ l -> a = b \/ R a b \/ R b a.
Proof.
  induction 1 as [|x l Hl IH Hx]; [by intros ?%elem_of_nil|].
  rewrite Forall_forall in Hx. intros [->|Ha]%elem_of_cons [->|Hb]%elem_of_cons; auto.
Qed.

Lemma existsb_false_Forall {A} (f : A -> bool) l : existsb f l = false -> Forall (fun x => f x = false) l.
Proof.
  induction l as [|x l IH]; simpl; [constructor|]. intros [? ?]%orb_false_iff. constructor; auto.
Qed.

Lemma plan_entries_rewritten words base ext known : Forall is_u32 words -> fits base (length words) ->
  exists r words', plan_with_entries words base ext known = Done r /\
    apply words base r = Done words' /\ rewritten (MkSection words base ext known) r words'.
Proof.
  intros Hu Hfit. set (c := MkSection words base ext known).
  destruct (plan_loop_planned c Hu Hfit 0 Report_default (planned_init c)) as (r & Hr & Hp); [lia|].
  pose proof (planned_apart c _ _ Hp) as Hap. destruct Hp as [Hs _ _ _]. rewrite Forall_forall in Hs.
  unfold plan_with_entries, plan_with_external_store, plan_section.
  fold c. cbv zeta. rewrite drop_0 in Hr. rewrite Hr. cbn [mbind outcome_bind].
  destruct (existsb unknown_direct_branch_possible words) eqn:Hk.
  { exists (refuse_patched r UnknownDirectBranch), words. split_and!; [done|done|].
    split; simpl; auto; intros; set_solver. }
  destruct (apply_sites_spec c (patched r) words) as (words' & E & L & In & Out).
  { apply Forall_forall. intros s Hin. destruct (Hs s Hin) as [[_ Hsh _] _].
    by destruct (shape_length _ _ _ _ Hsh). }
  { done. }
  exists r, words'. split_and!; [done|done|]. split; auto.
  - intros s Hin. by apply Hs.
  - intros a b Ha Hb. by apply (StronglySorted_pairs _ _ _ _ Hap).
  - right. by apply existsb_false_Forall.
Qed.

End LseSites.
