(* ===== verification/LseSeq.v ===== *)
(** The patched sequences against the loops they replace, as executions of the
    reference instructions: the loop whose store-exclusive succeeds and the
    replacement leave the same registers and the same memory. *)
From S2P Require Import Prelude LseInsn LseRewrite LseArm LseArmProps LseSites.
From stdpp Require Import base gmap list.
Open Scope Z_scope.

Module LseSeq.
Import LseInsn LseRewrite LseArm LseArmProps LseAlu LseSites.

(** * Registers *)

Lemma get_set_same sf sf' r v g : r <> 31 ->
  get_reg sf r (set_reg sf' r v g) = wrap_u (reg_width sf) (wrap_u (reg_width sf') v).
Proof.
  intros H. unfold get_reg, set_reg. rewrite !reg_neq_31 by done. by rewrite lookup_insert_eq.
Qed.
Lemma get_set_other sf sf' r r' v g : r <> r' -> get_reg sf r (set_reg sf' r' v g) = get_reg sf r g.
Proof.
  intros H. unfold get_reg, set_reg. destruct (r' =? 31); [done|].
  by rewrite lookup_insert_ne.
Qed.
Lemma set_set_same sf sf' r v v' g : set_reg sf r v (set_reg sf' r v' g) = set_reg sf r v g.
Proof. unfold set_reg. destruct (r =? 31); [done|]. by rewrite insert_insert_eq. Qed.
Lemma set_set_other sf sf' r r' v v' g : r <> r' ->
  set_reg sf r v (set_reg sf' r' v' g) = set_reg sf' r' v' (set_reg sf r v g).
Proof.
  intros H. unfold set_reg. destruct (r =? 31), (r' =? 31); try done. by rewrite insert_insert_ne.
Qed.

Lemma width_pos sf : 0 <= reg_width sf <= 64.
Proof. destruct sf; simpl; lia. Qed.
Lemma size_width s : 0 <= size_bits s <= reg_width (is_64 s).
Proof. destruct s; simpl; lia. Qed.

Lemma from_le_bytes_range l : Forall (fun b => 0 <= b < 256) l ->
  0 <= from_le_bytes l < 256 ^ Z.of_nat (length l).
Proof.
  induction 1 as [|b l Hb Hl IH]; cbn [from_le_bytes length].
  - change (256 ^ Z.of_nat 0) with 1. lia.
  - rewrite Nat2Z.inj_succ, Z.pow_succ_r by lia. lia.
Qed.
Lemma load_range s a m : 0 <= load s a m < 2 ^ size_bits s.
Proof.
  unfold load. pose proof (from_le_bytes_range
    ((fun i => wrap_u 8 (m (wrap_u 64 (a + Z.of_nat i)))) <$> seq 0 (size_bytes s))) as H.
  rewrite length_fmap, length_seq in H. replace (2 ^ size_bits s) with (256 ^ Z.of_nat (size_bytes s)) by (by destruct s).
  apply H. apply Forall_fmap, Forall_forall. intros i _. simpl. unfold wrap_u. apply Z.mod_pos_bound. lia.
Qed.
Lemma pow_le n m : 0 <= n <= m -> 2 ^ n <= 2 ^ m.
Proof. intros. apply Z.pow_le_mono_r; lia. Qed.
(** A loaded value read back at the width of the loop's operation. *)
Lemma get_loaded s rt a m g : rt <> 31 ->
  get_reg (is_64 s) rt (set_reg true rt (load s a m) g) = load s a m.
Proof.
  intros H. rewrite get_set_same by done. pose proof (load_range s a m). pose proof (size_width s).
  pose proof (width_pos (is_64 s)).
  pose proof (pow_le (size_bits s) (reg_width (is_64 s)) ltac:(lia)).
  rewrite wrap_wrap by (simpl; lia). apply wrap_small. lia.
Qed.

(** * Straight-line execution *)

Section seq.
Context {M : Type}.
Implicit Type s : state M.

Lemma exec_register_only a ok s : register_only a = true ->
  arm_exec a ok s = goto (exec_regs a (regs s)) (next_pc (pc s)) (mem s) s.
Proof. by destruct a. Qed.

(** Several instructions in sequence, the store-exclusive succeeding. *)
Definition exec_all (l : list arm_insn) s : state M := foldl (fun s a => arm_exec a true s) s l.
(** Of register-only instructions: what is left of a replacement. *)
Definition regs_all (l : list arm_insn) (g : gmap Z Z) : gmap Z Z := foldl (fun g a => exec_regs a g) g l.

(** The closing branch of the loop falls through after a successful store. *)
Lemma cbnz_falls_through rs off g a m s : rs <> 31 ->
  arm_exec (ArmCbz true false rs off) true (goto (set_reg false rs 0 g) a m s) =
  goto (set_reg false rs 0 g) (next_pc a) m s.
Proof. intros H. cbn. by rewrite get_set_same by done. Qed.

Definition zero_status (rs : Reg) : arm_insn := ArmLogical 1 false false rs 31 31.

(** A swap loop that succeeds, and SWP followed by the rest of its replacement. *)
Lemma swap_loop size la sr rs rt rv rn off acq rel s :
  rs <> 31 -> rs <> rv -> rt <> rn -> rt <> 31 -> rv <> rt ->
  exec_all [ArmLdxr size la rt rn; ArmStxr size sr rs rv rn; ArmCbz true false rs off] s =
  let s1 := arm_exec (ArmAtomic AtomicSwp size acq rel rv rt rn) true s in
  goto (regs_all [zero_status rs; ArmNop] (regs s1)) (next_pc (next_pc (pc s1))) (mem s1) s1.
Proof.
  intros H1 H2 H3 H4 H5. unfold exec_all. cbn [foldl].
  set (old := load size (get_reg true rn (regs s)) (mem s)).
  assert (arm_exec (ArmStxr size sr rs rv rn) true (arm_exec (ArmLdxr size la rt rn) true s) =
    goto (set_reg false rs 0 (set_reg true rt old (regs s))) (next_pc (next_pc (pc s)))
      (store size (get_reg true rn (regs s)) (wrap_u (size_bits size) (get_reg true rv (regs s))) (mem s)) s) as ->.
  { cbn. fold old. by rewrite !get_set_other by done. }
  rewrite cbnz_falls_through by done. cbn. fold old.
  by rewrite wrap_wrap by (destruct size; simpl; lia).
Qed.

(** A read-modify-write loop that succeeds, and the atomic followed by the rest
    of its replacement, from the state in which the operand is materialised. *)
Lemma rmw_loop size la sr rs rt rv rn op o alu off aop acq rel (f : gmap Z Z -> Z) s :
  let sf := is_64 size in
  arm_of (Alu op sf rv rt o) = Some alu ->
  rs <> 31 -> rs <> rn -> rs <> rv -> rt <> rn -> rv <> rn -> rt <> 31 -> rv <> 31 -> rs <> rt ->
  operand_free o rs rt ->
  (forall old, wrap_u (size_bits size) (atomic_result aop old (wrap_u (size_bits size) (f (regs s)))) =
     wrap_u (size_bits size) (alu_result op old (operand_value o sf (regs s)))) ->
  exec_all [ArmLdxr size la rt rn; alu; ArmStxr size sr rs rv rn; ArmCbz true false rs off] s =
  let s0 := goto (set_reg sf rs (f (regs s)) (regs s)) (next_pc (pc s)) (mem s) s in
  let s1 := arm_exec (ArmAtomic aop size acq rel rs rt rn) true s0 in
  goto (regs_all [alu; zero_status rs] (regs s1)) (next_pc (next_pc (pc s1))) (mem s1) s1.
Proof.
  intros sf Halu H1 H2 H3 H4 H5 H6 H7 H8 Ho Hop. unfold exec_all. cbn [foldl].
  pose proof (size_width size) as Hw. fold sf in Hw. pose proof (width_pos sf).
  set (g := regs s). set (old := load size (get_reg true rn g) (mem s)).
  set (b := operand_value o sf g). set (x := alu_result op old b).
  assert (forall g', get_reg sf rt (set_reg true rt old g') = old) as Hold
    by (intros; by apply get_loaded).
  assert (forall g' v, operand_value o sf (set_reg true rt v (set_reg sf rs g' g)) = b /\
                       operand_value o sf (set_reg true rt v g) = b) as Hb.
  { intros g' v. unfold b. destruct o as [rm|k]; simpl in *; [|done].
    destruct Ho. by rewrite !get_set_other by done. }
  assert (arm_exec (ArmStxr size sr rs rv rn) true (arm_exec alu true (arm_exec (ArmLdxr size la rt rn) true s)) =
    goto (set_reg false rs 0 (set_reg sf rv x (set_reg true rt old g))) (next_pc (next_pc (next_pc (pc s))))
      (store size (get_reg true rn g) (wrap_u (size_bits size) x) (mem s)) s) as ->.
  { rewrite (exec_register_only alu) by (by eapply alu_register_only). rewrite (alu_exec _ _ _ _ _ _ _ Halu).
    cbn. fold g old. rewrite Hold, (proj2 (Hb 0 old)). fold x.
    rewrite get_set_same by done. rewrite !get_set_other by done.
    rewrite !wrap_wrap by (simpl; lia). done. }
  rewrite cbnz_falls_through by done. cbn. fold g.
  rewrite !(alu_exec _ _ _ _ _ _ _ Halu).
  rewrite (get_set_other true sf rn rs) by done. fold old.
  rewrite Hold, (proj1 (Hb _ _)). fold x. rewrite get_set_same by done.
  rewrite !wrap_wrap by (simpl; lia). rewrite Hop.
  rewrite (set_set_other true sf rt rs), (set_set_other sf sf rv rs) by done.
  by rewrite set_set_same.
Qed.

End seq.

(** * Patched sites as reference instructions *)

(** The instructions of a code range from index [i] on. *)
Definition arms (code : list Z) (i : nat) (l : list arm_insn) : Prop :=
  forall j a, l !! j = Some a -> exists w, code !! (i + j)%nat = Some w /\ arm_decode w = Some a.
Abbreviation decodes := (Forall2 (fun w a => arm_decode w = Some a)).

(** A site, its loop and its replacement decoded; [la] and [sr] are the acquire
    bit of the load and the release bit of the store. *)
Inductive arm_site (words : list Z) (start : nat) (new : list Z) : Idiom -> Prop :=
  | arm_swap size la sr rs rt rv rn :
      arms words start [ArmLdxr size la rt rn; ArmStxr size sr rs rv rn; ArmCbz true false rs (-8)] ->
      decodes new [ArmAtomic AtomicSwp size la sr rv rt rn; zero_status rs; ArmNop] ->
      rs <> 31 -> rs <> rv -> rt <> rn -> rt <> 31 -> rv <> rt ->
      arm_site words start new Swap
  | arm_rmw size la sr rs rt rv rn op o alu mat aop f :
      arms words start [ArmLdxr size la rt rn; alu; ArmStxr size sr rs rv rn; ArmCbz true false rs (-12)] ->
      decodes new [mat; ArmAtomic aop size la sr rs rt rn; alu; zero_status rs] ->
      arm_of (Alu op (is_64 size) rv rt o) = Some alu -> register_only mat = true ->
      (forall g, exec_regs mat g = set_reg (is_64 size) rs (f g) g) ->
      (forall g old, wrap_u (size_bits size) (atomic_result aop old (wrap_u (size_bits size) (f g))) =
         wrap_u (size_bits size) (alu_result op old (operand_value o (is_64 size) g))) ->
      rs <> 31 -> rs <> rn -> rs <> rv -> rt <> rn -> rv <> rn -> rt <> 31 -> rv <> 31 -> rs <> rt ->
      operand_free o rs rt ->
      arm_site words start new Rmw.

Lemma arms_cons words i w a l : words !! i = Some w -> arm_decode w = Some a ->
  arms words (i + 1) l -> arms words i (a :: l).
Proof.
  intros Hw Ha Hl [|j] x; simpl.
  - intros [= <-]. exists w. by rewrite Nat.add_0_r.
  - intros Hx. destruct (Hl j x Hx) as (w' & ? & ?). exists w'. by rewrite <- Nat.add_assoc in *.
Qed.
Lemma arms_nil words i : arms words i [].
Proof. intros j a. by rewrite lookup_nil. Qed.

(** The decoded facts of an original word. *)
Lemma old_word words i w x : Forall is_u32 words -> words !! i = Some w -> decode w = x ->
  insn_ok x /\ forall a, arm_of x = Some a -> arm_decode w = Some a.
Proof.
  intros Hu Hw <-. assert (is_u32 w) by (by eapply Forall_lookup_1).
  split; [by apply decode_ok|]. intros a. by apply decode_arm.
Qed.
Lemma zero_status_word rs : is_reg rs -> arm_decode (mov_reg false rs ZR) = Some (zero_status rs).
Proof. intros. by apply arm_mov_reg. Qed.

(** Name the registers [decode] gave. *)
Ltac old_regs Hu H D A :=
  let Hok := fresh in
  destruct (old_word _ _ _ _ Hu H D) as [Hok A]; destruct Hok as (Hok & ? & ?);
  cbn [insn_regs] in Hok; repeat (apply Forall_cons in Hok as [? Hok]).

Lemma shape_arm words start i new : Forall is_u32 words -> shape words start i new ->
  arm_site words start new i.
Proof.
  intros Hu. destruct 1 as [size lo so rs rt rv rn wl ws wc H1 D1 H2 D2 H3 D3 N1 N2 N3 N4 N5 N6 N7 N8
    |size lo so rs rt rv rn op o m aop wl wa ws wc H1 D1 H2 D2 H3 D3 H4 D4 N1 N2 N3 N4 N5 N6 N7 N8 Ho Hm].
  - old_regs Hu H1 D1 A1. old_regs Hu H2 D2 A2. old_regs Hu H3 D3 A3.
    simpl in A1, A2. rewrite reg_neq_31 in A1, A2 by done.
    apply (arm_swap words start _ size (acquire lo) (LseInsn.release so) rs rt rv rn); try done.
    + eapply arms_cons; [done|by apply A1|]. eapply arms_cons; [done|by apply A2|].
      rewrite <- Nat.add_assoc. eapply arms_cons; [done|by apply A3|]. apply arms_nil.
    + constructor; [by apply (arm_atomic_word _ size (MkOrdering (acquire lo) (LseInsn.release so)))|]. constructor; [by apply zero_status_word|].
      by constructor.
  - old_regs Hu H1 D1 A1. old_regs Hu H3 D3 A3. old_regs Hu H4 D4 A4.
    destruct (old_word _ _ _ _ Hu H2 D2) as [[Hop Hrd]%alu_operand_ok A2].
    simpl in A1, A3. rewrite reg_neq_31 in A1, A3 by done.
    assert (exists alu, arm_of (Alu op (is_64 size) rv rt o) = Some alu) as [alu Halu].
    { destruct o; simpl in *; [eauto|]. rewrite reg_neq_31 by done. destruct op; simpl in Hm; try done; eauto. }
    destruct (materialise_word op o (is_64 size) rs m aop) as (mat & f & Hd & Hro & Hex & Hf); try done.
    apply (arm_rmw words start _ size (acquire lo) (LseInsn.release so) rs rt rv rn op o alu mat aop f); try done.
    + eapply arms_cons; [done|by apply A1|]. eapply arms_cons; [done|by apply A2|].
      rewrite <- Nat.add_assoc. eapply arms_cons; [done|by apply A3|].
      rewrite <- Nat.add_assoc. eapply arms_cons; [done|by apply A4|]. apply arms_nil.
    + constructor; [done|]. constructor; [by apply (arm_atomic_word _ size (MkOrdering (acquire lo) (LseInsn.release so)))|].
      constructor; [by apply A2|]. constructor; [by apply zero_status_word|constructor].
    + intros g old. apply Hf. apply size_width.
Qed.

(** The ordering bits of a site, and that its other words touch registers only. *)
Lemma arm_site_ordering words start new i : arm_site words start new i ->
  exists size la sr rs rt rv rn op rs' k wl ws a,
    words !! start = Some wl /\ arm_decode wl = Some (ArmLdxr size la rt rn) /\
    words !! (start + (length new - 2))%nat = Some ws /\
    arm_decode ws = Some (ArmStxr size sr rs rv rn) /\
    new !! k = Some a /\ arm_decode a = Some (ArmAtomic op size la sr rs' rt rn) /\
    forall j w, new !! j = Some w -> j <> k ->
      exists x, arm_decode w = Some x /\ register_only x = true.
Proof.
  intros [size la sr rs rt rv rn Hold Hnew _|size la sr rs rt rv rn op o alu mat aop f Hold Hnew Halu Hro _].
  - pose proof (Forall2_length _ _ _ Hnew) as Hl. simpl in Hl. rewrite Hl.
    destruct (Hold 0%nat _ eq_refl) as (wl & Hwl & Hdl). destruct (Hold 1%nat _ eq_refl) as (ws & Hws & Hds).
    destruct (Forall2_lookup_r _ _ _ 0%nat _ Hnew eq_refl) as (a & Ha & Hda). rewrite Nat.add_0_r in Hwl.
    eexists size, la, sr, rs, rt, rv, rn, _, _, 0%nat, wl, ws, a. split_and!; try done.
    intros j w Hw Hj. destruct (Forall2_lookup_l _ _ _ _ _ Hnew Hw) as (x & Hx & Hd).
    exists x. split; [done|]. destruct j as [|[|[|j]]]; [done| | |done]; by injection Hx as <-.
  - pose proof (Forall2_length _ _ _ Hnew) as Hl. simpl in Hl. rewrite Hl.
    destruct (Hold 0%nat _ eq_refl) as (wl & Hwl & Hdl). destruct (Hold 2%nat _ eq_refl) as (ws & Hws & Hds).
    destruct (Forall2_lookup_r _ _ _ 1%nat _ Hnew eq_refl) as (a & Ha & Hda). rewrite Nat.add_0_r in Hwl.
    eexists size, la, sr, rs, rt, rv, rn, _, _, 1%nat, wl, ws, a. split_and!; try done.
    intros j w Hw Hj. destruct (Forall2_lookup_l _ _ _ _ _ Hnew Hw) as (x & Hx & Hd).
    exists x. split; [done|]. apply alu_register_only in Halu.
    destruct j as [|[|[|[|j]]]]; [|done| | |done]; by injection Hx as <-.
Qed.

End LseSeq.

(** The rewritten range refines the original one: every run of the rewritten
    code, interleaved in any way with writes of other threads, is a run of the
    original code.

    The relation between the two machines has three parts.  Outside the interior
    of the patched sequences the states are equal.  Before a read-modify-write's
    atomic, the original still waits at the head of the loop.  From the atomic
    on, the original has run its loop once, its store-exclusive succeeding, and
    its registers are those the rest of the replacement leaves. *)

Module LseRefine.
Import LseInsn LseRewrite LseArm LseArmProps LseAlu LseSites LseSeq.

Section refine.
Context {M : Type}.
Context (other_step : Z -> state M -> state M -> Prop) (ext_step : state M -> state M -> Prop).
Context (c : section).

(** Where control can come from elsewhere: an address outside the range, a
    target or entry the planner was told of, and the return address of a call,
    direct or not. *)
Definition enters (a : Z) : Prop :=
  fetch (sec_words c) (sec_base c) a = None \/
  a ∈ sec_external c \/ a ∈ sec_known c \/
  exists i w, sec_words c !! i = Some w /\ a = addr_of (sec_base c) (i + 1) /\
    (decode w = Other \/ exists off, decode w = Branch true off).

(** What the words outside the reference subset may do to the program counter,
    unless they are among those the planner takes for unknown branches: fall
    through, take their direct branch, or, for a word [decode] does not know,
    transfer control to an address of [enters]. *)
Definition other_ok : Prop := forall w s s',
  unknown_direct_branch_possible w = false -> other_step w s s' ->
  pc s' = next_pc (pc s) \/
  (exists off, insn_offset (decode w) = Some off /\ pc s' = wrap_u 64 (pc s + off)) \/
  (decode w = Other /\ enters (pc s')).
Definition ext_ok : Prop := forall s s', ext_step s s' -> enters (pc s').

Abbreviation old_step := (step other_step ext_step (sec_words c) (sec_base c)).

Hypothesis Hu : Forall is_u32 (sec_words c).
Hypothesis Hfit : fits (sec_base c) (length (sec_words c)).
Hypothesis Hother : other_ok.
Hypothesis Hext : ext_ok.
Context (r : Report) (words' : list Z).
Hypothesis Hrw : rewritten c r words'.
Abbreviation new_step := (step other_step ext_step words' (sec_base c)).

Abbreviation addr := (addr_of (sec_base c)).

(** * Program counters *)

Definition interior (a : Z) : Prop :=
  exists s i, s ∈ patched r /\ (site_start c s < i < site_end c s)%nat /\ a = addr i.

Lemma site_bounds s : s ∈ patched r ->
  (3 <= length (site_words s))%nat /\ (site_end c s <= length (sec_words c))%nat.
Proof. intros H. destruct (rw_sites _ _ _ Hrw s H) as [_ Hs _]. by apply shape_length in Hs. Qed.

Lemma addr_exact i : (i <= length (sec_words c))%nat -> addr i = sec_base c + 4 * Z.of_nat i.
Proof. by apply addr_of_exact. Qed.
Lemma addr_inj i j : (i <= length (sec_words c))%nat -> (j <= length (sec_words c))%nat ->
  addr i = addr j -> i = j.
Proof. intros Hi Hj. rewrite !addr_exact by done. lia. Qed.
Lemma fetch_addr code i : length code = length (sec_words c) -> (i <= length (sec_words c))%nat ->
  fetch code (sec_base c) (addr i) = code !! i.
Proof.
  intros Hl Hi. unfold fetch. rewrite addr_exact by done.
  replace (sec_base c + 4 * Z.of_nat i - sec_base c) with (Z.of_nat i * 4) by lia.
  rewrite Z.mod_mul, Z.div_mul, Nat2Z.id by lia.
  by rewrite (proj2 (Z.leb_le _ _)) by lia.
Qed.
Lemma fetch_Some code a w : length code = length (sec_words c) ->
  fetch code (sec_base c) a = Some w ->
  exists i, a = addr i /\ (i < length (sec_words c))%nat /\ code !! i = Some w.
Proof.
  intros Hl. unfold fetch. destruct (Z.leb_spec (sec_base c) a); [|done].
  destruct (Z.eqb_spec ((a - sec_base c) mod 4) 0) as [Hm|]; [|done]. simpl. intros Hw.
  exists (Z.to_nat ((a - sec_base c) / 4)). pose proof (lookup_lt_Some _ _ _ Hw) as Hlt.
  pose proof (Z.div_mod (a - sec_base c) 4). pose proof (Z.div_pos (a - sec_base c) 4).
  rewrite addr_exact by lia. split_and!; [lia|lia|done].
Qed.
Lemma next_addr i : (i < length (sec_words c))%nat -> next_pc (addr i) = addr (i + 1).
Proof.
  intros Hi. unfold next_pc. rewrite !addr_exact by lia. destruct Hfit.
  rewrite wrap_small by lia. lia.
Qed.

Lemma interior_index i s : (i <= length (sec_words c))%nat -> s ∈ patched r ->
  (site_start c s < i < site_end c s)%nat -> interior (addr i).
Proof. intros. by exists s, i. Qed.
Lemma interior_inv i : (i <= length (sec_words c))%nat -> interior (addr i) ->
  exists s, s ∈ patched r /\ (site_start c s < i < site_end c s)%nat.
Proof.
  intros Hi (s & j & Hs & Hj & E). destruct (site_bounds s Hs).
  apply addr_inj in E; [subst; eauto|done|lia].
Qed.

(** The end of a site is not in the interior of one. *)
Lemma site_end_outside s : s ∈ patched r -> ~ interior (addr (site_end c s)).
Proof.
  intros Hs Hi. destruct (site_bounds s Hs) as [? ?].
  apply interior_inv in Hi as (s' & Hs' & Hi); [|done].
  destruct (rw_apart _ _ _ Hrw s s' Hs Hs') as [->|[H1|H1]]; [lia|lia|]. unfold site_end in *. lia.
Qed.

(** Falling through does not reach an interior from outside a site. *)
Lemma next_outside i : (i < length (sec_words c))%nat ->
  (forall s, s ∈ patched r -> ~ (site_start c s <= i < site_end c s)%nat) ->
  ~ interior (addr (i + 1)).
Proof.
  intros Hi Hout Hn. apply interior_inv in Hn as (s & Hs & Hr); [|lia]. apply (Hout s Hs). lia.
Qed.

Lemma enters_outside a : enters a -> ~ interior a.
Proof.
  intros He (s & i & Hs & Hi & ->). destruct (site_bounds s Hs) as [Hl Hb].
  pose proof (rw_sites _ _ _ Hrw s Hs) as Hat.
  destruct (interior_not_entered _ _ _ i Hat) as [Ht Hk]; [unfold site_end in *; lia|].
  destruct He as [He|[He|[He|(j & w & Hw & E & Hd)]]].
  - rewrite fetch_addr in He by (done || lia). apply lookup_ge_None in He. lia.
  - apply Ht. unfold sec_targets. set_solver.
  - done.
  - pose proof (lookup_lt_Some _ _ _ Hw). apply addr_inj in E; [|lia|lia]. subst i.
    destruct Hat as [_ Hsh _]. unfold site_end in Hi.
    assert (exists d, j = site_start c s + d /\ d < length (site_words s) - 1)%nat as (d & -> & Hdl)
      by (exists (j - site_start c s)%nat; lia).
    destruct Hsh; simpl in Hdl.
    all: (destruct d as [|[|[|d]]]; rewrite ?Nat.add_0_r in Hw; try lia;
      destruct Hd as [Hd|[off Hd]]; congruence).
Qed.

Lemma branch_outside i w off : sec_words c !! i = Some w -> insn_offset (decode w) = Some off ->
  ~ interior (wrap_u 64 (addr i + off)).
Proof.
  intros Hw Ho (s & j & Hs & Hj & E). destruct (site_bounds s Hs).
  destruct (interior_not_entered _ _ _ j (rw_sites _ _ _ Hrw s Hs)) as [Ht _]; [unfold site_end in *; lia|].
  apply Ht. rewrite <- E. pose proof (direct_target_known c i w off Hw Ho) as Hin.
  unfold branch_target in Hin. by rewrite wrap_add_r in Hin.
Qed.

(** * The simulation *)

Definition agree_rest (so sr : state M) : Prop := mem so = mem sr /\ misc so = misc sr.

(** [tail] is what is left of the replacement from its word [j] on. *)
Definition tail_of (s : Site) (j : nat) (tail : list arm_insn) : Prop :=
  Forall2 (fun w a => arm_decode w = Some a /\ register_only a = true) (drop j (site_words s)) tail.

Inductive sim (so sr : state M) : Prop :=
  | sim_same : so = sr -> ~ interior (pc sr) -> sim so sr
  | sim_pending s a : s ∈ patched r -> site_idiom s = Rmw ->
      (w ← head (site_words s); arm_decode w) = Some a ->
      pc so = addr (site_start c s) -> pc sr = addr (site_start c s + 1) ->
      regs sr = exec_regs a (regs so) -> agree_rest so sr -> sim so sr
  | sim_done s j tail : s ∈ patched r -> (1 <= j < length (site_words s))%nat -> tail_of s j tail ->
      pc so = addr (site_end c s) -> pc sr = addr (site_start c s + j) ->
      regs so = regs_all tail (regs sr) -> agree_rest so sr -> sim so sr.

Lemma state_eq (s s' : state M) : regs s = regs s' -> pc s = pc s' -> agree_rest s s' -> s = s'.
Proof. destruct s, s'. unfold agree_rest. simpl. naive_solver. Qed.

(** Other threads' writes. *)
Lemma sim_env so sr m : sim so sr ->
  exists so', rtc old_step so so' /\ sim so' (goto (regs sr) (pc sr) m sr).
Proof.
  intros H. exists (goto (regs so) (pc so) m so). split; [apply rtc_once; constructor|].
  destruct H as [-> Hi|s a ?????? [_ ?]|s j tail ?????? [_ ?]].
  - by apply sim_same.
  - by eapply (sim_pending _ _ s a).
  - by eapply (sim_done _ _ s j tail).
Qed.

Lemma exec_pc a ok (s : state M) : (forall nz sf rt off, a <> ArmCbz nz sf rt off) ->
  pc (arm_exec a ok s) = next_pc (pc s).
Proof. destruct a, ok; simpl; try done; intros H; by edestruct H. Qed.

(** The loop of a site in the original code, run once with success: all but its
    last instruction fall through. *)
Lemma old_run l i (s : state M) : pc s = addr i -> (i + length l <= length (sec_words c))%nat ->
  arms (sec_words c) i l ->
  Forall (fun a => forall nz sf rt off, a <> ArmCbz nz sf rt off) (removelast l) ->
  rtc old_step s (exec_all l s).
Proof.
  revert i s. induction l as [|a l IH]; intros i s Hpc Hlen Hw Hp; [constructor|].
  cbn [length] in Hlen. destruct (Hw 0%nat a eq_refl) as (w & Hwi & Ha). rewrite Nat.add_0_r in Hwi.
  eapply rtc_l; [eapply (step_arm _ _ _ _ s w a true); [rewrite Hpc, fetch_addr by (done || lia)|]; done|].
  destruct l as [|b l]; [constructor|]. apply Forall_cons in Hp as [Hnb Hp]. apply (IH (i + 1)%nat).
  - rewrite exec_pc by done. rewrite Hpc. apply next_addr. lia.
  - lia.
  - intros j x Hx. destruct (Hw (S j) x Hx) as (w' & ? & ?). exists w'. by rewrite <- Nat.add_assoc.
  - done.
Qed.

(** A step of the rewritten code at a word that decodes. *)
Lemma new_step_at i w a sr sr' : pc sr = addr i -> (i < length (sec_words c))%nat ->
  words' !! i = Some w -> arm_decode w = Some a -> new_step sr sr' ->
  (exists m, sr' = goto (regs sr) (pc sr) m sr) \/ exists ok, sr' = arm_exec a ok sr.
Proof.
  intros Hpc Hi Hw Ha Hst.
  assert (fetch words' (sec_base c) (pc sr) = Some w) as Hf.
  { rewrite Hpc, fetch_addr; [done|by apply (rw_length _ _ _ Hrw)|lia]. }
  destruct Hst as [s m|s w' a' ok Hf' Ha'|s s' w' Hf' Ha'|s s' Hf']; [eauto| | |].
  - right. exists ok. congruence.
  - congruence.
  - congruence.
Qed.

(** The last words of a replacement. *)
Lemma sim_done_step s j tail so sr sr' : s ∈ patched r -> (1 <= j < length (site_words s))%nat ->
  tail_of s j tail -> pc so = addr (site_end c s) -> pc sr = addr (site_start c s + j) ->
  regs so = regs_all tail (regs sr) -> agree_rest so sr -> new_step sr sr' ->
  exists so', rtc old_step so so' /\ sim so' sr'.
Proof.
  intros Hs Hj Ht Hpo Hpr Hg Hag Hst. destruct (site_bounds s Hs) as [_ Hb]. unfold site_end in *.
  destruct (lookup_Some_lt (site_words s) j) as [w Hw]; [lia|].
  pose proof (drop_S _ _ _ Hw) as Hdrop. unfold tail_of in Ht. rewrite Hdrop in Ht.
  apply Forall2_cons_inv_l in Ht as (a & tail' & [Ha Hro] & Ht & ->).
  destruct (new_step_at (site_start c s + j) w a sr sr') as [[m ->]|[ok ->]]; try done; [lia| | |].
  - by rewrite (rw_inside _ _ _ Hrw) by (done || lia).
  - apply sim_env. eapply (sim_done _ _ s j (a :: tail')); try done.
    unfold tail_of. rewrite Hdrop. by constructor.
  - exists so. split; [done|]. rewrite (exec_register_only a ok sr Hro).
    assert (next_pc (pc sr) = addr (site_start c s + (j + 1))) as Hn.
    { rewrite Hpr, next_addr by lia. f_equal. lia. }
    destruct (decide (j + 1 < length (site_words s))%nat) as [Hlt|Hge].
    + eapply (sim_done _ _ s (j + 1)%nat tail'); try done; [lia|]. unfold tail_of.
      by rewrite Nat.add_1_r.
    + assert (site_start c s + (j + 1) = site_start c s + length (site_words s))%nat as E by lia.
      rewrite E in Hn. apply sim_same.
      * apply state_eq; simpl; [|congruence|done]. rewrite drop_ge in Ht by lia.
        apply Forall2_nil_inv_l in Ht as ->. done.
      * simpl. rewrite Hn. by apply site_end_outside.
Qed.

Lemma site_arm s : s ∈ patched r ->
  arm_site (sec_words c) (site_start c s) (site_words s) (site_idiom s).
Proof. intros H. destruct (rw_sites _ _ _ Hrw s H). by apply shape_arm. Qed.

(** The word of the rewritten code at position [j] of a site. *)
Lemma new_word s l j a : s ∈ patched r -> decodes (site_words s) l -> l !! j = Some a ->
  exists w, words' !! (site_start c s + j)%nat = Some w /\ arm_decode w = Some a /\
    (site_start c s + j < length (sec_words c))%nat /\ length (site_words s) = length l.
Proof.
  intros Hs Hd Hj. destruct (Forall2_lookup_r _ _ _ _ _ Hd Hj) as (w & Hw & Ha).
  pose proof (lookup_lt_Some _ _ _ Hw). destruct (site_bounds s Hs) as [_ Hb].
  exists w. rewrite (rw_inside _ _ _ Hrw) by done. unfold site_end in Hb. split_and!; try done; [lia|].
  by apply Forall2_length in Hd.
Qed.
Lemma tail_decodes s l j : decodes (site_words s) l ->
  Forall (fun a => register_only a = true) (drop j l) -> tail_of s j (drop j l).
Proof.
  intros Hd Hr. unfold tail_of. apply (Forall2_drop _ _ _ j) in Hd.
  induction Hd as [|w a ws l' Ha Hd IH]; [constructor|]. apply Forall_cons in Hr as [? ?].
  constructor; auto.
Qed.

Lemma next_next i : (i + 1 < length (sec_words c))%nat -> next_pc (next_pc (addr i)) = addr (i + 2).
Proof. intros. rewrite !next_addr by lia. f_equal. lia. Qed.

(** The first word of a replacement, from equal states at the head of the loop. *)
Lemma swap_head_step s sr sr' : s ∈ patched r -> site_idiom s = Swap ->
  pc sr = addr (site_start c s) -> ~ interior (pc sr) -> new_step sr sr' ->
  exists so', rtc old_step sr so' /\ sim so' sr'.
Proof.
  intros Hs Hid Hpc Hint Hst. pose proof (site_arm s Hs) as Hsite. rewrite Hid in Hsite.
  inversion Hsite as [size la sl rs rt rv rn Hold Hnew N1 N2 N3 N4 N5|]; subst.
  destruct (new_word s _ 0 _ Hs Hnew eq_refl) as (w & Hw & Ha & Hlt & Hlen). rewrite Nat.add_0_r in *.
  destruct (site_bounds s Hs) as [_ Hb]. unfold site_end in Hb. rewrite Hlen in Hb. cbn [length] in *.
  destruct (new_step_at (site_start c s) w _ sr sr' Hpc Hlt Hw Ha Hst) as [[m ->]|[ok ->]].
  { apply sim_env. by apply sim_same. }
  eexists. split.
  { eapply (old_run _ (site_start c s)); [done| |done|]; [simpl; lia|]. repeat constructor; discriminate. }
  rewrite (swap_loop size la sl rs rt rv rn (-8) la sl sr) by done. cbv zeta.
  eapply (sim_done _ _ s 1 [zero_status rs; ArmNop]); [done|rewrite Hlen; lia| | | |done|done].
  - apply (tail_decodes s _ 1 Hnew). by repeat constructor.
  - cbn [goto pc arm_exec]. rewrite Hpc, next_addr, next_next by lia. unfold site_end. rewrite Hlen. f_equal. lia.
  - cbn [goto pc arm_exec]. by rewrite Hpc, next_addr.
Qed.

Lemma rmw_head_step s sr sr' : s ∈ patched r -> site_idiom s = Rmw ->
  pc sr = addr (site_start c s) -> ~ interior (pc sr) -> new_step sr sr' ->
  exists so', rtc old_step sr so' /\ sim so' sr'.
Proof.
  intros Hs Hid Hpc Hint Hst. pose proof (site_arm s Hs) as Hsite. rewrite Hid in Hsite.
  inversion Hsite as [|size la sl rs rt rv rn op o alu mat aop f Hold Hnew Halu Hro Hex]; subst.
  destruct (new_word s _ 0 _ Hs Hnew eq_refl) as (w & Hw & Ha & Hlt & Hlen). rewrite Nat.add_0_r in *.
  destruct (new_step_at (site_start c s) w _ sr sr' Hpc Hlt Hw Ha Hst) as [[m ->]|[ok ->]].
  { apply sim_env. by apply sim_same. }
  exists sr. split; [done|]. rewrite (exec_register_only mat ok sr Hro).
  eapply (sim_pending _ _ s mat); [done|done| |done| |done|done].
  - destruct (Forall2_cons_inv_r _ _ _ _ Hnew) as (w0 & ws0 & Hw0 & _ & ->). done.
  - cbn [goto pc]. by rewrite Hpc, next_addr.
Qed.

Lemma sim_pending_step s a so sr sr' : s ∈ patched r -> site_idiom s = Rmw ->
  (w ← head (site_words s); arm_decode w) = Some a ->
  pc so = addr (site_start c s) -> pc sr = addr (site_start c s + 1) ->
  regs sr = exec_regs a (regs so) -> agree_rest so sr -> new_step sr sr' ->
  exists so', rtc old_step so so' /\ sim so' sr'.
Proof.
  intros Hs Hid Hh Hpo Hpr Hg Hag Hst. pose proof (site_arm s Hs) as Hsite. rewrite Hid in Hsite.
  inversion Hsite as [|size la sl rs rt rv rn op o alu mat aop f Hold Hnew Halu Hro Hex Hop]; subst.
  assert (a = mat) as ->.
  { destruct (Forall2_cons_inv_r _ _ _ _ Hnew) as (w0 & ws0 & Hw0 & _ & E). rewrite E in Hh. simpl in Hh. congruence. }
  destruct (new_word s _ 1 _ Hs Hnew eq_refl) as (w & Hw & Ha & Hlt & Hlen).
  destruct (site_bounds s Hs) as [_ Hb]. unfold site_end in Hb. rewrite Hlen in Hb. cbn [length] in *.
  destruct (new_step_at (site_start c s + 1) w _ sr sr' Hpr Hlt Hw Ha Hst) as [[m ->]|[ok ->]].
  { apply sim_env. by eapply (sim_pending _ _ s mat). }
  eexists. split.
  { eapply (old_run _ (site_start c s)); [done| |done|]; [simpl; lia|].
    repeat constructor; try discriminate. intros ???? ->. by apply alu_register_only in Halu. }
  rewrite (rmw_loop size la sl rs rt rv rn op o alu (-12) aop la sl f so) by done. cbv zeta.
  replace (goto _ _ (mem so) so) with sr.
  2: { symmetry. apply state_eq; [by rewrite Hg, Hex| |done]. cbn [goto pc]. rewrite Hpo, Hpr. apply next_addr. lia. }
  eapply (sim_done _ _ s 2 [alu; zero_status rs]); [done|rewrite Hlen; lia| | | |done|done].
  - apply (tail_decodes s _ 2 Hnew). repeat constructor. by eapply alu_register_only.
  - cbn [goto pc arm_exec]. rewrite Hpr, next_addr, next_next by lia. unfold site_end. rewrite Hlen. f_equal. lia.
  - cbn [goto pc arm_exec]. rewrite Hpr, next_addr by lia. f_equal. lia.
Qed.

(** * Steps outside the sites *)

Lemma outside_arm i w a ok (s : state M) : (i < length (sec_words c))%nat -> pc s = addr i ->
  (forall x, x ∈ patched r -> ~ (site_start c x <= i < site_end c x)%nat) ->
  sec_words c !! i = Some w -> arm_decode w = Some a -> ~ interior (pc (arm_exec a ok s)).
Proof.
  intros Hi Hpc Hout Hw Ha. assert (is_u32 w) as Hwu by (by eapply Forall_lookup_1).
  assert (~ interior (next_pc (pc s))) as Hn by (rewrite Hpc, next_addr by done; by apply next_outside).
  destruct a; try (by rewrite exec_pc).
  cbn [arm_exec goto pc]. destruct (xorb _ _); [|done].
  rewrite Hpc. eapply branch_outside; [done|]. by rewrite (arm_cbz_decode w _ _ _ _ Hwu Ha).
Qed.

Lemma outside_other i w (s s' : state M) : (i < length (sec_words c))%nat -> pc s = addr i ->
  (forall x, x ∈ patched r -> ~ (site_start c x <= i < site_end c x)%nat) ->
  sec_words c !! i = Some w -> other_step w s s' -> ~ interior (pc s').
Proof.
  intros Hi Hpc Hout Hw Hst. destruct (rw_classified _ _ _ Hrw) as [E|Hk].
  { intros (x & _ & Hx & _). rewrite E in Hx. by apply elem_of_nil in Hx. }
  destruct (Hother w s s') as [->|[(off & Ho & ->)|[_ He]]]; try done.
  - by apply (Forall_lookup_1 _ _ _ _ Hk Hw).
  - rewrite Hpc, next_addr by done. by apply next_outside.
  - rewrite Hpc. by eapply branch_outside.
  - by apply enters_outside.
Qed.

(** Equal states outside the sites take the same step. *)
Lemma outside_step (s s' : state M) : ~ interior (pc s) -> new_step s s' ->
  (forall x, x ∈ patched r -> pc s <> addr (site_start c x)) -> old_step s s' /\ ~ interior (pc s').
Proof.
  intros Hint Hst Hhead. pose proof (rw_length _ _ _ Hrw) as Hl.
  assert (forall i, (i < length (sec_words c))%nat -> pc s = addr i ->
    (forall x, x ∈ patched r -> ~ (site_start c x <= i < site_end c x)%nat)) as Hout.
  { intros i Hi Hpc x Hx Hr. apply Hint. rewrite Hpc. apply (interior_index i x); [lia|done|].
    assert (site_start c x <> i) by (intros <-; by apply (Hhead x Hx)). lia. }
  assert (forall i w, (i < length (sec_words c))%nat -> pc s = addr i -> words' !! i = Some w ->
    sec_words c !! i = Some w /\ fetch (sec_words c) (sec_base c) (pc s) = Some w) as Hsame.
  { intros i w Hi Hpc Hw. rewrite (rw_outside _ _ _ Hrw) in Hw by (by apply Hout).
    split; [done|]. by rewrite Hpc, fetch_addr by (done || lia). }
  destruct Hst as [s m|s w a ok Hf Ha|s s' w Hf Ha Ho|s s' Hf He].
  - split; [constructor|done].
  - destruct (fetch_Some _ _ _ Hl Hf) as (i & Hpc & Hi & Hw). destruct (Hsame i w Hi Hpc Hw) as [Hw' Hf'].
    split; [by eapply step_arm|]. eapply (outside_arm i); eauto.
  - destruct (fetch_Some _ _ _ Hl Hf) as (i & Hpc & Hi & Hw). destruct (Hsame i w Hi Hpc Hw) as [Hw' Hf'].
    split; [by eapply step_other|]. eapply (outside_other i); eauto.
  - split; [|apply enters_outside; by eapply Hext]. apply step_ext; [|done].
    destruct (fetch (sec_words c) (sec_base c) (pc s)) as [w|] eqn:Hf'; [|done].
    destruct (fetch_Some (sec_words c) _ _ eq_refl Hf') as (i & Hpc & Hi & Hw).
    rewrite Hpc, fetch_addr in Hf by (done || lia). apply lookup_ge_None in Hf. lia.
Qed.

Lemma head_dec (s : state M) : (exists x, x ∈ patched r /\ pc s = addr (site_start c x)) \/
  (forall x, x ∈ patched r -> pc s <> addr (site_start c x)).
Proof.
  induction (patched r) as [|x l IH]; [right; set_solver|].
  destruct (decide (pc s = addr (site_start c x))); [left; set_solver|].
  destruct IH as [(y & ? & ?)|IH]; [left; set_solver|right].
  intros y [->|?]%elem_of_cons; auto.
Qed.

Lemma sim_step so sr sr' : sim so sr -> new_step sr sr' ->
  exists so', rtc old_step so so' /\ sim so' sr'.
Proof.
  intros [-> Hi|s a|s j tail] Hst.
  - destruct (head_dec sr) as [(s & Hs & Hpc)|Hno].
    + pose proof (site_arm s Hs) as Hsite. destruct (site_idiom s) eqn:Hid; [| |by inversion Hsite..].
      * by eapply rmw_head_step.
      * by eapply swap_head_step.
    + destruct (outside_step sr sr' Hi Hst Hno). exists sr'. split; [by apply rtc_once|by apply sim_same].
  - by eapply sim_pending_step.
  - by eapply sim_done_step.
Qed.

Lemma sim_steps so sr sr' : sim so sr -> rtc new_step sr sr' ->
  exists so', rtc old_step so so' /\ sim so' sr'.
Proof.
  intros Hsim Hrun. revert so Hsim. induction Hrun as [sr|sr sr1 sr2 Hst _ IH]; intros so Hsim.
  { exists so. by split. }
  destruct (sim_step _ _ _ Hsim Hst) as (so1 & Hr1 & Hs1). destruct (IH so1 Hs1) as (so2 & Hr2 & Hs2).
  exists so2. split; [by etrans|done].
Qed.

(** A related state outside the interiors is the same one. *)
Lemma sim_outside so sr : sim so sr -> ~ interior (pc sr) -> so = sr.
Proof.
  intros [-> _|s a Hs ? _ _ Hpc _ _|s j tail Hs Hj _ _ Hpc _ _] Hi; [done| |]; exfalso; apply Hi; rewrite Hpc.
  - destruct (site_bounds s Hs). apply (interior_index _ s); unfold site_end in *; [lia|done|lia].
  - destruct (site_bounds s Hs). apply (interior_index _ s); unfold site_end in *; [lia|done|lia].
Qed.

Lemma rewritten_refines s s' : ~ interior (pc s) -> rtc new_step s s' -> ~ interior (pc s') ->
  rtc old_step s s'.
Proof.
  intros H1 Hrun H2. destruct (sim_steps s s s') as (so & Hr & Hs); [by apply sim_same|done|].
  by rewrite <- (sim_outside _ _ Hs H2).
Qed.

(** * Straight runs and retries *)

Abbreviation falls_through := (fun a => forall nz sf rt off, a <> ArmCbz nz sf rt off).

Lemma run_app code oks oks' (s : state M) :
  run code (sec_base c) (oks ++ oks') s = run code (sec_base c) oks s ≫= run code (sec_base c) oks'.
Proof.
  revert s. induction oks as [|ok oks IH]; intros s; simpl; [done|].
  destruct (fetch _ _ _) as [w|]; simpl; [|done]. destruct (arm_decode w); simpl; [apply IH|done].
Qed.

Lemma run_straight code i l oks (s : state M) : length code = length (sec_words c) ->
  arms code i l -> (i + length l <= length (sec_words c))%nat -> Forall falls_through l ->
  length oks = length l -> pc s = addr i ->
  exists s', run code (sec_base c) oks s = Some s' /\ pc s' = addr (i + length l).
Proof.
  intros Hl. revert i oks s. induction l as [|a l IH]; intros i [|ok oks] s Har Hlen Hf Ho Hpc; try done.
  { exists s. by rewrite Nat.add_0_r. }
  simpl in Hlen, Ho. apply Forall_cons in Hf as [Ha Hf].
  destruct (Har 0%nat a eq_refl) as (w & Hw & Hd). rewrite Nat.add_0_r in Hw.
  cbn [run]. rewrite Hpc, fetch_addr, Hw by (done || lia). simpl. rewrite Hd. simpl.
  destruct (IH (i + 1)%nat oks (arm_exec a ok s)) as (s' & Hr & Hp); [| |done| | |].
  - intros j x Hx. destruct (Har (S j) x Hx) as (w' & ? & ?). exists w'. by rewrite <- Nat.add_assoc.
  - lia.
  - lia.
  - rewrite exec_pc by done. rewrite Hpc. apply next_addr. lia.
  - exists s'. split; [done|]. rewrite Hp. f_equal. simpl. lia.
Qed.

Lemma new_arms s l : s ∈ patched r -> decodes (site_words s) l -> arms words' (site_start c s) l.
Proof. intros Hs Hd j a Hj. destruct (new_word s l j a Hs Hd Hj) as (w & ? & ? & _). eauto. Qed.

(** One round of a loop whose store-exclusive fails is back at its head. *)
Lemma retry_round i l size sl rs rv rn k (s : state M) :
  arms (sec_words c) i (l ++ [ArmStxr size sl rs rv rn; ArmCbz true false rs (-4 * Z.of_nat (length l + 1))]) ->
  (i + length l + 2 <= length (sec_words c))%nat -> Forall falls_through l -> rs <> 31 ->
  k = (length l + 2)%nat -> pc s = addr i ->
  exists s', run (sec_words c) (sec_base c) (replicate k false) s = Some s' /\ pc s' = addr i.
Proof.
  intros Har Hlen Hf Hrs -> Hpc.
  assert (arms (sec_words c) i l) as Hl.
  { intros j a Hj. apply Har. by rewrite lookup_app_l by (by eapply lookup_lt_Some). }
  destruct (run_straight (sec_words c) i l (replicate (length l) false) s) as (s1 & Hr & Hp); try done; [lia|by rewrite length_replicate|].
  rewrite replicate_add, run_app, Hr. cbn [mbind option_bind replicate].
  destruct (Har (length l) (ArmStxr size sl rs rv rn)) as (w1 & Hw1 & Hd1).
  { by rewrite lookup_app_r, Nat.sub_diag by lia. }
  destruct (Har (length l + 1)%nat (ArmCbz true false rs (-4 * Z.of_nat (length l + 1)))) as (w2 & Hw2 & Hd2).
  { by rewrite lookup_app_r, Nat.add_sub' by lia. }
  cbn [run]. rewrite Hp, fetch_addr, Hw1 by (done || lia). cbn [mbind option_bind]. rewrite Hd1.
  cbn [mbind option_bind arm_exec goto pc]. rewrite Hp, next_addr by lia. rewrite <- Nat.add_assoc.
  rewrite fetch_addr, Hw2 by (done || lia). cbn [mbind option_bind]. rewrite Hd2.
  cbn [mbind option_bind]. eexists. split; [done|]. cbn [arm_exec goto pc regs].
  rewrite get_set_same by done. cbn [xorb Z.eqb]. change (wrap_u _ _ =? 0) with false. cbn [xorb].
  rewrite !addr_exact by lia. destruct Hfit. rewrite wrap_small by lia. lia.
Qed.

Lemma retry_rounds s (st : state M) n : s ∈ patched r -> pc st = addr (site_start c s) ->
  exists st', run (sec_words c) (sec_base c) (replicate (n * length (site_words s)) false) st = Some st' /\
    pc st' = addr (site_start c s).
Proof.
  intros Hs. revert st. induction n as [|n IH]; intros st Hpc; [by exists st|].
  destruct (site_bounds s Hs) as [_ Hb]. unfold site_end in Hb.
  assert (exists st1, run (sec_words c) (sec_base c) (replicate (length (site_words s)) false) st = Some st1 /\
    pc st1 = addr (site_start c s)) as (st1 & Hr1 & Hp1).
  { destruct (site_arm s Hs) as [size la sl rs rt rv rn Hold Hnew|size la sl rs rt rv rn op o alu mat aop f Hold Hnew Halu].
    - apply Forall2_length in Hnew. simpl in Hnew. rewrite Hnew in Hb.
      apply (retry_round _ [ArmLdxr size la rt rn] size sl rs rv rn); try done; [simpl; lia|].
      repeat constructor; discriminate.
    - apply Forall2_length in Hnew. simpl in Hnew. rewrite Hnew in Hb.
      apply (retry_round _ [ArmLdxr size la rt rn; alu] size sl rs rv rn); try done; [simpl; lia|].
      repeat constructor; [discriminate|]. intros ???? ->. by apply alu_register_only in Halu. }
  destruct (IH st1 Hp1) as (st2 & Hr2 & Hp2). exists st2. split; [|done].
  simpl. by rewrite replicate_add, run_app, Hr1.
Qed.

Lemma replacement_leaves s (st : state M) oks : s ∈ patched r -> pc st = addr (site_start c s) ->
  length oks = length (site_words s) ->
  exists st', run words' (sec_base c) oks st = Some st' /\ pc st' = addr (site_end c s).
Proof.
  intros Hs Hpc Ho. destruct (site_bounds s Hs) as [_ Hb]. unfold site_end in *.
  destruct (site_arm s Hs) as [size la sl rs rt rv rn _ Hnew|size la sl rs rt rv rn op o alu mat aop f _ Hnew Halu Hro].
  all: pose proof (Forall2_length _ _ _ Hnew) as Hl; rewrite Hl in *; eapply run_straight; try done;
    [by apply (rw_length _ _ _ Hrw)|by apply new_arms|].
  - repeat constructor; discriminate.
  - repeat constructor; try discriminate; intros ???? ->; [done|by apply alu_register_only in Halu].
Qed.

End refine.

End LseRefine.
