(* ===== verification/LseProps.v ===== *)
(** The rewriter's correctness: the rewritten range refines the original, its
    sequences cannot retry, the plan patches only whole canonical loops nothing
    enters, and it accounts for every store-exclusive of the range. *)
From S2P Require Import Prelude LseInsn LseRewrite LseArm LseArmProps LseSites LseSeq.
From stdpp Require Import base gmap list sorting.
Open Scope Z_scope.

Module LseProps.
Import LseInsn LseRewrite LseArm LseArmProps LseAlu LseSites LseSeq LseRefine.


(** A loop that adds one to a counter, with a branch back to it from outside and
    a return, is rewritten. *)
Definition counter_loop : list Z :=
  [0xc85ffc64; 0x91000484; 0xc805fc64; 0x35ffffa5; 0x17fffffc; 0xd65f03c0].

(** C18: a rewritten sequence cannot retry.  From its head, as many instructions
    as it is long lead to its end, whatever the outcomes of store-exclusives; the
    loop it replaces, while its store-exclusive fails, is back at its head after
    every round, for any number of rounds. *)
Theorem replacement_cannot_retry {M : Type} (words : list Z) (base : Z)
  (external_targets known_entries : gset Z)
  (Hwords : Forall is_u32 words) (Hfit : fits base (length words)) :
  exists r words',
    plan_with_entries words base external_targets known_entries = Done r /\
    apply words base r = Done words' /\
    forall site (s : state M), site ∈ patched r -> pc s = site_addr site ->
      (forall oks, length oks = length (site_words site) ->
         exists s', run words' base oks s = Some s' /\
           pc s' = site_addr site + 4 * Z.of_nat (length (site_words site))) /\
      (forall n, exists s', run words base (replicate (n * length (site_words site)) false) s = Some s' /\
         pc s' = site_addr site).
Proof.
  destruct (plan_entries_rewritten words base external_targets known_entries Hwords Hfit)
    as (r & words' & Hp & Ha & Hrw).
  exists r, words'. split_and!; [done|done|]. intros site s Hs Hpc.
  set (c := MkSection words base external_targets known_entries) in *.
  pose proof (site_at_addr _ _ _ (rw_sites _ _ _ Hrw site Hs)) as E. rewrite E in *. split.
  - intros oks Ho. destruct (replacement_leaves c Hwords Hfit r words' Hrw site s oks Hs Hpc Ho)
      as (s' & Hr & Hp'). exists s'. split; [done|]. rewrite Hp'.
    destruct (site_bounds c r words' Hrw site Hs). unfold site_end in *.
    rewrite !(addr_of_exact _ (length words)) by (done || (cbn in *; lia)). cbn [sec_base c]. lia.
  - intros n. exact (retry_rounds c Hwords Hfit r words' Hrw site s n Hs Hpc).
Qed.

Lemma replacement_cannot_retry_witness :
  exists r words', plan_with_entries counter_loop 0x1000 ∅ ∅ = Done r /\ length (patched r) = 1%nat /\
    forall site (s : state unit), site ∈ patched r -> pc s = site_addr site ->
      (forall oks, length oks = length (site_words site) ->
         exists s', run words' 0x1000 oks s = Some s' /\
           pc s' = site_addr site + 4 * Z.of_nat (length (site_words site))) /\
      (forall n, exists s', run counter_loop 0x1000 (replicate (n * length (site_words site)) false) s = Some s' /\
         pc s' = site_addr site).
Proof.
  destruct (replacement_cannot_retry (M := unit) counter_loop 0x1000 ∅ ∅) as (r & words' & Hp & _ & H).
  - unfold counter_loop, is_u32, u32_max. repeat constructor; lia.
  - split; simpl; lia.
  - exists r, words'. split; [exact Hp|]. split; [|exact H].
    vm_compute in Hp. injection Hp as <-. reflexivity.
Defined.

(** C13: what the planner patches is safe to patch in place.  The patched sequences
    lie inside the range and apart from each other; each starts at a
    load-exclusive and is a swap or a read-modify-write, never a compare; no
    direct branch of the range, no target or entry the planner was told of
    reaches a word of one other than its first; and applying the plan changes
    the words of the sequences and no other word. *)
Theorem plan_sites_safe (words : list Z) (base : Z) (external_targets known_entries : gset Z)
  (Hwords : Forall is_u32 words) (Hfit : fits base (length words)) :
  exists r words' (start : Site -> nat),
    plan_with_entries words base external_targets known_entries = Done r /\
    apply words base r = Done words' /\ length words' = length words /\
    (forall s, s ∈ patched r ->
       site_addr s = base + 4 * Z.of_nat (start s) /\
       (start s + length (site_words s) <= length words)%nat /\
       is_compare (site_idiom s) = false /\
       (exists w size o rt rn, words !! start s = Some w /\ decode w = LoadExcl size o rt rn) /\
       forall j, (1 <= j < length (site_words s))%nat ->
         site_addr s + 4 * Z.of_nat j ∉
           direct_branch_targets words base ∪ external_targets ∪ known_entries) /\
    (forall a b, a ∈ patched r -> b ∈ patched r -> a = b \/
       (start a + length (site_words a) <= start b)%nat \/
       (start b + length (site_words b) <= start a)%nat) /\
    (forall s j, s ∈ patched r -> (j < length (site_words s))%nat ->
       words' !! (start s + j)%nat = site_words s !! j) /\
    (forall i, (forall s, s ∈ patched r -> ~ (start s <= i < start s + length (site_words s))%nat) ->
       words' !! i = words !! i).
Proof.
  destruct (plan_entries_rewritten words base external_targets known_entries Hwords Hfit)
    as (r & words' & Hp & Ha & Hrw).
  set (c := MkSection words base external_targets known_entries) in *.
  exists r, words', (site_start c). destruct Hrw as [Hs Hap Hl Hin Hout _].
  split_and!; try done. intros s Hin'. pose proof (Hs s Hin') as Hat. destruct Hat as [Haddr Hsh Hint].
  destruct (shape_length _ _ _ _ Hsh) as [? Hb].
  assert (site_addr s = base + 4 * Z.of_nat (site_start c s)) as E.
  { rewrite Haddr. apply (addr_of_exact base (length words)); [done|simpl in Hb; lia]. }
  split_and!; [done|done|by destruct Hsh|by eapply shape_head|].
  intros j Hj. rewrite E. destruct (interior_not_entered c _ s (site_start c s + j) (Hs s Hin')) as [Ht Hk]; [lia|].
  cbn [sec_base c] in Ht, Hk. rewrite (addr_of_exact base (length words)) in Ht, Hk by (done || (simpl in Hb; lia)).
  replace (base + 4 * Z.of_nat (site_start c s) + 4 * Z.of_nat j)
    with (base + 4 * Z.of_nat (site_start c s + j)) by lia.
  unfold sec_targets, sec_branches, sec_decoded in Ht. unfold direct_branch_targets. cbn in *. set_solver.
Qed.

Lemma plan_sites_safe_witness :
  exists r (start : Site -> nat),
    plan_with_entries counter_loop 0x1000 ∅ ∅ = Done r /\ length (patched r) = 1%nat /\
    (forall s, s ∈ patched r -> is_compare (site_idiom s) = false /\
       (start s + length (site_words s) <= 6)%nat).
Proof.
  destruct (plan_sites_safe counter_loop 0x1000 ∅ ∅) as (r & words' & start & Hp & _ & _ & H & _).
  - unfold counter_loop, is_u32, u32_max. repeat constructor; lia.
  - split; simpl; lia.
  - exists r, start. split; [exact Hp|]. split.
    + vm_compute in Hp. injection Hp as <-. reflexivity.
    + intros s Hs. destruct (H s Hs) as (_ & H1 & H2 & _). split; [exact H2|exact H1].
Defined.

(** a section's plan accounts for every exclusive.  Planning does not panic;
    the store-exclusives of the patched sequences and the refused addresses are
    exactly the store-exclusives and store pairs of the section, each once; and
    the plan counts every exclusive instruction. *)
Theorem plan_accounts_for_exclusives (words : list Z) (base : Z)
  (external_targets known_entries : gset Z)
  (Hwords : Forall is_u32 words) (Hfit : fits base (length words)) :
  exists r, plan_section words base external_targets known_entries = Done r /\
    (store_addr (MkSection words base external_targets known_entries) <$> patched r) ++
      (refused_addr <$> refused r) ≡ₚ
    addr_of base <$> filter (fun i => default false (is_store_side <$> words !! i) = true)
                       (seq 0 (length words)) /\
    exclusive_instructions r = length (filter (fun w => is_exclusive_insn w = true) words).
Proof.
  set (c := MkSection words base external_targets known_entries).
  destruct (plan_loop_planned c Hwords Hfit 0 Report_default (planned_init c)) as (r & Hr & [_ _ Hp Hc]); [lia|].
  exists r. rewrite drop_0 in Hr. split; [exact Hr|]. split.
  - rewrite Hp. apply Permutation_refl'. f_equal. apply list_filter_iff. intros i.
    unfold store_side_at. cbn [sec_words c]. by destruct (words !! i).
  - by rewrite Hc, take_ge by done.
Qed.

Lemma plan_accounts_for_exclusives_witness :
  exists r, plan_section (counter_loop ++ counter_loop) 0x1000 ∅ ∅ = Done r /\
    length (patched r) = 2%nat /\ exclusive_instructions r = 4%nat.
Proof.
  destruct (plan_accounts_for_exclusives (counter_loop ++ counter_loop) 0x1000 ∅ ∅) as (r & Hp & _ & Hc).
  - unfold counter_loop, is_u32, u32_max. repeat constructor; lia.
  - split; simpl; lia.
  - exists r. split; [exact Hp|]. split; [|rewrite Hc; vm_compute; reflexivity].
    vm_compute in Hp. injection Hp as <-. reflexivity.
Defined.

(** C27: memory ordering is carried across exactly.  Every replacement holds one
    atomic, of the size and on the base register of the loop's pair and loading
    into the load-exclusive's register; it acquires exactly when the load-exclusive
    does and releases exactly when the store-exclusive does.  The other words of
    the replacement access no memory. *)
Theorem replacement_keeps_ordering (words : list Z) (base : Z)
  (external_targets known_entries : gset Z)
  (Hwords : Forall is_u32 words) (Hfit : fits base (length words)) :
  exists r (start : Site -> nat),
    plan_with_entries words base external_targets known_entries = Done r /\
    forall s, s ∈ patched r -> site_addr s = addr_of base (start s) /\
      exists size acq rel rs rt rv rn op rs' k wl ws a,
        words !! start s = Some wl /\ arm_decode wl = Some (ArmLdxr size acq rt rn) /\
        words !! (start s + (length (site_words s) - 2))%nat = Some ws /\
        arm_decode ws = Some (ArmStxr size rel rs rv rn) /\
        site_words s !! k = Some a /\
        arm_decode a = Some (ArmAtomic op size acq rel rs' rt rn) /\
        forall j w, site_words s !! j = Some w -> j <> k ->
          exists x, arm_decode w = Some x /\ register_only x = true.
Proof.
  destruct (plan_entries_rewritten words base external_targets known_entries Hwords Hfit)
    as (r & words' & Hp & _ & Hrw).
  exists r, (site_start (MkSection words base external_targets known_entries)).
  split; [done|]. intros s Hs. destruct (rw_sites _ _ _ Hrw s Hs) as [Ha Hsh _]. split; [done|].
  by eapply arm_site_ordering, shape_arm.
Qed.

Lemma replacement_keeps_ordering_witness :
  exists r (start : Site -> nat),
    plan_with_entries counter_loop 0x1000 ∅ ∅ = Done r /\ length (patched r) = 1%nat /\
    forall s, s ∈ patched r -> exists acq rel k a op size rs' rt rn,
      site_words s !! k = Some a /\ arm_decode a = Some (ArmAtomic op size acq rel rs' rt rn).
Proof.
  destruct (replacement_keeps_ordering counter_loop 0x1000 ∅ ∅) as (r & start & Hp & H).
  - unfold counter_loop, is_u32, u32_max. repeat constructor; lia.
  - split; simpl; lia.
  - exists r, start. split; [exact Hp|]. split; [vm_compute in Hp; injection Hp as <-; reflexivity|].
    intros s Hs. destruct (H s Hs) as (_ & size & acq & rel & rs & rt & rv & rn & op & rs' & k & wl & ws & a &
      _ & _ & _ & _ & Hk & Ha & _).
    exists acq, rel, k, a, op, size, rs', rt, rn. split; [exact Hk|exact Ha].
Defined.

(** C28: a word [decode] knows is the instruction the architecture manual gives
    for it.  A load- or store-exclusive, an unshifted operation, a compare and
    branch or a NOP in [decode]'s reading is, with the same registers, immediate,
    ordering bit and target, the reference instruction of the same word, register
    31 as a base aside; and every word the reference reads as a compare and
    branch is one for [decode]. *)
Theorem decode_matches_manual (w : Z) (Hw : is_u32 w) :
  (forall a, arm_of (decode w) = Some a -> arm_decode w = Some a) /\
  (forall nonzero sf rt offset, arm_decode w = Some (ArmCbz nonzero sf rt offset) ->
     decode w = CompareBranch nonzero sf rt offset) /\
  insn_ok (decode w).
Proof.
  split_and!; [by intros a; apply decode_arm|by intros; apply arm_cbz_decode|by apply decode_ok].
Qed.

Lemma decode_matches_manual_witness :
  arm_decode 0x35ffffa5 = Some (ArmCbz true false 5 (-12)) /\
  decode 0x35ffffa5 = CompareBranch true false 5 (-12).
Proof.
  destruct (decode_matches_manual 0x35ffffa5) as (H1 & H2 & _).
  - unfold is_u32, u32_max. lia.
  - assert (arm_decode 0x35ffffa5 = Some (ArmCbz true false 5 (-12))) as E
      by (apply H1; vm_compute; reflexivity).
    split; [exact E|]. apply H2. exact E.
Defined.

End LseProps.
