(* ===== verification/LseElf.v ===== *)
(** Planning the rewrite of an ELF image (detcore/src/aarch64_lse/elf.rs), from
    its parsed sections on: which sequences of a section's plan are kept, the
    report and the patches of the file.

    The ELF parser, the evidence of [mapping.rs] (which bytes are code, which
    words read which bytes) and the relocation entries it reports are inputs: a
    [Section] carries its code and unknown spans, and [literals] and [unbounded]
    the address ranges the code reads.  A skipped section is named by a value
    of [Skip] where the code formats a message, and a refused site by its
    [Refusal].  [slice::partition_point] is the length of the longest prefix that
    satisfies the predicate, which is what it returns on a partitioned slice. *)
From S2P Require Import Prelude LseInsn LseRewrite.
From stdpp Require Import base gmap list strings sorting.
Open Scope Z_scope.

Module LseElf.
Import LseInsn LseRewrite.

Abbreviation span := (Z * Z)%type.

Inductive Skip :=
  | RelrTruncated
  | SectionTruncated (offset : Z)
  | SectionWritable (vaddr : Z)
  | SectionUnmarked (vaddr : Z) (unknown : nat)
  | SectionUnknown (vaddr : Z) (unknown : nat).

Record FileReport := MkFileReport {
  f_exclusive_instructions : nat;
  f_patched : gmap string nat;
  f_refused : gmap string nat;
  f_refused_sites : list (Z * Refusal);
  f_skipped_segments : list Skip }.
Definition FileReport_default : FileReport := MkFileReport 0 ∅ ∅ [] [].

Definition total (m : gmap string nat) : nat := map_fold (fun _ n acc => (n + acc)%nat) 0%nat m.
Definition patched_total (r : FileReport) : nat := total (f_patched r).
Definition refused_total (r : FileReport) : nat := total (f_refused r).
Definition complete (r : FileReport) : bool :=
  (refused_total r =? 0)%nat && match f_skipped_segments r with [] => true | _ => false end.

Definition idiom_name (i : Idiom) : string :=
  match i with
  | Rmw => "rmw" | Swap => "swap" | CasCompare => "cas-compare" | CasZero => "cas-zero"
  end.
Definition refusal_name (reason : Refusal) : string :=
  match reason with
  | ExclusivePair => "exclusive-pair"
  | NoPairedLoad => "no-paired-load"
  | Undecoded => "undecoded-instruction"
  | NotCanonical => "not-a-canonical-loop"
  | BranchIntoSequence => "branch-into-sequence"
  | Registers _ => "register-constraint"
  | UnsupportedOperation => "unsupported-operation"
  | BranchOutOfRange => "branch-out-of-range"
  | Relocated => "relocation-inside-the-sequence"
  | LiteralInsideSequence => "literal-inside-the-sequence"
  | AddressedData => "addressed-data-inside-the-sequence"
  | NoMappingSymbols => "no-mapping-symbols"
  | UnsupportedMappingSymbol _ => "unsupported-mapping-symbol"
  | CompareExit => "compare-exit"
  | UnknownDirectBranch => "unknown-direct-branch"
  end.

Definition unmarked (r : FileReport) : nat :=
  default 0%nat (f_refused r !! refusal_name NoMappingSymbols).
Definition unsupported (r : FileReport) : nat :=
  default 0%nat (f_refused r !! refusal_name (UnsupportedMappingSymbol "")).
Definition unproven_count (r : FileReport) : nat := (unmarked r + unsupported r)%nat.

Record FilePatch := MkFilePatch { p_offset : Z; p_original : list Z; p_rewritten : list Z }.
Record FilePlan := MkFilePlan { plan_report : FileReport; plan_patches : list FilePatch }.

(** [mapping::Evidence] *)
Inductive Evidence := MappingSymbols | UnwindTable.

Record Section_ := MkElfSection {
  e_offset : Z;
  e_vaddr : Z;
  e_size : Z;
  e_writable : bool;
  e_words : option (list Z);
  e_evidence : option Evidence;
  e_unproven : option Refusal;
  e_code : list span;
  e_unknown : list span }.

Fixpoint partition_point {A} (p : A -> bool) (l : list A) : nat :=
  match l with
  | [] => 0
  | x :: l => if p x then S (partition_point p l) else 0
  end.
Fixpoint take_while {A} (p : A -> bool) (l : list A) : list A :=
  match l with
  | [] => []
  | x :: l => if p x then x :: take_while p l else []
  end.

(** The last span that starts at or before [addr]. *)
Definition last_before (spans : list span) (addr : Z) : option span :=
  match partition_point (fun '(start, _) => start <=? addr) spans with
  | O => None
  | S i => spans !! i
  end.
Definition in_spans (spans : list span) (addr : Z) : bool :=
  match last_before spans addr with Some (_, stop) => addr <? stop | None => false end.

Definition is_exclusive (word : Z) : bool :=
  match decode word with
  | LoadExcl _ _ _ _ | StoreExcl _ _ _ _ _ | ExclPair => true
  | _ => false
  end.

(** [site.addr + 4 * site.words.len() as u64] *)
Definition site_stop (s : Site) : Z :=
  wrap_u 64 (site_addr s + 4 * Z.of_nat (length (site_words s))).
Definition overlaps (s : Site) (r : span) : bool :=
  (r.1 <? site_stop s) && (site_addr s <? r.2).

(** The loop shared by the filters below: each planned site is kept, or refused
    at [site.addr] for [reason]. *)
Definition refuse_if (f : Site -> bool) (reason : Refusal) (plan : Report) : Report :=
  foldl (fun plan s => if f s then push_refused (MkRefused (site_addr s) reason) plan
                       else push_patched s plan)
    (MkReport [] (refused plan) (exclusive_instructions plan)) (patched plan).

Definition refuse_literals (plan : Report) (targets : list span) : Report :=
  refuse_if (fun s =>
      let from := partition_point (fun '(start, _) => sat_add_u64 start 16 <=? site_addr s) targets in
      existsb (overlaps s)
        (take_while (fun '(start, _) => start <? site_stop s) (drop from targets)))
    LiteralInsideSequence plan.

Definition refuse_overlapping (plan : Report) (ranges : list span) (reason : Refusal) : Report :=
  refuse_if (fun s =>
      let after := partition_point (fun '(start, _) => start <? site_stop s) ranges in
      existsb (overlaps s) (take after ranges))
    reason plan.

(** The relocation filter of [plan_bytes], with [Iterator::partition]. *)
Definition refuse_relocated (plan : Report) (relocated : list span) : Report :=
  match relocated with
  | [] => plan
  | _ =>
      let hit s := existsb (overlaps s) relocated in
      MkReport (filter (fun s => hit s = false) (patched plan))
        (refused plan ++
           ((fun s => MkRefused (site_addr s) Relocated) <$> filter (fun s => hit s = true) (patched plan)))
        (exclusive_instructions plan)
  end.

Definition span_of (code : list span) (addr : Z) : option span :=
  match last_before code addr with
  | Some (start, stop) => if addr <? stop then Some (start, stop) else None
  | None => None
  end.

(** The first of the indices whose word is a store-exclusive. *)
Fixpoint find_store (words : list Z) (indices : list nat) : outcome (option nat) :=
  match indices with
  | [] => Done None
  | i :: indices =>
      w ← get_at words i;
      match decode w with
      | StoreExcl _ _ _ _ _ => Done (Some i)
      | _ => find_store words indices
      end
  end.

(** Whether a sub-word compare against a register was rewritten. *)
Definition needs_before (words : list Z) (s : Site) (first : nat) : outcome bool :=
  match site_idiom s with
  | CasCompare =>
      w ← get_at words first;
      Done (match decode w with
            | LoadExcl (SizeB | SizeH) _ _ _ =>
                match decode <$> words !! (first + 1)%nat with
                | Some (Cmp _ _ (OperandReg _)) => true
                | _ => false
                end
            | _ => false
            end)
  | _ => Done false
  end.

(** One planned site of [restrict_to_code]. *)
Definition restrict_site (words : list Z) (base : Z) (code : list span) (plan : Report) (s : Site)
  : outcome Report :=
  let first := index_of base (site_addr s) in
  found ← find_store words (seq first (length (site_words s)));
  let store := match found with Some i => addr_of base i | None => site_addr s end in
  let stop := site_stop s in
  before ← needs_before words s first;
  Done (match span_of code store with
        | None => plan
        | Some (lo, hi) =>
            if (lo <=? site_addr s) && (stop <=? hi)
               && (negb before || (wrap_u 64 (lo + 4) <=? site_addr s))
            then push_patched s plan
            else if (lo <=? site_addr s) && (stop <=? hi)
            then push_refused (MkRefused store (Registers "a sub-word compare against a register")) plan
            else push_refused (MkRefused store NotCanonical) plan
        end).

Fixpoint restrict_sites (words : list Z) (base : Z) (code : list span) (plan : Report)
  (sites : list Site) : outcome Report :=
  match sites with
  | [] => Done plan
  | s :: sites =>
      plan ← restrict_site words base code plan s; restrict_sites words base code plan sites
  end.

Definition restrict_to_code (plan : Report) (words : list Z) (base : Z) (code : list span)
  : outcome Report :=
  let exclusive :=
    length (filter (fun '(index, word) =>
      bool_decide (is_Some (span_of code (addr_of base index))) && is_exclusive word = true)
      (imap pair words)) in
  let kept := filter (fun x => is_Some (span_of code (refused_addr x))) (refused plan) in
  restrict_sites words base code (MkReport [] kept exclusive) (patched plan).

(** Packed relative relocations: the bits of one bitmap, then the entries. *)
Fixpoint relr_bits (fuel : nat) (bits at_ : Z) : list span :=
  match fuel with
  | O => []
  | S fuel =>
      if bits =? 0 then []
      else (if Z.land bits 1 =? 1 then [(at_, sat_add_u64 at_ 8)] else [])
           ++ relr_bits fuel (Z.shiftr bits 1) (sat_add_u64 at_ 8)
  end.
Fixpoint relr_entries (next : Z) (entries : list Z) : list span :=
  match entries with
  | [] => []
  | entry :: entries =>
      if Z.land entry 1 =? 0
      then (entry, sat_add_u64 entry 8) :: relr_entries (sat_add_u64 entry 8) entries
      else relr_bits 64 (Z.shiftr entry 1) next ++ relr_entries (sat_add_u64 next (63 * 8)) entries
  end.
(** [section.as_chunks::<8>().0], each [u64::from_le_bytes]: whole chunks only. *)
Fixpoint chunks8 (bytes : list Z) : list Z :=
  match bytes with
  | b0 :: b1 :: b2 :: b3 :: b4 :: b5 :: b6 :: b7 :: rest =>
      from_le_bytes [b0; b1; b2; b3; b4; b5; b6; b7] :: chunks8 rest
  | _ => []
  end.
Definition decode_relr (section : list Z) : list span := relr_entries 0 (chunks8 section).

(** [*map.entry(key).or_default() += 1] *)
Definition bump (key : string) (m : gmap string nat) : gmap string nat :=
  <[key := S (default 0%nat (m !! key))]> m.

Definition report_skip (why : Skip) (r : FileReport) : FileReport :=
  MkFileReport (f_exclusive_instructions r) (f_patched r) (f_refused r) (f_refused_sites r)
    (f_skipped_segments r ++ [why]).
Definition report_exclusive (n : nat) (r : FileReport) : FileReport :=
  MkFileReport (f_exclusive_instructions r + n) (f_patched r) (f_refused r) (f_refused_sites r)
    (f_skipped_segments r).
Definition report_refused (r : FileReport) (x : RefusedSite) : FileReport :=
  MkFileReport (f_exclusive_instructions r) (f_patched r)
    (bump (refusal_name (refused_reason x)) (f_refused r))
    (f_refused_sites r ++ [(refused_addr x, refused_reason x)]) (f_skipped_segments r).
Definition report_patched (r : FileReport) (s : Site) : FileReport :=
  MkFileReport (f_exclusive_instructions r) (bump (idiom_name (site_idiom s)) (f_patched r))
    (f_refused r) (f_refused_sites r) (f_skipped_segments r).

Definition words_to_bytes (words : list Z) : list Z := words ≫= to_le_bytes 4.

(** [words[index..index + n]] *)
Definition slice (words : list Z) (index n : nat) : outcome (list Z) :=
  if (index + n <=? length words)%nat then Done (take n (drop index words)) else Panic PIndex.

Fixpoint site_patches (offset vaddr : Z) (words : list Z) (sites : list Site)
  : outcome (list FilePatch) :=
  match sites with
  | [] => Done []
  | s :: sites =>
      let index := index_of vaddr (site_addr s) in
      original ← slice words index (length (site_words s));
      rest ← site_patches offset vaddr words sites;
      Done (MkFilePatch (wrap_u 64 (offset + 4 * Z.of_nat index)) (words_to_bytes original)
              (words_to_bytes (site_words s)) :: rest)
  end.

(** What [plan_bytes] knows of the image before it plans a section. *)
Record image := MkImage {
  i_sections : list Section_;
  i_known_entries : gset Z;
  i_literals : list span;
  i_unbounded : list span;
  i_relocated : list span;
  i_relr_unreadable : bool }.

Definition section_targets (s : Section_) : gset Z :=
  match e_words s with Some words => direct_branch_targets words (e_vaddr s) | None => ∅ end.
Definition external_targets (im : image) (index : nat) : gset Z :=
  ⋃ (section_targets <$> (filter (fun p => p.1 <> index) (imap pair (i_sections im))).*2).

Definition unknown_direct_branch (im : image) : bool :=
  existsb (fun s =>
    match e_words s with
    | None => true
    | Some words =>
        existsb (fun '(index, word) =>
          let addr := addr_of (e_vaddr s) index in
          (in_spans (e_code s) addr || in_spans (e_unknown s) addr)
          && unknown_direct_branch_possible word) (imap pair words)
    end) (i_sections im).

(** The filters [plan_bytes] applies to a section's plan, in its order. *)
Definition filter_plan (im : image) (s : Section_) (words : list Z) (plan : Report)
  : outcome Report :=
  plan ← restrict_to_code plan words (e_vaddr s) (e_code s);
  let plan := refuse_literals plan (i_literals im) in
  let plan := refuse_overlapping plan (i_unbounded im) LiteralInsideSequence in
  let plan := refuse_overlapping plan [] AddressedData in
  let plan := if unknown_direct_branch im then refuse_patched plan UnknownDirectBranch else plan in
  Done (refuse_relocated plan (i_relocated im)).

(** One iteration of [plan_bytes]'s loop over the sections. *)
Definition plan_one (im : image) (acc : FilePlan) (index : nat) (s : Section_) : outcome FilePlan :=
  let report := plan_report acc in
  match e_words s with
  | None => Done (MkFilePlan (report_skip (SectionTruncated (e_offset s)) report) (plan_patches acc))
  | Some words =>
      if e_writable s
      then Done (MkFilePlan (report_skip (SectionWritable (e_vaddr s)) report) (plan_patches acc))
      else
        let external := external_targets im index in
        match e_unproven s with
        | Some reason =>
            plan ← plan_section words (e_vaddr s) external (i_known_entries im);
            let report := report_exclusive (exclusive_instructions plan) report in
            let sites := merge_sort Z.le ((site_addr <$> patched plan) ++ (refused_addr <$> refused plan)) in
            Done (MkFilePlan (foldl report_refused report ((fun a => MkRefused a reason) <$> sites))
                    (plan_patches acc))
        | None =>
            let unknown :=
              length (filter (fun '(index, word) =>
                is_exclusive word && in_spans (e_unknown s) (addr_of (e_vaddr s) index) = true)
                (imap pair words)) in
            match e_evidence s with
            | None =>
                Done (MkFilePlan (report_skip (SectionUnmarked (e_vaddr s) unknown) report)
                        (plan_patches acc))
            | Some _ =>
                plan ← plan_section words (e_vaddr s) external (i_known_entries im);
                plan ← filter_plan im s words plan;
                let report := if (unknown =? 0)%nat then report
                              else report_skip (SectionUnknown (e_vaddr s) unknown) report in
                let report := report_exclusive (exclusive_instructions plan) report in
                let report := foldl report_patched report (patched plan) in
                let report := foldl report_refused report (refused plan) in
                patches ← site_patches (e_offset s) (e_vaddr s) words (patched plan);
                Done (MkFilePlan report (plan_patches acc ++ patches))
            end
        end
  end.

Fixpoint plan_loop (im : image) (acc : FilePlan) (index : nat) (sections : list Section_)
  : outcome FilePlan :=
  match sections with
  | [] => Done acc
  | s :: sections => acc ← plan_one im acc index s; plan_loop im acc (S index) sections
  end.

Definition plan_image (im : image) : outcome FilePlan :=
  if i_relr_unreadable im
  then Done (MkFilePlan (report_skip RelrTruncated FileReport_default) [])
  else plan_loop im (MkFilePlan FileReport_default []) 0 (i_sections im).

(** [rewrite_bytes], from the plan on. *)
Fixpoint apply_patches (bytes : list Z) (patches : list FilePatch) : outcome (list Z) :=
  match patches with
  | [] => Done bytes
  | p :: patches =>
      bytes ← copy_into bytes (Z.to_nat (p_offset p)) (p_rewritten p);
      apply_patches bytes patches
  end.

End LseElf.
