(* ===== verification/LseElfProps.v ===== *)
(** The plan of an ELF image: every patch is a canonical loop of proven code that
    nothing else reads or relocates, and a complete report leaves no
    store-exclusive of the image's code behind. *)
From S2P Require Import Prelude LseInsn LseRewrite LseArm LseArmProps LseSites LseElf.
From stdpp Require Import base gmap list sorting strings.
Open Scope Z_scope.

Module LseElfProps.
Import LseInsn LseRewrite LseArm LseArmProps LseAlu LseSites LseElf.

(** * The filters *)

Lemma refuse_if_spec f reason plan :
  patched (refuse_if f reason plan) = filter (fun s => f s = false) (patched plan) /\
  refused (refuse_if f reason plan) =
    refused plan ++ ((fun s => MkRefused (site_addr s) reason) <$> filter (fun s => f s = true) (patched plan)).
Proof.
  unfold refuse_if.
  assert (forall l acc,
    let r := foldl (fun plan s => if f s then push_refused (MkRefused (site_addr s) reason) plan
                                  else push_patched s plan) acc l in
    patched r = patched acc ++ filter (fun s => f s = false) l /\
    refused r = refused acc ++ ((fun s => MkRefused (site_addr s) reason) <$> filter (fun s => f s = true) l)) as H.
  { induction l as [|s l IH]; intros acc; simpl; [by rewrite !app_nil_r|].
    rewrite !filter_cons. destruct (f s) eqn:E; destruct (IH (if f s then push_refused (MkRefused (site_addr s) reason) acc else push_patched s acc)) as [H1 H2];
      rewrite E in H1, H2; simpl in *; rewrite H1, H2; split; by rewrite <- ?app_assoc. }
  apply (H (patched plan) (MkReport [] (refused plan) (exclusive_instructions plan))).
Qed.

Lemma partition_point_prefix {A} (p : A -> bool) l i x :
  (i < partition_point p l)%nat -> l !! i = Some x -> p x = true.
Proof.
  revert i. induction l as [|y l IH]; intros i Hi Hx; simpl in *; [lia|].
  destruct (p y) eqn:E; [|lia]. destruct i; simpl in Hx; [congruence|]. eapply IH; [|done]. lia.
Qed.

(** Of ranges sorted by start, one that overlaps a site starts before its end,
    so it is among those the filter looks at. *)
Definition by_start (ranges : list span) : Prop := StronglySorted (fun a b => a.1 <= b.1) ranges.

Lemma sorted_partition (ranges : list span) (t : Z) r : by_start ranges -> r ∈ ranges -> r.1 < t ->
  r ∈ take (partition_point (fun '(start, _) => start <? t) ranges) ranges.
Proof.
  induction 1 as [|[a b] l Hl IH Ha]; [by intros ?%elem_of_nil|].
  intros [->|Hr]%elem_of_cons Hlt; simpl in *.
  - rewrite (proj2 (Z.ltb_lt _ _) Hlt). simpl. set_solver.
  - rewrite Forall_forall in Ha. specialize (Ha r Hr). simpl in Ha.
    rewrite (proj2 (Z.ltb_lt a t)) by lia. simpl. set_solver.
Qed.

Lemma existsb_false_iff {A} (f : A -> bool) l : existsb f l = false <-> forall x, x ∈ l -> f x = false.
Proof.
  induction l as [|x l IH]; simpl; [split; [by intros _ ? ?%elem_of_nil|done]|].
  rewrite orb_false_iff, IH. set_solver.
Qed.

(** Every range the filter's loop does not look at misses the site. *)
Lemma refuse_overlapping_spec plan ranges reason : by_start ranges ->
  patched (refuse_overlapping plan ranges reason) =
    filter (fun s => existsb (overlaps s) ranges = false) (patched plan).
Proof.
  intros Hs. unfold refuse_overlapping. rewrite (proj1 (refuse_if_spec _ _ _)).
  apply list_filter_iff. intros s. rewrite !existsb_false_iff. split; intros H r Hr.
  - destruct (overlaps s r) eqn:E; [|done]. rewrite <- E. apply H. apply sorted_partition; [done|done|].
    unfold overlaps in E. apply andb_true_iff in E as [E _]. by apply Z.ltb_lt in E.
  - apply H. by apply subseteq_take in Hr.
Qed.

Lemma take_while_partition {A} (p : A -> bool) l : take_while p l = take (partition_point p l) l.
Proof. induction l as [|x l IH]; simpl; [done|]. destruct (p x); simpl; [by rewrite IH|done]. Qed.
Lemma by_start_drop n ranges : by_start ranges -> by_start (drop n ranges).
Proof.
  unfold by_start. revert n. induction ranges as [|r l IH]; intros [|n] H; simpl; try done.
  apply IH. by inversion H.
Qed.

(** No literal is longer than 16 bytes, so those the search skips end before the
    site. *)
Definition short (ranges : list span) : Prop :=
  forall r, r ∈ ranges -> 0 <= r.1 /\ r.2 <= r.1 + 16.
Lemma refuse_literals_spec plan targets : by_start targets -> short targets ->
  (forall s, s ∈ patched plan -> site_addr s < u64_max) ->
  patched (refuse_literals plan targets) =
    filter (fun s => existsb (overlaps s) targets = false) (patched plan).
Proof.
  intros Hs Hsh Ha. unfold refuse_literals. rewrite (proj1 (refuse_if_spec _ _ _)).
  assert (forall l : list Site, (forall s, s ∈ l -> site_addr s < u64_max) ->
    filter (fun s => existsb (overlaps s)
      (take_while (fun '(start, _) => start <? site_stop s)
         (drop (partition_point (fun '(start, _) => sat_add_u64 start 16 <=? site_addr s) targets) targets)) = false) l =
    filter (fun s => existsb (overlaps s) targets = false) l) as H; [|by apply H].
  clear Ha. induction l as [|s l IH]; intros Ha; [done|]. rewrite !filter_cons, IH by set_solver.
  assert (site_addr s < u64_max) as Hlt by (apply Ha; set_solver).
  set (p := fun '(start, _) => sat_add_u64 start 16 <=? site_addr s).
  rewrite take_while_partition. set (window := take _ _).
  assert (existsb (overlaps s) window = existsb (overlaps s) targets) as ->; [|done].
  destruct (existsb (overlaps s) targets) eqn:E.
  - apply existsb_exists in E as (r & Hr & Ho). apply list_elem_of_In in Hr.
    apply existsb_exists. exists r. split; [|done]. apply list_elem_of_In.
    pose proof Ho as Ho'. unfold overlaps in Ho'. apply andb_true_iff in Ho' as [H1%Z.ltb_lt H2%Z.ltb_lt].
    destruct (Hsh r Hr) as [H0 H16]. apply sorted_partition; [by apply by_start_drop| |done].
    apply list_elem_of_lookup in Hr as [i Hi].
    destruct (decide (i < partition_point p targets)%nat) as [Hp|Hp].
    + pose proof (partition_point_prefix p targets i r Hp Hi) as Hpr. destruct r as [a b]. unfold p in Hpr.
      apply Z.leb_le in Hpr. unfold sat_add_u64 in Hpr. simpl in *. lia.
    + apply (list_elem_of_lookup_2 _ (i - partition_point p targets)). rewrite lookup_drop.
      rewrite <- Hi. f_equal. lia.
  - apply existsb_false_iff. intros r Hr. rewrite existsb_false_iff in E. apply E.
    apply subseteq_take in Hr. by apply subseteq_drop in Hr.
Qed.

Lemma refuse_relocated_patched plan relocated :
  patched (refuse_relocated plan relocated) =
    filter (fun s => existsb (overlaps s) relocated = false) (patched plan).
Proof.
  unfold refuse_relocated. destruct relocated as [|r l]; simpl; [|done].
  induction (patched plan) as [|s sites IH]; [done|]. rewrite filter_cons. simpl. by rewrite <- IH.
Qed.

(** A filter keeps each planned site or refuses one, and forgets no refusal. *)
Record narrows (plan plan' : Report) : Prop := {
  narrows_patched s : s ∈ patched plan' -> s ∈ patched plan;
  narrows_refused : exists more, refused plan' = refused plan ++ more;
  narrows_none : refused plan' = [] -> patched plan' = patched plan }.

#[global] Instance narrows_preorder : PreOrder narrows.
Proof.
  split.
  - intros plan. split; [done| |done]. exists []. by rewrite app_nil_r.
  - intros a b d [P1 [m1 R1] N1] [P2 [m2 R2] N2]. split; [auto| |].
    + exists (m1 ++ m2). by rewrite R2, R1, app_assoc.
    + intros E. rewrite (N2 E). apply N1. rewrite R2 in E. by apply app_eq_nil in E as [E _].
Qed.

Lemma filter_keeps_all {A} (f : A -> bool) (l : list A) :
  filter (fun s => f s = true) l = [] -> filter (fun s => f s = false) l = l.
Proof.
  induction l as [|x l IH]; [done|]. rewrite !filter_cons. destruct (f x) eqn:E; simpl; [done|].
  intros H. by rewrite IH.
Qed.

Lemma refuse_if_narrows f reason plan : narrows plan (refuse_if f reason plan).
Proof.
  destruct (refuse_if_spec f reason plan) as [Hp Hr]. split.
  - intros s. rewrite Hp. by intros [_ ?]%list_elem_of_filter.
  - eauto.
  - rewrite Hp, Hr. intros [_ E]%app_eq_nil. apply fmap_nil_inv in E. by apply filter_keeps_all.
Qed.
Lemma refuse_patched_narrows plan reason : narrows plan (refuse_patched plan reason).
Proof.
  split; simpl; [by intros s ?%elem_of_nil|eauto|]. intros [_ E]%app_eq_nil. by apply fmap_nil_inv in E.
Qed.
Lemma refuse_relocated_narrows plan relocated : narrows plan (refuse_relocated plan relocated).
Proof.
  unfold refuse_relocated. destruct relocated as [|r l]; [reflexivity|]. split; simpl.
  - by intros s [_ ?]%list_elem_of_filter.
  - eauto.
  - intros [_ E]%app_eq_nil. apply fmap_nil_inv in E.
    by apply (filter_keeps_all (fun s => overlaps s r || existsb (overlaps s) l)).
Qed.

(** * Keeping a plan to its section's code *)

Lemma span_of_in_spans code a : is_Some (span_of code a) <-> in_spans code a = true.
Proof.
  unfold span_of, in_spans. destruct (last_before code a) as [[lo hi]|]; [|split; [by intros []|done]].
  destruct (a <? hi); split; intros H; try done; try (by eexists); by destruct H.
Qed.
Lemma span_of_code code a p : span_of code a = Some p -> p ∈ code.
Proof.
  unfold span_of, last_before. destruct (partition_point _ code) as [|i]; [done|].
  destruct (code !! i) as [[lo hi]|] eqn:E; [|done]. destruct (a <? hi); [|done]. intros [= <-].
  by eapply list_elem_of_lookup_2.
Qed.

Lemma shape_find_store words start i ws : shape words start i ws ->
  find_store words (seq start (length ws)) = Done (Some (start + length ws - 2)%nat).
Proof.
  destruct 1 as [size lo so rs rt rv rn wl w2 wc H1 D1 H2 D2|size lo so rs rt rv rn op o m aop wl wa w2 wc H1 D1 H2 D2 H3 D3];
    cbn [length seq find_store].
  - rewrite (get_at_Done _ _ _ H1). cbn [mbind outcome_bind]. rewrite D1.
    replace (S start) with (start + 1)%nat by lia. rewrite (get_at_Done _ _ _ H2). cbn [mbind outcome_bind]. rewrite D2. do 2 f_equal. lia.
  - rewrite (get_at_Done _ _ _ H1). cbn [mbind outcome_bind]. rewrite D1.
    replace (S start) with (start + 1)%nat by lia. rewrite (get_at_Done _ _ _ H2). cbn [mbind outcome_bind]. rewrite D2.
    replace (S (start + 1)) with (start + 2)%nat by lia.
    rewrite (get_at_Done _ _ _ H3). cbn [mbind outcome_bind]. rewrite D3. do 2 f_equal. lia.
Qed.

Section section_plan.
Context (c : section) (code : list span).
Hypothesis Hu : Forall is_u32 (sec_words c).
Hypothesis Hfit : fits (sec_base c) (length (sec_words c)).

(** Whether a planned site lies in the code span of its store-exclusive. *)
Definition inside (s : Site) : bool :=
  match span_of code (store_addr c s) with
  | Some (lo, hi) => (lo <=? site_addr s) && (site_stop s <=? hi)
  | None => false
  end.
Definition strays (s : Site) : bool :=
  bool_decide (is_Some (span_of code (store_addr c s))) && negb (inside s).

Lemma restrict_site_spec plan s : site_at c (site_start c s) s ->
  restrict_site (sec_words c) (sec_base c) code plan s =
    Done (if inside s then push_patched s plan
          else if strays s then push_refused (MkRefused (store_addr c s) NotCanonical) plan
          else plan).
Proof.
  intros [Ha Hsh _]. unfold restrict_site. fold (site_start c s).
  rewrite (shape_find_store _ _ _ _ Hsh). cbn [mbind outcome_bind].
  change (addr_of (sec_base c) (site_start c s + length (site_words s) - 2)) with (store_addr c s).
  assert (needs_before (sec_words c) s (site_start c s) = Done false) as ->
    by (unfold needs_before; by destruct Hsh).
  cbn [mbind outcome_bind]. unfold inside, strays.
  destruct (span_of code (store_addr c s)) as [[lo hi]|] eqn:E.
  - rewrite bool_decide_true by (by eexists). cbn [negb orb]. rewrite andb_true_r.
    unfold inside. rewrite E. by destruct (_ && _).
  - by rewrite bool_decide_false by (by intros []).
Qed.

Lemma restrict_sites_spec sites plan : Forall (fun s => site_at c (site_start c s) s) sites ->
  exists plan', restrict_sites (sec_words c) (sec_base c) code plan sites = Done plan' /\
    patched plan' = patched plan ++ filter (fun s => inside s = true) sites /\
    refused plan' = refused plan ++
      ((fun s => MkRefused (store_addr c s) NotCanonical) <$> filter (fun s => strays s = true) sites).
Proof.
  intros Hs. revert plan. induction Hs as [|s sites Hs _ IH]; intros plan.
  { exists plan. split_and!; [done|by rewrite app_nil_r|by rewrite app_nil_r]. }
  cbn [restrict_sites]. rewrite restrict_site_spec by done. cbn [mbind outcome_bind].
  assert (inside s = true -> strays s = false) as Hex
    by (intros E; unfold strays; rewrite E; apply andb_false_r).
  rewrite !filter_cons. destruct (inside s) eqn:Ei; [rewrite Hex by done|destruct (strays s) eqn:Es].
  all: match goal with |- context [restrict_sites _ _ _ ?q _] => destruct (IH q) as (plan' & E & Hp & Hr) end.
  all: exists plan'; split; [done|]; rewrite Hp, Hr; simpl; by rewrite <- ?app_assoc.
Qed.

Lemma restrict_to_code_spec r : Forall (fun s => site_at c (site_start c s) s) (patched r) ->
  exists r', restrict_to_code r (sec_words c) (sec_base c) code = Done r' /\
    patched r' = filter (fun s => inside s = true) (patched r) /\
    refused r' = filter (fun x => is_Some (span_of code (refused_addr x))) (refused r) ++
      ((fun s => MkRefused (store_addr c s) NotCanonical) <$> filter (fun s => strays s = true) (patched r)).
Proof. intros Hs. unfold restrict_to_code. by apply restrict_sites_spec. Qed.

(** What the plan leaves of the section's store-exclusives in code. *)
Lemma restrict_accounts r r' i w : planned c (length (sec_words c)) r ->
  restrict_to_code r (sec_words c) (sec_base c) code = Done r' -> refused r' = [] ->
  sec_words c !! i = Some w -> is_store_side w = true ->
  in_spans code (addr_of (sec_base c) i) = true ->
  exists s, s ∈ patched r' /\ store_addr c s = addr_of (sec_base c) i.
Proof.
  intros [Hs _ Hp _] Hr Hnone Hw Hside Hin. apply span_of_in_spans in Hin.
  assert (Forall (fun s => site_at c (site_start c s) s) (patched r)) as Hat
    by (eapply Forall_impl; [done|]; by intros ? [? _]).
  destruct (restrict_to_code_spec r Hat) as (r'' & E & Ep & Er). rewrite Hr in E. injection E as <-.
  rewrite Hnone in Er. symmetry in Er. apply app_eq_nil in Er as [Er1 Er2]. apply fmap_nil_inv in Er2.
  assert (addr_of (sec_base c) i ∈ (store_addr c <$> patched r) ++ (refused_addr <$> refused r)) as Hacc.
  { rewrite Hp. apply list_elem_of_fmap. exists i. split; [done|]. apply list_elem_of_filter. split.
    - unfold store_side_at. by rewrite Hw.
    - apply elem_of_seq. apply lookup_lt_Some in Hw. lia. }
  apply elem_of_app in Hacc as [(s & Ea & Hin')%list_elem_of_fmap|(x & Ea & Hin')%list_elem_of_fmap].
  - exists s. split; [|done]. rewrite Ep. apply list_elem_of_filter. split; [|done].
    destruct (inside s) eqn:Ei; [done|exfalso]. apply (not_elem_of_nil s). rewrite <- Er2.
    apply list_elem_of_filter. split; [|done]. unfold strays. rewrite Ei, <- Ea.
    by rewrite bool_decide_true.
  - exfalso. apply (not_elem_of_nil x). rewrite <- Er1. apply list_elem_of_filter. by rewrite <- Ea.
Qed.

(** The end of a planned site does not wrap. *)
Lemma site_stop_exact s : site_at c (site_start c s) s ->
  site_stop s = site_addr s + 4 * Z.of_nat (length (site_words s)) /\ site_addr s < u64_max /\
  site_addr s = sec_base c + 4 * Z.of_nat (site_start c s).
Proof.
  intros [Ha Hsh _]. destruct (shape_length _ _ _ _ Hsh) as [? ?].
  assert (site_addr s = sec_base c + 4 * Z.of_nat (site_start c s)) as E.
  { rewrite Ha. apply (addr_of_exact _ (length (sec_words c))); [done|lia]. }
  destruct Hfit. unfold site_stop, u64_max. rewrite wrap_small by lia. lia.
Qed.

End section_plan.

(** * The filters together *)

Record image_ok (im : image) : Prop := {
  image_words s words : s ∈ i_sections im -> e_words s = Some words ->
    Forall is_u32 words /\ fits (e_vaddr s) (length words) /\
    0 <= e_offset s /\ e_offset s + 4 * Z.of_nat (length words) < 2 ^ 64;
  image_literals : by_start (i_literals im) /\ short (i_literals im);
  image_unbounded : by_start (i_unbounded im) }.

(** A site that no other part of the image touches. *)
Record untouched (im : image) (code : list span) (s : Site) : Prop := {
  untouched_code : exists lo hi, (lo, hi) ∈ code /\ lo <= site_addr s /\ site_stop s <= hi;
  untouched_literals : existsb (overlaps s) (i_literals im) = false;
  untouched_unbounded : existsb (overlaps s) (i_unbounded im) = false;
  untouched_relocated : existsb (overlaps s) (i_relocated im) = false;
  untouched_branches : unknown_direct_branch im = false }.

(** The section as [plan_section] sees it. *)
Definition elf_section (im : image) (k : nat) (s : Section_) (words : list Z) : section :=
  MkSection words (e_vaddr s) (external_targets im k) (i_known_entries im).

Lemma filter_plan_spec im k s words r : image_ok im ->
  Forall is_u32 words -> fits (e_vaddr s) (length words) ->
  planned (elf_section im k s words) (length words) r ->
  exists r', filter_plan im s words r = Done r' /\
    (forall x, x ∈ patched r' ->
       x ∈ patched r /\ untouched im (e_code s) x) /\
    (refused r' = [] -> forall i w, words !! i = Some w -> is_store_side w = true ->
       in_spans (e_code s) (addr_of (e_vaddr s) i) = true ->
       exists x, x ∈ patched r' /\ store_addr (elf_section im k s words) x = addr_of (e_vaddr s) i).
Proof.
  intros Him Hu Hfit Hpl. set (c := elf_section im k s words) in *.
  assert (forall x, x ∈ patched r -> site_at c (site_start c x) x) as Hat.
  { destruct Hpl as [Hs _ _ _]. rewrite Forall_forall in Hs. intros x Hx. by apply Hs. }
  destruct (restrict_to_code_spec c (e_code s) r) as (r1 & E1 & P1 & R1); [by apply Forall_forall|].
  unfold filter_plan. change words with (sec_words c) at 1. change (e_vaddr s) with (sec_base c) at 1.
  rewrite E1. cbn [mbind outcome_bind]. cbv zeta.
  set (r2 := refuse_literals r1 (i_literals im)). set (r3 := refuse_overlapping r2 _ _).
  set (r4 := refuse_overlapping r3 [] AddressedData). set (r5 := if unknown_direct_branch im then _ else r4).
  assert (narrows r1 r2) as N2 by apply refuse_if_narrows.
  assert (narrows r2 r3) as N3 by apply refuse_if_narrows.
  assert (narrows r3 r4) as N4 by apply refuse_if_narrows.
  assert (narrows r4 r5) as N5 by (unfold r5; destruct (unknown_direct_branch im); [apply refuse_patched_narrows|done]).
  pose proof (refuse_relocated_narrows r5 (i_relocated im)) as N6.
  assert (narrows r1 (refuse_relocated r5 (i_relocated im))) as N by (do 4 (etrans; [eassumption|]); done).
  eexists. split; [reflexivity|]. split.
  - intros x Hx. pose proof (narrows_patched _ _ N x Hx) as Hx1.
    rewrite P1 in Hx1. apply list_elem_of_filter in Hx1 as [Hins Hxr]. split; [done|].
    pose proof (narrows_patched _ _ N6 x Hx) as Hx5. pose proof (narrows_patched _ _ N5 x Hx5) as Hx4.
    pose proof (narrows_patched _ _ N4 x Hx4) as Hx3. pose proof (narrows_patched _ _ N3 x Hx3) as Hx2.
    destruct (image_literals im Him) as [Hbs Hsh].
    split.
    + unfold inside in Hins. destruct (span_of (e_code s) (store_addr c x)) as [[lo hi]|] eqn:Esp; [|done].
      apply andb_true_iff in Hins as [H1%Z.leb_le H2%Z.leb_le]. exists lo, hi. split_and!; [|done|done].
      by eapply span_of_code.
    + unfold r2 in Hx2. rewrite refuse_literals_spec in Hx2; [by apply list_elem_of_filter in Hx2 as [? _]|done|done|].
      intros y Hy. rewrite P1 in Hy. apply list_elem_of_filter in Hy as [_ Hy].
      by apply (site_stop_exact c Hfit), Hat.
    + unfold r3 in Hx3. rewrite refuse_overlapping_spec in Hx3 by apply (image_unbounded im Him).
      by apply list_elem_of_filter in Hx3 as [? _].
    + rewrite refuse_relocated_patched in Hx. by apply list_elem_of_filter in Hx as [? _].
    + unfold r5 in Hx5. destruct (unknown_direct_branch im); [by apply elem_of_nil in Hx5|done].
  - intros Hnone i w Hw Hside Hin. destruct (narrows_refused _ _ N) as [more Em].
    rewrite Hnone in Em. symmetry in Em. apply app_eq_nil in Em as [Em _].
    rewrite (narrows_none _ _ N Hnone).
    by apply (restrict_accounts c (e_code s) r r1 i w).
Qed.

(** * Reports *)

Lemma total_insert m k n : m !! k = None -> total (<[k := n]> m) = (n + total m)%nat.
Proof. intros H. unfold total. rewrite map_fold_insert_L; [done|intros; lia|done]. Qed.
Lemma total_bump k m : total (bump k m) = S (total m).
Proof.
  unfold bump. destruct (m !! k) as [n|] eqn:E; simpl.
  - rewrite <- (insert_delete_id m k n E) at 2. rewrite <- insert_delete_eq.
    rewrite !total_insert by apply lookup_delete_eq. lia.
  - rewrite total_insert by done. lia.
Qed.

Lemma complete_iff r : complete r = true <-> refused_total r = 0%nat /\ f_skipped_segments r = [].
Proof.
  unfold complete. rewrite andb_true_iff, Nat.eqb_eq. destruct (f_skipped_segments r); naive_solver.
Qed.

Lemma report_refused_fold l r :
  refused_total (foldl report_refused r l) = (refused_total r + length l)%nat /\
  f_skipped_segments (foldl report_refused r l) = f_skipped_segments r /\
  f_patched (foldl report_refused r l) = f_patched r.
Proof.
  revert r. induction l as [|x l IH]; intros r; simpl; [split_and!; [lia|done|done]|].
  destruct (IH (report_refused r x)) as (H1 & H2 & H3). rewrite H1, H2, H3. split_and!; [|done|done].
  unfold refused_total. simpl. rewrite total_bump. lia.
Qed.
Lemma report_patched_fold l r :
  refused_total (foldl report_patched r l) = refused_total r /\
  f_skipped_segments (foldl report_patched r l) = f_skipped_segments r /\
  patched_total (foldl report_patched r l) = (patched_total r + length l)%nat.
Proof.
  revert r. induction l as [|x l IH]; intros r; simpl; [split_and!; [done|done|lia]|].
  destruct (IH (report_patched r x)) as (H1 & H2 & H3). rewrite H1, H2, H3. split_and!; [done|done|].
  unfold patched_total. simpl. rewrite total_bump. lia.
Qed.

(** * Patches *)

Definition patch_of (c : section) (offset : Z) (s : Site) : FilePatch :=
  MkFilePatch (offset + 4 * Z.of_nat (site_start c s))
    (words_to_bytes (take (length (site_words s)) (drop (site_start c s) (sec_words c))))
    (words_to_bytes (site_words s)).

Lemma site_patches_spec c offset sites :
  0 <= offset -> offset + 4 * Z.of_nat (length (sec_words c)) < 2 ^ 64 ->
  Forall (fun s => site_at c (site_start c s) s) sites ->
  site_patches offset (sec_base c) (sec_words c) sites = Done (patch_of c offset <$> sites).
Proof.
  intros Ho Hf. induction 1 as [|s sites [_ Hsh _] _ IH]; [done|]. cbn [site_patches].
  fold (site_start c s). destruct (shape_length _ _ _ _ Hsh) as [_ Hb]. unfold slice.
  rewrite (proj2 (Nat.leb_le _ _) Hb). cbn [mbind outcome_bind]. rewrite IH. cbn [mbind outcome_bind].
  by rewrite wrap_small by lia.
Qed.

Lemma length_words_to_bytes ws : length (words_to_bytes ws) = (4 * length ws)%nat.
Proof.
  induction ws as [|w ws IH]; [done|]. unfold words_to_bytes in *. rewrite bind_cons, length_app, IH.
  rewrite length_to_le_bytes. simpl. lia.
Qed.

(** * The loop over the sections *)

Lemma plan_section_planned words base ext known : Forall is_u32 words -> fits base (length words) ->
  exists r, plan_section words base ext known = Done r /\
    planned (MkSection words base ext known) (length words) r.
Proof.
  intros Hu Hf. set (c := MkSection words base ext known).
  destruct (plan_loop_planned c Hu Hf 0 Report_default (planned_init c)) as (r & Hr & Hp); [lia|].
  rewrite drop_0 in Hr. by exists r.
Qed.

(** A patch and the site it comes from. *)
Definition good_patch (im : image) (p : FilePatch) : Prop :=
  exists k s words site,
    i_sections im !! k = Some s /\ e_words s = Some words /\ e_writable s = false /\
    e_unproven s = None /\ is_Some (e_evidence s) /\
    let c := elf_section im k s words in
    site_at c (site_start c site) site /\ untouched im (e_code s) site /\
    p = patch_of c (e_offset s) site.

(** The patches hold every store-exclusive of the section's code. *)
Definition covered (fp : FilePlan) (s : Section_) : Prop :=
  exists words, e_words s = Some words /\ e_writable s = false /\
    forall i w, words !! i = Some w -> is_store_side w = true ->
      is_Some (e_unproven s) \/ in_spans (e_code s) (addr_of (e_vaddr s) i) = true ->
      exists p, p ∈ plan_patches fp /\
        p_offset p <= e_offset s + 4 * Z.of_nat i < p_offset p + Z.of_nat (length (p_rewritten p)).

Record extends (im : image) (acc acc' : FilePlan) : Prop := {
  extends_old p : p ∈ plan_patches acc -> p ∈ plan_patches acc';
  extends_new p : p ∈ plan_patches acc' -> p ∈ plan_patches acc \/ good_patch im p;
  extends_complete : complete (plan_report acc') = true -> complete (plan_report acc) = true;
  extends_total : patched_total (plan_report acc) = length (plan_patches acc) ->
    patched_total (plan_report acc') = length (plan_patches acc') }.

Lemma skip_extends im acc why :
  extends im acc (MkFilePlan (report_skip why (plan_report acc)) (plan_patches acc)) /\
  complete (report_skip why (plan_report acc)) = false.
Proof.
  assert (complete (report_skip why (plan_report acc)) = false) as E.
  { destruct (complete _) eqn:E; [|done]. apply complete_iff in E as [_ E]. simpl in E.
    by apply app_eq_nil in E as [_ ?]. }
  split; [|done]. split; simpl; auto. by rewrite E.
Qed.

Lemma store_in_site c s i : fits (sec_base c) (length (sec_words c)) ->
  site_at c (site_start c s) s -> (i < length (sec_words c))%nat ->
  store_addr c s = addr_of (sec_base c) i -> i = (site_end c s - 2)%nat.
Proof.
  intros Hf [_ Hsh _] Hi E. destruct (shape_length _ _ _ _ Hsh). unfold store_addr, site_end in *.
  rewrite !(addr_of_exact _ (length (sec_words c))) in E by (done || lia). lia.
Qed.

(** A section nothing proves: each exclusive of it is refused. *)
Lemma plan_unproven im acc k s words reason r : image_ok im -> i_sections im !! k = Some s ->
  e_words s = Some words -> e_writable s = false -> e_unproven s = Some reason ->
  planned (elf_section im k s words) (length words) r ->
  let sites := merge_sort Z.le ((site_addr <$> patched r) ++ (refused_addr <$> refused r)) in
  let acc' := MkFilePlan (foldl report_refused (report_exclusive (exclusive_instructions r) (plan_report acc))
                ((fun a => MkRefused a reason) <$> sites)) (plan_patches acc) in
  extends im acc acc' /\ (complete (plan_report acc') = true -> covered acc' s).
Proof.
  intros Him Hk Hwords Hwr Hun Hpl. cbv zeta.
  match goal with |- context [foldl report_refused ?a ?b] =>
    destruct (report_refused_fold b a) as (H1 & H2 & H3) end.
  split.
  - split; simpl; auto.
    + rewrite !complete_iff, H1, H2. simpl. unfold refused_total. simpl. intros [? ?]. split; [lia|done].
    + unfold patched_total. by rewrite H3.
  - simpl. rewrite complete_iff, H1. intros [Hz _]. rewrite length_fmap in Hz.
    exists words. split_and!; [done|done|]. intros i w Hw Hside _. exfalso.
    destruct Hpl as [_ _ Hp _].
    assert (length ((site_addr <$> patched r) ++ (refused_addr <$> refused r)) = 0%nat) as Hlen.
    { rewrite <- (merge_sort_Permutation Z.le). lia. }
    rewrite length_app, !length_fmap in Hlen.
    assert (addr_of (e_vaddr s) i ∈ (store_addr (elf_section im k s words) <$> patched r) ++ (refused_addr <$> refused r)) as Hin.
    { rewrite Hp. apply list_elem_of_fmap. exists i. split; [done|]. apply list_elem_of_filter. split.
      - unfold store_side_at. simpl. by rewrite Hw.
      - apply elem_of_seq. apply lookup_lt_Some in Hw. lia. }
    destruct (patched r), (refused r); simpl in *; [by apply elem_of_nil in Hin|lia|lia|lia].
Qed.

Lemma plan_proven im acc k s words ev r : image_ok im -> i_sections im !! k = Some s ->
  e_words s = Some words -> e_writable s = false -> e_unproven s = None -> e_evidence s = Some ev ->
  planned (elf_section im k s words) (length words) r ->
  forall report, (complete report = true -> complete (plan_report acc) = true) ->
    patched_total report = patched_total (plan_report acc) ->
  exists acc',
    (r' ← filter_plan im s words r;
     let report := report_exclusive (exclusive_instructions r') report in
     let report := foldl report_patched report (patched r') in
     let report := foldl report_refused report (refused r') in
     patches ← site_patches (e_offset s) (e_vaddr s) words (patched r');
     Done (MkFilePlan report (plan_patches acc ++ patches))) = Done acc' /\
    extends im acc acc' /\ (complete (plan_report acc') = true -> covered acc' s).
Proof.
  intros Him Hk Hwords Hwr Hun Hev Hpl report Hrep Htot.
  destruct (image_words im Him s words) as (Hu & Hf & Ho & Hof); [by eapply list_elem_of_lookup_2|done|].
  destruct (filter_plan_spec im k s words r Him Hu Hf Hpl) as (r' & E & Hgood & Hcov).
  set (c := elf_section im k s words) in *.
  assert (forall x, x ∈ patched r' -> site_at c (site_start c x) x) as Hat.
  { intros x Hx. destruct Hpl as [Hs _ _ _]. rewrite Forall_forall in Hs. by apply Hs, Hgood. }
  rewrite E. cbn [mbind outcome_bind].
  assert (site_patches (e_offset s) (e_vaddr s) words (patched r') = Done (patch_of c (e_offset s) <$> patched r')) as ->.
  { apply (site_patches_spec c (e_offset s)); [done|done|by apply Forall_forall]. }
  cbn [mbind outcome_bind]. eexists. split; [done|].
  match goal with |- context [foldl report_refused ?a ?b] =>
    destruct (report_refused_fold b a) as (H1 & H2 & H3) end.
  match goal with _ : context [foldl report_patched ?a ?b] |- _ =>
    destruct (report_patched_fold b a) as (H4 & H5 & H6) end.
  split.
  - split; cbn [plan_patches plan_report].
    + set_solver.
    + intros p [Hp|(x & -> & Hx)%list_elem_of_fmap]%elem_of_app; [by left|right].
      exists k, s, words, x. do 4 (split; [done|]). split; [by eexists|].
      split; [by apply Hat|]. split; [by apply Hgood|done].
    + intros Hc. apply Hrep. revert Hc. rewrite !complete_iff, H1, H2, H4, H5. simpl.
      unfold refused_total. simpl. intros [? ?]. split; [lia|done].
    + intros Ht. unfold patched_total at 1. rewrite H3. fold (patched_total (foldl report_patched (report_exclusive (exclusive_instructions r') report) (patched r'))).
      rewrite H6, length_app, length_fmap. change (patched_total (report_exclusive _ report)) with (patched_total report). lia.
  - cbn [plan_report]. rewrite complete_iff, H1. intros [Hz _].
    assert (refused r' = []) as Hnone by (destruct (refused r'); [done|simpl in Hz; lia]).
    exists words. split_and!; [done|done|]. intros i w Hw Hside [[? Hx]|Hin]; [congruence|].
    destruct (Hcov Hnone i w Hw Hside Hin) as (x & Hx & Ex).
    exists (patch_of c (e_offset s) x). split; [cbn [plan_patches]; set_solver|].
    pose proof (store_in_site c x i Hf (Hat x Hx) (lookup_lt_Some _ _ _ Hw) Ex) as ->.
    destruct (Hat x Hx) as [_ Hsh _]. destruct (shape_length _ _ _ _ Hsh).
    cbn [p_offset p_rewritten patch_of]. rewrite length_words_to_bytes. unfold site_end. lia.
Qed.

Lemma plan_one_spec im acc k s : image_ok im -> i_sections im !! k = Some s ->
  exists acc', plan_one im acc k s = Done acc' /\ extends im acc acc' /\
    (complete (plan_report acc') = true -> covered acc' s).
Proof.
  intros Him Hk. unfold plan_one. destruct (e_words s) as [words|] eqn:Hwords.
  2: { eexists. split; [done|]. destruct (skip_extends im acc (SectionTruncated (e_offset s))) as [? E].
       split; [done|]. simpl. by rewrite E. }
  destruct (e_writable s) eqn:Hwr.
  { eexists. split; [done|]. destruct (skip_extends im acc (SectionWritable (e_vaddr s))) as [? E].
    split; [done|]. simpl. by rewrite E. }
  destruct (image_words im Him s words) as (Hu & Hf & Ho & Hof); [by eapply list_elem_of_lookup_2|done|].
  destruct (plan_section_planned words (e_vaddr s) (external_targets im k) (i_known_entries im) Hu Hf)
    as (r & Hr & Hpl).
  destruct (e_unproven s) as [reason|] eqn:Hun.
  { rewrite Hr. cbn [mbind outcome_bind]. eexists. split; [done|]. by eapply plan_unproven. }
  set (unknown := length (filter _ (imap pair words))).
  destruct (e_evidence s) as [ev|] eqn:Hev.
  2: { eexists. split; [done|]. destruct (skip_extends im acc (SectionUnmarked (e_vaddr s) unknown)) as [? E].
       split; [done|]. simpl. by rewrite E. }
  rewrite Hr. cbn [mbind outcome_bind]. eapply plan_proven; try done.
  - destruct (unknown =? 0)%nat; [done|].
    destruct (skip_extends im acc (SectionUnknown (e_vaddr s) unknown)) as [_ E]. by rewrite E.
  - by destruct (unknown =? 0)%nat.
Qed.

#[global] Instance extends_preorder im : PreOrder (extends im).
Proof.
  split.
  - intros a. split; auto.
  - intros a b d [O1 N1 C1 T1] [O2 N2 C2 T2]. split; auto. intros p [?|?]%N2; auto.
Qed.
Lemma covered_extends im fp fp' s : extends im fp fp' -> covered fp s -> covered fp' s.
Proof.
  intros [Ho _ _ _] (words & H1 & H2 & H3). exists words. split_and!; [done|done|].
  intros i w Hw Hs Hc. destruct (H3 i w Hw Hs Hc) as (p & ? & ?). eauto.
Qed.

Lemma plan_loop_spec im k acc : image_ok im ->
  exists fp, plan_loop im acc k (drop k (i_sections im)) = Done fp /\ extends im acc fp /\
    (complete (plan_report fp) = true -> Forall (covered fp) (drop k (i_sections im))).
Proof.
  intros Him. remember (drop k (i_sections im)) as rest eqn:Er. revert k acc Er.
  induction rest as [|s rest IH]; intros k acc Er.
  { exists acc. split; [done|]. split; [reflexivity|constructor]. }
  assert (i_sections im !! k = Some s) as Hk.
  { rewrite <- (Nat.add_0_r k), <- lookup_drop, <- Er. done. }
  destruct (plan_one_spec im acc k s Him Hk) as (acc1 & E1 & X1 & C1).
  destruct (IH (S k) acc1) as (fp & E2 & X2 & C2).
  { rewrite (drop_S _ s) in Er by done. by injection Er. }
  exists fp. cbn [plan_loop]. rewrite E1. cbn [mbind outcome_bind]. split; [done|].
  split; [by etrans|]. intros Hc. constructor; [|by apply C2].
  eapply covered_extends; [done|]. apply C1. by apply (extends_complete _ _ _ X2).
Qed.

Lemma plan_image_spec im : image_ok im ->
  exists fp, plan_image im = Done fp /\
    (forall p, p ∈ plan_patches fp -> good_patch im p) /\
    patched_total (plan_report fp) = length (plan_patches fp) /\
    (complete (plan_report fp) = true -> Forall (covered fp) (i_sections im)).
Proof.
  intros Him. unfold plan_image. destruct (i_relr_unreadable im).
  { eexists. split; [done|]. simpl. split_and!; [by intros p ?%elem_of_nil|done|done]. }
  destruct (plan_loop_spec im 0 (MkFilePlan FileReport_default []) Him) as (fp & E & X & C).
  exists fp. split; [done|]. split_and!.
  - intros p Hp. destruct (extends_new _ _ _ X p Hp) as [Hn|]; [by apply elem_of_nil in Hn|done].
  - by apply (extends_total _ _ _ X).
  - done.
Qed.

(** * Applying the patches to the file *)

Definition patch_covers (p : FilePatch) (i : nat) : Prop :=
  p_offset p <= Z.of_nat i < p_offset p + Z.of_nat (length (p_rewritten p)).
Lemma apply_patches_spec patches bytes :
  Forall (fun p => 0 <= p_offset p /\
    p_offset p + Z.of_nat (length (p_rewritten p)) <= Z.of_nat (length bytes)) patches ->
  exists bytes', apply_patches bytes patches = Done bytes' /\ length bytes' = length bytes /\
    forall i, (forall p, p ∈ patches -> ~ patch_covers p i) -> bytes' !! i = bytes !! i.
Proof.
  revert bytes. induction patches as [|p patches IH]; intros bytes Hp; [by exists bytes|].
  apply Forall_cons in Hp as [[H1 H2] Hp].
  destruct (copy_into_spec bytes (Z.to_nat (p_offset p)) (p_rewritten p)) as (b1 & E1 & L1 & _ & O1); [lia|].
  destruct (IH b1) as (b2 & E2 & L2 & O2); [by rewrite L1|].
  exists b2. cbn [apply_patches]. rewrite E1. cbn [mbind outcome_bind]. split_and!; [done|congruence|].
  intros i Hi. rewrite O2 by (intros; apply Hi; set_solver). apply O1. intros [? ?].
  apply (Hi p); [set_solver|]. unfold patch_covers. lia.
Qed.

(** * Packed relative relocations *)

(** A bitmap names the word at each of its set bits. *)
Lemma relr_bits_exact fuel bits a : 0 <= bits < 2 ^ Z.of_nat fuel -> 0 <= a ->
  a + 8 * Z.of_nat fuel <= u64_max ->
  relr_bits fuel bits a =
    (fun i => (a + 8 * Z.of_nat i, a + 8 * Z.of_nat i + 8)) <$>
      filter (fun i => Z.testbit bits (Z.of_nat i) = true) (seq 0 fuel).
Proof.
  revert bits a. induction fuel as [|fuel IH]; intros bits a Hb Ha Hs; [done|].
  cbn [relr_bits seq]. rewrite Nat2Z.inj_succ, Z.pow_succ_r in Hb by lia.
  assert (sat_add_u64 a 8 = a + 8) as Esat by (unfold sat_add_u64; lia).
  assert (filter (fun i => Z.testbit bits (Z.of_nat i) = true) (seq 1 fuel) =
    S <$> filter (fun i => Z.testbit (Z.shiftr bits 1) (Z.of_nat i) = true) (seq 0 fuel)) as Eshift.
  { rewrite <- fmap_S_seq. clear. induction (seq 0 fuel) as [|i l IH]; [done|].
    rewrite fmap_cons, !filter_cons, IH, Z.shiftr_spec by lia.
    replace (Z.of_nat (S i)) with (Z.of_nat i + 1) by lia. by destruct (Z.testbit bits _). }
  rewrite filter_cons, Eshift, Esat. destruct (Z.eqb_spec bits 0) as [->|Hne].
  { rewrite Z.shiftr_0_l. simpl. clear. induction (seq 0 fuel) as [|i l IH]; [done|].
    rewrite filter_cons. by rewrite decide_False by (by rewrite Z.testbit_0_l). }
  rewrite IH; [| |lia|lia].
  2: { rewrite Z.shiftr_div_pow2 by lia. split; [apply Z.div_pos; lia|apply Z.div_lt_upper_bound; lia]. }
  assert ((Z.land bits 1 =? 1) = Z.testbit bits 0) as ->.
  { change 1 with (Z.ones 1) at 1. rewrite Z.land_ones by lia. change (2 ^ 1) with 2. rewrite <- Z.bit0_mod. by destruct (Z.testbit bits 0). }
  change (Z.of_nat 0) with 0. destruct (Z.testbit bits 0); simpl; [f_equal; [f_equal; lia|]|].
  all: rewrite <- list_fmap_compose; apply list_fmap_ext; intros ? i _; simpl; f_equal; lia.
Qed.

(** C12: every patch of an image's plan is safe.  Planning does not panic.  Each
    patch replaces, byte for byte at the same length, a swap or read-modify-write
    loop of a section whose code the evidence proves and whose mapping is not
    writable, with the replacement the section's plan gives; the loop lies in one
    code span, no literal, no unbounded read and no relocation touches it, no
    branch of any section and no known entry enters it after its first
    instruction, and the image holds no possible branch of unknown target.
    Applying the patches leaves every other byte of the file. *)
Theorem image_patches_safe (im : image) (Him : image_ok im) :
  exists fp, plan_image im = Done fp /\
    (forall p, p ∈ plan_patches fp -> length (p_original p) = length (p_rewritten p) /\
       good_patch im p) /\
    forall bytes,
      (forall s words, s ∈ i_sections im -> e_words s = Some words ->
         e_offset s + 4 * Z.of_nat (length words) <= Z.of_nat (length bytes)) ->
      exists bytes', apply_patches bytes (plan_patches fp) = Done bytes' /\
        length bytes' = length bytes /\
        forall i, (forall p, p ∈ plan_patches fp -> ~ patch_covers p i) -> bytes' !! i = bytes !! i.
Proof.
  destruct (plan_image_spec im Him) as (fp & E & Hgood & _ & _). exists fp. split; [done|]. split.
  - intros p Hp. split; [|by apply Hgood].
    destruct (Hgood p Hp) as (k & s & words & site & Hk & Hw & _ & _ & _ & [_ Hsh _] & _ & ->).
    destruct (shape_length _ _ _ _ Hsh). cbn [p_original p_rewritten patch_of]. rewrite !length_words_to_bytes.
    f_equal. rewrite length_take, length_drop. lia.
  - intros bytes Hb. apply apply_patches_spec. apply Forall_forall. intros p Hp.
    destruct (Hgood p Hp) as (k & s & words & site & Hk & Hw & _ & _ & _ & [_ Hsh _] & _ & ->).
    destruct (shape_length _ _ _ _ Hsh) as [_ Hl]. cbn [sec_words elf_section] in Hl.
    assert (s ∈ i_sections im) as Hs by (by eapply list_elem_of_lookup_2).
    destruct (image_words im Him s words Hs Hw) as (_ & _ & Ho & _). specialize (Hb s words Hs Hw).
    cbn [p_offset p_rewritten patch_of]. rewrite length_words_to_bytes. lia.
Qed.

(** An image of one marked section: the counter loop, a branch and a return. *)
Definition one_section : image :=
  MkImage
    [MkElfSection 0x40 0x1000 24 false
       (Some [0xc85ffc64; 0x91000484; 0xc805fc64; 0x35ffffa5; 0x17fffffc; 0xd65f03c0])
       (Some MappingSymbols) None [(0x1000, 0x1018)] []]
    {[0x1000]} [(0x2000, 0x2008)] [] [(0x3000, 0x3008)] false.
Lemma one_section_ok : image_ok one_section.
Proof.
  split.
  - intros s words [->|?%elem_of_nil]%elem_of_cons; [|done]. cbn [e_words]. intros [= <-].
    split_and!; [|split; simpl; lia|simpl; lia|simpl; lia].
    unfold is_u32, u32_max. repeat constructor; lia.
  - split; [repeat constructor|]. intros r [->|?%elem_of_nil]%elem_of_cons; [simpl; lia|done].
  - constructor.
Qed.
Lemma image_patches_safe_witness :
  exists fp, plan_image one_section = Done fp /\ length (plan_patches fp) = 1%nat /\
    forall p, p ∈ plan_patches fp -> good_patch one_section p.
Proof.
  destruct (image_patches_safe one_section one_section_ok) as (fp & E & H & _).
  exists fp. split; [exact E|]. split; [vm_compute in E; injection E as <-; reflexivity|].
  intros p Hp. apply H. exact Hp.
Defined.

(** C22: a complete report means what it says.  When a plan's report is complete,
    every executable section was read, none of them is mapped writable, and every
    store-exclusive and store pair in a section's code lies in the bytes of a
    patch; the number of patches is the number of rewritten sequences
    reported. *)
Theorem complete_covers_every_store (im : image) (Him : image_ok im) :
  exists fp, plan_image im = Done fp /\
    patched_total (plan_report fp) = length (plan_patches fp) /\
    (complete (plan_report fp) = true -> forall s, s ∈ i_sections im ->
       exists words, e_words s = Some words /\ e_writable s = false /\
         forall i w, words !! i = Some w -> is_store_side w = true ->
           is_Some (e_unproven s) \/ in_spans (e_code s) (addr_of (e_vaddr s) i) = true ->
           exists p, p ∈ plan_patches fp /\
             p_offset p <= e_offset s + 4 * Z.of_nat i < p_offset p + Z.of_nat (length (p_rewritten p))).
Proof.
  destruct (plan_image_spec im Him) as (fp & E & _ & Ht & Hc). exists fp. split_and!; [done|done|].
  intros Hcomp s Hs. specialize (Hc Hcomp). rewrite Forall_forall in Hc. exact (Hc s Hs).
Qed.
Lemma complete_covers_every_store_witness :
  exists fp, plan_image one_section = Done fp /\ complete (plan_report fp) = true /\
    forall s, s ∈ i_sections one_section -> e_writable s = false.
Proof.
  destruct (complete_covers_every_store one_section one_section_ok) as (fp & E & _ & H).
  assert (complete (plan_report fp) = true) as Hc by (vm_compute in E; injection E as <-; reflexivity).
  exists fp. split; [exact E|]. split; [exact Hc|].
  intros s Hs. destruct (H Hc s Hs) as (words & _ & Hw & _). exact Hw.
Defined.

End LseElfProps.
